(* ===== verification/_CoqProject ===== *)
-Q . S2P
Prelude.v
GoStrings.v
Hashing.v
Json.v
Urn.v
UrnFacts.v
FifoQueue.v
DeHeap.v
DeHeapFacts.v
PriorityQueue.v
RoundRobin.v
HashRing.v
ConsistentHash.v
NoLockHash.v
Trie.v
TimeWheel.v
AliasRoute.v
Route.v
RouteFacts.v
ExecEndpoint.v
Resolver.v
ResolverFacts.v
Lease.v
SchedulerProxy.v
LeasePool.v
LeaseSystem.v
LeaseFacts.v
RetainFacts.v
SessionContext.v
SessionContextApi.v
SessionContextFacts.v
JwtAuth.v
JwtAuthFacts.v
Middleware.v
MiddlewareFacts.v
MemMonitor.v
SandboxNetwork.v
SandboxNetworkFacts.v
SandboxSpec.v
SandboxSpecFacts.v
SandboxCreate.v
SandboxCreateFacts.v
SandboxLifecycle.v
SandboxLifecycleFacts.v
InstanceRegistry.v
InstanceWait.v
InstanceFacts.v
InstanceWaitFacts.v
ProxyRouting.v
ProxyRoutingFacts.v
ProxyClient.v
ProxyClientFacts.v
PendingQueue.v
InvokeResponse.v
Invocation.v
InvocationFacts.v
FunctionMeta.v
EtcdCache.v
EtcdWatcher.v
EtcdLock.v
EtcdClient.v
JsonMarshal.v
JsonReplace.v
Agent.v
AgentQuery.v
AgentFacts.v
AgentProps.v
AgentFiles.v
AsyncInvoke.v
ClientLease.v
BusProxies.v
TrafficLimit.v
ClusterHealth.v
DataSystem.v
LocalData.v
Jobs.v
AuthApi.v
Sdk.v
KernelStream.v
KernelRpc.v
