(* ===== verification/Prelude.v ===== *)
(** * A verification development for the yuanrong FaaS frontend

    The frontend (Go, src/cmd and src/pkg) is the gateway of a FaaS cluster: it
    receives invocations over HTTP, resolves which version of a function an
    alias stands for, finds the scheduler that owns the request, leases an
    instance from it and forwards the call to the proxy of the instance. It
    also creates, queries and deletes sandboxes and agents, serves session
    contexts, and in its sandbox router maps entry paths and runtimes to the
    addresses of running instances. Most of its state comes from etcd events.
    This library models the parts that carry its own logic as executable
    definitions and proves what makes them correct.

    ** Conventions

    Strings are byte strings ([string]); Go maps are [gmap]s, and the order in
    which the code ranges over a map is a parameter; a Go error result is
    [res], a nil pointer or a panic [option]; fixed-width integers are [Z] with
    the wrap-around written out ([wrapU], [wrapS]) where the source can
    overflow, and plain [Z] where the values are counters or indices that
    cannot. A [time.Time] is a [Z] of nanoseconds and the result of [time.Now]
    is an input; the zero time is [None] or 0, as each file says. Objects that
    the code shares by pointer (leases, pools, list elements, triggers) live in
    a heap and are named by addresses. [sort] functions are [merge_sort] for
    the same order; where the order is not total the file argues why the result
    is unique. Concurrent code is a step function over events, one event per
    critical section, and the theorems speak of all sequences of events. Files
    are lists of the states a run passes through, so that it can be cut off
    anywhere. The network, etcd, the kernel, cryptography and Unicode tables
    are parameters or events; JSON is decoded and encoded by the model in Json
    and JsonMarshal where the result matters, and a parameter elsewhere.

    ** Files

    - Prelude, GoStrings, Hashing: results, integers, tactics and hints; the
      functions of [strings], [strconv] and [unicode/utf8] the code uses;
      CRC-32, FNV-1a and SHA-256, checked against test vectors.
    - Json, JsonMarshal, JsonReplace: [encoding/json] as a reader of bytes, the
      decoding of structs, base64; the encoder with the theorem that reading
      undoes writing; replacing text inside encoded JSON.
    - Urn, UrnFacts: pkg/common/faas_common/urnutils (URNs, function keys, CR
      names). Parsing and printing are inverse, the tenant check accepts a
      tenant's own URN only, CR names fit a Kubernetes label.
    - FifoQueue, DeHeap, DeHeapFacts, PriorityQueue: faas_common/queue. The
      FIFO queue refines a list; pushes keep the max-min heap ordered; deletion
      by ID and the sorted traversal, with its termination. [PopMax] can break
      the heap order, shown on an example.
    - RoundRobin, HashRing, ConsistentHash, NoLockHash: faas_common/loadbalance.
      Smooth weighted round robin is exactly fair over a round; the virtual
      node ring depends only on its members and moves only the keys it must;
      the anchored balancer is sticky and answers live nodes; stained nodes are
      skipped; the lock-free ring's cached search equals the successor.
    - Trie: faas_common/trietree. The tree refines the set of inserted paths;
      longest-prefix match is correct.
    - TimeWheel: faas_common/timewheel. The ticks at which a task fires,
      exactly.
    - AliasRoute: faas_common/aliasroute. Weighted versions get their share of
      requests; candidates cover every routed version; rule routing.
    - Route, RouteFacts, ExecEndpoint, Resolver, ResolverFacts:
      pkg/frontend/sandboxrouter. Routes and exec endpoints stem from the last
      event of their instance; what the resolver answers belongs to a live
      instance; revisions never go back; a read-through that raced with an
      event changes nothing.
    - Lease, LeasePool, LeaseSystem, LeaseFacts, RetainFacts:
      pkg/frontend/leaseadaptor. Leases, their reports and pool keys; the pools
      of a function, one definition per critical section; the same sections
      interleaved. No lease has two holders in any interleaving; the order in
      which idle leases are reused; batches partition the leases; refused
      leases are withdrawn; and the runs in which the code goes wrong.
    - SchedulerProxy: pkg/frontend/schedulerproxy. The registry holds
      what the keys of etcd say while no two of them name the same scheduler; the
      owner of a request is a registered scheduler; a retry never goes back
      to a failed one.
    - SessionContext, SessionContextApi, SessionContextFacts:
      pkg/frontend/sessioncontext and api/v1/session_context.go. Queries over
      the records of a session, page tokens, aggregation into turns, the client
      of the owning scheduler and the seven handlers. A tenant sees only its
      own records; polling delivers every event once and in order.
    - JwtAuth, JwtAuthFacts, Middleware, MiddlewareFacts, MemMonitor: tokens,
      their caches (an LRU list with expiry), the single flight to the IAM
      server, and the middleware chain. What may reach a handler without a
      token is stated exactly; the memory accounts balance.
    - SandboxNetwork, SandboxSpec, SandboxCreate, SandboxLifecycle with their
      Facts files: pkg/frontend/api/sandbox. Network policies have a normal
      form; the time budgets and ports of a create request are consistent;
      creation is idempotent under concurrency and every request is answered;
      only the owner of a sandbox or the system tenant can signal it.
    - InstanceRegistry, InstanceWait, InstanceFacts, InstanceWaitFacts:
      pkg/frontend/instancemanager with its watcher. The registry refines one
      status per instance; a waiting caller never misses its instance.
    - ProxyRouting, ProxyClient with their Facts files:
      pkg/frontend/proxyrouting and the routing client of
      common/util/simple_runtime_proxy_client.go. Registrations converge, an
      owner route is exact, a create is dispatched at most once, a kill makes
      at most two calls.
    - PendingQueue: pkg/frontend/wisecloud queues. Requests
      that wait for an instance are neither lost nor duplicated, and served.
    - InvokeResponse, Invocation, InvocationFacts: pkg/frontend/invocation and
      responsehandler. Leases are returned, a call is repeated only when that
      is safe, every invocation is answered, and within its time.
    - FunctionMeta: pkg/frontend/functionmeta and
      faas_common/singleflight. The FaaS etcd wins over the CAE etcd unless the
      two watchers store a function at the same time, a path finds the longest
      prefix, loads share a fetch.
    - EtcdCache, EtcdWatcher, EtcdLock, EtcdClient:
      faas_common/etcd3. A flush of the cache is atomic with respect to
      crashes while no write of an entry fails; a watcher mirrors etcd unless an event is skipped, and the ways
      to skip one are given; a lock has one holder; the connection follows its
      heartbeats.
    - Agent, AgentQuery, AgentFacts, AgentProps, AgentFiles:
      pkg/frontend/api/agent/handler.go. Requests are validated and turned into
      the options of the kernel call; what the get handler shows is what the
      create request asked for; mounts are safe; time-outs are bounded; uploads
      are checked and limited.
    - AsyncInvoke: pkg/frontend/asyncinvocation and
      api/v1/async_invoke.go. A client that polls sees that its request is in
      progress or its complete result if nothing is written during the poll; slots are accounted for, every goroutine
      ends, webhooks are retried a bounded number of times.
    - ClientLease: pkg/frontend/remoteclientlease with its handlers and
      watcher. A running manager in etcd is one the frontend can call.
    - BusProxies: pkg/frontend/functiontask. The balancer
      holds exactly the healthy proxies while heartbeats do not overlap and every
      address belongs to one node.
    - TrafficLimit, ClusterHealth: tenanttrafficlimit, faas_common/trafficlimit
      and clusterhealth. Tenants have accounts of their own; what the health
      check says.
    - DataSystem, LocalData: faas_common/datasystemclient and
      api/datasystem. Retried operations end and ask no node twice while the
      field of the node used last is not written between their reads, clients are
      kept or destroyed once, the nodes follow etcd, calls to the local data
      system are made under the tenant of the request.
    - Jobs: pkg/common/job, api/job and api/app. What is created for a job that
      was submitted, and which signals a job gets.
    - AuthApi: api/auth. The signed state of a login and its window, when a
      callback logs in and where it leads, and who may require tokens.
    - Sdk: pkg/frontend/frontendsdkadapter, over the class [DataSystemOps] with
      the laws [DataSystemLaws], which are proved of the retried operations of
      DataSystem over a client that behaves as documented ([service]). Values
      that were set are read back or the request fails, payload
      descriptions are read back, executions remove what they uploaded.
    - KernelStream, KernelRpc: faas_common/kernelrpc. A response reaches the
      call that waits for it and a callback runs at most once; a message of the
      pool belongs to one call until it is given back; what goes wrong after a
      time-out and after a failed repair; dialling, synchronous invocation and
      the server.

    ** How the parts fit

    A request passes the chain of Middleware (tokens by JwtAuth). An alias
    (AliasRoute, over RoundRobin) gives the function version of an invocation;
    its URN (Urn) gives the function key and FunctionMeta its specification.
    Invocation serves it from an idle lease of LeaseSystem (FifoQueue) or
    acquires one from the scheduler that SchedulerProxy selects on its ring
    (HashRing), or from the instances of InstanceRegistry, behind which
    PendingQueue waits for cold starts. ProxyRouting gives the proxy that owns
    an instance, ProxyClient calls it, and InvokeResponse answers. The sandbox
    and agent APIs create instances through the same client and wait with
    InstanceWait; Route, ExecEndpoint and Resolver route to them. EtcdWatcher
    delivers the events by which all these tables are kept, over EtcdClient and
    EtcdCache. The interfaces between them are stated as classes or invariants:
    [RingPoint] for points on a ring, [ring_inv], [fifo_inv], [proxy_inv] and
    [reg_inv], [store_inv] and [sys_inv].

    ** Bounds

    Every loop that is not structural carries fuel, and the theorems about
    results are stated for the function with that fuel, not under a hypothesis
    that it returns. The heap and search loops run on the length of their list;
    a traversal of an idle list or a queue takes one element per turn;
    [acquireHandler] makes ten attempts of at most four calls; JSON values are
    read with one unit per byte and nesting ([value_fuel]), and more fuel never
    changes the result; sequential reads of a session take one unit per record;
    the create loop takes one attempt per cached proxy and one more; the
    invocation loop one turn per unit of time until the time-out, and at most
    five executions; numbers are printed with as many units as they have
    digits. Theorems with a machine-width bound state it as a hypothesis (for
    instance [report_window] needs the sum of a period to fit an int64).

    ** Not modelled

    The web UI, websocket, ssh and stream proxying, the connections to etcd,
    the kernel and the data system, logging and metrics, and cryptography are
    input and output or third-party code. Process start-up and configuration
    loading only fill the structures that the models take as inputs.
    Logic of their own that is not modelled is in the argument encoding of
    common/util/simple_runtime_proxy_client.go, the invocation of sandboxes
    over msgpack and the SDK entry points of frontendsdk. *)

From Stdlib Require Export Ascii ZArith Lia.
From stdpp Require Export base gmap sets list strings sorting.

(** * Scopes and the error result of Go functions *)

Declare Scope go_scope.
Delimit Scope go_scope with go.

(** The pair [(value, error)] of a Go function that returns either a value or
    an error: [Ok v] for a nil error, [Err e] otherwise. *)
Inductive res (E A : Type) : Type :=
| Ok (a : A)
| Err (e : E).
Arguments Ok {E A} a.
Arguments Err {E A} e.

Definition res_bind {E A B} (r : res E A) (k : A → res E B) : res E B :=
  match r with Ok a => k a | Err e => Err e end.

Notation "'let*' x := r 'in' k" := (res_bind r (fun x => k))
  (at level 10, x name, r at level 100, k at level 200) : go_scope.

Lemma res_bind_ok {E A B} (m : res E A) (k : A → res E B) b :
  res_bind m k = Ok b → ∃ a, m = Ok a ∧ k a = Ok b.
Proof. destruct m; cbn; [eauto|done]. Qed.

(** The first step of a sequence that succeeded. *)
Ltac bind_in H x Hx := apply res_bind_ok in H as (x & Hx & H).

Lemma Ok_inj {E A} (a b : A) : @Ok E A a = Ok b → a = b.
Proof. by intros [=]. Qed.

Definition is_ok {E A} (r : res E A) : bool :=
  match r with Ok _ => true | Err _ => false end.

Global Instance res_eq_dec {E A} `{EqDecision E, EqDecision A} : EqDecision (res E A).
Proof. solve_decision. Defined.

(** * Machine integers

    A Go integer of a fixed width is a [Z] kept in range by writing out the
    wrap-around where the source can overflow. *)

Definition wrapU (w z : Z) : Z := z mod 2 ^ w.
Definition wrapS (w z : Z) : Z := (z + 2 ^ (w - 1)) mod 2 ^ w - 2 ^ (w - 1).
Definition in_u (w z : Z) : bool := (0 <=? z)%Z && (z <? 2 ^ w)%Z.

Lemma wrapU_small w z : (0 ≤ z < 2 ^ w)%Z → wrapU w z = z.
Proof. intros ?; unfold wrapU; by apply Z.mod_small. Qed.

Lemma wrapU_range w z : (0 ≤ w)%Z → (0 ≤ wrapU w z < 2 ^ w)%Z.
Proof. intros ?; unfold wrapU; apply Z.mod_pos_bound; lia. Qed.

Lemma wrapS_small w z :
  (0 < w)%Z → (- 2 ^ (w - 1) ≤ z < 2 ^ (w - 1))%Z → wrapS w z = z.
Proof.
  intros Hw Hz; unfold wrapS.
  assert (2 ^ w = 2 * 2 ^ (w - 1))%Z as Hp
    by (rewrite <- Z.pow_succ_r by lia; f_equal; lia).
  rewrite Z.mod_small by lia; lia.
Qed.

(** An invariant of a loop over a list. *)
Lemma foldl_inv {A B} (P : A → Prop) (f : A → B → A) l a :
  (∀ a b, b ∈ l → P a → P (f a b)) → P a → P (foldl f a l).
Proof.
  revert a. induction l as [|b l IH]; intros a Hf Ha; [done|]. cbn. apply IH.
  - intros a' b' Hb. apply Hf. by right.
  - apply Hf; [left|done].
Qed.

(** Filters that keep everything, nothing, or the same elements. *)
Lemma filter_all {A} (Q : A → Prop) `{!∀ x, Decision (Q x)} (l : list A) : Forall Q l → filter Q l = l.
Proof. induction 1; [done|]. rewrite filter_cons, decide_True by done. by f_equal. Qed.

Lemma filter_none {A} (Q : A → Prop) `{!∀ x, Decision (Q x)} (l : list A) :
  Forall (λ x, ¬ Q x) l → filter Q l = [].
Proof. induction 1; [done|]. rewrite filter_cons. by rewrite decide_False. Qed.

Lemma filter_ext_in {A} (Q R : A → Prop) `{!∀ x, Decision (Q x), !∀ x, Decision (R x)}
    (l : list A) :
  (∀ x, x ∈ l → Q x ↔ R x) → filter Q l = filter R l.
Proof.
  induction l as [|x l IH]; intros Hl; [done|]. rewrite !filter_cons.
  rewrite IH by (intros; apply Hl; by right). destruct (Hl x) as [H1 H2]; [left|].
  repeat case_decide; tauto.
Qed.

Lemma fmap_filter_sublist {A B} (f : A → B) (Q : A → Prop) `{!∀ x, Decision (Q x)} l :
  sublist (f <$> filter Q l) (f <$> l).
Proof.
  induction l as [|x l IH]; [done|]. rewrite filter_cons. case_decide; rewrite ?fmap_cons;
    [by apply sublist_skip|by apply sublist_cons].
Qed.

(** * Tactics and the hint database of the development *)

Create HintDb go.
Create Rewrite HintDb go.

(** Case analysis on the scrutinee of the first [match] or [if] of the goal. *)
Ltac case_goal :=
  match goal with
  | |- context [match ?x with _ => _ end] => destruct x eqn:?
  end.

(** The same on a scrutinee that has no [match] of its own. *)
Ltac case_inner :=
  match goal with
  | |- context [match ?x with _ => _ end] =>
      lazymatch x with context [match _ with _ => _ end] => fail | _ => destruct x eqn:? end
  end.

(** Case analysis on a hypothesis. *)
Ltac case_in H :=
  match type of H with
  | context [match ?x with _ => _ end] => destruct x eqn:?
  end.

(** Turn boolean comparisons of the source into propositions. *)
Ltac breflect :=
  repeat match goal with
  | H : andb _ _ = true |- _ => apply andb_true_iff in H as [? ?]
  | H : orb _ _ = false |- _ => apply orb_false_iff in H as [? ?]
  | H : negb _ = true |- _ => apply negb_true_iff in H
  | H : negb _ = false |- _ => apply negb_false_iff in H
  | H : (_ <=? _)%Z = true |- _ => apply Z.leb_le in H
  | H : (_ <=? _)%Z = false |- _ => apply Z.leb_gt in H
  | H : (_ <? _)%Z = true |- _ => apply Z.ltb_lt in H
  | H : (_ <? _)%Z = false |- _ => apply Z.ltb_ge in H
  | H : (_ =? _)%Z = true |- _ => apply Z.eqb_eq in H
  | H : (_ =? _)%Z = false |- _ => apply Z.eqb_neq in H
  | H : (_ <=? _)%nat = true |- _ => apply Nat.leb_le in H
  | H : (_ <=? _)%nat = false |- _ => apply Nat.leb_gt in H
  | H : (_ <? _)%nat = true |- _ => apply Nat.ltb_lt in H
  | H : (_ <? _)%nat = false |- _ => apply Nat.ltb_ge in H
  | H : (_ =? _)%nat = true |- _ => apply Nat.eqb_eq in H
  | H : (_ =? _)%nat = false |- _ => apply Nat.eqb_neq in H
  | H : bool_decide _ = true |- _ => apply bool_decide_eq_true in H
  | H : bool_decide _ = false |- _ => apply bool_decide_eq_false in H
  end.
