(* ===== verification/GoStrings.v ===== *)
(** The functions of Go's [strings] and [strconv] packages that the program
    uses, on byte strings ([String.string], one [ascii] per byte), with the
    round-trip lemmas the components share. *)

From S2P Require Import Prelude.

(** * Slicing *)

(** [s[:n]] and [s[n:]] for [n <= len s]. *)
Fixpoint str_take (n : nat) (s : string) : string :=
  match n, s with
  | S n, String c s => String c (str_take n s)
  | _, _ => ""
  end.

Fixpoint str_drop (n : nat) (s : string) : string :=
  match n, s with
  | O, _ => s
  | S n, String _ s => str_drop n s
  | S _, EmptyString => ""
  end.

Fixpoint has_byte (c : ascii) (s : string) : bool :=
  match s with
  | EmptyString => false
  | String a s => bool_decide (a = c) || has_byte c s
  end.

(** * Package strings *)

Definition HasPrefix (s p : string) : bool := String.prefix p s.

Fixpoint Contains (s sub : string) : bool :=
  HasPrefix s sub ||
  match s with
  | EmptyString => false
  | String _ s => Contains s sub
  end.

Fixpoint IndexByte (s : string) (c : ascii) : option nat :=
  match s with
  | EmptyString => None
  | String a s => if bool_decide (a = c) then Some 0 else S <$> IndexByte s c
  end.

Fixpoint LastIndexByte (s : string) (c : ascii) : option nat :=
  match s with
  | EmptyString => None
  | String a s =>
      match LastIndexByte s c with
      | Some i => Some (S i)
      | None => if bool_decide (a = c) then Some 0 else None
      end
  end.

Definition push_head (c : ascii) (l : list string) : list string :=
  match l with
  | [] => [String c ""]
  | h :: t => String c h :: t
  end.

(** [skip] counts the bytes of a separator occurrence still to be consumed. *)
Fixpoint split_go (sep : string) (skip : nat) (s : string) : list string :=
  match s with
  | EmptyString => [""]
  | String c s' =>
      match skip with
      | S k => split_go sep k s'
      | O => if HasPrefix s sep
             then "" :: split_go sep (pred (String.length sep)) s'
             else push_head c (split_go sep 0 s')
      end
  end.

(** [strings.Split] for a non-empty separator. *)
Definition Split (s sep : string) : list string := split_go sep 0 s.

Fixpoint Join (l : list string) (sep : string) : string :=
  match l with
  | [] => ""
  | [x] => x
  | x :: l => x +:+ sep +:+ Join l sep
  end.

(** [strings.ReplaceAll] for a non-empty [old]. *)
Definition ReplaceAll (s old new : string) : string := Join (Split s old) new.

Definition byte_in (lo hi : N) (c : ascii) : bool :=
  (lo <=? N_of_ascii c)%N && (N_of_ascii c <=? hi)%N.
Definition byte_eq (n : N) (c : ascii) : bool := (N_of_ascii c =? n)%N.

(** [unicode.IsSpace] on the UTF-8 encodings of one, two and three bytes. *)
Definition is_space1 (a : ascii) : bool := byte_in 9 13 a || byte_eq 32 a.
Definition is_space2 (a b : ascii) : bool :=
  byte_eq 194 a && (byte_eq 133 b || byte_eq 160 b).
Definition is_space3 (a b c : ascii) : bool :=
  (byte_eq 225 a && byte_eq 154 b && byte_eq 128 c) ||
  (byte_eq 226 a && byte_eq 128 b &&
     (byte_in 128 138 c || byte_eq 168 c || byte_eq 169 c || byte_eq 175 c)) ||
  (byte_eq 226 a && byte_eq 129 b && byte_eq 159 c) ||
  (byte_eq 227 a && byte_eq 128 b && byte_eq 128 c).

Fixpoint trim_left (s : string) : string :=
  match s with
  | EmptyString => ""
  | String a s1 =>
      if is_space1 a then trim_left s1 else
      match s1 with
      | EmptyString => s
      | String b s2 =>
          if is_space2 a b then trim_left s2 else
          match s2 with
          | EmptyString => s
          | String c s3 => if is_space3 a b c then trim_left s3 else s
          end
      end
  end.

(** The same on the reversed string, for trailing white space. *)
Fixpoint trim_right_rev (s : string) : string :=
  match s with
  | EmptyString => ""
  | String a s1 =>
      if is_space1 a then trim_right_rev s1 else
      match s1 with
      | EmptyString => s
      | String b s2 =>
          if is_space2 b a then trim_right_rev s2 else
          match s2 with
          | EmptyString => s
          | String c s3 => if is_space3 c b a then trim_right_rev s3 else s
          end
      end
  end.

Definition TrimSpace (s : string) : string :=
  String.rev (trim_right_rev (String.rev (trim_left s))).

Definition is_ascii_byte (c : ascii) : bool := (N_of_ascii c <? 128)%N.

Fixpoint is_ascii (s : string) : bool :=
  match s with
  | EmptyString => true
  | String c s => is_ascii_byte c && is_ascii s
  end.

Definition lower_byte (c : ascii) : ascii :=
  if byte_in 65 90 c then ascii_of_N (N_of_ascii c + 32) else c.

Fixpoint str_map (f : ascii → ascii) (s : string) : string :=
  match s with
  | EmptyString => ""
  | String c s => String (f c) (str_map f s)
  end.

(** [strings.ToLower]: byte by byte on ASCII strings; [unicode_lower] is the
    Unicode case mapping Go applies to any other string. *)
Definition ToLower (unicode_lower : string → string) (s : string) : string :=
  if is_ascii s then str_map lower_byte s else unicode_lower s.

(** Width of the well-formed UTF-8 sequence a string starts with; [None] when
    the first byte does not start one (Go decodes such a byte as U+FFFD). *)
Definition cont (c : ascii) : bool := byte_in 128 191 c.

Definition utf8_width (s : string) : option nat :=
  match s with
  | EmptyString => None
  | String a s1 =>
      if is_ascii_byte a then Some 1 else
      match s1 with
      | EmptyString => None
      | String b s2 =>
          if byte_in 194 223 a then if cont b then Some 2 else None else
          match s2 with
          | EmptyString => None
          | String c s3 =>
              if byte_in 224 239 a then
                if (if byte_eq 224 a then byte_in 160 191 b
                    else if byte_eq 237 a then byte_in 128 159 b else cont b)
                   && cont c then Some 3 else None
              else
                match s3 with
                | EmptyString => None
                | String d _ =>
                    if byte_in 240 244 a &&
                       (if byte_eq 240 a then byte_in 144 191 b
                        else if byte_eq 244 a then byte_in 128 143 b else cont b)
                       && cont c && cont d then Some 4 else None
                end
          end
      end
  end.

Definition rune_error : string :=
  String (ascii_of_N 239) (String (ascii_of_N 191) (String (ascii_of_N 189) "")).

(** [strings.Map] with a mapping that acts on ASCII runes only: multi-byte
    runes are copied, an ill-formed byte becomes U+FFFD. [copy] counts the
    continuation bytes of the current rune still to be copied. *)
Fixpoint map_go (f : ascii → ascii) (copy : nat) (s : string) : string :=
  match s with
  | EmptyString => ""
  | String c s' =>
      match copy with
      | S k => String c (map_go f k s')
      | O =>
          match utf8_width s with
          | Some 1 => String (f c) (map_go f 0 s')
          | Some w => String c (map_go f (pred w) s')
          | None => rune_error +:+ map_go f 0 s'
          end
      end
  end.
Definition MapAscii (f : ascii → ascii) (s : string) : string := map_go f 0 s.

(** * Package strconv *)

Definition digit (c : ascii) : option Z :=
  if byte_in 48 57 c then Some (Z.of_N (N_of_ascii c) - 48)%Z else None.

Fixpoint parse_digits (acc : Z) (s : string) : option Z :=
  match s with
  | EmptyString => Some acc
  | String c s =>
      match digit c with
      | Some d => parse_digits (10 * acc + d)%Z s
      | None => None
      end
  end.

(** [strconv.ParseUint(s, 10, bits)]; [None] stands for a syntax or range error. *)
Definition ParseUint (s : string) (bits : Z) : option Z :=
  if bool_decide (s = "") then None else
  match parse_digits 0 s with
  | Some n => if (n <? 2 ^ bits)%Z then Some n else None
  | None => None
  end.

(** [strconv.Atoi] on a 64-bit platform. *)
Definition Atoi (s : string) : option Z :=
  let '(neg, rest) :=
    match s with
    | String "-" r => (true, r)
    | String "+" r => (false, r)
    | _ => (false, s)
    end in
  if bool_decide (rest = "") then None else
  match parse_digits 0 rest with
  | None => None
  | Some n =>
      if neg then (if (n <=? 2 ^ 63)%Z then Some (- n)%Z else None)
      else if (n <? 2 ^ 63)%Z then Some n else None
  end.

Definition digit_char (d : Z) : ascii := ascii_of_N (Z.to_N d + 48).

Fixpoint format_go (fuel : nat) (n : Z) (acc : string) : string :=
  let acc' := String (digit_char (n mod 10)) acc in
  match fuel with
  | O => acc'
  | S f => if (n / 10 =? 0)%Z then acc' else format_go f (n / 10) acc'
  end.

(** [strconv.FormatUint(n, 10)]: a uint64 has at most twenty digits. *)
Definition FormatUint (n : Z) : string := format_go 19 n "".

(** [fmt]'s [%d] for an int64. *)
Definition FormatInt (z : Z) : string :=
  if (z <? 0)%Z then "-" +:+ FormatUint (- z) else FormatUint z.

(** * Lemmas on concatenation and slices *)

Lemma app_nil_l_str (s : string) : "" +:+ s = s.
Proof. reflexivity. Qed.

Lemma app_cons_str c (s t : string) : String c s +:+ t = String c (s +:+ t).
Proof. reflexivity. Qed.

Lemma app_nil_r_str (s : string) : s +:+ "" = s.
Proof. induction s as [|c s IH]; [done|]. by rewrite ?app_cons_str, IH. Qed.

Lemma app_assoc_str (s t u : string) : (s +:+ t) +:+ u = s +:+ (t +:+ u).
Proof. induction s as [|c s IH]; [done|]. by rewrite ?app_cons_str, IH. Qed.

Lemma length_app_str (s t : string) :
  String.length (s +:+ t) = String.length s + String.length t.
Proof. induction s as [|c s IH]; [done|]. rewrite ?app_cons_str; simpl; lia. Qed.

Lemma str_take_drop n s : str_take n s +:+ str_drop n s = s.
Proof.
  revert s; induction n as [|n IH]; intros [|c s]; simpl; try done.
  by rewrite ?app_cons_str, IH.
Qed.

Lemma length_str_take n s : String.length (str_take n s) = Nat.min n (String.length s).
Proof. revert s; induction n as [|n IH]; intros [|c s]; simpl; auto. Qed.

Lemma length_str_drop n s : String.length (str_drop n s) = String.length s - n.
Proof. revert s; induction n as [|n IH]; intros [|c s]; simpl; auto. Qed.

Lemma str_take_app s t : str_take (String.length s) (s +:+ t) = s.
Proof. induction s as [|c s IH]; [by destruct t|]. rewrite ?app_cons_str; simpl. by rewrite IH. Qed.

Lemma str_drop_app s t : str_drop (String.length s) (s +:+ t) = t.
Proof. induction s as [|c s IH]; [done|]. rewrite ?app_cons_str; apply IH. Qed.

Lemma str_drop_app_add s n t :
  str_drop (String.length s + n) (s +:+ t) = str_drop n t.
Proof. induction s as [|c s IH]; [done|]. rewrite ?app_cons_str; apply IH. Qed.

Lemma str_take_all n s : String.length s ≤ n → str_take n s = s.
Proof.
  revert s; induction n as [|n IH]; intros [|c s] ?; simpl in *; try done; [lia|].
  rewrite IH; [done|lia].
Qed.

Lemma has_byte_app c s t : has_byte c (s +:+ t) = has_byte c s || has_byte c t.
Proof.
  induction s as [|a s IH]; [done|].
  rewrite ?app_cons_str; simpl; rewrite IH; by destruct (bool_decide _).
Qed.

Lemma app_str_inj_r (s t u : string) : s +:+ u = t +:+ u → s = t.
Proof.
  revert t; induction s as [|a s IH]; intros [|b t]; [done|..].
  - intros H. apply (f_equal String.length) in H.
    rewrite ?app_nil_l_str, ?app_cons_str in H; simpl in H; rewrite length_app_str in H; lia.
  - intros H. apply (f_equal String.length) in H.
    rewrite ?app_nil_l_str, ?app_cons_str in H; simpl in H; rewrite length_app_str in H; lia.
  - rewrite ?app_cons_str; intros [= -> H]. by rewrite (IH t).
Qed.

(** * Prefixes *)

Lemma HasPrefix_app p s : HasPrefix (p +:+ s) p = true.
Proof.
  unfold HasPrefix; induction p as [|c p IH]; [by destruct s|].
  rewrite ?app_cons_str; simpl; destruct (ascii_dec c c); [done|congruence].
Qed.

Lemma HasPrefix_spec s p : HasPrefix s p = true ↔ ∃ r, s = p +:+ r.
Proof.
  split; [|intros [r ->]; apply HasPrefix_app].
  revert s; induction p as [|c p IH]; intros s H; [by exists s|].
  destruct s as [|a s]; [done|]; unfold HasPrefix in H; simpl in H.
  destruct (ascii_dec c a) as [->|]; [|done].
  destruct (IH s H) as [r ->]. by exists r.
Qed.

Lemma HasPrefix_byte c a s : HasPrefix (String a s) (String c "") = bool_decide (a = c).
Proof.
  unfold HasPrefix; simpl. destruct (ascii_dec c a) as [->|Hne].
  - rewrite bool_decide_eq_true_2 by done. by destruct s.
  - by rewrite bool_decide_eq_false_2.
Qed.

Lemma IndexByte_None s c : IndexByte s c = None ↔ has_byte c s = false.
Proof.
  induction s as [|a s IH]; simpl; [done|].
  destruct (bool_decide (a = c)); simpl; [done|].
  rewrite <- IH. by destruct (IndexByte s c).
Qed.

Lemma IndexByte_app s t c :
  has_byte c s = false → IndexByte (s +:+ String c t) c = Some (String.length s).
Proof.
  induction s as [|a s IH]; simpl.
  - intros _. rewrite ?app_nil_l_str; simpl. by rewrite bool_decide_eq_true_2.
  - rewrite ?app_cons_str; simpl. intros [-> Hs]%orb_false_iff. by rewrite IH.
Qed.

Lemma IndexByte_Some s c i :
  IndexByte s c = Some i →
  ∃ t, s = str_take i s +:+ String c t ∧ has_byte c (str_take i s) = false
       ∧ String.length (str_take i s) = i ∧ str_drop (S i) s = t.
Proof.
  revert i; induction s as [|a s IH]; intros i; simpl; [done|].
  destruct (bool_decide (a = c)) eqn:E.
  - intros [= <-]. apply bool_decide_eq_true in E as ->. by exists s.
  - destruct (IndexByte s c) as [j|] eqn:Hj; simpl; [|done]. intros [= <-].
    destruct (IH j eq_refl) as (t & H1 & H2 & H3 & H4).
    exists t; simpl. rewrite E, H2, H3. repeat split; auto.
    rewrite ?app_cons_str. by f_equal.
Qed.

Lemma LastIndexByte_app s t c :
  has_byte c t = false → LastIndexByte (s +:+ String c t) c = Some (String.length s).
Proof.
  intros Ht. assert (LastIndexByte t c = None) as HN.
  { clear s. induction t as [|a t IH]; [done|]; simpl in *.
    apply orb_false_iff in Ht as [E Ht]. by rewrite (IH Ht), E. }
  induction s as [|a s IH].
  - rewrite ?app_nil_l_str; simpl. by rewrite HN, bool_decide_eq_true_2.
  - rewrite ?app_cons_str; simpl. by rewrite IH.
Qed.

Lemma LastIndexByte_None s c : has_byte c s = false → LastIndexByte s c = None.
Proof.
  induction s as [|a s IH]; simpl; [done|].
  intros [E Ht]%orb_false_iff. by rewrite (IH Ht), E.
Qed.

(** * Split and Join are inverse *)

Lemma split_go_nonempty sep k s : split_go sep k s ≠ [].
Proof.
  revert k; induction s as [|c s IH]; intros [|k]; simpl; auto.
  case_goal; [done|]. by destruct (split_go sep 0 s).
Qed.

Lemma Join_cons x l sep : l ≠ [] → Join (x :: l) sep = x +:+ sep +:+ Join l sep.
Proof. by destruct l. Qed.

Lemma Join_push_head c l sep :
  l ≠ [] → Join (push_head c l) sep = String c (Join l sep).
Proof. destruct l as [|h [|h' t]]; simpl; intros; by rewrite ?app_cons_str. Qed.

Lemma Join_split_go sep k s :
  sep ≠ "" → k ≤ String.length s → Join (split_go sep k s) sep = str_drop k s.
Proof.
  intros Hsep; revert k; induction s as [|c s IH]; intros k Hk; cbn [split_go String.length] in *.
  - by destruct k.
  - destruct k as [|k]; [|by rewrite IH by lia].
    destruct (HasPrefix (String c s) sep) eqn:E.
    + apply HasPrefix_spec in E as [r Hr].
      destruct sep as [|c' sep]; [done|]. rewrite ?app_cons_str in Hr.
      injection Hr as <- ->.
      rewrite Join_cons by apply split_go_nonempty. cbn [String.length pred].
      rewrite IH by (rewrite length_app_str; lia).
      by rewrite ?app_nil_l_str, str_drop_app, ?app_cons_str.
    + rewrite Join_push_head by apply split_go_nonempty. rewrite IH by lia.
      by destruct s.
Qed.

Lemma Join_Split s sep : sep ≠ "" → Join (Split s sep) sep = s.
Proof. intros. unfold Split. rewrite Join_split_go by (done || lia). by destruct s. Qed.

Lemma Split_nonempty s sep : Split s sep ≠ [].
Proof. apply split_go_nonempty. Qed.

Lemma Split_cons_byte c a s :
  Split (String a s) (String c "") =
    if bool_decide (a = c) then "" :: Split s (String c "")
    else push_head a (Split s (String c "")).
Proof. unfold Split; cbn [split_go]. rewrite HasPrefix_byte. by destruct (bool_decide _). Qed.

Lemma Split_app_byte c x s :
  has_byte c x = false →
  Split (x +:+ String c s) (String c "") = x :: Split s (String c "").
Proof.
  induction x as [|a x IH]; intros H.
  - rewrite ?app_nil_l_str, Split_cons_byte. by rewrite bool_decide_eq_true_2.
  - simpl in H; apply orb_false_iff in H as [E H].
    rewrite ?app_cons_str, Split_cons_byte, E, IH by done. done.
Qed.

Lemma Split_no_byte c x : has_byte c x = false → Split x (String c "") = [x].
Proof.
  induction x as [|a x IH]; [done|]. simpl; intros [E H]%orb_false_iff.
  rewrite Split_cons_byte, E, IH by done. done.
Qed.

Lemma Split_Join c l :
  l ≠ [] → Forall (λ x, has_byte c x = false) l →
  Split (Join l (String c "")) (String c "") = l.
Proof.
  intros Hl HF; induction HF as [|x l Hx HF IH]; [done|].
  destruct l as [|y l]; [by apply Split_no_byte|].
  rewrite Join_cons by done. rewrite ?app_cons_str, app_nil_l_str.
  rewrite Split_app_byte by done. by rewrite IH.
Qed.

Lemma Split_pieces c s : Forall (λ x, has_byte c x = false) (Split s (String c "")).
Proof.
  induction s as [|a s IH]; [by repeat constructor|].
  rewrite Split_cons_byte. destruct (bool_decide (a = c)) eqn:E; [by constructor|].
  destruct (Split s (String c "")) as [|h t] eqn:Hs; simpl; [by destruct (Split_nonempty s (String c ""))|].
  inversion_clear IH; constructor; [|done]. simpl. by rewrite E.
Qed.

Lemma ReplaceAll_no_byte c s new :
  has_byte c s = false → ReplaceAll s (String c "") new = s.
Proof. intros. unfold ReplaceAll. by rewrite Split_no_byte. Qed.

Lemma ReplaceAll_cons c a s new :
  ReplaceAll (String a s) (String c "") new =
    (if bool_decide (a = c) then new else String a "") +:+ ReplaceAll s (String c "") new.
Proof.
  unfold ReplaceAll. rewrite Split_cons_byte. destruct (bool_decide (a = c)).
  - by rewrite Join_cons by apply Split_nonempty.
  - by rewrite Join_push_head by apply Split_nonempty.
Qed.

Lemma has_byte_ReplaceAll c s new :
  has_byte c new = false → has_byte c (ReplaceAll s (String c "") new) = false.
Proof.
  intros Hn; induction s as [|a s IH]; [done|].
  rewrite ReplaceAll_cons, has_byte_app, IH.
  destruct (bool_decide (a = c)) eqn:E; [by rewrite Hn|]. simpl. by rewrite E.
Qed.

Lemma length_ReplaceAll_byte c s d :
  String.length (ReplaceAll s (String c "") (String d "")) = String.length s.
Proof.
  induction s as [|a s IH]; [done|].
  rewrite ReplaceAll_cons, length_app_str, IH. by destruct (bool_decide _).
Qed.

Lemma length_str_map f s : String.length (str_map f s) = String.length s.
Proof. induction s; simpl; auto. Qed.

#[export] Hint Rewrite app_nil_l_str app_cons_str app_nil_r_str app_assoc_str : go.
#[export] Hint Resolve Split_nonempty split_go_nonempty Split_pieces : go.

(** * Decimal numerals *)

Lemma digit_range c d : digit c = Some d → (0 ≤ d < 10)%Z.
Proof.
  unfold digit, byte_in. intros H. case_in H; [|done]. injection H as <-.
  apply andb_true_iff in Heqb as [H1%N.leb_le H2%N.leb_le]. lia.
Qed.

Lemma parse_digits_nonneg s acc n :
  (0 ≤ acc)%Z → parse_digits acc s = Some n → (0 ≤ n)%Z.
Proof.
  revert acc; induction s as [|c s IH]; simpl; intros acc Ha H; [congruence|].
  destruct (digit c) as [d|] eqn:E; [|done]. apply digit_range in E. eapply IH, H. lia.
Qed.

Lemma Atoi_range s z : Atoi s = Some z → (- 2 ^ 63 ≤ z < 2 ^ 63)%Z.
Proof.
  unfold Atoi. intros H. case_in H. case_in H; [done|].
  destruct (parse_digits 0 _) as [n|] eqn:E; [|done]. apply parse_digits_nonneg in E; [|lia].
  repeat case_in H; try done; injection H as <-; breflect; lia.
Qed.

Lemma is_ascii_take n s : is_ascii s = true → is_ascii (str_take n s) = true.
Proof.
  revert s; induction n as [|n IH]; intros [|c s]; simpl; try done.
  intros [-> H]%andb_true_iff. simpl. auto.
Qed.

Lemma ParseUint_range s bits n : ParseUint s bits = Some n → (0 ≤ n < 2 ^ bits)%Z.
Proof.
  unfold ParseUint. case_bool_decide; [done|].
  destruct (parse_digits 0 s) eqn:E; [|done]. intros Hr; case_in Hr; [|done].
  simplify_eq. apply parse_digits_nonneg in E; [|lia]. breflect. lia.
Qed.

Lemma digit_digit_char d : (0 ≤ d < 10)%Z → digit (digit_char d) = Some d.
Proof.
  intros H. unfold digit, digit_char, byte_in.
  rewrite N_ascii_embedding by lia.
  destruct (_ && _)%N eqn:E.
  - f_equal. lia.
  - apply andb_false_iff in E as [E%N.leb_gt|E%N.leb_gt]; lia.
Qed.

Lemma parse_digits_format fuel n acc a :
  (0 ≤ n < 10 ^ Z.of_nat (S fuel))%Z →
  ∃ k, (0 ≤ k)%Z ∧ parse_digits a (format_go fuel n acc)
       = parse_digits (a * 10 ^ k + n)%Z acc ∧ format_go fuel n acc ≠ "".
Proof.
  revert n acc a; induction fuel as [|f IH]; intros n acc a Hn; cbn [format_go].
  - exists 1%Z. simpl parse_digits. rewrite digit_digit_char by (apply Z.mod_pos_bound; lia).
    rewrite Z.mod_small by lia. repeat split; [lia|f_equal; lia|done].
  - assert (digit (digit_char (n mod 10)) = Some (n mod 10)%Z) as Hd
      by (apply digit_digit_char, Z.mod_pos_bound; lia).
    destruct (n / 10 =? 0)%Z eqn:E; breflect.
    + exists 1%Z. simpl parse_digits. rewrite Hd. repeat split; [lia| |done].
      f_equal. pose proof (Z.div_mod n 10). lia.
    + destruct (IH (n / 10)%Z (String (digit_char (n mod 10)) acc) a) as (k & Hk & H1 & H2).
      { split; [apply Z.div_pos; lia|].
        apply Z.div_lt_upper_bound; [lia|].
        rewrite <- Z.pow_succ_r by lia. replace (Z.succ (Z.of_nat (S f))) with (Z.of_nat (S (S f))) by lia. lia. }
      exists (Z.succ k). rewrite H1. simpl parse_digits. rewrite Hd. repeat split; [lia| |done].
      f_equal. rewrite Z.pow_succ_r by done. pose proof (Z.div_mod n 10). lia.
Qed.

Lemma ParseUint_FormatUint n bits :
  (0 ≤ n < 2 ^ bits)%Z → (0 ≤ bits ≤ 64)%Z → ParseUint (FormatUint n) bits = Some n.
Proof.
  intros Hn Hb. assert (2 ^ bits ≤ 2 ^ 64)%Z by (apply Z.pow_le_mono_r; lia).
  destruct (parse_digits_format 19 n "" 0) as (k & _ & H1 & H2); [lia|].
  unfold ParseUint, FormatUint. rewrite bool_decide_eq_false_2 by done. rewrite H1, Z.mul_0_l, Z.add_0_l. simpl.
  destruct (n <? 2 ^ bits)%Z eqn:E; [done|]. breflect. lia.
Qed.

(** Printed integers of a machine word are distinct. *)
Lemma FormatInt_inj z z' :
  (- 2 ^ 63 ≤ z < 2 ^ 63)%Z → (- 2 ^ 63 ≤ z' < 2 ^ 63)%Z → FormatInt z = FormatInt z' → z = z'.
Proof.
  intros Hz Hz'. unfold FormatInt.
  assert (∀ n, (0 ≤ n < 2 ^ 64)%Z → ParseUint (FormatUint n) 64 = Some n) as Hp
    by (intros; apply ParseUint_FormatUint; lia).
  assert (∀ n s, (0 ≤ n < 2 ^ 64)%Z → FormatUint n = "-" +:+ s → False) as Hminus.
  { intros n s Hn E. specialize (Hp n Hn). rewrite E in Hp. by vm_compute in Hp. }
  destruct (z <? 0)%Z eqn:E1, (z' <? 0)%Z eqn:E2; breflect; intros E.
  - rewrite !app_cons_str, !app_nil_l_str in E. apply (f_equal (str_drop 1)) in E. cbn [str_drop] in E. apply (f_equal (λ s, ParseUint s 64)) in E. cbv beta in E. rewrite !Hp in E by lia.
    injection E. lia.
  - symmetry in E. apply Hminus in E; [done|lia].
  - apply Hminus in E; [done|lia].
  - apply (f_equal (λ s, ParseUint s 64)) in E. cbv beta in E. rewrite !Hp in E by lia. by injection E.
Qed.
