(* ===== verification/Hashing.v ===== *)
(** The hash functions of Go's standard library that place keys on the hash
    rings and shorten names: [hash/crc32] (IEEE), [hash/fnv] (32-bit FNV-1a)
    and [crypto/sha256]. Each is executable and checked on published vectors. *)

From S2P Require Import Prelude.
Local Open Scope Z_scope.

Fixpoint bytes_of (s : string) : list Z :=
  match s with
  | EmptyString => []
  | String c s => Z.of_N (N_of_ascii c) :: bytes_of s
  end.

Lemma bytes_of_range s : Forall (λ b, 0 ≤ b < 256) (bytes_of s).
Proof.
  induction s as [|c s IH]; constructor; [|done].
  pose proof (N_ascii_bounded c). lia.
Qed.

(** * CRC-32 *)

Definition crc_bit (c : Z) : Z :=
  if Z.testbit c 0 then Z.lxor (Z.shiftr c 1) 3988292384 else Z.shiftr c 1.

Definition crc_byte (c b : Z) : Z := Nat.iter 8 crc_bit (Z.lxor c b).

Definition crc32 (s : string) : Z :=
  Z.lxor (foldl crc_byte 4294967295 (bytes_of s)) 4294967295.

Example crc32_vector : crc32 "123456789" = 3421780262.
Proof. vm_compute. reflexivity. Qed.

(** * FNV-1a, 32 bits *)

Definition fnv_byte (h b : Z) : Z := wrapU 32 (Z.lxor h b * 16777619).
Definition fnv32a (s : string) : Z := foldl fnv_byte 2166136261 (bytes_of s).

Example fnv32a_vector : fnv32a "foobar" = 3214735720.
Proof. vm_compute. reflexivity. Qed.

(** * SHA-256 *)

Definition mask32 : Z := 4294967295.
Definition add32 (a b : Z) : Z := Z.land (a + b) mask32.
Definition rotr (n x : Z) : Z :=
  Z.lor (Z.shiftr x n) (Z.land (Z.shiftl x (32 - n)) mask32).
Definition lxor3 (a b c : Z) : Z := Z.lxor a (Z.lxor b c).

Definition sha_K : list Z :=
  [1116352408; 1899447441; 3049323471; 3921009573; 961987163; 1508970993; 2453635748; 2870763221;
   3624381080; 310598401; 607225278; 1426881987; 1925078388; 2162078206; 2614888103; 3248222580;
   3835390401; 4022224774; 264347078; 604807628; 770255983; 1249150122; 1555081692; 1996064986;
   2554220882; 2821834349; 2952996808; 3210313671; 3336571891; 3584528711; 113926993; 338241895;
   666307205; 773529912; 1294757372; 1396182291; 1695183700; 1986661051; 2177026350; 2456956037;
   2730485921; 2820302411; 3259730800; 3345764771; 3516065817; 3600352804; 4094571909; 275423344;
   430227734; 506948616; 659060556; 883997877; 958139571; 1322822218; 1537002063; 1747873779;
   1955562222; 2024104815; 2227730452; 2361852424; 2428436474; 2756734187; 3204031479; 3329325298].

Definition sha_H0 : list Z :=
  [1779033703; 3144134277; 1013904242; 2773480762; 1359893119; 2600822924; 528734635; 1541459225].

Definition be32 (a b c d : Z) : Z := ((a * 256 + b) * 256 + c) * 256 + d.

Fixpoint words (l : list Z) : list Z :=
  match l with
  | a :: b :: c :: d :: l => be32 a b c d :: words l
  | _ => []
  end.

(** The sixteen-word message schedule window, oldest word first, slides by one
    word per round. *)
Definition sched_next (w : list Z) : Z :=
  match w with
  | [w0; w1; _; _; _; _; _; _; _; w9; _; _; _; _; w14; _] =>
      let s0 := lxor3 (rotr 7 w1) (rotr 18 w1) (Z.shiftr w1 3) in
      let s1 := lxor3 (rotr 17 w14) (rotr 19 w14) (Z.shiftr w14 10) in
      add32 (add32 w0 s0) (add32 w9 s1)
  | _ => 0
  end.

Definition sha_round (st w : list Z) (k : Z) : list Z :=
  match st, w with
  | [a; b; c; d; e; f; g; h], w0 :: _ =>
      let S1 := lxor3 (rotr 6 e) (rotr 11 e) (rotr 25 e) in
      let ch := Z.lxor (Z.land e f) (Z.land (Z.lxor e mask32) g) in
      let t1 := add32 (add32 h S1) (add32 (add32 ch k) w0) in
      let S0 := lxor3 (rotr 2 a) (rotr 13 a) (rotr 22 a) in
      let maj := lxor3 (Z.land a b) (Z.land a c) (Z.land b c) in
      [add32 t1 (add32 S0 maj); a; b; c; add32 d t1; e; f; g]
  | _, _ => st
  end.

Fixpoint sha_rounds (ks st w : list Z) : list Z :=
  match ks with
  | [] => st
  | k :: ks => sha_rounds ks (sha_round st w k) (tail w ++ [sched_next w])
  end.

Definition sha_block (h w : list Z) : list Z :=
  zip_with add32 h (sha_rounds sha_K h w).

Fixpoint sha_blocks (fuel : nat) (h ws : list Z) : list Z :=
  match fuel with
  | O => h
  | S f =>
      match ws with
      | [] => h
      | _ => sha_blocks f (sha_block h (take 16 ws)) (drop 16 ws)
      end
  end.

Definition be_bytes (n : nat) (z : Z) : list Z :=
  (λ i, Z.land (Z.shiftr z (8 * Z.of_nat i)) 255) <$> reverse (seq 0 n).

Definition sha_pad (m : list Z) : list Z :=
  let l := Z.of_nat (length m) in
  m ++ [128] ++ replicate (Z.to_nat ((55 - l) mod 64)) 0 ++ be_bytes 8 (8 * l).

(** The first [virtualNodeHashBytes = 4] bytes of [sha256.Sum256], big endian. *)
Definition sha256_words (s : string) : list Z :=
  let ws := words (sha_pad (bytes_of s)) in
  sha_blocks (length ws) sha_H0 ws.

Definition sha256_head (s : string) : Z := default 0 (head (sha256_words s)).

Example sha256_vector : sha256_words "abc" =
  [3128432319; 2399260650; 1094795486; 1571693091; 2953011619; 2518121116; 3021012833; 4060091821].
Proof. vm_compute. reflexivity. Qed.

(** Every hash is a uint32. *)
Lemma lxor_u32 a b : 0 ≤ a < 2 ^ 32 → 0 ≤ b < 2 ^ 32 → 0 ≤ Z.lxor a b < 2 ^ 32.
Proof.
  intros Ha Hb. assert (0 ≤ Z.lxor a b) by (apply Z.lxor_nonneg; lia).
  split; [done|]. destruct (Z.eq_dec (Z.lxor a b) 0) as [->|]; [lia|].
  apply Z.log2_lt_pow2; [lia|].
  eapply Z.le_lt_trans; [apply Z.log2_lxor; lia|].
  apply Z.max_lub_lt.
  - destruct (Z.eq_dec a 0) as [->|]; [done|]. apply Z.log2_lt_pow2; lia.
  - destruct (Z.eq_dec b 0) as [->|]; [done|]. apply Z.log2_lt_pow2; lia.
Qed.

Lemma crc_bit_u32 c : 0 ≤ c < 2 ^ 32 → 0 ≤ crc_bit c < 2 ^ 32.
Proof.
  intros Hc. assert (0 ≤ Z.shiftr c 1 < 2 ^ 32).
  { rewrite Z.shiftr_div_pow2 by lia. change (2 ^ 1) with 2.
    split; [apply Z.div_pos; lia|]. apply Z.div_lt_upper_bound; lia. }
  unfold crc_bit. case_goal; [apply lxor_u32; lia|done].
Qed.

Lemma crc_byte_u32 c b : 0 ≤ c < 2 ^ 32 → 0 ≤ b < 256 → 0 ≤ crc_byte c b < 2 ^ 32.
Proof.
  intros Hc Hb. unfold crc_byte.
  assert (0 ≤ Z.lxor c b < 2 ^ 32) as H by (apply lxor_u32; lia).
  clear Hc Hb. generalize 8%nat; intros n.
  induction n as [|n IH]; simpl Nat.iter; [done|by apply crc_bit_u32].
Qed.

Lemma crc32_u32 s : 0 ≤ crc32 s < 2 ^ 32.
Proof.
  unfold crc32. apply lxor_u32; [|lia].
  assert (0 ≤ 4294967295 < 2 ^ 32) as H0 by lia. revert H0.
  generalize 4294967295. pose proof (bytes_of_range s) as H.
  induction H as [|b l Hb Hl IH]; intros c Hc; simpl; [done|].
  by apply IH, crc_byte_u32.
Qed.

Lemma fnv32a_u32 s : 0 ≤ fnv32a s < 2 ^ 32.
Proof.
  unfold fnv32a. assert (0 ≤ 2166136261 < 2 ^ 32) as H0 by lia. revert H0.
  generalize 2166136261. induction (bytes_of s) as [|b l IH]; intros c Hc; simpl; [done|].
  apply IH. unfold fnv_byte. apply wrapU_range. lia.
Qed.
