(* ===== verification/Json.v ===== *)
(** * Packages encoding/json, encoding/base64 and encoding/hex

    The parts of Go's encoding packages that the front end relies on: decoding
    of a JSON text into an [any] (numbers kept as their literals, as with
    [Decoder.UseNumber]), decoding of an object into the fields of a struct,
    the string encoder with and without HTML escaping, unpadded URL base64 and
    lower-case hex. The round trips of quoted strings and of base64 are proved
    here and used by the components. *)

From S2P Require Import Prelude GoStrings Hashing.
Open Scope string_scope.

(** ** Values *)

(** What [json.Unmarshal] stores in an [any]; a [map[string]any] is the list of
    its members in the order of the text, of which the last with a key counts. *)
Inductive any :=
| JNull
| JBool (b : bool)
| JNumber (lit : string)
| JString (s : string)
| JArray (l : list any)
| JObject (kvs : list (string * any)).

(** [m[k]] with its presence flag. *)
Definition map_get (kvs : list (string * any)) (k : string) : option any :=
  foldl (λ acc kv, if bool_decide (kv.1 = k) then Some kv.2 else acc) None kvs.

Definition map_has (kvs : list (string * any)) (k : string) : bool :=
  match map_get kvs k with Some _ => true | None => false end.

(** ** Strings *)

Definition quote_char : ascii := ascii_of_N 34.
Definition backslash : ascii := ascii_of_N 92.

Definition hex_digit (n : N) : ascii :=
  if (n <? 10)%N then ascii_of_N (n + 48) else ascii_of_N (n + 87).

Definition hex_value (c : ascii) : option N :=
  if byte_in 48 57 c then Some (N_of_ascii c - 48)%N
  else if byte_in 97 102 c then Some (N_of_ascii c - 87)%N
  else if byte_in 65 70 c then Some (N_of_ascii c - 55)%N
  else None.

Definition hex4 (a b c d : ascii) : option N :=
  match hex_value a, hex_value b, hex_value c, hex_value d with
  | Some x, Some y, Some z, Some w => Some (((x * 16 + y) * 16 + z) * 16 + w)%N
  | _, _, _, _ => None
  end.

(** [utf8.AppendRune] of a code point outside the surrogates. *)
Definition encode_rune (r : N) : string :=
  if (r <? 128)%N then String (ascii_of_N r) ""
  else if (r <? 2048)%N then
    String (ascii_of_N (192 + r / 64)) (String (ascii_of_N (128 + r mod 64)) "")
  else if (r <? 65536)%N then
    String (ascii_of_N (224 + r / 4096))
      (String (ascii_of_N (128 + r / 64 mod 64)) (String (ascii_of_N (128 + r mod 64)) ""))
  else
    String (ascii_of_N (240 + r / 262144))
      (String (ascii_of_N (128 + r / 4096 mod 64))
        (String (ascii_of_N (128 + r / 64 mod 64)) (String (ascii_of_N (128 + r mod 64)) ""))).

Definition is_surrogate (r : N) : bool := (55296 <=? r)%N && (r <? 57344)%N.

(** [utf16.DecodeRune] of a valid pair. *)
Definition surrogate_pair (hi lo : N) : option N :=
  if (55296 <=? hi)%N && (hi <? 56320)%N && (56320 <=? lo)%N && (lo <? 57344)%N
  then Some ((hi - 55296) * 1024 + (lo - 56320) + 65536)%N else None.

(** The byte a one-letter escape stands for. *)
Definition simple_escape (c : ascii) : option ascii :=
  if byte_eq 34 c || byte_eq 92 c || byte_eq 47 c then Some c
  else if byte_eq 98 c then Some (ascii_of_N 8)
  else if byte_eq 102 c then Some (ascii_of_N 12)
  else if byte_eq 110 c then Some (ascii_of_N 10)
  else if byte_eq 114 c then Some (ascii_of_N 13)
  else if byte_eq 116 c then Some (ascii_of_N 9)
  else None.

Definition prepend (p : string) (r : option (string * string)) : option (string * string) :=
  match r with Some (s, rest) => Some (p +:+ s, rest) | None => None end.

(** The body of a string literal after its opening quote: the decoded string
    and the text after the closing quote. [copy] counts the bytes of the
    current rune still to be copied; ill-formed bytes and lone surrogates
    become U+FFFD; control bytes and unknown escapes are errors. *)
Fixpoint read_string (copy : nat) (s : string) : option (string * string) :=
  match s with
  | EmptyString => None
  | String c s' =>
      match copy with
      | S k => prepend (String c "") (read_string k s')
      | O =>
          if byte_eq 34 c then Some ("", s')
          else if byte_eq 92 c then
            match s' with
            | EmptyString => None
            | String e s1 =>
                if byte_eq 117 e then
                  match s1 with
                  | String a (String b (String x (String y s2))) =>
                      match hex4 a b x y with
                      | None => None
                      | Some r =>
                          if is_surrogate r then
                            match s2 with
                            | String p (String q (String a' (String b' (String x' (String y' s3))))) =>
                                match (if byte_eq 92 p && byte_eq 117 q
                                       then match hex4 a' b' x' y' with
                                            | Some r' => surrogate_pair r r' | None => None end
                                       else None) with
                                | Some r' => prepend (encode_rune r') (read_string 0 s3)
                                | None => prepend rune_error (read_string 0 s2)
                                end
                            | _ => prepend rune_error (read_string 0 s2)
                            end
                          else prepend (encode_rune r) (read_string 0 s2)
                      end
                  | _ => None
                  end
                else
                  match simple_escape e with
                  | Some c' => prepend (String c' "") (read_string 0 s1)
                  | None => None
                  end
            end
          else if byte_in 0 31 c then None
          else
            match utf8_width s with
            | Some w => prepend (String c "") (read_string (pred w) s')
            | None => prepend rune_error (read_string 0 s')
            end
      end
  end.

Definition escape_byte (html : bool) (c : ascii) : string :=
  if byte_eq 34 c || byte_eq 92 c then String backslash (String c "")
  else if byte_eq 8 c then String backslash "b"
  else if byte_eq 12 c then String backslash "f"
  else if byte_eq 10 c then String backslash "n"
  else if byte_eq 13 c then String backslash "r"
  else if byte_eq 9 c then String backslash "t"
  else if byte_in 0 31 c || (html && (byte_eq 60 c || byte_eq 62 c || byte_eq 38 c)) then
    String backslash ("u00" +:+
      String (hex_digit (N_of_ascii c / 16)) (String (hex_digit (N_of_ascii c mod 16)) ""))
  else String c "".

(** U+2028 and U+2029, which the encoder always escapes. *)
Definition line_separator (a b c : ascii) : bool :=
  byte_eq 226 a && byte_eq 128 b && byte_in 168 169 c.

(** [appendString] between the quotes. *)
Fixpoint quote_body (html : bool) (copy : nat) (s : string) : string :=
  match s with
  | EmptyString => ""
  | String c s' =>
      match copy with
      | S k => String c (quote_body html k s')
      | O =>
          match utf8_width s with
          | Some 1 => escape_byte html c +:+ quote_body html 0 s'
          | Some w =>
              match s' with
              | String b (String d s3) =>
                  if line_separator c b d then
                    String backslash ("u202" +:+
                      String (hex_digit (N_of_ascii d mod 16)) (quote_body html 0 s3))
                  else String c (quote_body html (pred w) s')
              | _ => String c (quote_body html (pred w) s')
              end
          | None => String backslash "ufffd" +:+ quote_body html 0 s'
          end
      end
  end.

Definition quote (html : bool) (s : string) : string :=
  String quote_char (quote_body html 0 s +:+ String quote_char "").

(** [utf8.ValidString]. *)
Fixpoint valid_utf8 (copy : nat) (s : string) : bool :=
  match s with
  | EmptyString => true
  | String _ s' =>
      match copy with
      | S k => valid_utf8 k s'
      | O => match utf8_width s with Some w => valid_utf8 (pred w) s' | None => false end
      end
  end.

(** ** Values of a text *)

Fixpoint skip_ws (s : string) : string :=
  match s with
  | EmptyString => ""
  | String c s' =>
      if byte_eq 32 c || byte_eq 9 c || byte_eq 10 c || byte_eq 13 c then skip_ws s' else s
  end.

Definition number_byte (c : ascii) : bool :=
  byte_in 48 57 c || byte_eq 43 c || byte_eq 45 c || byte_eq 46 c || byte_eq 69 c || byte_eq 101 c.

Fixpoint span_number (s : string) : string * string :=
  match s with
  | String c s' =>
      if number_byte c then let '(a, b) := span_number s' in (String c a, b) else ("", s)
  | EmptyString => ("", "")
  end.

Fixpoint span_digits (s : string) : string * string :=
  match s with
  | String c s' =>
      if byte_in 48 57 c then let '(a, b) := span_digits s' in (String c a, b) else ("", s)
  | EmptyString => ("", "")
  end.

Definition is_empty (s : string) : bool :=
  match s with EmptyString => true | _ => false end.

(** The exponent and the fraction of a number literal. *)
Definition valid_exponent (s : string) : bool :=
  match s with
  | EmptyString => true
  | String c s' =>
      if byte_eq 69 c || byte_eq 101 c then
        let s2 := match s' with
                  | String d r => if byte_eq 43 d || byte_eq 45 d then r else s'
                  | EmptyString => s'
                  end in
        let '(ds, rest) := span_digits s2 in negb (is_empty ds) && is_empty rest
      else false
  end.

Definition valid_fraction (s : string) : bool :=
  match s with
  | String c s' =>
      if byte_eq 46 c then
        let '(ds, rest) := span_digits s' in negb (is_empty ds) && valid_exponent rest
      else valid_exponent s
  | EmptyString => true
  end.

(** The number grammar: no leading zeros, digits on both sides of the point. *)
Definition valid_number (s : string) : bool :=
  let s1 := match s with String c r => if byte_eq 45 c then r else s | EmptyString => s end in
  match s1 with
  | EmptyString => false
  | String c r =>
      if byte_eq 48 c then valid_fraction r
      else let '(ds, rest) := span_digits s1 in negb (is_empty ds) && valid_fraction rest
  end.

(** One value and the text after it. Every call that descends consumes a
    byte, so the length of the text is enough fuel ([value_fuel] below). *)
Fixpoint read_value (fuel : nat) (s : string) : option (any * string) :=
  match fuel with
  | O => None
  | S f =>
      let s := skip_ws s in
      match s with
      | EmptyString => None
      | String c r =>
          if byte_eq 123 c then
            match skip_ws r with
            | String d r' =>
                if byte_eq 125 d then Some (JObject [], r') else read_members f [] (String d r')
            | EmptyString => None
            end
          else if byte_eq 91 c then
            match skip_ws r with
            | String d r' =>
                if byte_eq 93 d then Some (JArray [], r') else read_elements f [] (String d r')
            | EmptyString => None
            end
          else if byte_eq 34 c then
            match read_string 0 r with Some (v, r') => Some (JString v, r') | None => None end
          else if HasPrefix s "true" then Some (JBool true, str_drop 4 s)
          else if HasPrefix s "false" then Some (JBool false, str_drop 5 s)
          else if HasPrefix s "null" then Some (JNull, str_drop 4 s)
          else
            let '(lit, r') := span_number s in
            if valid_number lit then Some (JNumber lit, r') else None
      end
  end
with read_members (fuel : nat) (acc : list (string * any)) (s : string) : option (any * string) :=
  match fuel with
  | O => None
  | S f =>
      match skip_ws s with
      | String q r =>
          if negb (byte_eq 34 q) then None else
          match read_string 0 r with
          | None => None
          | Some (k, r1) =>
              match skip_ws r1 with
              | String c r2 =>
                  if negb (byte_eq 58 c) then None else
                  match read_value f r2 with
                  | None => None
                  | Some (v, r3) =>
                      match skip_ws r3 with
                      | String d r4 =>
                          if byte_eq 44 d then read_members f (acc ++ [(k, v)]) r4
                          else if byte_eq 125 d then Some (JObject (acc ++ [(k, v)]), r4)
                          else None
                      | EmptyString => None
                      end
                  end
              | EmptyString => None
              end
          end
      | EmptyString => None
      end
  end
with read_elements (fuel : nat) (acc : list any) (s : string) : option (any * string) :=
  match fuel with
  | O => None
  | S f =>
      match read_value f s with
      | None => None
      | Some (v, r) =>
          match skip_ws r with
          | String d r' =>
              if byte_eq 44 d then read_elements f (acc ++ [v]) r'
              else if byte_eq 93 d then Some (JArray (acc ++ [v]), r')
              else None
          | EmptyString => None
          end
      end
  end.

Definition value_fuel (s : string) : nat := 2 * String.length s + 2.

(** [json.Unmarshal] into an [any]: one value and nothing but white space after it. *)
Definition Unmarshal (raw : string) : option any :=
  match read_value (value_fuel raw) raw with
  | Some (v, r) => if is_empty (skip_ws r) then Some v else None
  | None => None
  end.

(** Application under [option], for the fields of a struct. *)
Definition option_ap {A B} (f : option (A → B)) (x : option A) : option B :=
  match f, x with Some f, Some x => Some (f x) | _, _ => None end.
Notation "f <*> x" := (option_ap f x) (at level 62, left associativity) : go_scope.

(** ** Structs

    Field names match case-insensitively ([foldName]: ASCII letters, the long
    s and the Kelvin sign); null leaves a field alone; a value of another type
    is an error of the whole call; the last of repeated members counts. *)

Fixpoint fold_name (s : string) : string :=
  match s with
  | EmptyString => ""
  | String a (String b r as s1) =>
      if byte_eq 197 a && byte_eq 191 b then String "S" (fold_name r)
      else
        match r with
        | String c r' =>
            if byte_eq 226 a && byte_eq 132 b && byte_eq 170 c then String "K" (fold_name r')
            else String (if byte_in 97 122 a then ascii_of_N (N_of_ascii a - 32) else a) (fold_name s1)
        | EmptyString =>
            String (if byte_in 97 122 a then ascii_of_N (N_of_ascii a - 32) else a) (fold_name s1)
        end
  | String a EmptyString =>
      String (if byte_in 97 122 a then ascii_of_N (N_of_ascii a - 32) else a) ""
  end.

Definition field {A} (conv : any → option A) (zero : A) (name : string)
    (kvs : list (string * any)) : option A :=
  foldl (λ acc kv,
    match acc with
    | None => None
    | Some a =>
        if bool_decide (fold_name kv.1 = fold_name name) then
          match kv.2 with JNull => Some a | v => conv v end
        else Some a
    end) (Some zero) kvs.

Definition to_string (v : any) : option string :=
  match v with JString s => Some s | _ => None end.
Definition to_int (v : any) : option Z :=
  match v with JNumber lit => Atoi lit | _ => None end.
Definition to_bool (v : any) : option bool :=
  match v with JBool b => Some b | _ => None end.

Definition string_field (name : string) (kvs : list (string * any)) : option string :=
  field to_string "" name kvs.
Definition int_field (name : string) (kvs : list (string * any)) : option Z :=
  field to_int 0%Z name kvs.
(** A field of type [any]: null stores nil. *)
Definition any_field (name : string) (kvs : list (string * any)) : any :=
  foldl (λ acc kv, if bool_decide (fold_name kv.1 = fold_name name) then kv.2 else acc) JNull kvs.

(** A struct value: an object is decoded field by field, null leaves the zero
    struct, anything else is an error. *)
Definition to_struct {A} (zero : A) (decode : list (string * any) → option A) (v : any) : option A :=
  match v with JObject kvs => decode kvs | JNull => Some zero | _ => None end.

(** A slice of structs. *)
Definition to_slice {A} (conv : any → option A) (v : any) : option (list A) :=
  match v with JArray l => mapM conv l | _ => None end.

(** ** Base64 without padding, URL alphabet *)

Definition b64_char (n : N) : ascii :=
  if (n <? 26)%N then ascii_of_N (n + 65)
  else if (n <? 52)%N then ascii_of_N (n + 71)
  else if (n <? 62)%N then ascii_of_N (n - 4)
  else if (n =? 62)%N then "-"%char else "_"%char.

Definition b64_value (c : ascii) : option N :=
  if byte_in 65 90 c then Some (N_of_ascii c - 65)%N
  else if byte_in 97 122 c then Some (N_of_ascii c - 71)%N
  else if byte_in 48 57 c then Some (N_of_ascii c + 4)%N
  else if byte_eq 45 c then Some 62%N
  else if byte_eq 95 c then Some 63%N
  else None.

(** [base64.RawURLEncoding.EncodeToString]. *)
Fixpoint b64_encode (s : string) : string :=
  match s with
  | EmptyString => ""
  | String a EmptyString =>
      let x := N_of_ascii a in
      String (b64_char (x / 4)) (String (b64_char (x mod 4 * 16)) "")
  | String a (String b EmptyString) =>
      let x := N_of_ascii a in let y := N_of_ascii b in
      String (b64_char (x / 4))
        (String (b64_char (x mod 4 * 16 + y / 16)) (String (b64_char (y mod 16 * 4)) ""))
  | String a (String b (String c r)) =>
      let x := N_of_ascii a in let y := N_of_ascii b in let z := N_of_ascii c in
      String (b64_char (x / 4))
        (String (b64_char (x mod 4 * 16 + y / 16))
          (String (b64_char (y mod 16 * 4 + z / 64))
            (String (b64_char (z mod 64)) (b64_encode r))))
  end.

Fixpoint b64_groups (l : list N) : option string :=
  match l with
  | [] => Some ""
  | [_] => None
  | [a; b] => Some (String (ascii_of_N (a * 4 + b / 16)) "")
  | [a; b; c] =>
      Some (String (ascii_of_N (a * 4 + b / 16)) (String (ascii_of_N (b mod 16 * 16 + c / 4)) ""))
  | a :: b :: c :: d :: r =>
      match b64_groups r with
      | Some s =>
          Some (String (ascii_of_N (a * 4 + b / 16))
                 (String (ascii_of_N (b mod 16 * 16 + c / 4))
                   (String (ascii_of_N (c mod 4 * 64 + d)) s)))
      | None => None
      end
  end.

Fixpoint b64_values (s : string) : option (list N) :=
  match s with
  | EmptyString => Some []
  | String c r =>
      if byte_eq 10 c || byte_eq 13 c then b64_values r
      else match b64_value c, b64_values r with
           | Some v, Some l => Some (v :: l)
           | _, _ => None
           end
  end.

(** [base64.RawURLEncoding.DecodeString]: line breaks are skipped, the unused
    bits of the last symbol are not checked. *)
Definition b64_decode (s : string) : option string :=
  match b64_values s with Some l => b64_groups l | None => None end.

(** ** Hex *)

(** [hex.EncodeToString] of the big-endian bytes of 32-bit words. *)
Fixpoint hex_bytes (l : list Z) : string :=
  match l with
  | [] => ""
  | b :: r => String (hex_digit (Z.to_N b / 16)) (String (hex_digit (Z.to_N b mod 16)) (hex_bytes r))
  end.

Definition sha256_hex (s : string) : string := hex_bytes (sha256_words s ≫= be_bytes 4).

(** ** Quoted strings are read back *)

Lemma prepend_app p q r : prepend p (prepend q r) = prepend (p +:+ q) r.
Proof. destruct r as [[s t]|]; cbn; [|done]. by rewrite app_assoc_str. Qed.

Lemma prepend_Some p s t : prepend p (Some (s, t)) = Some (p +:+ s, t).
Proof. done. Qed.

Lemma read_escape html c t :
  is_ascii_byte c = true →
  read_string 0 (escape_byte html c +:+ t) = prepend (String c "") (read_string 0 t).
Proof.
  destruct html, c as [[] [] [] [] [] [] [] []]; intros H; try discriminate H; reflexivity.
Qed.

(** Case analysis in a hypothesis on a scrutinee that has no [match] of its own. *)
Ltac case_inner_in H :=
  match type of H with
  | context [match ?x with _ => _ end] =>
      lazymatch x with context [match _ with _ => _ end] => fail | _ => destruct x eqn:? end
  end.

(** The width of the first rune depends on its bytes only. *)
Lemma utf8_width_prefix s t w :
  utf8_width s = Some w → utf8_width (str_take w s +:+ t) = Some w.
Proof.
  destruct s as [|a [|b [|c [|d s]]]]; cbn -[byte_in byte_eq cont is_ascii_byte];
    intros H; repeat case_inner_in H; simplify_eq; cbn [str_take];
    rewrite !app_cons_str, app_nil_l_str; cbn -[byte_in byte_eq cont is_ascii_byte];
    repeat match goal with
    | E : ?x = _ :> bool |- context [?x] => rewrite E; cbn -[byte_in byte_eq cont is_ascii_byte]
    end; done.
Qed.

Lemma utf8_width_bounds s w : utf8_width s = Some w → (1 ≤ w ≤ String.length s)%nat.
Proof.
  destruct s as [|a [|b [|c [|d s]]]]; cbn -[byte_in byte_eq cont is_ascii_byte];
    intros H; repeat case_in H; simplify_eq; lia.
Qed.

Lemma utf8_width_multi a s w :
  utf8_width (String a s) = Some w → w ≠ 1 →
  is_ascii_byte a = false ∧ byte_eq 34 a = false ∧ byte_eq 92 a = false ∧ byte_in 0 31 a = false.
Proof.
  cbn -[byte_in byte_eq cont is_ascii_byte]. destruct (is_ascii_byte a) eqn:Ha; [intros [= <-]; done|].
  intros _ _. unfold is_ascii_byte, byte_eq, byte_in in *. rewrite !andb_false_iff.
  repeat rewrite N.eqb_neq. repeat rewrite N.leb_gt. apply N.ltb_ge in Ha. split_and!; try done; lia.
Qed.

Lemma read_string_copy p t :
  read_string (String.length p) (p +:+ t) = prepend p (read_string 0 t).
Proof.
  induction p as [|c p IH]; cbn -[read_string].
  - rewrite app_nil_l_str. by destruct (read_string 0 t) as [[]|].
  - rewrite app_cons_str. cbn. rewrite IH, prepend_app. done.
Qed.

Lemma quote_body_copy html p t :
  quote_body html (String.length p) (p +:+ t) = p +:+ quote_body html 0 t.
Proof.
  induction p as [|c p IH]; [done|]. rewrite !app_cons_str. cbn [String.length quote_body].
  by rewrite IH.
Qed.

Lemma valid_utf8_copy p t : valid_utf8 (String.length p) (p +:+ t) = valid_utf8 0 t.
Proof. induction p as [|c p IH]; [done|]. rewrite !app_cons_str. cbn [String.length valid_utf8]. apply IH. Qed.

(** A multi-byte rune is read as it stands. *)
Lemma read_rune a p w t :
  utf8_width (String a (p +:+ t)) = Some w → w = S (String.length p) → p ≠ "" →
  ∀ u, read_string 0 (String a (p +:+ u)) = prepend (String a p) (read_string 0 u).
Proof.
  intros Hw Hl Hp u. assert (w ≠ 1) by (destruct p; [done|cbn in Hl; lia]).
  destruct (utf8_width_multi _ _ _ Hw) as (Ha & H34 & H92 & H31); [done|].
  pose proof (utf8_width_prefix _ u _ Hw) as Hu. rewrite Hl in Hu. cbn [str_take] in Hu.
  rewrite str_take_app, app_cons_str in Hu.
  cbn [read_string]. rewrite H34, H92, H31, Hu. cbn [pred]. rewrite read_string_copy, prepend_app. done.
Qed.

Lemma line_separator_read a b d t :
  line_separator a b d = true →
  read_string 0 (String backslash ("u202" +:+ String (hex_digit (N_of_ascii d mod 16)) t)) =
  prepend (String a (String b (String d ""))) (read_string 0 t).
Proof.
  unfold line_separator. intros H. breflect.
  assert (∀ n c, byte_eq n c = true → c = ascii_of_N n) as Heq.
  { intros n c Hc. unfold byte_eq in Hc. apply N.eqb_eq in Hc. rewrite <- Hc. by rewrite ascii_N_embedding. }
  apply Heq in H, H1. subst. unfold byte_in in H0. breflect.
  apply N.leb_le in H, H0. assert (N_of_ascii d = 168 ∨ N_of_ascii d = 169)%N as Hd by lia.
  rewrite <- (ascii_N_embedding d). destruct Hd as [-> | ->]; reflexivity.
Qed.

Lemma utf8_width_ascii a s : utf8_width (String a s) = Some 1 → is_ascii_byte a = true.
Proof.
  cbn -[byte_in byte_eq cont is_ascii_byte]. intros H. repeat case_inner_in H; by simplify_eq.
Qed.

Lemma quote_body_multi html a s w :
  utf8_width (String a s) = Some w → w ≠ 1 →
  (∀ b d s3, s = String b (String d s3) → line_separator a b d = false) →
  quote_body html 0 (String a s) = String a (quote_body html (pred w) s).
Proof.
  intros Hw H1 Hl. cbn [quote_body]. rewrite Hw. destruct w as [|[|w]]; [|done|];
    (destruct s as [|b [|d s3]]; [done|done|]; by rewrite (Hl b d s3)).
Qed.

Lemma line_separator_width a b d s :
  line_separator a b d = true → utf8_width (String a (String b (String d s))) = Some 3.
Proof.
  unfold line_separator, utf8_width, is_ascii_byte, cont, byte_in, byte_eq. intros H. breflect.
  apply N.eqb_eq in H, H2. apply N.leb_le in H0, H1. rewrite H, H2. cbn.
  by destruct (decide (N_of_ascii d = 168%N)) as [->|];
    [|replace (N_of_ascii d) with 169%N by lia].
Qed.

Lemma read_quote_body html n s t :
  (String.length s ≤ n)%nat → valid_utf8 0 s = true →
  read_string 0 (quote_body html 0 s +:+ String quote_char t) = Some (s, t).
Proof.
  revert s. induction n as [|n IH]; intros [|a s] Hn Hv; cbn [String.length] in Hn; [done|lia|done|].
  cbn [valid_utf8] in Hv. destruct (utf8_width (String a s)) as [w|] eqn:Hw; [|done].
  destruct (decide (w = 1)) as [->|H1].
  { cbn [quote_body]. rewrite Hw, app_assoc_str, read_escape by (by eapply utf8_width_ascii).
    by rewrite IH by (done || lia). }
  destruct (utf8_width_bounds _ _ Hw) as [Hlo Hhi]. cbn [String.length] in Hhi.
  destruct (match s with String b (String d _) => line_separator a b d | _ => false end) eqn:Hsep.
  - destruct s as [|b [|d s]]; [done..|]. rewrite line_separator_width in Hw by done.
    simplify_eq. cbn [quote_body]. rewrite line_separator_width, Hsep by done.
    etransitivity; [apply (line_separator_read _ _ _ (quote_body html 0 s +:+ _) Hsep)|].
    rewrite IH; [done| |done]. cbn in Hn; lia.
  - rewrite (quote_body_multi _ _ _ _ Hw H1).
    2:{ intros b d s3 ->. done. }
    set (p := str_take (pred w) s). set (u := str_drop (pred w) s).
    assert (s = p +:+ u) as Hs by (symmetry; apply str_take_drop).
    assert (String.length p = pred w) as Hp by (unfold p; rewrite length_str_take; lia).
    assert (p ≠ "") as Hne by (intros ->; cbn in Hp; lia).
    rewrite Hs in Hv, Hw, Hn |- *. rewrite <- Hp in Hv |- *. rewrite valid_utf8_copy in Hv.
    rewrite quote_body_copy, app_cons_str, app_assoc_str.
    rewrite (read_rune _ _ _ _ Hw) by (done || lia). rewrite length_app_str in Hn.
    by rewrite IH by (done || lia).
Qed.

Lemma read_quote html s t :
  valid_utf8 0 s = true → read_string 0 (quote_body html 0 s +:+ String quote_char t) = Some (s, t).
Proof. by apply read_quote_body with (n := String.length s). Qed.

(** ** Base64 is decoded back *)

Lemma b64_value_char n : (n < 64)%N → b64_value (b64_char n) = Some n.
Proof.
  intros Hn. assert (Forall (λ n, b64_value (b64_char n) = Some n) (N.of_nat <$> seq 0 64)) as Hall
    by (repeat constructor).
  rewrite Forall_forall in Hall. apply Hall. apply list_elem_of_fmap. exists (N.to_nat n).
  split; [lia|]. apply elem_of_seq. lia.
Qed.

Lemma b64_values_char n s :
  (n < 64)%N → b64_values (String (b64_char n) s) = (n ::.) <$> b64_values s.
Proof.
  intros Hn. cbn [b64_values]. rewrite b64_value_char by done.
  assert (byte_eq 10 (b64_char n) || byte_eq 13 (b64_char n) = false) as ->.
  { pose proof (b64_value_char n Hn) as Hv. unfold b64_value in Hv.
    destruct (byte_eq 10 (b64_char n)) eqn:E1; [|destruct (byte_eq 13 (b64_char n)) eqn:E2; [|done]];
      unfold byte_eq, byte_in in *; breflect; apply N.eqb_eq in E1 || apply N.eqb_eq in E2;
      rewrite ?E1, ?E2 in Hv; done. }
  by destruct (b64_values s).
Qed.

Lemma ascii_lt c : (N_of_ascii c < 256)%N.
Proof. apply N_ascii_bounded. Qed.

(** The quotient and the remainder of a number given by its two parts. *)
Lemma N_split k a b : (b < k)%N → ((a * k + b) / k = a)%N ∧ ((a * k + b) mod k = b)%N.
Proof.
  intros Hb. split; symmetry; [apply (N.div_unique _ _ _ b)|apply (N.mod_unique _ _ a)]; lia.
Qed.

Lemma N_parts k x : (k ≠ 0)%N → (x = x / k * k + x mod k)%N ∧ (x mod k < k)%N.
Proof. intros Hk. split; [rewrite (N.div_mod x k) at 1 by done; lia|by apply N.mod_lt]. Qed.

Lemma N_div_lt a k m : (k ≠ 0)%N → (a < k * m)%N → (a / k < m)%N.
Proof. intros. by apply N.Div0.div_lt_upper_bound. Qed.

Lemma ascii_of_parts n c : n = N_of_ascii c → ascii_of_N n = c.
Proof. intros ->. apply ascii_N_embedding. Qed.

Section base64_groups.
  Variables a b c : ascii.
  Local Abbreviation x := (N_of_ascii a).
  Local Abbreviation y := (N_of_ascii b).
  Local Abbreviation z := (N_of_ascii c).

Lemma b64_sym1 : (x / 4 < 64)%N.
Proof. apply N_div_lt; [done|apply ascii_lt]. Qed.

Lemma b64_sym2 : (x mod 4 * 16 + y / 16 < 64)%N.
Proof.
  pose proof (N.mod_lt x 4). pose proof (N_div_lt y 16 16 ltac:(done) (ascii_lt b)). lia.
Qed.

Lemma b64_sym3 : (y mod 16 * 4 + z / 64 < 64)%N.
Proof.
  pose proof (N.mod_lt y 16). pose proof (N_div_lt z 64 4 ltac:(done) (ascii_lt c)). lia.
Qed.

Lemma b64_byte1 : ascii_of_N (x / 4 * 4 + (x mod 4 * 16 + y / 16) / 16) = a.
Proof.
  apply ascii_of_parts. destruct (N_split 16 (x mod 4) (y / 16)) as [-> _].
  - apply N_div_lt; [done|apply ascii_lt].
  - by destruct (N_parts 4 x).
Qed.

Lemma b64_byte2 :
  ascii_of_N ((x mod 4 * 16 + y / 16) mod 16 * 16 + (y mod 16 * 4 + z / 64) / 4) = b.
Proof.
  apply ascii_of_parts. destruct (N_split 16 (x mod 4) (y / 16)) as [_ ->].
  { apply N_div_lt; [done|apply ascii_lt]. }
  destruct (N_split 4 (y mod 16) (z / 64)) as [-> _].
  { apply N_div_lt; [done|apply ascii_lt]. }
  by destruct (N_parts 16 y).
Qed.

Lemma b64_byte3 : ascii_of_N ((y mod 16 * 4 + z / 64) mod 4 * 64 + z mod 64) = c.
Proof.
  apply ascii_of_parts. destruct (N_split 4 (y mod 16) (z / 64)) as [_ ->].
  { apply N_div_lt; [done|apply ascii_lt]. }
  by destruct (N_parts 64 z).
Qed.
End base64_groups.

Lemma b64_decode_encode_le n s : (String.length s ≤ n)%nat → b64_decode (b64_encode s) = Some s.
Proof.
  unfold b64_decode. revert s. induction n as [|n IH]; intros s Hn; [by destruct s; [|cbn in Hn; lia]|].
  destruct s as [|a [|b [|c s]]]; cbn [b64_encode]; [done|..].
  - pose proof (b64_sym2 a "000"). pose proof (b64_byte1 a "000"). change (N_of_ascii "000" / 16)%N with 0%N in *.
    rewrite N.add_0_r in *. rewrite !b64_values_char by auto using b64_sym1. cbn. by rewrite H0.
  - pose proof (b64_sym3 b "000"). pose proof (b64_byte2 a b "000").
    change (N_of_ascii "000" / 64)%N with 0%N in *. rewrite N.add_0_r in *.
    rewrite !b64_values_char by auto using b64_sym1, b64_sym2. cbn [b64_values fmap option_fmap option_map b64_groups].
    by rewrite H0, b64_byte1.
  - cbn in Hn. specialize (IH s ltac:(lia)).
    rewrite !b64_values_char by (auto using b64_sym1, b64_sym2, b64_sym3 || by apply N.mod_lt).
    destruct (b64_values (b64_encode s)) as [l|]; [|done].
    cbn [fmap option_fmap option_map b64_groups]. rewrite IH. by rewrite b64_byte1, b64_byte2, b64_byte3.
Qed.

Lemma b64_decode_encode s : b64_decode (b64_encode s) = Some s.
Proof. by apply (b64_decode_encode_le (String.length s)). Qed.

Lemma b64_encode_empty s : b64_encode s = "" → s = "".
Proof. by destruct s as [|a [|b [|c s]]]. Qed.

(** ** The fuel of [read_value] is enough *)

Lemma skip_ws_le s : (String.length (skip_ws s) ≤ String.length s)%nat.
Proof. induction s as [|c s IH]; cbn; [done|]. case_match; cbn; lia. Qed.

Lemma prepend_inv p r s t : prepend p r = Some (s, t) → ∃ s', r = Some (s', t).
Proof. destruct r as [[s' t']|]; cbn; [|done]. intros [= <- <-]. eauto. Qed.

Lemma read_string_consumes n k s v r :
  (String.length s ≤ n)%nat → read_string k s = Some (v, r) → (String.length r < String.length s)%nat.
Proof.
  revert k s v r. induction n as [|n IH]; intros k s v r Hn; destruct s as [|c s]; cbn in Hn; [done|lia|done|].
  cbn [read_string]. intros H.
  repeat (case_in H; try done);
    first [ injection H as <- <-; cbn; lia
          | apply prepend_inv in H as [s' H]; apply IH in H; cbn in *; subst; cbn in *; lia ].
Qed.

Lemma span_number_rest s : (String.length (span_number s).2 ≤ String.length s)%nat
  ∧ ((span_number s).1 ≠ "" → (String.length (span_number s).2 < String.length s)%nat).
Proof.
  induction s as [|c s [IH _]]; cbn; [done|]. destruct (number_byte c); [|done].
  destruct (span_number s); cbn in *. lia.
Qed.

Lemma read_consumes f :
  (∀ s v r, read_value f s = Some (v, r) → (String.length r < String.length s)%nat) ∧
  (∀ a s v r, read_members f a s = Some (v, r) → (String.length r < String.length s)%nat) ∧
  (∀ a s v r, read_elements f a s = Some (v, r) → (String.length r < String.length s)%nat).
Proof.
  induction f as [|f (IHv & IHm & IHe)]; [done|]. split_and!.
  - intros s v r. cbn [read_value]. pose proof (skip_ws_le s).
    destruct (skip_ws s) as [|c s1] eqn:Hs; [done|]. pose proof (skip_ws_le s1).
    assert (∀ n, 0 < n → String.length (str_drop n (String c s1)) < String.length s)%nat as Hdrop.
    { intros n Hn. rewrite length_str_drop. cbn in *. lia. }
    pose proof (span_number_rest (String c s1)) as [_ Hspan].
    cbn [String.length] in *. intros Hr. repeat (case_in Hr; try done);
      repeat match goal with
      | E : skip_ws s1 = _ |- _ => rewrite E in *; clear E
      end; cbn [String.length fst snd] in *; simplify_eq;
      try (apply Hdrop; lia); try lia.
    + apply IHm in Hr. cbn in *. lia.
    + apply IHe in Hr. cbn in *. lia.
    + match goal with E : read_string _ _ = _ |- _ => apply (read_string_consumes (String.length s1)) in E; lia end.
    + assert (s0 ≠ "") as Hne by (by intros ->). specialize (Hspan Hne). lia.
  - intros a s v r. cbn [read_members]. pose proof (skip_ws_le s).
    destruct (skip_ws s) as [|q s1] eqn:Hs; [done|]. intros Hr. cbn [String.length] in *.
    repeat (case_in Hr; try done);
    repeat match goal with
    | E : read_string _ _ = _ |- _ => apply (read_string_consumes (String.length s1)) in E; [|lia]
    | E : read_value _ _ = _ |- _ => apply IHv in E
    | E : skip_ws ?x = _ |- _ => pose proof (skip_ws_le x); rewrite E in *; clear E
    end; cbn [String.length] in *; [apply IHm in Hr; lia|simplify_eq; lia].
  - intros a s v r. cbn [read_elements]. intros Hr. repeat (case_in Hr; try done);
    repeat match goal with
    | E : read_value _ _ = _ |- _ => apply IHv in E
    | E : skip_ws ?x = _ |- _ => pose proof (skip_ws_le x); rewrite E in *; clear E
    end; cbn [String.length] in *; [apply IHe in Hr; lia|simplify_eq; lia].
Qed.

Lemma read_fuel f : ∀ f',
  (∀ s, 2 * String.length s + 1 ≤ f → 2 * String.length s + 1 ≤ f' →
     read_value f s = read_value f' s)%nat ∧
  (∀ a s, 2 * String.length s + 1 ≤ f → 2 * String.length s + 1 ≤ f' →
     read_members f a s = read_members f' a s)%nat ∧
  (∀ a s, 2 * String.length s + 2 ≤ f → 2 * String.length s + 2 ≤ f' →
     read_elements f a s = read_elements f' a s)%nat.
Proof.
  induction f as [|f IH]; intros f'; [split_and!; intros; lia|].
  destruct f' as [|f']; [split_and!; intros; lia|].
  destruct (IH f') as (IHv & IHm & IHe). split_and!.
  - intros s H1 H2. cbn [read_value]. pose proof (skip_ws_le s).
    destruct (skip_ws s) as [|c s1]; [done|]. cbn [String.length] in *.
    pose proof (skip_ws_le s1). destruct (byte_eq 123 c).
    { destruct (skip_ws s1); [done|]. cbn [String.length] in *. case_match; [done|].
      apply IHm; cbn; lia. }
    destruct (byte_eq 91 c); [|done].
    destruct (skip_ws s1); [done|]. cbn [String.length] in *. case_match; [done|].
    apply IHe; cbn; lia.
  - intros a s H1 H2. cbn [read_members]. pose proof (skip_ws_le s).
    destruct (skip_ws s) as [|q s1]; [done|]. cbn [String.length] in *. destruct (negb (byte_eq 34 q)); [done|].
    destruct (read_string 0 s1) as [[k r1]|] eqn:Hk; [|done].
    apply (read_string_consumes (String.length s1)) in Hk; [|done].
    pose proof (skip_ws_le r1). destruct (skip_ws r1) as [|c r2]; [done|]. cbn [String.length] in *.
    destruct (negb (byte_eq 58 c)); [done|]. rewrite <- (IHv r2) by lia.
    destruct (read_value f r2) as [[v r3]|] eqn:Hv; [|done]. apply read_consumes in Hv.
    pose proof (skip_ws_le r3). destruct (skip_ws r3) as [|d r4]; [done|]. cbn [String.length] in *.
    case_match; [|done]. apply IHm; lia.
  - intros a s H1 H2. cbn [read_elements]. rewrite <- (IHv s) by lia.
    destruct (read_value f s) as [[v r]|] eqn:Hv; [|done]. apply read_consumes in Hv.
    pose proof (skip_ws_le r). destruct (skip_ws r) as [|d r']; [done|]. cbn [String.length] in *.
    case_match; [|done]. apply IHe; lia.
Qed.

(** No more fuel changes the result. *)
Lemma value_fuel_enough f s :
  (value_fuel s ≤ f)%nat → read_value f s = read_value (value_fuel s) s.
Proof. unfold value_fuel. intros Hf. apply read_fuel; lia. Qed.

(** ** Numbers are read back *)

Lemma digit_char_byte d : (0 ≤ d < 10)%Z → byte_in 48 57 (digit_char d) = true.
Proof.
  intros Hd. pose proof (digit_digit_char d Hd) as H. unfold digit in H.
  by destruct (byte_in 48 57 (digit_char d)).
Qed.

Definition all_digits (s : string) : bool := is_empty (span_digits s).2.

Lemma all_digits_cons c s : all_digits (String c s) = byte_in 48 57 c && all_digits s.
Proof.
  unfold all_digits. cbn. destruct (byte_in 48 57 c); [|done]. by destruct (span_digits s).
Qed.

Lemma span_digits_all s : all_digits s = true → span_digits s = (s, "").
Proof.
  induction s as [|c s IH]; [done|]. rewrite all_digits_cons. intros H. breflect.
  cbn. rewrite H, IH by done. done.
Qed.

Lemma span_number_digits s t :
  all_digits s = true → (span_number t).1 = "" → span_number (s +:+ t) = (s, t).
Proof.
  intros Hs Ht. induction s as [|c s IH].
  - rewrite app_nil_l_str. destruct t as [|c t]; [done|]. cbn in *. destruct (number_byte c); [|done].
    by destruct (span_number t).
  - rewrite all_digits_cons in Hs. breflect. rewrite app_cons_str. cbn. unfold number_byte at 1.
    rewrite H. cbn. by rewrite IH.
Qed.

(** Printed naturals are digits without a leading zero. *)
Lemma format_go_digits f n acc :
  (0 ≤ n)%Z → all_digits acc = true → all_digits (format_go f n acc) = true.
Proof.
  revert n acc. induction f as [|f IH]; intros n acc Hn Ha; cbn [format_go];
    [|case_match; [|apply IH]];
    rewrite ?all_digits_cons, ?digit_char_byte, ?Ha; try done;
    try (apply Z.mod_pos_bound; lia). by apply Z.div_pos.
Qed.

Lemma format_go_head f n acc :
  (0 < n < 10 ^ (Z.of_nat f + 1))%Z →
  ∃ c r, format_go f n acc = String c r ∧ byte_eq 48 c = false.
Proof.
  assert (∀ d, (0 < d < 10)%Z → byte_eq 48 (digit_char d) = false) as Hd.
  { intros d Hd. destruct (byte_eq 48 (digit_char d)) eqn:E; [|done]. unfold byte_eq in E.
    apply N.eqb_eq in E. pose proof (digit_digit_char d ltac:(lia)) as H. unfold digit in H.
    rewrite digit_char_byte in H by lia. rewrite E in H. injection H. lia. }
  revert n acc. induction f as [|f IH]; intros n acc Hn; cbn [format_go].
  - rewrite Z.mod_small by (cbn in Hn; lia). eexists _, _; split; [done|]. apply Hd. cbn in Hn; lia.
  - destruct (n / 10 =? 0)%Z eqn:E; breflect.
    + assert (n < 10)%Z by (apply Z.div_small_iff in E; lia). rewrite Z.mod_small by lia.
      eexists _, _; split; [done|]. apply Hd. lia.
    + apply IH. assert (0 ≤ n / 10)%Z by (apply Z.div_pos; lia). split; [lia|].
      apply Z.div_lt_upper_bound; [lia|]. rewrite Nat2Z.inj_succ in Hn.
      replace (Z.succ (Z.of_nat f) + 1)%Z with (1 + (Z.of_nat f + 1))%Z in Hn by lia.
      rewrite Z.pow_add_r in Hn by lia. lia.
Qed.

Lemma valid_number_FormatUint n : (0 ≤ n < 2 ^ 64)%Z → valid_number (FormatUint n) = true.
Proof.
  intros Hn. destruct (decide (n = 0%Z)) as [->|Hnz]; [done|].
  assert (all_digits (FormatUint n) = true) as Hall by (apply format_go_digits; [lia|done]).
  destruct (format_go_head 19 n "") as (c & r & Hf & H0); [lia|].
  fold (FormatUint n) in Hf. rewrite Hf in Hall |- *. unfold valid_number.
  pose proof Hall as Hd. rewrite all_digits_cons in Hd. breflect.
  assert (byte_eq 45 c = false) as H45.
  { destruct (byte_eq 45 c) eqn:E; [|done]. unfold byte_eq in E. apply N.eqb_eq in E.
    unfold byte_in in H. by rewrite E in H. }
  rewrite H45, H0, span_digits_all by done. done.
Qed.

Lemma Atoi_FormatUint n : (0 ≤ n < 2 ^ 63)%Z → Atoi (FormatUint n) = Some n.
Proof.
  intros Hn. pose proof (ParseUint_FormatUint n 63 ltac:(lia) ltac:(lia)) as Hp.
  assert (all_digits (FormatUint n) = true) as Hall by (apply format_go_digits; [lia|done]).
  unfold ParseUint in Hp. case_bool_decide as Hne; [done|]. unfold Atoi.
  destruct (FormatUint n) as [|c s] eqn:Hf; [done|]. rewrite all_digits_cons in Hall. breflect.
  assert (∀ x, N_of_ascii x < 48 → c ≠ x)%N as Hc.
  { intros x Hx ->. unfold byte_in in H. breflect. apply N.leb_le in H. lia. }
  assert (match String c s with String "-" r => (true, r) | String "+" r => (false, r)
          | _ => (false, String c s) end = (false, String c s)) as ->.
  { destruct (decide (c = "-"%char)) as [->|]; [by destruct (Hc "-"%char)|].
    destruct (decide (c = "+"%char)) as [->|]; [by destruct (Hc "+"%char)|].
    destruct c as [[] [] [] [] [] [] [] []]; done. }
  rewrite bool_decide_false by done. destruct (parse_digits 0 (String c s)); [|done]. case_in Hp; done.
Qed.

(** ** Printed values are read back *)

#[local] Arguments String.append : simpl never.

Lemma quote_app h s t : quote h s +:+ t = String quote_char (quote_body h 0 s +:+ String quote_char t).
Proof. unfold quote. by rewrite app_cons_str, app_assoc_str, app_cons_str, app_nil_l_str. Qed.

Lemma read_value_quote f h s t :
  valid_utf8 0 s = true → read_value (S f) (quote h s +:+ t) = Some (JString s, t).
Proof.
  intros Hs. rewrite quote_app. pose proof (read_quote h s t Hs) as Hq.
  remember (quote_body h 0 s +:+ String quote_char t) as x. cbn [read_value].
  change (skip_ws (String quote_char x)) with (String quote_char x). cbv zeta iota.
  change (byte_eq 123 quote_char) with false. change (byte_eq 91 quote_char) with false.
  change (byte_eq 34 quote_char) with true. cbv iota. by rewrite Hq.
Qed.

Lemma digit_byte_not c n :
  byte_in 48 57 c = true → (n < 48 ∨ 57 < n)%N → byte_eq n c = false.
Proof.
  unfold byte_in, byte_eq. intros H Hn. breflect. apply N.leb_le in H, H0. apply N.eqb_neq. lia.
Qed.

Lemma HasPrefix_head a s b p : HasPrefix (String a s) (String b p) = true → a = b.
Proof. rewrite HasPrefix_spec. intros [r H]. by rewrite app_cons_str in H; injection H. Qed.

Lemma read_value_nat f n t :
  (0 ≤ n < 2 ^ 64)%Z → (span_number t).1 = "" →
  read_value (S f) (FormatUint n +:+ t) = Some (JNumber (FormatUint n), t).
Proof.
  intros Hn Ht. pose proof (valid_number_FormatUint n Hn) as Hv.
  assert (all_digits (FormatUint n) = true) as Hall by (apply format_go_digits; [lia|done]).
  pose proof (span_number_digits _ t Hall Ht) as Hspan.
  destruct (FormatUint n) as [|c s] eqn:Hf; [done|]. rewrite all_digits_cons in Hall. breflect.
  assert (∀ x, N_of_ascii x < 48 ∨ 57 < N_of_ascii x → ∀ p, HasPrefix (String c (s +:+ t)) (String x p) = false)%N as Hp.
  { intros x Hx p. apply not_true_iff_false. intros ->%HasPrefix_head.
    unfold byte_in in H. breflect. apply N.leb_le in H, H1. lia. }
  rewrite app_cons_str in Hspan |- *. cbn [read_value skip_ws].
  rewrite !(digit_byte_not c) by (done || lia). cbn [orb].
  rewrite !(digit_byte_not c) by (done || lia). rewrite !Hp by (cbn; lia). by rewrite Hspan, Hv.
Qed.

Lemma read_members_step f acc h k vt t v :
  valid_utf8 0 k = true → read_value f (vt +:+ t) = Some (v, t) →
  read_members (S f) acc (quote h k +:+ ":" +:+ vt +:+ t) =
  match skip_ws t with
  | String d r =>
      if byte_eq 44 d then read_members f (acc ++ [(k, v)]) r
      else if byte_eq 125 d then Some (JObject (acc ++ [(k, v)]), r) else None
  | EmptyString => None
  end.
Proof.
  intros Hk Hv. rewrite quote_app. pose proof (read_quote h k (":" +:+ vt +:+ t) Hk) as Hq.
  remember (quote_body h 0 k +:+ _) as x. cbn [read_members].
  change (skip_ws (String quote_char x)) with (String quote_char x). cbv iota.
  change (byte_eq 34 quote_char) with true. cbn [negb]. rewrite Hq.
  rewrite app_cons_str, app_nil_l_str. remember (vt +:+ t) as y.
  change (skip_ws (String ":" y)) with (String ":" y). cbv iota.
  change (byte_eq 58 ":") with true. cbn [negb]. by rewrite Hv.
Qed.
