(* ===== verification/Urn.v ===== *)
(** Package [urnutils]: function URNs, function keys and the Kubernetes custom
    resource names derived from them (urn_utils.go, gadgets.go, urnconv.go).

    A receiver that a method mutates is passed in and returned. The package
    variable [separator] is the argument [sep]. [GetServerIP] and [GetHostAddr]
    query the host and are not modelled. *)

From S2P Require Import Prelude GoStrings Hashing.

(** * Constants *)

Definition URNLenWithVersion : nat := 7.
Definition urnLenWithoutVersion : nat := URNLenWithVersion - 1.
Definition URNSep : string := ":".
Definition FunctionKeySep : string := "/".
Definition DefaultURNProductID : string := "sn".
Definition DefaultURNRegion : string := "cn".
Definition DefaultURNFuncSign : string := "function".
Definition DefaultURNVersion : string := "latest".
Definition anonymization : string := "****".
Definition anonymizeLen : nat := 3.
Definition BranchAliasRule : string := "!".
Definition funcNameMinLen : nat := 3.
Definition defaultFunctionMaxLen : nat := 128.
Definition k8sLabelLen : nat := 63.
Definition otherStrLen : nat := 4.
Definition crHashMaxLen : nat := 10.
Definition versionManLen : nat := 30.
Definition funcNamePrefix : string := "0@default@".
Definition ServiceIDPrefix : string := "0".
Definition ServicePrefix : string := "0@".
Definition TenantProductSplitStr : string := "@".
Definition minEleSize : nat := 3.

Inductive urn_error :=
| ErrURNLength
| ErrNoVersion
| ErrFunctionName
| ErrNameRegexp
| ErrNameLength.

(** * Function URNs *)

Record FunctionURN := MkURN {
  ProductID : string;
  RegionID : string;
  BusinessID : string;
  TenantID : string;
  TypeSign : string;
  FuncName : string;
  FuncVersion : string;
}.

Definition zeroURN : FunctionURN := MkURN "" "" "" "" "" "" "".

Global Instance FunctionURN_eq_dec : EqDecision FunctionURN.
Proof. solve_decision. Defined.

Definition StringWithoutVersion (p : FunctionURN) : string :=
  Join [ProductID p; RegionID p; BusinessID p; TenantID p; TypeSign p; FuncName p] URNSep.

Definition URN_String (p : FunctionURN) : string :=
  let urn := StringWithoutVersion p in
  if bool_decide (FuncVersion p = "") then urn else urn +:+ ":" +:+ FuncVersion p.

Definition URN_ParseFrom (p : FunctionURN) (urn : string) : res urn_error FunctionURN :=
  match Split urn URNSep with
  | [e0; e1; e2; e3; e4; e5] => Ok (MkURN e0 e1 e2 e3 e4 e5 (FuncVersion p))
  | [e0; e1; e2; e3; e4; e5; e6] => Ok (MkURN e0 e1 e2 e3 e4 e5 e6)
  | _ => Err ErrURNLength
  end.

Definition GetFunctionInfo (urn : string) : res urn_error FunctionURN :=
  URN_ParseFrom zeroURN urn.

Definition GetFuncInfoWithVersion (urn : string) : res urn_error FunctionURN :=
  (let* p := GetFunctionInfo urn in
   if bool_decide (FuncVersion p = "") then Err ErrNoVersion else Ok p)%go.

Definition ParseAliasURN (aliasURN : string) : string :=
  match Split aliasURN URNSep with
  | [e0; e1; e2; e3; e4; e5; e6] =>
      let e6' := if HasPrefix e6 BranchAliasRule then str_drop 1 e6 else e6 in
      Join [e0; e1; e2; e3; e4; e5; e6'] ":"
  | _ => aliasURN
  end.

Definition GetAlias (p : FunctionURN) : string :=
  if bool_decide (FuncVersion p = DefaultURNVersion) then ""
  else match Atoi (FuncVersion p) with
       | Some _ => ""
       | None => FuncVersion p
       end.

Definition GetAliasForFuncBranch (p : FunctionURN) : string :=
  if HasPrefix (FuncVersion p) BranchAliasRule then str_drop 1 (FuncVersion p) else "".

(** * Function names *)

Definition is_letter (c : ascii) : bool := byte_in 65 90 c || byte_in 97 122 c.
Definition is_alnum (c : ascii) : bool := is_letter c || byte_in 48 57 c.
Definition is_name_byte (c : ascii) : bool := is_alnum c || byte_eq 95 c || byte_eq 45 c.

(** The tail of a name after its first letter: empty, or bytes of
    [a-zA-Z0-9_-] ending in an alphanumeric one. *)
Fixpoint name_tail (s : string) : bool :=
  match s with
  | EmptyString => true
  | String c EmptyString => is_alnum c
  | String c s => is_name_byte c && name_tail s
  end.

(** functionGraphFuncNameRegexp, ^[a-zA-Z]([a-zA-Z0-9_-]*[a-zA-Z0-9])?$ *)
Definition functionGraphFuncNameRegexp (s : string) : bool :=
  match s with
  | EmptyString => false
  | String c s => is_letter c && name_tail s
  end.

Definition GetServiceNameFromFullName (funcName : string) : string :=
  if HasPrefix funcName ServicePrefix then
    match Split funcName "@" with
    | [_; svc; _] => svc
    | _ => ""
    end
  else "".

Definition GetFunctionNameAndServiceName (sep funcName : string)
    : res urn_error (string * string) :=
  if HasPrefix funcName ServiceIDPrefix then
    match Split funcName sep with
    | _ :: svc :: ((_ :: _) as rest) => Ok (svc, Join rest sep)
    | _ => Err ErrFunctionName
    end
  else Err ErrFunctionName.

Definition URN_Valid (sep : string) (p : FunctionURN) : res urn_error unit :=
  (let* names := GetFunctionNameAndServiceName sep (FuncName p) in
   let '(serviceID, functionName) := names in
   if negb (functionGraphFuncNameRegexp serviceID
            || functionGraphFuncNameRegexp functionName) then Err ErrNameRegexp
   else if (defaultFunctionMaxLen <? String.length serviceID)
           || (defaultFunctionMaxLen <? String.length functionName)
   then Err ErrNameLength
   else Ok ())%go.

(** gadgets.go *)
Record ComplexFuncName := MkComplex {
  prefix : string;
  ServiceID : string;
  CFuncName : string;
}.

Definition NewComplexFuncName (svcID funcName : string) : ComplexFuncName :=
  MkComplex ServiceIDPrefix svcID funcName.

Definition IsComplexFuncName (sep funcName : string) : bool := Contains funcName sep.

Definition Complex_ParseFrom (sep name : string) : ComplexFuncName :=
  match Split name sep with
  | f0 :: f1 :: _ :: _ =>
      if bool_decide (f0 = ServiceIDPrefix)
      then MkComplex f0 f1
             (str_drop (String.length f0 + String.length sep
                        + String.length f1 + String.length sep) name)
      else MkComplex "" "" name
  | _ => MkComplex "" "" name
  end.

Definition Complex_String (sep : string) (c : ComplexFuncName) : string :=
  Join [prefix c; ServiceID c; CFuncName c] sep.

Definition GetSvcIDWithPrefix (sep : string) (c : ComplexFuncName) : string :=
  prefix c +:+ sep +:+ ServiceID c.

Definition SetSeparator (sep new : string) : string :=
  if bool_decide (new = "") then sep else new.

Definition GetShortFuncName (funcName : string) : string :=
  if k8sLabelLen <? String.length funcName
  then "X" +:+ str_drop (String.length funcName - k8sLabelLen + 1) funcName
  else funcName.

Definition BuildStandardFunctionName (functionName : string) : string :=
  match Split functionName "@" with
  | [_] => funcNamePrefix +:+ functionName
  | [_; _; _] => functionName
  | _ => ""
  end.

Definition BuildFunctionShortURN (tenantID namespace functionName : string) : string :=
  let '(name, version) :=
    match Split functionName ":" with
    | f :: v :: _ => (f, v)
    | _ => (functionName, DefaultURNVersion)
    end in
  Join [DefaultURNProductID; DefaultURNRegion; "yrk"; tenantID; DefaultURNFuncSign;
        "0@" +:+ namespace +:+ "@" +:+ name; version] ":".

Definition BuildURNOrAliasURNTemp (business tenant function versionOrAlias : string) : string :=
  if bool_decide (business = "") || bool_decide (tenant = "")
     || bool_decide (function = "") || bool_decide (versionOrAlias = "") then ""
  else Join [DefaultURNProductID; DefaultURNRegion; business; tenant;
             DefaultURNFuncSign; function; versionOrAlias] ":".

(** * Anonymisation for logs *)

Definition Anonymize (str : string) : string :=
  if String.length str <? anonymizeLen + 1 + anonymizeLen then anonymization
  else str_take anonymizeLen str +:+ anonymization
       +:+ str_drop (String.length str - anonymizeLen) str.

Definition AnonymizeTenantURN (urn : string) : string :=
  let elements := Split urn URNSep in
  if (length elements <? urnLenWithoutVersion) || (URNLenWithVersion <? length elements)
  then urn
  else Join (alter Anonymize 3 elements) URNSep.

Definition AnonymizeTenantKey (functionKey : string) : string :=
  let elements := Split functionKey FunctionKeySep in
  if length elements <=? 0 then functionKey
  else Join (alter Anonymize 0 elements) FunctionKeySep.

Definition AnonymizeTenantURNSlice (urns : list string) : list string :=
  AnonymizeTenantURN <$> urns.

Definition AnonymizeTenantMetadataEtcdKey (etcdKey : string) : string :=
  let elements := Split etcdKey "/" in
  if length elements <=? 6 then etcdKey
  else Join (alter Anonymize 6 elements) "/".

Definition AnonymizeKeys (keys : list string) : list string := Anonymize <$> keys.

(** * Function keys *)

Definition CombineFunctionKey (tenantID funcName version : string) : string :=
  Join [tenantID; funcName; version] "/".

Definition GetTenantFromFuncKey (funcKey : string) : string :=
  match Split funcKey FunctionKeySep with
  | [t; _; _] => t
  | _ => ""
  end.

Definition GetFuncNameFromFuncKey (funcKey : string) : string :=
  match Split funcKey FunctionKeySep with
  | [t; f; _] => t +:+ FunctionKeySep +:+ f
  | _ => ""
  end.

Definition GetTenantFromAliasUrn (aliasUrn : string) : string :=
  match Split aliasUrn URNSep with
  | [_; _; _; t; _; _; _] => t
  | _ => ""
  end.

Definition CheckAliasUrnTenant (tenantID aliasUrn : string) : bool :=
  negb (bool_decide (GetTenantFromAliasUrn aliasUrn = ""))
  && bool_decide (GetTenantFromAliasUrn aliasUrn = tenantID).

(** * Custom resource names *)

Definition FnvHash (s : string) : string := FormatUint (fnv32a s).

Definition genFunctionCRStr (business tenant funcName version : string) : string :=
  business +:+ "-" +:+ tenant +:+ "-" +:+ funcName +:+ "-" +:+ version.

(** [(product, tenant)]; more than one separator loses both. *)
Definition splitTenant (tenant : string) : string * string :=
  match Split tenant TenantProductSplitStr with
  | [_] => ("", tenant)
  | [t; p] => (p, t)
  | _ => ("", "")
  end.

Definition acquireBrief (business tenant : string) : string :=
  let business := str_take 4 business in
  let '(product, tenant) := splitTenant tenant in
  business +:+ str_take 4 tenant +:+ str_take 4 product.

Definition VersionConvForBranch (v : string) : string :=
  str_take versionManLen (ReplaceAll v "_" "-").

(** [[]rune(s)]: the encoded runes of a string. *)
Fixpoint runes_go (copy : nat) (s : string) : string * list string :=
  match s with
  | EmptyString => ("", [])
  | String c s' =>
      match copy with
      | S k => let '(p, l) := runes_go k s' in (String c p, l)
      | O =>
          match utf8_width s with
          | Some w => let '(p, l) := runes_go (pred w) s' in ("", String c p :: l)
          | None => let '(p, l) := runes_go 0 s' in ("", rune_error :: l)
          end
      end
  end.
Definition runes (s : string) : list string := snd (runes_go 0 s).

(** [None] is the slice-bounds panic. *)
Definition acquireShorter (funcName : string) (functionNameLen : nat) : option string :=
  let rs := runes funcName in
  let n := length rs in
  if (functionNameLen <=? n) && (1 <=? functionNameLen)
  then Some (Join (take (functionNameLen - 1) (drop (n - functionNameLen) rs)) "")
  else None.

Section CrName.
Context (unicode_lower : string → string).

  (** The funcName part of a CR name, given the length the other parts leave
      ([Z], since the code's int may be negative). *)
Definition crFuncName (funcName : string) (shortLen : Z) : option string :=
    if HasPrefix funcName ServiceIDPrefix
       && (shortLen <? Z.of_nat (String.length funcName))%Z
    then (if (shortLen <? 0)%Z then None
          else acquireShorter funcName (Z.to_nat shortLen))
    else Some funcName.

Definition CrName (business tenant funcName version : string) : option string :=
    let hashStr := genFunctionCRStr business tenant funcName version in
    let crHash := str_take crHashMaxLen (FnvHash hashStr) in
    let brief := acquireBrief business tenant in
    let ver := VersionConvForBranch version in
    let funcName := ReplaceAll (ReplaceAll funcName "@" "-") "_" "-" in
    let shortLen := (Z.of_nat k8sLabelLen - Z.of_nat (String.length brief)
                     - Z.of_nat (String.length ver) - Z.of_nat (String.length crHash)
                     - Z.of_nat otherStrLen)%Z in
    match crFuncName funcName shortLen with
    | None => None
    | Some fn =>
        let crName := brief +:+ "-" +:+ fn +:+ "-" +:+ ver +:+ "-" +:+ crHash in
        let lower := ToLower unicode_lower crName in
        Some ((if bool_decide (crName = lower) then "y" else "z") +:+ lower)
    end.

Definition CrNameByURN (urn : string) : option string :=
    if bool_decide (urn = "") then Some "" else
    match GetFunctionInfo urn with
    | Err _ => Some ""
    | Ok p => CrName (BusinessID p) (TenantID p) (FuncName p) (FuncVersion p)
    end.

  (** urnconv.go *)
Definition GetFunctionInfoByKey (key : string) : string * string * string * string :=
    let f := Split key "/" in
    if bool_decide (length f = 11) || bool_decide (length f = 13)
    then (default "" (f !! 4), default "" (f !! 6), default "" (f !! 8), default "" (f !! 10))
    else ("", "", "", "").

Definition CrNameByKey (funcKey : string) : option string :=
    let '(business, tenant, funcName, version) := GetFunctionInfoByKey funcKey in
    CrName business tenant funcName version.
End CrName.
