(* ===== verification/UrnFacts.v ===== *)
(** Correctness of package [urnutils]: URN printing and parsing are inverse,
    tenant checks and anonymisation act on the tenant field alone, and custom
    resource names respect the Kubernetes label limit. *)

From S2P Require Import Prelude GoStrings Hashing Urn.

(** * URNs *)

Definition no_colon (s : string) : bool := negb (has_byte ":" s).

(** The fields a URN can carry. *)
Definition urn_fields_ok (p : FunctionURN) : bool :=
  forallb no_colon [ProductID p; RegionID p; BusinessID p; TenantID p;
                    TypeSign p; FuncName p; FuncVersion p].

Lemma no_colon_spec s : no_colon s = true → has_byte ":" s = false.
Proof. unfold no_colon. by destruct (has_byte ":" s). Qed.

Lemma forallb_no_colon l :
  forallb no_colon l = true → Forall (λ x, has_byte ":" x = false) l.
Proof.
  induction l as [|x l IH]; simpl; [constructor|].
  intros [Hx Hl]%andb_true_iff. constructor; [by apply no_colon_spec|auto].
Qed.

Lemma Join_app_sep x l y sep :
  Join (x :: l) sep +:+ sep +:+ y = Join ((x :: l) ++ [y]) sep.
Proof.
  revert x; induction l as [|z l IH]; intros x; [done|].
  change ((x :: z :: l) ++ [y]) with (x :: ((z :: l) ++ [y])).
  rewrite (Join_cons x (z :: l)), (Join_cons x ((z :: l) ++ [y])) by done.
  rewrite !app_assoc_str. do 2 f_equal. apply IH.
Qed.

(** The elements [URN_String] joins. *)
Definition urn_elements (p : FunctionURN) : list string :=
  [ProductID p; RegionID p; BusinessID p; TenantID p; TypeSign p; FuncName p]
  ++ (if bool_decide (FuncVersion p = "") then [] else [FuncVersion p]).

Lemma URN_String_elements p : URN_String p = Join (urn_elements p) URNSep.
Proof.
  unfold URN_String, urn_elements, StringWithoutVersion.
  case_bool_decide; [done|]. apply (Join_app_sep _ [_; _; _; _; _]).
Qed.

Lemma urn_elements_split p :
  urn_fields_ok p = true → Split (URN_String p) URNSep = urn_elements p.
Proof.
  intros H. rewrite URN_String_elements. apply Split_Join; [done|].
  apply forallb_no_colon in H. unfold urn_elements.
  apply (Forall_app _ [_; _; _; _; _; _] [_]) in H as [H1 H2].
  apply Forall_app; split; [done|]. by case_bool_decide.
Qed.

(** Printing a URN whose fields contain no colon and parsing the text
    gives the URN back, with or without a version. *)
Theorem urn_roundtrip p :
  urn_fields_ok p = true → GetFunctionInfo (URN_String p) = Ok p.
Proof.
  intros H. unfold GetFunctionInfo, URN_ParseFrom. rewrite urn_elements_split by done.
  unfold urn_elements. destruct p; simpl in *. by case_bool_decide; subst.
Qed.

Lemma urn_roundtrip_witness :
  GetFunctionInfo "sn:cn:yrk:tenant:function:0@svc@f:latest"
  = Ok (MkURN "sn" "cn" "yrk" "tenant" "function" "0@svc@f" "latest").
Proof. apply (urn_roundtrip (MkURN "sn" "cn" "yrk" "tenant" "function" "0@svc@f" "latest")); reflexivity. Defined.

Lemma GetFunctionInfo_split urn p :
  GetFunctionInfo urn = Ok p →
  ∃ v, Split urn URNSep
       = [ProductID p; RegionID p; BusinessID p; TenantID p; TypeSign p; FuncName p] ++ v
       ∧ (v = [] ∧ FuncVersion p = "" ∨ v = [FuncVersion p]).
Proof.
  unfold GetFunctionInfo, URN_ParseFrom.
  destruct (Split urn URNSep) as [|? [|? [|? [|? [|? [|? [|? [|]]]]]]]]; try done;
    intros [= <-]; eexists; simpl; eauto.
Qed.

(** Whatever text parses as a URN is the printed form of the parsed URN,
    up to the colon in front of an empty version. *)
Theorem urn_print_parse urn p :
  GetFunctionInfo urn = Ok p →
  URN_String p = urn ∨ FuncVersion p = "" ∧ urn = URN_String p +:+ ":".
Proof.
  intros (v & Hs & Hv)%GetFunctionInfo_split.
  assert (urn = Join (Split urn URNSep) URNSep) as Hu by (symmetry; by apply Join_Split).
  rewrite Hs in Hu. rewrite URN_String_elements. unfold urn_elements.
  destruct Hv as [[-> Hv]| ->]; [left; by rewrite bool_decide_eq_true_2|].
  case_bool_decide as E; [right|by left]. split; [done|].
  rewrite Hu, E, <- (Join_app_sep _ [_; _; _; _; _]).
  by rewrite (app_nil_r_str URNSep), app_nil_r.
Qed.

Lemma urn_print_parse_witness :
  URN_String (MkURN "a" "b" "c" "d" "e" "f" "1") = "a:b:c:d:e:f:1"
  ∨ FuncVersion (MkURN "a" "b" "c" "d" "e" "f" "1") = ""
    ∧ "a:b:c:d:e:f:1" = URN_String (MkURN "a" "b" "c" "d" "e" "f" "1") +:+ ":".
Proof. apply (urn_print_parse "a:b:c:d:e:f:1" (MkURN "a" "b" "c" "d" "e" "f" "1")); reflexivity. Defined.

(** * Tenant checks *)

Lemma has_byte_take c n s : has_byte c s = false → has_byte c (str_take n s) = false.
Proof.
  revert s; induction n as [|n IH]; intros [|a s]; simpl; try done.
  intros [-> H]%orb_false_iff. simpl. auto.
Qed.

Lemma has_byte_drop c n s : has_byte c s = false → has_byte c (str_drop n s) = false.
Proof.
  revert s; induction n as [|n IH]; intros [|a s]; simpl; try done.
  intros [_ H]%orb_false_iff. auto.
Qed.

(** The URN built for a tenant passes the tenant check of exactly that
    tenant, when no component contains a colon. *)
Theorem alias_tenant_check b t f v tenant :
  forallb no_colon [b; t; f; v] = true → b ≠ "" → t ≠ "" → f ≠ "" → v ≠ "" →
  CheckAliasUrnTenant tenant (BuildURNOrAliasURNTemp b t f v) = bool_decide (t = tenant).
Proof.
  intros HF Hb Ht Hf Hv. apply forallb_no_colon in HF.
  unfold CheckAliasUrnTenant, BuildURNOrAliasURNTemp, GetTenantFromAliasUrn.
  rewrite (bool_decide_eq_false_2 (b = "")), (bool_decide_eq_false_2 (t = "")),
    (bool_decide_eq_false_2 (f = "")), (bool_decide_eq_false_2 (v = "")) by done. cbn [orb].
  change ":" with URNSep. unfold URNSep. rewrite Split_Join; [|done|].
  - by rewrite bool_decide_eq_false_2.
  - rewrite !Forall_cons in HF. destruct HF as (? & ? & ? & ? & _). by repeat constructor.
Qed.

Lemma alias_tenant_check_witness :
  CheckAliasUrnTenant "t2" (BuildURNOrAliasURNTemp "yrk" "t1" "0@svc@f" "al")
  = bool_decide ("t1" = "t2").
Proof. apply (alias_tenant_check "yrk" "t1" "0@svc@f" "al" "t2"); done. Defined.

Lemma has_byte_Anonymize c s :
  has_byte c "****" = false → has_byte c s = false → has_byte c (Anonymize s) = false.
Proof.
  intros Ha Hs. unfold Anonymize, anonymization. case_goal; [done|].
  rewrite !has_byte_app, Ha, has_byte_take, has_byte_drop by done. done.
Qed.

Definition with_tenant (t : string) (p : FunctionURN) : FunctionURN :=
  MkURN (ProductID p) (RegionID p) (BusinessID p) t (TypeSign p) (FuncName p) (FuncVersion p).

(** Anonymising a URN rewrites its tenant field and nothing else: the
    result still parses, to the same URN with the tenant masked. *)
Theorem anonymize_urn urn p :
  GetFunctionInfo urn = Ok p →
  GetFunctionInfo (AnonymizeTenantURN urn) = Ok (with_tenant (Anonymize (TenantID p)) p).
Proof.
  intros (v & Hs & Hv)%GetFunctionInfo_split.
  pose proof (Split_pieces ":" urn) as HF. unfold AnonymizeTenantURN, URNSep in *.
  rewrite Hs in HF |- *.
  unfold GetFunctionInfo, URN_ParseFrom, URNSep.
  assert (Split (Join (alter Anonymize 3 ([ProductID p; RegionID p; BusinessID p; TenantID p;
            TypeSign p; FuncName p] ++ v)) ":") ":"
          = alter Anonymize 3 ([ProductID p; RegionID p; BusinessID p; TenantID p;
            TypeSign p; FuncName p] ++ v)) as HS.
  { apply Split_Join; [done|]. apply Forall_alter; [done|].
    intros x _ Hx. by apply has_byte_Anonymize. }
  destruct Hv as [[-> Hv]| ->]; cbn in HS |- *; rewrite HS;
    unfold with_tenant; by rewrite <- ?Hv.
Qed.

Lemma anonymize_urn_witness :
  GetFunctionInfo (AnonymizeTenantURN "sn:cn:yrk:1234567890:function:f:1")
  = Ok (MkURN "sn" "cn" "yrk" "123****890" "function" "f" "1").
Proof.
  apply (anonymize_urn "sn:cn:yrk:1234567890:function:f:1"
           (MkURN "sn" "cn" "yrk" "1234567890" "function" "f" "1")); reflexivity.
Defined.

(** * Complex function names *)

(** A function name composed from a service ID and a raw name decomposes
    into the same two parts, whatever the raw name contains, as long as the
    separator is one byte other than the prefix and not in the service ID. *)
Theorem complex_name_roundtrip c svc fn :
  c ≠ "0"%char → has_byte c svc = false →
  Complex_ParseFrom (String c "") (Complex_String (String c "") (NewComplexFuncName svc fn))
  = NewComplexFuncName svc fn.
Proof.
  intros Hc Hs. unfold Complex_ParseFrom, Complex_String, NewComplexFuncName, ServiceIDPrefix.
  cbn [prefix ServiceID CFuncName].
  rewrite !Join_cons by done. rewrite !app_cons_str, !app_nil_l_str.
  set (full := String "0" _).
  assert (full = "0" +:+ String c (svc +:+ String c fn)) as Hf by done.
  assert (Split full (String c "") = "0" :: svc :: Split fn (String c "")) as ->.
  { rewrite Hf, Split_app_byte; [by rewrite Split_app_byte|].
    simpl. rewrite bool_decide_eq_false_2; done. }
  destruct (Split fn (String c "")) as [|h t] eqn:E; [by apply Split_nonempty in E|].
  rewrite bool_decide_eq_true_2 by done. f_equal.
  cbn [String.length Nat.add]. unfold full. cbn [str_drop].
  rewrite str_drop_app_add. done.
Qed.

Lemma complex_name_roundtrip_witness :
  Complex_ParseFrom "-" (Complex_String "-" (NewComplexFuncName "svc" "f-g"))
  = NewComplexFuncName "svc" "f-g".
Proof. apply (complex_name_roundtrip "-" "svc" "f-g"); done. Defined.

(** * Custom resource names *)

Lemma is_ascii_app s t : is_ascii (s +:+ t) = is_ascii s && is_ascii t.
Proof.
  induction s as [|c s IH]; [done|].
  rewrite ?app_cons_str; simpl. by rewrite IH, andb_assoc.
Qed.

Lemma is_ascii_ReplaceAll c s new :
  is_ascii s = true → is_ascii new = true → is_ascii (ReplaceAll s (String c "") new) = true.
Proof.
  intros Hs Hn; induction s as [|a s IH]; [done|].
  simpl in Hs; apply andb_true_iff in Hs as [Ha Hs].
  rewrite ReplaceAll_cons, is_ascii_app, IH by done.
  case_goal; simpl; [by rewrite Hn|by rewrite Ha].
Qed.

Lemma is_ascii_Split c s x :
  is_ascii s = true → x ∈ Split s (String c "") → is_ascii x = true.
Proof.
  intros Hs; revert x; induction s as [|a s IH]; intros x Hx.
  - apply list_elem_of_singleton in Hx as ->. done.
  - simpl in Hs; apply andb_true_iff in Hs as [Ha Hs].
    rewrite Split_cons_byte in Hx. destruct (bool_decide (a = c)).
    + apply elem_of_cons in Hx as [->|Hx]; [done|eauto].
    + destruct (Split s (String c "")) as [|h t] eqn:E; [by apply Split_nonempty in E|].
      apply elem_of_cons in Hx as [->|Hx]; simpl.
      * rewrite Ha. apply IH; [done|by left].
      * apply IH; [done|by right].
Qed.

Lemma is_ascii_splitTenant t :
  is_ascii t = true → is_ascii (fst (splitTenant t)) = true ∧ is_ascii (snd (splitTenant t)) = true.
Proof.
  intros Ht. unfold splitTenant, TenantProductSplitStr.
  destruct (Split t "@") as [|x [|y [|z l]]] eqn:E; simpl; try done.
  split; apply (is_ascii_Split "@" t); try done; rewrite E; set_solver.
Qed.

Lemma is_ascii_acquireBrief b t :
  is_ascii b = true → is_ascii t = true → is_ascii (acquireBrief b t) = true.
Proof.
  intros Hb Ht. unfold acquireBrief. pose proof (is_ascii_splitTenant t Ht) as [H1 H2].
  destruct (splitTenant t); cbn [fst snd] in *. rewrite !is_ascii_app, !is_ascii_take by done. done.
Qed.

Lemma length_acquireBrief b t : String.length (acquireBrief b t) ≤ 12.
Proof.
  unfold acquireBrief. destruct (splitTenant t).
  rewrite !length_app_str, !length_str_take. lia.
Qed.

Lemma is_ascii_format f n acc :
  (0 ≤ n)%Z → is_ascii acc = true → is_ascii (format_go f n acc) = true.
Proof.
  assert (∀ n, is_ascii_byte (digit_char (n mod 10)) = true) as Hd.
  { intros m. pose proof (Z.mod_pos_bound m 10). unfold is_ascii_byte, digit_char.
    rewrite N_ascii_embedding by lia. apply N.ltb_lt. lia. }
  revert n acc; induction f as [|f IH]; intros n acc Hn Ha; cbn [format_go].
  - simpl. by rewrite Hd, Ha.
  - case_goal; [simpl; by rewrite Hd, Ha|].
    apply IH; [apply Z.div_pos; lia|]. simpl. by rewrite Hd, Ha.
Qed.

Lemma is_ascii_FnvHash s : is_ascii (FnvHash s) = true.
Proof. apply is_ascii_format; [|done]. pose proof (fnv32a_u32 s). lia. Qed.

(** Each rune of an ASCII string is one byte. *)
Fixpoint bytes_str (s : string) : list string :=
  match s with
  | EmptyString => []
  | String c s => String c "" :: bytes_str s
  end.

Lemma runes_ascii s : is_ascii s = true → runes_go 0 s = ("", bytes_str s).
Proof.
  induction s as [|c s IH]; [done|]. intros [Hc Hs]%andb_true_iff.
  cbn [runes_go utf8_width]. rewrite Hc. cbn [pred]. by rewrite IH.
Qed.

Lemma length_bytes_str s : length (bytes_str s) = String.length s.
Proof. induction s; simpl; auto. Qed.

Lemma Join_bytes_slice n m s :
  is_ascii s = true →
  is_ascii (Join (take n (drop m (bytes_str s))) "") = true
  ∧ String.length (Join (take n (drop m (bytes_str s))) "") = length (take n (drop m (bytes_str s))).
Proof.
  intros Hs.
  assert (Forall (λ x, is_ascii x = true ∧ String.length x = 1) (bytes_str s)) as HF.
  { clear n m; induction s as [|c s IH]; [constructor|].
    simpl in Hs; apply andb_true_iff in Hs as [Hc Hs].
    constructor; [simpl; by rewrite Hc|auto]. }
  apply (Forall_drop _ m), (Forall_take _ n) in HF.
  induction HF as [|x l [Hx1 Hx2] HF [IH1 IH2]]; [done|].
  destruct l as [|y l]; [done|].
  rewrite Join_cons by done. rewrite !is_ascii_app, !length_app_str, Hx1, Hx2.
  split; [by rewrite IH1|by rewrite IH2].
Qed.

Lemma acquireShorter_ascii fn n :
  is_ascii fn = true → 1 ≤ n ≤ String.length fn →
  ∃ r, acquireShorter fn n = Some r ∧ is_ascii r = true ∧ String.length r = n - 1.
Proof.
  intros Hf Hn. unfold acquireShorter, runes. rewrite runes_ascii by done. cbn [snd].
  rewrite length_bytes_str.
  destruct (_ && _) eqn:E; [|apply andb_false_iff in E as [E|E]; breflect; lia].
  destruct (Join_bytes_slice (n - 1) (String.length fn - n) fn Hf) as [H1 H2].
  eexists; split; [done|split; [done|]].
  rewrite H2, length_take, length_drop, length_bytes_str. lia.
Qed.

(** The two replacements of underscores and at signs keep the length, the
    leading "0" and the ASCII range. *)
Lemma crName_clean fn :
  is_ascii fn = true → HasPrefix fn ServiceIDPrefix = true →
  let fn' := ReplaceAll (ReplaceAll fn "@" "-") "_" "-" in
  is_ascii fn' = true ∧ HasPrefix fn' ServiceIDPrefix = true.
Proof.
  intros Ha [r ->]%HasPrefix_spec. cbn zeta. split.
  - by repeat apply is_ascii_ReplaceAll.
  - unfold ServiceIDPrefix. rewrite app_cons_str, app_nil_l_str.
    rewrite (ReplaceAll_cons "@" "0"), bool_decide_eq_false_2 by done.
    rewrite app_cons_str, app_nil_l_str, (ReplaceAll_cons "_" "0"), bool_decide_eq_false_2 by done.
    apply (HasPrefix_app "0").
Qed.

(** The custom resource name of a function with a service-ID prefix is
    defined (the shortening slice never goes out of bounds) and fits the
    63-byte Kubernetes label limit, for ASCII names. *)
Theorem CrName_label_limit lower business tenant fn version :
  is_ascii business = true → is_ascii tenant = true → is_ascii fn = true →
  is_ascii version = true → HasPrefix fn ServiceIDPrefix = true →
  ∃ name, CrName lower business tenant fn version = Some name
          ∧ String.length name ≤ k8sLabelLen.
Proof.
  intros Hb Ht Hf Hv Hp. unfold CrName.
  pose proof (crName_clean fn Hf Hp) as [Ha Hp'].
  set (fn' := ReplaceAll (ReplaceAll fn "@" "-") "_" "-") in *.
  set (hash := str_take crHashMaxLen _). set (brief := acquireBrief _ _).
  set (ver := VersionConvForBranch version).
  assert (String.length hash ≤ 10) by (subst hash; rewrite length_str_take; unfold crHashMaxLen; lia).
  assert (String.length ver ≤ 30)
    by (subst ver; unfold VersionConvForBranch; rewrite length_str_take; unfold versionManLen; lia).
  pose proof (length_acquireBrief business tenant) as Hbr. fold brief in Hbr.
  assert (is_ascii brief = true) by by apply is_ascii_acquireBrief.
  assert (is_ascii ver = true) by (subst ver; by apply is_ascii_take, is_ascii_ReplaceAll).
  assert (is_ascii hash = true) by (subst hash; apply is_ascii_take, is_ascii_FnvHash).
  set (short := (_ - Z.of_nat otherStrLen)%Z).
  assert (∃ r, crFuncName fn' short = Some r ∧ is_ascii r = true
               ∧ (Z.of_nat (String.length r) ≤ short)%Z) as (r & -> & Hr & Hlen).
  { unfold crFuncName. rewrite Hp'. cbn [andb].
    assert (7 ≤ short)%Z by (subst short; unfold k8sLabelLen, otherStrLen; lia).
    destruct (short <? _)%Z eqn:E; breflect; [|eexists; repeat split; [done|lia]].
    destruct (short <? 0)%Z eqn:E'; breflect; [lia|].
    destruct (acquireShorter_ascii fn' (Z.to_nat short)) as (r & -> & ? & ?); [done|lia|].
    eexists; repeat split; [done|lia]. }
  eexists; split; [done|]. rewrite length_app_str. unfold ToLower.
  rewrite !is_ascii_app, Hr. destruct (_ && _) eqn:E.
  - rewrite length_str_map, !length_app_str.
    assert (∀ b : bool, String.length (if b then "y" else "z") = 1) as -> by by intros [].
    cbn [String.length]. subst short. unfold k8sLabelLen, otherStrLen in *. lia.
  - exfalso. by repeat match goal with H : is_ascii _ = true |- _ => rewrite H in E; clear H end.
Qed.

Lemma CrName_label_limit_witness :
  ∃ name, CrName id "yrk" "tenant1" "0@service@a_rather_long_function_name_over_the_limit" "latest"
          = Some name ∧ String.length name ≤ k8sLabelLen.
Proof.
  apply (CrName_label_limit id "yrk" "tenant1"
           "0@service@a_rather_long_function_name_over_the_limit" "latest"); reflexivity.
Defined.
