(* ===== verification/FifoQueue.v ===== *)
(** Package [queue], fifoqueue.go: the FIFO queue that holds idle leases and
    pending requests, on top of Go's [container/list].

    A [*list.Element] is an address ([N]) with the value it was created with;
    the list holds the elements still linked, [elementRecord] holds element
    pointers and so can outlive the linking. [IdentityFunc] takes an
    [interface{}], which is either a queued object or (in DelByID, Range and
    SortedRange) a list element. *)

From S2P Require Import Prelude.

Inductive fq_error := ErrObjectNotFound | ErrMethodUnsupported | NilFuncPanic.

Section FifoQueue.
Context {V : Type}.

Record element := Element { e_addr : N; e_value : V }.

Inductive iface := IObj (o : V) | IElem (e : element).

Record FifoQueue := MkFifo {
  queue : list element;
  next_addr : N;
  identityFunc : option (iface → string);
  elementRecord : gmap string element;
}.

Definition NewFifoQueue (idf : option (iface → string)) : FifoQueue :=
  MkFifo [] 0 idf ∅.

Definition Len (fq : FifoQueue) : nat := length (queue fq).

Definition Front (fq : FifoQueue) : option V := e_value <$> head (queue fq).

Definition Back (fq : FifoQueue) : option V := e_value <$> last (queue fq).

(** [list.Remove]: unlinks the element if it is still linked. *)
Definition list_Remove (e : element) (l : list element) : list element :=
  filter (λ x, e_addr x ≠ e_addr e) l.

Definition forget (fq : FifoQueue) (obj : V) : gmap string element :=
  match identityFunc fq with
  | Some f => delete (f (IObj obj)) (elementRecord fq)
  | None => elementRecord fq
  end.

Definition PopFront (fq : FifoQueue) : option V * FifoQueue :=
  match head (queue fq) with
  | None => (None, fq)
  | Some elem =>
      (Some (e_value elem),
       MkFifo (list_Remove elem (queue fq)) (next_addr fq) (identityFunc fq)
              (forget fq (e_value elem)))
  end.

Definition PopBack (fq : FifoQueue) : option V * FifoQueue :=
  match last (queue fq) with
  | None => (None, fq)
  | Some elem =>
      (Some (e_value elem),
       MkFifo (list_Remove elem (queue fq)) (next_addr fq) (identityFunc fq)
              (forget fq (e_value elem)))
  end.

Definition PushBack (fq : FifoQueue) (obj : V) : FifoQueue :=
  let elem := Element (next_addr fq) obj in
  MkFifo (queue fq ++ [elem]) (next_addr fq + 1) (identityFunc fq)
    (match identityFunc fq with
     | Some f => <[f (IObj obj) := elem]> (elementRecord fq)
     | None => elementRecord fq
     end).

Definition GetByID (fq : FifoQueue) (objID : string) : option V :=
  e_value <$> elementRecord fq !! objID.

(** The record entry deleted is the one the identity function gives for the
    list element, not for the object it holds. *)
Definition DelByID (fq : FifoQueue) (objID : string) : res fq_error FifoQueue :=
  match elementRecord fq !! objID with
  | None => Err ErrObjectNotFound
  | Some elem =>
      match identityFunc fq with
      | None => Err NilFuncPanic
      | Some f =>
          Ok (MkFifo (list_Remove elem (queue fq)) (next_addr fq) (identityFunc fq)
                     (delete (f (IElem elem)) (elementRecord fq)))
      end
  end.

Definition UpdateObjByID (fq : FifoQueue) (objID : string) (obj : V) : res fq_error FifoQueue :=
  Err ErrMethodUnsupported.

(** The items [f] is called on, in order: up to the first that returns false. *)
Fixpoint range_go (f : iface → bool) (l : list element) : list iface :=
  match l with
  | [] => []
  | e :: l => IElem e :: (if f (IElem e) then range_go f l else [])
  end.
Definition Range (fq : FifoQueue) (f : iface → bool) : list iface := range_go f (queue fq).
Definition SortedRange (fq : FifoQueue) (f : iface → bool) : list iface := range_go f (queue fq).

(** * Invariant *)

(** Addresses of linked elements are distinct and below the allocation
    counter, and so are the recorded ones. *)
Definition fifo_inv (fq : FifoQueue) : Prop :=
  NoDup (e_addr <$> queue fq)
  ∧ (∀ e, e ∈ queue fq → (e_addr e < next_addr fq)%N)
  ∧ (∀ id e, elementRecord fq !! id = Some e → (e_addr e < next_addr fq)%N).

(** The queue as the sequence of its objects. *)
Definition contents (fq : FifoQueue) : list V := e_value <$> queue fq.

Lemma list_Remove_notin e l : e_addr e ∉ (e_addr <$> l) → list_Remove e l = l.
Proof.
  induction l as [|x l IH]; [done|]. rewrite fmap_cons, not_elem_of_cons. intros [Hx Hl].
  unfold list_Remove in *. rewrite filter_cons_True by congruence. by rewrite IH.
Qed.

Lemma list_Remove_mid e l1 l2 :
  NoDup (e_addr <$> l1 ++ e :: l2) → list_Remove e (l1 ++ e :: l2) = l1 ++ l2.
Proof.
  rewrite fmap_app, fmap_cons, NoDup_app, NoDup_cons. intros (H1 & H12 & H2 & _). unfold list_Remove. rewrite filter_app, filter_cons_False by naive_solver.
  fold (list_Remove e l1) (list_Remove e l2).
  rewrite (list_Remove_notin e l2) by done. rewrite list_Remove_notin; [done|].
  intros Hin. apply (H12 _ Hin). left.
Qed.

Lemma list_Remove_elem e x l : x ∈ list_Remove e l → x ∈ l.
Proof. unfold list_Remove. rewrite list_elem_of_filter. by intros [_ H]. Qed.

Lemma list_Remove_NoDup e l : NoDup (e_addr <$> l) → NoDup (e_addr <$> list_Remove e l).
Proof.
  induction l as [|x l IH]; [done|]. rewrite fmap_cons, NoDup_cons. intros [Hx Hl].
  unfold list_Remove in *. destruct (decide (e_addr x ≠ e_addr e)).
  - rewrite filter_cons_True by done. rewrite fmap_cons. constructor; [|auto].
    contradict Hx. apply list_elem_of_fmap in Hx as (y & -> & Hy).
    apply list_elem_of_fmap. exists y. split; [done|]. by eapply list_Remove_elem.
  - rewrite filter_cons_False by done. auto.
Qed.

Lemma NewFifoQueue_inv idf : fifo_inv (NewFifoQueue idf).
Proof.
  split; [constructor|split]; [set_solver|].
  intros id e H. cbn [NewFifoQueue elementRecord] in H. by rewrite lookup_empty in H.
Qed.

Lemma forget_subset fq obj id e :
  forget fq obj !! id = Some e → elementRecord fq !! id = Some e.
Proof. unfold forget. case_goal; [|done]. rewrite lookup_delete_Some. by intros [_ H]. Qed.

Lemma remove_inv fq e rec :
  fifo_inv fq → (∀ id x, rec !! id = Some x → elementRecord fq !! id = Some x) →
  fifo_inv (MkFifo (list_Remove e (queue fq)) (next_addr fq) (identityFunc fq) rec).
Proof.
  intros (H1 & H2 & H3) Hr. split; [|split]; simpl.
  - by apply list_Remove_NoDup.
  - intros x Hx. by apply H2, (list_Remove_elem e).
  - intros id x Hx. eauto.
Qed.

Lemma PopFront_inv fq : fifo_inv fq → fifo_inv (PopFront fq).2.
Proof.
  intros H. unfold PopFront. case_goal; [|done]. apply remove_inv; [done|].
  intros. by eapply forget_subset.
Qed.

Lemma PopBack_inv fq : fifo_inv fq → fifo_inv (PopBack fq).2.
Proof.
  intros H. unfold PopBack. case_goal; [|done]. apply remove_inv; [done|].
  intros. by eapply forget_subset.
Qed.

Lemma PushBack_inv fq obj : fifo_inv fq → fifo_inv (PushBack fq obj).
Proof.
  intros (H1 & H2 & H3). split; [|split]; simpl.
  - rewrite fmap_app. apply NoDup_app. split; [done|]. split; [|apply NoDup_singleton].
    intros a (x & -> & Hx)%list_elem_of_fmap. specialize (H2 x Hx).
    simpl. rewrite list_elem_of_singleton. lia.
  - intros e [He|He]%elem_of_app; [specialize (H2 _ He); lia|].
    apply list_elem_of_singleton in He as ->. simpl. lia.
  - intros id e He. destruct (identityFunc fq); [|specialize (H3 _ _ He); lia].
    apply lookup_insert_Some in He as [[_ <-]|[_ He]]; [simpl; lia|].
    specialize (H3 _ _ He). lia.
Qed.

Lemma DelByID_inv fq id fq' : fifo_inv fq → DelByID fq id = Ok fq' → fifo_inv fq'.
Proof.
  intros H. unfold DelByID. destruct (elementRecord fq !! id) as [e|]; [|done].
  destruct (identityFunc fq) as [f|] eqn:Hf; [|done]. intros [= <-]. rewrite <- Hf.
  apply remove_inv; [done|]. intros i x. rewrite lookup_delete_Some. by intros [_ Hx].
Qed.

(** * The queue operations on the sequence of objects *)

Lemma contents_PushBack fq obj : contents (PushBack fq obj) = contents fq ++ [obj].
Proof. unfold contents. simpl. by rewrite fmap_app. Qed.

Lemma PopFront_spec fq :
  fifo_inv fq →
  (PopFront fq).1 = head (contents fq) ∧ contents (PopFront fq).2 = tail (contents fq).
Proof.
  intros (Hnd & _). unfold PopFront, contents. destruct (queue fq) as [|e l] eqn:E; cbn [head fst snd queue].
  - by rewrite E.
  - assert (list_Remove e (e :: l) = l) as -> by (by apply (list_Remove_mid e [] l)). done.
Qed.

Lemma PopBack_spec fq :
  fifo_inv fq →
  match (PopBack fq).1 with
  | None => contents fq = [] ∧ (PopBack fq).2 = fq
  | Some o => contents fq = contents (PopBack fq).2 ++ [o]
  end.
Proof.
  intros (Hnd & _). unfold PopBack, contents.
  destruct (last (queue fq)) as [e|] eqn:E; cbn [fst snd queue].
  - apply last_Some in E as [l' E]. rewrite E in Hnd |- *.
    rewrite (list_Remove_mid e l' []) by done. by rewrite app_nil_r, fmap_app.
  - apply last_None in E as ->. done.
Qed.

(** Every operation sequence on the queue gives the answers of the same
    sequence on a plain list of objects. *)
Inductive op := OPush (o : V) | OPopFront | OPopBack | OFront | OBack | OLen.

Inductive answer := AUnit | AObj (o : option V) | ALen (n : nat).

Definition step_fifo (fq : FifoQueue) (o : op) : answer * FifoQueue :=
  match o with
  | OPush x => (AUnit, PushBack fq x)
  | OPopFront => let '(r, fq') := PopFront fq in (AObj r, fq')
  | OPopBack => let '(r, fq') := PopBack fq in (AObj r, fq')
  | OFront => (AObj (Front fq), fq)
  | OBack => (AObj (Back fq), fq)
  | OLen => (ALen (Len fq), fq)
  end.

Definition step_list (l : list V) (o : op) : answer * list V :=
  match o with
  | OPush x => (AUnit, l ++ [x])
  | OPopFront => (AObj (head l), tail l)
  | OPopBack => (AObj (last l), take (length l - 1) l)
  | OFront => (AObj (head l), l)
  | OBack => (AObj (last l), l)
  | OLen => (ALen (length l), l)
  end.

Fixpoint run {S : Type} (step : S → op → answer * S) (s : S) (ops : list op) : list answer :=
  match ops with
  | [] => []
  | o :: ops => let '(a, s') := step s o in a :: run step s' ops
  end.

Lemma step_refines fq o :
  fifo_inv fq →
  (step_fifo fq o).1 = (step_list (contents fq) o).1
  ∧ contents (step_fifo fq o).2 = (step_list (contents fq) o).2
  ∧ fifo_inv (step_fifo fq o).2.
Proof.
  intros Hinv. destruct o; simpl.
  - split; [done|]. split; [apply contents_PushBack|by apply PushBack_inv].
  - pose proof (PopFront_spec fq Hinv) as [H1 H2]. pose proof (PopFront_inv fq Hinv).
    destruct (PopFront fq); simpl in *. by rewrite H1.
  - pose proof (PopBack_spec fq Hinv) as H1. pose proof (PopBack_inv fq Hinv).
    destruct (PopBack fq) as [[r|] fq']; simpl in *.
    + rewrite H1, last_snoc, length_app. simpl.
      split; [done|]. split; [|done]. rewrite Nat.add_sub. by rewrite take_app_length.
    + destruct H1 as [H1 ->]. rewrite H1. done.
  - unfold Front, contents. split; [|done]. by destruct (queue fq).
  - unfold Back, contents. split; [|done]. by rewrite fmap_last.
  - unfold Len, contents. split; [|done]. by rewrite length_fmap.
Qed.

End FifoQueue.

Arguments FifoQueue V : clear implicits.
Arguments element V : clear implicits.
Arguments iface V : clear implicits.
#[export] Hint Resolve NewFifoQueue_inv PopFront_inv PopBack_inv PushBack_inv DelByID_inv : go.

(** A FIFO queue refines the list of its objects: for every identity
    function and every sequence of PushBack, PopFront, PopBack, Front, Back
    and Len, a new queue answers exactly as a list does. *)
Theorem fifo_refines_list {V} (idf : option (iface V → string)) (ops : list op) :
  run step_fifo (NewFifoQueue idf) ops = run step_list [] ops.
Proof.
  change [] with (contents (NewFifoQueue idf)).
  generalize (NewFifoQueue_inv idf). generalize (NewFifoQueue idf).
  induction ops as [|o ops IH]; intros fq Hinv; [done|]. simpl.
  pose proof (step_refines fq o Hinv) as (H1 & H2 & H3).
  destruct (step_fifo fq o), (step_list (contents fq) o); simpl in *. subst. by rewrite IH.
Qed.

(** DelByID unlinks the object but looks its record up under the identity
    of the list element: whenever that differs from the object's ID (as with
    the lease pools' identity function, which maps anything but a lease to the
    empty string), GetByID keeps returning the deleted object. *)
Theorem DelByID_leaves_record {V} (fq fq' : FifoQueue V) f id e :
  identityFunc fq = Some f → elementRecord fq !! id = Some e → f (IElem e) ≠ id →
  DelByID fq id = Ok fq' →
  queue fq' = list_Remove e (queue fq) ∧ GetByID fq' id = Some (e_value e).
Proof.
  intros Hf He Hid. unfold DelByID, GetByID. rewrite He, Hf. intros [= <-]. simpl.
  split; [done|]. by rewrite lookup_delete_ne, He.
Qed.

Definition demo_identity (i : iface string) : string :=
  match i with IObj o => o | IElem _ => "" end.
Definition demo_queue : FifoQueue string := PushBack (NewFifoQueue (Some demo_identity)) "lease-1".

Lemma DelByID_leaves_record_witness :
  ∃ fq', DelByID demo_queue "lease-1" = Ok fq'
         ∧ queue fq' = [] ∧ GetByID fq' "lease-1" = Some "lease-1".
Proof.
  eexists. split; [reflexivity|].
  eapply (DelByID_leaves_record demo_queue _ demo_identity "lease-1" (Element 0 "lease-1"));
    [reflexivity|reflexivity|discriminate|reflexivity].
Defined.
