(* ===== verification/DeHeap.v ===== *)
(** Package [queue], priorityqueue.go: the double-ended priority queue on a
    max-min heap ([DeHeap]), whose even levels hold maxima and odd levels
    minima.

    Indices are Go ints ([Z]); loops carry fuel, shown to be enough. [nil]
    items of the backing array beyond the slice are not part of the model. *)

From S2P Require Import Prelude.
Local Open Scope Z_scope.

Section DeHeap.
Context {V : Type}.

Record Item := MkItem { ObjID : string; Obj : V; Priority : Z }.

Record DeHeap := MkHeap { items : list Item; count : Z }.

Definition NewDeHeap : DeHeap := MkHeap [] 0.

Definition Copy (dh : DeHeap) : DeHeap := MkHeap (items dh) (count dh).

Definition Len (dh : DeHeap) : Z := Z.of_nat (length (items dh)).

(** * Index arithmetic *)

Definition isMaxLevel (i : Z) : bool := Z.even (Z.log2 (i + 1)).
Definition parent (i : Z) : Z := Z.quot (i - 1) 2.
Definition grandparent (i : Z) : Z := Z.quot (i + 1) 4 - 1.
Definition leftChild (i : Z) : Z := i * 2 + 1.
Definition rightChild (i : Z) : Z := i * 2 + 2.

(** [items[i]] for an index in range. *)
Definition item_at (l : list Item) (i : Z) : option Item := l !! Z.to_nat i.

Definition prio (l : list Item) (i : Z) : Z := default 0 (Priority <$> item_at l i).

Definition Compare (l : list Item) (i j : Z) : bool :=
  if (Z.of_nat (length l) <=? i) || (Z.of_nat (length l) <=? j) then false
  else prio l j <? prio l i.

Definition Swap (l : list Item) (i j : Z) : list Item :=
  if (Z.of_nat (length l) <=? i) || (Z.of_nat (length l) <=? j) then l
  else match item_at l i, item_at l j with
       | Some x, Some y => <[Z.to_nat i := y]> (<[Z.to_nat j := x]> l)
       | _, _ => l
       end.

(** * Sifting *)

Fixpoint shiftUp_loop (fuel : nat) (l : list Item) (i : Z) (isMax : bool) : list Item * Z :=
  match fuel with
  | O => (l, i)
  | S f =>
      let g := grandparent i in
      if 0 <=? g then
        if eqb (Compare l g i) isMax then (l, i)
        else shiftUp_loop f (Swap l g i) g isMax
      else (l, i)
  end.

Definition shiftUp (l : list Item) (i : Z) : list Item * Z :=
  if i <? 0 then (l, i) else
  let isMax := isMaxLevel i in
  let p := parent i in
  let '(l, i, isMax) :=
    if 0 <=? p then
      if eqb (Compare l p i) isMax then (Swap l p i, p, negb isMax) else (l, i, isMax)
    else (l, i, isMax) in
  shiftUp_loop (S (Z.to_nat i)) l i isMax.

(** [for gc := first; gc < n && gc <= last; gc++]: [k] counts the candidates. *)
Fixpoint grand_loop (l : list Item) (isMax : bool) (last gc : Z) (k : nat) (t : Z) : Z :=
  match k with
  | O => t
  | S k =>
      if (gc <? Z.of_nat (length l)) && (gc <=? last)
      then grand_loop l isMax last (gc + 1) k (if eqb (Compare l gc t) isMax then gc else t)
      else t
  end.

(** The child or grandchild [i] has to be exchanged with, or [i] itself. *)
Definition down_target (l : list Item) (i : Z) : Z :=
  let isMax := isMaxLevel i in
  let lc := leftChild i in
  let rc := rightChild i in
  let t := if eqb (Compare l lc i) isMax then lc else i in
  let t := if (rc <? Z.of_nat (length l)) && eqb (Compare l rc t) isMax then rc else t in
  grand_loop l isMax (rightChild rc) (leftChild lc) 4 t.

Fixpoint shiftDown_loop (fuel : nat) (l : list Item) (i : Z) : list Item * Z :=
  match fuel with
  | O => (l, i)
  | S f =>
      let n := Z.of_nat (length l) in
      if i <? n then
        let isMax := isMaxLevel i in
        let lc := leftChild i in
        let rc := rightChild i in
        if n <=? lc then (l, i) else
        let t := down_target l i in
        if t =? i then (l, i) else
        let l := Swap l i t in
        if (t =? lc) || (t =? rc) then (l, t) else
        let p := parent t in
        if eqb (Compare l p t) isMax
        then shiftDown_loop f (Swap l p t) p
        else shiftDown_loop f l t
      else (l, i)
  end.

Definition shiftDown (l : list Item) (i : Z) : list Item * Z :=
  if i <? 0 then (l, i) else shiftDown_loop (S (length l)) l i.

(** * Heap operations *)

Definition set_items (dh : DeHeap) (l : list Item) : DeHeap := MkHeap l (count dh).

Definition Push (dh : DeHeap) (x : Item) : DeHeap :=
  let l := items dh ++ [x] in
  set_items dh (shiftUp l (Z.of_nat (length l) - 1)).1.

Definition Fix (dh : DeHeap) (i : Z) : DeHeap :=
  let '(l, j) := shiftDown (items dh) i in
  if 0 <? j then set_items dh (shiftUp l j).1 else set_items dh l.

(** [dh.items[0:n]] after the item at [n] was exchanged out. *)
Definition drop_last (l : list Item) : list Item := take (length l - 1) l.

Definition Remove (dh : DeHeap) (i : Z) : DeHeap :=
  let n := Len dh - 1 in
  if n <? i then dh
  else set_items dh (shiftDown (drop_last (Swap (items dh) i n)) i).1.

Definition GetMax (dh : DeHeap) : option Item := head (items dh).

Definition GetMin (dh : DeHeap) : option Item :=
  let n := Len dh - 1 in
  if n <? 0 then None else
  if n <? 1 then item_at (items dh) 0 else
  item_at (items dh) (if (2 <=? n) && Compare (items dh) 1 2 then 2 else 1).

Definition PopMax (dh : DeHeap) : option Item * DeHeap :=
  let n := Len dh - 1 in
  if n <? 0 then (None, dh) else
  (item_at (items dh) 0,
   set_items dh (shiftDown (drop_last (Swap (items dh) 0 n)) 0).1).

Definition PopMin (dh : DeHeap) : option Item * DeHeap :=
  let n := Len dh - 1 in
  if n <? 0 then (None, dh) else
  let lc := leftChild 0 in
  let rc := rightChild 0 in
  if n <? lc then (item_at (items dh) 0, set_items dh (drop_last (items dh))) else
  let t := if (rc <=? n) && Compare (items dh) lc rc then rc else lc in
  if (Len dh <=? t) || (Len dh <=? n) then (None, dh) else
  (item_at (items dh) t,
   set_items dh (shiftDown (drop_last (Swap (items dh) t n)) t).1).

End DeHeap.
Arguments Item V : clear implicits.
Arguments DeHeap V : clear implicits.
