(* ===== verification/DeHeapFacts.v ===== *)
(** Correctness of the max-min heap: every operation permutes the items, Push
    keeps the heap order, and a heap in order has its maximum at the root and
    its minimum among the root's children. *)

From S2P Require Import Prelude DeHeap.
Local Open Scope Z_scope.

Section Facts.
Context {V : Type}.
Implicit Types (l : list (Item V)) (dh : DeHeap V).

(** * Exchanges *)

Lemma length_Swap l i j : length (Swap l i j) = length l.
Proof. unfold Swap. repeat case_goal; rewrite ?length_insert; done. Qed.

Lemma Swap_perm l i j : Swap l i j ≡ₚ l.
Proof.
  unfold Swap. case_goal; [done|].
  destruct (item_at l i) as [x|] eqn:Hx; [|done].
  destruct (item_at l j) as [y|] eqn:Hy; [|done].
  by apply Permutation_insert_swap.
Qed.

Lemma item_at_range l i : 0 ≤ i < Z.of_nat (length l) → is_Some (item_at l i).
Proof. intros H. apply lookup_lt_is_Some. lia. Qed.

Lemma item_at_Swap l i j k :
  0 ≤ i < Z.of_nat (length l) → 0 ≤ j < Z.of_nat (length l) → 0 ≤ k →
  item_at (Swap l i j) k =
    if k =? i then item_at l j else if k =? j then item_at l i else item_at l k.
Proof.
  intros Hi Hj Hk. destruct (item_at_range l i Hi) as [x Hx].
  destruct (item_at_range l j Hj) as [y Hy]. unfold Swap.
  destruct (_ || _) eqn:E; [apply orb_true_iff in E as [E|E]; breflect; lia|].
  rewrite Hx, Hy. unfold item_at in *.
  destruct (k =? i) eqn:Ki; breflect.
  - subst k. rewrite list_lookup_insert_eq; [done|]. rewrite length_insert. lia.
  - rewrite list_lookup_insert_ne by lia. destruct (k =? j) eqn:Kj; breflect.
    + subst k. rewrite list_lookup_insert_eq; [done|lia].
    + by rewrite list_lookup_insert_ne by lia.
Qed.

Lemma prio_Swap l i j k :
  0 ≤ i < Z.of_nat (length l) → 0 ≤ j < Z.of_nat (length l) → 0 ≤ k →
  prio (Swap l i j) k =
    if k =? i then prio l j else if k =? j then prio l i else prio l k.
Proof. intros. unfold prio. rewrite item_at_Swap by done. by repeat case_goal. Qed.

Lemma Compare_spec l i j :
  0 ≤ i < Z.of_nat (length l) → 0 ≤ j < Z.of_nat (length l) →
  Compare l i j = (prio l j <? prio l i).
Proof.
  intros Hi Hj. unfold Compare. destruct (_ || _) eqn:E; [|done].
  apply orb_true_iff in E as [E|E]; breflect; lia.
Qed.

Lemma shiftUp_loop_perm f l i m : (shiftUp_loop f l i m).1 ≡ₚ l.
Proof.
  revert l i; induction f as [|f IH]; intros l i; simpl; [done|].
  repeat case_goal; simpl; try done. by rewrite IH, Swap_perm.
Qed.

Lemma shiftUp_perm l i : (shiftUp l i).1 ≡ₚ l.
Proof.
  unfold shiftUp. case_goal; [done|]. cbv zeta.
  destruct (0 <=? parent i); [destruct (eqb _ _)|]; cbv beta iota;
    rewrite shiftUp_loop_perm; by rewrite ?Swap_perm.
Qed.

Lemma shiftDown_loop_perm f l i : (shiftDown_loop f l i).1 ≡ₚ l.
Proof.
  revert l i; induction f as [|f IH]; intros l i; simpl; [done|].
  repeat (case_goal; simpl; try done); rewrite ?IH; by rewrite ?Swap_perm.
Qed.

Lemma shiftDown_perm l i : (shiftDown l i).1 ≡ₚ l.
Proof. unfold shiftDown. case_goal; [done|apply shiftDown_loop_perm]. Qed.

(** Exchanging an item with the last one and shortening the slice removes
    exactly that item. *)
Lemma Swap_last_removes l i x :
  0 ≤ i < Z.of_nat (length l) → item_at l i = Some x →
  l ≡ₚ x :: drop_last (Swap l i (Z.of_nat (length l) - 1)).
Proof.
  intros Hi Hx. set (n := Z.of_nat (length l) - 1).
  assert (item_at (Swap l i n) n = Some x) as Hn.
  { rewrite item_at_Swap by lia. destruct (n =? i) eqn:E; breflect; [by rewrite E|].
    rewrite Z.eqb_refl. done. }
  rewrite <- (Swap_perm l i n) at 1. unfold drop_last. rewrite length_Swap.
  rewrite <- (take_drop (length l - 1) (Swap l i n)) at 1.
  rewrite (drop_S _ x (length l - 1)).
  - rewrite drop_ge by (rewrite length_Swap; lia). by rewrite Permutation_app_comm.
  - rewrite <- Hn. unfold item_at. f_equal. lia.
Qed.

Lemma PopMax_perm dh x dh' :
  PopMax dh = (Some x, dh') → GetMax dh = Some x ∧ items dh ≡ₚ x :: items dh'.
Proof.
  unfold PopMax, GetMax, Len. destruct (_ <? 0) eqn:E; [done|]. breflect.
  intros [= Hx <-]. split.
  - unfold item_at in Hx. by rewrite head_lookup.
  - cbn [items set_items]. rewrite shiftDown_perm. apply Swap_last_removes; [lia|done].
Qed.

Lemma PopMax_empty dh dh' : PopMax dh = (None, dh') → items dh = [].
Proof.
  unfold PopMax, Len. destruct (_ <? 0) eqn:E; breflect.
  - intros _. destruct (items dh); [done|]. simpl in E. lia.
  - intros [= Hx _]. destruct (item_at_range (items dh) 0 ltac:(lia)) as [x Hx']. congruence.
Qed.

Lemma PopMin_perm dh x dh' :
  PopMin dh = (Some x, dh') → GetMin dh = Some x ∧ items dh ≡ₚ x :: items dh'.
Proof.
  unfold PopMin, GetMin. set (n := Len dh - 1). unfold Len in n.
  destruct (n <? 0) eqn:E0; [done|]. change (leftChild 0) with 1. change (rightChild 0) with 2.
  breflect. destruct (n <? 1) eqn:E1; breflect.
  - intros [= Hx <-]. split; [done|]. cbn [items set_items].
    assert (length (items dh) = 1%nat) as Hl by lia.
    destruct (items dh) as [|y [|]]; try done. by injection Hx as ->.
  - set (t := if (2 <=? n) && Compare (items dh) 1 2 then 2 else 1).
    assert (0 ≤ t < Z.of_nat (length (items dh))) as Ht.
    { subst t. destruct (2 <=? n) eqn:E2; breflect; simpl; [case_goal; lia|lia]. }
    destruct (_ || _) eqn:E2; [done|]. intros [= Hx <-]. split; [done|].
    cbn [items set_items]. rewrite shiftDown_perm. by apply Swap_last_removes.
Qed.

Lemma Remove_items dh i x :
  0 ≤ i → item_at (items dh) i = Some x → items dh ≡ₚ x :: items (Remove dh i).
Proof.
  intros Hi Hx. assert (Z.to_nat i < length (items dh))%nat by (by eapply lookup_lt_Some).
  unfold Remove, Len. destruct (_ <? i) eqn:E; breflect; [lia|].
  cbn [items set_items]. rewrite shiftDown_perm. apply Swap_last_removes; [lia|done].
Qed.

Lemma Push_items dh x : items (Push dh x) ≡ₚ x :: items dh.
Proof. unfold Push. cbn [items set_items]. rewrite shiftUp_perm. by rewrite Permutation_app_comm. Qed.

Lemma Fix_items dh i : items (Fix dh i) ≡ₚ items dh.
Proof.
  unfold Fix. pose proof (shiftDown_perm (items dh) i) as H. destruct (shiftDown _ _) as [l j].
  simpl in H. case_goal; cbn [items set_items]; by rewrite ?shiftUp_perm.
Qed.

(** * Levels and indices *)

Lemma parent_spec b : 0 < b → 0 ≤ parent b ∧ 2 * parent b + 1 ≤ b ≤ 2 * parent b + 2.
Proof.
  intros Hb. unfold parent. rewrite Z.quot_div_nonneg by lia.
  pose proof (Z.div_mod (b - 1) 2). pose proof (Z.mod_pos_bound (b - 1) 2). lia.
Qed.

Lemma grandparent_spec b :
  0 ≤ b → (b < 3 → grandparent b = -1)
          ∧ (3 ≤ b → 0 ≤ grandparent b ∧ 4 * grandparent b + 3 ≤ b ≤ 4 * grandparent b + 6).
Proof.
  intros Hb. unfold grandparent. rewrite Z.quot_div_nonneg by lia.
  pose proof (Z.div_mod (b + 1) 4). pose proof (Z.mod_pos_bound (b + 1) 4). lia.
Qed.

Lemma isMaxLevel_parent b : 0 < b → isMaxLevel (parent b) = negb (isMaxLevel b).
Proof.
  intros Hb. pose proof (parent_spec b Hb) as (Hp & H1 & H2). unfold isMaxLevel.
  assert (b + 1 = 2 * (parent b + 1) ∨ b + 1 = 2 * (parent b + 1) + 1) as [-> | ->] by lia;
    rewrite ?Z.log2_double, ?Z.log2_succ_double by lia;
    by rewrite Z.even_succ, <- Z.negb_even, negb_involutive.
Qed.

Lemma parent_parent b : 3 ≤ b → parent (parent b) = grandparent b.
Proof.
  intros Hb. pose proof (parent_spec b ltac:(lia)). pose proof (parent_spec (parent b) ltac:(lia)).
  pose proof (grandparent_spec b ltac:(lia)) as [_ Hg]. specialize (Hg Hb). lia.
Qed.

Lemma isMaxLevel_grandparent b : 3 ≤ b → isMaxLevel (grandparent b) = isMaxLevel b.
Proof.
  intros Hb. pose proof (parent_spec b ltac:(lia)).
  rewrite <- parent_parent, !isMaxLevel_parent, negb_involutive by lia. done.
Qed.

(** * Heap order *)

(** [a] dominates [b] on a level of kind [m] (true: maximum level). *)
Definition above (m : bool) (a b : Z) : Prop := if m then b ≤ a else a ≤ b.

Lemma above_trans m a b c : above m a b → above m b c → above m a c.
Proof. destruct m; simpl; lia. Qed.

Lemma above_negb m a b : above (negb m) a b ↔ above m b a.
Proof. by destruct m. Qed.

Definition rel l (a b : Z) : Prop := above (isMaxLevel a) (prio l a) (prio l b).

Definition edges_ok l (b : Z) : Prop :=
  rel l (parent b) b ∧ (3 ≤ b → rel l (grandparent b) b).

(** Every item is dominated by its parent and its grandparent. *)
Definition heap_ok l : Prop := ∀ b, 0 < b < Z.of_nat (length l) → edges_ok l b.

(** The state of the upward loop: order holds but for the grandparent edge of
    [i], and the grandparent dominates everything below [i]. *)
Definition up_inv l (i : Z) (m : bool) : Prop :=
  isMaxLevel i = m ∧ 0 ≤ i < Z.of_nat (length l)
  ∧ (∀ b, 0 < b < Z.of_nat (length l) → b ≠ i → edges_ok l b)
  ∧ (0 < i → rel l (parent i) i)
  ∧ (3 ≤ i → ∀ b, 0 < b < Z.of_nat (length l) →
       parent b = i ∨ 3 ≤ b ∧ grandparent b = i →
       above m (prio l (grandparent i)) (prio l b)).

(** The loop exits only with the grandparent edge in order. *)
Lemma up_inv_done l i m :
  up_inv l i m →
  (0 <= grandparent i → Compare l (grandparent i) i = m) → heap_ok l.
Proof.
  intros (Hm & Hi & Hb & Hp & _) Hg b Hbn.
  destruct (Z.eq_dec b i) as [->|]; [|by apply Hb]. split; [apply Hp; lia|].
  intros H3. destruct (grandparent_spec i ltac:(lia)) as [_ Hs]. specialize (Hs H3).
  specialize (Hg ltac:(lia)). rewrite Compare_spec in Hg by lia.
  unfold rel. rewrite isMaxLevel_grandparent, Hm by lia.
  destruct m; breflect; simpl; lia.
Qed.

Lemma Swap_prios l g i :
  0 ≤ g < Z.of_nat (length l) → 0 ≤ i < Z.of_nat (length l) → g ≠ i →
  prio (Swap l g i) g = prio l i ∧ prio (Swap l g i) i = prio l g
  ∧ ∀ k, 0 ≤ k → k ≠ g → k ≠ i → prio (Swap l g i) k = prio l k.
Proof.
  intros Hg Hi Hne. split; [|split].
  - rewrite prio_Swap, Z.eqb_refl by lia. done.
  - rewrite prio_Swap by lia. destruct (i =? g) eqn:E; breflect; [lia|]. by rewrite Z.eqb_refl.
  - intros k Hk Kg Ki. rewrite prio_Swap by lia.
    destruct (k =? g) eqn:E; breflect; [lia|]. destruct (k =? i) eqn:E'; breflect; [lia|done].
Qed.

Lemma up_inv_step l i m :
  up_inv l i m → 0 <= grandparent i → Compare l (grandparent i) i ≠ m →
  up_inv (Swap l (grandparent i) i) (grandparent i) m.
Proof.
  intros (Hm & Hi & Hb & Hp & Hd) Hg0 Hc.
  assert (3 ≤ i) as H3.
  { destruct (Z_lt_le_dec i 3); [|done].
    destruct (grandparent_spec i ltac:(lia)) as [Hs _]. specialize (Hs ltac:(lia)). lia. }
  destruct (grandparent_spec i ltac:(lia)) as [_ Hs]. specialize (Hs H3).
  set (g := grandparent i) in *. pose proof (parent_spec i ltac:(lia)) as Hps.
  assert (above m (prio l i) (prio l g)) as Hxg.
  { rewrite Compare_spec in Hc by lia. destruct m; simpl;
      [apply not_true_is_false in Hc|apply not_false_is_true in Hc]; breflect; lia. }
  assert (isMaxLevel g = m) as Hmg by (unfold g; rewrite isMaxLevel_grandparent; lia || done).
  destruct (Swap_prios l g i ltac:(lia) ltac:(lia) ltac:(lia)) as (Hsg & Hsi & Ho).
  specialize (Hd H3).
  split; [done|]. split; [rewrite length_Swap; lia|].
  rewrite length_Swap. split; [|split].
  - intros b Hbn Hbg. pose proof (parent_spec b ltac:(lia)) as Hpb.
    destruct (grandparent_spec b ltac:(lia)) as [_ Hgb].
    destruct (Z.eq_dec b i) as [->|Hbi].
    + assert (edges_ok l (parent i)) as [He _] by (apply Hb; lia).
      unfold rel in He. rewrite parent_parent in He by lia. fold g in He. rewrite Hmg in He.
      split; [|intros _; unfold rel; fold g; by rewrite Hsg, Hsi, Hmg].
      unfold rel. rewrite Hsi, Ho, isMaxLevel_parent, Hm by lia. by apply above_negb.
    + destruct (Hb b Hbn Hbi) as [He1 He2]. split.
      * unfold rel in *. rewrite (Ho b) by lia.
        destruct (Z.eq_dec (parent b) g) as [Eg|].
        { rewrite Eg in *. rewrite Hsg, Hmg in *. by eapply above_trans. }
        destruct (Z.eq_dec (parent b) i) as [Ei|]; [|by rewrite Ho by lia].
        rewrite Ei, Hsi, Hm. apply Hd; [lia|by left].
      * intros Hb3. specialize (He2 Hb3). specialize (Hgb Hb3). unfold rel in *.
        rewrite (Ho b) by lia.
        destruct (Z.eq_dec (grandparent b) g) as [Eg|].
        { rewrite Eg in *. rewrite Hsg, Hmg in *. by eapply above_trans. }
        destruct (Z.eq_dec (grandparent b) i) as [Ei|]; [|by rewrite Ho by lia].
        rewrite Ei, Hsi, Hm. apply Hd; [lia|by right].
  - intros Hgp. pose proof (parent_spec g Hgp) as Hpg.
    destruct (Hb g ltac:(lia) ltac:(lia)) as [He _]. unfold rel in *.
    rewrite Hsg, Ho by lia. rewrite isMaxLevel_parent, Hmg in * by lia.
    eapply above_trans; [done|]. by apply above_negb.
  - intros Hg3 b Hbn Hbc. destruct (grandparent_spec g ltac:(lia)) as [_ Hgg].
    specialize (Hgg Hg3). pose proof (parent_spec b ltac:(lia)) as Hpb.
    destruct (grandparent_spec b ltac:(lia)) as [_ Hgb].
    destruct (Hb g ltac:(lia) ltac:(lia)) as [_ He]. specialize (He Hg3). unfold rel in He.
    rewrite isMaxLevel_grandparent, Hmg in He by lia.
    rewrite (Ho (grandparent g)) by lia.
    destruct (Z.eq_dec b i) as [->|Hbi]; [by rewrite Hsi|].
    assert (b ≠ g) by lia. rewrite (Ho b) by lia. eapply above_trans; [done|].
    destruct (Hb b Hbn Hbi) as [He1 He2].
    destruct Hbc as [E|[H3b E]]; [|specialize (He2 H3b)]; unfold rel in *; by rewrite E, Hmg in *.
Qed.

Lemma shiftUp_loop_ok f l i m :
  up_inv l i m → i < Z.of_nat f → heap_ok (shiftUp_loop f l i m).1.
Proof.
  revert l i; induction f as [|f IH]; intros l i Hinv Hf; [destruct Hinv as (_ & ? & _); lia|].
  cbn [shiftUp_loop]. destruct (0 <=? grandparent i) eqn:E; breflect.
  - destruct (eqb _ _) eqn:E'.
    + apply eqb_prop in E'. by eapply up_inv_done.
    + assert (Compare l (grandparent i) i ≠ m) by (by apply eqb_false_iff in E').
      apply IH; [by apply up_inv_step|].
      destruct Hinv as (_ & Hi & _). destruct (grandparent_spec i ltac:(lia)) as [H1 H2].
      destruct (Z_lt_le_dec i 3); [lia|]. specialize (H2 ltac:(lia)). lia.
  - eapply up_inv_done; [done|lia].
Qed.

(** * Push *)

Lemma prio_app l x b : 0 ≤ b < Z.of_nat (length l) → prio (l ++ [x]) b = prio l b.
Proof. intros. unfold prio, item_at. by rewrite lookup_app_l by lia. Qed.

(** Appending an item leaves all order edges in place but those of the item. *)
Lemma append_edges l x b :
  heap_ok l → 0 < b < Z.of_nat (length l) → edges_ok (l ++ [x]) b.
Proof.
  intros Hok Hb. destruct (Hok b Hb) as [H1 H2].
  pose proof (parent_spec b ltac:(lia)). destruct (grandparent_spec b ltac:(lia)) as [_ Hg].
  split; [|intros H3; specialize (H2 H3); specialize (Hg H3)];
    unfold rel in *; by rewrite !prio_app by lia.
Qed.

(** No exchange with the parent: the appended leaf is where the loop starts. *)
Lemma up_inv_leaf l x (i := Z.of_nat (length l)) :
  heap_ok l → (0 < i → rel (l ++ [x]) (parent i) i) → up_inv (l ++ [x]) i (isMaxLevel i).
Proof.
  intros Hok Hp. assert (Z.of_nat (length (l ++ [x])) = i + 1) as Hn
    by (rewrite length_app; simpl; lia).
  split; [done|]. rewrite Hn. split; [lia|]. split; [|split; [done|]].
  - intros b Hb Hbi. apply append_edges; [done|lia].
  - intros H3 b Hb Hc. pose proof (parent_spec b ltac:(lia)).
    destruct (grandparent_spec b ltac:(lia)) as [_ Hg]. destruct Hc as [|[H3b ?]]; [lia|].
    specialize (Hg H3b). lia.
Qed.

(** Exchange with the parent: the new item continues from there. *)
Lemma up_inv_parent l x (i := Z.of_nat (length l)) (p := parent i) :
  heap_ok l → 0 < i → Compare (l ++ [x]) p i = isMaxLevel i →
  up_inv (Swap (l ++ [x]) p i) p (negb (isMaxLevel i)).
Proof.
  intros Hok H0 Hc. set (L := l ++ [x]) in *. set (m := isMaxLevel i) in *.
  assert (Z.of_nat (length L) = i + 1) as Hn by (unfold L; rewrite length_app; simpl; lia).
  pose proof (parent_spec i H0) as Hps. fold p in Hps.
  assert (isMaxLevel p = negb m) as Hmp by (by apply isMaxLevel_parent).
  assert (above m (prio L p) (prio L i)) as Hyx.
  { rewrite Compare_spec in Hc by lia. destruct m; simpl; breflect; lia. }
  assert (∀ k, 0 ≤ k → k ≠ p → k ≠ i → prio (Swap L p i) k = prio L k) as Ho.
  { intros k Hk Kp Ki. rewrite prio_Swap by lia.
    destruct (k =? p) eqn:E; breflect; [lia|]. destruct (k =? i) eqn:E'; breflect; [lia|done]. }
  assert (prio (Swap L p i) p = prio L i) as Hsp by (rewrite prio_Swap, Z.eqb_refl by lia; done).
  assert (prio (Swap L p i) i = prio L p) as Hsi.
  { rewrite prio_Swap by lia. destruct (i =? p) eqn:E; breflect; [lia|]. by rewrite Z.eqb_refl. }
  assert (0 < p → edges_ok L p) as Hep by (intros; apply append_edges; [done|lia]).
  split; [done|]. rewrite length_Swap, Hn. split; [lia|]. split; [|split].
  - intros b Hb Hbp. pose proof (parent_spec b ltac:(lia)) as Hpb.
    destruct (grandparent_spec b ltac:(lia)) as [_ Hgb].
    destruct (Z.eq_dec b i) as [->|Hbi].
    + split; [unfold rel; fold p; rewrite Hsp, Hsi, Hmp; by apply above_negb|].
      intros H3. specialize (Hgb H3). destruct (Hep ltac:(lia)) as [He _]. unfold rel in *.
      unfold p in He. rewrite parent_parent in He by lia. fold p in He.
      by rewrite Hsi, Ho by lia.
    + destruct (append_edges l x b Hok ltac:(lia)) as [He1 He2]. fold L in He1, He2. split.
      * unfold rel in *. rewrite (Ho b) by lia. destruct (Z.eq_dec (parent b) p) as [E|].
        { rewrite E, Hsp, Hmp in *. eapply above_trans; [|done]. by apply above_negb. }
        by rewrite Ho by lia.
      * intros H3. specialize (He2 H3). specialize (Hgb H3). unfold rel in *. rewrite (Ho b) by lia.
        destruct (Z.eq_dec (grandparent b) p) as [E|]; [exfalso; lia|]. by rewrite Ho by lia.
  - intros Hp0. pose proof (parent_spec p Hp0). destruct (Hep Hp0) as [He _]. unfold rel in *.
    rewrite Hsp, Ho by lia. rewrite isMaxLevel_parent, Hmp, negb_involutive in * by lia.
    by eapply above_trans.
  - intros H3 b Hb Hc'. destruct (grandparent_spec p ltac:(lia)) as [_ Hgp]. specialize (Hgp H3).
    pose proof (parent_spec b ltac:(lia)). destruct (grandparent_spec b ltac:(lia)) as [_ Hgb].
    destruct (Hep ltac:(lia)) as [_ He]. specialize (He H3). unfold rel in He.
    rewrite isMaxLevel_grandparent, Hmp in He by lia. rewrite (Ho (grandparent p)) by lia.
    destruct Hc' as [E|[H3b E]]; [|specialize (Hgb H3b); lia].
    destruct (Z.eq_dec b i) as [->|Hbi]; [by rewrite Hsi|]. rewrite (Ho b) by lia.
    destruct (append_edges l x b Hok ltac:(lia)) as [He1 _]. fold L in He1. unfold rel in He1.
    rewrite E, Hmp in He1. by eapply above_trans.
Qed.

Lemma Push_heap_ok dh x : heap_ok (items dh) → heap_ok (items (Push dh x)).
Proof.
  intros Hok. unfold Push. cbn [items set_items]. rewrite length_app. simpl length.
  replace (Z.of_nat (length (items dh) + 1) - 1) with (Z.of_nat (length (items dh))) by lia.
  set (i := Z.of_nat (length (items dh))).
  destruct (Z.eq_dec i 0) as [Hi0|].
  - intros b Hb. rewrite (Permutation_length (shiftUp_perm _ _)), length_app in Hb.
    simpl in Hb. lia.
  - unfold shiftUp. destruct (i <? 0) eqn:E; breflect; [lia|]. clear E. pose proof (parent_spec i ltac:(lia)).
    destruct (0 <=? parent i) eqn:E; breflect; [|lia]. destruct (eqb _ _) eqn:E'.
    + apply eqb_prop in E'. apply shiftUp_loop_ok; [|lia]. apply up_inv_parent; [done|lia|done].
    + apply eqb_false_iff in E'. apply shiftUp_loop_ok; [|lia]. apply up_inv_leaf; [done|].
      intros H0. unfold rel. rewrite isMaxLevel_parent by done. fold i. fold i in E'.
      rewrite Compare_spec in E' by (rewrite length_app; simpl; lia).
      destruct (isMaxLevel i); simpl;
        [apply not_true_is_false in E'|apply not_false_is_true in E']; breflect; lia.
Qed.

(** * Extremes of an ordered heap *)

Lemma root_is_max l b :
  heap_ok l → 0 ≤ b < Z.of_nat (length l) → prio l b ≤ prio l 0.
Proof.
  intros Hok Hb. destruct Hb as [Hb0 Hbn]. revert Hbn.
  pattern b. apply Z_lt_induction; [|done]. clear b Hb0. intros b IH Hbn.
  destruct (Z_le_gt_dec b 0); [destruct (Z.eq_dec b 0) as [->|]; [done|]|].
  { unfold prio, item_at. by replace (Z.to_nat b) with (Z.to_nat 0) by lia. }
  destruct (Hok b ltac:(lia)) as [H1 H2]. pose proof (parent_spec b ltac:(lia)).
  destruct (isMaxLevel b) eqn:E.
  - destruct (Z_lt_le_dec b 3).
    { assert (b = 1 ∨ b = 2) as [-> | ->] by lia; done. }
    specialize (H2 ltac:(lia)). unfold rel in H2. rewrite isMaxLevel_grandparent, E in H2 by lia.
    destruct (grandparent_spec b ltac:(lia)) as [_ Hg]. specialize (Hg ltac:(lia)).
    specialize (IH (grandparent b) ltac:(lia) ltac:(lia)). simpl in H2. lia.
  - unfold rel in H1. rewrite isMaxLevel_parent, E in H1 by lia. simpl in H1.
    specialize (IH (parent b) ltac:(lia) ltac:(lia)). lia.
Qed.

(** Below the root, everything is at least one of the root's children. *)
Lemma child_is_min l b :
  heap_ok l → 0 < b < Z.of_nat (length l) →
  prio l 1 ≤ prio l b ∨ 2 < Z.of_nat (length l) ∧ prio l 2 ≤ prio l b.
Proof.
  intros Hok [Hb0 Hbn]. assert (0 ≤ b) as Hb by lia. revert Hb0 Hbn.
  pattern b. apply Z_lt_induction; [|done]. clear b Hb. intros b IH Hb0 Hbn.
  destruct (Z_lt_le_dec b 3).
  { assert (b = 1 ∨ b = 2) as [-> | ->] by lia; [by left|right]. lia. }
  destruct (Hok b ltac:(lia)) as [H1 H2]. specialize (H2 ltac:(lia)).
  pose proof (parent_spec b ltac:(lia)).
  destruct (grandparent_spec b ltac:(lia)) as [_ Hg]. specialize (Hg ltac:(lia)).
  destruct (isMaxLevel b) eqn:E.
  - unfold rel in H1. rewrite isMaxLevel_parent, E in H1 by lia. simpl in H1.
    destruct (IH (parent b) ltac:(lia) ltac:(lia) ltac:(lia)); lia.
  - unfold rel in H2. rewrite isMaxLevel_grandparent, E in H2 by lia. simpl in H2.
    destruct (Z.eq_dec (grandparent b) 0) as [E0|].
    { by rewrite <- isMaxLevel_grandparent, E0 in E by lia. }
    destruct (IH (grandparent b) ltac:(lia) ltac:(lia) ltac:(lia)); lia.
Qed.

Lemma elem_of_prio l y : y ∈ l → ∃ b, 0 ≤ b < Z.of_nat (length l) ∧ prio l b = Priority y.
Proof.
  intros (k & Hk)%list_elem_of_lookup. exists (Z.of_nat k).
  pose proof (lookup_lt_Some _ _ _ Hk). split; [lia|].
  unfold prio, item_at. by rewrite Nat2Z.id, Hk.
Qed.

Lemma item_at_prio l b x : item_at l b = Some x → prio l b = Priority x.
Proof. unfold prio. by intros ->. Qed.

Lemma GetMax_max dh x y :
  heap_ok (items dh) → GetMax dh = Some x → y ∈ items dh → Priority y ≤ Priority x.
Proof.
  intros Hok Hx (b & Hb & <-)%elem_of_prio. unfold GetMax in Hx. rewrite head_lookup in Hx.
  rewrite <- (item_at_prio (items dh) 0 x) by done. by apply root_is_max.
Qed.

Lemma GetMin_min dh x y :
  heap_ok (items dh) → GetMin dh = Some x → y ∈ items dh → Priority x ≤ Priority y.
Proof.
  intros Hok Hx (b & Hb & <-)%elem_of_prio. unfold GetMin, Len in Hx.
  destruct (_ <? 0) eqn:E0; [done|]. breflect. destruct (_ <? 1) eqn:E1; breflect.
  - apply item_at_prio in Hx. assert (b = 0) as -> by lia. lia.
  - set (t := if (2 <=? _) && _ then 2 else 1) in Hx. apply item_at_prio in Hx. rewrite <- Hx.
    assert (prio (items dh) t ≤ prio (items dh) 1
            ∧ (2 < Z.of_nat (length (items dh)) → prio (items dh) t ≤ prio (items dh) 2)) as [H1 H2].
    { subst t. destruct (2 <=? _) eqn:E2; breflect; cbn [andb]; [|lia].
      rewrite Compare_spec by lia. case_goal; breflect; lia. }
    destruct (Z.eq_dec b 0) as [->|].
    + pose proof (root_is_max (items dh) 1 Hok ltac:(lia)). lia.
    + destruct (child_is_min (items dh) b Hok ltac:(lia)) as [|[]]; [lia|].
      specialize (H2 ltac:(lia)). lia.
Qed.

Lemma GetMax_elem dh : items dh ≠ [] → ∃ x, GetMax dh = Some x ∧ x ∈ items dh.
Proof. unfold GetMax. destruct (items dh) as [|x l]; [done|]. exists x. split; [done|left]. Qed.

Lemma GetMin_elem dh : items dh ≠ [] → ∃ x, GetMin dh = Some x ∧ x ∈ items dh.
Proof.
  intros Hne. unfold GetMin, Len.
  assert (0 < Z.of_nat (length (items dh))) by (destruct (items dh); simpl; [done|lia]).
  destruct (_ <? 0) eqn:E0; breflect; [lia|].
  assert (∀ t, 0 ≤ t < Z.of_nat (length (items dh)) →
          ∃ x, item_at (items dh) t = Some x ∧ x ∈ items dh) as Ht.
  { intros t Hr. destruct (item_at_range (items dh) t Hr) as [x Hx]. exists x. split; [done|].
    by eapply list_elem_of_lookup_2. }
  destruct (_ <? 1) eqn:E1; breflect; [apply Ht; lia|].
  destruct (2 <=? _) eqn:E2; breflect; cbn [andb]; [|apply Ht; lia].
  case_goal; apply Ht; lia.
Qed.

(** Heaps built by pushing items. *)
Definition pushes (xs : list (Item V)) : DeHeap V := foldl Push NewDeHeap xs.

Lemma pushes_spec xs : items (pushes xs) ≡ₚ xs ∧ heap_ok (items (pushes xs)).
Proof.
  induction xs as [|x xs IH] using rev_ind.
  - split; [done|]. intros b Hb. simpl in Hb. lia.
  - unfold pushes in *. rewrite foldl_app. cbn [foldl]. destruct IH as [H1 H2]. split.
    + by rewrite Push_items, H1, Permutation_app_comm.
    + by apply Push_heap_ok.
Qed.

(** Popping from either end of a heap in order removes one item of
    extreme priority, the one GetMax or GetMin shows, and keeps all others. *)
Theorem Pop_extremes dh x y dhx dhy :
  heap_ok (items dh) → PopMax dh = (Some x, dhx) → PopMin dh = (Some y, dhy) →
  GetMax dh = Some x ∧ items dh ≡ₚ x :: items dhx
  ∧ GetMin dh = Some y ∧ items dh ≡ₚ y :: items dhy
  ∧ ∀ z, z ∈ items dh → Priority y ≤ Priority z ≤ Priority x.
Proof.
  intros Hok [Hx HPx]%PopMax_perm [Hy HPy]%PopMin_perm. repeat (split; [done|]).
  intros z Hz. split; [by eapply GetMin_min|by eapply GetMax_max].
Qed.

(** However items are pushed, the heap holds exactly those items, its
    front is one of greatest priority and its back one of least priority. *)
Theorem pushed_extremes xs :
  items (pushes xs) ≡ₚ xs
  ∧ (xs ≠ [] →
     (∃ x, GetMax (pushes xs) = Some x ∧ x ∈ xs ∧ ∀ y, y ∈ xs → Priority y ≤ Priority x)
     ∧ (∃ x, GetMin (pushes xs) = Some x ∧ x ∈ xs ∧ ∀ y, y ∈ xs → Priority x ≤ Priority y)).
Proof.
  destruct (pushes_spec xs) as [HP Hok]. split; [done|]. intros Hne.
  assert (items (pushes xs) ≠ []) as Hne'.
  { intros E. rewrite E in HP. by apply Permutation_nil_l in HP. }
  destruct (GetMax_elem _ Hne') as (x & Hx & Hx'). destruct (GetMin_elem _ Hne') as (z & Hz & Hz').
  split; [exists x|exists z]; (split; [done|]); (split; [by rewrite <- HP|]);
    intros y Hy; rewrite <- HP in Hy; [by eapply GetMax_max|by eapply GetMin_min].
Qed.

End Facts.

Definition prio_item (z : Z) : Item unit := MkItem "" () z.

Definition demo_heap : DeHeap unit := pushes (prio_item <$> [2; 5; 1]).

Lemma Pop_extremes_witness :
  GetMax demo_heap = Some (prio_item 5) ∧ GetMin demo_heap = Some (prio_item 1).
Proof.
  destruct (Pop_extremes demo_heap (prio_item 5) (prio_item 1)
              (PopMax demo_heap).2 (PopMin demo_heap).2) as (Hx & _ & Hy & _).
  - apply pushes_spec.
  - vm_compute. reflexivity.
  - vm_compute. reflexivity.
  - exact (conj Hx Hy).
Defined.

Lemma pushed_extremes_witness :
  ∃ x, GetMax (pushes (prio_item <$> [2; 5; 1])) = Some x ∧ x ∈ prio_item <$> [2; 5; 1]
       ∧ ∀ y, y ∈ prio_item <$> [2; 5; 1] → Priority y ≤ Priority x.
Proof. apply (pushed_extremes (prio_item <$> [2; 5; 1])). discriminate. Defined.

(** * PopMax does not keep the order *)

(** The pushes of the counterexample. *)
Definition demo_pushes : list (Item unit) :=
  prio_item <$> [17; 7; 1; 20; 2; 2; 9; 9; 20; 5; 9; 1].

Fixpoint pop_maxes (n : nat) (dh : DeHeap unit) : list Z * DeHeap unit :=
  match n with
  | O => ([], dh)
  | S n =>
      match PopMax dh with
      | (Some x, dh) => let '(l, dh) := pop_maxes n dh in (Priority x :: l, dh)
      | (None, dh) => ([], dh)
      end
  end.

(** After exchanging the sifted item with its parent, shiftDown resumes
    at the parent instead of the grandchild, so the old parent can end above
    larger items: twelve pushes followed by three PopMax calls return 20, 20
    and then 9 while an item of priority 17 is still in the heap. *)
Theorem PopMax_misses_maximum :
  (pop_maxes 3 (pushes demo_pushes)).1 = [20; 20; 9]
  ∧ prio_item 17 ∈ items (pop_maxes 3 (pushes demo_pushes)).2
  ∧ heap_ok (items (pushes demo_pushes))
  ∧ ¬ heap_ok (items (pop_maxes 2 (pushes demo_pushes)).2).
Proof.
  split; [vm_compute; reflexivity|]. split.
  { apply (list_elem_of_lookup_2 _ 8%nat). vm_compute. reflexivity. }
  split; [apply pushes_spec|]. intros H. destruct (H 8) as [H8 _]; [by vm_compute|].
  vm_compute in H8. by apply H8.
Qed.
