(* ===== verification/PriorityQueue.v ===== *)
(** Package [queue], priorityqueue.go: [PriorityQueue], the queue interface on
    top of [DeHeap]. [priorityFunc] returns a priority and possibly an error,
    as in Go both are available to the caller. *)

From S2P Require Import Prelude DeHeap DeHeapFacts.
Local Open Scope Z_scope.

Inductive pq_error := PqNotFound | PqPriority (e : string).

Section PriorityQueue.
Context {V : Type}.

Record PriorityQueue := MkPQ {
  deHeap : DeHeap V;
  pqIdentity : V → string;
  priorityFunc : V → Z * option string;
}.

Definition NewPriorityQueue (idFunc : V → string) (prioFunc : V → Z * option string)
    : PriorityQueue := MkPQ NewDeHeap idFunc prioFunc.

Definition set_heap (pq : PriorityQueue) (dh : DeHeap V) : PriorityQueue :=
  MkPQ dh (pqIdentity pq) (priorityFunc pq).

Definition pq_Front (pq : PriorityQueue) : option V := Obj <$> GetMax (deHeap pq).
Definition pq_Back (pq : PriorityQueue) : option V := Obj <$> GetMin (deHeap pq).
Definition pq_Len (pq : PriorityQueue) : Z := Len (deHeap pq).

(** The objects [f] is called on, and whether the iteration reached the end. *)
Fixpoint pq_range_go (f : V → bool) (l : list (Item V)) : list V * bool :=
  match l with
  | [] => ([], true)
  | x :: l =>
      if f (Obj x) then let '(vs, b) := pq_range_go f l in (Obj x :: vs, b)
      else ([Obj x], false)
  end.
Definition pq_Range (pq : PriorityQueue) (f : V → bool) : list V * bool :=
  pq_range_go f (items (deHeap pq)).

Fixpoint sorted_go (fuel : nat) (f : V → bool) (dh : DeHeap V) : list V * bool :=
  match fuel with
  | O => ([], true)
  | S n =>
      match PopMax dh with
      | (None, _) => ([], true)
      | (Some x, dh) =>
          if f (Obj x) then let '(vs, b) := sorted_go n f dh in (Obj x :: vs, b)
          else ([Obj x], false)
      end
  end.
Definition pq_SortedRange (pq : PriorityQueue) (f : V → bool) : list V * bool :=
  let tmpHeap := Copy (deHeap pq) in
  sorted_go (S (length (items tmpHeap))) f tmpHeap.

Definition pq_PopFront (pq : PriorityQueue) : option V * PriorityQueue :=
  let '(x, dh) := PopMax (deHeap pq) in (Obj <$> x, set_heap pq dh).

Definition pq_PopBack (pq : PriorityQueue) : option V * PriorityQueue :=
  let '(x, dh) := PopMin (deHeap pq) in (Obj <$> x, set_heap pq dh).

Definition pq_PushBack (pq : PriorityQueue) (obj : V) : res pq_error PriorityQueue :=
  match priorityFunc pq obj with
  | (_, Some e) => Err (PqPriority e)
  | (p, None) =>
      Ok (set_heap pq (Push (deHeap pq) (MkItem (pqIdentity pq obj) obj p)))
  end.

(** First index whose item has the ID; [keyNotFoundIndex] is [None]. *)
Fixpoint index_of (l : list (Item V)) (objID : string) : option nat :=
  match l with
  | [] => None
  | x :: l => if bool_decide (ObjID x = objID) then Some 0%nat else S <$> index_of l objID
  end.
Definition getIndexAndItemByObjID (pq : PriorityQueue) (objID : string)
    : option (Z * Item V) :=
  match index_of (items (deHeap pq)) objID with
  | None => None
  | Some i => (λ x, (Z.of_nat i, x)) <$> items (deHeap pq) !! i
  end.

Definition pq_GetByID (pq : PriorityQueue) (objID : string) : option V :=
  (λ ix, Obj ix.2) <$> getIndexAndItemByObjID pq objID.

Definition pq_DelByID (pq : PriorityQueue) (objID : string) : res pq_error PriorityQueue :=
  match getIndexAndItemByObjID pq objID with
  | Some (index, _) => Ok (set_heap pq (Remove (deHeap pq) index))
  | None => Err PqNotFound
  end.

(** The item is updated in place before the priority error is looked at; the
    queue is returned also on error. *)
Definition pq_UpdateObjByID (pq : PriorityQueue) (objID : string) (obj : V)
    : option pq_error * PriorityQueue :=
  match getIndexAndItemByObjID pq objID with
  | None => (Some PqNotFound, pq)
  | Some (index, item) =>
      let '(p, err) := priorityFunc pq obj in
      let l := <[Z.to_nat index := MkItem (ObjID item) obj p]> (items (deHeap pq)) in
      let dh := set_items (deHeap pq) l in
      match err with
      | Some e => (Some (PqPriority e), set_heap pq dh)
      | None => (None, set_heap pq (Fix dh index))
      end
  end.

Definition UpdatePriorityFunc (pq : PriorityQueue) (f : V → Z * option string)
    : PriorityQueue := MkPQ (deHeap pq) (pqIdentity pq) f.

(** * Lemmas *)

Lemma index_of_Some l id i :
  index_of l id = Some i → ∃ x, l !! i = Some x ∧ ObjID x = id
    ∧ ∀ j y, (j < i)%nat → l !! j = Some y → ObjID y ≠ id.
Proof.
  revert i; induction l as [|x l IH]; intros i; simpl; [done|].
  case_bool_decide as E.
  - intros [= <-]. exists x. split; [done|]. split; [done|]. intros j y ?. lia.
  - destruct (index_of l id) as [k|]; simpl; [|done]. intros [= <-].
    destruct (IH k eq_refl) as (y & H1 & H2 & H3). exists y. split; [done|]. split; [done|].
    intros [|j] z Hj Hz; simpl in Hz; [congruence|]. eapply H3; [|done]. lia.
Qed.

Lemma index_of_None l id : index_of l id = None → ∀ x, x ∈ l → ObjID x ≠ id.
Proof.
  induction l as [|x l IH]; simpl; [set_solver|]. case_bool_decide as E; [done|].
  destruct (index_of l id); [done|]. intros _ y [->|Hy]%elem_of_cons; [done|auto].
Qed.

Lemma getIndex_spec pq id :
  match getIndexAndItemByObjID pq id with
  | None => ∀ x, x ∈ items (deHeap pq) → ObjID x ≠ id
  | Some (i, x) => 0 ≤ i ∧ item_at (items (deHeap pq)) i = Some x ∧ ObjID x = id
  end.
Proof.
  unfold getIndexAndItemByObjID. destruct (index_of _ id) as [i|] eqn:E.
  - apply index_of_Some in E as (x & Hx & Hid & _). rewrite Hx. cbn [fmap option_fmap option_map].
    split; [lia|]. split; [|done]. unfold item_at. by rewrite Nat2Z.id.
  - simpl. by apply index_of_None.
Qed.

(** Deleting by ID removes exactly one item carrying that ID and keeps
    the others, or reports that no item carries it and changes nothing. *)
Theorem DelByID_spec pq id :
  match pq_DelByID pq id with
  | Ok pq' => ∃ x, ObjID x = id ∧ items (deHeap pq) ≡ₚ x :: items (deHeap pq')
  | Err e => e = PqNotFound ∧ ∀ x, x ∈ items (deHeap pq) → ObjID x ≠ id
  end.
Proof.
  pose proof (getIndex_spec pq id) as H. unfold pq_DelByID.
  destruct (getIndexAndItemByObjID pq id) as [[i x]|]; [|done].
  destruct H as (Hi & Hx & Hid). exists x. split; [done|]. by apply Remove_items.
Qed.

(** SortedRange terminates and, when its callback never stops it, visits
    every object of the queue exactly once, leaving the queue untouched. *)
Theorem SortedRange_visits_all pq f :
  (∀ o, f o = true) →
  ∃ vs, pq_SortedRange pq f = (vs, true) ∧ vs ≡ₚ Obj <$> items (deHeap pq).
Proof.
  intros Hf. unfold pq_SortedRange. cbn [Copy items].
  assert (∀ n dh, (length (items dh) < n)%nat →
            ∃ vs, sorted_go n f dh = (vs, true) ∧ vs ≡ₚ Obj <$> items dh) as H.
  2: { apply (H _ (Copy (deHeap pq))). simpl. lia. }
  induction n as [|n IH]; intros dh Hn; [lia|]. cbn [sorted_go].
  destruct (PopMax dh) as [[x|] dh'] eqn:E.
  - destruct (PopMax_perm _ _ _ E) as [_ HP]. rewrite Hf.
    destruct (IH dh') as (vs & -> & Hvs).
    { apply Permutation_length in HP. simpl in HP. lia. }
    exists (Obj x :: vs). split; [done|]. by rewrite HP, fmap_cons, Hvs.
  - apply PopMax_empty in E as ->. by exists [].
Qed.

End PriorityQueue.
Arguments PriorityQueue V : clear implicits.

Definition demo_pq : PriorityQueue Z :=
  match pq_PushBack (NewPriorityQueue (λ _, "a") (λ z, (z, None))) 5 with
  | Ok pq => pq
  | Err _ => NewPriorityQueue (λ _, "a") (λ z, (z, None))
  end.

Lemma SortedRange_visits_all_witness :
  ∃ vs, pq_SortedRange demo_pq (λ _, true) = (vs, true) ∧ vs ≡ₚ Obj <$> items (deHeap demo_pq).
Proof. apply (SortedRange_visits_all demo_pq (λ _, true)). reflexivity. Defined.
