(* ===== verification/RoundRobin.v ===== *)
(** Smooth weighted round robin: the [WNGINX] balancer of
    [loadbalance/roundrobin.go], which the alias routes use to split traffic
    between function versions.

    The nodes are pointers to [WeightNginx] records owned by the balancer
    alone, so the model keeps the records themselves in a list and lets the
    local [best] of [nextWeightedNode] be an index into it. Node values are of
    any type with decidable equality, as the [interface{}] of the source. *)

From S2P Require Import Prelude.
Local Open Scope Z_scope.

Section WNGINX.
Context {A : Type} `{EqDecision A}.

Record WeightNginx : Type := mkWeightNginx {
  Node : A;
  Weight : Z;
  CurrentWeight : Z;
  EffectiveWeight : Z;
}.

Record WNGINX : Type := mkWNGINX { nodes : list WeightNginx }.

Definition Add (w : WNGINX) (node : A) (weight : Z) : WNGINX :=
  mkWNGINX (nodes w ++ [mkWeightNginx node weight 0 weight]).

Fixpoint remove_loop (l : list WeightNginx) (node : A) : list WeightNginx :=
  match l with
  | [] => []
  | n :: l => if bool_decide (Node n = node) then l else n :: remove_loop l node
  end.

(** The first node equal to the argument is cut out. *)
Definition Remove (w : WNGINX) (node : A) : WNGINX :=
  mkWNGINX (remove_loop (nodes w) node).

Definition RemoveAll (w : WNGINX) : WNGINX := mkWNGINX (take 0 (nodes w)).

Definition Reset (w : WNGINX) : WNGINX :=
  mkWNGINX ((λ s, mkWeightNginx (Node s) (Weight s) 0 (Weight s)) <$> nodes w).

Definition addCurrent (d : Z) (n : WeightNginx) : WeightNginx :=
  mkWeightNginx (Node n) (Weight n) (CurrentWeight n + d) (EffectiveWeight n).

Definition current_at (l : list WeightNginx) (i : nat) : Z :=
  default 0 (CurrentWeight <$> l !! i).

(** The [for _, w := range nodes] loop at the index [i], with [k] nodes left. *)
Fixpoint weigh_loop (k i : nat) (l : list WeightNginx) (best : nat) (total : Z)
  : list WeightNginx * nat * Z :=
  match k with
  | O => (l, best, total)
  | S k =>
      let e := default 0 (EffectiveWeight <$> l !! i) in
      let l := alter (addCurrent e) i l in
      let total := total + e in
      let best := if current_at l best <? current_at l i then i else best in
      weigh_loop k (S i) l best total
  end.

(** [None] is the nil result on no nodes; otherwise the index of the chosen
    node and the nodes after the call. *)
Definition nextWeightedNode (l : list WeightNginx) : option (nat * list WeightNginx) :=
  match l with
  | [] => None
  | _ =>
      let '(l, best, total) := weigh_loop (length l) 0 l 0 0 in
      Some (best, alter (addCurrent (- total)) best l)
  end.

(** [Next], with the index of the chosen node in place of its value. *)
Definition nextIndex (w : WNGINX) : option (nat * WNGINX) :=
  match nodes w with
  | [] => None
  | [_] => Some (0%nat, w)
  | _ => '(i, l) ← nextWeightedNode (nodes w); Some (i, mkWNGINX l)
  end.

Definition Next (w : WNGINX) : option A * WNGINX :=
  match nextIndex w with
  | None => (None, w)
  | Some (i, w') => (Node <$> nodes w !! i, w')
  end.

(** [k] calls of [Next] in a row: the chosen indices and the last state. *)
Fixpoint nexts (k : nat) (w : WNGINX) : list nat * WNGINX :=
  match k with
  | O => ([], w)
  | S k =>
      match nextIndex w with
      | None => ([], w)
      | Some (i, w') => let '(l, w'') := nexts k w' in (i :: l, w'')
      end
  end.

(** * What one call does *)

Fixpoint sumZ (l : list Z) : Z :=
  match l with [] => 0 | x :: l => x + sumZ l end.
Definition total_weight (w : list WeightNginx) : Z := sumZ (EffectiveWeight <$> w).
Definition total_current (w : list WeightNginx) : Z := sumZ (CurrentWeight <$> w).

Lemma sumZ_insert l i x y : l !! i = Some x → sumZ (<[i:=y]> l) = sumZ l - x + y.
Proof.
  revert i; induction l as [|z l IH]; intros [|i] Hi; try discriminate.
  - injection Hi as ->. cbn. lia.
  - change (z + sumZ (<[i:=y]> l) = z + sumZ l - x + y). rewrite (IH i Hi). lia.
Qed.

Definition bump (n : WeightNginx) : WeightNginx := addCurrent (EffectiveWeight n) n.

(** The loop adds every effective weight once and leaves [best] at an index
    of greatest current weight. *)
Lemma weigh_loop_spec k pre rest best total nodes' best' total' :
  length rest = k →
  weigh_loop k (length pre) (pre ++ rest) best total = (nodes', best', total') →
  (best < length pre)%nat ∨ (pre = [] ∧ best = 0%nat) →
  (∀ i n, pre !! i = Some n → CurrentWeight n ≤ current_at pre best) →
  nodes' = pre ++ (bump <$> rest) ∧
  total' = total + total_weight rest ∧
  ((best' < length nodes')%nat ∨ nodes' = []) ∧
  (∀ i n, nodes' !! i = Some n → CurrentWeight n ≤ current_at nodes' best').
Proof.
  revert pre rest best total. induction k as [|k IH]; intros pre rest best total Hk Hl Hb Hm.
  { destruct rest; [|discriminate]. cbn in Hl. injection Hl as <- <- <-.
    unfold total_weight. cbn. rewrite !app_nil_r.
    split; [done|]. split; [lia|]. split; [|done]. destruct Hb as [|[-> _]]; [by left|by right]. }
  destruct rest as [|n rest]; [discriminate|]. injection Hk as Hk.
  cbn [weigh_loop] in Hl.
  rewrite lookup_app_r, Nat.sub_diag in Hl by lia. cbn [lookup list_lookup fmap option_fmap option_map default] in Hl.
  rewrite alter_app_r_alt, Nat.sub_diag in Hl by lia. cbn [alter list_alter] in Hl.
  change (addCurrent (EffectiveWeight n) n) with (bump n) in Hl.
  rewrite (cons_middle (bump n)), app_assoc in Hl.
  replace (S (length pre)) with (length (pre ++ [bump n])) in Hl
    by (rewrite length_app; cbn; lia).
  eapply IH in Hl as (-> & -> & Hb' & Hm'); [|done|..].
  - rewrite <- app_assoc in *. cbn in *. split; [done|]. split; [|by split].
    unfold total_weight. cbn. lia.
  - left. rewrite length_app. cbn. case_goal; [lia|]. destruct Hb as [|[-> ->]]; cbn; lia.
  - intros i m Hi. rewrite <- app_assoc. cbn [app].
    set (all := pre ++ bump n :: (rest)) in *.
    assert (Hcn : current_at all (length pre) = CurrentWeight (bump n)).
    { unfold current_at, all. rewrite lookup_app_r, Nat.sub_diag by lia. done. }
    assert (Hcb : (best < length pre)%nat → current_at all best = current_at pre best).
    { intros. unfold current_at, all. by rewrite lookup_app_l. }
    assert (Hfin : ∀ b, (b < length (pre ++ [bump n]))%nat →
      current_at (pre ++ [bump n]) b = current_at all b).
    { intros b Hlt. unfold current_at, all.
      replace (pre ++ bump n :: rest) with ((pre ++ [bump n]) ++ rest)
        by (by rewrite <- app_assoc).
      by rewrite (lookup_app_l (pre ++ [bump n])). }
    rewrite Hfin.
    2:{ rewrite length_app. cbn. case_goal; [lia|]. destruct Hb as [|[-> ->]]; cbn; lia. }
    apply lookup_app_Some in Hi as [Hi|[? Hi]].
    + specialize (Hm i m Hi). pose proof (lookup_lt_Some _ _ _ Hi).
      destruct Hb as [Hb|[-> _]]; [|cbn in *; lia]. specialize (Hcb Hb).
      case_goal; breflect; lia.
    + apply list_lookup_singleton_Some in Hi as [? <-].
      case_goal; breflect; [lia|].
      destruct Hb as [Hb|[-> ->]]; [lia|]. cbn in *. lia.
Qed.

(** On two nodes or more, one call adds every effective weight, picks an index
    of greatest current weight and takes the total off it. *)
Definition picked (l : list WeightNginx) (i : nat) : list WeightNginx :=
  alter (addCurrent (- total_weight l)) i (bump <$> l).

Lemma nextIndex_spec w :
  (2 ≤ length (nodes w))%nat →
  ∃ i n, nextIndex w = Some (i, mkWNGINX (picked (nodes w) i)) ∧
    nodes w !! i = Some n ∧
    ∀ j m, nodes w !! j = Some m →
      CurrentWeight m + EffectiveWeight m ≤ CurrentWeight n + EffectiveWeight n.
Proof.
  destruct w as [l]. cbn [nodes]. intros Hlen.
  destruct (weigh_loop (length l) 0 l 0 0) as [[l' i] t] eqn:Hl.
  assert (Hn : nextIndex (mkWNGINX l) = Some (i, mkWNGINX (alter (addCurrent (- t)) i l'))).
  { unfold nextIndex, nextWeightedNode. cbn [nodes].
    destruct l as [|a [|b l]]; [cbn in Hlen; lia..|]. by rewrite Hl. }
  eapply (weigh_loop_spec _ []) in Hl as (-> & -> & Hi & Hmax); [|done|by right|done].
  cbn [app] in *. rewrite length_fmap in Hi.
  destruct Hi as [Hi|Hi]; [|destruct l; cbn in *; [lia|done]].
  apply lookup_lt_is_Some in Hi as [n Hi].
  exists i, n. rewrite Hn. split; [done|]. split; [done|].
  intros j m Hj. specialize (Hmax j (bump m)). unfold current_at in Hmax.
  rewrite !list_lookup_fmap, Hj, Hi in Hmax. cbn in Hmax. by apply Hmax.
Qed.

Lemma picked_lookup l i j n :
  l !! j = Some n →
  picked l i !! j = Some (mkWeightNginx (Node n) (Weight n)
    (CurrentWeight n + EffectiveWeight n - if decide (i = j) then total_weight l else 0)
    (EffectiveWeight n)).
Proof.
  intros Hj. unfold picked. destruct (decide (i = j)) as [->|].
  - rewrite list_lookup_alter_eq, list_lookup_fmap, Hj. cbn. unfold addCurrent, bump. cbn. done.
  - rewrite list_lookup_alter_ne, list_lookup_fmap, Hj by done. cbn.
    unfold bump, addCurrent. by rewrite Z.sub_0_r.
Qed.

Lemma picked_effective l i : EffectiveWeight <$> picked l i = EffectiveWeight <$> l.
Proof.
  apply list_eq. intros j. rewrite !list_lookup_fmap.
  destruct (l !! j) as [n|] eqn:Hj.
  - by rewrite (picked_lookup l i j n Hj).
  - rewrite (proj2 (lookup_ge_None _ _)); [done|]. unfold picked.
    rewrite length_alter, length_fmap. by apply lookup_ge_None.
Qed.

Lemma bump_current l : total_current (bump <$> l) = total_current l + total_weight l.
Proof.
  unfold total_current, total_weight. induction l as [|n l IH]; cbn in *; [done|lia].
Qed.

Lemma picked_current l i :
  (i < length l)%nat → total_current (picked l i) = total_current l.
Proof.
  intros Hi. apply lookup_lt_is_Some in Hi as [n Hi].
  unfold picked, total_current.
  assert (alter (addCurrent (- total_weight l)) i (bump <$> l) =
          <[i := addCurrent (- total_weight l) (bump n)]> (bump <$> l)) as ->.
  { apply list_eq. intros j.
    destruct (decide (i = j)) as [<-|].
    - rewrite list_lookup_alter_eq, list_lookup_insert_eq, list_lookup_fmap, Hi; [done|].
      rewrite length_fmap. by eapply lookup_lt_Some.
    - by rewrite list_lookup_alter_ne, list_lookup_insert_ne. }
  rewrite list_fmap_insert, (sumZ_insert _ _ (CurrentWeight (bump n))).
  - pose proof (bump_current l) as Hb. unfold total_current in Hb. rewrite Hb. cbn. lia.
  - by rewrite !list_lookup_fmap, Hi.
Qed.

(** * Many calls *)

Lemma sumZ_nonpos l : Forall (λ x, x ≤ 0) l → sumZ l ≤ 0.
Proof. induction 1; cbn; lia. Qed.

Lemma sumZ_nonneg_zero l : Forall (λ x, 0 ≤ x) l → sumZ l = 0 → Forall (λ x, x = 0) l.
Proof.
  induction 1 as [|x l Hx Hl IH]; cbn; [done|]. intros Hs.
  assert (0 ≤ sumZ l) by (clear - Hl; induction Hl; cbn; lia).
  constructor; [lia|]. apply IH. lia.
Qed.

(** Current weights sum to zero and none is a full round behind. *)
Record balanced (l : list WeightNginx) : Prop := {
  bal_weights : Forall (λ n, 0 ≤ EffectiveWeight n) l;
  bal_total : 0 < total_weight l;
  bal_sum : total_current l = 0;
  bal_bound : Forall (λ n, - total_weight l < CurrentWeight n) l;
}.

Lemma picked_total l i : total_weight (picked l i) = total_weight l.
Proof. unfold total_weight. by rewrite picked_effective. Qed.

Lemma max_positive l n :
  balanced l →
  (∀ j m, l !! j = Some m →
    CurrentWeight m + EffectiveWeight m ≤ CurrentWeight n + EffectiveWeight n) →
  0 < CurrentWeight n + EffectiveWeight n.
Proof.
  intros [_ HW Hs _] Hmax. apply Z.lt_nge. intros Hneg.
  assert (total_current (bump <$> l) ≤ 0).
  { apply sumZ_nonpos, Forall_lookup. intros j x Hj.
    rewrite !list_lookup_fmap in Hj. destruct (l !! j) as [m|] eqn:Hm; [|done].
    cbn in Hj. injection Hj as <-. specialize (Hmax j m Hm). lia. }
  rewrite bump_current in *. lia.
Qed.

Lemma picked_balanced l i n :
  balanced l → l !! i = Some n →
  (∀ j m, l !! j = Some m →
    CurrentWeight m + EffectiveWeight m ≤ CurrentWeight n + EffectiveWeight n) →
  balanced (picked l i).
Proof.
  intros Hb Hi Hmax. pose proof (max_positive l n Hb Hmax) as Hpos.
  destruct Hb as [Hw HW Hs Hbd].
  assert (Hlk : ∀ (P : WeightNginx → Prop), (∀ j m, l !! j = Some m →
      ∀ m', picked l i !! j = Some m' → P m') → Forall P (picked l i)).
  { intros P HP. apply Forall_lookup. intros j m' Hj.
    destruct (l !! j) as [m|] eqn:Hm; [by eauto|].
    apply lookup_ge_None in Hm. apply lookup_lt_Some in Hj.
    unfold picked in Hj. rewrite length_alter, length_fmap in Hj. lia. }
  rewrite Forall_lookup in Hw, Hbd.
  split; rewrite ?picked_total, ?picked_current by (by eapply lookup_lt_Some); try done.
  - apply Hlk. intros j m Hm m'. rewrite (picked_lookup _ _ _ _ Hm). intros [= <-].
    cbn. by eapply Hw.
  - apply Hlk. intros j m Hm m'. rewrite (picked_lookup _ _ _ _ Hm). intros [= <-]. cbn.
    specialize (Hbd j m Hm). specialize (Hw j m Hm). cbn in Hbd, Hw. case_decide; [|lia].
    subst. rewrite Hi in Hm. injection Hm as ->. lia.
Qed.

Definition times_in (i : nat) (l : list nat) : Z :=
  Z.of_nat (length (filter (λ j, j = i) l)).

(** [k] calls from a balanced state: it stays balanced, and each current weight
    records the distance of the node from its share. *)
Lemma nexts_spec k w :
  (2 ≤ length (nodes w))%nat → balanced (nodes w) →
  ∃ l w', nexts k w = (l, w') ∧ length l = k ∧ balanced (nodes w') ∧
    total_weight (nodes w') = total_weight (nodes w) ∧
    length (nodes w') = length (nodes w) ∧
    ∀ i n, nodes w !! i = Some n →
      nodes w' !! i = Some (mkWeightNginx (Node n) (Weight n)
        (CurrentWeight n + Z.of_nat k * EffectiveWeight n
         - total_weight (nodes w) * times_in i l) (EffectiveWeight n)).
Proof.
  revert w. induction k as [|k IH]; intros w Hlen Hb.
  { exists [], w. do 5 (split; [done|]). intros i [] Hi. rewrite Hi. cbn.
    do 2 f_equal. unfold times_in. cbn. lia. }
  destruct (nextIndex_spec w Hlen) as (i & n & Hn & Hi & Hmax).
  pose proof (picked_balanced _ _ _ Hb Hi Hmax) as Hb'.
  assert (Hlen' : length (picked (nodes w) i) = length (nodes w))
    by (unfold picked; by rewrite length_alter, length_fmap).
  destruct (IH (mkWNGINX (picked (nodes w) i))) as (l & w' & Hl & Hk & Hbal & Ht & Hln & Hcw);
    cbn [nodes] in *; [lia|done|].
  exists (i :: l), w'. cbn [nexts]. rewrite Hn, Hl. rewrite picked_total in Ht, Hcw.
  split; [done|]. split; [cbn; lia|]. split; [done|]. split; [done|]. split; [lia|].
  intros j m Hj. rewrite (Hcw j _ (picked_lookup _ _ _ _ Hj)). cbn. do 2 f_equal.
  unfold times_in. rewrite filter_cons. case_decide; cbn; lia.
Qed.

Lemma Reset_balanced w :
  Forall (λ n, 0 ≤ Weight n) (nodes w) → 0 < sumZ (Weight <$> nodes w) →
  balanced (nodes (Reset w)) ∧
  total_weight (nodes (Reset w)) = sumZ (Weight <$> nodes w).
Proof.
  intros Hw Hs. destruct w as [l]. cbn [nodes Reset] in *.
  assert (Ht : total_weight ((λ s, mkWeightNginx (Node s) (Weight s) 0 (Weight s)) <$> l) =
    sumZ (Weight <$> l)).
  { unfold total_weight. by rewrite <- list_fmap_compose. }
  split; [|done]. split; rewrite ?Ht; [..| |]; try done.
  - rewrite Forall_fmap. done.
  - unfold total_current. rewrite <- list_fmap_compose. clear. by induction l.
  - rewrite Forall_fmap. cbn. apply Forall_true. intros; cbn; lia.
Qed.

Lemma nexts_single k n : nexts k (mkWNGINX [n]) = (replicate k 0%nat, mkWNGINX [n]).
Proof. induction k as [|k IH]; [done|]. cbn in *. by rewrite IH. Qed.

Lemma times_in_replicate k : times_in 0 (replicate k 0%nat) = Z.of_nat k.
Proof.
  unfold times_in. induction k as [|k IH]; [done|].
  cbn [replicate]. rewrite filter_cons, decide_True by done. cbn [length]. lia.
Qed.

Lemma Reset_lookup w i n :
  nodes w !! i = Some n →
  nodes (Reset w) !! i = Some (mkWeightNginx (Node n) (Weight n) 0 (Weight n)).
Proof. intros Hi. cbn. by rewrite list_lookup_fmap, Hi. Qed.

(** A whole round on two nodes or more: every current weight is back at zero. *)
Lemma round_multi w :
  (2 ≤ length (nodes w))%nat →
  Forall (λ n, 0 ≤ Weight n) (nodes w) → 0 < sumZ (Weight <$> nodes w) →
  ∃ l, nexts (Z.to_nat (sumZ (Weight <$> nodes w))) (Reset w) = (l, Reset w) ∧
    ∀ i n, nodes w !! i = Some n → times_in i l = Weight n.
Proof.
  intros Hlen Hw Hs. destruct (Reset_balanced w Hw Hs) as [Hb Ht].
  set (W := sumZ (Weight <$> nodes w)) in *.
  assert (Hlr : length (nodes (Reset w)) = length (nodes w)) by apply length_fmap.
  destruct (nexts_spec (Z.to_nat W) (Reset w)) as (l & w' & Hl & _ & Hb' & Ht' & Hln & Hcw);
    [lia|done|].
  assert (Hcw' : ∀ i n, nodes w !! i = Some n → nodes w' !! i = Some (mkWeightNginx (Node n)
    (Weight n) (W * (Weight n - times_in i l)) (Weight n))).
  { intros i n Hi. rewrite (Hcw i _ (Reset_lookup w i n Hi)), Ht, Z2Nat.id by lia.
    cbn. do 2 f_equal. lia. }
  assert (Hz : Forall (λ x, x = 0) (CurrentWeight <$> nodes w')).
  { apply sumZ_nonneg_zero; [|apply Hb']. apply Forall_lookup. intros i x Hi.
    pose proof (bal_bound _ Hb') as Hbd. rewrite Forall_lookup in Hbd.
    rewrite list_lookup_fmap in Hi. destruct (nodes w' !! i) as [n'|] eqn:Hn'; [|done].
    cbn in Hi. injection Hi as <-. specialize (Hbd i n' Hn'). cbn in Hbd.
    destruct (lookup_lt_is_Some_2 (nodes w) i) as [n Hn].
    { apply lookup_lt_Some in Hn'. lia. }
    rewrite (Hcw' i n Hn) in Hn'. injection Hn' as <-. cbn in *. rewrite Ht', Ht in Hbd.
    apply Z.mul_nonneg_nonneg; [lia|].
    apply Z.lt_succ_r, (Z.mul_pos_cancel_l W); lia. }
  rewrite Forall_lookup in Hz.
  assert (Heq : ∀ i n, nodes w !! i = Some n → times_in i l = Weight n).
  { intros i n Hi. specialize (Hz i (W * (Weight n - times_in i l))).
    rewrite list_lookup_fmap, (Hcw' i n Hi) in Hz. specialize (Hz eq_refl). cbn in Hz.
    apply Z.mul_eq_0 in Hz. lia. }
  exists l. split; [|done]. rewrite Hl. f_equal. destruct w' as [l']. cbn [nodes] in *.
  unfold Reset. f_equal. apply list_eq. intros i. rewrite list_lookup_fmap.
  destruct (nodes w !! i) as [n|] eqn:Hi.
  - rewrite (Hcw' i n Hi). cbn. rewrite (Heq i n Hi). do 2 f_equal. lia.
  - apply lookup_ge_None. apply lookup_ge_None in Hi. lia.
Qed.

Lemma round_fair w :
  Forall (λ n, 0 ≤ Weight n) (nodes w) → 0 < sumZ (Weight <$> nodes w) →
  ∃ l, nexts (Z.to_nat (sumZ (Weight <$> nodes w))) (Reset w) = (l, Reset w) ∧
    ∀ i n, nodes w !! i = Some n → times_in i l = Weight n.
Proof.
  intros Hw Hs. destruct (decide (2 ≤ length (nodes w))%nat) as [|Hlen]; [by apply round_multi|].
  destruct w as [[|n [|? ?]]]; cbn in *; [lia| |lia].
  exists (replicate (Z.to_nat (Weight n + 0)) 0%nat). split; [apply nexts_single|].
  intros [|i] m Hi; [|done]. injection Hi as ->. rewrite times_in_replicate. lia.
Qed.

(** Fairness over a round: from a reset balancer with non-negative weights
    that are not all zero, as many calls of [Next] as the weights sum to choose
    every node exactly [Weight] times and bring the balancer back to the state
    it started from. *)
Theorem next_round_fair w :
  Forall (λ n, 0 ≤ Weight n) (nodes w) → 0 < sumZ (Weight <$> nodes w) →
  ∃ l, nexts (Z.to_nat (sumZ (Weight <$> nodes w))) (Reset w) = (l, Reset w) ∧
    ∀ i n, nodes w !! i = Some n → times_in i l = Weight n.
Proof. apply round_fair. Qed.

Lemma times_bound w k l w' i n :
  Forall (λ n, 0 ≤ Weight n) (nodes w) → (2 ≤ length (nodes w))%nat →
  0 < sumZ (Weight <$> nodes w) →
  nexts k (Reset w) = (l, w') → nodes w !! i = Some n →
  sumZ (Weight <$> nodes w) * times_in i l <
    Z.of_nat k * Weight n + sumZ (Weight <$> nodes w).
Proof.
  intros Hw Hlen Hs Hn Hi. destruct (Reset_balanced w Hw Hs) as [Hb Ht].
  destruct (nexts_spec k (Reset w)) as (l1 & w1 & Hl & _ & Hb' & Ht' & _ & Hcw);
    [by unfold Reset; cbn; rewrite length_fmap|done|].
  rewrite Hn in Hl. injection Hl as <- <-.
  pose proof (bal_bound _ Hb') as Hbd. rewrite Forall_lookup in Hbd.
  specialize (Hbd i _ (Hcw i _ (Reset_lookup w i n Hi))). cbn [CurrentWeight EffectiveWeight] in Hbd.
  rewrite Ht', Ht in Hbd. lia.
Qed.

(** Smoothness: at every point of the sequence of calls after a reset, no
    node has been chosen a full call more often than its share [k * weight /
    total] of the [k] calls so far. *)
Theorem next_never_ahead w k l w' i n :
  Forall (λ n, 0 ≤ Weight n) (nodes w) → (2 ≤ length (nodes w))%nat →
  0 < sumZ (Weight <$> nodes w) →
  nexts k (Reset w) = (l, w') → nodes w !! i = Some n →
  sumZ (Weight <$> nodes w) * times_in i l <
    Z.of_nat k * Weight n + sumZ (Weight <$> nodes w).
Proof. apply times_bound. Qed.

Lemma nextIndex_range w i w' :
  nextIndex w = Some (i, w') → (i < length (nodes w))%nat ∧ length (nodes w') = length (nodes w).
Proof.
  intros Hn. destruct (decide (2 ≤ length (nodes w))%nat) as [Hl|Hl].
  - destruct (nextIndex_spec w Hl) as (j & n & Hj & Hi & _). rewrite Hj in Hn.
    injection Hn as <- <-. split; [by eapply lookup_lt_Some|]. cbn. unfold picked.
    by rewrite length_alter, length_fmap.
  - destruct w as [[|n [|? ?]]]; cbn in *; [done| |lia]. injection Hn as <- <-. split; [lia|done].
Qed.

Lemma nexts_range k w l w' : nexts k w = (l, w') → Forall (λ i, (i < length (nodes w))%nat) l.
Proof.
  revert w l w'. induction k as [|k IH]; intros w l w' Hn; cbn [nexts] in Hn.
  { injection Hn as <- <-. constructor. }
  destruct (nextIndex w) as [[i v]|] eqn:Hi; [|injection Hn as <- <-; constructor].
  destruct (nexts k v) as [l' v'] eqn:Hk. injection Hn as <- <-.
  destruct (nextIndex_range _ _ _ Hi) as [Hlt Hlen]. constructor; [done|].
  rewrite <- Hlen. by eapply IH.
Qed.

Lemma times_in_elem i l : i ∈ l → 0 < times_in i l.
Proof.
  intros Hi. unfold times_in. assert (i ∈ filter (λ j, j = i) l) as Hin
    by (by apply list_elem_of_filter).
  destruct (filter _ l); [by apply not_elem_of_nil in Hin|cbn; lia].
Qed.

End WNGINX.

Arguments WeightNginx : clear implicits.
Arguments WNGINX : clear implicits.

(** The versions of an alias that splits its traffic five to one to one. *)
Definition rr_example : WNGINX string :=
  Add (Add (Add (mkWNGINX []) "v1" 5) "v2" 1) "v3" 1.

Lemma next_round_fair_witness :
  0 < sumZ (Weight <$> nodes rr_example) ∧
  ∃ l, nexts 7 (Reset rr_example) = (l, Reset rr_example) ∧
    times_in 0 l = 5 ∧ times_in 1 l = 1 ∧ times_in 2 l = 1.
Proof.
  split; [vm_compute; reflexivity|].
  destruct (next_round_fair rr_example) as (l & Hl & Hc);
    [repeat constructor; vm_compute; discriminate|vm_compute; reflexivity|].
  exists l. split; [exact Hl|].
  split; [apply (Hc 0%nat (mkWeightNginx "v1" 5 0 5) eq_refl)|].
  split; [apply (Hc 1%nat (mkWeightNginx "v2" 1 0 1) eq_refl)|].
  apply (Hc 2%nat (mkWeightNginx "v3" 1 0 1) eq_refl).
Defined.

(** The interleaving that gives the algorithm its name. *)
Example smooth_sequence : fst (nexts 7 rr_example) = [0; 0; 1; 0; 2; 0; 0]%nat.
Proof. reflexivity. Qed.

Lemma next_never_ahead_witness :
  sumZ (Weight <$> nodes rr_example) * times_in 0 (fst (nexts 4 (Reset rr_example)))
    < 4 * 5 + sumZ (Weight <$> nodes rr_example).
Proof.
  apply (next_never_ahead rr_example 4 _ (snd (nexts 4 (Reset rr_example))) 0
           (mkWeightNginx "v1" 5 0 5)); try reflexivity;
    [repeat constructor; vm_compute; discriminate|].
  cbn. lia.
Defined.
