(* ===== verification/HashRing.v ===== *)
(** Consistent hashing over a ring of points: [sort.Search], the successor of
    a key on the ring, and the [SimpleCHGeneric] balancer of
    [loadbalance/hash.go] with its 256 virtual nodes per real node. *)

From S2P Require Import Prelude GoStrings Hashing.

(** * [sort.Search] *)

(** The loop [for i < j { h := (i+j)/2; ... }]. Each turn shrinks [j - i], so
    [j - i] turns of fuel are enough. *)
Fixpoint search_loop (fuel i j : nat) (f : nat → bool) : nat :=
  match fuel with
  | O => i
  | S fuel =>
      if i <? j then
        let h := (i + j) / 2 in
        if f h then search_loop fuel i h f else search_loop fuel (S h) j f
      else i
  end.

Definition sort_Search (n : nat) (f : nat → bool) : nat := search_loop n 0 n f.

Definition monotone (n : nat) (f : nat → bool) : Prop :=
  ∀ i j, i ≤ j → j < n → f i = true → f j = true.

Lemma search_loop_spec fuel i j n f :
  monotone n f → j - i ≤ fuel → i ≤ j → j ≤ n →
  (∀ x, x < i → f x = false) → (∀ x, j ≤ x → x < n → f x = true) →
  let r := search_loop fuel i j f in
  r ≤ n ∧ (∀ x, x < r → f x = false) ∧ (∀ x, r ≤ x → x < n → f x = true).
Proof.
  intros Hm. revert i j; induction fuel as [|fuel IH]; intros i j Hf Hij Hjn Hlo Hhi;
    cbn [search_loop].
  { assert (i = j) as -> by lia. auto. }
  destruct (i <? j) eqn:Hlt; breflect; [|assert (i = j) as -> by lia; auto].
  set (h := (i + j) / 2).
  assert (i ≤ h < j).
  { subst h. pose proof (Nat.div_mod_eq (i + j) 2). pose proof (Nat.mod_upper_bound (i + j) 2). lia. }
  destruct (f h) eqn:Hh; apply IH; try lia; auto.
  - intros x Hx Hxn. by apply (Hm h x).
  - intros x Hx. destruct (f x) eqn:Hfx; [|done].
    rewrite (Hm x h) in Hh; [done|lia|lia|done].
Qed.

Lemma sort_Search_spec n f :
  monotone n f →
  let r := sort_Search n f in
  r ≤ n ∧ (∀ x, x < r → f x = false) ∧ (∀ x, r ≤ x → x < n → f x = true).
Proof. intros Hm. apply search_loop_spec; [done|lia..]. Qed.

(** * Points on a ring *)

(** What the balancers need of a point: its position, a uint32. *)
Class RingPoint (P : Type) := ring_hash : P → Z.

Section Ring.
Context {P : Type} `{RingPoint P}.

Definition by_hash : relation P := λ p q, (ring_hash p ≤ ring_hash q)%Z.

(** The owner of a key by definition: the first point past it, or else the
    first point of the ring. *)
Definition succ_point (k : Z) (l : list P) : option P :=
  match filter (λ p, (k < ring_hash p)%Z) l with
  | p :: _ => Some p
  | [] => head l
  end.

(** The index the balancers compute with [sort.Search]. *)
Definition ring_index (k : Z) (l : list P) : nat :=
  let i := sort_Search (length l)
    (λ i, match l !! i with Some p => (k <? ring_hash p)%Z | None => false end) in
  if i =? length l then 0 else i.

Lemma sorted_monotone k l :
  StronglySorted by_hash l →
  monotone (length l) (λ i, match l !! i with Some p => (k <? ring_hash p)%Z | None => false end).
Proof.
  intros Hs i j Hij Hj. destruct (lookup_lt_is_Some_2 l j Hj) as [q Hq].
  destruct (lookup_lt_is_Some_2 l i) as [p Hp]; [lia|]. rewrite Hp, Hq.
  destruct (decide (i = j)) as [->|].
  { rewrite Hp in Hq. by injection Hq as ->. }
  assert (by_hash p q) as Hpq.
  { apply StronglySorted_app_1_elem_of with (l1 := take (S i) l) (l2 := drop (S i) l).
    - by rewrite take_drop.
    - apply (list_elem_of_lookup_2 _ i). rewrite lookup_take_lt; [done|lia].
    - apply (list_elem_of_lookup_2 _ (j - S i)). rewrite lookup_drop.
      rewrite <- Hq. f_equal. lia. }
  unfold by_hash in Hpq. rewrite !Z.ltb_lt. lia.
Qed.

Lemma succ_point_split k l1 l2 :
  Forall (λ p, ¬ (k < ring_hash p)%Z) l1 → Forall (λ p, (k < ring_hash p)%Z) l2 →
  succ_point k (l1 ++ l2) = match l2 with [] => head l1 | p :: _ => Some p end.
Proof.
  intros H1 H2. unfold succ_point. rewrite filter_app.
  assert (filter (λ p, (k < ring_hash p)%Z) l1 = []) as ->.
  { clear H2. induction H1; [done|]. rewrite filter_cons. by rewrite decide_False. }
  destruct H2 as [|p l2 Hp H2]; cbn [app]; [by rewrite app_nil_r|].
  rewrite filter_cons. by rewrite decide_True.
Qed.

(** On a sorted ring the binary search finds the owner. *)
Lemma ring_index_spec k l :
  StronglySorted by_hash l → l !! ring_index k l = succ_point k l.
Proof.
  intros Hs. pose proof (sort_Search_spec _ _ (sorted_monotone k l Hs)) as Hr.
  unfold ring_index. cbn zeta in Hr |- *.
  set (r := sort_Search _ _) in *. destruct Hr as (Hle & Hlo & Hhi).
  rewrite <- (take_drop r l) at 3. rewrite succ_point_split.
  - destruct (r =? length l) eqn:He; breflect.
    + rewrite (drop_ge l r) by lia. by rewrite (take_ge l r), <- head_lookup by lia.
    + destruct (drop r l) as [|p t] eqn:Hd.
      { apply (f_equal length) in Hd. rewrite length_drop in Hd. cbn in Hd. lia. }
      rewrite <- (Nat.add_0_r r), <- lookup_drop, Hd. done.
  - apply Forall_lookup. intros i p Hi. apply lookup_take_Some in Hi as [Hi Hlt].
    specialize (Hlo i Hlt). rewrite Hi in Hlo. breflect. lia.
  - apply Forall_lookup. intros i p Hi. rewrite lookup_drop in Hi.
    specialize (Hhi (r + i)). rewrite Hi in Hhi.
    pose proof (lookup_lt_Some _ _ _ Hi). specialize (Hhi ltac:(lia) ltac:(lia)). breflect. done.
Qed.

(** Points that do not own a key may leave without moving it. *)
Lemma succ_point_filter k l (Q : P → Prop) `{!∀ p, Decision (Q p)} p :
  succ_point k l = Some p → Q p → succ_point k (filter Q l) = Some p.
Proof.
  unfold succ_point. intros Hp HQ.
  rewrite list_filter_filter.
  assert (filter (λ x, (k < ring_hash x)%Z ∧ Q x) l =
          filter Q (filter (λ x, (k < ring_hash x)%Z) l)) as ->.
  { rewrite list_filter_filter. apply list_filter_iff. intros; tauto. }
  destruct (filter (λ x, (k < ring_hash x)%Z) l) as [|q t].
  - cbn. destruct l as [|q l]; [done|]. cbn in Hp. injection Hp as ->.
    rewrite filter_cons. by rewrite decide_True.
  - injection Hp as ->. rewrite filter_cons. by rewrite decide_True.
Qed.

Lemma succ_point_elem k l p : succ_point k l = Some p → p ∈ l.
Proof.
  unfold succ_point. destruct (filter _ l) as [|q t] eqn:Hf.
  - destruct l; [done|]. intros [= ->]. left.
  - intros [= ->]. apply (list_elem_of_filter (λ p, (k < ring_hash p)%Z)).
    rewrite Hf. left.
Qed.

Lemma succ_point_is_Some k l : l ≠ [] → is_Some (succ_point k l).
Proof. intros Hl. unfold succ_point. destruct (filter _ l); [|eauto]. destruct l; [done|eauto]. Qed.

End Ring.

(** A sorted ring stays sorted when points leave. *)
Lemma StronglySorted_filter {A} (R : relation A) (Q : A → Prop) `{!∀ x, Decision (Q x)} l :
  StronglySorted R l → StronglySorted R (filter Q l).
Proof.
  induction 1 as [|x l Hl IH Hx]; [constructor|]. rewrite filter_cons. case_decide; [|done].
  constructor; [done|]. apply Forall_forall. intros y Hy.
  apply list_elem_of_filter in Hy as [_ Hy]. rewrite Forall_forall in Hx. by apply Hx.
Qed.

(** * SimpleCHGeneric *)

(** The dynamic value of a node argument: the balancers take strings only. *)
Inductive node_arg : Type :=
| NodeString (s : string)
| NodeOther.

Record virtualNode : Type := mkVirtualNode {
  vn_hash : Z;
  vn_owner : string;
  vn_index : nat;
}.

#[global] Instance virtualNode_eq_dec : EqDecision virtualNode.
Proof. solve_decision. Defined.
#[global] Instance virtualNode_point : RingPoint virtualNode := vn_hash.

Record SimpleCHGeneric : Type := mkSimpleCH {
  sch_nodes : list virtualNode;
  sch_owners : gset string;
}.

Definition NewSimpleCHGeneric : SimpleCHGeneric := mkSimpleCH [] ∅.

Definition virtualNodeCount : nat := 256.

Definition buildVirtualNodes (name : string) : list virtualNode :=
  (λ i, mkVirtualNode (sha256_head (name +:+ "#" +:+ FormatUint (Z.of_nat i))) name i)
    <$> seq 0 virtualNodeCount.

(** The order (hash, owner, index) of [sortVirtualNodes]. *)
Definition vn_le (a b : virtualNode) : Prop :=
  (vn_hash a < vn_hash b)%Z ∨
  (vn_hash a = vn_hash b ∧
    ((vn_owner a ≠ vn_owner b ∧ String.le (vn_owner a) (vn_owner b)) ∨
     (vn_owner a = vn_owner b ∧ vn_index a ≤ vn_index b))).

#[global] Instance vn_le_dec : RelDecision vn_le.
Proof. intros a b. unfold vn_le. apply _. Defined.

(** [sort.Slice] does not promise stability; the order is total and
    antisymmetric, so there is one sorted arrangement and any sort gives it. *)
Definition sortVirtualNodes (l : list virtualNode) : list virtualNode := merge_sort vn_le l.

Definition sch_Next (c : SimpleCHGeneric) (name : string) : string :=
  let hashKey := crc32 name in
  match sch_nodes c with
  | [] => ""
  | _ =>
      match sch_nodes c !! ring_index hashKey (sch_nodes c) with
      | Some n => vn_owner n
      | None => ""
      end
  end.

Definition sch_Add (c : SimpleCHGeneric) (node : node_arg) : SimpleCHGeneric :=
  match node with
  | NodeOther => c
  | NodeString name =>
      if bool_decide (name ∈ sch_owners c) then c
      else mkSimpleCH (sortVirtualNodes (sch_nodes c ++ buildVirtualNodes name))
                      ({[name]} ∪ sch_owners c)
  end.

Definition sch_Remove (c : SimpleCHGeneric) (node : node_arg) : SimpleCHGeneric :=
  match node with
  | NodeOther => c
  | NodeString name =>
      if bool_decide (name ∈ sch_owners c)
      then mkSimpleCH (filter (λ n, vn_owner n ≠ name) (sch_nodes c))
                      (sch_owners c ∖ {[name]})
      else c
  end.

Definition sch_RemoveAll (c : SimpleCHGeneric) : SimpleCHGeneric := mkSimpleCH [] ∅.

(** ** The ring as a function of the set of owners *)

#[global] Instance vn_le_total : Total vn_le.
Proof.
  intros a b. unfold vn_le. destruct (Z.lt_trichotomy (vn_hash a) (vn_hash b)) as [|[|]]; [tauto| |tauto].
  destruct (decide (vn_owner a = vn_owner b)) as [Ho|Ho].
  - destruct (Nat.le_ge_cases (vn_index a) (vn_index b)); [left|right]; right; auto.
  - destruct (total String.le (vn_owner a) (vn_owner b)); [left|right]; right; split; auto.
Qed.

#[global] Instance vn_le_antisymm : AntiSymm eq vn_le.
Proof.
  intros [h o i] [h' o' i'] H1 H2. unfold vn_le in *. cbn in *.
  destruct H1 as [?|[-> H1]]; [lia|]. destruct H2 as [?|[_ H2]]; [lia|].
  destruct H1 as [[Hn H1]|[-> H1]], H2 as [[Hn' H2]|[He H2]]; try congruence.
  - by destruct Hn; apply (anti_symm String.le).
  - f_equal. lia.
Qed.

#[global] Instance vn_le_trans : Transitive vn_le.
Proof.
  intros [h o i] [h' o' i'] [h'' o'' i''] H1 H2. unfold vn_le in *. cbn in *.
  destruct H1 as [?|[-> H1]], H2 as [?|[-> H2]]; try (left; lia). right. split; [done|].
  destruct H1 as [[Hn H1]|[-> H1]], H2 as [[Hn' H2]|[-> H2]]; [|tauto|tauto|right; split; [done|lia]].
  left. split; [|by trans o']. intros ->. apply Hn. by apply (anti_symm String.le).
Qed.

Lemma vn_le_by_hash l : StronglySorted vn_le l → StronglySorted by_hash l.
Proof.
  induction 1 as [|x l Hl IH Hx]; constructor; [done|].
  eapply Forall_impl; [done|]. intros y [Hy|[Hy _]]; unfold by_hash, ring_hash, virtualNode_point; lia.
Qed.

Lemma buildVirtualNodes_owner name n : n ∈ buildVirtualNodes name → vn_owner n = name.
Proof. intros Hn. apply list_elem_of_fmap in Hn as (i & -> & _). done. Qed.

Lemma build_owners name : Forall (λ n, vn_owner n = name) (buildVirtualNodes name).
Proof. apply Forall_forall. intros n Hn. by apply buildVirtualNodes_owner. Qed.

Definition points (owners : gset string) : list virtualNode :=
  elements owners ≫= buildVirtualNodes.

Record ring_inv (c : SimpleCHGeneric) : Prop := {
  ri_sorted : StronglySorted vn_le (sch_nodes c);
  ri_points : sch_nodes c ≡ₚ points (sch_owners c);
}.

Lemma points_add owners name :
  name ∉ owners → points ({[name]} ∪ owners) ≡ₚ buildVirtualNodes name ++ points owners.
Proof.
  intros Hn. unfold points. change (buildVirtualNodes name ++ _) with
    ((name :: elements owners) ≫= buildVirtualNodes).
  by rewrite (elements_union_singleton _ _ Hn).
Qed.

Lemma filter_owner_same name l :
  Forall (λ n, vn_owner n = name) l → filter (λ n, vn_owner n ≠ name) l = [].
Proof. induction 1; [done|]. rewrite filter_cons. rewrite decide_False; [done|]. auto. Qed.

Lemma filter_owner_other name owners :
  name ∉ owners → filter (λ n, vn_owner n ≠ name) (points owners) = points owners.
Proof.
  intros Hn. apply filter_all, Forall_forall. intros n Hin. apply list_elem_of_bind in Hin as (o & Hin & Ho).
  apply buildVirtualNodes_owner in Hin as ->. apply elem_of_elements in Ho. by intros ->.
Qed.

Lemma New_ring_inv : ring_inv NewSimpleCHGeneric.
Proof. split; cbn; [constructor|]. unfold points. by rewrite elements_empty. Qed.

Lemma Add_ring_inv c node : ring_inv c → ring_inv (sch_Add c node).
Proof.
  intros [Hs Hp]. destruct node as [name|]; [|by split]. unfold sch_Add.
  destruct (bool_decide _) eqn:Hb; [by split|]. breflect. split; cbn [sch_nodes sch_owners].
  - apply StronglySorted_merge_sort; apply _.
  - unfold sortVirtualNodes. rewrite merge_sort_Permutation, (points_add _ _ Hb), Hp.
    by rewrite Permutation_app_comm.
Qed.

Lemma Remove_ring_inv c node : ring_inv c → ring_inv (sch_Remove c node).
Proof.
  intros [Hs Hp]. destruct node as [name|]; [|by split]. unfold sch_Remove.
  destruct (bool_decide _) eqn:Hb; [|by split]. breflect. split; cbn [sch_nodes sch_owners].
  - by apply StronglySorted_filter.
  - assert (Ho : sch_owners c = {[name]} ∪ (sch_owners c ∖ {[name]}))
      by (apply union_difference_L; set_solver).
    rewrite Hp. rewrite Ho at 1. rewrite points_add by set_solver. rewrite filter_app.
    rewrite (filter_owner_same name (buildVirtualNodes name)) by apply build_owners.
    by rewrite filter_owner_other by set_solver.
Qed.

Lemma ring_inv_unique c1 c2 :
  ring_inv c1 → ring_inv c2 → sch_owners c1 = sch_owners c2 → c1 = c2.
Proof.
  destruct c1 as [n1 o1], c2 as [n2 o2]. intros [Hs1 Hp1] [Hs2 Hp2] Ho. cbn in *. subst o2.
  f_equal. apply (StronglySorted_unique vn_le); [done|done|]. by rewrite Hp1, Hp2.
Qed.

(** The calls that change a ring, and a history of them. *)
Inductive ring_op : Type :=
| OpAdd (node : node_arg)
| OpRemove (node : node_arg)
| OpRemoveAll.

Definition ring_step (c : SimpleCHGeneric) (o : ring_op) : SimpleCHGeneric :=
  match o with
  | OpAdd n => sch_Add c n
  | OpRemove n => sch_Remove c n
  | OpRemoveAll => sch_RemoveAll c
  end.

Definition ring_run (ops : list ring_op) : SimpleCHGeneric :=
  foldl ring_step NewSimpleCHGeneric ops.

Lemma ring_run_inv ops : ring_inv (ring_run ops).
Proof.
  unfold ring_run. generalize New_ring_inv. generalize NewSimpleCHGeneric.
  induction ops as [|o ops IH]; intros c Hc; [done|]. cbn. apply IH.
  destruct o; [by apply Add_ring_inv|by apply Remove_ring_inv|apply New_ring_inv].
Qed.

(** The set the ring stands for. *)
Definition owners_step (o : gset string) (op : ring_op) : gset string :=
  match op with
  | OpAdd (NodeString n) => {[n]} ∪ o
  | OpRemove (NodeString n) => o ∖ {[n]}
  | OpRemoveAll => ∅
  | _ => o
  end.

Lemma ring_run_owners ops : sch_owners (ring_run ops) = foldl owners_step ∅ ops.
Proof.
  unfold ring_run. change (∅ : gset string) with (sch_owners NewSimpleCHGeneric).
  generalize NewSimpleCHGeneric.
  induction ops as [|o ops IH]; intros c; [done|]. cbn [foldl]. rewrite IH. f_equal.
  destruct o as [[n|]|[n|]|]; cbn [ring_step owners_step sch_Add sch_Remove sch_RemoveAll sch_owners];
    try done; destruct (bool_decide _) eqn:Hb; breflect; cbn [sch_owners]; set_solver.
Qed.

Lemma sch_Next_succ c name :
  ring_inv c →
  sch_Next c name = default "" (vn_owner <$> succ_point (crc32 name) (sch_nodes c)).
Proof.
  intros [Hs _]. unfold sch_Next. destruct (sch_nodes c) as [|n l] eqn:Hn; [done|].
  rewrite <- Hn in *. rewrite (ring_index_spec _ _ (vn_le_by_hash _ Hs)).
  by destruct (succ_point _ _).
Qed.

Lemma ring_nonempty c o : ring_inv c → o ∈ sch_owners c → sch_nodes c ≠ [].
Proof.
  intros [_ Hp] Ho Hn. rewrite Hn in Hp. apply Permutation_nil_l in Hp.
  assert (mkVirtualNode (sha256_head (o +:+ "#" +:+ FormatUint 0)) o 0 ∈ points (sch_owners c)) as Hin.
  { apply list_elem_of_bind. exists o. split; [|by apply elem_of_elements].
    apply list_elem_of_fmap. exists 0. split; [done|]. apply elem_of_seq. unfold virtualNodeCount. lia. }
  rewrite <- Hp in Hin. by apply not_elem_of_nil in Hin.
Qed.

Lemma ring_owner c n : ring_inv c → n ∈ sch_nodes c → vn_owner n ∈ sch_owners c.
Proof.
  intros [_ Hp]. rewrite Hp. intros Hin. apply list_elem_of_bind in Hin as (o & Hin & Ho).
  apply buildVirtualNodes_owner in Hin as ->. by apply elem_of_elements.
Qed.

Lemma Remove_keeps c name key :
  ring_inv c → sch_Next c key ≠ name →
  sch_Next (sch_Remove c (NodeString name)) key = sch_Next c key.
Proof.
  intros Hc Hne. pose proof (Remove_ring_inv c (NodeString name) Hc) as Hr.
  rewrite (sch_Next_succ _ _ Hr), sch_Next_succ in * by done. unfold sch_Remove.
  destruct (bool_decide _) eqn:Hb; [|done]. cbn [sch_nodes].
  destruct (succ_point (crc32 key) (sch_nodes c)) as [p|] eqn:Hp; cbn in Hne |- *.
  - rewrite (succ_point_filter _ _ (λ n, vn_owner n ≠ name) p Hp Hne). done.
  - destruct (sch_nodes c) eqn:Hn; [done|].
    destruct (succ_point_is_Some (crc32 key) (sch_nodes c)) as [q Hq]; [by rewrite Hn|].
    rewrite Hn in Hq. congruence.
Qed.

(** The ring is a function of the set of owners: two processes that added
    and removed nodes in any orders, and agree on the nodes that are left, hold
    the same ring and so route every key to the same node. *)
Theorem ring_history_free ops1 ops2 :
  sch_owners (ring_run ops1) = sch_owners (ring_run ops2) → ring_run ops1 = ring_run ops2.
Proof. intros Ho. apply ring_inv_unique; [apply ring_run_inv..|done]. Qed.

Lemma ring_history_free_witness :
  ring_run [OpAdd (NodeString "a"); OpAdd (NodeString "b")] =
  ring_run [OpAdd (NodeString "c"); OpAdd (NodeString "b"); OpAdd (NodeString "b");
            OpAdd (NodeString "a"); OpRemove (NodeString "c")].
Proof. apply ring_history_free. rewrite !ring_run_owners. vm_compute. reflexivity. Defined.

(** C20. Routing is total and minimal: with at least one owner, [Next] answers an
    owner of the ring, the owner of the first virtual node after the key's CRC32
    in hash order; removing a node moves only the keys it owned, and adding a
    node moves keys only to itself. *)
Theorem ring_routing ops key name :
  let c := ring_run ops in
  (sch_owners c ≠ ∅ →
    sch_Next c key ∈ sch_owners c ∧
    ∃ p, succ_point (crc32 key) (sch_nodes c) = Some p ∧ sch_Next c key = vn_owner p) ∧
  (sch_Next c key ≠ name →
    sch_Next (sch_Remove c (NodeString name)) key = sch_Next c key) ∧
  (sch_Next (sch_Add c (NodeString name)) key = name ∨
   sch_Next (sch_Add c (NodeString name)) key = sch_Next c key).
Proof.
  intros c. pose proof (ring_run_inv ops : ring_inv c) as Hc. split; [|split].
  - intros [o Ho]%set_choose_L. pose proof (ring_nonempty c o Hc Ho) as Hn.
    destruct (succ_point_is_Some (crc32 key) (sch_nodes c) Hn) as [p Hp].
    rewrite (sch_Next_succ c key Hc), Hp. cbn. split; [|by exists p].
    apply ring_owner; [done|]. by eapply succ_point_elem.
  - by apply Remove_keeps.
  - destruct (decide (name ∈ sch_owners c)) as [Hin|Hin].
    { right. unfold sch_Add. by rewrite bool_decide_true. }
    destruct (decide (sch_Next (sch_Add c (NodeString name)) key = name)) as [|Hne]; [by left|].
    right. apply Remove_keeps in Hne; [|by apply Add_ring_inv]. rewrite <- Hne. f_equal.
    apply ring_inv_unique; [by apply Remove_ring_inv, Add_ring_inv|done|].
    unfold sch_Add. rewrite bool_decide_false by done. unfold sch_Remove. cbn [sch_owners].
    rewrite bool_decide_true by set_solver. cbn [sch_owners]. set_solver.
Qed.

Definition ring_example : list ring_op := [OpAdd (NodeString "node-a"); OpAdd (NodeString "node-b")].

Lemma ring_routing_witness :
  sch_Next (ring_run ring_example) "tenant/fn" ∈ sch_owners (ring_run ring_example) ∧
  sch_Next (sch_Remove (ring_run ring_example) (NodeString "node-c")) "tenant/fn" =
  sch_Next (ring_run ring_example) "tenant/fn".
Proof.
  pose proof (ring_routing ring_example "tenant/fn" "node-c") as (H1 & H2 & _).
  assert (Ho : sch_owners (ring_run ring_example) = {["node-a"; "node-b"]})
    by (rewrite ring_run_owners; vm_compute; reflexivity).
  rewrite Ho in H1. destruct H1 as [H1 _]; [discriminate|].
  split; [by rewrite Ho|]. apply H2. intros Hc. rewrite Hc in H1. revert H1. by vm_compute.
Defined.
