(* ===== verification/ConsistentHash.v ===== *)
(** The anchored balancers of [loadbalance/hash.go]: [CHGeneric], which pins
    each name to a node once chosen, and [LimiterCHGeneric], which skips nodes
    that were stained a short while ago. Positions are CRC32 values. *)

From S2P Require Import Prelude GoStrings Hashing HashRing.
Local Open Scope Z_scope.

#[global] Instance hash_point : RingPoint Z := λ h, h.

Record anchorInfo : Type := mkAnchor {
  instanceHash : Z;
  instanceKey : string;
}.

Record CHGeneric : Type := mkCH {
  anchorPoint : gmap string anchorInfo;
  instanceMap : gmap Z string;
  hashPool : list Z;
}.

Definition NewCHGeneric : CHGeneric := mkCH ∅ ∅ [].

Definition getHashKeyCRC32 (key : string) : Z := crc32 key.

(** The first loop hit past [hashKey], or the first entry of the pool. *)
Fixpoint first_above (hashKey : Z) (pool : list Z) : option Z :=
  match pool with
  | [] => None
  | v :: pool => if hashKey <? v then Some v else first_above hashKey pool
  end.

Definition getNextHashKey (c : CHGeneric) (hashKey : Z) : Z :=
  match hashPool c with
  | [] => 0
  | h :: _ => default h (first_above hashKey (hashPool c))
  end.

Fixpoint first_below (hashKey : Z) (rev_pool : list Z) : option Z :=
  match rev_pool with
  | [] => None
  | v :: pool => if v <? hashKey then Some v else first_below hashKey pool
  end.

Definition getPreviousHashKey (c : CHGeneric) (hashKey : Z) : Z :=
  match reverse (hashPool c) with
  | [] => 0
  | h :: _ => default h (first_below hashKey (reverse (hashPool c)))
  end.

(** Reading a missing key of a Go map gives the zero value. *)
Definition instance_at (c : CHGeneric) (h : Z) : string := default "" (instanceMap c !! h).

Definition with_anchors (c : CHGeneric) (a : gmap string anchorInfo) : CHGeneric :=
  mkCH a (instanceMap c) (hashPool c).

Definition addAnchorPoint (c : CHGeneric) (name : string) : anchorInfo * CHGeneric :=
  let hashKey := getHashKeyCRC32 name in
  let h := getNextHashKey c hashKey in
  let newAnchor := mkAnchor h (instance_at c h) in
  (newAnchor, with_anchors c (<[name := newAnchor]> (anchorPoint c))).

(** The anchor is a pointer held by the map, so the caller sees the move. *)
Definition moveAnchorPoint (c : CHGeneric) (name : string) (curHash : Z) : anchorInfo * CHGeneric :=
  let h := getNextHashKey c curHash in
  let anchor := mkAnchor h (instance_at c h) in
  (anchor, with_anchors c (<[name := anchor]> (anchorPoint c))).

Definition ch_Next (c : CHGeneric) (name : string) (move : bool) : string * CHGeneric :=
  match anchorPoint c !! name with
  | None => let '(a, c) := addAnchorPoint c name in (instanceKey a, c)
  | Some anchor =>
      let '(anchor, c) :=
        if move then moveAnchorPoint c name (instanceHash anchor) else (anchor, c) in
      let '(anchor, c) :=
        match instanceMap c !! instanceHash anchor with
        | Some _ => (anchor, c)
        | None => moveAnchorPoint c name (instanceHash anchor)
        end in
      (instanceKey anchor, c)
  end.

Definition ch_Previous (c : CHGeneric) (name : string) (move : bool) : string :=
  let previous := getPreviousHashKey c (getHashKeyCRC32 name) in
  let previous := if move then getPreviousHashKey c previous else previous in
  let previous :=
    match instanceMap c !! previous with
    | Some _ => previous
    | None => getPreviousHashKey c previous
    end in
  instance_at c previous.

Definition ch_Add (c : CHGeneric) (node : node_arg) : CHGeneric :=
  match node with
  | NodeOther => c
  | NodeString name =>
      let hashKey := getHashKeyCRC32 name in
      match instanceMap c !! hashKey with
      | Some _ => c
      | None => mkCH (anchorPoint c) (<[hashKey := name]> (instanceMap c))
                     (merge_sort Z.le (hashPool c ++ [hashKey]))
      end
  end.

(** The loop that closes the gap at the first equal hash. *)
Fixpoint pool_remove (hashKey : Z) (pool : list Z) : list Z :=
  match pool with
  | [] => []
  | h :: pool => if h =? hashKey then pool else h :: pool_remove hashKey pool
  end.

Definition ch_Remove (c : CHGeneric) (node : node_arg) : CHGeneric :=
  match node with
  | NodeOther => c
  | NodeString name =>
      let hashKey := getHashKeyCRC32 name in
      mkCH (anchorPoint c) (delete hashKey (instanceMap c)) (pool_remove hashKey (hashPool c))
  end.

Definition ch_RemoveAll (c : CHGeneric) : CHGeneric := mkCH (anchorPoint c) ∅ [].
Definition ch_Reset (c : CHGeneric) : CHGeneric := with_anchors c ∅.
Definition ch_DeleteBalancer (c : CHGeneric) (name : string) : CHGeneric :=
  with_anchors c (delete name (anchorPoint c)).

(** * Invariants of the pool *)

Lemma getNext_succ c k : getNextHashKey c k = default 0 (succ_point k (hashPool c)).
Proof.
  unfold getNextHashKey, succ_point. destruct (hashPool c) as [|h l]; [done|].
  assert (∀ l, first_above k l = head (filter (λ p, k < ring_hash p) l)) as ->.
  { clear. induction l as [|v l IH]; [done|]. rewrite filter_cons. cbn.
    unfold ring_hash, hash_point in *. destruct (k <? v) eqn:Hv; breflect;
      [by rewrite decide_True|by rewrite decide_False by lia]. }
  by destruct (filter _ _).
Qed.

(** The pool is the sorted list of the hashes of the live nodes. *)
Record pool_inv (c : CHGeneric) : Prop := {
  pi_sorted : StronglySorted Z.le (hashPool c);
  pi_nodup : NoDup (hashPool c);
  pi_dom : ∀ h, h ∈ hashPool c ↔ is_Some (instanceMap c !! h);
  pi_hash : ∀ h n, instanceMap c !! h = Some n → crc32 n = h;
}.

Lemma pool_remove_elem h x l : NoDup l → x ∈ pool_remove h l ↔ x ∈ l ∧ x ≠ h.
Proof.
  induction 1 as [|y l Hy Hl IH]; cbn; [set_solver|].
  destruct (y =? h) eqn:He; breflect; [|set_solver]. subst. split; [|set_solver].
  intros Hx. split; [set_solver|]. by intros ->.
Qed.

Lemma pool_remove_sub h l : sublist (pool_remove h l) l.
Proof.
  induction l as [|y l IH]; cbn; [done|].
  destruct (y =? h); [by apply sublist_cons|by apply sublist_skip].
Qed.

Lemma StronglySorted_sublist (R : relation Z) l1 l2 :
  sublist l1 l2 → StronglySorted R l2 → StronglySorted R l1.
Proof.
  induction 1 as [|x l1 l2 Hs IH|x l1 l2 Hs IH]; [done|..]; inversion 1; subst; auto.
  constructor; [auto|]. apply Forall_forall. intros y Hy.
  eapply Forall_forall; [done|]. by eapply elem_of_sublist.
Qed.

Lemma Add_pool_inv c node : pool_inv c → pool_inv (ch_Add c node).
Proof.
  intros [Hs Hn Hd Hh]. destruct node as [name|]; [|by split]. unfold ch_Add, getHashKeyCRC32.
  destruct (instanceMap c !! crc32 name) eqn:Hl; [by split|].
  split; cbn [hashPool instanceMap].
  - apply StronglySorted_merge_sort; [intros ???; lia|intros ??; lia].
  - rewrite merge_sort_Permutation. apply NoDup_app. split; [done|]. split; [|apply NoDup_singleton].
    intros x Hx ->%list_elem_of_singleton. apply Hd in Hx. rewrite Hl in Hx. by destruct Hx.
  - intros h. rewrite merge_sort_Permutation, elem_of_app, list_elem_of_singleton, Hd.
    rewrite lookup_insert_is_Some. destruct (decide (crc32 name = h)); naive_solver.
  - intros h n. rewrite lookup_insert_Some. naive_solver.
Qed.

Lemma Remove_pool_inv c node : pool_inv c → pool_inv (ch_Remove c node).
Proof.
  intros [Hs Hn Hd Hh]. destruct node as [name|]; [|by split].
  split; cbn [ch_Remove hashPool instanceMap].
  - eapply StronglySorted_sublist; [apply pool_remove_sub|done].
  - eapply sublist_NoDup; [done|apply pool_remove_sub].
  - intros h. rewrite pool_remove_elem, Hd, lookup_delete_is_Some by done. naive_solver.
  - intros h n. rewrite lookup_delete_Some. naive_solver.
Qed.

(** [Next] and the anchor operations leave the nodes alone. *)
Lemma Next_nodes c name move :
  hashPool (snd (ch_Next c name move)) = hashPool c ∧
  instanceMap (snd (ch_Next c name move)) = instanceMap c.
Proof.
  unfold ch_Next, addAnchorPoint, moveAnchorPoint, with_anchors.
  destruct (anchorPoint c !! name) as [a|]; [|done].
  destruct move; cbn; (case_inner; cbn; done).
Qed.

Lemma pool_inv_nodes c c' :
  hashPool c' = hashPool c → instanceMap c' = instanceMap c → pool_inv c → pool_inv c'.
Proof. intros Hp Hm [H1 H2 H3 H4]. split; by rewrite ?Hp, ?Hm. Qed.

(** * Histories *)

Inductive ch_op : Type :=
| ChAdd (node : node_arg)
| ChRemove (node : node_arg)
| ChRemoveAll
| ChReset
| ChDeleteBalancer (name : string)
| ChNext (name : string) (move : bool).

Definition ch_step (c : CHGeneric) (o : ch_op) : CHGeneric :=
  match o with
  | ChAdd n => ch_Add c n
  | ChRemove n => ch_Remove c n
  | ChRemoveAll => ch_RemoveAll c
  | ChReset => ch_Reset c
  | ChDeleteBalancer name => ch_DeleteBalancer c name
  | ChNext name move => snd (ch_Next c name move)
  end.

Definition ch_run (ops : list ch_op) : CHGeneric := foldl ch_step NewCHGeneric ops.

Lemma empty_pool_inv c : hashPool c = [] → instanceMap c = ∅ → pool_inv c.
Proof.
  intros Hp Hm. split; rewrite ?Hp, ?Hm; [by constructor|by constructor|..].
  - intros h. rewrite lookup_empty, is_Some_alt. by rewrite elem_of_nil.
  - intros h n. by rewrite lookup_empty.
Qed.

Lemma ch_step_pool_inv c o : pool_inv c → pool_inv (ch_step c o).
Proof.
  intros Hc. destruct o as [n|n| | |n|n m]; cbn [ch_step];
    [by apply Add_pool_inv|by apply Remove_pool_inv| |destruct Hc; by split..|].
  - by apply empty_pool_inv.
  - destruct (Next_nodes c n m). by eapply pool_inv_nodes.
Qed.

Lemma New_pool_inv : pool_inv NewCHGeneric.
Proof. by apply empty_pool_inv. Qed.

Lemma ch_run_pool_inv ops : pool_inv (ch_run ops).
Proof.
  unfold ch_run. generalize New_pool_inv. generalize NewCHGeneric.
  induction ops as [|o ops IH]; intros c Hc; [done|]. cbn. by apply IH, ch_step_pool_inv.
Qed.

(** An anchor names the node it hashes to (an empty ring anchors the empty
    name, whose CRC32 is zero). *)
Definition anchor_inv (c : CHGeneric) : Prop :=
  ∀ name a, anchorPoint c !! name = Some a → crc32 (instanceKey a) = instanceHash a.

Lemma getNext_pool c k :
  hashPool c ≠ [] → getNextHashKey c k ∈ hashPool c.
Proof.
  intros Hp. rewrite getNext_succ. destruct (succ_point_is_Some k _ Hp) as [h Hh].
  rewrite Hh. cbn. by eapply succ_point_elem.
Qed.

Lemma fresh_anchor c k :
  pool_inv c → crc32 (instance_at c (getNextHashKey c k)) = getNextHashKey c k.
Proof.
  intros [_ _ Hd Hh]. destruct (decide (hashPool c = [])) as [He|He].
  - assert (getNextHashKey c k = 0) as -> by (unfold getNextHashKey; by rewrite He).
    unfold instance_at. destruct (instanceMap c !! 0) as [n|] eqn:Hl; [by apply Hh|done].
  - apply (getNext_pool c k), Hd in He as [n Hn]. unfold instance_at. rewrite Hn. by apply Hh.
Qed.

Lemma Next_anchor_inv c name move :
  pool_inv c → anchor_inv c → anchor_inv (snd (ch_Next c name move)).
Proof.
  intros Hp Ha.
  assert (Hi : ∀ c' k, pool_inv c' → anchor_inv c' →
    anchor_inv (with_anchors c' (<[name := mkAnchor (getNextHashKey c' k)
      (instance_at c' (getNextHashKey c' k))]> (anchorPoint c')))).
  { intros c' k Hp' Ha' n a. cbn. rewrite lookup_insert_Some.
    intros [[<- <-]|[_ Hl]]; [by apply fresh_anchor|by eapply Ha']. }
  unfold ch_Next, addAnchorPoint, moveAnchorPoint.
  destruct (anchorPoint c !! name) as [a|]; cbn; [|by apply Hi].
  destruct move; cbn; case_inner; cbn; eauto.
  apply Hi; [by apply (pool_inv_nodes c)|by apply Hi].
Qed.

Lemma ch_run_anchor_inv ops : anchor_inv (ch_run ops).
Proof.
  unfold ch_run. assert (H0 : anchor_inv NewCHGeneric) by (intros ?? H; cbn in H; by rewrite lookup_empty in H).
  revert H0. generalize New_pool_inv. generalize NewCHGeneric.
  induction ops as [|o ops IH]; intros c Hp Ha; [done|].
  cbn [foldl]. apply IH; [by apply ch_step_pool_inv|].
  destruct o as [[n|]|[n|]| | |n|n m]; cbn [ch_step ch_Add]; try exact Ha.
  - case_goal; exact Ha.
  - intros ?? H. cbn in H. by rewrite lookup_empty in H.
  - intros name a. cbn. rewrite lookup_delete_Some. intros [_ ?]. by eapply Ha.
  - by apply Next_anchor_inv.
Qed.

(** What [Next] leaves behind: an anchor at a live node, whose name it answers. *)
Lemma Next_anchored c name move k c' :
  pool_inv c → anchor_inv c → hashPool c ≠ [] → ch_Next c name move = (k, c') →
  ∃ a, anchorPoint c' !! name = Some a ∧ instanceKey a = k ∧ crc32 k = instanceHash a ∧
    is_Some (instanceMap c' !! instanceHash a).
Proof.
  intros Hp Ha Hne Hn.
  pose proof (Next_anchor_inv c name move Hp Ha) as Ha'. rewrite Hn in Ha'. cbn in Ha'.
  enough (∃ a, anchorPoint c' !! name = Some a ∧ instanceKey a = k ∧
    is_Some (instanceMap c' !! instanceHash a)) as (a & H1 & <- & H3).
  { exists a. split; [done|]. split; [done|]. split; [by eapply Ha'|done]. }
  assert (Hlive : ∀ h, is_Some (instanceMap c !! getNextHashKey c h)).
  { intros h. apply Hp, getNext_pool, Hne. }
  unfold ch_Next, addAnchorPoint, moveAnchorPoint in Hn.
  destruct (anchorPoint c !! name) as [a|] eqn:Hl.
  - destruct move.
    + destruct (Hlive (instanceHash a)) as [n Hln]. cbn in Hn. rewrite Hln in Hn.
      injection Hn as <- <-. cbn. eexists. rewrite lookup_insert_eq. split; [done|].
      cbn. eauto.
    + destruct (instanceMap c !! instanceHash a) as [n|] eqn:Hi; injection Hn as <- <-.
      * exists a. eauto.
      * eexists. cbn. rewrite lookup_insert_eq. cbn. eauto.
  - injection Hn as <- <-. eexists. cbn. rewrite lookup_insert_eq. cbn. eauto.
Qed.

(** Names come from the nodes that were added. *)
Definition op_name (o : ch_op) : list string :=
  match o with ChAdd (NodeString s) => [s] | _ => [] end.

Definition names_in (names : list string) (c : CHGeneric) : Prop :=
  (∀ h n, instanceMap c !! h = Some n → n ∈ names) ∧
  (∀ k a, anchorPoint c !! k = Some a → instanceKey a ∈ names).

Lemma Next_names_in names c name move :
  "" ∈ names → names_in names c →
  names_in names (snd (ch_Next c name move)) ∧ fst (ch_Next c name move) ∈ names.
Proof.
  intros He [Hm Ha].
  assert (Hat : ∀ h, instance_at c h ∈ names).
  { intros h. unfold instance_at. destruct (instanceMap c !! h) eqn:Hl; [by eapply Hm|done]. }
  assert (Hat' : ∀ a h, instance_at (with_anchors c a) h ∈ names) by (intros; apply Hat).
  unfold ch_Next, addAnchorPoint, moveAnchorPoint, names_in.
  destruct (anchorPoint c !! name) as [a|] eqn:Hl; cbn.
  - destruct move; cbn; case_inner; cbn; (split; [split; [done|]|]); eauto;
      intros k a'; rewrite ?insert_insert_eq, ?lookup_insert_Some;
      intros [[_ <-]|[_ ?]]; cbn; eauto.
  - split; [split; [done|]|apply Hat]. intros k a'. rewrite lookup_insert_Some.
    intros [[_ <-]|[_ ?]]; cbn; eauto.
Qed.

Lemma ch_run_names_in names ops :
  "" ∈ names → (∀ o s, o ∈ ops → s ∈ op_name o → s ∈ names) → names_in names (ch_run ops).
Proof.
  intros He. unfold ch_run.
  assert (H0 : names_in names NewCHGeneric)
    by (split; intros ?? H; cbn in H; by rewrite lookup_empty in H).
  revert H0. generalize NewCHGeneric.
  induction ops as [|o ops IH]; intros c Hc Hops; [done|].
  cbn [foldl]. apply IH; [|intros; eapply Hops; [by right|done]].
  assert (Ho : ∀ s, s ∈ op_name o → s ∈ names) by (intros; eapply Hops; [left|done]).
  destruct Hc as [Hm Ha].
  destruct o as [[n|]|[n|]| | |n|n m]; cbn [ch_step ch_Add ch_Remove]; try (by split).
  - case_goal; split; [exact Hm|exact Ha| |exact Ha]. cbn. intros h x. rewrite lookup_insert_Some.
    intros [[_ <-]|[_ ?]]; [apply Ho; left|eauto].
  - split; [|exact Ha]. cbn. intros h x. rewrite lookup_delete_Some. intros [_ ?]; eauto.
  - split; [exact Hm|]. intros k a. cbn. rewrite lookup_delete_Some. intros [_ ?]; eauto.
  - by apply Next_names_in.
Qed.

(** A ring with nodes answers with one of them: after any history that adds
    names whose CRC32 values differ from each other and from zero, [Next]
    returns the name of a node that is in the ring, also when the node a name
    was anchored to has been removed. *)
Theorem ch_next_live ops name move names :
  (∀ o s, o ∈ ops → s ∈ op_name o → s ∈ names) →
  (∀ x y, x ∈ "" :: names → y ∈ "" :: names → crc32 x = crc32 y → x = y) →
  hashPool (ch_run ops) ≠ [] →
  ∃ h, instanceMap (ch_run ops) !! h = Some (fst (ch_Next (ch_run ops) name move)).
Proof.
  intros Hops Hinj Hne.
  assert (Hin : names_in ("" :: names) (ch_run ops)).
  { apply ch_run_names_in; [left|]. intros o s Ho Hs. right. by eapply Hops. }
  pose proof (ch_run_pool_inv ops) as Hp. pose proof (ch_run_anchor_inv ops) as Ha.
  destruct (Next_nodes (ch_run ops) name move) as [_ Hm].
  destruct (Next_names_in _ _ name move ltac:(left) Hin) as [_ Hk].
  destruct (ch_Next (ch_run ops) name move) as [k c'] eqn:Hn. cbn in *.
  destruct (Next_anchored _ _ _ _ _ Hp Ha Hne Hn) as (a & _ & _ & Hc & n & Hl).
  rewrite Hm in Hl. exists (instanceHash a). rewrite Hl. f_equal.
  apply Hinj; [by eapply Hin|done|]. rewrite Hc. by apply Hp.
Qed.

Definition ch_example : list ch_op :=
  [ChAdd (NodeString "a"); ChAdd (NodeString "b"); ChNext "f" false; ChRemove (NodeString "a")].

Lemma ch_next_live_witness :
  ∃ h, instanceMap (ch_run ch_example) !! h = Some (fst (ch_Next (ch_run ch_example) "f" false)).
Proof.
  apply (ch_next_live ch_example "f" false ["a"; "b"]).
  - intros o s Ho Hs. unfold ch_example in Ho. rewrite !elem_of_cons, elem_of_nil in Ho.
    destruct Ho as [->|[->|[->|[->|[]]]]]; cbn in Hs; set_solver.
  - intros x y Hx Hy. rewrite !elem_of_cons in Hx, Hy.
    destruct Hx as [->|[->|[->|Hx]]]; [..|by apply not_elem_of_nil in Hx];
    (destruct Hy as [->|[->|[->|Hy]]]; [..|by apply not_elem_of_nil in Hy]);
    vm_compute; congruence.
  - vm_compute. discriminate.
Defined.

(** Names stay where they are: once [Next] has answered for a name, it keeps
    giving the same answer while other nodes are added and nodes of other hashes
    are removed. *)
Theorem ch_next_sticky ops name move node :
  hashPool (ch_run ops) ≠ [] →
  let '(k, c) := ch_Next (ch_run ops) name move in
  fst (ch_Next c name false) = k ∧
  fst (ch_Next (ch_Add c node) name false) = k ∧
  (∀ s, crc32 s ≠ crc32 k → fst (ch_Next (ch_Remove c (NodeString s)) name false) = k).
Proof.
  intros Hne. pose proof (ch_run_pool_inv ops) as Hp. pose proof (ch_run_anchor_inv ops) as Ha.
  destruct (ch_Next (ch_run ops) name move) as [k c] eqn:Hn.
  destruct (Next_anchored _ _ _ _ _ Hp Ha Hne Hn) as (a & Hl & Hk & Hc & n & Hi).
  assert (Hst : ∀ c', anchorPoint c' = anchorPoint c →
    is_Some (instanceMap c' !! instanceHash a) → fst (ch_Next c' name false) = k).
  { intros c' Ha' [m Hm]. unfold ch_Next. rewrite Ha', Hl, Hm. done. }
  split; [apply Hst; eauto|]. split.
  - destruct node as [s|]; [|apply Hst; eauto]. apply Hst; unfold ch_Add; case_goal; cbn; eauto.
    rewrite lookup_insert_is_Some. destruct (decide (getHashKeyCRC32 s = instanceHash a)); eauto.
  - intros s Hs. apply Hst; [done|]. cbn. rewrite lookup_delete_ne; [eauto|].
    rewrite Hc in Hs. done.
Qed.

Lemma ch_next_sticky_witness :
  fst (ch_Next (ch_Add (snd (ch_Next (ch_run ch_example) "f" true)) (NodeString "c")) "f" false)
  = fst (ch_Next (ch_run ch_example) "f" true).
Proof.
  pose proof (ch_next_sticky ch_example "f" true (NodeString "c")) as H.
  destruct (ch_Next (ch_run ch_example) "f" true) as [k c].
  apply H. vm_compute. discriminate.
Defined.

(** * LimiterCHGeneric *)

(** A node of the linked list: [nil] keys and zero times are [None]. *)
Record limiterNode : Type := mkLimiterNode {
  ln_key : option string;
  ln_time : option Z;
}.

(** The list of each name starts with the empty sentinel the code creates. *)
Record LimiterCHGeneric : Type := mkLimiter {
  lim_ch : CHGeneric;
  lim_limiter : gmap string (list limiterNode);
  nodeCount : Z;
  limiterTime : Z;
}.

Definition NewLimiterCHGeneric (limiterTime : Z) : LimiterCHGeneric :=
  mkLimiter NewCHGeneric ∅ 0 limiterTime.

Definition recent (limit now : Z) (n : limiterNode) : bool :=
  match ln_time n with
  | None => false
  | Some t => now - t <? limit
  end.

(** The inner loop over the records after the sentinel: whether it continues
    with the label, breaks at the node's record, or runs off the end. *)
Inductive scan_end : Type := ScanStained | ScanFound | ScanNone.

Fixpoint limiter_scan (limit now : Z) (key : string) (l : list limiterNode) : scan_end :=
  match l with
  | [] => ScanNone
  | n :: l =>
      if bool_decide (ln_key n = Some key)
      then (if recent limit now n then ScanStained else ScanFound)
      else limiter_scan limit now key l
  end.

Definition with_limiter (c : LimiterCHGeneric) (ch : CHGeneric)
    (m : gmap string (list limiterNode)) : LimiterCHGeneric :=
  mkLimiter ch m (nodeCount c) (limiterTime c).

(** The labelled loop with [fuel = nodeCount + 1] turns left. The readings of
    the clock within one call are taken to be one instant. *)
Fixpoint limiter_loop (fuel : nat) (now : Z) (c : LimiterCHGeneric) (name : string)
    (moveFlag : bool) : option string * LimiterCHGeneric :=
  match fuel with
  | O => (None, c)
  | S fuel =>
      let '(key, ch) := ch_Next (lim_ch c) name moveFlag in
      let c := with_limiter c ch (lim_limiter c) in
      let l := default [] (lim_limiter c !! name) in
      match limiter_scan (limiterTime c) now key (tail l) with
      | ScanStained => limiter_loop fuel now c name true
      | ScanFound => (Some key, c)
      | ScanNone =>
          let l' := take 1 l ++ mkLimiterNode (Some key) None :: tail l in
          (Some key, with_limiter c ch (<[name := l']> (lim_limiter c)))
      end
  end.

Definition lim_Next (now : Z) (c : LimiterCHGeneric) (name : string) (move : bool)
  : option string * LimiterCHGeneric :=
  let c :=
    match lim_limiter c !! name with
    | Some _ => c
    | None => with_limiter c (lim_ch c) (<[name := [mkLimiterNode None None]]> (lim_limiter c))
    end in
  limiter_loop (Z.to_nat (nodeCount c + 1)) now c name move.

Definition lim_Add (c : LimiterCHGeneric) (node : node_arg) : LimiterCHGeneric :=
  mkLimiter (ch_Add (lim_ch c) node) (lim_limiter c) (nodeCount c + 1) (limiterTime c).
Definition lim_Remove (c : LimiterCHGeneric) (node : node_arg) : LimiterCHGeneric :=
  mkLimiter (ch_Remove (lim_ch c) node) (lim_limiter c) (nodeCount c - 1) (limiterTime c).
Definition lim_RemoveAll (c : LimiterCHGeneric) : LimiterCHGeneric :=
  mkLimiter (ch_RemoveAll (lim_ch c)) (lim_limiter c) 0 (limiterTime c).
Definition lim_Reset (c : LimiterCHGeneric) : LimiterCHGeneric :=
  mkLimiter (ch_Reset (lim_ch c)) ∅ (nodeCount c) (limiterTime c).
Definition lim_DeleteBalancer (c : LimiterCHGeneric) (name : string) : LimiterCHGeneric :=
  mkLimiter (ch_DeleteBalancer (lim_ch c) name) (delete name (lim_limiter c))
            (nodeCount c) (limiterTime c).

(** [SetStain] starts at the sentinel, which only a nil node would match. *)
Fixpoint stain_loop (now : Z) (node : option string) (l : list limiterNode) : list limiterNode :=
  match l with
  | [] => []
  | n :: l =>
      if bool_decide (ln_key n = node) then mkLimiterNode (ln_key n) (Some now) :: l
      else n :: stain_loop now node l
  end.

Definition SetStain (now : Z) (c : LimiterCHGeneric) (function : string) (node : option string)
  : LimiterCHGeneric :=
  match lim_limiter c !! function with
  | None => c
  | Some l => with_limiter c (lim_ch c) (<[function := stain_loop now node l]> (lim_limiter c))
  end.

Lemma limiter_loop_unstained fuel now c name move key c' :
  limiter_loop fuel now c name move = (Some key, c') →
  limiter_scan (limiterTime c) now key (tail (default [] (lim_limiter c !! name))) ≠ ScanStained.
Proof.
  revert c move. induction fuel as [|fuel IH]; intros c move; [done|]. cbn [limiter_loop].
  destruct (ch_Next (lim_ch c) name move) as [k ch]. cbn.
  case_goal; [|intros [= -> _]; congruence..]. intros Hl. by apply IH in Hl.
Qed.

Lemma stain_scan limit t now key l :
  now - t < limit → Exists (λ n, ln_key n = Some key) l →
  limiter_scan limit now key (stain_loop t (Some key) l) = ScanStained.
Proof.
  intros Hlt. induction l as [|n l IH]; intros He; [by apply Exists_nil in He|]. cbn.
  destruct (bool_decide (ln_key n = Some key)) eqn:Hb; cbn; rewrite Hb.
  - unfold recent. cbn. by rewrite (proj2 (Z.ltb_lt _ _) Hlt).
  - apply Exists_cons in He as [He|He]; [breflect; congruence|by apply IH].
Qed.

Definition has_sentinel (c : LimiterCHGeneric) : Prop :=
  ∀ f l, lim_limiter c !! f = Some l → ∃ l', l = mkLimiterNode None None :: l'.

Lemma lim_Next_sentinel now c name move :
  has_sentinel c → has_sentinel (snd (lim_Next now c name move)).
Proof.
  intros Hs. unfold lim_Next.
  set (c0 := match lim_limiter c !! name with
             | Some _ => c
             | None => with_limiter c (lim_ch c)
                         (<[name := [mkLimiterNode None None]]> (lim_limiter c))
             end).
  assert (Hs0 : has_sentinel c0 ∧ is_Some (lim_limiter c0 !! name)).
  { subst c0. destruct (lim_limiter c !! name) eqn:Hl; [by rewrite Hl; eauto|]. split.
    - intros f l. cbn. rewrite lookup_insert_Some. intros [[_ <-]|[_ ?]]; [eauto|by eapply Hs].
    - cbn. rewrite lookup_insert_eq. eauto. }
  revert Hs0. generalize (Z.to_nat (nodeCount c0 + 1)) as fuel.
  clearbody c0. clear. intros fuel. revert c0 move.
  induction fuel as [|fuel IH]; intros c move [Hs [l Hl]]; [done|]. cbn [limiter_loop].
  destruct (ch_Next (lim_ch c) name move) as [k ch]. cbn. case_goal; cbn; [by apply IH; eauto|done|].
  intros f l'. cbn. rewrite lookup_insert_Some. intros [[<- <-]|[_ ?]]; [|by eapply Hs].
  rewrite Hl. cbn. destruct (Hs _ _ Hl) as [l'' ->]. cbn. eauto.
Qed.

(** A stained node is left alone: after [SetStain] marks a node that [Next]
    has handed out for a function, [Next] does not answer that node for the
    function again until the limiter time has passed. *)
Theorem stained_node_skipped c function key l t now move :
  has_sentinel c → lim_limiter c !! function = Some l →
  Exists (λ n, ln_key n = Some key) l → now - t < limiterTime c →
  fst (lim_Next now (SetStain t c function (Some key)) function move) ≠ Some key.
Proof.
  intros Hs Hl He Hlt Hn. destruct (Hs _ _ Hl) as [l' ->].
  apply Exists_cons in He as [He|He]; [done|].
  unfold SetStain in Hn. rewrite Hl in Hn. unfold lim_Next in Hn. cbn in Hn.
  rewrite lookup_insert_eq in Hn.
  destruct (limiter_loop _ _ _ _ _) as [r c'] eqn:Hr. cbn in Hn. subst r.
  apply limiter_loop_unstained in Hr. cbn in Hr. rewrite lookup_insert_eq in Hr. cbn in Hr.
  by apply Hr, stain_scan.
Qed.

Definition lim_example : LimiterCHGeneric :=
  snd (lim_Next 0 (lim_Add (lim_Add (NewLimiterCHGeneric 60) (NodeString "a")) (NodeString "b"))
         "f" false).

Lemma stained_node_skipped_witness :
  fst (lim_Next 30 (SetStain 10 lim_example "f" (fst (lim_Next 1 lim_example "f" false))) "f" false)
  ≠ fst (lim_Next 1 lim_example "f" false).
Proof.
  assert (Hk : fst (lim_Next 1 lim_example "f" false) = Some "a") by (vm_compute; reflexivity).
  rewrite Hk. apply (stained_node_skipped lim_example "f" "a"
    [mkLimiterNode None None; mkLimiterNode (Some "a") None]).
  - apply lim_Next_sentinel. intros f l. cbn. by rewrite lookup_empty.
  - vm_compute. reflexivity.
  - right. by left.
  - vm_compute. reflexivity.
Defined.

(** The node counter is not the size of the ring: [Remove] counts down for a
    node that is not there too, and at a negative count [Next] answers nil
    although the ring has a node. *)
Theorem limiter_count_drift :
  let c := lim_Remove (lim_Remove (lim_Add (NewLimiterCHGeneric 60) (NodeString "a"))
             (NodeString "x")) (NodeString "x") in
  hashPool (lim_ch c) = [crc32 "a"] ∧ fst (lim_Next 0 c "f" false) = None.
Proof. vm_compute. done. Qed.
