(* ===== verification/NoLockHash.v ===== *)
(** The lock-free consistent hash of [loadbalance/nolockconsistenthash.go] with
    its key cache [loadbalance/hashcache.go]: the ring the scheduler proxy uses
    to pick a scheduler for a function. *)

From S2P Require Import Prelude GoStrings Hashing HashRing.
Local Open Scope Z_scope.

(** * The cache of key hashes *)

(** The stored values are always uint32, so the failing type assertion of the
    source has no counterpart. *)
Definition hashCache : Type := gmap string Z.

Definition getHash (cache : hashCache) (key : string) : Z * hashCache :=
  match cache !! key with
  | Some hash => (hash, cache)
  | None => let hash := crc32 key in (hash, <[key := hash]> cache)
  end.

Section NoLock.
Context {Obj : Type}.

Record Node : Type := mkNode {
  n_Obj : Obj;
  n_Key : string;
  n_hash : Z;
}.

#[global] Instance node_point : RingPoint Node := n_hash.

Record ConsistentHash : Type := mkConsistentHash {
  c_cache : hashCache;
  c_nodes : list Node;
}.

Definition CreateNoLockLB : ConsistentHash := mkConsistentHash ∅ [].

Inductive add_error : Type := NodeAlreadyExist | NodeHashAlreadyExist.

Fixpoint add_check (nodes : list Node) (newNode : Node) : option add_error :=
  match nodes with
  | [] => None
  | node :: nodes =>
      if bool_decide (n_Key node = n_Key newNode) then Some NodeAlreadyExist
      else if n_hash node =? n_hash newNode then Some NodeHashAlreadyExist
      else add_check nodes newNode
  end.

(** [Less] of [nodeSlice]. *)
Definition node_le (a b : Node) : Prop := n_hash a ≤ n_hash b.

#[global] Instance node_le_dec : RelDecision node_le.
Proof. intros a b. unfold node_le. apply _. Defined.

#[global] Instance node_le_trans : Transitive node_le.
Proof. intros a b c. unfold node_le. lia. Qed.
#[global] Instance node_le_total : Total node_le.
Proof. intros a b. unfold node_le. lia. Qed.

Definition Add (c : ConsistentHash) (newNode : Node) : res add_error ConsistentHash :=
  let newNode := mkNode (n_Obj newNode) (n_Key newNode) (crc32 (n_Key newNode)) in
  match add_check (c_nodes c) newNode with
  | Some e => Err e
  | None => Ok (mkConsistentHash (c_cache c) (merge_sort node_le (c_nodes c ++ [newNode])))
  end.

Definition search (c : ConsistentHash) (keyHash : Z) : nat :=
  let f x :=
    match c_nodes c !! x with
    | None => false
    | Some n => keyHash <? n_hash n
    end in
  let index := sort_Search (length (c_nodes c)) f in
  if (length (c_nodes c) <=? index)%nat then 0%nat else index.

Definition Next (c : ConsistentHash) (key : string) : option Node * ConsistentHash :=
  match c_nodes c with
  | [] => (None, c)
  | _ =>
      let '(keyHash, cache) := getHash (c_cache c) key in
      let c := mkConsistentHash cache (c_nodes c) in
      (c_nodes c !! search c keyHash, c)
  end.

Fixpoint delete_loop (nodes : list Node) (nodeKey : string) : option Node * list Node :=
  match nodes with
  | [] => (None, [])
  | n :: nodes =>
      if bool_decide (n_Key n = nodeKey) then (Some n, nodes)
      else let '(r, nodes) := delete_loop nodes nodeKey in (r, n :: nodes)
  end.

Definition Delete (c : ConsistentHash) (nodeKey : string) : option Node * ConsistentHash :=
  let '(r, nodes) := delete_loop (c_nodes c) nodeKey in (r, mkConsistentHash (c_cache c) nodes).

(** * Invariant *)

Record ch_inv (c : ConsistentHash) : Prop := {
  ci_sorted : StronglySorted by_hash (c_nodes c);
  ci_hash : Forall (λ n, n_hash n = crc32 (n_Key n)) (c_nodes c);
  ci_keys : NoDup (n_Key <$> c_nodes c);
  ci_hashes : NoDup (n_hash <$> c_nodes c);
  ci_cache : map_Forall (λ k h, h = crc32 k) (c_cache c);
}.

Lemma Create_inv : ch_inv CreateNoLockLB.
Proof. split; cbn; [constructor..|apply map_Forall_empty]. Qed.

Lemma add_check_None nodes n :
  add_check nodes n = None → (n_Key n ∉ n_Key <$> nodes) ∧ (n_hash n ∉ n_hash <$> nodes).
Proof.
  induction nodes as [|m nodes IH]; cbn; [intros _; split; apply not_elem_of_nil|].
  repeat case_goal; try done. intros Hc. breflect. destruct (IH Hc). rewrite !not_elem_of_cons. auto.
Qed.

Lemma add_check_Some nodes m e :
  Forall (λ n, n_hash n = crc32 (n_Key n)) nodes → NoDup (n_hash <$> nodes) →
  n_hash m = crc32 (n_Key m) → add_check nodes m = Some e →
  match e with
  | NodeAlreadyExist => n_Key m ∈ (n_Key <$> nodes)
  | NodeHashAlreadyExist => n_Key m ∉ (n_Key <$> nodes) ∧ n_hash m ∈ (n_hash <$> nodes)
  end.
Proof.
  intros Hh Hd Hm. induction nodes as [|x l IH]; [done|]. cbn.
  apply Forall_cons in Hh as [Hx Hl]. cbn in Hd. apply NoDup_cons in Hd as [Hx' Hd].
  destruct (bool_decide _) eqn:Hb; breflect; [intros [= <-]; rewrite Hb; left|].
  destruct (n_hash x =? n_hash m) eqn:He; breflect.
  - intros [= <-]. split; [|rewrite He; left]. rewrite not_elem_of_cons. split; [auto|].
    intros (y & Hy & Hin)%list_elem_of_fmap. apply Hx'. apply list_elem_of_fmap. exists y.
    split; [|done]. rewrite Forall_forall in Hl. rewrite (Hl y Hin). congruence.
  - intros Ha. specialize (IH Hl Hd Ha). destruct e; [by right|].
    destruct IH. split; [rewrite not_elem_of_cons; auto|by right].
Qed.

Lemma Add_inv c n c' : ch_inv c → Add c n = Ok c' → ch_inv c'.
Proof.
  intros [Hs Hh Hk Hn Hc]. unfold Add.
  set (m := mkNode _ _ _). destruct (add_check (c_nodes c) m) eqn:Ha; [done|]. intros [= <-].
  apply add_check_None in Ha as [Hka Hha].
  assert (Hp : merge_sort node_le (c_nodes c ++ [m]) ≡ₚ m :: c_nodes c)
    by (rewrite merge_sort_Permutation; by rewrite Permutation_app_comm).
  split; cbn [c_nodes c_cache]; [|by rewrite Hp; constructor| | |done].
  - apply (StronglySorted_merge_sort node_le).
  - rewrite Hp. cbn. by constructor.
  - rewrite Hp. cbn. by constructor.
Qed.

Lemma delete_filter nodes k :
  NoDup (n_Key <$> nodes) → snd (delete_loop nodes k) = filter (λ n, n_Key n ≠ k) nodes.
Proof.
  induction nodes as [|n nodes IH]; [done|]. rewrite fmap_cons, filter_cons.
  intros [Hn Hd]%NoDup_cons. cbn [delete_loop]. destruct (bool_decide (n_Key n = k)) eqn:Hb; breflect; cbn [snd].
  - rewrite decide_False by auto. symmetry. apply filter_all, Forall_forall.
    intros m Hm <-. apply Hn. apply list_elem_of_fmap. exists m. split; [congruence|done].
  - rewrite decide_True by done. destruct (delete_loop nodes k) as [r l] eqn:Hl. cbn in *.
    f_equal. by apply IH.
Qed.

Lemma Delete_nodes c k :
  ch_inv c → c_nodes (snd (Delete c k)) = filter (λ n, n_Key n ≠ k) (c_nodes c).
Proof.
  intros Hc. rewrite <- (delete_filter _ _ (ci_keys _ Hc)). unfold Delete.
  by destruct (delete_loop _ _).
Qed.

Lemma Delete_inv c k : ch_inv c → ch_inv (snd (Delete c k)).
Proof.
  intros Hc. pose proof (Delete_nodes c k Hc) as Hn. destruct Hc as [Hs Hh Hk Hd Hca].
  split; rewrite ?Hn.
  - by apply StronglySorted_filter.
  - apply Forall_forall. intros n Hin. apply list_elem_of_filter in Hin as [_ Hin].
    rewrite Forall_forall in Hh. by apply Hh.
  - eapply sublist_NoDup; [done|apply fmap_filter_sublist].
  - eapply sublist_NoDup; [done|apply fmap_filter_sublist].
  - unfold Delete. by destruct (delete_loop _ _).
Qed.

Lemma getHash_spec cache key :
  map_Forall (λ k h, h = crc32 k) cache →
  fst (getHash cache key) = crc32 key ∧ map_Forall (λ k h, h = crc32 k) (snd (getHash cache key)).
Proof.
  intros Hc. unfold getHash. destruct (cache !! key) as [h|] eqn:Hl; cbn.
  - split; [by apply (Hc key)|done].
  - split; [done|]. by apply map_Forall_insert_2.
Qed.

Lemma Next_inv c key : ch_inv c → ch_inv (snd (Next c key)) ∧ c_nodes (snd (Next c key)) = c_nodes c.
Proof.
  intros Hc. unfold Next. destruct (c_nodes c) as [|n l] eqn:Hn; [done|]. rewrite <- Hn.
  pose proof (getHash_spec (c_cache c) key (ci_cache _ Hc)) as [_ Hca].
  destruct (getHash _ _) as [h ca]. destruct Hc. by repeat split.
Qed.

Lemma search_index c h : search c h = ring_index h (c_nodes c).
Proof.
  unfold search, ring_index. cbn zeta.
  assert (He : ∀ f, (sort_Search (length (c_nodes c)) f ≤ length (c_nodes c))%nat).
  { intros f. unfold sort_Search.
    enough (∀ fuel i j, i ≤ j → j ≤ length (c_nodes c) →
      search_loop fuel i j f ≤ length (c_nodes c))%nat as Hf; [apply Hf; lia|].
    induction fuel as [|fuel IH]; intros i j Hij Hj; cbn [search_loop]; [lia|].
    destruct (i <? j)%nat eqn:Hlt; breflect; [|lia].
    pose proof (Nat.div_mod_eq (i + j) 2). pose proof (Nat.mod_upper_bound (i + j) 2).
    case_goal; apply IH; lia. }
  set (f := λ i, match c_nodes c !! i with Some p => h <? ring_hash p | None => false end).
  change (λ x, match c_nodes c !! x with Some n => h <? n_hash n | None => false end) with f.
  specialize (He f). destruct (Nat.eq_dec (sort_Search (length (c_nodes c)) f) (length (c_nodes c))) as [->|Hne].
  - by rewrite Nat.leb_refl, Nat.eqb_refl.
  - rewrite (proj2 (Nat.leb_gt _ _)) by lia. by rewrite (proj2 (Nat.eqb_neq _ _) Hne).
Qed.

Lemma Next_succ c key : ch_inv c → fst (Next c key) = succ_point (crc32 key) (c_nodes c).
Proof.
  intros Hc. unfold Next. destruct (c_nodes c) as [|n l] eqn:Hn; [done|]. rewrite <- Hn.
  pose proof (getHash_spec (c_cache c) key (ci_cache _ Hc)) as [Hh _].
  destruct (getHash _ _) as [h ca]. cbn in *. subst h. rewrite search_index. cbn.
  rewrite (ring_index_spec _ _ (ci_sorted _ Hc)). done.
Qed.

(** * Histories *)

Inductive nl_op : Type :=
| NlAdd (node : Node)
| NlNext (key : string)
| NlDelete (key : string).

Definition nl_step (c : ConsistentHash) (o : nl_op) : ConsistentHash :=
  match o with
  | NlAdd n => match Add c n with Ok c' => c' | Err _ => c end
  | NlNext k => snd (Next c k)
  | NlDelete k => snd (Delete c k)
  end.

Definition nl_run (ops : list nl_op) : ConsistentHash := foldl nl_step CreateNoLockLB ops.

Lemma nl_run_inv ops : ch_inv (nl_run ops).
Proof.
  unfold nl_run. generalize Create_inv. generalize CreateNoLockLB.
  induction ops as [|o ops IH]; intros c Hc; [done|]. cbn. apply IH. destruct o as [n|k|k]; cbn.
  - destruct (Add c n) eqn:Ha; [by eapply Add_inv|done].
  - by apply Next_inv.
  - by apply Delete_inv.
Qed.

(** The cached binary search is the successor on the ring: after any history
    [Next] answers the node with the least hash above the CRC32 of the key, or
    the node of least hash when there is none, whatever keys were cached before;
    and it answers a node whenever there is one. *)
Theorem nolock_next_is_successor ops key :
  let c := nl_run ops in
  fst (Next c key) = succ_point (crc32 key) (c_nodes c) ∧
  (c_nodes c ≠ [] → is_Some (fst (Next c key))).
Proof.
  intros c. pose proof (nl_run_inv ops : ch_inv c) as Hc. rewrite (Next_succ c key Hc).
  split; [done|]. apply succ_point_is_Some.
Qed.

(** Deleting a node moves only the keys it served, and a rejected [Add]
    names the reason: the key is on the ring already, or another node has its
    hash. *)
Theorem nolock_delete_and_add ops key nodeKey node :
  let c := nl_run ops in
  (∀ n, fst (Next c key) = Some n → n_Key n ≠ nodeKey →
     fst (Next (snd (Delete c nodeKey)) key) = Some n) ∧
  match Add c node with
  | Err NodeAlreadyExist => n_Key node ∈ (n_Key <$> c_nodes c)
  | Err NodeHashAlreadyExist =>
      n_Key node ∉ (n_Key <$> c_nodes c) ∧ crc32 (n_Key node) ∈ (n_hash <$> c_nodes c)
  | Ok c' => n_Key node ∉ (n_Key <$> c_nodes c) ∧
      c_nodes c' ≡ₚ mkNode (n_Obj node) (n_Key node) (crc32 (n_Key node)) :: c_nodes c
  end.
Proof.
  intros c. pose proof (nl_run_inv ops : ch_inv c) as Hc. split.
  - intros n. rewrite (Next_succ c key Hc), (Next_succ _ key (Delete_inv c nodeKey Hc)).
    rewrite (Delete_nodes c nodeKey Hc). intros Hn Hk.
    by apply (succ_point_filter _ _ (λ n, n_Key n ≠ nodeKey)).
  - unfold Add. set (m := mkNode _ _ _).
    assert (Hm : n_hash m = crc32 (n_Key m)) by done.
    change (n_Key node) with (n_Key m). rewrite <- Hm.
    destruct Hc as [_ Hh _ Hd _]. destruct (add_check (c_nodes c) m) as [e|] eqn:Ha.
    + apply (add_check_Some _ _ _ Hh Hd Hm) in Ha. by destruct e.
    + apply add_check_None in Ha as [? ?]. split; [done|]. cbn.
      rewrite merge_sort_Permutation. by rewrite Permutation_app_comm.
Qed.
End NoLock.

Definition nl_example : list (@nl_op unit) :=
  [NlAdd (mkNode tt "a" 0); NlAdd (mkNode tt "b" 0); NlNext "f"].

Lemma nolock_next_is_successor_witness : is_Some (fst (Next (nl_run nl_example) "f")).
Proof.
  destruct (nolock_next_is_successor nl_example "f") as [_ H]. apply H. vm_compute. discriminate.
Defined.

Lemma nolock_delete_and_add_witness :
  fst (Next (snd (Delete (nl_run nl_example) "b")) "f") = Some (mkNode tt "a" 3904355907).
Proof.
  destruct (nolock_delete_and_add nl_example "f" "b" (mkNode tt "c" 0)) as [H _].
  apply H; [vm_compute; reflexivity|discriminate].
Defined.
