(* ===== verification/Trie.v ===== *)
(** The prefix tree of [trietree/trietree.go], which matches request paths to
    the registered prefixes segment by segment. Nodes are owned by their parent
    alone, so the pointer tree of the source is an inductive tree. *)

From S2P Require Import Prelude GoStrings.

Inductive trieNode : Type :=
| mkTrieNode (children : gmap string trieNode) (isEnd : bool).

Definition children (n : trieNode) : gmap string trieNode := let '(mkTrieNode c _) := n in c.
Definition isEnd (n : trieNode) : bool := let '(mkTrieNode _ e) := n in e.

Definition emptyNode : trieNode := mkTrieNode ∅ false.
Definition NewTrie : trieNode := emptyNode.

Fixpoint Insert (node : trieNode) (word : list string) : trieNode :=
  match word with
  | [] => mkTrieNode (children node) true
  | char :: word =>
      let child := default emptyNode (children node !! char) in
      mkTrieNode (<[char := Insert child word]> (children node)) (isEnd node)
  end.

Fixpoint Search (node : trieNode) (word : list string) : bool :=
  match word with
  | [] => isEnd node
  | char :: word =>
      match children node !! char with
      | None => false
      | Some child => Search child word
      end
  end.

(** [len(m) == 0] *)
Definition no_children (n : trieNode) : bool := bool_decide (children n = ∅).

(** The recursive [delete]: the node after the call, and whether its parent may
    drop it. *)
Fixpoint delete_rec (node : trieNode) (word : list string) : bool * trieNode :=
  match word with
  | [] =>
      if isEnd node
      then let node := mkTrieNode (children node) false in (no_children node, node)
      else (false, node)
  | char :: word =>
      match children node !! char with
      | None => (false, node)
      | Some child =>
          let '(shouldDeleteChild, child) := delete_rec child word in
          if shouldDeleteChild then
            let node := mkTrieNode (delete char (children node)) (isEnd node) in
            (negb (isEnd node) && no_children node, node)
          else (false, mkTrieNode (<[char := child]> (children node)) (isEnd node))
      end
  end.

Definition Delete (t : trieNode) (word : list string) : trieNode := snd (delete_rec t word).

Fixpoint match_loop (node : trieNode) (s currentMatch : list string) (longestMatch : string)
  : string :=
  match s with
  | [] => longestMatch
  | char :: s =>
      match children node !! char with
      | None => longestMatch
      | Some child =>
          let currentMatch := currentMatch ++ [char] in
          match_loop child s currentMatch
            (if isEnd child then Join currentMatch "/" else longestMatch)
      end
  end.

Definition LongestMatch (t : trieNode) (s : list string) : string := match_loop t s [] "".

(** * Lookups after updates *)

Lemma Search_empty w : Search emptyNode w = false.
Proof. destruct w; [done|]. cbn. by rewrite lookup_empty. Qed.

Lemma Search_Insert t w w' :
  Search (Insert t w) w' = bool_decide (w = w') || Search t w'.
Proof.
  revert t w'; induction w as [|a w IH]; intros t w'; [by destruct w'|].
  destruct w' as [|b w']; [done|]. cbn. destruct (decide (a = b)) as [->|Hne].
  - rewrite lookup_insert_eq, IH. destruct (children t !! b) as [c|]; cbn.
    + f_equal. apply bool_decide_ext. split; congruence.
    + rewrite Search_empty, orb_false_r, orb_false_r. apply bool_decide_ext. split; congruence.
  - rewrite lookup_insert_ne by done. rewrite bool_decide_false by congruence. done.
Qed.

(** A subtree that [delete] lets go holds no word. *)
Lemma delete_rec_true t w t' w' :
  delete_rec t w = (true, t') → Search t' w' = false.
Proof.
  revert t t' w'; destruct w as [|a w]; intros t t' w'; cbn.
  - destruct (isEnd t) eqn:He; [|done]. intros [= Hc <-].
    apply bool_decide_eq_true in Hc. cbn in Hc.
    destruct w'; cbn; [done|]. by rewrite Hc, lookup_empty.
  - destruct (children t !! a) as [c|]; [|done].
    destruct (delete_rec c w) as [d c']. destruct d; [|done]. intros [= Hc <-].
    cbn in Hc. apply andb_true_iff in Hc as [He Hc].
    apply negb_true_iff in He. apply bool_decide_eq_true in Hc. cbn in Hc.
    destruct w'; cbn; [done|]. by rewrite Hc, lookup_empty.
Qed.

Lemma Search_delete_rec t w w' :
  Search (snd (delete_rec t w)) w' = negb (bool_decide (w = w')) && Search t w'.
Proof.
  revert t w'; induction w as [|a w IH]; intros t w'; cbn.
  - destruct (isEnd t) eqn:He; cbn; [by destruct w'|].
    destruct w'; cbn; [by rewrite He|done].
  - destruct (children t !! a) as [c|] eqn:Hc.
    2:{ destruct w' as [|b w']; [done|]. cbn. destruct (decide (a = b)) as [->|].
        - by rewrite Hc, andb_false_r.
        - by rewrite bool_decide_false by congruence. }
    specialize (IH c). destruct (delete_rec c w) as [d c'] eqn:Hd. cbn in IH.
    destruct w' as [|b w']; [by destruct d|].
    destruct (decide (a = b)) as [<-|Hne].
    + rewrite (bool_decide_ext (a :: w = a :: w') (w = w')) by (split; congruence).
      cbn [Search]. rewrite Hc, <- IH. destruct d; cbn.
      * rewrite lookup_delete_eq. symmetry. by eapply delete_rec_true.
      * by rewrite lookup_insert_eq.
    + rewrite bool_decide_false by congruence. destruct d; cbn.
      * by rewrite lookup_delete_ne.
      * by rewrite lookup_insert_ne.
Qed.

(** * No dead branches *)

(** A node below the root ends a word or leads to one. *)
Inductive live : trieNode → Prop :=
| live_node n :
    isEnd n = true ∨ children n ≠ ∅ →
    (∀ a c, children n !! a = Some c → live c) → live n.

Definition wf (t : trieNode) : Prop := ∀ a c, children t !! a = Some c → live c.

Lemma live_wf t : live t → wf t.
Proof. by destruct 1. Qed.

Lemma Insert_live t w : wf t → live (Insert t w).
Proof.
  revert t; induction w as [|a w IH]; intros t Ht; constructor; cbn.
  - by left.
  - done.
  - right. apply insert_non_empty.
  - intros b c. rewrite lookup_insert_Some. intros [[-> <-]|[_ Hc]]; [|by eapply Ht].
    apply IH. destruct (children t !! b) as [d|] eqn:Hd; cbn; [by apply live_wf, (Ht b)|].
    intros x y. cbn. by rewrite lookup_empty.
Qed.

Lemma delete_rec_wf t w d t' :
  wf t → delete_rec t w = (d, t') → wf t' ∧ (d = false → live t → live t').
Proof.
  revert t d t'; induction w as [|a w IH]; intros t d t' Ht; cbn.
  - destruct (isEnd t); intros [= <- <-]; [|done]. split; [done|]. intros Hd _.
    apply bool_decide_eq_false in Hd. constructor; [by right|done].
  - destruct (children t !! a) as [c|] eqn:Hc; [|intros [= <- <-]; done].
    destruct (delete_rec c w) as [e c'] eqn:Hd.
    destruct (IH c e c' (live_wf _ (Ht a c Hc)) Hd) as [Hw Hl].
    destruct e; intros [= <- <-].
    + assert (Hw' : wf (mkTrieNode (delete a (children t)) (isEnd t))).
      { intros b x. cbn. rewrite lookup_delete_Some. intros [_ ?]. by eapply Ht. }
      split; [done|]. intros Hf _. apply andb_false_iff in Hf. constructor; [|done].
      destruct Hf as [Hf|Hf]; [by left; apply negb_false_iff|right; unfold no_children in Hf; by apply bool_decide_eq_false in Hf].
    + assert (Hw' : wf (mkTrieNode (<[a := c']> (children t)) (isEnd t))).
      { intros b x. cbn. rewrite lookup_insert_Some. intros [[_ <-]|[_ ?]]; [|by eapply Ht].
        by apply Hl, (Ht a). }
      split; [done|]. intros _ _. constructor; [right; apply insert_non_empty|done].
Qed.

Lemma delete_Insert t w :
  wf t → Search t w = false →
  delete_rec (Insert t w) w = (negb (isEnd t) && no_children t, t).
Proof.
  revert t; induction w as [|a w IH]; intros t Ht Hs; cbn [Insert delete_rec children isEnd].
  - cbn in Hs. rewrite Hs. destruct t as [m e]. cbn in *. by subst e.
  - rewrite lookup_insert_eq. destruct (children t !! a) as [c|] eqn:Hc.
    + cbn [default from_option id]. cbn in Hs. rewrite Hc in Hs.
      pose proof (Ht a c Hc) as Hl. rewrite (IH c (live_wf _ Hl) Hs).
      assert (negb (isEnd c) && no_children c = false) as ->.
      { apply andb_false_iff. destruct Hl as [n [He|He] _]; [left; by rewrite He|right].
        by apply bool_decide_eq_false. }
      f_equal.
      * unfold no_children. rewrite bool_decide_false, andb_false_r; [done|]. intros He.
        rewrite He, lookup_empty in Hc. done.
      * destruct t as [m e]. cbn in *. by rewrite insert_insert_eq, insert_id.
    + cbn [default from_option]. rewrite (IH emptyNode).
      * cbn. destruct t as [m e]. cbn in *. rewrite delete_insert_id by done. done.
      * intros x y. cbn. by rewrite lookup_empty.
      * apply Search_empty.
Qed.

(** * The trie as a set of words *)

Inductive trie_op : Type :=
| TInsert (word : list string)
| TDelete (word : list string).

Definition trie_step (t : trieNode) (o : trie_op) : trieNode :=
  match o with TInsert w => Insert t w | TDelete w => Delete t w end.
Definition words_step (s : gset (list string)) (o : trie_op) : gset (list string) :=
  match o with TInsert w => {[w]} ∪ s | TDelete w => s ∖ {[w]} end.

Definition trie_run (ops : list trie_op) : trieNode := foldl trie_step NewTrie ops.
Definition words_run (ops : list trie_op) : gset (list string) := foldl words_step ∅ ops.

Lemma trie_run_wf ops : wf (trie_run ops).
Proof.
  unfold trie_run. assert (H : wf NewTrie) by (intros x y; cbn; by rewrite lookup_empty).
  revert H. generalize NewTrie. induction ops as [|o ops IH]; intros t Ht; [done|].
  cbn. apply IH. destruct o as [w|w]; cbn; [by apply live_wf, Insert_live|].
  unfold Delete. destruct (delete_rec t w) eqn:Hd. by eapply delete_rec_wf.
Qed.

Lemma trie_words ops w : Search (trie_run ops) w = bool_decide (w ∈ words_run ops).
Proof.
  unfold trie_run, words_run.
  enough (Hgen : ∀ t s, (∀ w, Search t w = bool_decide (w ∈ s)) →
    Search (foldl trie_step t ops) w = bool_decide (w ∈ foldl words_step s ops)).
  { apply Hgen. intros w'. rewrite Search_empty. symmetry. by apply bool_decide_false. }
  induction ops as [|o ops IH]; intros t s Hts; [by apply Hts|]. cbn. apply IH. clear IH w.
  intros w. destruct o as [v|v]; cbn.
  - rewrite Search_Insert, Hts. rewrite (bool_decide_ext (w ∈ {[v]} ∪ s) (v = w ∨ w ∈ s)) by set_solver.
    by rewrite bool_decide_or.
  - unfold Delete. rewrite Search_delete_rec, Hts.
    rewrite (bool_decide_ext (w ∈ s ∖ {[v]}) (v ≠ w ∧ w ∈ s)) by set_solver.
    by rewrite bool_decide_and, bool_decide_not.
Qed.

(** C21. The trie implements a set of words: after any sequence of insertions and
    deletions [Search] finds exactly the words of the same sequence on a set. *)
Theorem trie_refines_set ops w :
  Search (trie_run ops) w = bool_decide (w ∈ words_run ops).
Proof. apply trie_words. Qed.

(** Deleting undoes inserting: for a word that is not in the trie, [Insert]
    followed by [Delete] gives back the very same tree, without dead branches. *)
Theorem trie_insert_delete ops w :
  let t := trie_run ops in
  Search t w = false → Delete (Insert t w) w = t.
Proof.
  intros t Hs. unfold Delete. rewrite delete_Insert; [done|apply trie_run_wf|done].
Qed.

Lemma trie_insert_delete_witness :
  Delete (Insert (trie_run [TInsert ["a"; "b"]]) ["a"; "c"; "d"]) ["a"; "c"; "d"]
  = trie_run [TInsert ["a"; "b"]].
Proof. apply (trie_insert_delete [TInsert ["a"; "b"]] ["a"; "c"; "d"]). reflexivity. Defined.

(** * The longest match *)

Lemma match_loop_spec t s cur best p :
  (p = [] → best = "") → (p ≠ [] → best = Join p "/") →
  ∃ q, match_loop t s cur best = Join q "/" ∧
    ((q = p ∧ ∀ r, r ≠ [] → r `prefix_of` s → Search t r = false) ∨
     (∃ r, q = cur ++ r ∧ r ≠ [] ∧ r `prefix_of` s ∧ Search t r = true ∧
       ∀ r', r' `prefix_of` s → Search t r' = true → length r' ≤ length r)).
Proof.
  revert t cur best p. induction s as [|a s IH]; intros t cur best p H0 H1; cbn [match_loop].
  { exists p. split; [destruct p; [by rewrite H0|by apply H1]|]. left. split; [done|].
    intros r Hr Hp. by apply prefix_nil_inv in Hp. }
  destruct (children t !! a) as [c|] eqn:Hc.
  2:{ exists p. split; [destruct p; [by rewrite H0|by apply H1]|]. left. split; [done|].
      intros [|b r] Hr Hp; [done|]. apply prefix_cons_inv_1 in Hp as ->. cbn. by rewrite Hc. }
  assert (Hcons : ∀ r', r' ≠ [] → r' `prefix_of` a :: s →
    ∃ r, r' = a :: r ∧ r `prefix_of` s ∧ Search t r' = Search c r).
  { intros [|b r] Hne Hp; [done|]. pose proof (prefix_cons_inv_1 _ _ _ _ Hp) as ->.
    apply prefix_cons_inv_2 in Hp. exists r. split; [done|]. split; [done|]. cbn. by rewrite Hc. }
  destruct (isEnd c) eqn:He.
  - destruct (IH c (cur ++ [a]) (Join (cur ++ [a]) "/") (cur ++ [a])) as (q & Hq & Hcase).
    { by destruct cur. } { done. }
    exists q. split; [done|]. right. destruct Hcase as [[-> Hn]|(r & -> & Hr & Hp & Hs & Hm)].
    + exists [a]. split; [done|]. split; [done|]. split; [by apply prefix_cons, prefix_nil|].
      split; [cbn; by rewrite Hc|]. intros r' Hp' Hs'.
      destruct (decide (r' = [])) as [->|Hne]; [cbn; lia|].
      destruct (Hcons r' Hne Hp') as (x & -> & Hx & Heq). rewrite Hs' in Heq.
      destruct x; [done|]. rewrite Hn in Heq; done.
    + exists (a :: r). rewrite <- app_assoc. cbn [app]. split; [done|]. split; [done|].
      split; [by apply prefix_cons|]. split; [cbn; by rewrite Hc|]. intros r' Hp' Hs'.
      destruct (decide (r' = [])) as [->|Hne]; [cbn; lia|].
      destruct (Hcons r' Hne Hp') as (x & -> & Hx & Heq). rewrite Hs' in Heq. cbn.
      apply le_n_S, Hm; done.
  - destruct (IH c (cur ++ [a]) best p H0 H1) as (q & Hq & Hcase).
    exists q. split; [done|]. destruct Hcase as [[-> Hn]|(r & -> & Hr & Hp & Hs & Hm)].
    + left. split; [done|]. intros r' Hne Hp'. destruct (Hcons r' Hne Hp') as (x & -> & Hx & ->).
      destruct x; [done|]. by apply Hn.
    + right. exists (a :: r). rewrite <- app_assoc. cbn [app]. split; [done|]. split; [done|].
      split; [by apply prefix_cons|]. split; [cbn; by rewrite Hc|]. intros r' Hp' Hs'.
      destruct (decide (r' = [])) as [->|Hne]; [cbn; lia|].
      destruct (Hcons r' Hne Hp') as (x & -> & Hx & Heq). rewrite Hs' in Heq. cbn.
      apply le_n_S, Hm; done.
Qed.

(** [LongestMatch] returns the registered prefix with the most segments: its
    result is the segments of some prefix of the path joined by "/", a
    registered non-empty word unless no non-empty prefix is registered, and no
    registered prefix of the path is longer. *)
Theorem longest_match_correct ops s :
  let t := trie_run ops in
  ∃ p, LongestMatch t s = Join p "/" ∧ p `prefix_of` s ∧
    (p = [] ∨ p ∈ words_run ops) ∧
    ∀ q, q `prefix_of` s → q ∈ words_run ops → length q ≤ length p.
Proof.
  intros t. destruct (match_loop_spec t s [] "" []) as (q & Hq & Hcase); [done|done|].
  assert (Hw : ∀ w, w ∈ words_run ops ↔ Search t w = true).
  { intros w. unfold t. rewrite trie_words. by rewrite bool_decide_eq_true. }
  exists q. split; [done|]. destruct Hcase as [[-> Hn]|(r & -> & Hr & Hp & Hs & Hm)].
  - split; [apply prefix_nil|]. split; [by left|]. intros q Hp Hq'. apply Hw in Hq'.
    destruct q; [done|]. rewrite Hn in Hq'; done.
  - split; [done|]. split; [right; by apply Hw|]. intros q' Hp' Hq'. apply Hm; [done|by apply Hw].
Qed.
