(* ===== verification/TimeWheel.v ===== *)
(** The timing wheel of [timewheel/simpletimewheel.go], on which the lease
    manager runs its renewals and expiries.

    A trigger is reached both through its slot and through the record map, and
    [UpdateTask] mutates it in place, so triggers live in a heap and both maps
    hold addresses. The goroutine's ticker is a sequence of [tick] steps; the
    ready channel is a bounded queue that drops a batch when it is full. *)

From S2P Require Import Prelude.
Local Open Scope Z_scope.

Record timeTrigger : Type := mkTrigger {
  taskID : string;
  times : Z;
  index : Z;
  circle : Z;
  circleCount : Z;
}.

Record SimpleTimeWheel : Type := mkWheel {
  pace : Z;
  perimeter : Z;
  slotNum : Z;
  curSlot : Z;
  slots : list (gmap string nat);
  record : gmap string nat;
  readyCh : list (list string);
  heap : gmap nat timeTrigger;
  next_addr : nat;
}.

(** Durations are nanoseconds. *)
Definition minPace : Z := 2000000.
Definition minSlotNum : Z := 1.
Definition readyChan : nat := 10.
Definition readyChanBlock : nat := 5.

Definition NewSimpleTimeWheel (pace slotNum : Z) : SimpleTimeWheel :=
  let pace := if pace <? minPace then minPace else pace in
  let slotNum := if slotNum <? minSlotNum then minSlotNum else slotNum in
  mkWheel pace (slotNum * pace) slotNum 0 (replicate (Z.to_nat slotNum) ∅) ∅ [] ∅ 0.

Definition slot_at (w : SimpleTimeWheel) (i : Z) : gmap string nat :=
  default ∅ (slots w !! Z.to_nat i).

Definition set_slots (w : SimpleTimeWheel) (cur : Z) (sl : list (gmap string nat))
    (r : gmap string nat) (h : gmap nat timeTrigger) (n : nat) : SimpleTimeWheel :=
  mkWheel (pace w) (perimeter w) (slotNum w) cur sl r (readyCh w) h n.

(** ** Firing *)

(** What the [Range] callback works on. *)
Record fire_state : Type := mkFire {
  fs_heap : gmap nat timeTrigger;
  fs_record : gmap string nat;
  fs_slot : gmap string nat;
  fs_ready : list string;
}.

Definition fire_one (st : fire_state) (entry : string * nat) : fire_state :=
  let '(id, a) := entry in
  match fs_heap st !! a with
  | None => mkFire (fs_heap st) (fs_record st) (delete id (fs_slot st)) (fs_ready st)
  | Some t =>
      if circleCount t =? circle t then
        let rec := if times t =? 0 then delete (taskID t) (fs_record st) else fs_record st in
        let slot := if times t =? 0 then delete id (fs_slot st) else fs_slot st in
        let tm := if 0 <? times t then times t - 1 else times t in
        mkFire (<[a := mkTrigger (taskID t) tm (index t) (circle t) (0 + 1)]> (fs_heap st))
               rec slot (fs_ready st ++ [taskID t])
      else
        mkFire (<[a := mkTrigger (taskID t) (times t) (index t) (circle t) (circleCount t + 1)]>
                  (fs_heap st))
               (fs_record st) (fs_slot st) (fs_ready st)
  end.

(** The state after the slot was ranged over, and the ready list. *)
Definition checkSlot (w : SimpleTimeWheel) (currSlot : Z) : list string * SimpleTimeWheel :=
  let slot := slot_at w currSlot in
  let st := foldl fire_one (mkFire (heap w) (record w) slot []) (map_to_list slot) in
  (fs_ready st,
   set_slots w (curSlot w) (<[Z.to_nat currSlot := fs_slot st]> (slots w))
             (fs_record st) (fs_heap st) (next_addr w)).

(** The non-blocking send of the ready list. *)
Definition send_ready (w : SimpleTimeWheel) (ready : list string) : SimpleTimeWheel :=
  match ready with
  | [] => w
  | _ =>
      if (length (readyCh w) <? readyChan)%nat
      then mkWheel (pace w) (perimeter w) (slotNum w) (curSlot w) (slots w) (record w)
                   (readyCh w ++ [ready]) (heap w) (next_addr w)
      else w
  end.

Definition checkAndFireTrigger (w : SimpleTimeWheel) (currSlot : Z)
  : list string * SimpleTimeWheel :=
  let '(ready, w) := checkSlot w currSlot in (ready, send_ready w ready).

(** One ticker event of [run], with the tasks it fires. *)
Definition tick (w : SimpleTimeWheel) : list string * SimpleTimeWheel :=
  let cur := (curSlot w + 1) mod Z.of_nat (length (slots w)) in
  checkAndFireTrigger (set_slots w cur (slots w) (record w) (heap w) (next_addr w)) cur.

(** [Wait]: [None] while the channel is empty; the flag is the error that the
    channel has been blocked. *)
Definition Wait (w : SimpleTimeWheel) : option (list string * bool * SimpleTimeWheel) :=
  match readyCh w with
  | [] => None
  | l :: ch =>
      Some (l, (readyChanBlock <? length ch)%nat,
            mkWheel (pace w) (perimeter w) (slotNum w) (curSlot w) (slots w) (record w)
                    ch (heap w) (next_addr w))
  end.

(** ** Tasks *)

Inductive wheel_error : Type := ErrInvalidTaskInterval | ErrTaskAlreadyExist.

(** Where a task of the given interval goes. Intervals are not negative, so the
    truncating operators of Go are the Euclidean ones. *)
Definition place (w : SimpleTimeWheel) (taskID : string) (interval times : Z) : timeTrigger :=
  let cur := curSlot w in
  let circle := (interval / pace w + cur + 1) / slotNum w in
  let index := (interval / pace w + cur + 1) mod slotNum w in
  let circleCount := if cur <? index then 0 else 1 in
  mkTrigger taskID times index circle circleCount.

Definition store_slot (w : SimpleTimeWheel) (i : Z) (id : string) (a : nat)
  : list (gmap string nat) :=
  alter (λ s, <[id := a]> s) (Z.to_nat i) (slots w).

Definition AddTask (w : SimpleTimeWheel) (taskID : string) (interval times : Z)
  : res wheel_error SimpleTimeWheel :=
  if interval <? perimeter w then Err ErrInvalidTaskInterval
  else match record w !! taskID with
  | Some _ => Err ErrTaskAlreadyExist
  | None =>
      let t := place w taskID interval times in
      let a := next_addr w in
      Ok (set_slots w (curSlot w) (store_slot w (index t) taskID a)
            (<[taskID := a]> (record w)) (<[a := t]> (heap w)) (S a))
  end.

Definition DelTask (w : SimpleTimeWheel) (taskID : string) : SimpleTimeWheel :=
  match record w !! taskID with
  | None => w
  | Some a =>
      match heap w !! a with
      | None => w
      | Some t =>
          set_slots w (curSlot w) (alter (delete taskID) (Z.to_nat (index t)) (slots w))
            (delete taskID (record w)) (heap w) (next_addr w)
      end
  end.

Definition UpdateTask (w : SimpleTimeWheel) (id : string) (interval times : Z)
  : res wheel_error SimpleTimeWheel :=
  match record w !! id with
  | None => AddTask w id interval times
  | Some a =>
      match heap w !! a with
      | None => Ok w
      | Some t =>
          let w1 := set_slots w (curSlot w)
                      (alter (delete (taskID t)) (Z.to_nat (index t)) (slots w))
                      (record w) (heap w) (next_addr w) in
          let t' := place w1 (taskID t) interval times in
          Ok (set_slots w1 (curSlot w1) (store_slot w1 (index t') (taskID t) a)
                (record w1) (<[a := t']> (heap w1)) (next_addr w1))
      end
  end.

(** * One slot *)

Definition fires (t : timeTrigger) : bool := circleCount t =? circle t.
Definition expires (t : timeTrigger) : bool := fires t && (times t =? 0).
Definition advance (t : timeTrigger) : timeTrigger :=
  if fires t then
    mkTrigger (taskID t) (if 0 <? times t then times t - 1 else times t) (index t) (circle t) 1
  else mkTrigger (taskID t) (times t) (index t) (circle t) (circleCount t + 1).

Lemma fire_one_eq st id a t :
  fs_heap st !! a = Some t → taskID t = id →
  fire_one st (id, a) =
    mkFire (<[a := advance t]> (fs_heap st))
           (if expires t then delete id (fs_record st) else fs_record st)
           (if expires t then delete id (fs_slot st) else fs_slot st)
           (fs_ready st ++ if fires t then [id] else []).
Proof.
  intros Ha <-. unfold fire_one, expires, advance, fires. rewrite Ha.
  destruct (circleCount t =? circle t); cbn; [|by rewrite app_nil_r].
  by destruct (times t =? 0).
Qed.

(** The entries of a slot name their own triggers. *)
Definition entries_ok (h : gmap nat timeTrigger) (l : list (string * nat)) : Prop :=
  NoDup (fst <$> l) ∧ ∀ id a, (id, a) ∈ l → ∃ t, h !! a = Some t ∧ taskID t = id.

Lemma entries_ok_step h id a t l :
  entries_ok h ((id, a) :: l) → h !! a = Some t → taskID t = id →
  entries_ok (<[a := advance t]> h) l ∧ (∀ id' a', (id', a') ∈ l → a' ≠ a ∧ id' ≠ id).
Proof.
  intros [Hn Hl] Ha Ht. cbn in Hn. apply NoDup_cons in Hn as [Hid Hn].
  assert (Hd : ∀ id' a', (id', a') ∈ l → a' ≠ a ∧ id' ≠ id).
  { intros id' a' Hin. assert (id' ≠ id).
    { intros ->. apply Hid, list_elem_of_fmap. by exists (id, a'). }
    split; [|done]. intros ->. destruct (Hl id' a) as (t' & Ha' & Ht'); [by right|]. congruence. }
  split; [|done]. split; [done|]. intros id' a' Hin. destruct (Hd _ _ Hin) as [Hne _].
  rewrite lookup_insert_ne by done. apply Hl. by right.
Qed.

Lemma fire_loop_other l st :
  entries_ok (fs_heap st) l →
  let st' := foldl fire_one st l in
  (∀ a, a ∉ snd <$> l → fs_heap st' !! a = fs_heap st !! a) ∧
  (∀ id, id ∉ fst <$> l →
    fs_record st' !! id = fs_record st !! id ∧ fs_slot st' !! id = fs_slot st !! id ∧
    (id ∈ fs_ready st' ↔ id ∈ fs_ready st)).
Proof.
  revert st; induction l as [|[id a] l IH]; intros st Hok; [done|]. cbn [foldl].
  pose proof Hok as [_ Hl]. destruct (Hl id a) as (t & Ha & Ht); [left|].
  destruct (entries_ok_step _ _ _ _ _ Hok Ha Ht) as [Hok' _].
  rewrite (fire_one_eq _ _ _ _ Ha Ht).
  match goal with |- context [foldl _ ?s l] => specialize (IH s Hok') end.
  destruct IH as [Hh Hr]. split.
  - intros b Hb. rewrite fmap_cons, not_elem_of_cons in Hb. destruct Hb as [Hb Hbl].
    rewrite (Hh b Hbl). cbn. by rewrite lookup_insert_ne by auto.
  - intros x Hx. rewrite fmap_cons, not_elem_of_cons in Hx. destruct Hx as [Hx Hxl]. cbn in Hx.
    destruct (Hr x Hxl) as (H1 & H2 & H3). rewrite H1, H2, H3. cbn.
    repeat split; try (destruct (expires t); [by rewrite lookup_delete_ne|done]).
    + rewrite elem_of_app. intros [?|Hin]; [done|]. destruct (fires t); set_solver.
    + rewrite elem_of_app. by left.
Qed.

Lemma fire_loop_entry l st id a t :
  entries_ok (fs_heap st) l → (id, a) ∈ l → fs_heap st !! a = Some t →
  let st' := foldl fire_one st l in
  fs_heap st' !! a = Some (advance t) ∧
  fs_record st' !! id = (if expires t then None else fs_record st !! id) ∧
  fs_slot st' !! id = (if expires t then None else fs_slot st !! id) ∧
  (id ∈ fs_ready st' ↔ id ∈ fs_ready st ∨ fires t = true).
Proof.
  revert st; induction l as [|[id0 a0] l IH]; intros st Hok Hin Ha; [by apply not_elem_of_nil in Hin|].
  cbn [foldl]. pose proof Hok as [_ Hl]. destruct (Hl id0 a0) as (t0 & Ha0 & Ht0); [left|].
  destruct (entries_ok_step _ _ _ _ _ Hok Ha0 Ht0) as [Hok' Hd].
  rewrite (fire_one_eq _ _ _ _ Ha0 Ht0). apply elem_of_cons in Hin as [Hin|Hin].
  - injection Hin as -> ->. rewrite Ha in Ha0. injection Ha0 as ->.
    match goal with |- context [foldl _ ?s l] =>
      destruct (fire_loop_other l s Hok') as [Hh Hr] end.
    assert (Hn : id0 ∉ fst <$> l ∧ a0 ∉ snd <$> l).
    { split; intros ([i b] & Hi & Hil)%list_elem_of_fmap; cbn in Hi; subst;
        destruct (Hd _ _ Hil); done. }
    destruct Hn as [Hn1 Hn2]. destruct (Hr _ Hn1) as (H1 & H2 & H3).
    rewrite (Hh _ Hn2), H1, H2, H3. cbn. rewrite lookup_insert_eq. split; [done|].
    split; [|split]; try (destruct (expires t0); [by rewrite lookup_delete_eq|done]).
    rewrite elem_of_app. destruct (fires t0); set_solver.
  - destruct (Hd _ _ Hin) as [Hna Hni].
    match goal with |- context [foldl _ ?s l] => destruct (IH s Hok' Hin) as (H1 & H2 & H3 & H4) end.
    { cbn. by rewrite lookup_insert_ne by auto. }
    rewrite H1, H2, H3, H4. cbn.
    split; [done|]. split; [|split]; try (destruct (expires t0); [by rewrite lookup_delete_ne by auto|done]).
    rewrite elem_of_app. destruct (fires t0); set_solver.
Qed.

(** * The invariant of the wheel *)

Record wheel_inv (w : SimpleTimeWheel) : Prop := {
  wi_pace : 0 < pace w;
  wi_len : Z.of_nat (length (slots w)) = slotNum w;
  wi_cur : 0 ≤ curSlot w < slotNum w;
  wi_per : perimeter w = slotNum w * pace w;
  wi_slot : ∀ i s id a, slots w !! i = Some s → s !! id = Some a →
    record w !! id = Some a ∧
    ∃ t, heap w !! a = Some t ∧ taskID t = id ∧ index t = Z.of_nat i;
  wi_record : ∀ id a, record w !! id = Some a →
    (a < next_addr w)%nat ∧
    ∃ t, heap w !! a = Some t ∧ taskID t = id ∧ 0 ≤ index t < slotNum w ∧
      slot_at w (index t) !! id = Some a;
}.

(** The trigger of a task that is on the wheel. *)
Definition task_of (w : SimpleTimeWheel) (id : string) (t : timeTrigger) : Prop :=
  ∃ a, record w !! id = Some a ∧ heap w !! a = Some t.

Lemma slot_lookup w i s : slots w !! i = Some s → slot_at w (Z.of_nat i) = s.
Proof. intros H. unfold slot_at. rewrite Nat2Z.id, H. done. Qed.

Lemma slot_at_lookup w i id a :
  slot_at w i !! id = Some a → slots w !! Z.to_nat i = Some (slot_at w i).
Proof. unfold slot_at. destruct (slots w !! Z.to_nat i); cbn; [done|]. by rewrite lookup_empty. Qed.

Lemma slot_entries_ok w i :
  wheel_inv w → entries_ok (heap w) (map_to_list (slot_at w i)).
Proof.
  intros Hw. split; [apply NoDup_fst_map_to_list|]. intros id a Hin.
  apply elem_of_map_to_list in Hin. pose proof (slot_at_lookup _ _ _ _ Hin) as Hs.
  destruct (wi_slot _ Hw _ _ _ _ Hs Hin) as (_ & t & ? & ? & _). eauto.
Qed.

(** The wheel after one tick, without the channel. *)
Definition turned (w : SimpleTimeWheel) : SimpleTimeWheel :=
  let cur := (curSlot w + 1) mod slotNum w in
  snd (checkSlot (set_slots w cur (slots w) (record w) (heap w) (next_addr w)) cur).
Definition fired (w : SimpleTimeWheel) : list string := fst (tick w).

Definition same_wheel (w w' : SimpleTimeWheel) : Prop :=
  pace w' = pace w ∧ perimeter w' = perimeter w ∧ slotNum w' = slotNum w ∧
  curSlot w' = curSlot w ∧ slots w' = slots w ∧ record w' = record w ∧
  heap w' = heap w ∧ next_addr w' = next_addr w.

Lemma tick_turned w : wheel_inv w → same_wheel (turned w) (snd (tick w)).
Proof.
  intros Hw. unfold tick, turned, checkAndFireTrigger. rewrite (wi_len _ Hw).
  destruct (checkSlot _ _) as [ready w']. cbn. unfold send_ready.
  destruct ready; [by repeat split|]. case_goal; by repeat split.
Qed.

Lemma same_wheel_inv w w' : same_wheel w w' → wheel_inv w → wheel_inv w'.
Proof.
  destruct w, w'. unfold same_wheel. cbn.
  intros (-> & -> & -> & -> & -> & -> & -> & ->) [? ? ? ? H1 H2].
  split; cbn in *; try done. 
Qed.

Lemma same_wheel_task w w' id t : same_wheel w w' → task_of w id t → task_of w' id t.
Proof.
  intros (_ & _ & _ & _ & _ & Hr & Hh & _) (a & ? & ?). exists a. by rewrite Hr, Hh.
Qed.

Lemma not_in_slot w cur id a t :
  wheel_inv w → record w !! id = Some a → heap w !! a = Some t → 0 ≤ cur → index t ≠ cur →
  (id ∉ (map_to_list (slot_at w cur)).*1) ∧ (a ∉ (map_to_list (slot_at w cur)).*2).
Proof.
  intros Hw Hr Ha Hc Hb.
  assert (Hnid : id ∉ (map_to_list (slot_at w cur)).*1).
  { intros ([i b] & -> & Hin)%list_elem_of_fmap. apply elem_of_map_to_list in Hin. cbn in *.
    pose proof (slot_at_lookup _ _ _ _ Hin) as Hsl.
    destruct (wi_slot _ Hw _ _ _ _ Hsl Hin) as (Hri & t2 & Hb2 & _ & Hi2).
    rewrite Z2Nat.id in Hi2 by done. rewrite Hr in Hri. injection Hri as <-. congruence. }
  split; [done|]. intros ([i b] & -> & Hin)%list_elem_of_fmap. cbn in *.
  destruct (wi_record _ Hw _ _ Hr) as (_ & t' & Ha' & Hid & _).
  destruct (slot_entries_ok w cur Hw) as [_ Hok].
  destruct (Hok i b Hin) as (t2 & Hb2 & Hi2). apply Hnid. apply list_elem_of_fmap.
  exists (i, b). split; [cbn; congruence|done].
Qed.

(** What a tick does to a task of the wheel. *)
Lemma tick_task w id t :
  wheel_inv w → task_of w id t →
  let w' := snd (tick w) in
  if bool_decide (index t = (curSlot w + 1) mod slotNum w)
  then (id ∈ fired w ↔ fires t = true) ∧
       (if expires t then record w' !! id = None else task_of w' id (advance t))
  else id ∉ fired w ∧ task_of w' id t.
Proof.
  intros Hw (a & Hr & Ha). destruct (wi_record _ Hw _ _ Hr) as (_ & t' & Ha' & Hid & Hix & Hs).
  rewrite Ha in Ha'. injection Ha' as <-.
  pose proof (tick_turned w Hw) as Hsame. cbn zeta.
  generalize dependent (snd (tick w)). intros w' Hsame.
  assert (Hf : fired w = fst (checkSlot (set_slots w ((curSlot w + 1) mod slotNum w) (slots w)
    (record w) (heap w) (next_addr w)) ((curSlot w + 1) mod slotNum w))).
  { unfold fired, tick, checkAndFireTrigger. rewrite (wi_len _ Hw). by destruct (checkSlot _ _). }
  rewrite Hf. unfold turned in Hsame.
  set (cur := (curSlot w + 1) mod slotNum w) in *.
  unfold checkSlot in *. cbn [fst snd] in *.
  change (slot_at (set_slots w cur (slots w) (record w) (heap w) (next_addr w)) cur)
    with (slot_at w cur) in *. cbn [heap record set_slots] in *.
  pose proof (slot_entries_ok w cur Hw) as Hok.
  destruct Hsame as (_ & _ & _ & _ & _ & Hrec & Hheap & _). cbn in Hrec, Hheap.
  unfold task_of. rewrite Hrec, Hheap.
  destruct (bool_decide (index t = cur)) eqn:Hb; breflect.
  - rewrite Hb in Hs.
    destruct (fire_loop_entry _ (mkFire (heap w) (record w) (slot_at w cur) []) id a t Hok)
      as (H1 & H2 & H3 & H4); [by apply elem_of_map_to_list|done|].
    split; [rewrite H4; cbn; set_solver|]. rewrite H2. destruct (expires t); [done|].
    exists a. rewrite ?H2, H1. done.
  - destruct (fire_loop_other _ (mkFire (heap w) (record w) (slot_at w cur) []) Hok) as [Hh Hrd].
    destruct (not_in_slot w cur id a t Hw Hr Ha) as [Hnid Hna];
      [apply Z.mod_pos_bound; pose proof (wi_cur _ Hw); lia|done|].
    destruct (Hrd id Hnid) as (H1 & H2 & H3). rewrite H3. cbn.
    split; [apply not_elem_of_nil|]. exists a. by rewrite H1, (Hh a Hna).
Qed.

Lemma advance_index t : index (advance t) = index t ∧ taskID (advance t) = taskID t.
Proof. unfold advance. by destruct (fires t). Qed.

Definition ranged (w : SimpleTimeWheel) (cur : Z) : fire_state :=
  foldl fire_one (mkFire (heap w) (record w) (slot_at w cur) []) (map_to_list (slot_at w cur)).

(** Ranging over a slot advances its own triggers and no others. *)
Lemma ranged_in w cur id a t :
  wheel_inv w → slot_at w cur !! id = Some a → heap w !! a = Some t →
  fs_heap (ranged w cur) !! a = Some (advance t) ∧
  fs_record (ranged w cur) !! id = (if expires t then None else record w !! id) ∧
  fs_slot (ranged w cur) !! id = (if expires t then None else Some a).
Proof.
  intros Hw H1 H2. rewrite <- H1.
  destruct (fire_loop_entry _ (mkFire (heap w) (record w) (slot_at w cur) []) id a t
    (slot_entries_ok w cur Hw)) as (? & ? & ? & _); [by apply elem_of_map_to_list|done|done].
Qed.

Lemma ranged_keep w cur id a t :
  wheel_inv w → 0 ≤ cur → record w !! id = Some a → heap w !! a = Some t → index t ≠ cur →
  fs_record (ranged w cur) !! id = Some a ∧ fs_heap (ranged w cur) !! a = Some t.
Proof.
  intros Hw Hc H1 H2 H3. destruct (not_in_slot w cur id a t Hw H1 H2 Hc H3) as [Hn1 Hn2].
  destruct (fire_loop_other _ (mkFire (heap w) (record w) (slot_at w cur) [])
    (slot_entries_ok w cur Hw)) as [Hh Hr].
  unfold ranged. rewrite (Hh _ Hn2). destruct (Hr _ Hn1) as [-> _]. done.
Qed.

Lemma ranged_out w cur id :
  wheel_inv w → slot_at w cur !! id = None →
  fs_slot (ranged w cur) !! id = None ∧ fs_record (ranged w cur) !! id = record w !! id.
Proof.
  intros Hw Hn. destruct (fire_loop_other _ (mkFire (heap w) (record w) (slot_at w cur) [])
    (slot_entries_ok w cur Hw)) as [_ Hr].
  destruct (Hr id) as (Hre & Hsl & _); [|by unfold ranged; rewrite Hre, Hsl].
  intros ([i b] & -> & Hx)%list_elem_of_fmap. apply elem_of_map_to_list in Hx. cbn in *. congruence.
Qed.

Section Turned.
Context (w : SimpleTimeWheel) (Hw : wheel_inv w).
Let cur : Z := (curSlot w + 1) mod slotNum w.

Lemma cur_range : 0 ≤ cur < slotNum w.
Proof. apply Z.mod_pos_bound. pose proof (wi_cur _ Hw). lia. Qed.

Lemma cur_slot : slots w !! Z.to_nat cur = Some (slot_at w cur).
Proof.
  unfold slot_at. pose proof cur_range. pose proof (wi_len _ Hw).
  destruct (lookup_lt_is_Some_2 (slots w) (Z.to_nat cur)) as [s Hs]; [lia|]. by rewrite Hs.
Qed.

Lemma turned_slot i s id a :
  <[Z.to_nat cur := fs_slot (ranged w cur)]> (slots w) !! i = Some s → s !! id = Some a →
  fs_record (ranged w cur) !! id = Some a ∧
  ∃ t, fs_heap (ranged w cur) !! a = Some t ∧ taskID t = id ∧ index t = Z.of_nat i.
Proof.
  pose proof cur_range. intros Hi Hs.
  apply list_lookup_insert_Some in Hi as [(<- & <- & _)|[Hne Hi]].
  - destruct (slot_at w cur !! id) as [b|] eqn:Hb.
    2:{ destruct (ranged_out w cur id Hw Hb). congruence. }
    destruct (wi_slot _ Hw _ _ _ _ cur_slot Hb) as (Hrb & t & Htb & Hid & Hix).
    destruct (ranged_in w cur id b t Hw Hb Htb) as (H1 & H2 & H3). rewrite H3 in Hs.
    destruct (expires t); [done|]. injection Hs as <-. rewrite H2. split; [done|].
    exists (advance t). destruct (advance_index t) as [-> ->]. done.
  - destruct (wi_slot _ Hw _ _ _ _ Hi Hs) as (Hrb & t & Htb & Hid & Hix).
    destruct (ranged_keep w cur id a t Hw) as [H1 H2]; [lia|done|done|lia|]. split; [done|].
    by exists t.
Qed.

Lemma turned_record id a :
  fs_record (ranged w cur) !! id = Some a →
  (a < next_addr w)%nat ∧ ∃ t, fs_heap (ranged w cur) !! a = Some t ∧ taskID t = id ∧
    0 ≤ index t < slotNum w ∧
    default ∅ (<[Z.to_nat cur := fs_slot (ranged w cur)]> (slots w) !! Z.to_nat (index t)) !! id
      = Some a.
Proof.
  pose proof cur_range. pose proof (wi_len _ Hw). intros Hra.
  destruct (record w !! id) as [b|] eqn:Hb.
  2:{ destruct (slot_at w cur !! id) as [b|] eqn:Hs.
      - destruct (wi_slot _ Hw _ _ _ _ cur_slot Hs) as (Hrb & _). congruence.
      - destruct (ranged_out w cur id Hw Hs). congruence. }
  destruct (wi_record _ Hw _ _ Hb) as (Hlt & t & Htb & Hid & Hix & Hsl).
  destruct (decide (index t = cur)) as [Heq|Hne].
  - rewrite Heq in Hsl. destruct (ranged_in w cur id b t Hw Hsl Htb) as (H1 & H2 & H3).
    rewrite H2 in Hra. destruct (expires t); [done|]. rewrite Hb in Hra. injection Hra as <-.
    split; [done|]. exists (advance t). destruct (advance_index t) as [-> ->].
    repeat split; try done; try lia. rewrite Heq, list_lookup_insert_eq by lia. done.
  - destruct (ranged_keep w cur id b t Hw) as [H1 H2]; [lia|done..|].
    rewrite H1 in Hra. injection Hra as <-. split; [done|]. exists t.
    repeat split; try done; try lia. rewrite list_lookup_insert_ne by lia. done.
Qed.

Lemma turned_inv : wheel_inv (turned w).
Proof.
  split; cbn -[Z.modulo]; [apply Hw|rewrite length_insert; apply Hw|apply cur_range|apply Hw|..].
  - apply turned_slot.
  - apply turned_record.
Qed.
End Turned.

Lemma tick_inv w : wheel_inv w → wheel_inv (snd (tick w)).
Proof. intros Hw. eapply same_wheel_inv; [by apply tick_turned|by apply turned_inv]. Qed.

Lemma New_inv p n : wheel_inv (NewSimpleTimeWheel p n).
Proof.
  unfold NewSimpleTimeWheel. set (p' := if p <? minPace then _ else _).
  set (n' := if n <? minSlotNum then _ else _).
  assert (0 < p') by (subst p'; unfold minPace; case_goal; breflect; unfold minPace in *; lia).
  assert (0 < n') by (subst n'; unfold minSlotNum; case_goal; breflect; unfold minSlotNum in *; lia).
  split; cbn; [done|rewrite length_replicate; lia|lia|done|..].
  - intros i s id a Hi. apply lookup_replicate in Hi as [-> _]. by rewrite lookup_empty.
  - intros id a. by rewrite lookup_empty.
Qed.

Lemma place_index w id interval tm :
  wheel_inv w → 0 ≤ index (place w id interval tm) < slotNum w.
Proof. intros Hw. cbn. apply Z.mod_pos_bound. pose proof (wi_cur _ Hw). lia. Qed.

Lemma store_slot_insert w i id a s :
  slots w !! Z.to_nat i = Some s →
  store_slot w i id a = <[Z.to_nat i := <[id := a]> s]> (slots w).
Proof.
  intros Hs. unfold store_slot. apply list_eq. intros j.
  destruct (decide (Z.to_nat i = j)) as [<-|].
  - rewrite list_lookup_alter_eq, list_lookup_insert_eq by (by eapply lookup_lt_Some).
    by rewrite Hs.
  - by rewrite list_lookup_alter_ne, list_lookup_insert_ne.
Qed.

(** A trigger put at a free address. *)
Definition put (w : SimpleTimeWheel) (id : string) (a : nat) (t : timeTrigger) (n : nat)
  : SimpleTimeWheel :=
  set_slots w (curSlot w) (store_slot w (index t) id a) (<[id := a]> (record w))
    (<[a := t]> (heap w)) n.

Lemma put_inv w id a t n :
  wheel_inv w → record w !! id = None → taskID t = id → 0 ≤ index t < slotNum w →
  (∀ x b, record w !! x = Some b → b ≠ a) → (a < n)%nat → (next_addr w ≤ n)%nat →
  wheel_inv (put w id a t n) ∧ task_of (put w id a t n) id t.
Proof.
  intros Hw Hr Htid Hix Hfree Han Hn. pose proof (wi_len _ Hw) as Hlen.
  destruct (lookup_lt_is_Some_2 (slots w) (Z.to_nat (index t))) as [s0 Hs0]; [lia|].
  split; [|exists a; cbn; by rewrite !lookup_insert_eq].
  unfold put. rewrite (store_slot_insert _ _ _ _ _ Hs0).
  split; cbn; [apply Hw|by rewrite length_insert|apply Hw|apply Hw|..].
  - intros i s x b Hi Hs.
    assert (Hcase : (x = id ∧ b = a ∧ i = Z.to_nat (index t)) ∨
      (x ≠ id ∧ ∃ s', slots w !! i = Some s' ∧ s' !! x = Some b)).
    { apply list_lookup_insert_Some in Hi as [(<- & <- & _)|[Hne Hi]].
      - apply lookup_insert_Some in Hs as [[<- <-]|[Hne Hs]]; [by left|right; split; [done|eauto]].
      - right. split; [|eauto]. intros ->. destruct (wi_slot _ Hw _ _ _ _ Hi Hs). congruence. }
    destruct Hcase as [(-> & -> & ->)|(Hne & s' & Hs' & Hx)].
    + rewrite !lookup_insert_eq. split; [done|]. exists t. repeat split; lia || done.
    + destruct (wi_slot _ Hw _ _ _ _ Hs' Hx) as (Hrx & tx & Htx & ? & ?).
      rewrite lookup_insert_ne by done. split; [done|]. exists tx.
      rewrite lookup_insert_ne by (symmetry; by eapply Hfree). done.
  - intros x b. rewrite lookup_insert_Some. intros [[<- <-]|[Hne Hx]].
    + split; [lia|]. exists t. rewrite lookup_insert_eq. repeat split; try done; try lia.
      unfold slot_at. cbn. rewrite list_lookup_insert_eq by lia. cbn. by rewrite lookup_insert_eq.
    + destruct (wi_record _ Hw _ _ Hx) as (Hlt & tx & Htx & ? & ? & Hsx). split; [lia|].
      exists tx. rewrite lookup_insert_ne by (symmetry; by eapply Hfree).
      repeat split; try done; try lia.
      unfold slot_at in *. cbn. destruct (decide (index tx = index t)) as [Heq|].
      * rewrite Heq in *. rewrite list_lookup_insert_eq by lia. rewrite Hs0 in Hsx. cbn in *.
        by rewrite lookup_insert_ne.
      * by rewrite list_lookup_insert_ne by lia.
Qed.

Lemma AddTask_inv w id interval tm w' :
  wheel_inv w → AddTask w id interval tm = Ok w' →
  wheel_inv w' ∧ task_of w' id (place w id interval tm).
Proof.
  intros Hw. unfold AddTask. case_goal; [done|].
  destruct (record w !! id) eqn:Hr; [done|]. intros Heq. apply Ok_inj in Heq as <-.
  apply put_inv; [done|done|done|by apply place_index| |lia|lia].
  intros x b Hx. destruct (wi_record _ Hw _ _ Hx) as [? _]. lia.
Qed.

Lemma drop_slot_lookup w i id j :
  alter (delete id) (Z.to_nat i) (slots w) !! j =
  (if decide (j = Z.to_nat i) then delete id <$> slots w !! j else slots w !! j).
Proof.
  case_decide as Hj; [subst; apply list_lookup_alter_eq|by rewrite list_lookup_alter_ne].
Qed.

Lemma DelTask_inv w id :
  wheel_inv w → wheel_inv (DelTask w id) ∧ record (DelTask w id) !! id = None.
Proof.
  intros Hw. unfold DelTask. destruct (record w !! id) as [a|] eqn:Hr; [|done].
  destruct (wi_record _ Hw _ _ Hr) as (_ & t & Ht & Hid & Hix & Hsl). rewrite Ht.
  split; [|cbn; apply lookup_delete_eq].
  split; cbn; [apply Hw|rewrite length_alter; apply Hw|apply Hw|apply Hw|..].
  - intros i s x b Hi Hs. rewrite drop_slot_lookup in Hi.
    assert (Hold : x ≠ id ∧ ∃ s', slots w !! i = Some s' ∧ s' !! x = Some b).
    { case_decide as Hi'.
      - destruct (slots w !! i) as [s'|]; [|done]. injection Hi as <-.
        apply lookup_delete_Some in Hs as [? ?]. eauto.
      - split; [|eauto]. intros ->. destruct (wi_slot _ Hw _ _ _ _ Hi Hs) as (? & t' & ? & _ & ?).
        simplify_eq. lia. }
    destruct Hold as (Hne & s' & Hs' & Hx). rewrite lookup_delete_ne by done.
    by eapply (wi_slot _ Hw).
  - intros x b Hx. apply lookup_delete_Some in Hx as [Hne Hx].
    destruct (wi_record _ Hw _ _ Hx) as (Hlt & tx & Htx & ? & ? & Hsx). split; [done|].
    exists tx. repeat split; try done; try lia. unfold slot_at in *. cbn.
    rewrite drop_slot_lookup. case_decide; [|done].
    destruct (slots w !! Z.to_nat (index tx)); cbn in *; [by rewrite lookup_delete_ne|done].
Qed.

Lemma UpdateTask_inv w id interval tm w' :
  wheel_inv w → UpdateTask w id interval tm = Ok w' →
  wheel_inv w' ∧ task_of w' id (place w id interval tm).
Proof.
  intros Hw. unfold UpdateTask. destruct (record w !! id) as [a|] eqn:Hr; [|by apply AddTask_inv].
  destruct (wi_record _ Hw _ _ Hr) as (Hlt & t & Ht & Hid & Hix & Hsl). rewrite Ht.
  intros Heq. apply Ok_inj in Heq as <-. rewrite Hid.
  destruct (DelTask_inv w id Hw) as [Hd Hdn]. pose proof Hd as Hd'.
  assert (Hdel : DelTask w id = set_slots w (curSlot w)
    (alter (delete id) (Z.to_nat (index t)) (slots w)) (delete id (record w)) (heap w) (next_addr w)).
  { unfold DelTask. by rewrite Hr, Ht. }
  rewrite Hdel in Hd, Hdn.
  assert (Hput : wheel_inv (put (DelTask w id) id a (place w id interval tm) (next_addr w)) ∧
    task_of (put (DelTask w id) id a (place w id interval tm) (next_addr w)) id
      (place w id interval tm)).
  { rewrite Hdel.
    apply put_inv; [done|done|done|exact (place_index w id interval tm Hw)| |done|done].
    intros x b Hx -> . cbn in Hx. apply lookup_delete_Some in Hx as [Hne Hx].
    destruct (wi_record _ Hw _ _ Hx) as (_ & tx & Htx & ? & _). congruence. }
  rewrite Hdel in Hput. unfold put in Hput. cbn in Hput.
  rewrite (insert_delete_id _ _ _ Hr) in Hput. exact Hput.
Qed.

(** * When a task fires *)

Fixpoint ticks (k : nat) (w : SimpleTimeWheel) : SimpleTimeWheel :=
  match k with O => w | S k => ticks k (snd (tick w)) end.

Lemma ticks_inv k w : wheel_inv w → wheel_inv (ticks k w).
Proof. revert w; induction k as [|k IH]; intros w Hw; [done|]. cbn. by apply IH, tick_inv. Qed.

Lemma ticks_S k w : ticks (S k) w = snd (tick (ticks k w)).
Proof. revert w; induction k as [|k IH]; intros w; [done|]. cbn [ticks] in *. apply IH. Qed.

Lemma tick_params w :
  wheel_inv w →
  slotNum (snd (tick w)) = slotNum w ∧ pace (snd (tick w)) = pace w ∧
  curSlot (snd (tick w)) = (curSlot w + 1) mod slotNum w.
Proof. intros Hw. destruct (tick_turned w Hw) as (? & ? & ? & ? & _). done. Qed.

Lemma ticks_cur k w :
  wheel_inv w →
  slotNum (ticks k w) = slotNum w ∧
  curSlot (ticks k w) = (curSlot w + Z.of_nat k) mod slotNum w.
Proof.
  intros Hw. pose proof (wi_cur _ Hw). induction k as [|k [IH1 IH2]].
  - split; [done|]. cbn [ticks]. rewrite Z.mod_small; lia.
  - rewrite ticks_S. destruct (tick_params _ (ticks_inv k w Hw)) as (H1 & _ & H2).
    rewrite H1, H2, IH1, IH2. split; [done|]. rewrite Zplus_mod_idemp_l. f_equal. lia.
Qed.

(** The number of ticks until the trigger [t] of a wheel at slot [cur] fires. *)
Definition due (S cur : Z) (t : timeTrigger) : Z :=
  (index t - cur - 1) mod S + 1 + (circle t - circleCount t) * S.

Lemma due_step S cur t :
  0 < S → 0 ≤ index t < S → 0 ≤ cur < S →
  index t ≠ (cur + 1) mod S → due S ((cur + 1) mod S) t = due S cur t - 1.
Proof.
  intros HS Hi Hc Hne. unfold due.
  assert (Hm : (index t - (cur + 1) mod S - 1) mod S = (index t - cur - 1) mod S - 1); [|lia].
  destruct (Z.eq_dec (cur + 1) S) as [He|He].
  - rewrite He, Z_mod_same_full in *. rewrite Z.sub_0_r.
    rewrite (Z.mod_small (index t - 1)) by lia.
    replace (index t - cur - 1) with (index t + (-1) * S) by lia.
    rewrite Z_mod_plus_full, Z.mod_small; lia.
  - rewrite (Z.mod_small (cur + 1)) in * by lia.
    destruct (Z_lt_le_dec cur (index t)).
    + rewrite !Z.mod_small by lia. lia.
    + replace (index t - (cur + 1) - 1) with (index t - cur - 2 + S + (-1) * S) by lia.
      replace (index t - cur - 1) with (index t - cur - 1 + S + (-1) * S) by lia.
      rewrite !Z_mod_plus_full, !Z.mod_small by lia. lia.
Qed.

Lemma due_visit S cur t :
  0 < S → 0 ≤ index t < S → 0 ≤ cur < S → index t = (cur + 1) mod S →
  due S cur t = 1 + (circle t - circleCount t) * S.
Proof.
  intros HS Hi Hc He. unfold due. rewrite He.
  replace (((cur + 1) mod S - cur - 1) mod S) with 0; [lia|].
  rewrite <- Z.sub_add_distr, <- Zminus_mod_idemp_l, Zmod_mod, Zminus_mod_idemp_l, Z.sub_diag. done.
Qed.

Lemma due_revolution S cur t t' :
  0 < S → 0 ≤ index t < S → 0 ≤ cur < S → index t = (cur + 1) mod S → index t' = index t →
  due S ((cur + 1) mod S) t' = S + (circle t' - circleCount t') * S.
Proof.
  intros HS Hi Hc He Hi'. unfold due. rewrite Hi', <- He.
  replace ((index t - index t - 1) mod S) with (S - 1); [lia|].
  rewrite Z.sub_diag. change (0 - 1) with (-1).
  replace (-1) with (S - 1 + (-1) * S) by lia. rewrite Z_mod_plus_full, Z.mod_small; lia.
Qed.

(** A task that is not yet due waits one tick; a due one fires. *)
Lemma tick_due w id t :
  wheel_inv w → task_of w id t → 0 ≤ index t < slotNum w → circleCount t ≤ circle t →
  let w' := snd (tick w) in
  if due (slotNum w) (curSlot w) t =? 1
  then id ∈ fired w ∧ (if expires t then record w' !! id = None else task_of w' id (advance t))
       ∧ fires t = true
  else id ∉ fired w ∧ ∃ t', task_of w' id t' ∧ index t' = index t ∧ circle t' = circle t ∧
       times t' = times t ∧ circleCount t ≤ circleCount t' ≤ circle t' ∧
       due (slotNum w) (curSlot w') t' = due (slotNum w) (curSlot w) t - 1.
Proof.
  intros Hw Ht Hix Hcc. cbn zeta. pose proof (wi_cur _ Hw) as Hc.
  pose proof (tick_task w id t Hw Ht) as Hk. cbn zeta in Hk.
  destruct (tick_params w Hw) as (_ & _ & Hcur). rewrite Hcur.
  destruct (bool_decide (index t = _)) eqn:Hb; breflect.
  - pose proof (due_visit (slotNum w) (curSlot w) t ltac:(lia) Hix Hc Hb) as Hd.
    destruct Hk as [Hf Hk]. destruct (due _ _ t =? 1) eqn:He; breflect.
    + assert (fires t = true) as Hft by (unfold fires; apply Z.eqb_eq; nia).
      split; [by apply Hf|]. done.
    + assert (fires t = false) as Hft by (unfold fires; apply Z.eqb_neq; nia).
      split; [rewrite Hf, Hft; done|].
      unfold expires, advance in Hk. rewrite Hft in Hk. cbn in Hk. eexists. split; [exact Hk|]. cbn.
      do 3 (split; [done|]). unfold fires in Hft. breflect. split; [lia|].
      rewrite (due_revolution _ _ t); cbn; [|lia|done|done|done|done]. rewrite Hd. lia.
  - destruct Hk as [Hf Hk].
    pose proof (due_step (slotNum w) (curSlot w) t ltac:(lia) Hix Hc Hb) as Hd.
    destruct (due _ _ t =? 1) eqn:He; breflect.
    + exfalso. unfold due in He. pose proof (Z.mod_pos_bound (index t - curSlot w - 1) (slotNum w)).
      assert ((index t - curSlot w - 1) mod slotNum w = 0) as Hz by nia.
      apply Hb. apply Z.mod_divide in Hz as [q Hq]; [|lia].
      replace (curSlot w + 1) with (index t + (- q) * slotNum w) by lia.
      rewrite Z_mod_plus_full, Z.mod_small; lia.
    + split; [done|]. exists t. do 4 (split; [done|]). split; [lia|done].
Qed.

Lemma tick_absent w id :
  wheel_inv w → record w !! id = None →
  id ∉ fired w ∧ record (snd (tick w)) !! id = None.
Proof.
  intros Hw Hr. destruct (tick_turned w Hw) as (_ & _ & _ & _ & _ & Hrec & _). rewrite Hrec.
  assert (Hs : slot_at w ((curSlot w + 1) mod slotNum w) !! id = None).
  { destruct (slot_at w _ !! id) as [b|] eqn:Hb; [|done].
    destruct (wi_slot _ Hw _ _ _ _ (cur_slot w Hw) Hb) as (? & _). congruence. }
  split.
  - unfold fired, tick, checkAndFireTrigger. rewrite (wi_len _ Hw).
    destruct (fire_loop_other _ (mkFire (heap w) (record w)
      (slot_at w ((curSlot w + 1) mod slotNum w)) [])
      (slot_entries_ok w ((curSlot w + 1) mod slotNum w) Hw)) as [_ Hrd].
    destruct (Hrd id) as (_ & _ & Hin).
    { intros ([i b] & -> & Hx)%list_elem_of_fmap. apply elem_of_map_to_list in Hx. cbn in *. congruence. }
    cbn. rewrite Hin. apply not_elem_of_nil.
  - destruct (ranged_out w ((curSlot w + 1) mod slotNum w) id Hw Hs) as [_ Hro].
    rewrite <- Hr, <- Hro. done.
Qed.

Lemma ticks_absent k w id :
  wheel_inv w → record w !! id = None → id ∉ fired (ticks k w).
Proof.
  revert w. induction k as [|k IH]; intros w Hw Hr; [by apply tick_absent|].
  cbn. apply IH; [by apply tick_inv|by apply tick_absent].
Qed.

(** The shots a task has left: [times] more after the next one, or no end. *)
Definition shot (times j : Z) : Prop := 0 ≤ j ∧ (times < 0 ∨ j ≤ times).

Lemma schedule k w id t :
  wheel_inv w → task_of w id t → 0 ≤ index t < slotNum w →
  circleCount t ≤ circle t → 1 ≤ circle t →
  id ∈ fired (ticks k w) ↔
  ∃ j, shot (times t) j ∧
    Z.of_nat k + 1 = due (slotNum w) (curSlot w) t + j * (circle t * slotNum w).
Proof.
  revert w t. induction k as [|k IH]; intros w t Hw Ht Hix Hcc Hc1;
    assert (HP : 0 < circle t * slotNum w) by (pose proof (wi_cur _ Hw); nia).
  - pose proof (wi_cur _ Hw) as Hc. pose proof (tick_due w id t Hw Ht Hix Hcc) as Hd. cbn zeta in Hd.
    assert (1 ≤ due (slotNum w) (curSlot w) t).
    { unfold due. pose proof (Z.mod_pos_bound (index t - curSlot w - 1) (slotNum w)). nia. }
    cbn [ticks]. destruct (due _ _ t =? 1) eqn:He; breflect.
    + split; [|by intros _; apply Hd]. intros _. exists 0. unfold shot. lia.
    + split; [intros Hin; by destruct Hd|]. intros (j & [? ?] & ?). nia.
  - pose proof (wi_cur _ Hw) as Hc. pose proof (tick_due w id t Hw Ht Hix Hcc) as Hd. cbn zeta in Hd.
    destruct (tick_params w Hw) as (Hsn & _ & Hcur). cbn [ticks].
    destruct (due _ _ t =? 1) eqn:He; breflect.
    + destruct Hd as (_ & Hd & Hf). destruct (expires t) eqn:Hx.
      * split; [intros Hin; by apply ticks_absent in Hin; [|apply tick_inv|]|].
        unfold expires in Hx. apply andb_true_iff in Hx as [_ Hx]. breflect.
        intros (j & [? ?] & ?). nia.
      * pose proof (advance_index t) as [Hi' _].
        assert (Hadv : circle (advance t) = circle t ∧ circleCount (advance t) = 1 ∧
          times (advance t) = if 0 <? times t then times t - 1 else times t)
          by (unfold advance; by rewrite Hf). destruct Hadv as (Ha1 & Ha2 & Ha3).
        assert (Hvis : index t = (curSlot w + 1) mod slotNum w).
        { destruct (decide (index t = (curSlot w + 1) mod slotNum w)) as [|Hne]; [done|].
          pose proof (due_step (slotNum w) (curSlot w) t ltac:(lia) Hix Hc Hne) as Hs.
          unfold due in Hs at 1. rewrite He in Hs.
          pose proof (Z.mod_pos_bound (index t - (curSlot w + 1) mod slotNum w - 1) (slotNum w)). nia. }
        rewrite (IH _ (advance t)); rewrite ?Hi', ?Hsn, ?Ha1, ?Ha2; try done; [|by apply tick_inv].
        rewrite Hcur, (due_revolution _ _ t); [|lia|done|done|done|done]. rewrite Ha1, Ha2, Ha3, He.
        unfold expires in Hx. rewrite Hf in Hx. cbn in Hx. breflect. unfold shot.
        split; intros (j & [Hj1 Hj2] & Hj); [exists (j + 1)|exists (j - 1)];
          destruct (0 <? times t) eqn:Htm; breflect; nia.
    + destruct Hd as (_ & t' & Ht' & Hi' & Hci & Htm & [_ Hcc'] & Hdue).
      rewrite (IH _ t'); rewrite ?Hi', ?Hsn, ?Hci; try done; [|by apply tick_inv|lia].
      rewrite Htm, Hdue. split; intros (j & Hj1 & Hj); exists j; (split; [done|lia]).
Qed.

Lemma place_due w id interval tm :
  wheel_inv w →
  due (slotNum w) (curSlot w) (place w id interval tm) = interval / pace w + 1.
Proof.
  intros Hw. pose proof (wi_cur _ Hw). unfold due, place. cbn.
  set (X := interval / pace w + curSlot w + 1).
  pose proof (Z.div_mod X (slotNum w) ltac:(lia)) as HX.
  pose proof (Z.mod_pos_bound X (slotNum w) ltac:(lia)).
  destruct (curSlot w <? X mod slotNum w) eqn:Hlt; breflect.
  - rewrite (Z.mod_small (X mod slotNum w - curSlot w - 1)) by lia. lia.
  - replace (X mod slotNum w - curSlot w - 1)
      with (X mod slotNum w - curSlot w - 1 + slotNum w + (-1) * slotNum w) by lia.
    rewrite Z_mod_plus_full, Z.mod_small by lia. lia.
Qed.

Lemma place_circle w id interval tm :
  wheel_inv w → perimeter w ≤ interval →
  1 ≤ circle (place w id interval tm) ∧
  circleCount (place w id interval tm) ≤ circle (place w id interval tm).
Proof.
  intros Hw Hp. pose proof (wi_cur _ Hw). pose proof (wi_pace _ Hw). rewrite (wi_per _ Hw) in Hp.
  assert (slotNum w ≤ interval / pace w) by (apply Z.div_le_lower_bound; lia).
  assert (1 ≤ circle (place w id interval tm)) by (cbn; apply Z.div_le_lower_bound; lia).
  split; [done|]. cbn in *. case_goal; lia.
Qed.

(** * Reachable wheels *)

Inductive wheel_op : Type :=
| WAdd (id : string) (interval times : Z)
| WDel (id : string)
| WUpdate (id : string) (interval times : Z)
| WTick
| WWait.

Definition wheel_step (w : SimpleTimeWheel) (o : wheel_op) : SimpleTimeWheel :=
  match o with
  | WAdd id i n => match AddTask w id i n with Ok w' => w' | Err _ => w end
  | WDel id => DelTask w id
  | WUpdate id i n => match UpdateTask w id i n with Ok w' => w' | Err _ => w end
  | WTick => snd (tick w)
  | WWait => match Wait w with Some (_, _, w') => w' | None => w end
  end.

Definition wheel_run (p n : Z) (ops : list wheel_op) : SimpleTimeWheel :=
  foldl wheel_step (NewSimpleTimeWheel p n) ops.

Lemma wheel_run_inv p n ops : wheel_inv (wheel_run p n ops).
Proof.
  unfold wheel_run. generalize (New_inv p n). generalize (NewSimpleTimeWheel p n).
  induction ops as [|o ops IH]; intros w Hw; [done|]. cbn. apply IH.
  destruct o as [id i m|id|id i m| |]; cbn [wheel_step].
  - destruct (AddTask w id i m) eqn:Ha; [by eapply AddTask_inv|done].
  - by apply DelTask_inv.
  - destruct (UpdateTask w id i m) eqn:Ha; [by eapply UpdateTask_inv|done].
  - by apply tick_inv.
  - unfold Wait. destruct (readyCh w); [done|]. by apply (same_wheel_inv w).
Qed.

(** The schedule of a task: on a wheel in any reachable state, a task added
    with [times] fires for the first time at tick [interval / pace + 1] and then
    every [circle] revolutions, [times + 1] times in all and without end when
    [times] is negative; at no other tick is it in the ready list. *)
Theorem task_schedule p n ops id interval times w k :
  let w0 := wheel_run p n ops in
  AddTask w0 id interval times = Ok w →
  id ∈ fired (ticks k w) ↔
  ∃ j, shot times j ∧
    Z.of_nat k + 1 = interval / pace w0 + 1
      + j * ((interval / pace w0 + curSlot w0 + 1) / slotNum w0 * slotNum w0).
Proof.
  intros w0 Ha. pose proof (wheel_run_inv p n ops : wheel_inv w0) as Hw.
  destruct (AddTask_inv w0 id interval times w Hw Ha) as [Hw' Ht].
  unfold AddTask in Ha. destruct (interval <? perimeter w0) eqn:Hp; [done|]. breflect.
  destruct (record w0 !! id); [done|]. apply Ok_inj in Ha.
  assert (Hsn : slotNum w = slotNum w0 ∧ curSlot w = curSlot w0) by (by subst w).
  destruct Hsn as [Hsn Hcu]. destruct (place_circle w0 id interval times Hw Hp) as [Hc1 Hcc].
  rewrite (schedule k w id _ Hw' Ht); [|rewrite Hsn; by apply place_index|done|done].
  rewrite Hsn, Hcu, (place_due w0 id interval times Hw). done.
Qed.

Lemma task_schedule_witness :
  let w0 := wheel_run 2000000 4 [WTick] in
  ∃ w, AddTask w0 "lease" 8000000 1 = Ok w ∧ "lease" ∈ fired (ticks 4 w).
Proof.
  eexists. split; [vm_compute; reflexivity|].
  apply (task_schedule 2000000 4 [WTick] "lease" 8000000 1 _ 4); [vm_compute; reflexivity|].
  exists 0. split; [split; [lia|right; lia]|]. vm_compute. reflexivity.
Defined.

(** With [times = 1] the task fires twice, and the second shot is a revolution
    count away, not the interval. *)
Example two_shots :
  match AddTask (NewSimpleTimeWheel 2000000 4) "t" 8000000 1 with
  | Ok w => (λ k, bool_decide ("t" ∈ fired (ticks k w))) <$> seq 0 14
  | Err _ => []
  end = [false; false; false; false; true; false; false; false; true;
         false; false; false; false; false].
Proof. vm_compute. reflexivity. Qed.

Lemma stalled k w id t :
  wheel_inv w → task_of w id t → circle t < circleCount t → id ∉ fired (ticks k w).
Proof.
  revert w t. induction k as [|k IH]; intros w t Hw Ht Hlt;
    pose proof (tick_task w id t Hw Ht) as Hk; cbn zeta in Hk;
    assert (Hf : fires t = false) by (unfold fires; apply Z.eqb_neq; lia);
    destruct (bool_decide _) eqn:Hb; destruct Hk as [Hin Hk]; cbn [ticks].
  - rewrite Hin, Hf. done.
  - done.
  - unfold expires, advance in Hk. rewrite Hf in Hk. cbn in Hk.
    eapply IH; [by apply tick_inv|exact Hk|]. cbn. lia.
  - eapply IH; [by apply tick_inv|exact Hk|done].
Qed.

Lemma one_shot m w id t k :
  wheel_inv w → task_of w id t → circle t = 0 → circleCount t = 0 →
  0 ≤ index t < slotNum w → due (slotNum w) (curSlot w) t = Z.of_nat m + 1 →
  id ∈ fired (ticks k w) ↔ k = m.
Proof.
  revert w t k. induction m as [|m IH]; intros w t k Hw Ht H1 H2 Hix Hd;
    pose proof (tick_due w id t Hw Ht Hix ltac:(lia)) as Hk; cbn zeta in Hk; rewrite Hd in Hk.
  - destruct Hk as (Hin & Hk & Hf). destruct k as [|k]; [done|]. split; [|done]. cbn [ticks].
    intros Hin'. exfalso. revert Hin'. destruct (expires t) eqn:Hx.
    + apply ticks_absent; [by apply tick_inv|done].
    + eapply stalled; [by apply tick_inv|exact Hk|]. unfold advance. rewrite Hf. cbn. lia.
  - rewrite (proj2 (Z.eqb_neq _ _)) in Hk by lia.
    destruct Hk as (Hin & t' & Ht' & Hi' & Hc' & _ & Hcc & Hdue).
    destruct (tick_params w Hw) as (Hsn & _ & _).
    destruct k as [|k]; [done|]. cbn [ticks].
    rewrite (IH _ t'); [split; lia|by apply tick_inv|done|congruence|lia|lia|].
    rewrite Hsn. lia.
Qed.

(** [UpdateTask] has no check of the interval: given one so short that the
    task lands ahead on the current revolution, the task fires once, at tick
    [interval / pace + 1], and never again, whatever [times] asks for. *)
Theorem update_short_interval p n ops id interval times w :
  let w0 := wheel_run p n ops in
  is_Some (record w0 !! id) → 0 ≤ interval →
  interval / pace w0 + curSlot w0 + 1 < slotNum w0 →
  UpdateTask w0 id interval times = Ok w →
  ∀ k, id ∈ fired (ticks k w) ↔ Z.of_nat k = interval / pace w0.
Proof.
  intros w0 [a Hr] Hi Hshort Hu. pose proof (wheel_run_inv p n ops : wheel_inv w0) as Hw.
  destruct (UpdateTask_inv w0 id interval times w Hw Hu) as [Hw' Ht].
  pose proof (wi_cur _ Hw) as Hc. pose proof (wi_pace _ Hw) as Hpc.
  assert (Hsn : slotNum w = slotNum w0 ∧ curSlot w = curSlot w0).
  { unfold UpdateTask in Hu. rewrite Hr in Hu.
    destruct (wi_record _ Hw _ _ Hr) as (_ & t & Hta & _). rewrite Hta in Hu.
    apply Ok_inj in Hu. by subst w. }
  destruct Hsn as [Hsn Hcu]. pose proof (place_due w0 id interval times Hw) as Hd.
  assert (0 ≤ interval / pace w0) by (apply Z.div_pos; lia).
  set (t := place w0 id interval times) in *.
  assert (Ht0 : circle t = 0 ∧ circleCount t = 0).
  { subst t. cbn. rewrite Z.div_small by lia. rewrite Z.mod_small by lia.
    split; [done|]. by rewrite (proj2 (Z.ltb_lt _ _)) by lia. }
  assert (Hix : 0 ≤ index t < slotNum w) by (rewrite Hsn; by apply place_index).
  rewrite <- Hsn, <- Hcu in Hd. clearbody t. clear Hu.
  intros k. rewrite (one_shot (Z.to_nat (interval / pace w0)) w id t k); try done; [lia|tauto|tauto|lia].
Qed.

Lemma update_short_interval_witness :
  let w0 := wheel_run 2000000 4 [WAdd "t" 8000000 (-1)] in
  ∃ w, UpdateTask w0 "t" 2000000 (-1) = Ok w ∧
    "t" ∈ fired (ticks 1 w) ∧ "t" ∉ fired (ticks 1000 w).
Proof.
  eexists. split; [vm_compute; reflexivity|].
  split; [|intros Hin; revert Hin];
    rewrite (update_short_interval 2000000 4 [WAdd "t" 8000000 (-1)] "t" 2000000 (-1));
    try (vm_compute; reflexivity || discriminate || eauto).
Defined.
