(* ===== verification/AliasRoute.v ===== *)
(** Alias routing of [aliasroute/alias.go] and [aliasroute/expression.go]: an
    alias of a function stands for a weighted split between versions, or for
    rules on request parameters that choose between a default and a gray
    version.

    Weights are float64 and are taken as [spec_float] of the Standard Library,
    with the rounding multiplication of IEEE 754 double precision. JSON decoding
    of alias documents is a parameter. *)

From Stdlib Require Import SpecFloat.
From S2P Require Import Prelude GoStrings Urn.
From S2P Require RoundRobin.

(** * Rule expressions *)

Record Expression : Type := mkExpression {
  leftVal : string;
  operator : string;
  rightVal : string;
}.

(** [None] is the error of [strconv.Atoi]. *)
Definition compareIntegerStrings (a b : string) : option comparison :=
  match Atoi a with
  | None => None
  | Some numA =>
      match Atoi b with
      | None => None
      | Some numB => Some (numA ?= numB)%Z
      end
  end.

Definition matchStr (str targetStr : string) : bool :=
  existsb (λ tar, negb (bool_decide (tar = "")) && bool_decide (TrimSpace str = TrimSpace tar))
          (Split targetStr ",").

Definition Execute (exp : Expression) (params : gmap string string) : bool :=
  match params !! leftVal exp with
  | None => false
  | Some val =>
      let cmp := compareIntegerStrings val (rightVal exp) in
      if bool_decide (operator exp = "=") then bool_decide (TrimSpace val = TrimSpace (rightVal exp))
      else if bool_decide (operator exp = "!=")
        then negb (bool_decide (TrimSpace val = TrimSpace (rightVal exp)))
      else if bool_decide (operator exp = ">") then match cmp with Some Gt => true | _ => false end
      else if bool_decide (operator exp = "<") then match cmp with Some Lt => true | _ => false end
      else if bool_decide (operator exp = ">=")
        then match cmp with Some Gt | Some Eq => true | _ => false end
      else if bool_decide (operator exp = "<=")
        then match cmp with Some Lt | Some Eq => true | _ => false end
      else if bool_decide (operator exp = "in") then matchStr val (rightVal exp)
      else false
  end.

(** * Alias elements *)

(** A nil slice is [None]: [reflect.DeepEqual] tells it from an empty one. *)
Record routingRules : Type := mkRules {
  RuleLogic : string;
  Rules : option (list string);
  GrayVersion : string;
}.

#[global] Instance routingRules_eq_dec : EqDecision routingRules.
Proof. solve_decision. Defined.

Record routingConfig : Type := mkConfig {
  rc_FunctionVersionURN : string;
  rc_Weight : spec_float;
}.

Record AliasElement : Type := mkAlias {
  lb : RoundRobin.WNGINX string;
  AliasURN : string;
  ae_FunctionURN : string;
  FunctionVersionURN : string;
  ae_Name : string;
  FunctionVersion : string;
  RevisionID : string;
  Description : string;
  RoutingType : string;
  RoutingRules : routingRules;
  RoutingConfigs : list routingConfig;
}.

Definition with_lb (a : AliasElement) (l : RoundRobin.WNGINX string) : AliasElement :=
  mkAlias l (AliasURN a) (ae_FunctionURN a) (FunctionVersionURN a) (ae_Name a)
    (FunctionVersion a) (RevisionID a) (Description a) (RoutingType a) (RoutingRules a)
    (RoutingConfigs a).

Definition routingTypeRule : string := "rule".

(** ** Weights *)

Definition f_zero : spec_float := S754_zero false.
Definition f_100 : spec_float := S754_finite false 7036874417766400 (-46).

Definition f_leb (x y : spec_float) : bool :=
  match SFcompare x y with Some Lt | Some Eq => true | _ => false end.
Definition f_gtb (x y : spec_float) : bool :=
  match SFcompare x y with Some Gt => true | _ => false end.

(** Go's [int(x)]: truncation toward zero. *)
Definition f_trunc (x : spec_float) : Z :=
  match x with
  | S754_finite s m e =>
      let v := if (0 <=? e)%Z then (Z.pos m * 2 ^ e)%Z else (Z.pos m / 2 ^ (- e))%Z in
      if s then (- v)%Z else v
  | _ => 0%Z
  end.

(** [int(v.Weight * weightRatio)] *)
Definition int_weight (w : spec_float) : Z := f_trunc (SFmul 53 1024 w f_100).

Definition resetRR (a : AliasElement) : AliasElement :=
  with_lb a (foldl (λ l c, RoundRobin.Add l (rc_FunctionVersionURN c) (int_weight (rc_Weight c)))
               (RoundRobin.RemoveAll (lb a)) (RoutingConfigs a)).

Definition getFuncVersionURN (a : AliasElement) : string * AliasElement :=
  let '(r, l) := RoundRobin.Next (lb a) in (default "" r, with_lb a l).

(** [appendURN] over the candidates in order. *)
Definition append_urn (result : list string) (urn : string) : list string :=
  if bool_decide (urn = "") then result
  else if bool_decide (urn ∈ result) then result
  else result ++ [urn].

Definition getCandidateFuncVersionURNs (a : AliasElement) : list string :=
  let result := append_urn [] (FunctionVersionURN a) in
  if bool_decide (RoutingType a = routingTypeRule)
  then append_urn result (GrayVersion (RoutingRules a))
  else foldl (λ r c, if f_leb (rc_Weight c) f_zero then r
                     else append_urn r (rc_FunctionVersionURN c)) result (RoutingConfigs a).

Fixpoint parseRules (rules : list string) : res string (list Expression) :=
  match rules with
  | [] => Ok []
  | value :: rules =>
      match Split value ":" with
      | [l; o; r] =>
          match parseRules rules with
          | Ok es => Ok (mkExpression l o r :: es)
          | Err e => Err e
          end
      | _ => Err value
      end
  end.

(** The loops of [isMatch] start from the first result and fold all of them. *)
Definition isMatch (results : list bool) (ruleLogic : string) : bool :=
  match results with
  | [] => false
  | [r] => r
  | r :: _ =>
      if bool_decide (ruleLogic = "or") then foldl orb r results
      else if bool_decide (ruleLogic = "and") then foldl andb r results
      else false
  end.

Definition matchRule (params : gmap string string) (es : list Expression) (ruleLogic : string)
  : bool :=
  match (λ e, Execute e params) <$> es with
  | [] => false
  | results => isMatch results ruleLogic
  end.

Definition getFuncVersionURNByRule (a : AliasElement) (params : gmap string string) : string :=
  if bool_decide (params = ∅) then FunctionVersionURN a
  else match default [] (Rules (RoutingRules a)) with
  | [] => FunctionVersionURN a
  | rules =>
      match parseRules rules with
      | Err _ => FunctionVersionURN a
      | Ok es =>
          if matchRule params es (RuleLogic (RoutingRules a))
          then GrayVersion (RoutingRules a) else FunctionVersionURN a
      end
  end.

Definition elementURNWithParams (a : AliasElement) (params : gmap string string)
  : string * AliasElement :=
  if bool_decide (RoutingType a = routingTypeRule) then (getFuncVersionURNByRule a params, a)
  else getFuncVersionURN a.

(** [aliasUpdate] copies everything but the balancer. *)
Definition aliasUpdate (dest src : AliasElement) : AliasElement := with_lb src (lb dest).

(** * The alias map *)

Abbreviation Aliases := (gmap string AliasElement).

Definition AddAlias (m : Aliases) (alias : AliasElement) : Aliases :=
  match m !! AliasURN alias with
  | None => <[AliasURN alias := resetRR (with_lb alias (RoundRobin.mkWNGINX []))]> m
  | Some existAlias => <[AliasURN alias := resetRR (aliasUpdate existAlias alias)]> m
  end.

Definition RemoveAlias (m : Aliases) (aliasURN : string) : Aliases := delete aliasURN m.

Definition GetFuncURNFromAlias (m : Aliases) (urn : string) : string * Aliases :=
  match m !! urn with
  | None => (urn, m)
  | Some a => let '(r, a') := getFuncVersionURN a in (r, <[urn := a']> m)
  end.

Definition GetCandidateFuncVersionURNsFromAlias (m : Aliases) (aliasURN : string) : list string :=
  match m !! aliasURN with
  | None => [aliasURN]
  | Some a => getCandidateFuncVersionURNs a
  end.

Definition GetFuncVersionURNWithParams (m : Aliases) (aliasURN : string)
    (params : gmap string string) : string * Aliases :=
  match m !! aliasURN with
  | None => (aliasURN, m)
  | Some a => let '(r, a') := elementURNWithParams a params in (r, <[aliasURN := a']> m)
  end.

Definition CheckAliasRoutingChange (m : Aliases) (aliasURN oldURN : string)
    (params : gmap string string) : bool :=
  match m !! aliasURN with
  | None => true
  | Some a =>
      if bool_decide (RoutingType a = routingTypeRule)
      then negb (bool_decide (oldURN = getFuncVersionURNByRule a params))
      else negb (existsb (λ c, bool_decide (rc_FunctionVersionURN c = oldURN)
                                && f_gtb (rc_Weight c) f_zero) (RoutingConfigs a))
  end.

Definition GetAliasRoutingType (m : Aliases) (aliasURN : string) : string :=
  match m !! aliasURN with None => "" | Some a => RoutingType a end.

(** ** Changes between two versions of an alias *)

Inductive alias_update : Type :=
| NoneUpdate | UpdateAllURN | UpdateMainURN | UpdateWeightGreyURN | DeleteEvent.

Definition isAliasWeightTypeChange (origin src : AliasElement) : gmap string alias_update :=
  if bool_decide (RoutingType origin = routingTypeRule)
     || bool_decide (RoutingType src = routingTypeRule) then {["" := NoneUpdate]}
  else match RoutingConfigs src with
  | [] => {["" := UpdateAllURN]}
  | cs =>
      let changed := foldl (λ m c, if f_leb (rc_Weight c) f_zero
                                   then <[rc_FunctionVersionURN c := UpdateWeightGreyURN]> m else m)
                       ∅ cs in
      let srcURNs : gset string := list_to_set (rc_FunctionVersionURN <$> cs) in
      let changed := foldl (λ m c, if bool_decide (rc_FunctionVersionURN c ∈ srcURNs) then m
                                   else <[rc_FunctionVersionURN c := UpdateWeightGreyURN]> m)
                       changed (RoutingConfigs origin) in
      if bool_decide (FunctionVersion origin = FunctionVersion src) then changed
      else <[FunctionVersion origin := UpdateMainURN]> changed
  end.

Definition ifAliasRoutingChanged (origin src : AliasElement) : gmap string alias_update :=
  if bool_decide (RoutingType origin = RoutingType src) then
    if bool_decide (RoutingType origin = routingTypeRule) then
      let m := if bool_decide (RoutingRules origin = RoutingRules src) then ∅
               else {[GrayVersion (RoutingRules origin) := UpdateAllURN]} in
      if bool_decide (FunctionVersionURN origin = FunctionVersionURN src) then m
      else <[FunctionVersionURN origin := UpdateMainURN]> m
    else isAliasWeightTypeChange origin src
  else if bool_decide (RoutingType src = routingTypeRule) then {["" := UpdateAllURN]}
  else if existsb (λ c, f_leb (rc_Weight c) f_zero) (RoutingConfigs src) then {["" := UpdateAllURN]}
  else match RoutingConfigs src with
  | [] => {["" := UpdateAllURN]}
  | _ => {["" := NoneUpdate]}
  end.

(** * Alias keys and etcd events *)

Record AliasKey : Type := mkAliasKey {
  ak_ProductID : string; ak_AliasSign : string; ak_BusinessSign : string; ak_BusinessID : string;
  ak_TenantSign : string; ak_TenantID : string; ak_FunctionSign : string; ak_FunctionID : string;
  ak_AliasName : string;
}.

Definition AliasKey_ParseFrom (s : string) : option AliasKey :=
  match Split s "/" with
  | [_; p; a; bs; b; ts; t; fs; f; n] => Some (mkAliasKey p a bs b ts t fs f n)
  | _ => None
  end.

Definition FetchInfoFromAliasKey (s : string) : AliasKey :=
  default (mkAliasKey "" "" "" "" "" "" "" "" "") (AliasKey_ParseFrom s).

Definition BuildURNFromAliasKey (s : string) : string :=
  let k := FetchInfoFromAliasKey s in
  URN_String (MkURN DefaultURNProductID DefaultURNRegion (ak_BusinessID k) (ak_TenantID k)
                DefaultURNFuncSign (ak_FunctionID k) (ak_AliasName k)).

Definition ProcessDelete (m : Aliases) (key : string) : string * Aliases :=
  let aliasURN := BuildURNFromAliasKey key in (aliasURN, RemoveAlias m aliasURN).

Section Events.
(** [json.Unmarshal] into a fresh element. *)
Context (unmarshal : string → option AliasElement).

Definition ProcessUpdate (m : Aliases) (value : string) : option (string * Aliases) :=
  match unmarshal value with
  | None => None
  | Some alias => Some (AliasURN alias, AddAlias m alias)
  end.
End Events.

(** The list that [MarshalTenantAliasList] encodes, in the order of the map. *)
Definition TenantAliasList (m : Aliases) (tenantID : string) : list AliasElement :=
  filter (λ a, CheckAliasUrnTenant tenantID (AliasURN a) = true) (snd <$> map_to_list m).

Definition ResolveAliasedFunctionNameToURN (m : Aliases) (functionNameWithAlias tenantID : string)
    (params : gmap string string) : string * Aliases :=
  match Split functionNameWithAlias ":" with
  | [_] => (BuildURNOrAliasURNTemp "yrk" tenantID
              (BuildStandardFunctionName functionNameWithAlias) "latest", m)
  | [name; versionOrAlias] =>
      let functionName := BuildStandardFunctionName name in
      let urn := BuildURNOrAliasURNTemp "yrk" tenantID functionName versionOrAlias in
      match Atoi versionOrAlias with
      | None => if bool_decide (versionOrAlias = "latest") then (urn, m)
                else GetFuncVersionURNWithParams m urn params
      | Some _ => (urn, m)
      end
  | _ => ("", m)
  end.

(** * The weighted split *)

Definition config_node (c : routingConfig) : RoundRobin.WeightNginx string :=
  RoundRobin.mkWeightNginx (rc_FunctionVersionURN c) (int_weight (rc_Weight c)) 0
    (int_weight (rc_Weight c)).

Lemma resetRR_nodes a : RoundRobin.nodes (lb (resetRR a)) = config_node <$> RoutingConfigs a.
Proof.
  unfold resetRR. cbn [lb with_lb].
  enough (Hg : ∀ cs l, RoundRobin.nodes (foldl (λ l c, RoundRobin.Add l (rc_FunctionVersionURN c)
    (int_weight (rc_Weight c))) l cs) = RoundRobin.nodes l ++ (config_node <$> cs)).
  { by rewrite Hg. }
  induction cs as [|c cs IH]; intros l; cbn [foldl fmap list_fmap]; [by rewrite app_nil_r|].
  rewrite IH. cbn. by rewrite <- app_assoc.
Qed.

Lemma AddAlias_lookup m alias :
  ∃ a, AddAlias m alias !! AliasURN alias = Some a ∧
    RoundRobin.nodes (lb a) = config_node <$> RoutingConfigs alias ∧
    RoutingType a = RoutingType alias ∧ FunctionVersionURN a = FunctionVersionURN alias ∧
    RoutingConfigs a = RoutingConfigs alias ∧ RoutingRules a = RoutingRules alias.
Proof.
  unfold AddAlias. destruct (m !! AliasURN alias) as [a|];
    [exists (resetRR (aliasUpdate a alias))|
     exists (resetRR (with_lb alias (RoundRobin.mkWNGINX [])))];
    (split; [by rewrite lookup_insert_eq|]); (split; [by rewrite resetRR_nodes|done]).
Qed.

(** [k] requests in a row through one alias. *)
Fixpoint route (k : nat) (m : Aliases) (aliasURN : string) (params : gmap string string)
  : list string * Aliases :=
  match k with
  | O => ([], m)
  | S k =>
      let '(r, m) := GetFuncVersionURNWithParams m aliasURN params in
      let '(rs, m) := route k m aliasURN params in (r :: rs, m)
  end.

Definition names (w : RoundRobin.WNGINX string) : list string :=
  RoundRobin.Node <$> RoundRobin.nodes w.

Lemma nextIndex_names w i w' :
  RoundRobin.nextIndex w = Some (i, w') →
  names w' = names w ∧ (i < length (RoundRobin.nodes w))%nat.
Proof.
  intros Hn. destruct (decide (2 ≤ length (RoundRobin.nodes w))%nat) as [Hl|Hl].
  - destruct (RoundRobin.nextIndex_spec w Hl) as (j & n & Hj & Hi & _). rewrite Hj in Hn.
    injection Hn as <- <-. split; [|by eapply lookup_lt_Some].
    unfold names. cbn. apply list_eq. intros x. rewrite !list_lookup_fmap.
    destruct (RoundRobin.nodes w !! x) as [y|] eqn:Hy.
    + by rewrite (RoundRobin.picked_lookup _ _ _ _ Hy).
    + rewrite (proj2 (lookup_ge_None _ _)); [done|]. unfold RoundRobin.picked.
      rewrite length_alter, length_fmap. by apply lookup_ge_None.
  - destruct w as [[|n [|? ?]]]; cbn in *; [done| |lia]. injection Hn as <- <-. split; [done|lia].
Qed.

(** The answers of a weighted alias are the names at the chosen indices. *)
Lemma route_nexts k m urn params a :
  m !! urn = Some a → RoutingType a ≠ routingTypeRule → RoundRobin.nodes (lb a) ≠ [] →
  let '(l, w) := RoundRobin.nexts k (lb a) in
  fst (route k m urn params) = (λ i, default "" (names (lb a) !! i)) <$> l ∧
  snd (route k m urn params) !! urn = Some (with_lb a w) ∧ names w = names (lb a).
Proof.
  revert m a. induction k as [|k IH]; intros m a Hm Ht Hne.
  { cbn. split; [done|]. split; [by destruct a|done]. }
  cbn [RoundRobin.nexts route].
  destruct (RoundRobin.nextIndex (lb a)) as [[i w]|] eqn:Hn.
  2:{ unfold RoundRobin.nextIndex, RoundRobin.nextWeightedNode in Hn.
      destruct (RoundRobin.nodes (lb a)) as [|x [|y l]]; [done|done|].
      destruct (RoundRobin.weigh_loop _ _ _ _ _) as [[? ?] ?]. done. }
  destruct (nextIndex_names _ _ _ Hn) as [Hnm Hlt].
  unfold GetFuncVersionURNWithParams. rewrite Hm. unfold elementURNWithParams.
  rewrite bool_decide_false by done. unfold getFuncVersionURN, RoundRobin.Next. rewrite Hn.
  specialize (IH (<[urn := with_lb a w]> m) (with_lb a w)).
  cbn [lb with_lb RoutingType] in IH.
  assert (Hw : RoundRobin.nodes w ≠ []).
  { intros He. apply (f_equal length) in Hnm. unfold names in Hnm. rewrite !length_fmap, He in Hnm.
    destruct (RoundRobin.nodes (lb a)); done. }
  specialize (IH ltac:(by rewrite lookup_insert_eq) Ht Hw).
  destruct (RoundRobin.nexts k w) as [l w']. destruct (route k _ urn params) as [rs m'].
  cbn [fst snd] in *. destruct IH as (-> & Hl & Hn'). rewrite Hnm in *.
  split; [|split; [exact Hl|done]]. cbn. f_equal. unfold names. by rewrite list_lookup_fmap.
Qed.

(** ** Floating-point weights *)

Lemma f_trunc_neg x : match x with S754_finite false _ _ => False | _ => True end → (f_trunc x ≤ 0)%Z.
Proof.
  destruct x as [| | |[] m e]; cbn; try done; try lia. intros _.
  destruct (0 <=? e)%Z eqn:He; breflect.
  - assert (0 < 2 ^ e)%Z by (apply Z.pow_pos_nonneg; lia). nia.
  - pose proof (Z.div_pos (Z.pos m) (2 ^ (- e))). lia.
Qed.

Lemma round_aux_sign prec emax mx ex lx :
  match binary_round_aux prec emax true mx ex lx with S754_finite false _ _ => False | _ => True end.
Proof.
  unfold binary_round_aux. destruct (shr_fexp _ _ _ _ _) as [m1 e1].
  destruct (shr_fexp _ _ _ _ _) as [m2 e2]. destruct (shr_m m2); try done. by destruct (_ <=? _)%Z.
Qed.

(** A weight that the code treats as absent counts for nothing. *)
Lemma int_weight_nonpos w : f_leb w f_zero = true → (int_weight w ≤ 0)%Z.
Proof.
  intros Hw. unfold int_weight. apply f_trunc_neg.
  destruct w as [s|s| |[] m e]; cbn in Hw |- *; try done.
  apply round_aux_sign.
Qed.

Lemma append_urn_in r u x : x ∈ append_urn r u ↔ x ∈ r ∨ (x = u ∧ u ≠ "").
Proof.
  unfold append_urn. destruct (bool_decide (u = "")) eqn:H1; breflect; [naive_solver|].
  destruct (bool_decide (u ∈ r)) eqn:H2; breflect; [naive_solver|].
  rewrite elem_of_app, list_elem_of_singleton. naive_solver.
Qed.

Lemma candidates_in a c :
  RoutingType a ≠ routingTypeRule → c ∈ RoutingConfigs a → (0 < int_weight (rc_Weight c))%Z →
  rc_FunctionVersionURN c ≠ "" → rc_FunctionVersionURN c ∈ getCandidateFuncVersionURNs a.
Proof.
  intros Ht Hc Hw Hu. unfold getCandidateFuncVersionURNs. rewrite bool_decide_false by done.
  generalize (append_urn [] (FunctionVersionURN a)).
  assert (Hf : f_leb (rc_Weight c) f_zero = false).
  { destruct (f_leb _ _) eqn:Hl; [|done]. apply int_weight_nonpos in Hl. lia. }
  assert (Hkeep : ∀ cs r, rc_FunctionVersionURN c ∈ r → rc_FunctionVersionURN c ∈
    foldl (λ r c, if f_leb (rc_Weight c) f_zero then r
                  else append_urn r (rc_FunctionVersionURN c)) r cs).
  { induction cs as [|d cs IH]; intros r Hr; [done|]. cbn. apply IH.
    case_goal; [done|]. apply append_urn_in. by left. }
  induction (RoutingConfigs a) as [|d cs IH]; intros r; [by apply not_elem_of_nil in Hc|].
  cbn [foldl]. apply elem_of_cons in Hc as [<-|Hc]; [|by apply IH].
  rewrite Hf. apply Hkeep, append_urn_in. by right.
Qed.

(** ** Fairness and candidates *)

Definition split_total (cs : list routingConfig) : Z :=
  RoundRobin.sumZ ((λ c, int_weight (rc_Weight c)) <$> cs).

Definition weights_ok (cs : list routingConfig) : Prop :=
  Forall (λ c, (0 ≤ int_weight (rc_Weight c))%Z) cs ∧ (0 < split_total cs)%Z.

Section Fresh.
(** A balancer that [resetRR] has just filled. *)
Context (cs : list routingConfig) (w : RoundRobin.WNGINX string).
Hypothesis Hnodes : RoundRobin.nodes w = config_node <$> cs.

Lemma fresh_Reset : RoundRobin.Reset w = w.
Proof.
  destruct w as [l]. cbn in Hnodes. subst l. unfold RoundRobin.Reset. cbn. f_equal.
  rewrite <- list_fmap_compose. apply list_fmap_ext. done.
Qed.

Lemma fresh_names : names w = rc_FunctionVersionURN <$> cs.
Proof. unfold names. rewrite Hnodes, <- list_fmap_compose. done. Qed.

Lemma fresh_weights :
  RoundRobin.Weight <$> RoundRobin.nodes w = (λ c, int_weight (rc_Weight c)) <$> cs.
Proof. rewrite Hnodes, <- list_fmap_compose. done. Qed.

Lemma fresh_nonneg :
  weights_ok cs → Forall (λ n, (0 ≤ RoundRobin.Weight n)%Z) (RoundRobin.nodes w).
Proof. intros [Hp _]. rewrite Hnodes, Forall_fmap. exact Hp. Qed.

Lemma fresh_nonempty : weights_ok cs → RoundRobin.nodes w ≠ [].
Proof. intros [_ Hs] He. rewrite Hnodes in He. destruct cs; [cbn in Hs; lia|done]. Qed.

(** Only versions of positive weight are ever chosen. *)
Lemma chosen_positive k i :
  weights_ok cs → i ∈ fst (RoundRobin.nexts k w) →
  ∃ c, cs !! i = Some c ∧ (0 < int_weight (rc_Weight c))%Z.
Proof.
  intros Hok Hi. pose proof (fresh_nonneg Hok) as Hn. destruct Hok as [Hp Hs].
  assert (Hs' : (0 < RoundRobin.sumZ (RoundRobin.Weight <$> RoundRobin.nodes w))%Z)
    by (by rewrite fresh_weights).
  destruct (decide (2 ≤ length (RoundRobin.nodes w))%nat) as [Hl|Hl].
  - rewrite <- fresh_Reset in Hi.
    destruct (RoundRobin.nexts k (RoundRobin.Reset w)) as [l w'] eqn:Hnx. cbn in Hi.
    pose proof (RoundRobin.nexts_range _ _ _ _ Hnx) as Hr. rewrite fresh_Reset in Hr.
    rewrite Forall_forall in Hr. specialize (Hr i Hi). rewrite Hnodes, length_fmap in Hr.
    apply lookup_lt_is_Some in Hr as [c Hc]. exists c. split; [done|].
    assert (Hlk : RoundRobin.nodes w !! i = Some (config_node c))
      by (by rewrite Hnodes, list_lookup_fmap, Hc).
    pose proof (RoundRobin.times_bound w k l w' i _ Hn Hl Hs' Hnx Hlk) as Hb. cbn in Hb.
    apply RoundRobin.times_in_elem in Hi. nia.
  - rewrite Hnodes, length_fmap in Hl. destruct cs as [|c [|? ?]]; [cbn in Hs; lia| |cbn in Hl; lia].
    assert (Hw : w = RoundRobin.mkWNGINX [config_node c]) by (destruct w; cbn in *; by f_equal).
    rewrite Hw, RoundRobin.nexts_single in Hi. cbn in Hi.
    apply elem_of_replicate in Hi as [-> _]. exists c. split; [done|]. cbn in Hs. lia.
Qed.
End Fresh.

Lemma count_index (l : list nat) (ns : list string) i u :
  NoDup ns → ns !! i = Some u → Forall (λ j, (j < length ns)%nat) l →
  Z.of_nat (length (filter (λ x, x = u) ((λ j, default "" (ns !! j)) <$> l)))
  = RoundRobin.times_in i l.
Proof.
  intros Hnd Hi. unfold RoundRobin.times_in. induction 1 as [|j l Hj Hl IH]; [done|].
  cbn [fmap list_fmap]. rewrite !filter_cons.
  apply lookup_lt_is_Some in Hj as [x Hx]. rewrite Hx. cbn [default from_option]. unfold id.
  destruct (decide (j = i)) as [->|Hne].
  - rewrite Hi in Hx. injection Hx as <-. rewrite !decide_True by done. cbn [length]. rewrite !Nat2Z.inj_succ. by f_equal.
  - assert (x ≠ u) as Hxu; [intros ->|by rewrite !decide_False].
    by apply Hne, (NoDup_lookup ns _ _ _ Hnd Hx).
Qed.

(** A weighted alias splits its traffic by the weights: once an alias with
    different versions is loaded, as many requests as its integer weights sum to
    give each version exactly its weight of them. *)
Theorem alias_split_fair m alias params c :
  RoutingType alias ≠ routingTypeRule → weights_ok (RoutingConfigs alias) →
  NoDup (rc_FunctionVersionURN <$> RoutingConfigs alias) → c ∈ RoutingConfigs alias →
  let rs := fst (route (Z.to_nat (split_total (RoutingConfigs alias))) (AddAlias m alias)
                   (AliasURN alias) params) in
  Z.of_nat (length (filter (λ u, u = rc_FunctionVersionURN c) rs)) = int_weight (rc_Weight c).
Proof.
  intros Ht Hok Hnd Hc. cbn zeta.
  destruct (AddAlias_lookup m alias) as (a & Ha & Hn & Hta & _).
  destruct (RoundRobin.round_fair (lb a) (fresh_nonneg _ _ Hn Hok)) as (l & Hl & Hcount).
  { rewrite (fresh_weights _ _ Hn). apply Hok. }
  rewrite (fresh_weights _ _ Hn), (fresh_Reset _ _ Hn) in Hl.
  pose proof (route_nexts (Z.to_nat (split_total (RoutingConfigs alias))) _ _ params a Ha) as Hr.
  unfold split_total in *. rewrite Hl in Hr.
  destruct Hr as (-> & _); [by rewrite Hta|by eapply fresh_nonempty|].
  apply list_elem_of_lookup in Hc as [i Hi]. rewrite (fresh_names _ _ Hn).
  rewrite (count_index l _ i); [|done|by rewrite list_lookup_fmap, Hi|].
  - apply (Hcount i (config_node c)). by rewrite Hn, list_lookup_fmap, Hi.
  - apply RoundRobin.nexts_range in Hl. rewrite Hn, length_fmap in Hl.
    by rewrite length_fmap.
Qed.

Lemma route_in_candidates m alias params k r :
  RoutingType alias ≠ routingTypeRule → weights_ok (RoutingConfigs alias) → r ≠ "" →
  r ∈ fst (route k (AddAlias m alias) (AliasURN alias) params) →
  r ∈ GetCandidateFuncVersionURNsFromAlias (AddAlias m alias) (AliasURN alias).
Proof.
  intros Ht Hok Hne Hr. destruct (AddAlias_lookup m alias) as (a & Ha & Hn & Hta & _ & Hca & _).
  unfold GetCandidateFuncVersionURNsFromAlias. rewrite Ha.
  pose proof (route_nexts k _ _ params a Ha) as Hx.
  pose proof (chosen_positive _ _ Hn k) as Hpos.
  destruct (RoundRobin.nexts k (lb a)) as [l w] eqn:Hl. cbn [fst] in Hpos.
  destruct Hx as (Hfst & _); [by rewrite Hta|by eapply fresh_nonempty|].
  rewrite Hfst in Hr. apply list_elem_of_fmap in Hr as (i & -> & Hi).
  destruct (Hpos i Hok Hi) as (c & Hc & Hw). rewrite (fresh_names _ _ Hn) in *.
  rewrite list_lookup_fmap, Hc in *. cbn in *.
  apply candidates_in; [by rewrite Hta|rewrite Hca; by eapply list_elem_of_lookup_2|done|done].
Qed.

(** The candidates cover the routing: every version a weighted alias with
    usable weights ever answers is in the list that the public-function check
    inspects instead of routing. *)
Theorem alias_route_candidates m alias params k r :
  RoutingType alias ≠ routingTypeRule → weights_ok (RoutingConfigs alias) → r ≠ "" →
  r ∈ fst (route k (AddAlias m alias) (AliasURN alias) params) →
  r ∈ GetCandidateFuncVersionURNsFromAlias (AddAlias m alias) (AliasURN alias).
Proof. apply route_in_candidates. Qed.

Definition f_half : spec_float := S754_finite false 4503599627370496 (-53).
Definition alias_example : AliasElement :=
  mkAlias (RoundRobin.mkWNGINX []) "sn:cn:yrk:t1:function:0@svc@fn:gray" "" "urn:1" "" "" "" ""
    "weight" (mkRules "" None "") [mkConfig "urn:1" f_half; mkConfig "urn:2" f_half].

Lemma example_weights : weights_ok (RoutingConfigs alias_example).
Proof. split; [repeat constructor; vm_compute; discriminate|vm_compute; reflexivity]. Defined.

Lemma alias_split_fair_witness :
  Z.of_nat (length (filter (λ u, u = "urn:2")
    (fst (route 100 (AddAlias ∅ alias_example) (AliasURN alias_example) ∅)))) = 50%Z.
Proof.
  apply (alias_split_fair ∅ alias_example ∅ (mkConfig "urn:2" f_half)).
  - discriminate.
  - exact example_weights.
  - cbn. repeat constructor; set_solver.
  - right. left.
Defined.

Lemma alias_route_candidates_witness :
  "urn:2" ∈ GetCandidateFuncVersionURNsFromAlias (AddAlias ∅ alias_example) (AliasURN alias_example).
Proof.
  apply (alias_route_candidates ∅ alias_example ∅ 2); [discriminate|exact example_weights|done|].
  vm_compute. right. left.
Defined.

(** The candidates can miss the routed version: an alias with a single
    routing entry of weight zero or less sends every request to that entry,
    while the candidate list leaves it out. *)
Theorem single_zero_weight_missed m alias params c :
  RoutingType alias ≠ routingTypeRule → RoutingConfigs alias = [c] →
  f_leb (rc_Weight c) f_zero = true → rc_FunctionVersionURN c ≠ FunctionVersionURN alias →
  fst (GetFuncVersionURNWithParams (AddAlias m alias) (AliasURN alias) params)
    = rc_FunctionVersionURN c ∧
  rc_FunctionVersionURN c ∉
    GetCandidateFuncVersionURNsFromAlias (AddAlias m alias) (AliasURN alias).
Proof.
  intros Ht Hcs Hw Hne. destruct (AddAlias_lookup m alias) as (a & Ha & Hn & Hta & Hfa & Hca & _).
  unfold GetFuncVersionURNWithParams, GetCandidateFuncVersionURNsFromAlias. rewrite Ha.
  rewrite Hcs in *. cbn in Hn. split.
  - unfold elementURNWithParams. rewrite bool_decide_false by (by rewrite Hta).
    unfold getFuncVersionURN, RoundRobin.Next, RoundRobin.nextIndex. rewrite Hn. cbn. done.
  - unfold getCandidateFuncVersionURNs. rewrite bool_decide_false by (by rewrite Hta).
    rewrite Hca. cbn. rewrite Hw, append_urn_in, Hfa. intros [Hin|[? ?]]; [|done].
    by apply not_elem_of_nil in Hin.
Qed.

Lemma single_zero_weight_missed_witness :
  let alias := mkAlias (RoundRobin.mkWNGINX []) "alias" "" "urn:public" "" "" "" "" "weight"
                 (mkRules "" None "") [mkConfig "urn:private" f_zero] in
  "urn:private" ∉ GetCandidateFuncVersionURNsFromAlias (AddAlias ∅ alias) "alias".
Proof.
  intros alias.
  destruct (single_zero_weight_missed ∅ alias ∅ (mkConfig "urn:private" f_zero)) as [_ H];
    [discriminate|reflexivity|reflexivity|discriminate|exact H].
Defined.

(** Weights are cut, not rounded: 0.29 counts as 28 hundredths. *)
Example weight_cut : int_weight (S754_finite false 5224175567749775 (-54)) = 28%Z.
Proof. vm_compute. reflexivity. Qed.

(** * Rules *)

(** The meaning of a rule set: a single rule stands for itself, several are
    joined by their logic, and an unknown logic never matches. *)
Definition rules_hold (logic : string) (params : gmap string string) (es : list Expression) : bool :=
  match es with
  | [e] => Execute e params
  | _ =>
      (bool_decide (logic = "and") && forallb (λ e, Execute e params) es)
      || (bool_decide (logic = "or") && existsb (λ e, Execute e params) es)
  end.

Lemma foldl_andb r l : foldl andb r l = r && forallb id l.
Proof.
  revert r; induction l as [|x l IH]; intros r; cbn; [by rewrite andb_true_r|].
  rewrite IH. by rewrite andb_assoc.
Qed.

Lemma foldl_orb r l : foldl orb r l = r || existsb id l.
Proof.
  revert r; induction l as [|x l IH]; intros r; cbn; [by rewrite orb_false_r|].
  rewrite IH. by rewrite orb_assoc.
Qed.

Lemma forallb_results {A} (f : A → bool) l : forallb id (f <$> l) = forallb f l.
Proof. induction l as [|x l IH]; [done|]. cbn in *. by rewrite IH. Qed.

Lemma existsb_results {A} (f : A → bool) l : existsb id (f <$> l) = existsb f l.
Proof. induction l as [|x l IH]; [done|]. cbn in *. by rewrite IH. Qed.

Lemma matchRule_holds params es logic :
  es ≠ [] → matchRule params es logic = rules_hold logic params es.
Proof.
  intros Hne. unfold matchRule, rules_hold. destruct es as [|e [|f es]]; [done|done|].
  set (l := e :: f :: es). change (match (λ e, Execute e params) <$> l with
    [] => false | _ => isMatch ((λ e, Execute e params) <$> l) logic end) with
    (isMatch ((λ e, Execute e params) <$> l) logic).
  unfold isMatch. cbn [fmap list_fmap l].
  change (Execute e params :: Execute f params :: ((λ e, Execute e params) <$> es))
    with ((λ e, Execute e params) <$> l).
  rewrite foldl_orb, foldl_andb, forallb_results, existsb_results.
  destruct (bool_decide (logic = "or")) eqn:Ho; breflect.
  - subst logic. cbn. by destruct (Execute e params).
  - destruct (bool_decide (logic = "and")); cbn; [|done]. rewrite orb_false_r.
    by destruct (Execute e params).
Qed.

(** Rule routing: an alias of rule type answers the gray version exactly when
    the request has parameters, every rule has three fields, there is a rule,
    and the rules hold jointly under their logic; in every other case, errors
    included, it answers the default version, and no request changes the alias. *)
Theorem rule_routing m aliasURN a params :
  m !! aliasURN = Some a → RoutingType a = routingTypeRule →
  let rules := default [] (Rules (RoutingRules a)) in
  GetFuncVersionURNWithParams m aliasURN params =
    (if bool_decide (params ≠ ∅) && bool_decide (rules ≠ [])
        && forallb (λ r, length (Split r ":") =? 3) rules
        && rules_hold (RuleLogic (RoutingRules a)) params
             ((λ r, mkExpression (default "" (Split r ":" !! 0)) (default "" (Split r ":" !! 1))
                      (default "" (Split r ":" !! 2))) <$> rules)
     then GrayVersion (RoutingRules a) else FunctionVersionURN a, m).
Proof.
  intros Hm Ht rules. unfold GetFuncVersionURNWithParams. rewrite Hm. unfold elementURNWithParams.
  rewrite bool_decide_true by done. f_equal; [|by apply insert_id].
  unfold getFuncVersionURNByRule. rewrite bool_decide_not.
  destruct (bool_decide (params = ∅)); [done|]. fold rules.
  set (ex := λ r, mkExpression (default "" (Split r ":" !! 0)) (default "" (Split r ":" !! 1))
                      (default "" (Split r ":" !! 2))).
  assert (Hp : ∀ rs, match parseRules rs with
    | Ok es => forallb (λ r, length (Split r ":") =? 3) rs = true ∧ es = ex <$> rs
    | Err _ => forallb (λ r, length (Split r ":") =? 3) rs = false end).
  { induction rs as [|r rs IH]; [done|]. cbn [parseRules forallb fmap list_fmap]. unfold ex at 1.
    destruct (Split r ":") as [|x [|y [|z [|? ?]]]] eqn:Hs; cbn; try (by rewrite ?Hs).
    destruct (parseRules rs); [|done]. destruct IH as [-> ->]. done. }
  specialize (Hp rules). destruct rules as [|r rs]; [done|].
  rewrite (bool_decide_true (r :: rs ≠ [])) by done. cbn [negb andb].
  destruct (parseRules (r :: rs)) as [es|]; [|by rewrite Hp].
  destruct Hp as [-> ->]. rewrite matchRule_holds by done. done.
Qed.

Lemma rule_routing_witness :
  let a := mkAlias (RoundRobin.mkWNGINX []) "alias" "" "urn:1" "" "" "" "" "rule"
             (mkRules "and" (Some ["age:>=:18"; "city:in:a, b"]) "urn:2") [] in
  fst (GetFuncVersionURNWithParams {["alias" := a]} "alias" {["age" := "20"; "city" := "b"]}) = "urn:2".
Proof.
  intros a. rewrite (rule_routing _ _ a); [vm_compute; reflexivity|apply lookup_singleton_eq|reflexivity].
Defined.
