(* ===== verification/Route.v ===== *)
(** The sandbox router's route table, [sandboxrouter/route]: how instance
    documents become routes from (sandbox id, container port) to a node port,
    how request paths are parsed into route keys, and the cache that instance
    events keep up to date. Decoding of JSON documents is a parameter. *)

From S2P Require Import Prelude GoStrings.

(** * Names and addresses (sanitize.go) *)

Definition maxRouterNameLen : nat := 200.

Definition sanitize_rune (c : ascii) : ascii :=
  if bool_decide (c = "/"%char) || bool_decide (c = "."%char) || bool_decide (c = "_"%char)
  then "-"%char else c.

Definition SanitizeID (id : string) : string :=
  let result := ReplaceAll id "@" "-at-" in
  let result := MapAscii sanitize_rune result in
  if maxRouterNameLen <? String.length result then str_take maxRouterNameLen result else result.

Definition ExtractIP (addr : string) : string :=
  match IndexByte addr ":" with
  | Some i => str_take i addr
  | None => ""
  end.

(** * Keys and request paths (key.go, parser.go) *)

Record Key : Type := mkKey {
  SafeInstanceID : string;
  Port : Z;
}.

#[global] Instance Key_eq_dec : EqDecision Key.
Proof. solve_decision. Defined.
#[global] Instance Key_countable : Countable Key.
Proof. apply (inj_countable' (λ k, (SafeInstanceID k, Port k)) (λ p, mkKey p.1 p.2)). by intros []. Defined.

Record ParsedRequest : Type := mkParsed {
  pr_Key : Key;
  StrippedPath : string;
}.

(** [None] is [ErrInvalidPath]. *)
Definition ParsePath (path : string) : option ParsedRequest :=
  match path with
  | String c rest =>
      if negb (bool_decide (c = "/"%char)) then None else
      match IndexByte rest "/" with
      | None => None
      | Some slash =>
          let safeID := str_take slash rest in
          let rest := str_drop (S slash) rest in
          let '(portStr, tail) :=
            match IndexByte rest "/" with
            | None => (rest, "")
            | Some slash => (str_take slash rest, str_drop slash rest)
            end in
          if bool_decide (safeID = "") || bool_decide (portStr = "") then None else
          match ParseUint portStr 16 with
          | None => None
          | Some port =>
              if (port =? 0)%Z then None
              else Some (mkParsed (mkKey safeID port) (if bool_decide (tail = "") then "/" else tail))
          end
      end
  | EmptyString => None
  end.

(** * Instance documents and targets *)

Record InstanceStatus : Type := mkStatus {
  st_Code : Z; st_Msg : string; st_ExitCode : Z; st_Type : Z; st_ErrCode : Z;
}.

Record InstanceInfo : Type := mkInfo {
  InstanceID : string;
  TenantID : string;
  Function : string;
  FunctionProxyID : string;
  ProxyGrpcAddress : string;
  RuntimeAddress : string;
  RuntimeID : string;
  ContainerID : string;
  ContainerIP : string;
  RequestID : string;
  Version : Z;
  info_Status : InstanceStatus;
  Extensions : gmap string string;
}.

(** The scheme and host of the backend URL. *)
Record Target : Type := mkTarget {
  t_InstanceID : string;
  t_RuntimeID : string;
  t_Key : Key;
  t_Host : string;
  t_Scheme : string;
  t_Source : string;
  t_Tenant : string;
}.

Record InstanceFailure : Type := mkFailure {
  f_InstanceID : string; f_Tenant : string; f_RuntimeID : string; f_Status : InstanceStatus;
}.

Definition FailureFor (info : InstanceInfo) : option InstanceFailure :=
  let code := st_Code (info_Status info) in
  if (code =? 4)%Z || (code =? 6)%Z || (code =? 7)%Z
  then Some (mkFailure (InstanceID info) (TenantID info) (RuntimeID info) (info_Status info))
  else None.

Definition portForwardKey : string := "portForward".

Section Decoding.
Context (unicode_lower : string → string).
(** [json.Unmarshal] into an [InstanceInfo] and into a string slice. *)
Context (unmarshal_info : string → option InstanceInfo).
Context (unmarshal_entries : string → option (list string)).

(** * Routes of an instance (compute.go) *)

Definition backendScheme (protocol : string) : option string :=
  let token := ToLower unicode_lower (TrimSpace protocol) in
  match Split token "+" with
  | [p] =>
      if bool_decide (p = "http") || bool_decide (p = "https") then Some p
      else if bool_decide (p = "tcp") || bool_decide (p = "direct") || bool_decide (p = "tunnel")
      then Some "http" else None
  | [kind; scheme] =>
      if bool_decide (kind = "direct") || bool_decide (kind = "tunnel") || bool_decide (kind = "public")
      then if bool_decide (scheme = "http") || bool_decide (scheme = "https") then Some scheme else None
      else None
  | _ => None
  end.

(** The [switch] on the number of fields; [None] is [continue]. *)
Definition entry_parts (e : string) : option (string * string * string) :=
  match Split e ":" with
  | [protocol; hostPort; containerPort] => Some (protocol, hostPort, containerPort)
  | [hostPort; containerPort] => Some ("http", hostPort, containerPort)
  | _ => None
  end.

(** One entry of the portForward array; [None] is [continue]. *)
Definition entry_target (info : InstanceInfo) (hostIP safeID e : string) : option Target :=
  match entry_parts e with
  | None => None
  | Some (protocol, hostPort, containerPort) =>
      match ParseUint containerPort 16 with
      | None => None
      | Some cport =>
          if (cport =? 0)%Z then None else
          match ParseUint hostPort 16 with
          | None => None
          | Some hport =>
              if (hport =? 0)%Z then None else
              match backendScheme protocol with
              | None => None
              | Some scheme =>
                  Some (mkTarget (InstanceID info) (RuntimeID info) (mkKey safeID cport)
                          (hostIP +:+ ":" +:+ FormatUint hport) scheme "" "")
              end
          end
      end
  end.

Inductive route_error : Type := ErrInvalidTarget | ErrPortForwardJSON.

Definition ComputeRoutes (info : InstanceInfo) : res route_error (list Target) :=
  match Extensions info !! portForwardKey with
  | None => Ok []
  | Some raw =>
      if bool_decide (raw = "") then Ok [] else
      let hostIP := ExtractIP (ProxyGrpcAddress info) in
      if bool_decide (hostIP = "") then Err ErrInvalidTarget else
      let safeID := SanitizeID (InstanceID info) in
      match unmarshal_entries raw with
      | None => Err ErrPortForwardJSON
      | Some entries => Ok (omap (entry_target info hostIP safeID) entries)
      end
  end.

(** * The cache (cache.go) *)

Record cacheEntry : Type := mkEntry { owner : string; target : Target }.

Record Cache : Type := mkCache {
  routes : gmap Key cacheEntry;
  byInst : gmap string (gset Key);
}.

Definition NewCache : Cache := mkCache ∅ ∅.

(** [None] is [ErrRouteNotFound]; targets are copied in and out. *)
Definition Get (c : Cache) (key : Key) : option Target := target <$> routes c !! key.

Definition drop_key (id : string) (r : gmap Key cacheEntry) (key : Key) : gmap Key cacheEntry :=
  match r !! key with
  | Some e => if bool_decide (owner e = id) then delete key r else r
  | None => r
  end.

Definition removeInstanceLocked (c : Cache) (id : string) : Cache :=
  mkCache (foldl (drop_key id) (routes c) (elements (default ∅ (byInst c !! id))))
          (delete id (byInst c)).

Definition DeleteInstance (c : Cache) (id : string) : Cache := removeInstanceLocked c id.

Definition PutInstance (c : Cache) (id : string) (ts : list Target) : Cache :=
  let c := removeInstanceLocked c id in
  match ts with
  | [] => c
  | _ =>
      mkCache (foldl (λ r t, <[t_Key t := mkEntry id t]> r) (routes c) ts)
              (<[id := list_to_set (t_Key <$> ts)]> (byInst c))
  end.

(** * Instance events (apply.go) *)

Definition kernelStatusRunning : Z := 3.

Inductive EventKind : Type := EventPut | EventDelete.

Definition instanceIDFromKey (key : string) : string :=
  match LastIndexByte key "/" with
  | Some i => str_drop (S i) key
  | None => key
  end.

Definition with_tenant (tenant : string) (t : Target) : Target :=
  mkTarget (t_InstanceID t) (t_RuntimeID t) (t_Key t) (t_Host t) (t_Scheme t) (t_Source t) tenant.

Definition ApplyInstanceEvent (c : Cache) (kind : EventKind) (key value : string) : Cache :=
  match kind with
  | EventDelete => DeleteInstance c (instanceIDFromKey key)
  | EventPut =>
      match unmarshal_info value with
      | None => DeleteInstance c (instanceIDFromKey key)
      | Some info =>
          let id := if bool_decide (InstanceID info = "") then instanceIDFromKey key
                    else InstanceID info in
          if negb (st_Code (info_Status info) =? kernelStatusRunning)%Z then DeleteInstance c id
          else match ComputeRoutes info with
          | Err _ => DeleteInstance c id
          | Ok [] => DeleteInstance c id
          | Ok targets =>
              if bool_decide (TenantID info = "") then DeleteInstance c id
              else PutInstance c id (with_tenant (TenantID info) <$> targets)
          end
      end
  end.
End Decoding.
