(* ===== verification/RouteFacts.v ===== *)
(** Properties of the sandbox route table: where cached routes come from, and
    that the path of a route parses to its key. *)

From S2P Require Import Prelude GoStrings Route.

(** * The cache as a table with owners *)

(** Every route is listed with its owner. *)
Definition cache_inv (c : Cache) : Prop :=
  ∀ k e, routes c !! k = Some e → k ∈ default ∅ (byInst c !! owner e).

Lemma drop_keys_lookup id keys r k :
  foldl (drop_key id) r keys !! k =
  match r !! k with
  | Some e => if bool_decide (k ∈ keys) && bool_decide (owner e = id) then None else Some e
  | None => None
  end.
Proof.
  revert r; induction keys as [|x keys IH]; intros r; cbn [foldl].
  { destruct (r !! k); [|done]. rewrite bool_decide_false by apply not_elem_of_nil. done. }
  rewrite IH. unfold drop_key. destruct (decide (x = k)) as [->|Hne].
  - rewrite (bool_decide_true (k ∈ k :: keys)) by left.
    destruct (r !! k) as [e|] eqn:Hk; [|by rewrite Hk]. cbn [andb].
    destruct (bool_decide (owner e = id)) eqn:Ho; [by rewrite lookup_delete_eq|].
    rewrite Hk, Ho. by rewrite andb_false_r.
  - assert (Hl : match r !! x with
      | Some e => if bool_decide (owner e = id) then delete x r else r | None => r end !! k = r !! k).
    { destruct (r !! x); [|done]. case_goal; [by rewrite lookup_delete_ne|done]. }
    rewrite Hl. destruct (r !! k) as [e|]; [|done].
    rewrite (bool_decide_ext (k ∈ x :: keys) (k ∈ keys)); [done|].
    rewrite elem_of_cons. split; [intros [?|?]; congruence|tauto].
Qed.

Lemma remove_lookup c id k :
  cache_inv c →
  routes (removeInstanceLocked c id) !! k =
  match routes c !! k with
  | Some e => if bool_decide (owner e = id) then None else Some e
  | None => None
  end.
Proof.
  intros Hc. cbn. rewrite drop_keys_lookup. destruct (routes c !! k) as [e|] eqn:Hk; [|done].
  destruct (bool_decide (owner e = id)) eqn:Ho; [|by rewrite andb_false_r]. breflect.
  rewrite bool_decide_true; [done|]. apply elem_of_elements. rewrite <- Ho. by apply Hc.
Qed.

Lemma put_targets_lookup id (ts : list Target) (r : gmap Key cacheEntry) k :
  foldl (λ r t, <[t_Key t := mkEntry id t]> r) r ts !! k =
  match last (filter (λ t, t_Key t = k) ts) with
  | Some t => Some (mkEntry id t)
  | None => r !! k
  end.
Proof.
  induction ts as [|t ts IH] using rev_ind; [done|].
  rewrite foldl_snoc, filter_app, filter_cons, filter_nil. case_decide as Hk.
  - rewrite last_snoc, <- Hk. by rewrite lookup_insert_eq.
  - rewrite app_nil_r, <- IH. by rewrite lookup_insert_ne.
Qed.

(** The table after an instance publishes [ts] (nothing, when deleted). *)
Lemma Put_lookup c id ts k :
  cache_inv c →
  routes (PutInstance c id ts) !! k =
  match last (filter (λ t, t_Key t = k) ts) with
  | Some t => Some (mkEntry id t)
  | None => match routes c !! k with
            | Some e => if bool_decide (owner e = id) then None else Some e
            | None => None
            end
  end.
Proof.
  intros Hc. unfold PutInstance. destruct ts as [|t ts]; [by apply remove_lookup|].
  cbn [routes]. rewrite put_targets_lookup. case_goal; [done|]. by apply remove_lookup.
Qed.

Lemma last_filter_elem (ts : list Target) k t :
  last (filter (λ t, t_Key t = k) ts) = Some t → t ∈ ts ∧ t_Key t = k.
Proof.
  intros Hl. apply last_Some_elem_of in Hl. by apply list_elem_of_filter in Hl as [? ?].
Qed.

Lemma Put_inv c id ts : cache_inv c → cache_inv (PutInstance c id ts).
Proof.
  intros Hc k e. rewrite (Put_lookup c id ts k Hc).
  destruct (last _) as [t|] eqn:Hl.
  - intros [= <-]. apply last_filter_elem in Hl as [Hin <-]. unfold PutInstance.
    destruct ts as [|t0 ts]; [by apply not_elem_of_nil in Hin|]. cbn [byInst owner].
    rewrite lookup_insert_eq. unfold default, from_option.
    apply elem_of_list_to_set, list_elem_of_fmap. eauto.
  - destruct (routes c !! k) as [e'|] eqn:Hk; [|done].
    destruct (bool_decide (owner e' = id)) eqn:Ho; [done|]. intros [= <-]. breflect.
    unfold PutInstance. destruct ts as [|t0 ts]; cbn [byInst removeInstanceLocked].
    + rewrite lookup_delete_ne by done. by apply Hc.
    + rewrite lookup_insert_ne, lookup_delete_ne by done. by apply Hc.
Qed.

(** * Events *)

Section Events.
Context (unicode_lower : string → string).
Context (unmarshal_info : string → option InstanceInfo).
Context (unmarshal_entries : string → option (list string)).
Let apply := ApplyInstanceEvent unicode_lower unmarshal_info unmarshal_entries.

Record event : Type := mkEvent { ev_kind : EventKind; ev_key : string; ev_value : string }.

(** The instance an event is about. *)
Definition event_id (e : event) : string :=
  match ev_kind e, unmarshal_info (ev_value e) with
  | EventPut, Some info =>
      if bool_decide (InstanceID info = "") then instanceIDFromKey (ev_key e) else InstanceID info
  | _, _ => instanceIDFromKey (ev_key e)
  end.

(** The targets it publishes. *)
Definition event_targets (e : event) : list Target :=
  match ev_kind e, unmarshal_info (ev_value e) with
  | EventPut, Some info =>
      if (st_Code (info_Status info) =? kernelStatusRunning)%Z && negb (bool_decide (TenantID info = ""))
      then match ComputeRoutes unicode_lower unmarshal_entries info with
           | Ok ts => with_tenant (TenantID info) <$> ts
           | Err _ => []
           end
      else []
  | _, _ => []
  end.

Definition apply_event (c : Cache) (e : event) : Cache := apply c (ev_kind e) (ev_key e) (ev_value e).
Definition apply_events (es : list event) : Cache := foldl apply_event NewCache es.

Lemma apply_put c e : apply_event c e = PutInstance c (event_id e) (event_targets e).
Proof.
  unfold apply_event, apply, ApplyInstanceEvent, event_id, event_targets.
  destruct (ev_kind e); [|done]. destruct (unmarshal_info (ev_value e)) as [info|]; [|done].
  destruct (st_Code _ =? kernelStatusRunning)%Z; cbn [negb andb]; [|done].
  destruct (ComputeRoutes _ _ info) as [[|t ts]|]; cbn [fmap list_fmap];
    destruct (bool_decide (TenantID info = "")); done.
Qed.

Lemma apply_events_inv es : cache_inv (apply_events es).
Proof.
  induction es as [|e es IH] using rev_ind; [by intros k x Hk; cbn in Hk; rewrite lookup_empty in Hk|].
  unfold apply_events. rewrite foldl_snoc, apply_put. by apply Put_inv.
Qed.

(** The route a document gives rise to. *)
Lemma entry_target_spec info hostIP safeID x t :
  entry_target unicode_lower info hostIP safeID x = Some t →
  t_InstanceID t = InstanceID info ∧ SafeInstanceID (t_Key t) = safeID ∧
  (1 ≤ Port (t_Key t) < 65536)%Z ∧ (t_Scheme t = "http" ∨ t_Scheme t = "https").
Proof.
  unfold entry_target. destruct (entry_parts x) as [[[p h] c]|]; [|done].
  destruct (ParseUint c 16) as [cp|] eqn:Hc; [|done]. destruct (cp =? 0)%Z eqn:Hc0; [done|].
  destruct (ParseUint h 16) as [hp|]; [|done]. destruct (hp =? 0)%Z; [done|].
  destruct (backendScheme unicode_lower p) as [s|] eqn:Hs; [|done]. intros [= <-]. cbn.
  apply ParseUint_range in Hc. breflect. do 2 (split; [done|]). split; [lia|].
  unfold backendScheme in Hs. destruct (Split _ "+") as [|q [|r [|? ?]]]; try done.
  - destruct (bool_decide (q = "http") || _) eqn:Hq.
    + injection Hs as <-. apply orb_true_iff in Hq as [Hq|Hq]; breflect; tauto.
    + case_in Hs; [injection Hs as <-; tauto|done].
  - case_in Hs; [|done]. destruct (bool_decide (r = "http") || _) eqn:Hq; [|done].
    injection Hs as <-. apply orb_true_iff in Hq as [Hq|Hq]; breflect; tauto.
Qed.

Lemma ComputeRoutes_runtime info ts t :
  ComputeRoutes unicode_lower unmarshal_entries info = Ok ts → t ∈ ts →
  t_RuntimeID t = RuntimeID info.
Proof.
  unfold ComputeRoutes. destruct (Extensions info !! portForwardKey) as [raw|];
    [|intros [= <-] Ht; by apply not_elem_of_nil in Ht].
  case_goal; [intros [= <-] Ht; by apply not_elem_of_nil in Ht|]. case_goal; [done|].
  destruct (unmarshal_entries raw); [|done]. intros [= <-] Ht.
  apply list_elem_of_omap in Ht as (x & _ & Hx). unfold entry_target in Hx.
  repeat (case_in Hx; try done). by injection Hx as <-.
Qed.

Lemma event_targets_spec e t :
  t ∈ event_targets e →
  ∃ info, ev_kind e = EventPut ∧ unmarshal_info (ev_value e) = Some info ∧
    st_Code (info_Status info) = kernelStatusRunning ∧
    TenantID info ≠ "" ∧ t_Tenant t = TenantID info ∧ t_InstanceID t = InstanceID info ∧
    SafeInstanceID (t_Key t) = SanitizeID (InstanceID info) ∧
    (1 ≤ Port (t_Key t) < 65536)%Z ∧ (t_Scheme t = "http" ∨ t_Scheme t = "https").
Proof.
  unfold event_targets. intros Ht. destruct (ev_kind e); [|by apply not_elem_of_nil in Ht].
  destruct (unmarshal_info (ev_value e)) as [info|]; [|by apply not_elem_of_nil in Ht].
  destruct (_ && _) eqn:Hg; [|by apply not_elem_of_nil in Ht]. breflect.
  destruct (ComputeRoutes _ _ info) as [ts|] eqn:Hr; [|by apply not_elem_of_nil in Ht].
  apply list_elem_of_fmap in Ht as (t0 & -> & Ht0). exists info.
  unfold ComputeRoutes in Hr. destruct (Extensions info !! portForwardKey) as [raw|];
    [|injection Hr as <-; by apply not_elem_of_nil in Ht0].
  case_in Hr; [injection Hr as <-; by apply not_elem_of_nil in Ht0|].
  case_in Hr; [done|]. destruct (unmarshal_entries raw) as [xs|]; [|done]. injection Hr as <-.
  apply list_elem_of_omap in Ht0 as (x & _ & Hx).
  apply entry_target_spec in Hx as (H1 & H2 & H3 & H4). cbn. done.
Qed.

(** No stale and no foreign routes: whatever events the watch delivered, a
    route in the cache stems from a document of a RUNNING instance with a
    tenant, carries that tenant, that instance's sanitized id and a port
    between 1 and 65535, and no later event concerned the same instance. *)
Theorem route_provenance es key t :
  Get (apply_events es) key = Some t →
  ∃ es1 e es2 info,
    es = es1 ++ e :: es2 ∧ ev_kind e = EventPut ∧ unmarshal_info (ev_value e) = Some info ∧
    (∀ e', e' ∈ es2 → event_id e' ≠ event_id e) ∧
    st_Code (info_Status info) = kernelStatusRunning ∧
    TenantID info ≠ "" ∧ t_Tenant t = TenantID info ∧ t_InstanceID t = InstanceID info ∧
    SafeInstanceID key = SanitizeID (InstanceID info) ∧ (1 ≤ Port key < 65536)%Z.
Proof.
  unfold Get. intros Hg.
  enough (Hx : ∀ x, routes (apply_events es) !! key = Some x → ∃ es1 e es2,
    es = es1 ++ e :: es2 ∧ owner x = event_id e ∧ (∀ e', e' ∈ es2 → event_id e' ≠ event_id e) ∧
    target x ∈ event_targets e ∧ t_Key (target x) = key).
  { destruct (routes _ !! key) as [x|] eqn:Hk; [|done]. injection Hg as <-.
    destruct (Hx x eq_refl) as (es1 & e & es2 & -> & _ & Hn & Ht & <-).
    apply event_targets_spec in Ht as (info & ? & ? & ? & ? & ? & ? & ? & ? & _).
    by exists es1, e, es2, info. }
  clear Hg t. induction es as [|e es IH] using rev_ind; intros x.
  { cbn. by rewrite lookup_empty. }
  unfold apply_events. rewrite foldl_snoc, apply_put.
  rewrite (Put_lookup _ _ _ _ (apply_events_inv es)).
  destruct (last _) as [t|] eqn:Hl.
  - intros [= <-]. apply last_filter_elem in Hl as [Hin Hk]. exists es, e, []. cbn.
    split; [done|]. split; [done|]. split; [|done]. intros e' He'. by apply not_elem_of_nil in He'.
  - fold (apply_events es). destruct (routes (apply_events es) !! key) as [y|] eqn:Hy; [|done].
    destruct (bool_decide (owner y = event_id e)) eqn:Ho; [done|]. intros [= <-]. breflect.
    destruct (IH y eq_refl) as (es1 & e0 & es2 & -> & H1 & H2 & H3 & H4).
    exists es1, e0, (es2 ++ [e]). rewrite <- app_assoc. cbn. split; [done|]. split; [done|].
    split; [|done]. intros e' He'. apply elem_of_app in He' as [He'|He']; [by apply H2|].
    apply list_elem_of_singleton in He' as ->. congruence.
Qed.

(** A published route is served: right after an event, the last target the
    document publishes for a key is what the cache answers for it, and the keys
    of other instances keep their targets unless the document takes them over. *)
Theorem route_published es e key :
  Get (apply_events (es ++ [e])) key =
  match last (filter (λ t, t_Key t = key) (event_targets e)) with
  | Some t => Some t
  | None =>
      match routes (apply_events es) !! key with
      | Some x => if bool_decide (owner x = event_id e) then None else Some (target x)
      | None => None
      end
  end.
Proof.
  unfold Get, apply_events. rewrite foldl_snoc, apply_put.
  rewrite (Put_lookup _ _ _ _ (apply_events_inv es)).
  destruct (last _); [done|]. fold (apply_events es).
  destruct (routes (apply_events es) !! key) as [x|]; [|done]. by destruct (bool_decide _).
Qed.
End Events.

(** * Paths *)

(** The bytes of a multi-byte rune are not ASCII. *)
Fixpoint lead_high (k : nat) (s : string) : bool :=
  match k, s with
  | S k, String c s => negb (is_ascii_byte c) && lead_high k s
  | _, _ => true
  end.

Lemma byte_in_high lo hi c : (128 ≤ lo)%N → byte_in lo hi c = true → is_ascii_byte c = false.
Proof.
  unfold byte_in, is_ascii_byte. intros Hlo Hc. apply andb_true_iff in Hc as [Hc _].
  apply N.leb_le in Hc. apply N.ltb_ge. lia.
Qed.

Lemma utf8_width_high c s w :
  utf8_width (String c s) = Some w → w ≠ 1 →
  is_ascii_byte c = false ∧ lead_high (pred w) s = true.
Proof.
  cbn [utf8_width]. destruct (is_ascii_byte c) eqn:Ha; [intros [= <-]; done|].
  assert (Hcont : ∀ x, cont x = true → is_ascii_byte x = false)
    by (intros x; apply byte_in_high; lia).
  assert (Hmid : ∀ (b1 b2 : bool) x lo1 hi1 lo2 hi2, (128 ≤ lo1)%N → (128 ≤ lo2)%N →
    (if b1 then byte_in lo1 hi1 x else if b2 then byte_in lo2 hi2 x else cont x) = true →
    is_ascii_byte x = false).
  { intros [] [] x lo1 hi1 lo2 hi2 H1 H2 Hx; eauto using byte_in_high. }
  destruct s as [|b s]; [done|]. destruct (byte_in 194 223 c).
  { destruct (cont b) eqn:Hb; [|done]. intros [= <-] _. cbn. by rewrite (Hcont b Hb). }
  destruct s as [|d s]; [done|]. destruct (byte_in 224 239 c).
  { destruct (_ && cont d) eqn:Hb; [|done]. apply andb_true_iff in Hb as [Hb Hd].
    intros [= <-] _. cbn. rewrite (Hcont d Hd). split; [done|].
    eapply Hmid in Hb as ->; done. }
  destruct s as [|e s]; [done|]. destruct (_ && cont e) eqn:Hb; [|done].
  apply andb_true_iff in Hb as [Hb He]. apply andb_true_iff in Hb as [Hb Hd].
  apply andb_true_iff in Hb as [_ Hb]. intros [= <-] _. cbn.
  rewrite (Hcont d Hd), (Hcont e He). split; [done|].
  eapply Hmid in Hb as ->; done.
Qed.

(** A mapping that never yields an ASCII byte [b] removes it. *)
Lemma map_go_no_byte f b k s :
  is_ascii_byte b = true → (∀ a, f a ≠ b) → lead_high k s = true →
  has_byte b (map_go f k s) = false.
Proof.
  intros Hb Hf. assert (Hhigh : ∀ c, is_ascii_byte c = false → bool_decide (c = b) = false).
  { intros c Hc. apply bool_decide_false. intros ->. congruence. }
  revert k. induction s as [|c s IH]; intros k Hk; [done|]. destruct k as [|k].
  - cbn [map_go]. destruct (utf8_width (String c s)) as [w|] eqn:Hw.
    + destruct (decide (w = 1)) as [->|Hne].
      * cbn [has_byte]. rewrite bool_decide_false by apply Hf. by apply IH.
      * destruct (utf8_width_high _ _ _ Hw Hne) as [Hc Hl].
        assert (has_byte b (String c (map_go f (pred w) s)) = false) as Hr.
        { cbn [has_byte]. by rewrite (Hhigh c Hc), IH. }
        destruct w as [|[|w]]; done.
    + rewrite has_byte_app. rewrite (IH 0) by done. rewrite orb_false_r.
      unfold rune_error. cbn [has_byte]. by rewrite !Hhigh by done.
  - cbn [lead_high] in Hk. apply andb_true_iff in Hk as [Hc Hk]. apply negb_true_iff in Hc.
    cbn [map_go has_byte]. by rewrite (Hhigh c Hc), IH.
Qed.

Lemma route_has_byte_take b n s : has_byte b s = false → has_byte b (str_take n s) = false.
Proof.
  intros H. rewrite <- (str_take_drop n s), has_byte_app in H. by apply orb_false_iff in H as [? _].
Qed.

Lemma map_go_nonempty f s : s ≠ "" → map_go f 0 s ≠ "".
Proof.
  destruct s as [|c s]; [done|]. intros _. cbn [map_go].
  destruct (utf8_width _) as [[|[|w]]|]; done.
Qed.

Lemma ReplaceAll_nonempty c s new : new ≠ "" → s ≠ "" → ReplaceAll s (String c "") new ≠ "".
Proof.
  intros Hn. destruct s as [|a s]; [done|]. intros _. rewrite ReplaceAll_cons.
  destruct (bool_decide _); [|done]. destruct new; [done|]. done.
Qed.

(** Sanitized ids are path segments: bounded, without separators, and not empty
    unless the id is. *)
Lemma SanitizeID_segment id :
  String.length (SanitizeID id) ≤ maxRouterNameLen ∧ has_byte "/" (SanitizeID id) = false ∧
  has_byte "." (SanitizeID id) = false ∧ has_byte "_" (SanitizeID id) = false ∧
  (id ≠ "" → SanitizeID id ≠ "").
Proof.
  unfold SanitizeID. cbn zeta. set (s := MapAscii sanitize_rune (ReplaceAll id "@" "-at-")).
  assert (Hs : ∀ b, is_ascii_byte b = true → (∀ a, sanitize_rune a ≠ b) → has_byte b s = false).
  { intros b Hb Hf. by apply map_go_no_byte. }
  assert (Hf : ∀ b, b = "/"%char ∨ b = "."%char ∨ b = "_"%char → has_byte b s = false).
  { intros b Hb. apply Hs; [by destruct Hb as [->|[->| ->]]|]. intros a. unfold sanitize_rune.
    destruct (_ || _) eqn:Ha; [by destruct Hb as [->|[->| ->]]|].
    apply orb_false_iff in Ha as [Ha ?]. apply orb_false_iff in Ha as [? ?]. breflect.
    intros ->. destruct Hb as [->|[->| ->]]; done. }
  assert (Hne : id ≠ "" → s ≠ "").
  { intros Hid. apply map_go_nonempty. by apply ReplaceAll_nonempty. }
  destruct (maxRouterNameLen <? String.length s) eqn:Hl; breflect.
  - split; [rewrite length_str_take; lia|].
    do 3 (split; [apply route_has_byte_take, Hf; tauto|]). intros Hid. specialize (Hne Hid).
    by destruct s.
  - split; [lia|]. do 3 (split; [apply Hf; tauto|]). done.
Qed.

Lemma parse_digits_no_byte c s acc n :
  digit c = None → parse_digits acc s = Some n → has_byte c s = false.
Proof.
  intros Hc. revert acc. induction s as [|a s IH]; intros acc; cbn; [done|].
  destruct (digit a) as [d|] eqn:Ha; [|done]. intros Hp. rewrite (IH _ Hp), orb_false_r.
  apply bool_decide_false. intros ->. congruence.
Qed.

Lemma ParseUint_no_byte c s bits n :
  digit c = None → ParseUint s bits = Some n → s ≠ "" ∧ has_byte c s = false.
Proof.
  intros Hc. unfold ParseUint. destruct (bool_decide (s = "")) eqn:Hs; [done|]. breflect.
  destruct (parse_digits 0 s) as [m|] eqn:Hp; [|done]. intros _.
  split; [done|]. by eapply parse_digits_no_byte.
Qed.

(** Paths reach routes: the entry path of a sandbox port, the sanitized
    instance id and the port followed by nothing or by a path, parses to the
    key under which that instance's routes are cached and to the rest of the
    path; the sanitized id is at most 200 bytes and has no separators. *)
Theorem path_reaches_route id port rest :
  id ≠ "" → (1 ≤ port < 65536)%Z → rest = "" ∨ HasPrefix rest "/" = true →
  ParsePath ("/" +:+ SanitizeID id +:+ "/" +:+ FormatUint port +:+ rest) =
    Some (mkParsed (mkKey (SanitizeID id) port) (if bool_decide (rest = "") then "/" else rest)) ∧
  String.length (SanitizeID id) ≤ maxRouterNameLen ∧ has_byte "/" (SanitizeID id) = false ∧
  has_byte "." (SanitizeID id) = false ∧ has_byte "_" (SanitizeID id) = false.
Proof.
  intros Hid Hport Hrest. destruct (SanitizeID_segment id) as (Hlen & Hs & Hd & Hu & Hne).
  specialize (Hne Hid). split; [|done].
  pose proof (ParseUint_FormatUint port 16 ltac:(lia) ltac:(lia)) as Hp.
  destruct (ParseUint_no_byte "/" _ _ _ eq_refl Hp) as [Hpn Hpb].
  set (sid := SanitizeID id) in *. set (ps := FormatUint port) in *.
  rewrite app_cons_str, app_nil_l_str. cbn [ParsePath]. rewrite bool_decide_true by done. cbn [negb].
  rewrite app_cons_str, app_nil_l_str, (IndexByte_app sid (ps +:+ rest) "/" Hs).
  rewrite str_take_app. replace (S (String.length sid)) with (String.length sid + 1) by lia.
  rewrite str_drop_app_add. cbn [str_drop].
  rewrite (bool_decide_false (sid = "")) by done. cbn [orb].
  destruct Hrest as [->|Hrest].
  - rewrite app_nil_r_str, (proj2 (IndexByte_None ps "/") Hpb).
    rewrite (bool_decide_false (ps = "")) by done. rewrite Hp.
    by rewrite (proj2 (Z.eqb_neq port 0)) by lia.
  - apply HasPrefix_spec in Hrest as [r ->]. rewrite app_cons_str, app_nil_l_str.
    rewrite (IndexByte_app ps r "/" Hpb), str_take_app, str_drop_app.
    rewrite (bool_decide_false (ps = "")) by done. rewrite Hp.
    by rewrite (proj2 (Z.eqb_neq port 0)) by lia.
Qed.

Lemma path_reaches_route_witness :
  ParsePath "/a-at-b-c/8080/x" = Some (mkParsed (mkKey "a-at-b-c" 8080) "/x").
Proof.
  destruct (path_reaches_route "a@b/c" 8080 "/x") as [H _];
    [discriminate|lia|right; reflexivity|exact H].
Defined.

(** A concrete watch: one document of a running sandbox, then an unrelated
    deletion. *)
Definition ex_info : InstanceInfo :=
  mkInfo "sb@1" "t1" "fn" "p" "10.0.0.1:22772" "" "rt" "" "" "" 1 (mkStatus 3 "" 0 0 0)
    {["portForward" := "list"]}.
Definition ex_unmarshal (v : string) : option InstanceInfo :=
  if bool_decide (v = "doc") then Some ex_info else None.
Definition ex_entries (raw : string) : option (list string) := Some ["https:30080:8080"].
Definition ex_events : list event :=
  [mkEvent EventPut "/sn/instance/sb@1" "doc"; mkEvent EventDelete "/sn/instance/other" ""].

Lemma route_provenance_witness :
  ∃ es1 e es2 info,
    ex_events = es1 ++ e :: es2 ∧ ev_kind e = EventPut ∧ ex_unmarshal (ev_value e) = Some info ∧
    (∀ e', e' ∈ es2 → event_id ex_unmarshal e' ≠ event_id ex_unmarshal e) ∧
    st_Code (info_Status info) = kernelStatusRunning ∧
    TenantID info ≠ "" ∧ "t1" = TenantID info ∧ "sb@1" = InstanceID info ∧
    "sb-at-1" = SanitizeID (InstanceID info) ∧ (1 ≤ 8080 < 65536)%Z.
Proof.
  apply (route_provenance (λ s, s) ex_unmarshal ex_entries ex_events (mkKey "sb-at-1" 8080)
    (mkTarget "sb@1" "rt" (mkKey "sb-at-1" 8080) "10.0.0.1:30080" "https" "" "t1")).
  vm_compute. reflexivity.
Defined.
