(* ===== verification/ExecEndpoint.v ===== *)
(** The exec endpoint cache, [sandboxrouter/execendpoint], which the web
    terminal and file-copy paths read instead of asking the master, with the
    rootfs display of [sandboxrouter/rootfs]. JSON decoders are parameters. *)

From Stdlib Require Import SpecFloat.
From S2P Require Import Prelude GoStrings Route.

(** * Rootfs display (rootfs.go) *)

Record Display : Type := mkDisplay { d_Image : string; d_Endpoint : string }.

Record spec : Type := mkSpec {
  sp_Type : string; sp_ImageURL : string;
  sp_Endpoint : string; sp_Bucket : string; sp_Object : string;
}.

Fixpoint trim_left_byte (c : ascii) (s : string) : string :=
  match s with
  | String a r => if bool_decide (a = c) then trim_left_byte c r else s
  | EmptyString => ""
  end.

(** [strings.Trim(s, "/")] *)
Definition TrimSlash (s : string) : string :=
  String.rev (trim_left_byte "/" (String.rev (trim_left_byte "/" s))).

(** [strings.EqualFold(s, "s3")]: the fold of "s" also holds the long s U+017F. *)
Definition equal_fold_s3 (s : string) : bool :=
  bool_decide (s = "s3") || bool_decide (s = "S3")
  || bool_decide (s = String (ascii_of_N 197) (String (ascii_of_N 191) "3")).

Definition spec_Display (s : spec) : Display :=
  if equal_fold_s3 (TrimSpace (sp_Type s)) then
    let bucket := TrimSpace (sp_Bucket s) in
    let object := TrimSlash (TrimSpace (sp_Object s)) in
    let endpoint := TrimSpace (sp_Endpoint s) in
    if negb (bool_decide (bucket = "")) && negb (bool_decide (object = ""))
    then mkDisplay ("s3://" +:+ bucket +:+ "/" +:+ object) endpoint
    else if negb (bool_decide (bucket = "")) then mkDisplay ("s3://" +:+ bucket) endpoint
    else mkDisplay (TrimSpace (sp_ImageURL s)) endpoint
  else mkDisplay (TrimSpace (sp_ImageURL s)) "".

(** * The store (endpoint.go) *)

Definition StatusRunning : Z := 3.
Definition StatusFailed : Z := 4.
Definition StatusFatal : Z := 6.
Definition StatusScheduleFailed : Z := 7.
Definition StatusPaused : Z := 13.
Definition InstanceManagerOwner : string := "InstanceManagerOwner".

Record Endpoint : Type := mkEndpoint {
  ep_InstanceID : string;
  ep_ProxyGrpcAddress : string;
  ep_ContainerID : string;
}.

Record Resource : Type := mkResource { r_Value : spec_float; r_Limit : spec_float }.

Record Summary : Type := mkSummary {
  su_InstanceID : string;
  su_TenantID : string;
  su_NodeID : string;
  su_Function : string;
  su_Image : string;
  su_ImageEndpoint : string;
  su_StatusCode : Z;
  su_StatusMsg : string;
  su_StatusType : Z;
  su_StatusExitCode : Z;
  su_StatusErrCode : Z;
  su_StartTime : string;
  su_ObservedRunningAt : option Z;
  su_Resources : gmap string Resource;
  su_ContainerID : string;
  su_ContainerIP : string;
  su_SandboxType : string;
  su_CreateOptions : gmap string string;
}.

Record Store : Type := mkStore {
  m : gmap string Endpoint;
  summaries : gmap string Summary;
}.

Definition NewStore : Store := mkStore ∅ ∅.
Definition st_Get (s : Store) (id : string) : option Endpoint := m s !! id.
Definition GetSummary (s : Store) (id : string) : option Summary := summaries s !! id.

Definition Put (s : Store) (ep : Endpoint) : Store :=
  if bool_decide (ep_InstanceID ep = "") then s
  else mkStore (<[ep_InstanceID ep := ep]> (m s)) (summaries s).

Definition with_observed (su : Summary) (t : option Z) : Summary :=
  mkSummary (su_InstanceID su) (su_TenantID su) (su_NodeID su) (su_Function su) (su_Image su)
    (su_ImageEndpoint su) (su_StatusCode su) (su_StatusMsg su) (su_StatusType su)
    (su_StatusExitCode su) (su_StatusErrCode su) (su_StartTime su) t (su_Resources su)
    (su_ContainerID su) (su_ContainerIP su) (su_SandboxType su) (su_CreateOptions su).

Definition PutSummary (now : Z) (s : Store) (su : Summary) : Store :=
  if bool_decide (su_InstanceID su = "") then s
  else
    let su :=
      match su_ObservedRunningAt su with
      | Some _ => su
      | None =>
          match summaries s !! su_InstanceID su ≫= su_ObservedRunningAt with
          | Some t => with_observed su (Some t)
          | None => with_observed su (Some now)
          end
      end in
    mkStore (m s) (<[su_InstanceID su := su]> (summaries s)).

Definition IsPaused (s : Store) (id : string) : bool :=
  match GetSummary s id with
  | Some su => (su_StatusCode su =? StatusPaused)%Z
  | None => false
  end.

Definition Delete (s : Store) (id : string) : Store :=
  mkStore (delete id (m s)) (delete id (summaries s)).
Definition DeleteEndpoint (s : Store) (id : string) : Store :=
  mkStore (delete id (m s)) (summaries s).

Definition su_le (a b : Summary) : Prop := String.le (su_InstanceID a) (su_InstanceID b).
#[global] Instance su_le_dec : RelDecision su_le.
Proof. intros a b. unfold su_le. apply _. Defined.

Definition ListSummaries (s : Store) (tenantID instanceID : string) : list Summary :=
  merge_sort su_le
    (filter (λ su, (tenantID = "" ∨ su_TenantID su = tenantID) ∧
                   (instanceID = "" ∨ su_InstanceID su = instanceID))
            (snd <$> map_to_list (summaries s))).

(** * Events (apply.go) *)

Definition cacheableInstanceStates : gset Z := {[1; 2; 3; 4; 6; 7; 11; 13]}%Z.

Record instanceExecInfo : Type := mkExecInfo {
  x_InstanceID : string;
  x_TenantID : string;
  x_FunctionProxyID : string;
  x_ProxyGrpcAddress : string;
  x_ContainerID : string;
  x_ContainerIP : string;
  x_Function : string;
  x_StartTime : string;
  x_CreateOptions : gmap string string;
  x_Extension : gmap string string;
  x_Resources : gmap string Resource;
  x_Status : InstanceStatus;
}.

Fixpoint tenant_after (parts : list string) : string :=
  match parts with
  | p :: ((q :: _) as rest) => if bool_decide (p = "tenant") then q else tenant_after rest
  | _ => ""
  end.

Definition tenantIDFromKey (key : string) : string := tenant_after (Split key "/").

Section Decoding.
Context (unmarshal_exec : string → option instanceExecInfo).
Context (unmarshal_spec : string → option spec).

Definition DisplayInfo (rootfs : string) : Display :=
  let rootfs := TrimSpace rootfs in
  if bool_decide (rootfs = "") then mkDisplay "" ""
  else match unmarshal_spec rootfs with
  | Some parsed => spec_Display parsed
  | None => if negb (HasPrefix rootfs "{") then mkDisplay rootfs "" else mkDisplay "" ""
  end.

Fixpoint rootfsDisplay (optionMaps : list (gmap string string)) : Display :=
  match optionMaps with
  | [] => mkDisplay "" ""
  | options :: rest =>
      let display := DisplayInfo (default "" (options !! "rootfs")) in
      if negb (bool_decide (d_Image display = "")) || negb (bool_decide (d_Endpoint display = ""))
      then display else rootfsDisplay rest
  end.

(** The summary of a document; an empty map and a nil one are the same here. *)
Definition exec_summary (id key : string) (info : instanceExecInfo) : Summary :=
  let tenantID := if bool_decide (x_TenantID info = "") then tenantIDFromKey key
                  else x_TenantID info in
  let image := rootfsDisplay [x_Extension info; x_CreateOptions info] in
  let st := x_Status info in
  mkSummary id tenantID (x_FunctionProxyID info) (x_Function info) (d_Image image)
    (d_Endpoint image) (st_Code st) (st_Msg st) (st_Type st) (st_ExitCode st) (st_ErrCode st)
    (x_StartTime info) None (x_Resources info) (x_ContainerID info) (x_ContainerIP info)
    (default "" (x_CreateOptions info !! "sandbox_type")) (x_CreateOptions info).

(** The states that never leave an exec endpoint. *)
Definition endpoint_allowed (info : instanceExecInfo) : bool :=
  let code := st_Code (x_Status info) in
  negb (bool_decide (x_ProxyGrpcAddress info = "") || (code =? StatusPaused)%Z
        || (code =? StatusFatal)%Z || (code =? StatusFailed)%Z || (code =? StatusScheduleFailed)%Z).

Definition exec_ApplyInstanceEvent (now : Z) (s : Store) (kind : EventKind) (key value : string)
  : Store :=
  match kind with
  | EventDelete =>
      let id := instanceIDFromKey key in
      match GetSummary s id with
      | Some su =>
          if (su_StatusCode su =? StatusFatal)%Z || (su_StatusCode su =? StatusFailed)%Z
          then DeleteEndpoint s id else Delete s id
      | None => Delete s id
      end
  | EventPut =>
      match unmarshal_exec value with
      | None => Delete s (instanceIDFromKey key)
      | Some info =>
          let id := if bool_decide (x_InstanceID info = "") then instanceIDFromKey key
                    else x_InstanceID info in
          if negb (bool_decide (st_Code (x_Status info) ∈ cacheableInstanceStates))
          then Delete s id
          else
            let s := PutSummary now s (exec_summary id key info) in
            if negb (endpoint_allowed info) then DeleteEndpoint s id
            else Put s (mkEndpoint id (x_ProxyGrpcAddress info) (x_ContainerID info))
      end
  end.

(** * Where endpoints come from *)

Record exec_event : Type := mkExecEvent {
  xe_now : Z; xe_kind : EventKind; xe_key : string; xe_value : string;
}.

Definition exec_event_id (e : exec_event) : string :=
  match xe_kind e, unmarshal_exec (xe_value e) with
  | EventPut, Some info =>
      if bool_decide (x_InstanceID info = "") then instanceIDFromKey (xe_key e) else x_InstanceID info
  | _, _ => instanceIDFromKey (xe_key e)
  end.

Definition exec_apply (s : Store) (e : exec_event) : Store :=
  exec_ApplyInstanceEvent (xe_now e) s (xe_kind e) (xe_key e) (xe_value e).

(** The endpoint an event leaves for its instance. *)
Definition exec_endpoint (e : exec_event) : option Endpoint :=
  match xe_kind e, unmarshal_exec (xe_value e) with
  | EventPut, Some info =>
      if bool_decide (st_Code (x_Status info) ∈ cacheableInstanceStates) && endpoint_allowed info
         && negb (bool_decide (exec_event_id e = ""))
      then Some (mkEndpoint (exec_event_id e) (x_ProxyGrpcAddress info) (x_ContainerID info))
      else None
  | _, _ => None
  end.

Lemma PutSummary_m now s su : m (PutSummary now s su) = m s.
Proof. unfold PutSummary. by destruct (bool_decide _). Qed.

Lemma exec_apply_lookup s e id :
  m s !! "" = None →
  m (exec_apply s e) !! id = if bool_decide (id = exec_event_id e) then exec_endpoint e else m s !! id.
Proof.
  intros Hs. assert (Hdel : ∀ s' x, m s' = m s → (delete x (m s') : gmap string Endpoint) !! id =
    if bool_decide (id = x) then None else m s !! id).
  { intros s' x ->. destruct (bool_decide (id = x)) eqn:Hb; breflect;
      [subst; apply lookup_delete_eq|by rewrite lookup_delete_ne]. }
  destruct e as [now k key v]. unfold exec_apply, exec_ApplyInstanceEvent, exec_endpoint, exec_event_id.
  cbn [xe_now xe_kind xe_key xe_value]. destruct k.
  - destruct (unmarshal_exec v) as [info|]; [|by apply Hdel].
    set (x := if bool_decide (x_InstanceID info = "") then instanceIDFromKey key
              else x_InstanceID info).
    destruct (bool_decide (st_Code _ ∈ _)); cbn [negb andb]; [|by apply Hdel].
    destruct (endpoint_allowed info); cbn [negb andb]; [|by apply Hdel, PutSummary_m].
    unfold Put. cbn [ep_InstanceID]. destruct (bool_decide (x = "")) eqn:Hxe; breflect; cbn [negb m].
    + rewrite PutSummary_m. destruct (bool_decide (id = x)) eqn:Hb; [|done]. breflect. congruence.
    + rewrite PutSummary_m. destruct (bool_decide (id = x)) eqn:Hb; breflect;
        [subst id; apply lookup_insert_eq|by rewrite lookup_insert_ne].
  - destruct (GetSummary s _) as [su|]; [|by apply Hdel]. case_goal; by apply Hdel.
Qed.

Definition exec_run (es : list exec_event) : Store := foldl exec_apply NewStore es.

Lemma exec_run_empty_id es : m (exec_run es) !! "" = None.
Proof.
  induction es as [|e es IH] using rev_ind; [apply lookup_empty|]. unfold exec_run in *.
  rewrite foldl_snoc, (exec_apply_lookup _ _ _ IH). destruct (bool_decide _) eqn:Hb; [|done].
  breflect. unfold exec_endpoint. destruct (xe_kind e); [|done].
  destruct (unmarshal_exec _); [|done]. rewrite <- Hb. rewrite (bool_decide_true ("" = "")) by done.
  by rewrite andb_false_r.
Qed.

(** Exec sessions never reach a dead or paused sandbox: an endpoint in the
    store stems from the last event about its instance, a document in a
    cacheable state other than PAUSED, FATAL, FAILED and SCHEDULE_FAILED, and
    dials that document's non-empty proxy address and container. *)
Theorem exec_endpoint_provenance es id ep :
  st_Get (exec_run es) id = Some ep →
  ∃ es1 e es2 info,
    es = es1 ++ e :: es2 ∧ exec_event_id e = id ∧ (∀ e', e' ∈ es2 → exec_event_id e' ≠ id) ∧
    xe_kind e = EventPut ∧ unmarshal_exec (xe_value e) = Some info ∧
    st_Code (x_Status info) ∈ ({[1; 2; 3; 11]}%Z : gset Z) ∧
    x_ProxyGrpcAddress info ≠ "" ∧
    ep = mkEndpoint id (x_ProxyGrpcAddress info) (x_ContainerID info).
Proof.
  unfold st_Get. induction es as [|e es IH] using rev_ind.
  { cbn. by rewrite lookup_empty. }
  unfold exec_run in *. rewrite foldl_snoc.
  rewrite exec_apply_lookup by apply exec_run_empty_id.
  destruct (bool_decide (id = exec_event_id e)) eqn:Hb; breflect.
  - unfold exec_endpoint. destruct (xe_kind e) eqn:Hk; [|done].
    destruct (unmarshal_exec (xe_value e)) as [info|] eqn:Hu; [|done].
    destruct (_ && _) eqn:Hg; [|done]. intros [= <-]. breflect.
    exists es, e, [], info. unfold endpoint_allowed in *. breflect. subst id.
    do 2 (split; [done|]). split; [intros e' He'; by apply not_elem_of_nil in He'|].
    do 2 (split; [done|]). split; [|done].
    unfold cacheableInstanceStates, StatusPaused, StatusFatal, StatusFailed, StatusScheduleFailed in *.
    set_solver.
  - intros Hl. destruct (IH Hl) as (es1 & e0 & es2 & info & -> & H1 & H2 & H3).
    exists es1, e0, (es2 ++ [e]), info. rewrite <- app_assoc. do 2 (split; [done|]).
    split; [|done]. intros e' He'. apply elem_of_app in He' as [He'|He']; [by apply H2|].
    apply list_elem_of_singleton in He' as ->. congruence.
Qed.
End Decoding.

Definition exec_example_info : instanceExecInfo :=
  mkExecInfo "sb1" "t1" "node" "10.0.0.1:1" "c1" "" "f" "" ∅ ∅ ∅ (mkStatus 3 "" 0 0 0).

Lemma exec_endpoint_provenance_witness :
  let dec := λ v, if bool_decide (v = "doc") then Some exec_example_info else None in
  ∃ es1 e es2 info,
    [mkExecEvent 5 EventPut "/x/sb1" "doc"] = es1 ++ e :: es2 ∧ exec_event_id dec e = "sb1" ∧
    (∀ e', e' ∈ es2 → exec_event_id dec e' ≠ "sb1") ∧
    xe_kind e = EventPut ∧ dec (xe_value e) = Some info ∧
    st_Code (x_Status info) ∈ ({[1; 2; 3; 11]}%Z : gset Z) ∧
    x_ProxyGrpcAddress info ≠ "" ∧
    mkEndpoint "sb1" "10.0.0.1:1" "c1" = mkEndpoint "sb1" (x_ProxyGrpcAddress info) (x_ContainerID info).
Proof.
  apply (exec_endpoint_provenance
    (λ v, if bool_decide (v = "doc") then Some exec_example_info else None) (λ _, None)
    [mkExecEvent 5 EventPut "/x/sb1" "doc"]). vm_compute. reflexivity.
Defined.
