(* ===== verification/Resolver.v ===== *)
(** The instance-info resolver, [sandboxrouter/resolver]: observations of
    instances fenced by etcd revision and instance version, kept beside the
    route cache and the exec endpoint store they feed, with the read-through
    that refreshes them from etcd.

    Observations are replaced as a whole, never mutated, and the read-through
    compares pointers to detect a concurrent update; each record carries the
    number of its allocation as its pointer. The clock is an input. A read
    through etcd is two steps, [refresh_begin] and [refresh_end], between which
    watch events may arrive. *)

From S2P Require Import Prelude GoStrings Route RouteFacts ExecEndpoint.
Local Open Scope Z_scope.

Record instanceObservation : Type := mkObs {
  o_ptr : nat;
  o_info : InstanceInfo;
  o_key : string;
  o_revision : Z;
  o_deletedAt : option Z;
}.

Record InstanceInfoWatchResolver : Type := mkResolver {
  r_cache : Cache;
  r_store : Store;
  observations : gmap string (gmap string instanceObservation);
  retention : Z;
  maxRetained : nat;
  nextPrune : option Z;
  next_ptr : nat;
}.

(** Nanoseconds. *)
Definition minute : Z := 60000000000.
Definition defaultFailureRetention : Z := 10 * minute.
Definition defaultMaxRetainedFailures : nat := 4096.

Definition newInstanceInfoWatchResolverWithReader : InstanceInfoWatchResolver :=
  mkResolver NewCache NewStore ∅ defaultFailureRetention defaultMaxRetainedFailures None 0.

Definition rawInstanceID (key : string) : string :=
  match LastIndexByte key "/" with
  | Some i => str_drop (S i) key
  | None => key
  end.

Definition entries_of (r : InstanceInfoWatchResolver) (safeID : string)
  : gmap string instanceObservation := default ∅ (observations r !! safeID).

Definition obs_of (r : InstanceInfoWatchResolver) (safeID id : string) : option instanceObservation :=
  entries_of r safeID !! id.

Definition set_obs (r : InstanceInfoWatchResolver) (safeID id : string) (o : instanceObservation)
  : InstanceInfoWatchResolver :=
  mkResolver (r_cache r) (r_store r)
    (<[safeID := <[id := o]> (entries_of r safeID)]> (observations r))
    (retention r) (maxRetained r) (nextPrune r) (S (next_ptr r)).

Definition set_caches (r : InstanceInfoWatchResolver) (c : Cache) (s : Store)
  : InstanceInfoWatchResolver :=
  mkResolver c s (observations r) (retention r) (maxRetained r) (nextPrune r) (next_ptr r).

(** [now.Before(t)] is [now < t]; a zero [deletedAt] is [None]. *)
Definition expired (r : InstanceInfoWatchResolver) (now : Z) (o : instanceObservation) : bool :=
  match o_deletedAt o with
  | None => false
  | Some t => t + retention r <=? now
  end.

Inductive resolve_error : Type :=
| ErrAmbiguous | ErrRouteNotFound | ErrInstancePaused | ErrFailure (f : InstanceFailure)
| ErrRead.

Definition observationLocked (r : InstanceInfoWatchResolver) (now : Z) (safeID : string)
  : res resolve_error (option instanceObservation) :=
  match filter (λ o, expired r now o = false) (snd <$> map_to_list (entries_of r safeID)) with
  | [] => Ok None
  | [o] => Ok (Some o)
  | _ => Err ErrAmbiguous
  end.

(** [Ok None] asks for a refresh. *)
Definition cachedTarget (r : InstanceInfoWatchResolver) (now : Z) (key : Key)
  : res resolve_error (option Target) :=
  match observationLocked r now (SafeInstanceID key) with
  | Err e => Err e
  | Ok (Some o) =>
      if negb (st_Code (info_Status (o_info o)) =? StatusRunning)
         || negb (bool_decide (o_deletedAt o = None))
      then Ok None else Ok (Route.Get (r_cache r) key)
  | Ok None => Ok (Route.Get (r_cache r) key)
  end.

Definition cache_get (r : InstanceInfoWatchResolver) (key : Key) : res resolve_error Target :=
  match Route.Get (r_cache r) key with Some t => Ok t | None => Err ErrRouteNotFound end.

Definition resultLocked (r : InstanceInfoWatchResolver) (now : Z) (key : Key)
  : res resolve_error Target :=
  match observationLocked r now (SafeInstanceID key) with
  | Err e => Err e
  | Ok None => cache_get r key
  | Ok (Some o) =>
      match FailureFor (o_info o) with
      | Some f => Err (ErrFailure f)
      | None =>
          if negb (bool_decide (o_deletedAt o = None)) then Err ErrRouteNotFound
          else if st_Code (info_Status (o_info o)) =? StatusPaused then Err ErrInstancePaused
          else cache_get r key
      end
  end.

Definition FailureForRuntime (r : InstanceInfoWatchResolver) (now : Z) (key : Key)
    (instanceID runtimeID : string) : option InstanceFailure :=
  if bool_decide (runtimeID = "") || bool_decide (instanceID = "") then None
  else match observationLocked r now (SafeInstanceID key) with
  | Ok (Some o) =>
      if negb (bool_decide (InstanceID (o_info o) = instanceID))
         || negb (bool_decide (RuntimeID (o_info o) = runtimeID)) then None
      else FailureFor (o_info o)
  | _ => None
  end.

(** ** Retention *)

Definition removeObservationLocked (r : InstanceInfoWatchResolver) (safeID id : string)
  : InstanceInfoWatchResolver :=
  let entries := delete id (entries_of r safeID) in
  let obs := if bool_decide (entries = ∅) then delete safeID (observations r)
             else <[safeID := entries]> (observations r) in
  mkResolver (DeleteInstance (r_cache r) id) (ExecEndpoint.Delete (r_store r) id) obs
    (retention r) (maxRetained r) (nextPrune r) (next_ptr r).

(** All observations with the two keys they are stored under. *)
Definition all_obs (r : InstanceInfoWatchResolver) : list (string * string * instanceObservation) :=
  map_to_list (observations r) ≫= λ p, (λ q, (p.1, q.1, q.2)) <$> map_to_list p.2.

Definition pruneLocked (r : InstanceInfoWatchResolver) (now : Z) : InstanceInfoWatchResolver :=
  if match nextPrune r with Some t => now <? t | None => false end then r
  else
    let r := mkResolver (r_cache r) (r_store r) (observations r) (retention r) (maxRetained r)
               (Some (now + minute)) (next_ptr r) in
    foldl (λ r' x, let '(safeID, id, o) := x in
                   if expired r now o then removeObservationLocked r' safeID id else r')
          r (all_obs r).

Definition deleted_le (a b : instanceObservation) : Prop :=
  default 0 (o_deletedAt a) ≤ default 0 (o_deletedAt b).
#[global] Instance deleted_le_dec : RelDecision deleted_le.
Proof. intros a b. unfold deleted_le. apply _. Defined.

Definition enforceRetentionLimitLocked (r : InstanceInfoWatchResolver) : InstanceInfoWatchResolver :=
  let retained := filter (λ o, o_deletedAt o ≠ None) (snd <$> all_obs r) in
  if (length retained <=? maxRetained r)%nat then r
  else
    foldl (λ r' o, removeObservationLocked r' (SanitizeID (InstanceID (o_info o)))
                     (InstanceID (o_info o)))
          r (take (length retained - maxRetained r) (merge_sort deleted_le retained)).

(** ** Updates *)

Definition with_InstanceID (info : InstanceInfo) (id : string) : InstanceInfo :=
  mkInfo id (TenantID info) (Function info) (FunctionProxyID info) (ProxyGrpcAddress info)
    (RuntimeAddress info) (RuntimeID info) (ContainerID info) (ContainerIP info) (RequestID info)
    (Version info) (info_Status info) (Extensions info).

Definition empty_info (id : string) : InstanceInfo :=
  mkInfo id "" "" "" "" "" "" "" "" "" 0 (mkStatus 0 "" 0 0 0) ∅.

Section Decoding.
Context (unicode_lower : string → string).
Context (unmarshal_info : string → option InstanceInfo).
Context (unmarshal_entries : string → option (list string)).
Context (unmarshal_exec : string → option instanceExecInfo).
Context (unmarshal_spec : string → option spec).

Definition deleteLocked (r : InstanceInfoWatchResolver) (now : Z) (key : string)
    (previous : option string) (revision : Z) : InstanceInfoWatchResolver :=
  let id := rawInstanceID key in
  let safeID := SanitizeID id in
  let old := obs_of r safeID id in
  if match old with
     | Some o => negb (bool_decide (o_key o = key))
                 || (negb (revision =? 0) && (revision <=? o_revision o))
     | None => false
     end then r
  else
    let old :=
      match old with
      | Some o => o
      | None =>
          let info :=
            match previous ≫= unmarshal_info with
            | Some info => if bool_decide (InstanceID info = id) then info else empty_info id
            | None => empty_info id
            end in
          mkObs 0 info key 0 None
      end in
    let firstDelete := bool_decide (o_deletedAt old = None) in
    let record := mkObs (next_ptr r) (o_info old) (o_key old)
                    (if o_revision old <? revision then revision else o_revision old)
                    (Some (default now (o_deletedAt old))) in
    let r := set_obs r safeID id record in
    let store := DeleteEndpoint (r_store r) id in
    let store := match FailureFor (o_info record) with
                 | None => ExecEndpoint.Delete store id
                 | Some _ => store
                 end in
    let r := set_caches r (DeleteInstance (r_cache r) id) store in
    if firstDelete then enforceRetentionLimitLocked r else r.

(** The guards of [putLocked] that drop an update. *)
Definition put_stale (old : instanceObservation) (key : string) (info : InstanceInfo)
    (revision : Z) : bool :=
  (negb (revision =? 0)
   && ((revision <? o_revision old)
       || ((revision =? o_revision old)
           && (bool_decide (o_key old = key) || bool_decide (o_deletedAt old = None)))))
  || (bool_decide (o_key old = key) && (Version info <? Version (o_info old))).

Definition putLocked (r : InstanceInfoWatchResolver) (now : Z) (key value : string) (revision : Z)
  : InstanceInfoWatchResolver :=
  match unmarshal_info value with
  | None => deleteLocked r now key None revision
  | Some info =>
      let info := if bool_decide (InstanceID info = "") then with_InstanceID info (rawInstanceID key)
                  else info in
      let id := InstanceID info in
      let safeID := SanitizeID id in
      let old := obs_of r safeID id in
      if match old with Some o => put_stale o key info revision | None => false end then r
      else
        let rev :=
          match old with
          | Some o => if bool_decide (o_key o = key) && (revision =? 0) then o_revision o else revision
          | None => revision
          end in
        let r := set_obs r safeID id (mkObs (next_ptr r) info key rev None) in
        set_caches r
          (Route.ApplyInstanceEvent unicode_lower unmarshal_info unmarshal_entries
             (r_cache r) EventPut key value)
          (exec_ApplyInstanceEvent unmarshal_exec unmarshal_spec now (r_store r) EventPut key value)
  end.

Inductive etcd_event : Type :=
| EtcdPut (key value : string) (rev : Z)
| EtcdDelete (key : string) (prev : option string) (rev : Z)
| EtcdOther.

Definition applyEvent (r : InstanceInfoWatchResolver) (now : Z) (e : etcd_event)
  : InstanceInfoWatchResolver :=
  let r := pruneLocked r now in
  match e with
  | EtcdPut key value rev => putLocked r now key value rev
  | EtcdDelete key prev rev => deleteLocked r now key prev rev
  | EtcdOther => r
  end.

(** ** The read-through *)

Definition refresh_begin (r : InstanceInfoWatchResolver) (safeID : string)
  : gmap string instanceObservation := entries_of r safeID.

(** Pointer equality of two observation maps. *)
Definition sameObservations (a b : gmap string instanceObservation) : bool :=
  bool_decide ((o_ptr <$> a) = (o_ptr <$> b)).

(** What the authority reader answered. *)
Inductive read_result : Type :=
| ReadFound (key value : string) (revision : Z)
| ReadNotFound (revision : Z)
| ReadFailed.

Definition refresh_end (r : InstanceInfoWatchResolver) (now : Z)
    (snapshot : gmap string instanceObservation) (safeID : string) (result : read_result)
  : res resolve_error InstanceInfoWatchResolver :=
  match result with
  | ReadFailed => Err ErrRead
  | ReadNotFound revision =>
      if negb (sameObservations snapshot (entries_of r safeID)) then Ok r
      else
        let r := foldl (λ r id, match obs_of r safeID id with
                                | Some o => deleteLocked r now (o_key o) None revision
                                | None => r
                                end) r (fst <$> map_to_list (entries_of r safeID)) in
        if bool_decide (entries_of r safeID = ∅)
        then Ok (set_caches r (DeleteInstance (r_cache r) safeID)
                   (ExecEndpoint.Delete (r_store r) safeID))
        else Ok r
  | ReadFound key value revision =>
      if negb (sameObservations snapshot (entries_of r safeID)) then Ok r
      else match unmarshal_info value with
      | None => Err ErrRead
      | Some info =>
          if negb (bool_decide (SanitizeID (InstanceID info) = safeID)) then Err ErrRead
          else Ok (putLocked r now key value revision)
      end
  end.

(** The tail of [Resolve] once a read has completed. *)
Definition Resolve_tail (r : InstanceInfoWatchResolver) (now : Z) (key : Key)
  : res resolve_error Target * InstanceInfoWatchResolver :=
  let r := pruneLocked r now in (resultLocked r now key, r).

(** [Resolve] with no event between the two halves of its read. *)
Definition Resolve (r : InstanceInfoWatchResolver) (now : Z) (key : Key) (read : read_result)
  : res resolve_error Target * InstanceInfoWatchResolver :=
  match cachedTarget r now key with
  | Err e => (Err e, r)
  | Ok (Some t) => (Ok t, r)
  | Ok None =>
      match refresh_end r now (refresh_begin r (SafeInstanceID key)) (SafeInstanceID key) read with
      | Err e => (Err e, r)
      | Ok r => Resolve_tail r now key
      end
  end.
End Decoding.
