(* ===== verification/ResolverFacts.v ===== *)
(** Properties of the resolver: cached routes agree with live observations,
    revisions and versions of an observation only grow, and a watch update
    that arrives during a read-through wins over it. *)

From S2P Require Import Prelude GoStrings Route RouteFacts ExecEndpoint Resolver.
Local Open Scope Z_scope.

Section Facts.
Context (unicode_lower : string → string).
Context (unmarshal_info : string → option InstanceInfo).
Context (unmarshal_entries : string → option (list string)).
Context (unmarshal_exec : string → option instanceExecInfo).
Context (unmarshal_spec : string → option spec).

Abbreviation put := (putLocked unicode_lower unmarshal_info unmarshal_entries unmarshal_exec unmarshal_spec).
Abbreviation del := (deleteLocked unmarshal_info).
Abbreviation events := (applyEvent unicode_lower unmarshal_info unmarshal_entries unmarshal_exec unmarshal_spec).
Abbreviation finish := (refresh_end unicode_lower unmarshal_info unmarshal_entries unmarshal_exec unmarshal_spec).

(** The observation that vouches for a cached route. *)
Definition vouches (o : instanceObservation) (t : Target) : Prop :=
  o_deletedAt o = None ∧ st_Code (info_Status (o_info o)) = StatusRunning ∧
  TenantID (o_info o) ≠ "" ∧ t_Tenant t = TenantID (o_info o) ∧ t_RuntimeID t = RuntimeID (o_info o).

Record resolver_inv (r : InstanceInfoWatchResolver) : Prop := {
  ri_cache : cache_inv (r_cache r);
  ri_live : ∀ k e, routes (r_cache r) !! k = Some e →
    ∃ o, obs_of r (SanitizeID (owner e)) (owner e) = Some o ∧ vouches o (target e);
  ri_ptr : ∀ s id o, obs_of r s id = Some o → (o_ptr o < next_ptr r)%nat;
  ri_keyed : ∀ s id o, obs_of r s id = Some o → s = SanitizeID id ∧ InstanceID (o_info o) = id;
}.

Lemma new_inv : resolver_inv newInstanceInfoWatchResolverWithReader.
Proof.
  split.
  - intros k e Hk. cbn in Hk. by rewrite lookup_empty in Hk.
  - intros k e Hk. cbn in Hk. by rewrite lookup_empty in Hk.
  - intros s id o. unfold obs_of, entries_of. cbn. by rewrite !lookup_empty.
  - intros s id o. unfold obs_of, entries_of. cbn. by rewrite !lookup_empty.
Qed.

Lemma obs_of_set r s id o s' id' :
  obs_of (set_obs r s id o) s' id' =
  if bool_decide (s = s' ∧ id = id') then Some o else obs_of r s' id'.
Proof.
  unfold obs_of, entries_of, set_obs. cbn. destruct (decide (s = s')) as [->|Hs].
  - rewrite lookup_insert_eq. cbn. destruct (decide (id = id')) as [->|Hi].
    + by rewrite lookup_insert_eq, bool_decide_true.
    + by rewrite lookup_insert_ne, bool_decide_false by naive_solver.
  - by rewrite lookup_insert_ne, bool_decide_false by naive_solver.
Qed.

Lemma obs_of_caches r c st s id : obs_of (set_caches r c st) s id = obs_of r s id.
Proof. done. Qed.

Lemma obs_of_remove r s id s' id' :
  obs_of (removeObservationLocked r s id) s' id' =
  if bool_decide (s = s' ∧ id = id') then None else obs_of r s' id'.
Proof.
  unfold obs_of, removeObservationLocked. set (en := delete id (entries_of r s)).
  assert (He : ∀ mm : gmap string (gmap string instanceObservation), default ∅ (mm !! s') = (if bool_decide (s = s') then en else entries_of r s') →
    default ∅ (mm !! s') !! id' =
    (if bool_decide (s = s' ∧ id = id') then None else entries_of r s' !! id')).
  { intros mm ->. destruct (bool_decide (s = s')) eqn:Hs; breflect.
    - subst s'. unfold en. destruct (decide (id = id')) as [->|Hi].
      + by rewrite lookup_delete_eq, bool_decide_true.
      + by rewrite lookup_delete_ne, bool_decide_false by naive_solver.
    - by rewrite bool_decide_false by naive_solver. }
  unfold entries_of at 1. cbn [observations]. apply He. clear He.
  destruct (bool_decide (en = ∅)) eqn:Hen; breflect; destruct (decide (s = s')) as [<-|Hs].
  - rewrite lookup_delete_eq, bool_decide_true by done. cbn. by rewrite Hen.
  - rewrite lookup_delete_ne, bool_decide_false by done. done.
  - by rewrite lookup_insert_eq, bool_decide_true.
  - by rewrite lookup_insert_ne, bool_decide_false by done.
Qed.

Lemma obs_remove_inv r s id :
  resolver_inv r → s = SanitizeID id → resolver_inv (removeObservationLocked r s id).
Proof.
  intros [Hc Hl Hp Hk0] ->. split.
  - unfold removeObservationLocked. cbn. apply (Put_inv _ id [] Hc).
  - intros k e Hk. cbn in Hk.
    pose proof (Put_lookup (r_cache r) id [] k Hc) as Hlk. cbn in Hlk. rewrite Hlk in Hk.
    destruct (routes (r_cache r) !! k) as [e'|] eqn:He; [|done].
    destruct (bool_decide (owner e' = id)) eqn:Ho; [done|]. injection Hk as <-. breflect.
    destruct (Hl k e' He) as (o & Hob & Hv). exists o. split; [|done].
    rewrite obs_of_remove, bool_decide_false by naive_solver. done.
  - intros s' id' o. rewrite obs_of_remove. case_goal; [done|]. apply Hp.
  - intros s' id' o. rewrite obs_of_remove. case_goal; [done|]. apply Hk0.
Qed.

Lemma all_obs_spec r s id o : (s, id, o) ∈ all_obs r ↔ obs_of r s id = Some o.
Proof.
  unfold all_obs, obs_of, entries_of. rewrite list_elem_of_bind. split.
  - intros ([s' en] & Hin & Hs). apply list_elem_of_fmap in Hin as ([id' o'] & [= -> -> ->] & Hi).
    apply elem_of_map_to_list in Hs, Hi. cbn in *. by rewrite Hs.
  - destruct (observations r !! s) as [en|] eqn:Hs; cbn; [|by rewrite lookup_empty]. intros Hi.
    exists (s, en). split; [|by apply elem_of_map_to_list].
    apply list_elem_of_fmap. exists (id, o). split; [done|]. by apply elem_of_map_to_list.
Qed.

Lemma prune_inv r now : resolver_inv r → resolver_inv (pruneLocked r now).
Proof.
  intros Hr. unfold pruneLocked. case_goal; [done|].
  set (r0 := mkResolver _ _ _ _ _ _ _).
  assert (Hr0 : resolver_inv r0) by (destruct Hr; by split).
  apply foldl_inv; [|done]. intros a [[s id] o] Hin Ha. case_goal; [|done].
  apply obs_remove_inv; [done|]. apply all_obs_spec in Hin. by destruct (ri_keyed _ Hr0 _ _ _ Hin).
Qed.

Lemma enforce_inv r : resolver_inv r → resolver_inv (enforceRetentionLimitLocked r).
Proof.
  intros Hr. unfold enforceRetentionLimitLocked. case_goal; [done|].
  apply foldl_inv; [|done]. intros a o _ Ha. by apply obs_remove_inv.
Qed.

(** Retention only drops records. *)
Lemma enforce_sub r s id o :
  obs_of (enforceRetentionLimitLocked r) s id = Some o → obs_of r s id = Some o.
Proof.
  unfold enforceRetentionLimitLocked. case_goal; [done|].
  apply (foldl_inv (λ r', obs_of r' s id = Some o → obs_of r s id = Some o)); [|done].
  intros a x _ Ha Hx. apply Ha. rewrite obs_of_remove in Hx. by case_in Hx.
Qed.

(** Replacing a record and re-publishing the routes of its instance. *)
Lemma set_publish_inv r id o store ts :
  resolver_inv r → InstanceID (o_info o) = id → o_ptr o = next_ptr r →
  Forall (vouches o) ts →
  resolver_inv (set_caches (set_obs r (SanitizeID id) id o) (PutInstance (r_cache r) id ts) store).
Proof.
  intros [Hc Hl Hp Hk] Hid Hptr Hts. split.
  - cbn. by apply Put_inv.
  - intros k e He. cbn in He. rewrite (Put_lookup _ _ _ _ Hc) in He.
    destruct (last _) as [t|] eqn:Hlast.
    + injection He as <-. cbn [owner target]. exists o. rewrite obs_of_caches, obs_of_set, bool_decide_true by done.
      split; [done|]. apply last_filter_elem in Hlast as [Hin _].
      rewrite Forall_forall in Hts. by apply Hts.
    + destruct (routes (r_cache r) !! k) as [e'|] eqn:He'; [|done].
      destruct (bool_decide (owner e' = id)) eqn:Ho; [done|]. injection He as <-. breflect.
      destruct (Hl k e' He') as (o' & Hob & Hv). exists o'. split; [|done].
      rewrite obs_of_caches, obs_of_set, bool_decide_false by naive_solver. done.
  - intros s id' o'. rewrite obs_of_caches, obs_of_set. case_goal; cbn.
    + intros [= <-]. lia.
    + intros Ho. specialize (Hp _ _ _ Ho). lia.
  - intros s id' o'. rewrite obs_of_caches, obs_of_set. case_goal; breflect.
    + intros [= <-]. naive_solver.
    + apply Hk.
Qed.

Lemma delete_inv r now key prev rev :
  resolver_inv r → resolver_inv (del r now key prev rev).
Proof.
  intros Hr. unfold deleteLocked. cbn zeta.
  set (id := rawInstanceID key). case_goal; [done|].
  set (old := match obs_of r (SanitizeID id) id with Some o => o | None => _ end).
  assert (Hid : InstanceID (o_info old) = id).
  { subst old. destruct (obs_of r (SanitizeID id) id) as [o|] eqn:Ho.
    - by destruct (ri_keyed _ Hr _ _ _ Ho).
    - cbn. destruct (prev ≫= unmarshal_info); [|done]. case_goal; [|done]. by breflect. }
  clearbody old. set (o := mkObs _ _ _ _ _).
  match goal with |- resolver_inv (if _ then enforceRetentionLimitLocked ?x else _) =>
    assert (Hx : resolver_inv x) end.
  { change (DeleteInstance (r_cache (set_obs r (SanitizeID id) id o)) id)
      with (PutInstance (r_cache r) id []).
    by apply set_publish_inv. }
  case_goal; [by apply enforce_inv|done].
Qed.

Lemma obs_put_inv r now key value rev :
  resolver_inv r → resolver_inv (put r now key value rev).
Proof.
  intros Hr. unfold putLocked. destruct (unmarshal_info value) as [info|] eqn:Hu; [|by apply delete_inv].
  cbn zeta. set (info' := if bool_decide (InstanceID info = "") then _ else _).
  case_goal; [done|]. set (o := mkObs _ info' _ _ _).
  pose proof (apply_put unicode_lower unmarshal_info unmarshal_entries (r_cache r)
    (mkEvent EventPut key value)) as Hap.
  unfold apply_event in Hap. cbn [ev_kind ev_key ev_value] in Hap.
  change (r_cache (set_obs r (SanitizeID (InstanceID info')) (InstanceID info') o)) with (r_cache r).
  rewrite Hap.
  assert (Hid : event_id unmarshal_info (mkEvent EventPut key value) = InstanceID info').
  { unfold event_id. cbn. rewrite Hu. subst info'. by destruct (bool_decide (InstanceID info = "")). }
  rewrite Hid. apply set_publish_inv; [done|done|done|].
  apply Forall_forall. intros t Ht.
  unfold event_targets in Ht. cbn [ev_kind ev_value] in Ht. rewrite Hu in Ht.
  destruct (_ && _) eqn:Hg; [|by apply not_elem_of_nil in Ht]. breflect.
  assert (Hinf : info_Status info' = info_Status info ∧ TenantID info' = TenantID info ∧
    RuntimeID info' = RuntimeID info) by (subst info'; by case_goal).
  destruct Hinf as (H1 & H2 & H3).
  destruct (ComputeRoutes _ _ info) as [ts|] eqn:Hc; [|by apply not_elem_of_nil in Ht].
  apply list_elem_of_fmap in Ht as (t0 & -> & Ht0).
  unfold vouches. cbn [o_info o_deletedAt o]. rewrite H1, H2, H3.
  do 4 (split; [done|]). cbn. by eapply ComputeRoutes_runtime.
Qed.

Lemma finish_inv r now snap safeID res r' :
  resolver_inv r → finish r now snap safeID res = Ok r' → resolver_inv r'.
Proof.
  intros Hr. unfold refresh_end. destruct res as [key value rev|rev|]; [| |done].
  - case_goal; [by intros [= <-]|]. destruct (unmarshal_info value); [|done].
    case_goal; [done|]. intros Hf. apply Ok_inj in Hf as <-. by apply obs_put_inv.
  - case_goal; [by intros [= <-]|].
    match goal with |- context [foldl ?f r ?l] =>
      assert (Hf : resolver_inv (foldl f r l)) end.
    { apply foldl_inv; [|done]. intros a id _ Ha. destruct (obs_of a safeID id); [|done].
      by apply delete_inv. }
    revert Hf. generalize (foldl (λ r id, match obs_of r safeID id with
      | Some o => del r now (o_key o) None rev | None => r end) r
      (map_to_list (entries_of r safeID)).*1). intros r1 Hr1.
    case_goal; intros Hok; apply Ok_inj in Hok as <-; [|done].
    destruct Hr1 as [Hc Hl Hp Hk]. split; [by apply (Put_inv _ safeID [] Hc)| |exact Hp|exact Hk].
    intros k e He. cbn in He.
    pose proof (Put_lookup (r_cache r1) safeID [] k Hc) as Hlk. cbn in Hlk. rewrite Hlk in He.
    destruct (routes (r_cache r1) !! k) as [e'|] eqn:He'; [|done].
    destruct (bool_decide (owner e' = safeID)); [done|]. injection He as <-. by apply (Hl k).
Qed.

(** ** Reachable resolvers *)

Inductive resolver_op : Type :=
| OpEvent (now : Z) (e : etcd_event)
| OpRefresh (now : Z) (snapshot : gmap string instanceObservation) (safeID : string) (res : read_result)
| OpPrune (now : Z).

Definition resolver_step (r : InstanceInfoWatchResolver) (o : resolver_op) : InstanceInfoWatchResolver :=
  match o with
  | OpEvent now e => events r now e
  | OpRefresh now snap safeID res => match finish r now snap safeID res with Ok r' => r' | Err _ => r end
  | OpPrune now => pruneLocked r now
  end.

Definition resolver_run (ops : list resolver_op) : InstanceInfoWatchResolver :=
  foldl resolver_step newInstanceInfoWatchResolverWithReader ops.

Lemma event_inv r now e : resolver_inv r → resolver_inv (events r now e).
Proof.
  intros Hr. apply prune_inv with (now := now) in Hr. unfold applyEvent.
  destruct e; [by apply obs_put_inv|by apply delete_inv|done].
Qed.

Lemma resolver_run_inv ops : resolver_inv (resolver_run ops).
Proof.
  unfold resolver_run. apply foldl_inv; [|apply new_inv]. intros r o _ Hr. destruct o as [now e|now snap s res|now].
  - by apply event_inv.
  - cbn. destruct (finish r now snap s res) eqn:Hf; [by eapply finish_inv|done].
  - by apply prune_inv.
Qed.

Lemma cached_vouched r key t :
  resolver_inv r → Route.Get (r_cache r) key = Some t →
  ∃ id o, obs_of r (SanitizeID id) id = Some o ∧ vouches o t.
Proof.
  intros Hr Hg. unfold Route.Get in Hg. destruct (routes (r_cache r) !! key) as [e|] eqn:He; [|done].
  injection Hg as <-. destruct (ri_live _ Hr _ _ He) as (o & ? & ?). eauto.
Qed.

(** C2. The router forwards to live instances only: whatever events, refreshes
    and prunings came before, a target that [Resolve] answers belongs to an
    instance whose current observation is RUNNING and not deleted, and carries
    the tenant and the runtime of that observation. *)
Theorem resolve_live ops now key read t :
  let r := resolver_run ops in
  let '(res, r') := Resolve unicode_lower unmarshal_info unmarshal_entries unmarshal_exec
                      unmarshal_spec r now key read in
  res = Ok t → ∃ id o, obs_of r' (SanitizeID id) id = Some o ∧ vouches o t.
Proof.
  intros r. pose proof (resolver_run_inv ops : resolver_inv r) as Hr. unfold Resolve.
  assert (Hcached : cachedTarget r now key = Ok (Some t) →
    ∃ id o, obs_of r (SanitizeID id) id = Some o ∧ vouches o t).
  { unfold cachedTarget. destruct (observationLocked r now _) as [[o|]|]; [|..|done].
    - case_goal; [done|]. intros [= Hg]. by eapply cached_vouched.
    - intros [= Hg]. by eapply cached_vouched. }
  destruct (cachedTarget r now key) as [[t0|]|] eqn:Hc; [| |done].
  { intros Hok. apply Ok_inj in Hok as ->. by apply Hcached. }
  destruct (finish r now _ _ read) as [r1|] eqn:Hf; [|done]. unfold Resolve_tail.
  apply finish_inv in Hf; [|done]. apply prune_inv with (now := now) in Hf.
  unfold resultLocked, cache_get.
  assert (Hg : match Route.Get (r_cache (pruneLocked r1 now)) key with
    | Some t => Ok t | None => Err ErrRouteNotFound end = Ok t →
    ∃ id o, obs_of (pruneLocked r1 now) (SanitizeID id) id = Some o ∧ vouches o t).
  { destruct (Route.Get _ key) eqn:Hg; [|done]. intros Hok. apply Ok_inj in Hok as ->.
    by eapply cached_vouched. }
  destruct (observationLocked _ now _) as [[o|]|]; [|done|done].
  destruct (FailureFor (o_info o)); [done|]. case_goal; [done|]. by case_goal.
Qed.

(** Observations only move forward: an update that carries an etcd revision,
    be it a document or a deletion, never lowers the revision of a record that
    it leaves in place, nor the version of a record that keeps its key. *)
Theorem observation_monotone r now key value prev rev s id o o' :
  rev ≠ 0 → resolver_inv r → obs_of r s id = Some o →
  obs_of (put r now key value rev) s id = Some o' ∨ obs_of (del r now key prev rev) s id = Some o' →
  o_revision o ≤ o_revision o' ∧
  (o_key o' = o_key o → Version (o_info o) ≤ Version (o_info o')).
Proof.
  intros Hrev Hr Ho.
  assert (Hdel : ∀ prev, obs_of (del r now key prev rev) s id = Some o' →
    o_revision o ≤ o_revision o' ∧ (o_key o' = o_key o → Version (o_info o) ≤ Version (o_info o'))).
  { intros pv. unfold deleteLocked. cbn zeta. case_goal; [rewrite Ho; intros [= <-]; lia|].
    match goal with |- context [if ?b then enforceRetentionLimitLocked ?x else ?x] =>
      assert (Hx : obs_of (if b then enforceRetentionLimitLocked x else x) s id = Some o' →
        obs_of x s id = Some o') by (case_goal; [apply enforce_sub|done]) end.
    intros Hn. apply Hx in Hn. rewrite obs_of_caches, obs_of_set in Hn.
    destruct (bool_decide (SanitizeID (rawInstanceID key) = s ∧ rawInstanceID key = id)) eqn:Hb;
      breflect; [|rewrite Ho in Hn; injection Hn as <-; lia].
    destruct Hb as [<- <-]. rewrite Ho in Hn. injection Hn as <-. cbn.
    split; [case_goal; breflect; lia|lia]. }
  intros [Hput|Hd]; [|by eapply Hdel]. unfold putLocked in Hput.
  destruct (unmarshal_info value) as [info|]; [|by eapply Hdel]. cbn zeta in Hput.
  case_in Hput; [rewrite Ho in Hput; injection Hput as <-; lia|].
  rewrite obs_of_caches, obs_of_set in Hput.
  set (i := InstanceID (if bool_decide (InstanceID info = "") then _ else _)) in *.
  destruct (bool_decide (SanitizeID i = s ∧ i = id)) eqn:Hb; breflect;
    [|rewrite Ho in Hput; injection Hput as <-; lia].
  destruct Hb as [<- <-]. rewrite Ho in *. injection Hput as <-. cbn.
  unfold put_stale in *. apply orb_false_iff in Heqb as [H1 H2].
  rewrite (proj2 (Z.eqb_neq rev 0)) in * by done. cbn [negb andb] in *. rewrite andb_false_r.
  apply orb_false_iff in H1 as [H1 _]. breflect. split; [lia|]. intros Hk.
  rewrite bool_decide_true in H2 by done. cbn in H2. by breflect.
Qed.

(** A watch update wins over a read that began before it: when a record of
    the instance was replaced after the read-through took its snapshot, the
    completion of the read changes nothing, whatever etcd answered. *)
Theorem concurrent_update_wins ops ops' now safeID id o res :
  let r0 := resolver_run ops in
  let r1 := foldl resolver_step r0 ops' in
  obs_of r1 safeID id = Some o → (next_ptr r0 ≤ o_ptr o)%nat → res ≠ ReadFailed →
  finish r1 now (refresh_begin r0 safeID) safeID res = Ok r1.
Proof.
  intros r0 r1 Ho Hptr Hres. pose proof (resolver_run_inv ops : resolver_inv r0) as Hr.
  assert (Hs : sameObservations (refresh_begin r0 safeID) (entries_of r1 safeID) = false).
  { unfold sameObservations, refresh_begin. apply bool_decide_false. intros He.
    apply (f_equal (lookup id)) in He. rewrite !lookup_fmap in He.
    unfold obs_of in Ho. rewrite Ho in He.
    destruct (entries_of r0 safeID !! id) as [o0|] eqn:H0; [|done]. cbn in He. injection He as He.
    pose proof (ri_ptr _ Hr safeID id o0 H0). lia. }
  unfold refresh_end. rewrite Hs. by destruct res.
Qed.
End Facts.

(** A sandbox seen by the watch, with the decoders of the route example. *)
Definition ex_ops : list resolver_op := [OpEvent 0 (EtcdPut "/sn/instance/sb@1" "doc" 7)].
Definition ex_run := resolver_run (λ s, s) ex_unmarshal ex_entries (λ _, None) (λ _, None).
Definition ex_target : Target :=
  mkTarget "sb@1" "rt" (mkKey "sb-at-1" 8080) "10.0.0.1:30080" "https" "" "t1".

Lemma resolve_live_witness :
  ∃ id o, obs_of (ex_run ex_ops) (SanitizeID id) id = Some o ∧ vouches o ex_target.
Proof.
  pose proof (resolve_live (λ s, s) ex_unmarshal ex_entries (λ _, None) (λ _, None) ex_ops 1
    (mkKey "sb-at-1" 8080) ReadFailed ex_target) as H.
  assert (Hr : Resolve (λ s, s) ex_unmarshal ex_entries (λ _, None) (λ _, None) (ex_run ex_ops) 1
    (mkKey "sb-at-1" 8080) ReadFailed = (Ok ex_target, ex_run ex_ops)) by (vm_compute; reflexivity).
  cbv zeta in H. unfold ex_run in Hr. rewrite Hr in H. by apply H.
Defined.

Definition ex_newer : instanceObservation :=
  mkObs 1 ex_info "/sn/instance/sb@1" 9 None.

Lemma observation_monotone_witness :
  ∃ o, obs_of (ex_run ex_ops) "sb-at-1" "sb@1" = Some o ∧ o_revision o ≤ 9.
Proof.
  eexists. split; [vm_compute; reflexivity|].
  apply (observation_monotone (λ s, s) ex_unmarshal ex_entries (λ _, None) (λ _, None)
    (ex_run ex_ops) 5 "/sn/instance/sb@1" "doc" None 9 "sb-at-1" "sb@1" _ ex_newer).
  - discriminate.
  - apply resolver_run_inv.
  - vm_compute. reflexivity.
  - left. vm_compute. reflexivity.
Defined.

Lemma concurrent_update_wins_witness :
  refresh_end (λ s, s) ex_unmarshal ex_entries (λ _, None) (λ _, None) (ex_run ex_ops) 3
    (refresh_begin (ex_run []) "sb-at-1") "sb-at-1" (ReadNotFound 6) = Ok (ex_run ex_ops).
Proof.
  apply (concurrent_update_wins (λ s, s) ex_unmarshal ex_entries (λ _, None) (λ _, None)
    [] ex_ops 3 "sb-at-1" "sb@1" (mkObs 0 ex_info "/sn/instance/sb@1" 7 None)).
  - vm_compute. reflexivity.
  - cbn. lia.
  - discriminate.
Defined.
