(* ===== verification/Lease.v ===== *)
(** Package [leaseadaptor], the parts below the lease pools: gray.go (the
    blue/green ratio), instance_report.go (the request counters of a lease),
    lease.go (the lease itself), util.go [getTimeout] and, of
    lease_manager.go, the pool key and the small helpers. The lease types are
    those of package [types], lease.go. *)

From S2P Require Import Prelude GoStrings Hashing.

(** * types/lease.go *)

Record InstanceSessionConfig := MkSession {
  SessionID : string; SessionTTL : Z; Concurrency : Z;
}.

Record AcquireOption := MkOption {
  DesignateInstanceID : string; SchedulerFuncKey : string; SchedulerID : string;
  SchedulerName : string; SchedulerAddress : string; RequestID : string;
  TraceID : string; TraceParent : string; FuncSig : string;
  ResourceSpecs : gmap string Z; PoolLabel : string; InvokeTag : gmap string string;
  InstanceLabel : string; Timeout : Z; TrafficLimited : bool; RingName : string;
  InstanceSession : option InstanceSessionConfig; SessionCtxID : string;
  EnableSessionCtx : bool;
}.

Record InstanceAllocationInfo := MkAlloc {
  ia_FuncKey : string; ia_FuncSig : string; InstanceID : string; ThreadID : string;
  InstanceIP : string; InstancePort : string; NodeIP : string; NodePort : string;
  FunctionProxyID : string; LeaseInterval : Z; CPU : Z; Memory : Z; ForceInvoke : bool;
}.

(** [InstanceSessionConfig.ToString]. *)
Definition ToString (s : InstanceSessionConfig) : string :=
  "sessionID: " +:+ SessionID s +:+ ", sessionTTL: " +:+ FormatInt (SessionTTL s)
    +:+ ", concurrency: " +:+ FormatInt (Concurrency s).

(** * gray.go *)

Definition fullRatio : Z := 100.
Definition blueRatioKey : string := "blue-ratio".
Definition percentDivisor : Z := 100.

Definition ConvertHashToPercent (str : string) : Z := (crc32 str mod percentDivisor)%Z.

(** [blueRatio] is the value of the package's atomic ratio. *)
Definition ShouldUseBlueRing (blueRatio hashPercent : Z) : bool :=
  if (blueRatio =? 0)%Z then false
  else if (fullRatio <=? blueRatio)%Z then true
  else (hashPercent <? blueRatio)%Z.

Inductive gray_error := ErrParseRatio | ErrParseUint32.

Definition all_digits (s : string) : bool := bool_decide (is_Some (parse_digits 0 s)).

(** The text the group of [^(\d+)%?$] captures before the optional percent. *)
Definition before_percent (s : string) : string :=
  match LastIndexByte s "%" with
  | Some i => if (i =? String.length s - 1)%nat then str_take i s else s
  | None => s
  end.

Definition extractNum (percentStr : string) : res gray_error Z :=
  let digits := before_percent percentStr in
  if bool_decide (digits = "") || negb (all_digits digits) then Err ErrParseRatio
  else match ParseUint digits 32 with
       | Some n => Ok n
       | None => Err ErrParseUint32
       end.

(** [json.Unmarshal] of the event value into [map[string]string] is the
    parameter [unmarshal]; the result is the ratio after the event. *)
Definition SetBlueRatio (unmarshal : string → option (gmap string string))
    (value : string) (blueRatio : Z) : Z :=
  match unmarshal value with
  | None => blueRatio
  | Some grayMap =>
      match grayMap !! blueRatioKey with
      | None => blueRatio
      | Some v => match extractNum v with Ok n => n | Err _ => blueRatio end
      end
  end.

Definition ClearBlueRatio (blueRatio : Z) : Z := 0.

Definition getTimeout (funcSpecTimeout ctxTimeout : Z) : Z :=
  if negb (ctxTimeout =? 0)%Z then ctxTimeout else funcSpecTimeout.

(** * instance_report.go *)

Record InstanceReport := MkReport {
  ProcReqNum : Z; AvgProcTime : Z; MaxProcTime : Z; IsAbnormal : bool;
}.

Record ReportRecord := MkRecord {
  requestsCount : Z; totalDuration : Z; maxDuration : Z; isAbnormal : bool;
}.

Definition new_record : ReportRecord := MkRecord 0 0 0 false.

Definition recordAbnormal (r : ReportRecord) : ReportRecord :=
  MkRecord (requestsCount r) (totalDuration r) (maxDuration r) true.

(** [Duration.Milliseconds]: a duration is a number of nanoseconds. *)
Definition Milliseconds (duration : Z) : Z := Z.quot duration 1000000.

Definition recordRequest (duration : Z) (r : ReportRecord) : ReportRecord :=
  let ms := Milliseconds duration in
  MkRecord (wrapS 64 (requestsCount r + 1)) (wrapS 64 (totalDuration r + ms))
    (if (maxDuration r <? ms)%Z then ms else maxDuration r) (isAbnormal r).

Definition report (reset : bool) (r : ReportRecord) : InstanceReport * ReportRecord :=
  (MkReport (requestsCount r)
     (if (requestsCount r =? 0)%Z then (-1)%Z else Z.quot (totalDuration r) (requestsCount r))
     (maxDuration r) (isAbnormal r),
   if reset then MkRecord 0 0 (maxDuration r) (isAbnormal r) else r).

(** * lease.go *)

(** [claimTime] is [None] for the zero time, [stopClosed] says whether
    [stopCh] is closed. *)
Record InstanceLease := MkLease {
  l_info : InstanceAllocationInfo;
  reportRecord : ReportRecord;
  acquireOption : AcquireOption;
  claimTime : option Z;
  available : bool;
  stopClosed : bool;
  exited : bool;
  beginRelease : bool;
  schedulerInstanceId : string;
  reacquire : bool;
  l_ringName : string;
}.

Definition l_id (l : InstanceLease) : string := ThreadID (l_info l).

Definition newInstanceLease (info : InstanceAllocationInfo) (option : AcquireOption)
    : InstanceLease :=
  MkLease info new_record option None true false false false "" false (RingName option).

Definition set_state (rec : ReportRecord) (ct : option Z) (av st ex br : bool)
    (l : InstanceLease) : InstanceLease :=
  MkLease (l_info l) rec (acquireOption l) ct av st ex br
    (schedulerInstanceId l) (reacquire l) (l_ringName l).

(** [now] is the result of [time.Now]. *)
Definition claim (now : Z) (l : InstanceLease) : bool * InstanceLease :=
  if negb (available l) then (false, l)
  else (true, set_state (reportRecord l) (Some now) false (stopClosed l) (exited l) false l).

Definition destroy (l : InstanceLease) : InstanceLease :=
  set_state (reportRecord l) (claimTime l) false true true (beginRelease l) l.

Definition free (abnormal record : bool) (now : Z) (l : InstanceLease) : InstanceLease :=
  if abnormal then
    destroy (set_state (recordAbnormal (reportRecord l)) (claimTime l) (available l)
               (stopClosed l) (exited l) (beginRelease l) l)
  else
    let rec' := match claimTime l with
                | Some t => if record then recordRequest (now - t) (reportRecord l)
                            else reportRecord l
                | None => reportRecord l
                end in
    set_state rec' None true (stopClosed l) (exited l) (beginRelease l) l.

Definition lease_report (reset : bool) (l : InstanceLease) : InstanceReport * InstanceLease :=
  let '(rep, rec) := report reset (reportRecord l) in
  (rep, set_state rec (claimTime l) (available l) (stopClosed l) (exited l) (beginRelease l) l).

Definition leaseCanReuse (l : InstanceLease) : bool := negb (LeaseInterval (l_info l) <=? 0)%Z.

(** * lease_manager.go: pool keys and intervals *)

(** The values the maps of an acquire option hold, as [any]. *)
Inductive any := VInt (z : Z) | VStr (s : string).

Definition format_any (v : any) : string :=
  match v with VInt z => FormatInt z | VStr s => s end.

Definition getSortedKeys (m : gmap string any) : list string :=
  merge_sort String.le (map_to_list m).*1.

Definition getMapStr (m : gmap string any) : string :=
  foldl (λ str k,
           match m !! k with
           | Some v => str +:+ (k +:+ ":" +:+ format_any v +:+ ",")
           | None => str
           end) "" (getSortedKeys m).

Definition poolKeyParts (funckey : string) (option : AcquireOption) : list string :=
  [ funckey;
    getMapStr (VInt <$> ResourceSpecs option);
    PoolLabel option;
    getMapStr (VStr <$> InvokeTag option);
    InstanceLabel option;
    match InstanceSession option with Some s => ToString s | None => "" end;
    (if EnableSessionCtx option then SessionCtxID option else "");
    RingName option ].

Definition getPoolKey (funckey : string) (option : AcquireOption) : string :=
  Join (poolKeyParts funckey option) "|".

Definition ms_ns : Z := 1000000.
Definition defaultRetainLeaseTime : Z := 200.

Definition normalizeRetainInterval (interval : Z) : Z :=
  if (interval <? ms_ns)%Z then (defaultRetainLeaseTime * ms_ns)%Z else interval.

Definition assembleTargetName (targetName leaseId : string) : string :=
  if bool_decide (targetName = "") then leaseId else targetName +:+ ("," +:+ leaseId).

(** * Properties *)

(** ** The gray ratio *)

Lemma parse_digits_no_percent s acc n : parse_digits acc s = Some n → has_byte "%" s = false.
Proof.
  revert acc. induction s as [|c s IH]; intros acc; [done|]. cbn [parse_digits has_byte].
  unfold digit. destruct (byte_in 48 57 c) eqn:Hc; [|done]. intros H%IH. rewrite H.
  rewrite orb_false_r. apply bool_decide_eq_false. intros E. subst c. by vm_compute in Hc.
Qed.

Lemma before_percent_strip s : has_byte "%" s = false → before_percent (s +:+ "%") = s.
Proof.
  intros Hs. unfold before_percent. rewrite (LastIndexByte_app s "" "%") by done.
  rewrite length_app_str. cbn [String.length].
  replace (String.length s =? String.length s + 1 - 1)%nat with true
    by (symmetry; apply Nat.eqb_eq; lia).
  apply str_take_app.
Qed.

Lemma before_percent_plain s : has_byte "%" s = false → before_percent s = s.
Proof. intros Hs. unfold before_percent. by rewrite LastIndexByte_None. Qed.

Lemma extractNum_digits n sfx :
  (0 ≤ n < 2 ^ 32)%Z → sfx = "" ∨ sfx = "%" → extractNum (FormatUint n +:+ sfx) = Ok n.
Proof.
  intros Hn Hs. pose proof (ParseUint_FormatUint n 32 Hn ltac:(lia)) as Hp.
  assert (∃ m, parse_digits 0 (FormatUint n) = Some m) as [m Hm].
  { unfold ParseUint in Hp. case_in Hp; [done|]. destruct (parse_digits 0 (FormatUint n)); [eauto|done]. }
  assert (FormatUint n ≠ "") as Hne by (intros E; unfold ParseUint in Hp; by rewrite E in Hp).
  pose proof (parse_digits_no_percent _ _ _ Hm) as Hb.
  unfold extractNum.
  assert (before_percent (FormatUint n +:+ sfx) = FormatUint n) as ->.
  { destruct Hs as [-> | ->]; [rewrite app_nil_r_str; by apply before_percent_plain
                              |by apply before_percent_strip]. }
  rewrite bool_decide_false by done. unfold all_digits.
  rewrite bool_decide_true by (rewrite Hm; eauto). cbn [orb negb]. by rewrite Hp.
Qed.

Lemma blue_iff ratio p :
  (0 ≤ ratio)%Z → (0 ≤ p < 100)%Z → ShouldUseBlueRing ratio p = true ↔ (p < ratio)%Z.
Proof.
  intros Hr Hp. unfold ShouldUseBlueRing, fullRatio.
  destruct (ratio =? 0)%Z eqn:E; breflect; [split; [done|lia]|].
  destruct (100 <=? ratio)%Z eqn:E2; breflect; [split; [lia|done]|]. apply Z.ltb_lt.
Qed.

Lemma count_below n : (0 ≤ n ≤ 100)%Z → length (filter (λ p, (p < n)%Z) (seqZ 0 100)) = Z.to_nat n.
Proof.
  intros Hn. replace 100%Z with (n + (100 - n))%Z by lia. rewrite seqZ_app by lia.
  rewrite filter_app, length_app. replace (0 + n)%Z with n by lia.
  assert (filter (λ p, (p < n)%Z) (seqZ 0 n) = seqZ 0 n) as ->.
  { apply filter_all, Forall_forall. intros p Hp%elem_of_seqZ. lia. }
  assert (filter (λ p, (p < n)%Z) (seqZ n (100 - n)) = []) as ->.
  { apply filter_none, Forall_forall. intros p Hp%elem_of_seqZ. lia. }
  cbn. rewrite length_seqZ. lia.
Qed.

(** A blue ratio of n percent, written with or without the percent sign,
    sends exactly min(n, 100) of the hundred hash percentiles to the blue
    ring, the lowest ones, and so every session or request whose CRC32
    percentile is below n. *)
Theorem gray_ratio_split unmarshal value m n sfx old :
  unmarshal value = Some m → m !! blueRatioKey = Some (FormatUint n +:+ sfx) →
  sfx = "" ∨ sfx = "%" → (0 ≤ n < 2 ^ 32)%Z →
  let ratio := SetBlueRatio unmarshal value old in
  length (filter (λ p, ShouldUseBlueRing ratio p = true) (seqZ 0 100)) = Z.to_nat (Z.min n 100)
  ∧ ∀ id, ShouldUseBlueRing ratio (ConvertHashToPercent id) = true ↔
          (ConvertHashToPercent id < n)%Z.
Proof.
  intros Hu Hm Hs Hn ratio.
  assert (ratio = n) as -> by (unfold ratio, SetBlueRatio; by rewrite Hu, Hm, extractNum_digits).
  split.
  - rewrite <- count_below by lia. f_equal. apply filter_ext_in.
    intros p Hp%elem_of_seqZ. rewrite blue_iff by lia. lia.
  - intros id. apply blue_iff; [lia|]. unfold ConvertHashToPercent, percentDivisor.
    by apply Z.mod_pos_bound.
Qed.

Lemma gray_ratio_split_witness :
  let ratio := SetBlueRatio (λ _, Some {["blue-ratio" := "30%"]}) "{}" 0 in
  length (filter (λ p, ShouldUseBlueRing ratio p = true) (seqZ 0 100)) = 30%nat.
Proof.
  refine (proj1 (gray_ratio_split (λ _, Some {["blue-ratio" := "30%"]}) "{}" _ 30 "%" 0 _ _ _ _));
    [reflexivity|reflexivity|by right|lia].
Defined.

(** ** The report of a lease *)

Definition records (ds : list Z) (r : ReportRecord) : ReportRecord :=
  foldl (λ r d, recordRequest d r) r ds.

Definition total_ms (ds : list Z) : Z := foldr (λ d s, (Milliseconds d + s)%Z) 0%Z ds.
Definition max_ms (ds : list Z) : Z := foldr (λ d m, Z.max (Milliseconds d) m) 0%Z ds.

Lemma wrap64 z : (0 ≤ z < 2 ^ 63)%Z → wrapS 64 z = z.
Proof. intros Hz. apply wrapS_small; [lia|]. change (64 - 1)%Z with 63%Z. lia. Qed.

Lemma Milliseconds_nonneg d : (0 ≤ d)%Z → (0 ≤ Milliseconds d)%Z.
Proof. intros. apply Z.quot_pos; lia. Qed.

Lemma total_ms_nonneg ds : Forall (λ d, 0 ≤ d)%Z ds → (0 ≤ total_ms ds)%Z.
Proof.
  induction 1 as [|d ds Hd _ IH]; [done|]. pose proof (Milliseconds_nonneg d Hd).
  change (total_ms (d :: ds)) with (Milliseconds d + total_ms ds)%Z. lia.
Qed.

Lemma records_spec ds r :
  Forall (λ d, 0 ≤ d)%Z ds → (0 ≤ requestsCount r)%Z → (0 ≤ totalDuration r)%Z →
  (requestsCount r + Z.of_nat (length ds) < 2 ^ 63)%Z → (totalDuration r + total_ms ds < 2 ^ 63)%Z →
  requestsCount (records ds r) = (requestsCount r + Z.of_nat (length ds))%Z
  ∧ totalDuration (records ds r) = (totalDuration r + total_ms ds)%Z.
Proof.
  revert r. induction ds as [|d ds IH]; intros r Hd Hc Ht Hb1 Hb2; [cbn; lia|].
  apply Forall_cons in Hd as [Hd0%Milliseconds_nonneg Hd]. pose proof (total_ms_nonneg ds Hd).
  change (total_ms (d :: ds)) with (Milliseconds d + total_ms ds)%Z in *.
  change (records (d :: ds) r) with (records ds (recordRequest d r)).
  change (length (d :: ds)) with (S (length ds)) in *.
  assert (requestsCount (recordRequest d r) = requestsCount r + 1)%Z as E1
    by (cbn [recordRequest requestsCount]; apply wrap64; lia).
  assert (totalDuration (recordRequest d r) = totalDuration r + Milliseconds d)%Z as E2
    by (cbn [recordRequest totalDuration]; apply wrap64; lia).
  destruct (IH (recordRequest d r)) as [H1 H2]; rewrite ?E1, ?E2 in *; [done|lia..].
Qed.

Lemma max_from a ds : (0 ≤ a)%Z → foldr (λ d m, Z.max (Milliseconds d) m) a ds = Z.max a (max_ms ds).
Proof.
  intros Ha. induction ds as [|d ds IH]; [cbn; lia|]. cbn [foldr]. rewrite IH.
  change (max_ms (d :: ds)) with (Z.max (Milliseconds d) (max_ms ds)). lia.
Qed.

Lemma max_ms_nonneg ds : (0 ≤ max_ms ds)%Z.
Proof.
  induction ds as [|d ds IH]; [done|].
  change (max_ms (d :: ds)) with (Z.max (Milliseconds d) (max_ms ds)). lia.
Qed.

Lemma records_max ds r :
  (0 ≤ maxDuration r)%Z →
  maxDuration (records ds r) = Z.max (maxDuration r) (max_ms ds)
  ∧ isAbnormal (records ds r) = isAbnormal r.
Proof.
  revert r. induction ds as [|d ds IH]; intros r Hr; [cbn; split; [lia|done]|].
  change (records (d :: ds) r) with (records ds (recordRequest d r)).
  change (max_ms (d :: ds)) with (Z.max (Milliseconds d) (max_ms ds)).
  assert (maxDuration (recordRequest d r) = Z.max (maxDuration r) (Milliseconds d)) as E.
  { cbn [recordRequest maxDuration]. destruct (_ <? _)%Z eqn:E; breflect; lia. }
  destruct (IH (recordRequest d r)) as [-> ->]; rewrite E; [lia|]. split; [lia|done].
Qed.

(** The report of a lease counts the requests of the current period: after
    a report with reset, the next one gives the number of requests recorded
    since, their average time in milliseconds (-1 when there were none), and
    the longest time of all requests so far, the earlier periods included. *)
Theorem report_window before since reset :
  Forall (λ d, 0 ≤ d)%Z before → Forall (λ d, 0 ≤ d)%Z since →
  (Z.of_nat (length since) < 2 ^ 63)%Z → (total_ms since < 2 ^ 63)%Z →
  (report reset (records since (report true (records before new_record)).2)).1 =
    MkReport (Z.of_nat (length since))
      (if bool_decide (since = []) then (-1)%Z
       else (total_ms since / Z.of_nat (length since))%Z)
      (max_ms (before ++ since)) false.
Proof.
  intros Hb Hs Hn Ht. set (r := (report true (records before new_record)).2).
  destruct (records_max before new_record) as [E5 E6]; [done|].
  pose proof (max_ms_nonneg before). pose proof (max_ms_nonneg since).
  assert (requestsCount r = 0 ∧ totalDuration r = 0)%Z as [R1 R2] by done.
  assert (maxDuration r = max_ms before) as R3
    by (cbn [r report snd maxDuration]; rewrite E5; cbn [new_record maxDuration]; lia).
  assert (isAbnormal r = false) as R4 by (cbn [r report snd isAbnormal]; by rewrite E6).
  destruct (records_spec since r Hs) as [E1 E2]; rewrite ?R1, ?R2; try lia.
  destruct (records_max since r) as [E3 E4]; [lia|].
  rewrite R1 in E1. rewrite R2 in E2. rewrite R3 in E3. rewrite R4 in E4.
  cbn [report fst]. rewrite E1, E2, E3, E4. cbn [Z.add].
  assert (Z.max (max_ms before) (max_ms since) = max_ms (before ++ since)) as ->.
  { unfold max_ms at 3. rewrite foldr_app. fold (max_ms since). rewrite max_from by done. lia. }
  f_equal. destruct since as [|d ds]; [done|]. rewrite bool_decide_false by done.
  destruct (Z.of_nat (length (d :: ds)) =? 0)%Z eqn:E; breflect; [cbn in E; lia|].
  apply Z.quot_div_nonneg; [by apply total_ms_nonneg|cbn; lia].
Qed.

Lemma report_window_witness :
  (report false (records [3000000; 4000000]%Z (report true (records [9000000]%Z new_record)).2)).1
    = MkReport 2 3 9 false.
Proof.
  assert (Forall (λ d, 0 ≤ d)%Z [9000000]%Z ∧ Forall (λ d, 0 ≤ d)%Z [3000000; 4000000]%Z) as [H1 H2]
    by (rewrite !Forall_cons, !Forall_nil; lia).
  exact (report_window [9000000]%Z [3000000; 4000000]%Z false H1 H2 ltac:(vm_compute; reflexivity) ltac:(vm_compute; reflexivity)).
Defined.

(** ** Pool keys *)

(** The entries of a map as they appear in a pool key. *)
Definition map_pieces (m : gmap string any) : list string :=
  (λ k, k +:+ ":" +:+ default "" (format_any <$> m !! k)) <$> getSortedKeys m.

Lemma sorted_keys_dom m k : k ∈ getSortedKeys m ↔ is_Some (m !! k).
Proof.
  unfold getSortedKeys. rewrite merge_sort_Permutation, list_elem_of_fmap. split.
  - intros ([k' v] & -> & H%elem_of_map_to_list). eauto.
  - intros [v H]. exists (k, v). by rewrite elem_of_map_to_list.
Qed.

Lemma getMapStr_join m : getMapStr m = Join (map_pieces m ++ [""]) ",".
Proof.
  unfold getMapStr, map_pieces.
  assert (∀ ks s, (∀ k, k ∈ ks → is_Some (m !! k)) →
    foldl (λ str k, match m !! k with
                    | Some v => str +:+ (k +:+ ":" +:+ format_any v +:+ ",")
                    | None => str end) s ks =
    s +:+ Join (((λ k, k +:+ ":" +:+ default "" (format_any <$> m !! k)) <$> ks) ++ [""]) ",") as H.
  { induction ks as [|k ks IH]; intros s Hk; cbn [foldl fmap list_fmap app]; [by rewrite app_nil_r_str|].
    destruct (Hk k) as [v Hv]; [left|]. rewrite Hv. rewrite IH by (intros; apply Hk; by right).
    rewrite Join_cons by (by destruct ks). cbn [fmap option_fmap option_map from_option id].
    by rewrite !app_assoc_str. }
  rewrite H by (intros k; apply sorted_keys_dom). done.
Qed.

Definition clean (c : ascii) (s : string) : Prop := has_byte c s = false.

(** Keys and printed values without the separators. *)
Definition clean_map (m : gmap string any) : Prop :=
  ∀ k v, m !! k = Some v →
    clean ":" k ∧ clean "," k ∧ clean "," (format_any v) ∧ clean "|" k ∧ clean "|" (format_any v).

Lemma map_pieces_clean m : clean_map m → Forall (clean ",") (map_pieces m).
Proof.
  intros Hm. unfold map_pieces. apply Forall_fmap, Forall_forall. intros k Hk%sorted_keys_dom.
  destruct Hk as [v Hv]. destruct (Hm _ _ Hv) as (_ & H1 & H2 & _). unfold compose, clean in *.
  rewrite Hv. cbn [fmap option_fmap option_map from_option id].
  rewrite !has_byte_app, H1, H2. done.
Qed.

Lemma map_pieces_split m : clean_map m → Split (getMapStr m) "," = map_pieces m ++ [""].
Proof.
  intros Hm. rewrite getMapStr_join. apply Split_Join; [by destruct (map_pieces m)|].
  apply Forall_app. split; [by apply map_pieces_clean|by repeat constructor].
Qed.

Lemma colon_inj k k' s s' : clean ":" k → clean ":" k' → k +:+ ":" +:+ s = k' +:+ ":" +:+ s' → k = k' ∧ s = s'.
Proof.
  revert k'. induction k as [|c k IH]; intros [|c' k'] H H' E.
  - split; [done|]. by injection E.
  - injection E as E1 _. unfold clean in H'. cbn [has_byte] in H'.
    by rewrite bool_decide_true in H'.
  - injection E as E1 _. unfold clean in H. cbn [has_byte] in H.
    by rewrite bool_decide_true in H.
  - injection E as <- E. unfold clean in *. cbn [has_byte] in H, H'.
    apply orb_false_iff in H as [_ H]. apply orb_false_iff in H' as [_ H'].
    by destruct (IH _ H H' E) as [-> ->].
Qed.

Lemma getMapStr_inj m m' :
  clean_map m → clean_map m' → getMapStr m = getMapStr m' → format_any <$> m = format_any <$> m'.
Proof.
  intros Hm Hm' E.
  assert (map_pieces m = map_pieces m') as Hp.
  { apply (f_equal (λ s, Split s ",")) in E. rewrite !map_pieces_split in E by done.
    by apply app_inj_2 in E as [? _]. }
  assert (∀ n n', clean_map n → clean_map n' → map_pieces n = map_pieces n' →
    ∀ k s, format_any <$> n !! k = Some s → format_any <$> n' !! k = Some s) as Hsub.
  { clear. intros n n' Hn Hn' Hp k s Hk. destruct (n !! k) as [v|] eqn:Hv; [|done].
    assert (k +:+ ":" +:+ s ∈ map_pieces n) as Hin.
    { apply list_elem_of_fmap. exists k. rewrite sorted_keys_dom, Hv. cbn in Hk |- *.
      injection Hk as ->. eauto. }
    rewrite Hp in Hin. apply list_elem_of_fmap in Hin as (k' & E & [v' Hv']%sorted_keys_dom).
    rewrite Hv' in E. cbn [fmap option_fmap option_map from_option id] in E.
    apply colon_inj in E as [<- ->]; [by rewrite Hv'|by eapply Hn|by eapply Hn']. }
  apply map_eq. intros k. rewrite !lookup_fmap. apply option_eq. intros s. split; by apply Hsub.
Qed.

Lemma getMapStr_no_bar m : clean_map m → clean "|" (getMapStr m).
Proof.
  intros Hm. unfold clean. rewrite getMapStr_join.
  assert (Forall (clean "|") (map_pieces m ++ [""])) as HF.
  { apply Forall_app. split; [|by repeat constructor]. unfold map_pieces.
    apply Forall_fmap, Forall_forall. intros k [v Hv]%sorted_keys_dom.
    destruct (Hm _ _ Hv) as (_ & _ & _ & H1 & H2). unfold compose, clean in *. rewrite Hv.
    cbn [fmap option_fmap option_map from_option id]. by rewrite !has_byte_app, H1, H2. }
  induction HF as [|x l Hx HF IH]; [done|]. destruct l as [|y l]; [done|].
  rewrite Join_cons by done. unfold clean in Hx. by rewrite !has_byte_app, Hx, IH.
Qed.

(** An option whose texts are free of the key's separators. *)
Record clean_option (o : AcquireOption) : Prop := {
  co_res : clean_map (VInt <$> ResourceSpecs o);
  co_tag : clean_map (VStr <$> InvokeTag o);
  co_range k z : ResourceSpecs o !! k = Some z → (- 2 ^ 63 ≤ z < 2 ^ 63)%Z;
  co_label : clean "|" (PoolLabel o);
  co_instance : clean "|" (InstanceLabel o);
  co_session s : InstanceSession o = Some s → clean "|" (ToString s);
  co_ctx : clean "|" (SessionCtxID o);
  co_ring : clean "|" (RingName o);
}.

Lemma poolKeyParts_clean f o :
  clean "|" f → clean_option o → Forall (λ x, has_byte "|" x = false) (poolKeyParts f o).
Proof.
  intros Hf [H1 H2 _ H3 H4 H5 H6 H7].
  repeat apply Forall_cons_2; [done|by apply getMapStr_no_bar|done|by apply getMapStr_no_bar|done| | |done|constructor].
  - destruct (InstanceSession o); [by apply H5|done].
  - by destruct (EnableSessionCtx o).
Qed.

(** A pool serves one kind of request: two acquire options of a function
    whose texts are free of the separators of the key have the same pool key
    only if they agree on the resources, the invoke tags, both labels, the
    printed session, the session context in use and the ring. *)
Theorem pool_key_separates f o o' :
  clean "|" f → clean_option o → clean_option o' →
  getPoolKey f o = getPoolKey f o' →
  ResourceSpecs o = ResourceSpecs o' ∧ InvokeTag o = InvokeTag o'
  ∧ PoolLabel o = PoolLabel o' ∧ InstanceLabel o = InstanceLabel o'
  ∧ ToString <$> InstanceSession o = ToString <$> InstanceSession o'
  ∧ (if EnableSessionCtx o then SessionCtxID o else "")
    = (if EnableSessionCtx o' then SessionCtxID o' else "")
  ∧ RingName o = RingName o'.
Proof.
  intros Hf Ho Ho' E. apply (f_equal (λ s, Split s "|")) in E. unfold getPoolKey in E.
  rewrite !Split_Join in E by (done || by apply poolKeyParts_clean).
  injection E as Hres Hlabel Htag Hinst Hsess Hctx Hring.
  destruct Ho as [R1 T1 Z1 _ _ _ _ _], Ho' as [R2 T2 Z2 _ _ _ _ _].
  apply getMapStr_inj in Hres; [|done|done]. apply getMapStr_inj in Htag; [|done|done].
  repeat split; try done.
  - apply map_eq. intros k. apply (f_equal (.!! k)) in Hres. rewrite !lookup_fmap in Hres.
    specialize (Z1 k). specialize (Z2 k).
    destruct (ResourceSpecs o !! k) as [z|], (ResourceSpecs o' !! k) as [z'|]; try done.
    injection Hres as Hres. f_equal. apply FormatInt_inj; auto.
  - apply map_eq. intros k. apply (f_equal (.!! k)) in Htag. rewrite !lookup_fmap in Htag.
    by destruct (InvokeTag o !! k), (InvokeTag o' !! k).
  - destruct (InstanceSession o), (InstanceSession o'); cbn; try done. by rewrite Hsess.
Qed.

Definition example_option (trace label instance : string) (tag : gmap string string) : AcquireOption :=
  MkOption "" "" "" "" "" "" trace "" "sig" {["CPU" := 500%Z]} label tag instance 0 false "green"
    None "" false.

Lemma example_clean trace : clean_option (example_option trace "pool" "inst" ∅).
Proof.
  split; cbn [example_option ResourceSpecs InvokeTag PoolLabel InstanceLabel InstanceSession
    SessionCtxID RingName]; try done.
  - intros k v. rewrite lookup_fmap. destruct (decide (k = "CPU")) as [->|].
    + rewrite lookup_singleton_eq. by intros [= <-].
    + by rewrite lookup_singleton_ne.
  - intros k z [<- <-]%lookup_singleton_Some. lia.
Qed.

Lemma pool_key_separates_witness :
  getPoolKey "t/f/latest" (example_option "trace-1" "pool" "inst" ∅) =
    getPoolKey "t/f/latest" (example_option "trace-2" "pool" "inst" ∅)
  ∧ PoolLabel (example_option "trace-1" "pool" "inst" ∅) = "pool".
Proof.
  assert (getPoolKey "t/f/latest" (example_option "trace-1" "pool" "inst" ∅) =
          getPoolKey "t/f/latest" (example_option "trace-2" "pool" "inst" ∅)) as E by reflexivity.
  split; [exact E|].
  destruct (pool_key_separates "t/f/latest" _ _ eq_refl (example_clean "trace-1")
              (example_clean "trace-2") E) as (_ & _ & H & _).
  exact H.
Defined.

(** The fields are joined without escaping, so request headers that contain the
    separator can make two different options share a pool. *)
Theorem pool_key_collision :
  getPoolKey "t/f/latest" (example_option "" "p|x:y," "l" ∅) =
  getPoolKey "t/f/latest" (example_option "" "p" "|l" {["x" := "y"]}).
Proof. vm_compute. reflexivity. Qed.
