(* ===== verification/SchedulerProxy.v ===== *)
(** Package [schedulerproxy]: the registry of FaaS schedulers (proxy.go) and
    the etcd events that maintain it (schedulereventhandler.go), with the key
    parsers of utils/tools.go they call.

    The balancer behind [LBFactory(SimpleHashGeneric)] is the virtual-node ring
    of file HashRing. A [time.Time] is a [Z], the zero time 0. The libruntime
    is only notified; its calls are recorded in [rt_calls]. *)

From S2P Require Import Prelude GoStrings Hashing HashRing Lease.

(** * utils/tools.go: keys of the scheduler registry *)

Record InstanceInfo := MkInfo {
  TenantID : string; FunctionName : string; Version : string;
  InstanceName : string; i_InstanceID : string; Exclusivity : string; Address : string;
}.

Definition moduleSchedulerKeyLen : nat := 7.
Definition functionNameIndex : nat := 6.
Definition leaseIndex : nat := 7.

Definition GetSchedulerInfoFromEtcdKey (path : string) : option InstanceInfo :=
  let elements := Split path "/" in
  if negb (length elements =? moduleSchedulerKeyLen) then None
  else (λ name, MkInfo "0" "faas-scheduler" "latest" name "" "" "")
         <$> elements !! functionNameIndex.

Definition GetInstanceNameFromSchedulerLeaseEtcdKey (path : string) : string * bool :=
  let elements := Split path "/" in
  if negb (length elements =? moduleSchedulerKeyLen + 1) then ("", false)
  else (default "" (elements !! functionNameIndex), true).

Definition ParseLeaseFromSchedulerLeaseEtcdKey (path : string) : string :=
  let elements := Split path "/" in
  if negb (length elements =? moduleSchedulerKeyLen + 1) then ""
  else default "" (elements !! leaseIndex).

(** * proxy.go *)

Record SchedulerNodeInfo := MkNode { n_info : InstanceInfo; UpdateTime : Z }.

Record ProxyManager := MkProxy {
  faasSchedulers : gmap string SchedulerNodeInfo;
  exclusivitySchedulers : gmap string string;
  loadBalance : SimpleCHGeneric;
  RTAPI : bool;
  rt_calls : list (string * string * string);
}.

Definition newSchedulerProxy (rtapi : bool) : ProxyManager :=
  MkProxy ∅ ∅ NewSimpleCHGeneric rtapi [].

(** The call [RTAPI.UpdateSchdulerInfo] when there is a libruntime. *)
Definition notify (im : ProxyManager) (c : string * string * string)
    : list (string * string * string) :=
  if RTAPI im then rt_calls im ++ [c] else rt_calls im.

Definition Add (im : ProxyManager) (node : SchedulerNodeInfo) : ProxyManager :=
  let info := n_info node in
  let op := if bool_decide (i_InstanceID info ≠ "") then "ADD" else "REMOVE" in
  MkProxy (<[InstanceName info := node]> (faasSchedulers im))
    (<[Exclusivity info := InstanceName info]> (exclusivitySchedulers im))
    (if bool_decide (Exclusivity info ≠ "") then loadBalance im
     else sch_Add (loadBalance im) (NodeString (InstanceName info)))
    (RTAPI im) (notify im (InstanceName info, i_InstanceID info, op)).

Definition Exist (im : ProxyManager) (instanceName instanceId : string) : bool :=
  match faasSchedulers im !! instanceName with
  | None => false
  | Some node => bool_decide (i_InstanceID (n_info node) = instanceId)
  end.

Definition ExistInstanceName (im : ProxyManager) (instanceName : string) : bool :=
  bool_decide (is_Some (faasSchedulers im !! instanceName)).

Definition Remove (im : ProxyManager) (info : InstanceInfo) : ProxyManager :=
  match faasSchedulers im !! InstanceName info with
  | None => im
  | Some _ =>
      MkProxy (delete (InstanceName info) (faasSchedulers im))
        (filter (λ kv, kv.2 ≠ InstanceName info) (exclusivitySchedulers im))
        (sch_Remove (loadBalance im) (NodeString (InstanceName info)))
        (RTAPI im) (notify im (InstanceName info, i_InstanceID info, "REMOVE"))
  end.

(** [strings.SplitN(funcKey, "/", 2)[0]]. *)
Definition first_element (funcKey : string) : string :=
  match IndexByte funcKey "/" with Some i => str_take i funcKey | None => funcKey end.

Definition sessionContextOwnerKey (funcKey sessionCtxID : string) : string :=
  first_element funcKey +:+ "/" +:+ funcKey +:+ "/" +:+ sessionCtxID.

(** [lite] is [IsLiteSchedulerEnabled], the environment's flag; a nil option
    is [None]. *)
Definition acquireOwnerKey (lite : bool) (funcKey : string) (option : option AcquireOption)
    : string :=
  match option with
  | None => funcKey
  | Some o =>
      if negb lite then funcKey
      else if EnableSessionCtx o && bool_decide (SessionCtxID o ≠ "")
      then sessionContextOwnerKey funcKey (SessionCtxID o)
      else match InstanceSession o with
           | Some s => if bool_decide (SessionID s ≠ "")
                       then first_element funcKey +:+ "/" +:+ SessionID s
                       else funcKey
           | None => funcKey
           end
  end.

Inductive proxy_error := ErrAllSchedulerUnavailable | ErrNoSchedulerNamed (name : string).

Definition instanceNameToSchedulerNodeInfo (im : ProxyManager) (instanceName : string)
    : option SchedulerNodeInfo :=
  if bool_decide (TrimSpace instanceName = "") then None
  else faasSchedulers im !! instanceName.

(** The answer of a balancer turned into a registered scheduler. *)
Definition named_scheduler (im : ProxyManager) (name : string)
    : res proxy_error SchedulerNodeInfo :=
  if bool_decide (name = "") then Err ErrAllSchedulerUnavailable
  else match instanceNameToSchedulerNodeInfo im name with
       | None => Err (ErrNoSchedulerNamed name)
       | Some node => Ok node
       end.

(** [Next] of the ring answers a string, never nil. *)
Definition getNextScheduler (im : ProxyManager) (funcKey : string) : string :=
  sch_Next (loadBalance im) funcKey.

Definition getSchedulerByHashKey (im : ProxyManager) (hashKey : string)
    : res proxy_error SchedulerNodeInfo :=
  named_scheduler im (getNextScheduler im hashKey).

Definition Get (im : ProxyManager) (funcKey : string) : res proxy_error SchedulerNodeInfo :=
  getSchedulerByHashKey im funcKey.

Definition GetByAcquireOption (lite : bool) (im : ProxyManager) (funcKey : string)
    (o : option AcquireOption) : res proxy_error SchedulerNodeInfo :=
  getSchedulerByHashKey im (acquireOwnerKey lite funcKey o).

Definition getFromExclusivityScheduler (im : ProxyManager) (funcKey : string) : string :=
  match Split funcKey "/" with
  | [tenantID; _; _] => default "" (exclusivitySchedulers im !! tenantID)
  | _ => ""
  end.

Definition GetByInstanceID (im : ProxyManager) (instanceID : string)
    : option SchedulerNodeInfo :=
  instanceNameToSchedulerNodeInfo im instanceID.

(** The inner loop over the schedulers that failed before. *)
Definition expected (v : SchedulerNodeInfo) (unexpected : list SchedulerNodeInfo) : bool :=
  negb (existsb (λ u, bool_decide (i_InstanceID (n_info v) = i_InstanceID (n_info u))
                      && (UpdateTime v - UpdateTime u <=? 0)%Z) unexpected).

Definition allSchedulers (im : ProxyManager) : gmap string SchedulerNodeInfo :=
  foldl (λ m kv, <[InstanceName (n_info kv.2) := kv.2]> m) ∅ (map_to_list (faasSchedulers im)).

Definition tmpHash (im : ProxyManager) (unexpected : list SchedulerNodeInfo) : SimpleCHGeneric :=
  foldl (λ h kv, if expected kv.2 unexpected
                 then sch_Add h (NodeString (InstanceName (n_info kv.2))) else h)
    NewSimpleCHGeneric (map_to_list (allSchedulers im)).

Definition getWithoutUnexpectedSchedulerInfosByKey (im : ProxyManager) (hashKey : string)
    (unexpected : list SchedulerNodeInfo) : res proxy_error SchedulerNodeInfo :=
  match unexpected with
  | [] => getSchedulerByHashKey im hashKey
  | _ => named_scheduler im (sch_Next (tmpHash im unexpected) hashKey)
  end.

Definition GetWithoutUnexpectedSchedulerInfos (im : ProxyManager) (funcKey : string)
    (unexpected : list SchedulerNodeInfo) : res proxy_error SchedulerNodeInfo :=
  getWithoutUnexpectedSchedulerInfosByKey im funcKey unexpected.

Definition GetWithoutUnexpectedSchedulerInfosByAcquireOption (lite : bool) (im : ProxyManager)
    (funcKey : string) (o : option AcquireOption) (unexpected : list SchedulerNodeInfo)
    : res proxy_error SchedulerNodeInfo :=
  getWithoutUnexpectedSchedulerInfosByKey im (acquireOwnerKey lite funcKey o) unexpected.

(** [instances] is the key set of the scheduler instance manager. *)
Definition IsEmpty (instances : gset string) (im : ProxyManager) : bool :=
  negb (existsb (λ kv, bool_decide (i_InstanceID (n_info kv.2) ∈ instances))
          (map_to_list (faasSchedulers im))).

(** [Range] stops at the first match; where two schedulers share an instance
    ID, which one comes first is the map's choice. *)
Definition GetSchedulerByInstanceId (instances : gset string) (im : ProxyManager)
    (instanceId : string) : option SchedulerNodeInfo :=
  if bool_decide (instanceId = "") then None
  else snd <$> head (filter (λ kv, i_InstanceID (n_info kv.2) = instanceId
                                   ∧ i_InstanceID (n_info kv.2) ∈ instances)
                       (map_to_list (faasSchedulers im))).

Definition GetSchedulerByInstanceName (im : ProxyManager) (instanceName : string)
    : res proxy_error SchedulerNodeInfo :=
  match faasSchedulers im !! instanceName with
  | None => Err (ErrNoSchedulerNamed instanceName)
  | Some node => Ok node
  end.

(** * schedulereventhandler.go *)

(** [em_module]: the configured key prefix type is "module". *)
Record EventManagerInfo := MkEvents {
  leaseIds : gmap string (gmap string Z);
  schedulerInfos : gmap string InstanceInfo;
}.

Record registry := MkRegistry { em : EventManagerInfo; pm : ProxyManager }.

Definition new_registry (rtapi : bool) : registry :=
  MkRegistry (MkEvents ∅ ∅) (newSchedulerProxy rtapi).

(** What the handler reads of the specification JSON. *)
Record InstanceSpecification := MkSpec {
  sp_InstanceID : string; sp_RuntimeAddress : string; sp_CreateOptions : gmap string string;
}.

Section Handler.
Context (unmarshal : string → option InstanceSpecification) (module : bool).

Definition getSchedulerInstanceInfo (key value : string) : option InstanceInfo :=
  info ← GetSchedulerInfoFromEtcdKey key;
  if bool_decide (value = "") then None else
  spec ← unmarshal value;
  Some (MkInfo (TenantID info) (FunctionName info) (Version info) (InstanceName info)
          (sp_InstanceID spec) (default "" (sp_CreateOptions spec !! "exclusivity"))
          (sp_RuntimeAddress spec)).

(** The loop over the lease times of an instance. *)
Definition update_time (leases : gmap string Z) : Z :=
  foldl (λ t kv, if (kv.2 <? t)%Z then kv.2 else t) 0%Z (map_to_list leases).

Definition needUpdate (existLease existSchedulerInfo : bool) : bool :=
  if module then existLease && existSchedulerInfo else existSchedulerInfo.

(** The second half of ProcessUpdate, once the event is recorded. *)
Definition publish (st : registry) (instanceName : string) : registry :=
  let leases := leaseIds (em st) !! instanceName in
  match schedulerInfos (em st) !! instanceName with
  | Some info =>
      if needUpdate (bool_decide (is_Some leases)) true
      then MkRegistry (em st) (Add (pm st) (MkNode info (update_time (default ∅ leases))))
      else st
  | None => st
  end.

Definition ProcessUpdate (key value : string) (now : Z) (st : registry) : registry :=
  let '(instanceName, isLeaseKey) := GetInstanceNameFromSchedulerLeaseEtcdKey key in
  if isLeaseKey then
    let leases := default ∅ (leaseIds (em st) !! instanceName) in
    let id := ParseLeaseFromSchedulerLeaseEtcdKey key in
    publish (MkRegistry (MkEvents (<[instanceName := <[id := now]> leases]> (leaseIds (em st)))
                                  (schedulerInfos (em st))) (pm st)) instanceName
  else
    match getSchedulerInstanceInfo key value with
    | None => st
    | Some info =>
        publish (MkRegistry (MkEvents (leaseIds (em st))
                               (<[InstanceName info := info]> (schedulerInfos (em st)))) (pm st))
          (InstanceName info)
    end.

(** The leases of an instance after the delete of one of its lease keys. *)
Definition drop_lease (m : gmap string (gmap string Z)) (instanceName leaseId : string)
    : gmap string (gmap string Z) :=
  match m !! instanceName with
  | None => m
  | Some leases =>
      let leases' := delete leaseId leases in
      if bool_decide (leases' = ∅) then delete instanceName m
      else <[instanceName := leases']> m
  end.

Definition needRemove (existLease existSchedulerInfo isLeaseKey : bool) : bool :=
  if module then xorb existLease existSchedulerInfo
  else negb existSchedulerInfo && negb isLeaseKey.

(** The second half of ProcessDelete; [info] was read before the deletion. *)
Definition withdraw (st : registry) (instanceName : string) (info : option InstanceInfo)
    (isLeaseKey : bool) : registry :=
  let existLease := bool_decide (is_Some (leaseIds (em st) !! instanceName)) in
  let existSchedulerInfo := bool_decide (is_Some (schedulerInfos (em st) !! instanceName)) in
  match info with
  | Some i =>
      if needRemove existLease existSchedulerInfo isLeaseKey
         && ExistInstanceName (pm st) (InstanceName i)
      then MkRegistry (em st) (Remove (pm st) i) else st
  | None => st
  end.

Definition ProcessDelete (key : string) (st : registry) : registry :=
  let '(leaseName, isLeaseKey) := GetInstanceNameFromSchedulerLeaseEtcdKey key in
  if isLeaseKey then
    let info := schedulerInfos (em st) !! leaseName in
    withdraw (MkRegistry (MkEvents (drop_lease (leaseIds (em st)) leaseName
                                      (ParseLeaseFromSchedulerLeaseEtcdKey key))
                                   (schedulerInfos (em st))) (pm st)) leaseName info true
  else
    match GetSchedulerInfoFromEtcdKey key with
    | None => st
    | Some i =>
        let info := schedulerInfos (em st) !! InstanceName i in
        withdraw (MkRegistry (MkEvents (leaseIds (em st))
                                (delete (InstanceName i) (schedulerInfos (em st)))) (pm st))
          (InstanceName i) info false
    end.

Inductive etcd_event := EvPut (key value : string) (now : Z) | EvDelete (key : string).

Definition reg_step (st : registry) (e : etcd_event) : registry :=
  match e with
  | EvPut key value now => ProcessUpdate key value now st
  | EvDelete key => ProcessDelete key st
  end.

Definition reg_run (rtapi : bool) (evs : list etcd_event) : registry :=
  foldl reg_step (new_registry rtapi) evs.

End Handler.

(** * The registry follows the keys in etcd *)

Record proxy_inv (im : ProxyManager) : Prop := {
  pi_ring : ring_inv (loadBalance im);
  pi_name name node : faasSchedulers im !! name = Some node → InstanceName (n_info node) = name;
  pi_owner name : name ∈ sch_owners (loadBalance im) → is_Some (faasSchedulers im !! name);
  pi_shared name node :
    faasSchedulers im !! name = Some node → Exclusivity (n_info node) = "" →
    name ∈ sch_owners (loadBalance im);
}.

Lemma sch_Add_owners c name :
  sch_owners (sch_Add c (NodeString name)) = {[name]} ∪ sch_owners c.
Proof. cbn [sch_Add]. case_bool_decide; cbn [sch_owners]; set_solver. Qed.

Lemma sch_Remove_owners c name :
  sch_owners (sch_Remove c (NodeString name)) = sch_owners c ∖ {[name]}.
Proof. cbn [sch_Remove]. case_bool_decide; cbn [sch_owners]; set_solver. Qed.

Lemma Add_proxy_inv im node : proxy_inv im → proxy_inv (Add im node).
Proof.
  intros [Hr Hn Ho Hs].
  split; cbn [Add loadBalance faasSchedulers].
  - case_bool_decide; [done|]. by apply Add_ring_inv.
  - intros name x [[<- <-]|[_ Hx]]%lookup_insert_Some; eauto.
  - intros name Hin. destruct (decide (name = InstanceName (n_info node))) as [->|Hne].
    { rewrite lookup_insert_eq. eauto. }
    rewrite lookup_insert_ne by done. apply Ho. case_bool_decide; [done|].
    rewrite sch_Add_owners in Hin. set_solver.
  - intros name x [[<- <-]|[_ Hx]]%lookup_insert_Some Hex.
    + rewrite bool_decide_false by naive_solver. rewrite sch_Add_owners. set_solver.
    + case_bool_decide; [eauto|]. rewrite sch_Add_owners. apply elem_of_union_r. eauto.
Qed.

Lemma Remove_proxy_inv im info : proxy_inv im → proxy_inv (Remove im info).
Proof.
  intros [Hr Hn Ho Hs]. unfold Remove. case_goal; [|done].
  split; cbn [loadBalance faasSchedulers].
  - by apply Remove_ring_inv.
  - intros name x [_ Hx]%lookup_delete_Some. eauto.
  - intros name. rewrite sch_Remove_owners. intros [Hin Hne]%elem_of_difference.
    rewrite lookup_delete_ne by set_solver. eauto.
  - intros name x [Hne Hx]%lookup_delete_Some Hex. rewrite sch_Remove_owners. set_solver.
Qed.

Lemma Remove_lookup im info name :
  faasSchedulers (Remove im info) !! name =
    if decide (name = InstanceName info) then None else faasSchedulers im !! name.
Proof.
  unfold Remove. case_goal; cbn [faasSchedulers]; case_decide; subst;
    [by rewrite lookup_delete_eq|by rewrite lookup_delete_ne|done|done].
Qed.

Section Registry.
Context (unmarshal : string → option InstanceSpecification) (module : bool).
Implicit Types st : registry.

(** What etcd holds of a scheduler: its specification and, in module mode, at
    least one lease. *)
Definition announced st (name : string) : option InstanceInfo :=
  if needUpdate module (bool_decide (is_Some (leaseIds (em st) !! name))) true
  then schedulerInfos (em st) !! name else None.

Record reg_inv st : Prop := {
  ri_proxy : proxy_inv (pm st);
  ri_name name info : schedulerInfos (em st) !! name = Some info → InstanceName info = name;
  ri_reg name : n_info <$> faasSchedulers (pm st) !! name = announced st name;
}.

(** An update of the records of [n] alone is completed by [publish]. *)
Lemma publish_inv st st' n :
  reg_inv st → pm st' = pm st →
  (∀ name, name ≠ n → announced st' name = announced st name) →
  (∀ name info, schedulerInfos (em st') !! name = Some info → InstanceName info = name) →
  (announced st' n = None → announced st n = None) →
  reg_inv (publish module st' n).
Proof.
  intros [Hp Hi Hr] Hpm Ha Hn Hnone. unfold publish.
  assert (∀ name, name ≠ n → n_info <$> faasSchedulers (pm st') !! name = announced st' name) as Hother
    by (intros; rewrite Hpm, Hr; symmetry; auto).
  assert (announced st' n = None → reg_inv st') as Hkeep.
  { intros Hnn. split; [by rewrite Hpm|done|]. intros name.
    destruct (decide (name = n)) as [->|]; [|auto]. rewrite Hpm, Hr, Hnn. auto. }
  unfold announced in Hkeep.
  destruct (schedulerInfos (em st') !! n) as [info|] eqn:Hinfo; [|apply Hkeep; by case_goal].
  destruct (needUpdate _ _ _) eqn:Hneed; [|by apply Hkeep].
  split; cbn [pm em].
  - apply Add_proxy_inv. by rewrite Hpm.
  - done.
  - intros name. pose proof (Hn _ _ Hinfo) as Hnm. cbn [Add faasSchedulers n_info].
    unfold announced; cbn [em]. rewrite Hnm. destruct (decide (name = n)) as [->|Hne].
    + rewrite lookup_insert_eq, Hneed, Hinfo. done.
    + rewrite lookup_insert_ne by done. by apply Hother.
Qed.

(** A deletion at [n] alone is completed by [withdraw]. *)
Lemma withdraw_inv st st' n isLease :
  reg_inv st → pm st' = pm st →
  (∀ name, name ≠ n → announced st' name = announced st name) →
  (∀ name info, schedulerInfos (em st') !! name = Some info →
                schedulerInfos (em st) !! name = Some info) →
  (announced st' n = announced st n ∨ announced st' n = None) →
  (is_Some (announced st n) → announced st' n = None →
   needRemove module (bool_decide (is_Some (leaseIds (em st') !! n)))
     (bool_decide (is_Some (schedulerInfos (em st') !! n))) isLease = true) →
  (needRemove module (bool_decide (is_Some (leaseIds (em st') !! n)))
     (bool_decide (is_Some (schedulerInfos (em st') !! n))) isLease = true →
   announced st' n = None) →
  reg_inv (withdraw module st' n (schedulerInfos (em st) !! n) isLease).
Proof.
  intros [Hp Hi Hr] Hpm Ha Hn Hor Hgo Honly. unfold withdraw.
  assert (∀ name, name ≠ n → n_info <$> faasSchedulers (pm st') !! name = announced st' name) as Hother
    by (intros; rewrite Hpm, Hr; symmetry; auto).
  assert (announced st' n = announced st n → reg_inv st') as Hkeep.
  { intros Hnn. split; [by rewrite Hpm|by intros ?? ?%Hn; apply Hi|]. intros name.
    destruct (decide (name = n)) as [->|]; [|auto]. by rewrite Hpm, Hr, Hnn. }
  assert (schedulerInfos (em st) !! n = None → announced st n = None) as Hno.
  { intros H. unfold announced. rewrite H. by case_goal. }
  destruct (schedulerInfos (em st) !! n) as [info|] eqn:Hinfo.
  2:{ apply Hkeep. rewrite Hno by done. destruct Hor as [->| ->]; auto. }
  pose proof (Hi _ _ Hinfo) as Hnm. rewrite Hnm, Hpm.
  destruct (needRemove _ _ _ _) eqn:Hneed; cbn [andb].
  - destruct (ExistInstanceName _ _) eqn:Hex.
    + split; cbn [pm em]; [by apply Remove_proxy_inv|by intros ?? ?%Hn; apply Hi|].
      intros name. rewrite Remove_lookup, Hnm. unfold announced; cbn [em].
      fold (announced st' name). case_decide; [subst name; by rewrite Honly|].
      rewrite <- Hpm. by apply Hother.
    + apply Hkeep. rewrite Honly by done. unfold ExistInstanceName in Hex. breflect.
      rewrite <- Hr. destruct (faasSchedulers _ !! n); [|done]. by destruct Hex.
  - apply Hkeep. destruct Hor as [|Hnn]; [done|]. rewrite Hnn.
    destruct (announced st n) eqn:Han; [|done]. by specialize (Hgo (ltac:(eauto)) Hnn).
Qed.

Lemma drop_lease_lookup m n id name :
  name ≠ n → drop_lease m n id !! name = m !! name.
Proof.
  intros Hne. unfold drop_lease. case_goal; [|done]. case_bool_decide;
    [by rewrite lookup_delete_ne|by rewrite lookup_insert_ne].
Qed.

Lemma update_inv key value now st :
  reg_inv st → reg_inv (ProcessUpdate unmarshal module key value now st).
Proof.
  intros Hst. pose proof Hst as [Hp Hi Hr]. unfold ProcessUpdate.
  destruct (GetInstanceNameFromSchedulerLeaseEtcdKey key) as [n [|]].
  - apply (publish_inv st); cbn [pm em]; [done|done| |done|].
    + intros name Hne. unfold announced; cbn [em leaseIds schedulerInfos].
      by rewrite lookup_insert_ne.
    + unfold announced; cbn [em leaseIds schedulerInfos]. rewrite lookup_insert_eq.
      rewrite (bool_decide_true (is_Some (Some _))) by eauto.
      unfold needUpdate. destruct module; cbn [andb]; [|done]. intros ->. by case_goal.
  - destruct (getSchedulerInstanceInfo unmarshal key value) as [info|]; [|done].
    apply (publish_inv st); cbn [pm em schedulerInfos]; [done|done| | |].
    + intros name Hne. unfold announced; cbn [em leaseIds schedulerInfos].
      by rewrite lookup_insert_ne.
    + intros name x [[<- <-]|[_ Hx]]%lookup_insert_Some; eauto.
    + unfold announced; cbn [em leaseIds schedulerInfos]. rewrite lookup_insert_eq.
      by case_goal.
Qed.

Lemma delete_reg_inv key st : reg_inv st → reg_inv (ProcessDelete module key st).
Proof.
  intros Hst. unfold ProcessDelete.
  destruct (GetInstanceNameFromSchedulerLeaseEtcdKey key) as [n [|]].
  - set (m := drop_lease _ n _).
    apply (withdraw_inv st); cbn [pm em schedulerInfos]; [done|done| |done| | |];
      unfold announced; cbn [em leaseIds schedulerInfos].
    + intros name Hne. unfold m. by rewrite drop_lease_lookup.
    + unfold needUpdate. destruct module; cbn [andb]; [|by left].
      case_bool_decide as Hm; [|by right]. left. case_bool_decide as Hl; [done|].
      unfold m, drop_lease in Hm. destruct (leaseIds (em st) !! n) as [ls|] eqn:E; [by destruct Hl|].
      rewrite E in Hm. by destruct Hm.
    + unfold needUpdate, needRemove. destruct module; cbn [andb negb].
      * intros [x Hx]. destruct (schedulerInfos (em st) !! n); [|by destruct (bool_decide _)].
        rewrite (bool_decide_true (is_Some (Some _))) by eauto.
        by destruct (bool_decide (is_Some (m !! n))).
      * intros [x Hx]. by rewrite Hx.
    + unfold needUpdate, needRemove. destruct module; cbn [andb negb].
      * destruct (schedulerInfos (em st) !! n); [|by case_goal].
        rewrite (bool_decide_true (is_Some (Some _))) by eauto. by case_bool_decide.
      * by rewrite andb_false_r.
  - destruct (GetSchedulerInfoFromEtcdKey key) as [i|]; [|done].
    apply (withdraw_inv st); cbn [pm em schedulerInfos]; [done|done| | | | |];
      unfold announced; cbn [em leaseIds schedulerInfos].
    + intros name Hne. by rewrite lookup_delete_ne.
    + intros name info [_ H]%lookup_delete_Some. done.
    + right. rewrite lookup_delete_eq. by case_goal.
    + rewrite lookup_delete_eq. intros [x Hx] _. unfold needRemove.
      rewrite (bool_decide_false (is_Some None)) by (by intros []).
      unfold needUpdate in Hx. destruct module; [|done].
      case_bool_decide; [done|]. by cbn in Hx.
    + intros _. rewrite lookup_delete_eq. by case_goal.
Qed.

Lemma new_reg_inv rtapi : reg_inv (new_registry rtapi).
Proof.
  split; [split| |]; cbn.
  - apply New_ring_inv.
  - intros name node. by rewrite lookup_empty.
  - intros name. set_solver.
  - intros name node. by rewrite lookup_empty.
  - intros name info. by rewrite lookup_empty.
  - intros name. unfold announced. cbn. rewrite !lookup_empty. by case_goal.
Qed.

Lemma reg_run_inv rtapi evs : reg_inv (reg_run unmarshal module rtapi evs).
Proof.
  unfold reg_run. apply (foldl_inv reg_inv); [|apply new_reg_inv].
  intros st [key value now|key] _ Hst; [by apply update_inv|by apply delete_reg_inv].
Qed.

End Registry.

(** * Selection *)

Lemma sch_Next_owner c key : ring_inv c → sch_nodes c ≠ [] → sch_Next c key ∈ sch_owners c.
Proof.
  intros Hc Hn. rewrite sch_Next_succ by done.
  destruct (succ_point_is_Some (crc32 key) (sch_nodes c) Hn) as [p Hp]. rewrite Hp. cbn.
  eapply ring_owner; [done|]. by eapply succ_point_elem.
Qed.

Lemma ring_empty_owners c : ring_inv c → sch_nodes c = [] → sch_owners c = ∅.
Proof.
  intros Hc Hn. apply set_eq. intros o. split; [|set_solver]. intros Ho.
  by destruct (ring_nonempty c o Hc Ho).
Qed.

(** The answer of a ring whose owners are registered schedulers. *)
Lemma named_ring im c key :
  ring_inv c → (∀ name, name ∈ sch_owners c → is_Some (faasSchedulers im !! name)) →
  (∀ name, is_Some (faasSchedulers im !! name) → TrimSpace name ≠ "") →
  match named_scheduler im (sch_Next c key) with
  | Ok node => faasSchedulers im !! sch_Next c key = Some node
               ∧ sch_Next c key ∈ sch_owners c
  | Err ErrAllSchedulerUnavailable => sch_owners c = ∅
  | Err (ErrNoSchedulerNamed _) => False
  end.
Proof.
  intros Hc Ho Hb. destruct (decide (sch_nodes c = [])) as [Hn|Hn].
  { rewrite sch_Next_succ, Hn by done. cbn. by apply ring_empty_owners. }
  pose proof (sch_Next_owner c key Hc Hn) as Hin.
  destruct (Ho _ Hin) as [node Hnode].
  assert (TrimSpace (sch_Next c key) ≠ "") as Ht by eauto.
  unfold named_scheduler. rewrite bool_decide_false by (by intros Hz; rewrite Hz in Ht).
  unfold instanceNameToSchedulerNodeInfo. rewrite bool_decide_false by done. by rewrite Hnode.
Qed.

Lemma foldl_insert_map {A} (f : string * A → string) (m : gmap string A) :
  (∀ k x, m !! k = Some x → f (k, x) = k) →
  foldl (λ acc kv, <[f kv := kv.2]> acc) ∅ (map_to_list m) = m.
Proof.
  intros Hf. rewrite <- (list_to_map_to_list m) at 2.
  rewrite <- (list_to_map_proper (reverse (map_to_list m)));
    [|rewrite reverse_Permutation; apply NoDup_fst_map_to_list|apply reverse_Permutation].
  rewrite <- (reverse_involutive (map_to_list m)) at 1.
  assert (∀ kv, kv ∈ reverse (map_to_list m) → f kv = kv.1) as Hall.
  { intros [k x] Hk. rewrite elem_of_reverse, elem_of_map_to_list in Hk. by apply Hf. }
  induction (reverse (map_to_list m)) as [|[k x] l IH]; [done|].
  rewrite reverse_cons, foldl_app, IH by (intros; apply Hall; by right).
  cbn. by rewrite (Hall (k, x)) by left.
Qed.

Lemma allSchedulers_eq im : proxy_inv im → allSchedulers im = faasSchedulers im.
Proof.
  intros [_ Hn _ _].
  apply (foldl_insert_map (λ kv : string * SchedulerNodeInfo, InstanceName (n_info kv.2))). eauto.
Qed.

Lemma tmpHash_spec im unexpected :
  proxy_inv im →
  ring_inv (tmpHash im unexpected)
  ∧ ∀ name, name ∈ sch_owners (tmpHash im unexpected) ↔
      ∃ node, faasSchedulers im !! name = Some node ∧ expected node unexpected = true.
Proof.
  intros Him. pose proof Him as [_ Hn _ _]. unfold tmpHash. rewrite allSchedulers_eq by done.
  set (add := λ h kv, _).
  assert (∀ l, ring_inv (foldl add NewSimpleCHGeneric l)
    ∧ ∀ name, name ∈ sch_owners (foldl add NewSimpleCHGeneric l) ↔
        ∃ kv, kv ∈ l ∧ expected kv.2 unexpected = true ∧ InstanceName (n_info kv.2) = name) as Hl.
  { intros l. induction l as [|kv l [IHr IHo]] using rev_ind.
    { split; [apply New_ring_inv|]. cbn. set_solver. }
    rewrite foldl_app. cbn [foldl]. set (h := foldl add _ l) in *.
    assert (add h kv = if expected kv.2 unexpected
      then sch_Add h (NodeString (InstanceName (n_info kv.2))) else h) as -> by done.
    destruct (expected kv.2 unexpected) eqn:He.
    - split; [by apply Add_ring_inv|]. intros name.
      rewrite sch_Add_owners, elem_of_union, elem_of_singleton, IHo. split.
      + intros [->|(x & Hx & H)]; [exists kv|exists x]; set_solver.
      + intros (x & [Hx|Hx%list_elem_of_singleton]%elem_of_app & H1 & H2); [eauto|].
        subst x. eauto.
    - split; [done|]. intros name. rewrite IHo. split.
      + intros (x & Hx & H). exists x. set_solver.
      + intros (x & [Hx|Hx%list_elem_of_singleton]%elem_of_app & H1 & H2); [eauto|].
        subst x. congruence. }
  destruct (Hl (map_to_list (faasSchedulers im))) as [H1 H2]. split; [done|].
  intros name. rewrite H2. split.
  - intros ([k node] & Hin & He & Hk). rewrite elem_of_map_to_list in Hin. cbn in *.
    exists node. by rewrite <- Hk, (Hn _ _ Hin).
  - intros (node & Hin & He). exists (name, node). rewrite elem_of_map_to_list. cbn. eauto.
Qed.

(** * Update times *)

Definition clock_ok (e : etcd_event) : Prop :=
  match e with EvPut _ _ now => (0 < now)%Z | EvDelete _ => True end.

Definition times_inv (st : registry) : Prop :=
  (∀ name ls id t, leaseIds (em st) !! name = Some ls → ls !! id = Some t → (0 < t)%Z)
  ∧ ∀ name node, faasSchedulers (pm st) !! name = Some node → UpdateTime node = 0%Z.

Lemma update_time_zero ls : (∀ id t, ls !! id = Some t → (0 < t)%Z) → update_time ls = 0%Z.
Proof.
  intros H. unfold update_time. apply (foldl_inv (λ t, t = 0%Z)); [|done].
  intros t [id v] Hin ->. apply elem_of_map_to_list in Hin. apply H in Hin. cbn.
  destruct (v <? 0)%Z eqn:E; breflect; lia.
Qed.

Lemma publish_times module st n : times_inv st → times_inv (publish module st n).
Proof.
  intros [H1 H2]. unfold publish. case_goal; [|done]. case_goal; [|done].
  split; cbn [em pm]; [done|]. intros name node. cbn [Add faasSchedulers].
  intros [[_ <-]|[_ Hx]]%lookup_insert_Some; [|eauto]. cbn [UpdateTime].
  apply update_time_zero. intros id t. destruct (leaseIds (em st) !! n) eqn:E; cbn; [eauto|].
  by rewrite lookup_empty.
Qed.

Lemma withdraw_times module st n info isLease :
  times_inv st → times_inv (withdraw module st n info isLease).
Proof.
  intros [H1 H2]. unfold withdraw. case_goal; [|done]. case_goal; [|done].
  split; cbn [em pm]; [done|]. intros name node. rewrite Remove_lookup.
  case_decide; [done|]. apply H2.
Qed.

Lemma drop_lease_sub m n id name ls k t :
  drop_lease m n id !! name = Some ls → ls !! k = Some t →
  ∃ ls', m !! name = Some ls' ∧ ls' !! k = Some t.
Proof.
  unfold drop_lease. destruct (m !! n) as [old|] eqn:E; [|by eauto].
  case_bool_decide.
  - intros [_ Hx]%lookup_delete_Some. eauto.
  - intros [[<- <-]|[_ Hx]]%lookup_insert_Some; [|by eauto].
    intros [_ Ht]%lookup_delete_Some. eauto.
Qed.

Lemma reg_step_times unmarshal module st e :
  clock_ok e → times_inv st → times_inv (reg_step unmarshal module st e).
Proof.
  intros He [H1 H2]. destruct e as [key value now|key]; cbn [reg_step].
  - unfold ProcessUpdate. repeat case_goal; try done; apply publish_times; split; cbn [em pm leaseIds];
      try done.
    intros name ls id t [[<- <-]|[_ Hx]]%lookup_insert_Some; [|by apply (H1 _ _ _ _ Hx)].
    intros [[_ <-]|[_ Ht]]%lookup_insert_Some; [done|].
    destruct (leaseIds (em st) !! s) eqn:E; cbn in Ht; [eauto|by rewrite lookup_empty in Ht].
  - unfold ProcessDelete. repeat case_goal; try done; apply withdraw_times; split; cbn [em pm leaseIds];
      try done.
    intros name ls k t Hls Ht. destruct (drop_lease_sub _ _ _ _ _ _ _ Hls Ht) as (x & ? & ?). eauto.
Qed.

Lemma reg_run_times unmarshal module rtapi evs :
  Forall clock_ok evs → times_inv (reg_run unmarshal module rtapi evs).
Proof.
  rewrite Forall_forall. intros He. apply (foldl_inv times_inv).
  - intros st e Hin. apply reg_step_times. auto.
  - split; cbn; intros ??; [intros ??|]; by rewrite lookup_empty.
Qed.

Lemma expected_zero v unexpected :
  UpdateTime v = 0%Z → Forall (λ u, UpdateTime u = 0%Z) unexpected →
  expected v unexpected = true ↔
    i_InstanceID (n_info v) ∉ ((λ u, i_InstanceID (n_info u)) <$> unexpected).
Proof.
  intros Hv Hu. unfold expected. rewrite negb_true_iff, <- not_true_iff_false, existsb_exists.
  rewrite list_elem_of_fmap. rewrite Forall_forall in Hu. split; intros H (u & H1 & H2); apply H.
  - exists u. rewrite <- list_elem_of_In. split; [done|]. rewrite H1, bool_decide_true by done.
    by rewrite Hv, (Hu _ H2).
  - exists u. rewrite <- list_elem_of_In in H1. breflect. done.
Qed.

(** * What etcd holds *)

Definition event_key (e : etcd_event) : string := match e with EvPut key _ _ | EvDelete key => key end.

(** The keys and values in etcd after some events. *)
Definition etcd_apply (m : gmap string string) (e : etcd_event) : gmap string string :=
  match e with EvPut key value _ => <[key := value]> m | EvDelete key => delete key m end.
Definition etcd_run (evs : list etcd_event) : gmap string string := foldl etcd_apply ∅ evs.

(** What a key names: a scheduler by its seventh element, or a lease of it by
    the eighth. *)
Definition names (key : string) : option (string * option string) :=
  match Split key "/" with
  | [_; _; _; _; _; _; name] => Some (name, None)
  | [_; _; _; _; _; _; name; leaseId] => Some (name, Some leaseId)
  | _ => None
  end.

(** The scheduler a specification describes. *)
Definition scheduler_of (name : string) (spec : InstanceSpecification) : InstanceInfo :=
  MkInfo "0" "faas-scheduler" "latest" name (sp_InstanceID spec)
    (default "" (sp_CreateOptions spec !! "exclusivity")) (sp_RuntimeAddress spec).

Section Etcd.
Context (unmarshal : string → option InstanceSpecification).

Definition holds_spec (etcd : gmap string string) (name : string) (info : InstanceInfo) : Prop :=
  ∃ key value spec, etcd !! key = Some value ∧ names key = Some (name, None) ∧
    unmarshal value = Some spec ∧ info = scheduler_of name spec.
Definition holds_lease (etcd : gmap string string) (name leaseId : string) : Prop :=
  ∃ key, is_Some (etcd !! key) ∧ names key = Some (name, Some leaseId).

(** Two keys that name the same thing are the same key. *)
Definition unambiguous (keys : list string) : Prop :=
  ∀ k1 k2 n, k1 ∈ keys → k2 ∈ keys → names k1 = Some n → names k2 = Some n → k1 = k2.

(** A put of a specification has a text that can be read. *)
Definition readable (e : etcd_event) : Prop :=
  match e with
  | EvPut key value _ =>
      match names key with Some (_, None) => value ≠ "" ∧ is_Some (unmarshal value) | _ => True end
  | EvDelete _ => True
  end.

Lemma spec_parsed key : GetSchedulerInfoFromEtcdKey key =
  match names key with
  | Some (name, None) => Some (MkInfo "0" "faas-scheduler" "latest" name "" "" "")
  | _ => None
  end.
Proof.
  unfold GetSchedulerInfoFromEtcdKey, names, moduleSchedulerKeyLen, functionNameIndex.
  by destruct (Split key "/") as [|? [|? [|? [|? [|? [|? [|? [|? [|? ?]]]]]]]]].
Qed.

Lemma lease_parsed key : GetInstanceNameFromSchedulerLeaseEtcdKey key =
  match names key with Some (name, Some _) => (name, true) | _ => ("", false) end.
Proof.
  unfold GetInstanceNameFromSchedulerLeaseEtcdKey, names, moduleSchedulerKeyLen, functionNameIndex.
  by destruct (Split key "/") as [|? [|? [|? [|? [|? [|? [|? [|? [|? ?]]]]]]]]].
Qed.

Lemma lease_id_parsed key name id : names key = Some (name, Some id) → ParseLeaseFromSchedulerLeaseEtcdKey key = id.
Proof.
  unfold ParseLeaseFromSchedulerLeaseEtcdKey, names, moduleSchedulerKeyLen, leaseIndex.
  destruct (Split key "/") as [|? [|? [|? [|? [|? [|? [|? [|? [|? ?]]]]]]]]]; try done. by intros [= _ <-].
Qed.

(** The records of the event manager are those of etcd. *)
Record records (keys : list string) (etcd : gmap string string) (em : EventManagerInfo) : Prop := {
  rc_keys key : is_Some (etcd !! key) → key ∈ keys;
  rc_specs name info : schedulerInfos em !! name = Some info ↔ holds_spec etcd name info;
  rc_leases name id : (∃ ls, leaseIds em !! name = Some ls ∧ is_Some (ls !! id)) ↔ holds_lease etcd name id;
  rc_some name ls : leaseIds em !! name = Some ls → ls ≠ ∅;
}.

Lemma holds_spec_insert keys etcd key value name n spec info :
  unambiguous keys → key ∈ keys → (∀ k, is_Some (etcd !! k) → k ∈ keys) →
  names key = Some (n, None) → unmarshal value = Some spec →
  holds_spec (<[key := value]> etcd) name info ↔ (if decide (name = n) then info = scheduler_of n spec else holds_spec etcd name info).
Proof.
  intros Hu Hk He Hn Hs. split.
  - intros (k & v & sp & Hl & Hnm & Hsp & ->). apply lookup_insert_Some in Hl as [[<- <-]|[Hne Hl]].
    + assert (n = name) as -> by congruence. rewrite decide_True by done. congruence.
    + rewrite decide_False; [by exists k, v, sp|]. intros ->. apply Hne. eapply Hu; eauto.
  - case_decide as E.
    + subst name. intros ->. exists key, value, spec. by rewrite lookup_insert_eq.
    + intros (k & v & sp & Hl & Hnm & Hsp & ->). exists k, v, sp. rewrite lookup_insert_ne; [done|congruence].
Qed.

Lemma holds_spec_other etcd etcd' name info :
  (∀ k n, names k = Some (n, None) → etcd' !! k = etcd !! k) → holds_spec etcd' name info ↔ holds_spec etcd name info.
Proof.
  intros H. by split; intros (k & v & sp & Hl & Hnm & ?); exists k, v, sp; [rewrite <- (H k name)|rewrite (H k name)].
Qed.

Lemma holds_lease_other etcd etcd' name id :
  (∀ k n i, names k = Some (n, Some i) → is_Some (etcd' !! k) ↔ is_Some (etcd !! k)) → holds_lease etcd' name id ↔ holds_lease etcd name id.
Proof. intros H. by split; intros (k & Hl & Hnm); exists k; split; try done; apply (H k name id). Qed.

Lemma publish_em module st n : em (publish module st n) = em st.
Proof. unfold publish. by repeat case_goal. Qed.
Lemma withdraw_em module st n info b : em (withdraw module st n info b) = em st.
Proof. unfold withdraw. by repeat case_goal. Qed.

Lemma lease_insert (m : gmap string (gmap string Z)) n i t name id :
  (∃ ls, <[n := <[i := t]> (default ∅ (m !! n))]> m !! name = Some ls ∧ is_Some (ls !! id)) ↔
  (name = n ∧ id = i) ∨ ∃ ls, m !! name = Some ls ∧ is_Some (ls !! id).
Proof.
  destruct (decide (name = n)) as [->|Hn].
  - rewrite lookup_insert_eq. split.
    + intros (ls & [= <-] & [x Hx]). apply lookup_insert_Some in Hx as [[-> ->]|[_ Hx]]; [by left|right].
      destruct (m !! n); cbn in Hx; [eauto|by rewrite lookup_empty in Hx].
    + intros [[_ ->]|(ls & -> & Hx)]; (eexists; split; [done|]); [by rewrite lookup_insert_eq|].
      cbn. destruct (decide (i = id)) as [->|]; [by rewrite lookup_insert_eq|by rewrite lookup_insert_ne].
  - rewrite lookup_insert_ne by done. naive_solver.
Qed.

Lemma lease_drop (m : gmap string (gmap string Z)) n i name id :
  (∃ ls, drop_lease m n i !! name = Some ls ∧ is_Some (ls !! id)) ↔
  ¬ (name = n ∧ id = i) ∧ ∃ ls, m !! name = Some ls ∧ is_Some (ls !! id).
Proof.
  destruct (decide (name = n)) as [->|Hn]; [|rewrite drop_lease_lookup by done; naive_solver].
  unfold drop_lease. destruct (m !! n) as [ls|] eqn:E; [|rewrite E; naive_solver].
  split.
  - intros (ls' & H & [x Hx]). case_bool_decide; [by rewrite lookup_delete_eq in H|]. rewrite lookup_insert_eq in H.
    injection H as <-. apply lookup_delete_Some in Hx as [Hne Hx]. split; [naive_solver|eauto].
  - intros (Hne & ls' & [= <-] & Hx). assert (id ≠ i) as Hi by naive_solver.
    rewrite bool_decide_false; [rewrite lookup_insert_eq; eexists; split; [done|by rewrite lookup_delete_ne]|].
    intros H. destruct Hx as [x Hx]. rewrite <- (lookup_delete_ne ls i) in Hx by done. by rewrite H in Hx.
Qed.

Lemma drop_lease_some (m : gmap string (gmap string Z)) n i :
  (∀ name ls, m !! name = Some ls → ls ≠ ∅) → ∀ name ls, drop_lease m n i !! name = Some ls → ls ≠ ∅.
Proof.
  intros H name ls. unfold drop_lease. destruct (m !! n); [|apply H]. case_bool_decide.
  - intros [_ ?]%lookup_delete_Some. eauto.
  - intros [[<- <-]|[_ ?]]%lookup_insert_Some; eauto.
Qed.

Lemma records_update module keys etcd st key value now :
  unambiguous keys → key ∈ keys → readable (EvPut key value now) → records keys etcd (em st) →
  records keys (<[key := value]> etcd) (em (ProcessUpdate unmarshal module key value now st)).
Proof.
  intros Hu Hk Hr [R1 R2 R3 R4]. unfold ProcessUpdate, getSchedulerInstanceInfo. rewrite lease_parsed, spec_parsed. cbn in Hr.
  assert (∀ k, is_Some (<[key := value]> etcd !! k) → k ∈ keys) as K1.
  { intros k [v Hv]. apply lookup_insert_Some in Hv as [[<- _]|[_ Hv]]; eauto. }
  destruct (names key) as [[n [i|]]|] eqn:En.
  - rewrite publish_em. cbn. rewrite (lease_id_parsed _ _ _ En). split; cbn; [done|..].
    + intros name info. rewrite R2. symmetry. apply holds_spec_other. intros k ? Hn. rewrite lookup_insert_ne; [done|congruence].
    + intros name id. rewrite lease_insert, R3. split.
      * intros [[-> ->]|(k & [v Hv] & Hnm)]; [exists key; by rewrite lookup_insert_eq|].
        exists k. split; [|done]. destruct (decide (key = k)) as [->|]; [by rewrite lookup_insert_eq|rewrite lookup_insert_ne; eauto].
      * intros (k & [v Hv] & Hnm). apply lookup_insert_Some in Hv as [[<- _]|[_ Hv]]; [left; naive_solver|right; exists k; eauto].
    + intros name ls [[<- <-]|[_ H]]%lookup_insert_Some; [apply insert_non_empty|eauto].
  - destruct Hr as [Hne [spec Hs]]. cbn. rewrite bool_decide_false by done. rewrite Hs. cbn. rewrite publish_em. split; cbn; [done|..].
    + intros name info. rewrite (holds_spec_insert keys _ _ _ _ _ spec) by eauto. case_decide as E.
      * subst. rewrite lookup_insert_eq. naive_solver.
      * rewrite lookup_insert_ne by done. apply R2.
    + intros name id. rewrite R3. symmetry. apply holds_lease_other. intros k ? ? Hn. rewrite lookup_insert_ne; [done|congruence].
    + done.
  - split; [done|..].
    + intros name info. cbn. rewrite R2. symmetry. apply holds_spec_other. intros k ? Hn. rewrite lookup_insert_ne; [done|congruence].
    + intros name id. cbn. rewrite R3. symmetry. apply holds_lease_other. intros k ? ? Hn. rewrite lookup_insert_ne; [done|congruence].
    + done.
Qed.

Lemma records_delete module keys etcd st key :
  unambiguous keys → key ∈ keys → records keys etcd (em st) → records keys (delete key etcd) (em (ProcessDelete module key st)).
Proof.
  intros Hu Hk [R1 R2 R3 R4]. unfold ProcessDelete. rewrite lease_parsed, spec_parsed.
  assert (∀ k, is_Some (delete key etcd !! k) → k ∈ keys) as K1.
  { intros k [v Hv]. apply lookup_delete_Some in Hv as [_ Hv]; eauto. }
  destruct (names key) as [[n [i|]]|] eqn:En.
  - rewrite withdraw_em. cbn. rewrite (lease_id_parsed _ _ _ En). split; cbn; [done|..|by apply drop_lease_some].
    + intros name info. rewrite R2. symmetry. apply holds_spec_other. intros k ? Hn. rewrite lookup_delete_ne; [done|congruence].
    + intros name id. rewrite lease_drop, R3. split.
      * intros (Hne & k & Hv & Hnm). exists k. split; [|done]. rewrite lookup_delete_ne; [done|]. intros ->. naive_solver.
      * intros (k & [v Hv] & Hnm). apply lookup_delete_Some in Hv as [Hne Hv]. split; [|exists k; eauto].
        intros [-> ->]. apply Hne. eapply Hu; eauto.
  - rewrite withdraw_em. split; cbn; [done|..|done].
    + intros name info. rewrite lookup_delete_Some, R2. split.
      * intros (Hne & k & v & sp & Hv & Hnm & ?). exists k, v, sp. rewrite lookup_delete_ne; [done|congruence].
      * intros (k & v & sp & Hv & Hnm & ?). apply lookup_delete_Some in Hv as [Hne Hv]. split; [|by exists k, v, sp].
        intros ->. apply Hne. eapply Hu; eauto.
    + intros name id. rewrite R3. symmetry. apply holds_lease_other. intros k ? ? Hn. rewrite lookup_delete_ne; [done|congruence].
  - split; [done|..|done].
    + intros name info. cbn. rewrite R2. symmetry. apply holds_spec_other. intros k ? Hn. rewrite lookup_delete_ne; [done|congruence].
    + intros name id. cbn. rewrite R3. symmetry. apply holds_lease_other. intros k ? ? Hn. rewrite lookup_delete_ne; [done|congruence].
Qed.

Lemma records_run module rtapi keys evs :
  unambiguous keys → (∀ e, e ∈ evs → event_key e ∈ keys) → Forall readable evs →
  records keys (etcd_run evs) (em (reg_run unmarshal module rtapi evs)).
Proof.
  intros Hu. induction evs as [|e evs IH] using rev_ind; intros Hk Hr.
  - split; cbn; [by intros key []|..].
    + intros name info. rewrite lookup_empty. split; [done|]. by intros (? & ? & ? & ? & _).
    + intros name id. split; [by intros (? & ? & _)|]. by intros (? & [? ?] & _).
    + intros name ls. by rewrite lookup_empty.
  - apply Forall_app in Hr as [Hr He]. rewrite Forall_singleton in He. unfold etcd_run, reg_run in *. rewrite !foldl_app. cbn [foldl].
    assert (records keys (foldl etcd_apply ∅ evs) (em (foldl (reg_step unmarshal module) (new_registry rtapi) evs))) as Hs
      by (apply IH; [intros e' ?; apply Hk, elem_of_app; by left|done]).
    assert (event_key e ∈ keys) as Hek by (apply Hk, elem_of_app; right; by left).
    destruct e as [key value now|key]; cbn [reg_step etcd_apply]; [by apply records_update|by apply records_delete].
Qed.

End Etcd.

(** * Properties *)

(** C22. The scheduler registry mirrors etcd. When no two keys of the events
    name the same scheduler (or the same lease of one) and every specification
    put into etcd can be read, then after any sequence of put and delete events
    a scheduler is registered, with a specification, exactly when etcd holds a
    key that names it with that specification and, in module mode, the key of a
    lease of it; only registered schedulers are on the hash ring, and every
    registered scheduler without tenant exclusivity is. *)
Theorem registry_mirrors_etcd unmarshal module rtapi evs :
  let st := reg_run unmarshal module rtapi evs in
  let etcd := etcd_run evs in
  unambiguous (event_key <$> evs) → Forall (readable unmarshal) evs →
  (∀ name info, n_info <$> faasSchedulers (pm st) !! name = Some info ↔
     holds_spec unmarshal etcd name info ∧ (module = true → ∃ leaseId, holds_lease etcd name leaseId))
  ∧ (∀ name, name ∈ sch_owners (loadBalance (pm st)) → is_Some (faasSchedulers (pm st) !! name))
  ∧ (∀ name node, faasSchedulers (pm st) !! name = Some node → Exclusivity (n_info node) = "" →
       name ∈ sch_owners (loadBalance (pm st))).
Proof.
  intros st etcd Hk Hv. destruct (reg_run_inv unmarshal module rtapi evs) as [[Hr Hn Ho Hs] _ Hreg].
  destruct (records_run unmarshal module rtapi _ evs Hk (λ e H, list_elem_of_fmap_2 event_key _ _ H) Hv) as [_ R2 R3 R4].
  fold st in Hr, Hn, Ho, Hs, Hreg, R2, R3, R4. fold etcd in R2, R3. split; [|split; [done|done]].
  intros name info. rewrite Hreg, <- R2. unfold announced, needUpdate. destruct module; cbn [andb]; [|naive_solver].
  rewrite andb_true_r. case_bool_decide as Hl.
  - split; [|by intros [? _]]. intros Hi. split; [done|]. intros _. destruct Hl as [ls Hls].
    destruct (map_choose ls) as (id & t & Ht); [by eapply R4|]. exists id. apply R3. exists ls. eauto.
  - split; [done|]. intros [_ H]. destruct (H eq_refl) as (id & (ls & ? & ?)%R3). by destruct Hl; exists ls.
Qed.

(** The owner of a request is a registered scheduler: with schedulers
    whose names are not blank, GetByAcquireOption answers the scheduler
    that owns the request's key on the ring, with the specification
    etcd announces, and fails only when the ring is empty, with the error the
    caller downgrades on. *)
Theorem owner_is_registered unmarshal module rtapi evs lite funcKey option :
  let st := reg_run unmarshal module rtapi evs in
  (∀ name, is_Some (faasSchedulers (pm st) !! name) → TrimSpace name ≠ "") →
  match GetByAcquireOption lite (pm st) funcKey option with
  | Ok node =>
      InstanceName (n_info node) = sch_Next (loadBalance (pm st)) (acquireOwnerKey lite funcKey option)
      ∧ schedulerInfos (em st) !! InstanceName (n_info node) = Some (n_info node)
  | Err ErrAllSchedulerUnavailable => sch_owners (loadBalance (pm st)) = ∅
  | Err (ErrNoSchedulerNamed _) => False
  end.
Proof.
  intros st Hb. destruct (reg_run_inv unmarshal module rtapi evs) as [[Hr Hn Ho Hs] _ Hreg].
  fold st in Hr, Hn, Ho, Hs, Hreg. set (key := acquireOwnerKey lite funcKey option).
  pose proof (named_ring (pm st) _ key Hr Ho Hb) as H.
  unfold GetByAcquireOption, getSchedulerByHashKey, getNextScheduler. fold key.
  destruct (named_scheduler _ _) as [node|[|]]; [|done|done].
  destruct H as [H _]. rewrite <- (Hn _ _ H) at 1. split; [by rewrite (Hn _ _ H)|].
  specialize (Hreg (InstanceName (n_info node))). rewrite (Hn _ _ H), H in Hreg.
  rewrite (Hn _ _ H). unfold announced in Hreg. by case_in Hreg.
Qed.

(** A retry never goes back to a scheduler that failed: with a list of
    failed schedulers the answer is a registered scheduler whose instance
    ID is none of theirs, and AllSchedulerUnavailable is reported only when
    every registered scheduler is among them. The update times that could
    readmit a restarted scheduler are always the zero time. *)
Theorem retry_skips_failed unmarshal module rtapi evs hashKey unexpected :
  let im := pm (reg_run unmarshal module rtapi evs) in
  let failed := (λ u, i_InstanceID (n_info u)) <$> unexpected in
  Forall clock_ok evs → unexpected ≠ [] → Forall (λ u, UpdateTime u = 0%Z) unexpected →
  (∀ name, is_Some (faasSchedulers im !! name) → TrimSpace name ≠ "") →
  match getWithoutUnexpectedSchedulerInfosByKey im hashKey unexpected with
  | Ok node =>
      faasSchedulers im !! InstanceName (n_info node) = Some node
      ∧ UpdateTime node = 0%Z ∧ i_InstanceID (n_info node) ∉ failed
  | Err ErrAllSchedulerUnavailable =>
      ∀ name node, faasSchedulers im !! name = Some node → i_InstanceID (n_info node) ∈ failed
  | Err (ErrNoSchedulerNamed _) => False
  end.
Proof.
  intros im failed Hc Hne Hu Hb.
  destruct (reg_run_inv unmarshal module rtapi evs) as [Hp _ _]. fold im in Hp.
  destruct (reg_run_times unmarshal module rtapi evs Hc) as [_ Ht]. fold im in Ht.
  destruct (tmpHash_spec im unexpected Hp) as [Hr Ho].
  assert (∀ name, name ∈ sch_owners (tmpHash im unexpected) → is_Some (faasSchedulers im !! name)) as Hsub.
  { intros name (node & Hx & _)%Ho. eauto. }
  pose proof (named_ring im _ hashKey Hr Hsub Hb) as H.
  unfold getWithoutUnexpectedSchedulerInfosByKey. destruct unexpected as [|u us]; [done|].
  destruct (named_scheduler _ _) as [node|[|]]; [| |done].
  - destruct H as [H (node' & H' & He)%(proj1 (Ho _))]. rewrite H in H'. injection H' as <-.
    rewrite (pi_name _ Hp _ _ H). split; [done|]. split; [eauto|].
    apply expected_zero in He; eauto.
  - intros name node Hx. destruct (decide (i_InstanceID (n_info node) ∈ failed)) as [|Hnot]; [done|].
    apply (expected_zero node (u :: us)) in Hnot; [|eauto|done].
    assert (name ∈ sch_owners (tmpHash im (u :: us))) as Hin by (apply Ho; eauto).
    rewrite H in Hin. set_solver.
Qed.

(** * Examples *)

(** A specification whose text is the instance ID; the ID "t" is exclusive to
    tenant t. *)
Definition example_spec (value : string) : option InstanceSpecification :=
  Some (MkSpec value (value +:+ ":22423")
          (if bool_decide (value = "t") then {["exclusivity" := "t"]} else ∅)).

Definition sched_key (name : string) : string :=
  "/sn/faas-scheduler/instances/cluster001/10.0.0.1/" +:+ name.

Definition example_events : list etcd_event :=
  [ EvPut (sched_key "sched-a") "id-a" 5; EvPut (sched_key "sched-a/lease-1") "" 6;
    EvPut (sched_key "sched-b/lease-2") "" 7; EvPut (sched_key "sched-b") "id-b" 8;
    EvPut (sched_key "sched-c") "id-c" 9; EvPut (sched_key "sched-d/lease-3") "" 9;
    EvPut (sched_key "sched-d") "id-d" 9; EvDelete (sched_key "sched-d/lease-3") ].

Definition mirror_events : list etcd_event :=
  [ EvPut (sched_key "sched-a") "id-a" 5; EvPut (sched_key "sched-a/lease-1") "" 6; EvPut (sched_key "sched-c") "id-c" 9 ].

Lemma registry_mirrors_etcd_witness :
  n_info <$> faasSchedulers (pm (reg_run example_spec true true mirror_events)) !! "sched-a" =
    Some (MkInfo "0" "faas-scheduler" "latest" "sched-a" "id-a" "" "id-a:22423").
Proof.
  refine (proj2 (proj1 (registry_mirrors_etcd example_spec true true mirror_events _ _) _ _) _).
  - intros k1 k2 n H1 H2. cbn in H1, H2. set_unfold in H1. set_unfold in H2.
    destruct H1 as [->|[->|[->|[]]]], H2 as [->|[->|[->|[]]]]; vm_compute; congruence.
  - unfold mirror_events. rewrite !Forall_cons. split_and!; [vm_compute; split; [done|eauto]|done|vm_compute; split; [done|eauto]|done].
  - split; [|intros _; exists "lease-1"%string, (sched_key "sched-a/lease-1")].
    + exists (sched_key "sched-a"), "id-a"%string. eexists. repeat split; vm_compute; reflexivity.
    + split; [vm_compute; eauto|reflexivity].
Defined.

Abbreviation example_registry := (reg_run example_spec true true example_events).

Lemma example_names :
  (map_to_list (faasSchedulers (pm example_registry))).*1 ≡ₚ ["sched-a"; "sched-b"].
Proof. vm_compute. apply perm_swap || reflexivity. Qed.

Lemma example_not_blank name :
  is_Some (faasSchedulers (pm example_registry) !! name) → TrimSpace name ≠ "".
Proof.
  intros [node Hn%elem_of_map_to_list].
  assert (name ∈ ["sched-a"; "sched-b"]) as Hin.
  { rewrite <- example_names. apply list_elem_of_fmap. by exists (name, node). }
  set_unfold in Hin. destruct Hin as [->|[->|[]]]; by vm_compute.
Qed.

Lemma owner_is_registered_witness :
  ∃ node, GetByAcquireOption true (pm example_registry) "t/f/latest" None = Ok node
          ∧ schedulerInfos (em example_registry) !! InstanceName (n_info node) = Some (n_info node).
Proof.
  assert (∃ node, GetByAcquireOption true (pm example_registry) "t/f/latest" None = Ok node)
    as [node E] by (eexists; vm_compute; reflexivity).
  pose proof (owner_is_registered example_spec true true example_events true "t/f/latest" None
                example_not_blank) as H.
  cbv zeta in H. rewrite E in H. exists node. split; [exact E|exact (proj2 H)].
Defined.

Definition example_failed_node : SchedulerNodeInfo :=
  MkNode (MkInfo "0" "faas-scheduler" "latest" "sched-a" "id-a" "" "id-a:22423") 0.
Definition example_failed : list SchedulerNodeInfo := [example_failed_node].

Lemma retry_skips_failed_witness :
  ∃ node, getWithoutUnexpectedSchedulerInfosByKey (pm example_registry) "t/f/latest" example_failed
            = Ok node ∧ i_InstanceID (n_info node) ∉ ["id-a"].
Proof.
  assert (Forall clock_ok example_events) as Hc by (repeat constructor).
  assert (Forall (λ u, UpdateTime u = 0%Z) example_failed) as Hu by (repeat constructor).
  assert (∃ node, getWithoutUnexpectedSchedulerInfosByKey (pm example_registry) "t/f/latest"
                    example_failed = Ok node) as [node E] by (eexists; vm_compute; reflexivity).
  pose proof (retry_skips_failed example_spec true true example_events "t/f/latest" example_failed
                Hc ltac:(discriminate) Hu example_not_blank) as H.
  cbv zeta in H. rewrite E in H. exists node. split; [exact E|exact (proj2 (proj2 H))].
Defined.

(** A scheduler reserved for a tenant is kept off the shared ring, but the ring
    a retry builds from all registered schedulers contains it: with the one
    shared scheduler failed, the request of another tenant is sent there. *)
Theorem retry_reaches_exclusive :
  let st := reg_run example_spec false false
              [EvPut (sched_key "sched-a") "id-a" 1; EvPut (sched_key "sched-t") "t" 2] in
  getSchedulerByHashKey (pm st) "u/f/latest" = Ok example_failed_node
  ∧ ∃ node, getWithoutUnexpectedSchedulerInfosByKey (pm st) "u/f/latest" example_failed = Ok node
            ∧ Exclusivity (n_info node) = "t".
Proof. vm_compute. split; [reflexivity|]. eexists. split; reflexivity. Qed.

(** Two nodes run schedulers of the same name: the registry knows one of them,
    and the deletion of either key removes it. *)
Theorem same_name_collides :
  let key node := "/sn/faas-scheduler/instances/cluster001/" +:+ node +:+ "/sched-a" in
  let evs := [EvPut (key "10.0.0.1") "id-a" 1; EvPut (key "10.0.0.2") "id-b" 2; EvDelete (key "10.0.0.1")] in
  etcd_run evs !! key "10.0.0.2" = Some "id-b"
  ∧ faasSchedulers (pm (reg_run example_spec false false evs)) !! "sched-a" = None.
Proof. vm_compute. split; reflexivity. Qed.
