(* ===== verification/LeasePool.v ===== *)
(** Package [leaseadaptor], lease_manager.go: the pools of instance leases of
    one function, [FuncKeyLeasePools].

    Leases and pools are shared by pointer between the pools, the idle lists,
    the global list, the expiry goroutines and the requests that hold them, so
    the state keeps both in a heap and every other structure holds addresses.
    An idle list holds a pointer with the ThreadID it identifies itself by; the
    ThreadID of a lease never changes. The operations below are the critical
    sections of the code; file LeaseSystem interleaves them. *)

From S2P Require Import Prelude GoStrings Hashing HashRing FifoQueue Lease SchedulerProxy.

(** * The state *)

Record lref := Ref { r_addr : N; r_id : string }.

(** [identityFunc]: a lease pointer gives its ThreadID, anything else (a list
    element) the empty string. *)
Definition lease_identity (o : iface lref) : string :=
  match o with IObj r => r_id r | IElem _ => "" end.

Record LeasePool := MkPool {
  p_funcKey : string; p_invokeLabel : string; p_poolLabel : string;
  p_invokeTag : gmap string string; p_session : option InstanceSessionConfig;
  p_sessionCtxID : string; p_enableSessionCtx : bool;
  idleLeaseList : FifoQueue lref; leaseMap : gmap string N; resSpecStr : string;
  p_stopClosed : bool; inFlightCount : Z; pendingNum : Z; p_ringName : string;
}.

Definition newInstanceLeasePool (funcKey : string) (option : AcquireOption) (ringName : string)
    : LeasePool :=
  MkPool funcKey (InstanceLabel option) (PoolLabel option) (InvokeTag option)
    (InstanceSession option) (SessionCtxID option) (EnableSessionCtx option)
    (NewFifoQueue (Some lease_identity)) ∅ "" false 0 0 ringName.

Definition set_leases (idle : FifoQueue lref) (m : gmap string N) (P : LeasePool) : LeasePool :=
  MkPool (p_funcKey P) (p_invokeLabel P) (p_poolLabel P) (p_invokeTag P) (p_session P)
    (p_sessionCtxID P) (p_enableSessionCtx P) idle m (resSpecStr P) (p_stopClosed P)
    (inFlightCount P) (pendingNum P) (p_ringName P).

Definition set_counts (stop : bool) (inflight pending : Z) (P : LeasePool) : LeasePool :=
  MkPool (p_funcKey P) (p_invokeLabel P) (p_poolLabel P) (p_invokeTag P) (p_session P)
    (p_sessionCtxID P) (p_enableSessionCtx P) (idleLeaseList P) (leaseMap P) (resSpecStr P)
    stop inflight pending (p_ringName P).

(** The counters are int32. *)
Definition IncPendingReqNum (P : LeasePool) : LeasePool :=
  set_counts (p_stopClosed P) (inFlightCount P) (wrapS 32 (pendingNum P + 1)) P.
Definition DecPendingReqNum (P : LeasePool) : LeasePool :=
  set_counts (p_stopClosed P) (inFlightCount P) (wrapS 32 (pendingNum P - 1)) P.
Definition add_inFlight (d : Z) (P : LeasePool) : LeasePool :=
  set_counts (p_stopClosed P) (wrapS 32 (inFlightCount P + d)) (pendingNum P) P.
Definition close_pool (P : LeasePool) : LeasePool :=
  set_counts true (inFlightCount P) (pendingNum P) P.

Definition empty_pool (P : LeasePool) : bool :=
  bool_decide (leaseMap P = ∅) && (inFlightCount P =? 0)%Z.

Record FuncKeyLeasePools := MkFlps {
  f_funcKey : string;
  f_ringName : string;
  f_stopClosed : bool;
  interval : Z;
  leasePools : gmap string N;
  globalLeaseList : gmap string N;
  leaseIdToLeasePool : gmap string N;
  leases : gmap N InstanceLease;
  pools : gmap N LeasePool;
  next_ref : N;
}.

(** [newFuncKeyLeasePools], less the start of its loop. *)
Definition newFuncKeyLeasePools (funckey ringName : string) : FuncKeyLeasePools :=
  MkFlps funckey ringName false (defaultRetainLeaseTime * ms_ns) ∅ ∅ ∅ ∅ ∅ 0.

Implicit Types st : FuncKeyLeasePools.

Definition upd_lease (a : N) (f : InstanceLease → InstanceLease) st : FuncKeyLeasePools :=
  MkFlps (f_funcKey st) (f_ringName st) (f_stopClosed st) (interval st) (leasePools st)
    (globalLeaseList st) (leaseIdToLeasePool st) (alter f a (leases st)) (pools st) (next_ref st).

Definition upd_pool (p : N) (f : LeasePool → LeasePool) st : FuncKeyLeasePools :=
  MkFlps (f_funcKey st) (f_ringName st) (f_stopClosed st) (interval st) (leasePools st)
    (globalLeaseList st) (leaseIdToLeasePool st) (leases st) (alter f p (pools st)) (next_ref st).

Definition set_maps (lp gl idp : gmap string N) st : FuncKeyLeasePools :=
  MkFlps (f_funcKey st) (f_ringName st) (f_stopClosed st) (interval st) lp gl idp
    (leases st) (pools st) (next_ref st).

Definition set_control (stop : bool) (i : Z) st : FuncKeyLeasePools :=
  MkFlps (f_funcKey st) (f_ringName st) stop i (leasePools st) (globalLeaseList st)
    (leaseIdToLeasePool st) (leases st) (pools st) (next_ref st).

Definition alloc_lease (l : InstanceLease) st : N * FuncKeyLeasePools :=
  (next_ref st,
   MkFlps (f_funcKey st) (f_ringName st) (f_stopClosed st) (interval st) (leasePools st)
     (globalLeaseList st) (leaseIdToLeasePool st) (<[next_ref st := l]> (leases st)) (pools st)
     (next_ref st + 1)).

Definition alloc_pool (P : LeasePool) st : N * FuncKeyLeasePools :=
  (next_ref st,
   MkFlps (f_funcKey st) (f_ringName st) (f_stopClosed st) (interval st) (leasePools st)
     (globalLeaseList st) (leaseIdToLeasePool st) (leases st) (<[next_ref st := P]> (pools st))
     (next_ref st + 1)).

(** * Schedulers *)

(** What a request sees of the scheduler registries: those of the two rings,
    the running scheduler instances, and the lite-scheduler switch. *)
Record sched_env := MkEnv {
  green : ProxyManager; blue : ProxyManager; instances : gset string; lite : bool;
}.

Definition GreenRing : string := "green".
Definition BlueRing : string := "blue".

Definition getProxyManagerByRing (env : sched_env) (ringName : string) : ProxyManager :=
  if bool_decide (ringName = BlueRing) then blue env else green env.

(** [resolveLeaseScheduler]: the scheduler and whether it was recalculated. *)
Definition resolveLeaseScheduler (env : sched_env) (funcKey : string) (option : AcquireOption)
    (schedulerID : string) : res proxy_error (SchedulerNodeInfo * bool) :=
  let proxyManager := getProxyManagerByRing env (RingName option) in
  match GetSchedulerByInstanceId (instances env) proxyManager schedulerID with
  | Some info => Ok (info, false)
  | None =>
      match GetByAcquireOption (lite env) proxyManager funcKey (Some option) with
      | Ok info => Ok (info, true)
      | Err e => Err e
      end
  end.

(** [Retry] of common/util: [n] attempts at most; the pause between them is
    not modelled. *)
Fixpoint Retry {S E} (execute : S → option E * S) (shouldRetry : S → bool) (n : nat)
    (err : option E) (s : S) : option E * S :=
  match n with
  | O => (err, s)
  | Datatypes.S n =>
      let '(e, s) := execute s in
      match e with
      | None => (None, s)
      | Some _ => if shouldRetry s then Retry execute shouldRetry n e s else (e, s)
      end
  end.

Record InstanceResponse := MkResponse {
  alloc : InstanceAllocationInfo; ErrorCode : Z; ErrorMessage : string;
}.

Definition InsReqSuccessCode : Z := 6030.
Definition ErrFinalized : Z := 9000.
Definition AcquireNonOwnerSchedulerErrorCode : Z := 150464.
Definition LeaseIDNotFoundCode : Z := 150463.
Definition InsAcquireLeaseExistErrorCode : Z := 6035.
Definition code_ErrAllSchedulerUnavailable : Z := 9009.
Definition code_ErrInnerCommunication : Z := 3002.

Definition AllSchedulerUnavailableErrorMessage : string := "all scheduler unavailable".

Definition proxy_message (e : proxy_error) : string :=
  match e with
  | ErrAllSchedulerUnavailable => AllSchedulerUnavailableErrorMessage
  | ErrNoSchedulerNamed name => "failed to get the faas scheduler named " +:+ name
  end.

(** An [snerror.SNError]. *)
Record snerror := MkSnError { sn_code : Z; sn_message : string }.

Section Acquire.

(** [net k address] is what [doAcquireInvoke] returns on the [k]-th call of
    this acquisition, [envs k] the scheduler registries after [k] calls. *)
Context (net : nat → string → res string InstanceResponse) (envs : nat → sched_env).

(** The variables the closures of [acquireHandler] share. *)
Record handler := MkHandler {
  unavailable : list SchedulerNodeInfo;
  hashRetry : bool;
  acquireResponse : option InstanceResponse;
  schedulerInstanceID : string;
  calls : nat;
}.

Definition doAcquireInvoke (address : string) (h : handler)
    : res string InstanceResponse * handler :=
  let r := net (calls h) address in
  (r, MkHandler (unavailable h) (hashRetry h)
        (match r with Ok resp => Some resp | Err _ => None end)
        (schedulerInstanceID h) (S (calls h))).

Definition acquireWithSameSchedulerIdRetry (option : AcquireOption) (schedulerId : string)
    (h : handler) : Datatypes.option string * handler :=
  let env := envs (calls h) in
  match GetSchedulerByInstanceId (instances env) (getProxyManagerByRing env (RingName option))
          schedulerId with
  | None => (Some ("not found scheduler: " +:+ schedulerId +:+ " info"),
             MkHandler (unavailable h) (hashRetry h) None (schedulerInstanceID h) (calls h))
  | Some node =>
      let '(err, h) :=
        Retry (λ h, let '(r, h) := doAcquireInvoke (Address (n_info node)) h in
                    (match r with Ok _ => None | Err e => Some e end, h))
          (λ _, true) 3 None h in
      match err with
      | Some e => (Some e, MkHandler (unavailable h) (hashRetry h) None (schedulerInstanceID h)
                             (calls h))
      | None => (None, h)
      end
  end.

Definition acquireDependOnHash (funcKey : string) (option : AcquireOption) (h : handler)
    : Datatypes.option string * handler :=
  let env := envs (calls h) in
  match GetWithoutUnexpectedSchedulerInfosByAcquireOption (lite env)
          (getProxyManagerByRing env (RingName option)) funcKey (Some option) (unavailable h) with
  | Err e => (Some (proxy_message e),
              MkHandler (unavailable h) false (acquireResponse h) (schedulerInstanceID h) (calls h))
  | Ok node =>
      let h := MkHandler (unavailable h) (hashRetry h) (acquireResponse h)
                 (i_InstanceID (n_info node)) (calls h) in
      let '(r, h) := doAcquireInvoke (Address (n_info node)) h in
      let failed := MkHandler (unavailable h ++ [node]) (hashRetry h) (acquireResponse h)
                      (schedulerInstanceID h) (calls h) in
      match r with
      | Err e => (Some e, failed)
      | Ok resp =>
          if (ErrorCode resp =? ErrFinalized)%Z then (None, failed)
          else if (ErrorCode resp =? AcquireNonOwnerSchedulerErrorCode)%Z then
            acquireWithSameSchedulerIdRetry option (ErrorMessage resp)
              (MkHandler (unavailable h) (hashRetry h) (acquireResponse h)
                 (ErrorMessage resp) (calls h))
          else (None, h)
      end
  end.

Definition start_handler : handler := MkHandler [] true None "" 0.

Definition acquireHandler (funcKey : string) (option : AcquireOption) : res snerror InstanceLease :=
  let '(err, h) := Retry (acquireDependOnHash funcKey option) hashRetry 10 None start_handler in
  match err with
  | Some msg =>
      if bool_decide (msg = AllSchedulerUnavailableErrorMessage)
      then Err (MkSnError code_ErrAllSchedulerUnavailable msg)
      else Err (MkSnError code_ErrInnerCommunication msg)
  | None =>
      match acquireResponse h with
      | None => Err (MkSnError code_ErrInnerCommunication "get acquire response failed")
      | Some resp =>
          if negb (ErrorCode resp =? InsReqSuccessCode)%Z
          then Err (MkSnError (ErrorCode resp) (ErrorMessage resp))
          else
            let l := newInstanceLease (alloc resp) option in
            Ok (MkLease (l_info l) (reportRecord l) (acquireOption l) (claimTime l) (available l)
                  (stopClosed l) (exited l) (beginRelease l) (schedulerInstanceID h)
                  (reacquire l) (l_ringName l))
      end
  end.

End Acquire.

(** * Operations of a pool *)

(** The loop [for ip.idleLeaseList.Len() != 0 { PopFront() }]. *)
Fixpoint drain (fuel : nat) (q : FifoQueue lref) : FifoQueue lref :=
  match fuel with
  | O => q
  | S fuel => if (Len q =? 0)%nat then q else drain fuel (PopFront q).2
  end.

(** [traverseIdleLeaseList] on the lease heap and the idle list: every turn
    takes an element off the list, so its length is enough fuel. *)
Fixpoint traverse (fuel : nat) (now : Z) (sig : string) (h : gmap N InstanceLease)
    (q : FifoQueue lref) : option lref * gmap N InstanceLease * FifoQueue lref :=
  match fuel with
  | O => (None, h, q)
  | S fuel =>
      match Front q with
      | None => (None, h, q)
      | Some r =>
          match h !! r_addr r with
          | None => (None, h, q)
          | Some l =>
              if bool_decide (FuncSig (acquireOption l) ≠ sig) then (None, h, drain (Len q) q)
              else
                let q' := (PopFront q).2 in
                let '(ok, l') := claim now l in
                let h' := <[r_addr r := l']> h in
                if ok then (Some r, h', q') else traverse fuel now sig h' q'
          end
      end
  end.

Definition traverseIdleLeaseList (p : N) (option : AcquireOption) (now : Z) st
    : Datatypes.option lref * FuncKeyLeasePools :=
  match pools st !! p with
  | None => (None, st)
  | Some P =>
      let '(r, h, q) := traverse (Len (idleLeaseList P)) now (FuncSig option) (leases st)
                          (idleLeaseList P) in
      (r, MkFlps (f_funcKey st) (f_ringName st) (f_stopClosed st) (interval st) (leasePools st)
            (globalLeaseList st) (leaseIdToLeasePool st) h
            (<[p := set_leases q (leaseMap P) P]> (pools st)) (next_ref st))
  end.

(** [DelByID] with its error ignored. *)
Definition del_idle (leaseID : string) (q : FifoQueue lref) : FifoQueue lref :=
  match DelByID q leaseID with Ok q' => q' | Err _ => q end.

(** The pool without the lease [leaseID]. *)
Definition drop_pool_lease (leaseID : string) (P : LeasePool) : LeasePool :=
  set_leases (del_idle leaseID (idleLeaseList P)) (delete leaseID (leaseMap P)) P.

Definition removeLease (p : N) (leaseID : string) st : FuncKeyLeasePools :=
  match pools st !! p with
  | None => st
  | Some P =>
      match leaseMap P !! leaseID with
      | None => st
      | Some a => upd_pool p (drop_pool_lease leaseID) (upd_lease a destroy st)
      end
  end.

(** [LeasePool.releaseInstanceLease]. *)
Definition pool_releaseInstanceLease (p : N) (leaseID : string) (abnormal : bool) (now : Z) st
    : FuncKeyLeasePools :=
  match pools st !! p with
  | None => st
  | Some P =>
      match leaseMap P !! leaseID with
      | None => st
      | Some a =>
          let st1 := upd_lease a (free abnormal true now) st in
          let reuse := match leases st !! a with Some l => leaseCanReuse l | None => false end in
          if negb abnormal && reuse
          then upd_pool p (λ P, set_leases (PushBack (idleLeaseList P) (Ref a leaseID))
                                  (leaseMap P) P) st1
          else upd_pool p (drop_pool_lease leaseID) (upd_lease a destroy st1)
      end
  end.

(** [acquireInstanceLease] after the scheduler's answer: the new lease is
    claimed and entered, unless the pool already has its ID. *)
Definition enter_lease (p : N) (l : InstanceLease) (now : Z) st
    : res snerror N * FuncKeyLeasePools :=
  let '(a, st) := alloc_lease (claim now l).2 st in
  match pools st !! p with
  | None => (Ok a, st)
  | Some P =>
      match leaseMap P !! l_id l with
      | Some _ => (Err (MkSnError InsAcquireLeaseExistErrorCode "lease already exist"),
                   upd_pool p (add_inFlight (-1)) st)
      | None => (Ok a, upd_pool p (λ P, add_inFlight (-1)
                         (set_leases (idleLeaseList P) (<[l_id l := a]> (leaseMap P)) P)) st)
      end
  end.

(** * Operations of the pools of a function *)

(** [acquireInstance] under its first read lock: the pool found, with the
    request counted as pending, or nothing. *)
Definition find_pool (option : AcquireOption) st : Datatypes.option N * FuncKeyLeasePools :=
  match leasePools st !! getPoolKey (f_funcKey st) option with
  | Some p => (Some p, upd_pool p IncPendingReqNum st)
  | None => (None, st)
  end.

(** Under the write lock: the pool by now there, or a new one. *)
Definition create_pool (option : AcquireOption) st : N * FuncKeyLeasePools :=
  let poolKey := getPoolKey (f_funcKey st) option in
  match leasePools st !! poolKey with
  | Some p => (p, st)
  | None =>
      let '(p, st) := alloc_pool (newInstanceLeasePool (f_funcKey st) option (f_ringName st)) st in
      (p, set_maps (<[poolKey := p]> (leasePools st)) (globalLeaseList st)
            (leaseIdToLeasePool st) st)
  end.

(** The last critical section of [acquireInstance], and its deferred
    [DecPendingReqNum]. *)
Definition register_lease (p a : N) st : FuncKeyLeasePools :=
  match leases st !! a with
  | None => st
  | Some l =>
      upd_pool p DecPendingReqNum
        (set_maps (leasePools st) (<[l_id l := a]> (globalLeaseList st))
           (<[l_id l := p]> (leaseIdToLeasePool st)) st)
  end.

(** [FuncKeyLeasePools.releaseInstanceLease] up to the call of the pool, which
    is left to the caller when a pool is found. *)
Definition find_release (leaseID : string) st : option N * FuncKeyLeasePools :=
  match globalLeaseList st !! leaseID with
  | None => (None, st)
  | Some _ =>
      match leaseIdToLeasePool st !! leaseID with
      | None => (None, set_maps (leasePools st) (delete leaseID (globalLeaseList st))
                         (leaseIdToLeasePool st) st)
      | Some p => (Some p, st)
      end
  end.

Definition clear_one st (kp : string * N) : FuncKeyLeasePools :=
  match pools st !! kp.2 with
  | None => st
  | Some P =>
      if empty_pool P && (pendingNum P <=? 0)%Z
      then set_maps (delete kp.1 (leasePools st)) (globalLeaseList st) (leaseIdToLeasePool st)
             (upd_pool kp.2 close_pool st)
      else st
  end.

Definition clearEmptyLeasePool st : FuncKeyLeasePools :=
  foldl clear_one st (map_to_list (leasePools st)).

(** [ClearFuncLeasePools] closes the channels of the pools; the manager then
    drops its reference to them. *)
Definition ClearFuncLeasePools st : FuncKeyLeasePools :=
  foldl (λ st kp, upd_pool kp.2 close_pool st) (set_control true (interval st) st)
    (map_to_list (leasePools st)).

(** ** Retaining leases in batches *)

Definition set_sched (sched : string) (re : bool) (opt : AcquireOption) (ring : string)
    (l : InstanceLease) : InstanceLease :=
  MkLease (l_info l) (reportRecord l) opt (claimTime l) (available l) (stopClosed l) (exited l)
    (beginRelease l) sched re ring.

Definition set_reacquire (re : bool) (l : InstanceLease) : InstanceLease :=
  set_sched (schedulerInstanceId l) re (acquireOption l) (l_ringName l) l.

Definition with_ring (ring : string) (o : AcquireOption) : AcquireOption :=
  MkOption (DesignateInstanceID o) (SchedulerFuncKey o) (SchedulerID o) (SchedulerName o)
    (SchedulerAddress o) (RequestID o) (TraceID o) (TraceParent o) (FuncSig o) (ResourceSpecs o)
    (PoolLabel o) (InvokeTag o) (InstanceLabel o) (Timeout o) (TrafficLimited o) ring
    (InstanceSession o) (SessionCtxID o) (EnableSessionCtx o).

(** A lease of a session moves to the ring the gray ratio now gives the
    session, and is to be acquired again there. *)
Definition setRingName (blueRatio : Z) (leaseId : string) (a : N) st : FuncKeyLeasePools :=
  match p ← leaseIdToLeasePool st !! leaseId; P ← pools st !! p; p_session P with
  | None => st
  | Some session =>
      let ringName := if ShouldUseBlueRing blueRatio (ConvertHashToPercent (SessionID session))
                      then BlueRing else GreenRing in
      upd_lease a (λ l, if bool_decide (l_ringName l ≠ ringName)
                        then set_sched (schedulerInstanceId l) true
                               (with_ring ringName (acquireOption l)) ringName l
                        else l) st
  end.

Record snapshot := MkSnap { s_leaseId : string; s_lease : N; s_pool : option N }.

(** [collectRetainSnapshots]; [entries] is the order in which the range over
    the global lease list meets its entries. *)
Fixpoint collectRetainSnapshots (blueRatio : Z) (entries : list (string * N)) st
    : list snapshot * list N * FuncKeyLeasePools :=
  match entries with
  | [] => ([], [], st)
  | (leaseId, a) :: entries =>
      match leases st !! a with
      | None => collectRetainSnapshots blueRatio entries st
      | Some l =>
          if negb (leaseCanReuse l) || exited l then
            let '(snaps, exits, st) := collectRetainSnapshots blueRatio entries st in
            (snaps, a :: exits, st)
          else
            let st := setRingName blueRatio leaseId a st in
            let pool := leaseIdToLeasePool st !! leaseId in
            let '(snaps, exits, st) := collectRetainSnapshots blueRatio entries st in
            (MkSnap leaseId a pool :: snaps, exits, st)
      end
  end.

Record BatchRetainLeaseInfo := MkRetain {
  b_report : InstanceReport; ReacquireData : option string; FunctionKey : string; PoolKey : string;
}.

Record BatchRetainLeaseInfos := MkBatch {
  targetName : string; infos : gmap string BatchRetainLeaseInfo; b_SchedulerAddress : string;
}.

Definition getSchedulerNodeInfo (env : sched_env) (a : N) st
    : option InstanceInfo * FuncKeyLeasePools :=
  match leases st !! a with
  | None => (None, st)
  | Some l =>
      match resolveLeaseScheduler env (ia_FuncKey (l_info l)) (acquireOption l)
              (schedulerInstanceId l) with
      | Err _ => (None, st)
      | Ok (node, recalculated) =>
          (Some (n_info node),
           if recalculated
           then upd_lease a (λ l', if bool_decide (schedulerInstanceId l' = schedulerInstanceId l)
                                   then set_sched (i_InstanceID (n_info node)) (reacquire l')
                                          (acquireOption l') (l_ringName l') l'
                                   else l') st
           else st)
      end
  end.

(** [json.Marshal] of the session, of the label map and of the map of byte
    strings. *)
Record marshallers := MkMarshal {
  m_session : InstanceSessionConfig → string;
  m_label : gmap string string → string;
  m_data : gmap string string → string;
}.

Definition HeaderInstanceLabel : string := "X-Instance-Label".

Definition reacquireData (mj : marshallers) (P : LeasePool) : gmap string string :=
  let d := {["resourcesData" := resSpecStr P]} in
  let d := match p_session P with
           | Some s => <["instanceSessionConfig" := m_session mj s]> d
           | None => d
           end in
  let d := if bool_decide (p_poolLabel P ≠ "")
           then <["instanceInvokeLabel" := m_label mj {[HeaderInstanceLabel := p_poolLabel P]}]> d
           else d in
  let d := <["poolLabel" := p_poolLabel P]> d in
  if p_enableSessionCtx P then <["sessionCtxID" := p_sessionCtxID P]> d else d.

Definition assembleBatchRetainLeaseInfo (mj : marshallers) (funcKey : string)
    (pool : option LeasePool) (l : InstanceLease) : option BatchRetainLeaseInfo :=
  match pool with
  | None => None
  | Some P =>
      Some (MkRetain (report false (reportRecord l)).1
              (if reacquire l then Some (m_data mj (reacquireData mj P)) else None)
              funcKey (getPoolKey funcKey (acquireOption l)))
  end.

Definition maxBatchSize : nat := 1000.

(** The batch the next entry of a scheduler goes to: its last batch, or a new
    one when that is full. *)
Definition open_batch (address : string) (arr : list BatchRetainLeaseInfos)
    : list BatchRetainLeaseInfos * BatchRetainLeaseInfos :=
  let fresh := MkBatch "" ∅ address in
  match last arr with
  | None => (arr, fresh)
  | Some b => if (maxBatchSize <=? size (infos b))%nat then (arr, fresh)
              else (take (length arr - 1) arr, b)
  end.

Definition appendRetainInfo (batches : gmap string (list BatchRetainLeaseInfos))
    (schedulerInstanceID schedulerAddress leaseId : string) (info : option BatchRetainLeaseInfo)
    : gmap string (list BatchRetainLeaseInfos) :=
  let '(arr, b) := open_batch schedulerAddress (default [] (batches !! schedulerInstanceID)) in
  let b' := MkBatch (assembleTargetName (targetName b) leaseId)
              (match info with Some i => <[leaseId := i]> (infos b) | None => infos b end)
              (b_SchedulerAddress b) in
  <[schedulerInstanceID := arr ++ [b']]> batches.

(** One turn of [assembleRetainBatches]. *)
Definition assemble_one (env : sched_env) (mj : marshallers) (snap : snapshot)
    (batches : gmap string (list BatchRetainLeaseInfos)) st
    : gmap string (list BatchRetainLeaseInfos) * FuncKeyLeasePools :=
  let '(info, st) := getSchedulerNodeInfo env (s_lease snap) st in
  match info, leases st !! s_lease snap with
  | Some sched, Some l =>
      (appendRetainInfo batches (i_InstanceID sched) (Address sched) (s_leaseId snap)
         (assembleBatchRetainLeaseInfo mj (f_funcKey st) (p ← s_pool snap; pools st !! p) l), st)
  | _, _ => (batches, st)
  end.

(** The first half of [processBatchLease]. *)
Definition exit_one st (a : N) : FuncKeyLeasePools :=
  match leases st !! a with
  | None => st
  | Some l =>
      let id := l_id l in
      let st := set_maps (leasePools st) (delete id (globalLeaseList st)) (leaseIdToLeasePool st) st in
      let st := match leaseIdToLeasePool st !! id with
                | Some p => removeLease p id st
                | None => st
                end in
      set_maps (leasePools st) (globalLeaseList st) (delete id (leaseIdToLeasePool st)) st
  end.

Definition process_exits (exits : list N) st : FuncKeyLeasePools := foldl exit_one st exits.

(** ** The answer to a batch *)

Record FailedInfo := MkFailed { fi_ErrorCode : Z; fi_ErrorMessage : string }.

(** Of the succeeded allocations only the IDs are read. *)
Record BatchInstanceResponse := MkBatchResponse {
  InstanceAllocSucceed : list string;
  InstanceAllocFailed : list (string * FailedInfo);
  br_LeaseInterval : Z;
}.

Definition parseReacquireAndDecreaseIds (resp : BatchInstanceResponse)
    : list (string * string) * list string :=
  foldl (λ acc kv,
           if (fi_ErrorCode kv.2 =? LeaseIDNotFoundCode)%Z then (acc.1 ++ [(kv.1, "")], acc.2)
           else if (fi_ErrorCode kv.2 =? AcquireNonOwnerSchedulerErrorCode)%Z
           then (acc.1 ++ [(kv.1, fi_ErrorMessage kv.2)], acc.2)
           else (acc.1, acc.2 ++ [kv.1])) ([], []) (InstanceAllocFailed resp).

(** The lease a batch entry refers to, through the pool key the entry was
    assembled with. *)
Definition entry_lease (info : BatchRetainLeaseInfo) (leaseId : string) st : option (N * N) :=
  p ← leasePools st !! PoolKey info;
  P ← pools st !! p;
  a ← leaseMap P !! leaseId;
  Some (p, a).

(** The three loops of [processBatchResponse] over lease IDs share their
    shape: [info.PoolKey] of an ID that is not in the batch dereferences a nil
    pointer, [None]; an ID without pool or lease is skipped. *)
Fixpoint for_entries {A} (id_of : A → string) (batch : BatchRetainLeaseInfos)
    (body : A → N → N → FuncKeyLeasePools → FuncKeyLeasePools) (l : list A) st
    : option FuncKeyLeasePools :=
  match l with
  | [] => Some st
  | x :: l =>
      match infos batch !! id_of x with
      | None => None
      | Some info =>
          for_entries id_of batch body l
            (match entry_lease info (id_of x) st with
             | Some (p, a) => body x p a st
             | None => st
             end)
      end
  end.

Definition processSucceedRetainLeaseIdsBare (batch : BatchRetainLeaseInfos) (ids : list string) st
    : option FuncKeyLeasePools :=
  for_entries (λ id, id) batch (λ _ _ a st, upd_lease a (set_reacquire false) st) ids st.

Definition reacquire_one (x : string * string) (p a : N) st : FuncKeyLeasePools :=
  upd_lease a (λ l, set_sched x.2 true (acquireOption l) (l_ringName l) l) st.

Definition decrease_one (leaseId : string) (p a : N) st : FuncKeyLeasePools :=
  let st := upd_lease a destroy st in
  let st := set_maps (leasePools st) (delete leaseId (globalLeaseList st))
              (leaseIdToLeasePool st) st in
  upd_pool p (drop_pool_lease leaseId) st.

(** [None] is a nil-pointer panic. *)
Definition processBatchResponse (batch : BatchRetainLeaseInfos) (resp : BatchInstanceResponse) st
    : option FuncKeyLeasePools :=
  let i := wrapS 64 (Z.quot (br_LeaseInterval resp) 2 * ms_ns) in
  let st := set_control (f_stopClosed st) (normalizeRetainInterval i) st in
  let '(reacquireIds, decreaseIds) := parseReacquireAndDecreaseIds resp in
  st ← processSucceedRetainLeaseIdsBare batch (InstanceAllocSucceed resp) st;
  st ← for_entries fst batch reacquire_one reacquireIds st;
  for_entries (λ id, id) batch decrease_one decreaseIds st.

Definition processErrBatchResponse (batch : BatchRetainLeaseInfos) st : FuncKeyLeasePools :=
  foldl (λ st kv, match entry_lease kv.2 kv.1 st with
                  | Some (_, a) => upd_lease a (set_reacquire true) st
                  | None => st
                  end) st (map_to_list (infos batch)).
