(* ===== verification/LeaseSystem.v ===== *)
(** The lease pools of a function as a concurrent system: requests that acquire
    and release leases ([acquireInstance], [releaseInstanceLease]), the expiry
    goroutine of every lease ([handleLeaseExpiredLoop]), the retain loop
    ([loop], [doBatchRetain]) and the answers to its batches, interleaved at
    the granularity of the critical sections. *)

From S2P Require Import Prelude GoStrings Hashing HashRing FifoQueue Lease SchedulerProxy LeasePool.

(** * Requests *)

(** Where a request is: without a pool, with the pool it created but not yet
    counted as pending, pending, waiting for the scheduler, with a lease not
    yet in the global list, holding the lease, and releasing it. *)
Inductive thread :=
| TNeedPool (option : AcquireOption)
| TCreated (p : N) (option : AcquireOption)
| TPending (p : N) (option : AcquireOption)
| TInFlight (p : N) (option : AcquireOption)
| TGot (p a : N)
| THeld (a : N)
| TReleasing (p a : N) (leaseID : string) (abnormal : bool).

(** The lease a request has claimed. *)
Definition holds (t : thread) : option N :=
  match t with
  | TGot _ a | THeld a | TReleasing _ a _ _ => Some a
  | _ => None
  end.

(** * Expiry goroutines *)

(** [lp_timer] is the deadline of [releaseTimer] when it runs, [lp_release]
    says that the loop has decided to release. *)
Record expiry := MkExpiry { lp_pool : N; lp_timer : option Z; lp_release : bool }.

Definition idleHoldTime : Z := 100.

Definition set_beginRelease (b : bool) (l : InstanceLease) : InstanceLease :=
  set_state (reportRecord l) (claimTime l) (available l) (stopClosed l) (exited l) b l.

Definition checkLeaseIdle (now : Z) (l : InstanceLease) (timer : option Z)
    : InstanceLease * option Z :=
  let timer := if negb (beginRelease l) then None else timer in
  let '(l, timer) :=
    if available l && negb (beginRelease l)
    then (set_beginRelease true l, Some (now + idleHoldTime * ms_ns)%Z)
    else (l, timer) in
  if negb (available l) then (set_beginRelease false l, None) else (l, timer).

(** * The retain loop *)

Record retaining := MkRetaining {
  rt_snapshots : list snapshot;
  rt_exits : list N;
  rt_batches : gmap string (list BatchRetainLeaseInfos);
}.

Record system := MkSystem {
  fl : FuncKeyLeasePools;
  threads : gmap N thread;
  loops : gmap N expiry;
  retain : option retaining;
  outstanding : list BatchRetainLeaseInfos;
}.

Definition new_system (funckey ringName : string) : system :=
  MkSystem (newFuncKeyLeasePools funckey ringName) ∅ ∅ None [].

(** * Steps *)

Inductive event :=
| EvAcquire (tid : N) (option : AcquireOption)     (* first critical section *)
| EvCreate (tid : N)
| EvPend (tid : N)
| EvIdle (tid : N) (now : Z)                       (* traverseIdleLeaseList *)
| EvAnswer (tid : N) (net : nat → string → res string InstanceResponse)
    (envs : nat → sched_env) (now : Z)              (* acquireHandler returns *)
| EvRegister (tid : N)
| EvRelease (tid : N) (abnormal : bool)
| EvFree (tid : N) (now : Z)                       (* LeasePool.releaseInstanceLease *)
| EvCheck (a : N) (now : Z)                        (* intervalTicker *)
| EvTimer (a : N) (now : Z)                        (* releaseTimer *)
| EvStopped (a : N)                                (* a stop channel is closed *)
| EvExpire (a : N)                                 (* removeLease and the release call *)
| EvClear                                          (* clearEmptyLeasePool *)
| EvClearFunc                                      (* ClearFuncLeasePools *)
| EvCollect (blueRatio : Z) (entries : list (string * N))
| EvAssemble (env : sched_env) (mj : marshallers)
| EvSend
| EvResponse (k : nat) (resp : option BatchInstanceResponse).

Definition set_thread (tid : N) (t : option thread) (s : FuncKeyLeasePools) (y : system) : system :=
  MkSystem s (partial_alter (λ _, t) tid (threads y)) (loops y) (retain y) (outstanding y).

Definition set_fl (s : FuncKeyLeasePools) (y : system) : system :=
  MkSystem s (threads y) (loops y) (retain y) (outstanding y).

Definition set_loop (a : N) (e : option expiry) (s : FuncKeyLeasePools) (y : system) : system :=
  MkSystem s (threads y) (partial_alter (λ _, e) a (loops y)) (retain y) (outstanding y).

(** The answer of [acquireHandler]: on an error both counters go down and the
    request ends; otherwise the lease is entered and its expiry goroutine
    starts when it can be reused. *)
Definition answer (tid p : N) (r : res snerror InstanceLease) (now : Z) (y : system) : system :=
  match r with
  | Err _ => set_thread tid None (upd_pool p (λ P, DecPendingReqNum (add_inFlight (-1) P)) (fl y)) y
  | Ok l =>
      let '(r, s) := enter_lease p l now (fl y) in
      match r with
      | Err _ => set_thread tid None (upd_pool p DecPendingReqNum s) y
      | Ok a =>
          let y := set_thread tid (Some (TGot p a)) s y in
          if leaseCanReuse l
          then set_loop a (Some (MkExpiry p (Some (now + idleHoldTime * ms_ns)%Z) false)) s y
          else y
      end
  end.

(** The step of one request. *)
Definition thread_step (tid : N) (e : event) (t : thread) (y : system) : option system :=
  match e, t with
  | EvCreate _, TNeedPool o =>
      let '(p, s) := create_pool o (fl y) in Some (set_thread tid (Some (TCreated p o)) s y)
  | EvPend _, TCreated p o =>
      Some (set_thread tid (Some (TPending p o)) (upd_pool p IncPendingReqNum (fl y)) y)
  | EvIdle _ now, TPending p o =>
      let '(r, s) := traverseIdleLeaseList p o now (fl y) in
      Some (match r with
            | Some r => set_thread tid (Some (TGot p (r_addr r))) s y
            | None => set_thread tid (Some (TInFlight p o)) (upd_pool p (add_inFlight 1) s) y
            end)
  | EvAnswer _ net envs now, TInFlight p o =>
      Some (answer tid p (acquireHandler net envs (f_funcKey (fl y)) o) now y)
  | EvRegister _, TGot p a => Some (set_thread tid (Some (THeld a)) (register_lease p a (fl y)) y)
  | EvRelease _ abnormal, THeld a =>
      match leases (fl y) !! a with
      | None => None
      | Some l =>
          let '(p, s) := find_release (l_id l) (fl y) in
          Some (set_thread tid ((λ p, TReleasing p a (l_id l) abnormal) <$> p) s y)
      end
  | EvFree _ now, TReleasing p _ id abnormal =>
      Some (set_thread tid None (pool_releaseInstanceLease p id abnormal now (fl y)) y)
  | _, _ => None
  end.

(** The step of the expiry goroutine of a lease. *)
Definition loop_step (a : N) (e : event) (x : expiry) (l : InstanceLease) (y : system)
    : option system :=
  match e with
  | EvCheck _ now =>
      if lp_release x then None else
      let '(l', timer) := checkLeaseIdle now l (lp_timer x) in
      Some (set_loop a (Some (MkExpiry (lp_pool x) timer false)) (upd_lease a (λ _, l') (fl y)) y)
  | EvTimer _ now =>
      match lp_timer x with
      | Some d =>
          if lp_release x || (now <? d)%Z then None else
          let '(ok, l') := claim now l in
          Some (set_loop a (Some (MkExpiry (lp_pool x) None ok)) (upd_lease a (λ _, l') (fl y)) y)
      | None => None
      end
  | EvStopped _ =>
      if lp_release x then None else
      if stopClosed l || match pools (fl y) !! lp_pool x with Some P => p_stopClosed P | None => false end
      then Some (set_loop a (Some (MkExpiry (lp_pool x) (lp_timer x) true)) (fl y) y)
      else None
  | EvExpire _ =>
      if lp_release x
      then Some (set_loop a None
                   (upd_lease a (λ l, (lease_report true l).2)
                      (removeLease (lp_pool x) (l_id l) (fl y))) y)
      else None
  | _ => None
  end.

(** The steps of the retain loop and of the batch answers. *)
Definition retain_step (e : event) (y : system) : option system :=
  match e, retain y with
  | EvClear, None => Some (set_fl (clearEmptyLeasePool (fl y)) y)
  | EvCollect ratio entries, None =>
      if bool_decide (entries ≡ₚ map_to_list (globalLeaseList (fl y))) then
        let '(snaps, exits, s) := collectRetainSnapshots ratio entries (fl y) in
        Some (MkSystem s (threads y) (loops y) (Some (MkRetaining snaps exits ∅)) (outstanding y))
      else None
  | EvAssemble env mj, Some (MkRetaining (snap :: snaps) exits batches) =>
      let '(batches, s) := assemble_one env mj snap batches (fl y) in
      Some (MkSystem s (threads y) (loops y) (Some (MkRetaining snaps exits batches)) (outstanding y))
  | EvSend, Some (MkRetaining [] exits batches) =>
      Some (MkSystem (process_exits exits (fl y)) (threads y) (loops y) None
              (outstanding y ++ mjoin (map_to_list batches).*2))
  | EvResponse k resp, _ =>
      match outstanding y !! k with
      | None => None
      | Some batch =>
          s ← (match resp with
               | Some resp => processBatchResponse batch resp (fl y)
               | None => Some (processErrBatchResponse batch (fl y))
               end);
          Some (MkSystem s (threads y) (loops y) (retain y) (delete k (outstanding y)))
      end
  | _, _ => None
  end.

(** [None]: the step is not enabled, or it panics. *)
Definition step (y : system) (e : event) : option system :=
  match e with
  | EvAcquire tid o =>
      match threads y !! tid with
      | Some _ => None
      | None =>
          let '(p, s) := find_pool o (fl y) in
          Some (set_thread tid (Some (match p with Some p => TPending p o | None => TNeedPool o end)) s y)
      end
  | EvCreate tid | EvPend tid | EvIdle tid _ | EvAnswer tid _ _ _ | EvRegister tid
  | EvRelease tid _ | EvFree tid _ => t ← threads y !! tid; thread_step tid e t y
  | EvCheck a _ | EvTimer a _ | EvStopped a | EvExpire a =>
      x ← loops y !! a; l ← leases (fl y) !! a; loop_step a e x l y
  | EvClearFunc => Some (set_fl (ClearFuncLeasePools (fl y)) y)
  | _ => retain_step e y
  end.

Fixpoint run (y : system) (evs : list event) : option system :=
  match evs with
  | [] => Some y
  | e :: evs => y' ← step y e; run y' evs
  end.

(** The ThreadID of the lease a step obtains from a scheduler. *)
Definition issued (y : system) (e : event) : option string :=
  match e with
  | EvAnswer tid net envs _ =>
      match threads y !! tid with
      | Some (TInFlight _ o) =>
          match acquireHandler net envs (f_funcKey (fl y)) o with
          | Ok l => Some (l_id l)
          | Err _ => None
          end
      | _ => None
      end
  | _ => None
  end.

(** The schedulers never issue the same ThreadID twice. *)
Fixpoint fresh_ids (ids : gset string) (y : system) (evs : list event) : bool :=
  match evs with
  | [] => true
  | e :: evs =>
      match step y e with
      | None => true
      | Some y' =>
          match issued y e with
          | None => fresh_ids ids y' evs
          | Some id => bool_decide (id ∉ ids) && fresh_ids ({[id]} ∪ ids) y' evs
          end
      end
  end.
