(* ===== verification/LeaseFacts.v ===== *)
(** Facts of the lease pools: no two requests hold the same lease, what the
    idle list gives out, how leases are batched for retaining, and what the
    answers to a batch do. *)

From S2P Require Import Prelude GoStrings Hashing HashRing FifoQueue Lease SchedulerProxy LeasePool LeaseSystem.

(** * Quiet steps

    A step is quiet when leases keep their IDs and unavailable ones stay so,
    and the pools' maps and idle lists only lose entries. *)

Definition lease_le (l l' : InstanceLease) : Prop :=
  l_id l' = l_id l ∧ (available l = false → available l' = false).

Definition refs (P : LeasePool) : list lref := contents (idleLeaseList P).

Definition pool_le (P P' : LeasePool) : Prop :=
  (∀ id a, leaseMap P' !! id = Some a → leaseMap P !! id = Some a)
  ∧ (∀ r, r ∈ refs P' → r ∈ refs P).

Record quiet (st st' : FuncKeyLeasePools) : Prop := {
  q_new a l' : leases st' !! a = Some l' → ∃ l, leases st !! a = Some l ∧ lease_le l l';
  q_old a : is_Some (leases st !! a) → is_Some (leases st' !! a);
  q_pool p P' :
    pools st' !! p = Some P' →
    (leaseMap P' = ∅ ∧ refs P' = []) ∨ ∃ P, pools st !! p = Some P ∧ pool_le P P';
  q_next : (next_ref st ≤ next_ref st')%N;
}.

Lemma lease_le_refl l : lease_le l l.
Proof. by split. Qed.

Lemma quiet_refl st : quiet st st.
Proof.
  split; [|done| |lia].
  - intros a l' H. exists l'. split; [done|apply lease_le_refl].
  - intros p P' H. right. exists P'. by repeat split.
Qed.

Lemma quiet_trans st1 st2 st3 : quiet st1 st2 → quiet st2 st3 → quiet st1 st3.
Proof.
  intros [n1 o1 p1 x1] [n2 o2 p2 x2]. split; [|auto| |lia].
  - intros a l3 (l2 & (l1 & H1 & E1 & A1)%n1 & E2 & A2)%n2. exists l1. split; [done|].
    split; [congruence|auto].
  - intros p P3 [H|(P2 & [[Hm Hr]|(P1 & H1 & M1 & R1)]%p1 & M2 & R2)]%p2; [by left| |].
    + left. split.
      * apply map_empty. intros id. apply eq_None_not_Some. intros [a Ha%M2].
        by rewrite Hm, lookup_empty in Ha.
      * destruct (refs P3) as [|r l] eqn:E; [done|]. assert (r ∈ refs P2) as Hin by (apply R2; left).
        rewrite Hr in Hin. by apply not_elem_of_nil in Hin.
    + right. exists P1. split; [done|]. split; auto.
Qed.

Lemma quiet_upd_lease a f st : (∀ l, leases st !! a = Some l → lease_le l (f l)) → quiet st (upd_lease a f st).
Proof.
  intros Hf. split; cbn [upd_lease leases pools next_ref]; [| | |lia].
  - intros b l'. destruct (decide (b = a)) as [->|].
    + rewrite lookup_alter_eq. intros (l & H & ->)%fmap_Some. eauto.
    + rewrite lookup_alter_ne by done. intros H. exists l'. split; [done|apply lease_le_refl].
  - intros b [l H]. destruct (decide (b = a)) as [->|].
    + rewrite lookup_alter_eq, H. eauto.
    + rewrite lookup_alter_ne, H by done. eauto.
  - intros p P' H. right. exists P'. by repeat split.
Qed.

Lemma quiet_upd_pool p f st : (∀ P, pools st !! p = Some P → pool_le P (f P)) → quiet st (upd_pool p f st).
Proof.
  intros Hf. split; cbn [upd_pool leases pools next_ref]; [|done| |lia].
  - intros b l' H. exists l'. split; [done|apply lease_le_refl].
  - intros q P'. destruct (decide (q = p)) as [->|].
    + rewrite lookup_alter_eq. intros (P & H & ->)%fmap_Some. right. eauto.
    + rewrite lookup_alter_ne by done. intros H. right. exists P'. by repeat split.
Qed.

(** States that differ in the three maps and the control fields only. *)
Lemma quiet_same st st' :
  leases st' = leases st → pools st' = pools st → next_ref st' = next_ref st → quiet st st'.
Proof.
  intros E1 E2 E3. split; rewrite ?E1, ?E2, ?E3; [|done| |lia].
  - intros a l' H. exists l'. split; [done|apply lease_le_refl].
  - intros p P' H. right. exists P'. by repeat split.
Qed.

Lemma quiet_set_maps lp gl idp st : quiet st (set_maps lp gl idp st).
Proof. by apply quiet_same. Qed.

Lemma quiet_set_control b i st : quiet st (set_control b i st).
Proof. by apply quiet_same. Qed.

Lemma quiet_foldl {A} (f : FuncKeyLeasePools → A → FuncKeyLeasePools) l st :
  (∀ st x, quiet st (f st x)) → quiet st (foldl f st l).
Proof.
  intros Hf. revert st. induction l as [|x l IH]; intros st; [apply quiet_refl|].
  cbn. eapply quiet_trans; [apply Hf|apply IH].
Qed.

Lemma lease_le_destroy l : lease_le l (destroy l).
Proof. by split. Qed.

Lemma pool_le_counts b i n P : pool_le P (set_counts b i n P).
Proof. by split. Qed.

Lemma PopFront_refs (q : FifoQueue lref) r : r ∈ contents (PopFront q).2 → r ∈ contents q.
Proof.
  unfold PopFront. destruct (head (FifoQueue.queue q)) as [e|]; [|done]. unfold contents.
  cbn [snd FifoQueue.queue]. rewrite !list_elem_of_fmap. intros (x & -> & Hx).
  exists x. split; [done|]. by eapply list_Remove_elem.
Qed.

Lemma drain_refs n (q : FifoQueue lref) r : r ∈ contents (drain n q) → r ∈ contents q.
Proof.
  revert q. induction n as [|n IH]; intros q; [done|]. cbn [drain]. case_goal; [done|].
  intros H%IH. by apply PopFront_refs.
Qed.

Lemma del_idle_refs id (q : FifoQueue lref) r : r ∈ contents (del_idle id q) → r ∈ contents q.
Proof.
  unfold del_idle, DelByID. destruct (elementRecord q !! id) as [e|]; [|done].
  destruct (FifoQueue.identityFunc q); [|done]. unfold contents. cbn [FifoQueue.queue].
  rewrite !list_elem_of_fmap. intros (x & -> & Hx). exists x. split; [done|].
  by eapply list_Remove_elem.
Qed.

Lemma pool_le_drop id P : pool_le P (drop_pool_lease id P).
Proof.
  split; unfold drop_pool_lease, refs; cbn [set_leases leaseMap idleLeaseList].
  - intros k a. rewrite lookup_delete_Some. by intros [_ H].
  - intros r. apply del_idle_refs.
Qed.

Create HintDb quiet.
#[export] Hint Resolve quiet_refl quiet_upd_lease quiet_upd_pool quiet_set_maps quiet_set_control
  lease_le_refl lease_le_destroy pool_le_counts pool_le_drop quiet_foldl : quiet.

(** ** The operations that are quiet *)

Lemma removeLease_quiet p id st : quiet st (removeLease p id st).
Proof.
  unfold removeLease. case_goal; [|auto with quiet]. case_goal; [|auto with quiet].
  eapply quiet_trans; [apply quiet_upd_lease|apply quiet_upd_pool]; auto with quiet.
Qed.

Lemma clear_one_quiet st kp : quiet st (clear_one st kp).
Proof.
  unfold clear_one. case_goal; [|auto with quiet]. case_goal; [|auto with quiet].
  eapply quiet_trans; [apply quiet_upd_pool|apply quiet_set_maps]. intros. apply pool_le_counts.
Qed.

Lemma ClearFunc_quiet st : quiet st (ClearFuncLeasePools st).
Proof.
  unfold ClearFuncLeasePools. eapply quiet_trans; [apply quiet_set_control|].
  apply quiet_foldl. intros. apply quiet_upd_pool. intros. apply pool_le_counts.
Qed.

Lemma setRingName_quiet ratio id a st : quiet st (setRingName ratio id a st).
Proof.
  unfold setRingName. case_goal; [|auto with quiet]. apply quiet_upd_lease.
  intros l _. by case_goal.
Qed.

Lemma collect_quiet ratio entries st : quiet st (collectRetainSnapshots ratio entries st).2.
Proof.
  revert st. induction entries as [|[id a] entries IH]; intros st; [apply quiet_refl|].
  cbn [collectRetainSnapshots]. destruct (leases st !! a) as [l|]; [|apply IH]. case_goal.
  - specialize (IH st). by destruct (collectRetainSnapshots ratio entries st) as [[??] ?].
  - set (st1 := setRingName _ _ _ _). specialize (IH st1).
    destruct (collectRetainSnapshots ratio entries st1) as [[??] ?].
    eapply quiet_trans; [apply setRingName_quiet|apply IH].
Qed.

Lemma assemble_quiet env mj snap batches st : quiet st (assemble_one env mj snap batches st).2.
Proof.
  unfold assemble_one.
  assert (quiet st (getSchedulerNodeInfo env (s_lease snap) st).2) as H.
  { unfold getSchedulerNodeInfo. destruct (leases st !! _); [|apply quiet_refl].
    destruct (resolveLeaseScheduler _ _ _ _) as [[node b]|]; [|apply quiet_refl]. cbn [snd].
    case_goal; [|apply quiet_refl]. apply quiet_upd_lease. intros l _. by case_goal. }
  destruct (getSchedulerNodeInfo _ _ _) as [[i|] s]; [|done]. by case_goal.
Qed.

Lemma exit_one_quiet st a : quiet st (exit_one st a).
Proof.
  unfold exit_one. case_goal; [|apply quiet_refl].
  eapply quiet_trans; [apply quiet_set_maps|].
  eapply quiet_trans; [|apply quiet_set_maps].
  case_goal; [apply removeLease_quiet|apply quiet_refl].
Qed.

Lemma for_entries_quiet {A} (id_of : A → string) batch body l st st' :
  (∀ x p a st, quiet st (body x p a st)) →
  for_entries id_of batch body l st = Some st' → quiet st st'.
Proof.
  intros Hb. revert st. induction l as [|x l IH]; intros st; cbn [for_entries].
  { intros [= <-]. apply quiet_refl. }
  destruct (infos batch !! id_of x); [|done]. intros H%IH.
  eapply quiet_trans; [|exact H]. case_goal; [case_goal; apply Hb|apply quiet_refl].
Qed.

Lemma decrease_quiet id p a st : quiet st (decrease_one id p a st).
Proof.
  unfold decrease_one. eapply quiet_trans; [apply quiet_upd_lease; auto with quiet|].
  eapply quiet_trans; [apply quiet_set_maps|]. apply quiet_upd_pool. auto with quiet.
Qed.

Lemma response_quiet batch resp st st' :
  processBatchResponse batch resp st = Some st' → quiet st st'.
Proof.
  unfold processBatchResponse. destruct (parseReacquireAndDecreaseIds resp) as [re de].
  set (st0 := set_control _ _ st). intros (s1 & H1 & (s2 & H2 & H3)%bind_Some)%bind_Some.
  eapply quiet_trans; [apply quiet_set_control|]. fold st0.
  eapply quiet_trans; [eapply for_entries_quiet; [|exact H1]|].
  { intros. by apply quiet_upd_lease. }
  eapply quiet_trans; [eapply for_entries_quiet; [|exact H2]|].
  { intros. by apply quiet_upd_lease. }
  eapply for_entries_quiet; [|exact H3]. intros. apply decrease_quiet.
Qed.

Lemma err_response_quiet batch st : quiet st (processErrBatchResponse batch st).
Proof.
  apply quiet_foldl. intros s kv. case_goal; [|apply quiet_refl]. case_goal.
  by apply quiet_upd_lease.
Qed.

(** ** Taking a lease from the idle list *)

Lemma Front_refs (q : FifoQueue lref) r : Front q = Some r → r ∈ contents q.
Proof.
  unfold Front, contents. intros (e & He & ->)%fmap_Some. apply list_elem_of_fmap. exists e.
  split; [done|]. by apply head_Some_elem_of.
Qed.

Lemma claim_le now l : lease_le l (claim now l).2.
Proof. unfold claim. by destruct (available l) eqn:E. Qed.

Lemma claim_taken now l l' : claim now l = (true, l') → available l = true ∧ available l' = false.
Proof. unfold claim. destruct (available l); [|done]. by intros [= <-]. Qed.

Lemma claim_refused now l l' : claim now l = (false, l') → l' = l ∧ available l = false.
Proof. unfold claim. destruct (available l); [done|]. by intros [= <-]. Qed.

Lemma traverse_quiet fuel now sig h q r h' q' :
  traverse fuel now sig h q = (r, h', q') →
  (∀ x, x ∈ contents q' → x ∈ contents q)
  ∧ match r with
    | None => h' = h
    | Some x => ∃ l l', h !! r_addr x = Some l ∧ claim now l = (true, l')
                        ∧ h' = <[r_addr x := l']> h
    end.
Proof.
  revert h q. induction fuel as [|fuel IH]; intros h q; cbn [traverse].
  { by intros [= <- <- <-]. }
  destruct (Front q) as [x|] eqn:Hf; [|by intros [= <- <- <-]].
  destruct (h !! r_addr x) as [l|] eqn:Hl; [|by intros [= <- <- <-]].
  case_goal.
  { intros [= <- <- <-]. split; [|done]. intros. by eapply drain_refs. }
  destruct (claim now l) as [[|] l'] eqn:Hc.
  - intros [= <- <- <-]. split; [intros; by apply PopFront_refs|]. eauto.
  - apply claim_refused in Hc as [-> _]. rewrite insert_id by done. intros H.
    apply IH in H as [H1 H2]. split; [|done]. intros y Hy. by apply PopFront_refs, H1.
Qed.

(** * No lease has two holders *)

(** What a request knows of the lease it holds. *)
Definition thread_ok (st : FuncKeyLeasePools) (t : thread) : Prop :=
  ∀ a, holds t = Some a →
    ∃ l, leases st !! a = Some l ∧ available l = false
         ∧ match t with TReleasing _ _ id _ => l_id l = id | _ => True end.

Record store_inv (st : FuncKeyLeasePools) (ids : gset string) : Prop := {
  si_map p P id a :
    pools st !! p = Some P → leaseMap P !! id = Some a →
    ∃ l, leases st !! a = Some l ∧ l_id l = id;
  si_idle p P r : pools st !! p = Some P → r ∈ refs P → is_Some (leases st !! r_addr r);
  si_unique a b l l' :
    leases st !! a = Some l → leases st !! b = Some l' → l_id l = l_id l' → a = b;
  si_next a l : leases st !! a = Some l → (a < next_ref st)%N ∧ l_id l ∈ ids;
}.

Record sys_inv (y : system) (ids : gset string) : Prop := {
  yi_store : store_inv (fl y) ids;
  yi_threads tid t : threads y !! tid = Some t → thread_ok (fl y) t;
  yi_excl tid1 tid2 t1 t2 a :
    threads y !! tid1 = Some t1 → threads y !! tid2 = Some t2 →
    holds t1 = Some a → holds t2 = Some a → tid1 = tid2;
}.

Lemma quiet_store st st' ids : quiet st st' → store_inv st ids → store_inv st' ids.
Proof.
  intros [n o p x] [m i u f]. split.
  - intros q P' id a [[Hm _]|(P & HP & Hle & _)]%p Ha; [by rewrite Hm, lookup_empty in Ha|].
    destruct (m _ _ _ _ HP (Hle _ _ Ha)) as (l & Hl & <-).
    destruct (o a) as [l' Hl']; [eauto|]. exists l'. split; [done|].
    destruct (n _ _ Hl') as (l0 & H0 & E & _). congruence.
  - intros q P' r [[_ Hr]|(P & HP & _ & Hle)]%p Hin.
    + rewrite Hr in Hin. by apply not_elem_of_nil in Hin.
    + apply o. eapply i; [exact HP|auto].
  - intros a b l l' (l0 & H0 & E0 & _)%n (l1 & H1 & E1 & _)%n He. apply (u a b l0 l1); [done|done|]. by rewrite <- E0, <- E1.
  - intros a l (l0 & H0 & E0 & _)%n. destruct (f _ _ H0) as [H1 H2]. rewrite E0. split; [lia|done].
Qed.

Lemma quiet_thread st st' t : quiet st st' → thread_ok st t → thread_ok st' t.
Proof.
  intros [n o _ _] Ht a Ha. destruct (Ht a Ha) as (l & Hl & Hav & Hid).
  destruct (o a) as [l' Hl']; [eauto|]. exists l'. split; [done|].
  destruct (n _ _ Hl') as (l0 & H0 & E & A). assert (l0 = l) as -> by congruence.
  split; [auto|]. destruct t; try done. congruence.
Qed.

(** A quiet step in which no request gains a lease. *)
Lemma quiet_sys y y' ids :
  sys_inv y ids → quiet (fl y) (fl y') →
  (∀ tid t', threads y' !! tid = Some t' →
     holds t' = None ∨
     ∃ t, threads y !! tid = Some t ∧ holds t' = holds t
          ∧ (thread_ok (fl y) t → thread_ok (fl y) t')) →
  sys_inv y' ids.
Proof.
  intros [Hs Ht He] Hq Hsub. split.
  - by eapply quiet_store.
  - intros tid t' [Hn|(t & H & _ & Hok)]%Hsub.
    + intros a Ha. congruence.
    + eapply quiet_thread; [exact Hq|]. eauto.
  - intros tid1 tid2 t1 t2 a [?|(x1 & X1 & E1 & _)]%Hsub [?|(x2 & X2 & E2 & _)]%Hsub H1 H2;
      [congruence|congruence|congruence|].
    apply (He tid1 tid2 x1 x2 a); congruence.
Qed.

(** The same for a step that changes one request. *)
Lemma quiet_set_thread y st tid t' ids :
  sys_inv y ids → quiet (fl y) st →
  match t' with
  | None => True
  | Some t' => holds t' = None ∨
      ∃ t, threads y !! tid = Some t ∧ holds t' = holds t ∧ (thread_ok (fl y) t → thread_ok (fl y) t')
  end → sys_inv (set_thread tid t' st y) ids.
Proof.
  intros Hy Hq Ht. eapply quiet_sys; [exact Hy|exact Hq|]. cbn [set_thread threads].
  intros tid' x. destruct (decide (tid' = tid)) as [->|].
  - rewrite lookup_partial_alter_eq. intros ->. exact Ht.
  - rewrite lookup_partial_alter_ne by done. intros Hx. right. exists x. auto.
Qed.

(** A request gains the lease [a], which nobody holds. *)
Lemma gain_sys y st tid t' a ids :
  sys_inv y ids → store_inv st ids →
  (∀ tid t, threads y !! tid = Some t → thread_ok st t) →
  (∀ tid t, threads y !! tid = Some t → holds t ≠ Some a) →
  holds t' = Some a → thread_ok st t' →
  sys_inv (set_thread tid (Some t') st y) ids.
Proof.
  intros [_ _ He] Hs Hall Hno Ha Hok. split; cbn [set_thread fl threads].
  - done.
  - intros tid' x. destruct (decide (tid' = tid)) as [->|];
      [rewrite lookup_partial_alter_eq; by intros [= <-]|].
    rewrite lookup_partial_alter_ne by done. apply Hall.
  - intros tid1 tid2 t1 t2 b.
    destruct (decide (tid1 = tid)) as [->|], (decide (tid2 = tid)) as [->|];
      rewrite ?lookup_partial_alter_eq, ?lookup_partial_alter_ne by done; [done| | |].
    + intros [= <-] H2 H3 H4. exfalso. apply (Hno _ _ H2). congruence.
    + intros H1 [= <-] H3 H4. exfalso. apply (Hno _ _ H1). congruence.
    + apply He.
Qed.

(** ** The steps that give out, enter and free leases *)

Lemma traverse_list_quiet p o now st r st' :
  traverseIdleLeaseList p o now st = (r, st') →
  quiet st st' ∧
  match r with
  | None => True
  | Some x => ∃ l l', leases st !! r_addr x = Some l ∧ leases st' !! r_addr x = Some l'
                      ∧ available l = true ∧ available l' = false
  end.
Proof.
  unfold traverseIdleLeaseList. destruct (pools st !! p) as [P|] eqn:HP;
    [|intros [= <- <-]; split; [apply quiet_refl|done]].
  destruct (traverse _ _ _ _ _) as [[r' h] q] eqn:Ht. apply traverse_quiet in Ht as [Hq Hr].
  intros [= <- <-]. split.
  - split; cbn [leases pools next_ref]; [| | |lia].
    + intros a l' H. destruct r' as [x|]; [|subst h; eauto using lease_le_refl].
      destruct Hr as (l & l1 & Hl & Hc & ->).
      apply lookup_insert_Some in H as [[<- <-]|[_ H]]; [|eauto using lease_le_refl].
      exists l. split; [done|]. pose proof (claim_le now l) as Hle. by rewrite Hc in Hle.
    + intros a H. destruct r' as [x|]; [|by subst h].
      destruct Hr as (l & l1 & Hl & Hc & ->). rewrite lookup_insert_is_Some.
      destruct (decide (r_addr x = a)); auto.
    + intros q' P' [[<- <-]|[_ H]]%lookup_insert_Some; right; [|exists P'; by repeat split].
      exists P. split; [done|]. by split.
  - destruct r' as [x|]; [|done]. destruct Hr as (l & l1 & Hl & Hc & ->).
    apply claim_taken in Hc as [H1 H2]. exists l, l1. cbn [leases].
    by rewrite lookup_insert_eq.
Qed.

Lemma idle_sys y tid p o now r st ids :
  sys_inv y ids → traverseIdleLeaseList p o now (fl y) = (Some r, st) →
  sys_inv (set_thread tid (Some (TGot p (r_addr r))) st y) ids.
Proof.
  intros Hy [Hq (l & l' & Hl & Hl' & Ha & Ha')]%traverse_list_quiet.
  pose proof Hy as [Hs Ht _]. apply (gain_sys _ _ _ _ (r_addr r)); [done| | | |done|].
  - by eapply quiet_store.
  - intros tid' t H. eapply quiet_thread; [done|]. eauto.
  - intros tid' t H Hh. destruct (Ht _ _ H _ Hh) as (l0 & H0 & A0 & _). congruence.
  - intros a [= <-]. eauto.
Qed.

Lemma store_mono st ids ids' : store_inv st ids → ids ⊆ ids' → store_inv st ids'.
Proof. intros [m i u f] Hsub. split; eauto. intros a l [? ?]%f. auto. Qed.

Lemma alloc_store l st ids :
  store_inv st ids → l_id l ∉ ids →
  store_inv (alloc_lease l st).2 ({[l_id l]} ∪ ids).
Proof.
  intros [m i u f] Hid.
  assert (leases st !! next_ref st = None) as Hnew.
  { apply eq_None_not_Some. intros [l0 [H0 _]%f]. lia. }
  split; cbn [alloc_lease snd leases pools next_ref].
  - intros p P id a HP Ha. destruct (m _ _ _ _ HP Ha) as (l0 & H0 & E0). exists l0.
    rewrite lookup_insert_ne by congruence. done.
  - intros p P r HP Hr. destruct (i _ _ _ HP Hr) as [l0 H0]. exists l0.
    rewrite lookup_insert_ne by congruence. done.
  - intros a b la lb. rewrite !lookup_insert_Some.
    intros [[<- <-]|[_ H1]] [[<- <-]|[_ H2]] He; [done| | |by apply (u a b la lb)].
    + apply f in H2 as [_ H2]. rewrite <- He in H2. done.
    + apply f in H1 as [_ H1]. rewrite He in H1. done.
  - intros a la [[<- <-]|[_ H]]%lookup_insert_Some; [split; [lia|set_solver]|].
    apply f in H as [? ?]. split; [lia|set_solver].
Qed.

Lemma store_add_map p a id st ids f :
  store_inv st ids → (∃ l, leases st !! a = Some l ∧ l_id l = id) →
  (∀ P, leaseMap (f P) = <[id := a]> (leaseMap P) ∧ refs (f P) = refs P) →
  store_inv (upd_pool p f st) ids.
Proof.
  intros [m i u g] Hl Hf. split; cbn [upd_pool leases pools next_ref]; [| |done|done].
  - intros q P id' b. destruct (decide (q = p)) as [->|]; [|rewrite lookup_alter_ne by done; apply m].
    rewrite lookup_alter_eq. intros (P0 & H0 & ->)%fmap_Some. rewrite (proj1 (Hf P0)).
    intros [[<- <-]|[_ H]]%lookup_insert_Some; eauto.
  - intros q P r. destruct (decide (q = p)) as [->|]; [|rewrite lookup_alter_ne by done; apply i].
    rewrite lookup_alter_eq. intros (P0 & H0 & ->)%fmap_Some. rewrite (proj2 (Hf P0)). by apply (i p P0).
Qed.

Lemma claim_id now l : l_id (claim now l).2 = l_id l.
Proof. unfold claim. by destruct (available l). Qed.

Lemma claim_unavailable now l : available (claim now l).2 = false.
Proof. unfold claim. by destruct (available l) eqn:E. Qed.

(** A new lease with a fresh ID is entered without conflict. *)
Lemma enter_spec p l now st ids :
  store_inv st ids → l_id l ∉ ids →
  ∃ st', enter_lease p l now st = (Ok (next_ref st), st')
         ∧ store_inv st' ({[l_id l]} ∪ ids)
         ∧ leases st' = <[next_ref st := (claim now l).2]> (leases st).
Proof.
  intros Hs Hid. pose proof (alloc_store (claim now l).2 st ids Hs) as Ha.
  rewrite claim_id in Ha. specialize (Ha Hid). unfold enter_lease.
  set (st1 := (alloc_lease (claim now l).2 st).2) in *.
  change (alloc_lease (claim now l).2 st) with (next_ref st, st1). cbv iota beta.
  destruct (pools st1 !! p) as [P|] eqn:HP; [|by exists st1].
  destruct (leaseMap P !! l_id l) as [b|] eqn:Hm.
  { destruct Hs as [m _ _ f]. destruct (m _ _ _ _ HP Hm) as (l0 & H0 & E0).
    apply f in H0 as [_ H0]. congruence. }
  eexists. split; [done|]. split; [|done].
  apply (store_add_map _ (next_ref st) (l_id l)); [done| |done].
  exists (claim now l).2. cbn [st1 alloc_lease snd leases]. rewrite lookup_insert_eq.
  by rewrite claim_id.
Qed.

Lemma upd_lease_store a f st ids :
  (∀ l, l_id (f l) = l_id l) → store_inv st ids → store_inv (upd_lease a f st) ids.
Proof.
  intros Hf [m i u g].
  assert (∀ b l', alter f a (leases st) !! b = Some l' →
    ∃ l, leases st !! b = Some l ∧ l_id l' = l_id l) as Hb.
  { intros b l'. destruct (decide (b = a)) as [->|].
    - rewrite lookup_alter_eq. intros (l & H & ->)%fmap_Some. eauto.
    - rewrite lookup_alter_ne by done. eauto. }
  assert (∀ b l, leases st !! b = Some l →
    ∃ l', alter f a (leases st) !! b = Some l' ∧ l_id l' = l_id l) as Hb'.
  { intros b l H. destruct (decide (b = a)) as [->|].
    - exists (f l). by rewrite lookup_alter_eq, H.
    - exists l. by rewrite lookup_alter_ne. }
  split; cbn [upd_lease leases pools next_ref].
  - intros p P id b HP Hm. destruct (m _ _ _ _ HP Hm) as (l & (l' & H1 & H2)%Hb' & <-). eauto.
  - intros p P r HP Hr. destruct (i _ _ _ HP Hr) as [l (l' & H1 & H2)%Hb']. eauto.
  - intros b c l l' (x & H1 & E1)%Hb (x' & H2 & E2)%Hb He. apply (u b c x x'); [done|done|].
    by rewrite <- E1, <- E2.
  - intros b l' (l & H & E)%Hb. rewrite E. eauto.
Qed.

Lemma push_store p a id st ids :
  store_inv st ids → is_Some (leases st !! a) →
  store_inv (upd_pool p (λ P, set_leases (PushBack (idleLeaseList P) (Ref a id)) (leaseMap P) P) st) ids.
Proof.
  intros [m i u g] Ha. split; cbn [upd_pool leases pools next_ref]; [| |done|done].
  - intros q P id' b. destruct (decide (q = p)) as [->|]; [|rewrite lookup_alter_ne by done; apply m].
    rewrite lookup_alter_eq. intros (P0 & H0 & ->)%fmap_Some. by apply (m p P0).
  - intros q P r. destruct (decide (q = p)) as [->|]; [|rewrite lookup_alter_ne by done; apply i].
    rewrite lookup_alter_eq. intros (P0 & H0 & ->)%fmap_Some.
    unfold refs. cbn [set_leases idleLeaseList]. rewrite contents_PushBack.
    intros [H|H%list_elem_of_singleton]%elem_of_app; [by eapply i|]. by subst r.
Qed.

Lemma free_id abnormal record now l : l_id (free abnormal record now l) = l_id l.
Proof. unfold free. by case_goal. Qed.

(** Freeing touches the lease of that ID only. *)
Lemma release_spec p id abnormal now st ids :
  store_inv st ids →
  let st' := pool_releaseInstanceLease p id abnormal now st in
  store_inv st' ids ∧
  ∀ b l, leases st !! b = Some l → l_id l ≠ id → leases st' !! b = Some l.
Proof.
  intros Hs st'. subst st'. unfold pool_releaseInstanceLease.
  destruct (pools st !! p) as [P|] eqn:HP; [|done].
  destruct (leaseMap P !! id) as [a|] eqn:Hm; [|done].
  pose proof Hs as [m _ _ _]. destruct (m _ _ _ _ HP Hm) as (la & Hla & Eid).
  pose proof (upd_lease_store a (free abnormal true now) st ids (free_id _ _ _) Hs) as Hs1.
  assert (∀ f b l, leases st !! b = Some l → l_id l ≠ id → alter f a (leases st) !! b = Some l) as Hne.
  { intros f b l Hb Hid. rewrite lookup_alter_ne; [done|]. intros ->. congruence. }
  case_goal.
  - split; [|intros b l Hb Hid; by apply Hne].
    apply push_store; [done|]. cbn [upd_lease leases]. rewrite lookup_alter_eq, Hla. eauto.
  - split.
    + eapply quiet_store; [apply quiet_upd_pool; auto with quiet|].
      by apply upd_lease_store.
    + intros b l Hb Hid. cbn [upd_pool upd_lease leases].
      rewrite lookup_alter_ne; [by apply Hne|]. intros ->. congruence.
Qed.

Lemma free_sys y tid p a id abnormal now ids :
  sys_inv y ids → threads y !! tid = Some (TReleasing p a id abnormal) →
  sys_inv (set_thread tid None (pool_releaseInstanceLease p id abnormal now (fl y)) y) ids.
Proof.
  intros [Hs Ht He] Htid. destruct (release_spec p id abnormal now _ _ Hs) as [Hs' Hother].
  destruct (Ht _ _ Htid a eq_refl) as (la & Hla & _ & Hid).
  assert (∀ tid' t, partial_alter (λ _, None) tid (threads y) !! tid' = Some t →
            tid' ≠ tid ∧ threads y !! tid' = Some t) as Hsub.
  { intros tid' t. destruct (decide (tid' = tid)) as [->|]; [by rewrite lookup_partial_alter_eq|].
    by rewrite lookup_partial_alter_ne. }
  split; cbn [set_thread fl threads]; [done| |].
  - intros tid' t [Hne Ht']%Hsub b Hb. destruct (Ht _ _ Ht' b Hb) as (lb & Hlb & Hrest).
    exists lb. split; [|done]. apply Hother; [done|]. intros Hid'.
    apply Hne. destruct Hs as [_ _ u _]. assert (b = a) as -> by (apply (u b a lb la); congruence).
    by apply (He tid' tid t (TReleasing p a id abnormal) a).
  - intros tid1 tid2 t1 t2 b [_ H1]%Hsub [_ H2]%Hsub. by apply He.
Qed.

Definition add_issued (id : option string) (ids : gset string) : gset string :=
  match id with Some id => {[id]} ∪ ids | None => ids end.

Lemma answer_sys y tid p o net envs now ids :
  sys_inv y ids → threads y !! tid = Some (TInFlight p o) →
  let r := acquireHandler net envs (f_funcKey (fl y)) o in
  match r with Ok l => l_id l ∉ ids | Err _ => True end →
  sys_inv (answer tid p r now y)
    (add_issued (match r with Ok l => Some (l_id l) | Err _ => None end) ids).
Proof.
  intros Hy Htid r Hfresh. subst r. unfold answer.
  destruct (acquireHandler _ _ _ _) as [l|e]; cbn [add_issued].
  2:{ apply quiet_set_thread; [done| |done]. apply quiet_upd_pool. by split. }
  destruct Hy as [Hs Ht He].
  destruct (enter_spec p l now _ _ Hs Hfresh) as (st' & -> & Hs' & Hl').
  assert (leases (fl y) !! next_ref (fl y) = None) as Hnew.
  { apply eq_None_not_Some. intros [l0 [H0 _]%(si_next _ _ Hs)]. lia. }
  assert (sys_inv (set_thread tid (Some (TGot p (next_ref (fl y)))) st' y) ({[l_id l]} ∪ ids)) as Hg.
  { apply (gain_sys _ _ _ _ (next_ref (fl y))); [|done| | |done|].
    - split; [|done|done]. eapply store_mono; [exact Hs|set_solver].
    - intros tid' t H b Hb. destruct (Ht _ _ H b Hb) as (lb & Hlb & Hrest). exists lb.
      rewrite Hl', lookup_insert_ne by congruence. done.
    - intros tid' t H Hb. destruct (Ht _ _ H _ Hb) as (lb & Hlb & _). congruence.
    - intros b [= <-]. exists (claim now l).2. rewrite Hl', lookup_insert_eq.
      split; [done|]. split; [apply claim_unavailable|done]. }
  case_goal; [|done]. by destruct Hg; split.
Qed.

Lemma thread_step_sys y e tid t y' ids :
  sys_inv y ids → threads y !! tid = Some t → thread_step tid e t y = Some y' →
  match e with EvAnswer tid' _ _ _ => tid' = tid | _ => True end →
  match issued y e with Some id => id ∉ ids | None => True end →
  sys_inv y' (add_issued (issued y e) ids).
Proof.
  intros Hy Htid Hstep Heq Hfresh. unfold thread_step in Hstep.
  destruct e, t; try discriminate Hstep; cbn [issued add_issued] in *.
  - unfold create_pool in Hstep. destruct (leasePools _ !! _);
      injection Hstep as <-; (apply quiet_set_thread; [done| |by left]); [apply quiet_refl|].
    eapply quiet_trans; [|apply quiet_set_maps].
    split; cbn [leases pools next_ref]; [|done| |lia].
    + intros a l' H. exists l'. split; [done|apply lease_le_refl].
    + intros q P [[<- <-]|[_ H]]%lookup_insert_Some; [by left|]. right. exists P. by repeat split.
  - injection Hstep as <-. apply quiet_set_thread; [done| |by left].
    apply quiet_upd_pool. intros. apply pool_le_counts.
  - destruct (traverseIdleLeaseList _ _ _ _) as [[r|] s] eqn:Hi; injection Hstep as <-.
    + by eapply idle_sys.
    + apply traverse_list_quiet in Hi as [Hq _]. apply quiet_set_thread; [done| |by left].
      eapply quiet_trans; [exact Hq|]. apply quiet_upd_pool. intros. apply pool_le_counts.
  - subst tid0. rewrite Htid in *. injection Hstep as <-.
    pose proof (answer_sys y tid p option net envs now ids Hy Htid) as Ha.
    cbv zeta in Ha. destruct (acquireHandler _ _ _ _); by apply Ha.
  - injection Hstep as <-. apply quiet_set_thread; [done| |].
    + unfold register_lease. case_goal; [|apply quiet_refl].
      eapply quiet_trans; [apply quiet_set_maps|]. apply quiet_upd_pool. intros. apply pool_le_counts.
    + right. eexists. split; [exact Htid|]. split; [done|]. intros H b Hb. by apply H.
  - destruct (leases (fl y) !! a) as [l|] eqn:Hl; [|done]. unfold find_release in Hstep.
    assert (∀ q, thread_ok (fl y) (THeld a) → thread_ok (fl y) (TReleasing q a (l_id l) abnormal)) as Hok.
    { intros q H b [= <-]. destruct (H a eq_refl) as (l0 & H0 & A0 & _). exists l0.
      split; [done|]. split; [done|congruence]. }
    destruct (globalLeaseList (fl y) !! l_id l);
      [destruct (leaseIdToLeasePool (fl y) !! l_id l)|]; injection Hstep as <-; cbn [fmap option_fmap option_map];
      (apply quiet_set_thread; [done| |]); auto with quiet.
    right. eexists. split; [exact Htid|]. split; [done|]. apply Hok.
  - injection Hstep as <-. by eapply free_sys.
Qed.

Lemma set_loop_sys y ids a x st : sys_inv y ids → quiet (fl y) st → sys_inv (set_loop a x st y) ids.
Proof. intros Hy Hq. eapply quiet_sys; [exact Hy|exact Hq|]. intros tid t Ht. right. eauto. Qed.

Lemma checkLeaseIdle_le now l timer : lease_le l (checkLeaseIdle now l timer).1.
Proof.
  unfold checkLeaseIdle. destruct (available l) eqn:Ha, (beginRelease l); cbn; by repeat case_goal.
Qed.

Lemma loop_step_sys y e a x l y' ids :
  sys_inv y ids → leases (fl y) !! a = Some l → loop_step a e x l y = Some y' → sys_inv y' ids.
Proof.
  intros Hy Hl Hstep. unfold loop_step in Hstep. destruct e; try discriminate Hstep.
  - case_in Hstep; [done|]. pose proof (checkLeaseIdle_le now l (lp_timer x)) as Hle.
    destruct (checkLeaseIdle now l (lp_timer x)) as [l' timer]. injection Hstep as <-.
    apply set_loop_sys; [done|]. apply quiet_upd_lease. intros l0 H0. by simplify_eq.
  - destruct (lp_timer x); [|done]. case_in Hstep; [done|]. pose proof (claim_le now l) as Hle.
    destruct (claim now l) as [ok l']. injection Hstep as <-.
    apply set_loop_sys; [done|]. apply quiet_upd_lease. intros l0 H0. by simplify_eq.
  - case_in Hstep; [done|]. destruct (stopClosed l || _); [|done]. injection Hstep as <-.
    apply set_loop_sys; [done|apply quiet_refl].
  - case_in Hstep; [|done]. injection Hstep as <-. apply set_loop_sys; [done|].
    eapply quiet_trans; [apply removeLease_quiet|]. apply quiet_upd_lease. intros l0 _. by split.
Qed.

Lemma retain_step_sys y e y' ids : sys_inv y ids → retain_step e y = Some y' → sys_inv y' ids.
Proof.
  intros Hy Hstep.
  assert (quiet (fl y) (fl y') ∧ threads y' = threads y) as [Hq Ht].
  { unfold retain_step in Hstep. destruct e; try discriminate Hstep.
    - destruct (retain y); [done|]. injection Hstep as <-. split; [|done].
      apply quiet_foldl, clear_one_quiet.
    - destruct (retain y); [done|]. case_in Hstep; [|done].
      pose proof (collect_quiet blueRatio entries (fl y)) as Hq.
      destruct (collectRetainSnapshots _ _ _) as [[??] ?]. by injection Hstep as <-.
    - destruct (retain y) as [[[|snap snaps] exits bs]|]; [done| |done].
      pose proof (assemble_quiet env mj snap bs (fl y)) as Hq.
      destruct (assemble_one _ _ _ _ _). by injection Hstep as <-.
    - destruct (retain y) as [[[|snap snaps] exits bs]|]; [|done|done].
      injection Hstep as <-. split; [|done]. apply quiet_foldl, exit_one_quiet.
    - destruct (outstanding y !! k) as [b|]; [|by destruct (retain y)].
      assert (∃ s, (match resp with
        | Some resp => processBatchResponse b resp (fl y)
        | None => Some (processErrBatchResponse b (fl y)) end) = Some s
        ∧ y' = MkSystem s (threads y) (loops y) (retain y) (delete k (outstanding y))) as (s & Hs & ->).
      { destruct (retain y); apply bind_Some in Hstep as (s & H1 & [= <-]); eauto. }
      split; [|done]. destruct resp; [by eapply response_quiet|]. injection Hs as <-.
      apply err_response_quiet. }
  eapply quiet_sys; [exact Hy|exact Hq|]. rewrite Ht. intros tid t H. right. eauto.
Qed.

Lemma step_sys y e y' ids :
  sys_inv y ids → step y e = Some y' →
  match issued y e with Some id => id ∉ ids | None => True end →
  sys_inv y' (add_issued (issued y e) ids).
Proof.
  intros Hy Hstep Hfresh.
  destruct e; cbn [step] in Hstep;
    try (exact (retain_step_sys y _ y' ids Hy Hstep));
    try (apply bind_Some in Hstep as (t & Ht & Hstep));
    try (by apply (thread_step_sys y _ tid t));
    try (apply bind_Some in Hstep as (l & Hl & Hstep); cbn [issued add_issued];
         by eapply loop_step_sys);
    cbn [issued add_issued].
  - destruct (threads y !! tid); [done|]. unfold find_pool in Hstep.
    destruct (leasePools _ !! _); injection Hstep as <-; (apply quiet_set_thread; [done| |by left]).
    + apply quiet_upd_pool. intros. apply pool_le_counts.
    + apply quiet_refl.
  - injection Hstep as <-. eapply quiet_sys; [exact Hy|apply ClearFunc_quiet|].
    intros tid t H. right. eauto.
Qed.

Lemma new_sys_inv funckey ring : sys_inv (new_system funckey ring) ∅.
Proof.
  split; [split|..]; cbn; intros; by rewrite lookup_empty in *.
Qed.

Lemma run_sys ids y evs y' :
  sys_inv y ids → fresh_ids ids y evs = true → run y evs = Some y' → ∃ ids', sys_inv y' ids'.
Proof.
  revert ids y. induction evs as [|e evs IH]; intros ids y Hy; cbn [fresh_ids run].
  { intros _ [= <-]. eauto. }
  intros Hf (y1 & Hs & Hr)%bind_Some. rewrite Hs in Hf.
  pose proof (step_sys y e y1 ids Hy Hs) as Hstep. destruct (issued y e) as [id|]; cbn [add_issued] in *.
  - apply andb_true_iff in Hf as [Hid%bool_decide_eq_true Hf]. eauto.
  - eauto.
Qed.

(** * Acquiring from a scheduler *)

Lemma Retry_inv {S E} (Q : S → Prop) (execute : S → option E * S) shouldRetry n err s :
  (∀ s, Q s → Q (execute s).2) → Q s → Q (Retry execute shouldRetry n err s).2.
Proof.
  intros Hex. revert err s. induction n as [|n IH]; intros err s Hs; [done|]. cbn [Retry].
  specialize (Hex s Hs). destruct (execute s) as [[e|] s']; cbn [snd] in *; [|done].
  case_goal; auto.
Qed.

Lemma Retry_count {S E} (Q : S → Prop) (f : S → nat) c (execute : S → option E * S) shouldRetry
    n err s :
  (∀ s, Q s → Q (execute s).2 ∧ f (execute s).2 ≤ f s + c) → Q s →
  f (Retry execute shouldRetry n err s).2 ≤ f s + n * c.
Proof.
  intros Hex. revert err s. induction n as [|n IH]; intros err s Hs; [cbn; lia|]. cbn [Retry].
  destruct (Hex s Hs) as [H1 H2]. destruct (execute s) as [[e|] s']; cbn [snd] in *; [|lia].
  case_goal; [|cbn; lia]. specialize (IH (Some e) s' H1). lia.
Qed.

Section Handler.
Context (net : nat → string → res string InstanceResponse) (envs : nat → sched_env).

(** The response kept is that of a scheduler whose ID is the recorded one. *)
Definition answered (h : handler) : Prop :=
  ∀ resp, acquireResponse h = Some resp →
    ∃ k node, k < calls h ∧ net k (Address (n_info node)) = Ok resp
              ∧ i_InstanceID (n_info node) = schedulerInstanceID h.

Lemma GetSchedulerByInstanceId_id ins im id node :
  GetSchedulerByInstanceId ins im id = Some node → i_InstanceID (n_info node) = id.
Proof.
  unfold GetSchedulerByInstanceId. case_goal; [done|]. intros ([k x] & Hh & ->)%fmap_Some.
  apply head_Some_elem_of, list_elem_of_filter in Hh as [[H _] _]. done.
Qed.

Lemma invoke_answered node h :
  i_InstanceID (n_info node) = schedulerInstanceID h →
  answered (doAcquireInvoke net (Address (n_info node)) h).2
  ∧ schedulerInstanceID (doAcquireInvoke net (Address (n_info node)) h).2 = schedulerInstanceID h
  ∧ calls (doAcquireInvoke net (Address (n_info node)) h).2 = S (calls h).
Proof.
  intros Hid. split; [|done]. intros resp. cbn [doAcquireInvoke snd acquireResponse calls schedulerInstanceID].
  destruct (net (calls h) (Address (n_info node))) as [r|] eqn:Hn; [|done]. intros [= <-].
  exists (calls h), node. split; [lia|done].
Qed.

Lemma same_answered option id h :
  schedulerInstanceID h = id →
  answered (acquireWithSameSchedulerIdRetry net envs option id h).2
  ∧ calls (acquireWithSameSchedulerIdRetry net envs option id h).2 ≤ calls h + 3.
Proof.
  intros Hid. unfold acquireWithSameSchedulerIdRetry.
  destruct (GetSchedulerByInstanceId _ _ id) as [node|] eqn:Hg; [|split; [done|cbn; lia]].
  apply GetSchedulerByInstanceId_id in Hg. set (execute := λ h, _).
  assert (∀ s, schedulerInstanceID s = id →
    answered (execute s).2 ∧ schedulerInstanceID (execute s).2 = id
    ∧ calls (execute s).2 = S (calls s)) as Hex.
  { intros s Hs. destruct (invoke_answered node s) as (H1 & H2 & H3); [congruence|].
    subst execute. cbv beta. destruct (doAcquireInvoke _ _ s) as [r s']. cbn [snd] in *.
    split; [done|]. by rewrite H2. }
  assert (∀ n err s, schedulerInstanceID s = id → (n = 0 → answered s) →
    answered (Retry execute (λ _, true) n err s).2
    ∧ calls (Retry execute (λ _, true) n err s).2 ≤ calls s + n) as Hr.
  { induction n as [|n IH]; intros err s Hs Ha; cbn [Retry]; [split; [auto|cbn; lia]|].
    destruct (Hex s Hs) as (H1 & H2 & H3). destruct (execute s) as [[e|] s']; cbn [snd] in *.
    - destruct (IH (Some e) s' H2) as [H4 H5]; [done|]. split; [done|lia].
    - split; [done|lia]. }
  destruct (Hr 3 None h Hid) as [H1 H2]; [done|].
  destruct (Retry execute _ 3 None h) as [[e|] h']; cbn [snd calls] in *; [|done].
  split; [done|lia].
Qed.

Lemma hash_answered funcKey option h :
  answered h →
  answered (acquireDependOnHash net envs funcKey option h).2
  ∧ calls (acquireDependOnHash net envs funcKey option h).2 ≤ calls h + 4.
Proof.
  intros Ha. unfold acquireDependOnHash.
  destruct (GetWithoutUnexpectedSchedulerInfosByAcquireOption _ _ _ _ _) as [node|e];
    [|split; [done|cbn; lia]].
  set (h1 := MkHandler _ _ _ _ _). destruct (invoke_answered node h1) as (H1 & H2 & H3); [done|].
  cbn [h1 schedulerInstanceID calls] in H2, H3.
  destruct (doAcquireInvoke net _ h1) as [r h2]. cbn [snd] in *.
  assert (answered (MkHandler (unavailable h2 ++ [node]) (hashRetry h2) (acquireResponse h2)
            (schedulerInstanceID h2) (calls h2))) as Hfail by exact H1.
  destruct r as [resp|e]; [|split; [done|cbn; lia]].
  case_goal; [split; [done|cbn; lia]|]. case_goal; [|split; [done|cbn; lia]].
  set (h3 := MkHandler _ _ _ _ _).
  destruct (same_answered option (ErrorMessage resp) h3 eq_refl) as [H4 H5]. cbn [h3 calls] in H5.
  split; [done|lia].
Qed.

(** A lease comes from the scheduler recorded on it: when acquireHandler
    returns a lease, some call among at most forty, made to the address of a
    scheduler with the recorded instance ID, was answered with success and
    with exactly this allocation; the lease is available and not exited. *)
Theorem acquired_lease_origin funcKey option l :
  acquireHandler net envs funcKey option = Ok l →
  ∃ k node resp,
    k < 40 ∧ net k (Address (n_info node)) = Ok resp ∧ ErrorCode resp = InsReqSuccessCode
    ∧ i_InstanceID (n_info node) = schedulerInstanceId l ∧ l_info l = alloc resp
    ∧ acquireOption l = option ∧ available l = true ∧ exited l = false ∧ reacquire l = false.
Proof.
  unfold acquireHandler.
  assert (answered start_handler) as H0 by done.
  pose proof (Retry_inv answered _ hashRetry 10 None start_handler
    (λ h Hh, proj1 (hash_answered funcKey option h Hh)) H0) as Ha.
  pose proof (Retry_count answered calls 4 _ hashRetry 10 None start_handler
    (hash_answered funcKey option) H0) as Hc.
  destruct (Retry _ hashRetry 10 None start_handler) as [[msg|] h]; cbn [snd] in *; [by case_goal|].
  destruct (acquireResponse h) as [resp|] eqn:Hr; [|done].
  destruct (ErrorCode resp =? InsReqSuccessCode)%Z eqn:Hcode; [|done]. breflect. cbn [negb].
  intros <-%Ok_inj. destruct (Ha resp Hr) as (k & node & Hk & Hnet & Hid).
  exists k, node, resp. split; [cbn in Hc; lia|]. done.
Qed.

End Handler.

(** * What the idle list gives out *)

(** The oldest idle lease that can be claimed, with those behind it, as long
    as no lease of another function signature is met before. *)
Fixpoint first_claimable (sig : string) (h : gmap N InstanceLease) (l : list lref)
    : option (lref * list lref) :=
  match l with
  | [] => None
  | r :: l =>
      match h !! r_addr r with
      | None => None
      | Some x => if bool_decide (FuncSig (acquireOption x) ≠ sig) then None
                  else if available x then Some (r, l) else first_claimable sig h l
      end
  end.

Lemma PopFront_contents (q : FifoQueue lref) :
  fifo_inv q → fifo_inv (PopFront q).2 ∧ contents (PopFront q).2 = tail (contents q).
Proof. intros H. split; [by apply PopFront_inv|by apply PopFront_spec]. Qed.

Lemma Len_contents (q : FifoQueue lref) : Len q = length (contents q).
Proof. unfold Len, contents. by rewrite length_fmap. Qed.

Lemma Front_contents (q : FifoQueue lref) : Front q = head (contents q).
Proof. unfold Front, contents. by destruct (FifoQueue.queue q). Qed.

Lemma drain_empty n (q : FifoQueue lref) :
  fifo_inv q → length (contents q) ≤ n → contents (drain n q) = [].
Proof.
  revert q. induction n as [|n IH]; intros q Hq Hn; cbn [drain].
  { by apply nil_length_inv, Nat.le_0_r. }
  rewrite Len_contents. destruct (length (contents q) =? 0)%nat eqn:E; breflect.
  { by apply nil_length_inv. }
  destruct (PopFront_contents q Hq) as [H1 H2]. apply IH; [done|]. rewrite H2.
  destruct (contents q); cbn in *; lia.
Qed.

Lemma traverse_first fuel now sig h q :
  fifo_inv q → length (contents q) ≤ fuel → (∀ r, r ∈ contents q → is_Some (h !! r_addr r)) →
  let '(r, h', q') := traverse fuel now sig h q in
  match first_claimable sig h (contents q) with
  | Some (x, rest) => r = Some x ∧ contents q' = rest
  | None => r = None ∧ contents q' = []
  end.
Proof.
  revert q. induction fuel as [|fuel IH]; intros q Hq Hlen Hval; cbn [traverse].
  { assert (contents q = []) as -> by (apply nil_length_inv; lia). done. }
  rewrite Front_contents. destruct (contents q) as [|x rest] eqn:Hc; cbn [head first_claimable]; [done|].
  destruct (Hval x) as [l Hl]; [left|]. rewrite Hl.
  destruct (bool_decide _).
  { split; [done|]. rewrite Len_contents. by apply drain_empty. }
  destruct (PopFront_contents q Hq) as [H1 H2]. rewrite Hc in H2. cbn [tail] in H2.
  destruct (claim now l) as [[|] l'] eqn:Hcl.
  - apply claim_taken in Hcl as [-> _]. done.
  - apply claim_refused in Hcl as [-> ->]. rewrite insert_id by done.
    rewrite <- H2. apply IH; [done| |]; rewrite H2; [cbn in Hlen; lia|].
    intros r Hr. apply Hval. by right.
Qed.

(** * Properties of the lease system *)

(** C1. No lease is used by two requests at once: in every interleaving of
    requests, expiry goroutines, the retain loop and batch answers, if the
    schedulers never issue a ThreadID twice, two requests never hold the same
    lease, and a held lease is not available, so neither the idle list nor its
    expiry goroutine can hand it out or take it. *)
Theorem lease_exclusive funckey ring evs y :
  fresh_ids ∅ (new_system funckey ring) evs = true →
  run (new_system funckey ring) evs = Some y →
  (∀ tid1 tid2 t1 t2 a,
     threads y !! tid1 = Some t1 → threads y !! tid2 = Some t2 →
     holds t1 = Some a → holds t2 = Some a → tid1 = tid2)
  ∧ ∀ tid t a, threads y !! tid = Some t → holds t = Some a →
      ∃ l, leases (fl y) !! a = Some l ∧ available l = false.
Proof.
  intros Hf Hr. destruct (run_sys ∅ _ evs y (new_sys_inv funckey ring) Hf Hr) as [ids [_ Ht He]].
  split; [exact He|]. intros tid t a H1 H2. destruct (Ht _ _ H1 a H2) as (l & H3 & H4 & _). eauto.
Qed.

(** An idle lease is reused in order: traverseIdleLeaseList terminates
    with the oldest idle lease that is still available and takes it and those
    before it off the list; on a lease of another function signature it gives
    out nothing and empties the list. *)
Theorem idle_lease_order p P option now st :
  pools st !! p = Some P → fifo_inv (idleLeaseList P) →
  (∀ r, r ∈ contents (idleLeaseList P) → is_Some (leases st !! r_addr r)) →
  let '(r, st') := traverseIdleLeaseList p option now st in
  ∃ P', pools st' !! p = Some P' ∧ leaseMap P' = leaseMap P ∧
  match first_claimable (FuncSig option) (leases st) (contents (idleLeaseList P)) with
  | Some (x, rest) => r = Some x ∧ contents (idleLeaseList P') = rest
  | None => r = None ∧ contents (idleLeaseList P') = []
  end.
Proof.
  intros HP Hq Hval. unfold traverseIdleLeaseList. rewrite HP.
  pose proof (traverse_first (Len (idleLeaseList P)) now (FuncSig option) (leases st)
                (idleLeaseList P) Hq) as H.
  rewrite Len_contents in H |- *. specialize (H (le_n _) Hval).
  destruct (traverse _ _ _ _ _) as [[r h] q].
  exists (set_leases q (leaseMap P) P). cbn [pools]. by rewrite lookup_insert_eq.
Qed.

(** * Examples *)

(** One scheduler, alone on a ring of one point. *)
Definition one_scheduler : SchedulerNodeInfo :=
  MkNode (MkInfo "0" "faas-scheduler" "latest" "sched-a" "id-a" "" "10.0.0.1:22423") 0.

Definition one_env : sched_env :=
  let im := MkProxy {["sched-a" := one_scheduler]} ∅
              (mkSimpleCH [mkVirtualNode 7 "sched-a" 0] {["sched-a"]}) false [] in
  MkEnv im im {["id-a"]} false.

Definition example_alloc (id : string) : InstanceAllocationInfo :=
  MkAlloc "t/f/latest" "sig" "inst-1" id "" "" "" "" "" 1000 500 512 false.

(** A scheduler that grants the lease [id]. *)
Definition grant (id : string) (k : nat) (address : string) : res string InstanceResponse :=
  if bool_decide (address = "10.0.0.1:22423")
  then Ok (MkResponse (example_alloc id) InsReqSuccessCode "") else Err "no route".

Definition opt1 : AcquireOption := example_option "trace-1" "pool" "inst" ∅.

Lemma acquired_lease_origin_witness :
  ∃ l, acquireHandler (grant "lease-1") (λ _, one_env) "t/f/latest" opt1 = Ok l
       ∧ schedulerInstanceId l = "id-a" ∧ available l = true.
Proof.
  assert (∃ l, acquireHandler (grant "lease-1") (λ _, one_env) "t/f/latest" opt1 = Ok l
               ∧ schedulerInstanceId l = "id-a") as (l & E & Hid) by (eexists; by vm_compute).
  exists l. destruct (acquired_lease_origin (grant "lease-1") (λ _, one_env) "t/f/latest" opt1 l E)
    as (k & node & resp & _ & _ & _ & _ & _ & _ & Hav & _).
  split; [exact E|]. split; [exact Hid|exact Hav].
Defined.

(** Two requests: the second starts while the first holds its lease and gets
    another one; then the first is released and reused by a third. *)
Definition acquire_new (tid : N) (id : string) : list event :=
  [EvIdle tid 10; EvAnswer tid (grant id) (λ _, one_env) 11; EvRegister tid].

Definition example_run : list event :=
  [EvAcquire 1 opt1; EvCreate 1; EvPend 1] ++ acquire_new 1 "lease-1"
  ++ [EvAcquire 2 opt1] ++ acquire_new 2 "lease-2"
  ++ [EvRelease 1 false; EvFree 1 12; EvAcquire 3 opt1; EvIdle 3 13; EvRegister 3].

Lemma lease_exclusive_witness :
  ∃ y, run (new_system "t/f/latest" "green") example_run = Some y
       ∧ (threads y !! 3%N ≫= holds) = Some 1%N ∧ (threads y !! 2%N ≫= holds) = Some 2%N
       ∧ ∀ tid t, threads y !! tid = Some t → holds t = Some 1%N → tid = 3%N.
Proof.
  assert (∃ y, run (new_system "t/f/latest" "green") example_run = Some y
               ∧ threads y !! 3%N = Some (THeld 1%N) ∧ threads y !! 2%N = Some (THeld 2%N))
    as (y & E & H3 & H2) by (eexists; by vm_compute).
  exists y. rewrite H2, H3. split; [exact E|]. split; [reflexivity|]. split; [reflexivity|].
  intros tid t Ht Hh.
  destruct (lease_exclusive "t/f/latest" "green" example_run y ltac:(by vm_compute) E) as [Hx _].
  exact (Hx tid 3%N t (THeld 1%N) 1%N Ht H3 Hh eq_refl).
Defined.

(** A pool with two idle leases, the older one claimed by its expiry
    goroutine. *)
Definition idle_pool : LeasePool :=
  set_leases (PushBack (PushBack (NewFifoQueue (Some lease_identity)) (Ref 1 "lease-1"))
                (Ref 2 "lease-2"))
    {["lease-1" := 1%N; "lease-2" := 2%N]} (newInstanceLeasePool "t/f/latest" opt1 "green").

Definition idle_state : FuncKeyLeasePools :=
  MkFlps "t/f/latest" "green" false 0 ∅ ∅ ∅
    {[1%N := (claim 5 (newInstanceLease (example_alloc "lease-1") opt1)).2;
      2%N := newInstanceLease (example_alloc "lease-2") opt1]} {[0%N := idle_pool]} 3.

Lemma idle_lease_order_witness :
  (traverseIdleLeaseList 0 opt1 20 idle_state).1 = Some (Ref 2 "lease-2").
Proof.
  assert (pools idle_state !! 0%N = Some idle_pool) as HP by reflexivity.
  assert (fifo_inv (idleLeaseList idle_pool)) as Hq
    by exact (PushBack_inv _ _ (PushBack_inv _ _ (NewFifoQueue_inv _))).
  assert (∀ r, r ∈ contents (idleLeaseList idle_pool) → is_Some (leases idle_state !! r_addr r)) as Hv.
  { change (contents (idleLeaseList idle_pool)) with [Ref 1 "lease-1"; Ref 2 "lease-2"].
    intros r Hr. set_unfold in Hr. destruct Hr as [->|[->|[]]]; eexists; reflexivity. }
  pose proof (idle_lease_order 0 idle_pool opt1 20 idle_state HP Hq Hv) as H.
  destruct (traverseIdleLeaseList 0 opt1 20 idle_state) as [r st'].
  destruct H as (P' & _ & _ & H). exact (proj1 H).
Defined.

(** acquireInstance creates a pool under the write lock and counts itself as
    pending only after taking the lock again: when the retain loop clears
    empty pools in between, the request obtains its lease in a pool that is
    closed and no longer listed, and the lease is released to the scheduler
    while the request still holds it. *)
Theorem detached_pool_race :
  ∃ y p, run (new_system "t/f/latest" "green")
           ([EvAcquire 1 opt1; EvCreate 1; EvClear; EvPend 1] ++ acquire_new 1 "lease-1"
            ++ [EvStopped 1; EvExpire 1]) = Some y
    ∧ threads y !! 1%N = Some (THeld 1%N)
    ∧ exited <$> leases (fl y) !! 1%N = Some true
    ∧ leasePools (fl y) = ∅ ∧ p_stopClosed <$> pools (fl y) !! p = Some true.
Proof. eexists _, 0%N. by vm_compute. Qed.

(** A scheduler that answers "finalized" is noted as unavailable, but the
    attempt reports no error and so is not repeated elsewhere. *)
Theorem finalized_not_retried net envs funcKey option node resp :
  GetWithoutUnexpectedSchedulerInfosByAcquireOption (lite (envs 0))
    (getProxyManagerByRing (envs 0) (RingName option)) funcKey (Some option) [] = Ok node →
  net 0 (Address (n_info node)) = Ok resp → ErrorCode resp = ErrFinalized →
  acquireHandler net envs funcKey option = Err (MkSnError ErrFinalized (ErrorMessage resp)).
Proof.
  intros Hg Hn Hc. unfold acquireHandler. cbn [Retry].
  assert (acquireDependOnHash net envs funcKey option start_handler =
    (None, MkHandler [node] true (Some resp) (i_InstanceID (n_info node)) 1)) as ->.
  { unfold acquireDependOnHash, start_handler. cbn [calls unavailable]. rewrite Hg.
    cbn [doAcquireInvoke calls unavailable hashRetry acquireResponse schedulerInstanceID].
    rewrite Hn, Hc. done. }
  cbn [acquireResponse]. rewrite Hc. done.
Qed.
