(* ===== verification/RetainFacts.v ===== *)
(** Facts of the retain batches: how leases are distributed over batches, and
    what the answer to a batch does to the leases. *)

From S2P Require Import Prelude GoStrings Hashing HashRing FifoQueue Lease SchedulerProxy LeasePool LeaseSystem LeaseFacts.

(** * Distribution over batches *)

(** A lease to retain: its scheduler, the scheduler's address, its ID and what
    is sent about it. *)
Record rentry := MkEntry {
  re_sched : string; re_addr : string; re_id : string; re_info : BatchRetainLeaseInfo;
}.

Definition append_entry (b : gmap string (list BatchRetainLeaseInfos)) (e : rentry)
    : gmap string (list BatchRetainLeaseInfos) :=
  appendRetainInfo b (re_sched e) (re_addr e) (re_id e) (Some (re_info e)).

Definition append_all (es : list rentry) : gmap string (list BatchRetainLeaseInfos) :=
  foldl append_entry ∅ es.

(** The batch that carries the leases of a group. *)
Definition batch_of (g : list rentry) : BatchRetainLeaseInfos :=
  MkBatch (Join (re_id <$> g) ",") (list_to_map ((λ e, (re_id e, re_info e)) <$> g))
    (default "" (re_addr <$> head g)).

Definition group_ok (g : list rentry) : Prop := g ≠ [] ∧ length g ≤ maxBatchSize.

(** Groups of at most [maxBatchSize], all but the last one full. *)
Definition groups_ok (gs : list (list rentry)) : Prop :=
  Forall group_ok gs
  ∧ ∀ i g, gs !! i = Some g → S i < length gs → length g = maxBatchSize.

Lemma Join_snoc l x sep : l ≠ [] → Join (l ++ [x]) sep = Join l sep +:+ (sep +:+ x).
Proof.
  induction l as [|y l IH]; [done|]. intros _. destruct l as [|z l]; [done|].
  change ((y :: z :: l) ++ [x]) with (y :: ((z :: l) ++ [x])).
  rewrite Join_cons by (by destruct l). rewrite IH by done. rewrite (Join_cons y (z :: l)) by done.
  by rewrite !app_assoc_str.
Qed.

Lemma Join_nonempty l sep : Forall (λ x, x ≠ "") l → l ≠ [] → Join l sep ≠ "".
Proof.
  intros Hf Hne. destruct Hf as [|x l Hx Hf]; [done|]. destruct l as [|y l]; [done|].
  rewrite Join_cons by done. destruct x; [done|]. by rewrite app_cons_str.
Qed.

Lemma batch_of_snoc g e :
  g ≠ [] → Forall (λ x, re_id x ≠ "") g → re_id e ∉ re_id <$> g →
  batch_of (g ++ [e]) =
    MkBatch (assembleTargetName (targetName (batch_of g)) (re_id e))
      (<[re_id e := re_info e]> (infos (batch_of g))) (b_SchedulerAddress (batch_of g)).
Proof.
  intros Hne Hid Hnot. unfold batch_of. cbn [targetName infos b_SchedulerAddress].
  rewrite !fmap_app. cbn [fmap list_fmap].
  f_equal.
  - rewrite Join_snoc by (by destruct g). unfold assembleTargetName.
    rewrite bool_decide_false; [done|]. apply Join_nonempty; [by apply Forall_fmap|by destruct g].
  - rewrite list_to_map_snoc; [done|]. rewrite <- list_fmap_compose. exact Hnot.
  - by destruct g.
Qed.

Lemma batch_of_size g : NoDup (re_id <$> g) → size (infos (batch_of g)) = length g.
Proof.
  intros Hnd. unfold batch_of. cbn [infos]. rewrite <- length_map_to_list.
  rewrite map_to_list_to_map; [by rewrite length_fmap|].
  rewrite <- list_fmap_compose. exact Hnd.
Qed.

Lemma rev_case {A} (l : list A) : l = [] ∨ ∃ l' x, l = l' ++ [x].
Proof. destruct l as [|x l'] using rev_ind; [by left|]. right. eauto. Qed.

(** One more lease for a scheduler whose batches carry the groups [gs]. *)
Lemma append_group gs e :
  groups_ok gs → NoDup (re_id <$> (mjoin gs ++ [e])) → Forall (λ x, re_id x ≠ "") (mjoin gs ++ [e]) →
  ∃ gs', groups_ok gs' ∧ mjoin gs' = mjoin gs ++ [e] ∧
    (let '(arr, b) := open_batch (re_addr e) (batch_of <$> gs) in
     arr ++ [MkBatch (assembleTargetName (targetName b) (re_id e))
               (<[re_id e := re_info e]> (infos b)) (b_SchedulerAddress b)]) = batch_of <$> gs'.
Proof.
  intros [Hf Hfull] Hnd Hid.
  assert (MkBatch (assembleTargetName "" (re_id e)) (<[re_id e := re_info e]> ∅) (re_addr e)
          = batch_of [e]) as Hnew by (unfold batch_of; cbn; by rewrite insert_empty).
  assert (group_ok [e]) as Hone by (split; [done|unfold maxBatchSize; cbn; lia]).
  destruct (rev_case gs) as [->|(gs1 & g & ->)].
  { exists [[e]]. split; [|split; [done|]].
    - split; [by apply Forall_singleton|]. intros i g Hi Hlt. cbn in Hlt. lia.
    - cbn [fmap list_fmap open_batch last app]. by rewrite <- Hnew. }
  apply Forall_app in Hf as [Hf Hg]. apply (proj1 (Forall_singleton _ _)) in Hg.
  rewrite join_app in Hnd, Hid |- *. cbn [mjoin list_join] in Hnd, Hid |- *. rewrite app_nil_r in *.
  assert (NoDup (re_id <$> g)) as Hndg.
  { rewrite !fmap_app in Hnd. apply NoDup_app in Hnd as [(_ & _ & H)%NoDup_app _]. done. }
  unfold open_batch. rewrite fmap_app. cbn [fmap list_fmap]. rewrite last_snoc.
  rewrite batch_of_size by done. destruct (maxBatchSize <=? length g)%nat eqn:Hsz; breflect.
  - exists (gs1 ++ [g] ++ [[e]]). split; [split|split].
    + apply Forall_app. split; [done|]. apply Forall_cons. split; [done|]. by apply Forall_singleton.
    + intros i x. rewrite app_assoc. intros [Hi|[-> _]]%lookup_snoc_Some Hlt.
      * rewrite length_app in Hlt, Hi. cbn in Hlt, Hi. destruct Hi as [Hi Hx].
        apply lookup_snoc_Some in Hx as [[Hx1 Hx2]|[Hx1 ->]].
        -- apply (Hfull i); [by apply lookup_app_l_Some|rewrite length_app; cbn; lia].
        -- destruct Hg as [_ Hg]. lia.
      * rewrite !length_app in Hlt. cbn in Hlt. lia.
    + rewrite !join_app. cbn [mjoin list_join]. by rewrite !app_nil_r, app_assoc.
    + rewrite !fmap_app. cbn [fmap list_fmap]. rewrite <- Hnew. by rewrite app_assoc.
  - exists (gs1 ++ [g ++ [e]]). split; [split|split].
    + rewrite Forall_app, Forall_singleton. split; [done|]. split; [by destruct g|].
      rewrite length_app. cbn. lia.
    + intros i x [[Hi Hx]|[-> _]]%lookup_snoc_Some Hlt.
      * apply (Hfull i); [by apply lookup_app_l_Some|rewrite length_app; cbn; lia].
      * rewrite length_app in Hlt. cbn in Hlt. lia.
    + rewrite join_app. cbn [mjoin list_join]. by rewrite app_nil_r, app_assoc.
    + rewrite fmap_app. cbn [fmap list_fmap].
      rewrite length_app. cbn [length]. rewrite Nat.add_sub, take_app_length. f_equal.
      rewrite batch_of_snoc; [done|by destruct Hg| |].
      * apply Forall_app in Hid as [Hid _]. by apply Forall_app in Hid as [_ Hid].
      * rewrite !fmap_app, NoDup_app in Hnd. destruct Hnd as (_ & Hnd & _).
        intros Hin. apply (Hnd (re_id e)); [set_solver|]. cbn. set_solver.
Qed.

(** Retain batches are a partition in order: after the leases to retain,
    with distinct non-empty IDs, are appended one by one, the batches of each
    scheduler carry exactly its leases in order, each lease in one batch; no
    batch is empty or above 1000 leases, only the last one can be short, its
    target name lists the IDs of its leases and its entries are theirs. *)
Theorem retain_batches_partition es sched :
  NoDup (re_id <$> es) → Forall (λ e, re_id e ≠ "") es →
  ∃ gs, default [] (append_all es !! sched) = batch_of <$> gs
        ∧ mjoin gs = filter (λ e, re_sched e = sched) es
        ∧ groups_ok gs.
Proof.
  induction es as [|e es IH] using rev_ind; intros Hnd Hid.
  { exists []. split; [done|]. split; [done|]. split; [constructor|]. intros i g Hi. done. }
  assert (NoDup (re_id <$> es)) as Hnd' by (rewrite fmap_app, NoDup_app in Hnd; tauto).
  assert (Forall (λ e, re_id e ≠ "") es) as Hid' by (by apply Forall_app in Hid as [? _]).
  destruct (IH Hnd' Hid') as (gs & Hb & Hj & Hok). unfold append_all in *. rewrite foldl_app.
  cbn [foldl]. set (b := foldl append_entry ∅ es) in *.
  rewrite filter_app, filter_cons, filter_nil.
  unfold append_entry, appendRetainInfo. destruct (decide (re_sched e = sched)) as [<-|Hne].
  - destruct (append_group gs e Hok) as (gs' & Hok' & Hj' & Hb').
    + rewrite Hj. rewrite fmap_app in Hnd |- *. eapply sublist_NoDup; [exact Hnd|].
      apply sublist_app; [apply fmap_filter_sublist|done].
    + rewrite Hj. apply Forall_app in Hid as [Hid He]. apply Forall_app. split; [|done].
      rewrite Forall_forall in Hid |- *. intros x [_ Hx]%list_elem_of_filter. by apply Hid.
    + exists gs'. rewrite Hb. destruct (open_batch _ _) as [arr bt].
      rewrite lookup_insert_eq. cbn [from_option id]. split; [done|]. by rewrite Hj', Hj.
  - exists gs. destruct (open_batch _ _) as [arr bt]. rewrite lookup_insert_ne by done.
    by rewrite app_nil_r.
Qed.

Definition example_info : BatchRetainLeaseInfo := MkRetain (MkReport 0 (-1) 0 false) None "t/f/latest" "key".

Lemma retain_batches_partition_witness :
  ∃ gs, default [] (append_all [MkEntry "s1" "a1" "l1" example_info; MkEntry "s2" "a2" "l2" example_info;
                                MkEntry "s1" "a1" "l3" example_info] !! "s1") = batch_of <$> gs
        ∧ mjoin gs = [MkEntry "s1" "a1" "l1" example_info; MkEntry "s1" "a1" "l3" example_info].
Proof.
  destruct (retain_batches_partition
    [MkEntry "s1" "a1" "l1" example_info; MkEntry "s2" "a2" "l2" example_info;
     MkEntry "s1" "a1" "l3" example_info] "s1") as (gs & H1 & H2 & _).
  - by apply (bool_decide_unpack _).
  - by repeat constructor.
  - exists gs. split; [exact H1|exact H2].
Defined.

(** * The answer to a batch *)

Lemma for_entries_None {A} (id_of : A → string) batch body l st :
  for_entries id_of batch body l st = None ↔ ∃ x, x ∈ l ∧ infos batch !! id_of x = None.
Proof.
  revert st. induction l as [|x l IH]; intros st; cbn [for_entries].
  { split; [done|]. intros (x & Hx & _). by apply not_elem_of_nil in Hx. }
  destruct (infos batch !! id_of x) eqn:Hx.
  - rewrite IH. split; intros (y & Hy & Hn); exists y; (split; [|done]); [by right|].
    apply elem_of_cons in Hy as [->|]; [congruence|done].
  - split; [|done]. intros _. exists x. split; [left|done].
Qed.

Lemma parse_ids resp id :
  (∃ x, x ∈ (parseReacquireAndDecreaseIds resp).1 ∧ x.1 = id) ∨
  id ∈ (parseReacquireAndDecreaseIds resp).2 ↔ id ∈ (InstanceAllocFailed resp).*1.
Proof.
  unfold parseReacquireAndDecreaseIds. induction (InstanceAllocFailed resp) as [|kv l IH] using rev_ind.
  { cbn. set_solver. }
  rewrite foldl_app, fmap_app, elem_of_app, <- IH. clear IH. cbn [foldl fmap list_fmap].
  destruct (foldl _ ([], []) l) as [re de]. cbn [fst snd].
  rewrite list_elem_of_singleton. repeat case_goal; cbn [fst snd]; set_solver.
Qed.

(** A batch answer that names a lease the batch did not contain crashes
    the frontend: processing the answer dereferences a nil entry exactly when
    some succeeded or failed ID of the answer is not among the batch's
    entries. *)
Theorem batch_answer_panics batch resp st :
  processBatchResponse batch resp st = None ↔
  ∃ id, id ∈ InstanceAllocSucceed resp ++ (InstanceAllocFailed resp).*1 ∧ infos batch !! id = None.
Proof.
  unfold processBatchResponse, processSucceedRetainLeaseIdsBare.
  pose proof (parse_ids resp) as Hp. destruct (parseReacquireAndDecreaseIds resp) as [re de].
  cbn [fst snd] in Hp. set (st0 := set_control _ _ st).
  setoid_rewrite elem_of_app. setoid_rewrite <- Hp. clear Hp. split.
  - intros H. destruct (for_entries (λ id, id) batch _ (InstanceAllocSucceed resp) st0) as [s1|] eqn:E1.
    2:{ apply for_entries_None in E1 as (x & Hx & Hn). eauto. }
    cbn [mbind option_bind] in H. destruct (for_entries fst batch reacquire_one re s1) as [s2|] eqn:E2.
    2:{ apply for_entries_None in E2 as (x & Hx & Hn). exists x.1. eauto 6. }
    cbn [mbind option_bind] in H. apply for_entries_None in H as (x & Hx & Hn). eauto.
  - intros (id & Hid & Hn). destruct (for_entries (λ id, id) batch _ (InstanceAllocSucceed resp) st0)
      as [s1|] eqn:E1; [|done]. cbn [mbind option_bind].
    destruct (for_entries fst batch reacquire_one re s1) as [s2|] eqn:E2; [|done].
    cbn [mbind option_bind]. apply for_entries_None.
    destruct Hid as [Hid|[(x & Hx & <-)|Hid]]; [| |by eauto].
    + exfalso. assert (for_entries (λ id, id) batch (λ _ _ a st, upd_lease a (set_reacquire false) st)
        (InstanceAllocSucceed resp) st0 = None) by (apply for_entries_None; eauto). congruence.
    + exfalso. assert (for_entries fst batch reacquire_one re s1 = None)
        by (apply for_entries_None; eauto). congruence.
Qed.

(** ** Leases the scheduler refuses to retain *)

(** The lease [id] of a batch entry is gone: not in the pool the entry names,
    not in the global list, and destroyed. *)
Definition gone (info : BatchRetainLeaseInfo) (id : string) (a : N) (st : FuncKeyLeasePools) : Prop :=
  entry_lease info id st = None ∧ globalLeaseList st !! id = None
  ∧ ∀ l, leases st !! a = Some l → exited l = true ∧ available l = false.

Lemma decrease_entry x q b info id st :
  entry_lease info id (decrease_one x q b st) =
    match entry_lease info id st with
    | Some (p, a) => if bool_decide (p = q ∧ id = x) then None else Some (p, a)
    | None => None
    end.
Proof.
  unfold entry_lease, decrease_one.
  cbn [upd_pool set_maps upd_lease leasePools pools].
  destruct (leasePools st !! PoolKey info) as [p|]; cbn [mbind option_bind]; [|done].
  destruct (decide (p = q)) as [->|Hpq].
  - rewrite lookup_alter_eq. destruct (pools st !! q) as [P|]; cbn [mbind option_bind fmap option_fmap option_map]; [|done].
    unfold drop_pool_lease. cbn [set_leases leaseMap]. destruct (decide (id = x)) as [->|Hid].
    + rewrite lookup_delete_eq. cbn. destruct (leaseMap P !! x); cbn; [|done].
      by rewrite bool_decide_true.
    + rewrite lookup_delete_ne by done. destruct (leaseMap P !! id); cbn; [|done].
      rewrite bool_decide_false by tauto. done.
  - rewrite lookup_alter_ne by done. destruct (pools st !! p) as [P|]; cbn [mbind option_bind]; [|done].
    destruct (leaseMap P !! id); cbn [mbind option_bind]; [|done].
    rewrite bool_decide_false by tauto. done.
Qed.

Lemma decrease_gone x q b info id a st : gone info id a st → gone info id a (decrease_one x q b st).
Proof.
  intros (H1 & H2 & H3). split; [|split].
  - by rewrite decrease_entry, H1.
  - unfold decrease_one. cbn [upd_pool set_maps upd_lease globalLeaseList].
    by apply lookup_delete_None; right.
  - unfold decrease_one. cbn [upd_pool set_maps upd_lease leases]. intros l.
    destruct (decide (a = b)) as [->|]; [|rewrite lookup_alter_ne by done; apply H3].
    rewrite lookup_alter_eq. by intros (l0 & _ & ->)%fmap_Some.
Qed.

Lemma decrease_loop_gone batch info id a ids st st' :
  for_entries (λ id, id) batch decrease_one ids st = Some st' →
  gone info id a st → gone info id a st'.
Proof.
  revert st. induction ids as [|x ids IH]; intros st; cbn [for_entries]; [by intros [= <-]|].
  destruct (infos batch !! x) as [i|]; [|done]. intros H Hg. eapply IH; [exact H|].
  destruct (entry_lease i x st) as [[q b]|]; [by apply decrease_gone|done].
Qed.

Lemma decrease_loop batch info id p a ids st st' :
  for_entries (λ id, id) batch decrease_one ids st = Some st' →
  infos batch !! id = Some info → id ∈ ids → entry_lease info id st = Some (p, a) →
  gone info id a st'.
Proof.
  revert st. induction ids as [|x ids IH]; intros st; cbn [for_entries];
    [by intros _ _ ?%not_elem_of_nil|].
  intros H Hinfo Hin He. destruct (decide (x = id)) as [->|Hne].
  - rewrite Hinfo, He in H. eapply decrease_loop_gone; [exact H|]. split; [|split].
    + rewrite decrease_entry, He. by rewrite bool_decide_true.
    + unfold decrease_one. cbn [upd_pool set_maps upd_lease globalLeaseList]. apply lookup_delete_eq.
    + unfold decrease_one. cbn [upd_pool set_maps upd_lease leases]. intros l.
      rewrite lookup_alter_eq. by intros (l0 & _ & ->)%fmap_Some.
  - destruct (infos batch !! x) as [i|]; [|done]. eapply IH; [exact H|done|set_solver|].
    destruct (entry_lease i x st) as [[q b]|]; [|done]. rewrite decrease_entry, He.
    rewrite bool_decide_false by naive_solver. done.
Qed.

(** The first two loops leave the pools and the maps alone. *)
Lemma for_entries_same {A} (id_of : A → string) batch body l st st' :
  (∀ x p a st, leasePools (body x p a st) = leasePools st ∧ pools (body x p a st) = pools st) →
  for_entries id_of batch body l st = Some st' →
  leasePools st' = leasePools st ∧ pools st' = pools st.
Proof.
  intros Hb. revert st. induction l as [|x l IH]; intros st; cbn [for_entries]; [by intros [= <-]|].
  destruct (infos batch !! id_of x) as [i|]; [|done]. intros H%IH.
  destruct (entry_lease i (id_of x) st) as [[p a]|]; [|done].
  destruct (Hb x p a st) as [E1 E2]. by rewrite <- E1, <- E2.
Qed.

Lemma entry_lease_same info id st st' :
  leasePools st' = leasePools st → pools st' = pools st →
  entry_lease info id st' = entry_lease info id st.
Proof. intros E1 E2. unfold entry_lease. by rewrite E1, E2. Qed.

Lemma parse_decrease resp id code msg :
  (id, MkFailed code msg) ∈ InstanceAllocFailed resp →
  code ≠ LeaseIDNotFoundCode → code ≠ AcquireNonOwnerSchedulerErrorCode →
  id ∈ (parseReacquireAndDecreaseIds resp).2.
Proof.
  intros Hin H1 H2. unfold parseReacquireAndDecreaseIds.
  induction (InstanceAllocFailed resp) as [|kv l IH] using rev_ind; [by apply not_elem_of_nil in Hin|].
  rewrite foldl_app. cbn [foldl]. apply elem_of_app in Hin as [Hin|Hin%list_elem_of_singleton].
  - specialize (IH Hin). destruct (foldl _ ([], []) l) as [re de]. cbn [fst snd] in *.
    repeat case_goal; cbn [snd]; set_solver.
  - subst kv. destruct (foldl _ ([], []) l) as [re de]. cbn [fst snd fi_ErrorCode].
    destruct (code =? LeaseIDNotFoundCode)%Z eqn:E1; breflect; [done|].
    destruct (code =? AcquireNonOwnerSchedulerErrorCode)%Z eqn:E2; breflect; [done|]. cbn. set_solver.
Qed.

(** A lease the scheduler refuses to retain is withdrawn: when the answer
    lists a lease of the batch as failed with an error other than "not found"
    and "not the owner", and the pool its entry names still has it, then after
    the answer is processed the pool and the global list no longer have the
    lease and it is destroyed, so it can never be claimed again. *)
Theorem failed_lease_withdrawn batch resp st st' id code msg info p a :
  processBatchResponse batch resp st = Some st' →
  (id, MkFailed code msg) ∈ InstanceAllocFailed resp →
  code ≠ LeaseIDNotFoundCode → code ≠ AcquireNonOwnerSchedulerErrorCode →
  infos batch !! id = Some info → entry_lease info id st = Some (p, a) →
  entry_lease info id st' = None ∧ globalLeaseList st' !! id = None
  ∧ ∀ l, leases st' !! a = Some l → exited l = true ∧ ∀ now, (claim now l).1 = false.
Proof.
  intros H Hin H1 H2 Hinfo He. pose proof (parse_decrease resp id code msg Hin H1 H2) as Hde.
  unfold processBatchResponse in H. destruct (parseReacquireAndDecreaseIds resp) as [re de].
  apply bind_Some in H as (s1 & E1 & (s2 & E2 & E3)%bind_Some).
  apply for_entries_same in E1 as [L1 P1]; [|done]. apply for_entries_same in E2 as [L2 P2]; [|done].
  assert (entry_lease info id s2 = Some (p, a)) as He2.
  { rewrite (entry_lease_same _ _ s1 s2), (entry_lease_same _ _ _ s1) by done. exact He. }
  destruct (decrease_loop _ _ _ _ _ _ _ _ E3 Hinfo Hde He2) as (G1 & G2 & G3).
  split; [done|]. split; [done|]. intros l Hl. destruct (G3 l Hl) as [X1 X2]. split; [done|].
  intros now. unfold claim. by rewrite X2.
Qed.

(** The pool of a withdrawn lease stays recorded under its ID: no batch answer
    removes entries of that map. *)
Theorem withdrawn_lease_leaks batch resp st st' :
  processBatchResponse batch resp st = Some st' → leaseIdToLeasePool st' = leaseIdToLeasePool st.
Proof.
  assert (∀ A (id_of : A → string) body l s s',
    (∀ x p a s, leaseIdToLeasePool (body x p a s) = leaseIdToLeasePool s) →
    for_entries id_of batch body l s = Some s' → leaseIdToLeasePool s' = leaseIdToLeasePool s) as Hl.
  { intros A id_of body l s s' Hb. revert s. induction l as [|x l IH]; intros s; cbn [for_entries];
      [by intros [= <-]|]. destruct (infos batch !! id_of x) as [i|]; [|done]. intros ->%IH.
    destruct (entry_lease i (id_of x) s) as [[p a]|]; [apply Hb|done]. }
  unfold processBatchResponse. destruct (parseReacquireAndDecreaseIds resp) as [re de].
  intros (s1 & E1 & (s2 & E2 & E3)%bind_Some)%bind_Some.
  apply Hl in E1, E2, E3; [|done..]. rewrite E3, E2. exact E1.
Qed.

(** * Examples *)

Definition retained_state : FuncKeyLeasePools :=
  set_maps {["key" := 0%N]} {["lease-1" := 1%N; "lease-2" := 2%N]} {["lease-1" := 0%N; "lease-2" := 0%N]}
    idle_state.

Definition example_batch : BatchRetainLeaseInfos :=
  MkBatch "lease-2" {["lease-2" := example_info]} "10.0.0.1:22423".

Lemma failed_lease_withdrawn_witness :
  ∃ st', processBatchResponse example_batch (MkBatchResponse [] [("lease-2", MkFailed 1 "gone")] 1000)
           retained_state = Some st'
         ∧ globalLeaseList st' !! "lease-2" = None
         ∧ ∀ l, leases st' !! 2%N = Some l → exited l = true.
Proof.
  assert (∃ st', processBatchResponse example_batch
            (MkBatchResponse [] [("lease-2", MkFailed 1 "gone")] 1000) retained_state = Some st')
    as [st' E] by (eexists; vm_compute; reflexivity).
  exists st'. split; [exact E|].
  destruct (failed_lease_withdrawn example_batch _ retained_state st' "lease-2" 1 "gone" example_info
              0%N 2%N E) as (_ & H1 & H2); [left|discriminate|discriminate|reflexivity|reflexivity|].
  split; [exact H1|]. intros l Hl. exact (proj1 (H2 l Hl)).
Defined.

Definition example_json : marshallers := MkMarshal SessionID (λ _, "label") (λ _, "data").

Definition session_option : AcquireOption :=
  MkOption "" "" "" "" "" "" "" "" "sig" ∅ "" ∅ "" 0 false "green"
    (Some (MkSession "session-1" 60 1)) "" false.

(** A lease of a session, whose session then moves to the blue ring. *)
Definition ring_switch (resp : BatchInstanceResponse) : list event :=
  [EvAcquire 1 session_option; EvCreate 1; EvPend 1] ++ acquire_new 1 "lease-1"
  ++ [EvCollect 100 [("lease-1", 1%N)]; EvAssemble one_env example_json; EvSend;
      EvResponse 0 (Some resp)].

(** The entry sent for a lease is answered under the pool key of its acquire
    option. When the gray ratio has moved the lease to the other ring that key
    is no longer the key of its pool, and the answer is dropped: after a
    success the lease still counts as to be reacquired, and after a failure
    that should withdraw it the pool still has it. *)
Theorem ring_switch_loses_answers :
  (∃ y, run (new_system "t/f/latest" "green") (ring_switch (MkBatchResponse ["lease-1"] [] 1000)) = Some y
        ∧ reacquire <$> leases (fl y) !! 1%N = Some true)
  ∧ ∃ y, run (new_system "t/f/latest" "green")
           (ring_switch (MkBatchResponse [] [("lease-1", MkFailed 1 "gone")] 1000)) = Some y
        ∧ exited <$> leases (fl y) !! 1%N = Some false
        ∧ (leaseMap <$> pools (fl y) !! 0%N) = Some {["lease-1" := 1%N]}
        ∧ globalLeaseList (fl y) !! "lease-1" = Some 1%N.
Proof.
  split.
  - eexists. split; vm_compute; reflexivity.
  - eexists. split; [vm_compute; reflexivity|]. by vm_compute.
Qed.

(** Reacquiring sends the pool label where acquiring sends the instance label,
    and no resources: a pool never learns its resource specification. *)
Theorem reacquire_data_wrong mj funcKey option ring :
  let P := newInstanceLeasePool funcKey option ring in
  reacquireData mj P !! "resourcesData" = Some ""
  ∧ (PoolLabel option ≠ "" →
     reacquireData mj P !! "instanceInvokeLabel" = Some (m_label mj {[HeaderInstanceLabel := PoolLabel option]})).
Proof.
  intros P. unfold reacquireData, P. cbn [newInstanceLeasePool p_session p_poolLabel p_enableSessionCtx resSpecStr p_sessionCtxID].
  split.
  - destruct (EnableSessionCtx option); rewrite ?lookup_insert_ne by done;
      (case_bool_decide; rewrite ?lookup_insert_ne by done);
      (destruct (InstanceSession option); rewrite ?lookup_insert_ne by done);
      apply lookup_singleton_eq.
  - intros Hl. rewrite bool_decide_true by done.
    destruct (EnableSessionCtx option); rewrite ?lookup_insert_ne by done;
      apply lookup_insert_eq.
Qed.
