(* ===== verification/SessionContext.v ===== *)
(** * Session contexts (pkg/frontend/sessioncontext)

    The read side of session contexts: the keys records are stored under, the
    sequential reads of turns and events, the aggregation of a history into
    turns, page tokens, and the query service built from them.

    The data system is a [Reader]. A sequential read goes on until a record is
    missing, so it carries fuel and returns [None] when the fuel ends first;
    [SessionContextFacts] shows that over any finite store one more than the
    size of the store is enough. The [Cause] of a service error is only printed
    and is left out. *)

From S2P Require Import Prelude GoStrings Hashing Json.
Open Scope string_scope.
Open Scope go_scope.

(** ** errors.go *)

Inductive ErrorCode :=
| ErrInvalidQuery
| ErrSessionNotFound
| ErrTurnNotFound
| ErrDataCorrupted
| ErrDataSystem.

Definition ErrorCode_string (c : ErrorCode) : string :=
  match c with
  | ErrInvalidQuery => "INVALID_QUERY"
  | ErrSessionNotFound => "SESSION_CONTEXT_NOT_FOUND"
  | ErrTurnNotFound => "TURN_NOT_FOUND"
  | ErrDataCorrupted => "SESSION_CONTEXT_DATA_CORRUPTED"
  | ErrDataSystem => "DATASYSTEM_UNAVAILABLE"
  end.

Record ServiceError := MkServiceError { Code : ErrorCode; Message : string }.

Global Instance ErrorCode_eq_dec : EqDecision ErrorCode.
Proof. solve_decision. Defined.
Global Instance ServiceError_eq_dec : EqDecision ServiceError.
Proof. solve_decision. Defined.

Definition dataCorrupted (message : string) : ServiceError :=
  MkServiceError ErrDataCorrupted message.

(** ** model.go *)

Record RegistryEntry := MkEntry {
  re_FunctionVersion : string; re_SessionContextID : string; re_CreatedAt : string;
  re_State : string; re_ForkedFrom : string; re_ForkTurnID : string;
}.
Record Registry := MkRegistry { rg_SchemaVersion : Z; SessionContexts : list RegistryEntry }.
Record ControlRecord := MkControl {
  c_SchemaVersion : Z; c_State : string; c_ForkedFrom : string; c_ForkTurnID : string;
}.
Record TurnRecord := MkTurnRecord {
  tr_SessionContextID : string; tr_TurnIndex : Z; tr_TurnID : string; tr_StartSeq : Z;
  tr_CreatedAt : string; tr_SchemaVersion : Z;
}.
Record Event := MkEvent {
  e_SessionContextID : string; e_TurnID : string; Seq : Z; EventID : string; Source : string;
  Type_ : string; Data : any; e_SchemaVersion : Z; e_CreatedAt : string;
}.
(** A nil [Result] or [Error] is [JNull]. *)
Record Turn := MkTurn {
  TurnID : string; TurnIndex : Z; State : string; Inputs : list any; Outputs : list any;
  Result : any; Error : any; StartSeq : Z; EndSeq : Z; CreatedAt : string;
}.
Record SessionList := MkSessionList {
  sl_FunctionURN : string; sl_SessionContexts : list RegistryEntry; sl_NextPageToken : option string;
}.
Record LastTurnSummary := MkLast { lt_TurnID : string; lt_TurnIndex : Z; lt_State : string }.
Record SessionDetail := MkDetail {
  sd_FunctionURN : string; sd_SessionContextID : string; TurnCount : Z; EventCount : Z;
  LastTurn : option LastTurnSummary; sd_State : string; sd_ForkedFrom : string; sd_ForkTurnID : string;
}.
Record TurnList := MkTurnList { Turns : list Turn; tl_NextPageToken : option string }.
Record EventList := MkEventList { Events : list Event; NextAfterSeq : Z }.
Record EventFilter := MkFilter {
  AfterSeq : Z; Limit : Z; f_TurnID : string; f_Source : string; f_EventType : string;
}.

(** Decoding of the records with their JSON names. *)
Definition decode_entry (kvs : list (string * any)) : option RegistryEntry :=
  MkEntry <$> string_field "functionVersion" kvs <*> string_field "sessionContextId" kvs
    <*> string_field "createdAt" kvs <*> string_field "state" kvs
    <*> string_field "forkedFrom" kvs <*> string_field "forkTurnId" kvs.
Definition zero_entry : RegistryEntry := MkEntry "" "" "" "" "" "".

(** A null element of a slice is the zero struct. *)
Definition decode_registry (kvs : list (string * any)) : option Registry :=
  MkRegistry <$> int_field "schemaVersion" kvs
    <*> field (to_slice (to_struct zero_entry decode_entry)) [] "sessionContexts" kvs.

Definition decode_control (kvs : list (string * any)) : option ControlRecord :=
  MkControl <$> int_field "schemaVersion" kvs <*> string_field "state" kvs
    <*> string_field "forkedFrom" kvs <*> string_field "forkTurnId" kvs.

Definition decode_turn (kvs : list (string * any)) : option TurnRecord :=
  MkTurnRecord <$> string_field "sessionContextId" kvs <*> int_field "turnIndex" kvs
    <*> string_field "turnId" kvs <*> int_field "startSeq" kvs
    <*> string_field "createdAt" kvs <*> int_field "schemaVersion" kvs.

Definition decode_event (kvs : list (string * any)) : option Event :=
  MkEvent <$> string_field "sessionContextId" kvs <*> string_field "turnId" kvs
    <*> int_field "seq" kvs <*> string_field "eventId" kvs <*> string_field "source" kvs
    <*> string_field "type" kvs <*> Some (any_field "data" kvs)
    <*> int_field "schemaVersion" kvs <*> string_field "createdAt" kvs.

Definition zero_registry := MkRegistry 0 [].
Definition zero_control := MkControl 0 "" "" "".
Definition zero_turn := MkTurnRecord "" 0 "" 0 "" 0.
Definition zero_event := MkEvent "" "" 0 "" "" "" JNull 0 "".

(** [decodeJSON] into a struct: one JSON value and nothing after it. *)
Definition decodeJSON {A} (zero : A) (decode : list (string * any) → option A) (raw : string) : option A :=
  match Unmarshal raw with Some v => to_struct zero decode v | None => None end.

(** ** key.go *)

Definition hashHexLength : nat := 32.

Record Scope := MkScope {
  TenantID : string; RegisteredName : string; RuntimeName : string; Version : string;
  FunctionURN : string;
}.

Definition RuntimeFunctionName (registeredName : string) : string :=
  match LastIndexByte registeredName "@" with
  | Some index => str_drop (index + 1) registeredName
  | None => registeredName
  end.

Definition NewScope (tenantID registeredName version functionURN : string) : Scope :=
  MkScope tenantID registeredName (RuntimeFunctionName registeredName) version functionURN.

(** The JSON array of the parts, without HTML escapes and the final newline. *)
Definition hashParts (parts : list string) : string :=
  str_take hashHexLength (sha256_hex ("[" +:+ Join (quote false <$> parts) "," +:+ "]")).

Definition RegistryKey (registeredName : string) : string := "ar:i:" +:+ hashParts [registeredName].

Definition sessionPrefix (scope : Scope) (sessionContextID : string) : string :=
  "ar:s:" +:+ hashParts [TenantID scope; RuntimeName scope; Version scope]
    +:+ ":" +:+ hashParts [sessionContextID].

Definition TurnKey (scope : Scope) (sessionContextID : string) (turnIndex : Z) : string :=
  sessionPrefix scope sessionContextID +:+ ":t" +:+ FormatInt turnIndex.

Definition EventKey (scope : Scope) (sessionContextID : string) (seq : Z) : string :=
  sessionPrefix scope sessionContextID +:+ ":e" +:+ FormatInt seq.

Definition ControlKey (scope : Scope) (sessionContextID : string) : string :=
  sessionPrefix scope sessionContextID +:+ ":c".

(** ** aggregate.go *)

Definition object_event (t : string) : bool :=
  bool_decide (t ∈ ["input.message"; "output.message"; "turn.input_required"; "turn.completed"; "turn.failed"]).

Definition set_state (turn : Turn) (state : string) (result error : any) : Turn :=
  MkTurn (TurnID turn) (TurnIndex turn) state (Inputs turn) (Outputs turn) result error
    (StartSeq turn) (EndSeq turn) (CreatedAt turn).

Definition add_messages (turn : Turn) (state : string) (ins outs : list any) : Turn :=
  MkTurn (TurnID turn) (TurnIndex turn) state (Inputs turn ++ ins) (Outputs turn ++ outs)
    (Result turn) (Error turn) (StartSeq turn) (EndSeq turn) (CreatedAt turn).

(** [data[k]] of a Go map: nil when the key is absent. *)
Definition member (data : list (string * any)) (k : string) : any := default JNull (map_get data k).

Definition applyEvent (turn : Turn) (event : Event) : res ServiceError Turn :=
  if negb (object_event (Type_ event)) then Ok turn else
  match Data event with
  | JObject data =>
      if bool_decide (Type_ event = "input.message") then
        Ok (add_messages turn "WORKING" (option_list (map_get data "message")) [])
      else if bool_decide (Type_ event = "output.message") then
        Ok (add_messages turn (State turn) [] (option_list (map_get data "message")))
      else if bool_decide (Type_ event = "turn.input_required") then
        Ok (set_state turn "INPUT_REQUIRED" (member data "output") JNull)
      else if bool_decide (Type_ event = "turn.completed") then
        Ok (set_state turn "COMPLETED" (member data "output") JNull)
      else if bool_decide (Type_ event = "turn.failed") then
        Ok (set_state turn "FAILED" JNull (member data "error"))
      else Ok turn
  | _ => Err (dataCorrupted ("Event e" +:+ FormatInt (Seq event) +:+ " data must be an object"))
  end.

(** The last sequence number of the turn: before the next turn, else the last event. *)
Definition turn_end (record : TurnRecord) (next : list TurnRecord) (all : list Event) : Z :=
  match next with
  | r :: _ => tr_StartSeq r - 1
  | [] => match last all with Some e => Seq e | None => tr_StartSeq record - 1 end
  end.

(** The first inner loop: events before the turn are passed over. *)
Fixpoint skip_events (start : Z) (events : list Event) : list Event :=
  match events with
  | e :: rest => if (Seq e <? start)%Z then skip_events start rest else events
  | [] => []
  end.

(** The second inner loop: the events of the turn are applied in order. *)
Fixpoint apply_events (record : TurnRecord) (endSeq : Z) (turn : Turn) (events : list Event)
    : res ServiceError (Turn * list Event) :=
  match events with
  | e :: rest =>
      if (Seq e <=? endSeq)%Z then
        if negb (bool_decide (e_TurnID e = tr_TurnID record)) then
          Err (dataCorrupted ("Event e" +:+ FormatInt (Seq e) +:+ " belongs to an unexpected Turn"))
        else
          (let* turn' := applyEvent turn e in apply_events record endSeq turn' rest)%go
      else Ok (turn, events)
  | [] => Ok (turn, [])
  end.

Definition new_turn (record : TurnRecord) (endSeq : Z) : Turn :=
  MkTurn (tr_TurnID record) (tr_TurnIndex record) "WORKING" [] [] JNull JNull
    (tr_StartSeq record) (Z.max (tr_StartSeq record - 1) endSeq) (tr_CreatedAt record).

(** The outer loop; [events] are those from [eventIndex] on, [all] the whole log. *)
Fixpoint aggregate_loop (all : list Event) (records : list TurnRecord) (events : list Event)
    : res ServiceError (list Turn * list Event) :=
  match records with
  | [] => Ok ([], events)
  | record :: next =>
      let endSeq := turn_end record next all in
      if (endSeq + 1 <? tr_StartSeq record)%Z then
        Err (dataCorrupted ("Turn " +:+ tr_TurnID record +:+ " has an invalid event range"))
      else
        (let* p := apply_events record endSeq (new_turn record endSeq)
                     (skip_events (tr_StartSeq record) events) in
         let* q := aggregate_loop all next p.2 in
         Ok (p.1 :: q.1, q.2))%go
  end.

Definition aggregateTurns (records : list TurnRecord) (events : list Event) : res ServiceError (list Turn) :=
  (let* p := aggregate_loop events records events in
   match p.2 with
   | [] => Ok p.1
   | _ => Err (dataCorrupted "EventLog contains events outside known Turns")
   end)%go.

(** ** store.go *)

(** An error of a [Reader]: a service error, or one [errors.As] does not match. *)
Inductive error :=
| Service (e : ServiceError)
| OtherError (msg : string).

Global Instance error_eq_dec : EqDecision error.
Proof. solve_decision. Defined.

(** [Get key tenantID traceID]; [Ok None] is a nil slice. *)
Definition Reader := string → string → string → res error (option string).

(** What the data system client answers. *)
Inductive kv_result :=
| KvValue (value : string)
| KvNotFound
| KvError (msg : string).

Definition DataSystemReader (KVGetWithRetry : string → string → string → kv_result) : Reader :=
  λ key tenantID traceID,
    match KVGetWithRetry key tenantID traceID with
    | KvNotFound => Ok None
    | KvError _ => Err (Service (MkServiceError ErrDataSystem "failed to read DataSystem"))
    | KvValue v => Ok (Some v)
    end.

(** A computation that may still be reading when its fuel ends. *)
Definition run (A : Type) : Type := option (res error A).
Definition run_bind {A B} (m : run A) (k : A → run B) : run B :=
  match m with
  | None => None
  | Some (Err e) => Some (Err e)
  | Some (Ok a) => k a
  end.
Notation "'let!' x := r 'in' k" := (run_bind r (fun x => k))
  (at level 10, x name, r at level 100, k at level 200) : go_scope.
Definition ret {A} (a : A) : run A := Some (Ok a).
Definition fail {A} (c : ErrorCode) (m : string) : run A := Some (Err (Service (MkServiceError c m))).
Definition lift {A} (r : res ServiceError A) : run A :=
  match r with Ok a => Some (Ok a) | Err e => Some (Err (Service e)) end.

Section service.
  Variable reader : Reader.
  Variable fuel : nat.

(** The loop of [readSequential] from [index] on. *)
Fixpoint read_from {T} (n : nat) (scope : Scope) (sessionContextID traceID : string)
    (key : Scope → string → Z → string) (decode : string → option T)
    (validate : T → Z → string → option ServiceError) (index : Z) : run (list T) :=
  match n with
  | O => None
  | S n =>
      match reader (key scope sessionContextID index) (TenantID scope) traceID with
      | Err e => Some (Err e)
      | Ok None => ret []
      | Ok (Some raw) =>
          match decode raw with
          | None => fail ErrDataCorrupted ("invalid record at index " +:+ FormatInt index)
          | Some value =>
              match validate value index sessionContextID with
              | Some e => Some (Err (Service e))
              | None =>
                  let! rest := read_from n scope sessionContextID traceID key decode validate (index + 1) in
                  ret (value :: rest)
              end
          end
      end
  end.

Definition readSequential {T} (scope : Scope) (sessionContextID traceID : string)
    (key : Scope → string → Z → string) (decode : string → option T)
    (validate : T → Z → string → option ServiceError) : run (list T) :=
  read_from fuel scope sessionContextID traceID key decode validate 1.

(** ** service.go *)

Definition schemaVersion : Z := 1.

Definition validateTurn (turn : TurnRecord) (index : Z) (sessionContextID : string) : option ServiceError :=
  if negb (tr_SchemaVersion turn =? schemaVersion)%Z || negb (tr_TurnIndex turn =? index)%Z
     || negb (bool_decide (tr_SessionContextID turn = sessionContextID))
     || bool_decide (tr_TurnID turn = "") || (tr_StartSeq turn <=? 0)%Z
     || bool_decide (tr_CreatedAt turn = "")
  then Some (dataCorrupted ("Turn t" +:+ FormatInt index +:+ " does not match its key or scope"))
  else None.

Definition validateEvent (event : Event) (seq : Z) (sessionContextID : string) : option ServiceError :=
  if negb (e_SchemaVersion event =? schemaVersion)%Z || negb (Seq event =? seq)%Z
     || negb (bool_decide (e_SessionContextID event = sessionContextID))
     || bool_decide (e_TurnID event = "") || bool_decide (EventID event = "")
     || bool_decide (Type_ event = "") || bool_decide (e_CreatedAt event = "")
     || (negb (bool_decide (Source event = "PLATFORM")) && negb (bool_decide (Source event = "SDK")))
  then Some (dataCorrupted ("Event e" +:+ FormatInt seq +:+ " does not match its key or scope"))
  else None.

Definition readHistory (scope : Scope) (sessionContextID traceID : string)
    : run (list TurnRecord * list Event) :=
  let! turns := readSequential scope sessionContextID traceID TurnKey
                  (decodeJSON zero_turn decode_turn) validateTurn in
  let! events := readSequential scope sessionContextID traceID EventKey
                   (decodeJSON zero_event decode_event) validateEvent in
  ret (turns, events).

Definition readControl (scope : Scope) (sessionContextID traceID : string) : run (option ControlRecord) :=
  match reader (ControlKey scope sessionContextID) (TenantID scope) traceID with
  | Err e => Some (Err e)
  | Ok None => ret None
  | Ok (Some raw) =>
      match decodeJSON zero_control decode_control raw with
      | None => fail ErrDataCorrupted "invalid SessionContext control record"
      | Some control =>
          if negb (c_SchemaVersion control =? schemaVersion)%Z
          then fail ErrDataCorrupted "unsupported SessionContext control schemaVersion"
          else ret (Some control)
      end
  end.

(** The read of the registry that [loadRegistryEntries] and
    [isRegisteredSession] both start with. *)
Definition read_registry (scope : Scope) (traceID : string) : run (list RegistryEntry) :=
  match reader (RegistryKey (RegisteredName scope)) (TenantID scope) traceID with
  | Err e => Some (Err e)
  | Ok None => ret []
  | Ok (Some raw) =>
      match decodeJSON zero_registry decode_registry raw with
      | None => fail ErrDataCorrupted "invalid session context registry"
      | Some registry =>
          if negb (rg_SchemaVersion registry =? schemaVersion)%Z
          then fail ErrDataCorrupted "unsupported session context registry schemaVersion"
          else ret (SessionContexts registry)
      end
  end.

Definition with_control (entry : RegistryEntry) (control : option ControlRecord) : RegistryEntry :=
  match control with
  | None => entry
  | Some c => MkEntry (re_FunctionVersion entry) (re_SessionContextID entry) (re_CreatedAt entry)
                (c_State c) (c_ForkedFrom c) (c_ForkTurnID c)
  end.

Fixpoint load_entries (scope : Scope) (traceID : string) (l : list RegistryEntry)
    : run (list RegistryEntry) :=
  match l with
  | [] => ret []
  | entry :: rest =>
      if negb (bool_decide (re_FunctionVersion entry = Version scope))
      then load_entries scope traceID rest
      else
        let! control := readControl scope (re_SessionContextID entry) traceID in
        let! entries := load_entries scope traceID rest in
        ret (with_control entry control :: entries)
  end.

Definition loadRegistryEntries (scope : Scope) (traceID : string) : run (list RegistryEntry) :=
  let! l := read_registry scope traceID in load_entries scope traceID l.

Definition isRegisteredSession (scope : Scope) (sessionContextID traceID : string) : run bool :=
  let! l := read_registry scope traceID in
  ret (existsb (λ entry, bool_decide (re_FunctionVersion entry = Version scope)
                         && bool_decide (re_SessionContextID entry = sessionContextID)) l).

(** *** Page tokens *)

Record pageTokenValue := MkToken { pt_Scope : string; Offset : Z }.

Definition nul : string := String (ascii_of_N 0) "".

Definition pageScope (scope : Scope) (resource sessionContextID : string) : string :=
  FunctionURN scope +:+ nul +:+ resource +:+ nul +:+ Version scope +:+ nul +:+ sessionContextID.

(** [json.Marshal] of the token, which cannot fail. *)
Definition marshal_token (v : pageTokenValue) : string :=
  "{" +:+ quote true "scope" +:+ ":" +:+ quote true (pt_Scope v) +:+ ","
    +:+ quote true "offset" +:+ ":" +:+ FormatInt (Offset v) +:+ "}".

Definition encodePageToken (scope : string) (offset : Z) : string :=
  b64_encode (marshal_token (MkToken scope offset)).

Definition decode_token (kvs : list (string * any)) : option pageTokenValue :=
  MkToken <$> string_field "scope" kvs <*> int_field "offset" kvs.

Definition decodePageToken (token scope : string) (size : Z) : res ServiceError Z :=
  if bool_decide (token = "") then Ok 0%Z else
  match b64_decode token with
  | None => Err (MkServiceError ErrInvalidQuery "invalid pageToken")
  | Some raw =>
      match decodeJSON (MkToken "" 0) decode_token raw with
      | Some value =>
          if negb (bool_decide (pt_Scope value = scope)) || (Offset value <? 0)%Z
             || (size <? Offset value)%Z
          then Err (MkServiceError ErrInvalidQuery "pageToken does not match query scope")
          else Ok (Offset value)
      | None => Err (MkServiceError ErrInvalidQuery "pageToken does not match query scope")
      end
  end.

(** The page of a list from the token on: [l[offset:end]] and the next token.
    A slice with [end] below [offset] panics; the handlers only pass a limit
    of at least one, and then [end] is never below. *)
Definition page {A} (l : list A) (tokenScope : string) (limit : Z) (pageToken : string)
    : res ServiceError (list A * option string) :=
  let size := Z.of_nat (length l) in
  let* offset := decodePageToken pageToken tokenScope size in
  let end_ := Z.min (offset + limit) size in
  let next := if (end_ <? size)%Z then Some (encodePageToken tokenScope end_) else None in
  Ok (take (Z.to_nat (end_ - offset)) (drop (Z.to_nat offset) l), next).

(** *** Queries *)

(** The order [sort.Slice] establishes: newest first, then by ID; strings
    compare bytewise. Entries that agree on both fields may come in any order. *)
Definition entry_le (x y : RegistryEntry) : Prop :=
  if bool_decide (re_CreatedAt x = re_CreatedAt y)
  then String.le (re_SessionContextID x) (re_SessionContextID y)
  else String.le (re_CreatedAt y) (re_CreatedAt x).
Global Instance entry_le_dec x y : Decision (entry_le x y).
Proof. unfold entry_le. destruct (bool_decide _); apply _. Defined.

Definition ListSessions (scope : Scope) (limit : Z) (pageToken traceID : string) : run SessionList :=
  let! entries := loadRegistryEntries scope traceID in
  let! p := lift (page (merge_sort entry_le entries) (pageScope scope "sessions" "") limit pageToken) in
  ret (MkSessionList (FunctionURN scope) p.1 p.2).

Definition GetSession (scope : Scope) (sessionContextID traceID : string) : run SessionDetail :=
  let! h := readHistory scope sessionContextID traceID in
  let! control := readControl scope sessionContextID traceID in
  let! _ :=
    (if bool_decide (length h.1 = 0) && bool_decide (length h.2 = 0) then
       let! registered := isRegisteredSession scope sessionContextID traceID in
       if negb registered && bool_decide (control = None)
       then fail ErrSessionNotFound "session context not found" else ret ()
     else ret ()) in
  let! aggregated := lift (aggregateTurns h.1 h.2) in
  let last_ := (λ v, MkLast (TurnID v) (TurnIndex v) (State v)) <$> last aggregated in
  let c := default (MkControl 0 "" "" "") control in
  ret (MkDetail (FunctionURN scope) sessionContextID (Z.of_nat (length h.1)) (Z.of_nat (length h.2))
         last_ (c_State c) (c_ForkedFrom c) (c_ForkTurnID c)).

(** The swap loop: [left] and [right] meet in the middle. *)
Fixpoint reverse_loop (n : nat) (left right : nat) (l : list Turn) : list Turn :=
  match n with
  | O => l
  | S n =>
      if (left <? right)%nat then
        match l !! left, l !! right with
        | Some a, Some b => reverse_loop n (S left) (pred right) (<[right := a]> (<[left := b]> l))
        | _, _ => l
        end
      else l
  end.
Definition reverseTurns (turns : list Turn) : list Turn :=
  reverse_loop (length turns) 0 (pred (length turns)) turns.

Definition ListTurns (scope : Scope) (sessionContextID : string) (limit : Z) (pageToken traceID : string)
    : run TurnList :=
  let! h := readHistory scope sessionContextID traceID in
  if bool_decide (length h.1 = 0) && bool_decide (length h.2 = 0)
  then fail ErrSessionNotFound "session context not found"
  else
    let! aggregated := lift (aggregateTurns h.1 h.2) in
    let! p := lift (page (reverseTurns aggregated) (pageScope scope "turns" sessionContextID)
                      limit pageToken) in
    ret (MkTurnList p.1 p.2).

Definition GetTurn (scope : Scope) (sessionContextID turnID traceID : string) : run Turn :=
  let! h := readHistory scope sessionContextID traceID in
  let! aggregated := lift (aggregateTurns h.1 h.2) in
  match find (λ turn, bool_decide (TurnID turn = turnID)) aggregated with
  | Some turn => ret turn
  | None => fail ErrTurnNotFound "turn not found"
  end.

Definition matches (filter : EventFilter) (event : Event) : bool :=
  (bool_decide (f_TurnID filter = "") || bool_decide (e_TurnID event = f_TurnID filter))
  && (bool_decide (f_Source filter = "") || bool_decide (Source event = f_Source filter))
  && (bool_decide (f_EventType filter = "") || bool_decide (Type_ event = f_EventType filter)).

(** The loop of [ListEvents]: the events found so far and [nextAfterSeq]. *)
Fixpoint list_events_from (n : nat) (scope : Scope) (sessionContextID : string) (filter : EventFilter)
    (traceID : string) (seq : Z) (result : list Event) (nextAfterSeq : Z) : run (list Event * Z) :=
  match n with
  | O => None
  | S n =>
      match reader (EventKey scope sessionContextID seq) (TenantID scope) traceID with
      | Err e => Some (Err e)
      | Ok None => ret (result, nextAfterSeq)
      | Ok (Some raw) =>
          match decodeJSON zero_event decode_event raw with
          | None => fail ErrDataCorrupted ("invalid Event e" +:+ FormatInt seq)
          | Some event =>
              match validateEvent event seq sessionContextID with
              | Some e => Some (Err (Service e))
              | None =>
                  if matches filter event then
                    let result' := (result ++ [event])%list in
                    if (Z.of_nat (length result') =? Limit filter)%Z then ret (result', seq)
                    else list_events_from n scope sessionContextID filter traceID
                           (wrapS 64 (seq + 1)) result' seq
                  else list_events_from n scope sessionContextID filter traceID
                         (wrapS 64 (seq + 1)) result seq
              end
          end
      end
  end.

Definition ListEvents (scope : Scope) (sessionContextID : string) (filter : EventFilter) (traceID : string)
    : run EventList :=
  if (AfterSeq filter <? 0)%Z || (Limit filter <=? 0)%Z then fail ErrInvalidQuery "invalid event query"
  else
    let! p := list_events_from fuel scope sessionContextID filter traceID
                (wrapS 64 (AfterSeq filter + 1)) [] (AfterSeq filter) in
    if bool_decide (p.2 = AfterSeq filter) && bool_decide (AfterSeq filter = 0%Z) then
      match reader (TurnKey scope sessionContextID 1) (TenantID scope) traceID with
      | Err e => Some (Err e)
      | Ok None => fail ErrSessionNotFound "session context not found"
      | Ok (Some _) => ret (MkEventList p.1 p.2)
      end
    else ret (MkEventList p.1 p.2).
End service.
