(* ===== verification/SessionContextApi.v ===== *)
(** * Session context handlers (pkg/frontend/api/v1/session_context.go) and the
    client that posts lifecycle requests (sessioncontext/client.go)

    A handler maps a request to a status and a body. The gin binding of a JSON
    body, the function metadata and the network are parameters; the scheduler
    registry is the one of file SchedulerProxy. [None] as the result of a
    handler only means that the fuel of a sequential read ended. *)

From S2P Require Import Prelude GoStrings Hashing Json Urn SchedulerProxy SessionContext.
Open Scope string_scope.
Open Scope go_scope.

(** ** client.go *)

Record ErrorResponse := MkErrorResponse { er_Code : string; er_Message : string }.
Definition decode_error_response (kvs : list (string * any)) : option ErrorResponse :=
  MkErrorResponse <$> string_field "code" kvs <*> string_field "message" kvs.

Inductive client_error :=
| ErrScheduler (e : proxy_error)
| ErrOwnerUnavailable
| ErrCall (msg : string)
| ErrNoRedirectTarget (name : string)
| ErrRedirectsExhausted.

Definition StatusConflict : Z := 409.
Definition StatusServiceUnavailable : Z := 503.

(** Status, body and error of a call, all three of which Go returns. *)
Definition post_result : Type := Z * string * option client_error.

(** The fields of the JSON object that is sent. *)
Definition payload : Type := list (string * string).

Section manager_client.
  (** One HTTP exchange with an address: status, body, transport error. *)
  Variable Do : string → string → payload → Z * string * option string.

Definition post (owner : option SchedulerNodeInfo) (path : string) (body : payload) : post_result :=
  match owner with
  | None => (0%Z, "", Some ErrOwnerUnavailable)
  | Some node =>
      if bool_decide (Address (n_info node) = "") then (0%Z, "", Some ErrOwnerUnavailable)
      else let '(status, responseBody, err) := Do (Address (n_info node)) path body in
           (status, responseBody, ErrCall <$> err)
  end.

(** The body asks to go to another scheduler, which it names. *)
Definition redirect_target (responseBody : string) : option string :=
  match decodeJSON (MkErrorResponse "" "") decode_error_response responseBody with
  | Some response =>
      if bool_decide (er_Code response = "NOT_FUNCTION_OWNER") then Some (er_Message response) else None
  | None => None
  end.

Fixpoint post_attempts (attempts : nat) (im : ProxyManager) (owner : option SchedulerNodeInfo)
    (path : string) (body : payload) : post_result :=
  match attempts with
  | O => (StatusServiceUnavailable, "", Some ErrRedirectsExhausted)
  | S n =>
      let '(status, responseBody, callErr) := post owner path body in
      match callErr with
      | Some e => (status, responseBody, Some e)
      | None =>
          if negb (status =? StatusConflict)%Z then (status, responseBody, None) else
          match redirect_target responseBody with
          | None => (status, responseBody, None)
          | Some name =>
              match GetByInstanceID im name with
              | None => (status, responseBody, Some (ErrNoRedirectTarget name))
              | Some node => post_attempts n im (Some node) path body
              end
          end
      end
  end.

Definition Post (im : ProxyManager) (funcKey path : string) (body : payload) : post_result :=
  match Get im funcKey with
  | Err e => (0%Z, "", Some (ErrScheduler e))
  | Ok node => post_attempts 3 im (Some node) path body
  end.

(** ** session_context.go *)

Definition defaultPageLimit : Z := 50.
Definition maxPageLimit : Z := 200.
Definition defaultEventLimit : Z := 100.
Definition maxEventLimit : Z := 1000.
Definition maxSessionContextID : nat := 63.

Record request := MkRequest {
  Param : string → string; Query : string → string; GetHeader : string → string;
}.

(** What a handler writes. *)
Inductive payload_out :=
| BSessions (l : SessionList)
| BDetail (d : SessionDetail)
| BTurns (l : TurnList)
| BTurn (t : Turn)
| BEvents (l : EventList)
| BError (code message : string)
| BValue (v : any)
| BNone.

Definition response : Type := Z * payload_out.

Record forkSessionContextBody := MkForkBody {
  TargetSessionCtxID : string; TargetSessionContextID : string; fb_TurnID : string;
}.

(** The configuration and the caller: whether tokens are checked, and the
    tenant of the validated token. *)
Record auth := MkAuth { authEnabled : bool; authenticatedTenant : option string }.

Definition writeSessionContextError (status : Z) (code message : string) : response :=
  (status, BError code (TrimSpace message)).

Definition requestTraceID (ctx : request) : string :=
  let a := GetHeader ctx "X-Trace-ID" in
  if bool_decide (a ≠ "") then a else GetHeader ctx "X-Request-ID".

Definition status_of (c : ErrorCode) : Z :=
  match c with
  | ErrInvalidQuery => 400
  | ErrSessionNotFound | ErrTurnNotFound => 404
  | ErrDataSystem => 503
  | ErrDataCorrupted => 500
  end.

Definition writeSessionContextResult {A} (wrap : A → payload_out) (r : run A) : option response :=
  match r with
  | None => None
  | Some (Ok a) => Some (200%Z, wrap a)
  | Some (Err (OtherError _)) => Some (writeSessionContextError 500 "INTERNAL_ERROR" "internal error")
  | Some (Err (Service e)) =>
      Some (writeSessionContextError (status_of (Code e)) (ErrorCode_string (Code e)) (Message e))
  end.

Definition queryInt (ctx : request) (name : string) (defaultValue maximum : Z) (allowZero : bool)
    : res response Z :=
  let raw := Query ctx name in
  if bool_decide (raw = "") then Ok defaultValue else
  let minimum := if allowZero then 0%Z else 1%Z in
  let bad := Err (writeSessionContextError 400 "INVALID_QUERY" (name +:+ " is out of range")) in
  match Atoi raw with
  | None => bad
  | Some value => if (value <? minimum)%Z || (maximum <? value)%Z then bad else Ok value
  end.

Section handlers.
  Variable reader : Reader.
  Variable fuel : nat.
  (** [LoadFuncSpec]: whether the function's metadata enables session
      contexts; [None] when there is none. *)
  Variable loadFuncSpec : string → option bool.
  Variable au : auth.

Definition sessionContextScope (ctx : request) : res response Scope :=
  match GetFunctionInfo (Param ctx "function-urn") with
  | Err _ => Err (writeSessionContextError 400 "INVALID_QUERY" "invalid function URN")
  | Ok p =>
      let version := if bool_decide (FuncVersion p = "") then DefaultURNVersion else FuncVersion p in
      let functionURN := MkURN (ProductID p) (RegionID p) (BusinessID p) (Urn.TenantID p)
                           (TypeSign p) (FuncName p) version in
      let* _ :=
        (if authEnabled au then
           match authenticatedTenant au with
           | None => Err (writeSessionContextError 401 "UNAUTHORIZED" "authenticated tenant is required")
           | Some tenantID =>
               if negb (bool_decide (tenantID = Urn.TenantID functionURN))
               then Err (writeSessionContextError 403 "FUNCTION_TENANT_MISMATCH"
                           "function tenant does not match authenticated tenant")
               else Ok ()
           end
         else Ok ()) in
      let funcKey := CombineFunctionKey (Urn.TenantID functionURN) (FuncName functionURN) version in
      match loadFuncSpec funcKey with
      | None => Err (writeSessionContextError 404 "FUNCTION_NOT_FOUND" "function not found")
      | Some enabled =>
          if negb enabled
          then Err (writeSessionContextError 400 "SESSION_CONTEXT_NOT_ENABLED"
                      "function does not enable SessionContext")
          else Ok (NewScope (Urn.TenantID functionURN) (FuncName functionURN) version
                     (URN_String functionURN))
      end
  end.

Definition sessionContextResourceScope (ctx : request) : res response (Scope * string) :=
  let* scope := sessionContextScope ctx in
  let sessionID := Param ctx "sessionCtxId" in
  if bool_decide (String.length sessionID = 0%nat) || (maxSessionContextID <? String.length sessionID)%nat
  then Err (writeSessionContextError 400 "INVALID_SESSION_CONTEXT"
              "sessionContextId length must be between 1 and 63")
  else Ok (scope, sessionID).

(** An early return, or the rest of the handler. *)
Definition guard {A} (r : res response A) (k : A → option response) : option response :=
  match r with Err resp => Some resp | Ok a => k a end.

Definition ListSessionContextsHandler (ctx : request) : option response :=
  guard (sessionContextScope ctx) (λ scope,
  guard (queryInt ctx "limit" defaultPageLimit maxPageLimit false) (λ limit,
  writeSessionContextResult BSessions
    (ListSessions reader scope limit (Query ctx "pageToken") (requestTraceID ctx)))).

Definition GetSessionContextHandler (ctx : request) : option response :=
  guard (sessionContextResourceScope ctx) (λ p,
  writeSessionContextResult BDetail (GetSession reader fuel p.1 p.2 (requestTraceID ctx))).

Definition ListSessionContextTurnsHandler (ctx : request) : option response :=
  guard (sessionContextResourceScope ctx) (λ p,
  guard (queryInt ctx "limit" defaultPageLimit maxPageLimit false) (λ limit,
  writeSessionContextResult BTurns
    (ListTurns reader fuel p.1 p.2 limit (Query ctx "pageToken") (requestTraceID ctx)))).

Definition GetSessionContextTurnHandler (ctx : request) : option response :=
  guard (sessionContextResourceScope ctx) (λ p,
  let turnID := Param ctx "turnId" in
  if bool_decide (turnID = "")
  then Some (writeSessionContextError 400 "INVALID_QUERY" "turnId is required")
  else writeSessionContextResult BTurn (GetTurn reader fuel p.1 p.2 turnID (requestTraceID ctx))).

Definition maxInt : Z := 2 ^ 63 - 1.

Definition ListSessionContextEventsHandler (ctx : request) : option response :=
  guard (sessionContextResourceScope ctx) (λ p,
  guard (queryInt ctx "afterSeq" 0 maxInt true) (λ afterSeq,
  guard (queryInt ctx "limit" defaultEventLimit maxEventLimit false) (λ limit,
  let source := Query ctx "source" in
  if bool_decide (source ≠ "") && bool_decide (source ≠ "PLATFORM") && bool_decide (source ≠ "SDK")
  then Some (writeSessionContextError 400 "INVALID_QUERY" "source must be PLATFORM or SDK")
  else writeSessionContextResult BEvents
    (ListEvents reader fuel p.1 p.2
       (MkFilter afterSeq limit (Query ctx "turnId") source (Query ctx "eventType"))
       (requestTraceID ctx))))).

(** [err.Error()]. *)
Definition client_error_text (e : client_error) : string :=
  match e with
  | ErrScheduler ErrAllSchedulerUnavailable => "all scheduler unavailable"
  | ErrScheduler (ErrNoSchedulerNamed name) => "failed to get the faas scheduler named " +:+ name
  | ErrOwnerUnavailable => "function owner scheduler is unavailable"
  | ErrCall msg => msg
  | ErrNoRedirectTarget name => "redirected scheduler " +:+ name +:+ " not found"
  | ErrRedirectsExhausted => "scheduler owner redirects exhausted"
  end.

Definition StatusNoContent : Z := 204.

Definition writeManagerResponse (r : post_result) : response :=
  let '(status, body, err) := r in
  match err with
  | Some e => writeSessionContextError 503 "SCHEDULER_UNAVAILABLE" (client_error_text e)
  | None =>
      if (status =? StatusNoContent)%Z then (status, BNone)
      else if (200 <=? status)%Z && (status <? 300)%Z then
        if bool_decide (body = "") then (status, BNone)
        else match Unmarshal body with Some v => (status, BValue v) | None => (status, BNone) end
      else
        match decodeJSON (MkErrorResponse "" "") decode_error_response body with
        | Some r =>
            if bool_decide (er_Code r = "")
            then writeSessionContextError 502 "SCHEDULER_ERROR" "invalid scheduler response"
            else (status, BError (er_Code r) (er_Message r))
        | None => writeSessionContextError 502 "SCHEDULER_ERROR" "invalid scheduler response"
        end
  end.

(** [body] is what [ShouldBindJSON] makes of the request's body. *)
Definition ForkSessionContextHandler (im : ProxyManager) (body : option forkSessionContextBody)
    (ctx : request) : option response :=
  guard (sessionContextResourceScope ctx) (λ p,
  let '(scope, sourceID) := p in
  match body with
  | None => Some (writeSessionContextError 400 "INVALID_REQUEST" "invalid fork request")
  | Some b =>
      let targetID := if bool_decide (TargetSessionCtxID b = "") then TargetSessionContextID b
                      else TargetSessionCtxID b in
      if bool_decide (String.length targetID = 0%nat) || (maxSessionContextID <? String.length targetID)%nat
         || bool_decide (fb_TurnID b = "") || bool_decide (targetID = sourceID)
      then Some (writeSessionContextError 400 "INVALID_REQUEST"
             "targetSessionContextId and turnId are required, and target must differ from source")
      else
        let funcKey := CombineFunctionKey (TenantID scope) (RegisteredName scope) (Version scope) in
        Some (writeManagerResponse (Post im funcKey "/sessioncontext/fork"
          [("tenantId", TenantID scope); ("funcKey", funcKey); ("functionUrn", FunctionURN scope);
           ("sourceSessionCtxId", sourceID); ("targetSessionCtxId", targetID);
           ("turnId", fb_TurnID b); ("traceId", requestTraceID ctx)]))
  end).

Definition DeleteSessionContextHandler (im : ProxyManager) (ctx : request) : option response :=
  guard (sessionContextResourceScope ctx) (λ p,
  let '(scope, sessionID) := p in
  let funcKey := CombineFunctionKey (TenantID scope) (RegisteredName scope) (Version scope) in
  Some (writeManagerResponse (Post im funcKey "/sessioncontext/delete"
    [("tenantId", TenantID scope); ("funcKey", funcKey); ("functionUrn", FunctionURN scope);
     ("sessionCtxId", sessionID); ("traceId", requestTraceID ctx)]))).
End handlers.
End manager_client.
