(* ===== verification/SessionContextFacts.v ===== *)
(** * Facts about session contexts: page tokens and paging, the aggregation of
    a history, the event cursor, termination over a finite store, and the
    separation of tenants by the handlers. *)

From S2P Require Import Prelude GoStrings Hashing Json Urn SchedulerProxy SessionContext SessionContextApi.
Open Scope string_scope.
Open Scope go_scope.

(** ** Page tokens *)

Lemma app_str_cons_l (c : ascii) (s : string) : String c "" +:+ s = String c s.
Proof. done. Qed.

(** The JSON text of a token decodes to the token. *)
Lemma decode_marshal_token scope offset :
  valid_utf8 0 scope = true → (0 ≤ offset < 2 ^ 63)%Z →
  decodeJSON (MkToken "" 0) decode_token (marshal_token (MkToken scope offset)) =
  Some (MkToken scope offset).
Proof.
  intros Hs Ho. unfold decodeJSON, Unmarshal, marshal_token. cbn [pt_Scope Offset].
  assert (FormatInt offset = FormatUint offset) as ->.
  { unfold FormatInt. destruct (offset <? 0)%Z eqn:E; [|done]. breflect; lia. }
  set (m := quote true "scope" +:+ _). set (raw := "{" +:+ m).
  assert (∃ f, value_fuel raw = S (S (S (S f)))) as [f ->].
  { unfold value_fuel, raw. rewrite app_str_cons_l. cbn [String.length].
    exists (2 * String.length m)%nat. lia. }
  cbn [read_value]. unfold raw. rewrite app_str_cons_l.
  change (skip_ws (String "{" m)) with (String "{" m). cbv iota zeta.
  change (byte_eq 123 "{") with true. cbv iota.
  assert (skip_ws m = m) as Hws by (unfold m; by rewrite quote_app).
  assert (∃ c r, m = String c r ∧ byte_eq 125 c = false) as (c & r & Hm & Hc)
    by (unfold m; rewrite quote_app; eauto).
  rewrite Hws, Hm, Hc, <- Hm. unfold m.
  rewrite (read_members_step _ _ _ _ _ _ (JString scope)) by (done || by apply read_value_quote).
  rewrite app_str_cons_l. change (skip_ws (String "," ?x)) with (String "," x). cbv iota.
  set (y := quote true "offset" +:+ _).
  change (byte_eq 44 ",") with true. cbv iota. unfold y.
  rewrite (read_members_step _ _ _ _ _ "}" (JNumber (FormatUint offset)))
    by (done || (apply read_value_nat; [lia|done])).
  change (skip_ws "}") with "}". cbv iota. change (byte_eq 44 "}") with false.
  change (byte_eq 125 "}") with true. cbv iota. cbn [is_empty skip_ws to_struct app]. unfold decode_token.
  assert (∀ v, int_field "offset" [("scope", JString scope); ("offset", JNumber v)] = Atoi v) as ->
    by (intros v; cbv [int_field field foldl]; done).
  by rewrite Atoi_FormatUint by lia.
Qed.

Lemma encodePageToken_nonempty scope offset : encodePageToken scope offset ≠ "".
Proof.
  unfold encodePageToken. intros H%b64_encode_empty. unfold marshal_token in H.
  rewrite app_str_cons_l in H. done.
Qed.

(** Page tokens round trip: what [encodePageToken] issues for an offset within a
    list is accepted for the same scope and decoded to that offset, through
    the JSON text and the base64 alphabet; for another scope, or for a list
    that has become shorter, it is refused as an invalid query. *)
Theorem page_token_roundtrip scope scope' offset size :
  valid_utf8 0 scope = true → (0 ≤ offset < 2 ^ 63)%Z →
  decodePageToken (encodePageToken scope offset) scope' size =
  if bool_decide (scope = scope') && (offset <=? size)%Z then Ok offset
  else Err (MkServiceError ErrInvalidQuery "pageToken does not match query scope").
Proof.
  intros Hs Ho. unfold decodePageToken. rewrite bool_decide_false by apply encodePageToken_nonempty.
  unfold encodePageToken. rewrite b64_decode_encode, decode_marshal_token by done. cbn [pt_Scope Offset].
  assert (offset <? 0 = false)%Z as -> by lia. rewrite Z.leb_antisym.
  by destruct (bool_decide (scope = scope')), (size <? offset)%Z.
Qed.

(** The scope of a token determines the function, the version, the kind of list
    and the session. *)
Lemma pageScope_inj s s' res_ res_' id id' :
  Forall (λ x, has_byte "000" x = false)
    [FunctionURN s; FunctionURN s'; res_; res_'; Version s; Version s'; id; id'] →
  pageScope s res_ id = pageScope s' res_' id' →
  FunctionURN s = FunctionURN s' ∧ res_ = res_' ∧ Version s = Version s' ∧ id = id'.
Proof.
  intros Hf E. rewrite !Forall_cons in Hf. destruct Hf as (H1 & H2 & H3 & H4 & H5 & H6 & H7 & H8 & _).
  assert (∀ a b c d, has_byte "000" a = false → has_byte "000" b = false → has_byte "000" c = false →
    has_byte "000" d = false → Split (a +:+ nul +:+ b +:+ nul +:+ c +:+ nul +:+ d) nul = [a; b; c; d]) as Hsplit.
  { intros a b c d Ha Hb Hc Hd. apply (Split_Join "000" [a; b; c; d]); [done|]. by repeat constructor. }
  apply (f_equal (λ x, Split x nul)) in E. unfold pageScope in E. cbv beta in E.
  rewrite !Hsplit in E by done. by injection E.
Qed.

(** ** Paging *)

(** A client that asks for the next page until there is none. *)
Fixpoint follow {A} (get : string → option (list A * option string)) (n : nat) (token : string)
    : option (list A) :=
  match n with
  | O => None
  | S n =>
      match get token with
      | None => None
      | Some (xs, None) => Some xs
      | Some (xs, Some t) => app xs <$> follow get n t
      end
  end.

Section paging.
  Context {A : Type} (l : list A) (sc : string) (limit : Z).
  Hypothesis Hsc : valid_utf8 0 sc = true.
  Hypothesis Hlimit : (0 < limit)%Z.
  Hypothesis Hlen : (Z.of_nat (length l) < 2 ^ 63)%Z.

(** The token of a page that starts at [offset]. *)
Definition token_at (offset : Z) (token : string) : Prop :=
  (0 ≤ offset ≤ Z.of_nat (length l))%Z ∧
  decodePageToken token sc (Z.of_nat (length l)) = Ok offset.

Lemma token_at_next offset :
  (0 ≤ offset ≤ Z.of_nat (length l))%Z → token_at offset (encodePageToken sc offset).
Proof.
  intros Ho. split; [done|]. unfold decodePageToken.
  rewrite bool_decide_false by apply encodePageToken_nonempty.
  unfold encodePageToken. rewrite b64_decode_encode, decode_marshal_token by (done || lia). cbn.
  rewrite bool_decide_true by done. cbn.
  by replace (offset <? 0)%Z with false by lia; replace (Z.of_nat (length l) <? offset)%Z with false by lia.
Qed.

Lemma page_at offset token :
  token_at offset token →
  page l sc limit token =
  Ok (take (Z.to_nat limit) (drop (Z.to_nat offset) l),
      if (offset + limit <? Z.of_nat (length l))%Z
      then Some (encodePageToken sc (offset + limit)) else None).
Proof.
  intros [Ho Ht]. unfold page. rewrite Ht. cbn [res_bind].
  destruct (offset + limit <? Z.of_nat (length l))%Z eqn:E; breflect.
  - rewrite Z.min_l by lia. replace (offset + limit <? Z.of_nat (length l))%Z with true by lia.
    by replace (Z.to_nat (offset + limit - offset)) with (Z.to_nat limit) by lia.
  - rewrite Z.min_r by lia. rewrite Z.ltb_irrefl.
    by rewrite !take_ge by (rewrite length_drop; lia).
Qed.

Lemma follow_pages n offset token (get : string → option (list A * option string)) :
  (∀ t, get t = match page l sc limit t with Ok p => Some p | Err _ => None end) →
  token_at offset token → (Z.of_nat (length l) - offset < Z.of_nat n)%Z →
  follow get n token = Some (drop (Z.to_nat offset) l).
Proof.
  intros Hget. revert offset token. induction n as [|n IH]; intros offset token Ht Hn.
  { destruct Ht; lia. }
  cbn [follow]. rewrite Hget, (page_at offset) by done.
  destruct (offset + limit <? Z.of_nat (length l))%Z eqn:E; breflect.
  - rewrite (IH (offset + limit)%Z); [|apply token_at_next; destruct Ht; lia|lia].
    cbn. f_equal. destruct Ht as [Ho _]. rewrite Z2Nat.inj_add by lia.
    rewrite <- drop_drop. by rewrite take_drop.
  - f_equal. apply take_ge. rewrite length_drop. lia.
Qed.
End paging.

Lemma entry_le_total x y : entry_le x y ∨ entry_le y x.
Proof.
  unfold entry_le. destruct (decide (re_CreatedAt x = re_CreatedAt y)) as [E|E].
  - rewrite !bool_decide_true by done. apply (total String.le).
  - rewrite !bool_decide_false by congruence. destruct (total String.le (re_CreatedAt x) (re_CreatedAt y)); auto.
Qed.

Lemma entry_le_trans x y z : entry_le x y → entry_le y z → entry_le x z.
Proof.
  unfold entry_le. intros Hxy Hyz.
  destruct (decide (re_CreatedAt x = re_CreatedAt y)) as [E1|E1];
    destruct (decide (re_CreatedAt y = re_CreatedAt z)) as [E2|E2];
    rewrite ?(bool_decide_true (re_CreatedAt x = re_CreatedAt y)), ?(bool_decide_false (re_CreatedAt x = re_CreatedAt y)) in Hxy by done;
    rewrite ?(bool_decide_true (re_CreatedAt y = re_CreatedAt z)), ?(bool_decide_false (re_CreatedAt y = re_CreatedAt z)) in Hyz by done.
  - rewrite bool_decide_true by congruence. by etransitivity.
  - rewrite bool_decide_false by congruence. congruence.
  - rewrite bool_decide_false by congruence. congruence.
  - rewrite bool_decide_false; [by etransitivity|]. intros E. destruct E1.
    apply (anti_symm String.le); congruence.
Qed.

(** What a client sees of [ListSessions] with the tokens it returns. *)
Definition list_sessions_page (reader : Reader) (scope : Scope) (limit : Z) (traceID token : string)
    : option (list RegistryEntry * option string) :=
  match ListSessions reader scope limit token traceID with
  | Some (Ok l) => Some (sl_SessionContexts l, sl_NextPageToken l)
  | _ => None
  end.

(** Paging reaches every session: as long as the data does not change, a client
    that follows [NextPageToken] from the first page comes to a last page
    after at most one request more than there are sessions, and the pages
    together are exactly the sessions of the version, each once, newest first. *)
Theorem sessions_eventually_listed reader scope limit traceID entries :
  loadRegistryEntries reader scope traceID = Some (Ok entries) →
  valid_utf8 0 (pageScope scope "sessions" "") = true →
  (0 < limit)%Z → (Z.of_nat (length entries) < 2 ^ 63)%Z →
  ∃ l, follow (list_sessions_page reader scope limit traceID) (S (length entries)) "" = Some l
       ∧ l ≡ₚ entries ∧ StronglySorted entry_le l.
Proof.
  intros He Hv Hl Hn. exists (merge_sort entry_le entries).
  assert (length (merge_sort entry_le entries) = length entries) as Hlen
    by (apply Permutation_length, merge_sort_Permutation).
  split_and!.
  - rewrite (follow_pages (merge_sort entry_le entries) (pageScope scope "sessions" "") limit)
      with (offset := 0%Z); try done; rewrite ?Hlen; try lia.
    + intros t. unfold list_sessions_page, ListSessions. rewrite He. cbn [run_bind].
      by destruct (page _ _ _ _) as [[]|].
    + split; [lia|done].
  - apply merge_sort_Permutation.
  - apply StronglySorted_merge_sort; [intros ???; apply entry_le_trans|intros ??; apply entry_le_total].
Qed.

(** ** Aggregation of a history *)

(** The reference: each turn folds the events whose sequence numbers lie in its
    range, independently of the other turns. *)
Fixpoint fold_turn (record : TurnRecord) (turn : Turn) (es : list Event) : res ServiceError Turn :=
  match es with
  | [] => Ok turn
  | e :: rest =>
      if bool_decide (e_TurnID e = tr_TurnID record)
      then let* turn' := applyEvent turn e in fold_turn record turn' rest
      else Err (dataCorrupted ("Event e" +:+ FormatInt (Seq e) +:+ " belongs to an unexpected Turn"))
  end.

Definition own_events (start end_ : Z) (es : list Event) : list Event :=
  filter (λ e, start ≤ Seq e ≤ end_)%Z es.

Fixpoint reference_turns (es : list Event) (records : list TurnRecord) : res ServiceError (list Turn) :=
  match records with
  | [] => Ok []
  | record :: next =>
      let endSeq := turn_end record next es in
      if (endSeq + 1 <? tr_StartSeq record)%Z then
        Err (dataCorrupted ("Turn " +:+ tr_TurnID record +:+ " has an invalid event range"))
      else
        let* turn := fold_turn record (new_turn record endSeq)
                       (own_events (tr_StartSeq record) endSeq es) in
        let* turns := reference_turns es next in
        Ok (turn :: turns)
  end.

Definition seq_sorted (es : list Event) : Prop := StronglySorted (λ x y, Seq x < Seq y)%Z es.

Lemma seq_sorted_filter (Q : Event → Prop) `{!∀ e, Decision (Q e)} es :
  seq_sorted es → seq_sorted (filter Q es).
Proof.
  induction 1 as [|e es Hs IH Hf]; [constructor|]. rewrite filter_cons. case_decide; [|done].
  constructor; [done|]. rewrite Forall_forall in Hf |- *. intros x [_ Hx]%list_elem_of_filter. auto.
Qed.

Lemma skip_events_filter start es :
  seq_sorted es → skip_events start es = filter (λ e, start ≤ Seq e)%Z es.
Proof.
  induction 1 as [|e es Hs IH Hf]; [done|]. cbn [skip_events]. rewrite filter_cons.
  destruct (Seq e <? start)%Z eqn:E; breflect.
  - rewrite decide_False by lia. done.
  - rewrite decide_True by lia. rewrite filter_all; [done|].
    eapply Forall_impl; [exact Hf|]. cbn; intros x ?; lia.
Qed.

Lemma apply_events_filter record endSeq es turn :
  seq_sorted es →
  apply_events record endSeq turn es =
  let* t := fold_turn record turn (filter (λ e, Seq e ≤ endSeq)%Z es) in
  Ok (t, filter (λ e, endSeq < Seq e)%Z es).
Proof.
  intros Hs. revert turn. induction Hs as [|e es Hs IH Hf]; intros turn; [done|].
  cbn [apply_events]. rewrite !filter_cons.
  destruct (Seq e <=? endSeq)%Z eqn:E; breflect.
  - rewrite decide_True, decide_False by lia. cbn [fold_turn].
    destruct (bool_decide (e_TurnID e = tr_TurnID record)); cbn [negb]; [|done].
    destruct (applyEvent turn e) as [t|]; cbn; [apply IH|done].
  - rewrite decide_False, decide_True by lia. rewrite filter_none, filter_all; [done|..];
      (eapply Forall_impl; [exact Hf|]; cbn; intros x ?; lia).
Qed.

Lemma filter_and {A} (P Q R : A → Prop) `{!∀ x, Decision (P x), !∀ x, Decision (Q x), !∀ x, Decision (R x)} (l : list A) :
  (∀ x, x ∈ l → R x ↔ P x ∧ Q x) → filter Q (filter P l) = filter R l.
Proof.
  intros Hr. rewrite list_filter_filter. apply filter_ext_in. intros x Hx. rewrite (Hr x Hx). tauto.
Qed.

(** The part of the log that is left when the loop comes to a turn. *)
Lemma aggregate_loop_reference all records from :
  seq_sorted all →
  (∀ r next, records = r :: next → (from ≤ tr_StartSeq r)%Z) →
  aggregate_loop all records (filter (λ e, from ≤ Seq e)%Z all) =
  let* turns := reference_turns all records in
  Ok (turns, match records with [] => filter (λ e, from ≤ Seq e)%Z all | _ => [] end).
Proof.
  intros Hs. revert from. induction records as [|r next IH]; intros from Hfrom; [done|].
  cbn [aggregate_loop reference_turns]. specialize (Hfrom r next eq_refl).
  destruct (turn_end r next all + 1 <? tr_StartSeq r)%Z eqn:E; [done|]. breflect.
  rewrite skip_events_filter by (by apply seq_sorted_filter).
  rewrite (filter_and _ _ (λ e, tr_StartSeq r ≤ Seq e)%Z) by (intros; lia).
  rewrite apply_events_filter by (by apply seq_sorted_filter).
  rewrite (filter_and _ _ (λ e, tr_StartSeq r ≤ Seq e ≤ turn_end r next all)%Z) by (intros; lia).
  fold (own_events (tr_StartSeq r) (turn_end r next all) all).
  destruct (fold_turn r _ _) as [t|]; cbn [res_bind fst snd]; [|done].
  rewrite (filter_and _ _ (λ e, turn_end r next all + 1 ≤ Seq e)%Z) by (intros; lia).
  rewrite IH.
  - destruct (reference_turns all next) as [ts|]; cbn [res_bind fst snd]; [|done].
    destruct next as [|r' next]; [|done]. repeat f_equal. cbn [turn_end]. apply filter_none.
    rewrite Forall_forall. intros e He. clear -Hs He. induction Hs as [|x l Hl IH Hf]; [by apply elem_of_nil in He|].
    rewrite last_cons. destruct (last l) as [y|] eqn:Hy.
    + apply elem_of_cons in He as [->|He]; [|by apply IH].
      rewrite Forall_forall in Hf. apply last_Some_elem_of in Hy. specialize (Hf _ Hy). lia.
    + apply last_None in Hy as ->. apply list_elem_of_singleton in He as ->. lia.
  - intros r' next' ->. cbn [turn_end]. lia.
Qed.

Lemma aggregateTurns_ref records es :
  seq_sorted es →
  aggregateTurns records es =
  if bool_decide (records = [] ∧ es ≠ [])
  then Err (dataCorrupted "EventLog contains events outside known Turns")
  else reference_turns es records.
Proof.
  intros Hs. unfold aggregateTurns.
  set (from := Z.min (default 0%Z (Seq <$> head es)) (default 0%Z (tr_StartSeq <$> head records))).
  assert (filter (λ e, from ≤ Seq e)%Z es = es) as Hall.
  { apply filter_all. unfold from. destruct Hs as [|e es Hs Hf]; [done|]. cbn.
    constructor; [lia|]. eapply Forall_impl; [exact Hf|]. cbn. intros; lia. }
  rewrite <- Hall at 2. rewrite aggregate_loop_reference; [|done|].
  - destruct records as [|r next].
    + cbn [reference_turns res_bind fst snd]. rewrite Hall. destruct es; [|rewrite bool_decide_true; done]. by rewrite bool_decide_false by naive_solver.
    + rewrite bool_decide_false by naive_solver. by destruct (reference_turns es (r :: next)).
  - intros r next ->. unfold from. cbn. lia.
Qed.

(** [aggregateTurns] runs one pass over the log with a shared cursor, but gives
    each turn exactly the events in its range: on a log ordered by sequence
    number it equals the reference that folds, for every turn on its own, the
    events from the turn's start to the next turn's start, with the same
    errors; without any turn it accepts only an empty log. *)
Theorem aggregateTurns_reference records es :
  seq_sorted es →
  aggregateTurns records es =
  if bool_decide (records = [] ∧ es ≠ [])
  then Err (dataCorrupted "EventLog contains events outside known Turns")
  else reference_turns es records.
Proof. apply aggregateTurns_ref. Qed.

(** ** What a history is *)

Section sequential.
  Context {T : Type} (reader : Reader) (scope : Scope) (sid traceID : string)
    (key : Scope → string → Z → string) (decode : string → option T)
    (validate : T → Z → string → option ServiceError).

Abbreviation read n i := (read_from reader n scope sid traceID key decode validate i).

(** The record at a position is stored under its key, decodes and is valid. *)
Definition record_at (i : Z) (v : T) : Prop :=
  ∃ raw, reader (key scope sid i) (TenantID scope) traceID = Ok (Some raw)
         ∧ decode raw = Some v ∧ validate v i sid = None.

(** A read that succeeds returns the records up to the first missing one. *)
Lemma read_from_ok n index l :
  read n index = Some (Ok l) ↔
  (length l < n)%nat ∧ (∀ i v, l !! i = Some v → record_at (index + Z.of_nat i) v) ∧
  reader (key scope sid (index + Z.of_nat (length l))) (TenantID scope) traceID = Ok None.
Proof.
  revert index l. induction n as [|n IH]; intros index l; cbn [read_from].
  { split; [done|intros [? _]; lia]. }
  destruct l as [|v l].
  - change (Z.of_nat (length [])) with 0%Z. rewrite Z.add_0_r. split.
    + destruct (reader _ _ _) as [[raw|]|]; [|intros _; split_and!; [cbn; lia|by intros [|?] ?|done]|done].
      destruct (decode raw) as [w|]; [|done]. destruct (validate w index sid); [done|].
      by destruct (read n (index + 1)) as [[?|?]|].
    + intros (_ & _ & ->). done.
  - replace (index + Z.of_nat (length (v :: l)))%Z with (index + 1 + Z.of_nat (length l))%Z
      by (cbn [length]; lia).
    split.
    + intros H. repeat (case_in H; try done).
      destruct (read_from _ _ _ _ _ _ _ _ _) as [[l'|?]|] eqn:Hr; cbn in H; try done.
      unfold ret in H. injection H as -> ->. apply IH in Hr as (Hn & Hrec & Hend).
      split_and!; [cbn; lia| |done]. intros [|i] w Hi.
      * injection Hi as <-. rewrite Z.add_0_r. exists s. eauto.
      * specialize (Hrec i w Hi). by replace (index + Z.of_nat (S i))%Z with (index + 1 + Z.of_nat i)%Z by lia.
    + intros (Hn & Hrec & Hend). cbn in Hn.
      destruct (Hrec 0%nat v eq_refl) as (raw & H1 & H2 & H3). rewrite Z.add_0_r in *. rewrite H1, H2, H3.
      assert (read n (index + 1) = Some (Ok l)) as ->; [|done]. apply IH. split_and!; [lia| |done].
      intros i w Hi. specialize (Hrec (S i) w Hi).
      by replace (index + 1 + Z.of_nat i)%Z with (index + Z.of_nat (S i))%Z by lia.
Qed.
End sequential.

Lemma validateEvent_ok e i sid :
  validateEvent e i sid = None →
  Seq e = i ∧ e_SessionContextID e = sid ∧ e_TurnID e ≠ "" ∧ (Source e = "PLATFORM" ∨ Source e = "SDK").
Proof.
  unfold validateEvent. intros H. case_in H; [done|]. breflect.
  repeat split; try done. rewrite andb_false_iff, !negb_false_iff, !bool_decide_eq_true in *. done.
Qed.

Lemma validateTurn_ok r i sid :
  validateTurn r i sid = None →
  tr_TurnIndex r = i ∧ tr_SessionContextID r = sid ∧ tr_TurnID r ≠ "" ∧ (0 < tr_StartSeq r)%Z.
Proof. unfold validateTurn. intros H. case_in H; [done|]. breflect. done. Qed.

Lemma numbered_sorted k es :
  (∀ i e, es !! i = Some e → Seq e = k + Z.of_nat i)%Z → seq_sorted es.
Proof.
  revert k. induction es as [|e es IH]; intros k Hk; [constructor|].
  assert (∀ i x, es !! i = Some x → Seq x = k + 1 + Z.of_nat i)%Z as Hr.
  { intros i x Hx. rewrite (Hk (S i) x Hx). lia. }
  constructor; [by apply (IH (k + 1)%Z)|]. rewrite Forall_lookup. intros i x Hx.
  rewrite (Hr i x Hx), (Hk 0%nat e eq_refl). lia.
Qed.

Lemma run_bind_ok {A B} (m : run A) (k : A → run B) b :
  run_bind m k = Some (Ok b) → ∃ a, m = Some (Ok a) ∧ k a = Some (Ok b).
Proof. destruct m as [[a|e]|]; cbn; [eauto|done..]. Qed.

Lemma lift_ok {A} (r : res ServiceError A) a : lift r = Some (Ok a) ↔ r = Ok a.
Proof. destruct r; cbn; split; congruence. Qed.

(** A history as it is read: turns and events are numbered from one. *)
Lemma readHistory_ok reader fuel scope sid traceID rs es :
  readHistory reader fuel scope sid traceID = Some (Ok (rs, es)) →
  (∀ i r, rs !! i = Some r → validateTurn r (1 + Z.of_nat i) sid = None) ∧
  (∀ i e, es !! i = Some e → validateEvent e (1 + Z.of_nat i) sid = None) ∧
  seq_sorted es.
Proof.
  unfold readHistory, readSequential. intros H.
  apply run_bind_ok in H as (rs' & Hr & H). apply run_bind_ok in H as (es' & He & H).
  unfold ret in H. injection H as -> ->. apply read_from_ok in Hr as (_ & Hr & _), He as (_ & He & _).
  assert (∀ i e, es !! i = Some e → validateEvent e (1 + Z.of_nat i) sid = None) as Hev.
  { intros i e Hi. by destruct (He i e Hi) as (? & _ & _ & ?). }
  split_and!; [|done|].
  - intros i r Hi. by destruct (Hr i r Hi) as (? & _ & _ & ?).
  - apply (numbered_sorted 1). intros i e Hi. by apply Hev, validateEvent_ok in Hi as (? & _).
Qed.

(** *** Well-formed turns *)

Definition turn_states : list string := ["WORKING"; "INPUT_REQUIRED"; "COMPLETED"; "FAILED"].

Definition wf_turn (t : Turn) : Prop :=
  State t ∈ turn_states ∧ (Result t = JNull ∨ Error t = JNull) ∧ (StartSeq t ≤ EndSeq t + 1)%Z.

(** The fields an event never changes. *)
Definition same_frame (t t' : Turn) : Prop :=
  TurnID t' = TurnID t ∧ TurnIndex t' = TurnIndex t ∧ StartSeq t' = StartSeq t
  ∧ EndSeq t' = EndSeq t ∧ CreatedAt t' = CreatedAt t.

Lemma applyEvent_frame t e t' :
  applyEvent t e = Ok t' → same_frame t t' ∧ (wf_turn t → wf_turn t').
Proof.
  unfold applyEvent. intros H. repeat (case_in H; try done); injection H as <-;
    (split; [done|]); unfold wf_turn, turn_states; cbn; intros (Hs & Hr & Hq); split_and!; auto; set_solver.
Qed.

Lemma fold_turn_frame r es t t' :
  fold_turn r t es = Ok t' → same_frame t t' ∧ (wf_turn t → wf_turn t').
Proof.
  revert t. induction es as [|e es IH]; intros t; cbn [fold_turn].
  - intros [= ->]. done.
  - intros H. case_in H; [|done]. apply res_bind_ok in H as (t1 & H1 & H2).
    apply applyEvent_frame in H1 as [F1 W1]. apply IH in H2 as [F2 W2].
    split; [|auto]. destruct F1 as (? & ? & ? & ? & ?), F2 as (? & ? & ? & ? & ?).
    split_and!; congruence.
Qed.

Definition turn_of (r : TurnRecord) (t : Turn) : Prop :=
  TurnID t = tr_TurnID r ∧ TurnIndex t = tr_TurnIndex r ∧ StartSeq t = tr_StartSeq r ∧ wf_turn t.

Lemma reference_turns_shape es rs ts :
  reference_turns es rs = Ok ts →
  Forall2 turn_of rs ts ∧
  (∀ i t t', ts !! i = Some t → ts !! S i = Some t' → StartSeq t' = EndSeq t + 1)%Z.
Proof.
  revert ts. induction rs as [|r rs IH]; intros ts; cbn [reference_turns]; intros H.
  { injection H as <-. split; [constructor|done]. }
  case_in H; [done|]. breflect. apply res_bind_ok in H as (t & Ht & H).
  apply res_bind_ok in H as (ts' & Hts & H). injection H as <-.
  apply IH in Hts as [Hf Hc]. apply fold_turn_frame in Ht as [(F1 & F2 & F3 & F4 & _) W]. cbn in *.
  assert (wf_turn t) as Wt.
  { apply W. unfold wf_turn, turn_states. cbn. split_and!; [set_solver|by left|lia]. }
  split; [constructor; [|done]; by split_and!|]. intros [|i] u u' Hu Hu'; cbn in *; [|by eapply Hc].
  injection Hu as <-. destruct Hf as [|r' t' rs' ts' (_ & _ & Hs & _) _]; [done|].
  injection Hu' as <-. cbn in *. rewrite Hs, F4. lia.
Qed.

(** The turns of a history are well formed, whatever the data system returned:
    when the history of a session is read and aggregated without an error
    there is one turn per record, numbered from one, each in one of the four
    states, never with both a result and an error, and the ranges of
    consecutive turns are adjacent. *)
Theorem turns_well_formed reader fuel scope sid traceID rs es ts :
  readHistory reader fuel scope sid traceID = Some (Ok (rs, es)) →
  aggregateTurns rs es = Ok ts →
  length ts = length rs ∧ Forall wf_turn ts ∧
  (∀ i t, ts !! i = Some t → TurnIndex t = 1 + Z.of_nat i)%Z ∧
  (∀ i t t', ts !! i = Some t → ts !! S i = Some t' → StartSeq t' = EndSeq t + 1)%Z.
Proof.
  intros Hh Ha. apply readHistory_ok in Hh as (Hr & _ & Hs).
  rewrite aggregateTurns_ref in Ha by done. case_in Ha; [done|].
  apply reference_turns_shape in Ha as [Hf Hc]. split_and!; [|..|done].
  - symmetry. by eapply Forall2_length.
  - apply Forall_lookup. intros i t Hi. destruct (Forall2_lookup_r _ _ _ _ _ Hf Hi) as (r & _ & (_ & _ & _ & ?)). done.
  - intros i t Hi. destruct (Forall2_lookup_r _ _ _ _ _ Hf Hi) as (r & Hi' & (_ & -> & _)).
    by apply Hr, validateTurn_ok in Hi' as (? & _).
Qed.

(** ** The event cursor *)

Section events.
  Variables (reader : Reader) (scope : Scope) (sid traceID : string).

(** The events from position [after] on, up to the end of the log. *)
Definition log_from (after : Z) (es : list Event) : Prop :=
  (∀ i e, es !! i = Some e →
     record_at reader scope sid traceID EventKey (decodeJSON zero_event decode_event) validateEvent
       (after + 1 + Z.of_nat i) e) ∧
  reader (EventKey scope sid (after + 1 + Z.of_nat (length es))) (TenantID scope) traceID = Ok None.

Lemma log_from_drop after es k :
  (k ≤ length es)%nat → log_from after es → log_from (after + Z.of_nat k) (drop k es).
Proof.
  intros Hk [Hr He]. split.
  - intros i e Hi. rewrite lookup_drop in Hi. specialize (Hr _ _ Hi).
    by replace (after + Z.of_nat k + 1 + Z.of_nat i)%Z with (after + 1 + Z.of_nat (k + i))%Z by lia.
  - rewrite length_drop.
    by replace (after + Z.of_nat k + 1 + Z.of_nat (length es - k))%Z
      with (after + 1 + Z.of_nat (length es))%Z by lia.
Qed.

Definition selected (f : EventFilter) (es : list Event) : list Event := filter (λ e, matches f e = true) es.

(** One run of the loop takes the events of a prefix that match; it stops at
    the limit or at the end of the log. *)
Lemma list_events_from_spec f es n after res_ :
  log_from after es → (length es < n)%nat → (0 ≤ after)%Z →
  (after + Z.of_nat (length es) < 2 ^ 63 - 1)%Z → (Z.of_nat (length res_) < Limit f)%Z →
  ∃ k, (k ≤ length es)%nat ∧
    list_events_from reader n scope sid f traceID (after + 1) res_ after =
      Some (Ok ((res_ ++ selected f (take k es))%list, after + Z.of_nat k)%Z) ∧
    (k = length es ∨
     (0 < k)%nat ∧ Z.of_nat (length (res_ ++ selected f (take k es))) = Limit f)%list.
Proof.
  revert n after res_. induction es as [|e es IH]; intros n after res_ Hlog Hn Ha Hb Hl.
  - destruct n as [|n]; [cbn in Hn; lia|]. exists 0%nat. cbn [list_events_from].
    destruct Hlog as [_ He]. rewrite Z.add_0_r in He. rewrite He. cbn.
    rewrite app_nil_r, Z.add_0_r. auto.
  - destruct n as [|n]; [cbn in Hn; lia|]. cbn [list_events_from length] in *.
    pose proof (log_from_drop after (e :: es) 1 ltac:(cbn; lia) Hlog) as Htail.
    destruct Hlog as [Hr _]. destruct (Hr 0%nat e eq_refl) as (raw & H1 & H2 & H3).
    rewrite Z.add_0_r in *. rewrite H1, H2, H3.
    rewrite (wrapS_small 64) by lia. cbn [drop] in Htail. change (Z.of_nat 1) with 1%Z in Htail.
    assert (∀ k, selected f (take (S k) (e :: es)) =
      (if matches f e then [e] else []) ++ selected f (take k es))%list as Hsel.
    { intros k. cbn [take]. unfold selected. rewrite filter_cons. destruct (matches f e);
        [by rewrite decide_True|by rewrite decide_False]. }
    destruct (matches f e) eqn:Hm.
    + destruct (Z.of_nat (length (res_ ++ [e])%list) =? Limit f)%Z eqn:El; breflect.
      * exists 1%nat. rewrite (Hsel 0%nat). cbn [take app]. split_and!; [cbn; lia|done|].
        right. split; [lia|]. done.
      * destruct (IH n (after + 1)%Z (res_ ++ [e])%list) as (k & Hk & He & Hor); [done|lia|lia|lia| |].
        { rewrite length_app in *. cbn in *. lia. }
        exists (S k). rewrite (Hsel k). cbn [app]. rewrite <- app_assoc in He, Hor. cbn [app] in *.
        split_and!; [lia| |].
        -- rewrite He. by replace (after + Z.of_nat (S k))%Z with (after + 1 + Z.of_nat k)%Z by lia.
        -- destruct Hor as [->|[? ?]]; [by left|right; split; [lia|done]].
    + destruct (IH n (after + 1)%Z res_) as (k & Hk & He & Hor); [done|lia..|].
      exists (S k). rewrite (Hsel k). cbn [app]. split_and!; [lia| |].
      * rewrite He. by replace (after + Z.of_nat (S k))%Z with (after + 1 + Z.of_nat k)%Z by lia.
      * destruct Hor as [->|[? ?]]; [by left|right; split; [lia|done]].
Qed.

(** A client that asks from the cursor it was given until a page is empty. *)
Fixpoint poll (n fuel : nat) (f : EventFilter) (after : Z) : option (list Event) :=
  match n with
  | O => None
  | S n =>
      match ListEvents reader fuel scope sid
              (MkFilter after (Limit f) (f_TurnID f) (f_Source f) (f_EventType f)) traceID with
      | Some (Ok l) =>
          match Events l with
          | [] => Some []
          | _ => app (Events l) <$> poll n fuel f (NextAfterSeq l)
          end
      | _ => None
      end
  end.

(** One page: the matching events of a prefix, and the cursor after it. *)
Lemma ListEvents_spec f fuel after es :
  log_from after es → (length es < fuel)%nat → (0 ≤ after)%Z → (0 < Limit f)%Z →
  (after + Z.of_nat (length es) < 2 ^ 63 - 1)%Z →
  ((0 < after)%Z ∨ es ≠ []) →
  ∃ k, (k ≤ length es)%nat ∧
    ListEvents reader fuel scope sid
      (MkFilter after (Limit f) (f_TurnID f) (f_Source f) (f_EventType f)) traceID =
      Some (Ok (MkEventList (selected f (take k es)) (after + Z.of_nat k))) ∧
    (k = length es ∨ (0 < k)%nat ∧ Z.of_nat (length (selected f (take k es))) = Limit f).
Proof.
  intros Hlog Hn Ha Hl Hb Hne. set (f' := MkFilter _ _ _ _ _).
  destruct (list_events_from_spec f' es fuel after []) as (k & Hk & He & Hor); [done..|].
  exists k. split; [done|]. split; [|exact Hor]. unfold ListEvents. cbn [AfterSeq Limit f'].
  replace (after <? 0)%Z with false by lia. replace (Limit f <=? 0)%Z with false by lia. cbn [orb].
  rewrite (wrapS_small 64) by lia. rewrite He. cbn [run_bind fst snd app].
  destruct (bool_decide _) eqn:E1; [|done]. destruct (bool_decide (after = _)) eqn:E2; [|done].
  breflect. subst after. assert (k = 0%nat) as -> by lia. destruct Hor as [Hor|[? _]]; [|lia].
  destruct Hne as [?|Hne]; [lia|]. destruct es; [done|cbn in Hor; lia].
Qed.

(** C23. Polling delivers every event: a client that keeps asking with the cursor it
    was given gets, after at most as many requests as there are events and one
    more, exactly the events after its position that match the filter, in
    order and each once, for every limit. *)
Theorem events_eventually_delivered f fuel after es n :
  log_from after es → (length es < fuel)%nat → (length es < n)%nat → (0 ≤ after)%Z → (0 < Limit f)%Z →
  (after + Z.of_nat (length es) < 2 ^ 63 - 1)%Z → ((0 < after)%Z ∨ es ≠ []) →
  poll n fuel f after = Some (selected f es).
Proof.
  revert after es. induction n as [|n IH]; intros after es Hlog Hf Hn Ha Hl Hb Hne; [lia|]. cbn [poll].
  destruct (ListEvents_spec f fuel after es) as (k & Hk & -> & Hor); [done..|].
  cbn [Events NextAfterSeq].
  assert (selected f es = selected f (take k es) ++ selected f (drop k es))%list as Hsplit
    by (unfold selected; by rewrite <- filter_app, take_drop).
  destruct (selected f (take k es)) as [|e l] eqn:E.
  - destruct Hor as [->|[_ Hlen]]; [|cbn in Hlen; lia]. rewrite drop_all in Hsplit. by rewrite Hsplit.
  - assert (0 < k)%nat by (destruct k; [by rewrite take_0 in E|lia]).
    rewrite (IH _ (drop k es)); [by rewrite Hsplit|by apply log_from_drop|rewrite ?length_drop; lia..|left; lia].
Qed.
End events.

(** ** Termination over a finite store *)

Lemma app_str_inj_l (p s t : string) : p +:+ s = p +:+ t → s = t.
Proof. induction p as [|c p IH]; rewrite ?app_cons_str; [done|]. intros [= H]. auto. Qed.

Lemma EventKey_inj scope sid i j :
  (- 2 ^ 63 ≤ i < 2 ^ 63)%Z → (- 2 ^ 63 ≤ j < 2 ^ 63)%Z → EventKey scope sid i = EventKey scope sid j → i = j.
Proof. intros Hi Hj H%app_str_inj_l%app_str_inj_l. by apply FormatInt_inj. Qed.

Lemma TurnKey_inj scope sid i j :
  (- 2 ^ 63 ≤ i < 2 ^ 63)%Z → (- 2 ^ 63 ≤ j < 2 ^ 63)%Z → TurnKey scope sid i = TurnKey scope sid j → i = j.
Proof. intros Hi Hj H%app_str_inj_l%app_str_inj_l. by apply FormatInt_inj. Qed.

(** [n] distinct members make a set at least that large. *)
Lemma distinct_members {A} `{Countable A} (D : gset A) (g : nat → A) n :
  (∀ i, i < n → g i ∈ D)%nat → (∀ i j, i < n → j < n → g i = g j → i = j)%nat → (n ≤ size D)%nat.
Proof.
  intros Hin Hinj. assert (NoDup (g <$> seq 0 n)) as Hnd.
  { apply NoDup_fmap_2_strong; [|apply NoDup_seq]. intros i j Hi Hj. apply elem_of_seq in Hi, Hj.
    apply Hinj; lia. }
  pose proof (size_list_to_set (C := gset A) _ Hnd) as Hs. rewrite length_fmap, length_seq in Hs.
  rewrite <- Hs. apply subseteq_size. intros x. rewrite elem_of_list_to_set, list_elem_of_fmap.
  intros (i & -> & Hi%elem_of_seq). apply Hin. lia.
Qed.

Section termination.
  Variables (reader : Reader) (D : gset string) (scope : Scope) (sid traceID : string).
  (** The keys of the tenant that have a value are finitely many. *)
  Hypothesis Hfin : ∀ key raw, reader key (TenantID scope) traceID = Ok (Some raw) → key ∈ D.

Lemma read_from_total {T} key (decode : string → option T) validate n :
  (∀ i j, - 2 ^ 63 ≤ i < 2 ^ 63 → - 2 ^ 63 ≤ j < 2 ^ 63 → key scope sid i = key scope sid j → i = j)%Z →
  (Z.of_nat n < 2 ^ 63)%Z → (size D < n)%nat →
  read_from reader n scope sid traceID key decode validate 1 ≠ None.
Proof.
  intros Hinj Hn Hsize Hnone.
  assert (∀ m i, read_from reader m scope sid traceID key decode validate i = None →
    ∀ j, (j < m)%nat → key scope sid (i + Z.of_nat j) ∈ D)%Z as Hall.
  { clear Hn Hsize Hnone n. induction m as [|m IH]; intros i H j Hj; [lia|]. cbn [read_from] in H.
    destruct (reader (key scope sid i) (TenantID scope) traceID) as [[raw|]|e] eqn:Hr; [|done..].
    destruct j as [|j]; [rewrite Z.add_0_r; by eapply Hfin|].
    destruct (decode raw); [|done]. destruct (validate _ _ _); [done|].
    replace (i + Z.of_nat (S j))%Z with (i + 1 + Z.of_nat j)%Z by lia. apply IH; [|lia].
    by destruct (read_from _ _ _ _ _ _ _ _ _) as [[]|]. }
  specialize (Hall n 1%Z Hnone).
  assert (n ≤ size D)%nat; [|lia]. apply (distinct_members D (λ j, key scope sid (1 + Z.of_nat j)%Z)).
  - intros; by apply Hall.
  - intros i j Hi Hj E%Hinj; lia.
Qed.

Lemma list_events_total f n after :
  (0 ≤ after)%Z → (after + Z.of_nat n < 2 ^ 63)%Z → (size D < n)%nat → ∀ res_,
  list_events_from reader n scope sid f traceID (after + 1) res_ after ≠ None.
Proof.
  intros Ha Hn Hsize res_ Hnone.
  assert (∀ m a r, (0 ≤ a)%Z → (a + Z.of_nat m < 2 ^ 63)%Z →
    list_events_from reader m scope sid f traceID (a + 1) r a = None →
    ∀ j, (j < m)%nat → EventKey scope sid (a + 1 + Z.of_nat j) ∈ D)%Z as Hall.
  { clear res_ Hnone Hsize Ha Hn. intros m. induction m as [|m IH]; intros a r Ha Hm H j Hj; [lia|]. cbn [list_events_from] in H.
    destruct (reader _ _ _) as [[raw|]|e] eqn:Hr; [|done..].
    destruct j as [|j]; [rewrite Z.add_0_r; by eapply Hfin|].
    destruct (decodeJSON _ _ _); [|done]. destruct (validateEvent _ _ _); [done|].
    rewrite (wrapS_small 64) in H by lia.
    replace (a + 1 + Z.of_nat (S j))%Z with (a + 1 + 1 + Z.of_nat j)%Z by lia.
    destruct (matches _ _); [destruct (_ =? _)%Z; [done|]|]; (eapply IH; [..|exact H|]; lia). }
  assert (n ≤ size D)%nat; [|lia].
  apply (distinct_members D (λ j, EventKey scope sid (after + 1 + Z.of_nat j)%Z)).
  - intros; by eapply Hall.
  - intros i j Hi Hj E%EventKey_inj; lia.
Qed.

Lemma readHistory_total n :
  (Z.of_nat n < 2 ^ 63)%Z → (size D < n)%nat → readHistory reader n scope sid traceID ≠ None.
Proof.
  intros Hn Hs. unfold readHistory, readSequential.
  pose proof (read_from_total TurnKey (decodeJSON zero_turn decode_turn) validateTurn n
    (TurnKey_inj scope sid) Hn Hs).
  pose proof (read_from_total EventKey (decodeJSON zero_event decode_event) validateEvent n
    (EventKey_inj scope sid) Hn Hs).
  destruct (read_from _ _ _ _ _ TurnKey _ _ _) as [[?|?]|]; [|done..]. cbn.
  by destruct (read_from _ _ _ _ _ EventKey _ _ _) as [[?|?]|].
Qed.

Lemma readControl_total id : readControl reader scope id traceID ≠ None.
Proof. unfold readControl. by repeat case_goal. Qed.

Lemma read_registry_total : read_registry reader scope traceID ≠ None.
Proof. unfold read_registry. by repeat case_goal. Qed.

(** Every query returns: when only finitely many keys of the tenant hold a value,
    one more read than there are such keys is enough for the history, turn,
    session and event queries to answer or to report an error. *)
Theorem queries_terminate n limit token turnID f :
  (Z.of_nat n < 2 ^ 63)%Z → (size D < n)%nat → (AfterSeq f + Z.of_nat n < 2 ^ 63)%Z →
  ListSessions reader scope limit token traceID ≠ None ∧
  GetSession reader n scope sid traceID ≠ None ∧
  ListTurns reader n scope sid limit token traceID ≠ None ∧
  GetTurn reader n scope sid turnID traceID ≠ None ∧
  ListEvents reader n scope sid f traceID ≠ None.
Proof.
  intros Hn Hs Hf. pose proof (readHistory_total n Hn Hs) as Hh.
  assert (∀ A (r : res ServiceError A), lift r ≠ None) as Hlift by (by intros ? []).
  assert (∀ A B (m : run A) (k : A → run B), m ≠ None → (∀ a, k a ≠ None) → run_bind m k ≠ None) as Hbind.
  { intros A B [[a|e]|] k ? Hk; cbn; auto. }
  split_and!.
  - apply Hbind; [apply Hbind; [apply read_registry_total|]|].
    + induction a as [|e l IH]; cbn; [done|]. destruct (negb _); [done|].
      apply Hbind; [apply readControl_total|]. intros c. by apply Hbind.
    + intros l. by apply Hbind.
  - apply Hbind; [done|]. intros [ts es]. apply Hbind; [apply readControl_total|]. intros c. apply Hbind.
    + destruct (_ && _); [|done]. apply Hbind; [|intros []; by case_goal].
      apply Hbind; [apply read_registry_total|done].
    + intros _. by apply Hbind.
  - apply Hbind; [done|]. intros [ts es]. destruct (_ && _); [done|].
    apply Hbind; [done|]. intros ag. by apply Hbind.
  - apply Hbind; [done|]. intros [ts es]. apply Hbind; [done|]. intros ag. by case_goal.
  - unfold ListEvents. destruct (_ || _) eqn:E; [done|]. breflect.
    apply Hbind; [rewrite (wrapS_small 64) by lia; by apply list_events_total|].
    intros p. destruct (_ && _); [|done]. by repeat case_goal.
Qed.
End termination.

(** ** Tenants are separated *)

Lemma scope_tenant loadFuncSpec tenant ctx scope :
  sessionContextScope loadFuncSpec (MkAuth true (Some tenant)) ctx = Ok scope → TenantID scope = tenant.
Proof.
  unfold sessionContextScope. cbn [authEnabled authenticatedTenant]. intros H.
  destruct (GetFunctionInfo _) as [p|]; [|done]. cbn [Urn.TenantID] in H.
  destruct (bool_decide (tenant = Urn.TenantID p)) eqn:E; [|done]. cbn in H. breflect.
  destruct (loadFuncSpec _) as [[]|]; [|done..]. injection H as <-. done.
Qed.

Lemma resource_scope_tenant loadFuncSpec tenant ctx p :
  sessionContextResourceScope loadFuncSpec (MkAuth true (Some tenant)) ctx = Ok p → TenantID p.1 = tenant.
Proof.
  unfold sessionContextResourceScope. intros H. apply res_bind_ok in H as (s & Hs & H).
  apply scope_tenant in Hs. case_in H; [done|]. by injection H as <-.
Qed.

Section same_tenant.
  Variables (r1 r2 : Reader) (scope : Scope).
  Hypothesis Hsame : ∀ key traceID, r1 key (TenantID scope) traceID = r2 key (TenantID scope) traceID.

Lemma read_from_ext {T} n sid tr key (decode : string → option T) validate i :
  read_from r1 n scope sid tr key decode validate i = read_from r2 n scope sid tr key decode validate i.
Proof.
  revert i. induction n as [|n IH]; intros i; [done|]. cbn [read_from]. rewrite Hsame.
  repeat case_goal; try done. by rewrite IH.
Qed.

Lemma readHistory_ext n sid tr : readHistory r1 n scope sid tr = readHistory r2 n scope sid tr.
Proof. unfold readHistory, readSequential. by rewrite !read_from_ext. Qed.

Lemma readControl_ext sid tr : readControl r1 scope sid tr = readControl r2 scope sid tr.
Proof. unfold readControl. by rewrite Hsame. Qed.

Lemma read_registry_ext tr : read_registry r1 scope tr = read_registry r2 scope tr.
Proof. unfold read_registry. by rewrite Hsame. Qed.

Lemma load_entries_ext tr l : load_entries r1 scope tr l = load_entries r2 scope tr l.
Proof. induction l as [|e l IH]; cbn [load_entries]; [done|]. by rewrite readControl_ext, IH. Qed.

Lemma list_events_from_ext n sid f tr seq_ res_ next :
  list_events_from r1 n scope sid f tr seq_ res_ next = list_events_from r2 n scope sid f tr seq_ res_ next.
Proof.
  revert seq_ res_ next. induction n as [|n IH]; intros; [done|]. cbn [list_events_from]. rewrite Hsame.
  repeat case_goal; try done; apply IH.
Qed.

Lemma ListSessions_ext limit token tr : ListSessions r1 scope limit token tr = ListSessions r2 scope limit token tr.
Proof.
  unfold ListSessions, loadRegistryEntries. rewrite read_registry_ext.
  destruct (read_registry r2 scope tr) as [[l|]|]; cbn; [|done..]. by rewrite load_entries_ext.
Qed.

Lemma GetSession_ext n sid tr : GetSession r1 n scope sid tr = GetSession r2 n scope sid tr.
Proof. unfold GetSession, isRegisteredSession. by rewrite read_registry_ext, readHistory_ext, readControl_ext. Qed.

Lemma ListTurns_ext n sid limit token tr :
  ListTurns r1 n scope sid limit token tr = ListTurns r2 n scope sid limit token tr.
Proof. unfold ListTurns. by rewrite readHistory_ext. Qed.

Lemma GetTurn_ext n sid turnID tr : GetTurn r1 n scope sid turnID tr = GetTurn r2 n scope sid turnID tr.
Proof. unfold GetTurn. by rewrite readHistory_ext. Qed.

Lemma ListEvents_ext n sid f tr : ListEvents r1 n scope sid f tr = ListEvents r2 n scope sid f tr.
Proof. unfold ListEvents. by rewrite list_events_from_ext, Hsame. Qed.
End same_tenant.

(** The exchanges of two networks agree on what is sent for a tenant. *)
Definition same_exchanges (tenant : string) (Do Do' : string → string → payload → Z * string * option string)
    : Prop :=
  ∀ addr path body, head body = Some ("tenantId", tenant) → Do addr path body = Do' addr path body.

Lemma Post_ext Do Do' tenant im funcKey path body :
  same_exchanges tenant Do Do' → head body = Some ("tenantId", tenant) →
  Post Do im funcKey path body = Post Do' im funcKey path body.
Proof.
  intros Hsame Hb. unfold Post. destruct (Get im funcKey) as [node|]; [|done].
  generalize (Some node). generalize 3%nat. intros n. induction n as [|n IH]; intros owner; [done|].
  cbn [post_attempts]. unfold post. destruct owner as [o|]; [|done].
  rewrite (Hsame _ _ _ Hb). repeat case_goal; try done; apply IH.
Qed.

(** C18. Tenants are separated: when tokens are checked, the response of every session
    context handler is determined by the records stored under the tenant of the
    validated token and by the scheduler's answers to requests sent for that
    tenant. Two systems that agree on those answer the same request alike,
    whatever else they hold and whatever function the URL names. *)
Theorem session_tenant_isolation tenant r1 r2 Do Do' fuel loadFuncSpec im body ctx :
  (∀ key traceID, r1 key tenant traceID = r2 key tenant traceID) → same_exchanges tenant Do Do' →
  let au := MkAuth true (Some tenant) in
  ListSessionContextsHandler r1 loadFuncSpec au ctx = ListSessionContextsHandler r2 loadFuncSpec au ctx ∧
  GetSessionContextHandler r1 fuel loadFuncSpec au ctx = GetSessionContextHandler r2 fuel loadFuncSpec au ctx ∧
  ListSessionContextTurnsHandler r1 fuel loadFuncSpec au ctx =
    ListSessionContextTurnsHandler r2 fuel loadFuncSpec au ctx ∧
  GetSessionContextTurnHandler r1 fuel loadFuncSpec au ctx =
    GetSessionContextTurnHandler r2 fuel loadFuncSpec au ctx ∧
  ListSessionContextEventsHandler r1 fuel loadFuncSpec au ctx =
    ListSessionContextEventsHandler r2 fuel loadFuncSpec au ctx ∧
  ForkSessionContextHandler Do loadFuncSpec au im body ctx =
    ForkSessionContextHandler Do' loadFuncSpec au im body ctx ∧
  DeleteSessionContextHandler Do loadFuncSpec au im ctx = DeleteSessionContextHandler Do' loadFuncSpec au im ctx.
Proof.
  intros Hr Hd au.
  assert (∀ A (x : res response A) k k', (∀ a, x = Ok a → k a = k' a) → guard x k = guard x k') as Hguard.
  { intros A [a|e] k k' H; cbn; auto. }
  split_and!; unfold ListSessionContextsHandler, GetSessionContextHandler, ListSessionContextTurnsHandler,
    GetSessionContextTurnHandler, ListSessionContextEventsHandler, ForkSessionContextHandler,
    DeleteSessionContextHandler; apply Hguard; intros p Hp;
    (apply scope_tenant in Hp || apply resource_scope_tenant in Hp); subst tenant.
  - apply Hguard. intros l _. by rewrite (ListSessions_ext r1 r2).
  - by rewrite (GetSession_ext r1 r2).
  - apply Hguard. intros l _. by rewrite (ListTurns_ext r1 r2).
  - case_goal; [done|]. by rewrite (GetTurn_ext r1 r2).
  - apply Hguard. intros a _. apply Hguard. intros l _. case_goal; [done|]. by rewrite (ListEvents_ext r1 r2).
  - destruct p as [scope sid]. destruct body as [b|]; [|done]. cbv zeta. case_goal; [done|].
    by rewrite (Post_ext Do Do' (TenantID scope)).
  - destruct p as [scope sid]. cbv zeta. by rewrite (Post_ext Do Do' (TenantID scope)).
Qed.

(** ** A small history *)

(** JSON texts below are written with ['] for the quote. *)
Definition json (s : string) : string :=
  str_map (λ c, if byte_eq 39 c then quote_char else c) s.

Definition ex_scope : Scope :=
  NewScope "t1" "0@faas@echo" "latest" "sn:cn:yrk:t1:function:0@faas@echo:latest".

Definition ex_turn (i start : Z) : string :=
  json ("{'sessionContextId':'s1','turnIndex':" +:+ FormatInt i +:+ ",'turnId':'turn-" +:+ FormatInt i
    +:+ "','startSeq':" +:+ FormatInt start +:+ ",'createdAt':'2026-01-01','schemaVersion':1}").

Definition ex_event (turn seq : Z) (type data : string) : string :=
  json ("{'sessionContextId':'s1','turnId':'turn-" +:+ FormatInt turn +:+ "','seq':" +:+ FormatInt seq
    +:+ ",'eventId':'ev','source':'SDK','type':'" +:+ type +:+ "','data':" +:+ data
    +:+ ",'schemaVersion':1,'createdAt':'2026-01-01'}").

Definition ex_registry : string :=
  json ("{'schemaVersion':1,'sessionContexts':["
    +:+ "{'functionVersion':'latest','sessionContextId':'s1','createdAt':'2026-01-01'},"
    +:+ "{'functionVersion':'1','sessionContextId':'s9','createdAt':'2026-01-05'},"
    +:+ "{'functionVersion':'latest','sessionContextId':'s2','createdAt':'2026-01-02'}]}").

Definition ex_records : list (string * string) := Eval vm_compute in
  [ (RegistryKey "0@faas@echo", ex_registry);
    (TurnKey ex_scope "s1" 1, ex_turn 1 1);
    (TurnKey ex_scope "s1" 2, ex_turn 2 3);
    (EventKey ex_scope "s1" 1, ex_event 1 1 "input.message" "{'message':'hi'}");
    (EventKey ex_scope "s1" 2, ex_event 1 2 "turn.completed" "{'output':{'n':1}}");
    (EventKey ex_scope "s1" 3, ex_event 2 3 "input.message" "{'message':'again'}");
    (EventKey ex_scope "s1" 4, ex_event 2 4 "turn.failed" "{'error':'boom'}") ].

Definition ex_reader : Reader := λ key tenant _,
  if bool_decide (tenant = "t1")
  then Ok (snd <$> find (λ kv, bool_decide (kv.1 = key)) ex_records) else Ok None.

Example ex_turns :
  (match GetTurn ex_reader 9 ex_scope "s1" "turn-2" "" with
   | Some (Ok t) => Some (State t, Inputs t, Error t, StartSeq t, EndSeq t) | _ => None end) =
  Some ("FAILED", [JString "again"], JString "boom", 3%Z, 4%Z).
Proof. vm_compute. reflexivity. Qed.

Example ex_sessions :
  (match ListSessions ex_reader ex_scope 1 "" "" with
   | Some (Ok l) => Some (re_SessionContextID <$> sl_SessionContexts l, bool_decide (is_Some (sl_NextPageToken l)))
   | _ => None end) = Some (["s2"], true).
Proof. vm_compute. reflexivity. Qed.

Lemma page_token_roundtrip_witness :
  decodePageToken (encodePageToken "urn" 50) "urn" 60 = Ok 50%Z.
Proof. rewrite page_token_roundtrip; [reflexivity|reflexivity|lia]. Defined.

Lemma sessions_eventually_listed_witness :
  ∃ entries l, loadRegistryEntries ex_reader ex_scope "" = Some (Ok entries) ∧
    follow (list_sessions_page ex_reader ex_scope 1 "") (S (length entries)) "" = Some l ∧ l ≡ₚ entries.
Proof.
  assert (∃ entries, loadRegistryEntries ex_reader ex_scope "" = Some (Ok entries) ∧
    (Z.of_nat (length entries) < 2 ^ 63)%Z) as (entries & He & Hl)
    by (eexists; split; [vm_compute; reflexivity|cbn; lia]).
  destruct (sessions_eventually_listed ex_reader ex_scope 1 "" entries He) as (l & H1 & H2 & _);
    [vm_compute; reflexivity|lia|exact Hl|].
  exists entries, l. split; [exact He|]. split; [exact H1|exact H2].
Defined.

Lemma aggregateTurns_reference_witness : ∃ es ts,
  seq_sorted es ∧ length es = 4%nat ∧ reference_turns es [MkTurnRecord "s1" 1 "turn-1" 1 "d" 1; MkTurnRecord "s1" 2 "turn-2" 3 "d" 1] = Ok ts
  ∧ aggregateTurns [MkTurnRecord "s1" 1 "turn-1" 1 "d" 1; MkTurnRecord "s1" 2 "turn-2" 3 "d" 1] es = Ok ts.
Proof.
  set (ev := λ t n, MkEvent "s1" t n "ev" "SDK" "input.message" (JObject [("message", JNull)]) 1 "d").
  assert (seq_sorted [ev "turn-1" 1%Z; ev "turn-1" 2%Z; ev "turn-2" 3%Z; ev "turn-2" 4%Z]) as Hs.
  { unfold seq_sorted. repeat (constructor; [|repeat (constructor; [cbn; lia|]); constructor]). constructor. }
  eexists _, _. split; [exact Hs|]. split; [reflexivity|]. split; [vm_compute; reflexivity|].
  rewrite (aggregateTurns_reference _ _ Hs). vm_compute. reflexivity.
Defined.

Lemma turns_well_formed_witness :
  ∃ h ts, readHistory ex_reader 9 ex_scope "s1" "" = Some (Ok h) ∧ length ts = 2%nat ∧ Forall wf_turn ts.
Proof.
  assert (∃ rs es ts, readHistory ex_reader 9 ex_scope "s1" "" = Some (Ok (rs, es)) ∧ length rs = 2%nat
    ∧ aggregateTurns rs es = Ok ts) as (rs & es & ts & Hh & Hl & Ha).
  { eexists _, _, _. split; [vm_compute; reflexivity|]. split; [reflexivity|vm_compute; reflexivity]. }
  destruct (turns_well_formed _ _ _ _ _ _ _ _ Hh Ha) as (Hlen & Hw & _).
  exists (rs, es), ts. rewrite Hlen. split; [exact Hh|]. split; [exact Hl|exact Hw].
Defined.

Definition ex_filter : EventFilter := MkFilter 0 1 "" "" "input.message".

Lemma events_eventually_delivered_witness : ∃ es,
  length es = 4%nat ∧ poll ex_reader ex_scope "s1" "" 5 5 ex_filter 0 = Some (selected ex_filter es).
Proof.
  assert (∃ es, read_from ex_reader 5 ex_scope "s1" "" EventKey (decodeJSON zero_event decode_event)
    validateEvent 1 = Some (Ok es) ∧ length es = 4%nat) as (es & Hr & Hl)
    by (eexists; split; [vm_compute; reflexivity|reflexivity]).
  exists es. split; [exact Hl|]. apply read_from_ok in Hr as (_ & Hrec & Hend).
  apply events_eventually_delivered; rewrite ?Hl; try (cbn; lia); [split; [exact Hrec|exact Hend]|].
  right. intros ->. discriminate Hl.
Defined.

Lemma queries_terminate_witness :
  GetSession ex_reader 8 ex_scope "s1" "" ≠ None.
Proof.
  assert (∀ key raw, ex_reader key (TenantID ex_scope) "" = Ok (Some raw) →
    key ∈ (list_to_set (fst <$> ex_records) : gset string)) as Hfin.
  { intros key raw H. unfold ex_reader in H. rewrite bool_decide_true in H by done.
    destruct (find _ ex_records) as [kv|] eqn:Hf; [|done].
    apply find_some in Hf as [Hin Hk]. breflect. subst key. apply elem_of_list_to_set, list_elem_of_fmap.
    exists kv. split; [done|]. by apply list_elem_of_In. }
  eapply (queries_terminate ex_reader _ ex_scope "s1" "" Hfin 8 1 "" "" ex_filter); [cbn; lia| |cbn; lia].
  vm_compute. lia.
Defined.

Definition ex_request : request :=
  MkRequest (λ p, if bool_decide (p = "function-urn") then "sn:cn:yrk:t1:function:0@faas@echo:latest" else "s1")
    (λ _, "") (λ _, "").

Lemma session_tenant_isolation_witness :
  let other : Reader := λ key tenant tr, if bool_decide (tenant = "t1") then ex_reader key tenant tr else Ok (Some "x") in
  let au := MkAuth true (Some "t1") in
  GetSessionContextHandler ex_reader 9 (λ _, Some true) au ex_request =
    GetSessionContextHandler other 9 (λ _, Some true) au ex_request ∧
  (fst <$> GetSessionContextHandler ex_reader 9 (λ _, Some true) au ex_request) = Some 200%Z.
Proof.
  intros other au. split.
  - destruct (session_tenant_isolation "t1" ex_reader other (λ _ _ _, (0%Z, "", None)) (λ _ _ _, (0%Z, "", None))
      9 (λ _, Some true) (newSchedulerProxy false) None ex_request) as (_ & H & _); [|by intros ????|exact H].
    intros key tr. unfold other. by rewrite bool_decide_true.
  - vm_compute. reflexivity.
Defined.

(** Events before the first turn are passed over without an error. *)
Example events_before_first_turn_dropped :
  let ev := λ t n, MkEvent "s1" t n "ev" "SDK" "note" JNull 1 "d" in
  (length <$> match aggregateTurns [MkTurnRecord "s1" 1 "turn-1" 3 "d" 1]
                      [ev "other" 1%Z; ev "other" 2%Z; ev "turn-1" 3%Z] with Ok l => Some l | Err _ => None end) = Some 1%nat.
Proof. reflexivity. Qed.
