(* ===== verification/JwtAuth.v ===== *)
(** * Tokens (pkg/frontend/common/jwtauth and pkg/frontend/common/tenantauth)

    Parsing of the X-Auth token, the two caches of validated tokens, the call
    to the IAM server with its single flight, and the authentication of
    developer tokens. The IAM server is a parameter. Times are nanoseconds, a
    token's expiry is in seconds; every reading of the clock is an argument. *)

From S2P Require Import Prelude GoStrings Hashing Json.
Open Scope string_scope.
Open Scope go_scope.

(** ** encoding/base64, standard alphabet with padding *)

Definition b64std_value (c : ascii) : option N :=
  if byte_in 65 90 c then Some (N_of_ascii c - 65)%N
  else if byte_in 97 122 c then Some (N_of_ascii c - 71)%N
  else if byte_in 48 57 c then Some (N_of_ascii c + 4)%N
  else if byte_eq 43 c then Some 62%N
  else if byte_eq 47 c then Some 63%N
  else None.

Fixpoint drop_newlines (s : string) : string :=
  match s with
  | EmptyString => ""
  | String c r => if byte_eq 10 c || byte_eq 13 c then drop_newlines r else String c (drop_newlines r)
  end.

(** Quanta of four symbols; only the last may end in one or two pad characters. *)
Fixpoint b64std_quanta (s : string) : option string :=
  match s with
  | EmptyString => Some ""
  | String a (String b (String c (String d r))) =>
      match b64std_value a, b64std_value b with
      | Some x, Some y =>
          if byte_eq 61 c then
            if byte_eq 61 d && is_empty r then b64_groups [x; y] else None
          else
            match b64std_value c with
            | None => None
            | Some z =>
                if byte_eq 61 d then (if is_empty r then b64_groups [x; y; z] else None)
                else
                  match b64std_value d, b64std_quanta r with
                  | Some w, Some s' => (λ p, p +:+ s') <$> b64_groups [x; y; z; w]
                  | _, _ => None
                  end
            end
      | _, _ => None
      end
  | _ => None
  end.

(** [base64.StdEncoding.DecodeString]. *)
Definition b64std_decode (s : string) : option string := b64std_quanta (drop_newlines s).

(** ** jwtauth.go: tokens *)

Definition RoleDeveloper : string := "developer".
Definition RoleUser : string := "user".

Record JWTHeader := MkJWTHeader { Alg : string; Typ : string }.
Record JWTPayload := MkJWTPayload { Sub : string; Exp : Z; Role : string }.
Record ParsedJWT := MkJWT { Header : JWTHeader; Payload : JWTPayload; Signature : string }.

Definition second : Z := 1000000000.

Definition IsExpired (payload : JWTPayload) (now : Z) : bool :=
  if (Exp payload <=? 0)%Z then false else (Exp payload <? now / second)%Z.

Definition decode_header (kvs : list (string * any)) : option JWTHeader :=
  MkJWTHeader <$> string_field "alg" kvs <*> string_field "typ" kvs.
Definition decode_payload (kvs : list (string * any)) : option JWTPayload :=
  MkJWTPayload <$> string_field "sub" kvs <*> int_field "exp" kvs <*> string_field "role" kvs.

Inductive jwt_error :=
| ErrEmptyHeader
| ErrFormat (parts : nat)
| ErrDecodeHeader
| ErrUnmarshalHeader
| ErrDecodePayload
| ErrUnmarshalPayload.

(** URL encoding first, then the standard one. *)
Definition decode_part (s : string) : option string :=
  match b64_decode s with Some r => Some r | None => b64std_decode s end.

Definition unmarshal_struct {A} (zero : A) (decode : list (string * any) → option A) (raw : string) : option A :=
  match Unmarshal raw with Some v => to_struct zero decode v | None => None end.

Definition ParseJWT (authHeader : string) : res jwt_error ParsedJWT :=
  if bool_decide (authHeader = "") then Err ErrEmptyHeader else
  match Split authHeader "." with
  | [p0; p1; p2] =>
      match decode_part p0 with
      | None => Err ErrDecodeHeader
      | Some h =>
          match unmarshal_struct (MkJWTHeader "" "") decode_header h with
          | None => Err ErrUnmarshalHeader
          | Some header =>
              match decode_part p1 with
              | None => Err ErrDecodePayload
              | Some p =>
                  match unmarshal_struct (MkJWTPayload "" 0 "") decode_payload p with
                  | None => Err ErrUnmarshalPayload
                  | Some payload => Ok (MkJWT header payload p2)
                  end
              end
          end
      end
  | parts => Err (ErrFormat (length parts))
  end.

Inductive tenant_error := ErrNoSubject | ErrTenantMismatch (expected got : string).

Definition ValidateTenantID (jwt : ParsedJWT) (expectedTenantID : string) : option tenant_error :=
  if bool_decide (Sub (Payload jwt) = "") then Some ErrNoSubject
  else if bool_decide (Sub (Payload jwt) ≠ expectedTenantID)
       then Some (ErrTenantMismatch expectedTenantID (Sub (Payload jwt)))
       else None.

(** ** The caches

    [iamValidationLRUCache] and [validatedDeveloperJWTCache] are the same
    structure over different entries: a map from tokens to elements of a
    [container/list]. Elements are addresses into a heap of entries. [stale]
    is the extra expiry of the developer cache. *)

Section lru.
  Context {V : Type}.
  Variable stale : V → Z → bool.

Record entry := MkCacheEntry { token : string; value : V; validatedAt : Z }.
Record lru := MkLru {
  capacity : Z; ttl : Z; items : gmap string nat; order : list nat;
  heap : gmap nat entry; fresh : nat;
}.

Definition new_lru (capacity ttl : Z) : lru := MkLru capacity ttl ∅ [] ∅ 0.

(** [order.Remove(element)] and [delete(items, token)]. *)
Definition drop_element (c : lru) (tok : string) (a : nat) : lru :=
  MkLru (capacity c) (ttl c) (delete tok (items c)) (filter (λ b, b ≠ a) (order c)) (heap c) (fresh c).

Definition move_to_front (c : lru) (a : nat) : lru :=
  MkLru (capacity c) (ttl c) (items c) (a :: filter (λ b, b ≠ a) (order c)) (heap c) (fresh c).

Definition get (c : lru) (tok : string) (now : Z) : option V * lru :=
  match items c !! tok with
  | None => (None, c)
  | Some a =>
      match heap c !! a with
      | None => (None, drop_element c tok a)
      | Some e =>
          if (ttl c <=? now - validatedAt e)%Z || stale (value e) now
          then (None, drop_element c tok a)
          else (Some (value e), move_to_front c a)
      end
  end.

(** The part of [add] after a new element was pushed. *)
Definition evict (c : lru) : lru :=
  if (Z.of_nat (length (order c)) <=? capacity c)%Z then c else
  match last (order c) with
  | None => c
  | Some a =>
      MkLru (capacity c) (ttl c)
        (match heap c !! a with Some e => delete (token e) (items c) | None => items c end)
        (filter (λ b, b ≠ a) (order c)) (heap c) (fresh c)
  end.

Definition push_front (c : lru) (e : entry) : lru :=
  MkLru (capacity c) (ttl c) (<[token e := fresh c]> (items c)) (fresh c :: order c)
    (<[fresh c := e]> (heap c)) (S (fresh c)).

Definition set_entry (c : lru) (a : nat) (e : entry) : lru :=
  MkLru (capacity c) (ttl c) (items c) (order c) (<[a := e]> (heap c)) (fresh c).

Definition add (c : lru) (tok : string) (v : V) (now : Z) : lru :=
  match items c !! tok with
  | Some a =>
      match heap c !! a with
      | Some e => move_to_front (set_entry c a (MkCacheEntry (token e) v now)) a
      | None => evict (push_front (drop_element c tok a) (MkCacheEntry tok v now))
      end
  | None => evict (push_front c (MkCacheEntry tok v now))
  end.

Definition reset (c : lru) : lru := MkLru (capacity c) (ttl c) ∅ [] (heap c) (fresh c).
End lru.
Arguments entry : clear implicits.
Arguments lru : clear implicits.

Definition iamCacheTTL : Z := 30 * second.
Definition iamValidationCacheSize : Z := 4096.
Definition iamCache : Type := lru unit.
Definition newIAMValidationLRUCache : iamCache := new_lru iamValidationCacheSize iamCacheTTL.
Definition iam_get (c : iamCache) (tok : string) (now : Z) : bool * iamCache :=
  let '(r, c') := get (λ _ _, false) c tok now in (match r with Some _ => true | None => false end, c').
Definition iam_add (c : iamCache) (tok : string) (now : Z) : iamCache := add c tok () now.

(** ** ValidateWithIamServer: the calls that run concurrently

    A caller looks into the cache, then joins the flight of its token or
    starts one. The steps are the critical sections of the code. *)

Record iamFlight := MkFlight { f_token : string; f_done : bool; f_err : bool }.

Inductive caller :=
| Idle
| Missed (tok : string)                 (* not in the cache *)
| Waiting (tok : string) (f : nat)      (* in f.wg.Wait *)
| Leading (tok : string) (f : nat)      (* before the IAM call *)
| Answered (tok : string) (f : nat) (err : bool)  (* IAM answered *)
| Cached (tok : string) (f : nat) (err : bool)    (* after the cache was updated *)
| Finished (tok : string) (f : nat) (err : bool)  (* after wg.Done *)
| Returned (tok : string) (err : bool).

Record iam_state := MkIam {
  cache : iamCache; flights : gmap string nat; flight_heap : gmap nat iamFlight; flight_next : nat;
  callers : gmap nat caller;
  accepted : list (string * Z);  (* tokens the IAM server accepted, with the time *)
}.

Definition set_caller (s : iam_state) (i : nat) (c : caller) : iam_state :=
  MkIam (cache s) (flights s) (flight_heap s) (flight_next s) (<[i := c]> (callers s)) (accepted s).

Definition caller_of (s : iam_state) (i : nat) : caller := default Idle (callers s !! i).

(** One step of caller [i]: [Start] reads the cache at a time; [IamAnswer] is
    the server's verdict, true for an error. *)
Inductive iam_event :=
| Start (i : nat) (tok : string) (now : Z)
| JoinFlight (i : nat)
| IamAnswer (i : nat) (err : bool) (now : Z)
| CacheResult (i : nat) (now : Z)
| CompleteFlight (i : nat)
| DeleteFlight (i : nat)
| Wake (i : nat).

Definition iam_step (s : iam_state) (ev : iam_event) : iam_state :=
  match ev with
  | Start i tok now =>
      match caller_of s i with
      | Idle | Returned _ _ =>
          let '(hit, c') := iam_get (cache s) tok now in
          let s' := MkIam c' (flights s) (flight_heap s) (flight_next s) (callers s) (accepted s) in
          set_caller s' i (if hit then Returned tok false else Missed tok)
      | _ => s
      end
  | JoinFlight i =>
      match caller_of s i with
      | Missed tok =>
          match flights s !! tok with
          | Some f => set_caller s i (Waiting tok f)
          | None =>
              let f := flight_next s in
              MkIam (cache s) (<[tok := f]> (flights s))
                (<[f := MkFlight tok false false]> (flight_heap s)) (S f)
                (<[i := Leading tok f]> (callers s)) (accepted s)
          end
      | _ => s
      end
  | IamAnswer i err now =>
      match caller_of s i with
      | Leading tok f =>
          let s' := set_caller s i (Answered tok f err) in
          if err then s'
          else MkIam (cache s') (flights s') (flight_heap s') (flight_next s') (callers s')
                 ((tok, now) :: accepted s')
      | _ => s
      end
  | CacheResult i now =>
      match caller_of s i with
      | Answered tok f err =>
          let s' := set_caller s i (Cached tok f err) in
          if err then s'
          else MkIam (iam_add (cache s') tok now) (flights s') (flight_heap s') (flight_next s')
                 (callers s') (accepted s')
      | _ => s
      end
  | CompleteFlight i =>
      match caller_of s i with
      | Cached tok f err =>
          let s' := set_caller s i (Finished tok f err) in
          MkIam (cache s') (flights s') (<[f := MkFlight tok true err]> (flight_heap s'))
            (flight_next s') (callers s') (accepted s')
      | _ => s
      end
  | DeleteFlight i =>
      match caller_of s i with
      | Finished tok f err =>
          let s' := set_caller s i (Returned tok err) in
          MkIam (cache s') (delete tok (flights s')) (flight_heap s') (flight_next s')
            (callers s') (accepted s')
      | _ => s
      end
  | Wake i =>
      match caller_of s i with
      | Waiting tok f =>
          match flight_heap s !! f with
          | Some fl => if f_done fl then set_caller s i (Returned tok (f_err fl)) else s
          | None => s
          end
      | _ => s
      end
  end.

Definition iam_init : iam_state := MkIam newIAMValidationLRUCache ∅ ∅ 0 ∅ [].
Definition iam_run (evs : list iam_event) : iam_state := foldl iam_step iam_init evs.

(** ** tenantauth/developer.go *)

Definition SystemTenantID : string := "0".
Definition validatedDeveloperJWTCacheSize : Z := 1024.
Definition validatedDeveloperJWTCacheTTL : Z := 30 * second.

Record DeveloperIdentity := MkIdentity { id_TenantID : string; id_Role : string; IsSystemTenant : bool }.

(** An entry of the developer cache carries the identity and the expiry. *)
Definition dev_stale (v : DeveloperIdentity * Z) (now : Z) : bool :=
  IsExpired (MkJWTPayload "" v.2 "") now.
Definition devCache : Type := lru (DeveloperIdentity * Z).
Definition newValidatedDeveloperJWTCache : devCache :=
  new_lru validatedDeveloperJWTCacheSize validatedDeveloperJWTCacheTTL.

Inductive auth_error :=
| ErrMissingToken
| ErrInvalidToken (e : jwt_error)
| ErrMissingTenant
| ErrExpired
| ErrIam
| ErrRole.

(** The readings of the clock during one call, in order. *)
Record clock := MkClock { at_lookup : Z; at_expiry : Z; at_iam : Z; at_iam_add : Z; at_add : Z }.

Record auth_state := MkAuthState {
  dev_cache : devCache; iam_cache : iamCache;
  iam_accepted : list (string * Z);
}.

Section authenticate.
  (** The address of the IAM server is configured; the server's answer. *)
  Variable configured : bool.
  Variable iamValidator : string → Z → bool.

(** [ValidateWithIamServer] of one caller while no other runs; true is nil. *)
Definition ValidateWithIamServer (s : auth_state) (tok : string) (now now_add : Z) : bool * auth_state :=
  if negb configured then (true, s) else
  let '(hit, c) := iam_get (iam_cache s) tok now in
  if hit then (true, MkAuthState (dev_cache s) c (iam_accepted s))
  else if iamValidator tok now
       then (true, MkAuthState (dev_cache s) (iam_add c tok now_add) ((tok, now_add) :: iam_accepted s))
       else (false, MkAuthState (dev_cache s) c (iam_accepted s)).

Definition AuthenticateDeveloperToken (s : auth_state) (tok : string) (t : clock)
    : res (Z * auth_error) DeveloperIdentity * auth_state :=
  if bool_decide (tok = "") then (Err (403%Z, ErrMissingToken), s) else
  let '(hit, dc) := get dev_stale (dev_cache s) tok (at_lookup t) in
  let s := MkAuthState dc (iam_cache s) (iam_accepted s) in
  match hit with
  | Some (identity, _) => (Ok identity, s)
  | None =>
      match ParseJWT tok with
      | Err e => (Err (401%Z, ErrInvalidToken e), s)
      | Ok parsed =>
          let p := Payload parsed in
          if bool_decide (Sub p = "") then (Err (403%Z, ErrMissingTenant), s)
          else if IsExpired p (at_expiry t) then (Err (401%Z, ErrExpired), s)
          else
            let '(ok, s) := ValidateWithIamServer s tok (at_iam t) (at_iam_add t) in
            if negb ok then (Err (401%Z, ErrIam), s)
            else if negb (bool_decide (Role p = RoleDeveloper)) then (Err (403%Z, ErrRole), s)
            else
              let identity := MkIdentity (Sub p) (Role p) (bool_decide (Sub p = SystemTenantID)) in
              (Ok identity,
               MkAuthState (add (dev_cache s) tok (identity, Exp p) (at_add t)) (iam_cache s) (iam_accepted s))
      end
  end.

Definition auth_init : auth_state := MkAuthState newValidatedDeveloperJWTCache newIAMValidationLRUCache [].

(** A run of calls, with every answer. *)
Fixpoint auth_run (calls : list (string * clock)) (s : auth_state)
    : list (res (Z * auth_error) DeveloperIdentity) * auth_state :=
  match calls with
  | [] => ([], s)
  | (tok, t) :: rest =>
      let '(r, s1) := AuthenticateDeveloperToken s tok t in
      let '(rs, s2) := auth_run rest s1 in
      (r :: rs, s2)
  end.
End authenticate.
