(* ===== verification/JwtAuthFacts.v ===== *)
(** * Facts about tokens: the caches refine a bounded recency list, what the
    single flight returns stems from the IAM server, and how old an accepted
    identity can be. *)

From S2P Require Import Prelude GoStrings Hashing Json JwtAuth.
Open Scope string_scope.
Open Scope go_scope.

(** ** The cache refines a list of entries, the most recently used first *)

Section lru_facts.
  Context {V : Type}.
  Variable stale : V → Z → bool.
  Implicit Types (c : lru V) (e : entry V).

(** The specification. *)
Definition without (tok : string) (l : list (entry V)) : list (entry V) := filter (λ e, token e ≠ tok) l.

Definition spec_get (ttl_ : Z) (l : list (entry V)) (tok : string) (now : Z)
    : option V * list (entry V) :=
  match find (λ e, bool_decide (token e = tok)) l with
  | None => (None, l)
  | Some e =>
      if (ttl_ <=? now - validatedAt e)%Z || stale (value e) now then (None, without tok l)
      else (Some (value e), e :: without tok l)
  end.

Definition spec_add (cap : Z) (l : list (entry V)) (tok : string) (v : V) (now : Z) : list (entry V) :=
  take (Z.to_nat cap) (MkCacheEntry tok v now :: without tok l).

Definition contents (c : lru V) : list (entry V) := omap (λ a, heap c !! a) (order c).

Record wf (c : lru V) : Prop := {
  wf_nodup : NoDup (order c);
  wf_order : ∀ a, a ∈ order c → ∃ e, heap c !! a = Some e ∧ items c !! token e = Some a;
  wf_items : ∀ t a, items c !! t = Some a → a ∈ order c ∧ ∃ e, heap c !! a = Some e ∧ token e = t;
  wf_fresh : ∀ a, a ∈ order c → (a < fresh c)%nat;
  wf_size : (Z.of_nat (length (order c)) ≤ capacity c)%Z;
}.

Lemma new_lru_wf cap t : (0 ≤ cap)%Z → wf (new_lru cap t).
Proof. intros. split; cbn; try done; try (by constructor); by intros ? ?%elem_of_nil. Qed.

Lemma contents_elem c e : wf c → e ∈ contents c ↔ ∃ a, a ∈ order c ∧ heap c !! a = Some e.
Proof. intros _. unfold contents. by rewrite list_elem_of_omap. Qed.

Lemma contents_length c : wf c → length (contents c) = length (order c).
Proof.
  intros Hw. pose proof (wf_order _ Hw) as Ho. unfold contents. clear Hw. revert Ho.
  induction (order c) as [|a l IH]; intros Ho; [done|]. cbn.
  destruct (Ho a ltac:(left)) as (e & -> & _). cbn. f_equal. apply IH. intros b Hb. apply Ho. by right.
Qed.

(** Leaving out an address is leaving out its token. *)
Lemma contents_filter c a tok :
  wf c → items c !! tok = Some a →
  omap (λ b, heap c !! b) (filter (λ b, b ≠ a) (order c)) = without tok (contents c).
Proof.
  intros Hw Ha. assert (∀ b e, b ∈ order c → heap c !! b = Some e → token e ≠ tok ↔ b ≠ a) as Hiff.
  { intros b e Hb He. destruct (wf_order _ Hw b Hb) as (e' & He' & Hi). simplify_eq.
    destruct (wf_items _ Hw _ _ Ha) as (_ & e2 & He2 & Ht). split.
    - intros Hne ->. congruence.
    - intros Hne <-. congruence. }
  pose proof (wf_order _ Hw) as Ho. unfold without, contents. clear Hw. revert Hiff Ho.
  induction (order c) as [|b l IH]; intros Hiff Ho; [done|].
  destruct (Ho b ltac:(left)) as (e & He & _). cbn [omap list_omap]. rewrite He.
  specialize (IH ltac:(intros; apply Hiff; [by right|done]) ltac:(intros; apply Ho; by right)).
  destruct (Hiff b e ltac:(left) He) as [H1 H2]. rewrite !filter_cons. destruct (decide (b = a)) as [->|Hne].
  - rewrite (decide_False (P := a ≠ a)) by naive_solver. rewrite decide_False by naive_solver. done.
  - rewrite decide_True by done. rewrite decide_True by auto. cbn [omap list_omap]. rewrite He. by f_equal.
Qed.

(** With no entry for a token there is nothing to leave out. *)
Lemma contents_without c tok : wf c → items c !! tok = None → without tok (contents c) = contents c.
Proof.
  intros Hw Hn. apply filter_all. rewrite Forall_forall. intros e (a & Ha & He)%contents_elem; [|done].
  destruct (wf_order _ Hw a Ha) as (e' & He' & Hi). congruence.
Qed.

Lemma contents_find c tok :
  wf c →
  find (λ e, bool_decide (token e = tok)) (contents c) = items c !! tok ≫= (λ a, heap c !! a).
Proof.
  intros Hw. destruct (find _ _) as [e|] eqn:Hf.
  - apply find_some in Hf as [Hin Ht]. breflect. apply list_elem_of_In, contents_elem in Hin as (a & Ha & He); [|done].
    destruct (wf_order _ Hw a Ha) as (e' & He' & Hi). simplify_eq. rewrite Hi. cbn. by rewrite He.
  - destruct (items c !! tok) as [a|] eqn:Hi; [|done]. cbn.
    destruct (wf_items _ Hw _ _ Hi) as (Ha & e & He & Ht).
    assert (In e (contents c)) as Hin by (apply list_elem_of_In, contents_elem; eauto).
    pose proof (find_none _ _ Hf e Hin) as Hne. cbv beta in Hne. breflect. done.
Qed.

Lemma drop_element_wf c tok a :
  wf c → items c !! tok = Some a → wf (drop_element c tok a) ∧ contents (drop_element c tok a) = without tok (contents c).
Proof.
  intros Hw Ha. split; [|exact (contents_filter c a tok Hw Ha)]. destruct (wf_items _ Hw _ _ Ha) as (Hin & e & He & Ht).
  split; cbn.
  - apply NoDup_filter, Hw.
  - intros b [Hb Hbo]%list_elem_of_filter. destruct (wf_order _ Hw b Hbo) as (e' & He' & Hi).
    exists e'. split; [done|]. rewrite lookup_delete_ne; [done|]. congruence.
  - intros t b Hb. apply lookup_delete_Some in Hb as [Hne Hb].
    destruct (wf_items _ Hw _ _ Hb) as (Hbo & e' & He' & Ht').
    split; [|eauto]. apply list_elem_of_filter. split; [|done]. intros ->. congruence.
  - intros b [_ Hb]%list_elem_of_filter. by apply Hw.
  - pose proof (wf_size _ Hw). pose proof (length_filter (λ b, b ≠ a) (order c)). lia.
Qed.

Lemma filter_without_length (l : list nat) a : NoDup l → a ∈ l → length (filter (λ b, b ≠ a) l) = pred (length l).
Proof.
  induction 1 as [|b l Hb Hl IH]; [by intros ?%elem_of_nil|]. rewrite filter_cons, elem_of_cons.
  intros [<-|Hin].
  - rewrite decide_False by naive_solver. rewrite filter_all; [done|]. rewrite Forall_forall. by intros x Hx ->.
  - rewrite decide_True by (intros ->; done). cbn [length]. rewrite IH by done. destruct l; [by apply elem_of_nil in Hin|done].
Qed.

(** [set_entry] on an element and moving it to the front. *)
Lemma touch_wf c tok a e e' :
  wf c → items c !! tok = Some a → heap c !! a = Some e → token e' = tok →
  wf (move_to_front (set_entry c a e') a) ∧
  contents (move_to_front (set_entry c a e') a) = e' :: without tok (contents c).
Proof.
  intros Hw Ha He Ht'. destruct (wf_items _ Hw _ _ Ha) as (Hin & e0 & He0 & Ht).
  assert (e0 = e) as -> by congruence.
  assert (∀ b, b ∈ filter (λ b, b ≠ a) (order c) → <[a := e']> (heap c) !! b = heap c !! b) as Hother.
  { intros b [Hb _]%list_elem_of_filter. by rewrite lookup_insert_ne. }
  split.
  - split; cbn.
    + apply NoDup_cons. split; [by intros [? _]%list_elem_of_filter|]. apply NoDup_filter, Hw.
    + intros b [->|Hb]%elem_of_cons.
      * exists e'. rewrite lookup_insert_eq. split; [done|]. congruence.
      * rewrite Hother by done. apply list_elem_of_filter in Hb as [_ Hb]. by apply Hw.
    + intros t b Hb. destruct (wf_items _ Hw _ _ Hb) as (Hbo & eb & Heb & Htb).
      destruct (decide (b = a)) as [->|Hne].
      * split; [left|]. exists e'. rewrite lookup_insert_eq. split; [done|]. congruence.
      * split; [right; by apply list_elem_of_filter|]. exists eb. by rewrite lookup_insert_ne.
    + intros b [->|[_ Hb]%list_elem_of_filter]%elem_of_cons; by apply Hw.
    + rewrite filter_without_length by (apply Hw || done). pose proof (wf_size _ Hw).
      destruct (order c) eqn:E; [by apply elem_of_nil in Hin|]. cbn in *. lia.
  - unfold contents at 1. cbn. rewrite lookup_insert_eq. cbn. f_equal.
    rewrite <- (contents_filter c a tok) by done.
    clear -Hother. induction (filter _ (order c)) as [|b l IH]; [done|]. cbn.
    rewrite Hother by (left). rewrite IH; [done|]. intros; apply Hother; by right.
Qed.

Lemma push_front_wf_but_size c e :
  wf c → items c !! token e = None →
  let c' := push_front c e in
  contents c' = e :: contents c ∧ NoDup (order c') ∧
  (∀ a, a ∈ order c' → ∃ e', heap c' !! a = Some e' ∧ items c' !! token e' = Some a) ∧
  (∀ t a, items c' !! t = Some a → a ∈ order c' ∧ ∃ e', heap c' !! a = Some e' ∧ token e' = t) ∧
  (∀ a, a ∈ order c' → (a < fresh c')%nat).
Proof.
  intros Hw Hn c'. assert (∀ a, a ∈ order c → a ≠ fresh c) as Hf.
  { intros a Ha ->. apply (wf_fresh _ Hw) in Ha. lia. }
  split_and!; cbn.
  - unfold contents at 1. cbn. rewrite lookup_insert_eq. cbn. f_equal. unfold contents.
    clear -Hf. induction (order c) as [|b l IH]; [done|]. cbn.
    rewrite lookup_insert_ne by (intros E; by apply (Hf b ltac:(left))).
    rewrite IH; [done|]. intros; apply Hf; by right.
  - apply NoDup_cons. split; [intros Ha; by apply (Hf _ Ha)|apply Hw].
  - intros a [->|Ha]%elem_of_cons.
    + exists e. rewrite lookup_insert_eq, lookup_insert_eq. done.
    + destruct (wf_order _ Hw a Ha) as (e' & He' & Hi). exists e'.
      rewrite lookup_insert_ne by (intros E; by apply (Hf _ Ha)). split; [done|].
      rewrite lookup_insert_ne; [done|]. congruence.
  - intros t a Ha. apply lookup_insert_Some in Ha as [[<- <-]|[Hne Ha]].
    + split; [left|]. exists e. by rewrite lookup_insert_eq.
    + destruct (wf_items _ Hw _ _ Ha) as (Hao & e' & He' & Ht). split; [by right|]. exists e'.
      rewrite lookup_insert_ne by (intros E; by apply (Hf _ Hao)). done.
  - intros a [->|Ha]%elem_of_cons; [lia|]. apply (wf_fresh _ Hw) in Ha. lia.
Qed.

Lemma omap_all {A B} (f : A → option B) (l : list A) :
  (∀ a, a ∈ l → is_Some (f a)) → ∀ n, omap f (take n l) = take n (omap f l).
Proof.
  induction l as [|a l IH]; intros Hl [|n]; cbn; try done. destruct (Hl a ltac:(left)) as [b ->]. cbn.
  f_equal. apply IH. intros; apply Hl; by right.
Qed.

(** Pushing a new entry, with the eviction of the last one. *)
Lemma insert_wf c e :
  wf c → (0 ≤ capacity c)%Z → items c !! token e = None →
  wf (evict (push_front c e)) ∧
  contents (evict (push_front c e)) = take (Z.to_nat (capacity c)) (e :: contents c).
Proof.
  intros Hw Hcap Hn. destruct (push_front_wf_but_size c e Hw Hn) as (Hc & Hnd & Ho & Hi & Hf).
  pose proof (wf_size _ Hw) as Hs. pose proof (contents_length _ Hw) as Hlen.
  set (p := push_front c e) in *. unfold evict. change (capacity p) with (capacity c).
  assert (length (order p) = S (length (order c))) as Hlp by done.
  destruct (Z.of_nat (length (order p)) <=? capacity c)%Z eqn:E; breflect.
  { split; [by split|]. rewrite Hc, take_ge; [done|]. cbn. lia. }
  destruct (last (order p)) as [a|] eqn:Hl; [|by apply last_None in Hl; rewrite Hl in Hlp].
  apply last_Some in Hl as [l Hl]. rewrite Hl in Hnd.
  assert (a ∉ l) as Ha by (apply NoDup_app in Hnd as (_ & Hd & _); intros Hin; apply (Hd _ Hin); by left).
  assert (filter (λ b, b ≠ a) (order p) = l) as Hfil.
  { rewrite Hl, filter_app, filter_cons, decide_False by naive_solver.
    rewrite app_nil_r. apply filter_all. rewrite Forall_forall. by intros x Hx ->. }
  assert (a ∈ order p) as Hap by (rewrite Hl; set_solver).
  destruct (Ho a Hap) as (ea & Hea & Hia). rewrite Hea, Hfil.
  assert (Z.to_nat (capacity c) = length l) as Hk.
  { rewrite Hl, length_app in Hlp. cbn in Hlp. rewrite Hl, length_app in E. cbn in E. lia. }
  split.
  - split; cbn.
    + apply NoDup_app in Hnd as (? & _). done.
    + intros b Hb. destruct (Ho b ltac:(rewrite Hl; set_solver)) as (eb & Heb & Hib).
      exists eb. split; [done|]. rewrite lookup_delete_ne; [done|]. intros Ht. apply Ha. congruence.
    + intros t b Hb. apply lookup_delete_Some in Hb as [Hne Hb]. destruct (Hi _ _ Hb) as (Hbo & eb & Heb & Ht).
      split; [|eauto]. rewrite Hl in Hbo. apply elem_of_app in Hbo as [?|Hb'%list_elem_of_singleton]; [done|].
      subst b. congruence.
    + intros b Hb. apply Hf. rewrite Hl. set_solver.
    + lia.
  - rewrite Hk, <- Hc. unfold contents. cbn [order heap]. rewrite <- omap_all.
    + rewrite Hl, take_app_length. done.
    + intros b Hb. destruct (Ho b Hb) as (eb & -> & _). done.
Qed.

Lemma add_spec c tok v now :
  wf c → (0 ≤ capacity c)%Z →
  wf (add c tok v now) ∧ contents (add c tok v now) = spec_add (capacity c) (contents c) tok v now.
Proof.
  intros Hw Hcap. unfold add, spec_add. destruct (items c !! tok) as [a|] eqn:Hi.
  - destruct (wf_items _ Hw _ _ Hi) as (Hin & e & He & Ht). rewrite He.
    destruct (touch_wf c tok a e (MkCacheEntry (token e) v now)) as [H1 H2]; [done..|].
    split; [done|]. rewrite H2, Ht, take_ge; [done|]. cbn [length].
    rewrite <- (contents_filter c a tok) by done.
    pose proof (wf_size _ Hw). pose proof (contents_length _ Hw).
    destruct (drop_element_wf c tok a Hw Hi) as [Hwd _]. pose proof (contents_length _ Hwd) as Hd.
    unfold contents in Hd. cbn [drop_element heap order] in Hd. rewrite Hd.
    rewrite filter_without_length by (apply Hw || done).
    destruct (order c) eqn:E; [by apply elem_of_nil in Hin|]. cbn in *. lia.
  - rewrite (contents_without c tok) by done. by apply insert_wf.
Qed.

Lemma get_spec c tok now :
  wf c → wf (get stale c tok now).2 ∧
  ((get stale c tok now).1, contents (get stale c tok now).2) = spec_get (ttl c) (contents c) tok now.
Proof.
  intros Hw. unfold get, spec_get. rewrite contents_find by done.
  destruct (items c !! tok) as [a|] eqn:Hi; [|done].
  destruct (wf_items _ Hw _ _ Hi) as (Hin & e & He & Ht). cbn [mbind option_bind]. rewrite He. destruct (_ || _).
  - destruct (drop_element_wf c tok a Hw Hi) as [H1 H2]. cbn [fst snd]. by rewrite H2.
  - destruct (touch_wf c tok a e e Hw Hi He Ht) as [H1 H2].
    assert (set_entry c a e = c) as Hse.
    { unfold set_entry. rewrite insert_id by done. by destruct c. }
    rewrite Hse in H1, H2. cbn [fst snd]. by rewrite H2.
Qed.

Lemma get_const c tok now : capacity (get stale c tok now).2 = capacity c ∧ ttl (get stale c tok now).2 = ttl c.
Proof. unfold get. repeat case_goal; done. Qed.

Lemma add_const c tok v now : capacity (add c tok v now) = capacity c ∧ ttl (add c tok v now) = ttl c.
Proof. unfold add, evict. repeat case_goal; done. Qed.

(** Entries only leave on a lookup; an added entry is the new one. *)
Lemma get_contents c tok now e :
  wf c → e ∈ contents (get stale c tok now).2 → e ∈ contents c.
Proof.
  intros Hw He. destruct (get_spec c tok now Hw) as [_ Hs]. unfold spec_get in Hs.
  destruct (find _ _) as [e'|] eqn:Hf.
  - apply find_some in Hf as [Hin _]. apply list_elem_of_In in Hin.
    case_in Hs; injection Hs as _ Hs; rewrite Hs in He; unfold without in He.
    + by apply list_elem_of_filter in He as [_ ?].
    + by apply elem_of_cons in He as [->|[_ ?]%list_elem_of_filter].
  - injection Hs as _ Hs. by rewrite Hs in He.
Qed.

(** A hit is an entry whose time is not over. *)
Lemma get_hit c tok now v :
  wf c → (get stale c tok now).1 = Some v →
  ∃ e, e ∈ contents c ∧ token e = tok ∧ value e = v ∧ (now - validatedAt e < ttl c)%Z ∧ stale v now = false.
Proof.
  intros Hw Hv. destruct (get_spec c tok now Hw) as [_ Hs]. rewrite Hv in Hs. unfold spec_get in Hs.
  destruct (find _ _) as [e|] eqn:Hf; [|done]. case_in Hs; [done|]. breflect. injection Hs as -> _.
  apply find_some in Hf as [Hin Ht]. cbv beta in Ht. breflect. exists e. apply list_elem_of_In in Hin. done.
Qed.

Lemma add_contents c tok v now e :
  wf c → (0 ≤ capacity c)%Z → e ∈ contents (add c tok v now) → e = MkCacheEntry tok v now ∨ e ∈ contents c.
Proof.
  intros Hw Hc He. destruct (add_spec c tok v now Hw Hc) as [_ Hs]. rewrite Hs in He. unfold spec_add in He.
  apply elem_of_take in He as (i & Hi & _). apply list_elem_of_lookup_2 in Hi. unfold without in Hi.
  apply elem_of_cons in Hi as [->|[_ ?]%list_elem_of_filter]; auto.
Qed.

(** C24. The token caches implement a bounded recency list: on a well-formed cache,
    looking up and adding act on the stored entries as moving the entry to the
    front, dropping it when its time is over, and cutting the list at the
    capacity, and leave the cache well formed; its map and its linked list
    never disagree and it never holds more than its capacity. *)
Theorem lru_refines c tok v now :
  wf c → (0 ≤ capacity c)%Z →
  let '(r, c') := get stale c tok now in
  wf c' ∧ (r, contents c') = spec_get (ttl c) (contents c) tok now ∧
  wf (add c tok v now) ∧ contents (add c tok v now) = spec_add (capacity c) (contents c) tok v now ∧
  (Z.of_nat (length (contents (add c tok v now))) ≤ capacity c)%Z.
Proof.
  intros Hw Hcap. destruct (get_spec c tok now Hw) as [Hg1 Hg2]. destruct (add_spec c tok v now Hw Hcap) as [Ha1 Ha2].
  destruct (get stale c tok now) as [r c']. split_and!; try done.
  rewrite Ha2. unfold spec_add. rewrite length_take. lia.
Qed.
End lru_facts.

(** ** The single flight *)

(** The IAM server accepted the token at some point. *)
Definition was_accepted (s : iam_state) (tok : string) : Prop := ∃ t, (tok, t) ∈ accepted s.

(** The caller runs the flight of its token. *)
Definition leads (c : caller) : option (string * nat) :=
  match c with
  | Leading tok f | Answered tok f _ | Cached tok f _ | Finished tok f _ => Some (tok, f)
  | _ => None
  end.

(** A verdict the caller has without an error. *)
Definition verdict_ok (c : caller) : option string :=
  match c with
  | Answered tok _ false | Cached tok _ false | Finished tok _ false | Returned tok false => Some tok
  | _ => None
  end.

Record iam_inv (s : iam_state) : Prop := {
  ii_wf : wf (cache s) ∧ (0 ≤ capacity (cache s))%Z;
  ii_cache : ∀ e, e ∈ contents (cache s) → was_accepted s (token e);
  ii_verdict : ∀ i tok, verdict_ok (caller_of s i) = Some tok → was_accepted s tok;
  ii_wait : ∀ i tok f, caller_of s i = Waiting tok f → ∃ fl, flight_heap s !! f = Some fl ∧ f_token fl = tok;
  ii_lead : ∀ i tok f, leads (caller_of s i) = Some (tok, f) → flights s !! tok = Some f;
  ii_unique : ∀ i j tok f tok', leads (caller_of s i) = Some (tok, f) → leads (caller_of s j) = Some (tok', f) → i = j;
  ii_flights : ∀ tok f, flights s !! tok = Some f → ∃ fl, flight_heap s !! f = Some fl ∧ f_token fl = tok;
  ii_done : ∀ f fl, flight_heap s !! f = Some fl → f_done fl = true → f_err fl = false → was_accepted s (f_token fl);
  ii_fresh : ∀ f fl, flight_heap s !! f = Some fl → (f < flight_next s)%nat;
}.

Lemma caller_of_insert (m : gmap nat caller) i c j :
  default Idle (<[i := c]> m !! j) = if decide (i = j) then c else default Idle (m !! j).
Proof. case_decide; [subst; by rewrite lookup_insert_eq|by rewrite lookup_insert_ne]. Qed.

Lemma iam_get_contents c tok now e :
  wf c → e ∈ contents (iam_get c tok now).2 → e ∈ contents c.
Proof.
  intros Hw. unfold iam_get. pose proof (get_contents (λ _ _, false) c tok now e Hw).
  by destruct (get _ c tok now) as [[]].
Qed.

Lemma iam_get_wf c tok now :
  wf c → wf (iam_get c tok now).2 ∧ capacity (iam_get c tok now).2 = capacity c ∧ ttl (iam_get c tok now).2 = ttl c.
Proof.
  intros Hw. unfold iam_get. destruct (get_spec (λ _ _, false) c tok now Hw) as [H1 _].
  pose proof (get_const (λ _ _, false) c tok now). by destruct (get _ c tok now) as [[]].
Qed.

Lemma iam_get_hit c tok now :
  wf c → (iam_get c tok now).1 = true →
  ∃ e, e ∈ contents c ∧ token e = tok ∧ (now - validatedAt e < ttl c)%Z.
Proof.
  intros Hw. unfold iam_get. pose proof (λ v, get_hit (λ _ _, false) c tok now v Hw) as Hh.
  destruct (get _ c tok now) as [[v|] c']; cbn; [|done]. intros _.
  destruct (Hh v eq_refl) as (e & ? & ? & _ & ? & _). eauto.
Qed.

Ltac caller_cases H := unfold caller_of in H; cbn in H; rewrite caller_of_insert in H; case_decide; cbn in H.

Lemma iam_step_start s i tok now : iam_inv s → iam_inv (iam_step s (Start i tok now)).
Proof.
  intros Hi. assert (leads (caller_of s i) = None → iam_inv (
    let '(hit, c') := iam_get (cache s) tok now in
    set_caller (MkIam c' (flights s) (flight_heap s) (flight_next s) (callers s) (accepted s)) i
      (if hit then Returned tok false else Missed tok))) as Hgo.
  { intros Hl. destruct (ii_wf _ Hi) as [Hw Hc]. pose proof (iam_get_contents (cache s) tok now) as Hg.
    pose proof (iam_get_wf (cache s) tok now Hw) as (Hw' & Hc' & _).
    pose proof (iam_get_hit (cache s) tok now Hw) as Hh. destruct (iam_get (cache s) tok now) as [hit c']. cbn in *.
    destruct Hi. split; cbn; try done; try lia.
    - split; [done|lia].
    - intros e He. eauto.
    - intros j t Ht. caller_cases Ht; [|by eapply ii_verdict0].
      destruct hit; [|done]. injection Ht as <-. destruct (Hh eq_refl) as (e & He & <- & _). by apply ii_cache0.
    - intros j t f Ht. caller_cases Ht; [by destruct hit|eauto].
    - intros j t f Ht. caller_cases Ht; [by destruct hit|eauto].
    - intros j k t f t' Ht Hk. caller_cases Ht; [by destruct hit|]. caller_cases Hk; [by destruct hit|]. eauto. }
  cbn. destruct (caller_of s i) eqn:Ec; try done; apply Hgo; done.
Qed.

Lemma iam_step_join s i : iam_inv s → iam_inv (iam_step s (JoinFlight i)).
Proof.
  intros Hi. cbn. destruct (caller_of s i) eqn:Ec; try done. destruct Hi.
  destruct (flights s !! tok) as [f|] eqn:Hf.
  - split; cbn; try done.
    + intros j t Ht. caller_cases Ht; [done|eauto].
    + intros j t g Ht. caller_cases Ht; [injection Ht as <- <-|]; eauto.
    + intros j t g Ht. caller_cases Ht; [done|eauto].
    + intros j k t g t' Ht Hk. caller_cases Ht; [done|]. caller_cases Hk; [done|]. eauto.
  - assert (∀ g fl, flight_heap s !! g = Some fl → g ≠ flight_next s) as Hne.
    { intros g fl Hg ->. apply ii_fresh0 in Hg. lia. }
    assert (∀ j t g, leads (caller_of s j) = Some (t, g) → g ≠ flight_next s ∧ t ≠ tok) as Hlead.
    { intros j t g Hl. apply ii_lead0 in Hl. split; [|congruence].
      destruct (ii_flights0 _ _ Hl) as (fl & Hfl & _). by eapply Hne. }
    split; cbn; try done.
    + intros j t Ht. caller_cases Ht; [done|eauto].
    + intros j t g Ht. caller_cases Ht; [done|]. destruct (ii_wait0 _ _ _ Ht) as (fl & Hfl & <-).
      exists fl. rewrite lookup_insert_ne; [done|]. intros <-. by eapply Hne.
    + intros j t g Ht. caller_cases Ht; [injection Ht as <- <-; by rewrite lookup_insert_eq|].
      destruct (Hlead _ _ _ Ht). rewrite lookup_insert_ne by done. eauto.
    + intros j k t g t' Ht Hk. caller_cases Ht.
      * injection Ht as <- <-. caller_cases Hk; [congruence|]. by destruct (Hlead _ _ _ Hk).
      * caller_cases Hk; [|eauto]. injection Hk as <- <-. by destruct (Hlead _ _ _ Ht).
    + intros t g Hg. apply lookup_insert_Some in Hg as [[<- <-]|[Hn Hg]].
      * rewrite lookup_insert_eq. eauto.
      * destruct (ii_flights0 _ _ Hg) as (fl & Hfl & <-). exists fl. rewrite lookup_insert_ne; [done|].
        intros <-. by eapply Hne.
    + intros g fl Hg. apply lookup_insert_Some in Hg as [[<- <-]|[Hn Hg]]; [done|eauto].
    + intros g fl Hg. apply lookup_insert_Some in Hg as [[<- <-]|[Hn Hg]]; [lia|].
      apply ii_fresh0 in Hg. lia.
Qed.

(** A step that only moves a caller that keeps leading (or not) the same flight. *)
Lemma iam_set_caller s i c :
  iam_inv s → leads c = leads (caller_of s i) →
  (∀ tok f, c = Waiting tok f → caller_of s i = Waiting tok f) →
  (∀ tok, verdict_ok c = Some tok → was_accepted s tok) →
  iam_inv (set_caller s i c).
Proof.
  intros [] Hl Hwait Hv. split; cbn; try done.
  - intros j t Ht. caller_cases Ht; eauto.
  - intros j t g Ht. caller_cases Ht; [subst j; apply Hwait in Ht|]; eauto.
  - intros j t g Ht. caller_cases Ht; [subst j; rewrite Hl in Ht|]; eauto.
  - intros j k t g t' Ht Hk.
    assert (∀ x y, leads (caller_of (set_caller s i c) x) = Some y → leads (caller_of s x) = Some y) as Hsame.
    { intros x y Hx. caller_cases Hx; [subst x; congruence|done]. }
    eauto.
Qed.

Lemma iam_accept s tok now :
  iam_inv s →
  iam_inv (MkIam (cache s) (flights s) (flight_heap s) (flight_next s) (callers s) ((tok, now) :: accepted s)).
Proof.
  intros [].
  assert (∀ t, was_accepted s t →
    was_accepted (MkIam (cache s) (flights s) (flight_heap s) (flight_next s) (callers s) ((tok, now) :: accepted s)) t) as Hm.
  { intros t [u Hu]. exists u. by right. }
  split; cbn; try done; eauto.
Qed.

Lemma iam_step_answer s i err now : iam_inv s → iam_inv (iam_step s (IamAnswer i err now)).
Proof.
  intros Hi. cbn. destruct (caller_of s i) eqn:Ec; try done. destruct err.
  - apply iam_set_caller; [done|by rewrite Ec|done|done].
  - apply (iam_set_caller (MkIam (cache s) (flights s) (flight_heap s) (flight_next s) (callers s) ((tok, now) :: accepted s)) i);
      [by apply iam_accept|by unfold caller_of in Ec |- *; cbn; rewrite Ec|done|].
    intros t [= <-]. exists now. left.
Qed.

Lemma iam_step_cache s i now : iam_inv s → iam_inv (iam_step s (CacheResult i now)).
Proof.
  intros Hi. cbn. destruct (caller_of s i) as [| | | |tok f err| | |] eqn:Ec; try done.
  assert (iam_inv (set_caller s i (Cached tok f err))) as Hs.
  { apply iam_set_caller; [done|by rewrite Ec|done|]. intros t Ht. apply (ii_verdict _ Hi i). by rewrite Ec. }
  destruct err; [done|]. destruct (ii_wf _ Hi) as [Hw Hc]. destruct (add_spec (cache s) tok () now Hw Hc) as [Hw' _].
  assert (was_accepted s tok) as Hacc by (apply (ii_verdict _ Hi i); by rewrite Ec).
  pose proof (add_contents (cache s) tok () now) as Ha. pose proof (add_const (cache s) tok () now) as [Hcap _].
  destruct Hs. split; cbn in *; try done.
  - unfold iam_add. split; [done|lia].
  - intros e [->|He]%Ha; [done|by apply ii_cache0|done|done].
Qed.

Lemma iam_step_complete s i : iam_inv s → iam_inv (iam_step s (CompleteFlight i)).
Proof.
  intros Hi. cbn. destruct (caller_of s i) as [| | | | |tok f err| |] eqn:Ec; try done.
  assert (iam_inv (set_caller s i (Finished tok f err))) as Hs.
  { apply iam_set_caller; [done|by rewrite Ec|done|]. intros t Ht. apply (ii_verdict _ Hi i). by rewrite Ec. }
  assert (flights s !! tok = Some f) as Hf by (apply (ii_lead _ Hi i); by rewrite Ec).
  destruct (ii_flights _ Hi _ _ Hf) as (fl & Hfl & Htok).
  assert (err = false → was_accepted s tok) as Hacc.
  { intros ->. apply (ii_verdict _ Hi i). by rewrite Ec. }
  assert (∀ g fl', flight_heap s !! g = Some fl' → ∃ fl2,
    <[f := MkFlight tok true err]> (flight_heap s) !! g = Some fl2 ∧ f_token fl2 = f_token fl') as Hkeep.
  { intros g fl' Hg. destruct (decide (f = g)) as [<-|Hne].
    - rewrite lookup_insert_eq. eexists; split; [done|]. cbn. congruence.
    - rewrite lookup_insert_ne by done. eauto. }
  destruct Hs. split; cbn in *; try done.
  - intros j t g Ht. destruct (ii_wait0 _ _ _ Ht) as (fl' & Hg & <-). by apply Hkeep.
  - intros t g Ht. destruct (ii_flights0 _ _ Ht) as (fl' & Hg & <-). by apply Hkeep.
  - intros g fl' Hg. apply lookup_insert_Some in Hg as [[<- <-]|[Hne Hg]]; [|by eapply ii_done0].
    cbn. intros _ He. by apply Hacc.
  - intros g fl' Hg. apply lookup_insert_Some in Hg as [[<- <-]|[Hne Hg]]; by eapply ii_fresh0.
Qed.

Lemma iam_step_delete s i : iam_inv s → iam_inv (iam_step s (DeleteFlight i)).
Proof.
  intros Hi. cbn. destruct (caller_of s i) as [| | | | | |tok f err|] eqn:Ec; try done.
  assert (leads (caller_of s i) = Some (tok, f)) as Hl by (by rewrite Ec).
  pose proof (ii_lead _ Hi _ _ _ Hl) as Hf. pose proof (ii_verdict _ Hi i) as Hvi. rewrite Ec in Hvi.
  destruct Hi. split; cbn; try done.
  - intros j t Ht. caller_cases Ht; [|eauto]. by apply Hvi.
  - intros j t g Ht. caller_cases Ht; [done|eauto].
  - intros j t g Ht. caller_cases Ht; [done|]. pose proof (ii_lead0 _ _ _ Ht) as Hg.
    rewrite lookup_delete_ne; [done|]. intros <-. assert (g = f) as -> by congruence.
    by pose proof (ii_unique0 _ _ _ _ _ Hl Ht).
  - intros j k t g t' Ht Hk. caller_cases Ht; [done|]. caller_cases Hk; [done|eauto].
  - intros t g Hg. apply lookup_delete_Some in Hg as [_ Hg]. eauto.
Qed.

Lemma iam_step_wake s i : iam_inv s → iam_inv (iam_step s (Wake i)).
Proof.
  intros Hi. cbn. destruct (caller_of s i) as [| |tok f| | | | |] eqn:Ec; try done.
  destruct (flight_heap s !! f) as [fl|] eqn:Hf; [|done]. destruct (f_done fl) eqn:Hd; [|done].
  apply iam_set_caller; [done|by rewrite Ec|done|]. intros t Ht. cbn in Ht.
  destruct (f_err fl) eqn:He; [done|]. injection Ht as <-.
  destruct (ii_wait _ Hi _ _ _ Ec) as (fl' & Hfl & <-). simplify_eq. by eapply ii_done.
Qed.

Lemma iam_run_inv evs : iam_inv (iam_run evs).
Proof.
  unfold iam_run. apply foldl_inv.
  - intros s ev _ Hi. destruct ev; auto using iam_step_start, iam_step_join, iam_step_answer, iam_step_cache,
      iam_step_complete, iam_step_delete, iam_step_wake.
  - assert (∀ i, caller_of iam_init i = Idle) as Hidle by (intros i; unfold caller_of; cbn; by rewrite lookup_empty).
    split; cbn; try done; try (intros *; rewrite ?Hidle; done).
    + split; [by apply new_lru_wf|done].
    + by intros e ?%elem_of_nil.
Qed.

(** Concurrent validation is sound and shares its calls: in every interleaving of
    callers with the IAM server's answers, a caller that returns without an
    error had its token accepted by the server, and never are two calls for
    the same token under way at once. *)
Theorem iam_single_flight evs :
  let s := iam_run evs in
  (∀ i tok, caller_of s i = Returned tok false → ∃ t, (tok, t) ∈ accepted s) ∧
  (∀ i j tok f g, caller_of s i = Leading tok f → caller_of s j = Leading tok g → i = j).
Proof.
  intros s. pose proof (iam_run_inv evs) as Hi. fold s in Hi. split.
  - intros i tok Hc. apply (ii_verdict _ Hi i). by rewrite Hc.
  - intros i j tok f g H1 H2.
    assert (leads (caller_of s i) = Some (tok, f)) as L1 by (by rewrite H1).
    assert (leads (caller_of s j) = Some (tok, g)) as L2 by (by rewrite H2).
    pose proof (ii_lead _ Hi _ _ _ L1). pose proof (ii_lead _ Hi _ _ _ L2).
    assert (g = f) as -> by congruence. by eapply ii_unique.
Qed.

(** ** How old an accepted identity can be *)

(** The clock of a call that takes at most [d]. *)
Definition clock_ok (d : Z) (t : clock) : Prop :=
  (at_lookup t ≤ at_expiry t ∧ at_expiry t ≤ at_iam t ∧ at_iam t ≤ at_iam_add t ∧
   at_iam_add t ≤ at_add t ∧ at_add t ≤ at_lookup t + d)%Z.

(** What an identity promises about its token. *)
Definition identity_of (tok : string) (identity : DeveloperIdentity) (p : JWTPayload) : Prop :=
  (∃ h sig, ParseJWT tok = Ok (MkJWT h p sig)) ∧ Sub p ≠ "" ∧ Role p = RoleDeveloper ∧
  identity = MkIdentity (Sub p) (Role p) (bool_decide (Sub p = SystemTenantID)).

Section developer.
  Variables (configured : bool) (iamValidator : string → Z → bool) (d : Z).

Record auth_inv (s : auth_state) : Prop := {
  ai_dev : wf (dev_cache s) ∧ (0 ≤ capacity (dev_cache s))%Z ∧ ttl (dev_cache s) = validatedDeveloperJWTCacheTTL;
  ai_iam : wf (iam_cache s) ∧ (0 ≤ capacity (iam_cache s))%Z ∧ ttl (iam_cache s) = iamCacheTTL;
  ai_iam_entry : ∀ e, e ∈ contents (iam_cache s) → (token e, validatedAt e) ∈ iam_accepted s;
  ai_dev_entry : ∀ e, e ∈ contents (dev_cache s) →
    ∃ p, identity_of (token e) (value e).1 p ∧ (value e).2 = Exp p ∧
      (configured = true → ∃ u, (token e, u) ∈ iam_accepted s ∧ (validatedAt e - u < iamCacheTTL + d)%Z);
}.

(** A validation that succeeds rests on an acceptance less than the cache's
    time before it. *)
Lemma ValidateWithIamServer_inv s tok now now_add :
  auth_inv s → (now ≤ now_add)%Z →
  let '(ok, s') := ValidateWithIamServer configured iamValidator s tok now now_add in
  auth_inv s' ∧ dev_cache s' = dev_cache s ∧ (∀ x, x ∈ iam_accepted s → x ∈ iam_accepted s') ∧
  (ok = true → configured = true →
   ∃ u, (tok, u) ∈ iam_accepted s' ∧ (now - u < iamCacheTTL)%Z).
Proof.
  intros Hi Ht. unfold ValidateWithIamServer. destruct configured; cbn; [|done].
  destruct (ai_iam _ Hi) as (Hw & Hc & Httl). pose proof (iam_get_contents (iam_cache s) tok now) as Hg.
  pose proof (iam_get_wf (iam_cache s) tok now Hw) as (Hw' & Hc' & Htt').
  pose proof (iam_get_hit (iam_cache s) tok now Hw) as Hh. destruct (iam_get (iam_cache s) tok now) as [hit c]. cbn in *.
  assert (auth_inv (MkAuthState (dev_cache s) c (iam_accepted s))) as Hi'.
  { destruct Hi. split; cbn; try done.
    - split_and!; [done|lia|congruence].
    - intros e He. eauto. }
  destruct hit.
  { split_and!; try done. intros _ _. destruct (Hh eq_refl) as (e & He & <- & Hlt).
    exists (validatedAt e). split; [by apply Hi|lia]. }
  destruct (iamValidator tok now); [|by split_and!].
  pose proof (add_spec c tok () now_add Hw' ltac:(lia)) as [Hwa _].
  pose proof (add_contents c tok () now_add) as Ha. pose proof (add_const c tok () now_add) as [Hca Hta].
  split_and!.
  - destruct Hi'. split; cbn in *; try done.
    + unfold iam_add. split_and!; [done|lia|congruence].
    + intros e [->|He]%Ha; [left|right; by apply ai_iam_entry0|done|lia].
    + intros e He. destruct (ai_dev_entry0 e He) as (p & H1 & H2 & H3). exists p. split_and!; [done..|].
      intros Hcf. destruct (H3 Hcf) as (u & Hu & ?). exists u. split; [by right|done].
  - done.
  - intros x Hx. cbn. by right.
  - intros _ _. exists now_add. cbn. split; [left|unfold iamCacheTTL, second; lia].
Qed.

Lemma IsExpired_earlier p now now' : (now ≤ now')%Z → IsExpired p now' = false → IsExpired p now = false.
Proof.
  unfold IsExpired. intros Hle. destruct (Exp p <=? 0)%Z; [done|]. intros H. breflect.
  apply Z.ltb_ge. assert (now / second ≤ now' / second)%Z by (apply Z.div_le_mono; [done|lia]). lia.
Qed.

(** What an answer promises about its call. *)
Definition answer_ok (s : auth_state) (tok : string) (t : clock) (r : res (Z * auth_error) DeveloperIdentity) : Prop :=
  ∀ identity, r = Ok identity →
  ∃ p, identity_of tok identity p ∧ IsExpired p (at_lookup t) = false ∧
    (configured = true → ∃ u, (tok, u) ∈ iam_accepted s ∧
       (at_lookup t - u < iamCacheTTL + validatedDeveloperJWTCacheTTL + d)%Z).

Lemma answer_ok_mono s s' tok t r :
  (∀ x, x ∈ iam_accepted s → x ∈ iam_accepted s') → answer_ok s tok t r → answer_ok s' tok t r.
Proof.
  intros Hs Ha identity Hr. destruct (Ha identity Hr) as (p & H1 & H2 & H3). exists p. split_and!; [done..|].
  intros Hc. destruct (H3 Hc) as (u & Hu & ?). eauto.
Qed.

Lemma AuthenticateDeveloperToken_inv s tok t :
  auth_inv s → clock_ok d t →
  let '(r, s') := AuthenticateDeveloperToken configured iamValidator s tok t in
  auth_inv s' ∧ (∀ x, x ∈ iam_accepted s → x ∈ iam_accepted s') ∧ answer_ok s' tok t r.
Proof.
  intros Hi Ht. unfold AuthenticateDeveloperToken. case_bool_decide; [done|].
  destruct (ai_dev _ Hi) as (Hw & Hc & Httl).
  pose proof (λ e, get_contents dev_stale (dev_cache s) tok (at_lookup t) e Hw) as Hg.
  destruct (get_spec dev_stale (dev_cache s) tok (at_lookup t) Hw) as [Hw' _].
  pose proof (get_const dev_stale (dev_cache s) tok (at_lookup t)) as [Hc' Httl'].
  pose proof (λ v, get_hit dev_stale (dev_cache s) tok (at_lookup t) v Hw) as Hh.
  destruct (get dev_stale (dev_cache s) tok (at_lookup t)) as [hit dc]. cbn [fst snd] in *.
  set (s0 := MkAuthState dc (iam_cache s) (iam_accepted s)).
  assert (auth_inv s0) as Hi0.
  { destruct Hi. split; cbn; try done.
    - split_and!; [done|lia|congruence].
    - intros e He. by apply ai_dev_entry0, Hg. }
  destruct hit as [[identity exp]|].
  { split_and!; [done..|]. intros i [= <-]. destruct (Hh _ eq_refl) as (e & He & <- & Hv & Hlt & Hst).
    destruct (ai_dev_entry _ Hi e He) as (p & Hid & Hexp & Hacc). rewrite Hv in *. cbn in *. subst exp.
    exists p. split_and!; [done|exact Hst|]. intros Hcf. destruct (Hacc Hcf) as (u & Hu & Hb). exists u.
    split; [done|]. rewrite Httl in Hlt. unfold validatedDeveloperJWTCacheTTL in *. lia. }
  destruct (ParseJWT tok) as [[h p sig]|e] eqn:Hp; [|by split_and!]. cbn [Payload].
  case_bool_decide as Hsub; [by split_and!|]. destruct (IsExpired p (at_expiry t)) eqn:He; [by split_and!|].
  pose proof (ValidateWithIamServer_inv s0 tok (at_iam t) (at_iam_add t) Hi0 ltac:(unfold clock_ok in Ht; lia)) as Hv.
  destruct (ValidateWithIamServer _ _ s0 tok _ _) as [ok s1]. destruct Hv as (Hi1 & Hd1 & Hmono & Hacc).
  destruct ok; cbn [negb]; [|split_and!; [exact Hi1|exact Hmono|by intros ? [=]]].
  destruct (bool_decide (Role p = RoleDeveloper)) eqn:Hrole; cbn [negb]; [|split_and!; [exact Hi1|exact Hmono|by intros ? [=]]].
  breflect. set (identity := MkIdentity _ _ _).
  assert (identity_of tok identity p) as Hid by (split_and!; [by exists h, sig|done..]).
  destruct (ai_dev _ Hi1) as (Hw1 & Hc1 & Ht1).
  pose proof (add_spec (dev_cache s1) tok (identity, Exp p) (at_add t) Hw1 Hc1) as [Hwa _].
  pose proof (add_contents (dev_cache s1) tok (identity, Exp p) (at_add t)) as Ha.
  pose proof (add_const (dev_cache s1) tok (identity, Exp p) (at_add t)) as [Hca Hta].
  unfold clock_ok in Ht. split_and!.
  - destruct Hi1. split; cbn in *; try done.
    + split_and!; [done|lia|congruence].
    + intros e [->|He']%Ha; [|by apply ai_dev_entry0|done|done]. exists p. cbn. split_and!; [done..|].
      intros Hcf. destruct (Hacc eq_refl Hcf) as (u & Hu & Hb). exists u. split; [done|]. lia.
  - done.
  - intros i [= <-]. exists p. split_and!; [done|by eapply IsExpired_earlier; [|exact He]; lia|].
    intros Hcf. destruct (Hacc eq_refl Hcf) as (u & Hu & Hb). exists u. split; [done|].
    unfold validatedDeveloperJWTCacheTTL, second. lia.
Qed.

Lemma auth_run_inv calls s :
  auth_inv s → Forall (λ c, clock_ok d c.2) calls →
  let '(rs, s') := auth_run configured iamValidator calls s in
  (∀ x, x ∈ iam_accepted s → x ∈ iam_accepted s') ∧ Forall2 (λ c r, answer_ok s' c.1 c.2 r) calls rs.
Proof.
  revert s. induction calls as [|[tok t] calls IH]; intros s Hi Hf; cbn [auth_run]; [done|].
  apply Forall_cons in Hf as [Ht Hf]. pose proof (AuthenticateDeveloperToken_inv s tok t Hi Ht) as Ha.
  destruct (AuthenticateDeveloperToken _ _ s tok t) as [r s1]. destruct Ha as (Hi1 & Hm1 & Ha).
  specialize (IH s1 Hi1 Hf). destruct (auth_run _ _ calls s1) as [rs s2]. destruct IH as [Hm2 Hr].
  split; [auto|]. constructor; [|done]. cbn. by eapply answer_ok_mono.
Qed.

(** An authenticated identity is genuine and fresh: in any sequence of calls, an
    identity returned for a token has the tenant and the developer role of
    that token's payload, the token had not expired when it was looked up, and
    when an IAM server is configured the server accepted this very token less
    than both cache times (sixty seconds) plus the duration of a call before. *)
Theorem developer_identity_fresh calls rs s' i tok t identity :
  (0 ≤ d)%Z → Forall (λ c, clock_ok d c.2) calls →
  auth_run configured iamValidator calls auth_init = (rs, s') →
  calls !! i = Some (tok, t) → rs !! i = Some (Ok identity) →
  ∃ p, identity_of tok identity p ∧ IsExpired p (at_lookup t) = false ∧
    (configured = true →
     ∃ u, (tok, u) ∈ iam_accepted s' ∧ (at_lookup t - u < 60 * second + d)%Z).
Proof.
  intros Hd Hf Hrun Hc Hr.
  assert (auth_inv auth_init) as Hi.
  { split; cbn; try done; try (split_and!; [by apply new_lru_wf|done..]); by intros e ?%elem_of_nil. }
  pose proof (auth_run_inv calls auth_init Hi Hf) as H. rewrite Hrun in H. destruct H as [_ Hall].
  destruct (Forall2_lookup_lr _ _ _ _ _ _ Hall Hc Hr identity eq_refl) as (p & H1 & H2 & H3). exists p.
  split_and!; [done..|]. intros Hcf. destruct (H3 Hcf) as (u & Hu & Hb). exists u. split; [done|].
  unfold iamCacheTTL, validatedDeveloperJWTCacheTTL, second in *. cbn [fst snd] in *. lia.
Qed.
End developer.

(** ** Examples *)

(** A token with the payload of a developer of tenant t1. *)
Definition ex_json (s : string) : string := str_map (λ c, if byte_eq 39 c then quote_char else c) s.
Definition ex_token : string := Eval vm_compute in
  b64_encode (ex_json "{'alg':'HS256','typ':'JWT'}") +:+ "."
    +:+ b64_encode (ex_json "{'sub':'t1','exp':2000000000,'role':'developer'}") +:+ ".sig".

Definition ex_clock (t : Z) : clock := MkClock t t t t t.

Example ex_parse : Payload <$> (match ParseJWT ex_token with Ok j => Some j | Err _ => None end) =
  Some (MkJWTPayload "t1" 2000000000 "developer").
Proof. vm_compute. reflexivity. Qed.

Lemma lru_refines_witness :
  let c := add (new_lru 1 100) "a" 7%Z 0 in
  contents (add c "b" 8%Z 10) = [MkCacheEntry "b" 8%Z 10%Z] ∧
  (get (λ _ _, false) c "a" 100).1 = None ∧ (get (λ _ _, false) c "a" 99).1 = Some 7%Z.
Proof.
  intros c. assert (wf c ∧ (0 ≤ capacity c)%Z) as [Hw Hc].
  { split; [|done]. apply add_spec; [by apply new_lru_wf|done]. }
  pose proof (lru_refines (λ _ _, false) c "b" 8%Z 10 Hw Hc) as H.
  destruct (get (λ _ _, false) c "b" 10). destruct H as (_ & _ & _ & -> & _).
  split; [reflexivity|]. split; reflexivity.
Defined.

Lemma developer_identity_fresh_witness : ∃ s' p u,
  auth_run true (λ _ now, (now =? 0)%Z) [(ex_token, ex_clock 0); (ex_token, ex_clock (29 * second))] auth_init =
    ([Ok (MkIdentity "t1" "developer" false); Ok (MkIdentity "t1" "developer" false)], s') ∧
  identity_of ex_token (MkIdentity "t1" "developer" false) p ∧
  (ex_token, u) ∈ iam_accepted s' ∧ (29 * second - u < 60 * second + 0)%Z.
Proof.
  assert (∃ s', auth_run true (λ _ now, (now =? 0)%Z)
    [(ex_token, ex_clock 0); (ex_token, ex_clock (29 * second))] auth_init =
    ([Ok (MkIdentity "t1" "developer" false); Ok (MkIdentity "t1" "developer" false)], s')) as [s' Hrun]
    by (eexists; vm_compute; reflexivity).
  assert (Forall (λ c, clock_ok 0 c.2) [(ex_token, ex_clock 0); (ex_token, ex_clock (29 * second))]) as Hf
    by (repeat constructor; cbn; lia).
  destruct (developer_identity_fresh true _ 0 _ _ s' 1 ex_token (ex_clock (29 * second))
    (MkIdentity "t1" "developer" false) ltac:(lia) Hf Hrun eq_refl eq_refl) as (p & H1 & _ & H3).
  destruct (H3 eq_refl) as (u & Hu & Hb). exists s', p, u. split; [exact Hrun|]. split; [exact H1|].
  split; [exact Hu|exact Hb].
Defined.
