(* ===== verification/Middleware.v ===== *)
(** * Middleware (pkg/frontend/middleware) and the HMAC check of wisecloud/auth.go

    The two gin middlewares in front of every route, the white list, the check
    whether a function is public, the role check, and the chain that wraps an
    invocation. A gin middleware maps a context to the context it passes on or
    to a response. The configuration, the function metadata and the answer of
    [ValidateWithIamServer] are arguments. *)

From S2P Require Import Prelude GoStrings Hashing Json Urn AliasRoute JwtAuth.
Open Scope string_scope.
Open Scope go_scope.

(** ** jwtauth_whitelist.go *)

Record AuthWhitelistRule := MkRule {
  Path : string; Methods : list string; MatchType : string; SkipAuth : bool;
}.

Definition defaultAuthWhitelist : list AuthWhitelistRule :=
  [ MkRule "/" ["GET"] "exact" true;
    MkRule "/api-docs" ["GET"] "exact" true;
    MkRule "/auth/" [] "prefix" true;
    MkRule "/healthz" ["GET"] "exact" true;
    MkRule "/serverless/v1/componentshealth" ["GET"] "exact" true;
    MkRule "/serverless/v1/capabilities" ["GET"] "exact" true;
    MkRule "/client/v1/lease" ["PUT"; "DELETE"] "exact" true;
    MkRule "/client/v1/lease/keepalive" ["POST"] "exact" true;
    MkRule "/terminal/static/" ["GET"] "prefix" true;
    MkRule "/terminal/ws" ["GET"] "exact" true;
    MkRule "/serverless/v1/ws" ["GET"] "exact" true;
    MkRule "/serverless/v1/http/" [] "prefix" true ].

(** The package variable [customAuthWhitelist]. *)
Definition SetAuthWhitelist (rules : list AuthWhitelistRule) : list AuthWhitelistRule := rules.
Definition AddAuthWhitelistRule (custom : list AuthWhitelistRule) (rule : AuthWhitelistRule)
    : list AuthWhitelistRule := (custom ++ [rule])%list.

Definition matchRule (path method : string) (rule : AuthWhitelistRule) : bool :=
  if bool_decide (Methods rule ≠ []) && negb (existsb (λ m, bool_decide (method = m)) (Methods rule))
  then false
  else if bool_decide (MatchType rule = "exact") then bool_decide (path = Path rule)
  else if bool_decide (MatchType rule = "prefix") then HasPrefix path (Path rule)
  else bool_decide (path = Path rule).

(** The first rule that matches decides, the custom rules first. *)
Definition isInAuthWhitelist (custom : list AuthWhitelistRule) (path method : string) : bool :=
  match find (matchRule path method) custom with
  | Some rule => SkipAuth rule
  | None =>
      match find (matchRule path method) defaultAuthWhitelist with
      | Some rule => SkipAuth rule
      | None => false
      end
  end.

Definition isTunnelRequest (path : string) : bool :=
  negb (bool_decide (path ≠ "/tunnel") && negb (HasPrefix path "/tunnel/")).

(** ** The context of a request

    Header names are canonical; [q] holds the first value of each query
    parameter; the keys are those the middlewares set. *)

Record gin_ctx := MkCtx {
  gc_path : string; gc_method : string; Params : string → string;
  headers : gmap string string; q : gmap string string; iam_token_cookie : option string;
  is_invoke : option bool; skip_jwt : option bool;
  jwt_tenant : option string; jwt_role : option string; jwt_sub : option string;
}.

Definition set_flags (c : gin_ctx) (inv skip : option bool) : gin_ctx :=
  MkCtx (gc_path c) (gc_method c) (Params c) (headers c) (q c) (iam_token_cookie c) inv skip
    (jwt_tenant c) (jwt_role c) (jwt_sub c).

(** A refusal is status 401; the text of the underlying error is left out of
    the message. *)
Inductive outcome :=
| Next (c : gin_ctx)
| Unauthorized (message : string).

(** ** jwtauth.go *)

Definition JWTAuthenticatedTenant (c : gin_ctx) : string * bool :=
  match jwt_tenant c with
  | None => ("", false)
  | Some value => (value, bool_decide (value ≠ ""))
  end.

(** [X-Tenant-ID] and [X-Tenant-Id] are the same canonical header. *)
Definition HeaderTenantID : string := "X-Tenant-Id".

(** The token of the request: header, query, cookie. *)
Definition request_token (c : gin_ctx) : string :=
  let h := default "" (headers c !! "X-Auth") in
  if bool_decide (h ≠ "") then h else
  let p := default "" (q c !! "token") in
  if bool_decide (p ≠ "") then p else default "" (iam_token_cookie c).

Section jwt.
  (** [EnableFuncTokenAuth]; whether [ValidateWithIamServer] returns nil. *)
  Variable enabled : bool.
  Variable iam_ok : string → bool.

Definition with_identity (c : gin_ctx) (p : JWTPayload) : gin_ctx :=
  let set := bool_decide (Sub p ≠ "") in
  MkCtx (gc_path c) (gc_method c) (Params c)
    (if set then <[HeaderTenantID := Sub p]> (headers c) else headers c)
    (if set then <["tenant_id" := Sub p]> (q c) else q c)
    (iam_token_cookie c) (is_invoke c) (skip_jwt c)
    (if set then Some (Sub p) else jwt_tenant c) (Some (Role p)) (Some (Sub p)).

Definition JWTAuthMiddlewareWithRoles (allowedRoles : list string) (c : gin_ctx) : outcome :=
  if negb enabled then Next c else
  let authHeader := request_token c in
  if bool_decide (authHeader = "") then Unauthorized "Authentication failed: no token provided. Please enter a valid JWT token."
  else
    match ParseJWT authHeader with
    | Err _ => Unauthorized "Authentication failed: invalid or malformed token"
    | Ok parsed =>
        let role := Role (Payload parsed) in
        if negb (existsb (λ r, bool_decide (role = r)) allowedRoles)
        then Unauthorized ("Authentication failed: role " +:+ role +:+ " is not authorized to access this resource")
        else if negb (iam_ok authHeader)
        then Unauthorized "Authentication failed: IAM server validation failed"
        else Next (with_identity c (Payload parsed))
    end.

(** ** publicfunc_jwt_skip.go *)

Definition isSandboxDirectURL (path : string) : bool :=
  bool_decide (path = "/direct") || HasPrefix path "/direct/".

Definition HasSuffix (s suffix : string) : bool :=
  (String.length suffix <=? String.length s)%nat
  && bool_decide (str_drop (String.length s - String.length suffix) s = suffix).

Fixpoint trim_left_slash (s : string) : string :=
  match s with String c r => if byte_eq 47 c then trim_left_slash r else s | EmptyString => "" end.
Fixpoint trim_right_slash (s : string) : string :=
  match s with
  | EmptyString => ""
  | String c r =>
      match trim_right_slash r with
      | EmptyString => if byte_eq 47 c then "" else String c ""
      | r' => String c r'
      end
  end.
(** [strings.Trim(s, "/")]. *)
Definition TrimSlash (s : string) : string := trim_right_slash (trim_left_slash s).

Definition TrimPrefix (s p : string) : string :=
  if HasPrefix s p then str_drop (String.length p) s else s.

Definition three_parts (s : string) : option (string * string * string) :=
  match Split s "/" with
  | [a; b; c] =>
      if bool_decide (a ≠ "") && bool_decide (b ≠ "") && bool_decide (c ≠ "") then Some (a, b, c) else None
  | _ => None
  end.

Definition api_prefixes : list string :=
  ["serverless"; "datasystem"; "client"; "frontend"; "admin"; "api"; "terminal"; "functions";
   "healthz"; "invocations"].

Definition isInvokeURL (path : string) : bool :=
  if HasPrefix path "/serverless/v1/functions/" && HasSuffix path "/invocations" then true
  else if HasPrefix path "/invocations/"
          && (match three_parts (TrimSlash (TrimPrefix path "/invocations/")) with
              | Some _ => true | None => false end) then true
  else match three_parts (TrimSlash path) with
       | Some (a, _, _) => negb (existsb (λ p, bool_decide (a = p)) api_prefixes)
       | None => false
       end.

Section preprocess.
  Variable aliases : Aliases.
  (** [LoadFuncSpec] and [IsFuncPublic]; a nil spec is not public. *)
  Variable loadFuncSpec : string → option bool.

Fixpoint buildFunctionKeys (functionURNs : list string) : res urn_error (list string) :=
  match functionURNs with
  | [] => Ok []
  | u :: rest =>
      let* info := GetFunctionInfo u in
      let* keys := buildFunctionKeys rest in
      Ok (CombineFunctionKey (TenantID info) (FuncName info) (FuncVersion info) :: keys)
  end.

(** The URN the request names, before aliases are resolved. *)
Definition plain_urn (c : gin_ctx) : string :=
  if HasPrefix (gc_path c) "/serverless/v1/functions/" && HasSuffix (gc_path c) "/invocations"
  then Params c "function-urn"
  else
    let tenantID := Params c "tenant-id" in
    let namespace := Params c "namespace" in
    let functionName := Params c "function" in
    if bool_decide (tenantID ≠ "") && bool_decide (namespace ≠ "") && bool_decide (functionName ≠ "")
    then BuildFunctionShortURN tenantID namespace functionName else "".

Definition extractFunctionKeys (c : gin_ctx) : res urn_error (list string) :=
  let plainURN := plain_urn c in
  if bool_decide (plainURN = "") then Ok []
  else buildFunctionKeys (GetCandidateFuncVersionURNsFromAlias aliases plainURN).

Definition allFunctionsPublic (funcKeys : list string) : bool :=
  forallb (λ k, match loadFuncSpec k with Some public => public | None => false end) funcKeys.

Definition InvokePreprocessMiddleware (c : gin_ctx) : gin_ctx :=
  if isSandboxDirectURL (gc_path c) then set_flags c (Some true) (skip_jwt c)
  else if isInvokeURL (gc_path c) then
    match extractFunctionKeys c with
    | Err _ | Ok [] => c
    | Ok funcKeys =>
        if allFunctionsPublic funcKeys then set_flags c (Some true) (Some true)
        else set_flags c (Some true) (skip_jwt c)
    end
  else c.

Definition ShouldSkipJWTAuth (c : gin_ctx) : bool := default false (skip_jwt c).
Definition IsInvokeURL (c : gin_ctx) : bool := default false (is_invoke c).

Definition GlobalJWTAuthMiddleware (custom : list AuthWhitelistRule) (c : gin_ctx) : outcome :=
  if isTunnelRequest (gc_path c) then Next c
  else if isInAuthWhitelist custom (gc_path c) (gc_method c) then Next c
  else if ShouldSkipJWTAuth c then Next c
  else JWTAuthMiddlewareWithRoles
         (if IsInvokeURL c then [RoleUser; RoleDeveloper] else [RoleDeveloper]) c.

(** [InitRoute] installs the two in this order. *)
Definition InitRoute_use (custom : list AuthWhitelistRule) (c : gin_ctx) : outcome :=
  GlobalJWTAuthMiddleware custom (InvokePreprocessMiddleware c).
End preprocess.
End jwt.

(** ** handlerchain.go *)

Section chain.
  Context {Ctx R : Type}.
Definition Handler : Type := Ctx → R.

(** [Use]: from the last middleware to the first. *)
Fixpoint Use (mws : list (Handler → Handler)) (handler : Handler) : Handler :=
  match mws with [] => handler | m :: rest => m (Use rest handler) end.
End chain.

(** ** body_size_check.go *)

Record invoke_ctx := MkInvokeCtx {
  IsHTTPUploadStream : bool; ReqHeader : gmap string string; RespHeader : gmap string string;
  ReqPath : string; ReqBody : string; StatusCode : Z; RespBody : string;
}.

Definition megabytes : Z := 1024 * 1024.
Record http_config := MkHttpConfig { MaxRequestBodySize : Z; MaxStreamRequestBodySize : Z }.

Definition size_msg (max len : Z) : string :=
  "the size of request body is beyond maximum:" +:+ FormatInt max +:+ ", body size:" +:+ FormatInt len.

Definition checkRequestBodySize (cfg : http_config) (ctx : invoke_ctx) : option string :=
  let bodyLength := Z.of_nat (String.length (ReqBody ctx)) in
  let max := wrapS 64 (MaxRequestBodySize cfg * megabytes) in
  if (max <? bodyLength)%Z then Some (size_msg max bodyLength) else None.

(** [strconv.ParseInt(s, 10, 64)] agrees with [Atoi] on 64-bit platforms. *)
Definition getContentLength (ctx : invoke_ctx) : res string Z :=
  match ReqHeader ctx !! "Content-Length" with
  | None => Err "Content-Length is invalid"
  | Some s =>
      match Atoi s with
      | None => Err "Content-Length is invalid"
      | Some n => if (n <? 0)%Z then Err "Content-Length is invalid" else Ok n
      end
  end.

Definition checkStreamRequestContentLength (cfg : http_config) (ctx : invoke_ctx) : option string :=
  match getContentLength ctx with
  | Err e => Some e
  | Ok bodyLength =>
      let max := wrapS 64 (MaxStreamRequestBodySize cfg * megabytes) in
      if (max <? bodyLength)%Z then Some (size_msg max bodyLength) else None
  end.

(** The error that ends the chain, or what comes next. *)
Definition BodySizeChecker {R} (cfg : http_config) (fail : invoke_ctx → string → R) (next : invoke_ctx → R)
    (ctx : invoke_ctx) : R :=
  let err := if IsHTTPUploadStream ctx then checkStreamRequestContentLength cfg ctx
             else checkRequestBodySize cfg ctx in
  match err with Some e => fail ctx e | None => next ctx end.

(** ** wisecloud/auth.go *)

(** The bytes of [sha256.Sum256] as a string, for HMAC. *)
Definition bytes_string (l : list Z) : string :=
  foldr (λ b s, String (ascii_of_N (Z.to_N b)) s) "" l.
Definition sha256_bytes (s : string) : string := bytes_string (sha256_words s ≫= be_bytes 4).

(** [hmac.New(sha256.New, key)]. *)
Definition hmac_key (key : string) : list Z :=
  let k := bytes_of (if (64 <? String.length key)%nat then sha256_bytes key else key) in
  (k ++ replicate (64 - length k) 0%Z)%list.
Definition hmac_pad (key : string) (b : Z) : string := bytes_string ((λ x, Z.lxor x b) <$> hmac_key key).
Definition sign (sk content : string) : string :=
  sha256_bytes (hmac_pad sk 92 +:+ sha256_bytes (hmac_pad sk 54 +:+ content)).

Definition encodeHex (data : string) : string := hex_bytes (bytes_of data).

Definition newline : string := String (ascii_of_N 10) "".
Definition sha256AndHex (input : string) : string := sha256_hex input +:+ newline.

Definition buildDigest (url timeStamp body ak : string) : string :=
  url +:+ newline +:+ "X-Timestamp: " +:+ timeStamp +:+ newline +:+ "X-Access-Key: " +:+ ak
    +:+ newline +:+ body.

Definition generateSignature (url timeStamp body ak sk : string) : string :=
  sign sk (sha256AndHex (buildDigest url timeStamp body ak)).

Record authorizationStruct := MkAuthorization { timeStamp : string; as_ak : string; signature : string }.

Definition CutPrefix (s p : string) : option string :=
  if HasPrefix s p then Some (str_drop (String.length p) s) else None.

Definition parseAuthorization (authorization : string) : option authorizationStruct :=
  match CutPrefix authorization "HMAC-SHA256 " with
  | None => None
  | Some suffix =>
      match Split suffix "," with
      | [s0; s1; s2] =>
          match CutPrefix s0 "timestamp=", CutPrefix s1 "access_key=", CutPrefix s2 "signature=" with
          | Some t, Some a, Some sg => Some (MkAuthorization t a sg)
          | _, _, _ => None
          end
      | _ => None
      end
  end.

Definition minute : Z := 60 * second.

Section hmac_auth.
  (** [time.Parse] with the layout [20060102T150405Z], in nanoseconds. *)
  Variable parse_time : string → option Z.

Definition AuthDownGradeFunctionCall (now : Z) (url : string) (hs : gmap string string) (body ak sk : string)
    : bool :=
  match parseAuthorization (default "" (hs !! "authorization")) with
  | None => false
  | Some info =>
      match parse_time (timeStamp info) with
      | None => false
      | Some t =>
          if (5 * minute <? now - t)%Z then false
          else bool_decide (encodeHex (generateSignature url (timeStamp info) body ak sk) = signature info)
      end
  end.

(** ** requestauthcheck.go

    [local_check] is [AuthCheckLocally] on the sign and the timestamp. *)
Definition authCheck (enable : bool) (now : Z) (ak sk : string) (local_check : string → string → option string)
    (c : invoke_ctx) : option string :=
  if negb enable then None else
  let requestSign := default "" (ReqHeader c !! "Authorization") in
  if HasPrefix requestSign "HMAC-SHA256 " then
    if AuthDownGradeFunctionCall now (ReqPath c) (RespHeader c) (ReqBody c) ak sk then None
    else Some "auth check failed"
  else local_check requestSign (default "" (ReqHeader c !! "X-Timestamp-Auth")).
End hmac_auth.

(** ** graceexit.go: requests and the exit as interleaved steps *)

Inductive filter_pc := FChecked | FRunning | FDone | FRefused.
Record exit_state := MkExit { graceExitFlag : bool; wg : Z; filters : gmap nat filter_pc; exited : bool }.
Inductive exit_event :=
| CheckFlag (i : nat)      (* reads the flag *)
| WgAdd (i : nat)          (* Wg.Add(1), then next runs *)
| WgDone (i : nat)         (* next returned *)
| SetFlag                  (* GraceExit begins *)
| WaitReturns.             (* Wg.Wait returns, GraceExit ends *)

Definition exit_step (s : exit_state) (ev : exit_event) : exit_state :=
  match ev with
  | CheckFlag i =>
      match filters s !! i with
      | None => MkExit (graceExitFlag s) (wg s)
                  (<[i := if graceExitFlag s then FRefused else FChecked]> (filters s)) (exited s)
      | Some _ => s
      end
  | WgAdd i =>
      match filters s !! i with
      | Some FChecked => MkExit (graceExitFlag s) (wg s + 1) (<[i := FRunning]> (filters s)) (exited s)
      | _ => s
      end
  | WgDone i =>
      match filters s !! i with
      | Some FRunning => MkExit (graceExitFlag s) (wg s - 1) (<[i := FDone]> (filters s)) (exited s)
      | _ => s
      end
  | SetFlag => MkExit true (wg s) (filters s) (exited s)
  | WaitReturns =>
      if graceExitFlag s && (wg s =? 0)%Z then MkExit true (wg s) (filters s) true else s
  end.

(** RFC 4231 style test vector. *)
Example hmac_vector :
  encodeHex (sign "key" "The quick brown fox jumps over the lazy dog") =
  "f7bc83f430538424b13298e6aa6fb143ef4d59a14946175997479dbc2d1a3cd8".
Proof. vm_compute. reflexivity. Qed.
