(* ===== verification/MiddlewareFacts.v ===== *)
(** * Facts about the middleware: what a request that reaches a handler has
    shown, and what the public-function check covers. *)

From S2P Require Import Prelude GoStrings Hashing Json Urn AliasRoute JwtAuth Middleware.
Open Scope string_scope.
Open Scope go_scope.

Lemma existsb_eq (x : string) l : existsb (λ y, bool_decide (x = y)) l = true ↔ x ∈ l.
Proof.
  rewrite existsb_exists. split.
  - intros (y & Hy & E). breflect. subst. by apply list_elem_of_In.
  - intros Hx. exists x. split; [by apply list_elem_of_In|]. by apply bool_decide_eq_true.
Qed.

(** The token of a request was checked, and who the request is for. *)
Definition authenticated (iam_ok : string → bool) (roles : list string) (c c' : gin_ctx) : Prop :=
  ∃ h p sig, request_token c ≠ "" ∧ ParseJWT (request_token c) = Ok (MkJWT h p sig) ∧
    iam_ok (request_token c) = true ∧ Role p ∈ roles ∧ c' = with_identity c p.

Lemma JWTAuth_next iam_ok roles c c' :
  JWTAuthMiddlewareWithRoles true iam_ok roles c = Next c' → authenticated iam_ok roles c c'.
Proof.
  unfold JWTAuthMiddlewareWithRoles. cbn [negb]. intros H. case_in H; [done|].
  destruct (ParseJWT _) as [[h p sig]|] eqn:Hp; [|done]. cbn [Payload] in H. case_in H; [done|]. case_in H; [done|].
  breflect. injection H as <-. exists h, p, sig. split_and!; try done. by apply existsb_eq.
Qed.

(** What the preprocessing leaves in the context. *)
Lemma preprocess_flags aliases load c :
  is_invoke c = None → skip_jwt c = None →
  let c' := InvokePreprocessMiddleware aliases load c in
  (IsInvokeURL c' = true → isSandboxDirectURL (gc_path c) = true ∨ isInvokeURL (gc_path c) = true) ∧
  (ShouldSkipJWTAuth c' = true →
   isInvokeURL (gc_path c) = true ∧
   ∃ keys, keys ≠ [] ∧ extractFunctionKeys aliases c = Ok keys ∧ Forall (λ k, load k = Some true) keys) ∧
  c' = set_flags c (is_invoke c') (skip_jwt c').
Proof.
  intros H1 H2 c'. unfold c', InvokePreprocessMiddleware.
  assert (c = set_flags c None None) as Hc by (destruct c; cbn in *; by rewrite H1, H2).
  assert ((IsInvokeURL c = true → isSandboxDirectURL (gc_path c) = true ∨ isInvokeURL (gc_path c) = true) ∧
    (ShouldSkipJWTAuth c = true → isInvokeURL (gc_path c) = true ∧ ∃ keys, keys ≠ [] ∧
      extractFunctionKeys aliases c = Ok keys ∧ Forall (λ k, load k = Some true) keys) ∧
    c = set_flags c (is_invoke c) (skip_jwt c)) as Hsame.
  { unfold IsInvokeURL, ShouldSkipJWTAuth. rewrite H1, H2. done. }
  destruct (isSandboxDirectURL _) eqn:Hd.
  { unfold IsInvokeURL, ShouldSkipJWTAuth. cbn [set_flags is_invoke skip_jwt]. rewrite H2. split_and!; auto; done. }
  destruct (isInvokeURL _) eqn:Hi; [|exact Hsame].
  destruct (extractFunctionKeys aliases c) as [[|k ks]|] eqn:Hk; [exact Hsame| |exact Hsame].
  destruct (allFunctionsPublic load (k :: ks)) eqn:Hp.
  - cbn. split_and!; auto. intros _. split; [done|]. exists (k :: ks). split_and!; [done..|].
    unfold allFunctionsPublic in Hp. rewrite forallb_forall in Hp. apply Forall_forall. intros x Hx.
    specialize (Hp x ltac:(by apply list_elem_of_In)). destruct (load x) as [[]|]; done.
  - unfold IsInvokeURL, ShouldSkipJWTAuth. cbn [set_flags is_invoke skip_jwt]. rewrite H2. split_and!; auto; done.
Qed.

(** C19. No route is reached unauthenticated: with token checks on, a request that
    passes the two middlewares in front of every route is a tunnel request, is
    white-listed, invokes a function all of whose possible versions are known
    and public, or carries a token that parses and that the IAM server
    accepted, with the developer role or, for invocations only, the user role;
    in the last case a subject of the token that is not empty replaces every
    tenant the client claimed. *)
Theorem routes_protected aliases load custom iam_ok c c' :
  is_invoke c = None → skip_jwt c = None →
  InitRoute_use true iam_ok aliases load custom c = Next c' →
  isTunnelRequest (gc_path c) = true ∨
  isInAuthWhitelist custom (gc_path c) (gc_method c) = true ∨
  (isInvokeURL (gc_path c) = true ∧
   ∃ keys, keys ≠ [] ∧ extractFunctionKeys aliases c = Ok keys ∧ Forall (λ k, load k = Some true) keys) ∨
  ∃ h p sig, request_token c ≠ "" ∧ ParseJWT (request_token c) = Ok (MkJWT h p sig) ∧
    iam_ok (request_token c) = true ∧
    (Role p = RoleDeveloper ∨
     Role p = RoleUser ∧ (isSandboxDirectURL (gc_path c) = true ∨ isInvokeURL (gc_path c) = true)) ∧
    (Sub p ≠ "" → headers c' !! HeaderTenantID = Some (Sub p) ∧ q c' !! "tenant_id" = Some (Sub p) ∧
                  JWTAuthenticatedTenant c' = (Sub p, true)).
Proof.
  intros H1 H2 H. unfold InitRoute_use in H.
  destruct (preprocess_flags aliases load c H1 H2) as (Hinv & Hskip & Hset).
  set (c1 := InvokePreprocessMiddleware aliases load c) in *. unfold GlobalJWTAuthMiddleware in H.
  assert (gc_path c1 = gc_path c ∧ gc_method c1 = gc_method c ∧ request_token c1 = request_token c) as (Hp & Hm & Ht)
    by (rewrite Hset; done).
  rewrite Hp, Hm in H. destruct (isTunnelRequest _); [by left|]. destruct (isInAuthWhitelist _ _ _); [right; by left|].
  destruct (ShouldSkipJWTAuth c1) eqn:Hs; [right; right; left; auto|]. right; right; right.
  apply JWTAuth_next in H as (h & p & sig & Hne & Hparse & Hiam & Hrole & ->). rewrite Ht in *.
  exists h, p, sig. split_and!; try done.
  - destruct (IsInvokeURL c1); [|left; by apply list_elem_of_singleton in Hrole].
    apply elem_of_cons in Hrole as [->|Hr%list_elem_of_singleton]; [right|by left]. auto.
  - intros Hsub. unfold with_identity, JWTAuthenticatedTenant. cbn. rewrite !bool_decide_true by done.
    by rewrite !lookup_insert_eq.
Qed.

Lemma buildFunctionKeys_in us keys u :
  buildFunctionKeys us = Ok keys → u ∈ us →
  ∃ info, GetFunctionInfo u = Ok info ∧ CombineFunctionKey (TenantID info) (FuncName info) (FuncVersion info) ∈ keys.
Proof.
  revert keys. induction us as [|x us IH]; intros keys H Hu; [by apply elem_of_nil in Hu|]. cbn [buildFunctionKeys] in H.
  destruct (GetFunctionInfo x) as [info|] eqn:Hx; [|done]. cbn in H.
  destruct (buildFunctionKeys us) as [ks|]; [|done]. cbn in H. injection H as <-.
  apply elem_of_cons in Hu as [->|Hu]; [exists info; split; [done|left]|].
  destruct (IH ks eq_refl Hu) as (i & Hi & Hin). exists i. split; [done|by right].
Qed.

(** The public-function check covers the routing: when the check on a weighted
    alias makes the middleware skip authentication, every version the alias
    routes any later request to is a function whose metadata is known and
    public, so no private version is reached through the skipped check. *)
Theorem public_skip_covers_routing m alias load c params k r :
  is_invoke c = None → skip_jwt c = None →
  RoutingType alias ≠ routingTypeRule → weights_ok (RoutingConfigs alias) →
  plain_urn c = AliasURN alias →
  ShouldSkipJWTAuth (InvokePreprocessMiddleware (AddAlias m alias) load c) = true →
  r ≠ "" → r ∈ fst (route k (AddAlias m alias) (AliasURN alias) params) →
  ∃ info, GetFunctionInfo r = Ok info ∧
    load (CombineFunctionKey (TenantID info) (FuncName info) (FuncVersion info)) = Some true.
Proof.
  intros H1 H2 Ht Hw Hu Hs Hne Hr.
  destruct (preprocess_flags (AddAlias m alias) load c H1 H2) as (_ & Hskip & _).
  destruct (Hskip Hs) as (_ & keys & _ & Hk & Hall). unfold extractFunctionKeys in Hk. rewrite Hu in Hk.
  case_in Hk; [by injection Hk as <-; destruct (Hskip Hs) as (_ & ks & Hne' & Hk' & _);
    unfold extractFunctionKeys in Hk'; rewrite Hu, Heqb in Hk'; injection Hk' as <-|].
  pose proof (route_in_candidates m alias params k r Ht Hw Hne Hr) as Hin.
  destruct (buildFunctionKeys_in _ _ _ Hk Hin) as (info & Hi & Hmem). exists info. split; [done|].
  by apply (proj1 (Forall_forall _ _) Hall).
Qed.

(** ** Divergences *)

(** A request signed with HMAC is refused whatever its signature: the check reads
    the headers of the response, which are empty when the chain runs. *)
Theorem hmac_requests_refused parse_time now ak sk local_check c :
  RespHeader c = ∅ → HasPrefix (default "" (ReqHeader c !! "Authorization")) "HMAC-SHA256 " = true →
  authCheck parse_time true now ak sk local_check c = Some "auth check failed".
Proof.
  intros Hr Hp. unfold authCheck. cbn [negb]. rewrite Hp. unfold AuthDownGradeFunctionCall.
  by rewrite Hr, lookup_empty.
Qed.

(** A token without a subject passes, and the tenant the client claimed stays. *)
Theorem empty_subject_keeps_claimed_tenant iam_ok roles c h p sig :
  request_token c ≠ "" → ParseJWT (request_token c) = Ok (MkJWT h p sig) → Sub p = "" →
  Role p ∈ roles → iam_ok (request_token c) = true →
  ∃ c', JWTAuthMiddlewareWithRoles true iam_ok roles c = Next c' ∧ headers c' = headers c ∧ q c' = q c.
Proof.
  intros Hne Hp Hs Hr Hi. unfold JWTAuthMiddlewareWithRoles. cbn [negb]. rewrite bool_decide_false by done.
  rewrite Hp. cbn [Payload]. rewrite (proj2 (existsb_eq _ _) Hr), Hi. cbn [negb]. eexists. split; [done|].
  unfold with_identity. by rewrite bool_decide_false by (rewrite Hs; auto).
Qed.

(** [GraceExit] can return before a request that read the flag has been counted,
    and the request then runs. *)
Example grace_exit_misses_request :
  let s := foldl exit_step (MkExit false 0 ∅ false) [CheckFlag 0; SetFlag; WaitReturns; WgAdd 0] in
  Middleware.exited s = true ∧ filters s !! 0%nat = Some FRunning.
Proof. vm_compute. done. Qed.

(** ** Examples *)

Definition mw_json (s : string) : string := str_map (λ c, if byte_eq 39 c then quote_char else c) s.
Definition mw_token : string := Eval vm_compute in
  b64_encode (mw_json "{'alg':'HS256'}") +:+ "." +:+ b64_encode (mw_json "{'sub':'t1','role':'user'}") +:+ ".s".

Definition mw_ctx (path : string) (tok : string) (params : string → string) : gin_ctx :=
  MkCtx path "POST" params (<["X-Auth" := tok]> {[HeaderTenantID := "evil"]}) ∅ None None None None None None.

Example mw_paths :
  (isInvokeURL <$> ["/serverless/v1/functions/urn/invocations"; "/invocations/t/ns/f/"; "/t/ns/f"; "/admin/a/b"; "/a/b"])
  = [true; true; true; false; false].
Proof. reflexivity. Qed.

Lemma routes_protected_witness : ∃ c',
  InitRoute_use true (λ _, true) ∅ (λ _, Some false) [] (mw_ctx "/direct/x" mw_token (λ _, "")) = Next c' ∧
  headers c' !! HeaderTenantID = Some "t1".
Proof.
  set (c := mw_ctx "/direct/x" mw_token (λ _, "")).
  assert (∃ c', InitRoute_use true (λ _, true) ∅ (λ _, Some false) [] c = Next c' ∧
    headers c' !! HeaderTenantID = Some "t1") as (c' & H & Hh) by (eexists; split; vm_compute; reflexivity).
  exists c'. split; [exact H|].
  destruct (routes_protected ∅ (λ _, Some false) [] (λ _, true) c c' eq_refl eq_refl H)
    as [Ht|[Hw|[[Hi _]|(h & p & sig & _ & Hp & _ & _ & Hsub)]]]; [discriminate Ht|discriminate Hw|discriminate Hi|].
  exact Hh.
Defined.

Definition mw_alias : AliasElement :=
  mkAlias (RoundRobin.mkWNGINX []) "sn:cn:yrk:t1:function:fn:gray" "" "sn:cn:yrk:t1:function:fn:1" "" "" "" ""
    "weight" (mkRules "" None "")
    [mkConfig "sn:cn:yrk:t1:function:fn:1" f_half; mkConfig "sn:cn:yrk:t1:function:fn:2" f_half].

Lemma public_skip_covers_routing_witness :
  ∃ info, GetFunctionInfo "sn:cn:yrk:t1:function:fn:2" = Ok info ∧
    (λ k, if bool_decide (k = "t1/fn/1") then Some true else if bool_decide (k = "t1/fn/2") then Some true else None)
      (CombineFunctionKey (TenantID info) (FuncName info) (FuncVersion info)) = Some true.
Proof.
  apply (public_skip_covers_routing ∅ mw_alias _
    (mw_ctx "/serverless/v1/functions/u/invocations" "" (λ _, "sn:cn:yrk:t1:function:fn:gray")) ∅ 2);
    [reflexivity|reflexivity|discriminate| |reflexivity|vm_compute; reflexivity|discriminate|vm_compute; right; left].
  split; [repeat constructor; vm_compute; discriminate|vm_compute; reflexivity].
Defined.
