(* ===== verification/MemMonitor.v ===== *)
(** * Admission by memory (faas_common/monitor/memory.go) and the traffic limiter
    (pkg/frontend/middleware/trafficlimit.go)

    A request is admitted when the memory in use leaves room below the high
    threshold and, for large bodies, when its function does not already use
    more than its share. Counters are uint64 with their wrap-around; the
    thresholds come from a cgroup file and floating-point percentages and are
    fields of the state. [Allow]'s compare-and-swap loop is atomic, so one
    successful turn is modelled. *)

From S2P Require Import Prelude GoStrings.
Open Scope Z_scope.

Record memMonitor := MkMon {
  enable : bool; used : Z; threshold : Z; statefulThreshold : Z; lowerThreshold : Z;
  functionMemMap : gmap string Z; totalMemCnt : Z; isStateful : bool;
}.

(** [parseValue]: negative numbers count as zero; [None] is an error. A
    negative number below the int64 range is one too. *)
Definition parseValue (s : string) : option Z :=
  match ParseUint s 64 with
  | Some v => Some v
  | None =>
      match s with
      | String "-" r =>
          if bool_decide (r = "") then None else
          match parse_digits 0 r with Some v => if 0 <? v then Some 0 else None | None => None end
      | _ => None
      end
  end.

Section monitor.
  Variable BodyThreshold : Z.

Definition Allow (m : memMonitor) (want : Z) : bool * memMonitor :=
  if negb (enable m) then (true, m) else
  let th := if isStateful m then statefulThreshold m else threshold m in
  let current := used m in
  if (th <? current) || (wrapU 64 (th - current) <? want) then (false, m)
  else (true, MkMon (enable m) (wrapU 64 (current + want)) (threshold m) (statefulThreshold m)
                (lowerThreshold m) (functionMemMap m) (totalMemCnt m) (isStateful m)).

(** The parts of the state the accounting changes. *)
Definition set_account (m : memMonitor) (mm : gmap string Z) (t : Z) : memMonitor :=
  MkMon (enable m) (used m) (threshold m) (statefulThreshold m) (lowerThreshold m) mm t (isStateful m).

Definition increaseMemCnt (t size : Z) : Z := wrapU 64 (t + size).
Definition decreaseMemCnt (t size : Z) : Z := if t <? size then 0 else t - size.

Definition ReleaseFunctionMem (m : memMonitor) (urn : string) (size : Z) : memMonitor :=
  if negb (enable m) || (size <=? BodyThreshold) then m else
  match functionMemMap m !! urn with
  | None => m
  | Some memUsed =>
      set_account m
        (if memUsed <=? size then delete urn (functionMemMap m)
         else <[urn := memUsed - size]> (functionMemMap m))
        (decreaseMemCnt (totalMemCnt m) size)
  end.

Definition mallocFunctionMem (m : memMonitor) (urn : string) (realSize : Z) : memMonitor :=
  set_account m
    (match functionMemMap m !! urn with
     | None => <[urn := realSize]> (functionMemMap m)
     | Some memUsed => <[urn := wrapU 64 (memUsed + realSize)]> (functionMemMap m)
     end)
    (increaseMemCnt (totalMemCnt m) realSize).

Definition AllowByLowerThreshold (m : memMonitor) (urn : string) (size : Z) : bool * memMonitor :=
  if negb (enable m) || (size <=? BodyThreshold) then (true, m) else
  if (used m <=? lowerThreshold m) && (totalMemCnt m <=? lowerThreshold m)
  then (true, mallocFunctionMem m urn size)
  else
    match functionMemMap m !! urn with
    | None =>
        (true, set_account m (<[urn := size]> (functionMemMap m)) (increaseMemCnt (totalMemCnt m) size))
    | Some memUsed =>
        let n := Z.of_nat (base.size (functionMemMap m)) in
        let functionNum := if n <=? 0 then 1 else n in
        let averageMem := totalMemCnt m / functionNum in
        if memUsed <=? averageMem
        then (true, set_account m (<[urn := wrapU 64 (memUsed + size)]> (functionMemMap m))
                      (increaseMemCnt (totalMemCnt m) size))
        else (false, m)
    end.

Definition IsAllowByMemory (m : memMonitor) (urn : string) (want : Z) : bool * memMonitor :=
  let '(ok, m1) := Allow m want in
  if negb ok then (false, m1) else AllowByLowerThreshold m1 urn want.
End monitor.

(** ** trafficlimit.go: requests that enter and leave

    The memory part of [TrafficLimiter]: a request that was admitted releases
    its memory when the rest of the chain returns. [Refresh] is the ticker that
    stores the memory measured by the system. *)

Record traffic := MkTraffic { mon : memMonitor; outstanding : list (string * Z) }.
Inductive traffic_event :=
| Enter (urn : string) (want : Z)
| Leave (i : nat)
| Refresh (v : Z).

Definition traffic_step (bt : Z) (s : traffic) (ev : traffic_event) : traffic :=
  match ev with
  | Enter urn want =>
      let '(ok, m) := IsAllowByMemory bt (mon s) urn want in
      MkTraffic m (if ok then (urn, want) :: outstanding s else outstanding s)
  | Leave i =>
      match outstanding s !! i with
      | Some (urn, size) => MkTraffic (ReleaseFunctionMem bt (mon s) urn size) (delete i (outstanding s))
      | None => s
      end
  | Refresh v =>
      let m := mon s in
      MkTraffic (MkMon (enable m) v (threshold m) (statefulThreshold m) (lowerThreshold m)
                   (functionMemMap m) (totalMemCnt m) (isStateful m)) (outstanding s)
  end.

(** [init] with the thresholds it computes. *)
Definition mem_init (th sth lth : Z) : memMonitor := MkMon true 0 th sth lth ∅ 0 false.

(** ** Accounting *)

Section accounting.
  Variable bt : Z.
  Hypothesis Hbt : 0 ≤ bt.

(** The sizes that are accounted for, of all functions or of one. *)
Definition charged (size : Z) : Z := if size <=? bt then 0 else size.
Fixpoint total (l : list (string * Z)) : Z :=
  match l with [] => 0 | (_, s) :: r => charged s + total r end.
Fixpoint usage (urn : string) (l : list (string * Z)) : Z :=
  match l with [] => 0 | (u, s) :: r => (if bool_decide (u = urn) then charged s else 0) + usage urn r end.

Lemma charged_nonneg s : 0 ≤ charged s.
Proof. unfold charged. destruct (s <=? bt) eqn:E; breflect; lia. Qed.

Lemma usage_bounds urn l : 0 ≤ usage urn l ≤ total l.
Proof.
  induction l as [|[u s] l IH]; cbn; [lia|]. pose proof (charged_nonneg s). case_bool_decide; lia.
Qed.

Lemma delete_total l i u s : l !! i = Some (u, s) → total l = charged s + total (delete i l).
Proof.
  revert i. induction l as [|[u' s'] l IH]; intros [|i] H; cbn in *; try done.
  - by injection H as -> ->.
  - rewrite (IH i H). unfold delete. lia.
Qed.

Lemma delete_usage urn l i u s :
  l !! i = Some (u, s) → usage urn l = (if bool_decide (u = urn) then charged s else 0) + usage urn (delete i l).
Proof.
  revert i. induction l as [|[u' s'] l IH]; intros [|i] H; cbn in *; try done.
  - by injection H as -> ->.
  - rewrite (IH i H). unfold delete. lia.
Qed.

Record accounts (s : traffic) : Prop := {
  ac_on : enable (mon s) = true;
  ac_total : totalMemCnt (mon s) = total (outstanding s);
  ac_map : ∀ urn, functionMemMap (mon s) !! urn =
             if 0 <? usage urn (outstanding s) then Some (usage urn (outstanding s)) else None;
}.

Lemma Allow_account m want ok m' :
  Allow m want = (ok, m') →
  enable m' = enable m ∧ functionMemMap m' = functionMemMap m ∧ totalMemCnt m' = totalMemCnt m.
Proof. unfold Allow. intros H. repeat case_in H; by injection H as <- <-. Qed.

(** Charging a request to its function, as both branches of the check do. *)
Lemma charge_account s urn size m' :
  accounts s → bt < size → total (outstanding s) + size < 2 ^ 64 →
  enable m' = true → totalMemCnt m' = increaseMemCnt (totalMemCnt (mon s)) size →
  functionMemMap m' =
    <[urn := default 0 (functionMemMap (mon s) !! urn) + size]> (functionMemMap (mon s)) →
  accounts (MkTraffic m' ((urn, size) :: outstanding s)).
Proof.
  intros [Hon Ht Hm] Hs Hb Hen Htot Hmap. pose proof (usage_bounds urn (outstanding s)).
  assert (charged size = size) as Hc by (unfold charged; destruct (size <=? bt) eqn:E; breflect; lia).
  split; cbn.
  - done.
  - rewrite Htot, Ht, Hc. unfold increaseMemCnt. rewrite wrapU_small by lia. lia.
  - intros u. rewrite Hmap, Hc. case_bool_decide as E.
    + subst u. rewrite lookup_insert_eq, Hm.
      destruct (0 <? usage urn (outstanding s)) eqn:E1; breflect; cbn;
        (destruct (0 <? size + usage urn (outstanding s)) eqn:E2; breflect; [f_equal; lia|lia]).
    + rewrite lookup_insert_ne, Hm by done. by rewrite Z.add_0_l.
Qed.

Lemma enter_account s urn want :
  accounts s → 0 ≤ want → total (outstanding s) + want < 2 ^ 64 →
  accounts (traffic_step bt s (Enter urn want)).
Proof.
  intros Ha Hw Hb. cbn. unfold IsAllowByMemory. destruct (Allow (mon s) want) as [ok m1] eqn:HA.
  apply Allow_account in HA as (He & Hf & Ht).
  assert (accounts (MkTraffic m1 (outstanding s))) as Ha1.
  { destruct Ha. split; cbn; rewrite ?He, ?Hf, ?Ht; done. }
  destruct ok; cbn [negb]; [|done]. pose proof (usage_bounds urn (outstanding s)) as Hu.
  pose proof (ac_on _ Ha1) as Hon. pose proof (ac_map _ Ha1 urn) as Hmu. cbn in Hon, Hmu.
  unfold AllowByLowerThreshold. rewrite Hon. cbn [negb orb].
  destruct (want <=? bt) eqn:Hle.
  { assert (charged want = 0) as Hz by (unfold charged; by rewrite Hle).
    destruct Ha1. split; cbn in *; rewrite ?Hz; [done|lia|]. intros u. rewrite ac_map0.
    by case_bool_decide; rewrite ?Z.add_0_l. }
  breflect.
  assert (∀ v, functionMemMap m1 !! urn = Some v → wrapU 64 (v + want) = v + want) as Hwrap.
  { intros v Hv. rewrite Hmu in Hv. case_in Hv; [|done]. injection Hv as <-. apply wrapU_small. lia. }
  destruct ((used m1 <=? lowerThreshold m1) && (totalMemCnt m1 <=? lowerThreshold m1)).
  { eapply (charge_account (MkTraffic m1 (outstanding s))); [done..|]. cbn.
    destruct (functionMemMap m1 !! urn) as [v|] eqn:Hv; cbn; [by rewrite Hwrap|by rewrite Z.add_0_l]. }
  destruct (functionMemMap m1 !! urn) as [v|] eqn:Hv.
  - cbv zeta. destruct (v <=? _); [|done].
    eapply (charge_account (MkTraffic m1 (outstanding s))); [done..|]. cbn. rewrite Hv. cbn. by rewrite Hwrap.
  - eapply (charge_account (MkTraffic m1 (outstanding s))); [done..|]. cbn. rewrite Hv. cbn. by rewrite Z.add_0_l.
Qed.

Lemma leave_account s i : accounts s → accounts (traffic_step bt s (Leave i)).
Proof.
  intros Ha. cbn. destruct (outstanding s !! i) as [[urn size]|] eqn:Hi; [|done].
  pose proof (delete_total _ _ _ _ Hi) as Hdt. pose proof (λ u, delete_usage u _ _ _ _ Hi) as Hdu.
  destruct Ha as [Hon Ht Hm]. unfold ReleaseFunctionMem. rewrite Hon. cbn [negb orb].
  assert (∀ u, 0 ≤ usage u (delete i (outstanding s)) ≤ total (delete i (outstanding s))) as Hub
    by (intros; apply usage_bounds).
  unfold charged in Hdt, Hdu. destruct (size <=? bt) eqn:Hle.
  { split; cbn; [done|lia|]. intros u. rewrite Hm, (Hdu u). by case_bool_decide; rewrite Z.add_0_l. }
  breflect. pose proof (Hdu urn) as Hd. rewrite bool_decide_true in Hd by done. pose proof (Hub urn) as Hu.
  rewrite Hm. destruct (0 <? usage urn (outstanding s)) eqn:Hpos; breflect; [|lia].
  split; cbn; [done|unfold decreaseMemCnt; destruct (_ <? size) eqn:E; breflect; lia|].
  intros u. destruct (decide (u = urn)) as [->|Hne].
  - destruct (usage urn (outstanding s) <=? size) eqn:E; breflect.
    + rewrite lookup_delete_eq. destruct (0 <? usage urn (delete i (outstanding s))) eqn:E2; breflect; [lia|done].
    + rewrite lookup_insert_eq. destruct (0 <? usage urn (delete i (outstanding s))) eqn:E2; breflect; [f_equal; lia|lia].
  - assert (usage u (delete i (outstanding s)) = usage u (outstanding s)) as Hsame.
    { rewrite (Hdu u). rewrite bool_decide_false by congruence. lia. }
    rewrite Hsame, <- Hm. destruct (_ <=? size); [by rewrite lookup_delete_ne|by rewrite lookup_insert_ne].
Qed.

(** What the events ask for in all. *)
Fixpoint asked (evs : list traffic_event) : Z :=
  match evs with [] => 0 | Enter _ want :: r => want + asked r | _ :: r => asked r end.

Definition wants_ok (ev : traffic_event) : Prop := match ev with Enter _ want => 0 ≤ want | _ => True end.

Lemma asked_nonneg evs : Forall wants_ok evs → 0 ≤ asked evs.
Proof. induction 1 as [|[] evs H Hf IH]; cbn in *; lia. Qed.

Lemma traffic_total s ev :
  wants_ok ev → total (outstanding (traffic_step bt s ev)) ≤ total (outstanding s) + asked [ev].
Proof.
  destruct ev as [urn want|i|v]; cbn; intros Hw; [|..].
  - destruct (IsAllowByMemory _ _ _ _) as [[] m]; cbn; [|lia]. unfold charged. destruct (want <=? bt); lia.
  - destruct (outstanding s !! i) as [[u z]|] eqn:Hi; cbn; [|lia]. rewrite (delete_total _ _ _ _ Hi).
    pose proof (charged_nonneg z). lia.
  - lia.
Qed.

Lemma run_account evs s :
  accounts s → Forall wants_ok evs → total (outstanding s) + asked evs < 2 ^ 64 →
  accounts (foldl (traffic_step bt) s evs).
Proof.
  revert s. induction evs as [|ev evs IH]; intros s Ha Hf Hb; [done|].
  apply Forall_cons in Hf as [Hw Hf]. cbn [foldl]. pose proof (traffic_total s ev Hw) as Ht.
  pose proof (asked_nonneg evs Hf). apply IH; [|done|destruct ev; cbn in *; lia].
  destruct ev as [urn want|i|v]; [apply enter_account; cbn in *; (done || lia)|by apply leave_account|].
  destruct Ha. by split.
Qed.
End accounting.

(** Memory accounts balance: whatever requests enter, are refused or leave, the
    total equals what the admitted large requests still under way asked for
    and each function is charged with its own, none wraps below zero, and when
    the last request has left nothing remains charged to any function. *)
Theorem memory_accounts_balance bt th sth lth evs :
  0 ≤ bt → Forall wants_ok evs → asked evs < 2 ^ 64 →
  let s := foldl (traffic_step bt) (MkTraffic (mem_init th sth lth) []) evs in
  totalMemCnt (mon s) = total bt (outstanding s) ∧
  (∀ urn, default 0 (functionMemMap (mon s) !! urn) = usage bt urn (outstanding s)) ∧
  (outstanding s = [] → totalMemCnt (mon s) = 0 ∧ functionMemMap (mon s) = ∅).
Proof.
  intros Hbt Hf Hb s.
  assert (accounts bt s) as [_ Ht Hm].
  { apply run_account; [done| |done|cbn; lia]. split; cbn; [done|done|]. intros. by rewrite lookup_empty. }
  split_and!; [done| |].
  - intros urn. rewrite Hm. pose proof (usage_bounds bt Hbt urn (outstanding s)).
    destruct (0 <? usage bt urn (outstanding s)) eqn:E; breflect; cbn; lia.
  - intros Ho. rewrite Ht, Ho. split; [done|]. apply map_eq. intros urn. rewrite Hm, Ho, lookup_empty. done.
Qed.

Definition ex_traffic : list traffic_event :=
  [Enter "f" 60; Enter "f" 70; Enter "g" 5; Leave 1; Enter "f" 50].

Lemma memory_accounts_balance_witness :
  let s := foldl (traffic_step 10) (MkTraffic (mem_init 1000 1000 100) []) ex_traffic in
  totalMemCnt (mon s) = total 10 (outstanding s) ∧ length (outstanding s) = 3%nat.
Proof.
  assert (Forall wants_ok ex_traffic) as Hf by (repeat constructor; cbn; lia).
  assert (asked ex_traffic < 2 ^ 64) as Hb by (cbn; lia).
  destruct (memory_accounts_balance 10 1000 1000 100 ex_traffic ltac:(lia) Hf Hb) as (H & _).
  split; [exact H|vm_compute; reflexivity].
Defined.
