(* ===== verification/SandboxNetwork.v ===== *)
(** * Network policies of sandboxes (pkg/frontend/api/sandbox/handler.go)

    Decoding and normalisation of the creation-time network policy: IPv4
    prefixes, domain patterns, port ranges, traffic and DNS rules. Pointers to
    structs are options. [idna.Lookup.ToASCII] of golang.org/x/net is a
    parameter, as is the Unicode case mapping; [net/netip] is modelled as far
    as IPv4 goes. JSON objects with repeated members are outside the model. *)

From S2P Require Import Prelude GoStrings Hashing Json.
Open Scope string_scope.
Open Scope go_scope.

(** ** Strings *)

Fixpoint str_forallb (f : ascii → bool) (s : string) : bool :=
  match s with EmptyString => true | String c r => f c && str_forallb f r end.

Definition HasSuffix (s p : string) : bool :=
  (String.length p <=? String.length s)%nat &&
  bool_decide (str_drop (String.length s - String.length p) s = p).

Definition TrimSuffix (s p : string) : string :=
  if HasSuffix s p then str_take (String.length s - String.length p) s else s.

Definition TrimPrefix (s p : string) : string :=
  if HasPrefix s p then str_drop (String.length p) s else s.

(** ** net/netip: IPv4 addresses are 32-bit numbers *)

(** A decimal octet without leading zeros. *)
Definition parse_octet (s : string) : option Z :=
  if bool_decide (s = "") || (HasPrefix s "0" && bool_decide (s ≠ "0")) then None
  else match parse_digits 0 s with Some v => if (v <=? 255)%Z then Some v else None | None => None end.

(** [ParseAddr] for addresses with [Is4]. *)
Definition ParseAddr4 (s : string) : option Z :=
  match Split s "." with
  | [a; b; c; d] =>
      match parse_octet a, parse_octet b, parse_octet c, parse_octet d with
      | Some a, Some b, Some c, Some d => Some (a * 2 ^ 24 + b * 2 ^ 16 + c * 2 ^ 8 + d)%Z
      | _, _, _, _ => None
      end
  | _ => None
  end.

Definition octet (addr : Z) (i : Z) : string := FormatUint (Z.land (Z.shiftr addr (8 * i)) 255).
Definition addr_string (addr : Z) : string :=
  octet addr 3 +:+ "." +:+ octet addr 2 +:+ "." +:+ octet addr 1 +:+ "." +:+ octet addr 0.
Definition prefix_string (addr bits : Z) : string := addr_string addr +:+ "/" +:+ FormatInt bits.

(** The bits of [ParsePrefix]: no sign and no leading zero. *)
Definition parse_bits (s : string) : option Z :=
  match s with
  | String c (String _ _) =>
      if byte_in 49 57 c then Atoi s else None
  | _ => Atoi s
  end.

(** [ParsePrefix] for IPv4. *)
Definition ParsePrefix4 (s : string) : option (Z * Z) :=
  match LastIndexByte s "/" with
  | None => None
  | Some i =>
      match ParseAddr4 (str_take i s), parse_bits (str_drop (i + 1) s) with
      | Some addr, Some bits => if (bits <? 0)%Z || (32 <? bits)%Z then None else Some (addr, bits)
      | _, _ => None
      end
  end.

(** [Masked]: the bits below the prefix are cleared. *)
Definition Masked (addr bits : Z) : Z := Z.ldiff addr (Z.ones (32 - bits)).

(** ** The policy *)

Record SandboxPortRange := MkPortRange { First : Z; Last : Z }.
Record SandboxNetworkEndpoint := MkEndpoint {
  CIDR : string; Domain : string; PortRange : option SandboxPortRange }.
Record SandboxTrafficRule := MkTrafficRule {
  Action : string; Direction : string; Protocol : string;
  Peer : option SandboxNetworkEndpoint; SandboxPorts : option SandboxPortRange; Priority : Z }.
Record SandboxTrafficPolicy := MkTrafficPolicy {
  IngressDefaultAction : string; EgressDefaultAction : string; Mode : string;
  Rules : list SandboxTrafficRule }.
Record SandboxDNSRule := MkDNSRule { dns_Action : string; Pattern : string }.
Record SandboxDNSPolicy := MkDNSPolicy { DefaultAction : string; dns_Rules : list SandboxDNSRule }.
Record SandboxNetworkPolicy := MkNetworkPolicy {
  BlockNetwork : bool; DNSBlacklist : list string; SchemaVersion : Z;
  Traffic : option SandboxTrafficPolicy; DNS : option SandboxDNSPolicy }.

Definition maxSandboxPort : Z := 65535.
Definition maxSandboxTrafficRules : nat := 256.
Definition defaultSandboxRulePriority : Z := 100.
Definition maxSandboxUserRulePriority : Z := 2 ^ 32 - 2.

(** *** Decoding

    Every struct of a policy is decoded with [DisallowUnknownFields]. *)

Definition known (names : list string) (kvs : list (string * any)) : bool :=
  forallb (λ kv, existsb (λ n, bool_decide (fold_name kv.1 = fold_name n)) names) kvs.

Definition strict {A} (names : list string) (decode : list (string * any) → option A)
    (kvs : list (string * any)) : option A :=
  if known names kvs then decode kvs else None.

Definition to_uint32 (v : any) : option Z :=
  match v with JNumber lit => ParseUint lit 32 | _ => None end.
Definition pointer_field {A} (conv : any → option A) (name : string) (kvs : list (string * any))
    : option (option A) :=
  field (λ v, Some <$> conv v) None name kvs.

Definition decode_port_range : list (string * any) → option SandboxPortRange :=
  strict ["first"; "last"] (λ kvs,
    MkPortRange <$> field to_uint32 0%Z "first" kvs <*> field to_uint32 0%Z "last" kvs).
Definition to_port_range : any → option SandboxPortRange := to_struct (MkPortRange 0 0) decode_port_range.

Definition decode_endpoint : list (string * any) → option SandboxNetworkEndpoint :=
  strict ["cidr"; "domain"; "portRange"] (λ kvs,
    MkEndpoint <$> string_field "cidr" kvs <*> string_field "domain" kvs
      <*> pointer_field to_port_range "portRange" kvs).
Definition to_endpoint : any → option SandboxNetworkEndpoint := to_struct (MkEndpoint "" "" None) decode_endpoint.

Definition decode_traffic_rule : list (string * any) → option SandboxTrafficRule :=
  strict ["action"; "direction"; "protocol"; "peer"; "sandboxPortRange"; "priority"] (λ kvs,
    MkTrafficRule <$> string_field "action" kvs <*> string_field "direction" kvs
      <*> string_field "protocol" kvs <*> pointer_field to_endpoint "peer" kvs
      <*> pointer_field to_port_range "sandboxPortRange" kvs <*> field to_uint32 0%Z "priority" kvs).

Definition decode_traffic : list (string * any) → option SandboxTrafficPolicy :=
  strict ["ingressDefaultAction"; "egressDefaultAction"; "mode"; "rules"] (λ kvs,
    MkTrafficPolicy <$> string_field "ingressDefaultAction" kvs <*> string_field "egressDefaultAction" kvs
      <*> string_field "mode" kvs
      <*> field (to_slice (to_struct (MkTrafficRule "" "" "" None None 0) decode_traffic_rule)) [] "rules" kvs).

Definition decode_dns_rule : list (string * any) → option SandboxDNSRule :=
  strict ["action"; "pattern"] (λ kvs, MkDNSRule <$> string_field "action" kvs <*> string_field "pattern" kvs).
Definition decode_dns : list (string * any) → option SandboxDNSPolicy :=
  strict ["defaultAction"; "rules"] (λ kvs,
    MkDNSPolicy <$> string_field "defaultAction" kvs
      <*> field (to_slice (to_struct (MkDNSRule "" "") decode_dns_rule)) [] "rules" kvs).

Definition zero_policy : SandboxNetworkPolicy := MkNetworkPolicy false [] 0 None None.
Definition decode_policy : list (string * any) → option SandboxNetworkPolicy :=
  strict ["blockNetwork"; "dnsBlacklist"; "schemaVersion"; "traffic"; "dns"] (λ kvs,
    MkNetworkPolicy <$> field to_bool false "blockNetwork" kvs
      <*> field (to_slice (λ v, match v with JNull => Some "" | _ => to_string v end)) [] "dnsBlacklist" kvs
      <*> field to_uint32 0%Z "schemaVersion" kvs
      <*> pointer_field (to_struct (MkTrafficPolicy "" "" "" []) decode_traffic) "traffic" kvs
      <*> pointer_field (to_struct (MkDNSPolicy "" []) decode_dns) "dns" kvs).

(** [SandboxNetworkPolicy.UnmarshalJSON]. *)
Definition UnmarshalJSON (data : string) : option SandboxNetworkPolicy :=
  match Unmarshal data with Some v => to_struct zero_policy decode_policy v | None => None end.

(** ** Normalisation *)

Inductive net_error :=
| ErrSchemaVersion | ErrMixedSchemas | ErrSchemaRequired | ErrBlockAndBlacklist
| ErrChoice (name : string) (allowed : list string)
| ErrTooManyRules | ErrPriority (prefix : string)
| ErrCidrAndDomain (prefix : string) | ErrCidr (value : string) | ErrDomainDirection (prefix : string)
| ErrPattern (description pattern : string)
| ErrPortRange (prefix : string) | ErrPortProtocol (prefix : string).

Section normalize.
  Variable unicode_lower : string → string.
  Variable ToASCII : string → option string.

Definition normalizeSandboxNetworkChoice (value name : string) (allowed : list string) : res net_error string :=
  let normalized := ToLower unicode_lower (TrimSpace value) in
  if existsb (λ candidate, bool_decide (normalized = candidate)) allowed then Ok normalized
  else Err (ErrChoice name allowed).

Definition ldh (c : ascii) : bool := byte_in 97 122 c || byte_in 48 57 c || byte_eq 45 c || byte_eq 95 c.
Definition domain_char (c : ascii) : bool := ldh c || byte_eq 46 c.

(** [sandboxDNSLabelPattern] and the conditions around it. *)
Definition label_ok (label : string) : bool :=
  negb (bool_decide (label = "")) && (String.length label <=? 63)%nat && negb (HasPrefix label "-") &&
  negb (HasSuffix label "-") && str_forallb ldh label.

Definition normalizeSandboxDomainPattern (pattern description : string) : res net_error string :=
  let bad := Err (ErrPattern description pattern) in
  let value := ToLower unicode_lower (TrimSuffix (TrimSpace pattern) ".") in
  let wildcard := HasPrefix value "*." in
  let value := if wildcard then TrimPrefix value "*." else value in
  if bool_decide (value = "") || has_byte "*" value || has_byte "?" value then bad else
  match (match ToASCII value with
         | Some a => Some a
         | None => if str_forallb domain_char value then Some value else None
         end) with
  | None => bad
  | Some a =>
      let value := ToLower unicode_lower a in
      if (253 <? String.length value)%nat then bad
      else if negb (forallb label_ok (Split value ".")) then bad
      else Ok (if wildcard then "*." +:+ value else value)
  end.

Definition normalizeSandboxDNSPattern (pattern : string) : res net_error string :=
  normalizeSandboxDomainPattern pattern "DNS blacklist".

Definition normalizeSandboxCIDR (value : string) : res net_error string :=
  let trimmed := TrimSpace value in
  if negb (has_byte "/" trimmed) then
    match ParseAddr4 trimmed with
    | None => Err (ErrCidr value)
    | Some address => Ok (prefix_string address 32)
    end
  else
    match ParsePrefix4 trimmed with
    | None => Err (ErrCidr value)
    | Some (addr, bits) => Ok (prefix_string (Masked addr bits) bits)
    end.

Definition normalizeSandboxPortRange (portRange : option SandboxPortRange) (prefix : string)
    : res net_error (option SandboxPortRange) :=
  match portRange with
  | None => Ok None
  | Some r =>
      if (First r =? 0)%Z || (Last r =? 0)%Z || (Last r <? First r)%Z || (maxSandboxPort <? Last r)%Z
      then Err (ErrPortRange prefix) else Ok (Some (MkPortRange (First r) (Last r)))
  end.

(** Port ranges need a protocol with ports. *)
Definition ports_without_protocol {A} (ports : option A) (protocol : string) : bool :=
  match ports with
  | Some _ => bool_decide (protocol ≠ "tcp") && bool_decide (protocol ≠ "udp")
  | None => false
  end.

Definition blank (s : string) : bool := bool_decide (TrimSpace s = "").

Definition normalizeSandboxNetworkEndpoint (peer : option SandboxNetworkEndpoint)
    (direction protocol prefix : string) : res net_error (option SandboxNetworkEndpoint) :=
  match peer with
  | None => Ok None
  | Some peer =>
      if negb (blank (CIDR peer)) && negb (blank (Domain peer)) then Err (ErrCidrAndDomain prefix) else
      let* cidr := (if blank (CIDR peer) then Ok "" else normalizeSandboxCIDR (CIDR peer)) in
      let* domain :=
        (if blank (Domain peer) then Ok ""
         else if bool_decide (direction ≠ "egress") then Err (ErrDomainDirection prefix)
         else normalizeSandboxDomainPattern (Domain peer) "domain") in
      let* ports := normalizeSandboxPortRange (PortRange peer) (prefix +:+ ".portRange") in
      if ports_without_protocol ports protocol then Err (ErrPortProtocol prefix)
      else if bool_decide (cidr = "") && bool_decide (domain = "") &&
              match ports with None => true | Some _ => false end
      then Ok None
      else Ok (Some (MkEndpoint cidr domain ports))
  end.

Definition normalizeSandboxTrafficRule (rule : SandboxTrafficRule) (index : nat) : res net_error SandboxTrafficRule :=
  let prefix := "traffic.rules[" +:+ FormatUint (Z.of_nat index) +:+ "]" in
  let* action := normalizeSandboxNetworkChoice (Action rule) (prefix +:+ ".action") ["allow"; "deny"] in
  let* direction := normalizeSandboxNetworkChoice (Direction rule) (prefix +:+ ".direction")
                      ["ingress"; "egress"; "both"] in
  let* protocol := normalizeSandboxNetworkChoice (Protocol rule) (prefix +:+ ".protocol")
                     ["any"; "tcp"; "udp"; "icmp"] in
  let priority := if (Priority rule =? 0)%Z then defaultSandboxRulePriority else Priority rule in
  if (maxSandboxUserRulePriority <? priority)%Z then Err (ErrPriority prefix) else
  let* peer := normalizeSandboxNetworkEndpoint (Peer rule) direction protocol (prefix +:+ ".peer") in
  let* sandboxPorts := normalizeSandboxPortRange (SandboxPorts rule) (prefix +:+ ".sandboxPortRange") in
  if ports_without_protocol sandboxPorts protocol then Err (ErrPortProtocol prefix)
  else Ok (MkTrafficRule action direction protocol peer sandboxPorts priority).

(** The loop over a list with an index that stops at the first error. *)
Fixpoint traverse {A B} (f : A → nat → res net_error B) (index : nat) (l : list A) : res net_error (list B) :=
  match l with
  | [] => Ok []
  | a :: l => let* b := f a index in let* bs := traverse f (S index) l in Ok (b :: bs)
  end.

Definition normalizeSandboxTrafficPolicy (policy : option SandboxTrafficPolicy)
    : res net_error (option SandboxTrafficPolicy) :=
  match policy with
  | None => Ok None
  | Some policy =>
      let* ingress := normalizeSandboxNetworkChoice (IngressDefaultAction policy)
                        "traffic.ingressDefaultAction" ["allow"; "deny"] in
      let* egress := normalizeSandboxNetworkChoice (EgressDefaultAction policy)
                       "traffic.egressDefaultAction" ["allow"; "deny"] in
      let* mode := normalizeSandboxNetworkChoice (if blank (Mode policy) then "stateful" else Mode policy)
                     "traffic.mode" ["stateful"; "stateless"] in
      if (maxSandboxTrafficRules <? length (Rules policy))%nat then Err ErrTooManyRules else
      let* rules := traverse normalizeSandboxTrafficRule 0 (Rules policy) in
      Ok (Some (MkTrafficPolicy ingress egress mode rules))
  end.

Definition normalizeSandboxDNSRule (rule : SandboxDNSRule) (index : nat) : res net_error SandboxDNSRule :=
  let* action := normalizeSandboxNetworkChoice (dns_Action rule)
                   ("dns.rules[" +:+ FormatUint (Z.of_nat index) +:+ "].action") ["allow"; "deny"] in
  let* pattern := normalizeSandboxDomainPattern (Pattern rule) "DNS" in
  Ok (MkDNSRule action pattern).

Definition normalizeSandboxDNSPolicy (policy : option SandboxDNSPolicy) : res net_error (option SandboxDNSPolicy) :=
  match policy with
  | None => Ok None
  | Some policy =>
      let* defaultAction := normalizeSandboxNetworkChoice (DefaultAction policy)
                              "dns.defaultAction" ["allow"; "deny"] in
      let* rules := traverse normalizeSandboxDNSRule 0 (dns_Rules policy) in
      Ok (Some (MkDNSPolicy defaultAction rules))
  end.

(** The loop over the legacy black list; [normalized] is also the set seen. *)
Fixpoint normalize_blacklist (patterns normalized : list string) : res net_error (list string) :=
  match patterns with
  | [] => Ok normalized
  | pattern :: rest =>
      let* value := normalizeSandboxDNSPattern pattern in
      if bool_decide (value ∈ normalized) then normalize_blacklist rest normalized
      else normalize_blacklist rest (normalized ++ [value])%list
  end.

Definition normalizeSandboxNetworkPolicy (policy : option SandboxNetworkPolicy)
    : res net_error (option SandboxNetworkPolicy) :=
  match policy with
  | None => Ok None
  | Some policy =>
      if negb (SchemaVersion policy =? 0)%Z && negb (SchemaVersion policy =? 2)%Z then Err ErrSchemaVersion
      else if (SchemaVersion policy =? 2)%Z then
        if BlockNetwork policy || negb (bool_decide (DNSBlacklist policy = [])) then Err ErrMixedSchemas else
        let* traffic := normalizeSandboxTrafficPolicy (Traffic policy) in
        let* dns := normalizeSandboxDNSPolicy (DNS policy) in
        match traffic, dns with
        | None, None => Ok None
        | _, _ => Ok (Some (MkNetworkPolicy false [] 2 traffic dns))
        end
      else
        match Traffic policy, DNS policy with
        | None, None =>
            if BlockNetwork policy && negb (bool_decide (DNSBlacklist policy = [])) then Err ErrBlockAndBlacklist
            else
              let* normalized := normalize_blacklist (DNSBlacklist policy) [] in
              if negb (BlockNetwork policy) && bool_decide (normalized = []) then Ok None
              else Ok (Some (MkNetworkPolicy (BlockNetwork policy) normalized 0 None None))
        | _, _ => Err ErrSchemaRequired
        end
  end.

End normalize.
