(* ===== verification/SandboxNetworkFacts.v ===== *)
(** * Normal form of network policies

    Normalisation yields well-formed policies and leaves well-formed policies
    alone, so a policy read back from a sandbox can be submitted again. *)

From S2P Require Import Prelude GoStrings Hashing Json SandboxNetwork.
Open Scope string_scope.
#[local] Arguments String.append : simpl never.

(** ** Strings of a class of bytes *)

Lemma str_forallb_app f s t : str_forallb f (s +:+ t) = str_forallb f s && str_forallb f t.
Proof.
  induction s as [|c s IH]; [done|]. rewrite app_cons_str. cbn [str_forallb]. by rewrite IH, andb_assoc.
Qed.

Lemma str_forallb_impl f g s : (∀ c, f c = true → g c = true) → str_forallb f s = true → str_forallb g s = true.
Proof.
  intros Hfg. induction s as [|c s IH]; [done|]. cbn. intros [Hc Hs]%andb_true_iff.
  by rewrite (Hfg c Hc), IH.
Qed.

Lemma rev_app_spec s t : String.rev_app s t = String.rev s +:+ t.
Proof.
  revert t. induction s as [|c s IH]; intros t; [done|]. unfold String.rev. cbn [String.rev_app].
  rewrite (IH (String c t)), (IH (String c "")). by rewrite app_assoc_str, app_cons_str, app_nil_l_str.
Qed.
Lemma rev_cons c s : String.rev (String c s) = String.rev s +:+ String c "".
Proof. unfold String.rev at 1. cbn [String.rev_app]. apply rev_app_spec. Qed.
Lemma rev_snoc s c : String.rev (s +:+ String c "") = String c (String.rev s).
Proof.
  induction s as [|a s IH]; [done|]. by rewrite app_cons_str, !rev_cons, IH, app_cons_str.
Qed.
Lemma rev_rev s : String.rev (String.rev s) = s.
Proof. induction s as [|c s IH]; [done|]. by rewrite rev_cons, rev_snoc, IH. Qed.
Lemma str_forallb_rev f s : str_forallb f (String.rev s) = str_forallb f s.
Proof.
  induction s as [|c s IH]; [done|]. rewrite rev_cons, str_forallb_app, IH. cbn.
  by rewrite andb_true_r, andb_comm.
Qed.

(** ASCII, no white space, no capital letters. *)
Definition canonical_char (c : ascii) : bool :=
  is_ascii_byte c && negb (is_space1 c) && negb (byte_in 65 90 c).

Lemma canonical_not_space a b c :
  canonical_char a = true →
  is_space1 a = false ∧ is_space2 a b = false ∧ is_space3 a b c = false ∧ is_space2 b a = false ∧ is_space3 c b a = false.
Proof.
  unfold canonical_char, is_ascii_byte, is_space2, is_space3, byte_in, byte_eq.
  intros [[Ha Hs]%andb_true_iff _]%andb_true_iff. apply N.ltb_lt in Ha. apply negb_true_iff in Hs.
  repeat split; [done|..];
    repeat (rewrite ?orb_false_iff, ?andb_false_iff, ?N.eqb_neq, ?N.leb_gt; try (split || (left; lia) || (right; lia) || lia)).
Qed.

Lemma trim_left_canonical s : str_forallb canonical_char s = true → trim_left s = s.
Proof.
  destruct s as [|a [|b [|c s]]]; [done|..]; cbn [str_forallb]; intros [Ha H]%andb_true_iff;
    cbn [trim_left]; destruct (canonical_not_space a "0" "0" Ha) as (H1 & _);
    rewrite H1; [done|..].
  - by destruct (canonical_not_space a b "0" Ha) as (_ & -> & _).
  - by destruct (canonical_not_space a b c Ha) as (_ & -> & -> & _).
Qed.

Lemma trim_right_canonical s : str_forallb canonical_char s = true → trim_right_rev s = s.
Proof.
  destruct s as [|a [|b [|c s]]]; [done|..]; cbn [str_forallb]; intros [Ha H]%andb_true_iff;
    cbn [trim_right_rev]; destruct (canonical_not_space a "0" "0" Ha) as (H1 & _);
    rewrite H1; [done|..].
  - by destruct (canonical_not_space a b "0" Ha) as (_ & _ & _ & -> & _).
  - by destruct (canonical_not_space a b c Ha) as (_ & _ & _ & -> & ->).
Qed.

Lemma TrimSpace_canonical s : str_forallb canonical_char s = true → TrimSpace s = s.
Proof.
  intros H. unfold TrimSpace. rewrite trim_left_canonical by done.
  rewrite trim_right_canonical by by rewrite str_forallb_rev. apply rev_rev.
Qed.

Lemma ToLower_canonical ul s : str_forallb canonical_char s = true → ToLower ul s = s.
Proof.
  intros H. unfold ToLower.
  assert (is_ascii s = true ∧ str_map lower_byte s = s) as [-> ->]; [|done].
  induction s as [|c s IH]; [done|]. cbn in *. apply andb_true_iff in H as [Hc H].
  destruct (IH H) as [-> ->]. unfold canonical_char in Hc. apply andb_true_iff in Hc as [[Ha _]%andb_true_iff Hb].
  apply negb_true_iff in Hb. unfold lower_byte. by rewrite Ha, Hb.
Qed.

(** A finite set of characters is checked by computation. *)
Definition all_ascii : list ascii := (λ n, ascii_of_N (N.of_nat n)) <$> seq 0 256.
Lemma all_ascii_spec c : c ∈ all_ascii.
Proof.
  unfold all_ascii. apply list_elem_of_fmap. exists (N.to_nat (N_of_ascii c)).
  rewrite N2Nat.id, ascii_N_embedding. split; [done|]. apply elem_of_seq.
  pose proof (N_ascii_bounded c). lia.
Qed.
Lemma ascii_check (P : ascii → bool) : forallb P all_ascii = true → ∀ c, P c = true.
Proof. intros H c. rewrite forallb_forall in H. apply H, list_elem_of_In, all_ascii_spec. Qed.

Lemma domain_char_canonical c : domain_char c = true → canonical_char c = true.
Proof.
  intros H. pose proof (ascii_check (λ c, implb (domain_char c) (canonical_char c)) eq_refl c) as Hc.
  cbv beta in Hc. by rewrite H in Hc.
Qed.
Lemma ldh_domain c : ldh c = true → domain_char c = true.
Proof. unfold domain_char. by intros ->. Qed.

Lemma has_byte_forallb f c s : str_forallb f s = true → f c = false → has_byte c s = false.
Proof.
  intros H Hc. induction s as [|a s IH]; [done|]. cbn in *. apply andb_true_iff in H as [Ha H].
  rewrite (IH H), orb_false_r. apply bool_decide_eq_false_2. intros ->. congruence.
Qed.

Lemma HasSuffix_spec s p : HasSuffix s p = true ↔ ∃ r, s = r +:+ p.
Proof.
  unfold HasSuffix. rewrite andb_true_iff, Nat.leb_le, bool_decide_eq_true. split.
  - intros [Hl He]. exists (str_take (String.length s - String.length p) s).
    transitivity (str_take (String.length s - String.length p) s +:+ str_drop (String.length s - String.length p) s);
      [by rewrite str_take_drop|by rewrite He].
  - intros [r ->]. rewrite length_app_str. split; [lia|].
    replace (String.length r + String.length p - String.length p) with (String.length r) by lia.
    apply str_drop_app.
Qed.

(** ** Domains *)

(** A domain name, and a pattern: a name or a wildcard in front of one. *)
Definition domain_ok (d : string) : bool := (String.length d <=? 253)%nat && forallb label_ok (Split d ".").
Definition pattern_ok (p : string) : Prop := ∃ d, domain_ok d = true ∧ (p = d ∨ p = "*." +:+ d).

Lemma Split_trailing_dot s : last (Split (s +:+ ".") ".") = Some "" ∧ (2 ≤ length (Split (s +:+ ".") "."))%nat.
Proof.
  induction s as [|a s [IH1 IH2]]; [by split; vm_compute; [|lia]|]. rewrite app_cons_str, Split_cons_byte.
  case_bool_decide.
  - destruct (Split (s +:+ ".") ".") as [|x l] eqn:E; [done|]. cbn in *. split; [done|lia].
  - destruct (Split (s +:+ ".") ".") as [|x [|y l]]; cbn in *; [lia..|]. split; [done|lia].
Qed.

Lemma Join_ldh l : Forall (λ x, str_forallb ldh x = true) l → str_forallb domain_char (Join l ".") = true.
Proof.
  induction 1 as [|x l Hx Hl IH]; [done|]. pose proof (str_forallb_impl _ _ _ ldh_domain Hx) as Hd.
  destruct l as [|y l]; [done|]. rewrite Join_cons by done. by rewrite !str_forallb_app, Hd, IH.
Qed.

Lemma domain_ok_chars d : domain_ok d = true → str_forallb domain_char d = true.
Proof.
  intros [_ H]%andb_true_iff. rewrite <- (Join_Split d ".") by done. apply Join_ldh.
  rewrite forallb_forall in H. apply Forall_forall. intros x Hx%list_elem_of_In. apply H in Hx.
  unfold label_ok in Hx. by apply andb_true_iff in Hx as [_ ?].
Qed.

Lemma domain_ok_no_suffix d : domain_ok d = true → TrimSuffix d "." = d.
Proof.
  intros [_ H]%andb_true_iff. unfold TrimSuffix. destruct (HasSuffix d ".") eqn:E; [|done].
  apply HasSuffix_spec in E as [r ->]. destruct (Split_trailing_dot r) as [Hl _].
  apply last_Some_elem_of in Hl. rewrite forallb_forall in H. apply list_elem_of_In, H in Hl. done.
Qed.

Lemma domain_ok_nonempty d : domain_ok d = true → d ≠ "".
Proof. by intros H ->. Qed.

Lemma HasPrefix_wildcard d : str_forallb domain_char d = true → HasPrefix d "*." = false.
Proof.
  destruct d as [|a d]; [done|]. cbn [str_forallb]. intros [Ha _]%andb_true_iff.
  destruct (HasPrefix (String a d) "*.") eqn:E; [|done]. apply HasPrefix_spec in E as [r E].
  rewrite app_cons_str in E. injection E as -> _. by vm_compute in Ha.
Qed.

Lemma TrimSuffix_wildcard d : domain_ok d = true → TrimSuffix ("*." +:+ d) "." = "*." +:+ d.
Proof.
  intros Hd. unfold TrimSuffix. destruct (HasSuffix ("*." +:+ d) ".") eqn:E; [|done].
  apply HasSuffix_spec in E as [r E]. exfalso.
  pose proof (domain_ok_nonempty _ Hd). pose proof (domain_ok_no_suffix _ Hd) as Ht. unfold TrimSuffix in Ht.
  assert (HasSuffix d "." = true) as Hs.
  { apply HasSuffix_spec. destruct r as [|a [|b r]]; rewrite ?app_cons_str, ?app_nil_l_str in E.
    - done.
    - injection E as _ E. done.
    - injection E as _ _ E. by exists r. }
  rewrite Hs in Ht. apply (f_equal String.length) in Ht. rewrite length_str_take in Ht.
  apply HasSuffix_spec in Hs as [r' ->]. rewrite length_app_str in Ht. cbn in Ht. lia.
Qed.

Section domains.
  Context (ul : string → string) (toASCII : string → option string).
  (** Names of letters, digits, hyphens and underscores stay as they are. *)
  Hypothesis Hidna : ∀ d, domain_ok d = true → toASCII d = None ∨ toASCII d = Some d.

Lemma normalize_domain_ok p desc v : normalizeSandboxDomainPattern ul toASCII p desc = Ok v → pattern_ok v.
Proof.
  unfold normalizeSandboxDomainPattern. intros H. do 4 (case_in H; try done).
  injection H as <-. breflect.
  match goal with |- pattern_ok (if ?w then _ else ?d) => exists d; split; [|destruct w; auto] end.
  unfold domain_ok. apply andb_true_iff. split; [by apply Nat.leb_le|done].
Qed.

Lemma normalize_domain_fix p desc : pattern_ok p → normalizeSandboxDomainPattern ul toASCII p desc = Ok p.
Proof using Hidna.
  intros (d & Hd & Hp). pose proof (domain_ok_chars _ Hd) as Hc.
  pose proof (str_forallb_impl _ _ _ domain_char_canonical Hc) as Hcan.
  assert (str_forallb canonical_char p = true ∧ TrimSuffix p "." = p) as [Hpc Hps].
  { destruct Hp as [->| ->]; [auto using domain_ok_no_suffix|].
    split; [by rewrite str_forallb_app, Hcan|by apply TrimSuffix_wildcard]. }
  unfold normalizeSandboxDomainPattern. rewrite TrimSpace_canonical, Hps, ToLower_canonical by done.
  assert ((if HasPrefix p "*." then TrimPrefix p "*." else p) = d ∧
          (if HasPrefix p "*." then "*." +:+ d else d) = p) as [-> Hback].
  { destruct Hp as [->| ->].
    - by rewrite HasPrefix_wildcard.
    - unfold TrimPrefix. by rewrite HasPrefix_app, str_drop_app. }
  rewrite (has_byte_forallb _ _ _ Hc), (has_byte_forallb _ _ _ Hc) by done.
  rewrite bool_decide_eq_false_2 by by apply domain_ok_nonempty. cbn [orb].
  assert (match toASCII d with Some a => Some a | None => if str_forallb domain_char d then Some d else None end
          = Some d) as ->.
  { destruct (Hidna _ Hd) as [->| ->]; [by rewrite Hc|done]. }
  rewrite ToLower_canonical by done. unfold domain_ok in Hd. apply andb_true_iff in Hd as [Hl%Nat.leb_le Hd].
  destruct (253 <? String.length d)%nat eqn:E; [apply Nat.ltb_lt in E; lia|]. rewrite Hd. cbn [negb]. by rewrite Hback.
Qed.

End domains.

(** ** IPv4 prefixes *)

Lemma octets_check :
  forallb (λ n, let s := FormatUint (Z.of_nat n) in
    bool_decide (parse_octet s = Some (Z.of_nat n)) && negb (has_byte "." s) && negb (has_byte "/" s) &&
    str_forallb canonical_char s && bool_decide (s ≠ "")) (seq 0 256) = true.
Proof. vm_compute. reflexivity. Qed.

Lemma octet_text n : (0 ≤ n < 256)%Z →
  let s := FormatUint n in
  parse_octet s = Some n ∧ has_byte "." s = false ∧ has_byte "/" s = false ∧
  str_forallb canonical_char s = true ∧ s ≠ "".
Proof.
  intros Hn. pose proof octets_check as H. rewrite forallb_forall in H.
  specialize (H (Z.to_nat n) ltac:(apply list_elem_of_In, elem_of_seq; lia)).
  cbv beta zeta in H. rewrite Z2Nat.id in H by lia.
  rewrite !andb_true_iff, !negb_true_iff, !bool_decide_eq_true in H. cbv zeta. naive_solver.
Qed.

Lemma octet_range addr i : (0 ≤ addr)%Z → (0 ≤ Z.land (Z.shiftr addr (8 * i)) 255 < 256)%Z.
Proof.
  intros Ha. change 255%Z with (Z.ones 8). rewrite Z.land_ones by lia. apply Z.mod_pos_bound. lia.
Qed.

Lemma octet_value addr i : (0 ≤ i)%Z → Z.land (Z.shiftr addr (8 * i)) 255 = ((addr / 2 ^ (8 * i)) mod 256)%Z.
Proof. intros Hi. change 255%Z with (Z.ones 8). rewrite Z.land_ones, Z.shiftr_div_pow2 by lia. done. Qed.

Lemma addr_recompose addr : (0 ≤ addr < 2 ^ 32)%Z →
  ((addr / 2 ^ 24) mod 256 * 2 ^ 24 + (addr / 2 ^ 16) mod 256 * 2 ^ 16 +
   (addr / 2 ^ 8) mod 256 * 2 ^ 8 + (addr / 2 ^ 0) mod 256 = addr)%Z.
Proof.
  intros H. change (2 ^ 24)%Z with (256 * (256 * 256))%Z. change (2 ^ 16)%Z with (256 * 256)%Z.
  change (2 ^ 8)%Z with 256%Z. change (2 ^ 0)%Z with 1%Z. change (2 ^ 32)%Z with 4294967296%Z in H.
  rewrite Z.div_1_r, <- !Z.div_div by lia.
  pose proof (Z.div_mod addr 256). pose proof (Z.div_mod (addr / 256) 256).
  pose proof (Z.div_mod (addr / 256 / 256) 256). pose proof (Z.mod_pos_bound (addr / 256 / 256 / 256) 256).
  assert (addr / 256 / 256 / 256 < 256)%Z by (repeat (apply Z.div_lt_upper_bound; [lia|]); lia).
  assert (0 ≤ addr / 256 / 256 / 256)%Z by (repeat (apply Z.div_pos; [|lia]); lia).
  rewrite (Z.mod_small (addr / 256 / 256 / 256)) by lia. lia.
Qed.

Lemma Split_four a b c d :
  has_byte "." a = false → has_byte "." b = false → has_byte "." c = false → has_byte "." d = false →
  Split (a +:+ "." +:+ b +:+ "." +:+ c +:+ "." +:+ d) "." = [a; b; c; d].
Proof.
  intros Ha Hb Hc Hd. pose proof (Split_Join "." [a; b; c; d]) as H. cbn [Join] in H. apply H; [done|].
  by repeat constructor.
Qed.

Lemma ParseAddr4_string addr : (0 ≤ addr < 2 ^ 32)%Z → ParseAddr4 (addr_string addr) = Some addr.
Proof.
  intros Ha. unfold ParseAddr4, addr_string, octet.
  destruct (octet_text _ (octet_range addr 3 ltac:(lia))) as (P3 & D3 & _).
  destruct (octet_text _ (octet_range addr 2 ltac:(lia))) as (P2 & D2 & _).
  destruct (octet_text _ (octet_range addr 1 ltac:(lia))) as (P1 & D1 & _).
  destruct (octet_text _ (octet_range addr 0 ltac:(lia))) as (P0 & D0 & _).
  rewrite Split_four, P3, P2, P1, P0 by done. f_equal. rewrite !octet_value by lia. by apply addr_recompose.
Qed.

Lemma addr_string_text addr : (0 ≤ addr)%Z →
  str_forallb canonical_char (addr_string addr) = true ∧ has_byte "/" (addr_string addr) = false.
Proof.
  intros Ha. unfold addr_string, octet.
  destruct (octet_text _ (octet_range addr 3 Ha)) as (_ & _ & S3 & C3 & _).
  destruct (octet_text _ (octet_range addr 2 Ha)) as (_ & _ & S2 & C2 & _).
  destruct (octet_text _ (octet_range addr 1 Ha)) as (_ & _ & S1 & C1 & _).
  destruct (octet_text _ (octet_range addr 0 Ha)) as (_ & _ & S0 & C0 & _).
  rewrite !str_forallb_app, !has_byte_app, C3, C2, C1, C0, S3, S2, S1, S0. done.
Qed.

Lemma bits_check :
  forallb (λ n, let s := FormatInt (Z.of_nat n) in
    bool_decide (parse_bits s = Some (Z.of_nat n)) && negb (has_byte "/" s) && str_forallb canonical_char s)
    (seq 0 33) = true.
Proof. vm_compute. reflexivity. Qed.

Lemma bits_text n : (0 ≤ n ≤ 32)%Z →
  parse_bits (FormatInt n) = Some n ∧ has_byte "/" (FormatInt n) = false ∧
  str_forallb canonical_char (FormatInt n) = true.
Proof.
  intros Hn. pose proof bits_check as H. rewrite forallb_forall in H. 
  specialize (H (Z.to_nat n) ltac:(apply list_elem_of_In, elem_of_seq; lia)).
  cbv beta zeta in H. rewrite Z2Nat.id in H by lia.
  rewrite !andb_true_iff, negb_true_iff, bool_decide_eq_true in H. naive_solver.
Qed.

Lemma Masked_range addr bits : (0 ≤ addr < 2 ^ 32)%Z → (bits ≤ 32)%Z → (0 ≤ Masked addr bits < 2 ^ 32)%Z.
Proof.
  intros Ha Hb. unfold Masked. rewrite Z.ldiff_ones_r, Z.shiftr_div_pow2, Z.shiftl_mul_pow2 by lia.
  assert (0 < 2 ^ (32 - bits))%Z by (apply Z.pow_pos_nonneg; lia).
  pose proof (Z.mul_div_le addr (2 ^ (32 - bits))). pose proof (Z.div_pos addr (2 ^ (32 - bits))). nia.
Qed.

Lemma Masked_idemp addr bits : Masked (Masked addr bits) bits = Masked addr bits.
Proof. unfold Masked. by rewrite Z.ldiff_ldiff_l, Z.lor_diag. Qed.

Lemma parse_octet_range s v : parse_octet s = Some v → (0 ≤ v < 256)%Z.
Proof.
  unfold parse_octet. intros H. case_in H; [done|]. destruct (parse_digits 0 s) as [n|] eqn:E; [|done].
  apply parse_digits_nonneg in E; [|lia]. case_in H; [|done]. injection H as <-. breflect. lia.
Qed.

Lemma ParseAddr4_range s addr : ParseAddr4 s = Some addr → (0 ≤ addr < 2 ^ 32)%Z.
Proof.
  unfold ParseAddr4. destruct (Split s ".") as [|a [|b [|c [|d [|]]]]]; try done. intros H.
  destruct (parse_octet a) eqn:Ea, (parse_octet b) eqn:Eb, (parse_octet c) eqn:Ec, (parse_octet d) eqn:Ed; try done.
  injection H as <-. apply parse_octet_range in Ea, Eb, Ec, Ed. lia.
Qed.

(** The prefixes normalisation produces. *)
Definition cidr_ok (s : string) : Prop :=
  ∃ addr bits, (0 ≤ addr < 2 ^ 32)%Z ∧ (0 ≤ bits ≤ 32)%Z ∧ Masked addr bits = addr ∧ s = prefix_string addr bits.

Lemma normalize_cidr_ok s v : normalizeSandboxCIDR s = Ok v → cidr_ok v.
Proof.
  unfold normalizeSandboxCIDR. intros H. case_in H.
  - destruct (ParseAddr4 (TrimSpace s)) as [addr|] eqn:E; [|done]. injection H as <-. apply ParseAddr4_range in E.
    exists addr, 32%Z. repeat split; [lia..|]. unfold Masked. apply Z.ldiff_0_r.
  - destruct (ParsePrefix4 (TrimSpace s)) as [[addr bits]|] eqn:E; [|done]. injection H as <-.
    unfold ParsePrefix4 in E. repeat case_in E; try done. injection E as -> ->. breflect.
    match goal with H : ParseAddr4 _ = Some addr |- _ => apply ParseAddr4_range in H end.
    exists (Masked addr bits), bits. repeat split; [apply Masked_range; lia..|lia|lia|apply Masked_idemp].
Qed.

Lemma prefix_string_text addr bits : (0 ≤ addr < 2 ^ 32)%Z → (0 ≤ bits ≤ 32)%Z →
  str_forallb canonical_char (prefix_string addr bits) = true ∧ has_byte "/" (prefix_string addr bits) = true ∧
  ParsePrefix4 (prefix_string addr bits) = Some (addr, bits).
Proof.
  intros Ha Hb. destruct (addr_string_text addr ltac:(lia)) as [Hc Hs]. destruct (bits_text bits Hb) as (Hp & Hs' & Hc').
  unfold prefix_string. rewrite !str_forallb_app, !has_byte_app, Hc, Hc'. repeat split.
  - by rewrite orb_true_r.
  - unfold ParsePrefix4. rewrite app_cons_str, app_nil_l_str, LastIndexByte_app by done.
    rewrite str_take_app. replace (String.length (addr_string addr) + 1) with (String.length (addr_string addr) + 1) by done.
    rewrite str_drop_app_add. cbn [str_drop]. rewrite ParseAddr4_string, Hp by done.
    destruct ((bits <? 0)%Z || (32 <? bits)%Z) eqn:E; [|done].
    apply orb_true_iff in E as [E|E]; breflect; lia.
Qed.

Lemma normalize_cidr_fix s : cidr_ok s → normalizeSandboxCIDR s = Ok s.
Proof.
  intros (addr & bits & Ha & Hb & Hm & ->). destruct (prefix_string_text addr bits Ha Hb) as (Hc & Hs & Hp).
  unfold normalizeSandboxCIDR. rewrite TrimSpace_canonical, Hs, Hp by done. cbn [negb]. by rewrite Hm.
Qed.

(** ** Well-formed policies *)

Definition port_ok (r : SandboxPortRange) : Prop := (1 ≤ First r ≤ Last r)%Z ∧ (Last r ≤ 65535)%Z.
Definition ports_ok (protocol : string) (ports : option SandboxPortRange) : Prop :=
  match ports with None => True | Some r => port_ok r ∧ (protocol = "tcp" ∨ protocol = "udp") end.

Definition endpoint_ok (direction protocol : string) (e : SandboxNetworkEndpoint) : Prop :=
  (CIDR e = "" ∨ cidr_ok (CIDR e)) ∧ (Domain e = "" ∨ direction = "egress" ∧ pattern_ok (Domain e)) ∧
  (CIDR e = "" ∨ Domain e = "") ∧ ports_ok protocol (PortRange e) ∧
  (CIDR e ≠ "" ∨ Domain e ≠ "" ∨ PortRange e ≠ None).

Definition actions : list string := ["allow"; "deny"].
Definition directions : list string := ["ingress"; "egress"; "both"].
Definition protocols : list string := ["any"; "tcp"; "udp"; "icmp"].
Definition modes : list string := ["stateful"; "stateless"].

Definition traffic_rule_ok (r : SandboxTrafficRule) : Prop :=
  Action r ∈ actions ∧ Direction r ∈ directions ∧ Protocol r ∈ protocols ∧
  match Peer r with None => True | Some e => endpoint_ok (Direction r) (Protocol r) e end ∧
  ports_ok (Protocol r) (SandboxPorts r) ∧ (1 ≤ Priority r ≤ 2 ^ 32 - 2)%Z.

Definition traffic_ok (t : SandboxTrafficPolicy) : Prop :=
  IngressDefaultAction t ∈ actions ∧ EgressDefaultAction t ∈ actions ∧ Mode t ∈ modes ∧
  Forall traffic_rule_ok (Rules t) ∧ (length (Rules t) ≤ 256)%nat.

Definition dns_ok (d : SandboxDNSPolicy) : Prop :=
  DefaultAction d ∈ actions ∧ Forall (λ r, dns_Action r ∈ actions ∧ pattern_ok (Pattern r)) (dns_Rules d).

(** Either a legacy policy, which blocks the network or lists domains once
    each, or a policy of schema 2 with traffic or DNS rules. *)
Definition policy_ok (p : SandboxNetworkPolicy) : Prop :=
  (SchemaVersion p = 0%Z ∧ Traffic p = None ∧ DNS p = None ∧
   (BlockNetwork p = true ∧ DNSBlacklist p = [] ∨
    BlockNetwork p = false ∧ DNSBlacklist p ≠ [] ∧ NoDup (DNSBlacklist p) ∧ Forall pattern_ok (DNSBlacklist p))) ∨
  (SchemaVersion p = 2%Z ∧ BlockNetwork p = false ∧ DNSBlacklist p = [] ∧
   (Traffic p ≠ None ∨ DNS p ≠ None) ∧
   match Traffic p with None => True | Some t => traffic_ok t end ∧
   match DNS p with None => True | Some d => dns_ok d end).

(** Numbers of a request are unsigned 32-bit. *)
Definition range_typed (r : SandboxPortRange) : Prop := (0 ≤ First r)%Z ∧ (0 ≤ Last r)%Z.
Definition rule_typed (r : SandboxTrafficRule) : Prop :=
  (0 ≤ Priority r)%Z ∧ (∀ p, SandboxPorts r = Some p → range_typed p) ∧
  (∀ e p, Peer r = Some e → PortRange e = Some p → range_typed p).
Definition policy_typed (p : SandboxNetworkPolicy) : Prop := ∀ t, Traffic p = Some t → Forall rule_typed (Rules t).

Lemma traverse_Forall {A B} (f : A → nat → res net_error B) (P : A → Prop) (Q : B → Prop) l i bs :
  (∀ a i b, P a → f a i = Ok b → Q b) → Forall P l → traverse f i l = Ok bs → Forall Q bs ∧ length bs = length l.
Proof.
  intros Hf Hl. revert i bs. induction Hl as [|a l Ha Hl IH]; intros i bs H; cbn in H; [by injection H as <-|].
  bind_in H b Hb. bind_in H bs' Hbs. injection H as <-. apply IH in Hbs as [? ?]. cbn. split; [eauto|lia].
Qed.

Lemma traverse_fix {A} (f : A → nat → res net_error A) l i :
  Forall (λ a, ∀ i, f a i = Ok a) l → traverse f i l = Ok l.
Proof. intros Hl. revert i. induction Hl as [|a l Ha Hl IH]; intros i; cbn; [done|]. by rewrite Ha; cbn; rewrite IH. Qed.

Lemma choice_in ul v name allowed r : normalizeSandboxNetworkChoice ul v name allowed = Ok r → r ∈ allowed.
Proof.
  unfold normalizeSandboxNetworkChoice. intros H. case_in H; [|done]. injection H as <-.
  match goal with H : existsb _ _ = true |- _ => apply existsb_exists in H as (x & Hx & E) end.
  apply bool_decide_eq_true in E as ->. by apply list_elem_of_In.
Qed.

Lemma choice_fix ul v name allowed :
  forallb (str_forallb canonical_char) allowed = true → v ∈ allowed →
  normalizeSandboxNetworkChoice ul v name allowed = Ok v.
Proof.
  intros Hc Hv. rewrite forallb_forall in Hc. pose proof (Hc v ltac:(by apply list_elem_of_In)) as Hcv.
  unfold normalizeSandboxNetworkChoice. rewrite TrimSpace_canonical, ToLower_canonical by done.
  assert (existsb (λ c, bool_decide (v = c)) allowed = true) as ->; [|done].
  apply existsb_exists. exists v. split; [by apply list_elem_of_In|by apply bool_decide_eq_true].
Qed.

Lemma blank_canonical s : str_forallb canonical_char s = true → blank s = bool_decide (s = "").
Proof. intros H. unfold blank. by rewrite TrimSpace_canonical. Qed.
Lemma pattern_canonical p : pattern_ok p → str_forallb canonical_char p = true ∧ p ≠ "".
Proof.
  intros (d & Hd & Hp). pose proof (str_forallb_impl _ _ _ domain_char_canonical (domain_ok_chars _ Hd)) as Hc.
  pose proof (domain_ok_nonempty _ Hd). destruct Hp as [->| ->]; [done|]. by rewrite str_forallb_app, Hc.
Qed.
Lemma cidr_canonical s : cidr_ok s → str_forallb canonical_char s = true ∧ s ≠ "".
Proof.
  intros (addr & bits & Ha & Hb & _ & ->). destruct (prefix_string_text addr bits Ha Hb) as (Hc & Hs & _).
  split; [done|]. intros E. by rewrite E in Hs.
Qed.

Lemma port_range_ok prefix protocol r r' :
  (∀ p, r = Some p → range_typed p) → normalizeSandboxPortRange r prefix = Ok r' →
  ports_without_protocol r' protocol = false → ports_ok protocol r'.
Proof.
  unfold normalizeSandboxPortRange, ports_without_protocol. intros Ht H Hp. destruct r as [[a b]|]; cbn in *.
  - case_in H; [done|]. injection H as <-. destruct (Ht _ eq_refl) as [? ?]; cbn in *.
    unfold maxSandboxPort in *. breflect. cbn. unfold port_ok; cbn. split; [lia|].
    apply andb_false_iff in Hp as [Hp|Hp]; apply bool_decide_eq_false in Hp; [left|right]; by apply dec_stable.
  - by injection H as <-.
Qed.

Lemma port_range_fix prefix protocol r :
  ports_ok protocol r → normalizeSandboxPortRange r prefix = Ok r ∧ ports_without_protocol r protocol = false.
Proof.
  destruct r as [[a b]|]; [|done]. intros [[? ?] Hp]. cbn in *. unfold maxSandboxPort.
  destruct (_ || _) eqn:E; [rewrite !orb_true_iff in E; naive_solver (breflect; lia)|]. split; [done|].
  destruct Hp as [->| ->]; done.
Qed.

Section policies.
  Context (ul : string → string) (toASCII : string → option string).
  Hypothesis Hidna : ∀ d, domain_ok d = true → toASCII d = None ∨ toASCII d = Some d.

Lemma endpoint_normal e direction protocol prefix e' :
  (∀ x p, e = Some x → PortRange x = Some p → range_typed p) →
  normalizeSandboxNetworkEndpoint ul toASCII e direction protocol prefix = Ok (Some e') →
  endpoint_ok direction protocol e'.
Proof using Type.
  intros Ht H. destruct e as [e|]; [|done]. unfold normalizeSandboxNetworkEndpoint in H.
  case_in H; [done|]. rename Heqb into Hboth.
  bind_in H cidr Hc. bind_in H name Hd. bind_in H ports Hp.
  destruct (ports_without_protocol ports protocol) eqn:Hpp; [done|]. case_in H; [done|]. injection H as <-.
  assert (cidr = "" ∨ negb (blank (CIDR e)) = true ∧ cidr_ok cidr) as Hc'.
  { case_in Hc; [left; by injection Hc as <-|]. right. eauto using normalize_cidr_ok. }
  assert (name = "" ∨ negb (blank (Domain e)) = true ∧ direction = "egress" ∧ pattern_ok name) as Hd'.
  { case_in Hd; [left; by injection Hd as <-|]. case_in Hd; [done|]. breflect. right.
    split; [done|]. split; [by apply dec_stable|]. eauto using normalize_domain_ok. }
  split; cbn; [naive_solver|]. split; [naive_solver|]. split.
  { destruct Hc' as [|[Hb1 _]]; [auto|]. destruct Hd' as [|[Hb2 _]]; [auto|]. by rewrite Hb1, Hb2 in Hboth. }
  split; [eapply port_range_ok; eauto|].
  match goal with E : _ && _ && _ = false |- _ => rewrite !andb_false_iff in E; destruct E as [[E|E]|E] end;
    breflect; [auto..|]. right; right. by destruct ports.
Qed.

Lemma endpoint_fix e direction protocol prefix :
  endpoint_ok direction protocol e →
  normalizeSandboxNetworkEndpoint ul toASCII (Some e) direction protocol prefix = Ok (Some e).
Proof using Hidna.
  destruct e as [cidr dom ports]. intros (Hc & Hd & Hone & Hp & Hany). cbn in *.
  destruct (port_range_fix (prefix +:+ ".portRange") _ _ Hp) as [Hr Hpp].
  assert (blank cidr = bool_decide (cidr = "")) as Hbc.
  { apply blank_canonical. destruct Hc as [->|Hc]; [done|]. by apply cidr_canonical. }
  assert (blank dom = bool_decide (dom = "")) as Hbd.
  { apply blank_canonical. destruct Hd as [->|[_ Hd]]; [done|]. by apply pattern_canonical. }
  rewrite Hbc, Hbd. clear Hbc Hbd.
  assert (negb (bool_decide (cidr = "")) && negb (bool_decide (dom = "")) = false) as ->.
  { destruct Hone as [->| ->]; cbn; [done|]. by rewrite andb_false_r. }
  assert ((if bool_decide (cidr = "") then Ok "" else normalizeSandboxCIDR cidr) = Ok cidr) as ->.
  { case_bool_decide; [by subst|]. apply normalize_cidr_fix. naive_solver. }
  cbn [res_bind].
  assert ((if bool_decide (dom = "") then Ok "" else if bool_decide (direction ≠ "egress")
           then Err (ErrDomainDirection prefix) else normalizeSandboxDomainPattern ul toASCII dom "domain") = Ok dom) as ->.
  { case_bool_decide; [by subst|]. destruct Hd as [|[-> Hd]]; [done|]. rewrite bool_decide_eq_false_2 by auto.
    by apply normalize_domain_fix. }
  cbn [res_bind]. rewrite Hr. cbn [res_bind]. rewrite Hpp.
  destruct (bool_decide (cidr = "") && _ && _) eqn:E; [|done]. breflect. subst. by destruct ports, Hany as [|[]].
Qed.

Lemma rule_normal r i r' :
  rule_typed r → normalizeSandboxTrafficRule ul toASCII r i = Ok r' → traffic_rule_ok r'.
Proof using Type.
  intros (Hpr & Hsp & Hpe) H. unfold normalizeSandboxTrafficRule in H. cbv zeta in H.
  bind_in H action Ha. bind_in H direction Hd. bind_in H protocol Hp. case_in H; [done|].
  bind_in H peer He. bind_in H ports Hs. case_in H; [done|]. injection H as <-.
  apply choice_in in Ha, Hd, Hp. unfold traffic_rule_ok; cbn. repeat split; try done.
  - destruct peer as [e|]; [|done]. eapply endpoint_normal; [|exact He]. intros x p Hx. eapply Hpe; exact Hx.
  - eapply port_range_ok; eauto.
  - destruct (Priority r =? 0)%Z eqn:E; breflect; [done|lia].
  - unfold maxSandboxUserRulePriority in *. by breflect.
Qed.

Lemma rule_fix r i : traffic_rule_ok r → normalizeSandboxTrafficRule ul toASCII r i = Ok r.
Proof using Hidna.
  destruct r as [a d p e s pr]. intros (Ha & Hd & Hp & He & Hs & Hpr). cbn in *.
  unfold normalizeSandboxTrafficRule. cbn [Action Direction Protocol Peer SandboxPorts Priority].
  rewrite !choice_fix by done. cbn [res_bind]. destruct (pr =? 0)%Z eqn:E0; breflect; [lia|].
  unfold maxSandboxUserRulePriority. destruct (2 ^ 32 - 2 <? pr)%Z eqn:E; breflect; [lia|].
  match goal with |- context [normalizeSandboxNetworkEndpoint _ _ _ _ _ ?x] =>
    assert (normalizeSandboxNetworkEndpoint ul toASCII e d p x = Ok e) as -> end.
  { destruct e as [e|]; [by apply endpoint_fix|done]. }
  cbn [res_bind].
  match goal with |- context [normalizeSandboxPortRange _ ?x] => destruct (port_range_fix x _ _ Hs) as [-> Hw] end.
  cbn [res_bind]. by rewrite Hw.
Qed.

Lemma traffic_normal t t' :
  Forall rule_typed (Rules t) → normalizeSandboxTrafficPolicy ul toASCII (Some t) = Ok t' →
  ∃ t'', t' = Some t'' ∧ traffic_ok t''.
Proof using Type.
  intros Ht H. unfold normalizeSandboxTrafficPolicy in H. bind_in H ing Hi. bind_in H eg He. bind_in H mode Hm. case_in H; [done|].
  bind_in H rules Hr. injection H as <-. eexists; split; [done|].
  apply (traverse_Forall _ rule_typed traffic_rule_ok) in Hr as [Hr Hl]; [|eauto using rule_normal|done].
  apply choice_in in Hi, He, Hm. unfold maxSandboxTrafficRules in *. breflect.
  repeat split; cbn; try done. by rewrite Hl.
Qed.

Lemma traffic_fix t : traffic_ok t → normalizeSandboxTrafficPolicy ul toASCII (Some t) = Ok (Some t).
Proof using Hidna.
  destruct t as [ing eg mode rules]. intros (Hi & He & Hm & Hr & Hl).
  cbn [IngressDefaultAction EgressDefaultAction Mode Rules] in *. unfold normalizeSandboxTrafficPolicy.
  cbn [IngressDefaultAction EgressDefaultAction Mode Rules]. rewrite !choice_fix by done. cbn [res_bind].
  assert (blank mode = false) as ->.
  { unfold modes in Hm. rewrite !elem_of_cons in Hm. destruct Hm as [->|[->|Hm]]; [done..|by apply elem_of_nil in Hm]. }
  rewrite choice_fix by done. cbn [res_bind]. unfold maxSandboxTrafficRules.
  destruct (256 <? length rules)%nat eqn:E; breflect; [lia|].
  rewrite traverse_fix; [done|]. eapply Forall_impl; [exact Hr|]. intros r Hr' i. by apply rule_fix.
Qed.

Lemma dns_normal d d' :
  normalizeSandboxDNSPolicy ul toASCII (Some d) = Ok d' → ∃ d'', d' = Some d'' ∧ dns_ok d''.
Proof using Type.
  intros H. cbn in H. bind_in H act Ha. bind_in H rules Hr. injection H as <-. eexists; split; [done|].
  apply choice_in in Ha. split; [done|]. cbn.
  eapply (traverse_Forall _ (λ _, True)); [|by apply Forall_true|exact Hr].
  intros r i b _ Hb. unfold normalizeSandboxDNSRule in Hb. bind_in Hb a' Ha'. bind_in Hb pat Hp. injection Hb as <-.
  cbn. split; [by apply choice_in in Ha'|eauto using normalize_domain_ok].
Qed.

Lemma dns_fix d : dns_ok d → normalizeSandboxDNSPolicy ul toASCII (Some d) = Ok (Some d).
Proof using Hidna.
  destruct d as [act rules]. intros [Ha Hr]. cbn in *. rewrite choice_fix by done. cbn [res_bind].
  rewrite traverse_fix; [done|]. eapply Forall_impl; [exact Hr|]. intros [a p] [Ha' Hp] i. cbn in *.
  unfold normalizeSandboxDNSRule. cbn. rewrite choice_fix by done. cbn [res_bind]. by rewrite normalize_domain_fix.
Qed.

Lemma blacklist_normal ps acc out :
  NoDup acc → Forall pattern_ok acc → normalize_blacklist ul toASCII ps acc = Ok out →
  NoDup out ∧ Forall pattern_ok out.
Proof using Type.
  revert acc. induction ps as [|p ps IH]; intros acc Hn Hf H; cbn in H; [by injection H as <-|].
  bind_in H v Hv. case_bool_decide as Hin; [eauto|]. eapply IH in H; [done|..].
  - apply NoDup_app. split; [done|]. split; [|by apply NoDup_singleton].
    intros x Hx ->%list_elem_of_singleton. done.
  - apply Forall_app. split; [done|]. constructor; [|done]. eapply normalize_domain_ok. exact Hv.
Qed.

Lemma blacklist_fix ps acc :
  NoDup (acc ++ ps) → Forall pattern_ok ps → normalize_blacklist ul toASCII ps acc = Ok (acc ++ ps)%list.
Proof using Hidna.
  revert acc. induction ps as [|p ps IH]; intros acc Hn Hf; cbn; [by rewrite app_nil_r|].
  apply Forall_cons in Hf as [Hp Hf]. unfold normalizeSandboxDNSPattern. rewrite normalize_domain_fix by done.
  cbn [res_bind]. rewrite bool_decide_eq_false_2.
  - rewrite IH; [by rewrite <- app_assoc|by rewrite <- app_assoc|done].
  - intros Hin. apply NoDup_app in Hn as (_ & Hd & _). eapply Hd; [done|]. apply elem_of_cons; auto.
Qed.

Lemma policy_normal p p' :
  policy_typed p → normalizeSandboxNetworkPolicy ul toASCII (Some p) = Ok (Some p') → policy_ok p'.
Proof using Type.
  intros Ht H. unfold normalizeSandboxNetworkPolicy in H. case_in H; [done|]. case_in H.
  - case_in H; [done|]. bind_in H t Htr. bind_in H d Hd.
    assert (match t with None => True | Some t => traffic_ok t end) as Ht'.
    { destruct (Traffic p) as [t0|] eqn:E; [|by injection Htr as <-].
      apply traffic_normal in Htr as (t'' & -> & ?); [done|by apply Ht]. }
    assert (match d with None => True | Some d => dns_ok d end) as Hd'.
    { destruct (DNS p) as [d0|] eqn:E; [|by injection Hd as <-].
      by apply dns_normal in Hd as (d'' & -> & ?). }
    right. destruct t as [t|], d as [d|]; try done; injection H as <-; cbn; naive_solver.
  - destruct (Traffic p), (DNS p); try done. case_in H; [done|]. bind_in H l Hl.
    apply blacklist_normal in Hl as Hl'; [|by constructor..].
    case_in H; [done|]. injection H as <-. left. cbn. repeat split; try done.
    destruct (BlockNetwork p); [left|right]; cbn in *; breflect; [|naive_solver].
    split; [done|]. match goal with E : DNSBlacklist p = [] |- _ => rewrite E in Hl end. by injection Hl as <-.
Qed.

Lemma policy_fix p : policy_ok p → normalizeSandboxNetworkPolicy ul toASCII (Some p) = Ok (Some p).
Proof using Hidna.
  destruct p as [b l v t d]. intros [(Hv & Ht & Hd & H)|(Hv & Hb & Hl & Hany & Ht & Hd)]; cbn in *; subst.
  - destruct H as [[-> ->]|(-> & Hne & Hn & Hf)]; cbn; [done|].
    rewrite blacklist_fix by done. cbn. by rewrite bool_decide_eq_false_2.
  - cbn. assert (match t with None => Ok None | Some _ => normalizeSandboxTrafficPolicy ul toASCII t end = Ok t) as Et
      by (destruct t; [by apply traffic_fix|done]).
    assert (normalizeSandboxTrafficPolicy ul toASCII t = Ok t) as -> by (by destruct t).
    cbn [res_bind].
    assert (normalizeSandboxDNSPolicy ul toASCII d = Ok d) as -> by (destruct d; [by apply dns_fix|done]).
    cbn [res_bind]. destruct t, d; try done. by destruct Hany.
Qed.

End policies.

(** ** Decoded policies *)

Lemma field_inv {A} (P : A → Prop) conv (zero : A) name kvs a :
  P zero → (∀ v a, conv v = Some a → P a) → field conv zero name kvs = Some a → P a.
Proof.
  intros Hz Hc. unfold field.
  assert (∀ acc, (∀ x, acc = Some x → P x) → ∀ x,
    foldl (λ acc kv, match acc with
                     | Some a => if bool_decide (fold_name kv.1 = fold_name name)
                                 then match kv.2 with JNull => Some a | v => conv v end else Some a
                     | None => None end) acc kvs = Some x → P x) as H.
  { induction kvs as [|[k v] kvs IH]; intros acc Hacc x; cbn; [apply Hacc|]. apply IH. intros y Hy.
    destruct acc as [a0|]; [|done]. case_bool_decide; [|eauto]. destruct v; eauto. }
  apply H. by intros x [= <-].
Qed.

Lemma option_ap_Some {A B} (f : option (A → B)) x b :
  option_ap f x = Some b → ∃ g a, f = Some g ∧ x = Some a ∧ b = g a.
Proof. destruct f as [g|], x as [a|]; cbn; try done. intros [= <-]. eauto. Qed.

Lemma strict_Some {A} names (decode : list (string * any) → option A) kvs a :
  strict names decode kvs = Some a → known names kvs = true ∧ decode kvs = Some a.
Proof. unfold strict. by case_match. Qed.

Ltac ap_in H :=
  repeat match type of H with
  | option_ap _ _ = Some _ => apply option_ap_Some in H as (? & ? & H & ? & ->)
  | (_ <$> _) = Some _ => apply fmap_Some in H as (? & H & ->)
  end.

Lemma to_uint32_nonneg v z : to_uint32 v = Some z → (0 ≤ z)%Z.
Proof. destruct v; cbn; try done. intros H%ParseUint_range. lia. Qed.

Lemma to_port_range_typed v r : to_port_range v = Some r → range_typed r.
Proof.
  unfold to_port_range, to_struct, decode_port_range. destruct v; try done; [by intros [= <-]|].
  intros [_ H]%strict_Some. ap_in H. split; cbn; (eapply (field_inv (λ z, 0 ≤ z)%Z); [| |eassumption]); try done;
    apply to_uint32_nonneg.
Qed.

Lemma pointer_field_inv {A} (P : A → Prop) conv name kvs o a :
  (∀ v a, conv v = Some a → P a) → pointer_field conv name kvs = Some o → o = Some a → P a.
Proof.
  intros Hc H ->. unfold pointer_field in H.
  assert (∀ b, Some a = Some b → P b) as Hf; [|by apply Hf]. revert H.
  apply (field_inv (λ o, ∀ b, o = Some b → P b)); [done|]. intros v o Hv b ->. destruct (conv v) eqn:E; [|done]. injection Hv as ->. eauto.
Qed.

Lemma to_endpoint_typed v e p : to_endpoint v = Some e → PortRange e = Some p → range_typed p.
Proof.
  unfold to_endpoint, to_struct, decode_endpoint. destruct v; try done; [by intros [= <-]|].
  intros [_ H]%strict_Some. ap_in H. cbn. intros Hp. eapply pointer_field_inv; [|eassumption|exact Hp].
  apply to_port_range_typed.
Qed.

Lemma decode_traffic_rule_typed kvs r : decode_traffic_rule kvs = Some r → rule_typed r.
Proof.
  intros [_ H]%strict_Some. ap_in H. split; [|split]; cbn.
  - eapply (field_inv (λ z, 0 ≤ z)%Z); [| |eassumption]; [done|apply to_uint32_nonneg].
  - intros p Hp. eapply pointer_field_inv; [|eassumption|exact Hp]. apply to_port_range_typed.
  - intros e p He. revert p. eapply (pointer_field_inv (λ e, ∀ p, PortRange e = Some p → range_typed p)); [|eassumption|exact He].
    intros v a Hv p. by apply to_endpoint_typed with v.
Qed.

Lemma UnmarshalJSON_typed data p : UnmarshalJSON data = Some p → policy_typed p.
Proof.
  unfold UnmarshalJSON. destruct (Unmarshal data) as [v|]; [|done]. unfold to_struct.
  destruct v; try done; [by intros [= <-]|]. intros [_ H]%strict_Some. ap_in H. intros t Ht. cbn in Ht.
  eapply (pointer_field_inv (λ t, Forall rule_typed (Rules t))); [|eassumption|exact Ht].
  intros v a. unfold to_struct. destruct v; try done; [by intros [= <-]; constructor|].
  intros [_ Ha]%strict_Some. ap_in Ha. cbn.
  eapply (field_inv (Forall rule_typed)); [constructor| |eassumption].
  intros v rs. destruct v as [| | | |l|]; try done. cbn. intros Hl%mapM_Some.
  induction Hl as [|y r l rs Hy Hl IH]; constructor; [|done].
  destruct y; try done; cbn in Hy; [|by apply decode_traffic_rule_typed in Hy].
  injection Hy as <-. by split; [|split].
Qed.

(** ** Unknown members *)

(** The members an object may have, in depth. A value conforms when, at every
    level, objects have only these members (in any case, as encoding/json finds
    them) and their values conform; null stands for anything. *)
Inductive schema := Leaf | Slice (s : schema) | Obj (members : list (string * schema)).

Inductive conforms : schema → any → Prop :=
| co_leaf v : conforms Leaf v
| co_null s : conforms s JNull
| co_slice s l : Forall (conforms s) l → conforms (Slice s) (JArray l)
| co_obj members kvs :
    Forall (λ kv : string * any, ∃ n s, (n, s) ∈ members ∧ fold_name kv.1 = fold_name n ∧ conforms s kv.2) kvs →
    conforms (Obj members) (JObject kvs).

Definition leaves (names : list string) : list (string * schema) := (λ n, (n, Leaf)) <$> names.
Definition range_schema : schema := Obj (leaves ["first"; "last"]).
Definition peer_schema : schema := Obj (leaves ["cidr"; "domain"] ++ [("portRange", range_schema)]).
Definition rule_schema : schema :=
  Obj (leaves ["action"; "direction"; "protocol"; "priority"] ++ [("peer", peer_schema); ("sandboxPortRange", range_schema)]).
Definition traffic_schema : schema := Obj (leaves ["ingressDefaultAction"; "egressDefaultAction"; "mode"] ++ [("rules", Slice rule_schema)]).
Definition dns_schema : schema := Obj (leaves ["defaultAction"] ++ [("rules", Slice (Obj (leaves ["action"; "pattern"])))]).
Definition policy_schema : schema :=
  Obj (leaves ["blockNetwork"; "dnsBlacklist"; "schemaVersion"] ++ [("traffic", traffic_schema); ("dns", dns_schema)]).

Lemma known_elem names kvs k v : known names kvs = true → (k, v) ∈ kvs → ∃ n, n ∈ names ∧ fold_name k = fold_name n.
Proof.
  unfold known. rewrite forallb_forall. intros H Hin. apply list_elem_of_In in Hin. apply H in Hin. apply existsb_exists in Hin as (n & Hn & He).
  apply list_elem_of_In in Hn. apply bool_decide_eq_true in He. eauto.
Qed.

(** Every occurrence of a member was converted. *)
Lemma field_all {A} conv (zero : A) name kvs a k v :
  field conv zero name kvs = Some a → (k, v) ∈ kvs → fold_name k = fold_name name → v = JNull ∨ is_Some (conv v).
Proof.
  unfold field. generalize (Some zero). induction kvs as [|[k' v'] kvs IH]; intros acc H Hin Hk; [by apply elem_of_nil in Hin|].
  cbn in H. apply elem_of_cons in Hin as [[= <- <-]|Hin]; [|by eapply IH].
  destruct acc as [x|]; cycle 1.
  { exfalso. clear -H. induction kvs as [|kv kvs IH]; [done|]. by apply IH. }
  rewrite bool_decide_true in H by done. destruct v as [| | | | |] eqn:Ev; [by left|right..]; destruct (conv _); eauto;
    exfalso; clear -H; induction kvs as [|kv kvs IH]; try done; by apply IH.
Qed.

Lemma pointer_all {A} (conv : any → option A) name kvs o k v :
  pointer_field conv name kvs = Some o → (k, v) ∈ kvs → fold_name k = fold_name name → v = JNull ∨ is_Some (conv v).
Proof.
  intros H Hin Hk. destruct (field_all _ _ _ _ _ _ _ H Hin Hk) as [->|[x Hx]]; [by left|right]. apply fmap_Some in Hx as (y & -> & _). eauto.
Qed.

(** An object conforms when its names are known and the members that are not
    leaves conform. *)
Lemma conforms_obj names members kvs :
  forallb (λ n, bool_decide (n ∈ members.*1)) names = true → known names kvs = true →
  (∀ n s k v, (n, s) ∈ members → (k, v) ∈ kvs → fold_name k = fold_name n → conforms s v) →
  conforms (Obj members) (JObject kvs).
Proof.
  intros Hn Hk Hm. constructor. apply Forall_forall. intros [k v] Hin. destruct (known_elem _ _ _ _ Hk Hin) as (n & Hin' & He).
  rewrite forallb_forall in Hn. apply list_elem_of_In, Hn, bool_decide_eq_true, list_elem_of_fmap in Hin' as ([n' s] & -> & Hs). exists n', s. split_and!; [done|done|by eapply Hm].
Qed.

Lemma conforms_struct {A} s (zero : A) decode v :
  (∀ kvs a, decode kvs = Some a → conforms s (JObject kvs)) → v = JNull ∨ is_Some (to_struct zero decode v) → conforms s v.
Proof. intros H [->|[a Ha]]; [constructor|]. destruct v; try done; [constructor|by eapply H]. Qed.

Lemma conforms_slice {A} s (conv : any → option A) v :
  (∀ v, is_Some (conv v) → conforms s v) → v = JNull ∨ is_Some (to_slice conv v) → conforms (Slice s) v.
Proof.
  intros H [->|[a Ha]]; [constructor|]. destruct v as [| | | |l|]; try done. cbn in Ha. apply mapM_Some in Ha. constructor.
  induction Ha; constructor; eauto.
Qed.

(** The members of a schema, one by one; leaves conform. *)
Ltac members := let Hm := fresh "Hm" in
  intros n s k v Hm Hin Hf; cbn in Hm;
  repeat (apply elem_of_cons in Hm as [Hm|Hm]; [injection Hm as -> ->; try apply co_leaf|]); try (by apply elem_of_nil in Hm).
Ltac object names := apply (conforms_obj names); [vm_compute; reflexivity|done|members].

Lemma range_conforms kvs a : decode_port_range kvs = Some a → conforms range_schema (JObject kvs).
Proof. intros [Hk _]%strict_Some. object ["first"; "last"]. Qed.

Lemma peer_conforms kvs a : decode_endpoint kvs = Some a → conforms peer_schema (JObject kvs).
Proof.
  intros [Hk H]%strict_Some. ap_in H. object ["cidr"; "domain"; "portRange"].
  eapply conforms_struct; [apply range_conforms|]. by eapply pointer_all.
Qed.

Lemma rule_conforms kvs a : decode_traffic_rule kvs = Some a → conforms rule_schema (JObject kvs).
Proof.
  intros [Hk H]%strict_Some. ap_in H. object ["action"; "direction"; "protocol"; "peer"; "sandboxPortRange"; "priority"].
  - eapply conforms_struct; [apply peer_conforms|]. by eapply pointer_all.
  - eapply conforms_struct; [apply range_conforms|]. by eapply pointer_all.
Qed.

Lemma traffic_conforms kvs a : decode_traffic kvs = Some a → conforms traffic_schema (JObject kvs).
Proof.
  intros [Hk H]%strict_Some. ap_in H. object ["ingressDefaultAction"; "egressDefaultAction"; "mode"; "rules"].
  eapply conforms_slice; [|by eapply field_all]. intros v' Hv. eapply conforms_struct; [apply rule_conforms|by right].
Qed.

Lemma dns_rule_conforms kvs a : decode_dns_rule kvs = Some a → conforms (Obj (leaves ["action"; "pattern"])) (JObject kvs).
Proof. intros [Hk _]%strict_Some. object ["action"; "pattern"]. Qed.

Lemma dns_conforms kvs a : decode_dns kvs = Some a → conforms dns_schema (JObject kvs).
Proof.
  intros [Hk H]%strict_Some. ap_in H. object ["defaultAction"; "rules"].
  eapply conforms_slice; [|by eapply field_all]. intros v' Hv. eapply conforms_struct; [apply dns_rule_conforms|by right].
Qed.

Lemma policy_conforms kvs a : decode_policy kvs = Some a → conforms policy_schema (JObject kvs).
Proof.
  intros [Hk H]%strict_Some. ap_in H. object ["blockNetwork"; "dnsBlacklist"; "schemaVersion"; "traffic"; "dns"].
  - eapply conforms_struct; [apply traffic_conforms|]. by eapply pointer_all.
  - eapply conforms_struct; [apply dns_conforms|]. by eapply pointer_all.
Qed.

(** C33. Network policies have a normal form: whatever policy is decoded from a
    request, what normalisation accepts is well formed (allowed words only, masked
    IPv4 prefixes, valid domain patterns, ports only with TCP or UDP, domains only
    for egress, at most 256 rules with priorities below the reserved one, no
    mixture of schemas), well-formed policies are left as they are, and a policy
    that is decoded has no unknown member anywhere: not in itself, its traffic
    part, its rules, their peers and port ranges, its DNS part and its rules. *)
Theorem network_policy_normal_form ul toASCII :
  (∀ d, domain_ok d = true → toASCII d = None ∨ toASCII d = Some d) →
  (∀ data p p', UnmarshalJSON data = Some p → normalizeSandboxNetworkPolicy ul toASCII (Some p) = Ok (Some p') →
     policy_ok p') ∧
  (∀ p, policy_ok p → normalizeSandboxNetworkPolicy ul toASCII (Some p) = Ok (Some p)) ∧
  (∀ data p, UnmarshalJSON data = Some p → ∃ v, Unmarshal data = Some v ∧ conforms policy_schema v).
Proof.
  intros Hidna. repeat split.
  - intros data p p' Hp. apply policy_normal. by apply UnmarshalJSON_typed in Hp.
  - by apply policy_fix.
  - intros data p. unfold UnmarshalJSON. destruct (Unmarshal data) as [v|]; [|done]. intros H. exists v. split; [done|].
    eapply conforms_struct; [apply policy_conforms|]. right. eauto.
Qed.

(** The policy of a request in mixed case, with white space and an unmasked
    prefix; names are looked up as they are when they are ASCII. *)
Definition ex_to_ascii (d : string) : option string := if is_ascii d then Some d else None.
Definition ex_policy_text : string :=
  ReplaceAll "{'schemaVersion':2,'traffic':{'ingressDefaultAction':'Deny','egressDefaultAction':' allow ','rules':[{'action':'DENY','direction':'egress','protocol':'tcp','peer':{'cidr':'10.1.2.3/8','portRange':{'first':80,'last':443}}}]},'dns':{'defaultAction':'allow','rules':[{'action':'deny','pattern':'*.Example.COM.'}]}}"
    "'" (String quote_char "").
Definition ex_normal_policy : SandboxNetworkPolicy :=
  MkNetworkPolicy false [] 2
    (Some (MkTrafficPolicy "deny" "allow" "stateful"
       [MkTrafficRule "deny" "egress" "tcp" (Some (MkEndpoint "10.0.0.0/8" "" (Some (MkPortRange 80 443)))) None 100]))
    (Some (MkDNSPolicy "allow" [MkDNSRule "deny" "*.example.com"])).

Lemma network_policy_normal_form_witness :
  policy_ok ex_normal_policy ∧
  normalizeSandboxNetworkPolicy id ex_to_ascii (Some ex_normal_policy) = Ok (Some ex_normal_policy).
Proof.
  destruct (network_policy_normal_form id ex_to_ascii) as (H1 & H2 & _).
  { intros d Hd. unfold ex_to_ascii. destruct (is_ascii d); auto. }
  assert (policy_ok ex_normal_policy) as H.
  { destruct (UnmarshalJSON ex_policy_text) as [p|] eqn:Hp; [|by vm_compute in Hp].
    apply (H1 ex_policy_text p); [exact Hp|]. vm_compute in Hp. injection Hp as <-. vm_compute. reflexivity. }
  split; [exact H|exact (H2 _ H)].
Defined.
