(* ===== verification/SandboxSpec.v ===== *)
(** * Sandbox create requests (pkg/frontend/api/sandbox/handler.go)

    Preparation of a create request up to the options of the kernel call:
    names and runtimes, affinities, accelerators, storage, root file systems,
    ports and tunnels, time budgets, create options. Values that the code
    encodes as JSON into an option are kept as the value that is encoded. *)

From S2P Require Import Prelude GoStrings Hashing Json SandboxNetwork.
Open Scope string_scope.
Open Scope go_scope.

(** ** Requests *)

(** Types of the kernel API that the requests carry. *)
Record LabelOperator := MkLabelOp { op_Type : Z; LabelKey : string; LabelValues : list string }.
Record Affinity := MkAffinity {
  Kind : Z; af_Affinity : Z; PreferredPriority : bool; PreferredAntiOtherLabels : bool;
  LabelOps : list LabelOperator }.

Record RootfsSpec := MkRootfs {
  rf_Runtime : string; rf_Type : string; ImageURL : string; Path : string;
  ReadOnly : option bool; StorageInfo : gmap string any }.
Record TunnelSpec := MkTunnel { Enabled : bool; ProxyPort : Z }.

Record CreateV1Request := MkCreateV1 {
  v1_Name : string; v1_Namespace : string; v1_Tenant : string; LegacyRuntime : string; v1_Image : string;
  v1_Rootfs : RootfsSpec; v1_Ports : list string; IdleTimeoutSeconds : Z;
  v1_Cpu : Z; v1_Memory : Z; v1_CpuLimit : Z; v1_MemLimit : Z;
  v1_Env : gmap string string; v1_Mounts : list any; v1_ExtraConfig : list (string * any); v1_XPU : string;
  v1_StorageMb : option Z; v1_StorageLimitMb : Z; v1_ScheduleAffinities : list Affinity; Tunnel : TunnelSpec;
  v1_Network : option SandboxNetworkPolicy; v1_SnapshotID : string; v1_Failover : bool; v1_InheritEntrypoint : bool;
  v1_CreateTimeoutSeconds : Z; v1_ScheduleTimeoutSeconds : Z; v1_InitCallTimeoutSeconds : Z;
  v1_portRouteKinds : gmap Z string; v1_nameGenerated : bool }.

(** The root file system of a request: the text of the caller, or the JSON of
    a specification. *)
Inductive rootfs_value := RootfsText (s : string) | RootfsJSON (spec : RootfsSpec).

Record CreateRequest := MkCreate {
  Name : string; Namespace : string; Tenant : string; Runtime : string; Rootfs : rootfs_value; Image : string;
  Ports : list string; portRouteKinds : gmap Z string;
  Cpu : Z; Memory : Z; CpuLimit : Z; MemLimit : Z;
  Env : gmap string string; Mounts : list any; ExtraConfig : list (string * any); XPU : string;
  StorageMb : option Z; StorageLimitMb : Z; Network : option SandboxNetworkPolicy; SnapshotID : string;
  Failover : bool; InheritEntrypoint : bool; ScheduleAffinities : list Affinity;
  CreateTimeoutSeconds : Z; ScheduleTimeoutSeconds : Z; InitCallTimeoutSeconds : Z; nameGenerated : bool }.

Record TunnelInfo := MkTunnelInfo {
  URL : string; ti_Path : string; ProxyURL : string; WSPath : string; ti_ProxyPort : Z }.

Inductive spec_error :=
| ErrRuntimeConflict (legacy rootfs : string) | ErrRuntime (name : string)
| ErrAffinityKind (i : nat) | ErrAffinity (i : nat) | ErrNoLabelOps (i : nat)
| ErrLabelType (i j : nat) | ErrLabelKey (i j : nat) | ErrLabelValues (i j : nat)
| ErrXPUFields | ErrXPUSpace | ErrXPUType | ErrXPUCount
| ErrLimitNegative | ErrLimitLarge | ErrStorageSmall | ErrStorageLarge | ErrLimitBelowStorage
| ErrRootfsNoType | ErrRootfsType (t : string) | ErrNoImage | ErrImageExtra | ErrNoPath | ErrLocalExtra
| ErrS3Extra | ErrS3Missing (key : string) | ErrS3Key (key : string)
| ErrInheritSnapshot | ErrInheritImage
| ErrNetwork (e : net_error)
| ErrNoName
| ErrCreateNegative | ErrScheduleNegative | ErrInitNegative | ErrCreateShort | ErrScheduleLong | ErrBudgetShort
| ErrPortFormat (p : string) | ErrPortNumber (p : string) | ErrPortBounds (p : Z) | ErrPortScheme (s : string).

Definition check (b : bool) (e : spec_error) : res spec_error unit := if b then Err e else Ok ().

(** ** Affinities *)

Definition validate_label (i : nat) (op : LabelOperator) (j : nat) : res spec_error unit :=
  let* _ := check ((op_Type op <? 0)%Z || (3 <? op_Type op)%Z) (ErrLabelType i j) in
  let* _ := check (bool_decide (TrimSpace (LabelKey op) = "")) (ErrLabelKey i j) in
  check (((op_Type op =? 0)%Z || (op_Type op =? 1)%Z) && bool_decide (LabelValues op = [])) (ErrLabelValues i j).

Fixpoint for_index {A} (f : A → nat → res spec_error unit) (i : nat) (l : list A) : res spec_error unit :=
  match l with [] => Ok () | a :: l => let* _ := f a i in for_index f (S i) l end.

Definition validateScheduleAffinities (affinities : list Affinity) : res spec_error unit :=
  for_index (λ affinity i,
    let* _ := check (negb (Kind affinity =? 0)%Z && negb (Kind affinity =? 1)%Z) (ErrAffinityKind i) in
    let* _ := check ((af_Affinity affinity <? 0)%Z || (3 <? af_Affinity affinity)%Z) (ErrAffinity i) in
    let* _ := check (bool_decide (LabelOps affinity = [])) (ErrNoLabelOps i) in
    for_index (validate_label i) 0 (LabelOps affinity)) 0 affinities.

(** ** Accelerators *)

Record sandboxXPURequest := MkXPU { resourceName : string; count : Z; normalized : string }.

Definition upper_byte (c : ascii) : ascii :=
  if byte_in 97 122 c then ascii_of_N (N_of_ascii c - 32) else c.

(** [regexp.QuoteMeta]. *)
Definition is_meta (c : ascii) : bool :=
  existsb (λ n, byte_eq n c) [92; 46; 43; 42; 63; 40; 41; 124; 91; 93; 123; 125; 94; 36]%N.
Fixpoint QuoteMeta (s : string) : string :=
  match s with
  | EmptyString => ""
  | String c r => if is_meta c then String backslash (String c (QuoteMeta r)) else String c (QuoteMeta r)
  end.

(** [sandboxXPUTypePattern] and [sandboxXPUCountPattern]. *)
Definition xpu_type_ok (s : string) : bool :=
  match s with
  | EmptyString => false
  | String c r => byte_in 97 122 c && str_forallb ldh r
  end.
Definition xpu_count_ok (s : string) : bool :=
  negb (bool_decide (s = "")) && str_forallb (byte_in 48 57) s.

Section spec.
  Variable unicode_lower : string → string.
  Variable ToASCII : string → option string.

Definition parseSandboxXPU (value : string) : res spec_error (option sandboxXPURequest) :=
  if bool_decide (value = "") then Ok None else
  match Split value ":" with
  | [f0; model; f2] =>
      if bool_decide (f0 = "") || bool_decide (f2 = "") then Err ErrXPUFields
      else if negb (forallb (λ f, bool_decide (TrimSpace f = f)) [f0; model; f2]) then Err ErrXPUSpace
      else
        let xpuType := ToLower unicode_lower f0 in
        if negb (xpu_type_ok xpuType) then Err ErrXPUType
        else if negb (xpu_count_ok f2) then Err ErrXPUCount
        else
          match Atoi f2 with
          | None => Err ErrXPUCount
          | Some count =>
              if (count <=? 0)%Z then Err ErrXPUCount
              else
                let modelPattern := if bool_decide (model ≠ "") then QuoteMeta model else ".+" in
                Ok (Some (MkXPU (str_map upper_byte xpuType +:+ "/" +:+ modelPattern +:+ "/count") count
                            (xpuType +:+ ":" +:+ model +:+ ":" +:+ FormatInt count)))
          end
  | _ => Err ErrXPUFields
  end.

(** ** Storage *)

Definition bytesPerMiB : Z := 1024 * 1024.
Definition maxInt64 : Z := 2 ^ 63 - 1.

Definition validateSandboxStorage (storageMb : option Z) (storageLimitMb : Z) : res spec_error unit :=
  let* _ := check (storageLimitMb <? 0)%Z ErrLimitNegative in
  let* _ := check (maxInt64 / bytesPerMiB <? storageLimitMb)%Z ErrLimitLarge in
  match storageMb with
  | None => Ok ()
  | Some s =>
      let* _ := check (s <=? 0)%Z ErrStorageSmall in
      let* _ := check (maxInt64 / bytesPerMiB <? s)%Z ErrStorageLarge in
      check ((0 <? storageLimitMb)%Z && (storageLimitMb <? s)%Z) ErrLimitBelowStorage
  end.

(** ** Root file systems *)

Definition normalizeRootfsSpec (spec : RootfsSpec) (fallbackImage : string) : RootfsSpec * string :=
  let type := TrimSpace (rf_Type spec) in
  let url := TrimSpace (ImageURL spec) in
  let image := if bool_decide (url = "") && bool_decide (type ≠ "local") && bool_decide (type ≠ "s3")
               then TrimSpace fallbackImage else url in
  let runtime := TrimSpace (rf_Runtime spec) in
  (MkRootfs (if bool_decide (runtime = "") then "runsc" else runtime)
     (if bool_decide (type = "") && bool_decide (image ≠ "") then "image" else type)
     url (TrimSpace (Path spec)) (ReadOnly spec) (StorageInfo spec), image).

Definition validateImageRootfs (spec : RootfsSpec) (image : string) : res spec_error RootfsSpec :=
  let* _ := check (bool_decide (image = "")) ErrNoImage in
  let* _ := check (bool_decide (Path spec ≠ "") || negb (size (StorageInfo spec) =? 0)%nat) ErrImageExtra in
  Ok (MkRootfs (rf_Runtime spec) (rf_Type spec) image (Path spec) (ReadOnly spec) (StorageInfo spec)).

Definition validateLocalRootfs (spec : RootfsSpec) : res spec_error RootfsSpec :=
  let* _ := check (bool_decide (Path spec = "")) ErrNoPath in
  let* _ := check (bool_decide (ImageURL spec ≠ "") || negb (size (StorageInfo spec) =? 0)%nat) ErrLocalExtra in
  Ok spec.

(** The required keys are trimmed in place. *)
Fixpoint s3_required (keys : list string) (info : gmap string any) : res spec_error (gmap string any) :=
  match keys with
  | [] => Ok info
  | key :: keys =>
      match info !! key with
      | Some (JString v) =>
          if bool_decide (TrimSpace v = "") then Err (ErrS3Missing key)
          else s3_required keys (<[key := JString (TrimSpace v)]> info)
      | _ => Err (ErrS3Missing key)
      end
  end.

Fixpoint s3_optional (keys : list string) (info : gmap string any) : res spec_error unit :=
  match keys with
  | [] => Ok ()
  | key :: keys =>
      match info !! key with
      | None | Some (JString _) => s3_optional keys info
      | Some _ => Err (ErrS3Key key)
      end
  end.

Definition validateS3Rootfs (spec : RootfsSpec) : res spec_error RootfsSpec :=
  let* _ := check (bool_decide (Path spec ≠ "") || bool_decide (ImageURL spec ≠ "")) ErrS3Extra in
  let* info := s3_required ["endpoint"; "bucket"; "object"] (StorageInfo spec) in
  let* _ := s3_optional ["accessKey"; "secretKey"] info in
  Ok (MkRootfs (rf_Runtime spec) (rf_Type spec) (ImageURL spec) (Path spec) (ReadOnly spec) info).

Definition validateRootfsSpec (spec : RootfsSpec) (image : string) : res spec_error RootfsSpec :=
  if bool_decide (rf_Type spec = "") then
    let* _ := check (bool_decide (Path spec ≠ "") || negb (size (StorageInfo spec) =? 0)%nat) ErrRootfsNoType in Ok spec
  else if bool_decide (rf_Type spec = "image") then validateImageRootfs spec image
  else if bool_decide (rf_Type spec = "local") then validateLocalRootfs spec
  else if bool_decide (rf_Type spec = "s3") then validateS3Rootfs spec
  else Err (ErrRootfsType (rf_Type spec)).

(** The specification that is encoded. *)
Definition buildRootfsOption (spec : RootfsSpec) (fallbackImage : string) : res spec_error RootfsSpec :=
  let '(spec, image) := normalizeRootfsSpec spec fallbackImage in validateRootfsSpec spec image.

(** ** Ports and tunnels *)

Definition sandboxDefaultRRTHTTPPort : Z := 50090.
Definition sandboxDefaultTunnelWSPort : Z := 8765.
Definition sandboxDefaultTunnelHTTPPort : Z := 8766.
Definition sandboxRoutePublic : string := "public".
Definition sandboxRouteDirect : string := "direct".
Definition sandboxRouteTunnel : string := "tunnel".

(** [seen] is the set of the ports so far. *)
Definition appendUniquePorts (ports values : list string) : list string :=
  foldl (λ ports value,
    if bool_decide (value = "") || bool_decide (value ∈ ports) then ports else (ports ++ [value])%list) ports values.

(** The parts of a request that ports and tunnels change. *)
Definition with_port (req : CreateV1Request) (ports : list string) (kinds : gmap Z string) (env : gmap string string)
    : CreateV1Request :=
  MkCreateV1 (v1_Name req) (v1_Namespace req) (v1_Tenant req) (LegacyRuntime req) (v1_Image req) (v1_Rootfs req)
    ports (IdleTimeoutSeconds req) (v1_Cpu req) (v1_Memory req) (v1_CpuLimit req) (v1_MemLimit req) env
    (v1_Mounts req) (v1_ExtraConfig req) (v1_XPU req) (v1_StorageMb req) (v1_StorageLimitMb req)
    (v1_ScheduleAffinities req) (Tunnel req) (v1_Network req) (v1_SnapshotID req) (v1_Failover req)
    (v1_InheritEntrypoint req) (v1_CreateTimeoutSeconds req) (v1_ScheduleTimeoutSeconds req)
    (v1_InitCallTimeoutSeconds req) kinds (v1_nameGenerated req).

Definition setSandboxPortRouteKind (kinds : gmap Z string) (port : Z) (routeKind : string) : gmap Z string :=
  <[port := routeKind]> kinds.

Definition prepareSandboxRRTHTTP (req : CreateV1Request) : CreateV1Request :=
  with_port req (appendUniquePorts (v1_Ports req) [FormatInt sandboxDefaultRRTHTTPPort])
    (setSandboxPortRouteKind (v1_portRouteKinds req) sandboxDefaultRRTHTTPPort sandboxRouteDirect)
    (<["RRT_HTTP_PORT" := FormatInt sandboxDefaultRRTHTTPPort]> (v1_Env req)).

(** The WebSocket and the HTTP port of a tunnel. *)
Definition tunnel_ports (proxyPort : Z) : Z * Z :=
  let proxyPort := if (proxyPort <=? 0)%Z then sandboxDefaultTunnelHTTPPort else proxyPort in
  if (proxyPort - 1 <=? 0)%Z then (sandboxDefaultTunnelWSPort, sandboxDefaultTunnelHTTPPort)
  else ((proxyPort - 1)%Z, proxyPort).

Definition prepareSandboxTunnel (req : CreateV1Request) : CreateV1Request * option TunnelInfo :=
  if negb (Enabled (Tunnel req)) then (req, None) else
  let '(wsPort, proxyPort) := tunnel_ports (ProxyPort (Tunnel req)) in
  (with_port req (appendUniquePorts (v1_Ports req) [FormatInt wsPort; FormatInt proxyPort])
     (setSandboxPortRouteKind (setSandboxPortRouteKind (v1_portRouteKinds req) wsPort sandboxRouteTunnel)
        proxyPort sandboxRouteDirect)
     (<["RRT_TUNNEL_HTTP_PORT" := FormatInt proxyPort]> (<["RRT_TUNNEL_WS_PORT" := FormatInt wsPort]> (v1_Env req))),
   Some (MkTunnelInfo "" "" ("http://127.0.0.1:" +:+ FormatInt proxyPort) "" proxyPort)).

Record sandboxPortForwarding := MkForwarding { fw_Port : Z; fw_Protocol : string; RouteKind : string }.

Definition portRouteKind (port : Z) (routeKinds : gmap Z string) : string :=
  default sandboxRoutePublic (routeKinds !! port).

Definition port_forwarding (routeKinds : gmap Z string) (portForward : string) : res spec_error sandboxPortForwarding :=
  let* parts :=
    (match Split (TrimSpace portForward) ":" with
     | [p] => Ok ("http", TrimSpace p)
     | [s; p] => Ok (ToLower unicode_lower (TrimSpace s), TrimSpace p)
     | _ => Err (ErrPortFormat portForward)
     end) in
  let '(scheme, portString) := parts in
  match Atoi portString with
  | None => Err (ErrPortNumber portString)
  | Some port =>
      let* _ := check ((port <? 1)%Z || (maxSandboxPort <? port)%Z) (ErrPortBounds port) in
      let* _ := check (bool_decide (scheme ≠ "http") && bool_decide (scheme ≠ "https")) (ErrPortScheme scheme) in
      Ok (MkForwarding port scheme (portRouteKind port routeKinds))
  end.

Fixpoint buildSandboxNetworkConfig (ports : list string) (routeKinds : gmap Z string)
    : res spec_error (list sandboxPortForwarding) :=
  match ports with
  | [] => Ok []
  | p :: ports =>
      let* f := port_forwarding routeKinds p in
      let* fs := buildSandboxNetworkConfig ports routeKinds in Ok (f :: fs)
  end.

(** ** prepareCreateV1Request

    [uuid] is the result of [uuid.NewString]. The root file system and the
    tunnel are returned beside the changed request. *)

Definition set_prepared (req : CreateV1Request) (name namespace legacy runtime xpu : string) (gen : bool)
    (network : option SandboxNetworkPolicy) : CreateV1Request :=
  let r := v1_Rootfs req in
  MkCreateV1 name namespace (v1_Tenant req) legacy (v1_Image req)
    (MkRootfs runtime (rf_Type r) (ImageURL r) (Path r) (ReadOnly r) (StorageInfo r))
    (v1_Ports req) (IdleTimeoutSeconds req) (v1_Cpu req) (v1_Memory req) (v1_CpuLimit req) (v1_MemLimit req)
    (v1_Env req) (v1_Mounts req) (v1_ExtraConfig req) xpu (v1_StorageMb req) (v1_StorageLimitMb req)
    (v1_ScheduleAffinities req) (Tunnel req) network (v1_SnapshotID req) (v1_Failover req)
    (v1_InheritEntrypoint req) (v1_CreateTimeoutSeconds req) (v1_ScheduleTimeoutSeconds req)
    (v1_InitCallTimeoutSeconds req) (v1_portRouteKinds req) gen.

Definition or_default (s d : string) : string := if bool_decide (s = "") then d else s.

Definition prepareCreateV1Request (uuid : string) (req : CreateV1Request)
    : res spec_error (CreateV1Request * RootfsSpec * option TunnelInfo) :=
  let name := or_default (v1_Name req) ("sandbox-" +:+ uuid) in
  let generated := v1_nameGenerated req || bool_decide (v1_Name req = "") in
  let namespace := or_default (v1_Namespace req) "default" in
  let legacy := TrimSpace (LegacyRuntime req) in
  let runtime := TrimSpace (rf_Runtime (v1_Rootfs req)) in
  let* _ := check (bool_decide (legacy ≠ "") && bool_decide (runtime ≠ "") && bool_decide (legacy ≠ runtime))
              (ErrRuntimeConflict legacy runtime) in
  let runtime := or_default (or_default runtime legacy) "runsc" in
  let* _ := validateScheduleAffinities (v1_ScheduleAffinities req) in
  let* xpu := parseSandboxXPU (v1_XPU req) in
  let xpuText := match xpu with Some x => normalized x | None => v1_XPU req end in
  let* _ := validateSandboxStorage (v1_StorageMb req) (v1_StorageLimitMb req) in
  let spec := v1_Rootfs (set_prepared req name namespace legacy runtime xpuText generated None) in
  let* rootfs := buildRootfsOption spec (v1_Image req) in
  let* _ :=
    (if v1_InheritEntrypoint req then
       let '(resolved, image) := normalizeRootfsSpec spec (v1_Image req) in
       let* _ := check (bool_decide (TrimSpace (v1_SnapshotID req) ≠ "")) ErrInheritSnapshot in
       check (bool_decide (rf_Type resolved ≠ "image") || bool_decide (image = "")) ErrInheritImage
     else Ok ()) in
  match normalizeSandboxNetworkPolicy unicode_lower ToASCII (v1_Network req) with
  | Err e => Err (ErrNetwork e)
  | Ok network =>
      let req := prepareSandboxRRTHTTP (set_prepared req name namespace legacy runtime xpuText generated network) in
      let '(req, tunnel) := prepareSandboxTunnel req in
      Ok (req, rootfs, tunnel)
  end.

Definition defaultSandboxRuntime : string := "rrt".

Definition createRequestFromV1 (req : CreateV1Request) (rootfs : RootfsSpec) : CreateRequest :=
  MkCreate (v1_Name req) (v1_Namespace req) (v1_Tenant req) defaultSandboxRuntime (RootfsJSON rootfs) ""
    (v1_Ports req) (v1_portRouteKinds req) (v1_Cpu req) (v1_Memory req) (v1_CpuLimit req) (v1_MemLimit req)
    (v1_Env req) (v1_Mounts req) (v1_ExtraConfig req) (v1_XPU req) (v1_StorageMb req) (v1_StorageLimitMb req)
    (v1_Network req) (TrimSpace (v1_SnapshotID req)) (v1_Failover req) (v1_InheritEntrypoint req)
    (v1_ScheduleAffinities req) (v1_CreateTimeoutSeconds req) (v1_ScheduleTimeoutSeconds req)
    (v1_InitCallTimeoutSeconds req) (v1_nameGenerated req).

Definition sandboxFunctionIDForRuntime (runtime : string) : res spec_error string :=
  let selected := or_default (TrimSpace runtime) defaultSandboxRuntime in
  let r := ToLower unicode_lower selected in
  let among names := existsb (λ n, bool_decide (r = n)) names in
  if among ["python3.10"; "py3.10"; "py310"; "3.10"] then Ok "default/0-defaultservice-py310/$latest"
  else if among ["python3.9"; "py3.9"; "py39"; "3.9"] then Ok "default/0-defaultservice-py39/$latest"
  else if among ["rust"; "rrt"; "rrt-runtime"] then Ok "default/0-defaultservice-rrt/$latest"
  else Err (ErrRuntime selected).

(** ** Time budgets

    [env] is the variable YR_SANDBOX_CREATE_TIMEOUT. Go ints are 64 bits. *)

Definition sandboxDefaultScheduleSeconds : Z := 30.
Definition sandboxScheduleBufferSeconds : Z := 30.
Definition sandboxDefaultInitTimeoutSeconds : Z := 30.
Definition sandboxCreateTimeoutSeconds : Z :=
  sandboxDefaultScheduleSeconds + sandboxDefaultInitTimeoutSeconds + sandboxScheduleBufferSeconds.

Definition getSandboxCreateTimeoutSeconds (env : string) (requested : Z) : Z :=
  if (0 <? requested)%Z then requested else
  let raw := TrimSpace env in
  if bool_decide (raw = "") then sandboxCreateTimeoutSeconds else
  match Atoi raw with
  | None => sandboxCreateTimeoutSeconds
  | Some value => if (value <=? 0)%Z then sandboxCreateTimeoutSeconds else value
  end.

Definition effectiveSandboxInitCallTimeoutSeconds (requested : Z) : Z :=
  if (0 <? requested)%Z then requested else sandboxDefaultInitTimeoutSeconds.

Definition validateSandboxCreateTimeoutInputs (requestedCreate requestedSchedule requestedInit : Z)
    : res spec_error unit :=
  let* _ := check (requestedCreate <? 0)%Z ErrCreateNegative in
  let* _ := check (requestedSchedule <? 0)%Z ErrScheduleNegative in
  check (requestedInit <? 0)%Z ErrInitNegative.

Definition add64 (a b : Z) : Z := wrapS 64 (a + b).

Definition resolveSandboxCreateTimeouts (env : string) (requestedCreate requestedSchedule requestedInit : Z)
    : res spec_error (Z * Z) :=
  let* _ := validateSandboxCreateTimeoutInputs requestedCreate requestedSchedule requestedInit in
  let createReserve := add64 (effectiveSandboxInitCallTimeoutSeconds requestedInit) sandboxScheduleBufferSeconds in
  if (requestedCreate =? 0)%Z && (requestedSchedule =? 0)%Z then
    let scheduleTimeout := sandboxDefaultScheduleSeconds in
    let createTimeout := getSandboxCreateTimeoutSeconds env 0 in
    let minimum := add64 scheduleTimeout createReserve in
    Ok (if (createTimeout <? minimum)%Z then minimum else createTimeout, scheduleTimeout)
  else if (requestedCreate =? 0)%Z then Ok (add64 requestedSchedule createReserve, requestedSchedule)
  else if (requestedSchedule =? 0)%Z then
    if (requestedCreate <=? sandboxScheduleBufferSeconds)%Z then Err ErrCreateShort
    else
      let legacy := (requestedCreate - sandboxScheduleBufferSeconds)%Z in
      Ok (add64 legacy createReserve, legacy)
  else if (requestedCreate <? requestedSchedule)%Z then Err ErrScheduleLong
  else
    let remaining := (requestedCreate - requestedSchedule)%Z in
    if (remaining <? sandboxScheduleBufferSeconds)%Z then Err ErrBudgetShort
    else if (remaining <? createReserve)%Z then Ok (add64 requestedSchedule createReserve, requestedSchedule)
    else Ok (requestedCreate, requestedSchedule).

(** ** Options of the kernel call *)

(** An option is a text, or the JSON of a value. *)
Inductive option_value :=
| OText (s : string)
| ORootfs (spec : RootfsSpec)
| OMounts (l : list any)
| OExtraConfig (kvs : list (string * any))
| ONetwork (p : SandboxNetworkPolicy)
| OEnv (m : gmap string string)
| OPorts (l : list sandboxPortForwarding)
| OResources (cpu memory : Z) (custom : gmap string Z).

Record InvokeOptions := MkInvokeOptions {
  TraceID : string; io_Cpu : Z; io_Memory : Z; io_CpuLimit : Z; MemoryLimit : Z; Timeout : Z;
  ScheduleTimeoutMs : Z; io_ScheduleAffinities : list Affinity;
  CreateOpt : gmap string option_value; CustomExtensions : gmap string option_value;
  CustomResources : gmap string Z }.

Definition resourceDefaults (cpu memory : Z) : Z * Z :=
  (if (cpu <=? 0)%Z then 1000%Z else cpu, if (memory <=? 0)%Z then 2048%Z else memory).

Definition createResources (req : CreateRequest) : Z * Z :=
  let '(cpu, memory) := resourceDefaults (Cpu req) (Memory req) in
  if bool_decide (TrimSpace (SnapshotID req) = "") then (cpu, memory)
  else (if (Cpu req <=? 0)%Z then (-1)%Z else cpu, if (Memory req <=? 0)%Z then (-1)%Z else memory).

(** [float64] of an integer: nearest, ties to even. *)
Definition float64 (z : Z) : Z :=
  let a := Z.abs z in
  let shift := (Z.log2 a - 52)%Z in
  if (shift <=? 0)%Z then z else
  let q := (a / 2 ^ shift)%Z in
  let r := (a mod 2 ^ shift)%Z in
  let half := (2 ^ (shift - 1))%Z in
  let q' := if (half <? r)%Z || ((r =? half)%Z && Z.odd q) then (q + 1)%Z else q in
  (Z.sgn z * (q' * 2 ^ shift))%Z.

Definition custom_resources (req : CreateRequest) (xpu : option sandboxXPURequest) : gmap string Z :=
  let m := match xpu with Some x => {[resourceName x := float64 (count x)]} | None => ∅ end in
  match StorageMb req with
  | Some s => <["storage" := (float64 s * bytesPerMiB)%Z]> m
  | None => if (0 <? StorageLimitMb req)%Z then <["storage" := (float64 (StorageLimitMb req) * bytesPerMiB)%Z]> m else m
  end.

Definition put_if (b : bool) (k : string) (v : option_value) (m : gmap string option_value) : gmap string option_value :=
  if b then <[k := v]> m else m.

(** The root file system the options carry: the one of the request, or else its image. *)
Definition effective_rootfs (req : CreateRequest) : rootfs_value :=
  match Rootfs req with RootfsText "" => RootfsText (Image req) | r => r end.

Definition fillSandboxCustomExtensions (ext : gmap string option_value) (req : CreateRequest)
    (rootfs : rootfs_value) (idleTimeoutSeconds : Z) (traceParent : string) : gmap string option_value :=
  let ext := put_if (bool_decide (traceParent ≠ "")) "traceparent" (OText traceParent) ext in
  let ext := put_if (0 <? idleTimeoutSeconds)%Z "idle_timeout" (OText (FormatInt idleTimeoutSeconds)) ext in
  let ext := put_if (0 <? CpuLimit req)%Z "CPU_LIMIT" (OText (FormatInt (CpuLimit req))) ext in
  let ext := put_if (0 <? MemLimit req)%Z "Memory_LIMIT" (OText (FormatInt (MemLimit req))) ext in
  let ext := put_if (0 <? StorageLimitMb req)%Z "STORAGE_LIMIT"
               (OText (FormatInt (wrapS 64 (StorageLimitMb req * bytesPerMiB)))) ext in
  let ext := match rootfs with
             | RootfsText s => put_if (bool_decide (s ≠ "")) "rootfs" (OText s) ext
             | RootfsJSON spec => <["rootfs" := ORootfs spec]> ext
             end in
  let ext := put_if (InheritEntrypoint req) "inherit_entrypoint" (OText "true") ext in
  let ext := put_if (negb (length (Mounts req) =? 0)%nat) "mounts" (OMounts (Mounts req)) ext in
  let ext := put_if (negb (length (ExtraConfig req) =? 0)%nat) "extra_config" (OExtraConfig (ExtraConfig req)) ext in
  match Network req with Some p => <["network_policy" := ONetwork p]> ext | None => ext end.

(** The tenant recorded for the instance: the header, the request, the token. *)
Definition create_tenant (headerTenant claim : string) (req : CreateRequest) : string :=
  or_default (or_default headerTenant (Tenant req)) claim.

Definition fillSandboxCreateOptions (headerTenant claim : string) (opts : InvokeOptions) (req : CreateRequest)
    (funcID : string) : res spec_error (gmap string option_value) :=
  let m := put_if (negb (size (Env req) =? 0)%nat) "DELEGATE_ENV_VAR" (OEnv (Env req)) (CreateOpt opts) in
  let* m := (match Ports req with
             | [] => Ok m
             | ports => let* fs := buildSandboxNetworkConfig ports (portRouteKinds req) in Ok (<["network" := OPorts fs]> m)
             end) in
  let tenantID := create_tenant headerTenant claim req in
  let m := put_if (bool_decide (tenantID ≠ "")) "tenantId" (OText tenantID) m in
  Ok (foldl (λ m kv, <[kv.1 := kv.2]> m) m
        [("FUNCTION_KEY_NOTE", OText funcID); ("INSTANCE_TYPE_NOTE", OText "reserved");
         ("SCHEDULER_MANAGED", OText "false"); ("call_timeout", OText (FormatInt (Timeout opts)));
         ("init_call_timeout", OText (FormatInt (effectiveSandboxInitCallTimeoutSeconds (InitCallTimeoutSeconds req))));
         ("GRACEFUL_SHUTDOWN_TIME", OText "5"); ("DELEGATE_DIRECTORY_INFO", OText "/tmp");
         ("DELEGATE_DIRECTORY_QUOTA", OText "512"); ("ConcurrentNum", OText "1");
         ("moduleName", OText "yr.sandbox.sandbox"); ("className", OText "SandboxInstance");
         ("RESOURCE_SPEC_NOTE", OResources (io_Cpu opts) (io_Memory opts) (CustomResources opts))]).

Definition newSandboxInvokeOptions (env headerTenant claim : string) (req : CreateRequest) (rootfs : rootfs_value)
    (idleTimeoutSeconds : Z) (traceID traceParent funcID : string) : res spec_error InvokeOptions :=
  let '(cpu, memory) := createResources req in
  let* xpu := parseSandboxXPU (XPU req) in
  let* _ := validateSandboxStorage (StorageMb req) (StorageLimitMb req) in
  let* budget := resolveSandboxCreateTimeouts env (CreateTimeoutSeconds req) (ScheduleTimeoutSeconds req)
                   (InitCallTimeoutSeconds req) in
  let ext := fillSandboxCustomExtensions
               {["lifecycle" := OText "detached"; "Concurrency" := OText "1"]} req rootfs idleTimeoutSeconds traceParent in
  let opts := MkInvokeOptions traceID cpu memory (CpuLimit req) (MemLimit req) budget.1
                (wrapS 64 (budget.2 * 1000)) (ScheduleAffinities req) ∅ ext (custom_resources req xpu) in
  let* createOpt := fillSandboxCreateOptions headerTenant claim opts req funcID in
  Ok (MkInvokeOptions traceID cpu memory (CpuLimit req) (MemLimit req) budget.1
        (wrapS 64 (budget.2 * 1000)) (ScheduleAffinities req) createOpt ext (custom_resources req xpu)).

Record sandboxInvocation := MkInvocation {
  funcID : string; invokeOpts : InvokeOptions; inv_snapshotID : string; inv_failover : bool }.

Definition prepareSandboxInvocation (env headerTenant claim traceParent : string) (req : CreateRequest)
    (idleTimeoutSeconds : Z) (traceID : string) : res spec_error sandboxInvocation :=
  let* _ := check (bool_decide (Name req = "") || bool_decide (Namespace req = "")) ErrNoName in
  let* funcID := sandboxFunctionIDForRuntime (Runtime req) in
  let* opts := newSandboxInvokeOptions env headerTenant claim req (effective_rootfs req) idleTimeoutSeconds
                 traceID traceParent funcID in
  Ok (MkInvocation funcID opts (SnapshotID req) (Failover req)).

End spec.

(** ** The raw create request *)

(** Selectors of one kind of affinity; [None] is nil. *)
Inductive label_op := OpIn (values : list string) | OpNotIn (values : list string) | OpExists | OpNotExist.
Record Selector := MkSelector { OrderPriority : bool; SubConditions : list (list (string * label_op)) }.
Record KindAffinity := MkKindAffinity {
  ka_PreferredAffinity : option Selector; ka_PreferredAntiAffinity : option Selector;
  ka_RequiredAffinity : option Selector; ka_RequiredAntiAffinity : option Selector }.
Record RawAffinity := MkRawAffinity { ra_Resource : option KindAffinity; ra_Instance : option KindAffinity }.

Definition no_selectors : KindAffinity := MkKindAffinity None None None None.

Definition rawLabelOperator (op : LabelOperator) : option label_op :=
  if (op_Type op =? 0)%Z then Some (OpIn (LabelValues op))
  else if (op_Type op =? 1)%Z then Some (OpNotIn (LabelValues op))
  else if (op_Type op =? 2)%Z then Some OpExists
  else if (op_Type op =? 3)%Z then Some OpNotExist
  else None.

(** The four affinity types, and the selector of a kind for each. *)
Inductive selector_slot := SPreferred | SPreferredAnti | SRequired | SRequiredAnti.

Definition slot_get (k : KindAffinity) (s : selector_slot) : option Selector :=
  match s with
  | SPreferred => ka_PreferredAffinity k | SPreferredAnti => ka_PreferredAntiAffinity k
  | SRequired => ka_RequiredAffinity k | SRequiredAnti => ka_RequiredAntiAffinity k
  end.
Definition slot_set (k : KindAffinity) (s : selector_slot) (sel : Selector) : KindAffinity :=
  match s with
  | SPreferred => MkKindAffinity (Some sel) (ka_PreferredAntiAffinity k) (ka_RequiredAffinity k) (ka_RequiredAntiAffinity k)
  | SPreferredAnti => MkKindAffinity (ka_PreferredAffinity k) (Some sel) (ka_RequiredAffinity k) (ka_RequiredAntiAffinity k)
  | SRequired => MkKindAffinity (ka_PreferredAffinity k) (ka_PreferredAntiAffinity k) (Some sel) (ka_RequiredAntiAffinity k)
  | SRequiredAnti => MkKindAffinity (ka_PreferredAffinity k) (ka_PreferredAntiAffinity k) (ka_RequiredAffinity k) (Some sel)
  end.

Definition resourceAffinitySelector (a : Affinity) : option selector_slot :=
  let preferRequired := PreferredPriority a && PreferredAntiOtherLabels a in
  if (af_Affinity a =? 0)%Z then Some (if preferRequired then SRequired else SPreferred)
  else if (af_Affinity a =? 1)%Z then Some (if preferRequired then SRequiredAnti else SPreferredAnti)
  else if (af_Affinity a =? 2)%Z then Some SRequired
  else if (af_Affinity a =? 3)%Z then Some SRequiredAnti
  else None.

Definition instanceAffinitySelector (a : Affinity) : option selector_slot :=
  if (af_Affinity a =? 0)%Z then Some SPreferred
  else if (af_Affinity a =? 1)%Z then Some SPreferredAnti
  else if (af_Affinity a =? 2)%Z then Some SRequired
  else if (af_Affinity a =? 3)%Z then Some SRequiredAnti
  else None.

(** The order of [api.AffinityType]: preferred, preferred anti, required,
    required anti. The last affinity of a selector decides its order. *)
Definition add_condition (k : option KindAffinity) (slot : selector_slot) (a : Affinity)
    (expressions : list (string * label_op)) : option KindAffinity :=
  let k := default no_selectors k in
  let subs := match slot_get k slot with Some sel => SubConditions sel | None => [] end in
  Some (slot_set k slot (MkSelector (PreferredPriority a) (subs ++ [expressions])%list)).

Definition add_affinity (raw : RawAffinity) (a : Affinity) : option RawAffinity :=
  let expressions := mapM (λ op, pair (LabelKey op) <$> rawLabelOperator op) (LabelOps a) in
  if (Kind a =? 0)%Z then
    match resourceAffinitySelector a, expressions with
    | Some slot, Some es => Some (MkRawAffinity (add_condition (ra_Resource raw) slot a es) (ra_Instance raw))
    | _, _ => None
    end
  else if (Kind a =? 1)%Z then
    match instanceAffinitySelector a, expressions with
    | Some slot, Some es => Some (MkRawAffinity (ra_Resource raw) (add_condition (ra_Instance raw) slot a es))
    | _, _ => None
    end
  else None.

Fixpoint add_affinities (raw : RawAffinity) (l : list Affinity) : option RawAffinity :=
  match l with [] => Some raw | a :: l => match add_affinity raw a with Some raw => add_affinities raw l | None => None end end.

Definition buildSandboxRawScheduleAffinity (l : list Affinity) : option (option RawAffinity) :=
  match l with [] => Some None | _ => Some <$> add_affinities (MkRawAffinity None None) l end.

Record raw_create := MkRawCreate {
  rc_Function : string; rc_Resources : gmap string Z; rc_Extension : gmap string option_value;
  rc_ScheduleAffinity : option RawAffinity; rc_ScheduleTimeoutMs : Z; rc_RequestID : string; rc_TraceID : string;
  DesignatedInstanceID : string; CreateOptions : gmap string option_value; rc_SnapshotID : string; rc_Failover : bool }.

Definition setStringMapDefault (values : gmap string option_value) (key : string) (v : option_value)
    : gmap string option_value :=
  match values !! key with Some _ => values | None => <[key := v]> values end.

(** [uuid] is the result of [uuid.NewString]. *)
Definition newSandboxRawRequestID (uuid : string) : string := str_take 16 (ReplaceAll uuid "-" "") +:+ "00".

Definition buildSandboxRawCreateRequest (uuid : string) (inv : sandboxInvocation) (name namespace : string)
    : option raw_create :=
  let o := invokeOpts inv in
  let resources := if (0 <=? io_Cpu o)%Z then {["CPU" := float64 (io_Cpu o)]} else ∅ in
  let resources := if (0 <=? io_Memory o)%Z then <["Memory" := float64 (io_Memory o)]> resources else resources in
  let resources := CustomResources o ∪ resources in
  let ext := CustomExtensions o in
  let ext := if (io_CpuLimit o =? 0)%Z then ext else setStringMapDefault ext "CPU_LIMIT" (OText (FormatInt (io_CpuLimit o))) in
  let ext := if (MemoryLimit o =? 0)%Z then ext else setStringMapDefault ext "MEMORY_LIMIT" (OText (FormatInt (MemoryLimit o))) in
  let opts := setStringMapDefault (CreateOpt o) "DATA_AFFINITY_ENABLED" (OText "false") in
  let opts := setStringMapDefault opts "RecoverRetryTimes" (OText "0") in
  let opts := foldl (λ m kv, setStringMapDefault m (if bool_decide (kv.1 = "Concurrency") then "ConcurrentNum" else kv.1) kv.2)
                opts (map_to_list (CustomExtensions o)) in
  match buildSandboxRawScheduleAffinity (io_ScheduleAffinities o) with
  | None => None
  | Some affinity =>
      Some (MkRawCreate (funcID inv) resources ext affinity (ScheduleTimeoutMs o) (newSandboxRawRequestID uuid)
              (TraceID o) (namespace +:+ "-" +:+ name) opts (TrimSpace (inv_snapshotID inv)) (inv_failover inv))
  end.
