(* ===== verification/SandboxSpecFacts.v ===== *)
(** * Create requests: budgets, ports, accelerators, affinities *)

From S2P Require Import Prelude GoStrings Hashing Json SandboxNetwork SandboxNetworkFacts SandboxSpec.
Open Scope string_scope.
#[local] Arguments String.append : simpl never.

(** ** Time budgets *)

Lemma add64_small a b : (0 ≤ a < 2 ^ 62)%Z → (0 ≤ b < 2 ^ 62)%Z → add64 a b = (a + b)%Z.
Proof. intros Ha Hb. apply wrapS_small; lia. Qed.

Lemma create_timeout_env_positive env : (0 < getSandboxCreateTimeoutSeconds env 0 < 2 ^ 63)%Z.
Proof.
  unfold getSandboxCreateTimeoutSeconds, sandboxCreateTimeoutSeconds. cbn [Z.ltb Z.compare].
  case_bool_decide; [done|]. destruct (Atoi (TrimSpace env)) as [v|] eqn:E; [|done].
  destruct (v <=? 0)%Z eqn:Ev; breflect; [done|]. split; [done|]. apply Atoi_range in E. lia.
Qed.

(** The budgets of a create request are consistent: for seconds below 2^61 a
    request is refused exactly when a budget is negative, when a create budget of
    at most thirty seconds comes without a scheduling budget, or when the two leave
    less than thirty seconds; otherwise the scheduling budget is positive (and the
    requested one, if any), and the create budget is at least the requested one and
    covers scheduling, initialisation and the thirty seconds of the frontend, and
    neither overflows. *)
Theorem create_budget_consistent env c s i :
  (c < 2 ^ 61)%Z → (s < 2 ^ 61)%Z → (i < 2 ^ 61)%Z →
  match resolveSandboxCreateTimeouts env c s i with
  | Err _ =>
      (c < 0 ∨ s < 0 ∨ i < 0 ∨ (0 < c ≤ 30 ∧ s = 0) ∨ (0 < c ∧ 0 < s ∧ c < s + 30))%Z
  | Ok (create, schedule) =>
      (0 ≤ c ∧ 0 ≤ s ∧ 0 ≤ i ∧ (s = 0 → c = 0 ∨ 30 < c) ∧ (0 < c → 0 < s → s + 30 ≤ c) ∧
       1 ≤ schedule ∧ (0 < s → schedule = s) ∧ c ≤ create ∧
       schedule + effectiveSandboxInitCallTimeoutSeconds i + 30 ≤ create < 2 ^ 63)%Z
  end.
Proof.
  intros Hc Hs Hi. pose proof (create_timeout_env_positive env) as He.
  unfold resolveSandboxCreateTimeouts, validateSandboxCreateTimeoutInputs, check.
  destruct (c <? 0)%Z eqn:Ec; cbn [res_bind]; breflect; [lia|].
  destruct (s <? 0)%Z eqn:Es; cbn [res_bind]; breflect; [lia|].
  destruct (i <? 0)%Z eqn:Ei; cbn [res_bind]; breflect; [lia|].
  set (init := effectiveSandboxInitCallTimeoutSeconds i).
  assert (1 ≤ init < 2 ^ 61)%Z as Hinit.
  { unfold init, effectiveSandboxInitCallTimeoutSeconds, sandboxDefaultInitTimeoutSeconds.
    destruct (0 <? i)%Z eqn:E; breflect; lia. }
  unfold sandboxScheduleBufferSeconds, sandboxDefaultScheduleSeconds. rewrite (add64_small init) by lia.
  cbv zeta.
  destruct (c =? 0)%Z eqn:Ec0; breflect; cbn [andb].
  - destruct (s =? 0)%Z eqn:Es0; breflect.
    + rewrite add64_small by lia. destruct (_ <? _)%Z eqn:E; breflect; lia.
    + rewrite add64_small by lia. lia.
  - destruct (s =? 0)%Z eqn:Es0; breflect.
    + destruct (c <=? 30)%Z eqn:E; breflect; [lia|]. rewrite add64_small by lia. lia.
    + destruct (c <? s)%Z eqn:E; breflect; [lia|]. destruct (c - s <? 30)%Z eqn:E2; breflect; [lia|].
      destruct (c - s <? init + 30)%Z eqn:E3; breflect; [rewrite add64_small by lia|]; lia.
Qed.

Lemma create_budget_consistent_witness :
  resolveSandboxCreateTimeouts "" 100 60 20 = Ok (110, 60)%Z ∧ (60 + 20 + 30 ≤ 110)%Z.
Proof.
  pose proof (create_budget_consistent "" 100 60 20 ltac:(done) ltac:(done) ltac:(done)) as H.
  split; [reflexivity|]. assert (resolveSandboxCreateTimeouts "" 100 60 20 = Ok (110, 60)%Z) as E by reflexivity.
  rewrite E in H. destruct H as (_ & _ & _ & _ & _ & _ & _ & _ & H & _). exact H.
Defined.

(** Without the bound the reserve overflows, and the budget of the whole create
    call is negative: the call then runs without a time limit. *)
Theorem create_budget_overflow :
  resolveSandboxCreateTimeouts "" 0 10 (2 ^ 63 - 1) = Ok ((- 2 ^ 63) + 39, 10)%Z.
Proof. vm_compute. reflexivity. Qed.

(** ** Ports *)

Lemma append_unique_elem ports values x :
  x ∈ appendUniquePorts ports values ↔ x ∈ ports ∨ (x ∈ values ∧ x ≠ "").
Proof.
  unfold appendUniquePorts. revert ports. induction values as [|v values IH]; intros ports; cbn.
  - rewrite elem_of_nil. naive_solver.
  - rewrite IH, elem_of_cons. destruct (bool_decide (v = "")) eqn:E1; cbn [orb].
    { apply bool_decide_eq_true in E1. naive_solver. }
    apply bool_decide_eq_false in E1. destruct (bool_decide (v ∈ ports)) eqn:E2.
    { apply bool_decide_eq_true in E2. naive_solver. }
    rewrite elem_of_app, list_elem_of_singleton. naive_solver.
Qed.

Lemma config_elem ul kinds ports fs f :
  buildSandboxNetworkConfig ul ports kinds = Ok fs → f ∈ fs ↔ ∃ p, p ∈ ports ∧ port_forwarding ul kinds p = Ok f.
Proof.
  revert fs. induction ports as [|p ports IH]; intros fs H; cbn in H.
  { injection H as <-. rewrite elem_of_nil. split; [done|]. by intros (p & Hp%elem_of_nil & _). }
  bind_in H g Hg. bind_in H gs Hgs. injection H as <-. rewrite elem_of_cons, (IH _ Hgs). split.
  - intros [->|(q & Hq & Hf)]; [exists p|exists q]; rewrite elem_of_cons; auto.
  - intros (q & [->|Hq]%elem_of_cons & Hf); [left; congruence|eauto].
Qed.

Lemma config_total ul kinds ports fs p :
  buildSandboxNetworkConfig ul ports kinds = Ok fs → p ∈ ports → ∃ f, port_forwarding ul kinds p = Ok f ∧ f ∈ fs.
Proof.
  intros H Hp. assert (∃ f, port_forwarding ul kinds p = Ok f) as [f Hf].
  { clear -H Hp. revert fs H. induction ports as [|q ports IH]; intros fs H; [by apply elem_of_nil in Hp|].
    cbn in H. bind_in H g Hg. bind_in H gs Hgs. apply elem_of_cons in Hp as [->|Hp]; eauto. }
  exists f. split; [done|]. apply (config_elem _ _ _ _ _ H). eauto.
Qed.

Lemma forwarding_ok ul kinds p f :
  port_forwarding ul kinds p = Ok f →
  (1 ≤ fw_Port f ≤ 65535)%Z ∧ (fw_Protocol f = "http" ∨ fw_Protocol f = "https") ∧
  RouteKind f = portRouteKind (fw_Port f) kinds.
Proof.
  unfold port_forwarding. intros H. bind_in H parts Hp. destruct parts as [scheme portString].
  destruct (Atoi portString) as [port|]; [|done]. unfold check, maxSandboxPort in H.
  destruct ((port <? 1)%Z || (65535 <? port)%Z) eqn:E1; [done|]. cbn [res_bind] in H.
  destruct (bool_decide (scheme ≠ "http") && bool_decide (scheme ≠ "https")) eqn:E2; [done|].
  cbn [res_bind] in H. injection H as <-. cbn. breflect. split; [lia|]. split; [|done].
  apply andb_false_iff in E2 as [E2|E2]; apply bool_decide_eq_false in E2; [left|right]; by apply dec_stable.
Qed.

(** A decimal port is forwarded as that port. *)
Lemma port_text n : (0 ≤ n < 2 ^ 63)%Z →
  str_forallb (byte_in 48 57) (FormatUint n) = true ∧ FormatUint n ≠ "".
Proof.
  intros Hn. unfold FormatUint.
  assert (∀ fuel m acc, (0 ≤ m)%Z → str_forallb (byte_in 48 57) acc = true →
            str_forallb (byte_in 48 57) (format_go fuel m acc) = true ∧ format_go fuel m acc ≠ "") as H.
  { assert (∀ m, byte_in 48 57 (digit_char (m mod 10)) = true) as Hd.
    { intros m. pose proof (Z.mod_pos_bound m 10). unfold byte_in, digit_char.
      rewrite N_ascii_embedding by lia. apply andb_true_iff. split; apply N.leb_le; lia. }
    induction fuel as [|fuel IH]; intros m acc Hm Hacc; cbn [format_go].
    - split; [|done]. cbn. by rewrite Hd.
    - destruct (m / 10 =? 0)%Z; [split; [cbn; by rewrite Hd|done]|]. apply IH; [apply Z.div_pos; lia|].
      cbn. by rewrite Hd. }
  apply H; [lia|done].
Qed.

Lemma digit_canonical c : byte_in 48 57 c = true → canonical_char c = true.
Proof.
  intros H. pose proof (ascii_check (λ c, implb (byte_in 48 57 c) (canonical_char c)) eq_refl c) as Hc.
  cbv beta in Hc. by rewrite H in Hc.
Qed.

Lemma forwarding_decimal ul kinds n :
  (1 ≤ n < 2 ^ 63)%Z →
  port_forwarding ul kinds (FormatInt n) =
    if (n <=? 65535)%Z then Ok (MkForwarding n "http" (portRouteKind n kinds)) else Err (ErrPortBounds n).
Proof.
  intros Hn. unfold FormatInt. destruct (n <? 0)%Z eqn:E; breflect; [lia|].
  destruct (port_text n ltac:(lia)) as [Hd Hne].
  pose proof (str_forallb_impl _ _ _ digit_canonical Hd) as Hc.
  unfold port_forwarding. rewrite TrimSpace_canonical by done.
  rewrite Split_no_byte by (by apply (has_byte_forallb _ _ _ Hd)). cbn [res_bind]. rewrite TrimSpace_canonical by done.
  rewrite Atoi_FormatUint by lia. unfold check, maxSandboxPort.
  destruct (n <? 1)%Z eqn:E1; breflect; [lia|]. cbn [orb].
  destruct (65535 <? n)%Z eqn:E2, (n <=? 65535)%Z eqn:E3; breflect; [lia|done|done|lia].
Qed.

Lemma tunnel_ports_spec p :
  let '(ws, http) := tunnel_ports p in (1 ≤ ws ∧ http = ws + 1)%Z ∧ ((1 < p)%Z → http = p).
Proof.
  unfold tunnel_ports, sandboxDefaultTunnelHTTPPort, sandboxDefaultTunnelWSPort.
  destruct (p <=? 0)%Z eqn:E; breflect; [cbn; split; [done|lia]|].
  destruct (p - 1 <=? 0)%Z eqn:E2; breflect; split; lia.
Qed.

(** What preparation does to the ports. *)
Lemma prepared_ports ul toASCII uuid req req' rootfs ti :
  prepareCreateV1Request ul toASCII uuid req = Ok (req', rootfs, ti) →
  let t := tunnel_ports (ProxyPort (Tunnel req)) in
  let rrt := <[50090%Z := "direct"]> (v1_portRouteKinds req) in
  if Enabled (Tunnel req)
  then v1_Ports req' = appendUniquePorts (appendUniquePorts (v1_Ports req) [FormatInt 50090]) [FormatInt t.1; FormatInt t.2] ∧
       v1_portRouteKinds req' = <[t.2 := "direct"]> (<[t.1 := "tunnel"]> rrt)
  else v1_Ports req' = appendUniquePorts (v1_Ports req) [FormatInt 50090] ∧ v1_portRouteKinds req' = rrt.
Proof.
  unfold prepareCreateV1Request. intros H. cbv zeta in H. bind_in H u1 H1. bind_in H u2 H2. bind_in H xpu H3.
  bind_in H u4 H4. bind_in H rf H5. bind_in H u6 H6.
  destruct (normalizeSandboxNetworkPolicy _ _ _) as [net|]; [|done].
  unfold prepareSandboxTunnel, prepareSandboxRRTHTTP in H. cbn [Tunnel with_port set_prepared] in H. cbv zeta.
  destruct (Enabled (Tunnel req)); cbn [negb] in H.
  - destruct (tunnel_ports (ProxyPort (Tunnel req))) as [ws http]. by injection H as <- <- <-.
  - by injection H as <- <- <-.
Qed.

Lemma config_decimal ul kinds ports fs n :
  buildSandboxNetworkConfig ul ports kinds = Ok fs → (1 ≤ n < 2 ^ 63)%Z → FormatInt n ∈ ports →
  (n ≤ 65535)%Z ∧ MkForwarding n "http" (portRouteKind n kinds) ∈ fs.
Proof.
  intros H Hn Hp. destruct (config_total _ _ _ _ _ H Hp) as (f & Hf & Hin). rewrite forwarding_decimal in Hf by done.
  destruct (n <=? 65535)%Z eqn:E; [|done]. injection Hf as <-. by breflect.
Qed.

(** Every port a sandbox gets is accounted for: when a prepared request is
    accepted, the forwardings carry valid ports over HTTP or HTTPS, every requested
    port is forwarded, ports of the user are public, the port of the runtime and,
    with a tunnel, its two ports are forwarded with the kinds the frontend owns;
    the runtime port is reached directly unless the tunnel was given the port
    above it. *)
Theorem runtime_ports_published ul toASCII uuid req req' rootfs ti fs :
  v1_portRouteKinds req = ∅ → (ProxyPort (Tunnel req) < 2 ^ 63)%Z →
  prepareCreateV1Request ul toASCII uuid req = Ok (req', rootfs, ti) →
  buildSandboxNetworkConfig ul (v1_Ports req') (v1_portRouteKinds req') = Ok fs →
  let '(ws, http) := tunnel_ports (ProxyPort (Tunnel req)) in
  let on := Enabled (Tunnel req) in
  Forall (λ f, (1 ≤ fw_Port f ≤ 65535)%Z ∧ (fw_Protocol f = "http" ∨ fw_Protocol f = "https") ∧
               (fw_Port f ≠ 50090%Z → ¬ (on = true ∧ (fw_Port f = ws ∨ fw_Port f = http)) → RouteKind f = "public")) fs ∧
  (∀ p, p ∈ v1_Ports req → ∃ f, f ∈ fs ∧ port_forwarding ul (v1_portRouteKinds req') p = Ok f) ∧
  MkForwarding 50090 "http" (if on && (ws =? 50090)%Z then "tunnel" else "direct") ∈ fs ∧
  (on = true → MkForwarding ws "http" "tunnel" ∈ fs ∧ MkForwarding http "http" "direct" ∈ fs).
Proof.
  intros Hk Hpp Hprep Hcfg. pose proof (prepared_ports _ _ _ _ _ _ _ Hprep) as Hp. cbv zeta in Hp.
  pose proof (tunnel_ports_spec (ProxyPort (Tunnel req))) as Ht.
  assert ((tunnel_ports (ProxyPort (Tunnel req))).2 < 2 ^ 63)%Z as Hlt.
  { unfold tunnel_ports, sandboxDefaultTunnelHTTPPort. by repeat case_match; breflect; cbn in *; simplify_eq; lia. }
  destruct (tunnel_ports (ProxyPort (Tunnel req))) as [ws http]. cbn [fst snd] in *. cbv zeta.
  rewrite Hk in Hp. destruct Ht as [[Hws Hhttp] _].
  assert (∀ p, p ∈ v1_Ports req ∨ p = FormatInt 50090 → p ∈ v1_Ports req') as Hin.
  { intros p [H| ->]; (destruct (Enabled (Tunnel req)); destruct Hp as [-> _]; rewrite !append_unique_elem); [auto..| |];
      rewrite list_elem_of_singleton; [left|]; by right. }
  repeat split.
  - apply Forall_forall. intros f Hf%(config_elem _ _ _ _ _ Hcfg). destruct Hf as (p & _ & Hf).
    destruct (forwarding_ok _ _ _ _ Hf) as (Hb & Hs & ->). repeat split; [lia..|done|].
    intros Hne Hnt. unfold portRouteKind. destruct (Enabled (Tunnel req)); destruct Hp as [_ ->].
    + by rewrite !lookup_insert_ne by naive_solver.
    + by rewrite lookup_insert_ne by done.
  - intros p H. destruct (config_total _ _ _ _ p Hcfg) as (f & ? & ?); eauto.
  - destruct (config_decimal _ _ _ _ 50090 Hcfg) as [_ H]; [lia|apply Hin; auto|].
    replace (portRouteKind 50090 (v1_portRouteKinds req')) with
      (if Enabled (Tunnel req) && (ws =? 50090)%Z then "tunnel" else "direct") in H; [done|].
    unfold portRouteKind. destruct (Enabled (Tunnel req)); destruct Hp as [_ ->]; cbn [andb].
    + destruct (ws =? 50090)%Z eqn:E; breflect.
      * subst ws. rewrite lookup_insert_ne by lia. by rewrite lookup_insert_eq.
      * destruct (decide (http = 50090)%Z) as [->|]; [by rewrite lookup_insert_eq|].
        rewrite !lookup_insert_ne by done. by rewrite lookup_insert_eq.
    + by rewrite lookup_insert_eq.
  - rename H into Hon. rewrite Hon in Hp. destruct Hp as [Hports Hkinds].
    destruct (config_decimal _ _ _ _ ws Hcfg) as [_ H]; [lia| |].
    { rewrite Hports, append_unique_elem. right. rewrite elem_of_cons. split; [auto|].
      unfold FormatInt. destruct (ws <? 0)%Z; [done|]. by apply port_text; lia. }
    unfold portRouteKind in H. rewrite Hkinds, lookup_insert_ne, lookup_insert_eq in H by lia. done.
  - rename H into Hon. rewrite Hon in Hp. destruct Hp as [Hports Hkinds].
    destruct (config_decimal _ _ _ _ http Hcfg) as [_ H]; [lia| |].
    { rewrite Hports, append_unique_elem. right. rewrite !elem_of_cons. split; [auto|].
      unfold FormatInt. destruct (http <? 0)%Z; [done|]. by apply port_text; lia. }
    unfold portRouteKind in H. by rewrite Hkinds, lookup_insert_eq in H.
Qed.

(** A request with one public port and a tunnel. *)
Definition ex_request (tunnelPort : Z) : CreateV1Request :=
  MkCreateV1 "box" "" "" "" "img" (MkRootfs "" "" "" "" None ∅) ["8080"] 0 0 0 0 0 ∅ [] [] "GPU:A100:02" None 0
    [MkAffinity 0 2 false false [MkLabelOp 0 "zone" ["a"]]] (MkTunnel true tunnelPort) None "" false false 0 0 0 ∅ false.

Lemma runtime_ports_published_witness :
  ∃ req' rootfs ti fs,
    prepareCreateV1Request id (λ _, None) "u" (ex_request 0) = Ok (req', rootfs, ti) ∧
    buildSandboxNetworkConfig id (v1_Ports req') (v1_portRouteKinds req') = Ok fs ∧
    MkForwarding 50090 "http" "direct" ∈ fs ∧ MkForwarding 8765 "http" "tunnel" ∈ fs ∧
    MkForwarding 8766 "http" "direct" ∈ fs.
Proof.
  destruct (prepareCreateV1Request id (λ _, None) "u" (ex_request 0)) as [[[req' rootfs] ti]|] eqn:Hp;
    [|by vm_compute in Hp].
  destruct (buildSandboxNetworkConfig id (v1_Ports req') (v1_portRouteKinds req')) as [fs|] eqn:Hc.
  2: { exfalso. vm_compute in Hp. injection Hp as <- <- <-. by vm_compute in Hc. }
  exists req', rootfs, ti, fs. split; [done|]. split; [done|].
  destruct (runtime_ports_published id (λ _, None) "u" (ex_request 0) req' rootfs ti fs
              eq_refl eq_refl Hp Hc) as (_ & _ & H3 & H4).
  split; [exact H3|exact (H4 eq_refl)].
Defined.

(** A tunnel whose proxy port is 50091 takes the port of the runtime for its
    WebSocket: the runtime port is no longer routed directly. *)
Theorem tunnel_takes_runtime_port :
  ∃ req' rootfs ti,
    prepareCreateV1Request id (λ _, None) "u" (ex_request 50091) = Ok (req', rootfs, ti) ∧
    v1_portRouteKinds req' !! 50090%Z = Some "tunnel" ∧
    v1_Env req' !! "RRT_HTTP_PORT" = v1_Env req' !! "RRT_TUNNEL_WS_PORT".
Proof. eexists _, _, _. split; [vm_compute; reflexivity|]. split; vm_compute; reflexivity. Qed.

(** ** Accelerators *)

Lemma Split_three a b c :
  has_byte ":" a = false → has_byte ":" b = false → has_byte ":" c = false →
  Split (a +:+ ":" +:+ b +:+ ":" +:+ c) ":" = [a; b; c].
Proof.
  intros Ha Hb Hc. pose proof (Split_Join ":" [a; b; c]) as H. cbn [Join] in H. apply H; [done|].
  by repeat constructor.
Qed.

Lemma lower_type_canonical s : xpu_type_ok s = true → str_forallb canonical_char s = true ∧ has_byte ":" s = false ∧ s ≠ "".
Proof.
  destruct s as [|c r]; [done|]. cbn [xpu_type_ok]. intros [Hc Hr]%andb_true_iff.
  assert (ldh c = true) as Hl by (unfold ldh; by rewrite Hc).
  assert (str_forallb ldh (String c r) = true) as H by (cbn; by rewrite Hl, Hr).
  split; [|split; [by apply (has_byte_forallb _ _ _ H)|done]].
  eapply str_forallb_impl; [|exact H]. intros x Hx. by apply domain_char_canonical, ldh_domain.
Qed.

(** The normalised form of an accelerator request is stable: parsing it again
    yields the same resource, count and normalised text, so a request that was
    prepared once is prepared to itself. *)
Theorem xpu_roundtrip ul value x :
  parseSandboxXPU ul value = Ok (Some x) →
  parseSandboxXPU ul (normalized x) = Ok (Some x) ∧ (1 ≤ count x < 2 ^ 63)%Z.
Proof.
  unfold parseSandboxXPU at 1. intros H. case_in H; [done|].
  destruct (Split value ":") as [|f0 [|model [|f2 [|]]]] eqn:Hs; try done.
  case_in H; [done|]. case_in H; [done|]. cbv zeta in H. case_in H; [done|]. case_in H; [done|].
  destruct (Atoi f2) as [n|] eqn:Hn; [|done]. case_in H; [done|]. injection H as <-. cbn [normalized count].
  pose proof (Split_pieces ":" value) as Hp. rewrite Hs in Hp.
  apply Forall_cons in Hp as [_ Hp]. apply Forall_cons in Hp as [Hm _].
  breflect. apply Atoi_range in Hn. split; [|lia].
  match goal with H : xpu_type_ok _ = true |- _ => destruct (lower_type_canonical _ H) as (Hc & Hcol & Hne); rename H into Hok end.
  set (t := ToLower ul f0) in *.
  destruct (port_text n ltac:(lia)) as [Hd Hdne].
  assert (FormatInt n = FormatUint n) as Hfi by (unfold FormatInt; destruct (n <? 0)%Z eqn:E; breflect; [lia|done]).
  rewrite Hfi. unfold parseSandboxXPU.
  rewrite bool_decide_eq_false_2 by (by destruct t).
  rewrite Split_three; [|done|done|by apply (has_byte_forallb _ _ _ Hd)].
  rewrite !bool_decide_eq_false_2 by done. cbn [orb].
  pose proof (str_forallb_impl _ _ _ digit_canonical Hd) as Hdc.
  match goal with H : forallb _ _ = true |- _ => cbn [forallb] in H; rewrite !andb_true_iff in H; destruct H as (_ & Hmt & _) end.
  cbn [forallb]. rewrite (TrimSpace_canonical t), (TrimSpace_canonical (FormatUint n)), Hmt by done. rewrite !bool_decide_eq_true_2 by done. cbn [andb negb].
  rewrite (ToLower_canonical ul t Hc), Hok. cbn [negb].
  assert (xpu_count_ok (FormatUint n) = true) as ->.
  { unfold xpu_count_ok. rewrite Hd. by rewrite bool_decide_eq_false_2. }
  cbn [negb]. rewrite Atoi_FormatUint by lia. destruct (n <=? 0)%Z eqn:E; breflect; [lia|]. by rewrite Hfi.
Qed.

Lemma xpu_roundtrip_witness :
  ∃ x, parseSandboxXPU id "GPU:A100.x:02" = Ok (Some x) ∧ normalized x = "gpu:A100.x:2" ∧
       parseSandboxXPU id "gpu:A100.x:2" = Ok (Some x).
Proof.
  destruct (parseSandboxXPU id "GPU:A100.x:02") as [[x|]|] eqn:E; [|by vm_compute in E..].
  exists x. split; [done|]. assert (normalized x = "gpu:A100.x:2") as Hn.
  { vm_compute in E. by injection E as <-. }
  split; [exact Hn|]. rewrite <- Hn. destruct (xpu_roundtrip id _ _ E) as [H _]. exact H.
Defined.

(** ** Affinities *)

Definition affinity_ok (a : Affinity) : Prop :=
  (Kind a = 0 ∨ Kind a = 1)%Z ∧ (0 ≤ af_Affinity a ≤ 3)%Z ∧
  Forall (λ op, (0 ≤ op_Type op ≤ 3)%Z) (LabelOps a).

Lemma for_index_Forall {A} (f : A → nat → res spec_error unit) (P : A → Prop) l i u :
  (∀ a i u, f a i = Ok u → P a) → for_index f i l = Ok u → Forall P l.
Proof.
  intros Hf. revert i u. induction l as [|a l IH]; intros i u H; cbn in H; [constructor|].
  bind_in H v Hv. constructor; eauto.
Qed.

Lemma validated_affinities l u : validateScheduleAffinities l = Ok u → Forall affinity_ok l.
Proof.
  unfold validateScheduleAffinities. apply for_index_Forall. intros a i v H. unfold check in H.
  bind_in H u1 H1. bind_in H u2 H2. bind_in H u3 H3. case_in H1; [done|]. case_in H2; [done|]. breflect.
  match goal with E : _ && _ = false |- _ => apply andb_false_iff in E end.
  split; [|split; [lia|]].
  - destruct_or!; breflect; auto.
  - revert H. apply for_index_Forall. intros op j w H. unfold validate_label, check in H.
    bind_in H u4 Hty. case_in Hty; [done|]. breflect. lia.
Qed.

Lemma kinds_covered (x : Z) : (0 ≤ x ≤ 3)%Z → x = 0%Z ∨ x = 1%Z ∨ x = 2%Z ∨ x = 3%Z.
Proof. lia. Qed.

Lemma rawLabelOperator_ok op : (0 ≤ op_Type op ≤ 3)%Z → ∃ o, rawLabelOperator op = Some o.
Proof.
  intros H%kinds_covered. unfold rawLabelOperator. destruct H as [->|[->|[->| ->]]]; eexists; reflexivity.
Qed.
Lemma selectors_ok a : (0 ≤ af_Affinity a ≤ 3)%Z →
  (∃ s, resourceAffinitySelector a = Some s) ∧ ∃ s, instanceAffinitySelector a = Some s.
Proof.
  intros H%kinds_covered. unfold resourceAffinitySelector, instanceAffinitySelector.
  destruct H as [->|[->|[->| ->]]]; split; eexists; reflexivity.
Qed.

Lemma add_affinities_ok l raw : Forall affinity_ok l → add_affinities raw l ≠ None.
Proof.
  intros Hl. revert raw. induction Hl as [|a l (Hk & Ha & Hops) Hl IH]; intros raw; cbn; [done|].
  assert (∃ es, mapM (λ op, pair (LabelKey op) <$> rawLabelOperator op) (LabelOps a) = Some es) as [es Hes].
  { clear -Hops. induction Hops as [|op ops Hop Hops [es IH]]; [by exists []|].
    destruct (rawLabelOperator_ok op Hop) as [o Ho]. exists ((LabelKey op, o) :: es). cbn. rewrite Ho. cbn.
    by rewrite IH. }
  destruct (selectors_ok a Ha) as [[s1 H1] [s2 H2]].
  unfold add_affinity. rewrite Hes, H1, H2. destruct Hk as [-> | ->]; cbn; apply IH.
Qed.

(** The memory limit of a request reaches the scheduler under two names, of
    which only one is the name the raw request itself uses. *)
Theorem memory_limit_two_names :
  ∃ inv raw,
    prepareSandboxInvocation id "" "" "" ""
      (MkCreate "n" "s" "" "" (RootfsText "") "" [] ∅ 0 0 0 512 ∅ [] [] "" None 0 None "" false false [] 0 0 0 false) 0 "t" = Ok inv ∧
    buildSandboxRawCreateRequest "" inv "n" "s" = Some raw ∧
    rc_Extension raw !! "Memory_LIMIT" = Some (OText "512") ∧ rc_Extension raw !! "MEMORY_LIMIT" = Some (OText "512").
Proof. eexists _, _. split; [vm_compute; reflexivity|]. split; [vm_compute; reflexivity|]. split; vm_compute; reflexivity. Qed.
