(* ===== verification/SandboxCreate.v ===== *)
(** * Creating sandboxes (pkg/frontend/api/sandbox/handler.go)

    [createSandbox]: the store that replays the answer of a repeated request,
    the single flight per sandbox name, the kernel call and the mapping of its
    errors. Requests run concurrently; the steps are the critical sections of
    the code. The kernel call, the clock and the polls of the instance state
    are inputs; the digest of a request is a parameter. *)

From S2P Require Import Prelude GoStrings Hashing Json JwtAuth ExecEndpoint SandboxNetwork SandboxSpec.
Open Scope string_scope.
Open Scope go_scope.

(** ** Results and errors *)

Definition sandboxCreateStatusRunning : string := "running".
Definition sandboxCreateStatusTimeout : string := "timeout".
Definition sandboxCreateStatusFailed : string := "failed".
Definition sandboxInstanceDuplicatedCode : Z := 1004.
Definition createTimeoutSuccessCode : Z := 3002.

Inductive create_error :=
| ErrRequestConflict (requestID : string)
| ErrAlreadyExists (requestID namespace name instanceID leaderRequestID : string)
| ErrInfo (code : Z)     (* api.ErrorInfo of the kernel *)
| ErrCall.               (* any other error of the call *)

Record sandboxCreateResult := MkResult { instanceID : string; status : string }.
Definition outcome : Type := sandboxCreateResult * option create_error.

Definition createErrorCode (err : create_error) : Z :=
  match err with
  | ErrRequestConflict _ => 409
  | ErrAlreadyExists _ _ _ _ _ => sandboxInstanceDuplicatedCode
  | ErrInfo code => code
  | ErrCall => 0
  end.

(** The HTTP status [createSandbox] and its handlers answer with. *)
Definition response_status (o : outcome) : Z :=
  match o.2 with
  | None => 200
  | Some (ErrRequestConflict _) | Some (ErrAlreadyExists _ _ _ _ _) => 409
  | Some _ => 500
  end.

(** ** The kernel call *)

(** [parseSandboxRawCreateResponse] on the code of the notification. *)
Definition parseSandboxRawCreateResponse (code : Z) (designated : string) : string * option create_error :=
  if (code =? 0)%Z then (designated, None) else (designated, Some (ErrInfo code)).

Definition isSandboxInstanceDuplicated (err : option create_error) : bool :=
  match err with Some (ErrInfo code) => (code =? sandboxInstanceDuplicatedCode)%Z | _ => false end.

Definition shouldTreatCreateTimeoutAsSuccess (instanceID : string) (err : create_error) : bool :=
  if bool_decide (instanceID = "") then false
  else match err with ErrInfo code => (code =? createTimeoutSuccessCode)%Z | _ => false end.

(** [waitForSandboxInstanceRunning]: what each poll finds, with the time
    before it, and what the last look finds. *)
Fixpoint waitForSandboxInstanceRunning (deadline : Z) (polls : list (Z * bool)) (last : bool) : bool :=
  match polls with
  | [] => last
  | (now, running) :: polls =>
      if (now <? deadline)%Z then if running then true else waitForSandboxInstanceRunning deadline polls last
      else last
  end.

Definition finishSandboxCreate (running : bool) (inst : string) (err : option create_error) : outcome :=
  match err with
  | None => (MkResult inst sandboxCreateStatusRunning, None)
  | Some e =>
      if shouldTreatCreateTimeoutAsSuccess inst e then
        if running then (MkResult inst sandboxCreateStatusRunning, None)
        else (MkResult inst sandboxCreateStatusTimeout, Some e)
      else (MkResult inst sandboxCreateStatusFailed, Some e)
  end.

(** ** Requests *)

(** [token] is the token of the X-Auth header or else of the query. *)
Definition tenantClaim (header_token query_token : string) : string :=
  match ParseJWT (or_default header_token query_token) with
  | Ok parsed => Sub (Payload parsed)
  | Err _ => ""
  end.

Definition sandboxCreateTenant (claim : string) (req : CreateRequest) : string := or_default claim (Tenant req).

Definition nul : string := String (ascii_of_N 0) "".
Definition sandboxCreateSingleflightKey (req : CreateRequest) : string := Join [Namespace req; Name req] nul.
Definition sandboxCreateRequestIDKey (claim : string) (req : CreateRequest) (requestID : string) : string :=
  Join [sandboxCreateTenant claim req; requestID] nul.

(** [sandboxInstanceExists] on the exec endpoint store. *)
Definition sandboxInstanceExists (st : Store) (id : string) : bool :=
  match GetSummary st id with
  | Some su => negb (su_StatusCode su =? StatusFatal)%Z && negb (su_StatusCode su =? StatusScheduleFailed)%Z
  | None => false
  end.

(** What [createSandbox] needs of a request. *)
Section create.
  Context {D : Type} `{EqDecision D}.

Record create_call := MkCall {
  c_key : string; c_ident : string; c_requestID : string; c_digest : D;
  c_namespace : string; c_name : string; c_generated : bool }.

(** The name of an anonymous request is left out of the digest. *)
Definition sandboxCreateRequestDigest (hash : CreateRequest → gmap Z string → Z → D) (req : CreateRequest)
    (idle : Z) : D :=
  hash (if nameGenerated req then
          MkCreate "" (Namespace req) (Tenant req) (Runtime req) (Rootfs req) (Image req) (Ports req)
            (portRouteKinds req) (Cpu req) (Memory req) (CpuLimit req) (MemLimit req) (Env req) (Mounts req)
            (ExtraConfig req) (XPU req) (StorageMb req) (StorageLimitMb req) (Network req) (SnapshotID req)
            (Failover req) (InheritEntrypoint req) (ScheduleAffinities req) (CreateTimeoutSeconds req)
            (ScheduleTimeoutSeconds req) (InitCallTimeoutSeconds req) true
        else req) (portRouteKinds req) idle.

Definition create_call_of (hash : CreateRequest → gmap Z string → Z → D) (claim requestID : string)
    (req : CreateRequest) (idle : Z) : create_call :=
  MkCall (sandboxCreateRequestIDKey claim req requestID) (sandboxCreateSingleflightKey req) requestID
    (sandboxCreateRequestDigest hash req idle) (Namespace req) (Name req) (nameGenerated req).

Definition c_instance (c : create_call) : string := c_namespace c +:+ "-" +:+ c_name c.
Definition already_exists (c : create_call) (leader : string) : create_error :=
  ErrAlreadyExists (c_requestID c) (c_namespace c) (c_name c) (c_instance c) leader.

(** ** The shared state

    Entries and calls are shared by pointer: addresses into a heap. An entry
    whose completion time is unset is under way; a call is under way until
    its channel is closed. *)

Record replay_entry := MkEntry { e_digest : D; e_outcome : option outcome; completedAt : option Z }.
Record flight_call := MkFlightCall { leaderRequestID : string; f_outcome : option outcome }.

(** Where a request is. *)
Inductive pc :=
| Begin                                   (* before createReplayStore.do *)
| WaitEntry (e : nat)                     (* in <-entry.done *)
| Leading (e : nat)                       (* created the entry *)
| Checked (e : nat)                       (* the sandbox was not known *)
| WaitCall (e f : nat)                    (* in <-call.done *)
| Calling (e f : nat)                     (* in the kernel call *)
| Called (e f : nat) (o : outcome)        (* before the call is completed *)
| Publishing (e : nat) (o : outcome)      (* before the entry is completed *)
| Returned (o : outcome).

Record state := MkState {
  entries : gmap string nat; entry_heap : gmap nat replay_entry;
  calls : gmap string nat; call_heap : gmap nat flight_call;
  next : nat; pcs : gmap nat pc;
}.

Definition pc_of (s : state) (i : nat) : pc := default Begin (pcs s !! i).
Definition set_pc (s : state) (i : nat) (p : pc) : state :=
  MkState (entries s) (entry_heap s) (calls s) (call_heap s) (next s) (<[i := p]> (pcs s)).
Definition set_entries (s : state) (es : gmap string nat) : state :=
  MkState es (entry_heap s) (calls s) (call_heap s) (next s) (pcs s).

Definition completed (s : state) (e : nat) : option Z := entry_heap s !! e ≫= completedAt.

(** ** pruneLocked *)

Definition expired (s : state) (ttl now : Z) (e : nat) : Prop :=
  match completed s e with Some t => (ttl <= now - t)%Z | None => False end.
#[export] Instance expired_dec s ttl now e : Decision (expired s ttl now e).
Proof. unfold expired. destruct (completed s e); apply _. Defined.

(** The loop over the map that finds the oldest completed entry. *)
Definition oldest (s : state) : option (string * Z) :=
  foldl (λ best ka,
    match completed s ka.2 with
    | None => best
    | Some t => match best with
                | None => Some (ka.1, t)
                | Some (_, t') => if (t <? t')%Z then Some (ka.1, t) else best
                end
    end) None (map_to_list (entries s)).

Fixpoint evict_entries (fuel : nat) (maxEntries : nat) (s : state) : state :=
  match fuel with
  | O => s
  | S fuel =>
      if (0 <? maxEntries)%nat && (maxEntries <? size (entries s))%nat then
        match oldest s with
        | None => s
        | Some (k, _) => evict_entries fuel maxEntries (set_entries s (delete k (entries s)))
        end
      else s
  end.

Definition pruneLocked (ttl : Z) (maxEntries : nat) (now : Z) (s : state) : state :=
  let s := set_entries s (filter (λ ka, ¬ expired s ttl now ka.2) (entries s)) in
  evict_entries (size (entries s)) maxEntries s.

(** ** Steps *)

Section steps.
  Variable ttl : Z.
  Variable maxEntries : nat.
  (** The requests, by number. *)
  Variable request : nat → create_call.

Inductive event :=
| Lookup (i : nat) (now : Z)
| CheckExists (i : nat) (st : Store)
| JoinFlight (i : nat)
| KernelAnswer (i : nat) (inst : string) (err : option create_error) (running : bool)
| CloseFlight (i : nat)
| WakeFlight (i : nat)
| Publish (i : nat) (now : Z)
| WakeEntry (i : nat).

Definition event_thread (ev : event) : nat :=
  match ev with
  | Lookup i _ | CheckExists i _ | JoinFlight i | KernelAnswer i _ _ _ | CloseFlight i | WakeFlight i
  | Publish i _ | WakeEntry i => i
  end.

(** The critical section of [createReplayStore.do] before [create]. *)
Definition lookup_step (s : state) (i : nat) (now : Z) : state :=
  let c := request i in
  let s := pruneLocked ttl maxEntries now s in
  match entries s !! c_key c with
  | Some e =>
      match entry_heap s !! e with
      | Some entry =>
          if negb (bool_decide (e_digest entry = c_digest c))
          then set_pc s i (Returned (MkResult "" sandboxCreateStatusFailed, Some (ErrRequestConflict (c_requestID c))))
          else
            match completedAt entry, e_outcome entry with
            | Some _, Some o => set_pc s i (Returned o)
            | _, _ => set_pc s i (WaitEntry e)
            end
      | None => s
      end
  | None =>
      let e := next s in
      MkState (<[c_key c := e]> (entries s)) (<[e := MkEntry (c_digest c) None None]> (entry_heap s))
        (calls s) (call_heap s) (S e) (<[i := Leading e]> (pcs s))
  end.

(** The critical section of [createSingleflight.do] before [create]. *)
Definition flight_step (s : state) (i e : nat) : state :=
  let c := request i in
  match calls s !! c_ident c with
  | Some f =>
      match call_heap s !! f with
      | Some call =>
          if bool_decide (leaderRequestID call = c_requestID c) then set_pc s i (WaitCall e f)
          else set_pc s i (Publishing e (MkResult "" sandboxCreateStatusFailed,
                                         Some (already_exists c (leaderRequestID call))))
      | None => s
      end
  | None =>
      let f := next s in
      MkState (entries s) (entry_heap s) (<[c_ident c := f]> (calls s))
        (<[f := MkFlightCall (c_requestID c) None]> (call_heap s)) (S f) (<[i := Calling e f]> (pcs s))
  end.

(** The function given to the single flight, after the kernel answered. *)
Definition create_outcome (c : create_call) (inst : string) (err : option create_error) (running : bool) : outcome :=
  if isSandboxInstanceDuplicated err
  then (MkResult (c_instance c) sandboxCreateStatusFailed, Some (already_exists c ""))
  else finishSandboxCreate running inst err.

Definition step (s : state) (ev : event) : state :=
  match ev, pc_of s (event_thread ev) with
  | Lookup i now, Begin => lookup_step s i now
  | CheckExists i st, Leading e =>
      let c := request i in
      if negb (c_generated c) && sandboxInstanceExists st (c_instance c)
      then set_pc s i (Publishing e (MkResult (c_instance c) sandboxCreateStatusFailed, Some (already_exists c "")))
      else set_pc s i (Checked e)
  | JoinFlight i, Checked e => flight_step s i e
  | KernelAnswer i inst err running, Calling e f =>
      set_pc s i (Called e f (create_outcome (request i) inst err running))
  | CloseFlight i, Called e f o =>
      let s := set_pc s i (Publishing e o) in
      MkState (entries s) (entry_heap s) (delete (c_ident (request i)) (calls s))
        (alter (λ call, MkFlightCall (leaderRequestID call) (Some o)) f (call_heap s)) (next s) (pcs s)
  | WakeFlight i, WaitCall e f =>
      match call_heap s !! f ≫= f_outcome with
      | Some o => set_pc s i (Publishing e o)
      | None => s
      end
  | Publish i now, Publishing e o =>
      let s := MkState (entries s)
                 (alter (λ entry, MkEntry (e_digest entry) (Some o) (Some now)) e (entry_heap s))
                 (calls s) (call_heap s) (next s) (<[i := Returned o]> (pcs s)) in
      pruneLocked ttl maxEntries now s
  | WakeEntry i, WaitEntry e =>
      match entry_heap s !! e with
      | Some entry =>
          match completedAt entry, e_outcome entry with
          | Some _, Some o => set_pc s i (Returned o)
          | _, _ => s
          end
      | None => s
      end
  | _, _ => s
  end.

Definition init : state := MkState ∅ ∅ ∅ ∅ 0 ∅.
Definition run (evs : list event) : state := foldl step init evs.
End steps.
End create.
