(* ===== verification/SandboxCreateFacts.v ===== *)
(** * Creation of sandboxes is idempotent

    Requests that repeat a request ID share one creation, and every request is
    answered. *)

From S2P Require Import Prelude GoStrings Hashing Json JwtAuth ExecEndpoint SandboxNetwork SandboxSpec SandboxCreate.
Open Scope string_scope.

Section facts.
  Context {D : Type} `{EqDecision D}.
  Variable ttl : Z.
  Variable maxEntries : nat.
  Variable request : nat → @create_call D.
  Implicit Types s : @state D.

(** ** Pruning *)

(** Only [entries] changes. *)
Definition same_rest s s' : Prop :=
  entry_heap s' = entry_heap s ∧ calls s' = calls s ∧ call_heap s' = call_heap s ∧ next s' = next s ∧ pcs s' = pcs s.

Lemma oldest_completed s k t :
  oldest s = Some (k, t) → ∃ e, entries s !! k = Some e ∧ completed s e = Some t.
Proof using Type.
  unfold oldest. intros H.
  refine (foldl_inv (λ b : option (string * Z), ∀ k t, b = Some (k, t) → ∃ e, entries s !! k = Some e ∧ completed s e = Some t)
            _ (map_to_list (entries s)) None _ _ k t H); [|done].
  intros b [k' e'] Hin Hb k0 t0 E. apply elem_of_map_to_list in Hin. cbn in E.
  destruct (completed s e') as [t'|] eqn:Et; [|by apply Hb].
  destruct b as [[kb tb]|]; [|simplify_eq; eauto]. case_in E; [simplify_eq; eauto|by apply Hb].
Qed.

Lemma evict_entries_spec fuel s :
  let s' := evict_entries fuel maxEntries s in
  same_rest s s' ∧ entries s' ⊆ entries s ∧
  (∀ k e, entries s !! k = Some e → completed s e = None → entries s' !! k = Some e) ∧
  ((size (entries s) ≤ maxEntries)%nat → s' = s).
Proof using Type.
  revert s. induction fuel as [|fuel IH]; intros s; cbn [evict_entries]; [done|].
  destruct ((0 <? maxEntries)%nat && _) eqn:E; [|done]. breflect.
  destruct (oldest s) as [[k t]|] eqn:Ho; [|done]. apply oldest_completed in Ho as (e & He & Ht).
  destruct (IH (set_entries s (delete k (entries s)))) as ((h1 & h2 & h3 & h4 & h5) & Hsub & Hk & _). cbn in *.
  split; [done|]. split; [etrans; [done|]; apply delete_subseteq|]. split; [|lia].
  intros k' e' Hk' Hc. apply Hk; [|done]. rewrite lookup_delete_ne; [done|]. intros ->. congruence.
Qed.

Lemma prune_spec now s :
  let s' := pruneLocked ttl maxEntries now s in
  same_rest s s' ∧ entries s' ⊆ entries s ∧
  (∀ k e, entries s !! k = Some e → completed s e = None → entries s' !! k = Some e) ∧
  (∀ k e t, (size (entries s) ≤ maxEntries)%nat → entries s !! k = Some e → completed s e = Some t →
     (now - t < ttl)%Z → entries s' !! k = Some e).
Proof using Type.
  unfold pruneLocked. cbv zeta.
  set (s1 := set_entries s (filter (λ ka, ¬ expired s ttl now ka.2) (entries s))).
  destruct (evict_entries_spec (size (entries s1)) s1) as ((h1 & h2 & h3 & h4 & h5) & Hsub & Hk & Hfull).
  assert (entries s1 ⊆ entries s) as Hf by apply map_filter_subseteq.
  split; [done|]. split; [by etrans|]. split.
  - intros k e He Hc. apply Hk; [|done]. cbn. apply map_lookup_filter_Some. split; [done|]. unfold expired. cbn.
    rewrite Hc. auto.
  - intros k e t Hsz He Hc Ht. rewrite Hfull.
    + cbn. apply map_lookup_filter_Some. split; [done|]. unfold expired. cbn. rewrite Hc. lia.
    + etrans; [|exact Hsz]. by apply map_subseteq_size.
Qed.

(** ** The invariant *)

Definition leads (p : pc) (e : nat) : Prop :=
  match p with
  | Leading e' | Checked e' | WaitCall e' _ | Calling e' _ | Called e' _ _ | Publishing e' _ => e' = e
  | _ => False
  end.
Definition flies (p : pc) (f : nat) : Prop :=
  match p with Calling _ f' | Called _ f' _ => f' = f | _ => False end.

(** The entry [e] of key [k] has a leader, under way or returned. *)
Definition owned s (e : nat) (k : string) : Prop :=
  ∃ j entry, entry_heap s !! e = Some entry ∧ c_key (request j) = k ∧ e_digest entry = c_digest (request j) ∧
    ((leads (pc_of s j) e ∧ completedAt entry = None) ∨
     (∃ o t, e_outcome entry = Some o ∧ completedAt entry = Some t ∧ pc_of s j = Returned o)).

Record inv s : Prop := {
  i_entry : ∀ k e, entries s !! k = Some e → owned s e k;
  i_lead : ∀ i e, leads (pc_of s i) e →
    entries s !! c_key (request i) = Some e ∧ completed s e = None;
  i_lead_unique : ∀ i j e, leads (pc_of s i) e → leads (pc_of s j) e → i = j;
  i_wait : ∀ i e, pc_of s i = WaitEntry e →
    owned s e (c_key (request i)) ∧ ∀ entry, entry_heap s !! e = Some entry → e_digest entry = c_digest (request i);
  i_call : ∀ k f, calls s !! k = Some f → ∃ j, flies (pc_of s j) f ∧ c_ident (request j) = k;
  i_fly : ∀ i f, flies (pc_of s i) f → calls s !! c_ident (request i) = Some f ∧
    call_heap s !! f = Some (MkFlightCall (c_requestID (request i)) None);
  i_fly_unique : ∀ i j f, flies (pc_of s i) f → flies (pc_of s j) f → i = j;
  i_join : ∀ i e f, pc_of s i = WaitCall e f →
    ∃ o, call_heap s !! f = Some (MkFlightCall (c_requestID (request i)) o) ∧
      (o = None → calls s !! c_ident (request i) = Some f);
  i_fresh : ∀ a, (next s ≤ a)%nat → entry_heap s !! a = None ∧ call_heap s !! a = None;
}.

Lemma pc_of_set s i p j : pc_of (set_pc s i p) j = if decide (i = j) then p else pc_of s j.
Proof using Type.
  unfold pc_of, set_pc. cbn. case_decide; [subst; by rewrite lookup_insert_eq|by rewrite lookup_insert_ne].
Qed.

Lemma pc_of_insert (m : gmap nat pc) (i j : nat) (p : pc) :
  default Begin (<[i := p]> m !! j) = if decide (i = j) then p else default Begin (m !! j).
Proof using Type. case_decide; [subst; by rewrite lookup_insert_eq|by rewrite lookup_insert_ne]. Qed.

Lemma same_rest_pc s s' i : same_rest s s' → pc_of s' i = pc_of s i.
Proof using Type. intros (_ & _ & _ & _ & H). unfold pc_of. by rewrite H. Qed.

Lemma same_rest_completed s s' e : same_rest s s' → completed s' e = completed s e.
Proof using Type. intros (H & _). unfold completed. by rewrite H. Qed.

Lemma same_rest_owned s s' e k : same_rest s s' → owned s e k → owned s' e k.
Proof using Type.
  intros Hr (j & entry & He & Hk & Hd & H). exists j, entry. rewrite (same_rest_pc _ _ j Hr).
  destruct Hr as (-> & _). eauto.
Qed.

(** Pruning keeps the invariant. *)
Lemma inv_prune now s : inv s → inv (pruneLocked ttl maxEntries now s).
Proof using Type.
  intros Hi. destruct (prune_spec now s) as (Hr & Hsub & Hkeep & _).
  set (s' := pruneLocked ttl maxEntries now s) in *.
  pose proof Hr as (He & Hc & Hch & Hn & Hp). split.
  - intros k e H. eapply same_rest_owned; [done|]. apply Hi. by eapply lookup_weaken.
  - intros i e. rewrite (same_rest_pc _ _ i Hr), (same_rest_completed _ _ e Hr). intros H.
    destruct (i_lead _ Hi _ _ H) as [H1 H2]. eauto.
  - intros i j e. rewrite !(same_rest_pc _ _ _ Hr). apply Hi.
  - intros i e. rewrite (same_rest_pc _ _ i Hr), He. intros H. destruct (i_wait _ Hi _ _ H) as [H1 H2].
    split; [by eapply same_rest_owned|done].
  - intros k f. rewrite Hc. intros (j & H1 & H2)%(i_call _ Hi). exists j. by rewrite (same_rest_pc _ _ j Hr).
  - intros i f. rewrite (same_rest_pc _ _ i Hr), Hc, Hch. apply Hi.
  - intros i j f. rewrite !(same_rest_pc _ _ _ Hr). apply Hi.
  - intros i e f. rewrite (same_rest_pc _ _ i Hr), Hc, Hch. apply Hi.
  - intros a. rewrite Hn, He, Hch. apply Hi.
Qed.

(** ** Steps *)

(** A step of one request that leaves the shared state alone. *)
Lemma inv_move s i p p' :
  inv s → pc_of s i = p → (∀ o, p ≠ Returned o) →
  (∀ e, leads p' e ↔ leads p e) → (∀ f, flies p' f ↔ flies p f) →
  (∀ e, p' = WaitEntry e → owned s e (c_key (request i)) ∧
     ∀ entry, entry_heap s !! e = Some entry → e_digest entry = c_digest (request i)) →
  (∀ e f, p' = WaitCall e f →
     ∃ o, call_heap s !! f = Some (MkFlightCall (c_requestID (request i)) o) ∧
       (o = None → calls s !! c_ident (request i) = Some f)) →
  inv (set_pc s i p').
Proof using Type.
  intros Hi Hp Hret Hl Hf Hwe Hwc.
  assert (∀ j e, leads (pc_of (set_pc s i p') j) e ↔ leads (pc_of s j) e) as HL.
  { intros j e. rewrite pc_of_set. case_decide; [subst; apply Hl|done]. }
  assert (∀ j f, flies (pc_of (set_pc s i p') j) f ↔ flies (pc_of s j) f) as HF.
  { intros j f. rewrite pc_of_set. case_decide; [subst; apply Hf|done]. }
  assert (∀ e k, owned s e k → owned (set_pc s i p') e k) as HO.
  { intros e k (j & entry & He & Hk & Hd & H). exists j, entry. repeat split; try done.
    destruct H as [[H1 H2]|(o & t & H1 & H2 & H3)]; [left; by rewrite HL|right].
    exists o, t. repeat split; try done. rewrite pc_of_set. case_decide; [|done]. subst. naive_solver. }
  split.
  - intros k e H. apply HO. by apply Hi.
  - intros j e. rewrite HL. apply Hi.
  - intros j j' e. rewrite !HL. apply Hi.
  - intros j e. rewrite pc_of_set. case_decide as E; [subst j|].
    + intros H. destruct (Hwe e H). auto.
    + intros H. destruct (i_wait _ Hi _ _ H). auto.
  - intros k f (j & H1 & H2)%(i_call _ Hi). exists j. by rewrite HF.
  - intros j f. rewrite HF. apply Hi.
  - intros j j' f. rewrite !HF. apply Hi.
  - intros j e f. rewrite pc_of_set. case_decide as E; [subst j; apply Hwc|apply Hi].
  - apply Hi.
Qed.

Lemma owned_entry s e k : owned s e k → ∃ entry, entry_heap s !! e = Some entry ∧
  (completedAt entry = None ∨ ∃ o t, completedAt entry = Some t ∧ e_outcome entry = Some o).
Proof using Type. intros (j & entry & He & _ & _ & H). exists entry. naive_solver. Qed.

Lemma leads_not_begin s i e : pc_of s i = Begin → leads (pc_of s i) e → False.
Proof using Type. by intros ->. Qed.

(** A new entry in the replay store. *)
Lemma inv_new_entry s i :
  inv s → pc_of s i = Begin → entries s !! c_key (request i) = None →
  inv (MkState (<[c_key (request i) := next s]> (entries s))
         (<[next s := MkEntry (c_digest (request i)) None None]> (entry_heap s))
         (calls s) (call_heap s) (S (next s)) (<[i := Leading (next s)]> (pcs s))).
Proof using Type.
  intros Hi Hp Hn. set (e0 := next s). set (s' := MkState _ _ _ _ _ _).
  assert (∀ j, pc_of s' j = if decide (i = j) then Leading e0 else pc_of s j) as Hpc
    by (intros; apply pc_of_insert).
  assert (∀ e entry, entry_heap s !! e = Some entry → e ≠ e0) as Hfresh.
  { intros e entry He ->. destruct (i_fresh _ Hi e0) as [H _]; [done|congruence]. }
  assert (∀ j e, leads (pc_of s j) e → e ≠ e0) as Hlfresh.
  { intros j e Hl. destruct (i_lead _ Hi _ _ Hl) as [H _]. destruct (i_entry _ Hi _ _ H) as (? & ? & ? & _).
    eauto. }
  assert (∀ e k, owned s e k → owned s' e k) as HO.
  { intros e k (j & entry & He & Hk & Hd & H). exists j, entry.
    split; [cbn; rewrite lookup_insert_ne; [done|]; symmetry; eauto|]. repeat split; try done.
    rewrite Hpc. case_decide; [subst j|done]. rewrite Hp in H. cbn in H. naive_solver. }
  split.
  - intros k e. cbn. rewrite lookup_insert_Some. intros [[<- <-]|[Hne H]]; [|apply HO; by apply Hi].
    exists i, (MkEntry (c_digest (request i)) None None). rewrite Hpc, decide_True by done. cbn.
    rewrite lookup_insert_eq. repeat split; try done. by left.
  - intros j e. rewrite Hpc. unfold completed. cbn. case_decide as E.
    + subst j. intros <-. by rewrite !lookup_insert_eq.
    + intros Hl. destruct (i_lead _ Hi _ _ Hl) as [H1 H2]. rewrite (lookup_insert_ne (entry_heap s)).
      * split; [|done]. rewrite lookup_insert_ne; [done|]. intros E'. rewrite <- E' in H1. congruence.
      * symmetry. eauto.
  - intros j j' e. rewrite !Hpc. repeat case_decide; cbn; try congruence.
    + intros <- Hl. exfalso. by eapply Hlfresh.
    + intros Hl <-. exfalso. by eapply Hlfresh.
    + apply Hi.
  - intros j e. rewrite Hpc. case_decide as Hij; [done|]. intros H. destruct (i_wait _ Hi _ _ H) as [H1 H2].
    split; [auto|]. cbn. intros entry. rewrite lookup_insert_Some. intros [[<- _]|[_ H3]]; [|auto].
    destruct H1 as (? & ? & H1 & _). exfalso. by eapply Hfresh.
  - intros k f (j & H1 & H2)%(i_call _ Hi). exists j. rewrite Hpc. case_decide; [subst; by rewrite Hp in H1|done].
  - intros j f. rewrite Hpc. case_decide; [done|]. apply Hi.
  - intros j j' f. rewrite !Hpc. repeat case_decide; try done. apply Hi.
  - intros j e f. rewrite Hpc. case_decide; [done|]. apply Hi.
  - intros a Ha. cbn in Ha. destruct (i_fresh _ Hi a) as [H1 H2]; [lia|]. cbn.
    rewrite lookup_insert_ne by (unfold e0; lia). done.
Qed.

(** A new call of the single flight. *)
Lemma inv_new_call s i e :
  inv s → pc_of s i = Checked e → calls s !! c_ident (request i) = None →
  inv (MkState (entries s) (entry_heap s) (<[c_ident (request i) := next s]> (calls s))
         (<[next s := MkFlightCall (c_requestID (request i)) None]> (call_heap s)) (S (next s))
         (<[i := Calling e (next s)]> (pcs s))).
Proof using Type.
  intros Hi Hp Hn. set (f0 := next s). set (s' := MkState _ _ _ _ _ _).
  assert (∀ j, pc_of s' j = if decide (i = j) then Calling e f0 else pc_of s j) as Hpc
    by (intros; apply pc_of_insert).
  assert (∀ j f, flies (pc_of s j) f → f ≠ f0) as Hfresh.
  { intros j f Hf ->. destruct (i_fly _ Hi _ _ Hf) as [_ H]. destruct (i_fresh _ Hi f0) as [_ H']; [done|congruence]. }
  assert (∀ j e', leads (pc_of s' j) e' ↔ leads (pc_of s j) e') as HL.
  { intros j e'. rewrite Hpc. case_decide; [subst; by rewrite Hp|done]. }
  assert (∀ e' k, owned s e' k → owned s' e' k) as HO.
  { intros e' k (j & entry & He & Hk & Hd & H). exists j, entry. repeat split; try done.
    destruct H as [[H1 H2]|(o & t & H1 & H2 & H3)]; [left; by rewrite HL|right].
    exists o, t. repeat split; try done. rewrite Hpc. case_decide; [|done]. subst. congruence. }
  split.
  - intros k e' H. apply HO. by apply Hi.
  - intros j e'. rewrite HL. apply Hi.
  - intros j j' e'. rewrite !HL. apply Hi.
  - intros j e'. rewrite Hpc. case_decide as Hij; [done|]. intros H. destruct (i_wait _ Hi _ _ H). auto.
  - intros k f. cbn. rewrite lookup_insert_Some. intros [[<- <-]|[Hne H]].
    + exists i. by rewrite Hpc, decide_True.
    + destruct (i_call _ Hi _ _ H) as (j & H1 & H2). exists j. rewrite Hpc.
      case_decide; [subst; by rewrite Hp in H1|done].
  - intros j f. rewrite Hpc. cbn. case_decide as E.
    + subst j. intros <-. by rewrite !lookup_insert_eq.
    + intros Hf. destruct (i_fly _ Hi _ _ Hf) as [H1 H2]. rewrite !lookup_insert_ne; [done|..].
      * symmetry. eauto.
      * intros E'. rewrite <- E' in H1. congruence.
  - intros j j' f. rewrite !Hpc. repeat case_decide; cbn; try congruence.
    + intros <- Hf. exfalso. by eapply Hfresh.
    + intros Hf <-. exfalso. by eapply Hfresh.
    + apply Hi.
  - intros j e' f. rewrite Hpc. cbn. case_decide as Hij; [done|]. intros H.
    destruct (i_join _ Hi _ _ _ H) as (o & Ho & Hc). exists o. split.
    + rewrite lookup_insert_ne; [done|]. intros <-.
      destruct (i_fresh _ Hi f0) as [_ H']; [done|congruence].
    + intros Hnone. specialize (Hc Hnone). rewrite lookup_insert_ne; [done|]. intros E'. rewrite <- E' in Hc. congruence.
  - intros a Ha. cbn in Ha. destruct (i_fresh _ Hi a) as [H1 H2]; [lia|]. cbn.
    rewrite lookup_insert_ne by (unfold f0; lia). done.
Qed.

(** The end of a flight. *)
Lemma inv_close s i e f o :
  inv s → pc_of s i = Called e f o →
  inv (MkState (entries s) (entry_heap s) (delete (c_ident (request i)) (calls s))
         (alter (λ call, MkFlightCall (leaderRequestID call) (Some o)) f (call_heap s)) (next s)
         (<[i := Publishing e o]> (pcs s))).
Proof using Type.
  intros Hi Hp. set (s' := MkState _ _ _ _ _ _).
  assert (∀ j, pc_of s' j = if decide (i = j) then Publishing e o else pc_of s j) as Hpc
    by (intros; apply pc_of_insert).
  assert (flies (pc_of s i) f) as Hfly by by rewrite Hp.
  destruct (i_fly _ Hi _ _ Hfly) as [Hc Hh].
  assert (∀ j e', leads (pc_of s' j) e' ↔ leads (pc_of s j) e') as HL.
  { intros j e'. rewrite Hpc. case_decide; [subst; by rewrite Hp|done]. }
  assert (∀ e' k, owned s e' k → owned s' e' k) as HO.
  { intros e' k (j & entry & He & Hk & Hd & H). exists j, entry. repeat split; try done.
    destruct H as [[H1 H2]|(o' & t & H1 & H2 & H3)]; [left; by rewrite HL|right].
    exists o', t. repeat split; try done. rewrite Hpc. case_decide; [|done]. subst. congruence. }
  assert (∀ j f', i ≠ j → flies (pc_of s j) f' → f' ≠ f ∧ c_ident (request j) ≠ c_ident (request i)) as Hother.
  { intros j f' Hne Hf'. split; [intros ->; by apply Hne, (i_fly_unique _ Hi _ _ f)|].
    intros E. destruct (i_fly _ Hi _ _ Hf') as [H _]. rewrite E, Hc in H. injection H as <-.
    by apply Hne, (i_fly_unique _ Hi _ _ f). }
  split.
  - intros k e' H. apply HO. by apply Hi.
  - intros j e'. rewrite HL. apply Hi.
  - intros j j' e'. rewrite !HL. apply Hi.
  - intros j e'. rewrite Hpc. case_decide as Hij; [done|]. intros H. destruct (i_wait _ Hi _ _ H). auto.
  - intros k f'. cbn. rewrite lookup_delete_Some. intros [Hne H]. destruct (i_call _ Hi _ _ H) as (j & H1 & H2).
    exists j. rewrite Hpc. case_decide; [subst; congruence|done].
  - intros j f'. rewrite Hpc. cbn. case_decide as E; [done|]. intros Hf. destruct (Hother _ _ E Hf) as [H1 H2].
    destruct (i_fly _ Hi _ _ Hf) as [H3 H4]. rewrite lookup_delete_ne, lookup_alter_ne by congruence. done.
  - intros j j' f'. rewrite !Hpc. repeat case_decide; cbn; try done. apply Hi.
  - intros j e' f'. rewrite Hpc. cbn. case_decide as Hij; [done|]. intros H.
    destruct (i_join _ Hi _ _ _ H) as (o' & Ho & Hc'). destruct (decide (f' = f)) as [->|Hne].
    + exists (Some o). by rewrite lookup_alter_eq, Ho.
    + exists o'. rewrite lookup_alter_ne by done. split; [done|]. intros Hnone. specialize (Hc' Hnone).
      rewrite lookup_delete_ne; [done|]. congruence.
  - intros a Ha. destruct (i_fresh _ Hi a Ha) as [H1 H2]. cbn. split; [done|].
    rewrite lookup_alter_ne; [done|]. congruence.
Qed.

(** The end of a creation. *)
Lemma inv_publish s i e o now :
  inv s → pc_of s i = Publishing e o →
  inv (MkState (entries s) (alter (λ entry, MkEntry (e_digest entry) (Some o) (Some now)) e (entry_heap s))
         (calls s) (call_heap s) (next s) (<[i := Returned o]> (pcs s))).
Proof using Type.
  intros Hi Hp. set (s' := MkState _ _ _ _ _ _).
  assert (∀ j, pc_of s' j = if decide (i = j) then Returned o else pc_of s j) as Hpc
    by (intros; apply pc_of_insert).
  assert (leads (pc_of s i) e) as Hlead by by rewrite Hp.
  destruct (i_lead _ Hi _ _ Hlead) as [He Hcomp].
  assert (∀ e' k, owned s e' k → owned s' e' k) as HO.
  { intros e' k (j & entry & Hh & Hk & Hd & H). destruct (decide (e' = e)) as [->|Hne].
    - exists j, (MkEntry (e_digest entry) (Some o) (Some now)). cbn. rewrite lookup_alter_eq, Hh.
      repeat split; try done. right. exists o, now. repeat split; try done.
      destruct H as [[H1 _]|(o' & t & _ & H2 & _)].
      + rewrite (i_lead_unique _ Hi _ _ _ H1 Hlead), Hpc, decide_True; done.
      + unfold completed in Hcomp. rewrite Hh in Hcomp. cbn in Hcomp. congruence.
    - exists j, entry. cbn. rewrite lookup_alter_ne by done. repeat split; try done.
      rewrite Hpc. case_decide as Hij; [|done]. subst j. rewrite Hp in H. cbn in H. naive_solver. }
  assert (∀ j e', leads (pc_of s' j) e' → leads (pc_of s j) e' ∧ e' ≠ e) as HL.
  { intros j e'. rewrite Hpc. case_decide as Hij; [done|]. intros H. split; [done|]. intros ->.
    by apply Hij, (i_lead_unique _ Hi _ _ e). }
  assert (∀ j f, flies (pc_of s' j) f ↔ flies (pc_of s j) f) as HF.
  { intros j f. rewrite Hpc. case_decide; [subst; by rewrite Hp|done]. }
  split.
  - intros k e' H. apply HO. by apply Hi.
  - intros j e' [H Hne]%HL. unfold completed. cbn. rewrite lookup_alter_ne by done. by apply Hi.
  - intros j j' e' [H _]%HL [H' _]%HL. by apply (i_lead_unique _ Hi _ _ e').
  - intros j e'. rewrite Hpc. case_decide as Hij; [done|]. intros H. destruct (i_wait _ Hi _ _ H) as [H1 H2].
    split; [auto|]. cbn. intros entry. rewrite lookup_alter_Some.
    intros [(_ & x & Hx & ->)|[_ Hx]]; cbn; eauto.
  - intros k f (j & H1 & H2)%(i_call _ Hi). exists j. by rewrite HF.
  - intros j f. rewrite HF. apply Hi.
  - intros j j' f. rewrite !HF. apply Hi.
  - intros j e' f. rewrite Hpc. case_decide as Hij; [done|]. apply Hi.
  - intros a Ha. destruct (i_fresh _ Hi a Ha) as [H1 H2]. cbn. split; [|done]. by apply lookup_alter_None.
Qed.

(** An entry found in the store. *)
Lemma found_entry s k e :
  inv s → entries s !! k = Some e →
  ∃ entry, entry_heap s !! e = Some entry ∧ owned s e k ∧
    (completedAt entry = None ∨ ∃ o t, completedAt entry = Some t ∧ e_outcome entry = Some o).
Proof using Type.
  intros Hi He. pose proof (i_entry _ Hi _ _ He) as Ho. destruct (owned_entry _ _ _ Ho) as (entry & H & Hc). eauto.
Qed.

Lemma inv_lookup s i now : inv s → pc_of s i = Begin → inv (lookup_step ttl maxEntries request s i now).
Proof using Type.
  intros Hi Hp. unfold lookup_step. apply (inv_prune now) in Hi. destruct (prune_spec now s) as (Hr & _).
  rewrite <- (same_rest_pc _ _ i Hr) in Hp. set (s1 := pruneLocked ttl maxEntries now s) in *. clearbody s1. clear Hr s.
  destruct (entries s1 !! c_key (request i)) as [e|] eqn:He; [|by apply inv_new_entry].
  destruct (found_entry _ _ _ Hi He) as (entry & Hh & Ho & Hc). rewrite Hh.
  destruct (bool_decide (e_digest entry = c_digest (request i))) eqn:Ed; cbn [negb];
    [|eapply inv_move; try done; by rewrite ?Hp].
  apply bool_decide_eq_true in Ed.
  destruct Hc as [Hc|(o & t & Hc & Ho')]; rewrite Hc.
  - eapply inv_move; try done. intros e' [= <-]. split; [done|]. intros entry' H. by simplify_eq.
  - rewrite Ho'. eapply inv_move; try done.
Qed.

Lemma inv_flight s i e : inv s → pc_of s i = Checked e → inv (flight_step request s i e).
Proof using Type.
  intros Hi Hp. unfold flight_step. destruct (calls s !! c_ident (request i)) as [f|] eqn:Hc; [|by apply inv_new_call].
  destruct (i_call _ Hi _ _ Hc) as (j & Hj & Hk). destruct (i_fly _ Hi _ _ Hj) as [_ Hh]. rewrite Hh. cbn.
  case_bool_decide as Hid.
  - eapply inv_move; try done. intros e' f' [= <- <-]. exists None. rewrite Hh, Hid. auto.
  - eapply inv_move; try done.
Qed.

Lemma inv_step s ev : inv s → inv (step ttl maxEntries request s ev).
Proof using Type.
  intros Hi. unfold step. destruct ev as [i now|i st|i|i inst err running|i|i|i now|i]; cbn [event_thread];
    destruct (pc_of s i) as [|e|e|e|e f|e f|e f o|e o|o] eqn:Hp; try done.
  - by apply inv_lookup.
  - case_match; eapply inv_move; try done.
  - by apply inv_flight.
  - eapply inv_move; try done.
  - exact (inv_close _ _ _ _ _ Hi Hp).
  - destruct (i_join _ Hi _ _ _ Hp) as ([o|] & Hh & Hc); rewrite Hh; cbn; [eapply inv_move; try done|done].
  - by apply inv_prune, inv_publish.
  - destruct (i_wait _ Hi _ _ Hp) as [Ho _]. destruct (owned_entry _ _ _ Ho) as (entry & Hh & Hc). rewrite Hh.
    destruct Hc as [->|(o & t & -> & ->)]; [done|]. eapply inv_move; try done.
Qed.

Lemma inv_run evs : inv (run ttl maxEntries request evs).
Proof using Type.
  unfold run. apply foldl_inv; [intros; by apply inv_step|]. split; unfold pc_of; cbn; try done.
Qed.

(** ** Sharing *)

Definition conflict (i : nat) : outcome :=
  (MkResult "" sandboxCreateStatusFailed, Some (ErrRequestConflict (c_requestID (request i)))).

Lemma owned_answer s e k i entry :
  owned s e k → entry_heap s !! e = Some entry → (∀ o, pc_of s i ≠ Returned o) →
  ∀ o t, completedAt entry = Some t → e_outcome entry = Some o →
  ∃ j, j ≠ i ∧ c_key (request j) = k ∧ c_digest (request j) = e_digest entry ∧ pc_of s j = Returned o.
Proof using Type.
  intros (j & entry' & Hh & Hk & Hd & H) Hh' Hni o t Hc Ho. rewrite Hh in Hh'. injection Hh' as ->.
  destruct H as [[_ H]|(o' & t' & H1 & H2 & H3)]; [congruence|]. rewrite Ho in H1. injection H1 as <-.
  exists j. repeat split; try done. intros ->. by eapply Hni.
Qed.

Lemma lookup_pc s i now :
  inv s → pc_of s i = Begin →
  let s1 := pruneLocked ttl maxEntries now s in
  pc_of (lookup_step ttl maxEntries request s i now) i =
    match entries s1 !! c_key (request i) with
    | None => Leading (next s)
    | Some e =>
        match entry_heap s !! e with
        | Some entry =>
            if negb (bool_decide (e_digest entry = c_digest (request i))) then Returned (conflict i)
            else match completedAt entry, e_outcome entry with Some _, Some o => Returned o | _, _ => WaitEntry e end
        | None => Begin
        end
    end.
Proof using Type.
  intros Hi Hp. cbv zeta. destruct (prune_spec now s) as ((Hh & _ & _ & Hn & Hpcs) & _).
  unfold lookup_step. cbv zeta. set (s1 := pruneLocked ttl maxEntries now s) in *. rewrite Hh, Hn.
  destruct (entries s1 !! c_key (request i)) as [e|].
  - destruct (entry_heap s !! e) as [entry|]; [|unfold pc_of; rewrite Hpcs; exact Hp].
    repeat case_match; rewrite pc_of_set, decide_True; done.
  - unfold pc_of. cbn. by rewrite lookup_insert_eq.
Qed.

(** The answer given to a request that did not lead. *)
Lemma shared_answer s ev i o :
  inv s → event_thread ev = i →
  (pc_of s i = Begin ∨ ∃ e, pc_of s i = WaitEntry e) → pc_of (step ttl maxEntries request s ev) i = Returned o →
  o = conflict i ∨
  ∃ j, j ≠ i ∧ c_key (request j) = c_key (request i) ∧ c_digest (request j) = c_digest (request i) ∧ pc_of s j = Returned o.
Proof using Type.
  intros Hi Hev Hp H. assert (∀ o, pc_of s i ≠ Returned o) as Hni by (destruct Hp as [->|[e ->]]; done).
  unfold step in H.
  destruct Hp as [Hp|[e Hp]]; destruct ev; cbn [event_thread] in *; subst; rewrite Hp in H; try congruence.
  - rewrite lookup_pc in H by done. cbv zeta in H.
    destruct (prune_spec now s) as (Hr & Hsub & _).
    destruct (entries _ !! _) as [e|] eqn:He; [|done]. eapply lookup_weaken in He; [|done].
    destruct (entry_heap s !! e) as [entry|] eqn:Hh; [|done].
    destruct (bool_decide _) eqn:Ed; cbn [negb] in H; [|left; by injection H as <-]. apply bool_decide_eq_true in Ed.
    destruct (completedAt entry) as [t|] eqn:Hc, (e_outcome entry) as [o'|] eqn:Ho; try done. injection H as <-.
    right. rewrite <- Ed. by eapply owned_answer; [by apply Hi|..].
  - destruct (i_wait _ Hi _ _ Hp) as [Ho Hd]. destruct (entry_heap s !! e) as [entry|] eqn:Hh; [|congruence].
    destruct (completedAt entry) as [t|] eqn:Hc, (e_outcome entry) as [o'|] eqn:Ho'; try congruence.
    rewrite pc_of_set, decide_True in H by done. injection H as <-. right.
    destruct (owned_answer _ _ _ _ _ Ho Hh Hni o' t Hc Ho') as (j & H1 & H2 & H3 & H4). exists j. rewrite H3. eauto.
Qed.

Lemma step_pc_ne s ev j : event_thread ev ≠ j → pc_of (step ttl maxEntries request s ev) j = pc_of s j.
Proof using Type.
  intros Hne. unfold step. destruct ev as [i now|i st|i|i inst err running|i|i|i now|i]; cbn [event_thread] in *;
    destruct (pc_of s i) as [|e|e|e|e f|e f|e f o|e o|o] eqn:Hp; try done.
  - unfold lookup_step. cbv zeta. destruct (prune_spec now s) as (Hr & _).
    assert (∀ p, pc_of (set_pc (pruneLocked ttl maxEntries now s) i p) j = pc_of s j) as Hset.
    { intros p. rewrite pc_of_set, decide_False by done. by apply same_rest_pc. }
    repeat case_match; rewrite ?Hset; try done; [by apply same_rest_pc|].
    destruct Hr as (_ & _ & _ & _ & Hpcs). unfold pc_of. cbn. by rewrite lookup_insert_ne, Hpcs.
  - case_match; by rewrite pc_of_set, decide_False.
  - unfold flight_step. repeat case_match; rewrite ?pc_of_set, ?decide_False by done; try done.
    unfold pc_of. cbn. by rewrite lookup_insert_ne.
  - by rewrite pc_of_set, decide_False.
  - unfold pc_of. cbn. by rewrite lookup_insert_ne.
  - case_match; [by rewrite pc_of_set, decide_False|done].
  - match goal with |- pc_of (pruneLocked _ _ _ ?s1) _ = _ => destruct (prune_spec now s1) as (Hr & _) end.
    rewrite (same_rest_pc _ _ j Hr). unfold pc_of. cbn. by rewrite lookup_insert_ne.
  - repeat case_match; try done; by rewrite pc_of_set, decide_False.
Qed.

(** The answer of a request that ended its own creation. *)
Definition ended (p : pc) (o : outcome) : Prop := p = Returned o ∨ ∃ e, p = Publishing e o.

(** Request [j] leads the flight [f], or led it to its outcome. *)
Definition led s (j f : nat) : Prop :=
  flies (pc_of s j) f ∨ ∃ o, call_heap s !! f ≫= f_outcome = Some o ∧ ended (pc_of s j) o.

(** An outcome of a flight stays. *)
Lemma outcome_stays s ev f o :
  inv s → call_heap s !! f ≫= f_outcome = Some o → call_heap (step ttl maxEntries request s ev) !! f ≫= f_outcome = Some o.
Proof using Type.
  intros Hi Ho.
  assert (Hprune : ∀ now s', call_heap (pruneLocked ttl maxEntries now s') = call_heap s').
  { intros now s'. by destruct (prune_spec now s') as ((_ & _ & -> & _) & _). }
  unfold step. destruct ev as [i now|i st|i|i inst err running|i|i|i now|i]; cbn [event_thread];
    destruct (pc_of s i) as [|e|e|e|e f'|e f'|e f' o'|e o'|o'] eqn:Hp; try done.
  - unfold lookup_step. cbv zeta. repeat case_match; cbn; by rewrite ?Hprune.
  - by case_match.
  - unfold flight_step. repeat case_match; try done. cbn. rewrite lookup_insert_ne; [done|]. intros <-.
    destruct (i_fresh _ Hi (next s)) as [_ E]; [done|]. by rewrite E in Ho.
  - cbn. rewrite lookup_alter_ne; [done|]. intros <-. destruct (i_fly _ Hi i f') as [_ E]; [by rewrite Hp|]. by rewrite E in Ho.
  - by case_match.
  - by rewrite Hprune.
  - by repeat case_match.
Qed.

Lemma led_step s ev j f : inv s → led s j f → led (step ttl maxEntries request s ev) j f.
Proof using Type.
  intros Hi [Hf|(o & Ho & He)].
  - destruct (decide (event_thread ev = j)) as [E|Hne]; [|left; by rewrite step_pc_ne].
    destruct (i_fly _ Hi _ _ Hf) as [_ Hh]. unfold led.
    destruct (pc_of s j) as [| | | | |e f'|e f' o'| |] eqn:Hp; try done; cbn in Hf; subst f';
      destruct ev; cbn [event_thread] in E; subst; unfold step; cbn [event_thread]; rewrite Hp; try (left; by rewrite Hp).
    + left. by rewrite pc_of_set, decide_True.
    + right. exists o'. cbn. rewrite lookup_alter_eq, Hh. split; [done|]. right. exists e. unfold pc_of. cbn. by rewrite lookup_insert_eq.
  - right. exists o. split; [by apply outcome_stays|].
    destruct (decide (event_thread ev = j)) as [E|Hne]; [|by rewrite step_pc_ne].
    destruct He as [Hp|[e Hp]]; destruct ev; cbn [event_thread] in E; subst; unfold step; cbn [event_thread]; rewrite Hp;
      try (by left); try (by right; exists e).
    left. match goal with |- pc_of (pruneLocked _ _ ?n ?s1) _ = _ => destruct (prune_spec n s1) as (Hr & _) end.
    rewrite (same_rest_pc _ _ _ Hr). unfold pc_of. cbn. by rewrite lookup_insert_eq.
Qed.

(** A request that waits for a flight waits for one of its sandbox and request ID. *)
Definition joined s : Prop :=
  ∀ i e f, pc_of s i = WaitCall e f →
    ∃ j, c_ident (request j) = c_ident (request i) ∧ c_requestID (request j) = c_requestID (request i) ∧ led s j f.

Lemma joined_step s ev : inv s → joined s → joined (step ttl maxEntries request s ev).
Proof using Type.
  intros Hi Hj i e f Hp'. destruct (decide (event_thread ev = i)) as [E|Hne].
  2: { rewrite step_pc_ne in Hp' by done. destruct (Hj _ _ _ Hp') as (j & H1 & H2 & H3). exists j. split_and!; [done..|]. by apply led_step. }
  assert ((∃ e f, pc_of s i = WaitCall e f) ∨ ∀ e f, pc_of s i ≠ WaitCall e f) as [(e0 & f0 & Hp)|Hnw]
    by (destruct (pc_of s i); eauto; right; done).
  { assert (pc_of (step ttl maxEntries request s ev) i = pc_of s i) as Hsame.
    { revert Hp'. destruct ev; cbn [event_thread] in E; subst; unfold step; cbn [event_thread]; rewrite Hp; try done. case_match; [|done].
      by rewrite pc_of_set, decide_True. }
    rewrite Hsame in Hp'. destruct (Hj _ _ _ Hp') as (j & H1 & H2 & H3). exists j. split_and!; [done..|]. by apply led_step. }
  assert (∃ e, ev = JoinFlight i ∧ pc_of s i = Checked e) as (e1 & -> & Hp).
  { revert Hp'. destruct (pc_of s i) as [|x|x|x|x y|x y|x y o|x o|o] eqn:Hp; destruct ev; cbn [event_thread] in E; subst;
      unfold step; cbn [event_thread]; rewrite Hp; try (by rewrite Hp); try (by destruct (Hnw x y)); eauto.
    - rewrite lookup_pc by done. cbv zeta. by repeat case_match.
    - repeat case_match; rewrite ?pc_of_set, ?decide_True, ?Hp; done.
    - case_match; by rewrite pc_of_set, decide_True.
    - by rewrite pc_of_set, decide_True.
    - unfold pc_of. cbn. by rewrite lookup_insert_eq.
    - match goal with |- pc_of (pruneLocked _ _ ?n ?s1) _ = _ → _ => destruct (prune_spec n s1) as (Hr & _) end.
      rewrite (same_rest_pc _ _ _ Hr). unfold pc_of. cbn. by rewrite lookup_insert_eq. }
  revert Hp'. unfold step. cbn [event_thread]. rewrite Hp. unfold flight_step.
  destruct (calls s !! c_ident (request i)) as [f1|] eqn:Hc.
  - destruct (i_call _ Hi _ _ Hc) as (j & Hf & Hid). destruct (i_fly _ Hi _ _ Hf) as [_ Hh]. rewrite Hh. cbn.
    case_bool_decide as Hr; rewrite pc_of_set, decide_True by done; [|done]. intros [= <- <-]. exists j. split_and!; [done..|].
    left. rewrite pc_of_set. case_decide; [|done]. subst. by rewrite Hp in Hf.
  - unfold pc_of. cbn. by rewrite lookup_insert_eq.
Qed.

Lemma joined_run evs : joined (run ttl maxEntries request evs).
Proof using Type.
  enough (inv (run ttl maxEntries request evs) ∧ joined (run ttl maxEntries request evs)) as [_ H] by exact H.
  unfold run. apply (foldl_inv (λ s, inv s ∧ joined s)).
  - intros s ev _ [Hi Hj]. split; [by apply inv_step|by apply joined_step].
  - split; [apply (inv_run [])|]. intros i e f H. done.
Qed.

(** C4. Creating a sandbox is idempotent: in every interleaving of requests, at
    most one kernel call per sandbox name and at most one creation per request key
    are under way; a request that is answered from the replay store gets either
    the conflict of a reused request ID or exactly the answer of another request
    with its key and digest; one that joined the kernel call of another gets
    exactly the answer of a request with its sandbox name and request ID (which
    may be of another tenant); and a completed request that is repeated within
    the lifetime of its entry, while the store holds no more entries than it
    may, is answered from the store without a kernel call. *)
Theorem create_idempotent evs :
  let s := run ttl maxEntries request evs in
  (∀ i j f f', flies (pc_of s i) f → flies (pc_of s j) f' → c_ident (request i) = c_ident (request j) → i = j) ∧
  (∀ i j e e', leads (pc_of s i) e → leads (pc_of s j) e' → c_key (request i) = c_key (request j) → i = j) ∧
  (∀ ev o, let i := event_thread ev in
     (pc_of s i = Begin ∨ ∃ e, pc_of s i = WaitEntry e) → pc_of (step ttl maxEntries request s ev) i = Returned o →
     o = conflict i ∨
     ∃ j, j ≠ i ∧ c_key (request j) = c_key (request i) ∧ c_digest (request j) = c_digest (request i) ∧
          pc_of s j = Returned o) ∧
  (∀ ev e f e' o, let i := event_thread ev in
     pc_of s i = WaitCall e f → pc_of (step ttl maxEntries request s ev) i = Publishing e' o →
     ∃ j, j ≠ i ∧ c_ident (request j) = c_ident (request i) ∧ c_requestID (request j) = c_requestID (request i) ∧
          ended (pc_of s j) o) ∧
  (∀ i now e entry t o, pc_of s i = Begin → entries s !! c_key (request i) = Some e →
     entry_heap s !! e = Some entry → completedAt entry = Some t → e_outcome entry = Some o →
     (now - t < ttl)%Z → (size (entries s) ≤ maxEntries)%nat →
     pc_of (step ttl maxEntries request s (Lookup i now)) i =
       Returned (if bool_decide (e_digest entry = c_digest (request i)) then o else conflict i)).
Proof using Type.
  cbv zeta. pose proof (inv_run evs) as Hi. pose proof (joined_run evs) as Hjn. set (s := run ttl maxEntries request evs) in *. clearbody s.
  repeat split.
  - intros i j f f' Hf Hf' Hid. destruct (i_fly _ Hi _ _ Hf) as [H1 _]. destruct (i_fly _ Hi _ _ Hf') as [H2 _].
    rewrite Hid, H2 in H1. injection H1 as ->. by apply (i_fly_unique _ Hi _ _ f).
  - intros i j e e' Hl Hl' Hk. destruct (i_lead _ Hi _ _ Hl) as [H1 _]. destruct (i_lead _ Hi _ _ Hl') as [H2 _].
    rewrite Hk, H2 in H1. injection H1 as ->. by apply (i_lead_unique _ Hi _ _ e).
  - intros ev o. by apply shared_answer.
  - intros ev e f e' o Hp. destruct ev; cbn [event_thread] in *; unfold step; cbn [event_thread]; rewrite Hp; try (by rewrite Hp).
    destruct (Hjn _ _ _ Hp) as (j & H1 & H2 & H3). unfold led in H3.
    destruct (call_heap s !! f ≫= f_outcome) as [o'|] eqn:Ho; [|by rewrite Hp].
    rewrite pc_of_set, decide_True by done. intros [= _ <-]. exists j.
    destruct H3 as [Hf|(o2 & E2 & He)]; [destruct (i_fly _ Hi _ _ Hf) as [_ E]; by rewrite E in Ho|].
    injection E2 as <-. split_and!; try done. intros ->. destruct He as [E|[? E]]; by rewrite Hp in E.
  - intros i now e entry t o Hp He Hh Hc Ho Ht Hsz. unfold step. cbn [event_thread]. rewrite Hp, lookup_pc by done.
    cbv zeta. destruct (prune_spec now s) as (_ & _ & _ & Hkeep).
    rewrite (Hkeep _ e t Hsz He); [|unfold completed; rewrite Hh; exact Hc|done].
    rewrite Hh, Hc, Ho. by case_bool_decide.
Qed.

(** ** Every request is answered *)

Definition rank (p : pc) : nat :=
  match p with
  | Begin => 7 | Leading _ => 6 | Checked _ => 5 | Calling _ _ => 4 | Called _ _ _ => 3 | WaitCall _ _ => 3
  | Publishing _ _ => 2 | WaitEntry _ => 1 | Returned _ => 0
  end.

(** A request that does not wait can take a step that brings it closer. *)
Lemma progress s i :
  inv s → (∀ o, pc_of s i ≠ Returned o) → (∀ e, pc_of s i ≠ WaitEntry e) → (∀ e f, pc_of s i ≠ WaitCall e f) →
  ∃ ev, event_thread ev = i ∧ (rank (pc_of (step ttl maxEntries request s ev) i) < rank (pc_of s i))%nat.
Proof using Type.
  intros Hi Hr Hwe Hwc. destruct (pc_of s i) as [|e|e|e|e f|e f|e f o|e o|o] eqn:Hp;
    [|by destruct (Hwe e)| | |by destruct (Hwc e f)| | | |by destruct (Hr o)].
  - exists (Lookup i 0). split; [done|]. unfold step. cbn [event_thread]. rewrite Hp, lookup_pc by done. cbv zeta.
    destruct (prune_spec 0 s) as (_ & Hsub & _). destruct (entries _ !! _) as [e|] eqn:He; [|cbn; lia].
    eapply lookup_weaken in He; [|done]. destruct (found_entry _ _ _ Hi He) as (entry & -> & _).
    repeat case_match; cbn; lia.
  - exists (CheckExists i NewStore). split; [done|]. unfold step. cbn [event_thread]. rewrite Hp.
    case_match; rewrite pc_of_set, decide_True by done; cbn; lia.
  - exists (JoinFlight i). split; [done|]. unfold step, flight_step. cbn [event_thread]. rewrite Hp.
    destruct (calls s !! _) as [f|] eqn:Hc.
    + destruct (i_call _ Hi _ _ Hc) as (j & Hj & _). destruct (i_fly _ Hi _ _ Hj) as [_ ->].
      case_match; rewrite pc_of_set, decide_True by done; cbn; lia.
    + unfold pc_of. cbn. rewrite lookup_insert_eq. cbn. lia.
  - exists (KernelAnswer i "" None true). split; [done|]. unfold step. cbn [event_thread].
    rewrite Hp, pc_of_set, decide_True by done. cbn. lia.
  - exists (CloseFlight i). split; [done|]. unfold step. cbn [event_thread]. rewrite Hp.
    unfold pc_of. cbn. rewrite lookup_insert_eq. cbn. lia.
  - exists (Publish i 0). split; [done|]. unfold step. cbn [event_thread]. rewrite Hp.
    match goal with |- context [pruneLocked _ _ 0 ?s1] => destruct (prune_spec 0 s1) as (Hrest & _) end.
    rewrite (same_rest_pc _ _ i Hrest). unfold pc_of. cbn. rewrite lookup_insert_eq. cbn. lia.
Qed.

(** Some request can take a step unless all have returned. *)
Lemma some_progress s i :
  inv s → (∀ o, pc_of s i ≠ Returned o) →
  ∃ ev, (event_thread ev = i ∨ pc_of s (event_thread ev) ≠ Begin) ∧
    (rank (pc_of (step ttl maxEntries request s ev) (event_thread ev)) < rank (pc_of s (event_thread ev)))%nat.
Proof using Type.
  intros Hi Hr.
  assert (∀ j, (∀ o, pc_of s j ≠ Returned o) → (∀ e, pc_of s j ≠ WaitEntry e) → j = i ∨ pc_of s j ≠ Begin →
    ∃ ev, (event_thread ev = i ∨ pc_of s (event_thread ev) ≠ Begin) ∧
      (rank (pc_of (step ttl maxEntries request s ev) (event_thread ev)) < rank (pc_of s (event_thread ev)))%nat) as Hlead.
  { intros j Hrj Hwj Hb. assert ((∃ e f, pc_of s j = WaitCall e f) ∨ ∀ e f, pc_of s j ≠ WaitCall e f) as [(e & f & Hp)|Hnw]
      by (destruct (pc_of s j); eauto).
    - destruct (i_join _ Hi _ _ _ Hp) as ([o|] & Hh & Hc).
      + exists (WakeFlight j). split; [done|]. unfold step. cbn [event_thread]. rewrite Hp, Hh. cbn.
        rewrite pc_of_set, decide_True by done. cbn. lia.
      + destruct (i_call _ Hi _ _ (Hc eq_refl)) as (k & Hk & _).
        destruct (progress s k) as (ev & <- & Hlt); [done|by destruct (pc_of s k)..|].
        exists ev. split; [|done]. right. by destruct (pc_of s (event_thread ev)).
    - destruct (progress s j) as (ev & <- & Hlt); [done..|naive_solver|]. eauto. }
  assert ((∃ e, pc_of s i = WaitEntry e) ∨ ∀ e, pc_of s i ≠ WaitEntry e) as [[e Hp]|Hnw]
    by (destruct (pc_of s i); eauto); [|apply (Hlead i); auto].
  destruct (i_wait _ Hi _ _ Hp) as [(j & entry & Hh & _ & _ & H) _].
  destruct H as [[H _]|(o & t & Ho & Hc & _)].
  - apply (Hlead j); [by destruct (pc_of s j)..|]. right. by destruct (pc_of s j).
  - exists (WakeEntry i). split; [by left|]. unfold step. cbn [event_thread]. rewrite Hp, Hh, Hc, Ho.
    rewrite pc_of_set, decide_True by done. cbn. lia.
Qed.

Definition total_rank s (n : nat) : nat := sum_list ((λ i, rank (pc_of s i)) <$> seq 0 n).

Lemma sum_rank_lt (f g : nat → nat) j l :
  j ∈ l → (g j < f j)%nat → (∀ i, i ≠ j → g i = f i) → NoDup l →
  (sum_list (g <$> l) < sum_list (f <$> l))%nat.
Proof using Type.
  intros Hj Hlt Hne. induction l as [|i l IH]; intros Hd; [by apply elem_of_nil in Hj|]. apply NoDup_cons in Hd as [Hni Hd].
  cbn. apply elem_of_cons in Hj as [->|Hj].
  - assert (g <$> l = f <$> l) as ->; [|lia]. apply list_fmap_ext. intros k i' Hk. apply Hne. intros ->.
    apply Hni. by eapply list_elem_of_lookup_2.
  - rewrite (Hne i) by (intros ->; done). specialize (IH Hj Hd). lia.
Qed.

Lemma finish_from n m s :
  inv s → (∀ i, (n ≤ i)%nat → pc_of s i = Begin) → (total_rank s n ≤ m)%nat →
  ∃ evs, ∀ i, (i < n)%nat → ∃ o, pc_of (foldl (step ttl maxEntries request) s evs) i = Returned o.
Proof using Type.
  revert s. induction m as [m IH] using lt_wf_ind. intros s Hi Hb Hm.
  destruct (decide (Forall (λ i, rank (pc_of s i) = 0) (seq 0 n))) as [Hall|Hsome].
  { exists []. intros i Hin. rewrite Forall_forall in Hall. cbn.
    assert (rank (pc_of s i) = 0) as H0 by (apply Hall, elem_of_seq; lia).
    destruct (pc_of s i); try done. eauto. }
  apply not_Forall_Exists, Exists_exists in Hsome as (i & Hin%elem_of_seq & Hne); [|apply _].
  destruct (some_progress s i Hi) as (ev & Hthread & Hlt); [intros o E; apply Hne; cbv beta; by rewrite E|].
  assert (event_thread ev < n)%nat as Hj.
  { destruct (decide (event_thread ev < n)%nat); [done|]. destruct Hthread as [->|Hnb]; [lia|].
    exfalso. apply Hnb, Hb. lia. }
  assert (total_rank (step ttl maxEntries request s ev) n < total_rank s n)%nat as Hdec.
  { apply (sum_rank_lt _ _ (event_thread ev)); [apply elem_of_seq; lia|done| |apply NoDup_seq].
    intros k Hk. by rewrite step_pc_ne. }
  destruct (IH (total_rank (step ttl maxEntries request s ev) n) ltac:(lia) (step ttl maxEntries request s ev))
    as [evs Hevs]; [by apply inv_step| |lia|].
  - intros k Hk. rewrite step_pc_ne by lia. by apply Hb.
  - exists (ev :: evs). done.
Qed.

(** No request hangs: after any interleaving of events, there is a finite
    continuation in which every one of any number of requests has its answer; a
    request that waits always waits for one that is still running. *)
Theorem create_requests_answered evs n :
  ∃ evs', ∀ i, (i < n)%nat → ∃ o, pc_of (run ttl maxEntries request (evs ++ evs')) i = Returned o.
Proof using Type.
  set (s := run ttl maxEntries request evs). set (top := foldr max n (S <$> (map_to_list (pcs s)).*1)).
  assert (∀ l, n ≤ foldr max n l ∧ ∀ x, x ∈ l → x ≤ foldr max n l)%nat as Htop.
  { induction l as [|y l [IH1 IH2]]; cbn [foldr]; [split; [done|]; by intros x ?%elem_of_nil|].
    split; [lia|]. intros x [->|Hx]%elem_of_cons; [lia|]. specialize (IH2 x Hx). lia. }
  assert (n ≤ top)%nat as Hn by exact (proj1 (Htop _)).
  destruct (finish_from top (total_rank s top) s) as [evs' H]; [apply inv_run| |done|].
  - intros i Hi. unfold pc_of. destruct (pcs s !! i) as [p|] eqn:E; [exfalso|done].
    assert (S i ∈ S <$> (map_to_list (pcs s)).*1) as Hin.
    { apply list_elem_of_fmap_2, list_elem_of_fmap. exists (i, p). split; [done|]. by apply elem_of_map_to_list. }
    apply (proj2 (Htop _)) in Hin. unfold top in Hi. lia.
  - exists evs'. intros i Hi. unfold run. rewrite foldl_app. apply H. lia.
Qed.
End facts.

(** ** What the keys do not separate *)

Definition ex_create (tenant namespace name : string) : CreateRequest :=
  MkCreate name namespace tenant "rrt" (RootfsText "") "" [] ∅ 0 0 0 0 ∅ [] [] "" None 0 None "" false false [] 0 0 0 false.
Definition ex_calls (a b : CreateRequest) (i : nat) : @create_call Z :=
  create_call_of (λ _ _ idle, idle) "" "req-1" (if decide (i = 0%nat) then a else b) 0.

(** Two tenants that use the same request ID and the same sandbox name at the
    same time share one flight: the second is told that the sandbox of the first
    is its own. *)
Theorem flight_crosses_tenants :
  let r := ex_calls (ex_create "tenant-a" "default" "box") (ex_create "tenant-b" "default" "box") in
  c_key (r 0%nat) ≠ c_key (r 1%nat) ∧
  pc_of (run 600 10 r [Lookup 0 0; CheckExists 0 NewStore; JoinFlight 0; Lookup 1 0; CheckExists 1 NewStore; JoinFlight 1;
                       KernelAnswer 0 "default-box" None true; CloseFlight 0; WakeFlight 1; Publish 1 1]) 1 =
    Returned (MkResult "default-box" "running", None).
Proof. split; [by vm_compute|vm_compute; reflexivity]. Qed.

(** The instance ID joins namespace and name with a hyphen, the key of the single
    flight keeps them apart: two requests for one instance ID can both be in the
    kernel call. *)
Theorem instance_id_ambiguous :
  let r := ex_calls (ex_create "t" "a-b" "c") (ex_create "u" "a" "b-c") in
  let s := run 600 10 r [Lookup 0 0; CheckExists 0 NewStore; JoinFlight 0; Lookup 1 0; CheckExists 1 NewStore; JoinFlight 1] in
  c_instance (r 0%nat) = c_instance (r 1%nat) ∧
  pc_of s 0 = Calling 0 1 ∧ pc_of s 1 = Calling 2 3.
Proof. repeat split; vm_compute; reflexivity. Qed.

(** A token that came in a cookie yields no claim, so the tenant of the replay
    key is the one the body names. *)
Theorem cookie_tenant_from_body tenant req requestID :
  Tenant req = tenant → tenant ≠ "" →
  sandboxCreateRequestIDKey (tenantClaim "" "") req requestID = Join [tenant; requestID] nul.
Proof.
  intros <- Hne. unfold sandboxCreateRequestIDKey, sandboxCreateTenant, tenantClaim, or_default. done.
Qed.
