(* ===== verification/SandboxLifecycle.v ===== *)
(** * Lifecycle of sandboxes (pkg/frontend/api/sandbox/handler.go, reusable_snapshot.go)

    Delete, pause, resume, reload, network update and snapshot handlers: who
    may operate on a sandbox, the signal that is sent, the mapping of errors
    to HTTP statuses and what the frontend records. The kernel behind the
    signals, the protobuf decoders, etcd reads and the function master are
    parameters; bodies arrive decoded. *)

From S2P Require Import Prelude GoStrings Hashing Json Route JwtAuth Middleware ExecEndpoint SandboxNetwork SandboxSpec SandboxCreate.
Open Scope string_scope.
Open Scope go_scope.

(** ** Signals *)

Inductive snap_type := PAUSE_RESUME | SNAPSHOT.
Inductive kill_payload :=
| PText (s : string)
| PSnap (t : snap_type) (ttl : Z) (leaveRunning : bool) (name : string) (checkpointTimeoutMs : Z)
| PStart (t : snap_type)
| PNil
| PNetwork (p : option SandboxNetworkPolicy).   (* JSON of the policy, {} for none *)

Record kill_request := MkKill {
  k_instance : string; k_signal : Z; k_payload : kill_payload; k_tenant : string;
  k_requestID : string; k_timeout : Z }.
Record kill_response := MkKillResponse { kr_code : Z; kr_message : string; kr_payload : string }.

Definition sandboxKillInstanceSignal : Z := 1.
Definition sandboxPauseInstanceSignal : Z := 18.
Definition sandboxResumeInstanceSignal : Z := 19.
Definition sandboxReloadInstanceSignal : Z := 25.
Definition sandboxUpdateNetworkSignal : Z := 26.
Definition sandboxLifecycleRequestIDHeader : string := "X-YR-Request-ID".

(** ** Errors *)

Inductive lifecycle_error :=
| LPlain (message : string)
| LHTTP (status : Z)                              (* sandboxLifecycleHTTPError *)
| LTransport                                       (* sandboxLifecycleTransportError *)
| LBusiness (operation : string) (code : Z) (message : string).

Definition lifecycleHTTPStatus (err : lifecycle_error) : Z :=
  match err with
  | LHTTP status => status
  | LTransport => 503
  | LBusiness _ _ _ => 409
  | LPlain message =>
      if existsb (Contains message) [sandboxLifecycleRequestIDHeader; "required"; "authorized"; "tenant"]
      then 400 else 500
  end.

(** ** Responses and the state of the frontend *)

Inductive lifecycle_body :=
| BNone
| BDeleted
| BPaused (sandboxID snapshotID : string) (size : Z) (expiresAt : Z)
| BResumed (sandboxID routeAddress functionProxyID nodeID : string) (portMappings : gmap string Z)
| BSuccess (success : bool)
| BSnapshot (snapshotID : string) (names : list string).

Record response := MkResponse { rs_status : Z; rs_body : lifecycle_body }.

Record world := MkWorld {
  w_store : Store; w_auth : auth_state;
  w_kills : list kill_request;                     (* signals sent, newest first *)
  w_routes : list (string * string * string);      (* RecordRouteOnlyInstance *)
}.

(** ** Request IDs *)

Definition alnum (c : ascii) : bool := byte_in 65 90 c || byte_in 97 122 c || byte_in 48 57 c.
Definition id_char (c : ascii) : bool := alnum c || byte_eq 46 c || byte_eq 95 c || byte_eq 45 c.

(** The patterns [^op-[A-Za-z0-9][A-Za-z0-9._-]{0,127}$]. *)
Definition request_id_ok (operation id : string) : bool :=
  HasPrefix id (operation +:+ "-") &&
  match str_drop (String.length operation + 1) id with
  | EmptyString => false
  | String c r => alnum c && (String.length r <=? 127)%nat && str_forallb id_char r
  end.

Definition header (c : gin_ctx) (name : string) : string := default "" (headers c !! name).

(** Header names are canonical: [tenantId] is [Tenantid]. *)
Definition GetCompatibleGinHeader (c : gin_ctx) (primaryHeader secondaryHeader : string) : string :=
  or_default (header c primaryHeader) (header c secondaryHeader).

Section lifecycle.
  Variable EnableFuncTokenAuth : bool.
  (** The IAM server, as in file JwtAuth. *)
  Variable configured : bool.
  Variable iamValidator : string → Z → bool.
  (** [ReadInstance] and the decoding of its value: instance and tenant;
      [Err true] is [ErrAuthoritativeInstanceNotFound]. *)
  Variable ReadInstance : string → res bool (string * string).
  (** The kernel; [Err] is an error of the transport. *)
  Variable kernel : kill_request → res unit kill_response.
  Variable decode_snap_info : string → option (string * Z).
  Variable decode_started : string → option (string * string * string * string * string).
  Variable decode_snapshot : string → option (string * list string).
  Variable unicode_lower : string → string.
  Variable ToASCII : string → option string.

(** ** Who may operate on a sandbox *)

Definition ReadAuthoritativeInstance (instanceID : string) : res bool (string * string) :=
  let safeID := SanitizeID (TrimSpace instanceID) in
  if bool_decide (safeID = "") then Err false else
  match ReadInstance safeID with
  | Err e => Err e
  | Ok (id, tenant) =>
      if bool_decide (id = "") || negb (bool_decide (SanitizeID id = safeID)) || bool_decide (tenant = "")
      then Err false else Ok (id, tenant)
  end.

Definition needsDeleteAuthorization (c : gin_ctx) : bool :=
  if negb EnableFuncTokenAuth then false
  else bool_decide (is_Some (jwt_sub c)) || bool_decide (is_Some (jwt_role c)) || bool_decide (header c "X-Auth" ≠ "").

(** The context with [jwt_sub] and [jwt_role]. *)
Definition set_jwt (c : gin_ctx) (sub role : string) : gin_ctx :=
  MkCtx (gc_path c) (gc_method c) (Params c) (headers c) (q c) (iam_token_cookie c) (is_invoke c) (skip_jwt c)
    (jwt_tenant c) (Some role) (Some sub).

(** [Ok (needsAuth, ctx)], or the status of the refusal. *)
Definition ensureDeleteJWTContext (w : world) (c : gin_ctx) (t : clock) : res Z (bool * gin_ctx) * world :=
  if negb (needsDeleteAuthorization c) then (Ok (false, c), w) else
  match jwt_sub c, jwt_role c with
  | Some _, Some _ => (Ok (true, c), w)
  | _, _ =>
      let '(r, a) := AuthenticateDeveloperToken configured iamValidator (w_auth w) (header c "X-Auth") t in
      let w := MkWorld (w_store w) a (w_kills w) (w_routes w) in
      match r with
      | Err (code, _) => (Err code, w)
      | Ok who => (Ok (true, set_jwt c (id_TenantID who) (id_Role who)), w)
      end
  end.

(** The tenant that owns a sandbox: its cached summary, or else etcd. *)
Definition owner_of (w : world) (instanceID : string) : res Z string :=
  match GetSummary (w_store w) instanceID with
  | Some summary => Ok (su_TenantID summary)
  | None =>
      match ReadAuthoritativeInstance instanceID with
      | Ok (_, tenant) => Ok tenant
      | Err true => Err 404%Z
      | Err false => Err 503%Z
      end
  end.

(** [Ok ()], or the status of the refusal. *)
Definition authorizeSandboxDelete (w : world) (c : gin_ctx) (instanceID : string) : res Z unit :=
  let callerTenantID := default "" (jwt_sub c) in
  let callerRoleName := default "" (jwt_role c) in
  if bool_decide (callerTenantID = "") then Err 403%Z
  else if bool_decide (callerRoleName = "") then Err 403%Z
  else if negb (bool_decide (callerRoleName = RoleDeveloper)) then Err 403%Z
  else if bool_decide (callerTenantID = SystemTenantID) then Ok ()
  else
    let* targetTenantID := owner_of w instanceID in
    if bool_decide (callerTenantID = targetTenantID) then Ok () else Err 403%Z.

(** The two checks in the order of the handlers. *)
Definition authorize (w : world) (c : gin_ctx) (t : clock) (instanceID : string) : res Z unit * world :=
  let '(r, w) := ensureDeleteJWTContext w c t in
  match r with
  | Err status => (Err status, w)
  | Ok (needsAuth, c) => (if needsAuth then authorizeSandboxDelete w c instanceID else Ok (), w)
  end.

Definition send (w : world) (k : kill_request) : res unit kill_response * world :=
  (kernel k, MkWorld (w_store w) (w_auth w) (k :: w_kills w) (w_routes w)).

Definition kill_tenant (c : gin_ctx) : string := or_default (GetCompatibleGinHeader c "X-Tenant-Id" "Tenantid") "default".

(** ** Handlers *)

Definition DeleteHandler (w : world) (c : gin_ctx) (t : clock) : response * world :=
  let instanceID := or_default (Params c "instanceId") (Params c "sandboxID") in
  if bool_decide (instanceID = "") then (MkResponse 400 BNone, w) else
  let '(a, w) := authorize w c t instanceID in
  match a with
  | Err status => (MkResponse status BNone, w)
  | Ok _ =>
      let '(r, w) := send w (MkKill instanceID sandboxKillInstanceSignal (PText "sandbox deleted") (kill_tenant c) "" 0) in
      match r with
      | Err _ => (MkResponse 500 BNone, w)
      | Ok _ => (MkResponse 200 BDeleted, w)
      end
  end.

Definition executeSandboxLifecycleKillWithTimeout (w : world) (c : gin_ctx) (t : clock) (signal : Z)
    (payload : kill_payload) (operation : string) (timeoutSeconds : Z) : res lifecycle_error kill_response * world :=
  let instanceID := TrimSpace (Params c "sandboxID") in
  if bool_decide (instanceID = "") then (Err (LPlain "sandboxID is required"), w) else
  let requestID := TrimSpace (header c "X-Yr-Request-Id") in
  if negb (request_id_ok operation requestID)
  then (Err (LPlain (sandboxLifecycleRequestIDHeader +:+ " must contain a valid SDK " +:+ operation +:+ " request ID")), w) else
  let '(a, w) := authorize w c t instanceID in
  match a with
  | Err status => (Err (LHTTP status), w)
  | Ok _ =>
      let '(r, w) := send w (MkKill instanceID signal payload (kill_tenant c) requestID timeoutSeconds) in
      match r with
      | Err _ => (Err LTransport, w)
      | Ok resp =>
          if negb (kr_code resp =? 0)%Z then (Err (LBusiness operation (kr_code resp) (kr_message resp)), w)
          else (Ok resp, w)
      end
  end.

Definition executeSandboxLifecycleKill (w : world) (c : gin_ctx) (t : clock) (signal : Z) (payload : kill_payload)
    (operation : string) : res lifecycle_error kill_response * world :=
  executeSandboxLifecycleKillWithTimeout w c t signal payload operation 0.

Definition sandboxCheckpointDefaultTimeoutSeconds : Z := 300.
Definition sandboxCheckpointMaxTimeoutSeconds : Z := 3600.
Definition sandboxPauseDefaultTTLSeconds : Z := 90000.

Definition resolveSandboxCheckpointTimeout (requested : Z) : option Z :=
  if (requested =? 0)%Z then Some sandboxCheckpointDefaultTimeoutSeconds
  else if (requested <? 0)%Z || (sandboxCheckpointMaxTimeoutSeconds <? requested)%Z then None
  else Some requested.

(** The summary a pause leaves behind. *)
Definition paused_summary (su : Summary) : Summary :=
  mkSummary (su_InstanceID su) (su_TenantID su) InstanceManagerOwner (su_Function su) (su_Image su)
    (su_ImageEndpoint su) StatusPaused "paused" (su_StatusType su) (su_StatusExitCode su) (su_StatusErrCode su)
    (su_StartTime su) (su_ObservedRunningAt su) (su_Resources su) "" "" (su_SandboxType su) (su_CreateOptions su).

(** What happens to the frontend while the kernel works on a pause: events of
    the watch; identity when nothing does. *)
Variable meanwhile : Store → Store.

(** [body] is the time to live and the timeout, [None] when they cannot be
    bound; [now] is read at the end, in seconds and in nanoseconds. *)
Definition PauseV1Handler (w : world) (c : gin_ctx) (t : clock) (body : option (Z * Z)) (now now_ns : Z) : response * world :=
  let instanceID := TrimSpace (Params c "sandboxID") in
  let running := GetSummary (w_store w) instanceID in
  match body with
  | None => (MkResponse 400 BNone, w)
  | Some (ttl, timeout) =>
      let ttl := if (ttl =? 0)%Z then sandboxPauseDefaultTTLSeconds else ttl in
      if (ttl <? 0)%Z then (MkResponse 400 BNone, w) else
      match resolveSandboxCheckpointTimeout timeout with
      | None => (MkResponse 400 BNone, w)
      | Some timeoutSeconds =>
          let '(r, w) := executeSandboxLifecycleKillWithTimeout w c t sandboxPauseInstanceSignal
                           (PSnap PAUSE_RESUME ttl false "" (timeoutSeconds * 1000)) "pause" timeoutSeconds in
          let w := MkWorld (meanwhile (w_store w)) (w_auth w) (w_kills w) (w_routes w) in
          match r with
          | Err e => (MkResponse (lifecycleHTTPStatus e) BNone, w)
          | Ok resp =>
              match decode_snap_info (kr_payload resp) with
              | None => (MkResponse 500 BNone, w)
              | Some (snapshotID, size) =>
                  if negb (bool_decide (snapshotID = TrimSpace (header c "X-Yr-Request-Id"))) || (size <=? 0)%Z
                  then (MkResponse 500 BNone, w)
                  else
                    let w := match running with
                             | None => w
                             | Some su =>
                                 MkWorld (DeleteEndpoint (PutSummary now_ns (w_store w) (paused_summary su)) instanceID)
                                   (w_auth w) (w_kills w)
                                   ((su_Function su, instanceID, InstanceManagerOwner) :: w_routes w)
                             end in
                    (MkResponse 200 (BPaused instanceID snapshotID size (now + ttl)), w)
              end
          end
      end
  end.

(** [json.Unmarshal] into a [map[string]int] and into a [[]string]. *)
Fixpoint to_int_map (kvs : list (string * any)) (m : gmap string Z) : option (gmap string Z) :=
  match kvs with
  | [] => Some m
  | (k, JNull) :: kvs => to_int_map kvs (<[k := 0%Z]> m)
  | (k, v) :: kvs => match to_int v with Some z => to_int_map kvs (<[k := z]> m) | None => None end
  end.
Definition to_string_slice (v : any) : option (list string) :=
  match v with
  | JNull => Some []
  | JArray l => mapM (λ v, match v with JNull => Some "" | _ => to_string v end) l
  | _ => None
  end.

Definition parse_port (s : string) : option Z :=
  match Atoi s with
  | Some p => if (p <=? 0)%Z || (maxSandboxPort <? p)%Z then None else Some p
  | None => None
  end.

Fixpoint physical_mappings (l : list string) (result : gmap string Z) : option (gmap string Z) :=
  match l with
  | [] => Some result
  | mapping :: l =>
      match Split mapping ":" with
      | [_; host; container] =>
          match parse_port host, parse_port container with
          | Some hostPort, Some containerPort =>
              let key := FormatInt containerPort in
              match result !! key with
              | Some previous => if negb (previous =? hostPort)%Z then None else physical_mappings l (<[key := hostPort]> result)
              | None => physical_mappings l (<[key := hostPort]> result)
              end
          | _, _ => None
          end
      | _ => None
      end
  end.

Definition parseResumePortMappings (encoded : string) : option (gmap string Z) :=
  let encoded := TrimSpace encoded in
  if bool_decide (encoded = "") then Some ∅
  else if HasPrefix encoded "{" then
    match Unmarshal encoded with Some (JObject kvs) => to_int_map kvs ∅ | _ => None end
  else
    match Unmarshal encoded with
    | Some v => match to_string_slice v with Some l => physical_mappings l ∅ | None => None end
    | None => None
    end.

Definition ResumeV1Handler (w : world) (c : gin_ctx) (t : clock) : response * world :=
  let instanceID := TrimSpace (Params c "sandboxID") in
  let '(r, w) := executeSandboxLifecycleKill w c t sandboxResumeInstanceSignal (PStart PAUSE_RESUME) "resume" in
  match r with
  | Err e => (MkResponse (lifecycleHTTPStatus e) BNone, w)
  | Ok resp =>
      match decode_started (kr_payload resp) with
      | None => (MkResponse 500 BNone, w)
      | Some (id, routeAddress, proxyID, nodeID, mappings) =>
          if negb (bool_decide (id = instanceID)) || bool_decide (routeAddress = "") || bool_decide (proxyID = "")
          then (MkResponse 500 BNone, w)
          else
            match parseResumePortMappings mappings with
            | None => (MkResponse 500 BNone, w)
            | Some m => (MkResponse 200 (BResumed id routeAddress proxyID nodeID m), w)
            end
      end
  end.

Definition ReloadV1Handler (w : world) (c : gin_ctx) (t : clock) : response * world :=
  let '(r, w) := executeSandboxLifecycleKill w c t sandboxReloadInstanceSignal PNil "reload" in
  match r with
  | Err e => (MkResponse (lifecycleHTTPStatus e) (BSuccess false), w)
  | Ok _ => (MkResponse 200 (BSuccess true), w)
  end.

(** [data] is the body. *)
Definition UpdateNetworkV1Handler (w : world) (c : gin_ctx) (t : clock) (data : string) : response * world :=
  match UnmarshalJSON data with
  | None => (MkResponse 400 (BSuccess false), w)
  | Some requested =>
      match normalizeSandboxNetworkPolicy unicode_lower ToASCII (Some requested) with
      | Err _ => (MkResponse 400 (BSuccess false), w)
      | Ok normalized =>
          let '(r, w) := executeSandboxLifecycleKill w c t sandboxUpdateNetworkSignal (PNetwork normalized) "network" in
          match r with
          | Err e => (MkResponse (lifecycleHTTPStatus e) (BSuccess false), w)
          | Ok _ => (MkResponse 200 (BSuccess true), w)
          end
      end
  end.

(** [body] is the name and the timeout. *)
Definition CreateReusableSnapshotV1Handler (w : world) (c : gin_ctx) (t : clock) (body : option (string * Z))
    : response * world :=
  match body with
  | None => (MkResponse 400 BNone, w)
  | Some (rawName, timeout) =>
      let name := TrimSpace rawName in
      if bool_decide (rawName ≠ "") && bool_decide (name = "") then (MkResponse 400 BNone, w) else
      match resolveSandboxCheckpointTimeout timeout with
      | None => (MkResponse 400 BNone, w)
      | Some timeoutSeconds =>
          let '(r, w) := executeSandboxLifecycleKillWithTimeout w c t sandboxPauseInstanceSignal
                           (PSnap SNAPSHOT 0 true name (timeoutSeconds * 1000)) "snapshot" timeoutSeconds in
          match r with
          | Err e => (MkResponse (lifecycleHTTPStatus e) BNone, w)
          | Ok resp =>
              match decode_snapshot (kr_payload resp) with
              | None => (MkResponse 500 BNone, w)
              | Some (id, names) =>
                  if bool_decide (TrimSpace id = "") then (MkResponse 500 BNone, w)
                  else (MkResponse 200 (BSnapshot id names), w)
              end
          end
      end
  end.

(** The handlers that signal a sandbox. *)
Inductive operation :=
| OpDelete | OpPause (body : option (Z * Z)) (now now_ns : Z) | OpResume | OpReload
| OpNetwork (data : string) | OpSnapshot (body : option (string * Z)).

Definition handle (op : operation) (w : world) (c : gin_ctx) (t : clock) : response * world :=
  match op with
  | OpDelete => DeleteHandler w c t
  | OpPause body now now_ns => PauseV1Handler w c t body now now_ns
  | OpResume => ResumeV1Handler w c t
  | OpReload => ReloadV1Handler w c t
  | OpNetwork data => UpdateNetworkV1Handler w c t data
  | OpSnapshot body => CreateReusableSnapshotV1Handler w c t body
  end.

(** ** Reusable snapshots behind the function master *)

(** [strings.TrimRight(s, "/")]. *)
Definition normalizeReusableSnapshotMasterURL (addr : string) : string :=
  if HasPrefix addr "http://" || HasPrefix addr "https://" then trim_right_slash addr
  else "http://" +:+ trim_right_slash addr.

Definition reusableSnapshotTenant (c : gin_ctx) : string :=
  or_default (or_default (GetCompatibleGinHeader c "X-Tenant-Id" "Tenantid")
                (tenantClaim (header c "X-Auth") (default "" (q c !! "token")))) "default".

Record master_request := MkMaster { mr_method : string; mr_url : string; mr_query : gmap string string }.
(** What the function master answers: status and body, [None] for an error. *)
Variable master : master_request → option (Z * string).
Variable GetActiveMasterAddr : string.

Definition proxyReusableSnapshotRequest (c : gin_ctx) (method : string) (query : gmap string string)
    : Z * option master_request :=
  let addr := TrimSpace GetActiveMasterAddr in
  if bool_decide (addr = "") then (503%Z, None) else
  let req := MkMaster method (normalizeReusableSnapshotMasterURL addr +:+ "/snap-manager/reusable-snapshots")
               (<["tenant_id" := reusableSnapshotTenant c]> query) in
  (match master req with
   | None => 502%Z
   | Some (status, body) =>
       if (400 <=? status)%Z then status
       else match Unmarshal body with None => 502%Z | Some _ => status end
   end, Some req).

Definition GetReusableSnapshotV1Handler (c : gin_ctx) : Z * option master_request :=
  let snapshotID := TrimSpace (Params c "snapshotID") in
  if bool_decide (snapshotID = "") then (400%Z, None)
  else proxyReusableSnapshotRequest c "GET" {["snapshot_id" := snapshotID]}.

Definition ListReusableSnapshotsV1Handler (c : gin_ctx) : Z * option master_request :=
  let add k m := let v := TrimSpace (default "" (q c !! k)) in if bool_decide (v ≠ "") then <[k := v]> m else m in
  proxyReusableSnapshotRequest c "GET" (add "pageSize" (add "pageToken" (add "name" ∅))).

Definition DeleteReusableSnapshotV1Handler (c : gin_ctx) : Z * option master_request :=
  let snapshotID := TrimSpace (Params c "snapshotID") in
  if bool_decide (snapshotID = "") then (400%Z, None) else
  let requestID := TrimSpace (header c "X-Yr-Request-Id") in
  if bool_decide (requestID = "") then (400%Z, None)
  else proxyReusableSnapshotRequest c "DELETE" {["snapshot_id" := snapshotID; "request_id" := requestID]}.

End lifecycle.
