(* ===== verification/SandboxLifecycleFacts.v ===== *)
(** * Who operates on a sandbox

    With token checks on, a signal reaches a sandbox only from its owner or the
    system tenant, provided summaries and etcd tell who the owner is and no two
    sandboxes share a sanitised identifier: the routing middleware and the
    lifecycle handlers together. *)

From S2P Require Import Prelude GoStrings Hashing Json Route Urn AliasRoute JwtAuth Middleware MiddlewareFacts ExecEndpoint SandboxNetwork SandboxSpec SandboxCreate SandboxLifecycle.
Open Scope string_scope.
#[local] Arguments String.append : simpl never.

(** ** Sandbox paths are checked *)

Lemma trim_right_api r : trim_right_slash ("api/sandbox" +:+ r) = "api/sandbox" +:+ trim_right_slash r.
Proof.
  rewrite !app_cons_str, !app_nil_l_str. cbn [trim_right_slash]. destruct (trim_right_slash r); reflexivity.
Qed.

Lemma sandbox_path_checked path :
  HasPrefix path "/api/sandbox" = true →
  isTunnelRequest path = false ∧ isSandboxDirectURL path = false ∧ isInvokeURL path = false.
Proof.
  intros [r ->]%HasPrefix_spec. split; [reflexivity|]. split; [reflexivity|]. unfold isInvokeURL.
  assert (HasPrefix ("/api/sandbox" +:+ r) "/serverless/v1/functions/" = false) as -> by reflexivity.
  assert (HasPrefix ("/api/sandbox" +:+ r) "/invocations/" = false) as -> by reflexivity.
  cbn [andb]. unfold Middleware.TrimSlash.
  assert (trim_left_slash ("/api/sandbox" +:+ r) = "api/sandbox" +:+ r) as -> by reflexivity.
  rewrite trim_right_api. change ("api/sandbox" +:+ trim_right_slash r) with ("api" +:+ String "/" ("sandbox" +:+ trim_right_slash r)).
  unfold three_parts. rewrite Split_app_byte by done.
  destruct (Split _ _) as [|b [|c [|]]]; try done. destruct (_ && _); done.
Qed.

(** A sandbox request that passes the middleware carries an accepted developer
    token, and its identity is in the context. *)
Lemma sandbox_request_authenticated aliases load custom iam_ok c c' :
  is_invoke c = None → skip_jwt c = None → HasPrefix (gc_path c) "/api/sandbox" = true →
  isInAuthWhitelist custom (gc_path c) (gc_method c) = false →
  InitRoute_use true iam_ok aliases load custom c = Next c' →
  ∃ h p sig, ParseJWT (request_token c) = Ok (MkJWT h p sig) ∧ iam_ok (request_token c) = true ∧
    Role p = RoleDeveloper ∧ jwt_sub c' = Some (Sub p) ∧ jwt_role c' = Some (Role p) ∧
    (Sub p ≠ "" → headers c' !! "X-Tenant-Id" = Some (Sub p)).
Proof.
  intros H1 H2 Hpath Hwl H. destruct (sandbox_path_checked _ Hpath) as (Ht & Hd & Hinv).
  unfold InitRoute_use, InvokePreprocessMiddleware in H. rewrite Hd, Hinv in H.
  unfold GlobalJWTAuthMiddleware, ShouldSkipJWTAuth, IsInvokeURL in H. rewrite Ht, Hwl, H1, H2 in H. cbn [default] in H.
  apply JWTAuth_next in H as (h & p & sig & Hne & Hp & Hok & Hr & ->). apply list_elem_of_singleton in Hr.
  exists h, p, sig. split_and!; try done. intros Hs. unfold with_identity. cbn. rewrite bool_decide_true by done.
  by rewrite lookup_insert_eq.
Qed.

(** ** Handlers send at most one signal, and only after the check *)

Section handlers.
  Context (configured : bool) (iamValidator : string → Z → bool) (ReadInstance : string → res bool (string * string)).
  Context (kernel : kill_request → res unit kill_response) (dsi : string → option (string * Z)).
  Context (dst : string → option (string * string * string * string * string)) (dsn : string → option (string * list string)).
  Context (ul : string → string) (toASCII : string → option string) (meanwhile : Store → Store).
  Implicit Types (w : world) (c : gin_ctx).

  Abbreviation authorize := (authorize true configured iamValidator ReadInstance).
  Abbreviation exec := (executeSandboxLifecycleKillWithTimeout true configured iamValidator ReadInstance kernel).
  Abbreviation handle := (handle true configured iamValidator ReadInstance kernel dsi dst dsn ul toASCII meanwhile).

(** One checked signal was sent between the two lists. *)
Definition sent_checked w c (t : clock) (ks ks' : list kill_request) : Prop :=
  ks' = ks ∨ ∃ k w', ks' = k :: ks ∧ authorize w c t (k_instance k) = (Ok (), w') ∧ k_tenant k = kill_tenant c.

Lemma authorize_kills w c t id r w' : authorize w c t id = (r, w') → w_kills w' = w_kills w.
Proof using Type.
  unfold SandboxLifecycle.authorize, ensureDeleteJWTContext. intros H. repeat case_inner_in H; by injection H as <- <-.
Qed.

Lemma exec_checked w c t sig pl op to r w' :
  exec w c t sig pl op to = (r, w') → sent_checked w c t (w_kills w) (w_kills w').
Proof using Type.
  unfold executeSandboxLifecycleKillWithTimeout. intros H. case_in H; [injection H as <- <-; by left|].
  case_in H; [injection H as <- <-; by left|].
  destruct (authorize w c t _) as [a w1] eqn:Ha. pose proof (authorize_kills _ _ _ _ _ _ Ha) as Hk.
  destruct a as [[]|st]; [|injection H as <- <-; by left]. unfold send in H.
  assert (w_kills w' = MkKill (TrimSpace (Params c "sandboxID")) sig pl (kill_tenant c)
            (TrimSpace (header c "X-Yr-Request-Id")) to :: w_kills w) as ->.
  { rewrite <- Hk. repeat case_inner_in H; by injection H as <- <-. }
  right. eexists _, w1. by split_and!.
Qed.

Lemma handle_checked op w c t : sent_checked w c t (w_kills w) (w_kills (handle op w c t).2).
Proof using Type.
  destruct op as [|body now now_ns| | |data|body]; cbn [SandboxLifecycle.handle].
  - unfold DeleteHandler. case_bool_decide; [by left|].
    destruct (authorize w c t _) as [a w1] eqn:Ha. pose proof (authorize_kills _ _ _ _ _ _ Ha) as Hk.
    destruct a as [[]|st]; [|by left]. right.
    exists (MkKill (or_default (Params c "instanceId") (Params c "sandboxID")) sandboxKillInstanceSignal
              (PText "sandbox deleted") (kill_tenant c) "" 0), w1.
    split_and!; [|exact Ha|done]. unfold send. rewrite <- Hk. by destruct (kernel _).
  - unfold PauseV1Handler. destruct body as [[ttl to]|]; [|by left]. case_goal; [by left|].
    destruct (resolveSandboxCheckpointTimeout to) as [ts|]; [|by left].
    destruct (exec w c t _ _ _ _) as [r w1] eqn:He. apply exec_checked in He.
    repeat case_inner; exact He.
  - unfold ResumeV1Handler, executeSandboxLifecycleKill. destruct (exec w c t _ _ _ _) as [r w1] eqn:He. apply exec_checked in He.
    repeat case_inner; exact He.
  - unfold ReloadV1Handler, executeSandboxLifecycleKill. destruct (exec w c t _ _ _ _) as [r w1] eqn:He. apply exec_checked in He.
    repeat case_inner; exact He.
  - unfold UpdateNetworkV1Handler, executeSandboxLifecycleKill. destruct (UnmarshalJSON data) as [p|]; [|by left].
    destruct (normalizeSandboxNetworkPolicy _ _ _) as [n|]; [|by left].
    destruct (exec w c t _ _ _ _) as [r w1] eqn:He. apply exec_checked in He. repeat case_inner; exact He.
  - unfold CreateReusableSnapshotV1Handler. destruct body as [[name to]|]; [|by left]. cbv zeta. case_goal; [by left|].
    destruct (resolveSandboxCheckpointTimeout to) as [ts|]; [|by left].
    destruct (exec w c t _ _ _ _) as [r w1] eqn:He. apply exec_checked in He. repeat case_inner; exact He.
Qed.

Lemma authorize_owner w c t id w' sub role :
  jwt_sub c = Some sub → jwt_role c = Some role → authorize w c t id = (Ok (), w') →
  sub ≠ "" ∧ (sub = SystemTenantID ∨ owner_of ReadInstance w id = Ok sub).
Proof using Type.
  intros Hs Hr H. unfold SandboxLifecycle.authorize, ensureDeleteJWTContext, needsDeleteAuthorization in H.
  rewrite Hs, Hr in H. cbn [negb] in H. rewrite (bool_decide_true (is_Some (Some sub))) in H by eauto. cbn [orb negb] in H.
  injection H as H _. unfold authorizeSandboxDelete in H. rewrite Hs, Hr in H. cbn [default] in H.
  case_in H; [done|]. case_in H; [done|]. case_in H; [done|]. breflect.
  split; [done|]. case_in H; [left; by breflect|right].
  bind_in H own Ht. case_in H; [|done]. breflect. by subst.
Qed.

Lemma owner_recorded w id sub :
  owner_of ReadInstance w id = Ok sub →
  (∃ su, GetSummary (w_store w) id = Some su ∧ su_TenantID su = sub) ∨
  (∃ id', ReadInstance (SanitizeID (TrimSpace id)) = Ok (id', sub) ∧ SanitizeID id' = SanitizeID (TrimSpace id)).
Proof using Type.
  unfold owner_of. destruct (GetSummary _ id) as [su|]; [intros [= <-]; left; eauto|]. intros H. right.
  unfold ReadAuthoritativeInstance in H. destruct (bool_decide (SanitizeID (TrimSpace id) = "")); [done|].
  destruct (ReadInstance _) as [[id' t]|[]]; cbn in H; [|done..]. destruct (_ || _) eqn:E; [done|]. injection H as ->. breflect. eauto.
Qed.

(** C3. Sandboxes obey their owner only: with token checks on, a request under
    /api/sandbox that is not white-listed and passes the middleware makes a
    lifecycle handler send at most one signal, and only when the request
    carries a token the IAM server accepted, with the developer role; the
    signal carries the tenant of the token, which is the system tenant or the
    owner of the signalled sandbox, unless no sandbox has the signalled
    identifier. [owner] says who owns the sandboxes that
    exist: the cached summaries and the records of etcd tell the truth about
    it, and no two sandboxes have identifiers with the same sanitised form. *)
Theorem lifecycle_owner_only (owner : string → option string) aliases load custom iam_ok op w c c' t :
  (∀ id su, GetSummary (w_store w) id = Some su → owner id = Some (su_TenantID su)) →
  (∀ safeID id tenant, ReadInstance safeID = Ok (id, tenant) → owner id = Some tenant) →
  (∀ id id', is_Some (owner id) → is_Some (owner id') → SanitizeID id' = SanitizeID (TrimSpace id) → id' = id) →
  is_invoke c = None → skip_jwt c = None → HasPrefix (gc_path c) "/api/sandbox" = true →
  isInAuthWhitelist custom (gc_path c) (gc_method c) = false →
  InitRoute_use true iam_ok aliases load custom c = Next c' →
  w_kills (handle op w c' t).2 = w_kills w ∨
  ∃ k h p sig, w_kills (handle op w c' t).2 = k :: w_kills w ∧
    ParseJWT (request_token c) = Ok (MkJWT h p sig) ∧ iam_ok (request_token c) = true ∧ Role p = RoleDeveloper ∧
    k_tenant k = Sub p ∧ (Sub p = SystemTenantID ∨ owner (k_instance k) = Some (Sub p) ∨ owner (k_instance k) = None).
Proof using Type.
  intros Hsum Hetcd Huniq H1 H2 Hpath Hwl H.
  destruct (sandbox_request_authenticated _ _ _ _ _ _ H1 H2 Hpath Hwl H) as (h & p & sig & Hp & Hok & Hr & Hsub & Hrole & Hten).
  destruct (handle_checked op w c' t) as [Hsame|(k & w' & Hk & Ha & Ht)]; [by left|right].
  destruct (authorize_owner _ _ _ _ _ _ _ Hsub Hrole Ha) as [Hne Hown].
  exists k, h, p, sig. split_and!; try done.
  - rewrite Ht. unfold kill_tenant, GetCompatibleGinHeader, header.
    rewrite (Hten Hne). cbn [default]. unfold or_default. by rewrite !(bool_decide_false (Sub p = "")) by done.
  - destruct Hown as [?|[(su & Hs & <-)|(id' & Hr' & Hs)]%owner_recorded]; [by left|right; left; auto|right].
    destruct (owner (k_instance k)) as [o|] eqn:Ho; [left|by right]. rewrite <- Ho.
    rewrite <- (Huniq (k_instance k) id') by eauto. eauto.
Qed.
End handlers.

(** ** Examples *)

Definition lc_token : string := Eval vm_compute in
  b64_encode (mw_json "{'alg':'HS256'}") +:+ "." +:+ b64_encode (mw_json "{'sub':'t1','role':'developer'}") +:+ ".s".
Definition lc_ctx (id : string) : gin_ctx :=
  MkCtx "/api/sandbox/v1/sandboxes/x/pause" "POST" (λ p, if bool_decide (p = "sandboxID") then id else "")
    (<["X-Auth" := lc_token]> {[ "X-Yr-Request-Id" := "pause-1" ]}) ∅ None None None None None None.
(** The context after the middleware. *)
Definition lc_routed (id : string) : gin_ctx :=
  match InitRoute_use true (λ _, true) ∅ (λ _, None) [] (lc_ctx id) with Next c => c | _ => lc_ctx id end.
Definition lc_summary (id tenant : string) : Summary :=
  mkSummary id tenant "node" "f" "" "" StatusRunning "" 0 0 0 "" (Some 0%Z) ∅ "cid" "ip" "" ∅.
Definition lc_world (id tenant : string) : world :=
  MkWorld (mkStore ∅ {[id := lc_summary id tenant]}) auth_init [] [].
Definition lc_kernel (k : kill_request) : res unit kill_response := Ok (MkKillResponse 0 "" "").
Definition lc_clock : clock := MkClock 0 0 0 0 0.
Abbreviation lc_handle read meanwhile :=
  (handle true true (λ _ _, true) read lc_kernel (λ _, Some ("pause-1", 7%Z)) (λ _, None) (λ _, None) id (λ _, None) meanwhile).

Lemma lifecycle_owner_only_witness :
  ∃ c' k, InitRoute_use true (λ _, true) ∅ (λ _, None) [] (lc_ctx "box") = Next c' ∧
    w_kills (lc_handle (λ _, Err true) id (OpPause (Some (0, 0)%Z) 0 0) (lc_world "box" "t1") c' lc_clock).2 = [k] ∧
    k_tenant k = "t1".
Proof.
  assert (∃ c', InitRoute_use true (λ _, true) ∅ (λ _, None) [] (lc_ctx "box") = Next c' ∧
    ∃ k, w_kills (lc_handle (λ _, Err true) id (OpPause (Some (0, 0)%Z) 0 0) (lc_world "box" "t1") c' lc_clock).2 = [k])
    as (c' & H & k0 & Hk0) by (eexists; split; [vm_compute; reflexivity|]; eexists; vm_compute; reflexivity).
  destruct (lifecycle_owner_only true (λ _ _, true) (λ _, Err true) lc_kernel (λ _, Some ("pause-1", 7%Z)) (λ _, None)
              (λ _, None) id (λ _, None) id (λ i, if bool_decide (i = "box") then Some "t1" else None)
              ∅ (λ _, None) [] (λ _, true) (OpPause (Some (0, 0)%Z) 0 0)
              (lc_world "box" "t1") (lc_ctx "box") c' lc_clock) as [Hs|(k & h & p & sig & Hk & Hp & _ & _ & Ht & Hown)];
    [|done| |reflexivity..|exact H| |].
  { intros i su Hi. unfold GetSummary in Hi. cbn in Hi. apply lookup_singleton_Some in Hi as [<- <-]. reflexivity. }
  { intros i j Hi Hj _. destruct (bool_decide (i = "box")) eqn:E, (bool_decide (j = "box")) eqn:F; by breflect; subst; try destruct Hi; try destruct Hj. }
  { rewrite Hk0 in Hs. discriminate Hs. }
  assert (ParseJWT (request_token (lc_ctx "box")) = Ok (MkJWT (MkJWTHeader "HS256" "") (MkJWTPayload "t1" 0 "developer") "s"))
    as Hpay by (vm_compute; reflexivity).
  rewrite Hpay in Hp. injection Hp as <- <- <-. cbn in Ht.
  exists c', k. split; [exact H|]. split; [exact Hk|]. exact Ht.
Defined.

(** A pause writes back the summary it read before the kernel call: when the
    sandbox is deleted meanwhile its summary comes back, and its name counts as
    taken. *)
Theorem pause_revives_deleted_summary :
  let w' := (lc_handle (λ _, Err true) (λ st, Delete st "box") (OpPause (Some (0, 0)%Z) 0 0) (lc_world "box" "t1")
               (lc_routed "box") lc_clock).2 in
  sandboxInstanceExists (w_store w') "box" = true.
Proof. vm_compute. reflexivity. Qed.

(** Without a summary the owner is looked up under the sanitised ID: the tenant of
    the sandbox "a-b" may signal the sandbox "a_b" of another tenant. *)
Theorem sanitized_owner_lookup :
  let read s := if bool_decide (s = "a-b") then Ok ("a-b", "t1") else Err true in
  k_instance <$> w_kills (lc_handle read id (OpPause (Some (0, 0)%Z) 0 0) (MkWorld NewStore auth_init [] [])
                            (lc_routed "a_b") lc_clock).2 = ["a_b"].
Proof. vm_compute. reflexivity. Qed.

(** The object form of the port mappings of a resume is not checked. *)
Theorem resume_mappings_unchecked :
  parseResumePortMappings (mw_json "{'8080':99999}") = Some {["8080" := 99999%Z]} ∧
  parseResumePortMappings (mw_json "['tcp:99999:8080']") = None.
Proof. split; vm_compute; reflexivity. Qed.
