(* ===== verification/InstanceRegistry.v ===== *)
(** * The registry of function instances

    Package [instancemanager] with [resspeckey] and the watcher of
    [watcher/instanceinfo.go]: the map of running instances by function key,
    resource key and instance ID that follows etcd; the short-lived route hints
    of the create path; the owner routes of instances in graceful eviction;
    the set of schedulers with its alarm; the table of submitted apps; and the
    callers that wait for an instance to appear.

    The decoders of the JSON texts held in etcd, and the encoder of custom
    resources, are parameters. A Go [range] over a map visits the keys in an
    order that the parameter [order] chooses. *)

From S2P Require Import Prelude GoStrings Json.
Open Scope string_scope.

(** ** Resource keys (resspeckey) *)

Record ResourceSpecification := MkResSpec {
  rs_CPU : Z; rs_Memory : Z; rs_InvokeLabel : string;
  rs_CustomResources : gmap string Z;
  rs_CustomResourcesSpec : gmap string any;
  rs_EphemeralStorage : Z;
}.

Record ResSpecKey := MkResSpecKey {
  rk_CPU : Z; rk_Memory : Z; rk_EphemeralStorage : Z;
  rk_CustomResources : string; rk_CustomResourcesSpec : string; rk_InvokeLabel : string;
}.

Definition ResSpecKey_String (rsk : ResSpecKey) : string :=
  "cpu-" +:+ FormatInt (rk_CPU rsk) +:+ "-mem-" +:+ FormatInt (rk_Memory rsk)
    +:+ "-storage-" +:+ FormatInt (rk_EphemeralStorage rsk)
    +:+ "-cstRes-" +:+ rk_CustomResources rsk
    +:+ "-cstResSpec-" +:+ rk_CustomResourcesSpec rsk
    +:+ "-invokeLabel-" +:+ rk_InvokeLabel rsk.

(** ** Instances *)

Record InstanceStatus := MkInstanceStatus {
  is_Code : Z; is_Type : Z; is_Msg : string; is_ExitCode : Z }.

Record Extensions := MkExtensions {
  ex_PID : string; ex_CreateTimestamp : string; ex_UpdateTimestamp : string }.

(** The fields of [types.InstanceSpecification] that the package reads. *)
Record InstanceSpecification := MkInstance {
  InstanceID : string; Function : string; FunctionProxyID : string; RuntimeAddress : string;
  CreateOptions : gmap string string;
  Status : InstanceStatus; Exts : Extensions;
}.

Definition zero_instance : InstanceSpecification :=
  MkInstance "" "" "" "" ∅ (MkInstanceStatus 0 0 "" 0) (MkExtensions "" "" "").

Definition with_id (id : string) (i : InstanceSpecification) : InstanceSpecification :=
  MkInstance id (Function i) (FunctionProxyID i) (RuntimeAddress i) (CreateOptions i) (Status i) (Exts i).

(** [CreateOptions[k]]. *)
Definition option_of (i : InstanceSpecification) (k : string) : string := default "" (CreateOptions i !! k).

Definition KernelInstanceStatusScheduling : Z := 1.
Definition KernelInstanceStatusCreating : Z := 2.
Definition KernelInstanceStatusRunning : Z := 3.
Definition KernelInstanceStatusFailed : Z := 4.
Definition KernelInstanceStatusExiting : Z := 5.
Definition KernelInstanceStatusFatal : Z := 6.
Definition KernelInstanceStatusScheduleFailed : Z := 7.
Definition KernelInstanceStatusEvicting : Z := 9.
Definition KernelInstanceStatusEvicted : Z := 10.
Definition KernelInstanceStatusSubHealth : Z := 11.
Definition KernelInstanceStatusTypeReturn : Z := 1.
Definition KernelInstanceStatusTypeUserKillInfo : Z := 6.

Definition ResourceSpecNote : string := "RESOURCE_SPEC_NOTE".
Definition functionKeyNote : string := "FUNCTION_KEY_NOTE".

(** ** State *)

Abbreviation queue := (gmap string InstanceSpecification).      (* functionInstanceQueue: by instance ID *)
Abbreviation function_map := (gmap string queue).               (* functionInstanceMap: by resource key *)

(** A stored route hint: the identity of the entry, which its timer compares. *)
Record routeOnlyInstance := MkRouteOnly { ro_addr : nat; ro_instance : InstanceSpecification }.

(** A timer of a hint: its instance and its deadline; [fired] once the runtime
    has started the timer function, which [Stop] no longer prevents. *)
Record timer := MkTimer { t_instance : string; t_deadline : Z; t_fired : bool }.

Record AppInfo := MkAppInfo {
  ai_Key : string; ai_Type : string; ai_Entrypoint : string; ai_SubmissionID : string;
  ai_Status : string; ai_RuntimeEnv : string * string * string;      (* pip, working_dir, envVars *)
  ai_Metadata : option (gmap string string); ai_DriverExitCode : Z;
  ai_DriverInfo : string * string * string;                          (* id, pid, address *)
  ai_ErrorType : string; ai_StartTime : string; ai_EndTime : string; ai_DriverNodeID : string;
}.

(** What [subject.PublishEvent] hands to the observers. *)
Inductive notice := NoticeUpdate (i : InstanceSpecification) | NoticeDelete (i : InstanceSpecification).

Record registry := MkRegistry {
  instancesMap : gmap string function_map;
  routeOnlyInstances : gmap string routeOnlyInstance;
  timers : gmap nat timer;
  next_entry : nat;
  evictingInstances : gmap string InstanceSpecification;
  updates : nat;                                   (* the channel of [instanceUpdates], earlier ones are closed *)
  notices : list notice;                           (* published, newest first *)
  schedulers : gmap string InstanceSpecification;  (* faaSSchedulerInstanceMap *)
  synced : bool;
  alarms : list bool;                              (* newest first: true reports, false clears *)
  appsInfo : gmap string AppInfo;
}.

Definition empty_registry : registry := MkRegistry ∅ ∅ ∅ 0 ∅ 0 [] ∅ false [] ∅.

Definition set_map (m : gmap string function_map) (n : list notice) (r : registry) : registry :=
  MkRegistry m (routeOnlyInstances r) (timers r) (next_entry r) (evictingInstances r) (updates r) n
    (schedulers r) (synced r) (alarms r) (appsInfo r).
Definition set_routes (ro : gmap string routeOnlyInstance) (ts : gmap nat timer) (n : nat) (r : registry) : registry :=
  MkRegistry (instancesMap r) ro ts n (evictingInstances r) (updates r) (notices r)
    (schedulers r) (synced r) (alarms r) (appsInfo r).
Definition set_evicting (m : gmap string InstanceSpecification) (r : registry) : registry :=
  MkRegistry (instancesMap r) (routeOnlyInstances r) (timers r) (next_entry r) m (updates r) (notices r)
    (schedulers r) (synced r) (alarms r) (appsInfo r).
Definition set_schedulers (m : gmap string InstanceSpecification) (s : bool) (a : list bool) (r : registry) : registry :=
  MkRegistry (instancesMap r) (routeOnlyInstances r) (timers r) (next_entry r) (evictingInstances r) (updates r)
    (notices r) m s a (appsInfo r).
Definition set_apps (m : gmap string AppInfo) (r : registry) : registry :=
  MkRegistry (instancesMap r) (routeOnlyInstances r) (timers r) (next_entry r) (evictingInstances r) (updates r)
    (notices r) (schedulers r) (synced r) (alarms r) m.

(** Closes the channel that the waiters hold and installs a new one. *)
Definition notifyInstanceUpdate (r : registry) : registry :=
  MkRegistry (instancesMap r) (routeOnlyInstances r) (timers r) (next_entry r) (evictingInstances r)
    (S (updates r)) (notices r) (schedulers r) (synced r) (alarms r) (appsInfo r).

(** ** Lookups *)

Fixpoint first_some {A} (f : string → option A) (keys : list string) : option A :=
  match keys with
  | [] => None
  | k :: r => match f k with Some a => Some a | None => first_some f r end
  end.

Section registry.
  (** [json.Unmarshal] into a resource specification, an instance specification,
      the code path of a [LocalMetaData] and a [map[string]string]. *)
  Variable unmarshal_res : string → option ResourceSpecification.
  Variable unmarshal_instance : string → option InstanceSpecification.
  Variable unmarshal_code_path : string → option string.
  Variable unmarshal_metadata : string → option (gmap string string).
  (** [json.Marshal] of the two maps of custom resources. *)
  Variable marshal_resources : gmap string Z → string.
  Variable marshal_resources_spec : gmap string any → string.
  (** The order in which a [range] visits the keys of a map. *)
  Variable order : list string → list string.

Definition ConvertToResSpecKey (resSpec : ResourceSpecification) : ResSpecKey :=
  let cstResExp :=
    if negb (bool_decide (rs_CustomResources resSpec = ∅)) then marshal_resources (rs_CustomResources resSpec) else "" in
  let cstResSpecExp :=
    if negb (bool_decide (cstResExp = "")) && negb (size (rs_CustomResourcesSpec resSpec) =? 0)%nat
    then marshal_resources_spec (rs_CustomResourcesSpec resSpec) else "" in
  MkResSpecKey (rs_CPU resSpec) (rs_Memory resSpec) (rs_EphemeralStorage resSpec)
    cstResExp cstResSpecExp (rs_InvokeLabel resSpec).

Definition GetResKeyFromStr (note : string) : option ResSpecKey :=
  ConvertToResSpecKey <$> unmarshal_res note.

(** [range] over a map, the first key at which [f] finds something. *)
Definition range_first {A B} (m : gmap string A) (f : A → option B) : option B :=
  first_some (λ k, m !! k ≫= f) (order (map_to_list m).*1).

Definition fm_getInstance (f : function_map) (resSpecKey instanceId : string) : option InstanceSpecification :=
  f !! resSpecKey ≫= λ q, q !! instanceId.

Definition fm_getInstanceByID (f : function_map) (instanceID : string) : option InstanceSpecification :=
  range_first f (λ q, q !! instanceID).

Definition GetInstance (r : registry) (funcKey resSpecKey instanceId : string) : option InstanceSpecification :=
  match instancesMap r !! funcKey with
  | None => None
  | Some f => fm_getInstance f resSpecKey instanceId
  end.

Definition GetInstanceByID (r : registry) (funcKey instanceID : string) : option InstanceSpecification :=
  if bool_decide (instanceID = "") then None
  else
    match instancesMap r !! funcKey ≫= λ f, fm_getInstanceByID f instanceID with
    | Some i => Some i
    | None =>
        match routeOnlyInstances r !! instanceID with
        | Some e =>
            let i := ro_instance e in
            if bool_decide (funcKey = "") || bool_decide (Function i = "") || bool_decide (Function i = funcKey)
            then Some i else None
        | None => None
        end
    end.

(** The first part of [GetInstanceByIDAcrossFunctions], over the map. *)
Definition map_lookup (r : registry) (instanceID : string) : option InstanceSpecification :=
  range_first (instancesMap r) (λ f, fm_getInstanceByID f instanceID).

Definition GetInstanceByIDAcrossFunctions (r : registry) (instanceID : string) : option InstanceSpecification :=
  if bool_decide (instanceID = "") then None
  else
    match map_lookup r instanceID with
    | Some i => Some i
    | None => ro_instance <$> routeOnlyInstances r !! instanceID
    end.

Definition GetEvictingInstanceByID (r : registry) (instanceID : string) : option InstanceSpecification :=
  evictingInstances r !! instanceID.

Definition getInstanceByID (r : registry) (instanceID : string) (includeEvicting : bool) : option InstanceSpecification :=
  match GetInstanceByIDAcrossFunctions r instanceID with
  | Some i => Some i
  | None => if includeEvicting then GetEvictingInstanceByID r instanceID else None
  end.

Definition GetRandomInstanceWithoutUnexpectedInstance (r : registry) (funcKey resKey : string)
    (unexpectInstanceIds : list string) : option InstanceSpecification :=
  match instancesMap r !! funcKey with
  | None => None
  | Some f =>
      match f !! resKey with
      | None => None
      | Some q => range_first (foldl (λ instances id, delete id instances) q unexpectInstanceIds) Some
      end
  end.

(** ** Route hints *)

Definition stop_timer (addr : nat) (ts : gmap nat timer) : gmap nat timer :=
  match ts !! addr with
  | Some t => if t_fired t then ts else delete addr ts
  | None => ts
  end.

Definition recordRouteOnlyInstanceWithTTL (now ttl : Z) (funcKey instanceID functionProxyAddress : string)
    (r : registry) : registry :=
  if bool_decide (instanceID = "") || bool_decide (functionProxyAddress = "") then r
  else
    let a := next_entry r in
    let entry := MkRouteOnly a (MkInstance instanceID funcKey functionProxyAddress "" ∅
                                  (MkInstanceStatus 0 0 "" 0) (MkExtensions "" "" "")) in
    let ts := <[a := MkTimer instanceID (now + ttl) false]> (timers r) in
    let ts := match routeOnlyInstances r !! instanceID with Some old => stop_timer (ro_addr old) ts | None => ts end in
    set_routes (<[instanceID := entry]> (routeOnlyInstances r)) ts (S a) r.

Definition routeOnlyInstanceTTL : Z := 10 * 60 * 1000000000.

Definition RecordRouteOnlyInstance (now : Z) := recordRouteOnlyInstanceWithTTL now routeOnlyInstanceTTL.

(** The runtime starts the function of a timer that is due ... *)
Definition timer_fires (now : Z) (addr : nat) (r : registry) : registry :=
  match timers r !! addr with
  | Some t =>
      if (t_deadline t <=? now)%Z
      then set_routes (routeOnlyInstances r) (<[addr := MkTimer (t_instance t) (t_deadline t) true]> (timers r))
             (next_entry r) r
      else r
  | None => r
  end.

(** ... and the function removes the entry it was made for, if it is still there. *)
Definition timer_runs (addr : nat) (r : registry) : registry :=
  match timers r !! addr with
  | Some t =>
      if t_fired t then
        let ro := match routeOnlyInstances r !! t_instance t with
                  | Some e => if (ro_addr e =? addr)%nat then delete (t_instance t) (routeOnlyInstances r)
                              else routeOnlyInstances r
                  | None => routeOnlyInstances r
                  end in
        set_routes ro (delete addr (timers r)) (next_entry r) r
      else r
  | None => r
  end.

Record RouteOnlyInstanceSnapshot := MkSnapshot {
  sn_InstanceID : string; sn_Function : string; sn_FunctionProxyID : string; sn_Present : bool }.

Definition SnapshotRouteOnlyInstance (instanceID : string) (r : registry) : RouteOnlyInstanceSnapshot :=
  if bool_decide (instanceID = "") then MkSnapshot instanceID "" "" false
  else
    match routeOnlyInstances r !! instanceID with
    | Some e => MkSnapshot instanceID (Function (ro_instance e)) (FunctionProxyID (ro_instance e)) true
    | None => MkSnapshot instanceID "" "" false
    end.

Definition RemoveRouteOnlyInstance (instanceID : string) (r : registry) : registry :=
  if bool_decide (instanceID = "") then r
  else
    match routeOnlyInstances r !! instanceID with
    | Some e => set_routes (delete instanceID (routeOnlyInstances r)) (stop_timer (ro_addr e) (timers r)) (next_entry r) r
    | None => r
    end.

Definition RemoveRouteOnlyInstanceWithSnapshot (instanceID : string) (r : registry) :
    (RouteOnlyInstanceSnapshot * RouteOnlyInstanceSnapshot) * registry :=
  let before := SnapshotRouteOnlyInstance instanceID r in
  let r := RemoveRouteOnlyInstance instanceID r in
  ((before, SnapshotRouteOnlyInstance instanceID r), r).

(** ** Evicting instances

    The functions are split where another goroutine can run: the change of a
    map, with the flag that the change is followed by a notification, and the
    notification. *)

Definition owner_route (i : InstanceSpecification) : InstanceSpecification :=
  MkInstance (InstanceID i) (Function i) (FunctionProxyID i) "" ∅ (Status i) (MkExtensions "" "" "").

Definition recordEvicting_store (i : InstanceSpecification) (r : registry) : registry * bool :=
  if bool_decide (InstanceID i = "") then (r, false)
  else (set_evicting (<[InstanceID i := owner_route i]> (evictingInstances r)) r, true).

Definition removeEvicting_store (instanceID : string) (r : registry) : registry * bool :=
  if bool_decide (instanceID = "") then (r, false)
  else
    match evictingInstances r !! instanceID with
    | Some _ => (set_evicting (delete instanceID (evictingInstances r)) r, true)
    | None => (r, false)
    end.

Definition then_notify (x : registry * bool) : registry :=
  if x.2 then notifyInstanceUpdate x.1 else x.1.

Definition recordEvictingInstance (i : InstanceSpecification) (r : registry) : registry :=
  then_notify (recordEvicting_store i r).
Definition removeEvictingInstance (instanceID : string) (r : registry) : registry :=
  then_notify (removeEvicting_store instanceID r).

(** ** Running instances *)

Definition q_addInstance (i : InstanceSpecification) (q : queue) : queue := <[InstanceID i := i]> q.

(** [functionInstanceMap.addInstance], with what it publishes. *)
Definition fm_addInstance (i : InstanceSpecification) (f : function_map) : function_map * list notice :=
  match GetResKeyFromStr (option_of i ResourceSpecNote) with
  | None => (f, [])
  | Some resKey =>
      let k := ResSpecKey_String resKey in
      (<[k := q_addInstance i (default ∅ (f !! k))]> f, [NoticeUpdate i])
  end.

Definition q_delInstance (i : InstanceSpecification) (q : queue) : queue * list notice :=
  match q !! InstanceID i with
  | None => (q, [])
  | Some _ => (delete (InstanceID i) q, [NoticeDelete i])
  end.

Definition fm_delInstance (i : InstanceSpecification) (f : function_map) : function_map * list notice :=
  match GetResKeyFromStr (option_of i ResourceSpecNote) with
  | None => (f, [])
  | Some resKey =>
      let k := ResSpecKey_String resKey in
      match f !! k with
      | None => (f, [])
      | Some q =>
          let '(q, n) := q_delInstance i q in
          (if (size q =? 0)%nat then delete k f else <[k := q]> f, n)
      end
  end.

Definition addInstance_store (funcKey : string) (i : InstanceSpecification) (r : registry) : registry * bool :=
  let '(f, n) := fm_addInstance i (default ∅ (instancesMap r !! funcKey)) in
  (set_map (<[funcKey := f]> (instancesMap r)) (n ++ notices r)%list r, true).

Definition delInstance_store (funcKey : string) (i : InstanceSpecification) (r : registry) : registry * bool :=
  match instancesMap r !! funcKey with
  | None => (r, false)
  | Some f =>
      let '(f, n) := fm_delInstance i f in
      (set_map (<[funcKey := f]> (instancesMap r)) (n ++ notices r)%list r, true)
  end.

(** The end of [delInstance]: a function without queues is dropped. *)
Definition drop_empty (funcKey : string) (r : registry) : registry :=
  match instancesMap r !! funcKey with
  | Some f => if (size f =? 0)%nat then set_map (delete funcKey (instancesMap r)) (notices r) r else r
  | None => r
  end.

Definition addInstance (funcKey : string) (i : InstanceSpecification) (r : registry) : registry :=
  then_notify (addInstance_store funcKey i r).

Definition delInstance (funcKey : string) (i : InstanceSpecification) (r : registry) : registry :=
  match instancesMap r !! funcKey with
  | None => r
  | Some _ => drop_empty funcKey (then_notify (delInstance_store funcKey i r))
  end.

(** ** Schedulers and their alarm *)

Definition sched_sync (r : registry) : registry :=
  set_schedulers (schedulers r) true
    (if (size (schedulers r) =? 0)%nat then true :: alarms r else alarms r) r.

Definition sched_addInstance (instanceId : string) (i : InstanceSpecification) (r : registry) : registry :=
  match schedulers r !! instanceId with
  | Some _ => r
  | None =>
      let m := <[instanceId := i]> (schedulers r) in
      set_schedulers m (synced r) (if (size m =? 1)%nat && synced r then false :: alarms r else alarms r) r
  end.

Definition sched_delInstance (instanceId : string) (r : registry) : registry :=
  match schedulers r !! instanceId with
  | None => r
  | Some _ =>
      let m := delete instanceId (schedulers r) in
      set_schedulers m (synced r) (if (size m =? 0)%nat then true :: alarms r else alarms r) r
  end.

Definition sched_IsExist (instanceId : string) (r : registry) : bool := bool_decide (is_Some (schedulers r !! instanceId)).

(** Whether the alarm is up: the last report or clearance decides. *)
Definition alarm_up (r : registry) : bool := match alarms r with b :: _ => b | [] => false end.

(** ** Apps *)

Definition switch2AppStatus (statsCode statusType : Z) : string :=
  if bool_decide (statsCode = KernelInstanceStatusScheduling) || bool_decide (statsCode = KernelInstanceStatusCreating)
  then "PENDING"
  else if bool_decide (statsCode = KernelInstanceStatusRunning) || bool_decide (statsCode = KernelInstanceStatusExiting)
          || bool_decide (statsCode = KernelInstanceStatusSubHealth)
  then "RUNNING"
  else if bool_decide (statsCode = KernelInstanceStatusFailed) || bool_decide (statsCode = KernelInstanceStatusScheduleFailed)
          || bool_decide (statsCode = KernelInstanceStatusEvicting) || bool_decide (statsCode = KernelInstanceStatusEvicted)
  then "FAILED"
  else if bool_decide (statsCode = KernelInstanceStatusFatal) then
    if bool_decide (statusType = KernelInstanceStatusTypeReturn) then "SUCCEEDED"
    else if bool_decide (statusType = KernelInstanceStatusTypeUserKillInfo) then "STOPPED"
    else "FAILED"
  else "".

Definition StoreAppInfo (key : string) (value : InstanceSpecification) (r : registry) : registry :=
  if negb (Contains (InstanceID value) "app") then r
  else
    let appStatus := switch2AppStatus (is_Code (Status value)) (is_Type (Status value)) in
    let workingDir := default "" (unmarshal_code_path (option_of value "DELEGATE_DOWNLOAD")) in
    let stopped := bool_decide (appStatus = "FAILED") || bool_decide (appStatus = "STOPPED") in
    let errType := if stopped then is_Msg (Status value) else "" in
    let endTime := if stopped || bool_decide (appStatus = "SUCCEEDED") then ex_UpdateTimestamp (Exts value) else "" in
    let appInfo :=
      MkAppInfo key "SUBMISSION" (option_of value "ENTRYPOINT") (InstanceID value) appStatus
        (option_of value "POST_START_EXEC", workingDir, option_of value "DELEGATE_ENV_VAR")
        (unmarshal_metadata (option_of value "USER_PROVIDED_METADATA")) (is_ExitCode (Status value))
        (InstanceID value, ex_PID (Exts value), default "" (head (Split (RuntimeAddress value) ":")))
        errType (ex_CreateTimestamp (Exts value)) endTime (FunctionProxyID value) in
    set_apps (<[InstanceID value := appInfo]> (appsInfo r)) r.

Definition ProcessAppInfoUpdate (key value : string) (r : registry) : registry :=
  match unmarshal_instance value with
  | None => r
  | Some appInfo => StoreAppInfo key appInfo r
  end.

Definition ProcessAppInfoDelete (key : string) (r : registry) : registry :=
  let keyParts := Split key "/" in
  if negb (length keyParts =? 14)%nat then r
  else set_apps (delete (nth 13 keyParts "") (appsInfo r)) r.

Definition GetAppDetailsByID (submissionID : string) (r : registry) : option AppInfo := appsInfo r !! submissionID.
Definition GetAppStatusByID (submissionID : string) (r : registry) : string :=
  match appsInfo r !! submissionID with Some a => ai_Status a | None => "" end.
Definition ListAppsInfo (r : registry) : list AppInfo := (map_to_list (appsInfo r)).*2.

(** ** Events of the watcher *)

Definition GetInstanceIDFromEtcdKey (etcdKey : string) : string :=
  let items := Split etcdKey "/" in
  if negb (length items =? 14)%nat then "" else nth 13 items "".

Definition GetInsSpecFromEtcdValue (etcdValue : string) : option InstanceSpecification :=
  if negb (String.length etcdValue =? 0)%nat then unmarshal_instance etcdValue else Some zero_instance.

Definition IsFaaSManager (funcKey : string) : bool :=
  let items := Split funcKey "-" in
  if negb (length items =? 3)%nat then false else bool_decide (nth 2 items "" = "faasmanager").

(** [utils.GetFunctionInstanceInfoFromEtcdKey] fails for a key that has not 14 parts. *)
Definition isFaaSScheduler (etcdPath : string) : bool :=
  let elements := Split etcdPath "/" in
  if negb (length elements =? 14)%nat then false else Contains (nth 8 elements "") "faasscheduler".

Definition ProcessInstanceUpdate (key value : string) (r : registry) : registry :=
  let instanceId := GetInstanceIDFromEtcdKey key in
  let insSpec := GetInsSpecFromEtcdValue value in
  let r := removeEvictingInstance instanceId r in
  if (String.length instanceId =? 0)%nat then r
  else
    match insSpec with
    | None => r
    | Some insSpec =>
        let r := ProcessAppInfoUpdate key value r in
        let items := Split (Function insSpec) "/" in
        if negb (length items =? 3)%nat then r
        else
          let insSpec := with_id instanceId insSpec in
          if IsFaaSManager (nth 1 items "") then r
          else if isFaaSScheduler key then
            if bool_decide (is_Code (Status insSpec) = KernelInstanceStatusRunning)
            then sched_addInstance instanceId insSpec r
            else sched_delInstance instanceId r
          else
            let functionKey := option_of insSpec functionKeyNote in
            if bool_decide (functionKey = "") then r
            else if negb (bool_decide (is_Code (Status insSpec) = KernelInstanceStatusRunning)) then
              let r := delInstance functionKey insSpec r in
              if bool_decide (is_Code (Status insSpec) = KernelInstanceStatusEvicting)
              then recordEvictingInstance insSpec r
              else r
            else RemoveRouteOnlyInstance instanceId (addInstance functionKey insSpec r)
    end.

Definition ProcessInstanceDelete (key prevValue : string) (r : registry) : registry :=
  let instanceId := GetInstanceIDFromEtcdKey key in
  let insSpec := GetInsSpecFromEtcdValue prevValue in
  let r := RemoveRouteOnlyInstance instanceId r in
  let r := removeEvictingInstance instanceId r in
  if (String.length instanceId =? 0)%nat then r
  else
    match insSpec with
    | None => r
    | Some insSpec =>
        let r := ProcessAppInfoDelete key r in
        let items := Split (Function insSpec) "/" in
        if negb (length items =? 3)%nat then r
        else if IsFaaSManager (nth 1 items "") then r
        else if isFaaSScheduler key then sched_delInstance instanceId r
        else
          let functionKey := option_of insSpec functionKeyNote in
          if bool_decide (functionKey = "") then r
          else delInstance functionKey (with_id instanceId insSpec) r
    end.

Inductive etcd_event :=
| PUT (key value : string)
| DELETE (key prevValue : string)
| SYNCED
| OTHER (key : string).           (* ERROR, HISTORYUPDATE, HISTORYDELETE *)

Definition event_key (ev : etcd_event) : string :=
  match ev with PUT k _ | DELETE k _ | OTHER k => k | SYNCED => "" end.

(** [true] discards the event. *)
Definition instanceInfoFilter (ev : etcd_event) : bool := negb (length (Split (event_key ev) "/") =? 14)%nat.

Definition instanceInfoHandler (ev : etcd_event) (r : registry) : registry :=
  match ev with
  | PUT k v => ProcessInstanceUpdate k v r
  | DELETE k pv => ProcessInstanceDelete k pv r
  | SYNCED => sched_sync r
  | OTHER _ => r
  end.

(** [processEventLoop]: SYNCED events are not filtered. *)
Definition watch (r : registry) (ev : etcd_event) : registry :=
  match ev with
  | SYNCED => instanceInfoHandler ev r
  | _ => if instanceInfoFilter ev then r else instanceInfoHandler ev r
  end.

(** ** The registry with its other callers *)

Inductive op :=
| Watch (ev : etcd_event)
| Record_ (now : Z) (funcKey instanceID proxy : string)
| Remove (instanceID : string)
| TimerFires (now : Z) (addr : nat)
| TimerRuns (addr : nat).

Definition apply (r : registry) (o : op) : registry :=
  match o with
  | Watch ev => watch r ev
  | Record_ now fk id p => RecordRouteOnlyInstance now fk id p r
  | Remove id => RemoveRouteOnlyInstance id r
  | TimerFires now a => timer_fires now a r
  | TimerRuns a => timer_runs a r
  end.

Definition run (ops : list op) : registry := foldl apply empty_registry ops.

End registry.
