(* ===== verification/InstanceWait.v ===== *)
(** * Waiting for an instance

    [waitInstanceByID] against the goroutine of the watcher. The handler of an
    event is the list of its atomic sections, so that a waiter can run between
    any two of them; [notifyInstanceUpdate] takes the lock that a waiter holds
    while it looks the instance up. *)

From S2P Require Import Prelude GoStrings Json InstanceRegistry.
Open Scope string_scope.

(** ** The atomic sections of the handlers *)

Inductive action :=
| ANotify
| ARemoveEvicting (instanceID : string)
| ARecordEvicting (i : InstanceSpecification)
| AAdd (funcKey : string) (i : InstanceSpecification)
| ADel (funcKey : string) (i : InstanceSpecification)
| ADrop (funcKey : string)
| ARemoveRoute (instanceID : string)
| AAppUpdate (key value : string)
| AAppDelete (key : string)
| ASchedAdd (instanceID : string) (i : InstanceSpecification)
| ASchedDel (instanceID : string)
| ASync.

(** Where a caller of [waitInstanceByID] is. *)
Inductive wait_pc :=
| Checking                                  (* before [instanceUpdates.Lock] *)
| MapRead                                   (* not in the map; holds the lock *)
| HintRead                                  (* nor among the hints; holds the lock *)
| Parked (ch : nat)                         (* in the select *)
| Got (i : InstanceSpecification)
| Cancelled.

Record machine := MkMachine {
  m_reg : registry;
  m_todo : list action;                     (* what is left of the event being handled *)
  m_lock : option nat;                      (* the waiter that holds [instanceUpdates] *)
  m_pcs : gmap nat wait_pc;
}.

Definition new_machine : machine := MkMachine empty_registry [] None ∅.

Inductive move :=
| Arrive (ev : etcd_event)                  (* the event loop takes the next event *)
| Act                                       (* the handler runs its next section *)
| Outside (o : op)                          (* a hint is recorded, removed or expires *)
| Step (w : nat)                            (* a waiter runs *)
| Cancel (w : nat).                         (* its context ends *)

Section wait.
  Variable unmarshal_res : string → option ResourceSpecification.
  Variable unmarshal_instance : string → option InstanceSpecification.
  Variable unmarshal_code_path : string → option string.
  Variable unmarshal_metadata : string → option (gmap string string).
  Variable marshal_resources : gmap string Z → string.
  Variable marshal_resources_spec : gmap string any → string.
  Variable order : list string → list string.
  (** The instance that a waiter asks for, and whether an evicting one will do. *)
  Variable want : nat → string * bool.

Definition act (a : action) (r : registry) : registry * bool :=
  match a with
  | ANotify => (notifyInstanceUpdate r, false)
  | ARemoveEvicting id => removeEvicting_store id r
  | ARecordEvicting i => recordEvicting_store i r
  | AAdd fk i => addInstance_store unmarshal_res marshal_resources marshal_resources_spec fk i r
  | ADel fk i => delInstance_store unmarshal_res marshal_resources marshal_resources_spec fk i r
  | ADrop fk => (drop_empty fk r, false)
  | ARemoveRoute id => (RemoveRouteOnlyInstance id r, false)
  | AAppUpdate k v => (ProcessAppInfoUpdate unmarshal_instance unmarshal_code_path unmarshal_metadata k v r, false)
  | AAppDelete k => (ProcessAppInfoDelete k r, false)
  | ASchedAdd id i => (sched_addInstance id i r, false)
  | ASchedDel id => (sched_delInstance id r, false)
  | ASync => (sched_sync r, false)
  end.

(** [ProcessInstanceUpdate]: which sections run depends on the event alone. *)
Definition update_actions (key value : string) : list action :=
  let instanceId := GetInstanceIDFromEtcdKey key in
  ARemoveEvicting instanceId ::
  if (String.length instanceId =? 0)%nat then []
  else
    match GetInsSpecFromEtcdValue unmarshal_instance value with
    | None => []
    | Some insSpec =>
        AAppUpdate key value ::
        let items := Split (Function insSpec) "/" in
        if negb (length items =? 3)%nat then []
        else
          let insSpec := with_id instanceId insSpec in
          if IsFaaSManager (nth 1 items "") then []
          else if isFaaSScheduler key then
            if bool_decide (is_Code (Status insSpec) = KernelInstanceStatusRunning)
            then [ASchedAdd instanceId insSpec] else [ASchedDel instanceId]
          else
            let functionKey := option_of insSpec functionKeyNote in
            if bool_decide (functionKey = "") then []
            else if negb (bool_decide (is_Code (Status insSpec) = KernelInstanceStatusRunning)) then
              ADel functionKey insSpec :: ADrop functionKey ::
              (if bool_decide (is_Code (Status insSpec) = KernelInstanceStatusEvicting)
               then [ARecordEvicting insSpec] else [])
            else [AAdd functionKey insSpec; ARemoveRoute instanceId]
    end.

Definition delete_actions (key prevValue : string) : list action :=
  let instanceId := GetInstanceIDFromEtcdKey key in
  ARemoveRoute instanceId :: ARemoveEvicting instanceId ::
  if (String.length instanceId =? 0)%nat then []
  else
    match GetInsSpecFromEtcdValue unmarshal_instance prevValue with
    | None => []
    | Some insSpec =>
        AAppDelete key ::
        let items := Split (Function insSpec) "/" in
        if negb (length items =? 3)%nat then []
        else if IsFaaSManager (nth 1 items "") then []
        else if isFaaSScheduler key then [ASchedDel instanceId]
        else
          let functionKey := option_of insSpec functionKeyNote in
          if bool_decide (functionKey = "") then []
          else [ADel functionKey (with_id instanceId insSpec); ADrop functionKey]
    end.

Definition event_actions (ev : etcd_event) : list action :=
  match ev with
  | SYNCED => [ASync]
  | _ =>
      if instanceInfoFilter ev then []
      else match ev with
           | PUT k v => update_actions k v
           | DELETE k pv => delete_actions k pv
           | SYNCED | OTHER _ => []
           end
  end.

(** ** Steps *)

Definition set_pc (m : machine) (lock : option nat) (w : nat) (pc : wait_pc) : machine :=
  MkMachine (m_reg m) (m_todo m) lock (<[w := pc]> (m_pcs m)).

Definition pc_of (m : machine) (w : nat) : wait_pc := default Checking (m_pcs m !! w).

Definition step (m : machine) (mv : move) : machine :=
  match mv with
  | Arrive ev =>
      match m_todo m with
      | [] => MkMachine (m_reg m) (event_actions ev) (m_lock m) (m_pcs m)
      | _ => m
      end
  | Act =>
      match m_todo m with
      | [] => m
      | ANotify :: rest =>
          match m_lock m with
          | None => MkMachine (notifyInstanceUpdate (m_reg m)) rest None (m_pcs m)
          | Some _ => m
          end
      | a :: rest =>
          let '(r, notify) := act a (m_reg m) in
          MkMachine r (if notify then ANotify :: rest else rest) (m_lock m) (m_pcs m)
      end
  | Outside (Watch _) => m
  | Outside o =>
      MkMachine (apply unmarshal_res unmarshal_instance unmarshal_code_path unmarshal_metadata
                   marshal_resources marshal_resources_spec (m_reg m) o) (m_todo m) (m_lock m) (m_pcs m)
  | Step w =>
      let '(id, includeEvicting) := want w in
      match pc_of m w with
      | Checking =>
          match m_lock m with
          | Some _ => m
          | None =>
              if bool_decide (id = "") then set_pc m (Some w) w HintRead
              else match map_lookup order (m_reg m) id with
                   | Some i => set_pc m None w (Got i)
                   | None => set_pc m (Some w) w MapRead
                   end
          end
      | MapRead =>
          match routeOnlyInstances (m_reg m) !! id with
          | Some e => set_pc m None w (Got (ro_instance e))
          | None => set_pc m (Some w) w HintRead
          end
      | HintRead =>
          match (if includeEvicting then GetEvictingInstanceByID (m_reg m) id else None) with
          | Some i => set_pc m None w (Got i)
          | None => set_pc m None w (Parked (updates (m_reg m)))
          end
      | Parked ch => if (ch <? updates (m_reg m))%nat then set_pc m (m_lock m) w Checking else m
      | Got _ | Cancelled => m
      end
  | Cancel w => match pc_of m w with Parked _ => set_pc m (m_lock m) w Cancelled | _ => m end
  end.

Definition run_machine (mvs : list move) : machine := foldl step new_machine mvs.

End wait.
