(* ===== verification/InstanceFacts.v ===== *)
(** * Theorems on the instance registry

    The registry refines one status per instance that the last event decides;
    the waiting callers are never left behind; the alarm follows the set of
    schedulers. *)

From S2P Require Import Prelude GoStrings Json InstanceRegistry InstanceWait.
Open Scope string_scope.

(** ** Ranges *)

Lemma first_some_Some {A} (f : string → option A) l a :
  first_some f l = Some a → ∃ k, k ∈ l ∧ f k = Some a.
Proof.
  induction l as [|k l IH]; cbn; [done|]. destruct (f k) eqn:E.
  - intros [= ->]. exists k. split; [left|done].
  - intros H. destruct (IH H) as (k' & Hk & Hf). exists k'. split; [by right|done].
Qed.

Lemma first_some_None {A} (f : string → option A) l k : first_some f l = None → k ∈ l → f k = None.
Proof.
  induction l as [|k' l IH]; cbn; [by intros _ ?%elem_of_nil|].
  destruct (f k') eqn:E; [done|]. intros H [->|Hk]%elem_of_cons; [done|by apply IH].
Qed.

Section facts.
  Context (unmarshal_res : string → option ResourceSpecification).
  Context (unmarshal_instance : string → option InstanceSpecification).
  Context (unmarshal_code_path : string → option string).
  Context (unmarshal_metadata : string → option (gmap string string)).
  Context (marshal_resources : gmap string Z → string).
  Context (marshal_resources_spec : gmap string any → string).
  Context (order : list string → list string).
  (** A [range] visits every key once. *)
  Context (order_perm : ∀ l, order l ≡ₚ l).

Local Abbreviation res_key note := (ResSpecKey_String <$> GetResKeyFromStr unmarshal_res marshal_resources marshal_resources_spec note).
Local Abbreviation add := (addInstance unmarshal_res marshal_resources marshal_resources_spec).
Local Abbreviation del := (delInstance unmarshal_res marshal_resources marshal_resources_spec).
Local Abbreviation apply := (apply unmarshal_res unmarshal_instance unmarshal_code_path unmarshal_metadata
                           marshal_resources marshal_resources_spec).
Local Abbreviation run := (run unmarshal_res unmarshal_instance unmarshal_code_path unmarshal_metadata
                         marshal_resources marshal_resources_spec).
Local Abbreviation watch := (watch unmarshal_res unmarshal_instance unmarshal_code_path unmarshal_metadata
                           marshal_resources marshal_resources_spec).

Lemma range_first_Some {A B} (m : gmap string A) (f : A → option B) b :
  range_first order m f = Some b → ∃ k a, m !! k = Some a ∧ f a = Some b.
Proof.
  intros (k & _ & H)%first_some_Some. apply bind_Some in H as (a & H1 & H2). eauto.
Qed.

Lemma range_first_None {A B} (m : gmap string A) (f : A → option B) k a :
  range_first order m f = None → m !! k = Some a → f a = None.
Proof.
  intros H Hk. unfold range_first in H.
  assert (k ∈ order (map_to_list m).*1) as Hin.
  { rewrite order_perm. apply list_elem_of_fmap. exists (k, a). split; [done|by apply elem_of_map_to_list]. }
  pose proof (first_some_None _ _ _ H Hin) as Hf. cbn in Hf. by rewrite Hk in Hf.
Qed.

(** What the lookup across functions finds. *)
Lemma map_lookup_Some r id i :
  map_lookup order r id = Some i → ∃ fk rk, GetInstance r fk rk id = Some i.
Proof.
  intros (fk & f & Hf & (rk & q & Hq & Hi)%range_first_Some)%range_first_Some.
  exists fk, rk. unfold GetInstance, fm_getInstance. rewrite Hf. cbn. rewrite Hq. exact Hi.
Qed.

Lemma map_lookup_None r id fk rk :
  map_lookup order r id = None → GetInstance r fk rk id = None.
Proof.
  intros H. unfold GetInstance. destruct (instancesMap r !! fk) as [f|] eqn:Hf; [|done].
  pose proof (range_first_None _ _ _ _ H Hf) as H'. unfold fm_getInstance.
  destruct (f !! rk) as [q|] eqn:Hq; [|done]. exact (range_first_None _ _ _ _ H' Hq).
Qed.

(** ** The map of running instances *)

(** The queue under a function and a resource key. *)
Definition queue_of (r : registry) (fk rk : string) : queue :=
  default ∅ (instancesMap r !! fk ≫= λ f, f !! rk).

Lemma GetInstance_queue r fk rk id : GetInstance r fk rk id = queue_of r fk rk !! id.
Proof.
  unfold GetInstance, queue_of, fm_getInstance. destruct (instancesMap r !! fk) as [f|]; cbn; [|by rewrite lookup_empty].
  by destruct (f !! rk); cbn; rewrite ?lookup_empty.
Qed.

Lemma add_queue fk i r fk' rk' :
  queue_of (add fk i r) fk' rk' =
    if bool_decide (fk' = fk) && bool_decide (res_key (option_of i ResourceSpecNote) = Some rk')
    then <[InstanceID i := i]> (queue_of r fk' rk') else queue_of r fk' rk'.
Proof.
  unfold addInstance, addInstance_store, fm_addInstance, queue_of.
  destruct (GetResKeyFromStr _ _ _ _) as [k|] eqn:E; cbn [then_notify fst snd fmap option_fmap option_map].
  - cbn [notifyInstanceUpdate set_map instancesMap]. destruct (decide (fk' = fk)) as [->|Hne].
    + rewrite lookup_insert_eq, bool_decide_true by done. cbn [andb mbind option_bind].
      destruct (decide (rk' = ResSpecKey_String k)) as [->|Hne].
      * rewrite lookup_insert_eq, bool_decide_true by done. cbn. unfold q_addInstance.
        by destruct (instancesMap r !! fk); cbn; rewrite ?lookup_empty.
      * rewrite lookup_insert_ne, bool_decide_false by congruence.
        by destruct (instancesMap r !! fk); cbn; rewrite ?lookup_empty.
    + by rewrite lookup_insert_ne, bool_decide_false by congruence.
  - cbn [notifyInstanceUpdate set_map instancesMap]. rewrite (bool_decide_false (None = _)), andb_false_r by done.
    destruct (decide (fk' = fk)) as [->|Hne].
    + rewrite lookup_insert_eq. by destruct (instancesMap r !! fk); cbn; rewrite ?lookup_empty.
    + by rewrite lookup_insert_ne by congruence.
Qed.

Lemma drop_empty_queue fk r fk' rk' : queue_of (drop_empty fk r) fk' rk' = queue_of r fk' rk'.
Proof.
  unfold drop_empty, queue_of. destruct (instancesMap r !! fk) as [f|] eqn:Hf; [|done].
  destruct (size f =? 0)%nat eqn:E; [|done]. apply Nat.eqb_eq, map_size_empty_iff in E as ->. cbn.
  destruct (decide (fk' = fk)) as [->|Hne]; [by rewrite lookup_delete_eq, Hf|by rewrite lookup_delete_ne by congruence].
Qed.

Lemma fm_del_queue i f rk' :
  default ∅ ((fm_delInstance unmarshal_res marshal_resources marshal_resources_spec i f).1 !! rk') =
    if bool_decide (res_key (option_of i ResourceSpecNote) = Some rk')
    then delete (InstanceID i) (default ∅ (f !! rk')) else default ∅ (f !! rk').
Proof.
  unfold fm_delInstance. destruct (GetResKeyFromStr _ _ _ _) as [k|] eqn:E; cbn [fmap option_fmap option_map fst].
  2: by rewrite bool_decide_false.
  destruct (f !! ResSpecKey_String k) as [q|] eqn:Hq; cbn [fst].
  2:{ case_bool_decide as Hb; [|done]. injection Hb as <-. rewrite Hq. cbn. by rewrite delete_empty. }
  assert ((q_delInstance i q).1 = delete (InstanceID i) q) as Hd.
  { unfold q_delInstance. destruct (q !! InstanceID i) eqn:Hi; [done|]. cbn. by rewrite delete_id. }
  destruct (q_delInstance i q) as [q' n]. cbn [fst] in Hd |- *. subst q'.
  case_bool_decide as Hb.
  - injection Hb as <-. rewrite Hq. cbn. destruct (size _ =? 0)%nat eqn:Es.
    + apply Nat.eqb_eq, map_size_empty_iff in Es as ->. by rewrite lookup_delete_eq.
    + by rewrite lookup_insert_eq.
  - destruct (size _ =? 0)%nat; [rewrite lookup_delete_ne by congruence|rewrite lookup_insert_ne by congruence]; done.
Qed.

Lemma del_store_queue fk i r fk' rk' :
  queue_of (delInstance_store unmarshal_res marshal_resources marshal_resources_spec fk i r).1 fk' rk' =
    if bool_decide (fk' = fk) && bool_decide (res_key (option_of i ResourceSpecNote) = Some rk')
    then delete (InstanceID i) (queue_of r fk' rk') else queue_of r fk' rk'.
Proof.
  unfold delInstance_store. destruct (instancesMap r !! fk) as [f|] eqn:Hf.
  - pose proof (fm_del_queue i f rk') as H.
    destruct (fm_delInstance _ _ _ i f) as [f' n]. cbn [fst] in *. unfold queue_of. cbn.
    destruct (decide (fk' = fk)) as [->|Hne].
    + by rewrite lookup_insert_eq, bool_decide_true, Hf by done.
    + by rewrite lookup_insert_ne, bool_decide_false by congruence.
  - destruct (decide (fk' = fk)) as [->|Hb]; [|by rewrite bool_decide_false]. cbn [fst]. unfold queue_of. rewrite Hf. cbn.
    rewrite delete_empty. by destruct (_ && _).
Qed.

Lemma del_queue fk i r fk' rk' :
  queue_of (del fk i r) fk' rk' =
    if bool_decide (fk' = fk) && bool_decide (res_key (option_of i ResourceSpecNote) = Some rk')
    then delete (InstanceID i) (queue_of r fk' rk') else queue_of r fk' rk'.
Proof.
  rewrite <- del_store_queue. unfold delInstance.
  destruct (instancesMap r !! fk) as [f|] eqn:Hf.
  - rewrite drop_empty_queue. unfold then_notify. by destruct (delInstance_store _ _ _ fk i r) as [r' []].
  - unfold delInstance_store. by rewrite Hf.
Qed.

(** ** Frames: what each function leaves alone *)

Lemma add_frame fk i r :
  evictingInstances (add fk i r) = evictingInstances r ∧ routeOnlyInstances (add fk i r) = routeOnlyInstances r.
Proof. unfold addInstance, addInstance_store. by destruct (fm_addInstance _ _ _ _ _). Qed.

Lemma drop_frame fk r :
  evictingInstances (drop_empty fk r) = evictingInstances r ∧ routeOnlyInstances (drop_empty fk r) = routeOnlyInstances r.
Proof. unfold drop_empty. repeat case_match; done. Qed.

Lemma del_frame fk i r :
  evictingInstances (del fk i r) = evictingInstances r ∧ routeOnlyInstances (del fk i r) = routeOnlyInstances r.
Proof.
  unfold delInstance. case_match; [|done]. destruct (drop_frame fk (then_notify (delInstance_store unmarshal_res
    marshal_resources marshal_resources_spec fk i r))) as [-> ->].
  unfold delInstance_store. repeat case_match; done.
Qed.

Lemma route_frame id r :
  instancesMap (RemoveRouteOnlyInstance id r) = instancesMap r ∧
  evictingInstances (RemoveRouteOnlyInstance id r) = evictingInstances r.
Proof. unfold RemoveRouteOnlyInstance. repeat case_match; done. Qed.

Lemma app_update_frame k v r :
  let r' := ProcessAppInfoUpdate unmarshal_instance unmarshal_code_path unmarshal_metadata k v r in
  instancesMap r' = instancesMap r ∧ evictingInstances r' = evictingInstances r.
Proof. unfold ProcessAppInfoUpdate, StoreAppInfo. repeat case_match; done. Qed.

Lemma app_delete_frame k r :
  instancesMap (ProcessAppInfoDelete k r) = instancesMap r ∧
  evictingInstances (ProcessAppInfoDelete k r) = evictingInstances r.
Proof. unfold ProcessAppInfoDelete. repeat case_match; done. Qed.

Lemma sched_frame id i r :
  (instancesMap (sched_addInstance id i r) = instancesMap r ∧
   evictingInstances (sched_addInstance id i r) = evictingInstances r) ∧
  (instancesMap (sched_delInstance id r) = instancesMap r ∧
   evictingInstances (sched_delInstance id r) = evictingInstances r).
Proof. unfold sched_addInstance, sched_delInstance. repeat case_match; done. Qed.

Lemma remove_evicting_maps id r :
  instancesMap (removeEvictingInstance id r) = instancesMap r ∧
  evictingInstances (removeEvictingInstance id r) =
    (if bool_decide (id = "") then evictingInstances r else delete id (evictingInstances r)).
Proof.
  unfold removeEvictingInstance, removeEvicting_store. case_bool_decide; [done|].
  destruct (evictingInstances r !! id) eqn:E; [done|]. by rewrite delete_id.
Qed.

Lemma record_evicting_maps i r : InstanceID i ≠ "" →
  instancesMap (recordEvictingInstance i r) = instancesMap r ∧
  evictingInstances (recordEvictingInstance i r) = <[InstanceID i := owner_route i]> (evictingInstances r).
Proof. intros. unfold recordEvictingInstance, recordEvicting_store. by rewrite bool_decide_false. Qed.

(** Operations other than events change neither map. *)
Lemma outside_frame r o :
  (∀ ev, o ≠ Watch ev) →
  instancesMap (apply r o) = instancesMap r ∧ evictingInstances (apply r o) = evictingInstances r.
Proof.
  destruct o; intros H; cbn.
  - by destruct (H ev).
  - unfold RecordRouteOnlyInstance, recordRouteOnlyInstanceWithTTL. repeat case_match; done.
  - apply route_frame.
  - unfold timer_fires. repeat case_match; done.
  - unfold timer_runs. repeat case_match; done.
Qed.

(** ** One status per instance *)

Inductive status := Running (i : InstanceSpecification) | Evicting (i : InstanceSpecification).

(** The function key and the resource key that a value names, for an instance
    that is neither a manager's nor a scheduler's. *)
Definition keys_of (key value : string) : option (string * option string) :=
  match GetInsSpecFromEtcdValue unmarshal_instance value with
  | None => None
  | Some s =>
      let items := Split (Function s) "/" in
      if negb (length items =? 3)%nat || IsFaaSManager (nth 1 items "") || isFaaSScheduler key then None
      else
        let fk := option_of s functionKeyNote in
        if bool_decide (fk = "") then None else Some (fk, res_key (option_of s ResourceSpecNote))
  end.

(** The status that a value gives. *)
Definition status_of (id key value : string) : option status :=
  match keys_of key value, GetInsSpecFromEtcdValue unmarshal_instance value with
  | Some (_, rk), Some s =>
      if bool_decide (is_Code (Status s) = KernelInstanceStatusRunning)
      then match rk with Some _ => Some (Running (with_id id s)) | None => None end
      else if bool_decide (is_Code (Status s) = KernelInstanceStatusEvicting)
      then Some (Evicting (owner_route (with_id id s)))
      else None
  | _, _ => None
  end.

(** The last event of an instance decides. *)
Definition abs_event (a : gmap string status) (ev : etcd_event) : gmap string status :=
  let id := GetInstanceIDFromEtcdKey (event_key ev) in
  if bool_decide (id = "") then a
  else
    match ev with
    | PUT k v => partial_alter (λ _, status_of id k v) id a
    | DELETE _ _ => delete id a
    | SYNCED | OTHER _ => a
    end.

Definition abs_op (a : gmap string status) (o : op) : gmap string status :=
  match o with Watch ev => abs_event a ev | _ => a end.

Definition statuses (ops : list op) : gmap string status := foldl abs_op ∅ ops.

(** The function and the resources of an instance do not change: every value
    of an instance names the keys that [meta] gives. *)
Definition stable_event (meta : string → option (string * option string)) (o : op) : Prop :=
  match o with
  | Watch (PUT k v | DELETE k v) =>
      GetInstanceIDFromEtcdKey k ≠ "" → keys_of k v = meta (GetInstanceIDFromEtcdKey k)
  | _ => True
  end.

Section stable.
  Context (meta : string → option (string * option string)).

Record rel (r : registry) (a : gmap string status) : Prop := {
  rel_running fk rk id s :
    queue_of r fk rk !! id = Some s ↔ a !! id = Some (Running s) ∧ meta id = Some (fk, Some rk);
  rel_evicting id s : evictingInstances r !! id = Some s ↔ a !! id = Some (Evicting s);
  rel_known id st : a !! id = Some st →
    id ≠ "" ∧ ∃ fk rk, meta id = Some (fk, rk) ∧ ∀ s, st = Running s → is_Some rk;
}.

Lemma rel_frame r r' a :
  instancesMap r' = instancesMap r → evictingInstances r' = evictingInstances r → rel r a → rel r' a.
Proof.
  intros Hm He [H1 H2 H3]. split; [|by rewrite He|done].
  intros fk rk id s. rewrite <- H1. unfold queue_of. by rewrite Hm.
Qed.

(** An operation that gives the instance [id] the status [st]. *)
Lemma rel_set r a id st fk rk r' :
  rel r a → id ≠ "" → meta id = Some (fk, rk) → (∀ s, st = Some (Running s) → is_Some rk) →
  (∀ fk' rk', queue_of r' fk' rk' =
     if bool_decide (fk' = fk) && bool_decide (rk = Some rk')
     then partial_alter (λ _, match st with Some (Running s) => Some s | _ => None end) id (queue_of r fk' rk')
     else queue_of r fk' rk') →
  evictingInstances r' =
    partial_alter (λ _, match st with Some (Evicting s) => Some s | _ => None end) id (evictingInstances r) →
  rel r' (partial_alter (λ _, st) id a).
Proof.
  intros [H1 H2 H3] Hid Hmeta Hrk Hq He. split.
  - intros fk' rk' id' s. rewrite Hq. destruct (decide (id' = id)) as [->|Hne].
    + rewrite lookup_partial_alter_eq, Hmeta. destruct (bool_decide _ && bool_decide _) eqn:Eb.
      * apply andb_true_iff in Eb as [->%bool_decide_eq_true ->%bool_decide_eq_true].
        rewrite lookup_partial_alter_eq. destruct st as [[]|]; naive_solver.
      * rewrite H1, Hmeta. split; [|intros [_ [= -> ->]]; by rewrite !bool_decide_true in Eb].
        intros [_ [= -> ->]]. by rewrite !bool_decide_true in Eb.
    + rewrite lookup_partial_alter_ne by done. rewrite <- H1. destruct (bool_decide _ && bool_decide _); [|done].
      by rewrite lookup_partial_alter_ne by done.
  - intros id' s. rewrite He. destruct (decide (id' = id)) as [->|Hne].
    + rewrite !lookup_partial_alter_eq. destruct st as [[]|]; naive_solver.
    + by rewrite !lookup_partial_alter_ne by done.
  - intros id' st'. destruct (decide (id' = id)) as [->|Hne].
    + rewrite lookup_partial_alter_eq. intros ->. split; [done|]. exists fk, rk. split; [done|]. naive_solver.
    + rewrite lookup_partial_alter_ne by done. apply H3.
Qed.

(** An event without keys changes nothing but a record of eviction. *)
Lemma rel_unknown r a id r' :
  rel r a → meta id = None → instancesMap r' = instancesMap r →
  evictingInstances r' = delete id (evictingInstances r) → rel r' (partial_alter (λ _, None) id a).
Proof.
  intros H Hmeta Hm He.
  assert (a !! id = None) as Ha.
  { destruct (a !! id) eqn:E; [|done]. destruct (rel_known _ _ H _ _ E) as (_ & ? & ? & ? & _). congruence. }
  assert (evictingInstances r !! id = None) as Hn.
  { destruct (evictingInstances r !! id) eqn:E; [|done]. apply (rel_evicting _ _ H) in E. congruence. }
  change (partial_alter (λ _, None) id a) with (delete id a). rewrite delete_id by done.
  eapply rel_frame; [done| |done]. by rewrite He, delete_id.
Qed.

Local Abbreviation update := (ProcessInstanceUpdate unmarshal_res unmarshal_instance unmarshal_code_path
                                unmarshal_metadata marshal_resources marshal_resources_spec).
Local Abbreviation delete_ev := (ProcessInstanceDelete unmarshal_res unmarshal_instance
                                   marshal_resources marshal_resources_spec).

(** The handlers by what the event names. *)
Lemma update_keys k v r fk rk :
  let id := GetInstanceIDFromEtcdKey k in
  id ≠ "" → keys_of k v = Some (fk, rk) →
  ∃ s r1, GetInsSpecFromEtcdValue unmarshal_instance v = Some s ∧
    rk = res_key (option_of (with_id id s) ResourceSpecNote) ∧
    instancesMap r1 = instancesMap r ∧ evictingInstances r1 = delete id (evictingInstances r) ∧
    update k v r =
      (if bool_decide (is_Code (Status s) = KernelInstanceStatusRunning)
       then RemoveRouteOnlyInstance id (add fk (with_id id s) r1)
       else if bool_decide (is_Code (Status s) = KernelInstanceStatusEvicting)
       then recordEvictingInstance (with_id id s) (del fk (with_id id s) r1)
       else del fk (with_id id s) r1).
Proof.
  intros id Hid Hk. unfold keys_of in Hk. destruct (GetInsSpecFromEtcdValue unmarshal_instance v) as [s|] eqn:Hs; [|done].
  destruct (negb _) eqn:E1; [done|]. destruct (IsFaaSManager _) eqn:E2; [done|].
  destruct (isFaaSScheduler k) eqn:E3; [done|]. cbn [orb] in Hk.
  case_bool_decide as E4; [done|]. injection Hk as <- <-.
  exists s, (ProcessAppInfoUpdate unmarshal_instance unmarshal_code_path unmarshal_metadata k v (removeEvictingInstance id r)).
  destruct (app_update_frame k v (removeEvictingInstance id r)) as [-> ->].
  destruct (remove_evicting_maps id r) as [-> ->]. rewrite bool_decide_false by done.
  split_and!; [done..|]. unfold ProcessInstanceUpdate. fold id. rewrite Hs.
  destruct (String.length id =? 0)%nat eqn:E0; [apply Nat.eqb_eq in E0; by destruct id|].
  rewrite E1, E2, E3. rewrite bool_decide_false by done. cbn [with_id Status].
  by destruct (bool_decide (is_Code (Status s) = KernelInstanceStatusRunning)).
Qed.

Lemma update_no_keys k v r :
  let id := GetInstanceIDFromEtcdKey k in
  id ≠ "" → keys_of k v = None →
  instancesMap (update k v r) = instancesMap r ∧ evictingInstances (update k v r) = delete id (evictingInstances r).
Proof.
  intros id Hid Hk. unfold keys_of in Hk. unfold ProcessInstanceUpdate. fold id.
  destruct (remove_evicting_maps id r) as [Hm He]. rewrite bool_decide_false in He by done.
  destruct (String.length id =? 0)%nat eqn:E0; [done|].
  destruct (GetInsSpecFromEtcdValue unmarshal_instance v) as [s|] eqn:Hs; [|done].
  set (r1 := ProcessAppInfoUpdate _ _ _ k v _).
  assert (instancesMap r1 = instancesMap r ∧ evictingInstances r1 = delete id (evictingInstances r)) as [<- <-].
  { destruct (app_update_frame k v (removeEvictingInstance id r)) as [H1 H2]. fold r1 in H1, H2. by rewrite H1, H2. }
  destruct (negb _); [done|]. destruct (IsFaaSManager _); [done|].
  destruct (isFaaSScheduler k).
  2:{ change (option_of (with_id id s) functionKeyNote) with (option_of s functionKeyNote).
      by destruct (bool_decide (option_of s functionKeyNote = "")). }
  destruct (sched_frame id (with_id id s) r1) as [[H1 H2] [H3 H4]].
  by destruct (bool_decide (is_Code _ = _)).
Qed.

Lemma delete_keys k v r fk rk :
  let id := GetInstanceIDFromEtcdKey k in
  id ≠ "" → keys_of k v = Some (fk, rk) →
  ∃ s r1, rk = res_key (option_of (with_id id s) ResourceSpecNote) ∧
    instancesMap r1 = instancesMap r ∧ evictingInstances r1 = delete id (evictingInstances r) ∧
    delete_ev k v r = del fk (with_id id s) r1.
Proof.
  intros id Hid Hk. unfold keys_of in Hk. destruct (GetInsSpecFromEtcdValue unmarshal_instance v) as [s|] eqn:Hs; [|done].
  destruct (negb _) eqn:E1; [done|]. destruct (IsFaaSManager _) eqn:E2; [done|].
  destruct (isFaaSScheduler k) eqn:E3; [done|]. cbn [orb] in Hk.
  case_bool_decide as E4; [done|]. injection Hk as <- <-.
  set (r0 := RemoveRouteOnlyInstance id r).
  exists s, (ProcessAppInfoDelete k (removeEvictingInstance id r0)).
  destruct (app_delete_frame k (removeEvictingInstance id r0)) as [-> ->].
  destruct (remove_evicting_maps id r0) as [-> ->]. rewrite bool_decide_false by done.
  destruct (route_frame id r) as [H1 H2]. fold r0 in H1, H2. rewrite H1, H2.
  split_and!; [done..|]. unfold ProcessInstanceDelete. fold id. fold r0. rewrite Hs.
  destruct (String.length id =? 0)%nat eqn:E0; [apply Nat.eqb_eq in E0; by destruct id|].
  rewrite E1, E2, E3. by rewrite bool_decide_false by done.
Qed.

Lemma delete_no_keys k v r :
  let id := GetInstanceIDFromEtcdKey k in
  id ≠ "" → keys_of k v = None →
  instancesMap (delete_ev k v r) = instancesMap r ∧
  evictingInstances (delete_ev k v r) = delete id (evictingInstances r).
Proof.
  intros id Hid Hk. unfold keys_of in Hk. unfold ProcessInstanceDelete. fold id.
  set (r0 := removeEvictingInstance id (RemoveRouteOnlyInstance id r)).
  assert (instancesMap r0 = instancesMap r ∧ evictingInstances r0 = delete id (evictingInstances r)) as [<- <-].
  { unfold r0. destruct (remove_evicting_maps id (RemoveRouteOnlyInstance id r)) as [-> ->].
    rewrite bool_decide_false by done. by destruct (route_frame id r) as [-> ->]. }
  destruct (String.length id =? 0)%nat eqn:E0; [done|].
  destruct (GetInsSpecFromEtcdValue unmarshal_instance v) as [s|] eqn:Hs; [|done].
  destruct (app_delete_frame k r0) as [H1 H2].
  destruct (negb _); [done|]. destruct (IsFaaSManager _); [done|].
  destruct (isFaaSScheduler k).
  2:{ change (option_of (with_id id s) functionKeyNote) with (option_of s functionKeyNote).
      by destruct (bool_decide (option_of s functionKeyNote = "")). }
  destruct (sched_frame id (with_id id s) (ProcessAppInfoDelete k r0)) as [_ [H3 H4]]. by rewrite H3, H4.
Qed.

Lemma queue_frame r r' fk rk : instancesMap r' = instancesMap r → queue_of r' fk rk = queue_of r fk rk.
Proof. unfold queue_of. by intros ->. Qed.

Lemma rel_update r a k v :
  let id := GetInstanceIDFromEtcdKey k in
  id ≠ "" → keys_of k v = meta id → rel r a →
  rel (update k v r) (partial_alter (λ _, status_of id k v) id a).
Proof.
  intros id Hid Hst Hr. unfold status_of. destruct (keys_of k v) as [[fk rk]|] eqn:Hk.
  2:{ destruct (update_no_keys k v r Hid Hk) as [Hm He]. by eapply rel_unknown. }
  destruct (update_keys k v r fk rk Hid Hk) as (s & r1 & -> & Hrk & Hm & He & ->). fold id in He, Hrk |- *.
  assert (∀ fk' rk', queue_of r1 fk' rk' = queue_of r fk' rk') as Hq by (intros; by apply queue_frame).
  destruct (bool_decide (is_Code _ = KernelInstanceStatusRunning)).
  - eapply (rel_set _ _ _ _ fk rk); [done..| | |].
    + intros s'. by destruct rk.
    + intros fk' rk'. rewrite (queue_frame _ _ _ _ (proj1 (route_frame id _))), add_queue, !Hq, <- Hrk.
      destruct (bool_decide (fk' = fk)); [|done]. case_bool_decide as Hb; [|done]. by rewrite Hb.
    + rewrite (proj2 (route_frame id _)), (proj1 (add_frame _ _ _)), He. by destruct rk.
  - destruct (bool_decide (is_Code _ = KernelInstanceStatusEvicting)).
    + destruct (record_evicting_maps (with_id id s) (del fk (with_id id s) r1) Hid) as [Hm' He'].
      eapply (rel_set _ _ _ _ fk rk); [done..| | |].
      * by intros.
      * intros fk' rk'. rewrite (queue_frame _ _ _ _ Hm'). by rewrite del_queue, !Hq, <- Hrk.
      * rewrite He', (proj1 (del_frame _ _ _)), He. cbn [with_id InstanceID]. by rewrite insert_delete_eq.
    + eapply (rel_set _ _ _ _ fk rk); [done..| | |].
      * by intros.
      * intros fk' rk'. by rewrite del_queue, !Hq, <- Hrk.
      * by rewrite (proj1 (del_frame _ _ _)), He.
Qed.

Lemma rel_delete r a k v :
  let id := GetInstanceIDFromEtcdKey k in
  id ≠ "" → keys_of k v = meta id → rel r a → rel (delete_ev k v r) (delete id a).
Proof.
  intros id Hid Hst Hr. destruct (keys_of k v) as [[fk rk]|] eqn:Hk.
  2:{ destruct (delete_no_keys k v r Hid Hk) as [Hm He]. by eapply (rel_unknown _ _ id). }
  destruct (delete_keys k v r fk rk Hid Hk) as (s & r1 & Hrk & Hm & He & ->). fold id in He, Hrk |- *.
  eapply (rel_set _ _ _ None fk rk); [done..| | |].
  - by intros.
  - intros fk' rk'. by rewrite del_queue, <- Hrk, (queue_frame _ _ _ _ Hm).
  - by rewrite (proj1 (del_frame _ _ _)), He.
Qed.

Lemma short_key k : (length (Split k "/") =? 14)%nat = false → GetInstanceIDFromEtcdKey k = "".
Proof. unfold GetInstanceIDFromEtcdKey. by intros ->. Qed.

Lemma rel_apply r a o : stable_event meta o → rel r a → rel (apply r o) (abs_op a o).
Proof.
  intros Hst Hr. destruct o as [ev| | | |].
  2-5: by eapply rel_frame; [apply outside_frame|apply outside_frame|].
  cbn [apply abs_op InstanceRegistry.apply]. unfold abs_event.
  destruct ev as [k v|k v| |k]; cbn [event_key stable_event InstanceRegistry.watch instanceInfoHandler] in *.
  - unfold instanceInfoFilter. cbn [event_key]. destruct (length _ =? 14)%nat eqn:El; cbn [negb].
    2: by rewrite short_key, bool_decide_true.
    case_bool_decide as Hid; [|by apply rel_update; auto]. unfold ProcessInstanceUpdate. rewrite Hid. cbn.
    eapply rel_frame; [| |exact Hr]; done.
  - unfold instanceInfoFilter. cbn [event_key]. destruct (length _ =? 14)%nat eqn:El; cbn [negb].
    2: by rewrite short_key, bool_decide_true.
    case_bool_decide as Hid; [|by apply rel_delete; auto]. unfold ProcessInstanceDelete. rewrite Hid. cbn.
    eapply rel_frame; [| |exact Hr]; done.
  - by eapply rel_frame; [| |exact Hr].
  - destruct (bool_decide _); by destruct (instanceInfoFilter _).
Qed.

Lemma rel_run ops : Forall (stable_event meta) ops → rel (run ops) (statuses ops).
Proof.
  unfold statuses. intros H. assert (rel empty_registry ∅) as H0.
  { split; intros *; [|by rewrite !lookup_empty|by rewrite lookup_empty].
    unfold queue_of. cbn. rewrite !lookup_empty. cbn. rewrite ?lookup_empty. naive_solver. }
  unfold InstanceRegistry.run. revert H0. generalize empty_registry (∅ : gmap string status).
  induction H as [|o ops Ho _ IH]; intros r a Hr; [done|]. cbn. by apply IH, rel_apply.
Qed.

(** ** No empty maps are left behind *)

Definition neat (r : registry) : Prop :=
  ∀ fk f, instancesMap r !! fk = Some f → f ≠ ∅ ∧ ∀ rk q, f !! rk = Some q → q ≠ ∅.

Lemma neat_frame r r' : instancesMap r' = instancesMap r → neat r → neat r'.
Proof. unfold neat. by intros ->. Qed.

Lemma neat_add fk i r : is_Some (res_key (option_of i ResourceSpecNote)) → neat r → neat (add fk i r).
Proof.
  intros Hk Hn fk' f'. unfold addInstance, addInstance_store, fm_addInstance.
  destruct (GetResKeyFromStr _ _ _ _) as [k|]; [clear Hk|by destruct Hk].
  cbn [then_notify fst snd notifyInstanceUpdate set_map instancesMap].
  destruct (decide (fk' = fk)) as [->|Hne]; [|rewrite lookup_insert_ne by done; apply Hn].
  rewrite lookup_insert_eq. intros [= <-]. split; [by apply insert_non_empty|]. intros rk q.
  destruct (decide (rk = ResSpecKey_String k)) as [->|Hne].
  - rewrite lookup_insert_eq. intros [= <-]. by apply insert_non_empty.
  - rewrite lookup_insert_ne by done. destruct (instancesMap r !! fk) as [f|] eqn:Hf; cbn; [|by rewrite lookup_empty].
    intros Hq. by eapply Hn.
Qed.

Lemma fm_del_neat i f rk q :
  (∀ rk q, f !! rk = Some q → q ≠ ∅) →
  (fm_delInstance unmarshal_res marshal_resources marshal_resources_spec i f).1 !! rk = Some q → q ≠ ∅.
Proof.
  intros Hf. unfold fm_delInstance. repeat case_match; cbn [fst]; try apply Hf.
  - destruct (decide (rk = ResSpecKey_String r)) as [->|Hne]; [by rewrite lookup_delete_eq|].
    rewrite lookup_delete_ne by done. apply Hf.
  - destruct (decide (rk = ResSpecKey_String r)) as [->|Hne].
    + rewrite lookup_insert_eq. intros [= <-] ->. by rewrite map_size_empty in *.
    + rewrite lookup_insert_ne by done. apply Hf.
Qed.

Lemma neat_del fk i r : neat r → neat (del fk i r).
Proof.
  intros Hn. unfold delInstance, delInstance_store. destruct (instancesMap r !! fk) as [f|] eqn:Hf; [|done].
  destruct (Hn _ _ Hf) as [_ Hq]. pose proof (λ rk q, fm_del_neat i f rk q Hq) as Hd.
  destruct (fm_delInstance _ _ _ i f) as [f' n]. cbn [fst] in Hd.
  unfold drop_empty. cbn [then_notify fst snd notifyInstanceUpdate set_map instancesMap]. rewrite lookup_insert_eq.
  destruct (size f' =? 0)%nat eqn:Es; intros fk' g; cbn [set_map instancesMap notices notifyInstanceUpdate];
    (destruct (decide (fk' = fk)) as [->|Hne]).
  - by rewrite lookup_delete_eq.
  - rewrite lookup_delete_ne, lookup_insert_ne by congruence. apply Hn.
  - rewrite lookup_insert_eq. intros [= <-]. split; [|exact Hd]. intros ->. by rewrite map_size_empty in Es.
  - rewrite lookup_insert_ne by congruence. apply Hn.
Qed.

Lemma neat_apply r o :
  (∀ id fk, meta id ≠ Some (fk, None)) → stable_event meta o → neat r → neat (apply r o).
Proof.
  intros Hp Hst Hn. destruct o as [ev| | | |]; [|by eapply neat_frame; [apply outside_frame|]..].
  cbn [InstanceRegistry.apply]. destruct ev as [k v|k v| |k]; cbn [InstanceRegistry.watch instanceInfoHandler stable_event] in *.
  - destruct (instanceInfoFilter _); [done|]. destruct (decide (GetInstanceIDFromEtcdKey k = "")) as [Hid|Hid].
    { unfold ProcessInstanceUpdate. rewrite Hid. exact Hn. }
    specialize (Hst Hid). destruct (keys_of k v) as [[fk rk]|] eqn:Hk.
    2: by eapply neat_frame; [exact (proj1 (update_no_keys k v r Hid Hk))|].
    destruct (update_keys k v r fk rk Hid Hk) as (s & r1 & _ & Hrk & Hm & _ & ->).
    apply (neat_frame r r1) in Hn; [|done]. destruct rk as [rk|]; [|by destruct (Hp _ _ (eq_sym Hst))].
    destruct (bool_decide _); [|destruct (bool_decide _)].
    + eapply neat_frame; [apply route_frame|]. apply neat_add; [by rewrite <- Hrk|done].
    + eapply neat_frame; [by apply record_evicting_maps|]. by apply neat_del.
    + by apply neat_del.
  - destruct (instanceInfoFilter _); [done|]. destruct (decide (GetInstanceIDFromEtcdKey k = "")) as [Hid|Hid].
    { unfold ProcessInstanceDelete. rewrite Hid. exact Hn. }
    destruct (keys_of k v) as [[fk rk]|] eqn:Hk.
    2: by eapply neat_frame; [exact (proj1 (delete_no_keys k v r Hid Hk))|].
    destruct (delete_keys k v r fk rk Hid Hk) as (s & r1 & _ & Hm & _ & ->).
    apply neat_del. by eapply neat_frame.
  - exact Hn.
  - by destruct (instanceInfoFilter _).
Qed.

Lemma neat_run ops :
  (∀ id fk, meta id ≠ Some (fk, None)) → Forall (stable_event meta) ops → neat (run ops).
Proof.
  intros Hp H. unfold InstanceRegistry.run. apply foldl_inv.
  - intros r o Ho. apply neat_apply; [done|]. by rewrite Forall_forall in H; apply H.
  - intros fk f. cbn. by rewrite lookup_empty.
Qed.

(** Lookups by ID read the status, then the hints. *)
Lemma lookup_by_status r a id : rel r a →
  map_lookup order r id = match a !! id with Some (Running s) => Some s | _ => None end.
Proof.
  intros Hr. destruct (map_lookup order r id) as [s|] eqn:E.
  - apply map_lookup_Some in E as (fk & rk & H). rewrite GetInstance_queue in H.
    apply (rel_running _ _ Hr) in H as [-> _]. done.
  - destruct (a !! id) as [[s|s]|] eqn:Ha; [|done..].
    destruct (rel_known _ _ Hr _ _ Ha) as (_ & fk & rk & Hm & Hk). destruct (Hk s eq_refl) as [k ->].
    assert (queue_of r fk k !! id = Some s) as Hq by by apply (rel_running _ _ Hr).
    rewrite <- GetInstance_queue in Hq. by rewrite (map_lookup_None _ _ fk k E) in Hq.
Qed.

End stable.

(** C5. The registry mirrors etcd: after any sequence of events and of operations
    on hints in which every instance keeps its function and its resources, an
    instance is in the queue of its function and resource key exactly when its
    last event says Running; a lookup by ID finds the running instance, else
    its hint, and only with the flag of forced invocations the owner route of
    an instance whose last event says Evicting; and, when the resources of
    every instance can be read, no function is left without instances. *)
Theorem instances_mirror_etcd meta ops :
  Forall (stable_event meta) ops →
  let r := run ops in
  let a := statuses ops in
  (∀ fk rk id s, GetInstance r fk rk id = Some s ↔
     a !! id = Some (Running s) ∧ meta id = Some (fk, Some rk)) ∧
  (∀ id includeEvicting, id ≠ "" →
     getInstanceByID order r id includeEvicting =
       match a !! id, routeOnlyInstances r !! id with
       | Some (Running s), _ => Some s
       | _, Some e => Some (ro_instance e)
       | Some (Evicting s), None => if includeEvicting then Some s else None
       | None, None => None
       end) ∧
  ((∀ id fk, meta id ≠ Some (fk, None)) →
     ∀ fk f, instancesMap r !! fk = Some f → ∃ rk id s, GetInstance r fk rk id = Some s).
Proof.
  intros Hst r a. pose proof (rel_run _ _ Hst) as Hr. fold r a in Hr. split_and!.
  - intros fk rk id s. rewrite GetInstance_queue. by apply rel_running.
  - intros id fl Hid. unfold getInstanceByID, GetInstanceByIDAcrossFunctions, GetEvictingInstanceByID.
    rewrite bool_decide_false by done. rewrite (lookup_by_status _ _ _ _ Hr).
    destruct (evictingInstances r !! id) as [s|] eqn:He.
    + apply (rel_evicting _ _ _ Hr) in He. rewrite He. by destruct (routeOnlyInstances r !! id).
    + destruct (a !! id) as [[s|s]|] eqn:Ha; cbn; [done| |by destruct (routeOnlyInstances r !! id), fl].
      apply (rel_evicting _ _ _ Hr) in Ha. congruence.
  - intros Hp fk f Hf. destruct (neat_run _ _ Hp Hst _ _ Hf) as [Hne Hq].
    apply map_choose in Hne as (rk & q & Hrk). apply Hq in Hrk as Hqe. apply map_choose in Hqe as (id & s & Hs).
    exists rk, id, s. unfold GetInstance, fm_getInstance. fold r in Hf. rewrite Hf. cbn. by rewrite Hrk.
Qed.

(** ** Route hints *)

Definition hint_part (r : registry) := (routeOnlyInstances r, timers r, next_entry r).

Lemma hints_add fk i r : hint_part (add fk i r) = hint_part r.
Proof. unfold addInstance, addInstance_store. by destruct (fm_addInstance _ _ _ _ _). Qed.
Lemma hints_drop fk r : hint_part (drop_empty fk r) = hint_part r.
Proof. unfold drop_empty. repeat case_match; done. Qed.
Lemma hints_del fk i r : hint_part (del fk i r) = hint_part r.
Proof.
  unfold delInstance. case_match; [|done]. rewrite hints_drop. unfold delInstance_store. repeat case_match; done.
Qed.
Lemma hints_app_update k v r :
  hint_part (ProcessAppInfoUpdate unmarshal_instance unmarshal_code_path unmarshal_metadata k v r) = hint_part r.
Proof. unfold ProcessAppInfoUpdate, StoreAppInfo. repeat case_match; done. Qed.
Lemma hints_app_delete k r : hint_part (ProcessAppInfoDelete k r) = hint_part r.
Proof. unfold ProcessAppInfoDelete. by case_match. Qed.
Lemma hints_sched_add id i r : hint_part (sched_addInstance id i r) = hint_part r.
Proof. unfold sched_addInstance. by case_match. Qed.
Lemma hints_sched_del id r : hint_part (sched_delInstance id r) = hint_part r.
Proof. unfold sched_delInstance. by case_match. Qed.
Lemma hints_evict_remove id r : hint_part (removeEvictingInstance id r) = hint_part r.
Proof. unfold removeEvictingInstance, removeEvicting_store. repeat case_match; done. Qed.
Lemma hints_evict_record i r : hint_part (recordEvictingInstance i r) = hint_part r.
Proof. unfold recordEvictingInstance, recordEvicting_store. by case_match. Qed.

Create Rewrite HintDb hint_part.
#[local] Hint Rewrite hints_add hints_del hints_app_update hints_app_delete hints_sched_add hints_sched_del
  hints_evict_remove hints_evict_record : hint_part.

Lemma remove_route_hints id r r' :
  hint_part r' = hint_part r → hint_part (RemoveRouteOnlyInstance id r') = hint_part (RemoveRouteOnlyInstance id r).
Proof.
  unfold RemoveRouteOnlyInstance, hint_part. intros [= H1 H2 H3]. rewrite H1, H2.
  repeat case_match; cbn; congruence.
Qed.

(** An event leaves the hints alone or removes the hint of its instance. *)
Lemma watch_hints ev r :
  hint_part (watch r ev) = hint_part r ∨ ∃ id, hint_part (watch r ev) = hint_part (RemoveRouteOnlyInstance id r).
Proof.
  destruct ev as [k v|k v| |k]; cbn [InstanceRegistry.watch instanceInfoHandler].
  - destruct (instanceInfoFilter _); [by left|]. unfold ProcessInstanceUpdate.
    repeat case_match; autorewrite with hint_part; eauto.
    right. eexists. apply remove_route_hints. by autorewrite with hint_part.
  - destruct (instanceInfoFilter _); [by left|]. right. exists (GetInstanceIDFromEtcdKey k).
    unfold ProcessInstanceDelete. repeat case_match; by autorewrite with hint_part.
  - by left.
  - left. by destruct (instanceInfoFilter _).
Qed.

Definition hints_ok (h : gmap string routeOnlyInstance * gmap nat timer * nat) : Prop :=
  (∀ id e, h.1.1 !! id = Some e → ∃ t, h.1.2 !! ro_addr e = Some t ∧ t_instance t = id) ∧
  (∀ a t, h.1.2 !! a = Some t → (a < h.2)%nat).

Lemma stop_timer_lookup a ts a' :
  a' ≠ a → stop_timer a ts !! a' = ts !! a'.
Proof. intros. unfold stop_timer. repeat case_match; [done|by rewrite lookup_delete_ne|done]. Qed.

Lemma stop_timer_sub a ts a' t : stop_timer a ts !! a' = Some t → ts !! a' = Some t.
Proof. unfold stop_timer. repeat case_match; [done| |done]. by intros [_ ?]%lookup_delete_Some. Qed.

(** Hints of different instances have different timers. *)
Lemma hints_distinct h id id' e e' :
  hints_ok h → h.1.1 !! id = Some e → h.1.1 !! id' = Some e' → id' ≠ id → ro_addr e' ≠ ro_addr e.
Proof.
  intros [H _] He He' Hne E. destruct (H _ _ He) as (t & Ht & <-), (H _ _ He') as (t' & Ht' & <-). congruence.
Qed.

Lemma hints_remove id r : hints_ok (hint_part r) → hints_ok (hint_part (RemoveRouteOnlyInstance id r)).
Proof.
  intros Hok. unfold RemoveRouteOnlyInstance. case_bool_decide; [done|].
  destruct (routeOnlyInstances r !! id) as [e|] eqn:He; [|done]. split.
  - intros id' e'. cbn. intros [Hne He']%lookup_delete_Some.
    rewrite stop_timer_lookup; [by apply Hok|]. by eapply (hints_distinct (hint_part r)).
  - intros a t. cbn. intros ?%stop_timer_sub. by apply (proj2 Hok) in H0.
Qed.

Lemma hints_record now ttl fk id p r :
  hints_ok (hint_part r) → hints_ok (hint_part (recordRouteOnlyInstanceWithTTL now ttl fk id p r)).
Proof.
  intros Hok. unfold recordRouteOnlyInstanceWithTTL. destruct (_ || _); [done|].
  assert (∀ id e, routeOnlyInstances r !! id = Some e → (ro_addr e < next_entry r)%nat) as Hlt.
  { intros id' e He. destruct (proj1 Hok _ _ He) as (t & Ht & _). by apply (proj2 Hok) in Ht. }
  split.
  - intros id' e'. cbn. destruct (decide (id' = id)) as [->|Hne].
    + rewrite lookup_insert_eq. intros [= <-]. cbn. exists (MkTimer id (now + ttl) false). split; [|done].
      destruct (routeOnlyInstances r !! id) as [e|] eqn:He; [|by rewrite lookup_insert_eq].
      apply Hlt in He. rewrite stop_timer_lookup by lia. by rewrite lookup_insert_eq.
    + rewrite lookup_insert_ne by done. intros He'. destruct (proj1 Hok _ _ He') as (t & Ht & Hi). exists t. split; [|done].
      apply Hlt in He' as Hl. destruct (routeOnlyInstances r !! id) as [e|] eqn:He.
      * rewrite stop_timer_lookup by (by eapply (hints_distinct (hint_part r))). by rewrite lookup_insert_ne by lia.
      * by rewrite lookup_insert_ne by lia.
  - intros a t Ha. cbn in *.
    assert (<[next_entry r:=MkTimer id (now + ttl) false]> (timers r) !! a = Some t) as Ha'.
    { destruct (routeOnlyInstances r !! id); [by apply stop_timer_sub in Ha|done]. }
    apply lookup_insert_Some in Ha' as [[-> _]|[_ Ha']]; [lia|]. apply (proj2 Hok) in Ha'. cbn in Ha'. lia.
Qed.

Lemma hints_timer_fires now a r : hints_ok (hint_part r) → hints_ok (hint_part (timer_fires now a r)).
Proof.
  intros Hok. unfold timer_fires. destruct (timers r !! a) as [t|] eqn:Ht; [|done].
  destruct (t_deadline t <=? now)%Z; [|done]. split.
  - intros id e He. destruct (proj1 Hok _ _ He) as (t' & Ht' & Hi). cbn in *.
    destruct (decide (ro_addr e = a)) as [<-|Hne].
    + rewrite lookup_insert_eq. eexists. split; [done|]. cbn. congruence.
    + rewrite lookup_insert_ne by done. eauto.
  - intros a' t'. cbn. intros [[<- _]|[_ H]]%lookup_insert_Some; by eapply (proj2 Hok).
Qed.

Lemma hints_timer_runs a r : hints_ok (hint_part r) → hints_ok (hint_part (timer_runs a r)).
Proof.
  intros Hok. unfold timer_runs. destruct (timers r !! a) as [t|] eqn:Ht; [|done].
  destruct (t_fired t); [|done]. split.
  - intros id e He. cbn in *.
    assert (routeOnlyInstances r !! id = Some e ∧ ro_addr e ≠ a) as [He' Hne].
    { destruct (routeOnlyInstances r !! t_instance t) as [e0|] eqn:E0.
      - destruct (ro_addr e0 =? a)%nat eqn:Ea.
        + apply lookup_delete_Some in He as [Hid He]. apply Nat.eqb_eq in Ea as <-. split; [done|].
          by eapply (hints_distinct (hint_part r)).
        + apply Nat.eqb_neq in Ea. split; [done|]. intros Ha. destruct (proj1 Hok _ _ He) as (t' & Ht' & Hi).
          cbn in Ht'. rewrite Ha, Ht in Ht'. injection Ht' as <-. subst id. congruence.
      - split; [done|]. intros Ha. destruct (proj1 Hok _ _ He) as (t' & Ht' & Hi). cbn in Ht'.
        rewrite Ha, Ht in Ht'. injection Ht' as <-. subst id. congruence. }
    destruct (proj1 Hok _ _ He') as (t' & Ht' & Hi). exists t'. cbn in Ht'. by rewrite lookup_delete_ne.
  - intros a' t'. cbn. intros [_ H]%lookup_delete_Some. by eapply (proj2 Hok).
Qed.

Lemma hints_run ops : hints_ok (hint_part (run ops)).
Proof.
  unfold InstanceRegistry.run. apply foldl_inv.
  - intros r o _ H. destruct o as [ev| | | |]; cbn [InstanceRegistry.apply].
    + destruct (watch_hints ev r) as [->|[id ->]]; [done|by apply hints_remove].
    + by apply hints_record.
    + by apply hints_remove.
    + by apply hints_timer_fires.
    + by apply hints_timer_runs.
  - split; intros *; cbn; by rewrite lookup_empty.
Qed.

(** The lifetime of a hint: a stored hint has a timer of its own; once the
    timer is due and has run, the hint is gone, while the timer of any other
    hint leaves it in place. In particular a hint that is recorded again lives
    on for its own lifetime. *)
Theorem hint_lifetime ops id e :
  routeOnlyInstances (run ops) !! id = Some e →
  ∃ t, timers (run ops) !! ro_addr e = Some t ∧ t_instance t = id ∧
    (∀ now, (t_deadline t ≤ now)%Z →
       routeOnlyInstances (run (ops ++ [TimerFires now (ro_addr e); TimerRuns (ro_addr e)])%list) !! id = None) ∧
    (∀ addr, addr ≠ ro_addr e → routeOnlyInstances (run (ops ++ [TimerRuns addr])%list) !! id = Some e).
Proof.
  intros He. destruct (proj1 (hints_run ops) _ _ He) as (t & Ht & Hi). cbn in Ht. exists t.
  split_and!; [done..| |].
  - intros now Hnow. unfold InstanceRegistry.run in *. rewrite foldl_app. cbn. unfold timer_fires. rewrite Ht.
    apply Z.leb_le in Hnow as ->. unfold timer_runs. cbn. rewrite lookup_insert_eq. cbn. rewrite Hi, He.
    by rewrite Nat.eqb_refl, lookup_delete_eq.
  - intros a Ha. unfold InstanceRegistry.run in *. rewrite foldl_app. cbn. unfold timer_runs.
    destruct (timers _ !! a) as [t'|] eqn:Ht'; [|done]. destruct (t_fired t'); [|done]. cbn.
    destruct (routeOnlyInstances _ !! t_instance t') as [e'|] eqn:He'; [|done].
    destruct (ro_addr e' =? a)%nat eqn:Ea; [|done]. apply Nat.eqb_eq in Ea as <-.
    rewrite lookup_delete_ne; [done|]. intros E. rewrite E in He'. congruence.
Qed.

(** ** The alarm of the schedulers *)

Definition sched_part (r : registry) := (schedulers r, synced r, alarms r).

Lemma sched_part_route id r : sched_part (RemoveRouteOnlyInstance id r) = sched_part r.
Proof. unfold RemoveRouteOnlyInstance. repeat case_match; done. Qed.
Lemma sched_part_add fk i r : sched_part (add fk i r) = sched_part r.
Proof. unfold addInstance, addInstance_store. by destruct (fm_addInstance _ _ _ _ _). Qed.
Lemma sched_part_drop fk r : sched_part (drop_empty fk r) = sched_part r.
Proof. unfold drop_empty. repeat case_match; done. Qed.
Lemma sched_part_del fk i r : sched_part (del fk i r) = sched_part r.
Proof.
  unfold delInstance. case_match; [|done]. rewrite sched_part_drop. unfold delInstance_store. repeat case_match; done.
Qed.
Lemma sched_part_app_update k v r :
  sched_part (ProcessAppInfoUpdate unmarshal_instance unmarshal_code_path unmarshal_metadata k v r) = sched_part r.
Proof. unfold ProcessAppInfoUpdate, StoreAppInfo. repeat case_match; done. Qed.
Lemma sched_part_app_delete k r : sched_part (ProcessAppInfoDelete k r) = sched_part r.
Proof. unfold ProcessAppInfoDelete. by case_match. Qed.
Lemma sched_part_evict_remove id r : sched_part (removeEvictingInstance id r) = sched_part r.
Proof. unfold removeEvictingInstance, removeEvicting_store. repeat case_match; done. Qed.
Lemma sched_part_evict_record i r : sched_part (recordEvictingInstance i r) = sched_part r.
Proof. unfold recordEvictingInstance, recordEvicting_store. by case_match. Qed.

Create Rewrite HintDb sched_part.
#[local] Hint Rewrite sched_part_route sched_part_add sched_part_del sched_part_app_update sched_part_app_delete
  sched_part_evict_remove sched_part_evict_record : sched_part.

(** After synchronisation: the alarm is up exactly while there is no scheduler. *)
Definition alarm_ok (p : gmap string InstanceSpecification * bool * list bool) : Prop :=
  p.1.2 = true ∧ match p.2 with b :: _ => b | [] => false end = (size p.1.1 =? 0)%nat.

Lemma alarm_sched_add id i r : alarm_ok (sched_part r) → alarm_ok (sched_part (sched_addInstance id i r)).
Proof.
  intros [Hs Ha]. cbn in Hs, Ha. unfold sched_addInstance. destruct (schedulers r !! id) eqn:E; [done|].
  split; [done|]. cbn [sched_part set_schedulers schedulers synced alarms fst snd].
  rewrite Hs, map_size_insert_None, andb_true_r by done. destruct (size (schedulers r)); cbn in *; [done|exact Ha].
Qed.

Lemma alarm_sched_del id r : alarm_ok (sched_part r) → alarm_ok (sched_part (sched_delInstance id r)).
Proof.
  intros [Hs Ha]. cbn in Hs, Ha. unfold sched_delInstance. destruct (schedulers r !! id) as [i|] eqn:E; [|done].
  split; [done|]. cbn [sched_part set_schedulers schedulers synced alarms fst snd].
  destruct (size (delete id (schedulers r)) =? 0)%nat eqn:Ez; [done|]. rewrite Ha.
  apply Nat.eqb_neq. intros H0%map_size_empty_iff. by rewrite H0, lookup_empty in E.
Qed.

Lemma alarm_sync r : alarm_up r = false ∨ alarm_ok (sched_part r) → alarm_ok (sched_part (sched_sync r)).
Proof.
  intros H. unfold sched_sync. split; [done|]. cbn [sched_part set_schedulers schedulers synced alarms fst snd].
  destruct (size (schedulers r) =? 0)%nat eqn:E; [done|]. destruct H as [H|[_ H]]; [exact H|]. cbn in H. by rewrite H.
Qed.

Lemma alarm_apply r o : alarm_ok (sched_part r) → alarm_ok (sched_part (apply r o)).
Proof.
  intros H. destruct o as [ev| | | |]; cbn [InstanceRegistry.apply].
  - destruct ev as [k v|k v| |k]; cbn [InstanceRegistry.watch instanceInfoHandler].
    + destruct (instanceInfoFilter _); [done|]. unfold ProcessInstanceUpdate.
      repeat case_match; autorewrite with sched_part; try done;
        [apply alarm_sched_add|apply alarm_sched_del]; by autorewrite with sched_part.
    + destruct (instanceInfoFilter _); [done|]. unfold ProcessInstanceDelete.
      repeat case_match; autorewrite with sched_part; try done; apply alarm_sched_del; by autorewrite with sched_part.
    + apply alarm_sync. by right.
    + by destruct (instanceInfoFilter _).
  - unfold RecordRouteOnlyInstance, recordRouteOnlyInstanceWithTTL. by case_match.
  - by autorewrite with sched_part.
  - unfold timer_fires. repeat case_match; done.
  - unfold timer_runs. repeat case_match; done.
Qed.

(** The alarm "no available scheduler" follows the schedulers: when it is not
    up at the time of the synchronisation, then from there on it is up exactly
    while no scheduler instance is registered. *)
Theorem scheduler_alarm_tracks before after :
  alarm_up (run before) = false →
  let r := run (before ++ Watch SYNCED :: after)%list in
  alarm_up r = (size (schedulers r) =? 0)%nat.
Proof.
  intros H r. assert (alarm_ok (sched_part r)) as [_ Ha]; [|exact Ha].
  unfold r, InstanceRegistry.run in *. rewrite foldl_app. cbn [foldl]. apply foldl_inv.
  - intros r0 o _. apply alarm_apply.
  - apply alarm_sync. by left.
Qed.

End facts.

(** ** Concrete histories *)

Definition demo_res (note : string) : option ResourceSpecification :=
  if bool_decide (note = "small") then Some (MkResSpec 500 256 "" ∅ ∅ 0)
  else if bool_decide (note = "large") then Some (MkResSpec 2000 1024 "" ∅ ∅ 0)
  else None.

Definition demo_spec (code : Z) (note : string) : InstanceSpecification :=
  MkInstance "" "tenant/0-svc-hello/latest" "node-1" "10.0.0.1:80"
    (<[functionKeyNote := "tenant/0@svc@hello/latest"]> (<[ResourceSpecNote := note]> ∅))
    (MkInstanceStatus code 0 "" 0) (MkExtensions "" "" "").

Definition demo_instance (v : string) : option InstanceSpecification :=
  if bool_decide (v = "running") then Some (demo_spec 3 "small")
  else if bool_decide (v = "running large") then Some (demo_spec 3 "large")
  else if bool_decide (v = "running unreadable") then Some (demo_spec 3 "?")
  else if bool_decide (v = "evicting") then Some (demo_spec 9 "small")
  else None.

Definition demo_key : string :=
  "/sn/instance/business/yrk/tenant/0/function/hello/version/latest/defaultaz/job/ins-1".
Definition demo_fk : string := "tenant/0@svc@hello/latest".
Definition demo_rk : string := "cpu-500-mem-256-storage-0-cstRes--cstResSpec--invokeLabel-".

Local Abbreviation demo_run :=
  (run demo_res demo_instance (λ _, None) (λ _, None) (λ _, "") (λ _, "")).
Local Abbreviation demo_lookup r := (getInstanceByID (λ l, l) r "ins-1").

Definition demo_meta (id : string) : option (string * option string) :=
  if bool_decide (id = "ins-1") then Some (demo_fk, Some demo_rk) else None.

Definition demo_ops : list op :=
  [Watch (PUT demo_key "running"); Record_ 0 demo_fk "ins-2" "node-2"; Watch (PUT demo_key "evicting");
   Watch (DELETE demo_key "evicting"); Watch (PUT demo_key "running")].

Lemma demo_stable : Forall (stable_event demo_res demo_instance (λ _, "") (λ _, "") demo_meta) demo_ops.
Proof. repeat constructor; intros _; vm_compute; reflexivity. Qed.

Example instances_mirror_etcd_witness :
  Forall (stable_event demo_res demo_instance (λ _, "") (λ _, "") demo_meta) demo_ops ∧
  GetInstance (demo_run demo_ops) demo_fk demo_rk "ins-1" = Some (with_id "ins-1" (demo_spec 3 "small")).
Proof.
  split; [exact demo_stable|].
  destruct (instances_mirror_etcd demo_res demo_instance (λ _, None) (λ _, None) (λ _, "") (λ _, "")
              (λ l, l) (λ l, reflexivity l) demo_meta demo_ops demo_stable) as (H & _ & _).
  apply H. split; vm_compute; reflexivity.
Defined.

Example hint_lifetime_witness :
  ∃ t, timers (demo_run [Record_ 0 demo_fk "ins-2" "node-2"]) !! 0%nat = Some t ∧ t_instance t = "ins-2".
Proof.
  destruct (hint_lifetime demo_res demo_instance (λ _, None) (λ _, None) (λ _, "") (λ _, "")
              [Record_ 0 demo_fk "ins-2" "node-2"] "ins-2" _ eq_refl) as (t & Ht & Hi & _).
  exists t. split; [exact Ht|exact Hi].
Defined.

(** A hint that is recorded after the Running event keeps an instance in
    graceful eviction reachable for ordinary calls. *)
Theorem evicting_reachable_by_hint :
  demo_lookup (demo_run [Watch (PUT demo_key "running"); Record_ 0 demo_fk "ins-1" "node-1";
                         Watch (PUT demo_key "evicting")]) false ≠ None.
Proof. vm_compute. discriminate. Qed.

(** A running instance whose resource note cannot be read is not stored, and
    its hint is removed all the same. *)
Theorem unreadable_note_unreachable :
  let r := demo_run [Record_ 0 demo_fk "ins-1" "node-1"] in
  demo_lookup r false ≠ None ∧
  demo_lookup (demo_run [Record_ 0 demo_fk "ins-1" "node-1"; Watch (PUT demo_key "running unreadable")]) true = None.
Proof. vm_compute. split; [discriminate|reflexivity]. Qed.

(** A deletion whose previous value is missing does not remove the instance. *)
Theorem deletion_without_value_ignored :
  demo_lookup (demo_run [Watch (PUT demo_key "running"); Watch (DELETE demo_key "")]) false ≠ None.
Proof. vm_compute. discriminate. Qed.

(** An instance whose resources change stays in the queue of the old ones,
    even after it is deleted. *)
Theorem changed_resources_leave_entry :
  GetInstance (demo_run [Watch (PUT demo_key "running"); Watch (PUT demo_key "running large");
                         Watch (DELETE demo_key "running large")]) demo_fk demo_rk "ins-1" ≠ None.
Proof. vm_compute. discriminate. Qed.

Definition demo_scheduler_key : string :=
  "/sn/instance/business/yrk/tenant/0/function/0-system-faasscheduler/version/latest/defaultaz/job/sched-1".

Example scheduler_alarm_tracks_witness :
  alarm_up (demo_run [Watch SYNCED; Watch (PUT demo_scheduler_key "running")]) = false.
Proof.
  exact (scheduler_alarm_tracks demo_res demo_instance (λ _, None) (λ _, None) (λ _, "") (λ _, "")
           [] [Watch (PUT demo_scheduler_key "running")] eq_refl).
Defined.

(** A scheduler that goes away before the synchronisation raises the alarm,
    and one that comes back before it does not clear it. *)
Theorem early_alarm_sticks :
  let r := demo_run [Watch (PUT demo_scheduler_key "running"); Watch (DELETE demo_scheduler_key "running");
                     Watch (PUT demo_scheduler_key "running"); Watch SYNCED] in
  alarm_up r = true ∧ sched_IsExist "sched-1" r = true.
Proof. vm_compute. split; reflexivity. Qed.
