(* ===== verification/InstanceWaitFacts.v ===== *)
(** * No caller that waits for an instance is left behind *)

From S2P Require Import Prelude GoStrings Json InstanceRegistry InstanceWait InstanceFacts.
Open Scope string_scope.

Section facts.
  Context (unmarshal_res : string → option ResourceSpecification).
  Context (unmarshal_instance : string → option InstanceSpecification).
  Context (unmarshal_code_path : string → option string).
  Context (unmarshal_metadata : string → option (gmap string string)).
  Context (marshal_resources : gmap string Z → string).
  Context (marshal_resources_spec : gmap string any → string).
  Context (order : list string → list string).
  Context (order_perm : ∀ l, order l ≡ₚ l).
  Context (want : nat → string * bool).

Local Abbreviation act := (act unmarshal_res unmarshal_instance unmarshal_code_path unmarshal_metadata
                             marshal_resources marshal_resources_spec).
Local Abbreviation event_actions := (event_actions unmarshal_instance).
Local Abbreviation watch := (watch unmarshal_res unmarshal_instance unmarshal_code_path unmarshal_metadata
                               marshal_resources marshal_resources_spec).
Local Abbreviation apply := (apply unmarshal_res unmarshal_instance unmarshal_code_path unmarshal_metadata
                               marshal_resources marshal_resources_spec).
Local Abbreviation step := (step unmarshal_res unmarshal_instance unmarshal_code_path unmarshal_metadata
                              marshal_resources marshal_resources_spec order want).
Local Abbreviation run_machine := (run_machine unmarshal_res unmarshal_instance unmarshal_code_path unmarshal_metadata
                                     marshal_resources marshal_resources_spec order want).

(** ** The sections of a handler make up the handler *)

Definition run_section (r : registry) (a : action) : registry := then_notify (act a r).

Lemma del_sections fk i r :
  drop_empty fk (run_section r (ADel fk i)) =
  delInstance unmarshal_res marshal_resources marshal_resources_spec fk i r.
Proof.
  unfold run_section, delInstance. cbn [InstanceWait.act]. destruct (instancesMap r !! fk) eqn:E; [done|].
  unfold delInstance_store. rewrite E. cbn. unfold drop_empty. by rewrite E.
Qed.

(** Run without interruption, the sections of an event are its handler. *)
Lemma handler_sections ev r : foldl run_section r (event_actions ev) = watch r ev.
Proof.
  destruct ev as [k v|k v| |k]; cbn [InstanceWait.event_actions InstanceRegistry.watch instanceInfoHandler];
    try (destruct (instanceInfoFilter _); [done|]); [| |done|done].
  - unfold update_actions, ProcessInstanceUpdate. cbn [foldl].
    repeat (match goal with
            | |- context [foldl _ _ (if ?b then _ else _)] => destruct b eqn:?
            | |- context [foldl _ _ (match ?o with Some _ => _ | None => _ end)] => destruct o eqn:?
            end; cbn [foldl]; try done).
    all: change (run_section ?r (ADrop ?fk)) with (drop_empty fk r); by rewrite ?del_sections.
  - unfold delete_actions, ProcessInstanceDelete. cbn [foldl].
    repeat (match goal with
            | |- context [foldl _ _ (if ?b then _ else _)] => destruct b eqn:?
            | |- context [foldl _ _ (match ?o with Some _ => _ | None => _ end)] => destruct o eqn:?
            end; cbn [foldl]; try done).
    change (run_section ?r (ADrop ?fk)) with (drop_empty fk r). by rewrite del_sections.
Qed.

(** ** What a waiter can be given *)

Definition in_map (r : registry) (id : string) : Prop := ∃ fk rk i, GetInstance r fk rk id = Some i.

(** The instance is running, or evicting and the caller takes it. *)
Definition available (r : registry) (id : string) (includeEvicting : bool) : Prop :=
  id ≠ "" ∧ (in_map r id ∨ includeEvicting = true ∧ is_Some (evictingInstances r !! id)).

Lemma in_map_lookup r id : in_map r id → is_Some (map_lookup order r id).
Proof.
  intros (fk & rk & i & H). destruct (map_lookup order r id) eqn:E; [done|].
  by rewrite (map_lookup_None order order_perm r id fk rk E) in H.
Qed.

Lemma in_map_queue r r' id :
  (∀ fk rk, queue_of r' fk rk !! id = queue_of r fk rk !! id) → in_map r' id → in_map r id.
Proof. intros Hq (fk & rk & i & H). exists fk, rk, i. by rewrite GetInstance_queue, <- Hq, <- GetInstance_queue. Qed.

Lemma in_map_same r r' id : instancesMap r' = instancesMap r → in_map r' id → in_map r id.
Proof. intros H. apply in_map_queue. intros fk rk. by rewrite (queue_frame _ _ _ _ H). Qed.

(** A section leaves the channel alone unless it is the notification, and makes
    an instance available only when a notification follows. *)
Lemma act_quiet a r :
  a ≠ ANotify → (act a r).2 = false →
  (∀ id, in_map (act a r).1 id → in_map r id) ∧
  (∀ id, is_Some (evictingInstances (act a r).1 !! id) → is_Some (evictingInstances r !! id)).
Proof.
  intros Ha Hn.
  assert (∀ r', instancesMap r' = instancesMap r ∧ evictingInstances r' = evictingInstances r →
    (∀ id, in_map r' id → in_map r id) ∧
    (∀ id, is_Some (evictingInstances r' !! id) → is_Some (evictingInstances r !! id))) as Hsame.
  { intros r' [Hm He]. split; intros id; [by apply in_map_same|by rewrite He]. }
  destruct a; cbn [InstanceWait.act fst snd] in *; try done.
  - unfold removeEvicting_store in *. repeat case_match; by apply Hsame.
  - unfold recordEvicting_store in *. case_match; [by apply Hsame|done].
  - unfold addInstance_store in *. by destruct (fm_addInstance _ _ _ _ _).
  - unfold delInstance_store in *. repeat case_match; try done; by apply Hsame.
  - split; intros id.
    + apply in_map_queue. intros fk rk. by rewrite drop_empty_queue.
    + by rewrite (proj1 (drop_frame funcKey r)).
  - apply Hsame, route_frame.
  - apply Hsame, app_update_frame.
  - apply Hsame, app_delete_frame.
  - apply Hsame, sched_frame.
  - apply Hsame. by apply (sched_frame instanceID zero_instance r).
Qed.

Lemma act_updates a r : a ≠ ANotify → updates (act a r).1 = updates r.
Proof.
  destruct a; intros Ha; cbn [InstanceWait.act fst]; try done;
    unfold removeEvicting_store, recordEvicting_store, addInstance_store, delInstance_store, drop_empty,
      RemoveRouteOnlyInstance, ProcessAppInfoUpdate, StoreAppInfo, ProcessAppInfoDelete, sched_addInstance, sched_delInstance;
    repeat case_match; done.
Qed.

Lemma outside_updates r o : (∀ ev, o ≠ Watch ev) → updates (apply r o) = updates r.
Proof.
  destruct o; intros H; cbn [InstanceRegistry.apply]; [by destruct (H ev)|..];
    unfold RecordRouteOnlyInstance, recordRouteOnlyInstanceWithTTL, RemoveRouteOnlyInstance, timer_fires, timer_runs;
    repeat case_match; done.
Qed.

(** ** The invariant *)

Definition notifying (m : machine) : Prop := head (m_todo m) = Some ANotify.

Definition waits_well (m : machine) (w : nat) : Prop :=
  let '(id, f) := want w in
  match pc_of m w with
  | Parked ch => (ch ≤ updates (m_reg m))%nat ∧
                 (ch = updates (m_reg m) → available (m_reg m) id f → notifying m)
  | MapRead | HintRead => m_lock m = Some w ∧ (id ≠ "" → in_map (m_reg m) id → notifying m)
  | Checking | Got _ | Cancelled => m_lock m ≠ Some w
  end ∧ (pc_of m w ≠ MapRead → pc_of m w ≠ HintRead → m_lock m ≠ Some w).

(** A step that changes no waiter and makes nothing available quietly. *)
Lemma waits_frame m m' w :
  pc_of m' w = pc_of m w → m_lock m' = m_lock m → updates (m_reg m') = updates (m_reg m) →
  (notifying m → notifying m') →
  (∀ id, in_map (m_reg m') id → in_map (m_reg m) id ∨ notifying m') →
  (∀ id, is_Some (evictingInstances (m_reg m') !! id) →
     is_Some (evictingInstances (m_reg m) !! id) ∨ notifying m') →
  waits_well m w → waits_well m' w.
Proof.
  intros Hpc Hl Hu Hn Hm He. unfold waits_well. rewrite Hpc, Hl, Hu. destruct (want w) as [id f].
  intros [H Hlk]. split; [|done]. destruct (pc_of m w) as [| | |ch|i|]; [done| | | |done|done].
  - destruct H as [H1 H2]. split; [done|]. intros Hid [Hi|Hi]%Hm; auto.
  - destruct H as [H1 H2]. split; [done|]. intros Hid [Hi|Hi]%Hm; auto.
  - destruct H as [H1 H2]. split; [done|]. intros Hch [Hid [Hi|[Hf Hi]]].
    + apply Hm in Hi as [Hi|Hi]; [|done]. apply Hn, H2; [done|]. split; [done|by left].
    + apply He in Hi as [Hi|Hi]; [|done]. apply Hn, H2; [done|]. split; [done|by right].
Qed.

Lemma waiter_pc_set m l w pc w' : pc_of (set_pc m l w pc) w' = if decide (w' = w) then pc else pc_of m w'.
Proof.
  unfold pc_of, set_pc. cbn. destruct (decide (w' = w)) as [->|Hne]; [by rewrite lookup_insert_eq|].
  by rewrite lookup_insert_ne by congruence.
Qed.

(** A waiter moves: the others do not notice. *)
Lemma waits_other m l w pc w' :
  w' ≠ w → (m_lock m = Some w' ↔ l = Some w') → waits_well m w' → waits_well (set_pc m l w pc) w'.
Proof.
  intros Hne Hl. unfold waits_well. rewrite waiter_pc_set, decide_False by done.
  unfold notifying. cbn [set_pc m_lock m_reg m_todo]. destruct (want w') as [id f].
  destruct (pc_of m w'); naive_solver.
Qed.

Lemma waits_act m w : (∀ w, waits_well m w) → waits_well (step m Act) w.
Proof.
  intros Hall. cbn [InstanceWait.step]. destruct (m_todo m) as [|a rest] eqn:Et; [done|].
  assert (a = ANotify ∨ a ≠ ANotify) as [->|Ha] by (destruct a; auto).
  - destruct (m_lock m) eqn:El; [done|]. specialize (Hall w). unfold waits_well in *.
    change (pc_of (MkMachine (notifyInstanceUpdate (m_reg m)) rest None (m_pcs m)) w) with (pc_of m w).
    cbn [m_lock m_reg]. destruct (want w) as [id f]. rewrite El in Hall. destruct Hall as [H Hl]. split; [|done].
    destruct (pc_of m w); try done; try by destruct H. cbn. destruct H as [H _]. split; lia.
  - assert (step m Act = let '(r, notify) := act a (m_reg m) in
              MkMachine r (if notify then ANotify :: rest else rest) (m_lock m) (m_pcs m)) as Hs.
    { cbn [InstanceWait.step]. rewrite Et. by destruct a. }
    cbn [InstanceWait.step] in Hs. rewrite Et in Hs. rewrite Hs.
    pose proof (act_quiet a (m_reg m) Ha) as Hq. pose proof (act_updates a (m_reg m) Ha) as Hu.
    destruct (act a (m_reg m)) as [r n]. cbn [fst snd] in *. apply (waits_frame m); try done.
    + unfold notifying. rewrite Et. by intros [= ->].
    + intros id Hi. destruct n; [by right|]. left. by apply Hq.
    + intros id Hi. destruct n; [by right|]. left. by apply Hq.
Qed.

Lemma waits_outside m o w : waits_well m w → waits_well (step m (Outside o)) w.
Proof.
  intros Hw. assert ((∃ ev, o = Watch ev) ∨ ∀ ev, o ≠ Watch ev) as [[ev ->]|Ho]; [|done|].
  { destruct o; [left; eauto|by right..]. }
  assert (step m (Outside o) = MkMachine (apply (m_reg m) o) (m_todo m) (m_lock m) (m_pcs m)) as ->.
  { destruct o; [by destruct (Ho ev)|done..]. }
  destruct (outside_frame unmarshal_res unmarshal_instance unmarshal_code_path unmarshal_metadata
              marshal_resources marshal_resources_spec (m_reg m) o Ho) as [Hm He].
  apply (waits_frame m); try done.
  - by apply outside_updates.
  - intros id Hi. left. by apply (in_map_same _ _ _ Hm).
  - intros id. cbn [m_reg]. rewrite He. by left.
Qed.

(** The steps of the waiter itself. *)
Lemma waits_self m w : waits_well m w → waits_well (step m (Step w)) w.
Proof.
  intros H0. pose proof H0 as H. cbn [InstanceWait.step]. unfold waits_well in H.
  destruct (want w) as [id f] eqn:Hw. destruct H as [H Hl].
  assert (∀ l pc, waits_well (set_pc m l w pc) w ↔
    match pc with
    | Parked ch => (ch ≤ updates (m_reg m))%nat ∧ (ch = updates (m_reg m) → available (m_reg m) id f → notifying m)
    | MapRead | HintRead => l = Some w ∧ (id ≠ "" → in_map (m_reg m) id → notifying m)
    | Checking | Got _ | Cancelled => l ≠ Some w
    end ∧ (pc ≠ MapRead → pc ≠ HintRead → l ≠ Some w)) as Hset.
  { intros l pc. unfold waits_well. rewrite Hw, waiter_pc_set, decide_True by done. done. }
  destruct (pc_of m w) as [| | |ch|i|] eqn:Hpc; [| | | |done|done].
  - destruct (m_lock m) eqn:El; [done|]. case_bool_decide as Hid.
    + apply Hset. split; [|done]. split; [done|]. by intros.
    + destruct (map_lookup order (m_reg m) id) eqn:E; apply Hset; [done|]. split; [|done]. split; [done|].
      intros _ Hi%in_map_lookup. rewrite E in Hi. by destruct Hi.
  - destruct H as [Hlk H]. destruct (routeOnlyInstances (m_reg m) !! id); by apply Hset.
  - destruct H as [Hlk H]. destruct (if f then GetEvictingInstanceByID (m_reg m) id else None) eqn:E; apply Hset; [done|].
    split; [|done]. split; [done|]. intros _ [Hid [Hi|[-> Hi]]]; [by apply H|].
    unfold GetEvictingInstanceByID in E. rewrite E in Hi. by destruct Hi.
  - destruct (ch <? updates (m_reg m))%nat; [|done]. assert (m_lock m ≠ Some w) by by apply Hl. by apply Hset.
Qed.

Lemma waits_step m mv : (∀ w, waits_well m w) → ∀ w, waits_well (step m mv) w.
Proof.
  intros Hall w. destruct mv as [ev| |o|w0|w0].
  - cbn [InstanceWait.step]. destruct (m_todo m) eqn:Et; [|done]. apply (waits_frame m); try done; [|by left..].
    unfold notifying. by rewrite Et.
  - by apply waits_act.
  - by apply waits_outside.
  - destruct (decide (w = w0)) as [->|Hne]; [by apply waits_self|]. pose proof (Hall w0) as H0.
    cbn [InstanceWait.step]. unfold waits_well in H0. destruct (want w0) as [id f]. destruct H0 as [H0 _].
    destruct (pc_of m w0) as [| | |ch|i|]; [| | | |done|done].
    + destruct (m_lock m) eqn:El; [done|]. repeat case_match; apply waits_other; try done; rewrite El; naive_solver.
    + destruct H0 as [El _]. repeat case_match; apply waits_other; try done; rewrite El; naive_solver.
    + destruct H0 as [El _]. repeat case_match; apply waits_other; try done; rewrite El; naive_solver.
    + case_match; [|done]. by apply waits_other.
  - cbn [InstanceWait.step]. pose proof (Hall w) as H0. destruct (pc_of m w0) as [| | |ch|i|] eqn:Hpc; try done.
    destruct (decide (w = w0)) as [->|Hne]; [|by apply waits_other].
    unfold waits_well in *. rewrite waiter_pc_set, decide_True by done. destruct (want w0). rewrite Hpc in H0.
    assert (m_lock m ≠ Some w0) by by apply H0. done.
Qed.

Lemma waits_run mvs w : waits_well (run_machine mvs) w.
Proof.
  revert w. unfold InstanceWait.run_machine. apply (foldl_inv (λ m, ∀ w, waits_well m w)).
  - intros m mv _. apply waits_step.
  - intros w. unfold waits_well, pc_of. cbn. rewrite lookup_empty. by destruct (want w).
Qed.

(** ** Progress *)

(** The holder of the lock gives it back in at most two steps of its own. *)
Lemma lock_released m w :
  (∀ w, waits_well m w) → (∀ w', m_lock m = Some w' → w' ≠ w) →
  ∃ sched, Forall (λ mv, ∃ w', mv = Step w') sched ∧ (length sched ≤ 2)%nat ∧
    let m' := foldl step m sched in
    m_lock m' = None ∧ m_reg m' = m_reg m ∧ m_todo m' = m_todo m ∧ pc_of m' w = pc_of m w.
Proof.
  intros Hall Hne. destruct (m_lock m) as [w'|] eqn:El.
  2:{ exists []. split; [done|]. split; [cbn; lia|]. cbn [foldl]. by rewrite El. }
  specialize (Hne w' eq_refl). pose proof (Hall w') as H. unfold waits_well in H.
  destruct (want w') as [id f] eqn:Hw. destruct H as [H Hl].
  assert (∀ m0, pc_of m0 w' = HintRead → m_lock (step m0 (Step w')) = None ∧ m_reg (step m0 (Step w')) = m_reg m0 ∧
    m_todo (step m0 (Step w')) = m_todo m0 ∧ pc_of (step m0 (Step w')) w = pc_of m0 w) as Hhint.
  { intros m0 Hpc. cbn [InstanceWait.step]. rewrite Hw, Hpc. repeat case_match; by rewrite waiter_pc_set, decide_False. }
  destruct (pc_of m w') as [| | |ch|i|] eqn:Hpc.
  all: try by (exfalso; apply Hl).
  - destruct (routeOnlyInstances (m_reg m) !! id) as [e|] eqn:He.
    + exists [Step w']. split; [repeat constructor; eauto|]. split; [cbn; lia|]. cbn [foldl InstanceWait.step].
      rewrite Hw, Hpc, He. by rewrite waiter_pc_set, decide_False.
    + exists [Step w'; Step w']. split; [repeat constructor; eauto|]. split; [cbn; lia|]. cbn [foldl].
      assert (step m (Step w') = set_pc m (Some w') w' HintRead) as ->
        by (cbn [InstanceWait.step]; by rewrite Hw, Hpc, He).
      destruct (Hhint (set_pc m (Some w') w' HintRead)) as (H1 & H2 & H3 & H4).
      { by rewrite waiter_pc_set, decide_True. }
      by rewrite H1, H2, H3, H4, waiter_pc_set, decide_False.
  - exists [Step w']. split; [repeat constructor; eauto|]. split; [cbn; lia|]. cbn [foldl]. by apply Hhint.
Qed.

(** With the lock free and its channel closed, a waiter finds what is there. *)
Lemma waiter_finds m w id f ch :
  want w = (id, f) → m_lock m = None → pc_of m w = Parked ch → (ch < updates (m_reg m))%nat →
  available (m_reg m) id f →
  ∃ n i, (n ≤ 4)%nat ∧ pc_of (foldl step m (replicate n (Step w))) w = Got i.
Proof.
  intros Hw Hl Hpc Hch [Hid Hav].
  assert (step m (Step w) = set_pc m None w Checking) as H1.
  { cbn [InstanceWait.step]. rewrite Hw, Hpc. apply Nat.ltb_lt in Hch as ->. by rewrite Hl. }
  set (m1 := set_pc m None w Checking) in *.
  assert (step m1 (Step w) = match map_lookup order (m_reg m) id with
            | Some i => set_pc m1 None w (Got i) | None => set_pc m1 (Some w) w MapRead end) as H2.
  { cbn [InstanceWait.step]. rewrite Hw. unfold m1. rewrite waiter_pc_set, decide_True by done.
    cbn [set_pc m_lock m_reg]. by rewrite bool_decide_false. }
  destruct (map_lookup order (m_reg m) id) as [i|] eqn:E.
  { exists 2%nat, i. split; [lia|]. cbn [replicate foldl]. by rewrite H1, H2, waiter_pc_set, decide_True. }
  set (m2 := set_pc m1 (Some w) w MapRead) in *.
  assert (step m2 (Step w) = match routeOnlyInstances (m_reg m) !! id with
            | Some e => set_pc m2 None w (Got (ro_instance e)) | None => set_pc m2 (Some w) w HintRead end) as H3.
  { cbn [InstanceWait.step]. rewrite Hw. unfold m2. by rewrite waiter_pc_set, decide_True by done. }
  destruct (routeOnlyInstances (m_reg m) !! id) as [e|] eqn:Ee.
  { exists 3%nat, (ro_instance e). split; [lia|]. cbn [replicate foldl]. by rewrite H1, H2, H3, waiter_pc_set, decide_True. }
  destruct Hav as [Hi%in_map_lookup|[-> [i Hi]]]; [rewrite E in Hi; by destruct Hi|].
  exists 4%nat, i. split; [lia|]. cbn [replicate foldl]. rewrite H1, H2, H3.
  cbn [InstanceWait.step]. rewrite Hw, waiter_pc_set, decide_True by done.
  unfold GetEvictingInstanceByID. cbn [set_pc m_reg m2 m1]. rewrite Hi. by rewrite waiter_pc_set, decide_True.
Qed.

(** C6. No wake-up is lost: in every interleaving of the watcher with the waiting
    callers, a caller that is parked while its instance is available has had
    its channel closed, or the watcher is about to close it; and from there at
    most seven steps, of the watcher's notification, of the caller that holds
    the lock and of the caller itself, give it the instance. *)
Theorem wait_never_lost mvs w id f ch :
  let m := run_machine mvs in
  want w = (id, f) → pc_of m w = Parked ch → available (m_reg m) id f →
  ((ch < updates (m_reg m))%nat ∨ notifying m) ∧
  ∃ sched i, (length sched ≤ 7)%nat ∧ Forall (λ mv, mv = Act ∨ ∃ w', mv = Step w') sched ∧
    pc_of (foldl step m sched) w = Got i.
Proof.
  intros m Hw Hpc Hav. pose proof (waits_run mvs) as Hall. fold m in Hall. pose proof (Hall w) as H.
  unfold waits_well in H. rewrite Hw, Hpc in H. destruct H as [[Hle Hn] Hl].
  assert ((ch < updates (m_reg m))%nat ∨ notifying m) as Hor.
  { destruct (decide (ch = updates (m_reg m))) as [->|Hne]; [right; by apply Hn|left; lia]. }
  split; [done|]. destruct (lock_released m w Hall) as (s1 & Hs1 & Hlen1 & Hk & Hr & Ht & Hp).
  { intros w' Hw' ->. by apply Hl. }
  set (m1 := foldl step m s1) in *.
  assert (∃ s2, (length s2 ≤ 1)%nat ∧ Forall (λ mv, mv = Act) s2 ∧ let m2 := foldl step m1 s2 in
    m_lock m2 = None ∧ pc_of m2 w = Parked ch ∧ (ch < updates (m_reg m2))%nat ∧ available (m_reg m2) id f)
    as (s2 & Hlen2 & Hs2 & H1 & H2 & H3 & H4).
  { destruct (decide (ch < updates (m_reg m))%nat) as [Hlt|Hge].
    - exists []. split; [cbn; lia|]. split; [done|]. cbn [foldl]. rewrite Hk, Hp, Hpc, Hr. done.
    - exists [Act]. split; [cbn; lia|]. split; [by repeat constructor|]. cbn [foldl InstanceWait.step].
      destruct Hor as [?|Hno]; [lia|]. unfold notifying in Hno. rewrite <- Ht in Hno.
      destruct (m_todo m1) as [|a rest]; [done|]. injection Hno as ->. rewrite Hk.
      change (pc_of _ w) with (pc_of m1 w). cbn [m_lock m_reg]. rewrite Hp, Hpc, Hr. split; [done|]. split; [done|].
      split; [cbn; lia|exact Hav]. }
  destruct (waiter_finds _ w id f ch Hw H1 H2 H3 H4) as (n & i & Hlen & Hgot).
  exists (s1 ++ s2 ++ replicate n (Step w))%list, i. split; [rewrite !length_app, length_replicate; lia|]. split.
  - rewrite !Forall_app. split; [eapply Forall_impl; [exact Hs1|]; eauto|].
    split; [eapply Forall_impl; [exact Hs2|]; eauto|]. apply Forall_replicate. eauto.
  - rewrite !foldl_app. exact Hgot.
Qed.

End facts.

(** A caller parks, and the watcher has stored the instance but not notified yet. *)
Definition demo_moves : list move :=
  [Step 0; Step 0; Step 0; Arrive (PUT demo_key "running"); Act; Act; Act].

Local Abbreviation demo_machine :=
  (run_machine demo_res demo_instance (λ _, None) (λ _, None) (λ _, "") (λ _, "") (λ l, l) (λ _, ("ins-1", false))).

Lemma demo_available : available (m_reg (demo_machine demo_moves)) "ins-1" false.
Proof.
  split; [discriminate|]. left. exists demo_fk, demo_rk, (with_id "ins-1" (demo_spec 3 "small")).
  vm_compute. reflexivity.
Qed.

Example wait_never_lost_witness :
  pc_of (demo_machine demo_moves) 0 = Parked 0 ∧
  ∃ sched i, (length sched ≤ 7)%nat ∧
    pc_of (foldl (step demo_res demo_instance (λ _, None) (λ _, None) (λ _, "") (λ _, "") (λ l, l)
                    (λ _, ("ins-1", false))) (demo_machine demo_moves) sched) 0 = Got i.
Proof.
  assert (pc_of (demo_machine demo_moves) 0 = Parked 0) as Hpc by (vm_compute; reflexivity).
  split; [exact Hpc|].
  destruct (wait_never_lost demo_res demo_instance (λ _, None) (λ _, None) (λ _, "") (λ _, "") (λ l, l)
              (λ l, reflexivity l) (λ _, ("ins-1", false)) demo_moves 0 "ins-1" false 0 eq_refl Hpc demo_available)
    as (_ & sched & i & H1 & _ & H3).
  exists sched, i. split; [exact H1|exact H3].
Defined.
