(* ===== verification/ProxyRouting.v ===== *)
(** * Proxies: discovery and owner routes

    Package [proxyrouting] with [watcher/frontend_proxy_endpoint.go]: the cache
    of function proxies that etcd registers, the selection of a proxy for a
    new instance, and the route to the proxy that owns an instance. Times are
    nanoseconds and are arguments. The second half is the clients of
    [simple_runtime_proxy_client.go] that choose a proxy for each call, retry
    and mark proxies that cannot be reached. *)

From S2P Require Import Prelude GoStrings Json SandboxNetwork InstanceRegistry.
Open Scope string_scope.

(** ** Addresses (package net) *)

(** [net.SplitHostPort]. *)
Definition SplitHostPort (hostport : string) : option (string * string) :=
  match LastIndexByte hostport ":" with
  | None => None
  | Some i =>
      let port := str_drop (i + 1) hostport in
      match hostport with
      | String "[" rest =>
          match IndexByte hostport "]" with
          | None => None
          | Some end_ =>
              if (end_ + 1 =? i)%nat then
                if has_byte "[" rest || has_byte "]" (str_drop (end_ + 1) hostport) then None
                else Some (str_take (end_ - 1) rest, port)
              else None
          end
      | _ =>
          let host := str_take i hostport in
          if has_byte ":" host || has_byte "[" hostport || has_byte "]" hostport then None
          else Some (host, port)
      end
  end.

(** One field of an IPv6 address: up to four hex digits. *)
Fixpoint hex_field (n : nat) (acc : N) (s : string) : option (N * nat * string) :=
  match s with
  | String c r =>
      match hex_value c with
      | Some v => match n with
                  | O => None
                  | S n' => match hex_field n' (acc * 16 + v)%N r with
                            | Some (a, k, r') => Some (a, S k, r')
                            | None => None
                            end
                  end
      | None => Some (acc, O, s)
      end
  | EmptyString => Some (acc, O, s)
  end.

(** The fields after the leading [::], the groups read so far and the position
    of the ellipsis; IPv4 notation may end the address. *)
Fixpoint ipv6_fields (fuel : nat) (s : string) (groups : list N) (ellipsis : option nat) : option (list N * option nat) :=
  match fuel with
  | O => if is_empty s then Some (groups, ellipsis) else None
  | S fuel =>
      match hex_field 4 0 s with
      | None | Some (_, O, _) => None
      | Some (acc, _, String "." _) =>
          if negb (bool_decide (is_Some ellipsis)) && negb (length groups =? 6)%nat then None
          else if (6 <? length groups)%nat then None
          else match ParseAddr4 s with
               | Some v => Some ((groups ++ [Z.to_N (v / 65536); Z.to_N (v mod 65536)])%list, ellipsis)
               | None => None
               end
      | Some (acc, _, r) =>
          let groups := (groups ++ [acc])%list in
          match r with
          | EmptyString => Some (groups, ellipsis)
          | String ":" EmptyString => None
          | String ":" (String ":" r') =>
              if bool_decide (is_Some ellipsis) then None
              else if is_empty r' then Some (groups, Some (length groups))
              else ipv6_fields fuel r' groups (Some (length groups))
          | String ":" r' => ipv6_fields fuel r' groups ellipsis
          | _ => None
          end
      end
  end.

Definition ParseAddr6 (s : string) : option (list N) :=
  let '(s, ellipsis) := match s with
                        | String ":" (String ":" r) => (r, Some 0%nat)
                        | _ => (s, None)
                        end in
  if bool_decide (is_Some ellipsis) && is_empty s then Some (replicate 8 0%N)
  else
    match ipv6_fields 8 s [] ellipsis with
    | None => None
    | Some (groups, None) => if (length groups =? 8)%nat then Some groups else None
    | Some (groups, Some e) =>
        if (length groups <? 8)%nat
        then Some (take e groups ++ replicate (8 - length groups) 0%N ++ drop e groups)%list
        else None
    end.

(** The first of "." and ":" tells the two families apart ([netip.ParseAddr]). *)
Fixpoint dotted (s : string) : bool :=
  match s with
  | String "." _ => true
  | String ":" _ => false
  | String _ r => dotted r
  | EmptyString => false
  end.

(** [ip := net.ParseIP(host); ip != nil && ip.IsUnspecified()]. *)
Definition is_unspecified (host : string) : bool :=
  if dotted host then bool_decide (ParseAddr4 host = Some 0%Z)
  else match ParseAddr6 host with
       | Some g => bool_decide (g = replicate 8 0%N) || bool_decide (g = [0; 0; 0; 0; 0; 65535; 0; 0]%N)
       | None => false
       end.

Definition IsRoutableAddress (address : string) : bool :=
  match SplitHostPort address with
  | None => false
  | Some (host, port) =>
      if bool_decide (TrimSpace host = "") || bool_decide (TrimSpace port = "") then false
      else negb (is_unspecified host)
  end.

Definition IsHostPort (address : string) : bool :=
  match SplitHostPort address with
  | None => false
  | Some (host, port) => negb (bool_decide (TrimSpace host = "")) && negb (bool_decide (TrimSpace port = ""))
  end.

(** ** The discovery cache (discovery.go) *)

Definition CapabilityInvoke : string := "faas.invoke".
Definition CapabilityCreate : string := "faas.create".
Definition CapabilityKill : string := "faas.kill".
Definition CapabilityTCPTunnel : string := "tcp.tunnel".

Record Endpoint := MkEndpoint {
  NodeID : string; GRPCAddress : string; TCPTunnelAddress : string; Version : string;
  Capabilities : gmap string bool; Health : string; Revision : Z;
}.

Record MemoryDiscovery := MkDiscovery {
  endpoints : gmap string Endpoint;
  order : list string;
  next : Z;                               (* uint64 *)
  suspectUntil : gmap string Z;
  revisions : gmap string Z;
}.

Definition NewMemoryDiscovery : MemoryDiscovery := MkDiscovery ∅ [] 0 ∅ ∅.

Definition supports (e : Endpoint) (capability : string) : bool := default false (Capabilities e !! capability).

Definition endpointAddress (e : Endpoint) (capability : string) : string :=
  if bool_decide (capability = CapabilityTCPTunnel) then TCPTunnelAddress e else GRPCAddress e.

(** [strings.EqualFold(s, "healthy")]: none of its letters folds outside ASCII. *)
Definition equal_fold_healthy (s : string) : bool := bool_decide (str_map lower_byte s = "healthy").

Definition isHealthyEndpoint (e : Endpoint) : bool :=
  negb (bool_decide (NodeID e = ""))
  && (negb (bool_decide (GRPCAddress e = "")) || negb (bool_decide (TCPTunnelAddress e = "")))
  && equal_fold_healthy (Health e) && negb (size (Capabilities e) =? 0)%nat.

Definition add_snapshot (acc : gmap string Endpoint * list string * gmap string Z) (e : Endpoint) :=
  let '(m, ord, revs) := acc in
  if negb (isHealthyEndpoint e) then acc
  else (<[NodeID e := e]> m,
        (if bool_decide (is_Some (m !! NodeID e)) then ord else ord ++ [NodeID e])%list,
        <[NodeID e := Revision e]> revs).

Definition ReplaceSnapshot (es : list Endpoint) (d : MemoryDiscovery) : MemoryDiscovery :=
  let '(m, ord, revs) := foldl add_snapshot (∅, [], ∅) es in
  let addresses := filter (λ e, isHealthyEndpoint e = true) es ≫= λ e, [GRPCAddress e; TCPTunnelAddress e] in
  MkDiscovery m ord 0 (filter (λ kv, kv.1 ∈ addresses) (suspectUntil d)) revs.

(** [d.revisions[nodeID]], zero when absent. *)
Definition revision_of (d : MemoryDiscovery) (nodeID : string) : Z := default 0%Z (revisions d !! nodeID).

Definition Upsert (e : Endpoint) (d : MemoryDiscovery) : MemoryDiscovery :=
  if negb (isHealthyEndpoint e) then d
  else if (0 <? Revision e)%Z && (Revision e <? revision_of d (NodeID e))%Z then d
  else
    MkDiscovery (<[NodeID e := e]> (endpoints d))
      (if bool_decide (is_Some (endpoints d !! NodeID e)) then order d else order d ++ [NodeID e])%list
      (next d) (suspectUntil d)
      (if (0 <? Revision e)%Z then <[NodeID e := Revision e]> (revisions d) else revisions d).

(** Removes the first occurrence. *)
Fixpoint remove_first (k : string) (l : list string) : list string :=
  match l with
  | [] => []
  | x :: r => if bool_decide (x = k) then r else x :: remove_first k r
  end.

Definition Delete (nodeID : string) (revision : Z) (d : MemoryDiscovery) : MemoryDiscovery :=
  if bool_decide (nodeID = "") then d
  else if (0 <? revision)%Z && (revision <? revision_of d nodeID)%Z then d
  else
    let revs := if (0 <? revision)%Z then <[nodeID := revision]> (revisions d) else revisions d in
    match endpoints d !! nodeID with
    | None => MkDiscovery (endpoints d) (order d) (next d) (suspectUntil d) revs
    | Some e =>
        let ord := remove_first nodeID (order d) in
        MkDiscovery (delete nodeID (endpoints d)) ord
          (match ord with [] => 0 | _ => next d mod Z.of_nat (length ord) end)%Z
          (delete (TCPTunnelAddress e) (delete (GRPCAddress e) (suspectUntil d))) revs
    end.

(** [isSuspectAddressLocked]: an expired suspicion is forgotten. *)
Definition isSuspectAddressLocked (address : string) (now : Z) (d : MemoryDiscovery) : bool * MemoryDiscovery :=
  match suspectUntil d !! address with
  | None => (false, d)
  | Some until =>
      if (now <? until)%Z then (true, d)
      else (false, MkDiscovery (endpoints d) (order d) (next d) (delete address (suspectUntil d)) (revisions d))
  end.

Definition set_next (n : Z) (d : MemoryDiscovery) : MemoryDiscovery :=
  MkDiscovery (endpoints d) (order d) n (suspectUntil d) (revisions d).

(** The loop of [GetNext]: [n] positions are left to try. *)
Fixpoint get_next (n : nat) (capability : string) (excluded : gset string) (now : Z) (d : MemoryDiscovery) :
    option Endpoint * MemoryDiscovery :=
  match n with
  | O => (None, d)
  | S n =>
      let idx := Z.to_nat (next d mod Z.of_nat (length (order d))) in
      let d := set_next (wrapU 64 (next d + 1)) d in
      match endpoints d !! nth idx (order d) "" with
      | None => get_next n capability excluded now d
      | Some e =>
          if negb (supports e capability) then get_next n capability excluded now d
          else
            let address := endpointAddress e capability in
            if bool_decide (address ∈ excluded) then get_next n capability excluded now d
            else
              let '(suspect, d) := isSuspectAddressLocked address now d in
              if suspect || negb (IsRoutableAddress address) then get_next n capability excluded now d
              else (Some e, d)
      end
  end.

Definition GetNext (capability : string) (excluded : gset string) (now : Z) (d : MemoryDiscovery) :
    option Endpoint * MemoryDiscovery :=
  match order d with
  | [] => (None, d)
  | _ => get_next (length (order d)) capability excluded now d
  end.

Definition GetByNode (nodeID capability : string) (now : Z) (d : MemoryDiscovery) : option Endpoint * MemoryDiscovery :=
  if bool_decide (nodeID = "") then (None, d)
  else
    match endpoints d !! nodeID with
    | None => (None, d)
    | Some e =>
        if negb (bool_decide (capability = "")) && negb (supports e capability) then (None, d)
        else
          let address := endpointAddress e capability in
          let '(suspect, d) := isSuspectAddressLocked address now d in
          if suspect || negb (IsRoutableAddress address) then (None, d) else (Some e, d)
    end.

Definition defaultSuspectTTL : Z := 30 * 1000000000.

Definition MarkSuspectAddress (address : string) (ttl now : Z) (d : MemoryDiscovery) : MemoryDiscovery :=
  if bool_decide (address = "") || (ttl <=? 0)%Z then d
  else MkDiscovery (endpoints d) (order d) (next d) (<[address := (now + ttl)%Z]> (suspectUntil d)) (revisions d).

Definition IsSuspectAddress (address : string) (now : Z) (d : MemoryDiscovery) : bool * MemoryDiscovery :=
  if bool_decide (address = "") then (false, d) else isSuspectAddressLocked address now d.

(** ** Registrations in etcd (frontend_proxy_endpoint.go) *)

Definition frontendProxyEndpointPrefix : string := "/yr/busproxy/business/yrk/tenant/0/node/".

Definition frontendProxyNodeID (key : string) : string :=
  if negb (HasPrefix key frontendProxyEndpointPrefix) then ""
  else
    let nodeID := str_drop (String.length frontendProxyEndpointPrefix) key in
    if Contains nodeID "/" then "" else nodeID.

Record proxyServiceMetadata := MkService {
  ps_GRPCAddress : string; ps_TCPTunnelAddress : string; ps_Capabilities : list string;
  ps_Version : string; ps_Health : string }.

Record frontendProxyRegistration := MkRegistration { fr_Node : string; fr_ProxyService : proxyServiceMetadata }.

Definition decode_service (kvs : list (string * any)) : option proxyServiceMetadata :=
  (Some MkService <*> string_field "grpcAddress" kvs <*> string_field "tcpTunnelAddress" kvs
     <*> field (to_slice (λ v, match v with JNull => Some "" | _ => to_string v end)) [] "capabilities" kvs
     <*> string_field "version" kvs <*> string_field "health" kvs)%go.

Definition zero_service : proxyServiceMetadata := MkService "" "" [] "" "".

Definition decode_registration (kvs : list (string * any)) : option frontendProxyRegistration :=
  (Some MkRegistration <*> string_field "node" kvs
     <*> field (to_struct zero_service decode_service) zero_service "proxyService" kvs)%go.

Definition unmarshal_registration (value : string) : option frontendProxyRegistration :=
  match Unmarshal value with
  | Some v => to_struct (MkRegistration "" zero_service) decode_registration v
  | None => None
  end.

Definition parseFrontendProxyEndpoint (nodeID value : string) : option Endpoint :=
  match unmarshal_registration value with
  | None => None
  | Some registration =>
      let nodeID := if negb (bool_decide (fr_Node registration = "")) then fr_Node registration else nodeID in
      let service := fr_ProxyService registration in
      if bool_decide (nodeID = "")
         || (bool_decide (ps_GRPCAddress service = "") && bool_decide (ps_TCPTunnelAddress service = ""))
         || negb (equal_fold_healthy (ps_Health service))
      then None
      else
        let capabilities := foldl (λ m c, if negb (bool_decide (c = "")) then <[c := true]> m else m)
                              (∅ : gmap string bool) (ps_Capabilities service) in
        if (size capabilities =? 0)%nat then None
        else Some (MkEndpoint nodeID (ps_GRPCAddress service) (ps_TCPTunnelAddress service)
                     (ps_Version service) capabilities (ps_Health service) 0)
  end.

Definition at_revision (rev : Z) (e : Endpoint) : Endpoint :=
  MkEndpoint (NodeID e) (GRPCAddress e) (TCPTunnelAddress e) (Version e) (Capabilities e) (Health e) rev.

(** A put or a deletion, from the watch or from its history. *)
Inductive proxy_event := ProxyPut (key value : string) (rev : Z) | ProxyDelete (key : string) (rev : Z).

Definition frontendProxyEndpointHandler (d : MemoryDiscovery) (ev : proxy_event) : MemoryDiscovery :=
  match ev with
  | ProxyPut key value rev =>
      let nodeID := frontendProxyNodeID key in
      match parseFrontendProxyEndpoint nodeID value with
      | None => Delete nodeID rev d
      | Some e => Upsert (at_revision rev e) d
      end
  | ProxyDelete key rev => Delete (frontendProxyNodeID key) rev d
  end.

Definition frontendProxyEndpointFilter (ev : proxy_event) : bool :=
  match ev with ProxyPut key _ _ | ProxyDelete key _ => bool_decide (frontendProxyNodeID key = "") end.

Definition proxy_watch (d : MemoryDiscovery) (ev : proxy_event) : MemoryDiscovery :=
  if frontendProxyEndpointFilter ev then d else frontendProxyEndpointHandler d ev.

(** ** Owner routes (owner_resolver.go) *)

Inductive Transport := TransportGRPC | TransportTCPTunnel.

Record OwnerRoute := MkRoute {
  or_Instance : option InstanceSpecification; or_OwnerProxyID : string; or_Endpoint : Endpoint; or_Address : string }.

Inductive route_error :=
| EmptyInstanceID | NotInCache | NoCapability | NoOwner | OwnerIsAddress | OwnerUnhealthy | NotRoutable | ContextDone.

Definition resolveFromInstance (i : InstanceSpecification) (capability : string) (transport : Transport) (now : Z)
    (d : MemoryDiscovery) : res route_error OwnerRoute * MemoryDiscovery :=
  if bool_decide (capability = "") then (Err NoCapability, d)
  else
    let ownerID := TrimSpace (FunctionProxyID i) in
    if bool_decide (ownerID = "") then (Err NoOwner, d)
    else if IsHostPort ownerID then (Err OwnerIsAddress, d)
    else
      let '(e, d) := GetByNode ownerID capability now d in
      match e with
      | None => (Err OwnerUnhealthy, d)
      | Some e =>
          let address := match transport with TransportGRPC => GRPCAddress e | TransportTCPTunnel => TCPTunnelAddress e end in
          if negb (IsRoutableAddress address) then (Err NotRoutable, d)
          else (Ok (MkRoute (Some i) ownerID e address), d)
      end.

Section routes.
  (** The order of [range] in the lookups of the registry. *)
  Variable range_order : list string → list string.

Definition Resolve (r : registry) (instanceID capability : string) (transport : Transport) (now : Z)
    (d : MemoryDiscovery) : res route_error OwnerRoute * MemoryDiscovery :=
  if bool_decide (TrimSpace instanceID = "") then (Err EmptyInstanceID, d)
  else
    match GetInstanceByIDAcrossFunctions range_order r instanceID with
    | None => (Err NotInCache, d)
    | Some i => resolveFromInstance i capability transport now d
    end.

(** The polling of [wait] after the instance was found: at every tick the
    registry, the cache and the clock are what they are by then; the context
    ends after the last tick. *)
Fixpoint poll (i : InstanceSpecification) (instanceID capability : string) (transport : Transport) (includeEvicting : bool)
    (now : Z) (d : MemoryDiscovery) (ticks : list (registry * MemoryDiscovery * Z)) : res route_error OwnerRoute :=
  match (resolveFromInstance i capability transport now d).1 with
  | Ok route => Ok route
  | Err _ =>
      match ticks with
      | [] => Err ContextDone
      | (r, d, now) :: ticks =>
          let current :=
            match GetInstanceByIDAcrossFunctions range_order r instanceID with
            | Some c => Some c
            | None => if includeEvicting then GetEvictingInstanceByID r instanceID else None
            end in
          poll (default i current) instanceID capability transport includeEvicting now d ticks
      end
  end.

(** [wait] once [waitInstanceByID] (file InstanceWait) answered. *)
Definition wait (found : option InstanceSpecification) (instanceID capability : string) (transport : Transport)
    (includeEvicting : bool) (now : Z) (d : MemoryDiscovery) (ticks : list (registry * MemoryDiscovery * Z)) :
    res route_error OwnerRoute :=
  if bool_decide (TrimSpace instanceID = "") then Err EmptyInstanceID
  else match found with
       | None => Err ContextDone
       | Some i => poll i instanceID capability transport includeEvicting now d ticks
       end.

End routes.
