(* ===== verification/ProxyRoutingFacts.v ===== *)
(** * Theorems on proxy discovery and owner routes *)

From S2P Require Import Prelude GoStrings Json SandboxNetwork InstanceRegistry ProxyRouting.
Open Scope string_scope.

(** Spellings of the unspecified address. *)
Example unspecified_spellings :
  is_unspecified "::" = true ∧ is_unspecified "0:0:0:0:0:0:0:0" = true ∧ is_unspecified "0.0.0.0" = true ∧
  is_unspecified "::ffff:0.0.0.0" = true ∧ is_unspecified "0::0:0" = true ∧
  is_unspecified "::1" = false ∧ is_unspecified "1::2::3" = false ∧ is_unspecified "proxy" = false ∧
  IsRoutableAddress "[::]:80" = false ∧ IsRoutableAddress "[fe80::1]:80" = true ∧ IsRoutableAddress "a:b:c" = false.
Proof. vm_compute. repeat split. Qed.

(** ** Well-formed caches *)

Record disc_wf (d : MemoryDiscovery) : Prop := {
  wf_nodup : NoDup (order d);
  wf_order n : n ∈ order d ↔ is_Some (endpoints d !! n);
  wf_endpoint n e : endpoints d !! n = Some e → NodeID e = n ∧ isHealthyEndpoint e = true;
  wf_next : (0 ≤ next d < 2 ^ 64)%Z;
}.

Lemma remove_first_elem k l x : NoDup l → x ∈ remove_first k l ↔ x ∈ l ∧ x ≠ k.
Proof.
  induction 1 as [|y l Hy Hl IH]; cbn; [by rewrite elem_of_nil; naive_solver|].
  case_bool_decide as E; [subst y|]; rewrite ?elem_of_cons, ?IH; naive_solver.
Qed.

Lemma remove_first_sub k l x : x ∈ remove_first k l → x ∈ l.
Proof.
  induction l as [|y l IH]; cbn; [done|]. case_bool_decide; [by right|]. intros [->|H']%elem_of_cons; [left|right; auto].
Qed.

Lemma remove_first_nodup k l : NoDup l → NoDup (remove_first k l).
Proof.
  induction 1 as [|y l Hy Hl IH]; cbn; [constructor|]. case_bool_decide; [done|].
  constructor; [|done]. intros H'%remove_first_sub. done.
Qed.

Lemma wf_new : disc_wf NewMemoryDiscovery.
Proof.
  split; cbn; [constructor| |by intros *; rewrite lookup_empty|lia].
  intros n. rewrite lookup_empty, elem_of_nil. split; [done|by intros [? [=]]].
Qed.

(** Inserting an endpoint under its node, at the end if it is new. *)
Lemma wf_insert (m : gmap string Endpoint) ord e :
  isHealthyEndpoint e = true → NoDup ord → (∀ n, n ∈ ord ↔ is_Some (m !! n)) →
  (∀ n e, m !! n = Some e → NodeID e = n ∧ isHealthyEndpoint e = true) →
  let ord' := (if bool_decide (is_Some (m !! NodeID e)) then ord else ord ++ [NodeID e])%list in
  NoDup ord' ∧ (∀ n, n ∈ ord' ↔ is_Some (<[NodeID e := e]> m !! n)) ∧
  (∀ n e', <[NodeID e := e]> m !! n = Some e' → NodeID e' = n ∧ isHealthyEndpoint e' = true).
Proof.
  intros He Hn Ho Hm ord'. split_and!.
  - unfold ord'. case_bool_decide as Hb; [done|]. apply NoDup_app. split; [done|].
    split; [|apply NoDup_singleton]. intros x Hx Hx'%list_elem_of_singleton. subst x. by apply Hb, Ho.
  - intros n. unfold ord'. destruct (decide (n = NodeID e)) as [->|Hne].
    + rewrite lookup_insert_eq. split; [by eexists|intros _]. case_bool_decide as Hb; [by apply Ho|].
      apply elem_of_app. right. by apply list_elem_of_singleton.
    + rewrite lookup_insert_ne by done. case_bool_decide as Hb; [done|].
      rewrite elem_of_app, list_elem_of_singleton, <- Ho. naive_solver.
  - intros n e'. intros [[<- <-]|[_ H]]%lookup_insert_Some; [done|by apply Hm].
Qed.

Lemma wf_upsert e d : disc_wf d → disc_wf (Upsert e d).
Proof.
  intros [H1 H2 H3 H4]. unfold Upsert. destruct (isHealthyEndpoint e) eqn:He; [|done]. cbn [negb].
  destruct (_ && _); [done|]. destruct (wf_insert _ _ _ He H1 H2 H3) as (W1 & W2 & W3). by split.
Qed.

Lemma wf_delete n rev d : disc_wf d → disc_wf (Delete n rev d).
Proof.
  intros [H1 H2 H3 H4]. unfold Delete. case_bool_decide; [done|]. destruct (_ && _); [done|].
  destruct (endpoints d !! n) as [e|] eqn:He; [|by split]. split; cbn [order endpoints next].
  - by apply remove_first_nodup.
  - intros x. rewrite remove_first_elem, H2 by done. destruct (decide (x = n)) as [->|Hne].
    + rewrite lookup_delete_eq. split; [by intros []|by intros [? [=]]].
    + rewrite lookup_delete_ne by congruence. naive_solver.
  - intros x e' [_ H']%lookup_delete_Some. by apply H3.
  - destruct (remove_first n (order d)) as [|y l] eqn:E; [lia|].
    pose proof (Z.mod_pos_bound (next d) (Z.of_nat (length (y :: l)))) as Hb. cbn [length] in *.
    pose proof (Z.mod_le (next d) (Z.of_nat (S (length l)))). lia.
Qed.

Lemma wf_snapshot es d : disc_wf (ReplaceSnapshot es d).
Proof.
  unfold ReplaceSnapshot.
  assert (∀ acc, NoDup acc.1.2 ∧ (∀ n, n ∈ acc.1.2 ↔ is_Some (acc.1.1 !! n)) ∧
    (∀ n e, acc.1.1 !! n = Some e → NodeID e = n ∧ isHealthyEndpoint e = true) →
    let acc' := foldl add_snapshot acc es in NoDup acc'.1.2 ∧ (∀ n, n ∈ acc'.1.2 ↔ is_Some (acc'.1.1 !! n)) ∧
    (∀ n e, acc'.1.1 !! n = Some e → NodeID e = n ∧ isHealthyEndpoint e = true)) as Hfold.
  { intros acc Hacc. apply foldl_inv; [|done]. clear acc Hacc. intros [[m ord] revs] e _ (A1 & A2 & A3). cbn in *.
    destruct (isHealthyEndpoint e) eqn:He; [|done]. cbn [negb fst snd]. by apply wf_insert. }
  specialize (Hfold (∅, [], ∅)). destruct (foldl add_snapshot _ es) as [[m ord] revs].
  destruct Hfold as (F1 & F2 & F3).
  { cbn. split_and!; [constructor| |by intros *; rewrite lookup_empty].
    intros n. rewrite lookup_empty, elem_of_nil. split; [done|by intros [? [=]]]. }
  split; [done..|]. cbn. lia.
Qed.

Lemma wf_handler ev d : disc_wf d → disc_wf (proxy_watch d ev).
Proof.
  intros H. unfold proxy_watch, frontendProxyEndpointHandler.
  repeat case_match; try done; [by apply wf_upsert|by apply wf_delete..].
Qed.

(** ** Suspicions *)

Definition suspect (d : MemoryDiscovery) (address : string) (now : Z) : bool :=
  match suspectUntil d !! address with Some until => (now <? until)%Z | None => false end.

(** Two caches that differ only in expired suspicions and in the cursor. *)
Definition alike (now : Z) (d d' : MemoryDiscovery) : Prop :=
  endpoints d' = endpoints d ∧ order d' = order d ∧ revisions d' = revisions d ∧
  ∀ a, suspect d' a now = suspect d a now.

Lemma alike_refl now d : alike now d d.
Proof. done. Qed.
Lemma alike_trans now d1 d2 d3 : alike now d1 d2 → alike now d2 d3 → alike now d1 d3.
Proof.
  intros (A1 & A2 & A3 & A4) (B1 & B2 & B3 & B4). split_and!; [congruence..|]. intros a. by rewrite B4, A4.
Qed.
Lemma alike_set_next now n d : alike now d (set_next n d).
Proof. done. Qed.

Lemma isSuspect_spec a now d :
  (isSuspectAddressLocked a now d).1 = suspect d a now ∧ alike now d (isSuspectAddressLocked a now d).2 ∧
  next (isSuspectAddressLocked a now d).2 = next d.
Proof.
  unfold isSuspectAddressLocked, suspect. destruct (suspectUntil d !! a) as [u|] eqn:E; [|done].
  destruct (now <? u)%Z eqn:El; [done|]. split_and!; [done| |done]. split_and!; [done..|].
  intros b. unfold suspect. cbn. destruct (decide (b = a)) as [->|Hne]; [by rewrite lookup_delete_eq, E|].
  by rewrite lookup_delete_ne by congruence.
Qed.

(** ** Selection *)

(** The endpoint can take a call of this kind now. *)
Definition eligible (d : MemoryDiscovery) (capability : string) (excluded : gset string) (now : Z) (e : Endpoint) : bool :=
  let address := endpointAddress e capability in
  supports e capability && negb (bool_decide (address ∈ excluded)) && negb (suspect d address now) && IsRoutableAddress address.

(** The node at a position of the rotation. *)
Definition at_position (d : MemoryDiscovery) (i : Z) : option Endpoint :=
  endpoints d !! nth (Z.to_nat (i mod Z.of_nat (length (order d)))) (order d) "".

Definition eligible_at (d : MemoryDiscovery) capability excluded now (i : Z) : bool :=
  match at_position d i with Some e => eligible d capability excluded now e | None => false end.

Lemma alike_eligible now d d' cap excl i :
  alike now d d' → at_position d' i = at_position d i ∧ eligible_at d' cap excl now i = eligible_at d cap excl now i.
Proof.
  intros (A1 & A2 & _ & A4). assert (at_position d' i = at_position d i) as Hp by (unfold at_position; by rewrite A1, A2).
  split; [done|]. unfold eligible_at, eligible. rewrite Hp. destruct (at_position d i); [|done]. by rewrite A4.
Qed.

(** One position of the loop. *)
Lemma get_next_S n cap excl now d :
  (0 ≤ next d)%Z → (next d + 1 < 2 ^ 64)%Z →
  ∃ d', alike now d d' ∧ next d' = (next d + 1)%Z ∧
    get_next (S n) cap excl now d =
      if eligible_at d cap excl now (next d) then (at_position d (next d), d') else get_next n cap excl now d'.
Proof.
  intros H0 Hb. cbn [get_next]. set (d1 := set_next (wrapU 64 (next d + 1)) d).
  assert (next d1 = (next d + 1)%Z) as Hn1 by (cbn; rewrite wrapU_small; lia).
  assert (alike now d d1) as Ha1 by done.
  unfold eligible_at. change (endpoints d1 !! _) with (at_position d (next d)).
  destruct (at_position d (next d)) as [e|] eqn:Ep; [|by exists d1].
  unfold eligible. destruct (supports e cap); [|by exists d1]. cbn [negb andb].
  destruct (bool_decide _); [by exists d1|]. cbn [negb andb].
  destruct (isSuspect_spec (endpointAddress e cap) now d1) as (S1 & S2 & S3).
  destruct (isSuspectAddressLocked (endpointAddress e cap) now d1) as [b d2]. cbn [fst snd] in *.
  exists d2. split; [by eapply alike_trans|]. split; [congruence|].
  change (suspect d1 (endpointAddress e cap) now) with (suspect d (endpointAddress e cap) now) in S1. rewrite <- S1.
  destruct b; cbn [orb negb andb]; [done|]. by destruct (IsRoutableAddress _).
Qed.

(** The loop finds the first eligible position from the cursor on. *)
Lemma get_next_spec n cap excl now d :
  (0 ≤ next d)%Z → (next d + Z.of_nat n < 2 ^ 64)%Z →
  let '(r, d') := get_next n cap excl now d in
  alike now d d' ∧
  match r with
  | Some e => ∃ k, (k < n)%nat ∧ at_position d (next d + Z.of_nat k) = Some e ∧
      eligible_at d cap excl now (next d + Z.of_nat k) = true ∧
      (∀ j, (j < k)%nat → eligible_at d cap excl now (next d + Z.of_nat j) = false) ∧
      next d' = (next d + Z.of_nat k + 1)%Z
  | None => (∀ j, (j < n)%nat → eligible_at d cap excl now (next d + Z.of_nat j) = false) ∧
      next d' = (next d + Z.of_nat n)%Z
  end.
Proof.
  revert d. induction n as [|n IH]; intros d H0 Hb.
  { cbn [get_next]. split; [done|]. split; [lia|]. cbn. lia. }
  destruct (get_next_S n cap excl now d H0 ltac:(lia)) as (d1 & Ha & Hn & ->).
  destruct (eligible_at d cap excl now (next d)) eqn:Ee.
  - unfold eligible_at in Ee. destruct (at_position d (next d)) as [e|] eqn:Ep; [|done]. split; [done|].
    exists 0%nat. rewrite Z.add_0_r. split_and!; [lia|done| |lia|lia]. unfold eligible_at. by rewrite Ep.
  - specialize (IH d1 ltac:(lia) ltac:(lia)). destruct (get_next n cap excl now d1) as [r d'].
    destruct IH as [Ha' Hr]. split; [by eapply alike_trans|].
    assert (∀ j, eligible_at d1 cap excl now (next d1 + Z.of_nat j) = eligible_at d cap excl now (next d + Z.of_nat (S j))) as Hj.
    { intros j. rewrite (proj2 (alike_eligible _ _ _ cap excl _ Ha)). f_equal. lia. }
    destruct r as [e|].
    + destruct Hr as (k & Hk & Hp & Hek & Hlt & Hnx). exists (S k).
      rewrite (proj1 (alike_eligible _ _ _ cap excl _ Ha)) in Hp.
      replace (next d1 + Z.of_nat k)%Z with (next d + Z.of_nat (S k))%Z in Hp by lia.
      split_and!; [lia|done|by rewrite <- Hj| |lia].
      intros [|j] Hj'; [by rewrite Z.add_0_r|]. rewrite <- Hj. apply Hlt. lia.
    + destruct Hr as [Hlt Hnx]. split; [|lia]. intros [|j] Hj'; [by rewrite Z.add_0_r|]. rewrite <- Hj. apply Hlt. lia.
Qed.

(** Every node is at some position within one round of the cursor. *)
Lemma position_of d node e :
  disc_wf d → endpoints d !! node = Some e →
  ∃ j, (j < length (order d))%nat ∧ at_position d (next d + Z.of_nat j) = Some e.
Proof.
  intros Hwf He. assert (node ∈ order d) as Hin by (apply (wf_order _ Hwf); by eexists).
  apply list_elem_of_lookup in Hin as [i Hi]. pose proof (lookup_lt_Some _ _ _ Hi) as Hlt.
  set (n := Z.of_nat (length (order d))).
  exists (Z.to_nat ((Z.of_nat i - next d) mod n)). pose proof (Z.mod_pos_bound (Z.of_nat i - next d) n ltac:(lia)) as Hb.
  split; [lia|]. unfold at_position. fold n. rewrite Z2Nat.id by lia.
  rewrite Z.add_mod_idemp_r by lia. replace (next d + (Z.of_nat i - next d))%Z with (Z.of_nat i) by lia.
  rewrite Z.mod_small by lia. rewrite Nat2Z.id. by rewrite (nth_lookup_Some _ _ _ _ Hi).
Qed.

(** Choosing the proxy of a new instance: the cache hands out the first proxy
    in rotation that offers the capability, is not excluded, is not suspected
    and has a routable address, and moves its cursor just past it; it answers
    that there is none only when no cached proxy qualifies. *)
Theorem next_proxy_rotates d cap excl now :
  disc_wf d → (next d + Z.of_nat (length (order d)) < 2 ^ 64)%Z →
  let '(r, d') := GetNext cap excl now d in
  disc_wf d' ∧
  match r with
  | Some e => ∃ k, (k < length (order d))%nat ∧ at_position d (next d + Z.of_nat k) = Some e ∧
      eligible d cap excl now e = true ∧
      (∀ j, (j < k)%nat → eligible_at d cap excl now (next d + Z.of_nat j) = false) ∧
      next d' = (next d + Z.of_nat k + 1)%Z
  | None => ∀ node e, endpoints d !! node = Some e → eligible d cap excl now e = false
  end.
Proof.
  intros Hwf Hb. pose proof (wf_next _ Hwf) as Hn. unfold GetNext.
  destruct (order d) as [|x l] eqn:Eo.
  { split; [done|]. intros node e He. assert (node ∈ order d) as Hin by (apply (wf_order _ Hwf); by eexists).
    rewrite Eo in Hin. by apply elem_of_nil in Hin. }
  rewrite <- Eo in *. clear x l Eo. pose proof (get_next_spec (length (order d)) cap excl now d ltac:(lia) Hb) as H.
  destruct (get_next _ cap excl now d) as [r d']. destruct H as [Ha Hr].
  assert (∀ nx, next d' = nx → (0 ≤ nx < 2 ^ 64)%Z → disc_wf d') as Hwf'.
  { intros nx Hnx Hr'. destruct Hwf as [W1 W2 W3 W4], Ha as (A1 & A2 & _ & _).
    split; [by rewrite A2|intros n; by rewrite A1, A2|rewrite A1; by apply W3|lia]. }
  destruct r as [e|].
  - destruct Hr as (k & Hk & Hp & He & Hlt & Hnx). split; [by eapply Hwf'; [done|lia]|].
    exists k. split_and!; [done|done| |done|done]. unfold eligible_at in He. by rewrite Hp in He.
  - destruct Hr as [Hlt Hnx]. split; [by eapply Hwf'; [done|lia]|]. intros node e He.
    destruct (position_of d node e Hwf He) as (j & Hj & Hp). specialize (Hlt j Hj). unfold eligible_at in Hlt. by rewrite Hp in Hlt.
Qed.

(** ** Registrations *)

Lemma caps_healthy nodeID value e rev :
  parseFrontendProxyEndpoint nodeID value = Some e → isHealthyEndpoint (at_revision rev e) = true.
Proof.
  unfold parseFrontendProxyEndpoint. destruct (unmarshal_registration value) as [reg|]; [|done].
  set (node := if negb _ then _ else _). destruct (_ || _) eqn:E1; [done|]. destruct (size _ =? 0)%nat eqn:E2; [done|].
  intros [= <-]. apply orb_false_iff in E1 as [E1 E3]. apply orb_false_iff in E1 as [E1 E4].
  unfold isHealthyEndpoint. cbn [NodeID GRPCAddress TCPTunnelAddress Health Capabilities at_revision].
  rewrite E1, E2. apply negb_false_iff in E3 as ->.
  by destruct (bool_decide (ps_GRPCAddress _ = "")), (bool_decide (ps_TCPTunnelAddress _ = "")).
Qed.

Definition event_rev (ev : proxy_event) : Z := match ev with ProxyPut _ _ r | ProxyDelete _ r => r end.
Definition proxy_key (ev : proxy_event) : string := match ev with ProxyPut k _ _ | ProxyDelete k _ => k end.
Definition event_node (ev : proxy_event) : string := frontendProxyNodeID (proxy_key ev).

(** The endpoint that an event leaves for its node. *)
Definition event_endpoint (ev : proxy_event) : option Endpoint :=
  match ev with
  | ProxyPut k v rev => at_revision rev <$> parseFrontendProxyEndpoint (frontendProxyNodeID k) v
  | ProxyDelete _ _ => None
  end.

(** The value registers the node of its key, with a revision of etcd. *)
Definition well_named (ev : proxy_event) : Prop :=
  event_node ev ≠ "" ∧ (0 < event_rev ev)%Z ∧
  ∀ e, event_endpoint ev = Some e → NodeID e = event_node ev.

(** What the cache knows of a node. *)
Definition node_state (d : MemoryDiscovery) (n : string) : option Endpoint * Z := (endpoints d !! n, revision_of d n).

Lemma watch_node d ev n : well_named ev →
  node_state (proxy_watch d ev) n =
    if bool_decide (n = event_node ev) && (revision_of d n <=? event_rev ev)%Z
    then (event_endpoint ev, event_rev ev) else node_state d n.
Proof.
  intros (Hn & Hr & Hname). unfold proxy_watch.
  assert (frontendProxyEndpointFilter ev = false) as ->.
  { unfold frontendProxyEndpointFilter, event_node, proxy_key in *. destruct ev; by rewrite bool_decide_false. }
  assert (∀ nn, nn = event_node ev → event_endpoint ev = None →
    node_state (Delete nn (event_rev ev) d) n =
    if bool_decide (n = event_node ev) && (revision_of d n <=? event_rev ev)%Z
    then (event_endpoint ev, event_rev ev) else node_state d n) as Hdel.
  { intros nn -> Hnone. unfold Delete. rewrite bool_decide_false by done.
    destruct ((0 <? event_rev ev)%Z && _) eqn:Es.
    { apply andb_true_iff in Es as [_ Es%Z.ltb_lt]. case_bool_decide as Hb; [subst n|done].
      destruct (Z.leb_spec (revision_of d (event_node ev)) (event_rev ev)); [lia|done]. }
    apply Z.ltb_lt in Hr as Hr'. rewrite Hr' in *. cbn [andb] in Es. apply Z.ltb_ge in Es.
    unfold node_state. rewrite Hnone. case_bool_decide as Hb; [subst n|].
    - destruct (Z.leb_spec (revision_of d (event_node ev)) (event_rev ev)) as [_|]; [|lia]. cbn [andb].
      destruct (endpoints d !! event_node ev) eqn:Ee; unfold revision_of; cbn [endpoints revisions];
        rewrite ?lookup_delete_eq, lookup_insert_eq; cbn; congruence.
    - cbn [andb]. destruct (endpoints d !! event_node ev) eqn:Ee; unfold revision_of; cbn [endpoints revisions];
        rewrite ?lookup_delete_ne by congruence; by rewrite lookup_insert_ne by congruence. }
  destruct ev as [k v rev|k rev]; cbn [frontendProxyEndpointHandler].
  2: by apply Hdel.
  destruct (parseFrontendProxyEndpoint (frontendProxyNodeID k) v) as [e|] eqn:Ep.
  2:{ apply Hdel; [done|]. cbn. by rewrite Ep. }
  assert (event_endpoint (ProxyPut k v rev) = Some (at_revision rev e)) as He by (cbn; by rewrite Ep).
  rewrite He. apply Hname in He as Hid. cbn in Hr, Hid.
  assert (NodeID (at_revision rev e) = event_node (ProxyPut k v rev)) as Hid' by exact Hid.
  unfold Upsert. rewrite (caps_healthy _ _ _ rev Ep), Hid'. cbn [negb Revision at_revision event_rev].
  apply Z.ltb_lt in Hr as Hr'. rewrite Hr'. cbn [andb].
  destruct (Z.ltb_spec rev (revision_of d (event_node (ProxyPut k v rev)))).
  { case_bool_decide as Hb; [subst n|done]. destruct (Z.leb_spec (revision_of d (event_node (ProxyPut k v rev))) rev); [lia|done]. }
  unfold node_state, revision_of. cbn [endpoints revisions]. case_bool_decide as Hb; [subst n|].
  - rewrite !lookup_insert_eq. fold (revision_of d (event_node (ProxyPut k v rev))).
    destruct (Z.leb_spec (revision_of d (event_node (ProxyPut k v rev))) rev); [done|lia].
  - by rewrite !lookup_insert_ne by congruence.
Qed.

Lemma node_revision d n x r : node_state d n = (x, r) → revision_of d n = r.
Proof. by intros [= _ <-]. Qed.

(** The state of a node after some events: the latest of them, if any. *)
Lemma watch_latest evs n :
  Forall well_named evs →
  let s := node_state (foldl proxy_watch NewMemoryDiscovery evs) n in
  (0 ≤ s.2)%Z ∧ (∀ ev, ev ∈ evs → event_node ev = n → (event_rev ev ≤ s.2)%Z) ∧
  ((∃ ev, ev ∈ evs ∧ event_node ev = n ∧ s = (event_endpoint ev, event_rev ev)) ∨
   (s = (None, 0%Z) ∧ ∀ ev, ev ∈ evs → event_node ev ≠ n)).
Proof.
  induction evs as [|ev evs IH] using rev_ind; intros Hw.
  { unfold node_state, revision_of. cbn. rewrite !lookup_empty. cbn. split; [lia|].
    split; [by intros ev ?%elem_of_nil|]. right. split; [done|by intros ev ?%elem_of_nil]. }
  apply Forall_app in Hw as [Hw Hev]. rewrite Forall_singleton in Hev. rewrite foldl_app. cbn [foldl].
  specialize (IH Hw). set (d := foldl proxy_watch NewMemoryDiscovery evs) in *.
  destruct IH as (H0 & Hle & Hor). cbn in H0, Hle. rewrite (watch_node d ev n Hev).
  assert (0 < event_rev ev)%Z as Hp by apply Hev.
  destruct (bool_decide (n = event_node ev) && (revision_of d n <=? event_rev ev)%Z) eqn:Eb.
  - apply andb_true_iff in Eb as [Heqn%bool_decide_eq_true Eb%Z.leb_le]; subst n. cbn [snd]. split; [lia|]. split.
    + intros ev' [Hin|Heq%list_elem_of_singleton]%elem_of_app Hn; [|subst ev'; lia]. specialize (Hle ev' Hin Hn). lia.
    + left. exists ev. split; [|done]. apply elem_of_app. right. by apply list_elem_of_singleton.
  - split; [done|]. apply andb_false_iff in Eb. split.
    + intros ev' [Hin|Heq%list_elem_of_singleton]%elem_of_app Hn; [by apply Hle|]. subst ev'.
      destruct Eb as [Eb%bool_decide_eq_false|Eb%Z.leb_gt]; [congruence|]. cbn. lia.
    + destruct Hor as [(ev' & Hin & Hn & Hs)|[Hs Hno]].
      * left. exists ev'. split; [apply elem_of_app; by left|done].
      * right. split; [done|]. intros ev' [Hin|Heq%list_elem_of_singleton]%elem_of_app; [by apply Hno|]. subst ev'.
        destruct Eb as [Eb%bool_decide_eq_false|Eb%Z.leb_gt]; [congruence|].
        apply (f_equal snd) in Hs. cbn in Hs. lia.
Qed.

(** C35. The cache converges: when every registration names the node of its key
    and revisions are positive, then however the events of the watch and of its
    history are ordered or repeated, a node ends up with what its event of the highest
    revision says, a later registration or its removal. *)
Theorem registrations_converge evs ev :
  Forall well_named evs → ev ∈ evs →
  (∀ ev', ev' ∈ evs → event_node ev' = event_node ev → ev' = ev ∨ (event_rev ev' < event_rev ev)%Z) →
  endpoints (foldl proxy_watch NewMemoryDiscovery evs) !! event_node ev = event_endpoint ev.
Proof.
  intros Hw Hin Hmax. destruct (watch_latest evs (event_node ev) Hw) as (_ & Hle & [(ev' & Hin' & Hn & Hs)|[_ Hno]]).
  - destruct (Hmax ev' Hin' Hn) as [->|Hlt]; [by apply (f_equal fst) in Hs|].
    specialize (Hle ev Hin eq_refl). rewrite Hs in Hle. cbn in Hle. lia.
  - by destruct (Hno ev Hin).
Qed.

(** ** Owner routes *)

Lemma GetByNode_spec n cap now d e d' :
  GetByNode n cap now d = (Some e, d') →
  endpoints d !! n = Some e ∧ (cap ≠ "" → supports e cap = true) ∧
  suspect d (endpointAddress e cap) now = false ∧ IsRoutableAddress (endpointAddress e cap) = true.
Proof.
  unfold GetByNode. case_bool_decide; [done|]. destruct (endpoints d !! n) as [e0|]; [|done].
  destruct (negb _ && negb _) eqn:E1; [done|].
  destruct (isSuspect_spec (endpointAddress e0 cap) now d) as (S1 & _ & _).
  destruct (isSuspectAddressLocked _ now d) as [b d2]. cbn [fst] in S1. destruct (_ || _) eqn:E2; [done|].
  intros [= <- _]. apply orb_false_iff in E2 as [-> E2%negb_false_iff]. split_and!; [done| |done|done].
  intros Hc. rewrite bool_decide_false in E1 by done. by apply negb_false_iff in E1.
Qed.

Lemma GetByNode_found n cap now d e :
  n ≠ "" → endpoints d !! n = Some e → supports e cap = true →
  suspect d (endpointAddress e cap) now = false → IsRoutableAddress (endpointAddress e cap) = true →
  (GetByNode n cap now d).1 = Some e.
Proof.
  intros Hn He Hs Hu Ha. unfold GetByNode. rewrite bool_decide_false, He, Hs, andb_false_r by done.
  destruct (isSuspect_spec (endpointAddress e cap) now d) as (S1 & _ & _).
  destruct (isSuspectAddressLocked _ now d) as [b d2]. cbn [fst] in S1. by rewrite S1, Hu, Ha.
Qed.

Definition transport_address (e : Endpoint) (t : Transport) : string :=
  match t with TransportGRPC => GRPCAddress e | TransportTCPTunnel => TCPTunnelAddress e end.

(** The route of an instance: its owner is registered, offers the capability,
    is not suspected and has routable addresses. *)
Definition owner_route_ok (i : InstanceSpecification) (cap : string) (t : Transport) (now : Z) (d : MemoryDiscovery)
    (e : Endpoint) : Prop :=
  cap ≠ "" ∧ TrimSpace (FunctionProxyID i) ≠ "" ∧ IsHostPort (TrimSpace (FunctionProxyID i)) = false ∧
  endpoints d !! TrimSpace (FunctionProxyID i) = Some e ∧ supports e cap = true ∧
  suspect d (endpointAddress e cap) now = false ∧ IsRoutableAddress (endpointAddress e cap) = true ∧
  IsRoutableAddress (transport_address e t) = true.

Lemma resolve_route i cap t now d route :
  (resolveFromInstance i cap t now d).1 = Ok route ↔
  ∃ e, owner_route_ok i cap t now d e ∧
    route = MkRoute (Some i) (TrimSpace (FunctionProxyID i)) e (transport_address e t).
Proof.
  unfold resolveFromInstance, owner_route_ok. split.
  - case_bool_decide as Hc; [done|]. case_bool_decide as Ho; [done|]. destruct (IsHostPort _) eqn:Eh; [done|].
    destruct (GetByNode _ cap now d) as [[e|] d'] eqn:Eg; [|done]. apply GetByNode_spec in Eg as (G1 & G2 & G3 & G4).
    destruct (negb _) eqn:En; [done|]. apply negb_false_iff in En. intros [= <-]. exists e. split; [|done].
    split_and!; try done. by apply G2.
  - intros (e & (H1 & H2 & H3 & H4 & H5 & H6 & H7 & H8) & ->). rewrite !bool_decide_false, H3 by done.
    pose proof (GetByNode_found _ _ _ _ _ H2 H4 H5 H6 H7) as Hg. destruct (GetByNode _ cap now d) as [o d'].
    cbn [fst] in Hg. subst o. unfold transport_address in *. by rewrite H8.
Qed.

(** C8. Calls on an instance go to its owner and nowhere else: an owner route is
    found exactly when the registry holds the instance (or its hint) and the
    proxy that it names is registered with the capability, unsuspected and
    routable; the route leads to that very proxy. *)
Theorem owner_route_exact range_order r id cap t now d route :
  disc_wf d →
  (Resolve range_order r id cap t now d).1 = Ok route ↔
  TrimSpace id ≠ "" ∧ ∃ i e, GetInstanceByIDAcrossFunctions range_order r id = Some i ∧
    owner_route_ok i cap t now d e ∧ NodeID e = TrimSpace (FunctionProxyID i) ∧
    route = MkRoute (Some i) (NodeID e) e (transport_address e t).
Proof.
  intros Hwf. unfold Resolve. case_bool_decide as Hid; [split; [done|by intros [? _]]|].
  destruct (GetInstanceByIDAcrossFunctions range_order r id) as [i|] eqn:Ei.
  2:{ split; [done|]. by intros (_ & i & e & [=] & _). }
  rewrite resolve_route. split.
  - intros (e & Hok & ->). split; [done|]. exists i, e. pose proof Hok as (_ & _ & _ & H4 & _).
    destruct (wf_endpoint _ Hwf _ _ H4) as [Hn _]. by rewrite Hn.
  - intros (_ & i' & e & [= <-] & Hok & Hn & ->). exists e. split; [done|]. by rewrite Hn.
Qed.

(** What a waiting call looks at: the instance as last seen, the clock and the cache. *)
Fixpoint observations (range_order : list string → list string) (id : string) (fl : bool)
    (i : InstanceSpecification) (now : Z) (d : MemoryDiscovery) (ticks : list (registry * MemoryDiscovery * Z)) :
    list (InstanceSpecification * Z * MemoryDiscovery) :=
  (i, now, d) ::
  match ticks with
  | [] => []
  | (r, d, now) :: ticks =>
      observations range_order id fl (default i (getInstanceByID range_order r id fl)) now d ticks
  end.

(** Waiting for an owner: if the owner of the instance is routable at some
    tick before the context ends, a route is returned; every returned route
    was the owner's route at some tick. *)
Theorem owner_wait_answers range_order i id cap t fl now d ticks :
  TrimSpace id ≠ "" →
  let seen := observations range_order id fl i now d ticks in
  match wait range_order (Some i) id cap t fl now d ticks with
  | Ok route => ∃ i now d e, (i, now, d) ∈ seen ∧ owner_route_ok i cap t now d e ∧
      route = MkRoute (Some i) (TrimSpace (FunctionProxyID i)) e (transport_address e t)
  | Err _ => ∀ i now d e, (i, now, d) ∈ seen → ~ owner_route_ok i cap t now d e
  end.
Proof.
  intros Hid. unfold wait. rewrite bool_decide_false by done.
  revert i now d. induction ticks as [|[[r d'] now'] ticks IH]; intros i now d; cbn [poll observations].
  - destruct ((resolveFromInstance i cap t now d).1) as [route|err] eqn:E.
    + apply resolve_route in E as (e & Hok & ->). exists i, now, d, e. split; [by left|done].
    + intros i' now' d'' e [[= -> -> ->]|Hin]%elem_of_cons Hok; [|by apply elem_of_nil in Hin].
      assert ((resolveFromInstance i cap t now d).1 = Ok (MkRoute (Some i) (TrimSpace (FunctionProxyID i)) e
        (transport_address e t))) as H by (apply resolve_route; eauto). congruence.
  - destruct ((resolveFromInstance i cap t now d).1) as [route|err] eqn:E.
    + apply resolve_route in E as (e & Hok & ->). exists i, now, d, e. split; [by left|done].
    + change (match GetInstanceByIDAcrossFunctions range_order r id with Some c => Some c
              | None => if fl then GetEvictingInstanceByID r id else None end) with (getInstanceByID range_order r id fl).
      specialize (IH (default i (getInstanceByID range_order r id fl)) now' d').
      destruct (poll _ _ _ _ _ _ _ _ _) as [route|err'].
      * destruct IH as (i1 & n1 & d1 & e & Hin & H). exists i1, n1, d1, e. split; [by right|done].
      * intros i1 n1 d1 e [[= -> -> ->]|Hin]%elem_of_cons Hok; [|by eapply IH].
        assert ((resolveFromInstance i cap t now d).1 = Ok (MkRoute (Some i) (TrimSpace (FunctionProxyID i)) e
          (transport_address e t))) as H by (apply resolve_route; eauto). congruence.
Qed.

(** ** Concrete caches *)

Definition demo_put (key_node node address : string) (rev : Z) : proxy_event :=
  ProxyPut (frontendProxyEndpointPrefix +:+ key_node)
    ("{" +:+ quote true "node" +:+ ":" +:+ quote true node +:+ "," +:+ quote true "proxyService" +:+ ":{"
     +:+ quote true "grpcAddress" +:+ ":" +:+ quote true address +:+ ","
     +:+ quote true "capabilities" +:+ ":[" +:+ quote true "faas.kill" +:+ "," +:+ quote true "faas.create" +:+ "],"
     +:+ quote true "health" +:+ ":" +:+ quote true "Healthy" +:+ "}}") rev.

Definition demo_endpoint (node address : string) (rev : Z) : Endpoint :=
  MkEndpoint node address "" "" (<["faas.create" := true]> (<["faas.kill" := true]> ∅)) "Healthy" rev.

Definition demo_events : list proxy_event :=
  [demo_put "node-1" "" "10.0.0.1:80" 7; demo_put "node-2" "node-2" "10.0.0.2:80" 4;
   ProxyDelete (frontendProxyEndpointPrefix +:+ "node-1") 5; demo_put "node-1" "" "10.0.0.9:80" 3].

Definition demo_cache : MemoryDiscovery := foldl proxy_watch NewMemoryDiscovery demo_events.

Lemma demo_cache_wf : disc_wf demo_cache.
Proof. apply (foldl_inv disc_wf); [intros d ev _; by apply wf_handler|apply wf_new]. Qed.

Example next_proxy_rotates_witness :
  (GetNext CapabilityCreate ∅ 0 demo_cache).1 = Some (demo_endpoint "node-1" "10.0.0.1:80" 7) ∧
  disc_wf (GetNext CapabilityCreate ∅ 0 demo_cache).2.
Proof.
  split; [vm_compute; reflexivity|].
  pose proof (next_proxy_rotates demo_cache CapabilityCreate ∅ 0 demo_cache_wf ltac:(vm_compute; reflexivity)) as H.
  destruct (GetNext CapabilityCreate ∅ 0 demo_cache) as [e d]. destruct H as [H _]. exact H.
Defined.

Lemma demo_well_named : Forall well_named demo_events.
Proof.
  repeat constructor; try (vm_compute; discriminate); try (vm_compute; reflexivity); intros e H; vm_compute in H;
    injection H as <-; reflexivity.
Qed.

Example registrations_converge_witness :
  Forall well_named demo_events ∧
  endpoints demo_cache !! "node-1" = Some (demo_endpoint "node-1" "10.0.0.1:80" 7).
Proof.
  split; [exact demo_well_named|].
  apply (registrations_converge demo_events (demo_put "node-1" "" "10.0.0.1:80" 7)).
  - exact demo_well_named.
  - left.
  - intros ev' Hin Hn. unfold demo_events in Hin.
    repeat (apply elem_of_cons in Hin as [->|Hin]);
      [by left|vm_compute in Hn; discriminate Hn|right; reflexivity..|by apply elem_of_nil in Hin].
Defined.

(** The registry with a hint for an instance of node-2. *)
Definition demo_registry : registry := RecordRouteOnlyInstance 0 "f" "ins-1" "node-2" empty_registry.

Example owner_route_exact_witness :
  disc_wf demo_cache ∧
  (Resolve (λ l, l) demo_registry "ins-1" CapabilityKill TransportGRPC 0 demo_cache).1 =
    Ok (MkRoute (GetInstanceByIDAcrossFunctions (λ l, l) demo_registry "ins-1") "node-2"
          (demo_endpoint "node-2" "10.0.0.2:80" 4) "10.0.0.2:80").
Proof.
  split; [exact demo_cache_wf|]. apply (owner_route_exact _ _ _ _ _ _ _ _ demo_cache_wf).
  split; [vm_compute; discriminate|].
  exists (MkInstance "ins-1" "f" "node-2" "" ∅ (MkInstanceStatus 0 0 "" 0) (MkExtensions "" "" "")),
    (demo_endpoint "node-2" "10.0.0.2:80" 4).
  split; [vm_compute; reflexivity|]. split; [|split; vm_compute; reflexivity].
  unfold owner_route_ok. split; [vm_compute; discriminate|]. split; [vm_compute; discriminate|].
  repeat split; vm_compute; reflexivity.
Defined.

Example owner_wait_answers_witness :
  ∃ route, wait (λ l, l) (Some zero_instance) "ins-1" CapabilityKill TransportGRPC false 0 NewMemoryDiscovery
             [(empty_registry, NewMemoryDiscovery, 1%Z); (demo_registry, demo_cache, 2%Z)] = Ok route.
Proof.
  pose proof (owner_wait_answers (λ l, l) zero_instance "ins-1" CapabilityKill TransportGRPC false 0 NewMemoryDiscovery
                [(empty_registry, NewMemoryDiscovery, 1%Z); (demo_registry, demo_cache, 2%Z)]
                ltac:(vm_compute; discriminate)) as H. cbv zeta in H.
  destruct (wait _ _ _ _ _ _ _ _ _) as [route|err] eqn:E; [by exists route|].
  exfalso. clear H. vm_compute in E. discriminate E.
Defined.

(** A proxy whose value names another node than its key is stored under that
    name, and the deletion of its key does not remove it. *)
Theorem renamed_proxy_survives_deletion :
  endpoints (foldl proxy_watch NewMemoryDiscovery
               [demo_put "node-1" "host-1" "10.0.0.1:80" 1; ProxyDelete (frontendProxyEndpointPrefix +:+ "node-1") 2])
    !! "host-1" = Some (demo_endpoint "host-1" "10.0.0.1:80" 1).
Proof. vm_compute. reflexivity. Qed.
