(* ===== verification/ProxyClient.v ===== *)
(** * Calls to proxies

    The routing clients of [common/util/simple_runtime_proxy_client.go]: create
    tries the proxies of the discovery cache in turn until one takes the
    request; kill, pause and resume go to the owner of the instance, or to any
    gateway when the instance is paused; connections are pooled and dropped
    when the transport fails.

    The gRPC services and the connection set-up are parameters: what attempt
    [k] at an address answers. Other goroutines change the shared state
    between attempts as the parameter [env] says. *)

From S2P Require Import Prelude GoStrings Json SandboxNetwork Route ExecEndpoint InstanceRegistry ProxyRouting.
Open Scope string_scope.

(** ** Errors *)

Inductive proxy_error :=
| StatusErr (operation : string) (code : Z) (message : string) (retryable : bool) (retryReason : string)
| BusinessErr (operation : string) (code : Z) (message : string)
| TransportErr (message : string)       (* io.EOF, a *net.OpError or the gRPC status Unavailable *)
| RouteErr (e : route_error)
| NoProxy (capability : string)         (* no frontend proxy endpoint supports the capability *)
| CtxErr
| OtherErr (message : string).

Definition frontendProxyControlNotWired : string := "control-path-not-wired".

Definition isFrontendProxyCreatePreDispatchStatus (err : proxy_error) : bool :=
  match err with
  | StatusErr operation _ _ _ retryReason =>
      bool_decide (operation = "create") && bool_decide (retryReason = frontendProxyControlNotWired)
  | _ => false
  end.

Definition isFrontendProxyRouteStaleStatus (err : proxy_error) : bool :=
  match err with
  | StatusErr _ _ _ retryable retryReason => retryable && bool_decide (retryReason = "route-stale")
  | _ => false
  end.

Definition isFrontendProxyTransportError (err : proxy_error) : bool :=
  match err with TransportErr _ => true | _ => false end.

(** ** Responses *)

(** A [FrontendProxyStatus]: code, message, retryable, retry reason. *)
Definition proxy_status : Type := Z * string * bool * string.

Record create_response := MkCreateResponse {
  cr_status : option proxy_status;
  cr_create : option (Z * string * string);        (* code, message, instance ID *)
  cr_route : string;
}.

Record kill_response := MkKillResponse {
  kr_status : option proxy_status;
  kr_kill : option (Z * string);                   (* code, message *)
  kr_started : option (string * string * string);  (* the payload as SnapStartedInfo: instance, proxy, address *)
}.

Definition checkFrontendProxyStatus (operation : string) (s : option proxy_status) : res proxy_error unit :=
  match s with
  | None => Ok ()
  | Some (code, message, retryable, reason) =>
      if (code =? 0)%Z then Ok () else Err (StatusErr operation code message retryable reason)
  end.

(** The end of [grpcFrontendProxyLifecycleClient.CreateInstance], with the hint that it records. *)
Definition create_answer (now : Z) (funcID : string) (answer : res proxy_error (option create_response)) (r : registry) :
    res proxy_error string * registry :=
  match answer with
  | Err e => (Err e, r)
  | Ok None => (Err (OtherErr "frontend proxy create response is nil"), r)
  | Ok (Some resp) =>
      match checkFrontendProxyStatus "create" (cr_status resp) with
      | Err e => (Err e, r)
      | Ok _ =>
          match cr_create resp with
          | None => (Err (OtherErr "frontend proxy create missing create response"), r)
          | Some (code, message, instanceID) =>
              if negb (code =? 0)%Z then (Err (BusinessErr "create" code message), r)
              else if bool_decide (instanceID = "")
              then (Err (OtherErr "frontend proxy create response missing instance id"), r)
              else
                let ownerProxyID := TrimSpace (cr_route resp) in
                if bool_decide (ownerProxyID = "") then (Ok instanceID, r)
                else if IsHostPort ownerProxyID
                then (Err (OtherErr "frontend proxy create owner must be a proxy node id"), r)
                else (Ok instanceID, RecordRouteOnlyInstance now funcID instanceID ownerProxyID r)
          end
      end
  end.

(** The answer to a raw create request: [rr_ready] is what
    [createReadyCallResultFromResponse] finds, a call result with its instance ID. *)
Record raw_create_response := MkRawCreateResponse {
  rr_status : option proxy_status;
  rr_ready : res proxy_error (option string);
  rr_create : option (Z * string * string);
  rr_route : string;
}.

Definition firstNonEmpty (a b : string) : string := if bool_decide (a = "") then b else a.

(** [decodeFrontendProxyRawCreateResponse]; the notification is kept as its request ID. *)
Definition raw_create_answer (now : Z) (function externalRequestID requestID : string)
    (answer : res proxy_error (option raw_create_response)) (r : registry) : res proxy_error string * registry :=
  match answer with
  | Err e => (Err e, r)
  | Ok None => (Err (OtherErr "frontend proxy create response is nil"), r)
  | Ok (Some resp) =>
      match checkFrontendProxyStatus "create" (rr_status resp), rr_ready resp with
      | Err e, _ | Ok _, Err e => (Err e, r)
      | Ok _, Ok None =>
          match rr_create resp with
          | Some (code, message, _) =>
              if negb (code =? 0)%Z then (Err (BusinessErr "create" code message), r)
              else (Err (OtherErr "frontend proxy create missing ready call result"), r)
          | None => (Err (OtherErr "frontend proxy create missing ready call result"), r)
          end
      | Ok _, Ok (Some readyID) =>
          let notify := firstNonEmpty externalRequestID requestID in
          match rr_create resp with
          | None => (Ok notify, r)
          | Some (_, _, createID) =>
              let instanceID := firstNonEmpty createID readyID in
              let ownerProxyID := TrimSpace (rr_route resp) in
              if negb (bool_decide (instanceID = "")) && bool_decide (ownerProxyID = "")
              then (Err (OtherErr "frontend proxy create response missing final owner proxy node id"), r)
              else if IsHostPort ownerProxyID
              then (Err (OtherErr "frontend proxy create owner must be a proxy node id"), r)
              else (Ok notify,
                    if negb (bool_decide (instanceID = "")) then RecordRouteOnlyInstance now function instanceID ownerProxyID r
                    else r)
          end
      end
  end.

Definition frontendPauseSnapshotSignal : Z := 18.
Definition frontendResumeSnapshotSignal : Z := 19.

(** The end of [grpcFrontendProxyLifecycleClient.KillInstanceWithResponse]. *)
Definition kill_answer (now : Z) (instanceID : string) (signal : Z) (answer : res proxy_error (option kill_response))
    (r : registry) : res proxy_error kill_response * registry :=
  match answer with
  | Err e => (Err e, r)
  | Ok None => (Err (OtherErr "frontend proxy kill response is nil"), r)
  | Ok (Some resp) =>
      match checkFrontendProxyStatus "kill" (kr_status resp) with
      | Err e => (Err e, r)
      | Ok _ =>
          match kr_kill resp with
          | None => (Err (OtherErr "frontend proxy kill missing kill response"), r)
          | Some (code, message) =>
              if negb (code =? 0)%Z then (Err (BusinessErr "kill" code message), r)
              else
                let before := SnapshotRouteOnlyInstance instanceID r in
                if (signal =? frontendPauseSnapshotSignal)%Z
                then (Ok resp, RecordRouteOnlyInstance now (sn_Function before) instanceID InstanceManagerOwner r)
                else if (signal =? frontendResumeSnapshotSignal)%Z then
                  match kr_started resp with
                  | None => (Err (OtherErr "resume kill returned invalid route payload"), r)
                  | Some (started, proxy, address) =>
                      if negb (bool_decide (started = instanceID)) || bool_decide (proxy = "") || bool_decide (address = "")
                      then (Err (OtherErr "resume kill returned a mismatched or empty function proxy route"), r)
                      else (Ok resp, RecordRouteOnlyInstance now (sn_Function before) instanceID proxy r)
                  end
                else (Ok resp, RemoveRouteOnlyInstance instanceID r)
          end
      end
  end.

(** ** State *)

Record client := MkClient {
  cl_disc : MemoryDiscovery;
  cl_reg : registry;
  cl_store : Store;                    (* the exec endpoint cache *)
  cl_conns : gset string;              (* addresses with a pooled connection *)
  cl_calls : list (nat * string);      (* the calls sent: attempt and address, newest first *)
}.

Definition set_disc (d : MemoryDiscovery) (c : client) : client :=
  MkClient d (cl_reg c) (cl_store c) (cl_conns c) (cl_calls c).
Definition set_reg (r : registry) (c : client) : client :=
  MkClient (cl_disc c) r (cl_store c) (cl_conns c) (cl_calls c).
Definition set_conns (s : gset string) (c : client) : client :=
  MkClient (cl_disc c) (cl_reg c) (cl_store c) s (cl_calls c).
Definition sent (k : nat) (address : string) (c : client) : client :=
  MkClient (cl_disc c) (cl_reg c) (cl_store c) (cl_conns c) ((k, address) :: cl_calls c).

Definition EvictAddress (address : string) (c : client) : client :=
  if bool_decide (TrimSpace address = "") then c else set_conns (cl_conns c ∖ {[ address ]}) c.

Definition evictFrontendProxyClientOnError (now : Z) (address : string) (err : proxy_error) (c : client) : client :=
  if bool_decide (address = "") || negb (isFrontendProxyTransportError err) then c
  else
    let c := EvictAddress address c in
    set_disc (MarkSuspectAddress address defaultSuspectTTL now (cl_disc c)) c.

Section calls.
  (** [grpc.NewClient] with its credentials: the error, if any. *)
  Variable connect : string → option proxy_error.
  (** The gRPC services: what the [k]-th attempt at an address answers. *)
  Variable create_rpc : nat → string → res proxy_error (option create_response).
  Variable raw_create_rpc : nat → string → res proxy_error (option raw_create_response).
  Variable kill_rpc : nat → string → res proxy_error (option kill_response).
  (** The clock and the context at an attempt, and what other goroutines did before it. *)
  Variable clock : nat → Z.
  Variable ctx_done : nat → bool.
  Variable env : nat → client → client.
  Variable range_order : list string → list string.
  Variable ERR_INNER_COMMUNICATION : Z.

Definition ClientForAddress (address : string) (c : client) : res proxy_error unit * client :=
  if bool_decide (TrimSpace address = "") then (Err (OtherErr "frontend proxy address is empty"), c)
  else if bool_decide (address ∈ cl_conns c) then (Ok (), c)
  else match connect address with
       | Some err => (Err err, c)
       | None => (Ok (), set_conns ({[ address ]} ∪ cl_conns c) c)
       end.

(** [proxyrouting.Select]. *)
Definition Select (k : nat) (capability : string) (excluded : gset string) (c : client) : res proxy_error Endpoint * client :=
  if ctx_done k then (Err CtxErr, c)
  else
    let '(e, d) := GetNext capability excluded (clock k) (cl_disc c) in
    let c := set_disc d c in
    match e with
    | Some e => (Ok e, c)
    | None => (Err (NoProxy capability), c)
    end.

(** The loop of [routingFrontendProxyLifecycleClient.CreateInstance] and of
    [CreateInstanceRaw], which differ in the call [rpc]: the addresses tried and
    the last error. *)
Fixpoint create_loop (rpc : nat → string → registry → res proxy_error string * registry) (fuel k : nat)
    (tried : gset string) (lastErr : option proxy_error) (c : client) : option (res proxy_error string * client) :=
  match fuel with
  | O => None
  | S fuel =>
      let '(selected, c) := Select k CapabilityCreate tried (env k c) in
      match selected with
      | Err selectErr => Some (Err (default selectErr lastErr), c)
      | Ok endpoint =>
          let address := GRPCAddress endpoint in
          let tried := {[ address ]} ∪ tried in
          let '(ok, c) := ClientForAddress address c in
          match ok with
          | Err err =>
              create_loop rpc fuel (S k) tried (Some err) (evictFrontendProxyClientOnError (clock k) address err c)
          | Ok _ =>
              let c := sent k address c in
              let '(answer, r) := rpc k address (cl_reg c) in
              let c := set_reg r c in
              match answer with
              | Ok instanceID => Some (Ok instanceID, c)
              | Err err =>
                  if isFrontendProxyCreatePreDispatchStatus err then create_loop rpc fuel (S k) tried (Some err) c
                  else Some (Err err, evictFrontendProxyClientOnError (clock k) address err c)
              end
          end
      end
  end.

Definition create_call (funcID : string) (k : nat) (address : string) : registry → res proxy_error string * registry :=
  create_answer (clock k) funcID (create_rpc k address).

Definition CreateInstance (fuel : nat) (funcID : string) (c : client) : option (res proxy_error string * client) :=
  create_loop (create_call funcID) fuel 0 ∅ None c.

(** Every attempt has a request ID of its own. *)
Definition raw_create_call (function externalRequestID : string) (requestID : nat → string) (k : nat) (address : string) :
    registry → res proxy_error string * registry :=
  raw_create_answer (clock k) function externalRequestID (requestID k) (raw_create_rpc k address).

Definition CreateInstanceRaw (fuel : nat) (function externalRequestID : string) (requestID : nat → string) (c : client) :
    option (res proxy_error string * client) :=
  create_loop (raw_create_call function externalRequestID requestID) fuel 0 ∅ None c.

Definition resolveKillAddress (k : nat) (instanceID : string) (paused : bool) (excluded : gset string) (c : client) :
    res proxy_error string * client :=
  if paused then
    let '(selected, c) := Select k CapabilityKill excluded c in
    match selected with
    | Err err => (Err err, c)
    | Ok e => if negb (IsRoutableAddress (GRPCAddress e)) then (Err (RouteErr NotRoutable), c) else (Ok (GRPCAddress e), c)
    end
  else
    let '(route, d) := Resolve range_order (cl_reg c) instanceID CapabilityKill TransportGRPC (clock k) (cl_disc c) in
    let c := set_disc d c in
    match route with
    | Ok route => (Ok (or_Address route), c)
    | Err _ =>
        match GetSummary (cl_store c) instanceID with
        | None => (Err (RouteErr NotInCache), c)
        | Some summary =>
            if bool_decide (su_NodeID summary = "") then (Err (RouteErr NotInCache), c)
            else
              let '(e, d) := GetByNode (su_NodeID summary) CapabilityKill (clock k) (cl_disc c) in
              let c := set_disc d c in
              match e with
              | None => (Err (RouteErr OwnerUnhealthy), c)
              | Some e =>
                  if negb (IsRoutableAddress (GRPCAddress e)) then (Err (RouteErr NotRoutable), c)
                  else (Ok (GRPCAddress e), c)
              end
        end
    end.

Definition isPausedLifecycleGatewayRetryable (err : proxy_error) : bool :=
  match err with BusinessErr _ code _ => (code =? ERR_INNER_COMMUNICATION)%Z | _ => false end.

Definition frontendProxyKillMaxAttempts : nat := 2.

(** The attempts of [KillInstanceWithResponse]; [remaining] of them are left. *)
Fixpoint kill_loop (remaining : nat) (k : nat) (instanceID : string) (signal : Z) (tried : gset string) (c : client) :
    res proxy_error kill_response * client :=
  match remaining with
  | O => (Err (OtherErr "frontend proxy kill retry exhausted"), c)
  | S remaining =>
      let c := env k c in
      let paused := IsPaused (cl_store c) instanceID in
      let willRetry := negb (remaining =? 0)%nat in
      let '(resolved, c) := resolveKillAddress k instanceID paused tried c in
      match resolved with
      | Err err => (Err err, c)
      | Ok address =>
          let tried := {[ address ]} ∪ tried in
          let '(ok, c) := ClientForAddress address c in
          match ok with
          | Err err =>
              let c := evictFrontendProxyClientOnError (clock k) address err c in
              if paused && willRetry then kill_loop remaining (S k) instanceID signal tried c else (Err err, c)
          | Ok _ =>
              let c := sent k address c in
              let '(answer, r) := kill_answer (clock k) instanceID signal (kill_rpc k address) (cl_reg c) in
              let c := set_reg r c in
              match answer with
              | Ok resp => (Ok resp, c)
              | Err err =>
                  if paused && isPausedLifecycleGatewayRetryable err && willRetry
                  then kill_loop remaining (S k) instanceID signal tried c
                  else if negb (isFrontendProxyRouteStaleStatus err)
                  then (Err err, evictFrontendProxyClientOnError (clock k) address err c)
                  else
                    let c := if negb paused then set_reg (RemoveRouteOnlyInstance instanceID (cl_reg c)) c else c in
                    if negb willRetry then (Err err, c) else kill_loop remaining (S k) instanceID signal tried c
              end
          end
      end
  end.

Definition KillInstanceWithResponse (instanceID : string) (signal : Z) (c : client) : res proxy_error kill_response * client :=
  kill_loop frontendProxyKillMaxAttempts 0 instanceID signal ∅ c.

End calls.
