(* ===== verification/ProxyClientFacts.v ===== *)
(** * Theorems on the calls to proxies *)

From S2P Require Import Prelude GoStrings Json SandboxNetwork Route ExecEndpoint InstanceRegistry ProxyRouting ProxyRoutingFacts ProxyClient.
Open Scope string_scope.

(** ** Selections *)

(** What the loop of [GetNext] returns, whatever the cursor. *)
Lemma get_next_sound n cap excl now d e d' :
  get_next n cap excl now d = (e, d') →
  endpoints d' = endpoints d ∧
  ∀ x, e = Some x → ∃ node, endpoints d !! node = Some x ∧ supports x cap = true ∧ endpointAddress x cap ∉ excl ∧
    IsRoutableAddress (endpointAddress x cap) = true.
Proof.
  revert d. induction n as [|n IH]; intros d H; cbn [get_next] in H; [by injection H as <- <-|].
  set (d1 := set_next _ d) in H. change (endpoints d) with (endpoints d1).
  destruct (endpoints d1 !! _) as [x|] eqn:Ex; [|by apply IH in H].
  destruct (supports x cap) eqn:Es; [|by apply IH in H]. cbn [negb] in H. case_bool_decide as Hx; [by apply IH in H|].
  destruct (isSuspect_spec (endpointAddress x cap) now d1) as (_ & (A1 & _) & _).
  destruct (isSuspectAddressLocked (endpointAddress x cap) now d1) as [b d2]. cbn [snd] in A1.
  destruct (b || _) eqn:Eb; [apply IH in H; by rewrite <- A1|]. injection H as <- <-. split; [done|].
  intros y [= <-]. apply orb_false_iff in Eb as [_ Eb%negb_false_iff]. eauto.
Qed.

Lemma GetNext_sound cap excl now d e d' :
  GetNext cap excl now d = (e, d') →
  endpoints d' = endpoints d ∧
  ∀ x, e = Some x → ∃ node, endpoints d !! node = Some x ∧ supports x cap = true ∧ endpointAddress x cap ∉ excl ∧
    IsRoutableAddress (endpointAddress x cap) = true.
Proof.
  unfold GetNext. destruct (order d); [by intros [= <- <-]|]. apply get_next_sound.
Qed.

(** ** Answers, without their effect on the registry *)

Definition kill_result (instanceID : string) (signal : Z) (answer : res proxy_error (option kill_response)) :
    res proxy_error kill_response :=
  (kill_answer 0 instanceID signal answer empty_registry).1.

Lemma kill_answer_result now id sig a r : (kill_answer now id sig a r).1 = kill_result id sig a.
Proof. unfold kill_result, kill_answer. repeat case_match; done. Qed.

Section loop.
  Context (connect : string → option proxy_error).
  Context (rpc : nat → string → registry → res proxy_error string * registry).
  Context (clock : nat → Z) (ctx_done : nat → bool) (env : nat → client → client).

Local Abbreviation Select := (Select clock ctx_done).
Local Abbreviation ClientForAddress := (ClientForAddress connect).
Local Abbreviation create_loop := (create_loop connect clock ctx_done env rpc).

(** ** What the steps of an attempt do to the state *)

Lemma client_frame a c ok c' :
  ClientForAddress a c = (ok, c') →
  cl_calls c' = cl_calls c ∧ cl_disc c' = cl_disc c ∧ cl_reg c' = cl_reg c ∧ cl_store c' = cl_store c.
Proof. unfold ProxyClient.ClientForAddress. repeat case_match; by intros [= <- <-]. Qed.

Lemma evict_frame now a e c :
  let c' := evictFrontendProxyClientOnError now a e c in
  cl_calls c' = cl_calls c ∧ endpoints (cl_disc c') = endpoints (cl_disc c) ∧ cl_reg c' = cl_reg c ∧ cl_store c' = cl_store c.
Proof.
  unfold evictFrontendProxyClientOnError, EvictAddress, MarkSuspectAddress. repeat case_match; done.
Qed.

Lemma Select_frame k cap excl c x c' :
  Select k cap excl c = (x, c') →
  cl_calls c' = cl_calls c ∧ endpoints (cl_disc c') = endpoints (cl_disc c) ∧ cl_reg c' = cl_reg c ∧
  cl_store c' = cl_store c ∧
  ∀ e, x = Ok e → ∃ node, endpoints (cl_disc c) !! node = Some e ∧ endpointAddress e cap ∉ excl.
Proof.
  unfold ProxyClient.Select. destruct (ctx_done k); [by intros [= <- <-]|].
  destruct (GetNext cap excl (clock k) (cl_disc c)) as [o d] eqn:E. apply GetNext_sound in E as [E1 E2].
  destruct o as [e|]; intros [= <- <-]; split_and!; try done.
  intros e' [= <-]. destruct (E2 e eq_refl) as (node & H1 & _ & H2 & _). eauto.
Qed.

(** ** Create *)

Section create.
  Context (Henv : ∀ k c, cl_calls (env k c) = cl_calls c).
  (** What a proxy answers does not depend on the registry, which the answer changes. *)
  Context (Hrpc : ∀ k a r r', (rpc k a r).1 = (rpc k a r').1).

(** The answer of an attempt. *)
Definition answer_of (k : nat) (a : string) : res proxy_error string := (rpc k a empty_registry).1.

(** Calls that the proxies refused before they dispatched the request. *)
Definition refused (calls : list (nat * string)) : Prop :=
  ∀ k a, (k, a) ∈ calls →
    ∃ err, answer_of k a = Err err ∧ isFrontendProxyCreatePreDispatchStatus err = true.

Lemma create_loop_calls fuel k tried lastErr c result c' :
  NoDup (cl_calls c).*2 → (∀ a, a ∈ (cl_calls c).*2 → a ∈ tried) → refused (cl_calls c) →
  create_loop fuel k tried lastErr c = Some (result, c') →
  NoDup (cl_calls c').*2 ∧
  ((is_ok result = false ∧ refused (cl_calls c')) ∨
   (∃ k' a calls, cl_calls c' = (k', a) :: calls ∧ refused calls ∧ result = answer_of k' a)).
Proof.
  revert k tried lastErr c. induction fuel as [|fuel IH]; intros k tried lastErr c Hn Ht Hr H; cbn [ProxyClient.create_loop] in H; [done|].
  destruct (Select k CapabilityCreate tried (env k c)) as [sel c1] eqn:Es.
  apply Select_frame in Es as (C1 & _ & _ & _ & Hs). rewrite Henv in C1.
  destruct sel as [e|serr].
  2:{ injection H as <- <-. rewrite C1. split; [done|]. by left. }
  destruct (Hs e eq_refl) as (node & _ & Hx). change (endpointAddress e CapabilityCreate) with (GRPCAddress e) in Hx.
  destruct (ClientForAddress (GRPCAddress e) c1) as [ok c2] eqn:Ec. apply client_frame in Ec as (C2 & _).
  destruct ok as [[]|err].
  2:{ destruct (evict_frame (clock k) (GRPCAddress e) err c2) as (C3 & _).
      apply IH in H; [done|by rewrite C3, C2, C1| |by rewrite C3, C2, C1].
      rewrite C3, C2, C1. intros a Ha. apply Ht in Ha. set_solver. }
  destruct (rpc k (GRPCAddress e) (cl_reg (sent k (GRPCAddress e) c2))) as [answer r] eqn:Ea.
  pose proof (Hrpc k (GRPCAddress e) (cl_reg (sent k (GRPCAddress e) c2)) empty_registry) as Hres.
  rewrite Ea in Hres. cbn [fst] in Hres.
  set (c3 := set_reg r (sent k (GRPCAddress e) c2)) in *.
  assert (cl_calls c3 = (k, GRPCAddress e) :: cl_calls c) as C3 by (cbn; by rewrite C2, C1).
  assert (NoDup (cl_calls c3).*2) as Hn3.
  { rewrite C3. cbn. constructor; [|done]. intros Hin. by apply Hx, Ht. }
  destruct answer as [id|err].
  - injection H as <- <-. split; [done|]. right. exists k, (GRPCAddress e), (cl_calls c). split_and!; [done..|by rewrite Hres].
  - destruct (isFrontendProxyCreatePreDispatchStatus err) eqn:Ep.
    + apply IH in H; [done|done| |].
      * rewrite C3. cbn. intros a [->|Ha]%elem_of_cons; [set_solver|]. apply Ht in Ha. set_solver.
      * rewrite C3. intros k' a [[= -> ->]|Ha]%elem_of_cons; [|by apply Hr]. by exists err.
    + injection H as <- <-. destruct (evict_frame (clock k) (GRPCAddress e) err c3) as (C4 & _). rewrite C4.
      split; [done|]. right. exists k, (GRPCAddress e), (cl_calls c). split_and!; [by rewrite C3|done|by rewrite Hres].
Qed.

(** The loop ends with the context. *)
Lemma create_loop_context n k tried lastErr c :
  ctx_done (k + n) = true → is_Some (create_loop (S n) k tried lastErr c).
Proof.
  revert k tried lastErr c. induction n as [|n IH]; intros k tried lastErr c Hd.
  - cbn [ProxyClient.create_loop]. rewrite Nat.add_0_r in Hd. unfold ProxyClient.Select. rewrite Hd. by eexists.
  - assert (∀ tried lastErr c, is_Some (create_loop (S n) (S k) tried lastErr c)) as IH'.
    { intros. apply IH. by rewrite Nat.add_succ_l, <- Nat.add_succ_r. }
    clear IH Hd. revert IH'. generalize (S n). intros m IH. cbn [ProxyClient.create_loop].
    repeat case_match; try (by eexists); apply IH.
Qed.

(** Without interference every attempt uses up one cached proxy. *)
Definition untried (tried : gset string) (c : client) : nat :=
  size (filter (λ kv, GRPCAddress kv.2 ∉ tried) (endpoints (cl_disc c))).

Lemma untried_shrinks tried c node e :
  endpoints (cl_disc c) !! node = Some e → GRPCAddress e ∉ tried →
  (untried ({[ GRPCAddress e ]} ∪ tried) c < untried tried c)%nat.
Proof.
  clear Henv Hrpc. intros He Hx. unfold untried. apply map_subset_size. apply map_subset_alt. split.
  - apply map_filter_subseteq_ext. intros i x _ H. cbn in *. set_solver.
  - exists node. split; [apply map_lookup_filter_None; right; intros x Hx' H; cbn in H; assert (x = e) by congruence; set_solver|].
    exists e. by apply map_lookup_filter_Some.
Qed.

Lemma untried_same tried c c' :
  endpoints (cl_disc c') = endpoints (cl_disc c) → untried tried c' = untried tried c.
Proof. unfold untried. by intros ->. Qed.

Lemma create_loop_total (Hquiet : ∀ k c, env k c = c) fuel k tried lastErr c :
  (untried tried c < fuel)%nat → is_Some (create_loop fuel k tried lastErr c).
Proof.
  revert k tried lastErr c. induction fuel as [|fuel IH]; intros k tried lastErr c Hf; [lia|].
  cbn [ProxyClient.create_loop]. rewrite Hquiet.
  destruct (Select k CapabilityCreate tried c) as [sel c1] eqn:Es.
  apply Select_frame in Es as (_ & E1 & _ & _ & Hs). destruct sel as [e|serr]; [|by eexists].
  destruct (Hs e eq_refl) as (node & He & Hx). change (endpointAddress e CapabilityCreate) with (GRPCAddress e) in Hx.
  pose proof (untried_shrinks tried c node e He Hx) as Hlt.
  destruct (ClientForAddress (GRPCAddress e) c1) as [ok c2] eqn:Ec. apply client_frame in Ec as (_ & E2 & _).
  destruct ok as [[]|err].
  - destruct (rpc _ _ _) as [answer r]. destruct answer as [id|err]; [by eexists|].
    destruct (isFrontendProxyCreatePreDispatchStatus err); [|by eexists]. apply IH.
    rewrite (untried_same _ c); [lia|]. cbn. by rewrite E2, E1.
  - apply IH. destruct (evict_frame (clock k) (GRPCAddress e) err c2) as (_ & E3 & _).
    rewrite (untried_same _ c); [lia|]. by rewrite E3, E2, E1.
Qed.

(** The calls of one create request and its result. *)
Definition dispatched (result : res proxy_error string) (c' : client) : Prop :=
  NoDup (cl_calls c').*2 ∧
  ((is_ok result = false ∧ refused (cl_calls c')) ∨
   (∃ k a calls, cl_calls c' = (k, a) :: calls ∧ refused calls ∧ result = answer_of k a)).

Lemma loop_dispatched fuel c result c' :
  cl_calls c = [] → create_loop fuel 0 ∅ None c = Some (result, c') → dispatched result c'.
Proof.
  intros Hc H. apply (create_loop_calls fuel 0 ∅ None c); rewrite ?Hc; cbn; try done.
  - constructor.
  - intros a Ha. by apply elem_of_nil in Ha.
  - intros k a Ha. by apply elem_of_nil in Ha.
Qed.

Lemma loop_total c :
  (∀ n, ctx_done n = true → is_Some (create_loop (S n) 0 ∅ None c)) ∧
  ((∀ k c, env k c = c) → is_Some (create_loop (S (size (endpoints (cl_disc c)))) 0 ∅ None c)).
Proof.
  split.
  - intros n Hd. by apply create_loop_context.
  - intros Hq. apply create_loop_total; [done|]. unfold untried.
    apply Nat.lt_succ_r, map_subseteq_size, map_filter_subseteq.
Qed.
End create.
End loop.

Section facts.
  Context (connect : string → option proxy_error).
  Context (create_rpc : nat → string → res proxy_error (option create_response)).
  Context (raw_create_rpc : nat → string → res proxy_error (option raw_create_response)).
  Context (clock : nat → Z) (ctx_done : nat → bool) (env : nat → client → client).

Lemma create_call_answer funcID k a r r' :
  (create_call create_rpc clock funcID k a r).1 = (create_call create_rpc clock funcID k a r').1.
Proof. unfold create_call, create_answer. repeat case_match; done. Qed.

Lemma raw_create_call_answer f ext ids k a r r' :
  (raw_create_call raw_create_rpc clock f ext ids k a r).1 = (raw_create_call raw_create_rpc clock f ext ids k a r').1.
Proof. unfold raw_create_call, raw_create_answer. repeat case_match; done. Qed.

(** C7. Creating an instance is dispatched at most once, by the plain and by the
    raw request alike. The request returns, with its context at the latest and,
    if nobody else touches the cache meanwhile, after at most one attempt per
    cached proxy. Whatever other goroutines do to the cache, no proxy was asked
    twice, and either every proxy asked refused before dispatching the request
    and the result is an error, or every one but the last did and the result is
    the answer of the last. *)
Theorem create_dispatched_once funcID ext ids c fuel :
  (∀ k c, cl_calls (env k c) = cl_calls c) → cl_calls c = [] →
  (∃ n, fuel = S n ∧ ctx_done n = true) ∨ (∀ k c, env k c = c) ∧ fuel = S (size (endpoints (cl_disc c))) →
  (∃ result c', CreateInstance connect create_rpc clock ctx_done env fuel funcID c = Some (result, c') ∧
     dispatched (create_call create_rpc clock funcID) result c') ∧
  (∃ result c', CreateInstanceRaw connect raw_create_rpc clock ctx_done env fuel funcID ext ids c = Some (result, c') ∧
     dispatched (raw_create_call raw_create_rpc clock funcID ext ids) result c').
Proof.
  intros Henv Hc Hfuel.
  assert (K : ∀ rpc, (∀ k a r r', (rpc k a r).1 = (rpc k a r').1) →
    ∃ result c', create_loop connect clock ctx_done env rpc fuel 0 ∅ None c = Some (result, c') ∧ dispatched rpc result c').
  { intros rpc Hrpc.
    assert (is_Some (create_loop connect clock ctx_done env rpc fuel 0 ∅ None c)) as [[result c'] E].
    { destruct (loop_total connect rpc clock ctx_done env c) as [H1 H2]. destruct Hfuel as [(n & -> & Hd)|(Hq & ->)]; auto. }
    exists result, c'. split; [done|]. by eapply (loop_dispatched connect). }
  split; apply K; auto using create_call_answer, raw_create_call_answer.
Qed.

(** The loop ends: with its context at the latest, and if nobody else touches
    the cache within one attempt per cached proxy and one more. *)
Theorem create_terminates funcID ext ids c :
  (∀ n, ctx_done n = true →
     is_Some (CreateInstance connect create_rpc clock ctx_done env (S n) funcID c) ∧
     is_Some (CreateInstanceRaw connect raw_create_rpc clock ctx_done env (S n) funcID ext ids c)) ∧
  ((∀ k c, env k c = c) → let fuel := S (size (endpoints (cl_disc c))) in
     is_Some (CreateInstance connect create_rpc clock ctx_done env fuel funcID c) ∧
     is_Some (CreateInstanceRaw connect raw_create_rpc clock ctx_done env fuel funcID ext ids c)).
Proof.
  split; [intros n Hd|intros Hq fuel]; split;
    [eapply (proj1 (loop_total _ _ _ _ _ _)), Hd|eapply (proj1 (loop_total _ _ _ _ _ _)), Hd
    |eapply (proj2 (loop_total _ _ _ _ _ _)), Hq|eapply (proj2 (loop_total _ _ _ _ _ _)), Hq].
Qed.
End facts.

(** ** Kill *)

Section kills.
  Context (connect : string → option proxy_error).
  Context (clock : nat → Z) (ctx_done : nat → bool) (env : nat → client → client).
  Context (kill_rpc : nat → string → res proxy_error (option kill_response)).
  Context (range_order : list string → list string) (ERR_INNER_COMMUNICATION : Z).

Local Abbreviation Select := (Select clock ctx_done).
Local Abbreviation ClientForAddress := (ClientForAddress connect).
Local Abbreviation kill_loop := (kill_loop connect kill_rpc clock ctx_done env range_order ERR_INNER_COMMUNICATION).
Local Abbreviation resolveKillAddress := (resolveKillAddress clock ctx_done range_order).

Lemma GetByNode_frame n cap now d e d' : GetByNode n cap now d = (e, d') → endpoints d' = endpoints d.
Proof.
  unfold GetByNode. repeat case_match; intros [= <- <-]; try done;
    match goal with H : isSuspectAddressLocked ?a ?t ?d = (_, _) |- _ =>
      destruct (isSuspect_spec a t d) as (_ & (A & _) & _); by rewrite H in A end.
Qed.

Lemma Resolve_frame r id cap t now d x d' :
  Resolve range_order r id cap t now d = (x, d') → endpoints d' = endpoints d.
Proof.
  unfold Resolve, resolveFromInstance.
  repeat case_match; intros [= <- <-]; try done; by eapply GetByNode_frame.
Qed.

(** The address of a kill: that of the proxy that owns the instance, by the
    registry or by the cached summary. *)
Lemma kill_address_owner k id excl c a c' :
  resolveKillAddress k id false excl c = (Ok a, c') →
  ∃ node e, endpoints (cl_disc c) !! node = Some e ∧ GRPCAddress e = a ∧ supports e CapabilityKill = true ∧
    IsRoutableAddress a = true ∧
    ((∃ i, GetInstanceByIDAcrossFunctions range_order (cl_reg c) id = Some i ∧ node = TrimSpace (FunctionProxyID i)) ∨
     (∃ s, GetSummary (cl_store c) id = Some s ∧ node = su_NodeID s)).
Proof.
  unfold ProxyClient.resolveKillAddress.
  destruct (Resolve _ _ _ _ _ _ _) as [[route|err] d1] eqn:Er.
  - intros [= <- <-]. unfold Resolve in Er. case_bool_decide; [done|].
    destruct (GetInstanceByIDAcrossFunctions range_order (cl_reg c) id) as [i|] eqn:Ei; [|done].
    assert ((resolveFromInstance i CapabilityKill TransportGRPC (clock k) (cl_disc c)).1 = Ok route) as Hr by by rewrite Er.
    apply resolve_route in Hr as (e & (_ & _ & _ & H4 & H5 & _ & _ & H8) & ->).
    exists (TrimSpace (FunctionProxyID i)), e. split_and!; try done. left. by exists i.
  - apply Resolve_frame in Er. cbn [set_disc cl_store cl_disc].
    destruct (GetSummary (cl_store c) id) as [su|] eqn:Es; [|done]. case_bool_decide; [done|].
    destruct (GetByNode _ _ _ _) as [[e|] d2] eqn:Eg; [|done]. destruct (negb _) eqn:En; [done|].
    intros [= <- <-]. apply GetByNode_spec in Eg as (G1 & G2 & _). rewrite Er in G1.
    exists (su_NodeID su), e. split_and!; try done; [by apply G2|by apply negb_false_iff in En|right; by exists su].
Qed.

Lemma kill_address_calls k id p excl c x c' :
  resolveKillAddress k id p excl c = (x, c') → cl_calls c' = cl_calls c.
Proof.
  unfold ProxyClient.resolveKillAddress. destruct p.
  - destruct (Select k CapabilityKill excl c) as [sel c1] eqn:Es. apply Select_frame in Es as (C1 & _).
    repeat case_match; by intros [= <- <-].
  - repeat case_match; by intros [= <- <-].
Qed.

Section kill.
  Context (Henv : ∀ k c, cl_calls (env k c) = cl_calls c).
  Context (id : string) (sig : Z).

(** A call whose answer allows another attempt. *)
Definition retried (call : nat * string) : Prop :=
  ∃ err, kill_result id sig (kill_rpc call.1 call.2) = Err err ∧
    (isFrontendProxyRouteStaleStatus err = true ∨
     isPausedLifecycleGatewayRetryable ERR_INNER_COMMUNICATION err = true).

(** The calls [new] of one request and its result. *)
Definition kill_calls (n : nat) (c c' : client) (result : res proxy_error kill_response) : Prop :=
  ∃ new, cl_calls c' = (new ++ cl_calls c)%list ∧ (length new ≤ n)%nat ∧ Forall retried (tail new) ∧
    ∀ resp, result = Ok resp → ∃ call, head new = Some call ∧ kill_result id sig (kill_rpc call.1 call.2) = Ok resp.

Lemma kill_calls_none n c c' err : cl_calls c' = cl_calls c → kill_calls n c c' (Err err).
Proof. intros H. exists []. split_and!; [done|cbn; lia|done|done]. Qed.

Lemma kill_calls_one n c c' k a r :
  cl_calls c' = (k, a) :: cl_calls c → r = kill_result id sig (kill_rpc k a) → kill_calls (S n) c c' r.
Proof. intros H ->. exists [(k, a)]. split_and!; [done|cbn; lia|by cbn|]. intros resp Hr. by exists (k, a). Qed.

Lemma kill_calls_more n c c1 c' k a r :
  cl_calls c1 = (k, a) :: cl_calls c → retried (k, a) → kill_calls n c1 c' r → kill_calls (S n) c c' r.
Proof.
  intros H1 Hr (new & H2 & H3 & H4 & H5). exists (new ++ [(k, a)])%list. split_and!.
  - by rewrite <- app_assoc, H2, H1.
  - rewrite length_app. cbn. lia.
  - destruct new as [|x new]; cbn in *; [done|]. apply Forall_app. split; [done|by constructor].
  - intros resp Hresp. destruct (H5 resp Hresp) as (call & Hh & Hk). exists call. split; [|done]. by destruct new.
Qed.

Lemma kill_calls_same n c c1 c' r : cl_calls c1 = cl_calls c → kill_calls n c1 c' r → kill_calls (S n) c c' r.
Proof. intros H (new & H2 & H3 & H4 & H5). exists new. rewrite <- H. split_and!; [done|lia|done|done]. Qed.

Lemma kill_loop_calls n k tried c result c' :
  kill_loop n k id sig tried c = (result, c') → kill_calls n c c' result.
Proof.
  revert k tried c. induction n as [|n IH]; intros k tried c H; cbn [ProxyClient.kill_loop] in H.
  { injection H as <- <-. by apply kill_calls_none. }
  set (p := IsPaused _ id) in H.
  destruct (resolveKillAddress k id p tried (env k c)) as [x c1] eqn:Er. apply kill_address_calls in Er. rewrite Henv in Er.
  destruct x as [a|err]; [|injection H as <- <-; by apply kill_calls_none].
  destruct (ClientForAddress a c1) as [ok c2] eqn:Ec. apply client_frame in Ec as (C2 & _).
  destruct ok as [[]|err].
  2:{ destruct (evict_frame (clock k) a err c2) as (C3 & _). destruct (p && _).
      - eapply kill_calls_same, IH, H. by rewrite C3, C2, Er.
      - injection H as <- <-. apply kill_calls_none. by rewrite C3, C2, Er. }
  destruct (kill_answer _ id sig _ _) as [answer r] eqn:Ea.
  pose proof (kill_answer_result (clock k) id sig (kill_rpc k a) (cl_reg (sent k a c2))) as Hres.
  rewrite Ea in Hres. cbn [fst] in Hres. set (c3 := set_reg r (sent k a c2)) in *.
  assert (cl_calls c3 = (k, a) :: cl_calls c) as C3 by (cbn; by rewrite C2, Er).
  destruct answer as [resp|err]; [injection H as <- <-; by eapply kill_calls_one|].
  destruct (p && _ && _) eqn:E1.
  { apply andb_true_iff in E1 as [[_ E1]%andb_true_iff _]. eapply kill_calls_more; [exact C3| |by eapply IH].
    exists err. split; [done|by right]. }
  destruct (isFrontendProxyRouteStaleStatus err) eqn:E2; cbn [negb] in H.
  2:{ injection H as <- <-. destruct (evict_frame (clock k) a err c3) as (C4 & _).
      eapply kill_calls_one; [by rewrite C4|done]. }
  set (c4 := if negb p then _ else _) in H.
  assert (cl_calls c4 = (k, a) :: cl_calls c) as C4 by (unfold c4; by destruct (negb p)).
  destruct (negb (negb _)).
  - injection H as <- <-. by eapply kill_calls_one.
  - eapply kill_calls_more; [exact C4| |by eapply IH]. exists err. split; [done|by left].
Qed.

(** A kill, a pause or a resume reaches at most two proxies: a second call is
    made only when the first proxy answered that the route is stale or, for a
    paused instance, that the gateway could not be reached behind it; a
    success is the answer of the last proxy called. *)
Theorem kill_attempts c result c' :
  cl_calls c = [] →
  KillInstanceWithResponse connect kill_rpc clock ctx_done env range_order ERR_INNER_COMMUNICATION id sig c = (result, c') →
  (length (cl_calls c') ≤ 2)%nat ∧ Forall retried (tail (cl_calls c')) ∧
  ∀ resp, result = Ok resp →
    ∃ call, head (cl_calls c') = Some call ∧ kill_result id sig (kill_rpc call.1 call.2) = Ok resp.
Proof.
  intros Hc H. apply kill_loop_calls in H as (new & H1 & H2 & H3 & H4). rewrite Hc, app_nil_r in H1. by rewrite H1.
Qed.
End kill.
End kills.

(** ** A concrete client *)

Definition demo_client : client := MkClient demo_cache empty_registry NewStore ∅ [].

(** The first proxy is not wired yet, the second one creates the instance. *)
Definition demo_create (k : nat) (address : string) : res proxy_error (option create_response) :=
  if bool_decide (address = "10.0.0.1:80")
  then Ok (Some (MkCreateResponse (Some (5%Z, "try later", true, frontendProxyControlNotWired)) None ""))
  else Ok (Some (MkCreateResponse None (Some (0%Z, "", "ins-9")) "node-2")).

Definition demo_kill (k : nat) (address : string) : res proxy_error (option kill_response) :=
  Ok (Some (MkKillResponse (Some (6%Z, "moved", true, "route-stale")) None None)).

Local Abbreviation demo_create_instance :=
  (CreateInstance (λ _, None) demo_create (λ _, 0%Z) (λ _, false) (λ _ c, c)).

Example create_dispatched_once_witness :
  ∃ c', demo_create_instance 3 "f" demo_client = Some (Ok "ins-9", c') ∧ NoDup (cl_calls c').*2.
Proof.
  destruct (create_dispatched_once (λ _, None) demo_create (λ _ _, Ok None) (λ _, 0%Z) (λ _, false) (λ _ c, c)
              "f" "" (λ _, "") demo_client 3 (λ _ _, eq_refl) eq_refl) as [(r & c' & E & Hn & _) _].
  { right. split; [done|]. vm_compute. reflexivity. }
  exists c'. split; [|exact Hn]. rewrite E. f_equal. f_equal. vm_compute in E. injection E as <- _. reflexivity.
Defined.

Example create_terminates_witness : is_Some (demo_create_instance 3 "f" demo_client).
Proof.
  exact (proj1 (proj2 (create_terminates (λ _, None) demo_create (λ _ _, Ok None) (λ _, 0%Z) (λ _, false) (λ _ c, c)
           "f" "" (λ _, "") demo_client) (λ _ _, eq_refl))).
Defined.

(** The owner is known from a hint; both attempts find the route stale. *)
Definition demo_owner_client : client := MkClient demo_cache demo_registry NewStore ∅ [].

Local Abbreviation demo_kill_instance :=
  (KillInstanceWithResponse (λ _, None) demo_kill (λ _, 0%Z) (λ _, false) (λ _ c, c) (λ l, l) 7).

Example kill_attempts_witness :
  (length (cl_calls (demo_kill_instance "ins-1" 9 demo_owner_client).2) ≤ 2)%nat ∧
  cl_calls (demo_kill_instance "ins-1" 9 demo_owner_client).2 = [(0%nat, "10.0.0.2:80")].
Proof.
  split; [|vm_compute; reflexivity].
  destruct (demo_kill_instance "ins-1" 9 demo_owner_client) as [r c'] eqn:E.
  destruct (kill_attempts (λ _, None) (λ _, 0%Z) (λ _, false) (λ _ c, c) demo_kill (λ l, l) 7 (λ _ _, eq_refl)
              "ins-1" 9 demo_owner_client r c' eq_refl E) as [H _]. exact H.
Defined.
