(* ===== verification/PendingQueue.v ===== *)
(** Package [wisecloud], queue.go: requests that found no instance wait in a
    queue per function and resource key until an instance comes up, their time
    is over, the cold start fails or the function goes away. With it the
    instance configurations the queues depend on (package
    [instanceconfigmanager]).

    The queues and the inner maps of [queuesMap] are shared by pointer: a
    goroutine that found a map or a queue keeps using it after it has left
    [queuesMap]. Both live in heaps here (lists; an address is an index), and
    the goroutines of the package are the steps of one machine, one step per
    stretch between two lock operations on the manager:

    - [AddPendingRequest] looks up map and queue under the read lock and pushes
      the request; a missing map or queue is made under the write lock, with
      the lock given up before and after;
    - [ProcessInstanceUpdate] serves the queue under the read lock, then
      rechecks and drops an empty queue under the write lock;
    - [timeoutLoop] of each queue, which ticks until [stopCh] is closed;
    - [ProcessQueueEmpty] and [destroy], started with [go], and the goroutine
      of a cold start.

    Sends on a result channel never block for long (capacity one, and the
    caller receives right after [AddPendingRequest]); the answers are a list. *)

From S2P Require Import Prelude GoStrings FifoQueue Lease LeasePool InstanceRegistry.

Local Open Scope string_scope.

(** * Instance configurations *)

Record Configuration := MkConfiguration {
  ic_FuncKey : string; ic_InstanceLabel : string;
  ic_meta : string;              (* instanceMetaData and nuwaRuntimeInfo, as JSON *)
}.

Section configurations.
  (** [json.Unmarshal] of the value: its two fields or an error. *)
  Variable unmarshal_config : string → option string.

Definition validEtcdKeyLenForInsConfig : nat := 12.
Definition validEtcdKeyLenForInsWithLabelConf : nat := 14.

Definition GetLabelFromInstanceConfigEtcdKey (etcdKey : string) : string :=
  let items := Split etcdKey "/" in
  if negb (length items =? validEtcdKeyLenForInsWithLabelConf)%nat then "" else nth 13 items "".

Definition ParseInstanceConfigFromEtcdEvent (etcdKey etcdValue : string) : option Configuration :=
  let items := Split etcdKey "/" in
  if negb (length items =? validEtcdKeyLenForInsConfig)%nat
     && negb (length items =? validEtcdKeyLenForInsWithLabelConf)%nat then None
  else
    let funcKey := nth 7 items "" +:+ "/" +:+ nth 9 items "" +:+ "/" +:+ nth 11 items "" in
    let label := if (length items =? validEtcdKeyLenForInsWithLabelConf)%nat then nth 13 items "" else "" in
    if bool_decide (etcdValue = "") then None
    else MkConfiguration funcKey label <$> unmarshal_config etcdValue.

(** The filter of the watcher: [true] drops the event. *)
Definition GetWatcherFilter (clusterId key : string) : bool :=
  let items := Split key "/" in
  let n := length items in
  (negb (n =? validEtcdKeyLenForInsConfig)%nat && negb (n =? validEtcdKeyLenForInsWithLabelConf)%nat)
  || negb (bool_decide (nth 1 items "" = "instances")) || negb (bool_decide (nth 4 items "" = "cluster"))
  || negb (bool_decide (nth 6 items "" = "tenant")) || negb (bool_decide (nth 8 items "" = "function"))
  || ((n =? validEtcdKeyLenForInsWithLabelConf)%nat && negb (bool_decide (nth 12 items "" = "label")))
  || negb (bool_decide (clusterId = nth 5 items "")).

Abbreviation config_maps := (gmap string (gmap string Configuration)).

(** An event of [subject]: the pointer that is published may be nil. *)
Inductive config_notice := ConfigUpdate (c : Configuration) | ConfigDelete (c : option Configuration).

Definition config_Load (m : config_maps) (funcKey invokeLabel : string) : option Configuration :=
  m !! funcKey ≫= λ cs, cs !! invokeLabel.

Definition config_ProcessUpdate (key value : string) (m : config_maps) : config_maps * list config_notice :=
  match ParseInstanceConfigFromEtcdEvent key value with
  | None => (m, [])
  | Some c =>
      (<[ic_FuncKey c := <[ic_InstanceLabel c := c]> (default ∅ (m !! ic_FuncKey c))]> m, [ConfigUpdate c])
  end.

Definition config_ProcessDelete (key prevValue : string) (m : config_maps) : config_maps * list config_notice :=
  match ParseInstanceConfigFromEtcdEvent key prevValue with
  | None => (m, [])
  | Some c =>
      match m !! ic_FuncKey c with
      | None => (m, [])
      | Some cs =>
          let insConfig := cs !! ic_InstanceLabel c in
          let cs := delete (ic_InstanceLabel c) cs in
          (if (size cs =? 0)%nat then delete (ic_FuncKey c) m else <[ic_FuncKey c := cs]> m,
           [ConfigDelete insConfig])
      end
  end.

End configurations.

(** * Queues *)

(** [pr_caller] stands for the result channel. *)
Record PendingRequest := MkPending { pr_caller : nat; CreatedTime : Z; ScheduleTimeout : Z }.

Inductive PendingResponse := RespInstance (i : InstanceSpecification) | RespError (e : snerror).

Abbreviation answer := (nat * PendingResponse)%type.

Record reqQueue := MkQueue {
  q_funcKey : string;
  q_resSpec : ResSpecKey;
  q_fifo : FifoQueue PendingRequest;
  q_running : bool;
  q_stopped : bool;              (* stopCh is closed *)
  q_loop : bool;                 (* timeoutLoop has not returned *)
  q_cold : nat;                  (* cold starts under way *)
}.

Definition FuncMetaNotFoundErr : snerror := MkSnError 150424 "function metadata not found".
Definition LabelNotFoundErr : snerror := MkSnError 150424 "instance label not found".
Definition TooManyRequestsErr : snerror := MkSnError 200429 "queue has too many requests".
Definition AcquireTimeoutErr : snerror := MkSnError 3009 "instance thread request timeout".

Definition set_fifo (f : FifoQueue PendingRequest) (q : reqQueue) : reqQueue :=
  MkQueue (q_funcKey q) (q_resSpec q) f (q_running q) (q_stopped q) (q_loop q) (q_cold q).
Definition set_flags (running stopped loop : bool) (cold : nat) (q : reqQueue) : reqQueue :=
  MkQueue (q_funcKey q) (q_resSpec q) (q_fifo q) running stopped loop cold.

Definition newQueue (funcKey : string) (resSpec : ResSpecKey) : reqQueue :=
  MkQueue funcKey resSpec (NewFifoQueue None) true false true 0.

Definition destroy (q : reqQueue) : reqQueue :=
  if negb (q_running q) then q else set_flags false true (q_loop q) (q_cold q) q.

Definition queue_limit : nat := 100.

(** The refusal above the limit does not return: the request is pushed as well. *)
Definition addPendingRequest (coldStartProvider : bool) (req : PendingRequest) (q : reqQueue) : reqQueue * list answer :=
  let out := if (queue_limit <=? Len (q_fifo q))%nat then [(pr_caller req, RespError TooManyRequestsErr)] else [] in
  let q := set_fifo (PushBack (q_fifo q) req) q in
  ((if (Len (q_fifo q) =? 1)%nat && coldStartProvider
    then set_flags (q_running q) (q_stopped q) (q_loop q) (S (q_cold q)) q else q), out).

(** [pick k]: what the registry answers the [k]-th time it is asked. *)
Fixpoint handle_loop (fuel : nat) (pick : nat → option InstanceSpecification) (k : nat)
    (f : FifoQueue PendingRequest) : FifoQueue PendingRequest * list answer :=
  match fuel with
  | O => (f, [])
  | S fuel =>
      match Front f with
      | None => (f, [])
      | Some pendingReq =>
          match pick k with
          | None => (f, [])
          | Some instance =>
              let '(f, out) := handle_loop fuel pick (S k) (PopFront f).2 in
              (f, (pr_caller pendingReq, RespInstance instance) :: out)
          end
      end
  end.

Definition handleInstanceUpdate (pick : nat → option InstanceSpecification) (q : reqQueue) : reqQueue * list answer :=
  let '(f, out) := handle_loop (Len (q_fifo q)) pick 0 (q_fifo q) in (set_fifo f q, out).

Fixpoint clear_loop (fuel : nat) (err : snerror) (f : FifoQueue PendingRequest) :
    FifoQueue PendingRequest * list answer :=
  match fuel with
  | O => (f, [])
  | S fuel =>
      match PopFront f with
      | (None, f) => (f, [])
      | (Some pendingReq, f) =>
          let '(f, out) := clear_loop fuel err f in (f, (pr_caller pendingReq, RespError err) :: out)
      end
  end.

Definition clearQueueWithError (err : snerror) (q : reqQueue) : reqQueue * list answer :=
  let '(f, out) := clear_loop (Len (q_fifo q)) err (q_fifo q) in (set_fifo f q, out).

(** Whether a request has waited for longer than its time at a reading of the clock. *)
Definition expired (now : Z) (r : PendingRequest) : bool :=
  (Milliseconds (ScheduleTimeout r) <? Milliseconds (now - CreatedTime r))%Z.

Fixpoint timeout_loop (fuel : nat) (now : nat → Z) (k : nat) (f : FifoQueue PendingRequest) :
    FifoQueue PendingRequest * list answer :=
  match fuel with
  | O => (f, [])
  | S fuel =>
      match Front f with
      | None => (f, [])
      | Some pendingReq =>
          if expired (now k) pendingReq then
            let '(f, out) := timeout_loop fuel now (S k) (PopFront f).2 in
            (f, (pr_caller pendingReq, RespError AcquireTimeoutErr) :: out)
          else (f, [])
      end
  end.

Definition checkQueueTimeout (now : nat → Z) (q : reqQueue) : reqQueue * list answer :=
  let '(f, out) := timeout_loop (Len (q_fifo q)) now 0 (q_fifo q) in (set_fifo f q, out).

(** * The manager and its goroutines *)

(** Where a caller of [AddPendingRequest] is: before its first lookup; without
    the map of its function; with that map, before the lookup of the queue or
    without the queue; with the queue, before the push; or waiting for its
    answer, [refused] when the limit has already answered it. *)
Inductive pc :=
| AtLookup
| AtMakeMap
| AtFindQueue (m : nat)
| AtMakeQueue (m : nat)
| AtPush (q : nat)
| Waiting (refused : bool).

Record caller := MkCaller { c_funcKey : string; c_resSpec : ResSpecKey; c_req : PendingRequest; c_pc : pc }.

(** A call of [ProcessInstanceUpdate] that has served its queue: before its
    check of the length, or after it found the queue empty and before the write
    section. (The check is still under the read lock; a writer may come between
    in the model.) *)
Record updater := MkUpdater { u_funcKey : string; u_resKey : string; u_map : nat; u_queue : nat; u_empty : bool }.

Record manager := MkManager {
  heap : list reqQueue;
  inner : list (gmap string nat);            (* the maps by resource key *)
  queuesMap : gmap string nat;               (* by function key *)
  callers : gmap nat caller;
  updaters : list updater;
  empties : list (string * string);          (* goroutines of ProcessQueueEmpty *)
  destroys : list nat;                       (* goroutines or calls of destroy *)
  answers : list answer;
}.

Definition empty_manager : manager := MkManager [] [] ∅ ∅ [] [] [] [].

Definition with_queues (h : list reqQueue) (i : list (gmap string nat)) (qm : gmap string nat) (s : manager) : manager :=
  MkManager h i qm (callers s) (updaters s) (empties s) (destroys s) (answers s).
Definition with_caller (c : nat) (x : caller) (s : manager) : manager :=
  MkManager (heap s) (inner s) (queuesMap s) (<[c := x]> (callers s)) (updaters s) (empties s) (destroys s) (answers s).
Definition with_work (us : list updater) (es : list (string * string)) (ds : list nat) (s : manager) : manager :=
  MkManager (heap s) (inner s) (queuesMap s) (callers s) us es ds (answers s).
Definition say (out : list answer) (s : manager) : manager :=
  MkManager (heap s) (inner s) (queuesMap s) (callers s) (updaters s) (empties s) (destroys s) (out ++ answers s)%list.

Definition at_pc (p : pc) (x : caller) : caller := MkCaller (c_funcKey x) (c_resSpec x) (c_req x) p.

(** A section on one queue, with what it answers. *)
Definition on_queue (a : nat) (f : reqQueue → reqQueue * list answer) (s : manager) : manager :=
  match heap s !! a with
  | None => s
  | Some q => let '(q, out) := f q in say out (with_queues (<[a := q]> (heap s)) (inner s) (queuesMap s) s)
  end.

Definition inner_map (m : nat) (s : manager) : gmap string nat := default ∅ (inner s !! m).

(** [go queueManager.ProcessQueueEmpty]. *)
Definition spawn_empty (q : reqQueue) (s : manager) : manager :=
  with_work (updaters s) ((q_funcKey q, ResSpecKey_String (q_resSpec q)) :: empties s) (destroys s) s.

Section machine.
  Variable coldStartProvider : bool.
  (** The JSON of resource specifications, as in [InstanceRegistry]. *)
  Variable marshal_resources : gmap string Z → string.
  Variable marshal_resources_spec : gmap string Json.any → string.
  Variable unmarshal_res : string → option ResourceSpecification.

(** The push of a caller, in the read section that ends its [AddPendingRequest]. *)
Definition push (c : nat) (x : caller) (a : nat) (s : manager) : manager :=
  match heap s !! a with
  | None => s
  | Some q =>
      with_caller c (at_pc (Waiting (queue_limit <=? Len (q_fifo q))%nat) x)
        (on_queue a (addPendingRequest coldStartProvider (c_req x)) s)
  end.

(** The lookup of the queue in a map, under the read lock. *)
Definition find_queue (c : nat) (x : caller) (m : nat) (s : manager) : manager :=
  match inner_map m s !! ResSpecKey_String (c_resSpec x) with
  | Some a => push c x a s
  | None => with_caller c (at_pc (AtMakeQueue m) x) s
  end.

(** The start of [AddPendingRequest]: [known] and [configured] say whether the
    function and its configuration for the label are loaded. *)
Definition AddPendingRequest (known configured : bool) (c : nat) (funcKey : string) (resSpec : ResSpecKey)
    (created timeout : Z) (s : manager) : manager :=
  match callers s !! c with
  | Some _ => s
  | None =>
      let x := MkCaller funcKey resSpec (MkPending c created timeout) AtLookup in
      if negb known then say [(c, RespError FuncMetaNotFoundErr)] (with_caller c (at_pc (Waiting false) x) s)
      else if negb configured then say [(c, RespError LabelNotFoundErr)] (with_caller c (at_pc (Waiting false) x) s)
      else with_caller c x s
  end.

(** The next section of a caller. *)
Definition caller_step (c : nat) (s : manager) : manager :=
  match callers s !! c with
  | None => s
  | Some x =>
      match c_pc x with
      | AtLookup =>
          match queuesMap s !! c_funcKey x with
          | Some m => find_queue c x m s
          | None => with_caller c (at_pc AtMakeMap x) s
          end
      | AtMakeMap =>
          match queuesMap s !! c_funcKey x with
          | Some m => with_caller c (at_pc (AtFindQueue m) x) s
          | None =>
              let m := length (inner s) in
              with_caller c (at_pc (AtFindQueue m) x)
                (with_queues (heap s) (inner s ++ [∅])%list (<[c_funcKey x := m]> (queuesMap s)) s)
          end
      | AtFindQueue m => find_queue c x m s
      | AtMakeQueue m =>
          let k := ResSpecKey_String (c_resSpec x) in
          match inner_map m s !! k with
          | Some a => with_caller c (at_pc (AtPush a) x) s
          | None =>
              let a := length (heap s) in
              with_caller c (at_pc (AtPush a) x)
                (with_queues (heap s ++ [newQueue (c_funcKey x) (c_resSpec x)])%list
                   (<[m := <[k := a]> (inner_map m s)]> (inner s)) (queuesMap s) s)
          end
      | AtPush a => push c x a s
      | Waiting _ => s
      end
  end.

(** [ProcessInstanceUpdate] under the read lock. *)
Definition ProcessInstanceUpdate (instance : InstanceSpecification) (pick : nat → option InstanceSpecification)
    (s : manager) : manager :=
  match CreateOptions instance !! functionKeyNote with
  | None => s
  | Some funcKey =>
      match GetResKeyFromStr unmarshal_res marshal_resources marshal_resources_spec (option_of instance ResourceSpecNote) with
      | None => s
      | Some resSpec =>
          match queuesMap s !! funcKey with
          | None => s
          | Some m =>
              let k := ResSpecKey_String resSpec in
              match inner_map m s !! k with
              | None => s
              | Some a =>
                  let s := on_queue a (handleInstanceUpdate pick) s in
                  match heap s !! a with
                  | None => s
                  | Some q =>
                      let s := if (Len (q_fifo q) =? 0)%nat then spawn_empty q s else s in
                      with_work (MkUpdater funcKey k m a false :: updaters s) (empties s) (destroys s) s
                  end
              end
          end
      end
  end.

(** [delete(queues, key)] and, when the map is empty, [delete(m.queuesMap, funcKey)]. *)
Definition drop_entry (funcKey k : string) (m : nat) (s : manager) : manager :=
  let qs := delete k (inner_map m s) in
  with_queues (heap s) (<[m := qs]> (inner s))
    (if (size qs =? 0)%nat then delete funcKey (queuesMap s) else queuesMap s) s.

(** Its check of the length, and its write section. *)
Definition recheck (n : nat) (s : manager) : manager :=
  match updaters s !! n with
  | None => s
  | Some u =>
      let s := with_work (delete n (updaters s)) (empties s) (destroys s) s in
      match heap s !! u_queue u with
      | None => s
      | Some q =>
          if negb (Len (q_fifo q) =? 0)%nat then s
          else if negb (u_empty u)
          then with_work (MkUpdater (u_funcKey u) (u_resKey u) (u_map u) (u_queue u) true :: updaters s)
                 (empties s) (destroys s) s
          else drop_entry (u_funcKey u) (u_resKey u) (u_map u) (on_queue (u_queue u) (λ q, (destroy q, [])) s)
      end
  end.

Definition ProcessQueueEmpty (n : nat) (s : manager) : manager :=
  match empties s !! n with
  | None => s
  | Some (funcKey, k) =>
      let s := with_work (updaters s) (delete n (empties s)) (destroys s) s in
      match queuesMap s !! funcKey with
      | None => s
      | Some m =>
          match inner_map m s !! k with
          | None => s
          | Some a =>
              match heap s !! a with
              | None => s
              | Some q =>
                  if negb (Len (q_fifo q) =? 0)%nat then s
                  else drop_entry funcKey k m (with_work (updaters s) (empties s) (a :: destroys s) s)
              end
          end
      end
  end.

Definition ProcessFunctionDelete (funcKey : string) (s : manager) : manager :=
  match queuesMap s !! funcKey with
  | None => s
  | Some m =>
      with_work (updaters s) (empties s) ((map_to_list (inner_map m s)).*2 ++ destroys s)%list
        (with_queues (heap s) (inner s) (delete funcKey (queuesMap s)) s)
  end.

(** The queues of a function whose resource key carries a label. *)
Definition labelled (label : string) (s : manager) (ka : string * nat) : bool :=
  match heap s !! ka.2 with
  | Some q => bool_decide (rk_InvokeLabel (q_resSpec q) = label)
  | None => false
  end.

(** The configuration is a pointer; dereferencing nil is a panic, [None]. *)
Definition ProcessInsConfigDelete (insConfig : option Configuration) (s : manager) : option manager :=
  match insConfig with
  | None => None
  | Some c => Some
      match queuesMap s !! ic_FuncKey c with
      | None => s
      | Some m =>
          let gone := filter (λ ka, labelled (ic_InstanceLabel c) s ka = true) (inner_map m s) in
          let qs := filter (λ ka, labelled (ic_InstanceLabel c) s ka = false) (inner_map m s) in
          with_work (updaters s) (empties s) ((map_to_list gone).*2 ++ destroys s)%list
            (with_queues (heap s) (<[m := qs]> (inner s))
               (if (size qs =? 0)%nat then delete (ic_FuncKey c) (queuesMap s) else queuesMap s) s)
      end
  end.

Definition destroy_step (n : nat) (s : manager) : manager :=
  match destroys s !! n with
  | None => s
  | Some a => on_queue a (λ q, (destroy q, [])) (with_work (updaters s) (empties s) (delete n (destroys s)) s)
  end.

(** One turn of [timeoutLoop]: a tick, or the closed [stopCh], which ends it. *)
Definition tick (a : nat) (now : nat → Z) (s : manager) : manager :=
  on_queue a (λ q, if q_loop q then checkQueueTimeout now q else (q, [])) s.

Definition loop_stop (a : nat) (s : manager) : manager :=
  match heap s !! a with
  | None => s
  | Some q =>
      if q_loop q && q_stopped q then
        spawn_empty q
          (on_queue a (λ q, let '(q, out) := clearQueueWithError FuncMetaNotFoundErr q in
                            (set_flags (q_running q) (q_stopped q) false (q_cold q) q, out)) s)
      else s
  end.

(** The end of a cold start, with its error. *)
Definition cold_started (a : nat) (err : option snerror) (s : manager) : manager :=
  match heap s !! a with
  | None => s
  | Some q =>
      match q_cold q, err with
      | O, _ => s
      | S n, None => on_queue a (λ q, (set_flags (q_running q) (q_stopped q) (q_loop q) n q, [])) s
      | S n, Some err =>
          spawn_empty q
            (on_queue a (λ q, clearQueueWithError err (set_flags (q_running q) (q_stopped q) (q_loop q) n q)) s)
      end
  end.

Inductive event :=
| Arrive (known configured : bool) (c : nat) (funcKey : string) (resSpec : ResSpecKey) (created timeout : Z)
| CallerStep (c : nat)
| InstanceUpdate (i : InstanceSpecification) (pick : nat → option InstanceSpecification)
| Recheck (n : nat)
| QueueEmpty (n : nat)
| FunctionDelete (funcKey : string)
| InsConfigDelete (c : Configuration)
| Destroy (n : nat)
| Tick (a : nat) (now : nat → Z)
| LoopStop (a : nat)
| ColdStarted (a : nat) (err : option snerror).

Definition step (s : manager) (e : event) : manager :=
  match e with
  | Arrive known configured c f r t w => AddPendingRequest known configured c f r t w s
  | CallerStep c => caller_step c s
  | InstanceUpdate i pick => ProcessInstanceUpdate i pick s
  | Recheck n => recheck n s
  | QueueEmpty n => ProcessQueueEmpty n s
  | FunctionDelete f => ProcessFunctionDelete f s
  | InsConfigDelete c => default s (ProcessInsConfigDelete (Some c) s)
  | Destroy n => destroy_step n s
  | Tick a now => tick a now s
  | LoopStop a => loop_stop a s
  | ColdStarted a err => cold_started a err s
  end.

Definition run (es : list event) : manager := foldl step empty_manager es.

End machine.

(** * Properties

    Facts about the pending request queues: no request is lost or answered
    twice, which queues still serve, and the runs in which the code goes
    wrong. *)



Local Open Scope list_scope.
Local Open Scope nat_scope.

(** * One queue *)

Definition ids (f : FifoQueue PendingRequest) : list nat := pr_caller <$> contents f.

(** A section of a queue answers its requests from the front, in order. *)
Definition served (f : FifoQueue PendingRequest) (r : FifoQueue PendingRequest * list answer) : Prop :=
  fifo_inv r.1 ∧ r.2.*1 ++ ids r.1 = ids f.

Lemma Front_spec f : Front f = head (contents f) :> option PendingRequest.
Proof. unfold Front, contents. by destruct (FifoQueue.queue f). Qed.

Lemma pop_served f r rest out :
  fifo_inv f → Front f = Some r → served (PopFront f).2 (rest, out) → ∀ x, served f (rest, (pr_caller r, x) :: out).
Proof.
  intros Hf Hr [Hi Ho] x. split; [done|]. cbn in *. rewrite Ho. unfold ids.
  destruct (PopFront_spec f Hf) as [_ ->]. rewrite Front_spec in Hr.
  destruct (contents f); [done|]. cbn in *. by injection Hr as ->.
Qed.

Lemma served_refl f : fifo_inv f → served f (f, []).
Proof. by split. Qed.

Lemma handle_served n pick k f : fifo_inv f → served f (handle_loop n pick k f).
Proof.
  revert k f. induction n as [|n IH]; intros k f Hf; cbn; [by apply served_refl|].
  destruct (Front f) as [r|] eqn:Er; [|by apply served_refl].
  destruct (pick k); [|by apply served_refl].
  specialize (IH (S k) _ (PopFront_inv f Hf)). destruct (handle_loop _ _ _ _) as [f' out].
  by apply pop_served.
Qed.

Lemma timeout_served n now k f : fifo_inv f → served f (timeout_loop n now k f).
Proof.
  revert k f. induction n as [|n IH]; intros k f Hf; cbn; [by apply served_refl|].
  destruct (Front f) as [r|] eqn:Er; [|by apply served_refl].
  destruct (expired (now k) r); [|by apply served_refl].
  specialize (IH (S k) _ (PopFront_inv f Hf)). destruct (timeout_loop _ _ _ _) as [f' out].
  by apply pop_served.
Qed.

Lemma clear_served n err f :
  fifo_inv f → Len f <= n → served f (clear_loop n err f) ∧ contents (clear_loop n err f).1 = [].
Proof.
  revert f. induction n as [|n IH]; intros f Hf Hn; cbn.
  - split; [by apply served_refl|]. unfold Len in Hn. unfold contents.
    destruct (FifoQueue.queue f); [done|cbn in Hn; lia].
  - destruct (PopFront_spec f Hf) as [H1 H2]. pose proof (PopFront_inv f Hf) as Hi.
    assert (Front f = (PopFront f).1) as Hfr by (by rewrite Front_spec, H1).
    destruct (PopFront f) as [[r|] f'] eqn:E; cbn in *.
    + destruct (IH f' Hi) as [Hs Hc].
      { unfold Len in *. unfold contents in H2. rewrite <- (length_fmap e_value), H2.
        destruct (FifoQueue.queue f); [|cbn in *; rewrite length_fmap]; cbn in *; lia. }
      destruct (clear_loop n err f') as [f'' out]. cbn in *. split; [|done].
      apply pop_served; [done|done|]. by rewrite E.
    + assert (f' = f) as ->.
      { unfold PopFront in E. destruct (head _); congruence. }
      split; [by apply served_refl|]. cbn. by destruct (contents f).
Qed.

(** A turn of the timeout loop answers all requests up to one, when it and all
    before it are expired at every reading of the clock. *)
Lemma timeout_reaches n now k f i :
  fifo_inv f → i < n → (∀ j r, j <= i → contents f !! j = Some r → ∀ k, expired (now k) r = true) →
  i < length (contents f) → i < length (timeout_loop n now k f).2.
Proof.
  revert k f i. induction n as [|n IH]; intros k f i Hf Hn He Hl; [lia|]. cbn.
  destruct (PopFront_spec f Hf) as [_ Ht]. rewrite Front_spec.
  destruct (contents f) as [|r l] eqn:Ec; cbn in *; [lia|].
  rewrite (He 0 r) by (done || lia).
  destruct (timeout_loop n now (S k) (PopFront f).2) as [f' out] eqn:El. cbn.
  destruct i as [|i]; [lia|]. apply -> Nat.succ_lt_mono.
  specialize (IH (S k) _ i (PopFront_inv f Hf)). rewrite El, Ht in IH. cbn in IH. apply IH; [lia| |lia].
  intros j r' Hj Hr'. apply (He (S j)); [lia|done].
Qed.

(** * Conservation *)

Definition times (c : nat) (l : list nat) : nat := length (filter (λ x, x = c) l).
#[local] Arguments times : simpl never.
#[local] Arguments Nat.leb : simpl never.
#[local] Arguments sum_list_with : simpl never.

Lemma times_app c l l' : times c (l ++ l') = times c l + times c l'.
Proof. unfold times. by rewrite filter_app, length_app. Qed.
Lemma times_cons c x l : times c (x :: l) = (if decide (x = c) then 1 else 0) + times c l.
Proof. unfold times. rewrite filter_cons. by case_decide. Qed.

(** How often a request is queued, how often it was answered, and how many of
    both its state calls for. *)
Definition queued (s : manager) (c : nat) : nat := sum_list ((λ q, times c (ids (q_fifo q))) <$> heap s).
Definition answered (s : manager) (c : nat) : nat := times c (answers s).*1.
Definition owed (s : manager) (c : nat) : nat :=
  match c_pc <$> callers s !! c with
  | Some (Waiting false) => 1
  | Some (Waiting true) => 2
  | _ => 0
  end.

Record conserved (s : manager) : Prop := {
  cs_fifo : Forall (λ q, fifo_inv (q_fifo q)) (heap s);
  cs_name : ∀ c x, callers s !! c = Some x → pr_caller (c_req x) = c;
  cs_owed : ∀ c, queued s c + answered s c = owed s c;
}.

Lemma sum_insert {A} (g : A → nat) l i x y :
  l !! i = Some x → sum_list (g <$> <[i := y]> l) + g x = sum_list (g <$> l) + g y.
Proof.
  revert i. induction l as [|z l IH]; intros [|i] H; try done.
  - injection H as ->. change (g y + sum_list (g <$> l) + g x = g x + sum_list (g <$> l) + g y). lia.
  - pose proof (IH i H). change (g z + sum_list (g <$> <[i := y]> l) + g x = g z + sum_list (g <$> l) + g y). lia.
Qed.

Definition queue_served (q : reqQueue) (r : reqQueue * list answer) : Prop :=
  served (q_fifo q) (q_fifo r.1, r.2).

Lemma conserved_on_queue a g s :
  (∀ q, fifo_inv (q_fifo q) → queue_served q (g q)) → conserved s → conserved (on_queue a g s).
Proof.
  intros Hg [Hf Hn Ho]. unfold on_queue. destruct (heap s !! a) as [q|] eqn:Ea; [|by split].
  assert (fifo_inv (q_fifo q)) as Hq by (rewrite Forall_lookup in Hf; by apply (Hf a)).
  destruct (Hg q Hq) as [Hi Hs]. destruct (g q) as [q' out]. cbn in *. split; cbn.
  - by apply Forall_insert.
  - done.
  - intros c. specialize (Ho c). unfold queued, answered, owed in *. cbn in *. rewrite fmap_app, times_app.
    pose proof (sum_insert (λ q, times c (ids (q_fifo q))) _ _ _ q' Ea) as Hsum. cbn in Hsum.
    rewrite <- Hs, times_app in Hsum. lia.
Qed.

Lemma conserved_frame s s' :
  heap s' = heap s → callers s' = callers s → answers s' = answers s → conserved s → conserved s'.
Proof.
  intros Hh Hc Ha [Hf Hn Ho]. split; [by rewrite Hh|by rewrite Hc|].
  intros c. specialize (Ho c). unfold queued, answered, owed in *. by rewrite Hh, Hc, Ha.
Qed.

Lemma conserved_caller c x p s :
  conserved s → callers s !! c = Some x → owed s c = 0 →
  match p with Waiting _ => False | _ => True end → conserved (with_caller c (at_pc p x) s).
Proof.
  intros [Hf Hn Ho] Hx H0 Hp. split; cbn; [done| |].
  - intros c' x'. rewrite lookup_insert_Some. intros [[<- <-]|[? ?]]; [exact (Hn c x Hx)|by apply Hn].
  - intros c'. unfold queued, answered, owed in *. cbn. specialize (Ho c').
    destruct (decide (c' = c)) as [->|Hne].
    + rewrite lookup_insert_eq. cbn. rewrite H0 in Ho. by destruct p.
    + by rewrite lookup_insert_ne.
Qed.

Section machine.
  Context (cold : bool) (mr : gmap string Z → string) (ms : gmap string Json.any → string)
    (ur : string → option ResourceSpecification).

  Local Abbreviation push := (PendingQueue.push cold).
  Local Abbreviation find_queue := (PendingQueue.find_queue cold).
  Local Abbreviation caller_step := (PendingQueue.caller_step cold).
  Local Abbreviation ProcessInstanceUpdate := (PendingQueue.ProcessInstanceUpdate mr ms ur).
  Local Abbreviation step := (PendingQueue.step cold mr ms ur).
  Local Abbreviation run := (PendingQueue.run cold mr ms ur).

Lemma owed_caller s c x :
  callers s !! c = Some x → owed s c = match c_pc x with Waiting false => 1 | Waiting true => 2 | _ => 0 end.
Proof. unfold owed. by intros ->. Qed.

Lemma add_pending r q :
  q_fifo (addPendingRequest cold r q).1 = PushBack (q_fifo q) r ∧
  (addPendingRequest cold r q).2.*1 = if (queue_limit <=? Len (q_fifo q)) then [pr_caller r] else [].
Proof. unfold addPendingRequest. cbn [fst snd]. split; [by destruct (_ && _)|by destruct (queue_limit <=? _)]. Qed.

Lemma conserved_push c x a s :
  conserved s → callers s !! c = Some x → owed s c = 0 → conserved (push c x a s).
Proof.
  intros [Hf Hn Ho] Hx H0. unfold PendingQueue.push, on_queue. destruct (heap s !! a) as [q|] eqn:Ea; [|by split].
  assert (fifo_inv (q_fifo q)) as Hq by (rewrite Forall_lookup in Hf; by apply (Hf a)).
  destruct (add_pending (c_req x) q) as [Hq' Hout]. rewrite (Hn c x Hx) in Hout.
  destruct (addPendingRequest cold (c_req x) q) as [q' out]. cbn [fst snd] in *.
  split; cbn.
  - apply Forall_insert; [done|]. rewrite Hq'. by apply PushBack_inv.
  - intros c' x'. rewrite lookup_insert_Some. intros [[<- <-]|[? ?]]; [exact (Hn c x Hx)|by apply Hn].
  - intros c'. pose proof (Ho c') as Hc. unfold queued, answered, owed in *. cbn in *.
    pose proof (sum_insert (λ q, times c' (ids (q_fifo q))) _ _ _ q' Ea) as Hsum. cbn in Hsum.
    rewrite Hq' in Hsum. unfold ids in Hsum. rewrite contents_PushBack, fmap_app, times_app in Hsum.
    cbn in Hsum. rewrite times_cons in Hsum. rewrite (Hn c x Hx) in Hsum. change (times c' []) with 0 in Hsum.
    unfold ids in *. rewrite fmap_app, times_app, Hout. destruct (decide (c' = c)) as [->|Hne].
    + rewrite lookup_insert_eq. cbn. rewrite H0 in Hc. rewrite decide_True in Hsum by done.
      destruct (queue_limit <=? Len (q_fifo q)); rewrite ?times_cons, ?decide_True by done;
        change (times c []) with 0; lia.
    + rewrite lookup_insert_ne by done. rewrite <- Hc. rewrite decide_False in Hsum by done.
      destruct (queue_limit <=? Len (q_fifo q)); rewrite ?times_cons, ?decide_False by done;
        change (times c' []) with 0; lia.
Qed.

Lemma served_flags q q' : q_fifo q' = q_fifo q → fifo_inv (q_fifo q) → queue_served q (q', []).
Proof. intros E Hq. unfold queue_served. cbn. rewrite E. by apply served_refl. Qed.

Lemma served_destroy q : fifo_inv (q_fifo q) → queue_served q (destroy q, []).
Proof. apply served_flags. unfold destroy. by destruct (negb _). Qed.

Lemma served_update pick q : fifo_inv (q_fifo q) → queue_served q (handleInstanceUpdate pick q).
Proof.
  intros Hq. unfold queue_served, handleInstanceUpdate.
  pose proof (handle_served (Len (q_fifo q)) pick 0 _ Hq). by destruct (handle_loop _ _ _ _).
Qed.

Lemma served_timeout now q : fifo_inv (q_fifo q) → queue_served q (checkQueueTimeout now q).
Proof.
  intros Hq. unfold queue_served, checkQueueTimeout.
  pose proof (timeout_served (Len (q_fifo q)) now 0 _ Hq). by destruct (timeout_loop _ _ _ _).
Qed.

Lemma served_clear err q : fifo_inv (q_fifo q) → queue_served q (clearQueueWithError err q).
Proof.
  intros Hq. unfold queue_served, clearQueueWithError.
  destruct (clear_served (Len (q_fifo q)) err _ Hq) as [H _]; [lia|]. by destruct (clear_loop _ _ _).
Qed.

Lemma conserved_arrive known configured c f r t w s :
  conserved s → conserved (AddPendingRequest known configured c f r t w s).
Proof.
  intros [Hf Hn Ho]. unfold AddPendingRequest. destruct (callers s !! c) eqn:Ec; [done|].
  assert (owed s c = 0) as H0 by (unfold owed; by rewrite Ec).
  assert (∀ x, pr_caller (c_req x) = c → match c_pc x with Waiting _ => False | _ => True end →
               conserved (with_caller c x s)) as Hpre.
  { intros x Hx Hp. split; cbn; [done| |].
    - intros c' x'. rewrite lookup_insert_Some. intros [[<- <-]|[? ?]]; [done|by apply Hn].
    - intros c'. specialize (Ho c'). unfold queued, answered, owed in *. cbn. destruct (decide (c' = c)) as [->|].
      + rewrite lookup_insert_eq. rewrite H0 in Ho. rewrite Ho. cbn. by destruct (c_pc x).
      + by rewrite lookup_insert_ne. }
  assert (∀ x e, pr_caller (c_req x) = c → c_pc x = Waiting false →
               conserved (say [(c, e)] (with_caller c x s))) as Hans.
  { intros x e Hx Hp. split; cbn; [done| |].
    - intros c' x'. rewrite lookup_insert_Some. intros [[<- <-]|[? ?]]; [done|by apply Hn].
    - intros c'. specialize (Ho c'). unfold queued, answered, owed in *. cbn. rewrite times_cons.
      destruct (decide (c' = c)) as [->|].
      + rewrite lookup_insert_eq. cbn. rewrite Hp, decide_True by done. rewrite H0 in Ho. lia.
      + rewrite lookup_insert_ne, decide_False by done. done. }
  destruct (negb known); [by apply Hans|]. destruct (negb configured); [by apply Hans|by apply Hpre].
Qed.

Lemma conserved_grow s h q :
  h = heap s ++ [q] → ids (q_fifo q) = [] → fifo_inv (q_fifo q) → conserved s →
  ∀ i qm, conserved (with_queues h i qm s).
Proof.
  intros -> Hq Hi [Hf Hn Ho] i qm. split; cbn; [by apply Forall_app_2; [|apply Forall_singleton]|done|].
  intros c. specialize (Ho c). unfold queued, answered, owed in *. cbn. rewrite fmap_app.
  rewrite sum_list_with_app. cbn. rewrite Hq. change (times c []) with 0. unfold sum_list_with at 2. cbn. lia.
Qed.

Lemma conserved_find c x m s :
  conserved s → callers s !! c = Some x → owed s c = 0 → conserved (find_queue c x m s).
Proof.
  intros Hs Hx H0. unfold PendingQueue.find_queue. case_goal; [by apply conserved_push|by apply conserved_caller].
Qed.

Lemma conserved_caller_step c s : conserved s → conserved (caller_step c s).
Proof.
  intros Hs. unfold PendingQueue.caller_step. destruct (callers s !! c) as [x|] eqn:Ex; [|done].
  destruct (c_pc x) eqn:Ep; try done;
    assert (owed s c = 0) as H0 by (by rewrite (owed_caller _ _ _ Ex), Ep).
  - case_goal; [by apply conserved_find|by apply conserved_caller].
  - case_goal; [by apply conserved_caller|].
    apply conserved_caller; [by apply (conserved_frame s)|done|done|done].
  - by apply conserved_find.
  - case_goal; [by apply conserved_caller|]. apply conserved_caller; [|done|done|done].
    by apply (conserved_grow s _ (newQueue (c_funcKey x) (c_resSpec x)) eq_refl); [|apply NewFifoQueue_inv|].
  - by apply conserved_push.
Qed.

Lemma conserved_spawn q s : conserved s → conserved (spawn_empty q s).
Proof. by apply conserved_frame. Qed.

Lemma conserved_drop f k m s : conserved s → conserved (drop_entry f k m s).
Proof. by apply conserved_frame. Qed.

Lemma conserved_step s e : conserved s → conserved (step s e).
Proof.
  intros Hs. destruct e; cbn [PendingQueue.step].
  - by apply conserved_arrive.
  - by apply conserved_caller_step.
  - unfold PendingQueue.ProcessInstanceUpdate. repeat (case_goal; [|done]).
    pose proof (conserved_on_queue n0 (handleInstanceUpdate pick) s (served_update pick) Hs) as H.
    cbn zeta. case_goal; [|done]. eapply conserved_frame; [..|exact H]; by destruct (_ =? _).
  - unfold recheck. case_goal; [|done]. cbn zeta. case_goal; [|by apply (conserved_frame s)].
    destruct (negb _); [by apply (conserved_frame s)|]. destruct (negb _); [by apply (conserved_frame s)|].
    apply conserved_drop, conserved_on_queue; [apply served_destroy|by apply (conserved_frame s)].
  - unfold ProcessQueueEmpty. case_goal; [|done]. destruct p as [f k]. cbn zeta.
    repeat (case_goal; [|by apply (conserved_frame s)]). destruct (negb _); by apply (conserved_frame s).
  - unfold ProcessFunctionDelete. case_goal; [|done]. by apply (conserved_frame s).
  - unfold ProcessInsConfigDelete. cbn. case_goal; [|done]. by apply (conserved_frame s).
  - unfold destroy_step. case_goal; [|done].
    apply conserved_on_queue; [apply served_destroy|by apply (conserved_frame s)].
  - apply conserved_on_queue; [|done]. intros q Hq. destruct (q_loop q); [by apply served_timeout|by apply served_flags].
  - unfold loop_stop. case_goal; [|done]. destruct (_ && _); [|done].
    apply conserved_spawn, conserved_on_queue; [|done]. intros q Hq.
    pose proof (served_clear FuncMetaNotFoundErr q Hq) as Hc. by destruct (clearQueueWithError _ q).
  - unfold cold_started. case_goal; [|done]. destruct (q_cold _); [done|]. case_goal.
    + apply conserved_spawn, conserved_on_queue; [|done]. intros q Hq.
      apply (served_clear _ (set_flags _ _ _ _ q)), Hq.
    + apply conserved_on_queue; [|done]. intros q Hq. by apply served_flags.
Qed.

Lemma conserved_run es : conserved (run es).
Proof.
  unfold PendingQueue.run. apply (foldl_inv conserved).
  - intros s e _. by apply conserved_step.
  - split; cbn; [constructor|intros c x; by rewrite lookup_empty|]. intros c. unfold queued, answered, owed. cbn.
    by rewrite lookup_empty.
Qed.

(** * Which queues serve *)

(** [m] is an inner map with the queue [a] under the key [k]. *)
Definition registered (s : manager) (m : nat) (k : string) (a : nat) : Prop := inner_map m s !! k = Some a.

Definition serving (s : manager) (a : nat) : Prop :=
  a ∉ destroys s ∧ ∃ q, heap s !! a = Some q ∧ q_stopped q = false ∧ q_loop q = true.

Record lively (s : manager) : Prop := {
  lv_maps : ∀ f m, queuesMap s !! f = Some m → m < length (inner s);
  lv_inj : ∀ f f' m, queuesMap s !! f = Some m → queuesMap s !! f' = Some m → f = f';
  lv_bound : ∀ m k a, registered s m k a → a < length (heap s);
  lv_uniq : ∀ m k m' k' a, registered s m k a → registered s m' k' a → m = m' ∧ k = k';
  lv_destroys : ∀ a, a ∈ destroys s → a < length (heap s);
  lv_updaters : ∀ u, u ∈ updaters s → u_queue u < length (heap s) ∧
    ∀ m k, registered s m k (u_queue u) → m = u_map u ∧ k = u_resKey u;
  lv_serving : ∀ f m k a, queuesMap s !! f = Some m → registered s m k a → serving s a;
}.

(** Sections that keep the maps and do not stop a queue. *)
Lemma lively_frame s s' :
  length (heap s') = length (heap s) → inner s' = inner s → queuesMap s' = queuesMap s →
  (∀ u, u ∈ updaters s' → u ∈ updaters s ∨
     ∃ u', u' ∈ updaters s ∧ u_queue u' = u_queue u ∧ u_map u' = u_map u ∧ u_resKey u' = u_resKey u) →
  (∀ a, a ∈ destroys s' → a ∈ destroys s) →
  (∀ a, serving s a → serving s' a) → lively s → lively s'.
Proof.
  intros Hh Hi Hq Hu Hd Hs [L1 L2 L3 L4 L5 L6 L7].
  split; unfold registered, inner_map in *; rewrite ?Hh, ?Hi, ?Hq; try done.
  - intros a Ha. by apply L5, Hd.
  - intros u Hu'. destruct (Hu u Hu') as [H|(u' & H & <- & <- & <-)]; by apply L6.
  - intros f m k a Hf Hr. by apply Hs, (L7 f m k a).
Qed.

(** A section on a queue that does not end it. *)
Lemma serving_on_queue b g s :
  (∀ q, q_stopped q = false → q_loop q = true → q_stopped (g q).1 = false ∧ q_loop (g q).1 = true) →
  ∀ a, serving s a → serving (on_queue b g s) a.
Proof.
  intros Hg a (Hd & q & Ha & Hst & Hl). unfold on_queue. destruct (heap s !! b) as [q'|] eqn:Eb; [|by split; eauto].
  destruct (g q') as [q2 out] eqn:Eg. split; [done|]. cbn. destruct (decide (a = b)) as [->|Hne].
  - exists q2. rewrite list_lookup_insert_eq by (by eapply lookup_lt_Some). split; [done|].
    assert (q' = q) as -> by congruence. specialize (Hg q Hst Hl). by rewrite Eg in Hg.
  - exists q. by rewrite list_lookup_insert_ne.
Qed.

Lemma on_queue_length b g s : length (heap (on_queue b g s)) = length (heap s).
Proof. unfold on_queue. case_goal; [|done]. destruct (g r). cbn. apply length_insert. Qed.

Lemma on_queue_rest b g s :
  inner (on_queue b g s) = inner s ∧ queuesMap (on_queue b g s) = queuesMap s ∧
  updaters (on_queue b g s) = updaters s ∧ destroys (on_queue b g s) = destroys s ∧
  empties (on_queue b g s) = empties s.
Proof. unfold on_queue. case_goal; [|done]. by destruct (g r). Qed.

Lemma lively_on_queue b g s :
  (∀ q, q_stopped q = false → q_loop q = true → q_stopped (g q).1 = false ∧ q_loop (g q).1 = true) →
  lively s → lively (on_queue b g s).
Proof.
  intros Hg. destruct (on_queue_rest b g s) as (Hi & Hq & Hu & Hd & _).
  apply lively_frame; [apply on_queue_length|done|done|rewrite Hu; auto|by rewrite Hd|by apply serving_on_queue].
Qed.

(** The sections that stop a queue: it is in no map that [queuesMap] reaches. *)
Lemma lively_stop b g s :
  (∀ f m k, queuesMap s !! f = Some m → ¬ registered s m k b) → lively s → lively (on_queue b g s).
Proof.
  intros Hb [L1 L2 L3 L4 L5 L6 L7]. destruct (on_queue_rest b g s) as (Hi & Hq & Hu & Hd & _).
  split; unfold registered, inner_map, serving in *; rewrite ?Hi, ?Hq, ?Hu, ?Hd, ?on_queue_length; try done.
  intros f m k a Hf Hr. destruct (L7 f m k a Hf Hr) as (Hnd & q & Ha & Hst & Hl). split; [done|].
  exists q. split; [|done]. unfold on_queue. destruct (heap s !! b) as [q'|] eqn:Eb; [|done].
  destruct (g q') as [q2 out]. cbn. rewrite list_lookup_insert_ne; [done|]. intros ->. by apply (Hb f m k).
Qed.

Lemma lively_with_caller c x s : lively s → lively (with_caller c x s).
Proof. apply lively_frame; auto. Qed.

Lemma lively_say out s : lively s → lively (say out s).
Proof. apply lively_frame; auto. Qed.

Lemma lively_push c x a s : lively s → lively (push c x a s).
Proof.
  intros Hs. unfold PendingQueue.push. case_goal; [|done]. apply lively_with_caller, lively_on_queue; [|done].
  intros q Hst Hl. unfold addPendingRequest. cbn [fst]. by destruct (_ && _).
Qed.

Lemma lively_find c x m s : lively s → lively (find_queue c x m s).
Proof. intros Hs. unfold PendingQueue.find_queue. case_goal; [by apply lively_push|by apply lively_with_caller]. Qed.

Lemma inner_insert m qs h qm m' k a s :
  registered (with_queues h (<[m := qs]> (inner s)) qm s) m' k a →
  (m' = m ∧ qs !! k = Some a) ∨ (m' ≠ m ∧ registered s m' k a).
Proof.
  unfold registered, inner_map. cbn. destruct (decide (m' = m)) as [->|Hne].
  - destruct (decide (m < length (inner s))) as [Hl|Hl].
    + rewrite list_lookup_insert_eq by done. cbn. auto.
    + rewrite list_insert_ge by lia. rewrite lookup_ge_None_2 by lia. cbn. by rewrite lookup_empty.
  - rewrite list_lookup_insert_ne by done. auto.
Qed.

(** A section that replaces one inner map by a part of it, and may forget
    functions in [queuesMap]. *)
Lemma lively_shrink s m qs qm ds :
  qs ⊆ inner_map m s → qm ⊆ queuesMap s →
  (∀ a, a ∈ ds → a ∈ destroys s ∨
     a < length (heap s) ∧ ∀ f m' k, qm !! f = Some m' →
       ¬ registered (with_queues (heap s) (<[m := qs]> (inner s)) qm s) m' k a) →
  lively s →
  lively (with_work (updaters s) (empties s) ds (with_queues (heap s) (<[m := qs]> (inner s)) qm s)).
Proof.
  intros Hqs Hqm Hds [L1 L2 L3 L4 L5 L6 L7].
  assert (∀ m' k a, registered (with_queues (heap s) (<[m := qs]> (inner s)) qm s) m' k a → registered s m' k a) as Hr.
  { intros m' k a [[-> H]|[_ H]]%inner_insert; [|done]. by eapply lookup_weaken. }
  assert (∀ f m', qm !! f = Some m' → queuesMap s !! f = Some m') as Hq by (intros; by eapply lookup_weaken).
  split; cbn.
  - intros f m' Hf. rewrite length_insert. eauto.
  - eauto.
  - intros m' k a H. apply (L3 m' k), Hr, H.
  - intros m1 k1 m2 k2 a H1 H2. apply (L4 m1 k1 m2 k2 a); by apply Hr.
  - intros a Ha. destruct (Hds a Ha) as [H|[H _]]; [by apply L5|done].
  - intros u Hu. destruct (L6 u Hu) as [H1 H2]. split; [done|]. intros m' k H. by apply H2, Hr.
  - intros f m' k a Hf H. destruct (L7 f m' k a (Hq _ _ Hf) (Hr _ _ _ H)) as [Hn Hx].
    split; [|done]. cbn. intros Ha. destruct (Hds a Ha) as [|[_ Hno]]; [done|]. by apply (Hno f m' k).
Qed.

Lemma lively_caller_step c s : lively s → lively (caller_step c s).
Proof.
  intros Hs. unfold PendingQueue.caller_step. destruct (callers s !! c) as [x|] eqn:Ex; [|done].
  destruct (c_pc x) as [| |m|m|a|] eqn:Ep; try done.
  - case_goal; [by apply lively_find|by apply lively_with_caller].
  - destruct (queuesMap s !! c_funcKey x) eqn:Eq; [by apply lively_with_caller|]. apply lively_with_caller.
    destruct Hs as [L1 L2 L3 L4 L5 L6 L7].
    assert (∀ m k a, registered (with_queues (heap s) (inner s ++ [∅]) (<[c_funcKey x:=length (inner s)]> (queuesMap s)) s) m k a →
              registered s m k a) as Hr.
    { intros m k a. unfold registered, inner_map. cbn. rewrite lookup_app. case_goal; [done|]. cbn.
      destruct (_ - _) as [|n]; cbn; by rewrite lookup_empty. }
    split; cbn.
    + intros f m. rewrite length_app, lookup_insert_Some. cbn. intros [[_ <-]|[_ H]]; [lia|]. specialize (L1 f m H). lia.
    + intros f f' m. rewrite !lookup_insert_Some. intros [[<- <-]|[H1 H2]] [[<- H3]|[H3 H4]]; [done|..| by eauto].
      * specialize (L1 _ _ H4). lia.
      * subst. specialize (L1 _ _ H2). lia.
    + intros m k a H. by eapply L3, Hr.
    + intros m k m' k' a H1 H2. eapply L4; by apply Hr.
    + done.
    + intros u Hu. destruct (L6 u Hu) as [H1 H2]. split; [done|]. intros m k H. by apply H2, Hr.
    + intros f m k a. rewrite lookup_insert_Some. intros [[_ <-]|[_ H]] Hk%Hr; [|by eapply L7].
      unfold registered, inner_map in Hk. rewrite lookup_ge_None_2 in Hk by lia. cbn in Hk. by rewrite lookup_empty in Hk.
  - by apply lively_find.
  - case_goal; [by apply lively_with_caller|]. apply lively_with_caller. destruct Hs as [L1 L2 L3 L4 L5 L6 L7].
    set (k0 := ResSpecKey_String (c_resSpec x)) in *. set (h := heap s ++ [newQueue (c_funcKey x) (c_resSpec x)]).
    assert (length h = S (length (heap s))) as Hlen by (unfold h; rewrite length_app; cbn; lia).
    set (s' := with_queues _ _ _ _).
    assert (∀ m' k a, registered s' m' k a →
              (m' = m ∧ k = k0 ∧ a = length (heap s)) ∨ registered s m' k a) as Hr.
    { intros m' k a [[-> H]|[_ H]]%inner_insert; [|auto]. apply lookup_insert_Some in H as [[<- <-]|[_ H]]; auto. }
    assert (∀ a, serving s a → serving s' a) as Hserv.
    { intros a (Hn & q & Ha & Hq). split; [done|]. exists q. split; [|done]. cbn. by apply lookup_app_l_Some. }
    split; cbn; rewrite ?Hlen.
    + intros f m' Hf. rewrite length_insert. eauto.
    + done.
    + intros m' k a [(_ & _ & ->)|H]%Hr; [lia|]. specialize (L3 _ _ _ H). lia.
    + intros m1 k1 m2 k2 a [(-> & -> & ->)|H1]%Hr [(-> & -> & H2')|H2]%Hr; [done| | |by eapply L4].
      * specialize (L3 _ _ _ H2). lia.
      * subst. specialize (L3 _ _ _ H1). lia.
    + intros a Ha. specialize (L5 a Ha). lia.
    + intros u Hu. destruct (L6 u Hu) as [H1 H2]. split; [lia|]. intros m' k [(_ & _ & E)|H]%Hr; [lia|auto].
    + intros f m' k a Hf [(-> & -> & ->)|H]%Hr; [|by eapply Hserv, L7].
      split; cbn; [intros Ha; specialize (L5 _ Ha); lia|]. exists (newQueue (c_funcKey x) (c_resSpec x)).
      split; [|done]. unfold h. rewrite lookup_app_r, Nat.sub_diag by lia. done.
  - by apply lively_push.
Qed.

Lemma lively_spawn q s : lively s → lively (spawn_empty q s).
Proof. apply lively_frame; auto. Qed.

Lemma lively_update i pick s : lively s → lively (ProcessInstanceUpdate i pick s).
Proof.
  intros Hs. unfold PendingQueue.ProcessInstanceUpdate. destruct (CreateOptions i !! _) as [f|]; [|done].
  destruct (GetResKeyFromStr _ _ _ _) as [rk|]; [|done]. destruct (queuesMap s !! f) as [m|]; [|done].
  destruct (inner_map m s !! _) as [a|] eqn:Ea; [|done]. cbn zeta.
  assert (lively (on_queue a (handleInstanceUpdate pick) s)) as Hs'.
  { apply lively_on_queue; [|done]. intros q Hst Hl. unfold handleInstanceUpdate. by destruct (handle_loop _ _ _ _). }
  assert (a < length (heap s)) as Hlt by (by eapply (lv_bound s Hs)).
  assert (registered (on_queue a (handleInstanceUpdate pick) s) m (ResSpecKey_String rk) a) as Hreg.
  { unfold registered, inner_map. destruct (on_queue_rest a (handleInstanceUpdate pick) s) as (-> & _). done. }
  rewrite <- (on_queue_length a (handleInstanceUpdate pick) s) in Hlt.
  revert Hs' Hreg Hlt. generalize (on_queue a (handleInstanceUpdate pick) s). clear. intros s Hs Hreg Hlt.
  destruct (heap s !! a) as [q|] eqn:Eq; [|done].
  assert (∀ s, lively s → registered s m (ResSpecKey_String rk) a → a < length (heap s) →
            lively (with_work (MkUpdater f (ResSpecKey_String rk) m a false :: updaters s) (empties s) (destroys s) s)) as H.
  { clear. intros s [L1 L2 L3 L4 L5 L6 L7] Hreg Hlt. split; cbn; try done.
    intros u [->|Hu]%elem_of_cons; [|by apply L6]. cbn. split; [done|]. intros m' k' H. by eapply L4. }
  destruct (_ =? _); [|by apply H]. by apply (H (spawn_empty q s)); [apply lively_spawn| |].
Qed.

Lemma lively_drop_updater n s : lively s → lively (with_work (delete n (updaters s)) (empties s) (destroys s) s).
Proof. apply lively_frame; try done. intros u Hu. left. eapply elem_of_sublist; [done|]. apply sublist_delete. Qed.

Lemma drop_entry_lively f k m s : lively s → lively (drop_entry f k m s).
Proof.
  intros Hs. unfold drop_entry. cbn zeta.
  apply (lively_shrink s m (delete k (inner_map m s)) _ (destroys s)); [apply delete_subseteq| |auto|done].
  destruct (_ =? _); [apply delete_subseteq|done].
Qed.

Lemma drop_on_queue b g f k m s : drop_entry f k m (on_queue b g s) = on_queue b g (drop_entry f k m s).
Proof. unfold drop_entry, on_queue, inner_map. cbn. destruct (heap s !! b); [|done]. by destruct (g r). Qed.

Lemma lively_recheck n s : lively s → lively (recheck n s).
Proof.
  intros Hs. unfold recheck. destruct (updaters s !! n) as [u|] eqn:Eu; [|done]. cbn zeta.
  pose proof (lv_updaters s Hs u (list_elem_of_lookup_2 _ _ _ Eu)) as [Hlt Hu].
  pose proof (lively_drop_updater n s Hs) as Hs1. set (s1 := with_work (delete n (updaters s)) _ _ _) in *.
  destruct (heap s1 !! u_queue u) as [q|] eqn:Eq; [|done]. destruct (negb (_ =? 0)); [done|]. destruct (negb _).
  { destruct Hs1 as [L1 L2 L3 L4 L5 L6 L7]. split; cbn; try done.
    intros v [->|Hv]%elem_of_cons; [done|]. by apply L6. }
  rewrite drop_on_queue.
  apply lively_stop; [|by apply drop_entry_lively].
  intros f m k Hf [[-> H]|[Hne H]]%inner_insert.
  - apply lookup_delete_Some in H as [Hk H]. destruct (Hu (u_map u) k) as [_ ->]; [done|done].
  - destruct (Hu m k) as [-> _]; done.
Qed.

Lemma lively_queue_empty n s : lively s → lively (ProcessQueueEmpty n s).
Proof.
  intros Hs. unfold ProcessQueueEmpty. destruct (empties s !! n) as [[f k]|]; [|done]. cbn zeta.
  assert (lively (with_work (updaters s) (delete n (empties s)) (destroys s) s)) as Hs1
    by (revert Hs; apply lively_frame; auto).
  set (s1 := with_work _ (delete n (empties s)) _ _) in *.
  destruct (queuesMap s1 !! f) as [m|] eqn:Ef; [|done]. destruct (inner_map m s1 !! k) as [a|] eqn:Ea; [|done].
  destruct (heap s1 !! a) as [q|] eqn:Eq; [|done]. destruct (negb _); [done|].
  assert (∀ m' k', registered (with_queues (heap s1) (<[m := delete k (inner_map m s1)]> (inner s1))
            (queuesMap s1) s1) m' k' a → False) as Hno.
  { intros m' k' H. destruct (inner_insert _ _ _ _ _ _ _ _ H) as [[-> H']|[Hne H']].
    - apply lookup_delete_Some in H' as [Hk H']. by destruct (lv_uniq s1 Hs1 m k m k' a Ea H').
    - by destruct (lv_uniq s1 Hs1 m k m' k' a Ea H'). }
  apply (lively_shrink s1 m (delete k (inner_map m s1)) _ (a :: destroys s1));
    [apply delete_subseteq|destruct (_ =? _); [apply delete_subseteq|done]| |done].
  intros b [->|Hb]%elem_of_cons; [|auto]. right. split; [by eapply (lv_bound s1 Hs1)|].
  intros f' m' k' _ H. by apply (Hno m' k').
Qed.

Lemma lively_function_delete f s : lively s → lively (ProcessFunctionDelete f s).
Proof.
  intros Hs. unfold ProcessFunctionDelete. destruct (queuesMap s !! f) as [m|] eqn:Ef; [|done].
  destruct Hs as [L1 L2 L3 L4 L5 L6 L7]. split; cbn; try done.
  - intros f' m'. rewrite lookup_delete_Some. intros [_ H]. eauto.
  - intros f1 f2 m'. rewrite !lookup_delete_Some. intros [_ H1] [_ H2]. eauto.
  - intros a [H|H]%elem_of_app; [|auto]. apply list_elem_of_fmap in H as ([k a'] & -> & H).
    apply elem_of_map_to_list in H. by eapply L3.
  - intros f' m' k a. rewrite lookup_delete_Some. intros [Hf Hm] Hr.
    destruct (L7 f' m' k a Hm Hr) as [Hn Hx]. split; [|done]. cbn. intros [H|H]%elem_of_app; [|done].
    apply list_elem_of_fmap in H as ([k' a'] & -> & H). apply elem_of_map_to_list in H. cbn in Hr.
    destruct (L4 m k' m' k a' H Hr) as [<- _]. by apply Hf, (L2 f f' m).
Qed.

Lemma lively_config_delete c s : lively s → lively (default s (ProcessInsConfigDelete (Some c) s)).
Proof.
  intros Hs. cbn. destruct (queuesMap s !! ic_FuncKey c) as [m|] eqn:Ef; [|done].
  set (gone := filter _ (inner_map m s)). set (qs := filter _ (inner_map m s)).
  apply lively_shrink; [apply map_filter_subseteq|destruct (_ =? _); [apply delete_subseteq|done]| |done].
  intros a [H|H]%elem_of_app; [|auto]. right. apply list_elem_of_fmap in H as ([k' a'] & -> & H).
  apply elem_of_map_to_list, map_lookup_filter_Some in H as [H Hl]. cbn.
  split; [by eapply (lv_bound s Hs)|]. intros f' m' k _ Hr.
  destruct (inner_insert _ _ _ _ _ _ _ _ Hr) as [[-> Hq]|[Hne Hq]].
  - apply map_lookup_filter_Some in Hq as [Hq Hq']. destruct (lv_uniq s Hs m k' m k a' H Hq) as [_ <-]. congruence.
  - by destruct (lv_uniq s Hs m k' m' k a' H Hq).
Qed.

Lemma lively_destroy n s : lively s → lively (destroy_step n s).
Proof.
  intros Hs. unfold destroy_step. destruct (destroys s !! n) as [a|] eqn:Ea; [|done].
  apply lively_stop.
  - intros f m k Hf Hr. destruct (lv_serving s Hs f m k a Hf Hr) as [Hn _]. apply Hn. by eapply list_elem_of_lookup_2.
  - revert Hs. apply lively_frame; auto.
    + intros b Hb. eapply elem_of_sublist; [done|]. apply sublist_delete.
    + intros b [Hb Hx]. split; [|done]. cbn. contradict Hb. eapply elem_of_sublist; [done|]. apply sublist_delete.
Qed.

Lemma lively_step s e : lively s → lively (step s e).
Proof.
  intros Hs. destruct e; cbn [PendingQueue.step].
  - unfold AddPendingRequest. case_goal; [done|]. destruct (negb _); [by apply lively_say, lively_with_caller|].
    destruct (negb _); [by apply lively_say, lively_with_caller|by apply lively_with_caller].
  - by apply lively_caller_step.
  - by apply lively_update.
  - by apply lively_recheck.
  - by apply lively_queue_empty.
  - by apply lively_function_delete.
  - by apply lively_config_delete.
  - by apply lively_destroy.
  - apply lively_on_queue; [|done]. intros q Hst Hl. rewrite Hl. unfold checkQueueTimeout.
    by destruct (timeout_loop _ _ _ _).
  - unfold loop_stop. destruct (heap s !! a) as [q|] eqn:Ea; [|done]. destruct (q_loop q && q_stopped q) eqn:Eb; [|done].
    apply andb_true_iff in Eb as [_ Eb]. apply lively_spawn, lively_stop; [|done].
    intros f m k Hf Hr. destruct (lv_serving s Hs f m k a Hf Hr) as (_ & q' & Hq & Hst & _). congruence.
  - unfold cold_started. case_goal; [|done]. destruct (q_cold _) as [|n]; [done|]. case_goal.
    + apply lively_spawn, lively_on_queue; [|done]. intros q Hst Hl. unfold clearQueueWithError. cbn.
      by destruct (clear_loop _ _ _).
    + by apply lively_on_queue.
Qed.

Lemma lively_run es : lively (run es).
Proof.
  unfold PendingQueue.run. apply (foldl_inv lively).
  - intros s e _. by apply lively_step.
  - split; cbn; try (intros; set_solver); intros *; unfold registered, inner_map; cbn; rewrite ?lookup_nil; cbn;
      by rewrite ?lookup_empty.
Qed.

Lemma times_lookup c l i : l !! i = Some c → 1 <= times c l.
Proof.
  intros H. apply list_elem_of_lookup_2 in H. apply list_elem_of_split in H as (l1 & l2 & ->).
  rewrite times_app, times_cons, decide_True by done. lia.
Qed.

(** The answers a section on a queue gives to a request it had. *)
Lemma on_queue_answers a g s q c i :
  heap s !! a = Some q → served (q_fifo q) (q_fifo (g q).1, (g q).2) →
  ids (q_fifo q) !! i = Some c → i < length (g q).2 →
  answered s c < answered (on_queue a g s) c.
Proof.
  intros Hq [_ Hs] Hi Hl. unfold on_queue. rewrite Hq. destruct (g q) as [q' out]. cbn in *.
  unfold answered. cbn. rewrite fmap_app, times_app.
  assert (out.*1 !! i = Some c) as Hout.
  { rewrite <- Hs, lookup_app_l in Hi by (by rewrite length_fmap). done. }
  apply times_lookup in Hout. lia.
Qed.

Lemma handle_all n pick k f :
  fifo_inv f → Len f <= n → (∀ k, is_Some (pick k)) → contents (handle_loop n pick k f).1 = [].
Proof.
  revert k f. induction n as [|n IH]; intros k f Hf Hn Hp; cbn.
  - unfold Len in Hn. unfold contents. destruct (FifoQueue.queue f); [done|cbn in Hn; lia].
  - destruct (PopFront_spec f Hf) as [_ Ht]. rewrite Front_spec. destruct (contents f) as [|r l] eqn:Ec; [done|].
    cbn. destruct (Hp k) as [i ->]. specialize (IH (S k) _ (PopFront_inv f Hf)).
    destruct (handle_loop n pick (S k) (PopFront f).2). cbn in *. apply IH; [|done].
    unfold Len, contents in *. rewrite <- (length_fmap e_value), Ht. rewrite <- (length_fmap e_value), Ec in Hn.
    cbn in Hn. cbn. lia.
Qed.

Lemma served_all f r : served f r → contents r.1 = [] → length r.2 = length (ids f).
Proof. intros [_ <-] H. unfold ids. rewrite H, length_app, length_fmap. cbn. lia. Qed.

(** C16. A request that waits is accounted for in every interleaving of callers,
    timeouts, instance and metadata events and cold starts: the copies of it in
    the queues and the answers it got are together one, or two when the limit
    of its queue had answered it before it was queued. So no request is
    dropped without an answer and none is answered twice by the queues. *)
Theorem pending_conserved es c :
  queued (run es) c + answered (run es) c = owed (run es) c.
Proof. apply cs_owed, conserved_run. Qed.

(** C31. Queued requests get their answer. In every reachable state a queue that
    [queuesMap] reaches is running; a tick of its loop answers a request once it
    and all requests before it have waited for too long; when it has been
    stopped its loop answers all of its requests; and an instance event for its
    key answers all of them as long as the registry offers instances. *)
Theorem pending_served es :
  let s := run es in
  (∀ f m k a, queuesMap s !! f = Some m → registered s m k a → serving s a) ∧
  (∀ a q i r, heap s !! a = Some q → q_loop q = true → contents (q_fifo q) !! i = Some r →
     (∀ now, (∀ j r', j <= i → contents (q_fifo q) !! j = Some r' → ∀ k, expired (now k) r' = true) →
        answered s (pr_caller r) < answered (step s (Tick a now)) (pr_caller r)) ∧
     (q_stopped q = true → answered s (pr_caller r) < answered (step s (LoopStop a)) (pr_caller r))) ∧
  (∀ i f rk m a q j r pick,
     CreateOptions i !! functionKeyNote = Some f → GetResKeyFromStr ur mr ms (option_of i ResourceSpecNote) = Some rk →
     queuesMap s !! f = Some m → registered s m (ResSpecKey_String rk) a → heap s !! a = Some q →
     contents (q_fifo q) !! j = Some r → (∀ k, is_Some (pick k)) →
     answered s (pr_caller r) < answered (step s (InstanceUpdate i pick)) (pr_caller r)).
Proof.
  intros s. pose proof (conserved_run es) as [Hf _ _]. fold s in Hf. rewrite Forall_lookup in Hf.
  assert (∀ q i r, contents (q_fifo q) !! i = Some r → ids (q_fifo q) !! i = Some (pr_caller r)) as Hids.
  { intros q i r H. unfold ids. by rewrite list_lookup_fmap, H. }
  assert (∀ q i (r : PendingRequest), contents (q_fifo q) !! i = Some r → i < length (ids (q_fifo q))) as Hlen.
  { intros q i r H. unfold ids. rewrite length_fmap. by eapply lookup_lt_Some. }
  split; [|split].
  - intros f m k a Hq Hr. by eapply lv_serving; [apply lively_run| |].
  - intros a q i r Ha Hl Hr. pose proof (Hf _ _ Ha) as Hinv. split.
    + intros now Hexp. cbn [PendingQueue.step]. unfold tick.
      apply (on_queue_answers a _ s q (pr_caller r) i); [done| |by apply Hids|]; cbn; rewrite Hl.
      * apply (served_timeout now q Hinv).
      * unfold checkQueueTimeout. pose proof (timeout_reaches (Len (q_fifo q)) now 0 (q_fifo q) i Hinv) as H.
        destruct (timeout_loop _ _ _ _). cbn in *. apply H; [|done|by eapply lookup_lt_Some].
        unfold Len. rewrite <- (length_fmap e_value). by eapply lookup_lt_Some.
    + intros Hst. cbn [PendingQueue.step]. unfold loop_stop. rewrite Ha, Hl, Hst. cbn [andb].
      apply (on_queue_answers a _ s q (pr_caller r) i); [done| |by apply Hids|].
      * pose proof (served_clear FuncMetaNotFoundErr q Hinv). by destruct (clearQueueWithError _ q).
      * unfold clearQueueWithError. destruct (clear_served (Len (q_fifo q)) FuncMetaNotFoundErr _ Hinv) as [H1 H2]; [lia|].
        apply served_all in H1; [|done]. destruct (clear_loop _ _ _). cbn in *. rewrite H1. by eapply Hlen.
  - intros i f rk m a q j r pick H1 H2 H3 H4 Ha Hr Hp. pose proof (Hf _ _ Ha) as Hinv.
    cbn [PendingQueue.step]. unfold PendingQueue.ProcessInstanceUpdate. rewrite H1, H2, H3, H4. cbn zeta.
    assert (answered s (pr_caller r) < answered (on_queue a (handleInstanceUpdate pick) s) (pr_caller r)) as H.
    { apply (on_queue_answers a _ s q (pr_caller r) j); [done|by apply served_update|by apply Hids|].
      unfold handleInstanceUpdate. pose proof (handle_all (Len (q_fifo q)) pick 0 _ Hinv (le_n _) Hp) as H.
      pose proof (handle_served (Len (q_fifo q)) pick 0 _ Hinv) as H'. apply served_all in H'; [|done].
      destruct (handle_loop _ _ _ _). cbn in *. rewrite H'. by eapply Hlen. }
    revert H. generalize (on_queue a (handleInstanceUpdate pick) s). intros s' H. case_goal; [|done]. by destruct (_ =? 0).
Qed.

End machine.

(** * Examples *)

Local Open Scope string_scope.

Definition demo_res (label : string) : ResSpecKey := MkResSpecKey 300 128 0 "" "" label.

(** Arrival of a request and its four sections up to the push into a new queue. *)
Definition demo_arrive (c : nat) (timeout : Z) : event := Arrive true true c "t/f/latest" (demo_res "") 0 timeout.
Definition demo_pushed : list event :=
  [demo_arrive 0 1000000000; CallerStep 0; CallerStep 0; CallerStep 0; CallerStep 0; CallerStep 0].

Definition demo_run : list event → manager := run false (λ _, "") (λ _, "") (λ _, None).

Example pending_served_witness :
  queued (demo_run demo_pushed) 0 = 1 ∧ answered (demo_run demo_pushed) 0 = 0 ∧
  answered (demo_run demo_pushed) 0
    < answered (step false (λ _, "") (λ _, "") (λ _, None) (demo_run demo_pushed) (Tick 0 (λ _, 2000000000%Z))) 0.
Proof.
  split; [reflexivity|]. split; [reflexivity|].
  destruct (pending_served false (λ _, "") (λ _, "") (λ _, None) demo_pushed) as (_ & H & _).
  destruct (H 0 (default (newQueue "" (demo_res "")) (heap (demo_run demo_pushed) !! 0)) 0
              (MkPending 0 0 1000000000)) as [Ht _]; [reflexivity..|].
  unfold demo_run. refine (Ht (λ _, 2000000000%Z) _).
  intros [|j] r' Hj Hr k; [|lia]. vm_compute in Hr. injection Hr as <-. reflexivity.
Defined.

(** The function is deleted between the creation of a queue and the push: the
    request goes into a queue whose loop has ended and which no map reaches. *)
Definition demo_lost : list event :=
  [demo_arrive 0 1000000000; CallerStep 0; CallerStep 0; CallerStep 0; CallerStep 0;
   FunctionDelete "t/f/latest"; Destroy 0; LoopStop 0; CallerStep 0].

Theorem push_after_stop_is_lost :
  let s := demo_run demo_lost in
  queued s 0 = 1 ∧ answered s 0 = 0 ∧ queuesMap s = ∅ ∧ destroys s = [] ∧
  (q_loop <$> heap s) = [false] ∧ (q_cold <$> heap s) = [0] ∧
  ∀ now, answered (step false (λ _, "") (λ _, "") (λ _, None) s (Tick 0 now)) 0 = 0.
Proof. repeat split; reflexivity. Qed.

(** Above the limit a request is refused and queued all the same. *)
Theorem refused_request_is_queued cold r q :
  queue_limit <= Len (q_fifo q) →
  (addPendingRequest cold r q).2 = [(pr_caller r, RespError TooManyRequestsErr)] ∧
  contents (q_fifo (addPendingRequest cold r q).1) = (contents (q_fifo q) ++ [r])%list.
Proof.
  intros H. destruct (add_pending cold r q) as [-> _]. split; [|apply contents_PushBack].
  unfold addPendingRequest. cbn [snd]. by apply Nat.leb_le in H as ->.
Qed.

(** Only the front of a queue is checked: a request with a short time waits
    behind one with a long time. *)
Theorem short_timeout_waits :
  let s := demo_run (demo_pushed ++ [demo_arrive 1 1000; CallerStep 1])%list in
  expired 900000000 (MkPending 1 0 1000) = true ∧
  answered (step false (λ _, "") (λ _, "") (λ _, None) s (Tick 0 (λ _, 900000000%Z))) 1 = 0.
Proof. split; reflexivity. Qed.

(** A request that is queued after the event of the instance it waits for is
    not served although the registry has the instance. *)
Definition demo_instance : InstanceSpecification :=
  MkInstance "i" "f" "p" "" (<[functionKeyNote := "t/f/latest"]> ∅) (MkInstanceStatus 3 0 "" 0) (MkExtensions "" "" "").
Definition demo_key (_ : string) : option ResourceSpecification := Some (MkResSpec 300 128 "" ∅ ∅ 0).

Theorem update_before_queueing_is_missed :
  let r := run false (λ _, "") (λ _, "") demo_key in
  answered (r ([demo_arrive 0 1000000000] ++ [InstanceUpdate demo_instance (λ _, Some demo_instance)]
                 ++ tail demo_pushed)%list) 0 = 0 ∧
  answered (r (demo_pushed ++ [InstanceUpdate demo_instance (λ _, Some demo_instance)])%list) 0 = 1.
Proof. split; reflexivity. Qed.

(** Two deletions of one configuration: the second publishes nil, which
    [ProcessInsConfigDelete] dereferences. *)
Theorem second_config_delete_panics s :
  let key := "/instances/business/yrk/cluster/c/tenant/t/function/f/version/v/label/l" in
  let other := "/instances/business/yrk/cluster/c/tenant/t/function/f/version/v" in
  let m0 := (config_ProcessUpdate Some other "{}" (config_ProcessUpdate Some key "{}" ∅).1).1 in
  let m1 := (config_ProcessDelete Some key "{}" m0).1 in
  (config_ProcessDelete Some key "{}" m1).2 = [ConfigDelete None] ∧ ProcessInsConfigDelete None s = None.
Proof. split; reflexivity. Qed.
