(* ===== verification/InvokeResponse.v ===== *)
(** How an invocation is answered: the context of a request, the packages
    [responsehandler] and the error half of [httputil], the HTTP codes of
    [statuscode], and the classification of the errors of the direct proxy
    client (common/util/direct_proxy_error.go).

    The request part of [InvokeProcessContext] does not change while it is
    handled; the rest is the state of the handlers. Raw JSON ([RawMessage]) is
    text; its compaction by [json.Marshal] is a parameter. *)

From S2P Require Import Prelude GoStrings Json LeasePool.

Local Open Scope string_scope.

(** * The context of an invocation *)

Record request := MkRequest {
  r_TraceID : string; r_FuncKey : string; r_AcquireTimeout : Z; r_InvokeWithoutScheduler : bool;
  r_IsInterrupted : bool; r_SessionCtxID : string; r_ReqHeader : gmap string string;
  r_ReqPath : string; r_ReqMethod : string; r_ReqQuery : string; r_ReqBody : string;
  r_NeedReadRespHeader : bool;
}.

Record response := MkResp { StatusCode : Z; RespHeader : gmap string string; RespBody : string }.

Record ictx := MkCtx {
  c_request : request;
  c_RequestID : string; c_ShouldRetry : bool; c_TrafficLimited : bool;
  c_InvokeTimeout : Z; c_RingName : string;
  c_resp : response;
}.

Definition set_resp (r : response) (c : ictx) : ictx :=
  MkCtx (c_request c) (c_RequestID c) (c_ShouldRetry c) (c_TrafficLimited c) (c_InvokeTimeout c) (c_RingName c) r.
Definition set_retry (b : bool) (c : ictx) : ictx :=
  MkCtx (c_request c) (c_RequestID c) b (c_TrafficLimited c) (c_InvokeTimeout c) (c_RingName c) (c_resp c).
Definition set_limited (b : bool) (c : ictx) : ictx :=
  MkCtx (c_request c) (c_RequestID c) (c_ShouldRetry c) b (c_InvokeTimeout c) (c_RingName c) (c_resp c).
Definition set_attempt (id : string) (timeout : Z) (c : ictx) : ictx :=
  MkCtx (c_request c) id (c_ShouldRetry c) (c_TrafficLimited c) timeout (c_RingName c) (c_resp c).
Definition set_ring (ring : string) (c : ictx) : ictx :=
  MkCtx (c_request c) (c_RequestID c) (c_ShouldRetry c) (c_TrafficLimited c) (c_InvokeTimeout c) ring (c_resp c).

(** * Status codes *)

Definition InternalErrorCode : Z := 330404.
Definition FrontendStatusInternalError : Z := 200500.
Definition FuncMetaNotFound : Z := 150424.
Definition ErrInstanceNotFound : Z := 1003.
Definition ErrInstanceExitedCode : Z := 1007.
Definition ErrInstanceCircuitCode : Z := 1009.
Definition ErrInstanceEvicted : Z := 1013.
Definition ErrUserFunctionException : Z := 2002.
Definition ErrRequestBetweenRuntimeBusCode : Z := 3001.
Definition ErrRequestBetweenRuntimeFrontendCode : Z := 3008.
Definition ErrAcquireTimeoutCode : Z := 3009.
Definition ErrSharedMemoryLimited : Z := 4202.
Definition ErrOperateDiskFailed : Z := 4203.
Definition ErrInsufficientDiskSpace : Z := 4204.

(** The entries of [ErrMap] that are not 500, which is also the default. *)
Definition Code (frontendCode : Z) : Z :=
  if (frontendCode =? 0)%Z || (frontendCode =? 200200)%Z then 200
  else if (frontendCode =? 200202)%Z then 202
  else if (frontendCode =? 200204)%Z then 204
  else if (frontendCode =? 200400)%Z then 400
  else if (frontendCode =? 200401)%Z then 401
  else if (frontendCode =? 200403)%Z then 403
  else if (frontendCode =? 200404)%Z then 404
  else if (frontendCode =? 200413)%Z then 413
  else if (frontendCode =? 200429)%Z then 429
  else 500.

(** * Errors *)

(** The errors that reach the invocation handlers: plain ones, [snerror]s and
    those of the direct proxy; the last two carry a code ([snerror.SNError]). *)
Inductive error :=
| PlainErr (message : string)
| SnErr (e : snerror)
| DirectErr (code : Z) (message : string) (retryable : bool) (retryReason : string).

Definition error_text (e : error) : string :=
  match e with PlainErr m => m | SnErr e => sn_message e | DirectErr _ m _ _ => m end.

(** [err.(snerror.SNError)]. *)
Definition as_sn (e : error) : option (Z * string) :=
  match e with
  | PlainErr _ => None
  | SnErr e => Some (sn_code e, sn_message e)
  | DirectErr code m _ _ => Some (code, m)
  end.

(** What the direct proxy client returns: an error with metadata, libruntime's
    [api.ErrorInfo], or any other error. *)
Inductive client_err :=
| ClassifiedErr (code : Z) (retryable : bool) (retryReason : string) (message : string)
| RuntimeErr (code : Z) (message : string)
| OtherErr (message : string).

Definition client_text (e : client_err) : string :=
  match e with ClassifiedErr _ _ _ m | RuntimeErr _ m | OtherErr m => m end.

Definition directProxyPreDispatchReason : string := "pre-dispatch".
Definition directProxyPostDispatchReason : string := "post-dispatch-unknown".
Definition ERR_INNER_COMMUNICATION : Z := 3002.
Definition ERR_INNER_SYSTEM_ERROR : Z := 3003.

(** [timedOut]: [isDirectProxyTimeout] of the cause. *)
Definition transport_text (timedOut : bool) (cause : string) : string :=
  if timedOut then "request timed out" else "request failed: " +:+ cause.

Definition newDirectProxyPreDispatchError (timedOut : bool) (cause : string) : client_err :=
  ClassifiedErr ERR_INNER_COMMUNICATION true directProxyPreDispatchReason (transport_text timedOut cause).
Definition newDirectProxyPostDispatchError (timedOut : bool) (cause : string) : client_err :=
  ClassifiedErr ERR_INNER_SYSTEM_ERROR false directProxyPostDispatchReason (transport_text timedOut cause).

Definition GetDirectProxyErrorMetadata (e : client_err) : option (Z * bool * string) :=
  match e with ClassifiedErr code retryable reason _ => Some (code, retryable, reason) | _ => None end.

(** * responsehandler *)

Record CallResp := MkCallResp {
  cr_Headers : gmap string string; cr_BillingDuration : string; cr_InnerCode : string;
  cr_InvokeSummary : string; cr_LogResult : string; cr_Body : string;
}.

(** A message that is text, or raw JSON. *)
Inductive message := MString (s : string) | MRaw (s : string).

Section responses.
  (** [json.Marshal] of raw JSON: its compact form, or an error when it is not valid. *)
  Variable compact : string → option string.
  (** [json.Unmarshal] into a [CallResp], and into the two fields of an [InitResp]. *)
  Variable unmarshal_call_resp : string → option CallResp.
  Variable unmarshal_init_resp : string → option (string * string).

Definition object_text (code : Z) (message traceID : string) : string :=
  "{" +:+ quote true "code" +:+ ":" +:+ FormatInt code +:+ "," +:+ quote true "message" +:+ ":" +:+ message
  +:+ (if bool_decide (traceID = "") then "" else "," +:+ quote true "trace_id" +:+ ":" +:+ quote true traceID)
  +:+ "}".

Definition marshalJSONResponse (errorCode : Z) (message traceID : string) : option string :=
  (λ m, object_text errorCode m traceID) <$> compact message.

Definition marshalStringResponse (errorCode : Z) (message traceID : string) : string :=
  object_text errorCode (quote true message) traceID.

Definition createErrorResponseBody (errorCode : Z) (message traceID : string) : string :=
  default (marshalStringResponse errorCode message traceID) (marshalJSONResponse errorCode message traceID).

Definition InnerResponseSuccessCode : Z := 0.

Definition generateRespBodyToUser (innerCode : Z) (message : string) : string :=
  if (innerCode =? InnerResponseSuccessCode)%Z then message else createErrorResponseBody innerCode message "".

(** The body is left alone when raw JSON cannot be marshalled. *)
Definition buildResponse (innerCode : Z) (m : message) (c : ictx) (r : response) : response :=
  match m with
  | MString s => MkResp (StatusCode r) (RespHeader r) (marshalStringResponse innerCode s (r_TraceID (c_request c)))
  | MRaw s =>
      match marshalJSONResponse innerCode s (r_TraceID (c_request c)) with
      | Some body => MkResp (StatusCode r) (RespHeader r) body
      | None => r
      end
  end.

Definition HeaderInnerCode : string := "X-Inner-Code".

(** Only the first answer is written: a response with headers stays. *)
Definition SetResponseFromFrontend (innerCode : Z) (m : message) (c : ictx) : ictx :=
  if negb (bool_decide (RespHeader (c_resp c) = ∅)) then c
  else
    set_resp (buildResponse innerCode m c
                (MkResp (Code innerCode) {[ HeaderInnerCode := FormatInt innerCode ]} (RespBody (c_resp c)))) c.

Definition SetErrorInContext (innerCode : Z) (m : message) (c : ictx) : ictx := SetResponseFromFrontend innerCode m c.

(** The headers of the function are copied over the fixed ones when asked for. *)
Definition setHTTPHeader (need : bool) (respMsg : CallResp) (h : gmap string string) : gmap string string :=
  let h := <["X-Billing-Duration" := cr_BillingDuration respMsg]>
             (<["X-Invoke-Summary" := cr_InvokeSummary respMsg]>
               (<["X-Log-Result" := cr_LogResult respMsg]>
                 (<[HeaderInnerCode := cr_InnerCode respMsg]>
                   (<["Content-Type" := "application/json"]> h)))) in
  if need then cr_Headers respMsg ∪ h else h.

(** The texts of the errors of [strconv] and [json] are not modelled. *)
Definition SetResponseFromInvocation (msg : string) (c : ictx) : option snerror * ictx :=
  if negb (bool_decide (RespHeader (c_resp c) = ∅))
  then (Some (MkSnError FrontendStatusInternalError "response has been written"), c)
  else
    match unmarshal_call_resp msg with
    | None => (Some (MkSnError FrontendStatusInternalError "failed to unmarshal call response data"), c)
    | Some respMsg =>
        match Atoi (cr_InnerCode respMsg) with
        | None => (Some (MkSnError FrontendStatusInternalError "invalid inner code"), c)
        | Some innerCode =>
            (None, set_resp (MkResp (Code innerCode)
                               (setHTTPHeader (r_NeedReadRespHeader (c_request c)) respMsg (RespHeader (c_resp c)))
                               (generateRespBodyToUser innerCode (cr_Body respMsg))) c)
        end
    end.

(** * httputil: errors of an invocation *)

(** The kernel may wrap the message in one pair of brackets. *)
Definition strip_brackets (m : string) : string :=
  let n := String.length m in
  match m with
  | String "["%char rest =>
      if (2 <=? n)%nat && bool_decide (str_drop (n - 1) m = "]") then str_take (n - 2) rest else m
  | _ => m
  end.

Definition unmarshalInitResp (m : string) : option (string * string) := unmarshal_init_resp (strip_brackets m).

Definition HandleCreateInstanceError (err : error) (c : ictx) : ictx :=
  let other :=
    let errMessage := error_text err in
    match unmarshalInitResp errMessage with
    | None => SetErrorInContext InternalErrorCode (MString errMessage) c
    | Some (errorCode, m) =>
        match Atoi errorCode with
        | None => SetErrorInContext InternalErrorCode (MString errMessage) c
        | Some errorCode => SetErrorInContext errorCode (MRaw m) c
        end
    end in
  match as_sn err with
  | Some (code, m) =>
      if negb (code =? InternalErrorCode)%Z
      then SetErrorInContext code
             (MString (String quote_char (ReplaceAll m (String quote_char "") "" +:+ String quote_char ""))) c
      else other
  | None => other
  end.

(** [HandleCreateInstanceError] always reports that it has handled the error. *)
Definition HandleInvokeError (err : error) (c : ictx) : ictx := HandleCreateInstanceError err c.

End responses.

(** ** JudgeRetry *)

Definition word_byte (a : ascii) : bool :=
  byte_in 48 57 a || byte_in 65 90 a || byte_in 97 122 a || byte_eq 95 a.

Fixpoint span_word (s : string) : string * string :=
  match s with
  | String a r => if word_byte a then let '(w, rest) := span_word r in (String a w, rest) else ("", s)
  | EmptyString => ("", "")
  end.

(** The regular expressions of the messages of failed invocations (a word after
    the prefix, a separator, the rest) at the leftmost position where they
    match: their two groups. *)
Definition invoke_prefix : string := "failed to invoke, code: ".

Definition match_here (sep s : string) : option (string * string) :=
  if HasPrefix s invoke_prefix then
    let '(w, rest) := span_word (str_drop (String.length invoke_prefix) s) in
    if negb (bool_decide (w = "")) && HasPrefix rest sep then Some (w, str_drop (String.length sep) rest) else None
  else None.

Fixpoint find_match (sep s : string) : option (string * string) :=
  match match_here sep s with
  | Some m => Some m
  | None => match s with EmptyString => None | String _ r => find_match sep r end
  end.

(** The code and the message that the text of an error carries; an empty
    message does not count as a match. *)
Definition getMatches (text : string) : string * string :=
  let keep (m : option (string * string)) := m ≫= λ cm, if bool_decide (cm.2 = "") then None else Some cm in
  match keep (find_match ", message: " text), keep (find_match ",msg: " text) with
  | Some cm, _ | None, Some cm => cm
  | None, None =>
      if Contains text "failed to get invoke response: invokeRsp is nil"
      then ("3008", "failed to get invoke response: invokeRsp is nil")
      else if Contains text "acquire instance timeout" then ("3009", "acquire instance timeout")
      else ("3010", "unknownMsg")
  end.

Definition judged_code (code : Z) : bool :=
  bool_decide (code ∈ [ErrInstanceExitedCode; ErrRequestBetweenRuntimeBusCode; ErrInstanceNotFound;
                       ErrRequestBetweenRuntimeFrontendCode; ErrAcquireTimeoutCode; ErrInstanceCircuitCode;
                       ErrInstanceEvicted]).

Definition JudgeRetry (err : client_err) (c : ictx) : ictx :=
  let code := match err with RuntimeErr code _ => Some code | _ => Atoi (getMatches (client_text err)).1 end in
  match code with
  | Some code => if judged_code code then set_retry true c else c
  | None => c
  end.
