(* ===== verification/Invocation.v ===== *)
(** Package [invocation]: from a request to the answer of the function
    (function_invoke_for_kernel.go, doinvoke.go, direct_invoke.go), with the
    helpers of common/util/common.go, resspeckey and httputil it uses.

    One turn of the loop of [invoke] is an [attempt]: a record of what the rest
    of the program answers in it (the clock, the lease managers, the scheduler
    registry, the instance registry, the pending queue, the direct proxy). The
    calls that matter outside are logged as [action]s, newest first. The pool
    of leases, the registry of schedulers and the queue are the components of
    LeasePool, SchedulerProxy, InstanceRegistry and PendingQueue; here any of
    their answers is allowed. *)

From S2P Require Import Prelude GoStrings Lease SchedulerProxy LeasePool InstanceRegistry Json InvokeResponse.

Local Open Scope string_scope.

(** * Data *)

(** The fields of [types.FuncSpec] that the package reads. *)
Record FuncSpec := MkFuncSpec {
  fs_FunctionKey : string; fs_FuncMetaSignature : string; fs_Timeout : Z; fs_BusinessType : string;
  fs_TenantID : string; fs_Runtime : string; fs_InitTimeout : Z; fs_EnableSessionCtx : bool;
  fs_CPU : Z; fs_Memory : Z; fs_CustomResources : string; fs_CustomResourcesSpec : string;
  fs_EphemeralStorage : Z;
}.

Record CallReq := MkCallReq {
  cq_Header : gmap string string; cq_Path : string; cq_Method : string; cq_Query : string; cq_Body : string }.

(** The fields of [util.InvokeRequest] that [convert] fills; [ir_Args] are the data of the arguments. *)
Record InvokeRequest := MkInvokeRequest {
  ir_Function : string; ir_InstanceID : string; ir_TraceID : string; ir_TraceParent : string;
  ir_Args : list string; ir_SchedulerID : string; ir_SchedulerFuncKey : string; ir_RequestID : string;
  ir_FuncSig : string; ir_PoolLabel : string; ir_InstanceSession : option InstanceSessionConfig;
  ir_InvokeTag : gmap string string; ir_InstanceLabel : string; ir_ResourceSpecs : gmap string Z;
  ir_AcquireTimeout : Z; ir_InvokeTimeout : Z; ir_TrafficLimited : bool; ir_BusinessType : string;
  ir_TenantID : string; ir_AcceptHeader : string; ir_RouteAddress : string; ir_BypassDataSystem : bool;
  ir_ForceInvoke : bool; ir_IsInterrupted : bool; ir_SessionCtxID : string;
}.

(** [kernelRequestHandler]; the context is passed beside it. *)
Record kernelRequestHandler := MkKernel {
  k_spec : FuncSpec;
  k_resSpecKeyStr : string;
  k_alloc : option InstanceAllocationInfo;
  k_startTime : Z;
  k_downgrade : bool;
  k_unexpectedInstances : list string;
  k_scheduler : option InstanceInfo;
  k_ringName : string;
  k_session : InstanceSessionConfig;
}.

Definition with_alloc (a : option InstanceAllocationInfo) (k : kernelRequestHandler) : kernelRequestHandler :=
  MkKernel (k_spec k) (k_resSpecKeyStr k) a (k_startTime k) (k_downgrade k) (k_unexpectedInstances k)
    (k_scheduler k) (k_ringName k) (k_session k).
Definition with_downgrade (b : bool) (k : kernelRequestHandler) : kernelRequestHandler :=
  MkKernel (k_spec k) (k_resSpecKeyStr k) (k_alloc k) (k_startTime k) b (k_unexpectedInstances k)
    (k_scheduler k) (k_ringName k) (k_session k).
Definition with_unexpected (l : list string) (k : kernelRequestHandler) : kernelRequestHandler :=
  MkKernel (k_spec k) (k_resSpecKeyStr k) (k_alloc k) (k_startTime k) (k_downgrade k) l
    (k_scheduler k) (k_ringName k) (k_session k).
Definition with_scheduler (s : option InstanceInfo) (k : kernelRequestHandler) : kernelRequestHandler :=
  MkKernel (k_spec k) (k_resSpecKeyStr k) (k_alloc k) (k_startTime k) (k_downgrade k) (k_unexpectedInstances k)
    s (k_ringName k) (k_session k).
Definition with_ring_name (r : string) (k : kernelRequestHandler) : kernelRequestHandler :=
  MkKernel (k_spec k) (k_resSpecKeyStr k) (k_alloc k) (k_startTime k) (k_downgrade k) (k_unexpectedInstances k)
    (k_scheduler k) r (k_session k).

(** What the rest of the program answers during one turn of the loop. *)
Record attempt := MkAttempt {
  at_now : Z;                                          (* the clock, in nanoseconds *)
  at_uuid : string;                                    (* the new request ID *)
  at_blueRatio : Z;
  at_libruntime : bool;                                (* the way schedulers are reached *)
  at_acquire : string → res snerror (option InstanceAllocationInfo);   (* the manager of a ring *)
  at_scheduler : option InstanceInfo;                  (* GetByAcquireOption; None also for its error *)
  at_noScheduler : bool;                               (* IsEmpty *)
  at_registry : registry;
  at_pending : res snerror (option InstanceSpecification);             (* the pending queue *)
  at_reply : string * option client_err;               (* DirectProxyClient.Invoke *)
}.

Inductive action :=
| Acquire (ring : string) (a : InstanceAllocationInfo)
| Release (ring : string) (a : InstanceAllocationInfo) (abnormal : bool)
| Send (r : InvokeRequest) (reply : string * option client_err).

(** * Helpers *)

Definition needRetryCode (code : Z) : bool :=
  bool_decide (code ∈ [ErrInstanceNotFound; ErrInstanceExitedCode; ErrInstanceCircuitCode; ErrInstanceEvicted;
                       ErrRequestBetweenRuntimeBusCode; code_ErrInnerCommunication;
                       ErrRequestBetweenRuntimeFrontendCode; ErrSharedMemoryLimited; ErrOperateDiskFailed;
                       ErrInsufficientDiskSpace; ErrFinalized]).

Definition instanceIsAbnormal (code : Z) : bool :=
  bool_decide (code ∈ [ErrInstanceNotFound; ErrInstanceExitedCode; ErrInstanceEvicted; ErrUserFunctionException]).

(** [math.Trunc] of the seconds; exact for a float64 up to some forty days. *)
Definition computeTimeout (originTimeout now beginTime : Z) : Z :=
  wrapS 64 (originTimeout - Z.quot (now - beginTime) 1000000000).

Definition AcquireLeaseTrafficLimitErrorCode : Z := 6037.

Definition fold_eq (a b : string) : bool := bool_decide (fold_name a = fold_name b).

Definition GetCompatibleHeader (headers : gmap string string) (primaryHeader secondaryHeader : string) : string :=
  match headers !! primaryHeader with
  | Some value => if negb (bool_decide (value = "")) then value else default "" (headers !! secondaryHeader)
  | None => default "" (headers !! secondaryHeader)
  end.

Definition GetAcquireTimeout (f : FuncSpec) : Z :=
  let acquireTimeout := (if bool_decide (fs_Runtime f = "custom image") then fs_InitTimeout f + 300 else fs_InitTimeout f)%Z in
  (if 0 <? acquireTimeout then acquireTimeout + 2 * 2 + 5 else acquireTimeout)%Z.

(** The decoders of the two small error structs. *)
Definition decode_code_message (codeName messageName text : string) : option (Z * string) :=
  Unmarshal text ≫= to_struct (0%Z, "")
    (λ kvs, match int_field codeName kvs, string_field messageName kvs with
            | Some c, Some m => Some (c, m)
            | _, _ => None
            end).

Definition checkErrorMsg (msg : string) : option snerror :=
  if (String.length msg =? 0)%nat then None
  else
    match decode_code_message "code" "message" msg with
    | Some (c, m) => if negb (c =? 0)%Z && negb (bool_decide (m = "")) then Some (MkSnError c m) else None
    | None => None
    end.

(** A decoding error is only logged here, and a value of another type leaves
    its field alone. *)
Definition lenient_field {A} (conv : any → option A) (zero : A) (name : string) (kvs : list (string * any)) : A :=
  foldl (λ a kv, if fold_eq kv.1 name then default a (conv kv.2) else a) zero kvs.

Definition checkInstanceResp (notifyMsg : string) : option snerror :=
  if (String.length notifyMsg =? 0)%nat then None
  else
    match Unmarshal notifyMsg with
    | Some (JObject kvs) =>
        let c := lenient_field to_int 0%Z "errorCode" kvs in
        let m := lenient_field to_string "" "errorMessage" kvs in
        if negb (c =? 0)%Z && negb (bool_decide (m = "")) then Some (MkSnError c m) else None
    | _ => None
    end.

Definition decode_session (text : string) : option InstanceSessionConfig :=
  Unmarshal text ≫= to_struct (MkSession "" 0 0)
    (λ kvs, match string_field "sessionID" kvs, int_field "sessionTTL" kvs, int_field "concurrency" kvs with
            | Some i, Some t, Some c => Some (MkSession i t c)
            | _, _, _ => None
            end).

Section invocation.
  (** The order in which a [range] visits the keys of a map. *)
  Variable order : list string → list string.
  (** [json.Unmarshal] into maps: what it leaves in the map, and whether it succeeded. *)
  Variable unmarshal_ints : string → gmap string Z * bool.
  Variable unmarshal_anys : string → gmap string any * bool.
  Variable unmarshal_tags : string → gmap string string * bool.
  (** [json.Marshal] of a [CallReq], which fails when the body is not JSON, and of the resource maps. *)
  Variable marshal_call_req : CallReq → option string.
  Variable marshal_resources : gmap string Z → string.
  Variable marshal_resources_spec : gmap string any → string.
  (** [localauth.Decrypt]. *)
  Variable Decrypt : string → option string.
  (** [BusinessType] of the configuration. *)
  Variable wisecloud functiongraph : bool.
  Variable compact : string → option string.
  Variable unmarshal_call_resp : string → option CallResp.
  Variable unmarshal_init_resp : string → option (string * string).

  Local Abbreviation SetErrorInContext := (InvokeResponse.SetErrorInContext compact).
  Local Abbreviation HandleInvokeError := (InvokeResponse.HandleInvokeError compact unmarshal_init_resp).
  Local Abbreviation SetResponseInContext := (InvokeResponse.SetResponseFromInvocation compact unmarshal_call_resp).

(** ** Resources and headers *)

Definition PeekIgnoreCase (reqHeader : gmap string string) (name : string) : string :=
  match reqHeader !! name with
  | Some value => value
  | None => default "" (first_some (λ key, if fold_eq key name then reqHeader !! key else None)
                          (order (map_to_list reqHeader).*1))
  end.

Definition HeaderCPUSize : string := "X-Instance-Cpu".
Definition HeaderMemorySize : string := "X-Instance-Memory".
Definition HeaderInstanceSession : string := "X-Instance-Session".
Definition ResourceCPUName : string := "CPU".
Definition ResourceMemoryName : string := "Memory".
Definition MinCustomResourcesSize : Z := 0.

(** The custom resources above the minimum, over what is there. *)
Definition add_custom (custom resourceSpecs : gmap string Z) : gmap string Z :=
  filter (λ kv, (MinCustomResourcesSize < kv.2)%Z) custom ∪ resourceSpecs.

Definition header_size (c : ictx) (header : string) (dflt : Z) : Z :=
  let s := PeekIgnoreCase (r_ReqHeader (c_request c)) header in
  if bool_decide (s = "") then dflt else default dflt (Atoi s).

Definition setCPUMemory (c : ictx) (f : FuncSpec) (resourceSpecs : gmap string Z) : gmap string Z :=
  <[ResourceMemoryName := header_size c HeaderMemorySize (fs_Memory f)]>
    (<[ResourceCPUName := header_size c HeaderCPUSize (fs_CPU f)]> resourceSpecs).

Definition ConvertResourceSpecs (c : ictx) (f : FuncSpec) : res error (gmap string Z) :=
  if wisecloud then Ok ∅
  else
    let resourceSpecs := setCPUMemory c f ∅ in
    if bool_decide (fs_CustomResources f = "") then Ok resourceSpecs
    else
      match unmarshal_ints (fs_CustomResources f) with
      | (_, false) => Err (PlainErr "failed to unmarshal custom resources")
      | (custom, true) => Ok (add_custom custom resourceSpecs)
      end.

(** A size from the headers counts here only when it is positive. *)
Definition positive_size (c : ictx) (header : string) (dflt : Z) : Z :=
  let s := PeekIgnoreCase (r_ReqHeader (c_request c)) header in
  if bool_decide (s = "") then dflt
  else match Atoi s with Some n => if (n <=? 0)%Z then dflt else n | None => dflt end.

Definition getAcquireReqCPUAndMemory (c : ictx) (f : FuncSpec) : Z * Z :=
  (positive_size c HeaderCPUSize (fs_CPU f), positive_size c HeaderMemorySize (fs_Memory f)).

Definition ConvertResourceMetaDataToResSpec (f : FuncSpec) : ResourceSpecification :=
  let customResources := if bool_decide (fs_CustomResources f = "") then ∅ else (unmarshal_ints (fs_CustomResources f)).1 in
  let spec := (unmarshal_anys (fs_CustomResourcesSpec f)).1 in
  let spec :=
    match customResources !! "huawei.com/ascend-1980", spec !! "instanceType" with
    | Some _, None => <["instanceType" := JString "376T"]> spec
    | _, _ => spec
    end in
  MkResSpec (fs_CPU f) (fs_Memory f) "" customResources spec (fs_EphemeralStorage f).

Definition convertResSpecKey (c : ictx) (f : FuncSpec) : ResSpecKey :=
  let invokeLabel := PeekIgnoreCase (r_ReqHeader (c_request c)) HeaderInstanceLabel in
  let '(cpu, memory) := getAcquireReqCPUAndMemory c f in
  let r := ConvertResourceMetaDataToResSpec f in
  ConvertToResSpecKey marshal_resources marshal_resources_spec
    (MkResSpec cpu memory invokeLabel (rs_CustomResources r) (rs_CustomResourcesSpec r) (rs_EphemeralStorage r)).

Definition convertInvokeTag (c : ictx) : gmap string string :=
  match r_ReqHeader (c_request c) !! "X-Invoke-Tag" with
  | None => ∅
  | Some v => if bool_decide (v = "") then ∅ else (unmarshal_tags v).1
  end.

Definition prepareDynamicResource (c : ictx) : res error (gmap string Z) :=
  let h := r_ReqHeader (c_request c) in
  let cpuBytes := default "" (h !! HeaderCPUSize) in
  let memoryBytes := default "" (h !! HeaderMemorySize) in
  let customResourcesString := GetCompatibleHeader h "X-Instance-Custom-Resource" "X-Instance-CustomResource" in
  let sizes : res error (gmap string Z) :=
    if negb (bool_decide (cpuBytes = "")) && negb (bool_decide (memoryBytes = "")) then
      match Atoi cpuBytes, Atoi memoryBytes with
      | Some cpu, Some memory => Ok (<[ResourceMemoryName := memory]> {[ ResourceCPUName := cpu ]})
      | _, _ => Err (PlainErr "invalid size")
      end
    else Ok ∅ in
  match sizes with
  | Err e => Err e
  | Ok sizes =>
      if bool_decide (customResourcesString = "") then Ok sizes
      else
        match unmarshal_ints customResourcesString with
        | (_, false) => Err (PlainErr "failed to unmarshal custom resources")
        | (custom, true) => Ok (add_custom custom sizes)
        end
  end.

(** ** The request to the instance *)

Definition decryptHeaderToExtra (header : gmap string string) (headerName : string) : gmap string string :=
  let v := default "" (header !! headerName) in
  if bool_decide (v = "") then header else <[headerName := default "" (Decrypt v)]> header.

Definition decryptSensitiveHeader (header : gmap string string) : gmap string string :=
  foldl decryptHeaderToExtra header
    ["X-Access-Key"; "X-Secret-Key"; "X-Auth-Token"; "X-Security-Access-Key"; "X-Security-Secret-Key"; "X-Security-Token"].

Definition TranslateInvokeMsgToCallReq (c : ictx) : res error string :=
  let r := c_request c in
  let header := r_ReqHeader r in
  let header := if wisecloud then <["X-Cff-Request-Id" := r_TraceID r]> header else header in
  let header := if functiongraph then <["X-Request-Id" := r_TraceID r]> (decryptSensitiveHeader header) else header in
  let header := <["X-Trace-Id" := r_TraceID r]> header in
  match marshal_call_req (MkCallReq header (r_ReqPath r) (r_ReqMethod r) (r_ReqQuery r)
                            (if (String.length (r_ReqBody r) =? 0)%nat then "{}" else r_ReqBody r)) with
  | Some m => Ok m
  | None => Err (PlainErr "failed to marshal request data")
  end.

Definition convertResourceSpecs (c : ictx) (specs : gmap string Z) : res error (gmap string Z) * ictx :=
  match prepareDynamicResource c with
  | Err e => (Err e, SetErrorInContext FrontendStatusInternalError (MString (error_text e)) c)
  | Ok dynamic =>
      (Ok (if (0 <? default 0 (dynamic !! ResourceCPUName))%Z && (0 <? default 0 (dynamic !! ResourceMemoryName))%Z
           then dynamic else specs), c)
  end.

(** The session of the header as [convert] reads it. *)
Definition header_session (c : ictx) : res error (option InstanceSessionConfig) :=
  let s := PeekIgnoreCase (r_ReqHeader (c_request c)) HeaderInstanceSession in
  if bool_decide (s = "") then Ok None
  else match decode_session s with
       | Some session => Ok (Some session)
       | None => Err (PlainErr "unmarshal instance session failed")
       end.

Definition convert (c : ictx) (f : FuncSpec) (instanceId : string) (forceInvoke : bool)
    (leaseInfo : option InstanceAllocationInfo) (legacyScheduler : option InstanceInfo) : res error InvokeRequest * ictx :=
  let r := c_request c in
  let h := r_ReqHeader r in
  match ConvertResourceSpecs c f with
  | Err e => (Err e, c)
  | Ok resourceSpecs =>
      match header_session c with
      | Err e => (Err e, c)
      | Ok session =>
          match TranslateInvokeMsgToCallReq c with
          | Err e => (Err e, SetErrorInContext FrontendStatusInternalError (MString (error_text e)) c)
          | Ok body =>
              match convertResourceSpecs c resourceSpecs with
              | (Err e, c) => (Err e, c)
              | (Ok resourceSpecs, c) =>
                  (Ok (MkInvokeRequest (r_FuncKey r) instanceId (r_TraceID r) (PeekIgnoreCase h "Traceparent")
                         [r_TraceID r; body] (from_option i_InstanceID "" legacyScheduler)
                         (from_option FunctionName "" legacyScheduler) (c_RequestID c) (fs_FuncMetaSignature f)
                         (PeekIgnoreCase h "X-Pool-Label") session (convertInvokeTag c)
                         (PeekIgnoreCase h HeaderInstanceLabel) resourceSpecs
                         (getTimeout (GetAcquireTimeout f) (r_AcquireTimeout r)) (c_InvokeTimeout c)
                         (c_TrafficLimited c) (fs_BusinessType f) (fs_TenantID f) (PeekIgnoreCase h "Accept")
                         (from_option Lease.FunctionProxyID "" leaseInfo)
                         (fold_eq (PeekIgnoreCase h "X-Bypass-Datasystem") "true") forceInvoke (r_IsInterrupted r)
                         (if fs_EnableSessionCtx f then r_SessionCtxID r else "")), c)
              end
          end
      end
  end.

(** * One turn of the loop *)

Definition getRingName (blueRatio : Z) (c : ictx) (session : InstanceSessionConfig) : string :=
  let grayNum :=
    if negb (bool_decide (SessionID session = "")) then ConvertHashToPercent (SessionID session)
    else ConvertHashToPercent (c_RequestID c) in
  if ShouldUseBlueRing blueRatio grayNum then BlueRing else GreenRing.

(** The session is decoded when the handler is created, so its nil case is left out. *)
Definition setRingName (e : attempt) (k : kernelRequestHandler) (c : ictx) : kernelRequestHandler * ictx :=
  let ringName := getRingName (at_blueRatio e) c (k_session k) in
  (with_ring_name ringName k, set_ring ringName c).

(** Without an instance the request waits in the pending queue. *)
Definition chooseInstance (e : attempt) (k : kernelRequestHandler) : res error string :=
  match GetRandomInstanceWithoutUnexpectedInstance order (at_registry e) (fs_FunctionKey (k_spec k))
          (k_resSpecKeyStr k) (k_unexpectedInstances k) with
  | Some instance => Ok (InstanceRegistry.InstanceID instance)
  | None =>
      match at_pending e with
      | Err err => Err (SnErr err)
      | Ok None => Err (PlainErr "no available instance, no available scheduler")
      | Ok (Some instance) => Ok (InstanceRegistry.InstanceID instance)
      end
  end.

Definition needDownGrade (e : attempt) (schedulerInfo : option InstanceInfo) : bool :=
  match schedulerInfo with None => true | Some _ => at_noScheduler e end.

Definition legacyMakeReq (e : attempt) (k : kernelRequestHandler) (c : ictx) :
    res error InvokeRequest * kernelRequestHandler * ictx :=
  let k := with_scheduler (if negb (k_downgrade k) then at_scheduler e else None) k in
  let '(instanceId, k) :=
    if k_downgrade k || needDownGrade e (k_scheduler k)
    then let k := with_downgrade true k in (chooseInstance e k, k)
    else (Ok "", k) in
  match instanceId with
  | Err err => (Err err, k, c)
  | Ok instanceId =>
      let '(req, c) := convert c (k_spec k) instanceId false None (k_scheduler k) in (req, k, c)
  end.

(** The lease, the instance and [forceInvoke] of a request. *)
Definition makeReq (e : attempt) (k : kernelRequestHandler) (c : ictx) (log : list action) :
    res error InvokeRequest * kernelRequestHandler * ictx * list action :=
  let acquired : res error (string * bool) * kernelRequestHandler * list action :=
    if negb (k_downgrade k) then
      match at_acquire e (k_ringName k) with
      | Err err =>
          if (sn_code err =? code_ErrAllSchedulerUnavailable)%Z then (Ok ("", false), with_downgrade true k, log)
          else (Err (SnErr err), k, log)
      | Ok None => (Ok ("", false), k, log)
      | Ok (Some a) =>
          (Ok (Lease.InstanceID a, ForceInvoke a), with_alloc (Some a) k, Acquire (k_ringName k) a :: log)
      end
    else (Ok ("", false), k, log) in
  match acquired with
  | (Err err, k, log) => (Err err, k, c, log)
  | (Ok (instanceId, forceInvoke), k, log) =>
      match (if k_downgrade k then chooseInstance e k else Ok instanceId) with
      | Err err => (Err err, k, c, log)
      | Ok instanceId =>
          let '(req, c) := convert c (k_spec k) instanceId forceInvoke (k_alloc k) None in (req, k, c, log)
      end
  end.

Definition makeReqCompatible (e : attempt) (k : kernelRequestHandler) (c : ictx) (log : list action) :
    res error InvokeRequest * kernelRequestHandler * ictx * list action :=
  if at_libruntime e then let '(req, k, c) := legacyMakeReq e k c in (req, k, c, log)
  else makeReq e k c log.

Definition handleDirectProxyInvokeError (notifyMsg : string) (err : client_err) (c : ictx) : error * ictx :=
  match GetDirectProxyErrorMetadata err with
  | Some (code, retryable, reason) => (DirectErr code (client_text err) retryable reason, c)
  | None =>
      match err with
      | RuntimeErr code m =>
          (SnErr (default (MkSnError code m) (checkErrorMsg m)), c)
      | _ =>
          match checkInstanceResp notifyMsg with
          | Some snErr => (SnErr snErr, c)
          | None =>
              (SnErr (MkSnError FrontendStatusInternalError ("invoke GRPC request error: " +:+ client_text err)),
               JudgeRetry err c)
          end
      end
  end.

Definition invokeFunctionWithDirectProxy (e : attempt) (req : InvokeRequest) (c : ictx) (log : list action) :
    option error * ictx * list action :=
  let '(reply, log) :=
    if bool_decide (ir_InstanceID req = "")
    then (("", Some (OtherErr "direct proxy invoke requires scheduler-owned instance id")), log)
    else (at_reply e, Send req (at_reply e) :: log) in
  match reply with
  | (notifyMsg, Some err) =>
      let '(err, c) := handleDirectProxyInvokeError notifyMsg err c in (Some err, c, log)
  | (notifyMsg, None) =>
      let '(snErr, c) := SetResponseInContext notifyMsg c in (SnErr <$> snErr, c, log)
  end.

(** How a turn ends: the result of [invoke], or another turn. *)
Inductive outcome := Return (err : option error) | Continue.

Definition error_code (err : error) : Z := match as_sn err with Some (code, _) => code | None => 0 end.

Definition handleInvokeError (err : error) (instanceId : string) (k : kernelRequestHandler) (c : ictx) :
    outcome * kernelRequestHandler * ictx :=
  match err with
  | DirectErr _ _ retryable _ => (Return (Some err), k, if retryable then set_retry true c else c)
  | _ =>
      let code := error_code err in
      if (code =? AcquireLeaseTrafficLimitErrorCode)%Z && bool_decide (is_Some (k_scheduler k))
      then (Continue, k, set_limited true c)
      else if (code =? FrontendStatusInternalError)%Z
      then (Return (Some err), k, SetErrorInContext FrontendStatusInternalError (MString (error_text err)) c)
      else if (code =? code_ErrAllSchedulerUnavailable)%Z then (Continue, with_downgrade true k, c)
      else if needRetryCode code
      then (Continue,
            if negb (bool_decide (instanceId = "")) then with_unexpected (k_unexpectedInstances k ++ [instanceId]) k else k, c)
      else (Return (Some err), k, HandleInvokeError err c)
  end.

(** The return of the lease of a turn. *)
Definition release (snError : option error) (k : kernelRequestHandler) (log : list action) :
    kernelRequestHandler * list action :=
  match k_alloc k with
  | None => (k, log)
  | Some a =>
      (with_alloc None k,
       Release (k_ringName k) a (match snError with Some err => instanceIsAbnormal (error_code err) | None => false end)
         :: log)
  end.

Definition turn (e : attempt) (k : kernelRequestHandler) (c : ictx) (log : list action) :
    outcome * kernelRequestHandler * ictx * list action :=
  let c := set_attempt (at_uuid e) (computeTimeout (c_InvokeTimeout c) (at_now e) (k_startTime k)) c in
  if (c_InvokeTimeout c <=? 0)%Z then (Return (Some (PlainErr "do invoke failed, timeout")), k, c, log)
  else
    let '(k, c) := setRingName e k c in
    match makeReqCompatible e k c log with
    | (Err err, k, c, log) => (Return (Some err), k, HandleInvokeError err c, log)
    | (Ok req, k, c, log) =>
        let '(snError, c, log) := invokeFunctionWithDirectProxy e req c log in
        let '(k, log) := release snError k log in
        match snError with
        | Some err =>
            let '(o, k, c) := handleInvokeError err (ir_InstanceID req) k c in (o, k, c, log)
        | None => (Return None, k, c, log)
        end
    end.

(** * The loop and its callers *)

(** [None]: the fuel ran out. *)
Fixpoint invoke_loop (fuel n : nat) (env : nat → attempt) (k : kernelRequestHandler) (c : ictx) (log : list action) :
    option (option error * kernelRequestHandler * ictx * list action) :=
  match fuel with
  | O => None
  | S fuel =>
      match turn (env n) k c log with
      | (Return err, k, c, log) => Some (err, k, c, log)
      | (Continue, k, c, log) => invoke_loop fuel (S n) env k c log
      end
  end.

Definition resetSchedulerProxy (c : ictx) : ictx := if c_TrafficLimited c then set_limited false c else c.

Definition invoke (fuel : nat) (env : nat → attempt) (k : kernelRequestHandler) (c : ictx) (log : list action) :
    option (option error * ictx * list action) :=
  (λ r, let '(err, _, c, log) := r in (err, resetSchedulerProxy c, log)) <$> invoke_loop fuel 0 env k c log.

Definition createKernelRequestHandler (blueRatio now : Z) (c : ictx) (f : FuncSpec) :
    res error kernelRequestHandler * ictx :=
  let c := if (c_InvokeTimeout c =? 0)%Z then set_attempt (c_RequestID c) (fs_Timeout f) c else c in
  let resSpecKey := convertResSpecKey c f in
  let instanceSession := default "" (r_ReqHeader (c_request c) !! HeaderInstanceSession) in
  match (if bool_decide (instanceSession = "") then Some (MkSession "" 0 0) else decode_session instanceSession) with
  | None => (Err (PlainErr "unmarshal instance session failed"), c)
  | Some session =>
      let ringName := getRingName blueRatio c session in
      (Ok (MkKernel f (ResSpecKey_String resSpecKey) None now (r_InvokeWithoutScheduler (c_request c)) [] None
             ringName session), set_ring ringName c)
  end.

(** An execution: the blue ratio and the clock at its start, and its turns. *)
Record execution := MkExecution { ex_blueRatio : Z; ex_start : Z; ex_turns : nat → attempt }.

Definition doInvoke (fuel : nat) (e : execution) (f : FuncSpec) (c : ictx) (log : list action) :
    option (option error * ictx * list action) :=
  match createKernelRequestHandler (ex_blueRatio e) (ex_start e) c f with
  | (Err err, c) => Some (Some err, c, log)
  | (Ok k, c) => invoke fuel (ex_turns e) k c log
  end.

Definition maxInvokeRetries : nat := 5.

(** [util.Retry] with the two closures of [doInvokeWithRetry]. *)
Fixpoint retry (n i fuel : nat) (exec : nat → execution) (f : FuncSpec) (err : option error) (c : ictx) (log : list action) :
    option (option error * ictx * list action) :=
  match n with
  | O => Some (err, c, log)
  | S n =>
      match doInvoke fuel (exec i) f (set_retry false c) log with
      | None => None
      | Some (None, c, log) => Some (None, c, log)
      | Some (Some err, c, log) =>
          if c_ShouldRetry c then retry n (S i) fuel exec f (Some err) c log else Some (Some err, c, log)
      end
  end.

Definition doInvokeWithRetry (fuel : nat) (exec : nat → execution) (f : FuncSpec) (c : ictx) :
    option (option error * ictx * list action) :=
  retry maxInvokeRetries 0 fuel exec f None c [].

(** [spec]: what [functionmeta.LoadFuncSpec] finds. *)
Definition getFuncSpec (spec : option FuncSpec) (c : ictx) : res error FuncSpec * ictx :=
  match spec with
  | None => (Err (PlainErr "function doesn't exist"),
             SetErrorInContext FuncMetaNotFound (MString "function metadata not found") c)
  | Some f => (Ok f, c)
  end.

Definition InvokeHandler (fuel : nat) (exec : nat → execution) (spec : option FuncSpec) (c : ictx) :
    option (option error * ictx * list action) :=
  match getFuncSpec spec c with
  | (Err err, c) => Some (Some err, c, [])
  | (Ok f, c) =>
      match doInvokeWithRetry fuel exec f c with
      | None => None
      | Some (None, c, log) => Some (None, c, log)
      | Some (Some err, c, log) => Some (Some err, HandleInvokeError err c, log)
      end
  end.

(** A call of an instance that is known, without a lease. *)
Definition InvokeResolvedInstance (spec : option FuncSpec) (e : attempt) (instanceID : string) (c : ictx) :
    option error * ictx * list action :=
  match getFuncSpec spec c with
  | (Err err, c) => (Some err, c, [])
  | (Ok f, c) =>
      match convert c f instanceID false None None with
      | (Err err, c) => (Some err, c, [])
      | (Ok req, c) =>
          match invokeFunctionWithDirectProxy e req c [] with
          | (Some err, c, log) => (Some err, HandleInvokeError err c, log)
          | (None, c, log) => (None, c, log)
          end
      end
  end.

End invocation.
