(* ===== verification/InvocationFacts.v ===== *)
(** Facts about invocations: leases are returned, requests are answered, when a
    request may be sent again, and the time an invocation may take. *)

From S2P Require Import Prelude GoStrings Lease SchedulerProxy LeasePool InstanceRegistry Json InvokeResponse Invocation.

Local Open Scope list_scope.

#[local] Arguments HandleInvokeError : simpl never.
#[local] Arguments SetErrorInContext : simpl never.

Section facts.
  Context (order : list string → list string)
    (ui : string → gmap string Z * bool) (ua : string → gmap string any * bool) (ut : string → gmap string string * bool)
    (mc : CallReq → option string) (mr : gmap string Z → string) (ms : gmap string any → string)
    (dec : string → option string) (wise fg : bool)
    (cp : string → option string) (ucr : string → option CallResp) (uir : string → option (string * string)).

  Local Abbreviation convert := (Invocation.convert order ui ut mc dec wise fg cp).
  Local Abbreviation turn := (Invocation.turn order ui ut mc dec wise fg cp ucr uir).
  Local Abbreviation makeReqCompatible := (Invocation.makeReqCompatible order ui ut mc dec wise fg cp).
  Local Abbreviation send := (invokeFunctionWithDirectProxy cp ucr).
  Local Abbreviation handle_error := (handleInvokeError cp uir).
  Local Abbreviation invoke_loop := (Invocation.invoke_loop order ui ut mc dec wise fg cp ucr uir).
  Local Abbreviation invoke := (Invocation.invoke order ui ut mc dec wise fg cp ucr uir).
  Local Abbreviation doInvoke := (Invocation.doInvoke order ui ua ut mc mr ms dec wise fg cp ucr uir).
  Local Abbreviation retry := (Invocation.retry order ui ua ut mc mr ms dec wise fg cp ucr uir).
  Local Abbreviation InvokeHandler := (Invocation.InvokeHandler order ui ua ut mc mr ms dec wise fg cp ucr uir).
  Local Abbreviation SetError := (SetErrorInContext cp).
  Local Abbreviation HandleError := (HandleInvokeError cp uir).

(** * The response is written once *)

Definition written (c : ictx) : Prop := RespHeader (c_resp c) ≠ ∅.

Lemma set_error_written code m c : written (SetError code m c).
Proof.
  unfold written, SetErrorInContext, SetResponseFromFrontend. destruct (bool_decide _) eqn:E; cbn [negb].
  - cbn. unfold buildResponse. destruct m; [|case_goal]; cbn; apply insert_non_empty.
  - by apply bool_decide_eq_false in E.
Qed.

Lemma set_error_keeps code m c : written c → SetError code m c = c.
Proof. unfold written, SetErrorInContext, SetResponseFromFrontend. intros H. by rewrite bool_decide_false. Qed.

Lemma handle_written err c : written (HandleError err c).
Proof.
  unfold HandleInvokeError, HandleCreateInstanceError. repeat case_goal; apply set_error_written.
Qed.

Lemma handle_keeps err c : written c → HandleError err c = c.
Proof.
  intros H. unfold HandleInvokeError, HandleCreateInstanceError. repeat case_goal; by apply set_error_keeps.
Qed.

(** A response of the function is written exactly when it is the first. *)
Lemma set_response_spec msg c err c' :
  SetResponseFromInvocation cp ucr msg c = (err, c') →
  (err = None ∧ ¬ written c ∧ written c') ∨
  (∃ e, err = Some e ∧ sn_code e = FrontendStatusInternalError ∧ c' = c).
Proof.
  unfold SetResponseFromInvocation. destruct (bool_decide _) eqn:E; cbn [negb].
  - apply bool_decide_eq_true in E. destruct (ucr msg) as [m|]; [|intros [= <- <-]; eauto].
    destruct (Atoi _); intros [= <- <-]; [|by eauto]. left. split; [done|]. split; [by intros []|].
    unfold written. cbn. unfold setHTTPHeader. destruct (r_NeedReadRespHeader _); [|apply insert_non_empty].
    intros H. apply (f_equal (lookup "X-Billing-Duration"%string)) in H. rewrite lookup_empty, lookup_union_None in H.
    destruct H as [_ H]. by rewrite lookup_insert_eq in H.
  - intros [= <- <-]. eauto.
Qed.

(** * One turn *)

(** What the outside may say so that a request is sent again: an error of the
    direct proxy that happened before dispatch, or one whose code calls for it. *)
Definition resend_code (code : Z) : bool :=
  (code =? AcquireLeaseTrafficLimitErrorCode)%Z || (code =? code_ErrAllSchedulerUnavailable)%Z || needRetryCode code.

Definition may_resend (reply : string * option client_err) : Prop :=
  match reply with
  | (_, None) => False
  | (_, Some (ClassifiedErr _ retryable _ _)) => retryable = true
  | (_, Some (RuntimeErr code m)) => resend_code (sn_code (default (MkSnError code m) (checkErrorMsg m))) = true
  | (notifyMsg, Some (OtherErr m)) =>
      match checkInstanceResp notifyMsg with
      | Some e => resend_code (sn_code e) = true
      | None => ∃ code, Atoi (getMatches m).1 = Some code ∧ judged_code code = true
      end
  end.

(** The turn goes on, or its execution may be repeated. *)
Definition goes_on (o : outcome) (c : ictx) : Prop :=
  match o with Continue => True | Return None => False | Return (Some _) => c_ShouldRetry c = true end.

Lemma internal_error_code : resend_code FrontendStatusInternalError = false.
Proof. reflexivity. Qed.

Lemma set_error_flags code m c :
  c_ShouldRetry (SetError code m c) = c_ShouldRetry c ∧ c_TrafficLimited (SetError code m c) = c_TrafficLimited c ∧
  c_InvokeTimeout (SetError code m c) = c_InvokeTimeout c ∧ c_request (SetError code m c) = c_request c.
Proof. unfold SetErrorInContext, SetResponseFromFrontend. by case_goal. Qed.

Lemma handle_flags err c :
  c_ShouldRetry (HandleError err c) = c_ShouldRetry c ∧ c_TrafficLimited (HandleError err c) = c_TrafficLimited c ∧
  c_InvokeTimeout (HandleError err c) = c_InvokeTimeout c ∧ c_request (HandleError err c) = c_request c.
Proof. unfold HandleInvokeError, HandleCreateInstanceError. repeat case_goal; apply set_error_flags. Qed.

Lemma set_response_flags msg c :
  c_ShouldRetry (SetResponseFromInvocation cp ucr msg c).2 = c_ShouldRetry c ∧
  c_InvokeTimeout (SetResponseFromInvocation cp ucr msg c).2 = c_InvokeTimeout c.
Proof. unfold SetResponseFromInvocation. by repeat case_goal. Qed.

Lemma sn_goes_on e id k c :
  c_ShouldRetry c = false → goes_on (handle_error (SnErr e) id k c).1.1 (handle_error (SnErr e) id k c).2 →
  resend_code (sn_code e) = true.
Proof.
  intros Hc. unfold handleInvokeError, resend_code. cbn [error_code as_sn].
  destruct (_ =? AcquireLeaseTrafficLimitErrorCode)%Z; [done|]. cbn [andb orb].
  destruct (sn_code e =? FrontendStatusInternalError)%Z; cbn.
  { destruct (set_error_flags FrontendStatusInternalError (MString (sn_message e)) c) as [-> _]. congruence. }
  destruct (_ =? code_ErrAllSchedulerUnavailable)%Z; [done|]. destruct (needRetryCode _); [done|]. cbn.
  destruct (handle_flags (SnErr e) c) as [-> _]. congruence.
Qed.

(** The error of a call, and when the handlers then go on. *)
Lemma send_error e req c log err c' log' k :
  c_ShouldRetry c = false → send e req c log = (Some err, c', log') →
  goes_on (handle_error err (ir_InstanceID req) k c').1.1 (handle_error err (ir_InstanceID req) k c').2 →
  ir_InstanceID req ≠ ""%string → may_resend (at_reply e).
Proof.
  intros Hc Hs Hg Hid. unfold invokeFunctionWithDirectProxy in Hs. rewrite bool_decide_false in Hs by done.
  destruct (at_reply e) as [msg [ce|]].
  - destruct ce as [code retryable reason m|code m|m]; cbn in Hs.
    + injection Hs as <- <- <-. cbn in Hg. destruct retryable; [done|]. cbn in Hg. congruence.
    + injection Hs as <- <- <-. cbn. revert Hg. generalize (default (MkSnError code m) (checkErrorMsg m)). intros e' Hg.
      apply (sn_goes_on e' (ir_InstanceID req) k c Hc Hg).
    + cbn. destruct (checkInstanceResp msg) as [e'|] eqn:Ei.
      * injection Hs as <- <- <-. apply (sn_goes_on e' (ir_InstanceID req) k c Hc Hg).
      * injection Hs as <- <- <-. cbn in Hg. unfold handleInvokeError in Hg. cbn in Hg.
        destruct (set_error_flags FrontendStatusInternalError
          (MString ("invoke GRPC request error: " +:+ m)) (JudgeRetry (OtherErr m) c)) as [Hf _].
        rewrite Hf in Hg. unfold JudgeRetry in Hg. cbn in Hg. destruct (Atoi _) as [code|]; [|congruence].
        exists code. split; [done|]. destruct (judged_code code); [done|congruence].
  - pose proof (set_response_flags msg c) as [Hf _].
    destruct (SetResponseFromInvocation cp ucr msg c) as [[e'|] c2] eqn:Er; cbn in Hs; [|done].
    destruct (set_response_spec _ _ _ _ Er) as [[? _]|(e2 & [= <-] & Hcode & ->)]; [done|].
    injection Hs as <- <- <-.
    pose proof (sn_goes_on e' (ir_InstanceID req) k c Hc Hg) as H. by rewrite Hcode in H.
Qed.

Lemma judge_no_instance c :
  JudgeRetry (OtherErr "direct proxy invoke requires scheduler-owned instance id") c = c.
Proof. reflexivity. Qed.

(** All that a call does to the context and the log. *)
Lemma send_spec e req c log o c' log' :
  send e req c log = (o, c', log') →
  c_InvokeTimeout c' = c_InvokeTimeout c ∧
  (log' = log ∧ ir_InstanceID req = ""%string ∨ log' = Send req (at_reply e) :: log ∧ ir_InstanceID req ≠ ""%string) ∧
  match o with
  | None => ¬ written c ∧ written c'
  | Some _ => c_resp c' = c_resp c
  end.
Proof.
  unfold invokeFunctionWithDirectProxy. destruct (bool_decide _) eqn:Eid.
  - apply bool_decide_eq_true in Eid. cbn. rewrite judge_no_instance. intros [= <- <- <-]. auto.
  - apply bool_decide_eq_false in Eid. destruct (at_reply e) as [msg [ce|]].
    + assert (∀ x, c_InvokeTimeout (JudgeRetry x c) = c_InvokeTimeout c ∧ c_resp (JudgeRetry x c) = c_resp c) as Hj.
      { intros x. unfold JudgeRetry. by repeat case_goal. }
      destruct ce as [code b reason m|code m|m]; cbn; [intros [= <- <- <-]; auto..|].
      destruct (checkInstanceResp msg); intros [= <- <- <-]; [auto|]. destruct (Hj (OtherErr m)). auto.
    + destruct (set_response_flags msg c) as [_ Ht].
      destruct (SetResponseFromInvocation cp ucr msg c) as [err c2] eqn:Er. cbn in Ht. intros [= <- <- <-].
      split; [done|]. split; [auto|].
      by destruct (set_response_spec _ _ _ _ Er) as [(-> & ? & ?)|(e' & -> & _ & ->)].
Qed.

Lemma send_goes_on e req c log err c' log' k :
  c_ShouldRetry c = false → send e req c log = (Some err, c', log') →
  goes_on (handle_error err (ir_InstanceID req) k c').1.1 (handle_error err (ir_InstanceID req) k c').2 →
  ir_InstanceID req ≠ ""%string ∧ may_resend (at_reply e).
Proof.
  intros Hc Hs Hg. destruct (decide (ir_InstanceID req = ""%string)) as [Hid|]; [|split; [done|by eapply send_error]].
  exfalso. unfold invokeFunctionWithDirectProxy in Hs. rewrite bool_decide_true in Hs by done. cbn in Hs.
  rewrite judge_no_instance in Hs. injection Hs as <- <- <-. by apply sn_goes_on in Hg.
Qed.

(** A judged error is an internal one, which ends the loop. *)
Lemma continue_flag e req c log err c' log' id k :
  c_ShouldRetry c = false → send e req c log = (Some err, c', log') →
  (handle_error err id k c').1.1 = Continue → c_ShouldRetry c' = false.
Proof.
  intros Hc Hs. unfold invokeFunctionWithDirectProxy in Hs. destruct (bool_decide _).
  - cbn in Hs. rewrite judge_no_instance in Hs. by injection Hs as <- <- <-.
  - destruct (at_reply e) as [msg [ce|]].
    + destruct ce as [code b reason m|code m|m]; cbn in Hs.
      1,2: by injection Hs as <- <- <-.
      destruct (checkInstanceResp msg); [by injection Hs as <- <- <-|]. injection Hs as <- <- <-. by cbn.
    + pose proof (set_response_flags msg c) as [Hf _]. destruct (SetResponseFromInvocation cp ucr msg c) as [r c2].
      cbn in *. injection Hs as _ <- _. congruence.
Qed.

Lemma convert_spec c f id force lease sched r c' :
  convert c f id force lease sched = (r, c') →
  c_ShouldRetry c' = c_ShouldRetry c ∧ c_InvokeTimeout c' = c_InvokeTimeout c ∧ (written c → c' = c) ∧
  match r with
  | Ok req => ir_InstanceID req = id ∧ ir_InvokeTimeout req = c_InvokeTimeout c ∧ c_resp c' = c_resp c
  | Err _ => True
  end.
Proof.
  unfold Invocation.convert. destruct (ConvertResourceSpecs _ _ _ c f) as [specs|err]; [|intros [= <- <-]; auto].
  destruct (header_session order c) as [session|err]; [|intros [= <- <-]; auto].
  destruct (TranslateInvokeMsgToCallReq _ _ _ _ c) as [body|err].
  - unfold convertResourceSpecs. destruct (prepareDynamicResource ui c) as [dyn|err].
    + intros [= <- <-]. by repeat split.
    + intros [= <- <-]. destruct (set_error_flags FrontendStatusInternalError (MString (error_text err)) c) as (-> & _ & -> & _).
      repeat split; try done. intros H. by apply set_error_keeps.
  - intros [= <- <-]. destruct (set_error_flags FrontendStatusInternalError (MString (error_text err)) c) as (-> & _ & -> & _).
    repeat split; try done. intros H. by apply set_error_keeps.
Qed.

(** Building the request: which lease it takes. *)
Lemma make_spec e k c log r k' c' log' :
  k_alloc k = None → makeReqCompatible e k c log = (r, k', c', log') →
  c_ShouldRetry c' = c_ShouldRetry c ∧ c_InvokeTimeout c' = c_InvokeTimeout c ∧ (written c → c' = c) ∧
  k_startTime k' = k_startTime k ∧ k_ringName k' = k_ringName k ∧
  match r with Ok req => ir_InvokeTimeout req = c_InvokeTimeout c ∧ c_resp c' = c_resp c | Err _ => True end ∧
  (k_alloc k' = None ∧ log' = log ∨
   ∃ a, k_alloc k' = Some a ∧ log' = Acquire (k_ringName k) a :: log ∧
     match r with
     | Ok req => ir_InstanceID req = Lease.InstanceID a
     | Err err => ∃ f, (convert c f (Lease.InstanceID a) (ForceInvoke a) (Some a) None).1 = Err err
     end).
Proof.
  clear ua. intros Ha. unfold Invocation.makeReqCompatible. destruct (at_libruntime e).
  - unfold legacyMakeReq. set (k1 := with_scheduler _ k). destruct (k_downgrade k1 || _).
    + destruct (chooseInstance order e (with_downgrade true k1)) as [id|err]; [|intros [= <- <- <- <-]; auto 10].
      destruct (convert c _ id false None _) as [r' c2] eqn:Ec. intros [= <- <- <- <-].
      apply convert_spec in Ec as (H1 & H2 & H3 & H4). repeat split; try done; [destruct r'; naive_solver|auto].
    + destruct (convert c _ "" false None _) as [r' c2] eqn:Ec. intros [= <- <- <- <-].
      apply convert_spec in Ec as (H1 & H2 & H3 & H4). repeat split; try done; [destruct r'; naive_solver|auto].
  - unfold makeReq.
    assert (∀ id force k2 lease, k_alloc k2 = lease → k_startTime k2 = k_startTime k → k_ringName k2 = k_ringName k →
      ∀ r2 c2, convert c (k_spec k2) id force lease None = (r2, c2) →
      c_ShouldRetry c2 = c_ShouldRetry c ∧ c_InvokeTimeout c2 = c_InvokeTimeout c ∧ (written c → c2 = c) ∧
      match r2 with Ok req => ir_InvokeTimeout req = c_InvokeTimeout c ∧ c_resp c2 = c_resp c | Err _ => True end) as Hc.
    { intros id force k2 lease _ _ _ r2 c2 E. apply convert_spec in E as (? & ? & ? & H). destruct r2; naive_solver. }
    destruct (k_downgrade k) eqn:Ed; cbn [negb].
    + rewrite Ed. destruct (chooseInstance order e k) as [id|err]; [|intros [= <- <- <- <-]; auto 10].
      destruct (convert c _ id false _ _) as [r' c2] eqn:Ec. intros [= <- <- <- <-].
      destruct (Hc id false k (k_alloc k) eq_refl eq_refl eq_refl r' c2 Ec) as (? & ? & ? & ?). auto 10.
    + destruct (at_acquire e (k_ringName k)) as [[a|]|err].
      * cbn. rewrite Ed. destruct (convert c _ _ _ _ _) as [r' c2] eqn:Ec. intros [= <- <- <- <-].
        destruct (Hc _ _ (with_alloc (Some a) k) (Some a) eq_refl eq_refl eq_refl r' c2 Ec) as (? & ? & ? & ?).
        repeat split; try done. right. exists a. split; [done|]. split; [done|].
        destruct r'; [by apply convert_spec in Ec as (_ & _ & _ & ? & _)|]. exists (k_spec k). by rewrite Ec.
      * rewrite Ed. destruct (convert c _ _ _ _ _) as [r' c2] eqn:Ec. intros [= <- <- <- <-].
        destruct (Hc _ _ k (k_alloc k) eq_refl eq_refl eq_refl r' c2 Ec) as (? & ? & ? & ?). auto 10.
      * destruct (_ =? _)%Z; [|intros [= <- <- <- <-]; auto 10]. cbn.
        destruct (chooseInstance order e _) as [id|err']; [|intros [= <- <- <- <-]; auto 10].
        destruct (convert c _ _ _ _ _) as [r' c2] eqn:Ec. intros [= <- <- <- <-].
        destruct (Hc id false (with_downgrade true k) (k_alloc k) eq_refl eq_refl eq_refl r' c2 Ec) as (? & ? & ? & ?). auto 10.
Qed.

(** The actions of a turn, newest first. *)
Inductive turn_actions (e : attempt) (timeout : Z) (o : outcome) (c' : ictx) : list action → Prop :=
| ta_quiet : ¬ goes_on o c' → turn_actions e timeout o c' []
| ta_send r :
    ir_InvokeTimeout r = timeout → (goes_on o c' → may_resend (at_reply e)) →
    turn_actions e timeout o c' [Send r (at_reply e)]
| ta_lease ring a r b :
    ir_InvokeTimeout r = timeout → (goes_on o c' → may_resend (at_reply e)) → ir_InstanceID r = Lease.InstanceID a →
    turn_actions e timeout o c' [Release ring a b; Send r (at_reply e); Acquire ring a]
| ta_unsent ring a b :
    ¬ goes_on o c' → Lease.InstanceID a = ""%string → turn_actions e timeout o c' [Release ring a b; Acquire ring a]
| ta_kept ring a err c0 f :
    ¬ goes_on o c' → o = Return (Some err) →
    (convert c0 f (Lease.InstanceID a) (ForceInvoke a) (Some a) None).1 = Err err →
    turn_actions e timeout o c' [Acquire ring a].

Lemma handle_error_spec err id k c :
  let '(o, k', c') := handle_error err id k c in
  k_alloc k' = k_alloc k ∧ k_startTime k' = k_startTime k ∧ c_InvokeTimeout c' = c_InvokeTimeout c ∧
  (written c → c_resp c' = c_resp c) ∧ o ≠ Return None ∧
  (o = Continue → c_resp c' = c_resp c ∧ c_ShouldRetry c' = c_ShouldRetry c).
Proof.
  destruct err as [m|e|code m retryable reason]; cbn [handleInvokeError].
  3: { destruct retryable; by repeat split. }
  all: destruct (_ && _); [by repeat split|]; destruct (_ =? FrontendStatusInternalError)%Z;
    [match goal with |- context [SetError ?a ?b ?c] =>
       destruct (set_error_flags a b c) as (_ & _ & -> & _); repeat split; try done; intros H;
       by rewrite (set_error_keeps a b c H) end|];
    destruct (_ =? code_ErrAllSchedulerUnavailable)%Z; [by repeat split|];
    destruct (needRetryCode _); [destruct (negb _); by repeat split|];
    match goal with |- context [HandleError ?a ?c] =>
      destruct (handle_flags a c) as (_ & _ & -> & _); repeat split; try done; intros H;
      by rewrite (handle_keeps a c H) end.
Qed.

Lemma turn_spec e k c log o k' c' log' :
  k_alloc k = None → c_ShouldRetry c = false → turn e k c log = (o, k', c', log') →
  k_startTime k' = k_startTime k ∧
  c_InvokeTimeout c' = computeTimeout (c_InvokeTimeout c) (at_now e) (k_startTime k) ∧
  (goes_on o c' → (0 < c_InvokeTimeout c')%Z) ∧
  (o = Continue → k_alloc k' = None ∧ c_resp c' = c_resp c ∧ c_ShouldRetry c' = false) ∧
  (written c → c_resp c' = c_resp c ∧ o ≠ Return None) ∧ (o = Return None → written c') ∧
  ∃ new, log' = new ++ log ∧ turn_actions e (c_InvokeTimeout c') o c' new ∧
    (∀ r reply, Send r reply ∈ new → (0 < c_InvokeTimeout c')%Z).
Proof.
  intros Ha Hr. unfold Invocation.turn, setRingName. cbn zeta.
  set (c1 := set_attempt _ _ c). set (c2 := set_ring _ c1). set (k1 := with_ring_name _ k).
  destruct (c_InvokeTimeout c1 <=? 0)%Z eqn:Et.
  { intros [= <- <- <- <-]. assert (¬ goes_on (Return (Some (PlainErr "do invoke failed, timeout"))) c1) as Hng
      by (cbn; congruence).
    repeat split; try done. exists []. split; [done|]. split; [by apply ta_quiet|]. intros r reply H. by apply elem_of_nil in H. }
  apply Z.leb_gt in Et. destruct (makeReqCompatible e k1 c2 log) as [[[r k2] c3] log2] eqn:Em.
  apply make_spec in Em as (M1 & M2 & M3 & M4 & M5 & M6 & M7); [|done].
  destruct r as [req|err].
  2: { intros [= <- <- <- <-]. destruct (handle_flags err c3) as (F1 & _ & F3 & _).
    assert (¬ goes_on (Return (Some err)) (HandleError err c3)) as Hng by (cbn; rewrite F1, M1; cbn; congruence).
    split; [done|]. split; [by rewrite F3, M2|]. split; [done|]. split; [done|].
    split; [intros H; rewrite (M3 H), (handle_keeps err c2 H); done|]. split; [done|].
    destruct M7 as [[_ ->]|(a & _ & -> & f & Hf)].
    - exists []. split; [done|]. split; [by apply ta_quiet|]. intros ? ? H. by apply elem_of_nil in H.
    - exists [Acquire (k_ringName k1) a]. split; [done|]. split; [by eapply ta_kept|].
      intros ? ? H. by apply list_elem_of_singleton in H. }
  destruct M6 as [Mt M6]. destruct (send e req c3 log2) as [[snErr c4] log3] eqn:Es.
  pose proof (send_spec _ _ _ _ _ _ _ Es) as (S1 & S2 & S3).
  assert (∃ k3 log4, release snErr k2 log3 = (k3, log4) ∧ k_alloc k3 = None ∧ k_startTime k3 = k_startTime k2 ∧
    ((k_alloc k2 = None ∧ log4 = log3) ∨ ∃ a b, k_alloc k2 = Some a ∧ log4 = Release (k_ringName k2) a b :: log3))
    as (k3 & log4 & Er & R1 & R2 & R3).
  { unfold release. destruct (k_alloc k2) as [a|] eqn:Ek; repeat eexists; eauto. }
  rewrite Er.
  (* the actions of the turn, once it is known how it ends *)
  assert (∀ o c5, c_InvokeTimeout c5 = c_InvokeTimeout c1 → (goes_on o c5 → ir_InstanceID req ≠ ""%string ∧ may_resend (at_reply e)) →
    ∃ new, log4 = new ++ log ∧ turn_actions e (c_InvokeTimeout c5) o c5 new ∧
      (∀ r reply, Send r reply ∈ new → (0 < c_InvokeTimeout c5)%Z)) as Hact.
  { intros o5 c5 Hc5 Hgo. rewrite Hc5. change (c_InvokeTimeout c1) with (c_InvokeTimeout c2).
    destruct M7 as [[Ma Ml]|(a & Ma & Ml & Mi)]; destruct R3 as [[Ra Rl]|(a' & b & Ra & Rl)]; try congruence;
      destruct S2 as [[Sl Si]|[Sl Si]]; subst log4 log3 log2.
    - exists []. split; [done|]. split; [apply ta_quiet; intros H; by destruct (Hgo H)|]. intros ? ? H; by apply elem_of_nil in H.
    - exists [Send req (at_reply e)]. split; [done|]. split; [apply ta_send; [done|]; intros H; by destruct (Hgo H)|done].
    - assert (a' = a) as -> by congruence. rewrite M5. exists [Release (k_ringName k1) a b; Acquire (k_ringName k1) a].
      split; [done|]. split; [apply ta_unsent; [intros H; by destruct (Hgo H)|congruence]|done].
    - assert (a' = a) as -> by congruence. rewrite M5.
      exists [Release (k_ringName k1) a b; Send req (at_reply e); Acquire (k_ringName k1) a].
      split; [done|]. split; [apply ta_lease; [done| |congruence]; intros H; by destruct (Hgo H)|done]. }
  destruct snErr as [err|].
  - pose proof (handle_error_spec err (ir_InstanceID req) k3 c4) as Hh.
    pose proof (send_goes_on e req c3 log2 err c4 log3 k3) as Hg.
    destruct (handle_error err (ir_InstanceID req) k3 c4) as [[o1 k4] c5] eqn:Eh. destruct Hh as (H1 & H2 & H3 & H4 & H5 & H6).
    cbn [fst snd] in Hg. intros [= <- <- <- <-].
    assert (c_InvokeTimeout c5 = c_InvokeTimeout c1) as Hc5 by (by rewrite H3, S1, M2).
    split; [by rewrite H2, R2, M4|]. split; [done|]. split; [by rewrite Hc5|].
    split. { intros ->. destruct (H6 eq_refl) as [H7 H8]. rewrite H1, R1, H7, S3, M6, H8. split; [done|]. split; [done|].
      apply (continue_flag e req c3 log2 err c4 log3 (ir_InstanceID req) k3); [by rewrite M1|done|]. by rewrite Eh. }
    split. { intros H. assert (c3 = c2) as -> by (by apply M3). rewrite H4 by (unfold written; by rewrite S3). by rewrite S3. }
    split; [done|]. apply Hact; [done|]. intros Hgo. apply Hg; [by rewrite M1|done|done].
  - intros [= <- <- <- <-]. destruct S3 as [S3 S4].
    assert (c_InvokeTimeout c4 = c_InvokeTimeout c1) as Hc4 by (by rewrite S1, M2).
    split; [by rewrite R2, M4|]. split; [done|]. split; [done|]. split; [done|].
    split; [intros H; rewrite (M3 H) in S3; done|]. split; [done|]. by apply Hact.
Qed.

(** * All turns of all executions *)

(** [I] holds of the log before a turn, [J] of the log and the result at the end. *)
Definition keeps (I : list action → Prop) (J : option error → list action → Prop) : Prop :=
  (∀ err log, I log → J err log) ∧
  ∀ e t o c' new log, turn_actions e t o c' new → I log →
    (goes_on o c' → I (new ++ log)) ∧ (∀ err, o = Return err → J err (new ++ log)).

Lemma loop_log I J fuel n env k c log err k' c' log' :
  keeps I J → k_alloc k = None → c_ShouldRetry c = false → I log →
  invoke_loop fuel n env k c log = Some (err, k', c', log') →
  J err log' ∧ (c_ShouldRetry c' = true → err ≠ None → I log').
Proof.
  intros [_ HK]. revert n k c log. induction fuel as [|fuel IH]; intros n k c log Ha Hr HI; [done|].
  cbn [Invocation.invoke_loop]. destruct (turn (env n) k c log) as [[[o k1] c1] log1] eqn:Et.
  apply turn_spec in Et as (_ & _ & _ & Hc & _ & _ & new & -> & Hact & _); [|done|done].
  destruct (HK _ _ _ _ _ _ Hact HI) as [HI' HJ]. destruct o as [err1|].
  - intros [= <- <- <- <-]. split; [by apply HJ|]. intros Hs Hne. apply HI'. by destruct err1.
  - destruct (Hc eq_refl) as (? & _ & ?). apply IH; [done|done|by apply HI'].
Qed.

Lemma create_alloc blue now c f k c' :
  createKernelRequestHandler order ui ua mr ms blue now c f = (Ok k, c') →
  k_alloc k = None ∧ c_ShouldRetry c' = c_ShouldRetry c ∧ k_startTime k = now ∧ c_resp c' = c_resp c.
Proof. unfold createKernelRequestHandler. repeat case_goal; intros [= <- <-]; auto. Qed.

Lemma reset_flags c : c_ShouldRetry (resetSchedulerProxy c) = c_ShouldRetry c ∧ c_resp (resetSchedulerProxy c) = c_resp c.
Proof. unfold resetSchedulerProxy. by case_goal. Qed.

Lemma do_log I J fuel e f c log err c' log' :
  keeps I J → c_ShouldRetry c = false → I log → doInvoke fuel e f c log = Some (err, c', log') →
  J err log' ∧ (c_ShouldRetry c' = true → err ≠ None → I log').
Proof.
  intros HK Hr HI. unfold Invocation.doInvoke.
  destruct (createKernelRequestHandler _ _ _ _ _ _ _ c f) as [[k|er] c1] eqn:Ec.
  - apply create_alloc in Ec as (Ha & Hs & _ & _). unfold Invocation.invoke.
    destruct (invoke_loop fuel 0 (ex_turns e) k c1 log) as [[[[err1 k1] c2] log1]|] eqn:El; [|done].
    intros [= <- <- <-]. destruct (reset_flags c2) as [-> _].
    eapply loop_log; [done|done| |done|done]. congruence.
  - intros [= <- <- <-]. split; [by apply HK|done].
Qed.

Lemma retry_log I J n i fuel exec f err0 c log err c' log' :
  keeps I J → I log → retry n i fuel exec f err0 c log = Some (err, c', log') → J err log'.
Proof.
  intros HK. revert i err0 c log. induction n as [|n IH]; intros i err0 c log HI; cbn [Invocation.retry].
  - intros [= <- <- <-]. by apply HK.
  - destruct (doInvoke fuel (exec i) f (set_retry false c) log) as [[[err1 c1] log1]|] eqn:Ed; [|done].
    eapply do_log in Ed as [HJ HI']; [|done|done|done]. destruct err1 as [err1|]; [|by intros [= <- <- <-]].
    destruct (c_ShouldRetry c1) eqn:Er; [|by intros [= <- <- <-]]. apply IH. by apply HI'.
Qed.

(** ** Leases *)

(** Every lease is given back by the turn that took it, to its ring, after the
    call of its instance. *)
Inductive settled : list action → Prop :=
| settled_nil : settled []
| settled_send r reply l : settled l → settled (Send r reply :: l)
| settled_lease ring a r reply b l :
    ir_InstanceID r = Lease.InstanceID a → settled l →
    settled (Release ring a b :: Send r reply :: Acquire ring a :: l)
| settled_unsent ring a b l :
    Lease.InstanceID a = ""%string → settled l → settled (Release ring a b :: Acquire ring a :: l).

(** The last lease was kept, because its request could not be built. *)
Definition kept (err : option error) (log : list action) : Prop :=
  ∃ ring a l e c0 f, log = Acquire ring a :: l ∧ settled l ∧ err = Some e ∧
    (convert c0 f (Lease.InstanceID a) (ForceInvoke a) (Some a) None).1 = Err e.

Lemma keeps_settled : keeps settled (λ err log, settled log ∨ kept err log).
Proof.
  split; [auto|]. intros e t o c' new log Ha Hl.
  destruct Ha as [Hn|r Ht Hr|ring a r b Ht Hr Hi|ring a b Hn Hi|ring a err c0 f Hn Ho Hc]; cbn [app].
  - split; [done|auto].
  - split; [by constructor|left; by constructor].
  - split; [by constructor|left; by constructor].
  - split; [done|]. left. by constructor.
  - split; [done|]. intros err' Ho'. right. exists ring, a, log, err, c0, f. repeat split; try done. congruence.
Qed.

(** C9. Leases are returned. In every invocation, whatever the schedulers, the
    instances and the clock do, each lease that was acquired is released by the
    turn that acquired it, on the ring it came from and after its instance was
    called; the only exception is the last lease of an invocation that fails
    because its request cannot be built. *)
Theorem leases_returned fuel exec spec c err c' log :
  InvokeHandler fuel exec spec c = Some (err, c', log) → settled log ∨ kept err log.
Proof.
  unfold Invocation.InvokeHandler. destruct spec as [f|]; cbn [getFuncSpec]; [|intros [= <- <- <-]; left; constructor].
  unfold doInvokeWithRetry. destruct (retry maxInvokeRetries 0 fuel exec f None c []) as [[[err1 c1] log1]|] eqn:Er; [|done].
  apply (retry_log _ _ _ _ _ _ _ _ _ _ _ _ _ keeps_settled) in Er; [|constructor].
  by destruct err1; intros [= <- <- <-].
Qed.

(** ** Sending again *)

Definition has_send (l : list action) : Prop := ∃ r reply, Send r reply ∈ l.

(** Every call but the last got an answer after which it may be repeated. *)
Definition chained (log : list action) : Prop :=
  ∀ l1 r reply l2, log = l1 ++ Send r reply :: l2 → has_send l1 → may_resend reply.

(** ... and so did the last. *)
Definition resumable (log : list action) : Prop := ∀ r reply, Send r reply ∈ log → may_resend reply.

Lemma chained_app new log :
  resumable log → (∀ l1 r reply l2, new = l1 ++ Send r reply :: l2 → ¬ has_send l1) → chained (new ++ log).
Proof.
  intros Hl Hn l1 r reply l2 E Hs. apply app_eq_inv in E as [(k & -> & E)|(k & -> & E)].
  - destruct k as [|x k]; cbn in E.
    + apply (Hl r). rewrite <- E. left.
    + injection E as <- E. by destruct (Hn l1 r reply k eq_refl Hs).
  - apply (Hl r). rewrite E. apply elem_of_app. right. left.
Qed.

(** A turn calls at most once. *)
Fixpoint sends (l : list action) : nat :=
  match l with [] => 0 | Send _ _ :: l => S (sends l) | _ :: l => sends l end.

Lemma sends_app l l' : sends (l ++ l') = sends l + sends l'.
Proof. induction l as [|x l IH]; [done|]. destruct x; cbn; congruence || lia. Qed.

Lemma sends_pos l : has_send l → 1 <= sends l.
Proof. intros (r & reply & H). apply list_elem_of_split in H as (l1 & l2 & ->). rewrite sends_app. cbn. lia. Qed.

Lemma keeps_chained : keeps resumable (λ _ log, chained log).
Proof.
  assert (∀ log, resumable log → chained log) as Hrc.
  { intros log H l1 r reply l2 -> _. apply (H r). apply elem_of_app. right. left. }
  split; [auto|]. intros e t o c' new log Ha Hl.
  assert (∀ l1 r reply l2, new = l1 ++ Send r reply :: l2 → ¬ has_send l1) as Hone.
  { intros l1 r reply l2 E H%sends_pos. apply (f_equal sends) in E. rewrite sends_app in E. cbn in E.
    destruct Ha; cbn in E; lia. }
  split; [|intros err _; by apply chained_app].
  intros Hgo r reply [H|H]%elem_of_app; [|by apply (Hl r)].
  destruct Ha; try done; repeat (apply elem_of_cons in H as [[= -> ->]|H]); try (by auto); try (by apply elem_of_nil in H);
    repeat (apply elem_of_cons in H as [H|H]; [try done; injection H as -> ->; by auto|]); by apply elem_of_nil in H.
Qed.

(** C10. A request is sent again only when that is safe or asked for: an invocation
    makes further calls only after one that the direct proxy reported as not
    dispatched, or whose error carries one of the codes for a retry. After an
    answer of the function, or an error of unknown dispatch, there is none. *)
Theorem no_blind_resend fuel exec spec c err c' log l1 r reply l2 :
  InvokeHandler fuel exec spec c = Some (err, c', log) → log = l1 ++ Send r reply :: l2 → has_send l1 →
  may_resend reply.
Proof.
  intros H. cut (chained log); [intros Hc; apply Hc|]. revert H.
  unfold Invocation.InvokeHandler. destruct spec as [f|]; cbn [getFuncSpec].
  - unfold doInvokeWithRetry. destruct (retry maxInvokeRetries 0 fuel exec f None c []) as [[[err1 c1] log1]|] eqn:Er; [|done].
    apply (retry_log _ _ _ _ _ _ _ _ _ _ _ _ _ keeps_chained) in Er; [by destruct err1; intros [= <- <- <-]|].
    intros ? ? H. by apply elem_of_nil in H.
  - intros [= <- <- <-] l3 r3 reply3 l4 H. by destruct l3.
Qed.

(** ** Answers *)

Lemma loop_written fuel n env k c log err k' c' log' :
  k_alloc k = None → c_ShouldRetry c = false → invoke_loop fuel n env k c log = Some (err, k', c', log') →
  (err = None → written c') ∧ (written c → err ≠ None ∧ c_resp c' = c_resp c).
Proof.
  revert n k c log. induction fuel as [|fuel IH]; intros n k c log Ha Hr; [done|].
  cbn [Invocation.invoke_loop]. destruct (turn (env n) k c log) as [[[o k1] c1] log1] eqn:Et.
  apply turn_spec in Et as (_ & _ & _ & Hc & Hw & Hn & _); [|done|done]. destruct o as [err1|].
  - intros [= <- <- <- <-]. split; [intros ->; by apply Hn|]. intros H. destruct (Hw H) as [-> Hne].
    split; [|done]. by intros ->.
  - destruct (Hc eq_refl) as (H1 & H2 & H3). intros H. apply IH in H as [H4 H5]; [|done|done].
    split; [done|]. rewrite <- H2. intros H. apply H5. unfold written. by rewrite H2.
Qed.

Lemma do_written fuel e f c log err c' log' :
  c_ShouldRetry c = false → doInvoke fuel e f c log = Some (err, c', log') →
  (err = None → written c') ∧ (written c → err ≠ None ∧ c_resp c' = c_resp c).
Proof.
  intros Hr. unfold Invocation.doInvoke.
  destruct (createKernelRequestHandler _ _ _ _ _ _ _ c f) as [[k|er] c1] eqn:Ec.
  - apply create_alloc in Ec as (Ha & Hs & _ & Hresp). unfold Invocation.invoke.
    destruct (invoke_loop fuel 0 (ex_turns e) k c1 log) as [[[[err1 k1] c2] log1]|] eqn:El; [|done].
    intros [= <- <- <-]. apply loop_written in El as [H1 H2]; [|done|congruence].
    unfold written. destruct (reset_flags c2) as [_ ->]. rewrite <- Hresp. by split.
  - intros [= <- <- <-]. split; [done|]. intros _. split; [done|].
    revert Ec. unfold createKernelRequestHandler. repeat case_goal; by intros [= _ <-].
Qed.

Lemma retry_written n i fuel exec f err0 c log err c' log' :
  (err0 = None → 0 < n) → retry n i fuel exec f err0 c log = Some (err, c', log') →
  (err = None → written c') ∧ (written c → err ≠ None ∧ c_resp c' = c_resp c).
Proof.
  revert i err0 c log. induction n as [|n IH]; intros i err0 c log H0; cbn [Invocation.retry].
  - intros [= <- <- <-]. split; [intros E; specialize (H0 E); lia|]. intros _. split; [|done]. intros E. specialize (H0 E). lia.
  - destruct (doInvoke fuel (exec i) f (set_retry false c) log) as [[[err1 c1] log1]|] eqn:Ed; [|done].
    apply do_written in Ed as [H1 H2]; [|done]. destruct err1 as [err1|].
    + destruct (c_ShouldRetry c1); [|by intros [= <- <- <-]]. intros H. apply IH in H as [H3 H4]; [|done].
      split; [done|]. intros Hw. destruct (H2 Hw) as [_ H5]. cbn in H5. rewrite <- H5. apply H4.
      unfold written in *. by rewrite H5.
    + by intros [= <- <- <-].
Qed.

(** C32. Every invocation is answered: when [InvokeHandler] returns, the context
    holds a response. A response that was there before is kept, and then the
    invocation fails whatever the function answered. *)
Theorem invocation_answered fuel exec spec c err c' log :
  InvokeHandler fuel exec spec c = Some (err, c', log) →
  written c' ∧ (written c → err ≠ None ∧ c_resp c' = c_resp c).
Proof.
  unfold Invocation.InvokeHandler. destruct spec as [f|]; cbn [getFuncSpec].
  - unfold doInvokeWithRetry. destruct (retry maxInvokeRetries 0 fuel exec f None c []) as [[[err1 c1] log1]|] eqn:Er; [|done].
    apply retry_written in Er as [H1 H2]; [|unfold maxInvokeRetries; lia]. destruct err1 as [e1|]; intros [= <- <- <-].
    + split; [apply handle_written|]. intros Hw. destruct (H2 Hw) as [_ H3]. split; [done|].
      rewrite handle_keeps; [done|]. unfold written in *. by rewrite H3.
    + split; [by apply H1|done].
  - intros [= <- <- <-]. split; [apply set_error_written|]. intros Hw. by rewrite set_error_keeps.
Qed.

(** ** Time *)

(** The clock runs forward from the start of an execution, within 2^62 ns. *)
Definition clock_ok (start : Z) (env : nat → attempt) : Prop :=
  ∀ i, (start <= at_now (env i) < start + 2 ^ 62)%Z.

Definition elapsed (start : Z) (e : attempt) : Z := Z.quot (at_now e - start) 1000000000.

Lemma compute_small t start e :
  (- 2 ^ 62 <= t < 2 ^ 62)%Z → (start <= at_now e < start + 2 ^ 62)%Z →
  computeTimeout t (at_now e) start = (t - elapsed start e)%Z ∧ (0 <= elapsed start e < 2 ^ 62)%Z.
Proof.
  intros Ht He. assert (0 <= elapsed start e < 2 ^ 62)%Z as Hq.
  { unfold elapsed. rewrite Z.quot_div_nonneg by lia. split; [apply Z.div_pos; lia|].
    apply Z.div_lt_upper_bound; lia. }
  split; [|done]. unfold computeTimeout. fold (elapsed start e). rewrite wrapS_small; lia.
Qed.

Lemma loop_terminates env start t n : clock_ok start env →
  (t < 2 ^ 62)%Z → (t <= elapsed start (env n))%Z →
  ∀ j i k c log, i + j = n → k_alloc k = None → c_ShouldRetry c = false → k_startTime k = start →
  (- 2 ^ 62 <= c_InvokeTimeout c <= t)%Z → is_Some (invoke_loop (S j) i env k c log).
Proof.
  intros Hck Ht Hn. induction j as [|j IH]; intros i k c log Hij Ha Hr Hk Hc.
  - cbn [Invocation.invoke_loop]. assert (i = n) as -> by lia.
    destruct (compute_small (c_InvokeTimeout c) start (env n)) as [E _]; [lia|apply Hck|].
    unfold Invocation.turn. cbn zeta. cbn [set_attempt c_InvokeTimeout]. rewrite Hk, E.
    destruct (_ <=? 0)%Z eqn:El; [by eexists|]. apply Z.leb_gt in El. lia.
  - cbn [Invocation.invoke_loop].
    destruct (turn (env i) k c log) as [[[o k1] c1] log1] eqn:Et.
    apply turn_spec in Et as (T1 & T2 & T3 & T4 & _); [|done|done]. destruct o as [err|]; [by eexists|].
    destruct (T4 eq_refl) as (T5 & _ & T6). specialize (T3 I).
    destruct (compute_small (c_InvokeTimeout c) start (env i)) as [E1 E2]; [lia|apply Hck|].
    rewrite Hk, E1 in T2. apply IH; [lia|done|done|congruence|lia].
Qed.

Lemma loop_times env start t :
  clock_ok start env → (t < 2 ^ 62)%Z →
  ∀ fuel i k c log err k' c' log', k_alloc k = None → c_ShouldRetry c = false → k_startTime k = start →
  (- 2 ^ 62 <= c_InvokeTimeout c <= t)%Z →
  (∀ r reply, Send r reply ∈ log → ∃ i, reply = at_reply (env i) ∧ (0 < ir_InvokeTimeout r <= t - elapsed start (env i))%Z) →
  invoke_loop fuel i env k c log = Some (err, k', c', log') →
  ∀ r reply, Send r reply ∈ log' → ∃ i, reply = at_reply (env i) ∧ (0 < ir_InvokeTimeout r <= t - elapsed start (env i))%Z.
Proof.
  intros Hck Ht. induction fuel as [|fuel IH]; intros i k c log err k' c' log' Ha Hr Hk Hc Hl; [done|].
  cbn [Invocation.invoke_loop]. destruct (turn (env i) k c log) as [[[o k1] c1] log1] eqn:Et.
  apply turn_spec in Et as (T1 & T2 & T3 & T4 & _ & _ & new & -> & Hact & Hpos); [|done|done].
  destruct (compute_small (c_InvokeTimeout c) start (env i)) as [E1 E2]; [lia|apply Hck|].
  rewrite Hk, E1 in T2.
  assert (∀ r reply, Send r reply ∈ new ++ log →
    ∃ i, reply = at_reply (env i) ∧ (0 < ir_InvokeTimeout r <= t - elapsed start (env i))%Z) as Hnew.
  { intros r reply [H|H]%elem_of_app; [|by apply (Hl r)]. pose proof (Hpos r reply H) as Hp. exists i.
    destruct Hact; repeat (apply elem_of_cons in H as [H|H]); try (by apply elem_of_nil in H); try done;
      injection H as -> ->; split; [done|lia|done|lia]. }
  destruct o as [err1|]; [by intros [= <- <- <- <-]|]. destruct (T4 eq_refl) as (T5 & _ & T6). specialize (T3 I).
  apply IH; [done|done|congruence|lia|done].
Qed.

(** C34. The time of an invocation: with a timeout of [t] seconds an execution ends
    in the turn that starts [t] seconds after it, at the latest, and no call is
    made with more time than is left of it, nor with none. *)
Theorem invocation_time fuel env k c start t n err c' log :
  k_alloc k = None → c_ShouldRetry c = false → k_startTime k = start → c_InvokeTimeout c = t →
  (- 2 ^ 62 <= t < 2 ^ 62)%Z → clock_ok start env →
  ((t <= elapsed start (env n))%Z → is_Some (invoke (S n) env k c [])) ∧
  (invoke fuel env k c [] = Some (err, c', log) →
     ∀ r reply, Send r reply ∈ log →
       ∃ i, reply = at_reply (env i) ∧ (0 < ir_InvokeTimeout r <= t - elapsed start (env i))%Z).
Proof.
  intros Ha Hr Hk Hc Ht Hck. split.
  - intros Hn. unfold Invocation.invoke. apply fmap_is_Some.
    eapply (loop_terminates env start t n Hck); [lia|done|lia|done|done|done|lia].
  - unfold Invocation.invoke. destruct (invoke_loop fuel 0 env k c []) as [[[[e1 k1] c1] log1]|] eqn:El; [|done].
    intros [= <- <- <-]. eapply (loop_times env start t Hck); [lia|done|done|done| | |done]; [lia|].
    intros r reply H. by apply elem_of_nil in H.
Qed.

End facts.

(** * Examples *)

Local Open Scope string_scope.

Definition demo_spec : FuncSpec := MkFuncSpec "t/f/latest" "sig" 10 "" "t" "python3.9" 0 false 300 128 "" "" 0.
Definition demo_ctx (body : string) : ictx :=
  MkCtx (MkRequest "trace" "t/f/latest" 0 false false "" ∅ "/" "POST" "" body false) "" false false 0 ""
    (MkResp 0 ∅ "").
Definition demo_lease : InstanceAllocationInfo := MkAlloc "t/f/latest" "sig" "i-1" "lease-1" "" "" "" "" "p-1" 500 300 128 false.

(** A body that is not JSON cannot be marshalled. *)
Definition demo_marshal (q : CallReq) : option string := if bool_decide (cq_Body q = "bad") then None else Some "request".
Definition demo_call_resp (m : string) : option CallResp :=
  if bool_decide (m = "ok") then Some (MkCallResp ∅ "" "0" "" "" "result") else None.

Definition demo_attempt (seconds : Z) (reply : string * option client_err) : attempt :=
  MkAttempt (seconds * 1000000000) "id" 0 false (λ _, Ok (Some demo_lease)) None true empty_registry (Ok None) reply.
Definition demo_exec (turns : list (Z * (string * option client_err))) : execution :=
  MkExecution 0 0 (λ i, match turns !! i with
                        | Some (s, reply) => demo_attempt s reply
                        | None => demo_attempt 1000 ("", None)
                        end).
Definition demo_handler (body : string) (execs : list execution) : option (option error * ictx * list action) :=
  Invocation.InvokeHandler id (λ _, (∅, false)) (λ _, (∅, false)) (λ _, (∅, false)) demo_marshal (λ _, "") (λ _, "")
    (λ _, None) false false Some demo_call_resp (λ _, None) 4
    (λ i, default (demo_exec []) (execs !! i)) (Some demo_spec) (demo_ctx body).

Definition retried : string * option client_err := ("", Some (RuntimeErr ErrInstanceNotFound "gone")).

(** The instance is gone at the first attempt; the second succeeds. *)
Definition demo_log : option (list action) := snd <$> demo_handler "{}" [demo_exec [(1%Z, retried); (2%Z, ("ok", None))]].

Example leases_returned_witness :
  match demo_handler "{}" [demo_exec [(1%Z, retried); (2%Z, ("ok", None))]] with
  | Some (_, _, log) => settled log
  | None => False
  end.
Proof.
  destruct (demo_handler "{}" _) as [[[err c'] log]|] eqn:E; [|by vm_compute in E].
  destruct (leases_returned _ _ _ _ _ _ _ _ _ _ _ _ _ _ _ _ _ _ _ _ E) as [H|(ring & a & l & e & c0 & f & -> & _)]; [done|].
  by vm_compute in E.
Defined.

Example no_blind_resend_witness : may_resend retried.
Proof.
  destruct (demo_handler "{}" [demo_exec [(1%Z, retried); (2%Z, ("ok", None))]]) as [[[err c'] log]|] eqn:E; [|by vm_compute in E].
  pose proof (no_blind_resend _ _ _ _ _ _ _ _ _ _ _ _ _ _ _ _ _ _ _ _ (take 4 log)
    (match nth 4 log (Acquire "" demo_lease) with Send r _ => r | _ => MkInvokeRequest "" "" "" "" [] "" "" "" "" "" None ∅ "" ∅ 0 0 false "" "" "" "" false false false "" end)
    retried (drop 5 log) E) as H.
  vm_compute in E. injection E as <- <- <-. apply H; [reflexivity|]. eexists _, ("ok", None). right. left.
Defined.

Example invocation_answered_witness :
  match demo_handler "{}" [demo_exec [(1%Z, retried); (2%Z, ("ok", None))]] with
  | Some (_, c', _) => written c'
  | None => False
  end.
Proof.
  destruct (demo_handler "{}" _) as [[[err c'] log]|] eqn:E; [|by vm_compute in E].
  exact (proj1 (invocation_answered _ _ _ _ _ _ _ _ _ _ _ _ _ _ _ _ _ _ _ _ E)).
Defined.

Definition demo_kernel : kernelRequestHandler := MkKernel demo_spec "" None 0 false [] None GreenRing (MkSession "" 0 0).
Definition demo_invoke (fuel : nat) (env : nat → attempt) (c : ictx) : option (option error * ictx * list action) :=
  Invocation.invoke id (λ _, (∅, false)) (λ _, (∅, false)) demo_marshal (λ _, None) false false Some demo_call_resp
    (λ _, None) fuel env demo_kernel c [].
Definition demo_timed : ictx := set_attempt "" 10 (demo_ctx "{}").
(** Every instance is gone; the turns start after 0, 3, 6, ... seconds. *)
Definition demo_turns (i : nat) : attempt := demo_attempt (Z.min 12 (3 * Z.of_nat i)) retried.

Example invocation_time_witness : is_Some (demo_invoke 5 demo_turns demo_timed).
Proof.
  refine (proj1 (invocation_time id (λ _, (∅, false)) (λ _, (∅, false)) demo_marshal (λ _, None) false false Some
    demo_call_resp (λ _, None) 0 demo_turns demo_kernel demo_timed 0 10 4 None demo_timed []
    eq_refl eq_refl eq_refl eq_refl _ _) _).
  - lia.
  - intros i. cbn -[Z.mul Z.min]. lia.
  - by vm_compute.
Defined.

(** The time since the start is subtracted in every turn from what the turns
    before have left: with ten seconds, a second turn after four and a third
    after six seconds is refused, although four seconds remain. *)
Theorem time_subtracted_twice :
  ∃ c log, demo_handler "{}" [demo_exec [(0%Z, retried); (4%Z, retried); (6%Z, ("ok", None))]]
             = Some (Some (PlainErr "do invoke failed, timeout"), c, log) ∧ length log = 6.
Proof. eexists _, _. split; [vm_compute; reflexivity|reflexivity]. Qed.

(** A body that is not JSON: the lease is acquired and never released. *)
Theorem unbuildable_request_keeps_lease :
  ∃ err c, demo_handler "bad" [demo_exec [(1%Z, ("ok", None))]] = Some (Some err, c, [Acquire GreenRing demo_lease]).
Proof. eexists _, _. vm_compute. reflexivity. Qed.

(** A retry that [JudgeRetry] asks for cannot succeed: the error of the first
    execution is already written, so the answer of the second is refused. *)
Theorem judged_retry_is_refused :
  ∃ c log, demo_handler "{}" [demo_exec [(1%Z, ("", Some (OtherErr "acquire instance timeout")))];
                              demo_exec [(1%Z, ("ok", None))]]
             = Some (Some (SnErr (MkSnError FrontendStatusInternalError "response has been written")), c, log) ∧
           StatusCode (c_resp c) = 500%Z ∧ length log = 6.
Proof. eexists _, _. split; [vm_compute; reflexivity|]. split; reflexivity. Qed.
