(* ===== verification/FunctionMeta.v ===== *)
(** Package [functionmeta]: the metadata of functions as the watchers of the two
    etcds and of the custom resources deliver it, the routes of serve
    functions, and the read-through that fetches what is missing, shared by
    concurrent callers through package [singleflight].

    The two watchers run in goroutines of their own and a handler first loads
    what is stored and decides, and stores afterwards: these are two steps, and
    what follows the store, the routes included, belongs to the second one. A
    load is a small machine of its own: the lookup, the entry into the single
    flight, the two reads of etcd and the store at the end are separate steps,
    because events arrive between them. JSON decoding is a parameter that
    yields the fields the package reads. *)

From S2P Require Import Prelude GoStrings Urn Trie.

Local Open Scope string_scope.

(** * Specifications *)

Record meta_info := MkMetaInfo { mi_BusinessType : string; mi_RoutePrefixes : list string; mi_rest : string }.

Record FuncSpec := MkSpec { ETCDType : string; FunctionKey : string; fs_meta : meta_info }.

Definition BusinessTypeServe : string := "serve".
Definition Meta : string := "meta".
Definition CAEMeta : string := "CAEMeta".

Definition is_serve (f : FuncSpec) : bool := bool_decide (mi_BusinessType (fs_meta f) = BusinessTypeServe).
(** The route prefix of the first application, "" without applications. *)
Definition route_prefix (f : FuncSpec) : string := from_option id "" (head (mi_RoutePrefixes (fs_meta f))).

Definition functionEtcdKeyLen : nat := 11.

(** The tenant, the name and the version of a key. *)
Definition getFunctionKeyInfo (etcdKey : string) : option (string * string * string) :=
  let keys := Split etcdKey "/" in
  if negb (length keys =? functionEtcdKeyLen)%nat then None
  else Some (nth 6 keys "", nth 8 keys "", nth 10 keys "").

Definition getNoPrefixFuncName (name : string) : string :=
  match LastIndexByte name "@" with
  | Some i => if (0 <? i)%nat then str_drop (i + 1) name else name
  | None => name
  end.

Definition getFunctionWithVersion (funcName version : string) : string :=
  let name := getNoPrefixFuncName funcName in
  if bool_decide (version = "latest") then name else name +:+ ":" +:+ version.

(** The filter of the watchers: [true] drops the event. *)
Definition functionMetaFilter (etcdKey : string) : bool :=
  let keyParts := Split etcdKey "/" in
  negb (length keyParts =? functionEtcdKeyLen)%nat
  || negb (bool_decide (nth 2 keyParts "" = "functions")) || negb (bool_decide (nth 5 keyParts "" = "tenant"))
  || negb (bool_decide (nth 7 keyParts "" = "function")).

(** * State *)

Inductive notice := NoticeUpdate (f : FuncSpec) | NoticeDelete (f : FuncSpec).

(** What a flight returned: [None] for an error. *)
Abbreviation flight := (option (option FuncSpec)).

Inductive load_pc :=
| AtBegin                     (* before the lookups *)
| AtFlight                    (* nothing found, before [sf.Do] takes its lock *)
| AtItem (i : nat)            (* waits for the item of another caller *)
| AtSilent (i : nat)          (* holds the item, before the read of the silent key *)
| AtMeta (i : nat)            (* before the read of the plain key *)
| AtStore (i : nat) (f : FuncSpec)      (* before [funcSpecMap.Store] *)
| AtFinish (i : nat) (r : option FuncSpec)   (* before the item is released *)
| Loaded (r : option FuncSpec).

Record loader := MkLoader { l_key : string; l_pc : load_pc }.

(** A handler of an event between its load and its store, with what it loaded. *)
Inductive handling :=
| Updating (curr : FuncSpec) (pre : option FuncSpec)
| Deleting (functionKey : string) (spec : option FuncSpec).

Record store := MkStore {
  funcSpecMap : gmap string FuncSpec;
  funcCrSpecMap : gmap string FuncSpec;
  funcRouteMap : gmap string FuncSpec;
  trie : trieNode;
  flights : gmap string nat;           (* singleflight: the items by key *)
  items : list flight;                 (* their results, [None] while in flight *)
  expiring : list string;              (* timers that remove a key after an etcd error *)
  loaders : gmap nat loader;
  notices : list notice;               (* newest first *)
  cleared : list string;               (* functions whose balancers and lease pools were dropped *)
  handlers : gmap bool handling;       (* what the watchers are handling, [true]: of the CAE etcd *)
}.

Definition empty_store : store := MkStore ∅ ∅ ∅ NewTrie ∅ [] [] ∅ [] [] ∅.

Definition with_specs (m : gmap string FuncSpec) (s : store) : store :=
  MkStore m (funcCrSpecMap s) (funcRouteMap s) (trie s) (flights s) (items s) (expiring s) (loaders s) (notices s) (cleared s) (handlers s).
Definition with_crs (m : gmap string FuncSpec) (s : store) : store :=
  MkStore (funcSpecMap s) m (funcRouteMap s) (trie s) (flights s) (items s) (expiring s) (loaders s) (notices s) (cleared s) (handlers s).
Definition with_routes (r : gmap string FuncSpec) (t : trieNode) (s : store) : store :=
  MkStore (funcSpecMap s) (funcCrSpecMap s) r t (flights s) (items s) (expiring s) (loaders s) (notices s) (cleared s) (handlers s).
Definition with_flights (fl : gmap string nat) (it : list flight) (ex : list string) (s : store) : store :=
  MkStore (funcSpecMap s) (funcCrSpecMap s) (funcRouteMap s) (trie s) fl it ex (loaders s) (notices s) (cleared s) (handlers s).
Definition with_loader (c : nat) (l : loader) (s : store) : store :=
  MkStore (funcSpecMap s) (funcCrSpecMap s) (funcRouteMap s) (trie s) (flights s) (items s) (expiring s)
    (<[c := l]> (loaders s)) (notices s) (cleared s) (handlers s).
Definition with_output (n : list notice) (cl : list string) (s : store) : store :=
  MkStore (funcSpecMap s) (funcCrSpecMap s) (funcRouteMap s) (trie s) (flights s) (items s) (expiring s) (loaders s) n cl (handlers s).
Definition with_handlers (h : gmap bool handling) (s : store) : store :=
  MkStore (funcSpecMap s) (funcCrSpecMap s) (funcRouteMap s) (trie s) (flights s) (items s) (expiring s) (loaders s) (notices s) (cleared s) h.

Definition publish (n : notice) (s : store) : store := with_output (n :: notices s) (cleared s) s.

(** [SFCache.Remove]. *)
Definition sf_Remove (key : string) (s : store) : store :=
  with_flights (delete key (flights s)) (items s) (expiring s) s.

(** [DeleteBalancer] and [ClearFuncLeasePools] on both rings. *)
Definition clear_function (key : string) (s : store) : store := with_output (notices s) (key :: cleared s) s.

(** * Routes *)

Definition segments (prefix : string) : list string := Split prefix "/".

Definition LoadFuncSpecWithPath (path : string) (s : store) : option FuncSpec :=
  let routePrefix := LongestMatch (trie s) (segments path) in
  if bool_decide (routePrefix = "") then None else funcRouteMap s !! routePrefix.

Definition updateRoute (pre : option FuncSpec) (curr : FuncSpec) (s : store) : store :=
  let preRoutePrefix := from_option route_prefix "" pre in
  let currRoutePrefix := route_prefix curr in
  let '(r, t) :=
    if negb (bool_decide (preRoutePrefix = currRoutePrefix))
    then (delete preRoutePrefix (funcRouteMap s), Trie.Delete (trie s) (segments preRoutePrefix))
    else (funcRouteMap s, trie s) in
  with_routes (<[currRoutePrefix := curr]> r) (Trie.Insert t (segments currRoutePrefix)) s.

(** * Events *)

Section metadata.
  (** [json.Unmarshal] into a [FunctionMetaInfo], after [SetFuncMetaDynamicConfEnable]. *)
  Variable unmarshal_meta : string → option meta_info.
  (** The registry of custom resources is on. *)
  Variable enableAgentCRDRegistry : bool.
  (** [GetMetaEtcdClient] has a client. *)
  Variable etcd_ready : bool.

Definition buildFuncSpec (functionKey value etcdType : string) : option FuncSpec :=
  MkSpec etcdType functionKey <$> unmarshal_meta value.

(** A function of the other etcd that a CAE event must not touch. *)
Definition from_meta (f : option FuncSpec) : bool :=
  match f with Some f => negb (bool_decide (ETCDType f = CAEMeta)) | None => false end.

(** [ProcessUpdate] up to its decision, and from its store on. *)
Definition ProcessUpdate_load (etcdKey value etcdType : string) (s : store) : option handling :=
  match getFunctionKeyInfo etcdKey with
  | None => None
  | Some (tenantID, funcName, version) =>
      let functionKey := CombineFunctionKey tenantID funcName version in
      match buildFuncSpec functionKey value etcdType with
      | None => None
      | Some curr =>
          let pre := funcSpecMap s !! functionKey in
          if bool_decide (etcdType = CAEMeta) && from_meta pre then None else Some (Updating curr pre)
      end
  end.

Definition ProcessUpdate_store (curr : FuncSpec) (pre : option FuncSpec) (s : store) : store :=
  let functionKey := FunctionKey curr in
  let s := sf_Remove functionKey (with_specs (<[functionKey := curr]> (funcSpecMap s)) s) in
  let s := if is_serve curr then updateRoute pre curr s else s in
  publish (NoticeUpdate curr) s.

(** [ProcessDelete] likewise. *)
Definition ProcessDelete_load (etcdKey etcdType : string) (s : store) : option handling :=
  match getFunctionKeyInfo etcdKey with
  | None => None
  | Some (tenantID, funcName, version) =>
      let functionKey := CombineFunctionKey tenantID funcName version in
      let spec := funcSpecMap s !! functionKey in
      if bool_decide (etcdType = CAEMeta) && from_meta spec then None else Some (Deleting functionKey spec)
  end.

Definition ProcessDelete_store (functionKey : string) (spec : option FuncSpec) (s : store) : store :=
  match spec with
  | Some spec =>
      let s := with_specs (delete functionKey (funcSpecMap s)) s in
      let s :=
        if is_serve spec && negb (length (mi_RoutePrefixes (fs_meta spec)) =? 0)%nat
        then with_routes (delete (route_prefix spec) (funcRouteMap s))
               (Trie.Delete (trie s) (segments (route_prefix spec))) s
        else s in
      clear_function functionKey (sf_Remove functionKey (publish (NoticeDelete spec) s))
  | None => clear_function functionKey (sf_Remove functionKey s)
  end.

Definition ProcessUpdateFromCr (functionKey value : string) (s : store) : store :=
  match buildFuncSpec functionKey value "" with
  | None => s
  | Some curr =>
      publish (NoticeUpdate curr)
        (sf_Remove functionKey (with_crs (<[functionKey := curr]> (funcCrSpecMap s)) s))
  end.

Definition ProcessDeleteFromCr (functionKey : string) (s : store) : store :=
  match funcCrSpecMap s !! functionKey with
  | None => s
  | Some spec =>
      clear_function functionKey
        (sf_Remove functionKey (publish (NoticeDelete spec) (with_crs (delete functionKey (funcCrSpecMap s)) s)))
  end.

Inductive meta_event := MetaPut (key value etcdType : string) | MetaDelete (key etcdType : string).

(** The handler of the watchers of both etcds, in its two steps. *)
Definition handler_load (e : meta_event) (s : store) : option handling :=
  match e with
  | MetaPut key value etcdType => ProcessUpdate_load key value etcdType s
  | MetaDelete key etcdType => ProcessDelete_load key etcdType s
  end.
Definition handler_store (h : handling) (s : store) : store :=
  match h with
  | Updating curr pre => ProcessUpdate_store curr pre s
  | Deleting key spec => ProcessDelete_store key spec s
  end.

Definition of_cae (e : meta_event) : bool :=
  match e with MetaPut _ _ t | MetaDelete _ t => bool_decide (t = CAEMeta) end.

(** A watcher handles one event after the other. *)
Definition functionMetaHandler (e : meta_event) (s : store) : store :=
  match handlers s !! of_cae e with
  | Some _ => s
  | None => match handler_load e s with Some h => with_handlers (<[of_cae e := h]> (handlers s)) s | None => s end
  end.
Definition functionMetaHandled (cae : bool) (s : store) : store :=
  match handlers s !! cae with
  | Some h => handler_store h (with_handlers (delete cae (handlers s)) s)
  | None => s
  end.

(** * Loading a specification *)

Definition ParseFuncKey (funcKey : string) : string * string * string :=
  let funcInfo := Split funcKey "/" in
  if (length funcInfo <? 3)%nat then ("", "", "") else (nth 0 funcInfo "", nth 1 funcInfo "", nth 2 funcInfo "").

Definition func_etcd_key (prefix funcKey : string) : string :=
  let '(tenantID, funcName, version) := ParseFuncKey funcKey in
  prefix +:+ "/sn/functions/business/yrk/tenant/" +:+ tenantID +:+ "/function/" +:+ funcName +:+ "/version/" +:+ version.
Definition silentEtcdKey (funcKey : string) : string := func_etcd_key "/silent" funcKey.
Definition metaEtcdKey (funcKey : string) : string := func_etcd_key "" funcKey.

Definition loadFromCrSpecMap (funcKey : string) (s : store) : option FuncSpec :=
  if enableAgentCRDRegistry then funcCrSpecMap s !! funcKey else None.

(** The answer of etcd to a read. *)
Inductive etcd_reply := ReplyError | ReplyMissing | ReplyValue (value : string).

Definition set_item (i : nat) (r : option FuncSpec) (s : store) : store :=
  with_flights (flights s) (<[i := Some r]> (items s)) (expiring s) s.

(** An etcd error starts the timer that removes the key. *)
Definition fetchEtcdWithKey (key : string) (reply : etcd_reply) (s : store) : store :=
  match reply with
  | ReplyError => with_flights (flights s) (items s) (key :: expiring s) s
  | _ => s
  end.

(** The value that was read becomes the result of the flight. *)
Definition fetched (key value : string) (i : nat) : load_pc :=
  match buildFuncSpec key value Meta with
  | Some f => AtStore i f
  | None => AtFinish i None
  end.

(** One step of a load; [reply] is what etcd answers in the steps that ask. *)
Definition load_step (c : nat) (reply : etcd_reply) (s : store) : store :=
  match loaders s !! c with
  | None => s
  | Some l =>
      let key := l_key l in
      let goto (p : load_pc) (s : store) := with_loader c (MkLoader key p) s in
      match l_pc l with
      | AtBegin =>
          match loadFromCrSpecMap key s, funcSpecMap s !! key with
          | Some f, _ | None, Some f => goto (Loaded (Some f)) s
          | None, None => goto AtFlight s
          end
      | AtFlight =>
          match flights s !! key with
          | Some i => goto (AtItem i) s
          | None =>
              let i := length (items s) in
              goto (if etcd_ready then AtSilent i else AtFinish i None)
                (with_flights (<[key := i]> (flights s)) (items s ++ [None]) (expiring s) s)
          end
      | AtItem i =>
          match items s !! i with
          | Some (Some r) => goto (Loaded r) s
          | _ => s
          end
      | AtSilent i =>
          match reply with
          | ReplyError => goto (AtFinish i None) (fetchEtcdWithKey key reply s)
          | ReplyMissing => goto (AtMeta i) s
          | ReplyValue v => goto (fetched key v i) s
          end
      | AtMeta i =>
          match reply with
          | ReplyError => goto (AtFinish i None) (fetchEtcdWithKey key reply s)
          | ReplyMissing => goto (AtFinish i None) s
          | ReplyValue v => goto (fetched key v i) s
          end
      | AtStore i f => goto (AtFinish i (Some f)) (with_specs (<[key := f]> (funcSpecMap s)) s)
      | AtFinish i r => goto (Loaded r) (set_item i r s)
      | Loaded _ => s
      end
  end.

(** [LoadFuncSpec] begins. *)
Definition LoadFuncSpec (c : nat) (funcKey : string) (s : store) : store :=
  match loaders s !! c with
  | Some _ => s
  | None => with_loader c (MkLoader funcKey AtBegin) s
  end.

Inductive event :=
| Watch (e : meta_event)
| Handled (cae : bool)
| CrPut (functionKey value : string)
| CrDelete (functionKey : string)
| Load (c : nat) (funcKey : string)
| LoadStep (c : nat) (reply : etcd_reply)
| Expire (n : nat).

Definition step (s : store) (e : event) : store :=
  match e with
  | Watch e => functionMetaHandler e s
  | Handled cae => functionMetaHandled cae s
  | CrPut key value => ProcessUpdateFromCr key value s
  | CrDelete key => ProcessDeleteFromCr key s
  | Load c key => LoadFuncSpec c key s
  | LoadStep c reply => load_step c reply s
  | Expire n =>
      match expiring s !! n with
      | Some key => sf_Remove key (with_flights (flights s) (items s) (delete n (expiring s)) s)
      | None => s
      end
  end.

Definition run (es : list event) : store := foldl step empty_store es.

End metadata.

(** * Properties

    Facts about function metadata: paths find the function with the longest
    prefix, the FaaS etcd wins over the CAE etcd, concurrent loads share one
    fetch; and the runs in which stale metadata stays. *)



Local Open Scope list_scope.

Section facts.
  Context (um : string → option meta_info) (crd ready : bool).

  Local Abbreviation handler_load := (FunctionMeta.handler_load um).
  Local Abbreviation load_step := (FunctionMeta.load_step um crd ready).
  Local Abbreviation step := (FunctionMeta.step um crd ready).
  Local Abbreviation run := (FunctionMeta.run um crd ready).

(** * Routes *)

(** The tree holds the prefixes of the route map, and each entry is under the
    prefix of its function. *)
Record routed (s : store) : Prop := {
  rt_words : ∀ w, Trie.Search (trie s) w = true ↔ ∃ p f, funcRouteMap s !! p = Some f ∧ segments p = w;
  rt_prefix : ∀ p f, funcRouteMap s !! p = Some f → route_prefix f = p;
}.

Lemma segments_inj p q : segments p = segments q → p = q.
Proof.
  unfold segments. intros H. rewrite <- (Join_Split p "/"), <- (Join_Split q "/"); [by rewrite H|done|done].
Qed.

Lemma routed_frame s s' : trie s' = trie s → funcRouteMap s' = funcRouteMap s → routed s → routed s'.
Proof. intros Ht Hr [H1 H2]. split; [by rewrite Ht, Hr|by rewrite Hr]. Qed.

Lemma routed_delete p s :
  routed s → routed (with_routes (delete p (funcRouteMap s)) (Trie.Delete (trie s) (segments p)) s).
Proof.
  intros [H1 H2]. split; cbn.
  - intros w. unfold Trie.Delete. rewrite Search_delete_rec, andb_true_iff, H1, negb_true_iff, bool_decide_eq_false.
    split.
    + intros [Hne (q & f & Hq & <-)]. exists q, f. split; [|done]. rewrite lookup_delete_ne; [done|]. by intros ->.
    + intros (q & f & Hq & <-). apply lookup_delete_Some in Hq as [Hne Hq]. split; [|by eauto].
      intros E. by apply Hne, segments_inj.
  - intros q f Hq. apply lookup_delete_Some in Hq as [_ Hq]. by apply H2.
Qed.

Lemma routed_insert f s :
  routed s →
  routed (with_routes (<[route_prefix f := f]> (funcRouteMap s)) (Trie.Insert (trie s) (segments (route_prefix f))) s).
Proof.
  intros [H1 H2]. split; cbn.
  - intros w. rewrite Search_Insert, orb_true_iff, H1, bool_decide_eq_true. split.
    + intros [<-|(q & g & Hq & <-)]; [exists (route_prefix f), f; by rewrite lookup_insert_eq|].
      destruct (decide (q = route_prefix f)) as [->|Hne]; [exists (route_prefix f), f; by rewrite lookup_insert_eq|].
      exists q, g. by rewrite lookup_insert_ne.
    + intros (q & g & Hq & <-). apply lookup_insert_Some in Hq as [[<- _]|[_ Hq]]; eauto.
  - intros q g Hq. apply lookup_insert_Some in Hq as [[<- <-]|[_ Hq]]; [done|by apply H2].
Qed.

Lemma routed_update pre f s : routed s → routed (updateRoute pre f s).
Proof.
  intros Hs. unfold updateRoute. case_goal.
  - destruct (negb _); injection Heqp as <- <-; [|by apply routed_insert].
    apply (routed_delete (from_option route_prefix "" pre)) in Hs. by apply (routed_insert f) in Hs.
Qed.

Lemma routed_handler h s : routed s → routed (handler_store h s).
Proof.
  intros Hs. destruct h as [curr pre|key [spec|]]; cbn.
  - unfold ProcessUpdate_store. destruct (is_serve curr); [|by revert Hs; apply routed_frame].
    eapply (routed_frame (updateRoute _ curr (sf_Remove _ (with_specs _ s)))); [done|done|].
    apply routed_update. by revert Hs; apply routed_frame.
  - destruct (_ && _); [|by revert Hs; apply routed_frame].
    apply (routed_delete (route_prefix spec)) in Hs. by revert Hs; apply routed_frame.
  - by revert Hs; apply routed_frame.
Qed.

Lemma load_step_routes c reply s :
  trie (load_step c reply s) = trie s ∧ funcRouteMap (load_step c reply s) = funcRouteMap s ∧
  funcCrSpecMap (load_step c reply s) = funcCrSpecMap s.
Proof. unfold FunctionMeta.load_step. by repeat case_goal. Qed.

Lemma routed_run es : routed (run es).
Proof.
  unfold FunctionMeta.run. apply (foldl_inv routed).
  - intros s e _ Hs. destruct e as [e|cae|key value|key|c key|c reply|n]; cbn [FunctionMeta.step].
    + unfold functionMetaHandler. repeat case_goal; try done. by revert Hs; apply routed_frame.
    + unfold functionMetaHandled. case_goal; [|done]. apply routed_handler. by revert Hs; apply routed_frame.
    + unfold ProcessUpdateFromCr. case_goal; [|done]. by revert Hs; apply routed_frame.
    + unfold ProcessDeleteFromCr. case_goal; [|done]. by revert Hs; apply routed_frame.
    + unfold LoadFuncSpec. case_goal; [done|]. by revert Hs; apply routed_frame.
    + destruct (load_step_routes c reply s) as (H1 & H2 & _). by revert Hs; apply routed_frame.
    + case_goal; [|done]. by revert Hs; apply routed_frame.
  - split; cbn.
    + intros w. rewrite Search_empty. split; [done|]. intros (p & f & H & _). by rewrite lookup_empty in H.
    + intros p f H. by rewrite lookup_empty in H.
Qed.

(** Paths find their function: in every reachable state, a path is routed to
    the function registered under the longest route prefix of it, segment by
    segment, and it is refused only when no prefix other than "" is registered. *)
Theorem path_finds_longest_prefix es path :
  let s := run es in
  match LoadFuncSpecWithPath path s with
  | Some f =>
      funcRouteMap s !! route_prefix f = Some f ∧ route_prefix f ≠ ""%string ∧
      segments (route_prefix f) `prefix_of` segments path ∧
      ∀ p g, funcRouteMap s !! p = Some g → segments p `prefix_of` segments path →
        length (segments p) <= length (segments (route_prefix f))
  | None =>
      ∀ p g, funcRouteMap s !! p = Some g → p ≠ ""%string → ¬ segments p `prefix_of` segments path
  end.
Proof.
  intros s. pose proof (routed_run es) as [H1 H2]. fold s in H1, H2. unfold LoadFuncSpecWithPath.
  assert (∀ p, segments p ≠ []) as Hne by (intros p; apply Split_nonempty).
  unfold LongestMatch. destruct (match_loop_spec (trie s) (segments path) [] ""%string []) as (q & Hq & Hcase); [done|done|].
  rewrite Hq. destruct Hcase as [[-> Hn]|(r & -> & Hr & Hp & Hs & Hm)].
  - cbn. intros p g Hg Hpne Hpre. specialize (Hn (segments p) (Hne p) Hpre).
    rewrite (proj2 (H1 (segments p))) in Hn; [done|eauto].
  - cbn [app] in *. apply H1 in Hs as (p & f & Hf & <-). 
    assert (Join (segments p) "/" = p) as -> by (by apply Join_Split).
    destruct (bool_decide (p = ""%string)) eqn:Ep.
    + apply bool_decide_eq_true in Ep as ->. intros p' g Hg Hpne Hpre.
      assert (length (segments p') <= length (segments "")) as Hlen by (apply Hm; [done|apply H1; eauto]).
      assert (segments p' = segments "") as E; [|by apply Hpne, segments_inj].
      destruct Hp as [k1 E1], Hpre as [k2 E2]. rewrite E1 in E2.
      change (segments "") with [""%string] in *. destruct (segments p') as [|x [|y l]] eqn:Es;
        [by destruct (Hne p')| |cbn in Hlen; lia]. cbn in E2. by injection E2 as <- _.
    + apply bool_decide_eq_false in Ep. rewrite Hf. rewrite (H2 _ _ Hf). repeat split; try done.
      intros p' g Hg Hpre. apply Hm; [done|]. apply H1. eauto.
Qed.

(** * The two etcds *)

Definition event_key (k : string) : option string :=
  (λ '(t, n, v), CombineFunctionKey t n v) <$> getFunctionKeyInfo k.

Definition handling_key (h : handling) : string := match h with Updating f _ => FunctionKey f | Deleting key _ => key end.

Definition agrees (said : option (option FuncSpec)) (stored : option FuncSpec) : Prop :=
  match said with
  | Some (Some f) => stored = Some f ∧ from_meta (Some f) = true
  | _ => from_meta stored = false
  end.

Lemma build_type key v t f : buildFuncSpec um key v t = Some f → ETCDType f = t ∧ FunctionKey f = key.
Proof. unfold buildFuncSpec. destruct (um v); [|done]. by intros [= <-]. Qed.

(** What the last event of the FaaS etcd that was handled says about a function:
    nothing yet, a specification, or that it is gone. *)
Definition say (key : string) (s : store) (e : event) (said : option (option FuncSpec)) : option (option FuncSpec) :=
  match e, handlers s !! false with
  | Handled false, Some (Updating f _) => if bool_decide (FunctionKey f = key) then Some (Some f) else said
  | Handled false, Some (Deleting k _) => if bool_decide (k = key) then Some None else said
  | _, _ => said
  end.
Fixpoint stored_says (key : string) (s : store) (said : option (option FuncSpec)) (es : list event) : option (option FuncSpec) :=
  match es with
  | [] => said
  | e :: es => stored_says key (step s e) (say key s e said) es
  end.

(** No event of the FaaS etcd is stored for the function while the other watcher
    is between the load and the store of an event for it. *)
Definition overlaps (key : string) (s : store) (e : event) : bool :=
  match e, handlers s !! false, handlers s !! true with
  | Handled false, Some h, Some h' => bool_decide (handling_key h = key) && bool_decide (handling_key h' = key)
  | _, _, _ => false
  end.
Fixpoint apart (key : string) (s : store) (es : list event) : Prop :=
  match es with
  | [] => True
  | e :: es => overlaps key s e = false ∧ apart key (step s e) es
  end.

Lemma store_specs h s :
  funcSpecMap (handler_store h s) =
  match h with
  | Updating f _ => <[FunctionKey f := f]> (funcSpecMap s)
  | Deleting key (Some _) => delete key (funcSpecMap s)
  | Deleting key None => funcSpecMap s
  end.
Proof.
  destruct h as [f pre|key [spec|]]; cbn; [|by destruct (_ && _)|done].
  unfold ProcessUpdate_store. destruct (is_serve f); [|done]. unfold updateRoute. by destruct (negb _).
Qed.

Lemma store_handlers h s : handlers (handler_store h s) = handlers s.
Proof.
  destruct h as [f pre|key [spec|]]; cbn; [|by destruct (_ && _)|done].
  unfold ProcessUpdate_store. destruct (is_serve f); [|done]. unfold updateRoute. by destruct (negb _).
Qed.

Lemma load_spec e s h :
  handler_load e s = Some h →
  match h with
  | Updating f pre => from_meta (Some f) = negb (of_cae e)
  | Deleting key spec => spec = funcSpecMap s !! key
  end ∧ (of_cae e = true → from_meta (funcSpecMap s !! handling_key h) = false).
Proof.
  destruct e as [k v t|k t]; cbn.
  - unfold ProcessUpdate_load. destruct (getFunctionKeyInfo k) as [[[a b] c]|]; [|done].
    destruct (buildFuncSpec um _ v t) as [f|] eqn:Eb; [|done]. apply build_type in Eb as [Et Ek].
    destruct (_ && _) eqn:E; [done|]. intros [= <-]. cbn. rewrite Et, Ek. split; [done|]. intros Hc. by rewrite Hc in E.
  - unfold ProcessDelete_load. destruct (getFunctionKeyInfo k) as [[[a b] c]|]; [|done].
    destruct (_ && _) eqn:E; [done|]. intros [= <-]. cbn. split; [done|]. intros Hc. by rewrite Hc in E.
Qed.

(** The pending handlers of the function know what is stored. *)
Record told (key : string) (said : option (option FuncSpec)) (s : store) : Prop := {
  to_agrees : agrees said (funcSpecMap s !! key);
  to_cae : ∀ h, handlers s !! true = Some h →
    match h with Updating f _ => from_meta (Some f) = false | Deleting _ _ => True end ∧
    (handling_key h = key → from_meta (funcSpecMap s !! key) = false);
  to_faas : ∀ h, handlers s !! false = Some h →
    match h with
    | Updating f _ => from_meta (Some f) = true
    | Deleting k None => k = key → from_meta (funcSpecMap s !! key) = false
    | Deleting _ (Some _) => True
    end }.

Lemma told_frame key said s s' :
  told key said s → funcSpecMap s' !! key = funcSpecMap s !! key → handlers s' = handlers s → told key said s'.
Proof. intros [T1 T2 T3] E1 E2. split; rewrite ?E1, ?E2; done. Qed.

Lemma told_load key said s e : told key said s → told key said (functionMetaHandler um e s).
Proof.
  intros T. unfold functionMetaHandler. destruct (handlers s !! of_cae e) eqn:Eh; [done|].
  destruct (handler_load e s) as [h|] eqn:El; [|done]. destruct (load_spec _ _ _ El) as (L1 & L2). destruct T as [T1 T2 T3].
  split; cbn; [done|..]; intros h'; rewrite lookup_insert_Some; intros [[E <-]|[_ H]].
  2: by apply T2.
  3: by apply T3.
  - rewrite E in *. split; [|intros <-; auto]. destruct h; [exact L1|done].
  - rewrite E in *. destruct h as [f pre|k [spec|]]; [exact L1|done|]. intros ->. by rewrite <- L1.
Qed.

Lemma told_store key said s cae :
  told key said s → overlaps key s (Handled cae) = false → told key (say key s (Handled cae) said) (functionMetaHandled cae s).
Proof.
  intros T Ho. unfold functionMetaHandled, say. destruct (handlers s !! cae) as [h|] eqn:Eh; [|by destruct cae; rewrite ?Eh].
  destruct cae.
  - (* the CAE etcd *)
    assert (told key said (handler_store h (with_handlers (delete true (handlers s)) s))) as H.
    { destruct T as [T1 T2 T3]. destruct (T2 h Eh) as (Hh & Hk).
      assert (Hm : funcSpecMap (handler_store h (with_handlers (delete true (handlers s)) s)) !! key = funcSpecMap s !! key ∨
        (handling_key h = key ∧ from_meta (funcSpecMap (handler_store h (with_handlers (delete true (handlers s)) s)) !! key) = false)).
      { rewrite store_specs. destruct h as [f pre|k [spec|]]; cbn in *; [| |by left].
        - destruct (decide (FunctionKey f = key)) as [E|Hne]; [right; rewrite E, lookup_insert_eq; done|left; by rewrite lookup_insert_ne].
        - destruct (decide (k = key)) as [E|Hne]; [right; rewrite E, lookup_delete_eq; done|left; by rewrite lookup_delete_ne]. }
      split; rewrite ?store_handlers; cbn.
      - destruct Hm as [->|[E Hf]]; [done|]. specialize (Hk E). destruct said as [[g|]|]; [destruct T1 as [E1 E2]; rewrite E1 in Hk; congruence|exact Hf..].
      - intros h'. by rewrite lookup_delete_eq.
      - intros h'. rewrite lookup_delete_ne by done. intros Hh'. specialize (T3 h' Hh'). destruct h' as [|k [|]]; try done.
        intros Ek. destruct Hm as [->|[_ Hf]]; auto. }
    by destruct (handlers s !! false) as [[? ?|? ?]|].
  - (* the FaaS etcd *)
    rewrite Eh. unfold overlaps in Ho. rewrite Eh in Ho. destruct T as [T1 T2 T3]. specialize (T3 h Eh).
    assert (Hc : ∀ h', handlers s !! true = Some h' → handling_key h = key → handling_key h' ≠ key).
    { intros h' Hh' E1 E2. rewrite Hh', !bool_decide_true in Ho by done. done. }
    split; rewrite ?store_handlers, ?store_specs; cbn.
    + destruct h as [f pre|k [spec|]]; cbn in *.
      * destruct (decide (FunctionKey f = key)) as [E|Hne]; [rewrite bool_decide_true, E, lookup_insert_eq by done; done|].
        by rewrite bool_decide_false, lookup_insert_ne by done.
      * destruct (decide (k = key)) as [E|Hne]; [rewrite bool_decide_true, E, lookup_delete_eq by done; done|].
        by rewrite bool_decide_false, lookup_delete_ne by done.
      * destruct (decide (k = key)) as [E|Hne]; [rewrite bool_decide_true by done; cbn; auto|by rewrite bool_decide_false].
    + intros h'. rewrite lookup_delete_ne by done. intros Hh'. destruct (T2 h' Hh') as (G1 & G2). split; [done|]. intros E2.
      assert (handling_key h ≠ key) as Hne by (intros E1; by eapply Hc).
      destruct h as [f pre|k [spec|]]; cbn in *; rewrite ?lookup_insert_ne, ?lookup_delete_ne by done; auto.
    + intros h'. by rewrite lookup_delete_eq.
Qed.

Lemma load_step_frame key c reply s :
  (∀ l, loaders s !! c = Some l → l_key l ≠ key) →
  funcSpecMap (load_step c reply s) !! key = funcSpecMap s !! key ∧ handlers (load_step c reply s) = handlers s.
Proof.
  intros Hl. unfold FunctionMeta.load_step. destruct (loaders s !! c) as [l|] eqn:El; [|done]. specialize (Hl l eq_refl).
  destruct (l_pc l); repeat case_goal; try done. cbn. by rewrite lookup_insert_ne.
Qed.

(** The loads of other functions stay loads of other functions. *)
Lemma loaders_key key s e :
  (∀ c, e ≠ Load c key) → (∀ c l, loaders s !! c = Some l → l_key l ≠ key) →
  ∀ c l, loaders (step s e) !! c = Some l → l_key l ≠ key.
Proof.
  intros He Hs. destruct e as [e|cae|k v|k|c k|c reply|n]; cbn.
  - unfold functionMetaHandler. by repeat case_goal.
  - unfold functionMetaHandled. destruct (handlers s !! cae) as [h|]; [|done].
    destruct h as [f pre|k [spec|]]; cbn; [|by destruct (_ && _)|done]. unfold ProcessUpdate_store. destruct (is_serve f); [|done].
    unfold updateRoute. by destruct (negb _).
  - unfold ProcessUpdateFromCr. by case_goal.
  - unfold ProcessDeleteFromCr. by case_goal.
  - unfold LoadFuncSpec. destruct (loaders s !! c) eqn:E; [done|]. cbn. intros c' l. rewrite lookup_insert_Some.
    intros [[<- <-]|[_ H]]; [|by eapply Hs]. cbn. intros ->. by eapply He.
  - intros c' l. destruct (loaders s !! c) as [l0|] eqn:E; [|unfold FunctionMeta.load_step; rewrite E; apply Hs].
    assert (∀ p s', loaders s' = loaders s → loaders (with_loader c (MkLoader (l_key l0) p) s') !! c' = Some l → l_key l ≠ key) as K.
    { intros p s' Es. cbn. rewrite Es, lookup_insert_Some. intros [[<- <-]|[_ H]]; [cbn|]; by eapply Hs. }
    unfold FunctionMeta.load_step. rewrite E. destruct (l_pc l0); repeat case_goal; try apply Hs; by apply K.
  - case_goal; done.
Qed.

(** The same from the events alone. What an event of a watcher means for a
    function: [None] when it cannot be read, [Some None] when it is about another
    function. *)
Definition meaning (key : string) (e : meta_event) : option (option (option FuncSpec)) :=
  match e with
  | MetaPut k v t =>
      match event_key k, um v with
      | Some k, Some mi => Some (if bool_decide (k = key) then Some (Some (MkSpec t k mi)) else None)
      | _, _ => None
      end
  | MetaDelete k _ =>
      match event_key k with
      | Some k => Some (if bool_decide (k = key) then Some None else None)
      | None => None
      end
  end.

(** The event the watcher of the FaaS etcd is handling, and what the last one it
    has handled says. *)
Definition hear (key : string) (h : option (option (option FuncSpec)) * option (option FuncSpec)) (e : event) :=
  match e, h with
  | Watch e, (None, said) => if of_cae e then h else (meaning key e, said)
  | Handled false, (Some (Some x), said) => (None, Some x)
  | Handled false, (Some None, said) => (None, said)
  | _, _ => h
  end.
Definition faas_says (key : string) (es : list event) : option (option FuncSpec) :=
  (foldl (hear key) (None, None) es).2.

Definition handled_says (key : string) (h : handling) : option (option FuncSpec) :=
  match h with
  | Updating f _ => if bool_decide (FunctionKey f = key) then Some (Some f) else None
  | Deleting k _ => if bool_decide (k = key) then Some None else None
  end.

Lemma load_meaning key e s : of_cae e = false → handled_says key <$> handler_load e s = meaning key e.
Proof.
  intros He. destruct e as [k v t|k t]; cbn in *; unfold ProcessUpdate_load, ProcessDelete_load, event_key, buildFuncSpec;
    destruct (getFunctionKeyInfo k) as [[[a b] c]|]; cbn; rewrite ?He; cbn; try done.
  by destruct (um v); cbn; rewrite ?He.
Qed.

Lemma other_handlers s e :
  match e with Watch _ | Handled _ => True | _ => handlers (step s e) = handlers s end.
Proof.
  destruct e as [e|cae|k v|k|c k|c reply|n]; cbn; try done.
  - unfold ProcessUpdateFromCr. by case_goal.
  - unfold ProcessDeleteFromCr. by case_goal.
  - unfold LoadFuncSpec. by case_goal.
  - unfold FunctionMeta.load_step. destruct (loaders s !! c) as [l|]; [|done]. by destruct (l_pc l); repeat case_goal.
  - by case_goal.
Qed.

Lemma hear_step key s said e :
  hear key (handled_says key <$> handlers s !! false, said) e =
  (handled_says key <$> handlers (step s e) !! false, say key s e said).
Proof.
  pose proof (other_handlers s e) as Ho. destruct e as [e|cae|k v|k|c k|c reply|n];
    try (rewrite Ho; by destruct (handlers s !! false) as [[? ?|? ?]|]); clear Ho; cbn.
  - unfold functionMetaHandler. destruct (of_cae e) eqn:Ec.
    + destruct (handlers s !! false) as [h|] eqn:Eh; cbn; destruct (handlers s !! true); rewrite ?Eh; try done;
        by destruct (handler_load e s); cbn; rewrite ?lookup_insert_ne, ?Eh by done.
    + destruct (handlers s !! false) as [h|] eqn:Eh; cbn; rewrite ?Eh; [done|]. rewrite <- (load_meaning key e s Ec).
      destruct (handler_load e s); cbn; [by rewrite lookup_insert_eq|by rewrite Eh].
  - unfold functionMetaHandled. destruct cae.
    + destruct (handlers s !! true); [rewrite store_handlers; cbn; rewrite lookup_delete_ne by done|]; by destruct (handlers s !! false) as [[? ?|? ?]|].
    + destruct (handlers s !! false) as [h|] eqn:Eh; cbn; [|by rewrite Eh]. rewrite store_handlers. cbn. rewrite lookup_delete_eq.
      destruct h as [f pre|k spec]; cbn; by case_bool_decide.
Qed.

Lemma heard key es s said :
  (foldl (hear key) (handled_says key <$> handlers s !! false, said) es).2 = stored_says key s said es.
Proof.
  revert s said. induction es as [|e es IH]; intros s said; cbn [foldl stored_says]; [done|].
  rewrite hear_step. apply IH.
Qed.

(** C17. The FaaS etcd wins. Over all interleavings of the two watchers, of custom
    resources, expiries and loads of other functions: as long as no event of
    the FaaS etcd for a function is stored while the watcher of the CAE etcd is
    between the load and the store of one for it, a function whose last handled
    event of the FaaS etcd is an update has exactly that specification,
    whatever the CAE etcd says; without one, or after its deletion there, only
    the CAE etcd can provide it. *)
Theorem faas_etcd_wins es key :
  apart key empty_store es → (∀ c, Load c key ∉ es) →
  agrees (faas_says key es) (funcSpecMap (run es) !! key).
Proof.
  unfold faas_says. rewrite (heard key es empty_store None : (foldl _ (None, None) es).2 = _).
  assert (told key None empty_store) as T by (split; cbn; [done|intros h H; by rewrite lookup_empty in H..]).
  assert (∀ c l, loaders empty_store !! c = Some l → l_key l ≠ key) as L by (cbn; intros c l; by rewrite lookup_empty).
  revert T L. unfold FunctionMeta.run. generalize (None : option (option FuncSpec)), empty_store.
  induction es as [|e es IH]; intros said s T L; cbn [apart stored_says foldl]; [intros _ _; apply T|].
  intros [Ho Ha] Hl. apply IH; [|apply loaders_key; [|done]|done|]; [|intros c ->; by apply (Hl c); left|intros c Hc; by apply (Hl c); right].
  destruct e as [e|cae|k v|k|c k|c reply|n]; cbn [FunctionMeta.step say].
  - by apply told_load.
  - by apply told_store.
  - eapply told_frame; [done|..]; unfold ProcessUpdateFromCr; by case_goal.
  - eapply told_frame; [done|..]; unfold ProcessDeleteFromCr; by case_goal.
  - eapply told_frame; [done|..]; unfold LoadFuncSpec; by case_goal.
  - destruct (load_step_frame key c reply s) as [E1 E2]; [intros l; apply L|]. by eapply told_frame.
  - eapply told_frame; [done|..]; by case_goal.
Qed.

(** * Concurrent loads *)

(** The item a load fetches for. *)
Definition holds (p : load_pc) : option nat :=
  match p with AtSilent i | AtMeta i | AtStore i _ | AtFinish i _ => Some i | _ => None end.

(** A result that belongs to a key. *)
Definition of_key (key : string) (r : option FuncSpec) : Prop :=
  match r with Some f => FunctionKey f = key | None => True end.

Definition pc_key (key : string) (p : load_pc) : Prop :=
  match p with AtStore _ f => FunctionKey f = key | AtFinish _ r | Loaded r => of_key key r | _ => True end.

(** [i] is the flight of a key: in flight by a load of that key, or landed with
    a result of that key. *)
Definition flies (s : store) (key : string) (i : nat) : Prop :=
  match items s !! i with
  | Some None => ∃ c l, loaders s !! c = Some l ∧ holds (l_pc l) = Some i ∧ l_key l = key
  | Some (Some r) => of_key key r
  | None => False
  end.

Record shared (s : store) : Prop := {
  sh_specs : ∀ key f, funcSpecMap s !! key = Some f → FunctionKey f = key;
  sh_crs : ∀ key f, funcCrSpecMap s !! key = Some f → FunctionKey f = key;
  sh_pcs : ∀ c l, loaders s !! c = Some l → pc_key (l_key l) (l_pc l);
  sh_open : ∀ c l i, loaders s !! c = Some l → holds (l_pc l) = Some i → items s !! i = Some None;
  sh_one : ∀ c c' l l' i, loaders s !! c = Some l → loaders s !! c' = Some l' →
    holds (l_pc l) = Some i → holds (l_pc l') = Some i → c = c';
  sh_flights : ∀ key i, flights s !! key = Some i → flies s key i;
  sh_waits : ∀ c l i, loaders s !! c = Some l → l_pc l = AtItem i → flies s (l_key l) i;
}.

Lemma shared_frame s s' :
  (∀ key f, funcSpecMap s' !! key = Some f → FunctionKey f = key) →
  (∀ key f, funcCrSpecMap s' !! key = Some f → FunctionKey f = key) →
  (∀ key i, flights s' !! key = Some i → flights s !! key = Some i) →
  items s' = items s → loaders s' = loaders s → shared s → shared s'.
Proof.
  intros H1 H2 Hf Hi Hl [S1 S2 S3 S4 S5 S6 S7]. split; unfold flies in *; rewrite ?Hi, ?Hl; try done.
  intros key i H. apply S6. by apply Hf.
Qed.

(** A load moves on without changing which item it holds. *)
Lemma shared_move c l p s :
  shared s → loaders s !! c = Some l → holds p = holds (l_pc l) → pc_key (l_key l) p →
  (∀ i, p = AtItem i → flies s (l_key l) i) → shared (with_loader c (MkLoader (l_key l) p) s).
Proof.
  intros [S1 S2 S3 S4 S5 S6 S7] Hl Hh Hp Hw.
  assert (∀ key i, flies s key i → flies (with_loader c (MkLoader (l_key l) p) s) key i) as Hf.
  { intros key i. unfold flies. cbn. destruct (items s !! i) as [[r|]|]; [done| |done].
    intros (c' & l' & H1 & H2 & H3). destruct (decide (c' = c)) as [->|Hne].
    - exists c, (MkLoader (l_key l) p). rewrite lookup_insert_eq. cbn. assert (l' = l) as -> by congruence.
      by rewrite Hh.
    - exists c', l'. by rewrite lookup_insert_ne. }
  split; cbn; try done.
  - intros c' l'. rewrite lookup_insert_Some. intros [[<- <-]|[_ H]]; [done|by eapply S3].
  - intros c' l' i. rewrite lookup_insert_Some. intros [[<- <-]|[_ H]]; cbn; [rewrite Hh|]; by eapply S4.
  - intros c1 c2 l1 l2 i. rewrite !lookup_insert_Some.
    intros [[<- <-]|[? H1]] [[<- <-]|[? H2]]; cbn; rewrite ?Hh; intros; [done|by eapply S5..].
  - intros key i H. by apply Hf, S6.
  - intros c' l' i. rewrite lookup_insert_Some. intros [[<- <-]|[_ H]] E; apply Hf; [by apply Hw|by eapply S7].
Qed.

Lemma shared_specs key f s :
  shared s → FunctionKey f = key → shared (with_specs (<[key := f]> (funcSpecMap s)) s).
Proof.
  intros Hs Hf. apply (shared_frame s); try done; [|apply Hs].
  cbn. intros k g. rewrite lookup_insert_Some. intros [[<- <-]|[_ H]]; [done|by eapply Hs].
Qed.

Lemma shared_expiring ex s : shared s → shared (with_flights (flights s) (items s) ex s).
Proof. intros Hs. apply (shared_frame s); try done; apply Hs. Qed.

(** A new flight. *)
Lemma shared_open c l p s :
  shared s → loaders s !! c = Some l → l_pc l = AtFlight → flights s !! l_key l = None →
  holds p = Some (length (items s)) → pc_key (l_key l) p →
  shared (with_loader c (MkLoader (l_key l) p)
            (with_flights (<[l_key l := length (items s)]> (flights s)) (items s ++ [None]) (expiring s) s)).
Proof.
  intros [S1 S2 S3 S4 S5 S6 S7] Hl Hpc Hfl Hh Hp. set (s' := with_loader _ _ _).
  assert (∀ i, i < length (items s) → items s' !! i = items s !! i) as Hold by (intros i Hi; cbn; by rewrite lookup_app_l).
  assert (items s' !! length (items s) = Some None) as Hnew.
  { cbn. rewrite lookup_app_r, Nat.sub_diag by lia. done. }
  assert (∀ i x, items s !! i = Some x → i < length (items s)) as Hlt by (intros; by eapply lookup_lt_Some).
  assert (∀ key i, flies s key i → flies s' key i) as Hf.
  { intros key i H. unfold flies in H. destruct (items s !! i) as [x|] eqn:Ei; [|done]. unfold flies.
    rewrite Hold by eauto. rewrite Ei. destruct x as [r|]; [done|]. destruct H as (c' & l' & H1 & H2 & H3).
    exists c', l'. cbn. rewrite lookup_insert_ne; [done|]. intros <-. rewrite H1 in Hl. injection Hl as ->. by rewrite Hpc in H2. }
  assert (∀ c' l' i, loaders s !! c' = Some l' → holds (l_pc l') = Some i → i < length (items s)) as Hb
    by (intros; eapply Hlt, S4; eauto).
  split; try done.
  - cbn. intros c' l'. rewrite lookup_insert_Some. intros [[<- <-]|[_ H]]; [done|by eapply S3].
  - intros c' l' i. cbn [s' loaders with_loader]. rewrite lookup_insert_Some. intros [[<- <-]|[_ H]] E; cbn in E.
    + rewrite Hh in E. by injection E as <-.
    + rewrite Hold by eauto. by eapply S4.
  - intros c1 c2 l1 l2 i. cbn [s' loaders with_loader]. rewrite !lookup_insert_Some.
    intros [[<- <-]|[? H1]] [[<- <-]|[? H2]] E1 E2; cbn in *; [done|..|by eapply S5].
    + rewrite Hh in E1. injection E1 as <-. specialize (Hb _ _ _ H2 E2). lia.
    + rewrite Hh in E2. injection E2 as <-. specialize (Hb _ _ _ H1 E1). lia.
  - intros key i. cbn [s' flights with_loader with_flights]. rewrite lookup_insert_Some. intros [[<- <-]|[_ H]]; [|by apply Hf, S6].
    unfold flies. rewrite Hnew. exists c, (MkLoader (l_key l) p). cbn. by rewrite lookup_insert_eq.
  - intros c' l' i. cbn [s' loaders with_loader]. rewrite lookup_insert_Some. intros [[<- <-]|[_ H]] E; cbn in E.
    + subst p. done.
    + apply Hf. by eapply S7.
Qed.

(** A flight lands. *)
Lemma shared_land c l i r s :
  shared s → loaders s !! c = Some l → l_pc l = AtFinish i r →
  shared (with_loader c (MkLoader (l_key l) (Loaded r)) (set_item i r s)).
Proof.
  intros [S1 S2 S3 S4 S5 S6 S7] Hl Hpc.
  assert (items s !! i = Some None) as Hi by (eapply S4; [done|by rewrite Hpc]).
  assert (of_key (l_key l) r) as Hr by (specialize (S3 c l Hl); by rewrite Hpc in S3).
  assert (∀ c' l', loaders s !! c' = Some l' → holds (l_pc l') = Some i → c' = c) as Hone.
  { intros c' l' H1 H2. eapply S5; [done|done|done|]. by rewrite Hpc. }
  set (s' := with_loader _ _ _).
  assert (∀ key j, flies s key j → flies s' key j) as Hf.
  { intros key j. unfold flies. cbn. destruct (decide (j = i)) as [->|Hne].
    - rewrite Hi, list_lookup_insert_eq by (by eapply lookup_lt_Some).
      intros (c' & l' & H1 & H2 & H3). rewrite (Hone _ _ H1 H2) in H1. assert (l' = l) as -> by congruence. by rewrite <- H3.
    - rewrite list_lookup_insert_ne by done. destruct (items s !! j) as [[x|]|]; [done| |done].
      intros (c' & l' & H1 & H2 & H3). exists c', l'. rewrite lookup_insert_ne; [done|]. intros <-.
      assert (l' = l) as -> by congruence. rewrite Hpc in H2. cbn in H2. congruence. }
  split; cbn; try done.
  - intros c' l'. rewrite lookup_insert_Some. intros [[<- <-]|[_ H]]; [done|by eapply S3].
  - intros c' l' j. rewrite lookup_insert_Some. intros [[<- <-]|[Hne H]] E; [done|].
    rewrite list_lookup_insert_ne; [by eapply S4|]. intros <-. by apply Hne; symmetry; eapply Hone.
  - intros c1 c2 l1 l2 j. rewrite !lookup_insert_Some.
    intros [[<- <-]|[? H1]] [[<- <-]|[? H2]] E1 E2; try done. by eapply S5.
  - intros key j H. by apply Hf, S6.
  - intros c' l' j. rewrite lookup_insert_Some. intros [[<- <-]|[_ H]] E; [done|]. apply Hf. by eapply S7.
Qed.

Lemma shared_handler h s : shared s → shared (handler_store h s).
Proof.
  intros Hs. apply (shared_frame s); try apply Hs.
  - intros key f. rewrite store_specs. destruct h as [g pre|k [spec|]]; [|rewrite lookup_delete_Some; intros [_ H]; by eapply Hs|apply Hs].
    rewrite lookup_insert_Some. intros [[<- <-]|[_ H]]; [done|by eapply Hs].
  - destruct h as [g pre|k [spec|]]; cbn; [unfold ProcessUpdate_store, updateRoute|..]; repeat case_goal; apply Hs.
  - destruct h as [g pre|k [spec|]]; cbn; [unfold ProcessUpdate_store, updateRoute|..]; repeat case_goal; cbn; intros key i;
      rewrite ?lookup_delete_Some; naive_solver.
  - destruct h as [g pre|k [spec|]]; cbn; [unfold ProcessUpdate_store, updateRoute|..]; by repeat case_goal.
  - destruct h as [g pre|k [spec|]]; cbn; [unfold ProcessUpdate_store, updateRoute|..]; by repeat case_goal.
Qed.

Lemma fetched_pc key v i : pc_key key (fetched um key v i) ∧ holds (fetched um key v i) = Some i.
Proof. unfold fetched. destruct (buildFuncSpec um key v Meta) eqn:E; [|done]. split; [by eapply build_type|done]. Qed.

Lemma shared_load c reply s : shared s → shared (load_step c reply s).
Proof.
  intros Hs. unfold FunctionMeta.load_step. destruct (loaders s !! c) as [l|] eqn:El; [|done]. cbn zeta.
  assert (∀ p, holds p = holds (l_pc l) → pc_key (l_key l) p → (∀ i, p = AtItem i → flies s (l_key l) i) →
            shared (with_loader c (MkLoader (l_key l) p) s)) as Hmove by (intros; by apply shared_move).
  assert (∀ i v, holds (l_pc l) = Some i → shared (with_loader c (MkLoader (l_key l) (fetched um (l_key l) v i)) s)) as Hfetch.
  { intros i v Hh. destruct (fetched_pc (l_key l) v i) as [H1 H2]. apply Hmove; [congruence|done|].
    intros j E. by rewrite E in H2. }
  assert (∀ i, holds (l_pc l) = Some i →
    shared (with_loader c (MkLoader (l_key l) (AtFinish i None)) (fetchEtcdWithKey (l_key l) ReplyError s))) as Herr.
  { intros i Hh. apply (shared_move c l (AtFinish i None) (fetchEtcdWithKey (l_key l) ReplyError s));
      [by apply shared_expiring|done|by rewrite Hh|done|done]. }
  destruct (l_pc l) as [| |i|i|i|i f|i r|r] eqn:Ep; try done.
  - assert (∀ f, loadFromCrSpecMap crd (l_key l) s = Some f → FunctionKey f = l_key l) as Hcr.
    { unfold loadFromCrSpecMap. destruct crd; [|done]. intros f. apply Hs. }
    destruct (loadFromCrSpecMap crd (l_key l) s) as [f|] eqn:Ec; [apply Hmove; [done|by apply Hcr|done]|].
    destruct (funcSpecMap s !! l_key l) as [f|] eqn:Ef; apply Hmove; try done. by apply Hs in Ef.
  - destruct (flights s !! l_key l) as [i|] eqn:Ef.
    + apply Hmove; [done|done|]. intros j [= <-]. by apply Hs.
    + destruct ready; by apply shared_open.
  - destruct (items s !! i) as [[r|]|] eqn:Ei; [|done|done]. apply Hmove; [done| |done].
    pose proof (sh_waits s Hs c l i El Ep) as H. unfold flies in H. by rewrite Ei in H.
  - destruct reply; [by apply Herr|by apply Hmove|by apply Hfetch].
  - destruct reply; [by apply Herr|by apply Hmove|by apply Hfetch].
  - pose proof (sh_pcs s Hs c l El) as Hk. rewrite Ep in Hk. cbn in Hk.
    apply (shared_move c l (AtFinish i (Some f)) (with_specs (<[l_key l := f]> (funcSpecMap s)) s));
      [by apply shared_specs|done|by rewrite Ep|done|done].
  - by apply shared_land.
Qed.

Lemma shared_run es : shared (run es).
Proof.
  unfold FunctionMeta.run. apply (foldl_inv shared).
  - intros s e _ Hs. destruct e as [e|cae|key value|key|c key|c reply|n]; cbn [FunctionMeta.step].
    + unfold functionMetaHandler. repeat case_goal; try done. apply (shared_frame s); try done; apply Hs.
    + unfold functionMetaHandled. case_goal; [|done]. apply shared_handler. apply (shared_frame s); try done; apply Hs.
    + unfold ProcessUpdateFromCr. destruct (buildFuncSpec um key value "") as [f|] eqn:Eb; [|done].
      apply (shared_frame s); try done; try apply Hs; cbn.
      * intros k g. rewrite lookup_insert_Some. intros [[<- <-]|[_ H]]; [by eapply build_type|by eapply (sh_crs s Hs)].
      * intros k i. rewrite lookup_delete_Some. by intros [_ H].
    + unfold ProcessDeleteFromCr. case_goal; [|done]. apply (shared_frame s); try done; try apply Hs; cbn.
      * intros k g. rewrite lookup_delete_Some. intros [_ H]. by eapply (sh_crs s Hs).
      * intros k i. rewrite lookup_delete_Some. by intros [_ H].
    + unfold LoadFuncSpec. destruct (loaders s !! c) as [l|] eqn:El; [done|]. destruct Hs as [S1 S2 S3 S4 S5 S6 S7].
      assert (∀ k i, flies s k i → flies (with_loader c (MkLoader key AtBegin) s) k i) as Hf.
      { intros k i. unfold flies. cbn. destruct (items s !! i) as [[r|]|]; [done| |done].
        intros (c' & l' & H1 & H2 & H3). exists c', l'. rewrite lookup_insert_ne; [done|congruence]. }
      split; cbn; try done.
      * intros c' l'. rewrite lookup_insert_Some. intros [[<- <-]|[_ H]]; [done|by eapply S3].
      * intros c' l' i. rewrite lookup_insert_Some. intros [[<- <-]|[_ H]]; [done|by eapply S4].
      * intros c1 c2 l1 l2 i. rewrite !lookup_insert_Some. intros [[<- <-]|[? H1]] [[<- <-]|[? H2]]; try done. by eapply S5.
      * intros k i H. by apply Hf, S6.
      * intros c' l' i. rewrite lookup_insert_Some. intros [[<- <-]|[_ H]] E; [done|]. apply Hf. by eapply S7.
    + by apply shared_load.
    + case_goal; [|done]. apply (shared_frame s); try done; try apply Hs; cbn.
      intros k i. rewrite lookup_delete_Some. by intros [_ H].
  - split; cbn; intros *; by rewrite lookup_empty.
Qed.

(** Concurrent loads share a fetch. In every interleaving of loads, events and
    expiries: two loads never fetch for the same flight, a load that waits does
    so for a flight of its own function that has landed or that another load is
    still fetching, and what a load returns is a specification of the function
    it asked for. *)
Theorem loads_share_fetch es :
  let s := run es in
  (∀ c c' l l' i, loaders s !! c = Some l → loaders s !! c' = Some l' →
     holds (l_pc l) = Some i → holds (l_pc l') = Some i → c = c') ∧
  (∀ c l i, loaders s !! c = Some l → l_pc l = AtItem i →
     (∃ r, items s !! i = Some (Some r) ∧ of_key (l_key l) r) ∨
     (∃ c' l', loaders s !! c' = Some l' ∧ holds (l_pc l') = Some i ∧ l_key l' = l_key l)) ∧
  (∀ c l f, loaders s !! c = Some l → l_pc l = Loaded (Some f) → FunctionKey f = l_key l).
Proof.
  intros s. pose proof (shared_run es) as Hs. fold s in Hs. split; [apply Hs|]. split.
  - intros c l i Hl Hp. pose proof (sh_waits s Hs c l i Hl Hp) as H. unfold flies in H.
    destruct (items s !! i) as [[r|]|]; [left; eauto|by right|done].
  - intros c l f Hl Hp. pose proof (sh_pcs s Hs c l Hl) as H. by rewrite Hp in H.
Qed.

End facts.

(** * Examples *)

Local Open Scope string_scope.

(** Values are the business type and the route prefix. *)
Definition demo_meta (v : string) : option meta_info :=
  match Split v "," with
  | [b; p] => Some (MkMetaInfo b [p] v)
  | [b] => Some (MkMetaInfo b [] v)
  | _ => None
  end.

Definition demo_key (name : string) : string := func_etcd_key "" ("t/" +:+ name +:+ "/v").
Definition demo_put (name value : string) : list event := [Watch (MetaPut (demo_key name) value Meta); Handled false].
Definition demo_delete (name : string) : list event := [Watch (MetaDelete (demo_key name) Meta); Handled false].
Definition demo_run : list event → store := run demo_meta false true.

(** A function that is updated while its metadata is fetched: the older value
    is stored over the newer one, and stays. *)
Definition demo_fetch : list event :=
  [Load 0 "t/f/v"; LoadStep 0 ReplyMissing; LoadStep 0 ReplyMissing; LoadStep 0 ReplyMissing; LoadStep 0 (ReplyValue "faas,old")].

Theorem fetch_overwrites_update :
  let s := demo_run (demo_fetch ++ demo_put "f" "faas,new")%list in
  let s' := demo_run (demo_fetch ++ demo_put "f" "faas,new" ++ [LoadStep 0 ReplyMissing])%list in
  (mi_rest ∘ fs_meta <$> funcSpecMap s !! "t/f/v") = Some "faas,new" ∧
  (mi_rest ∘ fs_meta <$> funcSpecMap s' !! "t/f/v") = Some "faas,old".
Proof. split; reflexivity. Qed.

(** A function that is deleted while its metadata is fetched comes back. *)
Theorem fetch_revives_deleted :
  is_Some (funcSpecMap (demo_run (demo_fetch ++ demo_delete "f" ++ [LoadStep 0 ReplyMissing])%list) !! "t/f/v").
Proof. by eexists. Qed.

(** The function is in both etcds; after its deletion from the FaaS etcd the
    specification of the CAE etcd, which was skipped, is not used. *)
Theorem skipped_cae_spec_is_lost :
  funcSpecMap (demo_run (demo_put "f" "faas,x" ++ [Watch (MetaPut (demo_key "f") "cae,x" CAEMeta); Handled true] ++
                         demo_delete "f")%list) !! "t/f/v" = None.
Proof. reflexivity. Qed.

(** A function that stops being a serve function keeps its route, and two
    functions with one prefix lose it together. *)
Theorem route_outlives_serve :
  mi_rest ∘ fs_meta <$> LoadFuncSpecWithPath "/shop/cart" (demo_run (demo_put "f" "serve,/shop" ++ demo_put "f" "faas,/shop")%list)
    = Some "serve,/shop".
Proof. reflexivity. Qed.

Theorem shared_prefix_lost :
  let s := demo_run (demo_put "f" "serve,/shop" ++ demo_put "g" "serve,/shop" ++ demo_delete "f")%list in
  is_Some (funcSpecMap s !! "t/g/v") ∧ LoadFuncSpecWithPath "/shop/cart" s = None.
Proof. split; [by eexists|reflexivity]. Qed.

(** A caller that comes before the etcd client is there leaves an error that
    later callers get as well, with no timer to remove it. *)
Theorem early_error_sticks :
  let s := run demo_meta false false [Load 0 "t/f/v"; LoadStep 0 ReplyMissing; LoadStep 0 ReplyMissing; LoadStep 0 ReplyMissing] in
  let s' := foldl (step demo_meta false true) s [Load 1 "t/f/v"; LoadStep 1 (ReplyValue "faas,x"); LoadStep 1 (ReplyValue "faas,x"); LoadStep 1 (ReplyValue "faas,x")] in
  loaders s' !! 1 = Some (MkLoader "t/f/v" (Loaded None)) ∧ expiring s' = [].
Proof. split; reflexivity. Qed.

(** The watcher of the CAE etcd found nothing stored; the FaaS etcd's update is
    stored before it goes on, and is replaced. *)
Definition demo_race : list event :=
  ([Watch (MetaPut (demo_key "f") "cae,x" CAEMeta)] ++ demo_put "f" "faas,x" ++ [Handled true])%list.

Theorem check_then_store_race : mi_rest ∘ fs_meta <$> funcSpecMap (demo_run demo_race) !! "t/f/v" = Some "cae,x".
Proof. reflexivity. Qed.

Lemma faas_etcd_wins_witness :
  mi_rest ∘ fs_meta <$> funcSpecMap (demo_run (demo_put "f" "faas,x" ++ [Watch (MetaPut (demo_key "f") "cae,x" CAEMeta); Handled true])%list) !! "t/f/v"
    = Some "faas,x".
Proof.
  destruct (faas_etcd_wins demo_meta false true (demo_put "f" "faas,x" ++ [Watch (MetaPut (demo_key "f") "cae,x" CAEMeta); Handled true])%list
              "t/f/v") as [H _]; [vm_compute; auto|intros c Hc; by repeat (apply elem_of_cons in Hc as [?|Hc]; [done|]); apply elem_of_nil in Hc|].
  unfold demo_run. rewrite H. reflexivity.
Defined.
