(* ===== verification/EtcdCache.v ===== *)
(** Package [etcd3], [cache.go] and [event.go]: the events of a watcher and the
    file cache of the newest event per key.

    The cache lives in three files. A flush renames the data file to a backup,
    merges the backup with the events into a new data file, records the
    revision and the MD5 of that file in the meta file and removes the backup.
    A flush is modelled as its result and the states that the files go through,
    one per file operation, so that a crash leaves one of these states. *)
From stdpp Require Import base gmap list strings sorting.
From S2P Require Import Prelude GoStrings Json.

Local Open Scope string_scope.

(** * event.go *)

Inductive event_type := PUT | DELETE | HISTORYDELETE | HISTORYUPDATE | ERROR | SYNCED.
#[global] Instance event_type_eq_dec : EqDecision event_type.
Proof. solve_decision. Defined.

(** Byte slices are options, [None] for nil. *)
Record Event := MkEvent {
  Type_ : event_type; Key : string; Value : option string; PrevValue : option string; Rev : Z; ETCDType : string }.

Definition syncedEvent : Event := MkEvent SYNCED "" None None 0 "".

(** A [mvccpb.KeyValue]; etcd decodes an empty value as nil. *)
Record KeyValue := MkKV { kv_Key : string; kv_Value : option string; kv_ModRevision : Z }.

(** A [clientv3.Event]. *)
Record client_event := MkClientEvent { ce_delete : bool; ce_Kv : KeyValue; ce_PrevKv : option KeyValue }.

Definition parseKV (etcdType : string) (kv : KeyValue) : Event :=
  MkEvent PUT (kv_Key kv) (kv_Value kv) None (kv_ModRevision kv) etcdType.

Definition parseEvent (etcdType : string) (e : client_event) : Event :=
  MkEvent (if ce_delete e then DELETE else PUT) (kv_Key (ce_Kv e)) (kv_Value (ce_Kv e))
    (ce_PrevKv e ≫= kv_Value) (kv_ModRevision (ce_Kv e)) etcdType.

Definition with_type (t : event_type) (e : Event) : Event :=
  MkEvent t (Key e) (Value e) (PrevValue e) (Rev e) (ETCDType e).
Definition with_key (k : string) (e : Event) : Event :=
  MkEvent (Type_ e) k (Value e) (PrevValue e) (Rev e) (ETCDType e).

Definition parseHistoryEvent (etcdType : string) (e : client_event) : Event :=
  let event := parseEvent etcdType e in
  match Type_ event with
  | DELETE => with_type HISTORYDELETE event
  | PUT => with_type HISTORYUPDATE event
  | _ => event
  end.

(** * Lines of the data file *)

(** An entry of the data file: a key with its revision and its value. *)
Record entry := MkEntry { en_key : string; en_rev : Z; en_value : string }.

Definition sep : ascii := "|".
Definition newline : ascii := "010".
Definition carriage_return : ascii := "013".

(** What [flushEventToFile] appends. *)
Definition print_entry (e : entry) : string :=
  en_key e +:+ String sep (FormatInt (en_rev e) +:+ String sep (en_value e +:+ String newline "")).

Fixpoint print_entries (l : list entry) : string :=
  match l with [] => "" | e :: l => print_entry e +:+ print_entries l end.

(** [bufio.ScanLines] drops one carriage return at the end of a line. *)
Fixpoint drop_cr (s : string) : string :=
  match s with
  | "" => ""
  | String c "" => if bool_decide (c = carriage_return) then "" else s
  | String c s => String c (drop_cr s)
  end.

Definition MaxScanTokenSize : Z := 65536.

(** [bufio.Scanner] over lines: it stops for good at a line that does not fit
    its buffer; the empty rest after the last line feed is no line. *)
Fixpoint scanned (lines : list string) : list string :=
  match lines with
  | [] => []
  | [last] => if bool_decide (last = "") || (MaxScanTokenSize <=? Z.of_nat (String.length last))%Z then [] else [drop_cr last]
  | line :: lines =>
      if (MaxScanTokenSize <=? Z.of_nat (String.length line))%Z then [] else drop_cr line :: scanned lines
  end.

Definition scan_lines (content : string) : list string := scanned (Split content (String newline "")).

(** [strings.SplitN(line, "|", 3)] with three items, and the revision. *)
Definition parse_line (line : string) : option entry :=
  i ← IndexByte line sep;
  let rest := str_drop (S i) line in
  j ← IndexByte rest sep;
  r ← Atoi (str_take j rest);
  Some (MkEntry (str_take i line) r (str_drop (S j) rest)).

Definition parse_lines (content : string) : list entry := omap parse_line (scan_lines content).

(** * The merge of a flush *)

Definition entry_of (e : Event) : entry := MkEntry (Key e) (Rev e) (default "" (Value e)).

Definition key_le (a b : Event) : Prop := String.le (Key a) (Key b).
#[global] Instance key_le_dec : RelDecision key_le.
Proof. intros a b. unfold key_le. apply _. Defined.

Definition generateSortedCacheList (cache : gmap string Event) : list Event := merge_sort key_le (map_to_list cache).*2.

(** The inner loop for one scanned entry: what it writes for the events before
    the entry, the events that are left, the value and the revision of the
    entry ([None] when it is not written) and the revision of the cache. *)
Fixpoint scan_events (s : entry) (value : option string) (eventList : list Event) (rev : Z) :
    list entry * list Event * option entry * Z :=
  let here := (λ v, MkEntry (en_key s) (en_rev s) v) <$> value in
  match eventList with
  | [] => ([], [], here, rev)
  | e :: rest =>
      let rev := Z.max rev (Rev e) in
      if String.ltb (Key e) (en_key s)
      then
        let '(out, more, here, rev) := scan_events s value rest rev in
        ((if decide (Type_ e = PUT) then [entry_of e] else []) ++ out, more, here, rev)%list
      else if bool_decide (Key e = en_key s)
      then
        ([], rest,
         if (en_rev s <? Rev e)%Z && bool_decide (Type_ e = PUT)
         then (λ v, MkEntry (en_key s) (Rev e) v) <$> Value e
         else if (en_rev s <? Rev e)%Z && bool_decide (Type_ e = DELETE) then None else here, rev)
      else ([], eventList, here, rev)
  end.

(** The loop after the last line. *)
Definition rest_events (eventList : list Event) (rev : Z) : list entry * Z :=
  (entry_of <$> filter (λ e, Type_ e = PUT) eventList, foldl (λ r e, Z.max r (Rev e)) rev eventList).

Fixpoint merge_entries (scan : list entry) (eventList : list Event) (rev : Z) : list entry * Z :=
  match scan with
  | [] => rest_events eventList rev
  | s :: scan =>
      let '(out, more, here, rev) := scan_events s (Some (en_value s)) eventList (Z.max rev (en_rev s)) in
      let '(out', rev) := merge_entries scan more rev in
      (out ++ option_list here ++ out', rev)%list
  end.

(** * The files *)

Record ETCDCacheMeta := MkMeta { Revision : Z; CacheMD5 : string }.

(** A meta file that cannot be read or decoded is [BadMeta]. *)
Inductive meta_file := NoMeta | BadMeta | GoodMeta (m : ETCDCacheMeta).

Record files := MkFiles { f_meta : meta_file; f_data : option string; f_backup : option string }.

Definition with_meta (m : meta_file) (f : files) : files := MkFiles m (f_data f) (f_backup f).
Definition with_data (d : option string) (f : files) : files := MkFiles (f_meta f) d (f_backup f).
Definition with_backup (b : option string) (f : files) : files := MkFiles (f_meta f) (f_data f) b.

Definition getCacheMeta (f : files) : option ETCDCacheMeta :=
  match f_meta f with
  | NoMeta => Some (MkMeta 0 "")
  | BadMeta => None
  | GoodMeta m => Some m
  end.

(** A file operation, which ends in a state. A program is the states it goes
    through, its last state being the current one. *)
Definition trace := list files.
Definition now (f : files) (t : trace) : files := default f (last t).

(** The removal of all three files. *)
Definition cleanCacheFile (cleanMeta cleanData cleanBackup : bool) (f : files) : trace :=
  let m := if cleanMeta then [with_meta NoMeta f] else [] in
  let f := now f m in
  let d := if cleanData then [with_data None f] else [] in
  let f := now f d in
  (m ++ d ++ if cleanBackup then [with_backup None f] else [])%list.

Inductive cache_error := ErrInvalidCacheMeta | ErrCacheDataNotExist | ErrCacheDataMD5Mismatch | ErrOs | ErrWriteData.

(** The calls to the system that fail in a flush; [fault_meta]: the meta file
    cannot be written, and whether it was truncated by then; [fault_write]: the
    number of bytes that were written of an entry whose [WriteAt] failed. *)
Record faults := MkFaults {
  fault_rename : bool; fault_remove : bool; fault_backup : bool; fault_data : bool; fault_meta : option bool;
  fault_write : nat → option nat }.
Definition no_faults : faults := MkFaults false false false false None (λ _, None).

Section cache.
  Context (md5 : string → string).

(** A file that is missing has the MD5 "". *)
Definition CalcFileMD5 (content : option string) : string := from_option md5 "" content.

Definition processDataBackup (flt : faults) (cacheMeta : ETCDCacheMeta) (f : files) : option cache_error * trace :=
  let check (t : trace) :=
    let f := now f t in
    if bool_decide (CalcFileMD5 (f_backup f) = CacheMD5 cacheMeta) then (None, t)
    else (Some ErrCacheDataMD5Mismatch, t ++ cleanCacheFile true true true f)%list in
  match f_data f, f_backup f with
  | None, None => (None, [])
  | Some data, None =>
      if fault_rename flt then (Some ErrOs, cleanCacheFile true true true f)
      else check [MkFiles (f_meta f) None (Some data)]
  | Some _, Some _ =>
      if fault_remove flt then (Some ErrOs, []) else check [with_data None f]
  | None, Some _ => check []
  end.

Definition WriteAt (content bytes : string) (offset : nat) : string :=
  str_take offset content +:+ bytes +:+ str_drop (offset + String.length bytes) content.

(** The content of the data file and the offset it returns; an error of
    [WriteAt] is only logged. *)
Definition flushEventToFile (fault : option nat) (content : string) (offset : nat) (e : entry) : string * nat :=
  match fault with
  | None => (WriteAt content (print_entry e) offset, (offset + String.length (print_entry e))%nat)
  | Some n => (WriteAt content (str_take n (print_entry e)) offset, offset)
  end.

(** The states of the data file while the entries are written one by one, from
    the [i]-th on, and the offset at the end. *)
Fixpoint writes (fault : nat → option nat) (i : nat) (content : string) (offset : nat) (l : list entry) (f : files) : trace * nat :=
  match l with
  | [] => ([], offset)
  | e :: l =>
      let '(content, offset) := flushEventToFile (fault i) content offset e in
      let '(t, offset) := writes fault (S i) content offset l f in
      (with_data (Some content) f :: t, offset)
  end.

(** The deferred removal of a backup that was opened. *)
Definition drop_backup (opened : bool) (f : files) : trace := if opened then [with_backup None f] else [].

(** From the opening of the backup on; [m] is the meta data at the start. *)
Definition flush_merge (flt : faults) (m : ETCDCacheMeta) (eventCache : gmap string Event) (f : files) :
    option cache_error * trace :=
  let opened := bool_decide (is_Some (f_backup f)) in
  if opened && fault_backup flt then (Some ErrOs, [])
  else if fault_data flt then (Some ErrOs, drop_backup opened f)
  else
    let scan := from_option parse_lines [] (f_backup f) in
    let '(out, rev) := merge_entries scan (generateSortedCacheList eventCache) (Revision m) in
    let '(written, offset) := writes (fault_write flt) 0 "" 0 out f in
    let t := with_data (Some "") f :: written in
    let f := now f t in
    if (offset =? 0)%nat
    then
      let t' := cleanCacheFile false true false f in
      (Some ErrWriteData, t ++ t' ++ drop_backup opened (now f t'))%list
    else
      match fault_meta flt with
      | Some truncated =>
          let t' := if truncated then [with_meta BadMeta f] else [] in
          let t'' := cleanCacheFile false true false (now f t') in
          (Some ErrOs, t ++ t' ++ t'' ++ drop_backup opened (now (now f t') t''))%list
      | None =>
          let t' := [with_meta BadMeta f; with_meta (GoodMeta (MkMeta rev (CalcFileMD5 (f_data f)))) f] in
          (None, t ++ t' ++ drop_backup opened (now f t'))%list
      end.

Definition flushCacheToFile (flt : faults) (cacheFlushing : bool) (eventCache : gmap string Event) (f : files) :
    option cache_error * trace :=
  if cacheFlushing then (None, [])
  else
    match getCacheMeta f with
    | None => (Some ErrInvalidCacheMeta, cleanCacheFile true true true f)
    | Some m =>
        match processDataBackup flt m f with
        | (Some err, t) => (Some err, t)
        | (None, t) => let '(err, t') := flush_merge flt m eventCache (now f t) in (err, t ++ t')%list
        end
    end.

(** The events that are sent for the data file, and the revision to watch from. *)
Definition restoreCacheFromFile (flt : faults) (fault_open : bool) (f : files) : res cache_error (list entry * Z) * trace :=
  let t := if bool_decide (is_Some (f_backup f)) then (flushCacheToFile flt false ∅ f).2 else [] in
  let f := now f t in
  match f_data f with
  | None => (Err ErrCacheDataNotExist, t)
  | Some data =>
      match getCacheMeta f with
      | None => (Err ErrInvalidCacheMeta, t ++ cleanCacheFile true true true f)%list
      | Some m =>
          if negb (bool_decide (CalcFileMD5 (f_data f) = CacheMD5 m))
          then (Err ErrCacheDataMD5Mismatch, t ++ cleanCacheFile true true true f)%list
          else if fault_open then (Err ErrOs, t ++ cleanCacheFile true true true f)%list
          else (Ok (parse_lines data, Revision m), t)
      end
  end.

(** * processETCDCache *)

Record cache_state := MkCache { eventCache : gmap string Event; c_files : files }.

Inductive cache_input := Tick (flt : faults) | CacheChan (e : Event) (flt : faults).

Definition flush_now (flt : faults) (c : cache_state) : cache_state :=
  let '(err, t) := flushCacheToFile flt false (eventCache c) (c_files c) in
  MkCache (match err with None => ∅ | Some _ => eventCache c end) (now (c_files c) t).

Definition record (e : Event) (cache : gmap string Event) : gmap string Event :=
  match cache !! Key e with
  | Some preEvent => if (Rev preEvent <? Rev e)%Z then <[Key e := e]> cache else cache
  | None => <[Key e := e]> cache
  end.

Definition processETCDCache (flushThreshold : Z) (c : cache_state) (i : cache_input) : cache_state :=
  match i with
  | Tick flt => flush_now flt c
  | CacheChan e flt =>
      let c := MkCache (record e (eventCache c)) (c_files c) in
      if (flushThreshold <? Z.of_nat (size (eventCache c)))%Z then flush_now flt c else c
  end.

End cache.

(** * Properties

    The file cache of the etcd watchers: what is written is read back, a flush
    merges the newest events into the file, and no crash leaves a cache that is
    neither the old nor the new one. *)


Local Open Scope list_scope.
Local Open Scope nat_scope.

(** * Lines *)

(** What the format of the data file can hold. *)
Record fits (e : entry) : Prop := {
  fits_key : has_byte sep (en_key e) = false;
  fits_key_line : has_byte newline (en_key e) = false;
  fits_value_line : has_byte newline (en_value e) = false;
  fits_value_cr : drop_cr (en_value e) = en_value e;
  fits_rev : (0 ≤ en_rev e < 2 ^ 63)%Z;
  fits_length : (Z.of_nat (String.length (print_entry e)) ≤ MaxScanTokenSize)%Z }.

Definition line_of (e : entry) : string :=
  (en_key e +:+ String sep (FormatInt (en_rev e) +:+ String sep (en_value e)))%string.

Lemma print_line e : print_entry e = (line_of e +:+ String newline "")%string.
Proof. unfold print_entry, line_of. by rewrite !app_assoc_str, !app_cons_str, !app_assoc_str, !app_cons_str. Qed.

Lemma digits_no_byte c s : all_digits s = true → byte_in 48 57 c = false → has_byte c s = false.
Proof.
  intros H Hc. induction s as [|a s IH]; [done|]. rewrite all_digits_cons in H. apply andb_true_iff in H as [Ha H].
  cbn [has_byte]. rewrite IH by done. rewrite bool_decide_false; [done|]. intros ->. congruence.
Qed.

Lemma rev_digits e : fits e → all_digits (FormatInt (en_rev e)) = true.
Proof.
  intros H. destruct (fits_rev e H) as [H1 H2]. unfold FormatInt.
  destruct (en_rev e <? 0)%Z eqn:E; [breflect; lia|]. apply format_go_digits; [lia|done].
Qed.

Lemma line_no_newline e : fits e → has_byte newline (line_of e) = false.
Proof.
  intros H. unfold line_of. rewrite has_byte_app, (fits_key_line e H). cbn [has_byte orb].
  rewrite has_byte_app, (digits_no_byte _ _ (rev_digits e H)) by done. cbn [has_byte].
  by rewrite (fits_value_line e H).
Qed.

Lemma drop_cr_app s c v : c ≠ carriage_return → drop_cr v = v → drop_cr (s +:+ String c v) = (s +:+ String c v)%string.
Proof.
  intros Hc Hv. induction s as [|a s IH].
  - rewrite app_nil_l_str. destruct v; [|cbn [drop_cr] in *; by f_equal]. cbn. by rewrite bool_decide_false.
  - rewrite app_cons_str. transitivity (String a (drop_cr (s +:+ String c v))); [|by rewrite IH].
    destruct s; [by rewrite app_nil_l_str|by rewrite app_cons_str].
Qed.

Lemma drop_cr_line e : fits e → drop_cr (line_of e) = line_of e.
Proof.
  intros H. unfold line_of. rewrite <- app_cons_str, <- app_assoc_str. apply drop_cr_app; [done|apply H].
Qed.

(** The text after the first separator. *)
Lemma str_drop_sep (s t : string) c : str_drop (S (String.length s)) (s +:+ String c t) = t.
Proof. replace (S (String.length s)) with (String.length s + 1) by lia. by rewrite str_drop_app_add. Qed.

Lemma parse_line_of e : fits e → parse_line (line_of e) = Some e.
Proof.
  intros H. unfold parse_line, line_of. rewrite IndexByte_app by apply (fits_key e H). cbn [mbind option_bind].
  rewrite str_drop_sep, IndexByte_app by (apply digits_no_byte; [by apply rev_digits|done]). cbn [mbind option_bind].
  rewrite str_drop_sep, !str_take_app.
  assert (Atoi (FormatInt (en_rev e)) = Some (en_rev e)) as ->.
  { destruct (fits_rev e H). unfold FormatInt. destruct (en_rev e <? 0)%Z eqn:E; [breflect; lia|]. by apply Atoi_FormatUint. }
  cbn. by destruct e.
Qed.

Lemma fits_line_length e : fits e → (MaxScanTokenSize <=? Z.of_nat (String.length (line_of e)))%Z = false.
Proof. intros [_ _ _ _ _ H]. rewrite print_line, length_app_str in H. cbn in H. apply Z.leb_gt. lia. Qed.

Lemma scanned_cons line l :
  l ≠ [] →
  scanned (line :: l) = if (MaxScanTokenSize <=? Z.of_nat (String.length line))%Z then [] else drop_cr line :: scanned l.
Proof. by destruct l. Qed.

Lemma scan_print es : Forall fits es → scan_lines (print_entries es) = line_of <$> es.
Proof.
  intros H. unfold scan_lines. induction H as [|e es He _ IH]; [done|].
  cbn [print_entries fmap list_fmap]. rewrite print_line, app_assoc_str, app_cons_str, app_nil_l_str.
  rewrite Split_app_byte by by apply line_no_newline.
  rewrite scanned_cons, fits_line_length by (done || apply Split_nonempty). by rewrite drop_cr_line, IH.
Qed.

(** Entries that fit are read back as they were written. *)
Lemma parse_print es : Forall fits es → parse_lines (print_entries es) = es.
Proof.
  intros H. unfold parse_lines. rewrite scan_print by done.
  induction H as [|e es He _ IH]; [done|]. cbn. by rewrite parse_line_of, IH.
Qed.

(** * The order of keys *)

Definition klt (a b : string) : Prop := String.ltb a b = true.

Lemma klt_le a b : klt a b ↔ String.le a b ∧ a ≠ b.
Proof.
  unfold klt, String.le, String.leb, String.ltb. pose proof (String.compare_eq_iff a b) as H.
  destruct (a ?= b)%string eqn:E; split; try done.
  - intros [_ Hn]. by destruct Hn; apply H.
  - intros _. split; [done|]. intros ->. pose proof (String.compare_antisym b b) as E'. by rewrite E in E'.
  - by intros [? _].
Qed.

#[local] Instance klt_trans : Transitive klt.
Proof.
  intros a b c. rewrite !klt_le. intros [H1 H2] [H3 H4]. split; [by etrans|]. intros ->. apply H2.
  by apply (anti_symm String.le).
Qed.

Lemma klt_irrefl a b : klt a b → a ≠ b.
Proof. rewrite klt_le. by intros [_ H]. Qed.

Lemma klt_cases a b : klt a b ∨ a = b ∨ klt b a.
Proof.
  rewrite !klt_le. destruct (decide (a = b)) as [->|Hn]; [auto|].
  destruct (total String.le a b); [left|right; right]; by split.
Qed.

Lemma ltb_false a b : String.ltb a b = false → a ≠ b → klt b a.
Proof. intros H Hn. destruct (klt_cases a b) as [H'|[H'|H']]; [unfold klt in H'; congruence|done|done]. Qed.

(** * Lookups in sorted lists *)

Definition at_key (k : string) (l : list entry) : option entry := head (filter (λ e, en_key e = k) l).
Definition event_at (k : string) (l : list Event) : option Event := head (filter (λ e, Key e = k) l).

Abbreviation sorted_entries l := (StronglySorted klt (en_key <$> l)).
Abbreviation sorted_events l := (StronglySorted klt (Key <$> l)).

Lemma head_app {A} (a b : list A) : head (a ++ b) = match head a with Some x => Some x | None => head b end.
Proof. by destruct a. Qed.

Lemma at_key_app k a b : at_key k (a ++ b) = match at_key k a with Some x => Some x | None => at_key k b end.
Proof. unfold at_key. by rewrite filter_app, head_app. Qed.

Lemma event_at_app k a b : event_at k (a ++ b) = match event_at k a with Some x => Some x | None => event_at k b end.
Proof. unfold event_at. by rewrite filter_app, head_app. Qed.

Lemma at_key_none k l : Forall (λ e, en_key e ≠ k) l → at_key k l = None.
Proof. intros H. unfold at_key. by rewrite filter_none. Qed.

Lemma event_at_none k l : Forall (λ e, Key e ≠ k) l → event_at k l = None.
Proof. intros H. unfold event_at. by rewrite filter_none. Qed.

Lemma at_key_Some k l e : at_key k l = Some e → e ∈ l ∧ en_key e = k.
Proof. intros H%head_Some_elem_of. by apply list_elem_of_filter in H as [? ?]. Qed.

Lemma event_at_Some k l e : event_at k l = Some e → e ∈ l ∧ Key e = k.
Proof. intros H%head_Some_elem_of. by apply list_elem_of_filter in H as [? ?]. Qed.

Lemma sorted_cons (x : string) l : StronglySorted klt (x :: l) ↔ StronglySorted klt l ∧ Forall (klt x) l.
Proof. split; [intros H; inversion H; auto|intros []; by constructor]. Qed.

Lemma sorted_app (a b : list string) :
  StronglySorted klt (a ++ b) ↔ StronglySorted klt a ∧ StronglySorted klt b ∧ ∀ x y, x ∈ a → y ∈ b → klt x y.
Proof.
  induction a as [|x a IH]; cbn.
  - split; [intros H; repeat split; [constructor|done|]; by intros ? ? ?%elem_of_nil|by intros (_ & ? & _)].
  - rewrite !sorted_cons, IH, Forall_app, !Forall_forall. setoid_rewrite elem_of_cons. split.
    + intros ((H1 & H2 & H3) & H4 & H5). repeat split; try done. intros y z [->|Hy] Hz; auto.
    + intros ((H1 & H4) & H2 & H3). repeat split; auto.
Qed.

Lemma at_key_elem l e : sorted_entries l → e ∈ l → at_key (en_key e) l = Some e.
Proof.
  intros Hs (l1 & l2 & ->)%list_elem_of_split. rewrite fmap_app in Hs. apply sorted_app in Hs as (_ & _ & H).
  rewrite at_key_app, at_key_none.
  - unfold at_key. cbn. by rewrite decide_True.
  - apply Forall_forall. intros x Hx. apply klt_irrefl, H; [by apply list_elem_of_fmap_2|]. cbn. left.
Qed.

(** * The merge *)

(** The newest state of a key: an event replaces what the file has when its
    revision is higher; an update without a value removes the key. *)
Definition newest (file : option entry) (ev : option Event) : option entry :=
  match ev, file with
  | None, _ => file
  | Some e, None => if decide (Type_ e = PUT) then Some (entry_of e) else None
  | Some e, Some s =>
      if (en_rev s <? Rev e)%Z
      then match Type_ e with
           | PUT => MkEntry (Key e) (Rev e) <$> Value e
           | DELETE => None
           | _ => Some s
           end
      else Some s
  end.

Definition rev_max (r : Z) (evs : list Event) : Z := foldl (λ r e, Z.max r (Rev e)) r evs.

Lemma rev_max_cons r e evs : rev_max r (e :: evs) = rev_max (Z.max r (Rev e)) evs.
Proof. done. Qed.

Lemma rev_max_max r x evs : rev_max (Z.max r x) evs = Z.max x (rev_max r evs).
Proof.
  revert r; induction evs as [|e evs IH]; intros r; [unfold rev_max; cbn; lia|]. rewrite !rev_max_cons, <- IH.
  f_equal. lia.
Qed.

Lemma rev_max_perm r l l' : l ≡ₚ l' → rev_max r l = rev_max r l'.
Proof.
  intros H; revert r; induction H as [|x l l' _ IH|x y l|l1 l2 l3 _ IH1 _ IH2]; intros r; rewrite ?rev_max_cons;
    [done|apply IH|f_equal; lia|by rewrite IH1].
Qed.

Lemma rev_max_ge r evs : (r ≤ rev_max r evs)%Z ∧ ∀ e, e ∈ evs → (Rev e ≤ rev_max r evs)%Z.
Proof.
  revert r; induction evs as [|x evs IH]; intros r; [split; [done|by intros ? ?%elem_of_nil]|].
  rewrite rev_max_cons. destruct (IH (Z.max r (Rev x))) as [H1 H2]. split; [lia|].
  intros e [->|He]%elem_of_cons; [lia|auto].
Qed.

Lemma scan_events_spec s evs rev :
  sorted_events evs →
  ∃ before here more rev',
    evs = before ++ option_list here ++ more ∧
    Forall (λ e, klt (Key e) (en_key s)) before ∧
    (∀ e, here = Some e → Key e = en_key s) ∧
    Forall (λ e, klt (en_key s) (Key e)) more ∧
    scan_events s (Some (en_value s)) evs rev
      = (entry_of <$> filter (λ e, Type_ e = PUT) before, more, newest (Some s) here, rev') ∧
    rev_max rev' more = rev_max rev evs.
Proof.
  revert rev; induction evs as [|e evs IH]; intros rev Hs.
  { exists [], None, [], rev. repeat split; try done. cbn. by destruct s. }
  cbn in Hs. apply sorted_cons in Hs as [Hs Hlt]. cbn [scan_events]. destruct (String.ltb (Key e) (en_key s)) eqn:El.
  - destruct (IH (Z.max rev (Rev e)) Hs) as (before & here & more & rev' & -> & H1 & H2 & H3 & -> & H5).
    exists (e :: before), here, more, rev'. split; [done|]. split; [by constructor|]. repeat split; try done.
    rewrite filter_cons. by destruct (decide _).
  - case_bool_decide as Ek.
    + exists [], (Some e), evs, (Z.max rev (Rev e)). repeat split; try done; [by intros ? [= <-]| |].
      * rewrite <- Ek. by rewrite Forall_fmap in Hlt.
      * cbn. repeat f_equal. rewrite Ek. destruct (en_rev s <? Rev e)%Z; cbn; [|by destruct s].
        by destruct (Type_ e), s.
    + pose proof (ltb_false _ _ El Ek) as Hk.
      exists [], None, (e :: evs), (Z.max rev (Rev e)). repeat split; try done.
      * constructor; [done|]. rewrite Forall_fmap in Hlt. eapply Forall_impl; [done|]. intros x Hx. by etrans.
      * cbn. by destruct s.
      * rewrite !rev_max_cons. f_equal. lia.
Qed.

Lemma elem_of_option_list {A} (x : A) o : x ∈ option_list o → o = Some x.
Proof. destruct o; cbn; [by intros ->%list_elem_of_singleton|by intros ?%elem_of_nil]. Qed.

Lemma newest_key k file ev x :
  (∀ s, file = Some s → en_key s = k) → (∀ e, ev = Some e → Key e = k) → newest file ev = Some x → en_key x = k.
Proof.
  intros Hf He. unfold newest. destruct ev as [e|], file as [s|]; try naive_solver.
  - destruct (en_rev s <? Rev e)%Z; [|naive_solver]. destruct (Type_ e); try naive_solver. destruct (Value e); cbn; naive_solver.
  - case_decide; naive_solver.
Qed.

Lemma newest_cases file ev x :
  newest file ev = Some x → file = Some x ∨ ∃ e, ev = Some e ∧ x = entry_of e.
Proof.
  unfold newest. destruct ev as [e|], file as [s|]; try naive_solver.
  - destruct (en_rev s <? Rev e)%Z; [|naive_solver]. destruct (Type_ e); try naive_solver. intros H. right. exists e.
    split; [done|]. unfold entry_of. destruct (Value e); cbn in *; congruence.
  - case_decide; naive_solver.
Qed.

Lemma puts_at k evs :
  sorted_events evs → at_key k (entry_of <$> filter (λ e, Type_ e = PUT) evs) = newest None (event_at k evs).
Proof.
  induction evs as [|e evs IH]; [done|]. cbn [fmap list_fmap]. intros [Hs Hlt]%sorted_cons.
  rewrite (event_at_app k [e] evs : event_at k (e :: evs) = _).
  destruct (decide (Key e = k)) as [<-|Hk].
  - assert (event_at (Key e) [e] = Some e) as -> by (unfold event_at; cbn; by rewrite decide_True). cbn [newest].
    rewrite filter_cons. destruct (decide (Type_ e = PUT)) as [Ht|Ht].
    + unfold at_key. cbn. by rewrite decide_True.
    + apply at_key_none, Forall_fmap, Forall_forall. intros x [_ Hx]%list_elem_of_filter. cbn.
      rewrite Forall_fmap, Forall_forall in Hlt. by apply not_eq_sym, klt_irrefl, Hlt.
  - rewrite (event_at_none k [e]) by (repeat constructor; done). rewrite <- IH by done.
    rewrite filter_cons. destruct (decide (Type_ e = PUT)); [|done]. cbn [fmap list_fmap].
    rewrite (at_key_app k [entry_of e] _ : at_key k (entry_of e :: _) = _).
    by rewrite (at_key_none k [entry_of e]) by (repeat constructor; done).
Qed.

Lemma at_key_cons k s l : at_key k (s :: l) = if decide (en_key s = k) then Some s else at_key k l.
Proof. unfold at_key. rewrite filter_cons. by destruct (decide _). Qed.

Lemma at_key_option k o : (∀ x, o = Some x → en_key x = k) → at_key k (option_list o) = o.
Proof. intros H. destruct o as [x|]; [|done]. cbn. rewrite at_key_cons, decide_True; [done|]. by apply H. Qed.

Lemma event_at_option k o : (∀ x, o = Some x → Key x = k) → event_at k (option_list o) = o.
Proof. intros H. destruct o as [x|]; [|done]. unfold event_at. cbn. rewrite decide_True; [done|]. by apply H. Qed.

Definition scan_max (r : Z) (l : list entry) : Z := foldl (λ r e, Z.max r (en_rev e)) r l.

Lemma scan_max_id r l : Forall (λ e, (en_rev e ≤ r)%Z) l → scan_max r l = r.
Proof.
  intros H. unfold scan_max. induction H as [|e l He _ IH]; [done|]. cbn. by replace (Z.max r (en_rev e)) with r by lia.
Qed.

Lemma rev_max_scan r l evs : rev_max (scan_max r l) evs = scan_max (rev_max r evs) l.
Proof.
  revert r; induction l as [|e l IH]; intros r; [done|]. unfold scan_max in *. cbn. rewrite IH, rev_max_max. f_equal. lia.
Qed.

(** The shape of one step of the merge, by keys. *)
Lemma merge_step_at k s scan before here more out' :
  sorted_events before →
  Forall (λ e, klt (Key e) (en_key s)) before → (∀ e, here = Some e → Key e = en_key s) →
  Forall (λ e, klt (en_key s) (Key e)) more → Forall (λ e, klt (en_key s) (en_key e)) scan →
  (∀ k, at_key k out' = newest (at_key k scan) (event_at k more)) →
  at_key k ((entry_of <$> filter (λ e, Type_ e = PUT) before) ++ option_list (newest (Some s) here) ++ out')
    = newest (at_key k (s :: scan)) (event_at k (before ++ option_list here ++ more)).
Proof.
  intros Hs H1 H2 H3 H4 Ho. rewrite !Forall_forall in *.
  assert (∀ x, newest (Some s) here = Some x → en_key x = en_key s) as Hn
    by (intros x; apply newest_key; [by intros ? [= <-]|done]).
  rewrite !at_key_app, puts_at, !event_at_app, Ho, at_key_cons by done.
  destruct (klt_cases k (en_key s)) as [Hk|[->|Hk]].
  - rewrite decide_False by (apply not_eq_sym, klt_irrefl, Hk).
    rewrite (at_key_none k (option_list _)), (event_at_none k (option_list _)), (at_key_none k scan), (event_at_none k more).
    + destruct (event_at k before); [|done]. cbn. by case_decide.
    + apply Forall_forall. intros x Hx. apply not_eq_sym, klt_irrefl. etrans; [done|]. by apply H3.
    + apply Forall_forall. intros x Hx. apply not_eq_sym, klt_irrefl. etrans; [done|]. by apply H4.
    + apply Forall_forall. intros x Hx%elem_of_option_list. rewrite (H2 x Hx). apply not_eq_sym, klt_irrefl, Hk.
    + apply Forall_forall. intros x Hx%elem_of_option_list. rewrite (Hn x Hx). apply not_eq_sym, klt_irrefl, Hk.
  - rewrite decide_True by done. rewrite (event_at_none _ before) by (apply Forall_forall; intros x Hx; by apply klt_irrefl, H1).
    cbn [newest]. rewrite at_key_option, event_at_option by done.
    rewrite (at_key_none _ scan), (event_at_none _ more).
    + destruct here; [|done]. by destruct (newest _ _).
    + apply Forall_forall. intros x Hx. by apply not_eq_sym, klt_irrefl, H3.
    + apply Forall_forall. intros x Hx. by apply not_eq_sym, klt_irrefl, H4.
  - rewrite decide_False by (apply klt_irrefl, Hk).
    rewrite (event_at_none k before), (at_key_none k (option_list _)), (event_at_none k (option_list _)); [done|..].
    + apply Forall_forall. intros x Hx%elem_of_option_list. rewrite (H2 x Hx). apply klt_irrefl, Hk.
    + apply Forall_forall. intros x Hx%elem_of_option_list. rewrite (Hn x Hx). apply klt_irrefl, Hk.
    + apply Forall_forall. intros x Hx. apply klt_irrefl. etrans; [|done]. by apply H1.
Qed.

Lemma sorted_sublist (l l' : list string) : l `sublist_of` l' → StronglySorted klt l' → StronglySorted klt l.
Proof.
  induction 1 as [|x l l' Hl IH|x l l' Hl IH]; [done|..]; intros [Hs Hf]%sorted_cons; [|by apply IH].
  apply sorted_cons. split; [by apply IH|]. rewrite Forall_forall in *. intros y Hy. by apply Hf, (elem_of_sublist l).
Qed.

Lemma puts_keys evs :
  (en_key <$> (entry_of <$> filter (λ e, Type_ e = PUT) evs)) `sublist_of` (Key <$> evs).
Proof. rewrite <- list_fmap_compose. apply fmap_filter_sublist. Qed.

(** What is written comes from the file or from an event. *)
Lemma merged_origin scan evs out x :
  (∀ k, at_key k out = newest (at_key k scan) (event_at k evs)) → sorted_entries out → x ∈ out →
  x ∈ scan ∨ ∃ e, e ∈ evs ∧ x = entry_of e.
Proof.
  intros Ho Hs Hx. pose proof (at_key_elem out x Hs Hx) as H. rewrite Ho in H.
  apply newest_cases in H as [H|(e & H & ->)].
  - left. by apply at_key_Some in H as [].
  - right. exists e. by apply event_at_Some in H as [].
Qed.

Lemma merge_spec scan evs rev out rev' :
  sorted_entries scan → sorted_events evs → merge_entries scan evs rev = (out, rev') →
  (∀ k, at_key k out = newest (at_key k scan) (event_at k evs)) ∧ sorted_entries out ∧
  rev' = rev_max (scan_max rev scan) evs.
Proof.
  revert evs rev out rev'; induction scan as [|s scan IH]; intros evs rev out rev' Hs He; cbn [merge_entries].
  - intros [= <- <-]. split; [|split]; [|by eapply sorted_sublist; [apply puts_keys|]|done].
    intros k. by rewrite puts_at.
  - destruct (scan_events_spec s evs (Z.max rev (en_rev s)) He) as (before & here & more & r & -> & H1 & H2 & H3 & -> & H5).
    destruct (merge_entries scan more r) as [out' r'] eqn:Em. intros [= <- <-].
    cbn in Hs. apply sorted_cons in Hs as [Hs Hlt]. rewrite Forall_fmap in Hlt.
    rewrite !fmap_app in He. apply sorted_app in He as (Hb & [Ho [Hm _]]%sorted_app & _).
    destruct (IH more r out' r' Hs Hm Em) as (I1 & I2 & ->). split; [|split].
    + intros k. by apply merge_step_at.
    + assert (∀ x, newest (Some s) here = Some x → en_key x = en_key s) as Hn
        by (intros x; apply newest_key; [by intros ? [= <-]|done]).
      assert (∀ x, x ∈ out' → klt (en_key s) (en_key x)) as Hgt.
      { intros x Hx. destruct (merged_origin _ _ _ _ I1 I2 Hx) as [H|(e & H & ->)].
        - exact (proj1 (Forall_forall _ _) Hlt x H).
        - exact (proj1 (Forall_forall _ _) H3 e H). }
      assert (∀ x, x ∈ en_key <$> (entry_of <$> filter (λ e, Type_ e = PUT) before) → klt x (en_key s)) as Hle.
      { intros x Hx. pose proof (elem_of_sublist _ _ _ Hx (puts_keys before)) as H.
        apply list_elem_of_fmap in H as (e & -> & He). rewrite Forall_forall in H1. by apply H1. }
      rewrite !fmap_app. apply sorted_app. split; [by eapply sorted_sublist; [apply puts_keys|]|]. split.
      * apply sorted_app. split; [|split; [done|]].
        -- destruct (newest _ _); cbn; repeat constructor.
        -- intros x y (e & -> & E%elem_of_option_list)%list_elem_of_fmap (e' & -> & He')%list_elem_of_fmap.
           rewrite (Hn e E). auto.
      * intros x y Hx [Hy|Hy]%elem_of_app; specialize (Hle x Hx).
        -- apply list_elem_of_fmap in Hy as (e & -> & E%elem_of_option_list). by rewrite (Hn e E).
        -- apply list_elem_of_fmap in Hy as (e & -> & E). etrans; [done|]. auto.
    + change (scan_max rev (s :: scan)) with (scan_max (Z.max rev (en_rev s)) scan). by rewrite !rev_max_scan, H5.
Qed.

(** * Snapshots *)

(** The contents of a cache as a map, and its revision. *)
Abbreviation snap := (gmap string entry * Z)%type.

Definition map_of (l : list entry) : gmap string entry := list_to_map ((λ e, (en_key e, e)) <$> l).

Lemma lookup_map_of l k : map_of l !! k = at_key k l.
Proof.
  unfold map_of. induction l as [|e l IH]; [done|]. cbn. rewrite at_key_cons. destruct (decide (en_key e = k)) as [<-|H].
  - by rewrite lookup_insert_eq.
  - by rewrite lookup_insert_ne.
Qed.

(** The snapshot after a batch of events. *)
Definition commit (x : snap) (evs : gmap string Event) : snap :=
  (merge newest x.1 evs, rev_max x.2 (map_to_list evs).*2).

(** Batches as [processETCDCache] collects them, of events that fit a line. *)
Definition fit_batch (evs : gmap string Event) : Prop := map_Forall (λ k e, Key e = k ∧ fits (entry_of e)) evs.

(** A content of the data file that holds a snapshot. *)
Definition good (c : string) (x : snap) : Prop :=
  ∃ es, c = print_entries es ∧ Forall fits es ∧ sorted_entries es ∧ es ≠ [] ∧ map_of es = x.1 ∧
        Forall (λ e, (en_rev e ≤ x.2)%Z) es.

Lemma batch_keys evs : fit_batch evs → Key <$> (map_to_list evs).*2 = (map_to_list evs).*1.
Proof.
  intros H. rewrite <- list_fmap_compose. apply list_fmap_ext. intros i [k e] Hi%list_elem_of_lookup_2. cbn.
  apply elem_of_map_to_list in Hi. by apply H in Hi as [? _].
Qed.

Lemma sorted_keys l : StronglySorted key_le l → NoDup (Key <$> l) → sorted_events l.
Proof.
  induction 1 as [|e l Hs IH Hf]; [constructor|]. cbn. intros [Hn Hd]%NoDup_cons. apply sorted_cons. split; [auto|].
  rewrite Forall_fmap, Forall_forall in *. intros e' He. apply klt_le. split; [by apply Hf|]. intros E. apply Hn.
  rewrite E. by apply list_elem_of_fmap_2.
Qed.

#[local] Instance key_le_total : Total key_le.
Proof. intros a b. apply (total String.le). Qed.
#[local] Instance key_le_trans : Transitive key_le.
Proof. intros a b c. unfold key_le. apply transitivity. Qed.

Lemma sorted_batch evs : fit_batch evs → sorted_events (generateSortedCacheList evs).
Proof.
  intros H. apply sorted_keys; [apply (StronglySorted_merge_sort key_le)|].
  unfold generateSortedCacheList. rewrite (merge_sort_Permutation key_le), batch_keys by done. apply NoDup_fst_map_to_list.
Qed.

Lemma elem_batch evs e : e ∈ generateSortedCacheList evs ↔ ∃ k, evs !! k = Some e.
Proof.
  unfold generateSortedCacheList. rewrite (merge_sort_Permutation key_le), list_elem_of_fmap. split.
  - intros ([k e'] & -> & H%elem_of_map_to_list). eauto.
  - intros [k H]. exists (k, e). split; [done|]. by apply elem_of_map_to_list.
Qed.

Lemma event_at_batch evs k : fit_batch evs → event_at k (generateSortedCacheList evs) = evs !! k.
Proof.
  intros H. destruct (event_at k _) as [e|] eqn:E.
  - apply event_at_Some in E as [(k' & E)%elem_batch <-]. by destruct (H k' e E) as [-> _].
  - destruct (evs !! k) as [e|] eqn:E'; [|done]. destruct (H k e E') as [Hk _].
    assert (e ∈ filter (λ e, Key e = k) (generateSortedCacheList evs)) as He
      by (apply list_elem_of_filter; split; [done|]; apply elem_batch; eauto).
    unfold event_at in E. apply head_None in E. rewrite E in He. by apply elem_of_nil in He.
Qed.

(** The merge of a snapshot and a batch holds the next snapshot. *)
Lemma merge_commit scan x evs out rev :
  Forall fits scan → sorted_entries scan → map_of scan = x.1 → Forall (λ e, (en_rev e ≤ x.2)%Z) scan → fit_batch evs →
  merge_entries scan (generateSortedCacheList evs) x.2 = (out, rev) →
  (out ≠ [] → good (print_entries out) (commit x evs)) ∧ rev = (commit x evs).2 ∧ (out = [] ↔ (commit x evs).1 = ∅).
Proof.
  intros Hf Hs Hx Hr He Hm. pose proof (sorted_batch evs He) as Hse.
  destruct (merge_spec _ _ _ _ _ Hs Hse Hm) as (Ho & Hso & ->).
  assert (map_of out = merge newest x.1 evs) as Hmap.
  { apply map_eq. intros k. rewrite lookup_map_of, Ho, lookup_merge, event_at_batch, <- Hx, lookup_map_of by done.
    by destruct (at_key k scan), (evs !! k). }
  assert (rev_max (scan_max x.2 scan) (generateSortedCacheList evs) = rev_max x.2 (map_to_list evs).*2) as Hrev.
  { rewrite scan_max_id by done. apply rev_max_perm, merge_sort_Permutation. }
  split; [|split; [done|]].
  - intros Hne. exists out. split; [done|]. split; [|split; [done|split; [done|split; [done|]]]]; apply Forall_forall;
      intros e Hin; destruct (merged_origin _ _ _ _ Ho Hso Hin) as [H|(ev & H & ->)].
    + rewrite Forall_forall in Hf. auto.
    + apply elem_batch in H as [k H]. by apply He in H as [_ ?].
    + cbn. rewrite <- Hrev, scan_max_id by done. rewrite Forall_forall in Hr. specialize (Hr e H).
      pose proof (proj1 (rev_max_ge x.2 (generateSortedCacheList evs))). lia.
    + cbn. rewrite <- Hrev. by apply rev_max_ge.
  - cbn. rewrite <- Hmap. split; [by intros ->|]. intros H. destruct out as [|e out]; [done|].
    pose proof (lookup_map_of (e :: out) (en_key e)) as H'. by rewrite H, lookup_empty, at_key_cons, decide_True in H'.
Qed.

(** * Files *)

Lemma now_app f t t' : now f (t ++ t') = now (now f t) t'.
Proof. unfold now. rewrite last_app. by destruct (last t'). Qed.

Lemma now_cons f f' t : now f (f' :: t) = now f' t.
Proof. unfold now. by rewrite last_cons; destruct (last t). Qed.

Lemma now_elem f t : now f t ∈ f :: t.
Proof.
  unfold now. destruct (last t) as [g|] eqn:E; cbn; [|left]. right. apply last_Some in E as [l ->]. set_solver.
Qed.

(** No entry fails to be written. *)
Definition whole (flt : faults) : Prop := ∀ i, fault_write flt i = None.

Lemma str_drop_all n s : String.length s ≤ n → str_drop n s = ""%string.
Proof. revert n. induction s as [|c s IH]; intros [|n] H; cbn in *; try done; [lia|apply IH; lia]. Qed.

Lemma WriteAt_end content bytes : WriteAt content bytes (String.length content) = (content +:+ bytes)%string.
Proof.
  unfold WriteAt. rewrite str_take_all, str_drop_all by lia. by rewrite app_nil_r_str.
Qed.

Lemma writes_spec fault i content l f :
  (∀ i, fault i = None) →
  let '(t, offset) := writes fault i content (String.length content) l f in
  now (with_data (Some content) f) t = with_data (Some (content +:+ print_entries l)%string) f ∧
  offset = String.length (content +:+ print_entries l)%string ∧ (∀ f', f' ∈ t → f_meta f' = f_meta f).
Proof.
  intros Hf. revert i content; induction l as [|e l IH]; intros i content; cbn [writes print_entries].
  { rewrite app_nil_r_str. split_and!; try done. by intros ? ?%elem_of_nil. }
  unfold flushEventToFile. rewrite Hf, WriteAt_end, <- length_app_str.
  specialize (IH (S i) (content +:+ print_entry e)%string). destruct (writes _ _ _ _ _ _) as [t offset]. destruct IH as (H1 & H2 & H3).
  rewrite now_cons, H1, <- app_assoc_str. split_and!; [done|done|]. intros f' [->|H]%elem_of_cons; auto.
Qed.

Lemma print_entries_nil l : String.length (print_entries l) = 0 → l = [].
Proof.
  destruct l as [|e l]; [done|]. cbn [print_entries]. rewrite print_line, !length_app_str. cbn. lia.
Qed.

(** Cleaning changes the meta file only by removing it. *)
Lemma clean_meta cm cd cb f f' : f' ∈ cleanCacheFile cm cd cb f → f_meta f' = NoMeta ∨ f_meta f' = f_meta f.
Proof.
  unfold cleanCacheFile. destruct cm, cd, cb; cbn; rewrite ?elem_of_cons, ?elem_of_nil; naive_solver.
Qed.

Lemma clean_data f : cleanCacheFile false true false f = [with_data None f].
Proof. done. Qed.

Lemma clean_all f : now f (cleanCacheFile true true true f) = MkFiles NoMeta None None.
Proof. done. Qed.

Section files.
  Context (md5 : string → string) `{!Inj (=) (=) md5} (md5_set : ∀ c, md5 c ≠ ""%string).

Local Abbreviation flush := (flushCacheToFile md5).

(** What a restart finds. *)
Definition restored (f : files) : option snap :=
  match (restoreCacheFromFile md5 no_faults false f).1 with
  | Ok (es, r) => Some (map_of es, r)
  | Err _ => None
  end.

Definition meta_of (c : string) (x : snap) : meta_file := GoodMeta (MkMeta x.2 (md5 c)).

(** The files hold a snapshot, in the data file or in the backup. *)
Definition available (f : files) (x : snap) (c : string) : Prop :=
  f_meta f = meta_of c x ∧ good c x ∧ (f_backup f = Some c ∨ (f_backup f = None ∧ f_data f = Some c)).

(** The meta file describes one of the snapshots of [P], if any. *)
Definition known (P : snap → Prop) (f : files) : Prop :=
  ∀ m, f_meta f = GoodMeta m → ∃ c x, P x ∧ good c x ∧ m = MkMeta x.2 (md5 c).

Lemma processDataBackup_spec flt m f err t :
  processDataBackup md5 flt m f = (err, t) →
  (∀ f', f' ∈ t → f_meta f' = NoMeta ∨ f_meta f' = f_meta f) ∧
  (err = None →
    f_meta (now f t) = f_meta f ∧
    ((f_data f = None ∧ f_backup f = None ∧ now f t = f) ∨
     ∃ c, f_backup (now f t) = Some c ∧ md5 c = CacheMD5 m ∧ (f_backup f = Some c ∨ (f_backup f = None ∧ f_data f = Some c)))).
Proof.
  unfold processDataBackup. destruct f as [meta [d|] [b|]]; cbn -[cleanCacheFile now].
  - destruct (fault_remove flt); [intros [= <- <-]; split; [by intros ? ?%elem_of_nil|done]|].
    rewrite now_cons. cbn -[cleanCacheFile]. case_bool_decide as E; intros [= <- <-].
    + split; [|eauto 8]. intros f' ->%list_elem_of_singleton. by right.
    + split; [|done]. intros f' [->|H%clean_meta]%elem_of_cons; auto.
  - destruct (fault_rename flt); [intros [= <- <-]; split; [intros f' H%clean_meta; auto|done]|].
    rewrite now_cons. cbn -[cleanCacheFile]. case_bool_decide as E; intros [= <- <-].
    + split; [|eauto 8]. intros f' ->%list_elem_of_singleton. by right.
    + split; [|done]. intros f' [->|H%clean_meta]%elem_of_cons; auto.
  - case_bool_decide as E; intros [= <- <-].
    + split; [by intros ? ?%elem_of_nil|eauto 8].
    + split; [|done]. intros f' H%clean_meta. auto.
  - intros [= <- <-]. split; [by intros ? ?%elem_of_nil|]. auto.
Qed.

(** The snapshot that a merge starts from. *)
Definition base (m : ETCDCacheMeta) (f : files) (x : snap) : Prop :=
  Revision m = x.2 ∧ ((∃ c, f_backup f = Some c ∧ good c x) ∨ (f_backup f = None ∧ x.1 = ∅)).

Lemma drop_backup_frame o f f' : f' ∈ drop_backup o f → f_meta f' = f_meta f.
Proof. destruct o; cbn; [by intros ->%list_elem_of_singleton|by intros ?%elem_of_nil]. Qed.

Lemma base_scan m f x :
  base m f x →
  let scan := from_option parse_lines [] (f_backup f) in
  Forall fits scan ∧ sorted_entries scan ∧ map_of scan = x.1 ∧ Forall (λ e, (en_rev e ≤ x.2)%Z) scan.
Proof.
  intros [_ [(c & -> & es & -> & H1 & H2 & _ & H3 & H4)|[-> H]]]; cbn.
  - by rewrite parse_print.
  - repeat split; try constructor. by rewrite H.
Qed.

Lemma flush_merge_spec flt m evs f x err t :
  whole flt → base m f x → fit_batch evs → flush_merge md5 flt m evs f = (err, t) →
  (∀ f', f' ∈ t → f_meta f' = f_meta f ∨ f_meta f' = BadMeta ∨
     ∃ c, good c (commit x evs) ∧ f_meta f' = meta_of c (commit x evs)) ∧
  (err = None → ∃ c, good c (commit x evs) ∧ now f t = MkFiles (meta_of c (commit x evs)) (Some c) None) ∧
  (flt = no_faults → (commit x evs).1 ≠ ∅ → err = None).
Proof.
  intros Hwh Hb He. unfold flush_merge. set (opened := bool_decide (is_Some (f_backup f))).
  destruct (base_scan m f x Hb) as (B1 & B2 & B3 & B4). destruct Hb as [Hm Hb].
  destruct (opened && fault_backup flt) eqn:E1.
  { intros [= <- <-]. split; [by intros ? ?%elem_of_nil|]. split; [done|]. intros ->. cbn in E1. by destruct opened. }
  destruct (fault_data flt) eqn:E2.
  { intros [= <- <-]. split; [intros f' H%drop_backup_frame; auto|]. split; [done|by intros ->]. }
  rewrite Hm. destruct (merge_entries _ _ _) as [out rev] eqn:Eo.
  destruct (merge_commit _ x evs out rev B1 B2 B3 B4 He Eo) as (M1 & M2 & M3).
  pose proof (writes_spec (fault_write flt) 0 "" out f Hwh) as Hws. cbn [String.length] in Hws. rewrite app_nil_l_str in Hws.
  destruct (writes _ _ _ _ _ _) as [written offset]. destruct Hws as (Hnow & Hoff & Hfr). rewrite now_cons, Hnow.
  assert (∀ f', f' ∈ with_data (Some ""%string) f :: written → f_meta f' = f_meta f) as Hw
    by (intros f' [->|?]%elem_of_cons; auto).
  rewrite !clean_data. destruct (offset =? 0) eqn:Eout; [apply Nat.eqb_eq in Eout|apply Nat.eqb_neq in Eout].
  { assert (out = []) as Enil by (apply print_entries_nil; lia).
    intros [= <- <-]. split; [|split; [done|by intros _ []; apply M3]].
    intros f' [H|H]%(elem_of_app (with_data _ _ :: _)); [left; auto|].
    apply elem_of_cons in H as [->|H%drop_backup_frame]; by left. }
  destruct (fault_meta flt) as [trunc|] eqn:E3.
  { intros [= <- <-]. split; [|split; [done|by intros ->]].
    intros f' [H|H]%(elem_of_app (with_data _ _ :: _)); [left; auto|].
    destruct trunc; cbn [app] in H.
    - apply elem_of_cons in H as [->|[->|H%drop_backup_frame]%elem_of_cons]; auto.
    - apply elem_of_cons in H as [->|H%drop_backup_frame]; auto. }
  assert (out ≠ []) as Enil by (by intros ->).
  intros [= <- <-]. specialize (M1 Enil). rewrite M2. cbn [f_data with_data CalcFileMD5 from_option]. split; [|split; [|done]].
  - intros f' [H|H]%(elem_of_app (with_data _ _ :: _)); [left; auto|].
    apply elem_of_cons in H as [->|[->|H%drop_backup_frame]%elem_of_cons]; [auto|eauto..].
  - intros _. exists (print_entries out). split; [done|]. rewrite now_cons, now_app, Hnow.
    unfold meta_of. destruct f as [? ? b], opened eqn:E; cbn in *; [done|]. destruct b; [|done].
    subst opened. by rewrite bool_decide_true in E.
Qed.

Lemma good_map c x : good c x → map_of (parse_lines c) = x.1.
Proof. intros (es & -> & H & _ & _ & <- & _). by rewrite parse_print. Qed.

Lemma good_nonempty c x : good c x → x.1 ≠ ∅.
Proof.
  intros (es & _ & _ & _ & Hn & <- & _) H. destruct es as [|e es]; [done|].
  pose proof (lookup_map_of (e :: es) (en_key e)) as H'. by rewrite H, lookup_empty, at_key_cons, decide_True in H'.
Qed.

Lemma commit_nothing x : commit x ∅ = x.
Proof.
  destruct x as [m r]. unfold commit. cbn. rewrite map_to_list_empty. f_equal.
  apply map_eq. intros k. rewrite lookup_merge, lookup_empty. by destruct (m !! k).
Qed.

(** What a flush merges its batch with: the snapshot that is available, or
    nothing, with the revision that the meta file has. *)
Definition base_of (P : snap → Prop) (f : files) (x : snap) : Prop :=
  (P x ∧ ∃ c, available f x c) ∨
  ((∀ x' c, ¬ available f x' c) ∧ (x = (∅, 0%Z) ∨ ∃ x0, P x0 ∧ x = (∅, x0.2))).

Lemma flush_base P f m flt t :
  known P f → getCacheMeta f = Some m → processDataBackup md5 flt m f = (None, t) →
  ∃ x, base m (now f t) x ∧ base_of P f x.
Proof.
  intros Hk Hm Hp. destruct (processDataBackup_spec _ _ _ _ _ Hp) as [_ H].
  destruct (H eq_refl) as [_ [(H1 & H2 & ->)|(c & H1 & H2 & H3)]].
  - assert (∀ x' c, ¬ available f x' c) as Hn by (intros x' c (_ & _ & [E|[_ E]]); congruence).
    unfold getCacheMeta in Hm. destruct (f_meta f) as [| |m'] eqn:Ef; [|done|]; injection Hm as <-.
    + exists (∅, 0%Z). split; [|by right; auto]. split; [done|]. auto.
    + destruct (Hk m' Ef) as (c & x & Hx & Hg & ->). exists (∅, x.2). split; [|by right; eauto]. split; [done|]. auto.
  - unfold getCacheMeta in Hm. destruct (f_meta f) as [| |m'] eqn:Ef; [|done|]; injection Hm as <-.
    + by destruct (md5_set c).
    + destruct (Hk m' Ef) as (c' & x & Hx & Hg & ->). cbn in H2. apply (inj md5) in H2 as ->.
      exists x. split; [split; eauto|]. left. split; [done|]. exists c'. by repeat split.
Qed.

Lemma process_available m flt f x c :
  flt = no_faults → available f x c → getCacheMeta f = Some m → (processDataBackup md5 flt m f).1 = None.
Proof.
  intros -> (Hm & _ & Hc) E. unfold getCacheMeta in E. rewrite Hm in E. injection E as <-. unfold processDataBackup.
  destruct f as [meta d b]; cbn in Hm, Hc. destruct Hc as [->|[-> ->]].
  - destruct d; cbn; by rewrite bool_decide_true.
  - cbn. by rewrite bool_decide_true.
Qed.

Lemma flush_spec P f evs flt err t :
  whole flt → known P f → fit_batch evs → flush flt false evs f = (err, t) →
  (∀ f', f' ∈ t → f_meta f' = NoMeta ∨ f_meta f' = BadMeta ∨ f_meta f' = f_meta f ∨
     ∃ x c, base_of P f x ∧ good c (commit x evs) ∧ f_meta f' = meta_of c (commit x evs)) ∧
  (err = None → ∃ x c, base_of P f x ∧ good c (commit x evs) ∧
     now f t = MkFiles (meta_of c (commit x evs)) (Some c) None) ∧
  (flt = no_faults → ∀ x c, available f x c → (commit x evs).1 ≠ ∅ → err = None).
Proof.
  intros Hwh Hk He. unfold flushCacheToFile. destruct (getCacheMeta f) as [m|] eqn:Em.
  - destruct (processDataBackup md5 flt m f) as [[e1|] t1] eqn:Ep.
    + intros [= <- <-]. destruct (processDataBackup_spec _ _ _ _ _ Ep) as [H _]. split; [|split; [done|]].
      * intros f' Hf. destruct (H f' Hf); auto.
      * intros Hn x c Ha. pose proof (process_available m flt f x c Hn Ha Em) as E. by rewrite Ep in E.
    + destruct (flush_base P f m flt t1 Hk Em Ep) as (x & Hb & Hx).
      destruct (processDataBackup_spec _ _ _ _ _ Ep) as [H1 H2]. destruct (H2 eq_refl) as [H3 _].
      destruct (flush_merge md5 flt m evs (now f t1)) as [e2 t2] eqn:Ef. intros [= <- <-].
      destruct (flush_merge_spec _ _ _ _ x _ _ Hwh Hb He Ef) as (M1 & M2 & M3). split; [|split].
      * intros f' [H|H]%elem_of_app; [destruct (H1 f' H); auto|].
        destruct (M1 f' H) as [E|[E|(c & E)]]; [rewrite E; auto|auto|]. right; right; right. by exists x, c.
      * intros E. destruct (M2 E) as (c & Hg & Hc). exists x, c. by rewrite now_app.
      * intros Hn x' c Ha. destruct Hx as [[_ (c' & Ha')]|[Hx _]]; [|by destruct (Hx x' c)].
        assert (x = x') as <-; [|by apply M3]. destruct Ha as (E1 & G1 & C1), Ha' as (E2 & G2 & C2).
        rewrite E1 in E2. injection E2 as E2 E3%(inj md5). subst c'. apply good_map in G1, G2.
        destruct x, x'; cbn in *; congruence.
  - intros [= <- <-]. split; [|split; [done|]].
    + intros f' [H|H]%clean_meta; auto.
    + intros _ x c (E & _). unfold getCacheMeta in Em. by rewrite E in Em.
Qed.

Lemma known_available f x c : available f x c → known (eq x) f.
Proof. intros (E & Hg & _) m Hm. rewrite E in Hm. injection Hm as <-. by exists c, x. Qed.

Lemma available_restored f x c : available f x c → restored f = Some x.
Proof.
  intros Ha. unfold restored, restoreCacheFromFile. pose proof Ha as (E & Hg & [Hb|[Hb Hd]]); rewrite Hb; cbn [is_Some].
  - rewrite bool_decide_true by done. destruct (flush no_faults false ∅ f) as [err t] eqn:Ef.
    destruct (flush_spec (eq x) f ∅ no_faults err t (λ _, eq_refl) (known_available f x c Ha) (map_Forall_empty _) Ef) as (_ & H2 & H3).
    specialize (H3 eq_refl x c Ha). rewrite commit_nothing in H3. specialize (H3 (good_nonempty c x Hg)).
    destruct (H2 H3) as (x' & c' & Hx & Hg' & Hn). rewrite commit_nothing in *. cbn [snd]. rewrite Hn.
    assert (x' = x) as ->. { destruct Hx as [[<- _]|[Hx _]]; [done|by destruct (Hx x c)]. }
    cbn. rewrite bool_decide_true by done. cbn. rewrite (good_map c' x Hg'). by destruct x.
  - rewrite bool_decide_false by (intros [? ?]; done). cbn [now last default]. unfold now. cbn. rewrite Hd.
    unfold getCacheMeta. rewrite E. cbn. rewrite bool_decide_true by done. cbn. rewrite (good_map c x Hg). by destruct x.
Qed.

Lemma known_restored P f : known P f → restored f = None ∨ ∃ x c, P x ∧ available f x c.
Proof.
  intros Hk. destruct f as [[| |m] d b]; unfold restored, restoreCacheFromFile, flushCacheToFile; cbn.
  - left. destruct b as [b|]; cbn.
    + unfold processDataBackup. destruct d; cbn; by rewrite bool_decide_false.
    + destruct d; cbn; [|done]. by rewrite bool_decide_false.
  - left. destruct b as [b|]; cbn; [done|]. by destruct d.
  - destruct (Hk m eq_refl) as (c & x & Hx & Hg & ->). destruct b as [b|].
    + destruct (decide (md5 b = md5 c)) as [->%(inj md5)|Hn].
      * right. exists x, c. split; [done|]. by repeat split; [..|left].
      * left. unfold processDataBackup. destruct d; cbn; by rewrite bool_decide_false.
    + destruct d as [d|]; [|by left]. destruct (decide (md5 d = md5 c)) as [->%(inj md5)|Hn].
      * right. exists x, c. split; [done|]. by repeat split; [..|right].
      * left. cbn. by rewrite bool_decide_false.
Qed.

Lemma known_weaken P Q f f' :
  known P f → (∀ x, P x → Q x) →
  (f_meta f' = NoMeta ∨ f_meta f' = BadMeta ∨ f_meta f' = f_meta f ∨
   ∃ x c, Q x ∧ good c x ∧ f_meta f' = meta_of c x) →
  known Q f'.
Proof.
  intros Hk Hw [E|[E|[E|(x & c & Hx & Hg & E)]]] m Hm; rewrite E in Hm; try done.
  - destruct (Hk m Hm) as (c & x & Hx & ?). eauto.
  - injection Hm as <-. by exists c, x.
Qed.

(** The snapshots that batches of events lead to: from nothing, from a
    snapshot, or anew with the revision of one. *)
Inductive recorded : list (gmap string Event) → snap → Prop :=
| rec_keep bs x evs : recorded bs x → recorded (evs :: bs) x
| rec_next bs x evs : recorded bs x → recorded (evs :: bs) (commit x evs)
| rec_first bs evs : recorded (evs :: bs) (commit (∅, 0%Z) evs)
| rec_anew bs x evs : recorded bs x → recorded (evs :: bs) (commit (∅, x.2) evs).

(** The files after flushes and restarts, each of which may fail or be cut off
    after any file operation; every entry that was written was written whole. *)
Inductive reached : list (gmap string Event) → files → Prop :=
| reached_start : reached [] (MkFiles NoMeta None None)
| reached_flush bs f flt evs f' :
    reached bs f → whole flt → fit_batch evs → f' ∈ f :: (flush flt false evs f).2 → reached (evs :: bs) f'
| reached_restore bs f flt fo f' :
    reached bs f → whole flt → f' ∈ f :: (restoreCacheFromFile md5 flt fo f).2 → reached bs f'.

Lemma base_nothing P f x c : base_of P f x → good c (commit x ∅) → P (commit x ∅).
Proof.
  rewrite commit_nothing. intros [[H _]|[_ [->|(x0 & _ & ->)]]] Hg; [done|..]; by apply good_nonempty in Hg.
Qed.

Lemma restore_known P f flt fo f' : whole flt → known P f → f' ∈ (restoreCacheFromFile md5 flt fo f).2 → known P f'.
Proof.
  intros Hwh Hk. unfold restoreCacheFromFile. set (t := if bool_decide _ then _ else _).
  assert (∀ g, g ∈ t → known P g) as Ht.
  { unfold t. case_bool_decide; [|by intros ? ?%elem_of_nil]. destruct (flush flt false ∅ f) as [err t'] eqn:E.
    destruct (flush_spec P f ∅ flt err t' Hwh Hk (map_Forall_empty _) E) as (H1 & _). intros g Hg.
    apply (known_weaken P P f g Hk); [done|]. destruct (H1 g Hg) as [?|[?|[?|(x & c & Hx & Hc & E')]]]; auto.
    right; right; right. exists (commit x ∅), c. split; [|done]. by apply (base_nothing P f x c). }
  assert (known P (now f t)) as Hn.
  { pose proof (now_elem f t) as [->|H]%elem_of_cons; [done|auto]. }
  assert (∀ g, g ∈ t ++ cleanCacheFile true true true (now f t) → known P g) as Hc.
  { intros g [H|H%clean_meta]%elem_of_app; [auto|]. apply (known_weaken P P (now f t) g Hn); [done|]. tauto. }
  destruct (f_data _); [|by apply Ht]. destruct (getCacheMeta _); [|by apply Hc].
  case_goal; [by apply Hc|]. destruct fo; [by apply Hc|by apply Ht].
Qed.

Lemma reached_known bs f : reached bs f → known (recorded bs) f.
Proof.
  induction 1 as [|bs f flt evs f' _ IH Hwh He [->|Hf]%elem_of_cons|bs f flt fo f' _ IH Hwh [->|Hf]%elem_of_cons]; [done|..|done|].
  - apply (known_weaken (recorded bs) _ f); [done|by constructor|auto].
  - destruct (flush flt false evs f) as [err t] eqn:E.
    destruct (flush_spec _ f evs flt err t Hwh IH He E) as (H1 & _).
    apply (known_weaken (recorded bs) _ f); [done|by constructor|].
    destruct (H1 f' Hf) as [?|[?|[?|(x & c & Hx & Hc & Ec)]]]; auto. right; right; right. exists (commit x evs), c.
    split; [|done]. destruct Hx as [[Hx _]|[_ [->|(x0 & Hx & ->)]]]; by constructor.
  - by eapply restore_known.
Qed.

(** The cache survives crashes: after any sequence of flushes and restarts,
    each of which may fail or be cut off after any of its file operations, what
    a restart restores is a snapshot that complete batches of events lead to,
    or nothing. *)
Theorem cache_crash_safe bs f x : reached bs f → restored f = Some x → recorded bs x.
Proof.
  intros Hr Hx. destruct (known_restored _ f (reached_known bs f Hr)) as [H|(y & c & Hy & Ha)]; [congruence|].
  apply available_restored in Ha. congruence.
Qed.


End files.

(** * Examples *)

Local Open Scope string_scope.

Definition demo_md5 (c : string) : string := String "m" c.
#[local] Instance demo_md5_inj : Inj (=) (=) demo_md5.
Proof. intros a b H. unfold demo_md5 in H. congruence. Qed.

Definition demo_put (k : string) (rev : Z) (v : string) : Event := MkEvent PUT k (Some v) None rev "".
Definition demo_batch (k : string) (rev : Z) (v : string) : gmap string Event := {[ k := demo_put k rev v ]}.
Definition demo_flush (f : files) (evs : gmap string Event) : files :=
  now f (flushCacheToFile demo_md5 no_faults false evs f).2.
Definition demo_empty : files := MkFiles NoMeta None None.
Definition demo_files : files := demo_flush demo_empty (demo_batch "/a" 5 "x").

Lemma demo_fits k rev v : fits (entry_of (demo_put k rev v)) → fit_batch (demo_batch k rev v).
Proof. intros H. by apply map_Forall_singleton. Qed.

Lemma demo_reached : reached demo_md5 [demo_batch "/a" 5 "x"] demo_files.
Proof.
  apply (reached_flush demo_md5 [] demo_empty no_faults); [constructor|done|by apply demo_fits; split; vm_compute|]. apply now_elem.
Qed.

Lemma cache_crash_safe_witness : recorded [demo_batch "/a" 5 "x"] ({[ "/a" := MkEntry "/a" 5 "x" ]}, 5%Z).
Proof.
  exact (cache_crash_safe demo_md5 (λ c, ltac:(done)) _ demo_files _ demo_reached ltac:(by vm_compute)).
Defined.


(** A listing is cached event by event: when the threshold flushes the cache in
    the middle of it, the files claim the revision of the newest key so far and
    lack the keys that were not listed yet, however old. *)
Theorem partial_listing_is_cached :
  let c := processETCDCache demo_md5 0 (MkCache ∅ demo_empty) (CacheChan (demo_put "/b" 10 "x") no_faults) in
  restored demo_md5 (c_files c) = Some ({[ "/b" := MkEntry "/b" 10 "x" ]}, 10%Z).
Proof. by vm_compute. Qed.

(** The write of one entry fails: the error is only logged, the flush succeeds,
    and a restart restores a snapshot without the key of that entry, at a
    revision from which its update is not seen again. *)
Theorem failed_write_loses_key :
  let flt := MkFaults false false false false None (λ i, if (i =? 0)%nat then Some 0%nat else None) in
  let '(err, t) := flushCacheToFile demo_md5 flt false (demo_batch "/b" 7 "y") demo_files in
  err = None ∧ restored demo_md5 (now demo_files t) = Some ({[ "/b" := MkEntry "/b" 7 "y" ]}, 7%Z).
Proof. by vm_compute. Qed.

(** An update with an empty value, which etcd delivers as nil, removes a key
    that the file has. *)
Theorem empty_update_removes_key :
  let evs := <["/a" := MkEvent PUT "/a" None None 8 ""]> (demo_batch "/b" 7 "y") in
  restored demo_md5 (demo_flush demo_files evs) = Some ({[ "/b" := MkEntry "/b" 7 "y" ]}, 8%Z).
Proof. by vm_compute. Qed.

(** A line feed in a value makes the rest of the value an entry of its own. *)
Theorem line_feed_forges_entry :
  parse_lines (print_entries [MkEntry "/a" 1 ("x" +:+ String newline "/b|2|y")]) = [MkEntry "/a" 1 "x"; MkEntry "/b" 2 "y"].
Proof. by vm_compute. Qed.

(** A line above the limit of the scanner ends the scan: it and all entries
    after it are dropped without an error. *)
Theorem long_line_hides_rest e rest :
  has_byte newline (line_of e) = false → (MaxScanTokenSize ≤ Z.of_nat (String.length (line_of e)))%Z →
  parse_lines (print_entry e +:+ rest) = [].
Proof.
  intros Hn Hl. unfold parse_lines, scan_lines. rewrite print_line, app_assoc_str, app_cons_str, app_nil_l_str.
  rewrite Split_app_byte, scanned_cons by (done || apply Split_nonempty). by apply Z.leb_le in Hl as ->.
Qed.
