(* ===== verification/EtcdWatcher.v ===== *)
(** Package [etcd3], [watcher.go]: a watcher lists a prefix, watches it and
    sends what it sees to the loop that calls the handler of its component.

    etcd is modelled as the log of the events of the prefix and its revision; a
    watch channel is a position in the log. The steps are the transactions of
    etcd and the sections of [run] between its calls to etcd, so a sequence of
    steps is a run of the watcher with channels that close, clients that are
    lost and calls that fail at any point. *)
From stdpp Require Import base gmap list strings.
From stdpp Require Import base gmap list strings sorting.
From S2P Require Import Prelude GoStrings EtcdCache.

Local Open Scope string_scope.
Local Open Scope Z_scope.

(** * Availability zones *)

(** [AZPrefix] of the configuration, "" without one. *)
Definition AttachAZPrefix (az key : string) : string := if bool_decide (az = "") then key else "/" +:+ az +:+ key.

Definition TrimPrefix (s p : string) : string := if HasPrefix s p then str_drop (String.length p) s else s.

Definition DetachAZPrefix (az key : string) : string :=
  if bool_decide (az = "") then key else TrimPrefix key ("/" +:+ az).

(** * etcd *)

(** The live keys after a log, as [KV.Get] lists them. *)
Definition apply_kv (m : gmap string KeyValue) (e : client_event) : gmap string KeyValue :=
  if ce_delete e then delete (kv_Key (ce_Kv e)) m else <[kv_Key (ce_Kv e) := ce_Kv e]> m.
Definition kv_at (log : list client_event) : gmap string KeyValue := foldl apply_kv ∅ log.

Definition ce_rev (e : client_event) : Z := kv_ModRevision (ce_Kv e).

(** The event of a write in a transaction: a value, or a deletion. *)
Definition txn_event (az : string) (m : gmap string KeyValue) (rev : Z) (w : string * option (option string)) : client_event :=
  let key := AttachAZPrefix az w.1 in
  MkClientEvent (match w.2 with Some _ => false | None => true end)
    (MkKV key (default None w.2) rev) (m !! key).

(** * The watcher *)

Record EtcdWatcher := MkWatcher {
  log : list client_event; revision : Z;   (* of etcd *)
  initialRev : Z; historyRev : Z;
  watchChan : option nat;                  (* the next event of the channel *)
  sent : list Event;                       (* to [ResultChan], oldest first *)
  (* for the proofs: how much of the log the events that were sent reflect,
     whether an event was skipped, and whether [initialRev] is the revision of
     what was sent last *)
  reflects : nat; gap : bool; current : bool }.

Definition NewEtcdWatcher : EtcdWatcher := MkWatcher [] 1 0 0 None [] 0 false false.

Definition with_log (l : list client_event) (r : Z) (w : EtcdWatcher) : EtcdWatcher :=
  MkWatcher l r (initialRev w) (historyRev w) (watchChan w) (sent w) (reflects w) (gap w) (current w).
Definition with_revs (i h : Z) (w : EtcdWatcher) : EtcdWatcher :=
  MkWatcher (log w) (revision w) i h (watchChan w) (sent w) (reflects w) (gap w) (current w).
Definition with_chan (c : option nat) (w : EtcdWatcher) : EtcdWatcher :=
  MkWatcher (log w) (revision w) (initialRev w) (historyRev w) c (sent w) (reflects w) (gap w) (current w).
Definition with_sent (es : list Event) (w : EtcdWatcher) : EtcdWatcher :=
  MkWatcher (log w) (revision w) (initialRev w) (historyRev w) (watchChan w) es (reflects w) (gap w) (current w).
Definition with_proof (n : nat) (g c : bool) (w : EtcdWatcher) : EtcdWatcher :=
  MkWatcher (log w) (revision w) (initialRev w) (historyRev w) (watchChan w) (sent w) n g c.

(** The first event of the log from a revision on. *)
Definition from_rev (r : Z) (l : list client_event) : nat := length (filter (λ e, ce_rev e < r) l).

Section watcher.
  Context (az etcdType : string).

Definition sendEvent (e : Event) (w : EtcdWatcher) : EtcdWatcher :=
  with_sent (sent w ++ [with_key (DetachAZPrefix az (Key e)) e])%list w.

Definition send_all (es : list Event) (w : EtcdWatcher) : EtcdWatcher := foldr sendEvent w (reverse es).

(** A transaction writes distinct keys; [ws] are those under the prefix. *)
Definition txn (ws : list (string * option (option string))) (w : EtcdWatcher) : EtcdWatcher :=
  if bool_decide (NoDup ws.*1)
  then with_log (log w ++ (txn_event az (kv_at (log w)) (revision w + 1) <$> ws))%list (revision w + 1) w
  else w.

(** What the cache restores is the state of etcd at its revision. *)
Definition coherent (es : list entry) (r : Z) (w : EtcdWatcher) : bool :=
  (0 <? r) && (r <=? revision w) &&
  bool_decide (foldl (λ m e, <[DetachAZPrefix az (en_key e) := en_value e]> m) (∅ : gmap string string) es
               = list_to_map ((λ x, (DetachAZPrefix az x.1, default "" (kv_Value x.2))) <$>
                                map_to_list (kv_at (take (from_rev (r + 1) (log w)) (log w))))).

(** [cached]: what [restoreCacheFromFile] returns, [None] when the cache is off
    or cannot be restored; [ok]: the call to etcd succeeds. *)
Definition StartList (cached : option (list entry * Z)) (ok : bool) (w : EtcdWatcher) : EtcdWatcher :=
  if negb (initialRev w =? 0) then w
  else
    let w :=
      match cached with
      | Some (es, r) =>
          let w' := send_all ((λ e, MkEvent PUT (en_key e) (Some (en_value e)) None (en_rev e) "") <$> es) w in
          with_proof (from_rev (r + 1) (log w)) (gap w || negb (coherent es r w)) true (with_revs r (historyRev w) w')
      | None =>
          if ok
          then
            let w := with_revs (revision w) (historyRev w) w in
            with_proof (length (log w)) (gap w) true
              (send_all (parseKV etcdType <$> (map_to_list (kv_at (log w))).*2) w)
          else with_proof 0 (gap w) false w
      end in
    let w := sendEvent syncedEvent w in
    with_revs (initialRev w) (initialRev w) w.

(** The position that a watch with [WithRev(r)] starts from. *)
Definition watch_from (r : Z) (l : list client_event) : nat := if r =? 0 then length l else from_rev r l.

Definition createWatchChan (ok : bool) (w : EtcdWatcher) : EtcdWatcher :=
  if ok
  then
    let p := watch_from (initialRev w) (log w) in
    with_proof (reflects w) (gap w || (reflects w <? p)%nat) false
      (with_chan (Some p) (with_revs (revision w) (historyRev w) w))
  else with_chan None w.

(** The first response of a watch from the revision; [h]: how many events it has. *)
Definition EtcdHistory (rev : Z) (h : nat) (w : EtcdWatcher) : EtcdWatcher :=
  if (rev =? 0) || (initialRev w <=? rev) then w
  else send_all (parseHistoryEvent etcdType <$> take h (drop (from_rev rev (log w)) (log w))) w.

Definition deliver_event (w : EtcdWatcher) (event : client_event) : EtcdWatcher :=
  let e := parseEvent etcdType event in
  let w := sendEvent e (with_revs (Rev e) (Rev e) w) in
  let p := S (default 0%nat (watchChan w)) in
  with_proof (max (reflects w) p) (gap w) true (with_chan (Some p) w).

(** A response with the next [n] events; responses that report progress or an
    error have none. *)
Definition receive (n h : nat) (w : EtcdWatcher) : EtcdWatcher :=
  match watchChan w with
  | None => w
  | Some p =>
      let w := if (0 <? historyRev w) && (historyRev w <? initialRev w) then EtcdHistory (historyRev w) h w else w in
      foldl deliver_event w (take n (drop p (log w)))
  end.

Inductive step_ :=
| Txn (ws : list (string * option (option string)))
| List_ (cached : option (list entry * Z)) (ok : bool)
| Watch (ok : bool)
| Response (n h : nat)
| Lost.

(** [run] lists and watches; a closed channel is replaced, a lost client or a
    stop ends [run]. *)
Definition step (w : EtcdWatcher) (s : step_) : EtcdWatcher :=
  match s with
  | Txn ws => txn ws w
  | List_ cached ok => StartList cached ok w
  | Watch ok => createWatchChan ok w
  | Response n h => receive n h w
  | Lost => with_chan None w
  end.

Definition run (ss : list step_) : EtcdWatcher := foldl step NewEtcdWatcher ss.

End watcher.

(** The events that the handler of a component sees. *)
Definition processEventLoop (filter_ : Event → bool) (es : list Event) : list Event :=
  filter (λ e, Type_ e = SYNCED ∨ filter_ e = false) es.

(** * Properties

    The events that a watcher sends mirror etcd: nothing is skipped as long as
    every channel delivers an event before it is replaced. *)


Local Open Scope list_scope.
Local Open Scope nat_scope.

(** * Availability zones *)

Lemma Detach_Attach az k : DetachAZPrefix az (AttachAZPrefix az k) = k.
Proof.
  unfold DetachAZPrefix, AttachAZPrefix. case_bool_decide as E; [done|]. unfold TrimPrefix.
  rewrite <- app_assoc_str. by rewrite HasPrefix_app, str_drop_app.
Qed.

Lemma Attach_inj az k k' : AttachAZPrefix az k = AttachAZPrefix az k' → k = k'.
Proof. intros H. by rewrite <- (Detach_Attach az k), H, Detach_Attach. Qed.

(** * What a component knows *)

(** The values that the events tell a component. *)
Definition apply_view (m : gmap string string) (e : Event) : gmap string string :=
  match Type_ e with
  | PUT => <[Key e := default ""%string (Value e)]> m
  | DELETE => delete (Key e) m
  | _ => m
  end.
Definition view (es : list Event) : gmap string string := foldl apply_view ∅ es.

(** The value of a key in etcd. *)
Definition etcd_value (az : string) (m : gmap string KeyValue) (k : string) : option string :=
  (λ kv, default ""%string (kv_Value kv)) <$> m !! AttachAZPrefix az k.

Lemma view_snoc es e : view (es ++ [e]) = apply_view (view es) e.
Proof. unfold view. by rewrite foldl_app. Qed.

Lemma kv_at_snoc l e : kv_at (l ++ [e]) = apply_kv (kv_at l) e.
Proof. unfold kv_at. by rewrite foldl_app. Qed.

Definition ce_key (e : client_event) : string := kv_Key (ce_Kv e).

Lemma kv_at_key l k kv : kv_at l !! k = Some kv → kv_Key kv = k ∧ ∃ e, e ∈ l ∧ ce_key e = k.
Proof.
  revert kv; induction l as [|e l IH] using rev_ind; intros kv; [unfold kv_at; cbn; by rewrite lookup_empty|].
  rewrite kv_at_snoc. unfold apply_kv. destruct (ce_delete e).
  - rewrite lookup_delete_Some. intros [_ H]. destruct (IH kv H) as (? & e' & ? & ?). split; [done|]. exists e'. set_solver.
  - rewrite lookup_insert_Some. intros [[<- <-]|[_ H]]; [split; [done|]; exists e; set_solver|].
    destruct (IH kv H) as (? & e' & ? & ?). split; [done|]. exists e'. set_solver.
Qed.

(** The last event of a key decides its state. *)
Lemma kv_at_last l i e :
  l !! i = Some e → (∀ j e', i < j → l !! j = Some e' → ce_key e' ≠ ce_key e) →
  kv_at l !! ce_key e = if ce_delete e then None else Some (ce_Kv e).
Proof.
  induction l as [|x l IH] using rev_ind; intros Hi Hj; [done|]. rewrite kv_at_snoc. unfold apply_kv.
  destruct (decide (i = length l)) as [->|Hn].
  - rewrite lookup_app_r, Nat.sub_diag in Hi by done. injection Hi as ->. unfold ce_key.
    destruct (ce_delete e); [by rewrite lookup_delete_eq|by rewrite lookup_insert_eq].
  - assert (i < length l) as Hl.
    { apply lookup_lt_Some in Hi. rewrite length_app in Hi. cbn in Hi. lia. }
    rewrite lookup_app_l in Hi by done.
    assert (ce_key x ≠ ce_key e) as Hx by (apply (Hj (length l)); [done|by rewrite list_lookup_middle]).
    assert (kv_at l !! ce_key e = if ce_delete e then None else Some (ce_Kv e)) as E.
    { apply IH; [done|]. intros j e' ? Hj'. apply (Hj j); [done|]. apply lookup_app_l_Some, Hj'. }
    unfold ce_key in *. destruct (ce_delete x); [by rewrite lookup_delete_ne|by rewrite lookup_insert_ne].
Qed.

(** * Positions of revisions *)

Definition by_rev (l : list client_event) : Prop :=
  ∀ i j e e', i ≤ j → l !! i = Some e → l !! j = Some e' → (ce_rev e ≤ ce_rev e')%Z.

Lemma from_rev_le r l : from_rev r l ≤ length l.
Proof. apply length_filter. Qed.

Lemma from_rev_spec r l i e : by_rev l → l !! i = Some e → (ce_rev e < r)%Z ↔ i < from_rev r l.
Proof.
  unfold from_rev. revert i; induction l as [|x l IH]; intros i Hs Hi; [done|].
  assert (by_rev l) as Hl by (intros a b ea eb Hab Ha Hb; apply (Hs (S a) (S b)); [lia|done|done]).
  rewrite filter_cons. destruct (decide (ce_rev x < r)%Z) as [Hx|Hx]; cbn [length].
  - destruct i as [|i]; [cbn in Hi; injection Hi as <-; split; [lia|done]|]. rewrite (IH i Hl Hi). lia.
  - assert (∀ y, y ∈ l → ¬ (ce_rev y < r)%Z) as Hr.
    { intros y [j Hj]%list_elem_of_lookup_1. pose proof (Hs 0 (S j) x y ltac:(lia) eq_refl Hj). lia. }
    rewrite filter_none by by apply Forall_forall. cbn. split; [|lia]. intros He. exfalso.
    destruct i as [|i]; cbn in Hi; [injection Hi as <-; done|]. by apply (Hr e); [apply list_elem_of_lookup_2 in Hi|].
Qed.

#[local] Arguments from_rev : simpl never.
#[local] Arguments kv_at : simpl never.
#[local] Arguments send_all : simpl never.

Section facts.
  Context (az etcdType : string).

Local Abbreviation step := (step az etcdType).
Local Abbreviation run := (run az etcdType).

(** * Sending *)

Definition detached (e : Event) : Event := with_key (DetachAZPrefix az (Key e)) e.

Lemma send_all_eq es w : send_all az es w = with_sent (sent w ++ (detached <$> es)) w.
Proof.
  unfold send_all. induction es as [|e es IH] using rev_ind.
  - destruct w; cbn. unfold with_sent; cbn. by rewrite app_nil_r.
  - rewrite reverse_app. cbn [reverse rev_append app foldr]. change (foldr _ w (reverse [e] ++ reverse es)) with (sendEvent az e (foldr (sendEvent az) w (reverse es))).
    rewrite IH. unfold sendEvent, with_sent. cbn. by rewrite fmap_app, app_assoc.
Qed.

Lemma view_listing (l : list (string * KeyValue)) m k :
  (∀ x, x ∈ l → kv_Key x.2 = x.1 ∧ ∃ k, x.1 = AttachAZPrefix az k) → NoDup l.*1 →
  foldl apply_view m (detached <$> (parseKV etcdType <$> l.*2)) !! k
    = match (list_to_map l : gmap string KeyValue) !! AttachAZPrefix az k with
      | Some kv => Some (default ""%string (kv_Value kv))
      | None => m !! k
      end.
Proof.
  revert m; induction l as [|[key kv] l IH]; intros m Hl Hn; [done|].
  rewrite fmap_cons in Hn. apply NoDup_cons in Hn as [Hk Hn]. cbn in Hk.
  cbn [fmap list_fmap foldl snd fst list_to_map].
  destruct (Hl (key, kv)) as [E (k0 & E0)]; [by left|]. cbn in E, E0.
  rewrite IH by (try done; intros; apply Hl; by right).
  assert (apply_view m (detached (parseKV etcdType kv)) = <[k0 := default ""%string (kv_Value kv)]> m) as ->.
  { unfold apply_view, detached. cbn. by rewrite E, E0, Detach_Attach. }
  destruct (decide (k0 = k)) as [->|Hk0].
  - assert ((list_to_map l : gmap string KeyValue) !! AttachAZPrefix az k = None) as ->
      by (apply not_elem_of_list_to_map_1; by rewrite <- E0).
    rewrite list_to_map_cons, E0. by rewrite !lookup_insert_eq.
  - rewrite list_to_map_cons, (lookup_insert_ne _ key); [by rewrite lookup_insert_ne|]. rewrite E0. by intros ?%Attach_inj.
Qed.

Lemma lookup_detached (M : gmap string KeyValue) k :
  (∀ key kv, M !! key = Some kv → ∃ k, key = AttachAZPrefix az k) →
  (list_to_map ((λ x, (DetachAZPrefix az x.1, default ""%string (kv_Value x.2))) <$> map_to_list M) : gmap string string) !! k
    = etcd_value az M k.
Proof.
  intros HM. unfold etcd_value. destruct (M !! AttachAZPrefix az k) as [kv|] eqn:E; cbn.
  - apply elem_of_list_to_map_1'.
    + intros y ([key kv'] & [= Hk ->] & Hx%elem_of_map_to_list)%list_elem_of_fmap.
      destruct (HM key kv' Hx) as [k' ->]. rewrite Detach_Attach in Hk. subst k'. cbn. congruence.
    + apply list_elem_of_fmap. exists (AttachAZPrefix az k, kv). split; [by cbn; rewrite Detach_Attach|].
      by apply elem_of_map_to_list.
  - apply not_elem_of_list_to_map_1. intros (x & Ek & Hx)%list_elem_of_fmap.
    apply list_elem_of_fmap in Hx as ([key kv] & -> & Hx%elem_of_map_to_list). cbn in Ek.
    destruct (HM key kv Hx) as [k' ->]. rewrite Detach_Attach in Ek. congruence.
Qed.

(** * The invariant *)

Record inv (w : EtcdWatcher) : Prop := {
  i_sorted : by_rev (log w);
  i_bound : ∀ e, e ∈ log w → (0 < ce_rev e ≤ revision w)%Z;
  i_attached : ∀ e, e ∈ log w → ∃ k, ce_key e = AttachAZPrefix az k;
  i_distinct : ∀ i j e e', i ≠ j → log w !! i = Some e → log w !! j = Some e' → ce_rev e = ce_rev e' → ce_key e ≠ ce_key e';
  i_reflects : reflects w ≤ length (log w);
  i_init : (gap w = false → 0 ≤ initialRev w ≤ revision w)%Z ∧ (0 < revision w)%Z;
  i_chan : ∀ p, watchChan w = Some p → p ≤ length (log w) ∧ initialRev w ≠ 0%Z;
  i_le : gap w = false → ∀ i e, i < reflects w → log w !! i = Some e → (ce_rev e ≤ initialRev w)%Z;
  i_current : gap w = false → current w = true → (0 < initialRev w)%Z ∧ from_rev (initialRev w) (log w) ≤ reflects w;
  i_same : gap w = false → ∀ p, watchChan w = Some p →
    p ≤ reflects w ∧
    ∀ i j e e', p ≤ i < reflects w → p ≤ j < reflects w → log w !! i = Some e → log w !! j = Some e' → ce_rev e = ce_rev e';
  i_view : gap w = false → ∀ k, view (sent w) !! k = etcd_value az (kv_at (take (reflects w) (log w))) k }.

Lemma inv_new : inv NewEtcdWatcher.
Proof.
  split; cbn; try done; try (intros ? []%elem_of_nil || (by intros ? ?%elem_of_nil) || lia).
Qed.

(** Events that are no updates do not change what a component knows. *)
Definition silent (e : Event) : Prop := Type_ e ≠ PUT ∧ Type_ e ≠ DELETE.

Lemma view_silent m es : Forall silent es → foldl apply_view m es = m.
Proof.
  intros H. revert m; induction H as [|e es [H1 H2] _ IH]; intros m; [done|]. cbn. rewrite IH. unfold apply_view.
  by destruct (Type_ e).
Qed.

Lemma inv_silent es w : inv w → Forall silent es → inv (send_all az es w).
Proof.
  intros Hw He. rewrite send_all_eq. destruct Hw. split; cbn; try done.
  intros Hg k. unfold view. rewrite foldl_app, view_silent; [by apply i_view0|].
  rewrite Forall_fmap. by eapply Forall_impl.
Qed.

Lemma history_silent e : silent (parseHistoryEvent etcdType e).
Proof. unfold silent, parseHistoryEvent, parseEvent. by destruct (ce_delete e). Qed.

Lemma from_rev_app r l l' : Forall (λ e, (r ≤ ce_rev e)%Z) l' → from_rev r (l ++ l') = from_rev r l.
Proof.
  intros H. unfold from_rev. rewrite filter_app, (filter_none _ l'), app_nil_r; [done|].
  eapply Forall_impl; [done|]. cbn. lia.
Qed.

Lemma inv_txn ws w : inv w → inv (txn az ws w).
Proof.
  intros Hw. unfold txn. case_bool_decide as Hn; [|done].
  set (new := txn_event az (kv_at (log w)) (revision w + 1) <$> ws).
  assert (∀ i e, new !! i = Some e → ce_rev e = (revision w + 1)%Z ∧ ∃ k, ws.*1 !! i = Some k ∧ ce_key e = AttachAZPrefix az k) as Hnew.
  { intros i e. unfold new. rewrite list_lookup_fmap_Some. intros (x & -> & Hx). split; [done|]. exists x.1.
    by rewrite list_lookup_fmap, Hx. }
  assert (∀ i e, (log w ++ new) !! i = Some e →
    (i < length (log w) ∧ log w !! i = Some e ∧ (0 < ce_rev e ≤ revision w)%Z) ∨
    (length (log w) ≤ i ∧ new !! (i - length (log w)) = Some e ∧ ce_rev e = (revision w + 1)%Z)) as Hcase.
  { intros i e [H|[H1 H2]]%lookup_app_Some.
    - left. split; [by apply lookup_lt_Some in H|]. split; [done|]. by apply list_elem_of_lookup_2, (i_bound w Hw) in H.
    - right. split; [done|]. split; [done|]. by apply (Hnew _ _ H2). }
  destruct (i_init w Hw) as [Hi Hr].
  assert (∀ i e, i < reflects w → (log w ++ new) !! i = Some e → log w !! i = Some e) as Hold.
  { intros i e Hlt He. pose proof (i_reflects w Hw). by rewrite lookup_app_l in He by lia. }
  split; cbn.
  - intros i j e e' Hij He He'. destruct (Hcase i e He) as [(?&?&?)|(?&?&?)], (Hcase j e' He') as [(?&?&?)|(?&?&?)]; try lia.
    by apply (i_sorted w Hw i j).
  - intros e [i He]%list_elem_of_lookup_1. destruct (Hcase i e He) as [(?&?&?)|(?&?&?)]; lia.
  - intros e [H|H]%elem_of_app; [by apply (i_attached w Hw)|]. apply list_elem_of_lookup_1 in H as [i H].
    destruct (Hnew i e H) as (_ & k & _ & ?). eauto.
  - intros i j e e' Hij He He' Hrev.
    destruct (Hcase i e He) as [(?&?&?)|(?&Hx&?)], (Hcase j e' He') as [(?&?&?)|(?&Hy&?)]; try lia.
    + by apply (i_distinct w Hw i j).
    + destruct (Hnew _ _ Hx) as (_ & k & Hk & ->), (Hnew _ _ Hy) as (_ & k' & Hk' & ->). intros E%Attach_inj. subst k'.
      pose proof (NoDup_lookup _ _ _ _ Hn Hk Hk'). lia.
  - rewrite length_app. pose proof (i_reflects w Hw). lia.
  - split; [intros Hg; specialize (Hi Hg)|]; lia.
  - intros p Hp. rewrite length_app. destruct (i_chan w Hw p Hp). split; [lia|done].
  - intros Hg i e Hlt He. apply (i_le w Hw Hg i e Hlt). by apply Hold.
  - intros Hg Hc. rewrite from_rev_app; [by apply (i_current w Hw)|]. apply Forall_forall.
    intros e [i He]%list_elem_of_lookup_1. destruct (Hnew i e He) as [-> _]. specialize (Hi Hg). lia.
  - intros Hg p Hp. destruct (i_same w Hw Hg p Hp) as [H1 H2]. split; [done|].
    intros i j e e' Hi' Hj' He He'. apply (H2 i j); try done; apply Hold; try done; lia.
  - intros Hg k. rewrite take_app_le by apply (i_reflects w Hw). by apply (i_view w Hw).
Qed.

Lemma log_attached w n key kv :
  inv w → kv_at (take n (log w)) !! key = Some kv → ∃ k, key = AttachAZPrefix az k.
Proof.
  intros Hw (_ & e & He & <-)%kv_at_key. apply (i_attached w Hw e). by apply (elem_of_sublist _ _ _ He), sublist_take.
Qed.

(** Before the first list nothing is known. *)
Lemma unlisted w : inv w → gap w = false → initialRev w = 0%Z → reflects w = 0 ∧ ∀ k, view (sent w) !! k = None.
Proof.
  intros Hw Hg H0. assert (reflects w = 0) as Hr.
  { destruct (reflects w) as [|n] eqn:E; [done|]. exfalso. pose proof (i_reflects w Hw) as Hl.
    destruct (log w !! 0) as [e|] eqn:He; [|apply lookup_ge_None in He; lia].
    pose proof (i_le w Hw Hg 0 e ltac:(lia) He). pose proof (i_bound w Hw e (list_elem_of_lookup_2 _ _ _ He)). lia. }
  split; [done|]. intros k. rewrite (i_view w Hw Hg), Hr.
  change (kv_at (take 0 (log w))) with (∅ : gmap string KeyValue). unfold etcd_value. by rewrite lookup_empty.
Qed.

Lemma view_cached es m :
  foldl apply_view m (detached <$> ((λ e, MkEvent PUT (en_key e) (Some (en_value e)) None (en_rev e) "") <$> es))
    = foldl (λ m e, <[DetachAZPrefix az (en_key e) := en_value e]> m) m es.
Proof. revert m; induction es as [|e es IH]; intros m; [done|]. cbn. by rewrite IH. Qed.

Lemma inv_finish w : inv w → inv (let w := sendEvent az syncedEvent w in with_revs (initialRev w) (initialRev w) w).
Proof.
  intros Hw. assert (inv (send_all az [syncedEvent] w)) as H by (apply inv_silent; [done|by repeat constructor]).
  destruct H. by split.
Qed.

Lemma inv_listed w :
  inv w → initialRev w = 0%Z →
  let w1 := with_revs (revision w) (historyRev w) w in
  inv (with_proof (length (log w1)) (gap w1) true (send_all az (parseKV etcdType <$> (map_to_list (kv_at (log w1))).*2) w1)).
Proof.
  intros Hw H0. cbn. rewrite send_all_eq. destruct (i_init w Hw) as [Hi Hr].
  assert (∀ p, watchChan w ≠ Some p) as Hc by (intros p Hp; by destruct (i_chan w Hw p Hp)).
  split; cbn; [apply (i_sorted w Hw)|apply (i_bound w Hw)|apply (i_attached w Hw)|apply (i_distinct w Hw)|done|lia|..].
  - intros p Hp. by destruct (Hc p).
  - intros Hg i e _ He. apply list_elem_of_lookup_2, (i_bound w Hw) in He. lia.
  - intros _ _. split; [done|apply from_rev_le].
  - intros Hg p Hp. by destruct (Hc p).
  - intros Hg k. rewrite take_ge by done. destruct (unlisted w Hw Hg H0) as [_ Hv].
    unfold view. rewrite foldl_app, view_listing, list_to_map_to_list; [|..|apply NoDup_fst_map_to_list].
    + unfold etcd_value. fold (view (sent w)). rewrite Hv. by destruct (kv_at _ !! _).
    + intros [key kv] Hx%elem_of_map_to_list. split; [by apply kv_at_key in Hx as []|].
      apply (log_attached w (length (log w)) key kv Hw). by rewrite take_ge.
Qed.

Lemma from_rev_mono r r' l : (r ≤ r')%Z → from_rev r l ≤ from_rev r' l.
Proof.
  intros H. unfold from_rev. induction l as [|e l IH]; [done|]. rewrite !filter_cons.
  repeat case_decide; cbn; lia.
Qed.

Lemma inv_cached es r w :
  inv w → initialRev w = 0%Z →
  inv (with_proof (from_rev (r + 1) (log w)) (gap w || negb (coherent az es r w)) true
         (with_revs r (historyRev w)
            (send_all az ((λ e, MkEvent PUT (en_key e) (Some (en_value e)) None (en_rev e) "") <$> es) w))).
Proof.
  intros Hw H0. rewrite send_all_eq. destruct (i_init w Hw) as [_ Hr].
  assert (∀ p, watchChan w ≠ Some p) as Hc by (intros p Hp; by destruct (i_chan w Hw p Hp)).
  assert (gap w || negb (coherent az es r w) = false → gap w = false ∧ coherent az es r w = true) as Hcase
    by (intros [? ?%negb_false_iff]%orb_false_iff; done).
  split; cbn; [apply (i_sorted w Hw)|apply (i_bound w Hw)|apply (i_attached w Hw)|apply (i_distinct w Hw)|apply from_rev_le|..].
  - split; [|done]. intros [_ Hco]%Hcase. unfold coherent in Hco. breflect. lia.
  - intros p Hp. by destruct (Hc p).
  - intros _ i e Hi He. apply (from_rev_spec _ _ _ _ (i_sorted w Hw) He) in Hi. lia.
  - intros [_ Hco]%Hcase _. split; [unfold coherent in Hco; breflect; lia|]. apply from_rev_mono. lia.
  - intros _ p Hp. by destruct (Hc p).
  - intros [Hg Hco]%Hcase k. destruct (unlisted w Hw Hg H0) as [_ Hv].
    unfold view. rewrite foldl_app, view_cached. fold (view (sent w)).
    assert (view (sent w) = ∅) as -> by (apply map_eq; intros k'; by rewrite Hv, lookup_empty).
    unfold coherent in Hco. apply andb_true_iff in Hco as [_ Hco%bool_decide_eq_true]. rewrite Hco.
    apply lookup_detached. intros key kv. by apply log_attached.
Qed.

Lemma inv_StartList cached ok w : inv w → inv (StartList az etcdType cached ok w).
Proof.
  intros Hw. unfold StartList. destruct (initialRev w =? 0)%Z eqn:E; [|done]. apply Z.eqb_eq in E. cbn [negb].
  apply inv_finish. destruct cached as [[es r]|]; [by apply inv_cached|]. destruct ok; [by apply inv_listed|].
  destruct Hw. split; cbn; try done.
  - lia.
  - intros _ i e. lia.
  - intros Hg p Hp. by destruct (i_chan0 p Hp).
  - intros Hg k. assert (inv w) as Hw by by split. destruct (unlisted w Hw Hg E) as [Hr Hv]. rewrite <- Hr. by apply i_view.
Qed.

Lemma inv_createWatchChan ok w : inv w → inv (createWatchChan ok w).
Proof.
  intros Hw. unfold createWatchChan. destruct (i_init w Hw) as [Hi Hr]. destruct ok; [|by destruct Hw; split; cbn].
  set (p := watch_from (initialRev w) (log w)).
  assert (p ≤ length (log w)) as Hp by (unfold p, watch_from; case_goal; [done|apply from_rev_le]).
  assert (gap w || (reflects w <? p)%nat = false → gap w = false ∧ p ≤ reflects w) as Hcase
    by (intros [? ?%Nat.ltb_ge]%orb_false_iff; done).
  split; cbn; [apply (i_sorted w Hw)|apply (i_bound w Hw)|apply (i_attached w Hw)|apply (i_distinct w Hw)|apply (i_reflects w Hw)|..].
  - split; [|done]. lia.
  - intros q [= <-]. split; [done|lia].
  - intros _ i e _ He. apply list_elem_of_lookup_2, (i_bound w Hw) in He. lia.
  - done.
  - intros [Hg Hle]%Hcase q [= <-]. split; [done|]. intros i j e e' Hi' Hj' He He'.
    assert (∀ i e, p ≤ i < reflects w → log w !! i = Some e → ce_rev e = initialRev w) as Hx.
    { intros i' x Hx Hlx. pose proof (i_le w Hw Hg i' x ltac:(lia) Hlx) as H1. unfold p, watch_from in Hx.
      destruct (initialRev w =? 0)%Z eqn:E0; [pose proof (i_reflects w Hw); lia|].
      destruct (decide (ce_rev x < initialRev w)%Z) as [H2|]; [|lia].
      apply (from_rev_spec _ _ _ _ (i_sorted w Hw) Hlx) in H2. lia. }
    by rewrite (Hx i e), (Hx j e').
  - intros [Hg Hle]%Hcase k. by apply (i_view w Hw).
Qed.

(** One event of a response, at the position of the channel. *)
Lemma inv_deliver w p e :
  inv w → watchChan w = Some p → log w !! p = Some e → inv (deliver_event az etcdType w e).
Proof.
  intros Hw Hp He. pose proof (lookup_lt_Some _ _ _ He) as Hlt. pose proof (i_bound w Hw e (list_elem_of_lookup_2 _ _ _ He)) as Hb.
  unfold deliver_event, sendEvent. cbn. rewrite Hp. cbn.
  destruct (i_init w Hw) as [_ Hr].
  split; cbn; [apply (i_sorted w Hw)|apply (i_bound w Hw)|apply (i_attached w Hw)|apply (i_distinct w Hw)|..].
  - pose proof (i_reflects w Hw). lia.
  - unfold ce_rev in Hb. lia.
  - intros q [= <-]. unfold ce_rev in Hb. lia.
  - intros Hg i x Hi Hx. destruct (decide (i ≤ p)) as [H|H]; [by apply (i_sorted w Hw i p)|].
    destruct (i_same w Hw Hg p Hp) as [_ Hs]. fold (ce_rev e). rewrite (Hs i p x e); [done|lia|lia|done|done].
  - intros Hg _. fold (ce_rev e). split; [lia|]. destruct (decide (p < from_rev (ce_rev e) (log w))) as [H|H]; [|lia].
    apply (from_rev_spec _ _ _ _ (i_sorted w Hw) He) in H. lia.
  - intros Hg q [= <-]. destruct (i_same w Hw Hg p Hp) as [Hle Hs]. split; [lia|].
    intros i j x y Hi Hj Hx Hy. apply (Hs i j); try done; lia.
  - intros Hg k. rewrite view_snoc. destruct (i_same w Hw Hg p Hp) as [Hle Hs].
    destruct (i_attached w Hw e (list_elem_of_lookup_2 _ _ _ He)) as [k0 Hk0].
    assert (apply_view (view (sent w)) (detached (parseEvent etcdType e)) !! k
            = if decide (k0 = k) then (if ce_delete e then None else Some (default ""%string (kv_Value (ce_Kv e)))) else view (sent w) !! k) as E.
    { unfold apply_view, detached, ce_key in *. cbn. rewrite Hk0, Detach_Attach.
      destruct (ce_delete e), (decide (k0 = k)) as [->|Hn]; cbn;
        [by rewrite lookup_delete_eq|by rewrite lookup_delete_ne|by rewrite lookup_insert_eq|by rewrite lookup_insert_ne]. }
    etrans; [exact E|]. rewrite (i_view w Hw Hg). unfold etcd_value. destruct (decide (p = reflects w)) as [->|Hne].
    + replace (reflects w `max` S (reflects w)) with (S (reflects w)) by lia. rewrite (take_S_r _ _ e He), kv_at_snoc.
      unfold apply_kv, ce_key in *. rewrite Hk0.
      destruct (ce_delete e), (decide (k0 = k)) as [->|Hn];
        rewrite ?lookup_delete_eq, ?lookup_insert_eq, ?lookup_delete_ne, ?lookup_insert_ne by (intros ?%Attach_inj; done); done.
    + replace (reflects w `max` S p) with (reflects w) by lia. destruct (decide (k0 = k)) as [->|Hn]; [|done].
      rewrite <- Hk0. rewrite (kv_at_last (take (reflects w) (log w)) p e).
      * by destruct (ce_delete e).
      * rewrite lookup_take_lt; [done|lia].
      * intros j x Hj [Hx Hjl]%lookup_take_Some. apply not_eq_sym, (i_distinct w Hw p j); [lia|done|done|].
        apply (Hs p j); [lia|lia|done|done].
Qed.

Lemma inv_deliver_all es rest w p :
  inv w → watchChan w = Some p → drop p (log w) = es ++ rest →
  let w' := foldl (deliver_event az etcdType) w es in
  inv w' ∧ log w' = log w ∧ gap w' = gap w ∧ watchChan w' = Some (p + length es).
Proof.
  revert w p; induction es as [|e es IH]; intros w p Hw Hp Hd; cbn [foldl length].
  { split; [done|]. by rewrite Nat.add_0_r. }
  assert (log w !! p = Some e) as He by (rewrite <- (Nat.add_0_r p), <- lookup_drop, Hd; done).
  pose proof (inv_deliver w p e Hw Hp He) as Hw'.
  destruct (IH (deliver_event az etcdType w e) (S p) Hw') as (H1 & H2 & H3 & H4).
  - cbn. by rewrite Hp.
  - cbn. apply (f_equal tail) in Hd. cbn in Hd. rewrite <- Hd. by rewrite (drop_S _ _ _ He).
  - split; [done|]. rewrite H2, H3, H4. repeat split; try done. f_equal. lia.
Qed.

Lemma inv_history h w : inv w → inv (EtcdHistory az etcdType (historyRev w) h w).
Proof.
  intros Hw. unfold EtcdHistory. case_goal; [done|]. apply inv_silent; [done|]. rewrite Forall_fmap.
  apply Forall_true, history_silent.
Qed.

Lemma history_frame r h w :
  let w' := EtcdHistory az etcdType r h w in
  log w' = log w ∧ gap w' = gap w ∧ watchChan w' = watchChan w.
Proof. unfold EtcdHistory. case_goal; [done|]. by rewrite send_all_eq. Qed.

Lemma inv_receive n h w :
  inv w → let w' := receive az etcdType n h w in
  inv w' ∧ log w' = log w ∧ gap w' = gap w ∧
  ∀ p, watchChan w = Some p → watchChan w' = Some (p + length (take n (drop p (log w)))).
Proof.
  intros Hw. unfold receive. destruct (watchChan w) as [p|] eqn:Hp; [|done].
  set (w1 := if _ && _ then _ else w).
  assert (inv w1 ∧ log w1 = log w ∧ gap w1 = gap w ∧ watchChan w1 = watchChan w) as (H1 & H2 & H3 & H4).
  { unfold w1. case_goal; [|done]. split; [by apply inv_history|]. apply history_frame. }
  destruct (inv_deliver_all (take n (drop p (log w1))) (drop n (drop p (log w1))) w1 p) as (D1 & D2 & D3 & D4);
    [done|congruence|by rewrite take_drop|].
  split; [done|]. rewrite D2, D3, D4, H2, H3. repeat split; try done. by intros q [= <-].
Qed.

Lemma watcher_inv_run ss : inv (run ss).
Proof.
  unfold EtcdWatcher.run. apply foldl_inv; [|apply inv_new]. intros w s _ Hw. destruct s as [ws|cached ok|ok|n h|]; cbn.
  - by apply inv_txn.
  - by apply inv_StartList.
  - by apply inv_createWatchChan.
  - by apply inv_receive.
  - destruct Hw. by split.
Qed.

(** C13. The events of a watcher mirror etcd. In every run in which no event was
    skipped, the updates and deletions that were sent tell a component exactly
    the keys and values that etcd had at a point of its log, and once a
    response has brought the rest of the log, those it has now. An event can be
    skipped only when a channel is replaced before an event arrived on it or
    after a list that failed, or when the files of the cache do not hold the
    state of etcd at their revision. *)
Theorem watch_mirrors_etcd ss :
  let w := run ss in
  (gap w = false →
     ∀ k, view (sent w) !! k = etcd_value az (kv_at (take (reflects w) (log w))) k) ∧
  (gap w = false → ∀ p h, watchChan w = Some p →
     ∀ k, view (sent (step w (Response (length (log w)) h))) !! k = etcd_value az (kv_at (log w)) k) ∧
  (∀ s, gap w = false → gap (step w s) = true →
     (s = Watch true ∧ current w = false) ∨
     ∃ es r ok, s = List_ (Some (es, r)) ok ∧ coherent az es r w = false).
Proof.
  intros w. pose proof (watcher_inv_run ss) as Hw. fold w in Hw. clearbody w. split; [|split].
  - apply (i_view w Hw).
  - intros Hg p h Hp k. cbn. destruct (inv_receive (length (log w)) h w Hw) as (H1 & H2 & H3 & H4).
    set (w' := receive _ _ _ _ w) in *. rewrite (i_view w' H1) by congruence. rewrite <- H2. f_equal. f_equal.
    apply take_ge. rewrite H2. specialize (H4 p Hp).
    destruct (i_same w' H1 ltac:(congruence) _ H4) as [Hle _]. destruct (i_chan w Hw p Hp) as [Hpl _].
    rewrite length_take, length_drop in Hle. lia.
  - intros s Hg. destruct s as [ws|cached ok|ok|n h|]; cbn.
    + unfold txn. case_goal; cbn; congruence.
    + unfold StartList. destruct (initialRev w =? 0)%Z; [|cbn; congruence]. cbn [negb].
      destruct cached as [[es r]|]; cbn; [rewrite Hg; cbn; intros E%negb_true_iff; eauto 8|].
      destruct ok; cbn; congruence.
    + unfold createWatchChan. destruct ok; cbn; [|congruence]. rewrite Hg. cbn. intros E%Nat.ltb_lt. left. split; [done|].
      destruct (current w) eqn:Ec; [|done]. exfalso. destruct (i_current w Hw Hg Ec) as [H0 H]. unfold watch_from in E.
      destruct (initialRev w =? 0)%Z eqn:E0; [|lia]. apply Z.eqb_eq in E0. lia.
    + destruct (inv_receive n h w Hw) as (_ & _ & -> & _). congruence.
    + congruence.
Qed.

End facts.

(** * Examples *)

Local Open Scope string_scope.

Definition demo_run : list step_ → EtcdWatcher := run "az1" "meta".
Definition demo_put (k v : string) : step_ := Txn [(k, Some (Some v))].

(** Two channels are replaced before an event arrived on them: the first of the
    events in between is never sent as an update, only in the history. *)
Theorem early_close_skips_event :
  let w := demo_run [demo_put "/a" "1"; List_ None true; Watch true; demo_put "/b" "2"; demo_put "/c" "3"; Watch true; Watch true;
                     demo_put "/d" "4"; Response 10 10] in
  view (sent w) = {[ "/a" := "1"; "/c" := "3"; "/d" := "4" ]} ∧
  (Key <$> filter (λ e, Type_ e = HISTORYUPDATE) (sent w)) = ["/a"; "/b"; "/c"; "/d"].
Proof. split; by vm_compute. Qed.

(** When the first list fails, the watcher reports that it is synchronised and
    watches from now on; the list is not repeated. *)
Theorem failed_list_is_not_repeated :
  let w := demo_run [demo_put "/a" "1"; demo_put "/b" "2"; List_ None false; Watch true; Lost; List_ None true; Watch true;
                     demo_put "/c" "3"; Response 10 10] in
  view (sent w) = {[ "/b" := "2"; "/c" := "3" ]} ∧ SYNCED ∈ (Type_ <$> sent w).
Proof. split; [by vm_compute|]. apply list_elem_of_fmap. exists syncedEvent. split; [done|]. vm_compute. left. Qed.
