(* ===== verification/EtcdLock.v ===== *)
(** Package [etcd3], [lock.go], [instance_register.go] and the connection check
    of [client.go]: locks on keys of etcd, the registration of an instance under
    a lease and the supervision of the connection.

    Lockers are steps of one system around a shared etcd: every call to etcd is
    a step of its own, and a call that fails may have taken effect or not. A
    locker is used by one goroutine at a time. *)
From stdpp Require Import base gmap list strings sorting.
From S2P Require Import Prelude GoStrings EtcdWatcher.

Local Open Scope string_scope.
Local Open Scope Z_scope.

(** * etcd with leases *)

Record held_kv := MkHeld { l_create : Z; l_lease : Z }.

Record etcd := MkEtcd { kvs : gmap string held_kv; rev : Z; last_lease : Z }.

Definition NoLease : Z := 0.

(** A put keeps the creation revision of a key that exists. *)
Definition put (k : string) (lease : Z) (e : etcd) : etcd :=
  let r := rev e + 1 in
  MkEtcd (<[k := MkHeld (from_option l_create r (kvs e !! k)) lease]> (kvs e)) r (last_lease e).

Definition del (k : string) (e : etcd) : etcd := MkEtcd (delete k (kvs e)) (rev e + 1) (last_lease e).

Definition revoke (lease : Z) (e : etcd) : etcd :=
  MkEtcd (filter (λ x, l_lease x.2 ≠ lease) (kvs e)) (rev e + 1) (last_lease e).

Definition grant (e : etcd) : Z * etcd := (last_lease e + 1, MkEtcd (kvs e) (rev e) (last_lease e + 1)).

(** Keys with a prefix by creation revision. *)
Definition created_le (a b : string * held_kv) : Prop := l_create a.2 ≤ l_create b.2.
#[global] Instance created_le_dec : RelDecision created_le.
Proof. intros a b. unfold created_le. apply _. Defined.

Definition by_creation (prefix : string) (e : etcd) : list (string * held_kv) :=
  merge_sort created_le (filter (λ x, HasPrefix x.1 prefix = true) (map_to_list (kvs e))).

(** * EtcdLocker *)

Inductive lock_error := ErrNoKeyCanBeFound | ErrNoKeyCanBeLocked | ErrCall | ErrCallback.

(** Where [tryLock] is: before its transaction, or in the deferred cleanup. *)
Inductive lock_pc := Idle | AtTxn (key : string) | AtRevoke (err : lock_error) | AtDelete (err : lock_error).

Record EtcdLocker := MkLocker {
  LockedKey : string; holderKey : string; leaseID : Z; l_pc : lock_pc;
  keeper : bool;                (* [lockKeeperLoop] runs *)
  failCount : nat; failed : bool (* [FailCallback] was called *) }.

Definition new_locker : EtcdLocker := MkLocker "" "" NoLease Idle false 0 false.

Definition hex_digit (d : Z) : ascii := ascii_of_N (Z.to_N (if d <? 10 then d + 48 else d + 87)).
Fixpoint hex_go (fuel : nat) (n : Z) (acc : string) : string :=
  let acc := String (hex_digit (n mod 16)) acc in
  match fuel with
  | O => acc
  | S f => if n / 16 =? 0 then acc else hex_go f (n / 16) acc
  end.
(** [%x] of a lease. *)
Definition hex (n : Z) : string := hex_go 15 n "".

Definition holder_key (key : string) (lease : Z) : string := key +:+ "/" +:+ hex lease.

Definition at_pc (p : lock_pc) (l : EtcdLocker) : EtcdLocker :=
  MkLocker (LockedKey l) (holderKey l) (leaseID l) p (keeper l) (failCount l) (failed l).
Definition with_lease (id : Z) (l : EtcdLocker) : EtcdLocker :=
  MkLocker (LockedKey l) (holderKey l) id (l_pc l) (keeper l) (failCount l) (failed l).

Definition lockFailCountLimit : nat := 10.

(** The end of [tryLock]: a first success starts the keeper; the keeper counts
    the failures that another holder or a missing key causes. *)
Definition finish (err : option lock_error) (l : EtcdLocker) : EtcdLocker :=
  let l := at_pc Idle l in
  if keeper l
  then
    match err with
    | Some (ErrNoKeyCanBeFound | ErrNoKeyCanBeLocked) =>
        if (lockFailCountLimit <=? failCount l)%nat
        then MkLocker (LockedKey l) (holderKey l) (leaseID l) Idle false (failCount l) true
        else MkLocker (LockedKey l) (holderKey l) (leaseID l) Idle true (S (failCount l)) (failed l)
    | _ => MkLocker (LockedKey l) (holderKey l) (leaseID l) Idle true 0 (failed l)
    end
  else
    match err with
    | None => MkLocker (LockedKey l) (holderKey l) (leaseID l) Idle true 0 (failed l)
    | Some _ => l
    end.

(** The start of [tryLock]; [ok]: the lease is granted. *)
Definition tryLock (key : string) (ok : bool) (e : etcd) (l : EtcdLocker) : etcd * EtcdLocker :=
  let begin (l : EtcdLocker) :=
    MkLocker (LockedKey l) (holder_key key (leaseID l)) (leaseID l) (AtTxn key) (keeper l) (failCount l) (failed l) in
  if leaseID l =? NoLease
  then
    if ok then let '(id, e) := grant e in (e, begin (with_lease id l)) else (e, finish (Some ErrCall) l)
  else (e, begin l).

(** The transaction puts the holder key unless it is there under a lease. *)
Definition txn_apply (l : EtcdLocker) (e : etcd) : etcd :=
  if from_option l_lease NoLease (kvs e !! holderKey l) =? NoLease then put (holderKey l) (leaseID l) e else e.

(** The revision of the holder key: that of the transaction when it put the key,
    otherwise the one the key was created at. *)
Definition my_revision (l : EtcdLocker) (before e : etcd) : Z :=
  if from_option l_lease NoLease (kvs before !! holderKey l) =? NoLease then rev e
  else from_option l_create 0 (kvs e !! holderKey l).

(** What the answer of the transaction means for the key. *)
Definition verdict (key : string) (l : EtcdLocker) (before e : etcd) : option lock_error :=
  let myRevision := my_revision l before e in
  match by_creation key e with
  | first :: holders =>
      if negb (bool_decide (first.1 = key)) then Some ErrNoKeyCanBeFound
      else
        match holders with
        | second :: _ => if negb (l_create second.2 =? myRevision) then Some ErrNoKeyCanBeLocked else None
        | [] => None
        end
  | [] => Some ErrNoKeyCanBeFound
  end.

(** [ok]: the call succeeds, [applied]: a call that fails took effect;
    [callback]: [LockCallback] succeeds. *)
Definition txn_step (ok applied callback : bool) (e : etcd) (l : EtcdLocker) : etcd * EtcdLocker :=
  match l_pc l with
  | AtTxn key =>
      if ok
      then
        let before := e in
        let e := txn_apply l e in
        match verdict key l before e with
        | Some err => (e, at_pc (AtRevoke err) l)
        | None =>
            let l := MkLocker key (holderKey l) (leaseID l) (l_pc l) (keeper l) (failCount l) (failed l) in
            (e, if callback then finish None l else at_pc (AtRevoke ErrCallback) l)
        end
      else (if applied then txn_apply l e else e, at_pc (AtRevoke ErrCall) l)
  | _ => (e, l)
  end.

(** The deferred function of [tryLock]. *)
Definition cleanup_step (az : string) (applied : bool) (e : etcd) (l : EtcdLocker) : etcd * EtcdLocker :=
  match l_pc l with
  | AtRevoke err =>
      (if applied then revoke (leaseID l) e else e, at_pc (AtDelete err) (with_lease NoLease l))
  | AtDelete err =>
      (if applied then del (AttachAZPrefix az (holderKey l)) e else e, finish (Some err) l)
  | _ => (e, l)
  end.

Definition Unlock (az : string) (applied : bool) (e : etcd) (l : EtcdLocker) : etcd * EtcdLocker :=
  (if applied then del (AttachAZPrefix az (holderKey l)) e else e,
   MkLocker "" "" NoLease Idle false (failCount l) (failed l)).

(** A tick of [lockKeeperLoop]; [get] and [alive]: the read of the locked key
    and the refresh of the lease succeed. *)
Definition keeper_tick (az : string) (granted get alive applied : bool) (e : etcd) (l : EtcdLocker) : etcd * EtcdLocker :=
  if negb (keeper l) then (e, l)
  else if leaseID l =? NoLease then tryLock (LockedKey l) granted e l
  else if negb get then (e, with_lease NoLease l)
  else
    match kvs e !! AttachAZPrefix az (LockedKey l) with
    | None =>
        let '(e, l) := Unlock az applied e l in
        (e, MkLocker (LockedKey l) (holderKey l) (leaseID l) Idle false (failCount l) true)
    | Some _ => (e, if alive then l else with_lease NoLease l)
    end.

Record system := MkSystem { store : etcd; lockers : list EtcdLocker }.

Inductive event :=
| TryLock (i : nat) (key : string) (granted : bool)
| TxnStep (i : nat) (ok applied callback : bool)
| CleanupStep (i : nat) (applied : bool)
| UnlockCall (i : nat) (applied : bool)
| KeeperTick (i : nat) (granted get alive applied : bool)
| Expire (lease : Z)            (* etcd drops a lease that was not refreshed *)
| ControlPut (k : string)       (* the control plane *)
| ControlDelete (k : string).

Definition idle (l : EtcdLocker) : bool := match l_pc l with Idle => true | _ => false end.

Definition on_locker (i : nat) (f : etcd → EtcdLocker → etcd * EtcdLocker) (s : system) : system :=
  match lockers s !! i with
  | Some l => let '(e, l) := f (store s) l in MkSystem e (<[i := l]> (lockers s))
  | None => s
  end.

Definition step (az : string) (s : system) (ev : event) : system :=
  match ev with
  | TryLock i key granted =>
      on_locker i (λ e l, if idle l && negb (keeper l) then tryLock key granted e l else (e, l)) s
  | TxnStep i ok applied callback => on_locker i (txn_step ok applied callback) s
  | CleanupStep i applied => on_locker i (cleanup_step az applied) s
  | UnlockCall i applied => on_locker i (λ e l, if idle l then Unlock az applied e l else (e, l)) s
  | KeeperTick i granted get alive applied =>
      on_locker i (λ e l, if idle l then keeper_tick az granted get alive applied e l else (e, l)) s
  | Expire lease => MkSystem (revoke lease (store s)) (lockers s)
  | ControlPut k => MkSystem (put k NoLease (store s)) (lockers s)
  | ControlDelete k => MkSystem (del k (store s)) (lockers s)
  end.

Definition start (n : nat) : system := MkSystem (MkEtcd ∅ 0 0) (replicate n new_locker).
Definition run (az : string) (n : nat) (evs : list event) : system := foldl (step az) (start n) evs.

(** [TryLockWithPrefix]: the keys under the prefix in their order, skipping the
    filtered ones, until [try_] locks one. *)
Fixpoint try_keys (filter_ : string → bool) (try_ : string → option lock_error) (keys : list string) (last : option lock_error) :
    option lock_error :=
  match keys with
  | [] => Some (default ErrNoKeyCanBeLocked last)
  | k :: keys =>
      if filter_ k then try_keys filter_ try_ keys (Some ErrNoKeyCanBeLocked)
      else match try_ k with None => None | Some err => try_keys filter_ try_ keys (Some err) end
  end.

Definition TryLockWithPrefix (filter_ : string → bool) (try_ : string → option lock_error) (keys : option (list string)) :
    option lock_error :=
  match keys with
  | None => Some ErrCall
  | Some [] => Some ErrNoKeyCanBeLocked
  | Some keys => try_keys filter_ try_ keys None
  end.

(** * Properties

    Locks on keys of etcd exclude each other, and a free key can be locked. *)


Local Open Scope list_scope.
Local Open Scope nat_scope.

(** * Keys by creation *)

#[local] Instance created_le_total : Total created_le.
Proof. intros a b. unfold created_le. lia. Qed.
#[local] Instance created_le_trans : Transitive created_le.
Proof. intros a b c. unfold created_le. lia. Qed.

Lemma by_creation_sorted p e : StronglySorted created_le (by_creation p e).
Proof. apply (StronglySorted_merge_sort created_le). Qed.

Lemma elem_by_creation p e k v : (k, v) ∈ by_creation p e ↔ HasPrefix k p = true ∧ kvs e !! k = Some v.
Proof.
  unfold by_creation. rewrite (merge_sort_Permutation created_le), list_elem_of_filter, elem_of_map_to_list. done.
Qed.

Lemma holder_prefix key lease : HasPrefix (holder_key key lease) key = true.
Proof. apply HasPrefix_app. Qed.

Lemma holder_not_key key lease : holder_key key lease ≠ key.
Proof.
  intros E. apply (f_equal String.length) in E. unfold holder_key in E. rewrite !length_app_str in E. cbn in E. lia.
Qed.

(** A verdict in favour: the holder key is the oldest below the key. *)
Lemma verdict_oldest key l before e v :
  verdict key l before e = None → kvs e !! holderKey l = Some v → (l_create v ≤ rev e)%Z →
  ∀ k' v', HasPrefix k' key = true → k' ≠ key → kvs e !! k' = Some v' → (l_create v ≤ l_create v')%Z.
Proof.
  intros Hv Hh Hr k' v' Hp Hk Hk'. unfold verdict in Hv.
  assert (l_create v ≤ my_revision l before e)%Z as Hm by (unfold my_revision; rewrite Hh; case_goal; cbn; lia).
  pose proof (by_creation_sorted key e) as Hs.
  assert ((k', v') ∈ by_creation key e) as Hin by by apply elem_by_creation.
  destruct (by_creation key e) as [|first holders]; [done|].
  case_bool_decide as Ef; [|done]. cbn in Hv. apply elem_of_cons in Hin as [E|Hin]; [by rewrite <- E in Ef|].
  destruct holders as [|second holders]; [by apply elem_of_nil in Hin|].
  destruct (l_create second.2 =? my_revision l before e)%Z eqn:E; [|done]. apply Z.eqb_eq in E. rewrite <- E in Hm. etrans; [exact Hm|].
  apply elem_of_cons in Hin as [<-|Hin]; [done|].
  inversion Hs as [|? ? Hs' _]; subst. inversion Hs' as [|? ? _ Hall]; subst.
  rewrite Forall_forall in Hall. exact (Hall _ Hin).
Qed.

(** A key with nothing below it but the holder key is locked. *)
Lemma verdict_free key l before e vk v :
  my_revision l before e = l_create v → kvs e !! key = Some vk → kvs e !! holderKey l = Some v → holderKey l ≠ key → (l_create vk < l_create v)%Z →
  (∀ k', is_Some (kvs e !! k') → HasPrefix k' key = true → k' = key ∨ k' = holderKey l) → verdict key l before e = None.
Proof.
  intros Hm Hk Hh Hne Hlt Hall. unfold verdict. rewrite Hm. cbn.
  pose proof (by_creation_sorted key e) as Hs.
  assert (NoDup (by_creation key e).*1) as Hnd.
  { unfold by_creation. rewrite (merge_sort_Permutation created_le).
    eapply sublist_NoDup; [apply (NoDup_fst_map_to_list (kvs e))|]. apply fmap_filter_sublist. }
  assert ((key, vk) ∈ by_creation key e) as Hin
    by (apply elem_by_creation; split; [apply HasPrefix_spec; exists ""%string; by rewrite app_nil_r_str|done]).
  destruct (by_creation key e) as [|[k1 v1] holders] eqn:Eb; [by apply elem_of_nil in Hin|].
  assert (∀ k w, (k, w) ∈ (k1, v1) :: holders → (k = key ∧ w = vk) ∨ (k = holderKey l ∧ w = v)) as Hel.
  { intros k w Hw. rewrite <- Eb in Hw. apply elem_by_creation in Hw as [Hp Hw].
    destruct (Hall k) as [->| ->]; [eauto|done|left|right]; split; congruence. }
  assert (k1 = key) as ->.
  { destruct (Hel k1 v1) as [[-> _]|[-> ->]]; [by left|done|]. exfalso.
    apply elem_of_cons in Hin as [[= E _]|Hin]; [done|]. inversion Hs as [|? ? _ Hf]; subst.
    rewrite Forall_forall in Hf. specialize (Hf _ Hin). unfold created_le in Hf. cbn in Hf. lia. }
  rewrite bool_decide_true by done. cbn. destruct holders as [|[k2 v2] holders]; [done|].
  destruct (Hel k2 v2) as [[-> _]|[-> ->]]; [right; left| |cbn; by rewrite Z.eqb_refl].
  cbn in Hnd. apply NoDup_cons in Hnd as [Hn _]. exfalso. apply Hn. left.
Qed.

(** * The invariant *)

(** The holder key of a locker that has a lease is the oldest below its key. *)
Definition held (e : etcd) (l : EtcdLocker) : Prop :=
  holderKey l = holder_key (LockedKey l) (leaseID l) ∧
  ∀ v, kvs e !! holderKey l = Some v → l_lease v = leaseID l →
  ∀ k' v', HasPrefix k' (LockedKey l) = true → k' ≠ LockedKey l → kvs e !! k' = Some v' → (l_create v ≤ l_create v')%Z.

Record etcd_ok (e : etcd) : Prop := {
  ok_rev : ∀ k v, kvs e !! k = Some v → (l_create v ≤ rev e)%Z;
  ok_unique : ∀ k k' v v', kvs e !! k = Some v → kvs e !! k' = Some v' → l_create v = l_create v' → k = k' }.

Record lock_inv (s : system) : Prop := {
  li_etcd : etcd_ok (store s);
  li_lease : ∀ i l, lockers s !! i = Some l → (0 ≤ leaseID l ≤ last_lease (store s))%Z;
  li_distinct : ∀ i j l l', lockers s !! i = Some l → lockers s !! j = Some l' → leaseID l ≠ NoLease → leaseID l = leaseID l' → i = j;
  li_held : ∀ i l, lockers s !! i = Some l → l_pc l = Idle → leaseID l ≠ NoLease → held (store s) l;
  li_txn : ∀ i l key, lockers s !! i = Some l → l_pc l = AtTxn key → leaseID l ≠ NoLease ∧ holderKey l = holder_key key (leaseID l);
  li_delete : ∀ i l err, lockers s !! i = Some l → l_pc l = AtDelete err → leaseID l = NoLease }.

Lemma put_ok k lease e : etcd_ok e → etcd_ok (put k lease e).
Proof.
  intros [H1 H2]. split; cbn.
  - intros k' v. rewrite lookup_insert_Some. intros [[<- <-]|[_ H]]; [|specialize (H1 k' v H); lia].
    cbn. destruct (kvs e !! k) as [w|] eqn:E; cbn; [specialize (H1 k w E)|]; lia.
  - intros k1 k2 v1 v2. rewrite !lookup_insert_Some. intros [[<- <-]|[N1 E1]] [[<- <-]|[N2 E2]]; cbn; [done|..|eauto];
      destruct (kvs e !! k) as [w|] eqn:E; cbn; intros Hc.
    + by apply (H2 k k2 w v2).
    + specialize (H1 _ _ E2). lia.
    + by apply (H2 k1 k v1 w).
    + specialize (H1 _ _ E1). lia.
Qed.

Lemma sub_ok e e' : kvs e' ⊆ kvs e → (rev e ≤ rev e')%Z → etcd_ok e → etcd_ok e'.
Proof.
  intros Hs Hr [H1 H2]. split.
  - intros k v H. specialize (H1 k v (lookup_weaken _ _ _ _ H Hs)). lia.
  - intros k k' v v' H H'. apply (H2 k k' v v'); by eapply lookup_weaken.
Qed.

Lemma held_put k lease e l : etcd_ok e → lease ≠ leaseID l → held e l → held (put k lease e) l.
Proof.
  intros [H1 _] Hl [H0 H]. split; [done|]. intros v Hv Hlv k' v' Hp Hn Hk'. cbn in Hv, Hk'. apply lookup_insert_Some in Hv as [[-> <-]|[Hne Hv]]; [done|].
  specialize (H v Hv Hlv). apply lookup_insert_Some in Hk' as [[<- <-]|[_ Hk']]; [|by apply (H k')].
  cbn. destruct (kvs e !! k) as [w|] eqn:E; cbn; [by apply (H k w)|]. specialize (H1 _ _ Hv). lia.
Qed.

Lemma held_sub e e' l : kvs e' ⊆ kvs e → held e l → held e' l.
Proof.
  intros Hs [H0 H]. split; [done|]. intros v Hv Hl k' v' Hp Hn Hk'. apply (H v) with k'; try done; by eapply lookup_weaken.
Qed.

(** What one locker does, as far as the others are concerned. *)
Record local (e : etcd) (l : EtcdLocker) (e' : etcd) (l' : EtcdLocker) : Prop := {
  lo_etcd : etcd_ok e';
  lo_last : (last_lease e ≤ last_lease e')%Z;
  lo_others : ∀ l2, leaseID l2 ≠ NoLease → leaseID l2 ≠ leaseID l → held e l2 → held e' l2;
  lo_lease : leaseID l' = leaseID l ∨ leaseID l' = NoLease ∨ (leaseID l' = last_lease e + 1 ∧ last_lease e' = last_lease e + 1)%Z;
  lo_held : l_pc l' = Idle → leaseID l' ≠ NoLease → held e' l';
  lo_txn : ∀ key, l_pc l' = AtTxn key → leaseID l' ≠ NoLease ∧ holderKey l' = holder_key key (leaseID l');
  lo_delete : ∀ err, l_pc l' = AtDelete err → leaseID l' = NoLease }.

(** A locker of a system that satisfies the invariant. *)
Record one (e : etcd) (l : EtcdLocker) : Prop := {
  one_etcd : etcd_ok e;
  one_lease : (0 ≤ leaseID l ≤ last_lease e)%Z;
  one_held : l_pc l = Idle → leaseID l ≠ NoLease → held e l;
  one_txn : ∀ key, l_pc l = AtTxn key → leaseID l ≠ NoLease ∧ holderKey l = holder_key key (leaseID l);
  one_delete : ∀ err, l_pc l = AtDelete err → leaseID l = NoLease }.

Lemma local_refl e l : one e l → local e l e l.
Proof. intros []. split; auto. lia. Qed.

Lemma inv_on_locker i f s :
  lock_inv s → (∀ l, one (store s) l → let '(e', l') := f (store s) l in local (store s) l e' l') → lock_inv (on_locker i f s).
Proof.
  intros [I1 I2 I3 I4 I5 I6] Hf. unfold on_locker. destruct (lockers s !! i) as [l|] eqn:El; [|by split].
  assert (one (store s) l) as Ho by (split; eauto). specialize (Hf l Ho). destruct (f (store s) l) as [e' l'].
  destruct Hf as [F1 F2 F3 F4 F5 F6 F7].
  assert (∀ j x, <[i:=l']> (lockers s) !! j = Some x → (j = i ∧ x = l') ∨ (j ≠ i ∧ lockers s !! j = Some x)) as Hc
    by (intros j x [(-> & <- & _)|[? ?]]%list_lookup_insert_Some; auto).
  assert (∀ j x, j ≠ i → lockers s !! j = Some x → leaseID x ≠ NoLease → leaseID x ≠ leaseID l) as Hd.
  { intros j x Hj Hx Hn E. apply Hj. by apply (I3 j i x l). }
  split; cbn.
  - done.
  - intros j x [[-> ->]|[_ Hx]]%Hc; [|specialize (I2 j x Hx); lia]. pose proof (one_lease _ _ Ho). unfold NoLease in *. lia.
  - intros j k x y [[-> ->]|[Hj Hx]]%Hc [[-> ->]|[Hk Hy]]%Hc Hn E; [done|..|by apply (I3 j k x y)].
    + exfalso. specialize (I2 k y Hy) as Hb. destruct F4 as [F4|[F4|[F4 _]]]; [|done|lia].
      apply (Hd k y Hk Hy); congruence.
    + exfalso. specialize (I2 j x Hx) as Hb. destruct F4 as [F4|[F4|[F4 _]]]; [|congruence|lia].
      apply (Hd j x Hj Hx); congruence.
  - intros j x [[-> ->]|[Hj Hx]]%Hc Hp Hn; [by apply F5|]. apply F3; [done|by apply (Hd j)|by eapply I4].
  - intros j x key [[-> ->]|[_ Hx]]%Hc; [apply F6|by apply (I5 j)].
  - intros j x err [[-> ->]|[_ Hx]]%Hc; [apply F7|by apply (I6 j)].
Qed.

Lemma finish_fields err l :
  let l' := finish err l in
  l_pc l' = Idle ∧ leaseID l' = leaseID l ∧ holderKey l' = holderKey l ∧ LockedKey l' = LockedKey l.
Proof. unfold finish. destruct (keeper _), err as [[]|]; cbn; try done; by case_goal. Qed.

Lemma local_quiet e l l' :
  one e l → leaseID l' = NoLease → l_pc l' = Idle ∨ (∃ err, l_pc l' = AtDelete err) → local e l e l'.
Proof.
  intros [] Hn Hp. split; auto; try lia; try congruence. intros key Hk. destruct Hp as [E|[err E]]; congruence.
Qed.

Lemma tryLock_local key ok e l : one e l → let '(e', l') := tryLock key ok e l in local e l e' l'.
Proof.
  intros Ho. unfold tryLock. destruct (leaseID l =? NoLease)%Z eqn:E.
  - apply Z.eqb_eq in E. destruct ok.
    + cbn. destruct Ho as [O1 O2 O3 O4 O5]. split; cbn; try done; try lia; auto.
      * destruct O1. by split.
      * intros key' [= <-]. unfold NoLease in *. split; [lia|done].
    + destruct (finish_fields (Some ErrCall) l) as (F1 & F2 & _). apply local_quiet; [done|congruence|auto].
  - apply Z.eqb_neq in E. destruct Ho as [O1 O2 O3 O4 O5]. split; cbn; try done; try lia; auto.
    by intros key' [= <-].
Qed.

Lemma txn_apply_frame l e :
  etcd_ok e → etcd_ok (txn_apply l e) ∧ last_lease (txn_apply l e) = last_lease e ∧
  (∀ l2, leaseID l2 ≠ leaseID l → held e l2 → held (txn_apply l e) l2) ∧
  is_Some (kvs (txn_apply l e) !! holderKey l).
Proof.
  intros He. unfold txn_apply. case_goal.
  - split; [by apply put_ok|]. split; [done|]. split; [intros l2 Hn; apply held_put; [done|congruence]|].
    cbn. rewrite lookup_insert_eq. eauto.
  - split; [done|]. split; [done|]. split; [done|]. destruct (kvs e !! holderKey l); [eauto|done].
Qed.

Lemma txn_step_local ok applied callback e l : one e l → let '(e', l') := txn_step ok applied callback e l in local e l e' l'.
Proof.
  intros Ho. unfold txn_step. destruct (l_pc l) as [|key|err|err] eqn:Ep; try by apply local_refl.
  destruct Ho as [O1 O2 O3 O4 O5]. destruct (txn_apply_frame l e O1) as (T1 & T2 & T3 & T4). destruct (O4 key Ep) as [O6 O7].
  destruct ok.
  - destruct (verdict key l e (txn_apply l e)) as [err|] eqn:Ev.
    + split; cbn; try done; try lia; auto.
    + destruct callback.
      * set (l1 := MkLocker key _ _ _ _ _ _). destruct (finish_fields None l1) as (F1 & F2 & F3 & F4).
        split; try done; try lia; auto; rewrite ?F1, ?F2; cbn; auto; try done.
        intros _ _. split; [by rewrite F2, F3, F4|]. intros v Hv _ k' v'. rewrite F3 in Hv. rewrite F4. cbn in Hv |- *.
        apply (verdict_oldest key l e _ v Ev); [done|by eapply ok_rev].
      * split; cbn; try done; try lia; auto.
  - destruct applied; split; cbn; try done; try lia; auto.
Qed.

Lemma del_sub k e : kvs (del k e) ⊆ kvs e.
Proof. apply delete_subseteq. Qed.
Lemma revoke_sub lease e : kvs (revoke lease e) ⊆ kvs e.
Proof. apply map_filter_subseteq. Qed.

(** A step that only removes keys and gives the lease up. *)
Lemma local_remove e l e' l' :
  one e l → kvs e' ⊆ kvs e → (rev e ≤ rev e')%Z → last_lease e' = last_lease e → leaseID l' = NoLease →
  l_pc l' = Idle ∨ (∃ err, l_pc l' = AtDelete err) → local e l e' l'.
Proof.
  intros [O1 O2 O3 O4 O5] Hs Hr Hl Hn Hp. split; auto; try congruence; try lia.
  - by eapply sub_ok.
  - intros l2 _ _. by apply held_sub.
  - intros key Hk. destruct Hp as [E|[err E]]; congruence.
Qed.

Lemma applied_sub (b : bool) (f : etcd → etcd) e :
  kvs (f e) ⊆ kvs e → (rev e ≤ rev (f e))%Z → last_lease (f e) = last_lease e →
  let e' := if b then f e else e in kvs e' ⊆ kvs e ∧ (rev e ≤ rev e')%Z ∧ last_lease e' = last_lease e.
Proof. intros. by destruct b. Qed.

Lemma cleanup_local az applied e l : one e l → let '(e', l') := cleanup_step az applied e l in local e l e' l'.
Proof.
  intros Ho. unfold cleanup_step. destruct (l_pc l) as [|key|err|err] eqn:Ep; try by apply local_refl.
  - destruct (applied_sub applied (revoke (leaseID l)) e) as (H1 & H2 & H3); [apply revoke_sub|cbn; lia|done|].
    apply local_remove; try done. right. eauto.
  - destruct (applied_sub applied (del (AttachAZPrefix az (holderKey l))) e) as (H1 & H2 & H3); [apply del_sub|cbn; lia|done|].
    destruct (finish_fields (Some err) l) as (F1 & F2 & _). apply local_remove; try done; [|auto].
    rewrite F2. by eapply one_delete.
Qed.

Lemma Unlock_local az applied e l : one e l → let '(e', l') := Unlock az applied e l in local e l e' l'.
Proof.
  intros Ho. unfold Unlock.
  destruct (applied_sub applied (del (AttachAZPrefix az (holderKey l))) e) as (H1 & H2 & H3); [apply del_sub|cbn; lia|done|].
  apply local_remove; try done. auto.
Qed.

Lemma keeper_local az granted get alive applied e l :
  one e l → idle l = true → let '(e', l') := keeper_tick az granted get alive applied e l in local e l e' l'.
Proof.
  intros Ho Hi. assert (l_pc l = Idle) as Hp by (unfold idle in Hi; by destruct (l_pc l)).
  unfold keeper_tick. destruct (keeper l); [|by apply local_refl]. cbn [negb].
  destruct (leaseID l =? NoLease)%Z; [by apply tryLock_local|].
  destruct get; cbn [negb]; [|by apply local_quiet; auto].
  destruct (kvs e !! _); [destruct alive; [by apply local_refl|by apply local_quiet; auto]|].
  unfold Unlock.
  destruct (applied_sub applied (del (AttachAZPrefix az (holderKey l))) e) as (H1 & H2 & H3); [apply del_sub|cbn; lia|done|].
  apply local_remove; try done. auto.
Qed.

(** A change of the store that the lockers do not make. *)
Lemma inv_store s e' :
  lock_inv s → etcd_ok e' → last_lease e' = last_lease (store s) →
  (∀ l, leaseID l ≠ NoLease → held (store s) l → held e' l) → lock_inv (MkSystem e' (lockers s)).
Proof. intros [I1 I2 I3 I4 I5 I6] He Hl Hh. split; cbn; eauto. intros i l H. rewrite Hl. eauto. Qed.

Lemma lock_inv_step az s ev : lock_inv s → lock_inv (step az s ev).
Proof.
  intros Hs. destruct ev as [i key g|i ok a cb|i a|i a|i g gt al a|lease|k|k]; cbn.
  - apply inv_on_locker; [done|]. intros l Ho. destruct (idle l && negb (keeper l)); [by apply tryLock_local|by apply local_refl].
  - apply inv_on_locker; [done|]. intros l Ho. by apply txn_step_local.
  - apply inv_on_locker; [done|]. intros l Ho. by apply cleanup_local.
  - apply inv_on_locker; [done|]. intros l Ho. destruct (idle l); [by apply Unlock_local|by apply local_refl].
  - apply inv_on_locker; [done|]. intros l Ho. destruct (idle l) eqn:E; [by apply keeper_local|by apply local_refl].
  - apply inv_store; [done| |done|].
    + eapply sub_ok; [apply revoke_sub|cbn; lia|apply Hs].
    + intros l _. apply held_sub, revoke_sub.
  - apply inv_store; [done|by apply put_ok, Hs|done|]. intros l Hl. apply held_put; [apply Hs|congruence].
  - apply inv_store; [done| |done|].
    + eapply sub_ok; [apply del_sub|cbn; lia|apply Hs].
    + intros l _. apply held_sub, del_sub.
Qed.

Lemma lock_inv_run az n evs : lock_inv (run az n evs).
Proof.
  unfold run. apply foldl_inv; [intros s ev _; apply lock_inv_step|]. split; cbn.
  - split; cbn; intros *; by rewrite lookup_empty.
  - by intros i l [-> _]%lookup_replicate.
  - by intros i j l l' [-> _]%lookup_replicate.
  - by intros i l [-> _]%lookup_replicate.
  - by intros i l key [-> _]%lookup_replicate.
  - by intros i l err [-> _]%lookup_replicate.
Qed.

(** A locker holds a key: it was told so, it has a lease, and its holder key is
    in etcd under that lease. *)
Definition holding (s : system) (i : nat) (key : string) : Prop :=
  ∃ l v, lockers s !! i = Some l ∧ l_pc l = Idle ∧ LockedKey l = key ∧ leaseID l ≠ NoLease ∧
         kvs (store s) !! holderKey l = Some v ∧ l_lease v = leaseID l.

(** C14. Locks exclude each other: in every interleaving of lockers, their keepers,
    lease expiries and writes of the control plane, with calls to etcd that
    fail before or after they took effect, at most one locker holds a key. *)
Theorem lock_exclusive az n evs i j key :
  holding (run az n evs) i key → holding (run az n evs) j key → i = j.
Proof.
  intros (l & v & Hl & Hp & <- & Hn & Hk & Hv) (l' & v' & Hl' & Hp' & E & Hn' & Hk' & Hv').
  pose proof (lock_inv_run az n evs) as Hs.
  destruct (li_held _ Hs i l Hl Hp Hn) as [Hh H]. specialize (H v Hk Hv).
  destruct (li_held _ Hs j l' Hl' Hp' Hn') as [Hh' H']. specialize (H' v' Hk' Hv'). rewrite E in H', Hh'.
  assert (l_create v ≤ l_create v')%Z as H1.
  { apply (H (holderKey l')); [|..|done]; rewrite Hh'; [apply holder_prefix|apply holder_not_key]. }
  assert (l_create v' ≤ l_create v)%Z as H2.
  { apply (H' (holderKey l)); [|..|done]; rewrite Hh; [apply holder_prefix|apply holder_not_key]. }
  pose proof (ok_unique _ (li_etcd _ Hs) _ _ v v' Hk Hk' ltac:(lia)) as Ek. rewrite <- Ek in Hk'.
  assert (v = v') as <- by congruence. apply (li_distinct _ Hs i j l l'); try done. congruence.
Qed.

(** The two steps of a locker on a free key, from any state of the invariant. *)
Lemma lock_free s az i l key vk :
  lock_inv s → lockers s !! i = Some l → l_pc l = Idle → keeper l = false →
  kvs (store s) !! key = Some vk → (∀ k', is_Some (kvs (store s) !! k') → HasPrefix k' key = true → k' = key) →
  holding (step az (step az s (TryLock i key true)) (TxnStep i true true true)) i key.
Proof.
  intros Hs Hl Hp Hk Hkey Hall. pose proof (li_lease _ Hs i l Hl) as Hb.
  set (lease := if (leaseID l =? NoLease)%Z then (last_lease (store s) + 1)%Z else leaseID l).
  assert (lease ≠ NoLease) as Hn by (unfold lease, NoLease in *; case_goal; breflect; lia).
  set (h := holder_key key lease).
  assert (kvs (store s) !! h = None) as Hh.
  { destruct (kvs (store s) !! h) eqn:E; [|done]. exfalso.
    apply (holder_not_key key lease), Hall; [fold h; rewrite E; eauto|apply holder_prefix]. }
  assert (∃ e1, step az s (TryLock i key true) =
    MkSystem e1 (<[i := MkLocker (LockedKey l) h lease (AtTxn key) false (failCount l) (failed l)]> (lockers s)) ∧
    kvs e1 = kvs (store s) ∧ rev e1 = rev (store s)) as (e1 & -> & E1 & E2).
  { cbn. unfold on_locker. rewrite Hl. unfold idle. rewrite Hp, Hk. cbn [negb andb]. unfold tryLock, grant.
    unfold h, lease. destruct (leaseID l =? NoLease)%Z; cbn; rewrite Hk; eexists; split; done. }
  cbn. unfold on_locker. cbn. rewrite list_lookup_insert_eq by by eapply lookup_lt_Some.
  cbn. unfold txn_apply. cbn [holderKey leaseID]. rewrite E1, Hh. cbn [from_option]. rewrite Z.eqb_refl.
  set (l1 := MkLocker _ h lease _ _ _ _). set (e2 := put h lease e1).
  assert (kvs e2 = <[h := MkHeld (rev (store s) + 1) lease]> (kvs (store s))) as Ek
    by (unfold e2, put; cbn; by rewrite E1, E2, Hh).
  rewrite (verdict_free key l1 e1 e2 vk (MkHeld (rev (store s) + 1) lease)).
  - exists (MkLocker key h lease Idle true 0 (failed l)), (MkHeld (rev (store s) + 1) lease). cbn.
    rewrite list_lookup_insert_eq by (rewrite length_insert; by eapply lookup_lt_Some).
    repeat split; try done. etrans; [exact (f_equal (lookup h) Ek)|]. by rewrite lookup_insert_eq.
  - unfold my_revision. cbn [holderKey l1]. rewrite E1, Hh. cbn [from_option]. rewrite Z.eqb_refl. cbn. by rewrite E2.
  - rewrite Ek, lookup_insert_ne; [done|]. apply holder_not_key.
  - rewrite Ek. cbn. by rewrite lookup_insert_eq.
  - apply holder_not_key.
  - cbn. pose proof (ok_rev _ (li_etcd _ Hs) key vk Hkey). lia.
  - intros k' Hk' Hpre. rewrite Ek in Hk'. destruct (decide (k' = h)) as [->|Hne]; [by right|]. left.
    rewrite lookup_insert_ne in Hk' by done. by apply Hall.
Qed.

(** A free key is locked: in every reachable state, when a key is in etcd and
    nothing else is below it, an unused locker whose calls succeed holds the
    key after its transaction. *)
Theorem free_key_is_locked az n evs i l key vk :
  let s := run az n evs in
  lockers s !! i = Some l → l_pc l = Idle → keeper l = false →
  kvs (store s) !! key = Some vk → (∀ k', is_Some (kvs (store s) !! k') → HasPrefix k' key = true → k' = key) →
  holding (run az n (evs ++ [TryLock i key true; TxnStep i true true true])) i key.
Proof.
  intros s Hl Hp Hk Hkey Hall. unfold run. rewrite foldl_app. cbn [foldl].
  by eapply (lock_free s az i l key vk); [apply lock_inv_run|..].
Qed.

(** * Examples *)

Local Open Scope string_scope.

Definition demo_lock (i : nat) (key : string) : list event := [TryLock i key true; TxnStep i true true true].

Lemma lock_exclusive_witness :
  holding (run "" 2 ([ControlPut "/id/1"] ++ demo_lock 0 "/id/1" ++ demo_lock 1 "/id/1")) 0 "/id/1" ∧
  ∀ j, holding (run "" 2 ([ControlPut "/id/1"] ++ demo_lock 0 "/id/1" ++ demo_lock 1 "/id/1")) j "/id/1" → j = 0.
Proof.
  assert (holding (run "" 2 ([ControlPut "/id/1"] ++ demo_lock 0 "/id/1" ++ demo_lock 1 "/id/1")) 0 "/id/1") as H.
  { exists (MkLocker "/id/1" "/id/1/1" 1 Idle true 0 false), (MkHeld 2 1). by repeat split; vm_compute. }
  split; [exact H|]. intros j Hj. exact (lock_exclusive "" 2 _ j 0 "/id/1" Hj H).
Defined.

Lemma free_key_is_locked_witness : holding (run "" 1 ([ControlPut "/id/1"] ++ demo_lock 0 "/id/1")) 0 "/id/1".
Proof.
  refine (free_key_is_locked "" 1 [ControlPut "/id/1"] 0 new_locker "/id/1" (MkHeld 1 0) _ _ _ _ _); try reflexivity.
  intros k' [v Hv] _. cbn in Hv. apply lookup_insert_Some in Hv as [[? _]|[_ Hv]]; [congruence|by rewrite lookup_empty in Hv].
Defined.

(** A key that is a prefix of another one cannot be locked once that one was
    created: its name is taken for a holder key. *)
Theorem sibling_key_blocks_lock :
  (l_pc <$> lockers (run "" 1 ([ControlPut "/id/1"; ControlPut "/id/10"] ++ demo_lock 0 "/id/1"))) = [AtRevoke ErrNoKeyCanBeLocked].
Proof. by vm_compute. Qed.

(** With a zone prefix the keeper reads the locked key and deletes the holder
    key under a name with the prefix twice: the first tick gives the lock up
    and leaves the holder key behind. *)
Theorem zone_prefix_loses_lock :
  let s := run "az1" 1 ([ControlPut "/az1/id/1"] ++ demo_lock 0 "/az1/id/1" ++ [KeeperTick 0 true true true true]) in
  (failed <$> lockers s) = [true] ∧ (LockedKey <$> lockers s) = [""] ∧ is_Some (kvs (store s) !! "/az1/id/1/1").
Proof. vm_compute. eauto. Qed.

(** A callback that fails leaves the name of the key in the locker. *)
Theorem failed_callback_keeps_key :
  let s := run "" 1 [ControlPut "/id/1"; TryLock 0 "/id/1" true; TxnStep 0 true true false; CleanupStep 0 true; CleanupStep 0 true] in
  (LockedKey <$> lockers s) = ["/id/1"] ∧ (keeper <$> lockers s) = [false] ∧ kvs (store s) !! "/id/1/1" = None.
Proof. by vm_compute. Qed.
