(* ===== verification/EtcdClient.v ===== *)
(** Package [etcd3], [client.go] and [instance_register.go]: the supervision of
    the connection to an etcd and the registration of an instance under a
    lease, with their theorems. *)
From stdpp Require Import base gmap list strings.
From S2P Require Import Prelude GoStrings EtcdWatcher EtcdLock.

Local Open Scope string_scope.
Local Open Scope Z_scope.

(** * The connection *)

(** [etcdTimer] of the code is a timer that, when it expires, runs a function
    on its own goroutine; stopping a timer that has expired has no effect. *)
Inductive timer := NoTimer | Armed | Expired.

Record EtcdClient := MkClient {
  etcdTimer : timer; running : nat;        (* expired timers whose function has not run yet *)
  etcdStatusAfterLostContact : bool; etcdStatusNow : bool;
  exited : bool;                           (* [clientExitCh] is closed *)
  abnormalContinuouslyTimes : Z;
  alarm2 : bool; alarm3 : bool;            (* the alarms that are up *)
  broadcasts : nat;                        (* on [cond] *)
  rebuilt : nat }.                         (* the client connections built by [restart] *)

Definition newClient : EtcdClient := MkClient NoTimer 0 true true false 0 false false 0 0.

(** [restarted]: the new client could be built. *)
Definition checkConnState (isAlarmEnable heartbeat restarted : bool) (c : EtcdClient) : EtcdClient :=
  if negb heartbeat
  then
    let '(t, n) :=
      match etcdTimer c with
      | NoTimer => (Armed, abnormalContinuouslyTimes c + 1)
      | t => (t, abnormalContinuouslyTimes c)
      end in
    MkClient t (running c) (etcdStatusAfterLostContact c) false true n
      (isAlarmEnable || alarm2 c) (alarm3 c) (broadcasts c) (if restarted then S (rebuilt c) else rebuilt c)
  else
    let a3 := if negb (etcdStatusAfterLostContact c) && isAlarmEnable then false else alarm3 c in
    let a2 := if (0 <? abnormalContinuouslyTimes c) && isAlarmEnable then false else alarm2 c in
    let n := if 0 <? abnormalContinuouslyTimes c then 0 else abnormalContinuouslyTimes c in
    let lost := match etcdTimer c with NoTimer => etcdStatusAfterLostContact c | _ => true end in
    let '(ex, b) := if etcdStatusNow c then (exited c, broadcasts c) else (false, S (broadcasts c)) in
    MkClient NoTimer (running c) lost true ex n a2 a3 b (rebuilt c).

(** The time of the timer is over, and its function runs. *)
Definition expire (c : EtcdClient) : EtcdClient :=
  match etcdTimer c with
  | Armed => MkClient Expired (S (running c)) (etcdStatusAfterLostContact c) (etcdStatusNow c) (exited c)
               (abnormalContinuouslyTimes c) (alarm2 c) (alarm3 c) (broadcasts c) (rebuilt c)
  | _ => c
  end.
Definition lost_contact (isAlarmEnable : bool) (c : EtcdClient) : EtcdClient :=
  match running c with
  | S n => MkClient (etcdTimer c) n false (etcdStatusNow c) (exited c)
             (abnormalContinuouslyTimes c) (alarm2 c) (isAlarmEnable || alarm3 c) (broadcasts c) (rebuilt c)
  | O => c
  end.

Inductive conn_event := Check_ (heartbeat restarted : bool) | TimerExpires | TimerRuns.

Definition conn_step (isAlarmEnable : bool) (c : EtcdClient) (ev : conn_event) : EtcdClient :=
  match ev with
  | Check_ hb rs => checkConnState isAlarmEnable hb rs c
  | TimerExpires => expire c
  | TimerRuns => lost_contact isAlarmEnable c
  end.
Definition conn_run (isAlarmEnable : bool) (evs : list conn_event) : EtcdClient := foldl (conn_step isAlarmEnable) newClient evs.

(** The heartbeats of a run, and how often one succeeds after one that failed. *)
Definition heartbeats (evs : list conn_event) : list bool :=
  omap (λ ev, match ev with Check_ hb _ => Some hb | _ => None end) evs.
Fixpoint recoveries (up : bool) (hs : list bool) : nat :=
  match hs with
  | [] => 0
  | h :: hs => (if h && negb up then 1 else 0) + recoveries h hs
  end.

Record conn_inv (isAlarmEnable : bool) (c : EtcdClient) : Prop := {
  ci_exit : exited c = negb (etcdStatusNow c);
  ci_alarm : isAlarmEnable = true → alarm2 c = negb (etcdStatusNow c);
  ci_times : abnormalContinuouslyTimes c = if etcdStatusNow c then 0 else 1;
  ci_timer : etcdTimer c = NoTimer ↔ etcdStatusNow c = true }.

Lemma check_inv b hb rs c : conn_inv b c → conn_inv b (checkConnState b hb rs c).
Proof.
  intros [I1 I2 I3 I4]. destruct c as [t r st now ex n a2 a3 bc rb]; cbn in *. unfold checkConnState.
  destruct hb, now; cbn in *; subst n ex.
  - assert (t = NoTimer) as -> by by apply I4. by split.
  - split; cbn; try done. by intros ->.
  - assert (t = NoTimer) as -> by by apply I4. split; cbn; try done. by intros ->.
  - destruct t; [by destruct I4 as [I4 _]; specialize (I4 eq_refl)|..]; split; cbn; try done; by intros ->.
Qed.

Lemma check_status b hb rs c :
  let c' := checkConnState b hb rs c in
  etcdStatusNow c' = hb ∧ broadcasts c' = (broadcasts c + (if hb && negb (etcdStatusNow c) then 1 else 0))%nat.
Proof.
  destruct c as [t r st now ex n a2 a3 bc rb]. unfold checkConnState. destruct hb, now, t; cbn; split; try done; lia.
Qed.

Lemma conn_inv_run b evs c : conn_inv b c → conn_inv b (foldl (conn_step b) c evs).
Proof.
  revert c; induction evs as [|ev evs IH]; intros c Hc; [done|]. apply IH. destruct ev; cbn; [by apply check_inv|..];
    destruct Hc as [I1 I2 I3 I4]; destruct c as [[] [|r] st now ex n a2 a3 bc rb]; cbn in *; split; cbn; done || naive_solver.
Qed.

Lemma conn_status b evs c :
  let c' := foldl (conn_step b) c evs in
  etcdStatusNow c' = default (etcdStatusNow c) (last (heartbeats evs)) ∧
  broadcasts c' = (broadcasts c + recoveries (etcdStatusNow c) (heartbeats evs))%nat.
Proof.
  revert c; induction evs as [|ev evs IH]; intros c; [cbn; split; [done|lia]|]. cbn [foldl].
  destruct (IH (conn_step b c ev)) as [-> ->]. destruct ev as [hb rs| |]; cbn [conn_step heartbeats omap list_omap].
  - destruct (check_status b hb rs c) as [-> ->]. change (omap _ evs) with (heartbeats evs). cbn [recoveries].
    rewrite last_cons. split; [by destruct (last _)|lia].
  - change (omap _ evs) with (heartbeats evs). unfold expire. by destruct (etcdTimer c).
  - change (omap _ evs) with (heartbeats evs). unfold lost_contact. by destruct (running c).
Qed.

(** The supervision follows the heartbeats: after any checks and timers the
    status is that of the last heartbeat, the channel that ends the watches is
    closed and the major alarm is up exactly while heartbeats fail, and the
    watchers were woken once for every recovery. *)
Theorem connection_follows_heartbeats isAlarmEnable evs :
  let c := conn_run isAlarmEnable evs in
  etcdStatusNow c = default true (last (heartbeats evs)) ∧
  exited c = negb (etcdStatusNow c) ∧
  (isAlarmEnable = true → alarm2 c = negb (etcdStatusNow c)) ∧
  broadcasts c = recoveries true (heartbeats evs).
Proof.
  intros c. destruct (conn_status isAlarmEnable evs newClient) as [H1 H2].
  assert (conn_inv isAlarmEnable c) as [I1 I2 I3 I4] by by apply conn_inv_run.
  repeat split; try done.
Qed.

(** A timer that expires while a heartbeat succeeds: its function marks the
    contact as lost afterwards, and no later heartbeat corrects that. *)
Theorem late_timer_sticks b n :
  let c := conn_run b ([Check_ false true; TimerExpires; Check_ true true; TimerRuns] ++ replicate n (Check_ true true)) in
  etcdStatusNow c = true ∧ etcdStatusAfterLostContact c = false.
Proof.
  intros c. split; [|].
  - destruct (conn_status b ([Check_ false true; TimerExpires; Check_ true true; TimerRuns] ++ replicate n (Check_ true true)) newClient) as [H _].
    subst c. unfold conn_run. rewrite H. clear H. unfold heartbeats. rewrite omap_app.
    assert (omap (λ ev, match ev with Check_ hb _ => Some hb | _ => None end) (replicate n (Check_ true true)) = replicate n true) as ->
      by (induction n as [|n IH]; [done|]; cbn; by rewrite IH).
    rewrite last_app. cbn. destruct n; [done|]. by rewrite last_replicate_S || (induction n; done).
  - subst c. unfold conn_run. rewrite foldl_app. set (c0 := foldl _ newClient _).
    assert (∀ m c, etcdTimer c = NoTimer → etcdStatusAfterLostContact c = false →
      etcdStatusAfterLostContact (foldl (conn_step b) c (replicate m (Check_ true true))) = false) as Hm.
    { induction m as [|m IH]; intros c Ht Hl; [done|]. cbn. apply IH.
      - unfold checkConnState. cbn. by destruct (etcdStatusNow c).
      - unfold checkConnState. cbn. rewrite Ht. by destruct (etcdStatusNow c). }
    apply Hm; by destruct b.
Qed.

(** * The registration *)

Record EtcdRegister := MkRegister { InstanceKey : string; r_leaseID : Z }.

(** A call to etcd succeeds, fails, or fails after it took effect. *)
Inductive call := Succeeds | Fails | FailsAfter.
Definition ok (c : call) : bool := match c with Succeeds => true | _ => false end.
Definition takes_effect (c : call) : bool := match c with Fails => false | _ => true end.

Section register.
  Context (az : string).

Definition reg_key (r : EtcdRegister) : string := AttachAZPrefix az (InstanceKey r).

(** The result is whether it succeeded. *)
Definition putInstanceInfoToEtcd (g p : call) (e : etcd) (r : EtcdRegister) : bool * etcd * EtcdRegister :=
  let '(id, e) := if takes_effect g then grant e else (NoLease, e) in
  if negb (ok g) then (false, e, r)
  else
    let e := if takes_effect p then put (reg_key r) id e else e in
    if negb (ok p) then (false, e, r) else (true, e, MkRegister (InstanceKey r) id).

Definition isKeyExist (read : call) (e : etcd) (r : EtcdRegister) : bool :=
  ok read && bool_decide (is_Some (kvs e !! reg_key r)).

(** The refresh of the lease changes no key. *)
Definition refreshLease (read g p : call) (e : etcd) (r : EtcdRegister) : etcd * EtcdRegister :=
  if isKeyExist read e r then (e, r) else let '(_, e, r) := putInstanceInfoToEtcd g p e r in (e, r).

Definition stopLease (rv d : call) (e : etcd) (r : EtcdRegister) : etcd * EtcdRegister :=
  let e := if takes_effect rv then revoke (r_leaseID r) e else e in
  (if takes_effect d then del (reg_key r) e else e, r).

(** [usable]: the client is one of the two that may be registered with. *)
Definition Register (usable : bool) (g p : call) (e : etcd) (r : EtcdRegister) : bool * etcd * EtcdRegister :=
  if usable then putInstanceInfoToEtcd g p e r else (false, e, r).

Inductive reg_event :=
| Refresh (read g p : call)
| Stop (rv d : call)
| LeaseExpires (lease : Z)
| KeyDeleted.

Definition reg_step (s : etcd * EtcdRegister) (ev : reg_event) : etcd * EtcdRegister :=
  match ev with
  | Refresh read g p => refreshLease read g p s.1 s.2
  | Stop rv d => stopLease rv d s.1 s.2
  | LeaseExpires lease => (revoke lease s.1, s.2)
  | KeyDeleted => (del (reg_key s.2) s.1, s.2)
  end.

(** Calls that fail have no effect. *)
Definition clean (ev : reg_event) : Prop :=
  match ev with
  | Refresh read g p => g ≠ FailsAfter ∧ p ≠ FailsAfter
  | _ => True
  end.

(** The key of the registration, where it is, hangs on the lease that is refreshed. *)
Definition under_lease (s : etcd * EtcdRegister) : Prop :=
  ∀ v, kvs s.1 !! reg_key s.2 = Some v → l_lease v = r_leaseID s.2.

Lemma put_registers g p e r :
  g = Succeeds → p = Succeeds →
  let '(b, e', r') := putInstanceInfoToEtcd g p e r in b = true ∧ is_Some (kvs e' !! reg_key r') ∧ under_lease (e', r').
Proof.
  intros -> ->. unfold under_lease. cbn. split; [done|]. unfold reg_key; cbn. rewrite lookup_insert_eq. split; [eauto|].
  by intros v [= <-].
Qed.

Lemma under_lease_step s ev : clean ev → under_lease s → under_lease (reg_step s ev).
Proof.
  destruct s as [e r]. intros Hc Hu. destruct ev as [read g p|rv d|lease|]; cbn in *.
  - unfold refreshLease. case_goal; [done|]. destruct Hc as [Hg Hp]. destruct g; [|done|done].
    destruct p; [|done|done]. by destruct (put_registers Succeeds Succeeds e r eq_refl eq_refl) as (_ & _ & ?).
  - unfold under_lease in *. cbn. intros v Hv. apply Hu. destruct (takes_effect d), (takes_effect rv); cbn in Hv;
      rewrite ?lookup_delete_Some, ?map_lookup_filter_Some in Hv; naive_solver.
  - intros v [Hv _]%map_lookup_filter_Some. by apply Hu.
  - unfold under_lease, reg_key in *. cbn. intros v. by rewrite lookup_delete_eq.
Qed.

(** A registration comes back: after any refreshes, expiries and deletions a
    refresh whose calls succeed leaves the key in etcd; in runs whose failing
    calls have no effect the key hangs on the lease that is refreshed; and a
    stop whose deletion succeeds removes the key. *)
Theorem registration_restored e r evs :
  let '(b, e1, r1) := Register true Succeeds Succeeds e r in
  let s := foldl reg_step (e1, r1) evs in
  b = true ∧
  is_Some (kvs (reg_step s (Refresh Succeeds Succeeds Succeeds)).1 !! reg_key (reg_step s (Refresh Succeeds Succeeds Succeeds)).2) ∧
  (Forall clean evs → under_lease s) ∧
  (∀ rv, kvs (reg_step s (Stop rv Succeeds)).1 !! reg_key s.2 = None).
Proof.
  pose proof (put_registers Succeeds Succeeds e r eq_refl eq_refl) as H. unfold Register.
  destruct (putInstanceInfoToEtcd Succeeds Succeeds e r) as [[b e1] r1]. destruct H as (-> & _ & Hu).
  cbv beta iota. set (s := foldl reg_step (e1, r1) evs). split; [done|]. split; [|split].
  - destruct s as [e2 r2]. cbn. unfold refreshLease. destruct (isKeyExist Succeeds e2 r2) eqn:E.
    + unfold isKeyExist in E. cbn in E. by apply bool_decide_eq_true in E.
    + by destruct (put_registers Succeeds Succeeds e2 r2 eq_refl eq_refl) as (_ & ? & _).
  - intros Hc. subst s. generalize dependent (e1, r1). intros s0. revert s0. induction Hc as [|ev evs Hev _ IH]; intros s0 Hu; [done|].
    apply IH. by apply under_lease_step.
  - intros rv. destruct s as [e2 r2]. cbn. by rewrite lookup_delete_eq.
Qed.

End register.

(** A put that fails after it took effect leaves the key on a lease that nobody
    refreshes, although every refresh finds the key. *)
Theorem failed_put_strands_key :
  let r := MkRegister "/k" 0 in
  let '(_, e1, r1) := Register "" true Succeeds Succeeds (MkEtcd ∅ 0 0) r in
  let s := foldl (reg_step "") (e1, r1)
             [Refresh Fails Succeeds FailsAfter; Refresh Succeeds Succeeds Succeeds; Refresh Succeeds Succeeds Succeeds] in
  l_lease <$> kvs s.1 !! "/k" = Some 2 ∧ r_leaseID s.2 = 1.
Proof. by vm_compute. Qed.
