(* ===== verification/JsonMarshal.v ===== *)
(** * Package encoding/json, the encoder

    [json.Marshal] of a value, maps with their keys in order, and the proof
    that [Unmarshal] reads a printed value back. *)

From S2P Require Import Prelude GoStrings Hashing Json.
Open Scope string_scope.

(** ** Printing *)

(** Compact text with the HTML characters escaped; the members of an object
    in the order of the list. *)
Fixpoint Marshal (v : any) : string :=
  match v with
  | JNull => "null"
  | JBool b => if b then "true" else "false"
  | JNumber lit => lit
  | JString s => quote true s
  | JArray l => "[" +:+ Join (map Marshal l) "," +:+ "]"
  | JObject kvs => "{" +:+ Join (map (λ kv, quote true kv.1 +:+ ":" +:+ Marshal kv.2) kvs) "," +:+ "}"
  end.

(** A Go map as an object: the encoder sorts the keys. *)
Definition member_le {A} (a b : string * A) : Prop := String.le a.1 b.1.
#[global] Instance member_le_dec {A} : RelDecision (@member_le A).
Proof. intros a b. unfold member_le. apply _. Defined.

Definition map_members {A} (m : gmap string A) : list (string * A) := merge_sort member_le (map_to_list m).
Definition map_json {A} (f : A → any) (m : gmap string A) : any := JObject ((λ kv, (kv.1, f kv.2)) <$> map_members m).

(** An object as a Go map: the last of repeated members counts. *)
Definition to_map {A} (kvs : list (string * A)) : gmap string A := foldl (λ m kv, <[kv.1 := kv.2]> m) ∅ kvs.

(** [json.Unmarshal] into a [map[string]string]: null is the empty string, and
    a value of another type an error. *)
Definition to_env_value (v : any) : option string :=
  match v with JString s => Some s | JNull => Some "" | _ => None end.
Definition Unmarshal_env (raw : string) : option (gmap string string) :=
  match Unmarshal raw with
  | Some (JObject kvs) => to_map <$> mapM (λ kv, pair kv.1 <$> to_env_value kv.2) kvs
  | Some JNull => Some ∅
  | _ => None
  end.
Definition Marshal_env (env : gmap string string) : string := Marshal (map_json JString env).

(** ** Values that are read back *)

Fixpoint number_bytes (s : string) : bool :=
  match s with EmptyString => true | String c r => number_byte c && number_bytes r end.

(** Strings are UTF-8 and numbers are literals. *)
Fixpoint good (v : any) : bool :=
  match v with
  | JNull | JBool _ => true
  | JNumber lit => valid_number lit && number_bytes lit
  | JString s => valid_utf8 0 s
  | JArray l => forallb good l
  | JObject kvs => forallb (λ kv, valid_utf8 0 kv.1 && good kv.2) kvs
  end.

(** Induction over values with their elements and members. *)
Section induction.
  Context (P : any → Prop).
  Context (Hnull : P JNull) (Hbool : ∀ b, P (JBool b)) (Hnum : ∀ lit, P (JNumber lit)) (Hstr : ∀ s, P (JString s)).
  Context (Harr : ∀ l, Forall P l → P (JArray l)) (Hobj : ∀ kvs, Forall (λ kv, P kv.2) kvs → P (JObject kvs)).

Fixpoint any_rect' (v : any) : P v :=
  match v with
  | JNull => Hnull
  | JBool b => Hbool b
  | JNumber lit => Hnum lit
  | JString s => Hstr s
  | JArray l =>
      Harr l ((fix go l : Forall P l := match l with [] => List.Forall_nil _ | v :: r => List.Forall_cons _ v r (any_rect' v) (go r) end) l)
  | JObject kvs =>
      Hobj kvs ((fix go l : Forall (λ kv, P kv.2) l :=
                   match l with [] => List.Forall_nil _ | kv :: r => List.Forall_cons _ kv r (any_rect' kv.2) (go r) end) kvs)
  end.
End induction.

#[local] Arguments String.append : simpl never.

Lemma span_number_all s t : number_bytes s = true → (span_number t).1 = "" → span_number (s +:+ t) = (s, t).
Proof.
  intros Hs Ht. induction s as [|c s IH].
  - rewrite app_nil_l_str. destruct t as [|c t]; [done|]. cbn in *. destruct (number_byte c); [|done].
    by destruct (span_number t).
  - cbn in Hs. breflect. rewrite app_cons_str. cbn. rewrite H. by rewrite IH.
Qed.

(** The first byte of a number is a digit or a minus. *)
Lemma valid_number_head lit : valid_number lit = true → ∃ c r, lit = String c r ∧ (byte_eq 45 c = true ∨ byte_in 48 57 c = true).
Proof.
  destruct lit as [|c r]; [done|]. exists c, r. split; [done|]. unfold valid_number in H.
  destruct (byte_eq 45 c) eqn:E; [by left|]. right. destruct (byte_eq 48 c) eqn:E0.
  - unfold byte_eq in E0. apply N.eqb_eq in E0. unfold byte_in. by rewrite E0.
  - cbn in H. destruct (byte_in 48 57 c); [done|]. done.
Qed.

Lemma read_value_number f lit t :
  valid_number lit = true → number_bytes lit = true → (span_number t).1 = "" →
  read_value (S f) (lit +:+ t) = Some (JNumber lit, t).
Proof.
  intros Hv Hn Ht. pose proof (span_number_all lit t Hn Ht) as Hspan.
  destruct (valid_number_head lit Hv) as (c & r & -> & Hc).
  assert (∀ n, (n < 45 ∨ n = 46 ∨ n = 47 ∨ 57 < n)%N → byte_eq n c = false) as Hb.
  { intros n Hr. unfold byte_eq, byte_in in *. apply N.eqb_neq. destruct Hc as [Hc|Hc]; breflect.
    - apply N.eqb_eq in Hc. lia.
    - apply N.leb_le in H, H0. lia. }
  assert (∀ x p, (57 < N_of_ascii x)%N → HasPrefix (String c (r +:+ t)) (String x p) = false) as Hp.
  { intros x p Hx. apply not_true_iff_false. intros ->%HasPrefix_head.
    specialize (Hb (N_of_ascii x) ltac:(lia)). unfold byte_eq in Hb. by rewrite N.eqb_refl in Hb. }
  rewrite app_cons_str in Hspan |- *. cbn [read_value skip_ws].
  rewrite !Hb by lia. cbn [orb]. rewrite !Hb by lia. rewrite !Hp by (cbn; lia). by rewrite Hspan, Hv.
Qed.

(** ** A printed value is read back *)

Definition readable (v : any) : Prop :=
  ∃ n, ∀ f t, (n ≤ f)%nat → (span_number t).1 = "" → read_value f (Marshal v +:+ t) = Some (v, t).

Lemma Marshal_head v : good v = true → ∃ c r, Marshal v = String c r ∧ byte_eq 93 c = false ∧ skip_ws (String c r) = String c r.
Proof.
  destruct v as [|[]|lit|s|l|kvs]; cbn [Marshal good]; intros H; try (eexists _, _; repeat split; reflexivity).
  breflect. destruct (valid_number_head lit H) as (c & r & -> & Hc). eexists _, _. split; [done|].
  assert (∀ n, (n < 45 ∨ 57 < n)%N → byte_eq n c = false) as Hb.
  { intros n Hr. unfold byte_eq, byte_in in *. apply N.eqb_neq. destruct Hc as [Hc|Hc]; breflect.
    - apply N.eqb_eq in Hc. lia.
    - apply N.leb_le in H1, H2. lia. }
  split; [apply Hb; lia|]. cbn. by rewrite !Hb by lia.
Qed.

Lemma skip_ws_app s t c r : s = String c r → skip_ws (String c r) = String c r → skip_ws (s +:+ t) = s +:+ t.
Proof.
  intros -> H. rewrite app_cons_str. cbn in *. destruct (byte_eq 32 c || _ || _ || _) eqn:E; [|done].
  exfalso. pose proof (skip_ws_le r). rewrite H in H0. cbn in H0. lia.
Qed.

Lemma Join_app x l sep t : Join (x :: l) sep +:+ t = x +:+ (match l with [] => t | _ => sep +:+ Join l sep +:+ t end).
Proof. destruct l; [done|]. rewrite Join_cons by done. by rewrite !app_assoc_str. Qed.

(** The elements of an array, from the text after its bracket on. *)
Lemma read_elements_Join l : l ≠ [] → Forall readable l →
  ∃ n, ∀ f acc t, (n ≤ f)%nat → read_elements f acc (Join (map Marshal l) "," +:+ "]" +:+ t) = Some (JArray (acc ++ l), t).
Proof.
  induction l as [|v l IH]; [done|]. intros _ [[n Hv] Hl]%Forall_cons. destruct l as [|w l].
  - exists (S n). intros f acc t Hf. destruct f as [|f]; [lia|]. cbn [map Join read_elements].
    rewrite Hv by (done || lia). done.
  - destruct (IH ltac:(done) Hl) as [m Hm]. exists (S (n + m))%nat. intros f acc t Hf. destruct f as [|f]; [lia|].
    change (map Marshal (v :: w :: l)) with (Marshal v :: map Marshal (w :: l)). rewrite Join_app. cbn [map]. cbn [read_elements].
    rewrite Hv by (done || lia). rewrite app_cons_str, app_nil_l_str. cbn [skip_ws].
    change (byte_eq 44 ",") with true. cbv iota. etrans; [apply (Hm f (acc ++ [v])%list t); lia|].
    by rewrite <- (assoc_L (++)).
Qed.

Lemma read_members_Join kvs : kvs ≠ [] → Forall (λ kv, valid_utf8 0 kv.1 = true ∧ readable kv.2) kvs →
  ∃ n, ∀ f acc t, (n ≤ f)%nat →
    read_members f acc (Join (map (λ kv, quote true kv.1 +:+ ":" +:+ Marshal kv.2) kvs) "," +:+ "}" +:+ t)
    = Some (JObject (acc ++ kvs), t).
Proof.
  induction kvs as [|[k v] l IH]; [done|]. intros _ [[Hk [n Hv]] Hl]%Forall_cons. cbn [fst snd] in *. destruct l as [|w l].
  - exists (S n). intros f acc t Hf. destruct f as [|f]; [lia|]. cbn [map Join fst snd]. rewrite !app_assoc_str.
    rewrite (read_members_step f acc true k (Marshal v) ("}" +:+ t) v) by (done || apply Hv; done || lia). done.
  - destruct (IH ltac:(done) Hl) as [m Hm]. exists (S (n + m))%nat. intros f acc t Hf. destruct f as [|f]; [lia|].
    rewrite (map_cons _ (k, v)), Join_app. cbn [map]. cbn [fst snd]. rewrite !app_assoc_str.
    rewrite (read_members_step f acc true k (Marshal v) _ v) by (done || apply Hv; done || lia).
    rewrite app_cons_str, app_nil_l_str. cbn [skip_ws]. change (byte_eq 44 ",") with true. cbv iota.
    etrans; [apply (Hm f (acc ++ [(k, v)])%list t); lia|]. by rewrite <- (assoc_L (++)).
Qed.

Lemma Marshal_readable v : good v = true → readable v.
Proof.
  induction v as [|b|lit|s|l IH|kvs IH] using any_rect'; intros Hg.
  - exists 1%nat. intros [|f] t Hf _; [lia|]. by destruct t.
  - exists 1%nat. intros [|f] t Hf _; [lia|]. by destruct b, t.
  - exists 1%nat. intros [|f] t Hf Ht; [lia|]. cbn in Hg. breflect. by apply read_value_number.
  - exists 1%nat. intros [|f] t Hf _; [lia|]. by apply read_value_quote.
  - destruct (decide (l = [])) as [->|Hl].
    { exists 1%nat. intros [|f] t Hf _; [lia|]. reflexivity. }
    cbn [good] in Hg. rewrite forallb_forall in Hg. assert (Forall readable l) as Hr.
    { rewrite Forall_forall in IH |- *. intros x Hx. apply IH; [done|]. by apply Hg, list_elem_of_In. }
    destruct (read_elements_Join l Hl Hr) as [n Hn]. exists (S n). intros f t Hf _. destruct f as [|f]; [lia|].
    cbn [Marshal]. rewrite !app_assoc_str. destruct l as [|v l]; [done|]. specialize (Hn f [] t ltac:(lia)).
    destruct (Marshal_head v (Hg v ltac:(by left))) as (c & r & E & E93 & Hs).
    set (x := Join _ _ +:+ _) in *. assert (∃ r', x = String c r') as [r' Ex].
    { unfold x. cbn [map]. rewrite Join_app, E, app_cons_str. eauto. }
    assert (skip_ws x = x) as Hx.
    { rewrite Ex. cbn in Hs |- *. destruct (byte_eq 32 c || _ || _ || _) eqn:Ew; [|done].
      pose proof (skip_ws_le r) as Hle. rewrite Hs in Hle. cbn in Hle. lia. }
    rewrite app_cons_str, app_nil_l_str. cbn [read_value].
    change (skip_ws (String "[" x)) with (String "[" x). cbv iota. change (byte_eq 123 "[") with false.
    change (byte_eq 91 "[") with true. cbv iota. rewrite Hx, Ex, E93, <- Ex. done.
  - destruct (decide (kvs = [])) as [->|Hl].
    { exists 1%nat. intros [|f] t Hf _; [lia|]. reflexivity. }
    cbn [good] in Hg. rewrite forallb_forall in Hg.
    assert (Forall (λ kv, valid_utf8 0 kv.1 = true ∧ readable kv.2) kvs) as Hr.
    { rewrite Forall_forall in IH |- *. intros x Hx. pose proof (Hg x ltac:(by apply list_elem_of_In)) as H. breflect. auto. }
    destruct (read_members_Join kvs Hl Hr) as [n Hn]. exists (S n). intros f t Hf _. destruct f as [|f]; [lia|].
    cbn [Marshal]. rewrite !app_assoc_str. destruct kvs as [|v l]; [done|]. specialize (Hn f [] t ltac:(lia)).
    set (x := Join _ _ +:+ _) in *. assert (∃ r', x = String quote_char r') as [r' Ex].
    { unfold x. cbn [map]. rewrite Join_app, app_assoc_str, quote_app. eauto. }
    rewrite app_cons_str, app_nil_l_str. cbn [read_value].
    change (skip_ws (String "{" x)) with (String "{" x). cbv iota. change (byte_eq 123 "{") with true. cbv iota.
    rewrite Ex. change (skip_ws (String quote_char r')) with (String quote_char r'). cbv iota.
    change (byte_eq 125 quote_char) with false. cbv iota. by rewrite <- Ex.
Qed.

(** Encoding and decoding round trip. *)
Lemma Unmarshal_Marshal v : good v = true → Unmarshal (Marshal v) = Some v.
Proof.
  intros [n Hn]%Marshal_readable. unfold Unmarshal. set (s := Marshal v).
  assert (read_value (value_fuel s) s = Some (v, "")) as ->; [|done].
  rewrite <- (value_fuel_enough (Nat.max n (value_fuel s)) s) by lia.
  rewrite <- (app_nil_r_str s) at 2. apply Hn; [lia|done].
Qed.

(** ** Maps *)

Lemma map_members_perm {A} (m : gmap string A) : map_members m ≡ₚ map_to_list m.
Proof. apply merge_sort_Permutation. Qed.

Lemma elem_of_map_members {A} (m : gmap string A) k v : (k, v) ∈ map_members m ↔ m !! k = Some v.
Proof. by rewrite map_members_perm, elem_of_map_to_list. Qed.

Lemma lookup_to_map {A} (l : list (string * A)) k v : NoDup l.*1 → to_map l !! k = Some v ↔ (k, v) ∈ l.
Proof.
  unfold to_map. induction l as [|[k' v'] l IH] using rev_ind.
  - intros _. cbn [foldl]. rewrite lookup_empty, elem_of_nil. done.
  - rewrite fmap_app, NoDup_app. intros (Hl & Hn & _). rewrite foldl_app. cbn. rewrite elem_of_app, list_elem_of_singleton.
    destruct (decide (k = k')) as [->|Hk].
    + rewrite lookup_insert_eq. split; [intros [= ->]; by right|]. intros [H|H]; [|congruence].
      destruct (Hn k'); [|by left]. apply list_elem_of_fmap. by exists (k', v).
    + rewrite lookup_insert_ne, IH by done. split; [by left|]. intros [?|?]; [done|congruence].
Qed.

Lemma map_members_NoDup {A} (m : gmap string A) : NoDup (map_members m).*1.
Proof. rewrite map_members_perm. apply NoDup_fst_map_to_list. Qed.

Lemma to_map_members {A} (m : gmap string A) : to_map (map_members m) = m.
Proof.
  apply map_eq. intros k. apply option_eq. intros v.
  by rewrite lookup_to_map, elem_of_map_members by apply map_members_NoDup.
Qed.

(** Names and values of an environment in UTF-8. *)
Definition env_valid (env : gmap string string) : Prop := map_Forall (λ k v, valid_utf8 0 k = true ∧ valid_utf8 0 v = true) env.

Lemma good_env env : env_valid env → good (map_json JString env) = true.
Proof.
  intros He. cbn. apply forallb_forall. intros [k v] H%list_elem_of_In. apply list_elem_of_fmap in H as ([k' v'] & [= -> ->] & H).
  apply elem_of_map_members in H. destruct (He _ _ H) as [Hk Hv]. cbn in *. by rewrite Hk, Hv.
Qed.

Lemma Unmarshal_env_Marshal env : env_valid env → Unmarshal_env (Marshal_env env) = Some env.
Proof.
  intros He. unfold Unmarshal_env, Marshal_env. rewrite Unmarshal_Marshal by (by apply good_env). cbn.
  assert (mapM (λ kv, pair kv.1 <$> to_env_value kv.2) ((λ kv, (kv.1, JString kv.2)) <$> map_members env) = Some (map_members env)) as ->.
  { generalize (map_members env). intros l. induction l as [|[k v] l IH]; [done|]. rewrite fmap_cons. cbn [mapM]. by rewrite IH. }
  cbn. by rewrite to_map_members.
Qed.

(** ** Integers *)

Lemma digits_number s : all_digits s = true → number_bytes s = true.
Proof.
  induction s as [|c s IH]; [done|]. rewrite all_digits_cons. intros H. breflect. cbn. rewrite IH by done.
  unfold number_byte. by rewrite H.
Qed.

Lemma good_int z : (- 2 ^ 63 ≤ z < 2 ^ 63)%Z → good (JNumber (FormatInt z)) = true.
Proof.
  intros Hz. assert (∀ n, (0 ≤ n)%Z → number_bytes (FormatUint n) = true) as Hd.
  { intros n Hn. apply digits_number. by apply format_go_digits. }
  cbn. unfold FormatInt. case_goal; breflect.
  - rewrite app_cons_str, app_nil_l_str. cbn [number_bytes]. rewrite Hd by lia. rewrite andb_true_r.
    pose proof (valid_number_FormatUint (- z) ltac:(lia)) as Hv. destruct (FormatUint (- z)) as [|c s] eqn:E; [done|].
    unfold valid_number in Hv |- *. cbn [byte_eq]. assert (byte_eq 45 c = false) as Hc; [|by rewrite Hc in Hv].
    pose proof (format_go_digits 19 (- z) "" ltac:(lia) eq_refl) as Ha. fold (FormatUint (- z)) in Ha. rewrite E, all_digits_cons in Ha.
    breflect. apply digit_byte_not; [done|lia].
  - rewrite valid_number_FormatUint by lia. by rewrite Hd by lia.
Qed.

Lemma Atoi_FormatInt z : (- 2 ^ 63 ≤ z < 2 ^ 63)%Z → Atoi (FormatInt z) = Some z.
Proof.
  intros Hz. unfold FormatInt. case_goal; breflect; [|apply Atoi_FormatUint; lia].
  rewrite app_cons_str, app_nil_l_str. pose proof (ParseUint_FormatUint (- z) 64 ltac:(lia) ltac:(lia)) as Hp.
  unfold ParseUint in Hp. unfold Atoi. case_bool_decide as Hne; [done|]. destruct (parse_digits 0 (FormatUint (- z))) as [n|]; [|done].
  cbn in Hp. assert (n = - z)%Z as -> by (case_in Hp; congruence).
  destruct (- z <=? 2 ^ 63)%Z eqn:E; [f_equal; lia|]. apply Z.leb_gt in E. lia.
Qed.
