(* ===== verification/JsonReplace.v ===== *)
(** * Text replacement in printed JSON

    Code that replaces a text in a printed value with [strings.ReplaceAll] does
    the same as replacing it in the strings of the value, when both texts
    consist of characters that the encoder prints as they are. *)

From S2P Require Import Prelude GoStrings Hashing Json JsonMarshal.
Open Scope string_scope.

(** The ASCII characters that the encoder does not escape. *)
Definition plain_byte (c : ascii) : bool :=
  byte_in 32 127 c && negb (byte_eq 34 c || byte_eq 92 c || byte_eq 60 c || byte_eq 62 c || byte_eq 38 c).
Fixpoint plain (s : string) : bool :=
  match s with EmptyString => true | String c r => plain_byte c && plain r end.

#[local] Arguments String.append : simpl never.
#[local] Arguments utf8_width : simpl never.

Lemma plain_ascii c : plain_byte c = true → is_ascii_byte c = true ∧ escape_byte true c = String c "".
Proof. destruct c as [[] [] [] [] [] [] [] []]; intros H; try discriminate H; done. Qed.

Lemma width_ascii c s : is_ascii_byte c = true → utf8_width (String c s) = Some 1.
Proof. unfold utf8_width. by intros ->. Qed.

Lemma quote_body_ascii c s : is_ascii_byte c = true → quote_body true 0 (String c s) = escape_byte true c +:+ quote_body true 0 s.
Proof. intros H. cbn [quote_body]. by rewrite width_ascii. Qed.

Lemma quote_body_plain p s : plain p = true → quote_body true 0 (p +:+ s) = p +:+ quote_body true 0 s.
Proof.
  induction p as [|c p IH]; [done|]. cbn [plain]. intros H. breflect. destruct (plain_ascii c H) as [Ha He].
  rewrite app_cons_str, quote_body_ascii, He, IH by done. by rewrite !app_cons_str, app_nil_l_str.
Qed.

Lemma valid_utf8_plain p s : plain p = true → valid_utf8 0 (p +:+ s) = valid_utf8 0 s.
Proof.
  induction p as [|c p IH]; [done|]. cbn [plain]. intros H. breflect. destruct (plain_ascii c H) as [Ha _].
  rewrite app_cons_str. cbn [valid_utf8]. rewrite width_ascii by done. by apply IH.
Qed.

(** The bytes of a rune of more than one byte. *)
Lemma width_bytes s w : utf8_width s = Some w → w ≠ 1 → ∀ c, is_ascii_byte c = true → has_byte c (str_take w s) = false.
Proof.
  intros Hw H1 c Hc. assert (∀ x, byte_in 128 255 x = true → bool_decide (x = c) = false) as Hx.
  { intros x Hx. apply bool_decide_eq_false. intros ->. unfold is_ascii_byte, byte_in in *. breflect.
    apply N.leb_le in H, H0. apply N.ltb_lt in Hc. lia. }
  assert (∀ lo hi x, (128 ≤ lo)%N → byte_in lo hi x = true → byte_in 128 255 x = true) as Hin.
  { intros lo hi x Hlo H. unfold byte_in in *. breflect. apply N.leb_le in H, H0. apply andb_true_intro. split; apply N.leb_le; [lia|].
    pose proof (ascii_lt x). lia. }
  assert (∀ n x, (128 ≤ n)%N → byte_eq n x = true → byte_in 128 255 x = true) as Heq.
  { intros n x Hn H. unfold byte_eq, byte_in in *. apply N.eqb_eq in H. pose proof (ascii_lt x). apply andb_true_intro.
    split; apply N.leb_le; lia. }
  destruct s as [|a [|b [|d [|e s]]]]; unfold utf8_width in Hw; fold utf8_width in Hw; repeat case_inner_in Hw; simplify_eq;
    cbn [str_take has_byte]; unfold cont in *; breflect;
    repeat (match goal with
            | E : byte_in _ _ ?x = true |- context [bool_decide (?x = c)] => rewrite (Hx x) by (eapply Hin; [|exact E]; lia)
            | E : byte_eq _ ?x = true |- context [bool_decide (?x = c)] => rewrite (Hx x) by (eapply Heq; [|exact E]; lia)
            end); try done.
Qed.

Lemma line_separator_digit a b d :
  line_separator a b d = true → hex_digit (N_of_ascii d mod 16) = "8"%char ∨ hex_digit (N_of_ascii d mod 16) = "9"%char.
Proof.
  unfold line_separator, byte_in. intros H. breflect. apply N.leb_le in H0, H1.
  assert (N_of_ascii d = 168 ∨ N_of_ascii d = 169)%N as [-> | ->] by lia; [by left|by right].
Qed.

(** A rune of more than one byte is printed alone, as it is or as an escape,
    whatever follows it. *)
Lemma quote_rune a p u w :
  utf8_width (String a (p +:+ u)) = Some w → w = S (String.length p) → w ≠ 1 →
  ∃ e, (∀ c, c = "/"%char ∨ c = "_"%char → has_byte c e = false) ∧
       ∀ v, utf8_width (String a (p +:+ v)) = Some w ∧ quote_body true 0 (String a (p +:+ v)) = e +:+ quote_body true 0 v.
Proof.
  intros Hw Ew H1.
  assert (∀ v, utf8_width (String a (p +:+ v)) = Some w) as Hv.
  { intros v. pose proof (utf8_width_prefix _ v _ Hw) as E. rewrite Ew in E. cbn [str_take] in E.
    by rewrite str_take_app, app_cons_str, <- Ew in E. }
  destruct (match p with String b (String d _) => line_separator a b d | _ => false end) eqn:Hsep.
  - destruct p as [|b [|d p']]; [done..|]. rewrite !app_cons_str in Hw. rewrite line_separator_width in Hw by done.
    assert (p' = "") as -> by (destruct p'; [done|]; cbn in Ew; congruence).
    exists (String backslash ("u202" +:+ String (hex_digit (N_of_ascii d mod 16)) "")). split.
    + destruct (line_separator_digit a b d Hsep) as [->| ->]; by intros c [->| ->].
    + intros v. split; [done|]. rewrite !app_cons_str, !app_nil_l_str. cbn [quote_body]. rewrite line_separator_width, Hsep by done.
      by rewrite ?app_cons_str, ?app_nil_l_str, ?app_cons_str, ?app_nil_l_str.
  - exists (String a p). split.
    + intros c Hc. pose proof (width_bytes _ _ Hw H1 c ltac:(by destruct Hc as [->| ->])) as E. rewrite Ew in E. cbn [str_take] in E.
      by rewrite str_take_app in E.
    + intros v. split; [done|]. rewrite (quote_body_multi _ _ _ _ (Hv v) H1).
      * rewrite Ew. cbn [pred]. by rewrite quote_body_copy, app_cons_str.
      * intros b d s3 E. destruct p as [|b' [|d' p']].
        -- cbn in Ew. lia.
        -- rewrite app_cons_str, app_nil_l_str in E. injection E as -> E. destruct (line_separator a b d) eqn:El; [|done].
           specialize (Hv v). rewrite app_cons_str, app_nil_l_str, E in Hv. rewrite line_separator_width in Hv by done.
           cbn in Ew. congruence.
        -- rewrite !app_cons_str in E. by injection E as -> -> _.
Qed.

(** ** Equations of ReplaceAll *)

Section replace.
  Context (o : ascii) (r new : string).
Local Abbreviation old := (String o r).
Local Abbreviation R s := (ReplaceAll s old new).

Lemma R_skip c t : HasPrefix (String c t) old = false → R (String c t) = String c (R t).
Proof.
  intros H. unfold ReplaceAll, Split. cbn [split_go]. rewrite H. by rewrite Join_push_head by apply split_go_nonempty.
Qed.

Lemma split_go_skip sep p t : split_go sep (String.length p) (p +:+ t) = split_go sep 0 t.
Proof. induction p as [|c p IH]; [done|]. rewrite app_cons_str. cbn [String.length split_go]. apply IH. Qed.

Lemma R_match t : R (old +:+ t) = new +:+ R t.
Proof.
  unfold ReplaceAll, Split. rewrite app_cons_str. cbn [split_go].
  assert (HasPrefix (String o (r +:+ t)) old = true) as -> by (rewrite <- app_cons_str; apply HasPrefix_app).
  cbn [String.length pred]. rewrite split_go_skip. by rewrite Join_cons by apply split_go_nonempty.
Qed.

Lemma R_other c t : c ≠ o → R (String c t) = String c (R t).
Proof. intros H. apply R_skip. apply not_true_iff_false. by intros ->%HasPrefix_head. Qed.

Lemma R_none s t : has_byte o s = false → R (s +:+ t) = s +:+ R t.
Proof.
  induction s as [|c s IH]; [done|]. cbn [has_byte]. intros H. breflect.
  rewrite !app_cons_str, R_other by done. by rewrite IH.
Qed.

(** ** Printed strings *)

(** A text that the encoder prints as it is starts a printed string only if it
    starts the string. *)
Lemma body_prefix p s t :
  plain p = true → HasPrefix (quote_body true 0 s +:+ String quote_char t) p = true → valid_utf8 0 s = true → HasPrefix s p = true.
Proof.
  revert s. induction p as [|c p IH]; intros s Hp H Hv; [by destruct s|]. cbn [plain] in Hp. apply andb_true_iff in Hp as [Hpc Hp].
  destruct s as [|a s].
  { cbn [quote_body] in H. rewrite app_nil_l_str in H. apply HasPrefix_head in H as <-. done. }
  cbn [valid_utf8] in Hv. destruct (utf8_width (String a s)) as [w|] eqn:Hw; [|done].
  destruct (decide (w = 1)) as [->|H1].
  - pose proof (utf8_width_ascii _ _ Hw) as Ha. rewrite quote_body_ascii in H by done.
    destruct (plain_byte a) eqn:Hpa.
    + destruct (plain_ascii a Hpa) as [_ He]. rewrite He, !app_cons_str, app_nil_l_str in H.
      pose proof (HasPrefix_head _ _ _ _ H) as ->. apply HasPrefix_spec in H as [u Hu]. rewrite app_cons_str in Hu. injection Hu as Hu.
      apply HasPrefix_spec. destruct (proj1 (HasPrefix_spec s p)) as [v ->]; [|exists v; by rewrite app_cons_str].
      apply IH; [done| |done]. apply HasPrefix_spec. eauto.
    + exfalso. assert (∃ x, escape_byte true a = String backslash x) as [x Hx].
      { clear -Ha Hpa. destruct a as [[] [] [] [] [] [] [] []]; try discriminate Ha; try discriminate Hpa; cbn; eauto. }
      rewrite Hx, app_cons_str in H. by apply HasPrefix_head in H as <-.
  - exfalso. destruct (utf8_width_multi _ _ _ Hw H1) as (Ha & _).
    assert (∃ x y, quote_body true 0 (String a s) = String x y ∧ (x = a ∨ x = backslash)) as (x & y & E & Hx).
    { cbn [quote_body]. rewrite Hw. destruct w as [|[|w]]; [|done|];
        (destruct s as [|b [|d s3]]; [eauto 8|eauto 8|]; case_match; eauto 8). }
    rewrite E, app_cons_str in H. apply HasPrefix_head in H. destruct (plain_ascii c Hpc) as [Hc _].
    destruct Hx as [->| ->]; subst; [congruence|done].
Qed.

  (** The text starts with a byte that occurs neither in an escape nor outside
      the strings of a printed value. *)
  Context (Ho : o = "/"%char ∨ o = "_"%char) (Hold : plain old = true) (Hnew : plain new = true).

Lemma escape_none a : plain_byte a = false → is_ascii_byte a = true → has_byte o (escape_byte true a) = false.
Proof.
  clear -Ho. intros Hp Ha. destruct Ho as [->| ->]; destruct a as [[] [] [] [] [] [] [] []]; try discriminate Hp; try discriminate Ha; done.
Qed.

Lemma o_ascii : is_ascii_byte o = true.
Proof. by destruct Ho as [->| ->]. Qed.

(** Replacing in the text of a string is replacing in the string. *)
Lemma R_body n s :
  (String.length s ≤ n)%nat → valid_utf8 0 s = true →
  valid_utf8 0 (R s) = true ∧
  ∀ t, R (quote_body true 0 s +:+ String quote_char t) = quote_body true 0 (R s) +:+ String quote_char (R t).
Proof.
  assert (quote_char ≠ o) as Hq by (by destruct Ho as [->| ->]).
  revert s. induction n as [|n IH]; intros [|a s] Hn Hv; cbn [String.length] in Hn; try lia;
    [split; [done|]; intros t; cbn [quote_body]; rewrite !app_nil_l_str; by apply R_other..|].
  destruct (HasPrefix (String a s) old) eqn:Hpre.
  { apply HasPrefix_spec in Hpre as [u Hu]. rewrite Hu in Hv |- *. rewrite valid_utf8_plain in Hv by done.
    destruct (IH u) as [H1 H2]; [|done|].
    { apply (f_equal String.length) in Hu. rewrite app_cons_str in Hu. cbn in Hu. rewrite length_app_str in Hu. lia. }
    rewrite R_match, valid_utf8_plain by done. split; [done|]. intros t.
    rewrite !quote_body_plain, app_assoc_str, R_match, H2 by done. by rewrite app_assoc_str. }
  pose proof Hv as Hv0. cbn [valid_utf8] in Hv. destruct (utf8_width (String a s)) as [w|] eqn:Hw; [|done].
  destruct (decide (w = 1)) as [->|H1].
  - pose proof (utf8_width_ascii _ _ Hw) as Ha. destruct (IH s) as [H2 H3]; [lia|done|].
    rewrite R_skip by done. split; [cbn [valid_utf8]; by rewrite width_ascii|]. intros t. rewrite !quote_body_ascii by done.
    destruct (plain_byte a) eqn:Hpa.
    + destruct (plain_ascii a Hpa) as [_ He]. rewrite He. rewrite !app_cons_str, !app_nil_l_str, R_skip; [by rewrite H3|].
      apply not_true_iff_false. intros E. apply not_true_iff_false in Hpre. apply Hpre.
      apply (body_prefix old (String a s) t); [done| |done]. by rewrite quote_body_ascii, He, !app_cons_str, app_nil_l_str.
    + rewrite !app_assoc_str, R_none, H3 by (by apply escape_none). done.
  - destruct (utf8_width_bounds _ _ Hw) as [Hlo Hhi]. cbn [String.length] in Hhi.
    set (p := str_take (pred w) s). set (u := str_drop (pred w) s).
    assert (s = p +:+ u) as Hs by (symmetry; apply str_take_drop).
    assert (String.length p = pred w) as Hp by (unfold p; rewrite length_str_take; lia).
    assert (has_byte o (String a p) = false) as Hnone.
    { pose proof (width_bytes _ _ Hw H1 o o_ascii) as E. destruct w as [|w]; [lia|]. exact E. }
    rewrite Hs in Hv, Hw, Hn |- *. rewrite <- Hp in Hv. rewrite valid_utf8_copy in Hv. rewrite length_app_str in Hn.
    destruct (IH u) as [H2 H3]; [lia|done|]. rewrite <- app_cons_str, R_none by done.
    destruct (quote_rune a p u w Hw ltac:(lia) H1) as (e & He & Hq'). destruct (Hq' (R u)) as [Hw' Hb].
    split; [rewrite app_cons_str; cbn [valid_utf8]; rewrite Hw'; by rewrite <- Hp, valid_utf8_copy|].
    intros t. rewrite !app_cons_str, Hb. destruct (Hq' u) as [_ ->]. by rewrite !app_assoc_str, R_none, H3 by auto.
Qed.

(** ** Printed values *)

Fixpoint replace_strings (v : any) : any :=
  match v with
  | JString s => JString (R s)
  | JArray l => JArray (map replace_strings l)
  | JObject kvs => JObject (map (λ kv, (R kv.1, replace_strings kv.2)) kvs)
  | _ => v
  end.

Lemma R_quote s t : valid_utf8 0 s = true → R (quote true s +:+ t) = quote true (R s) +:+ R t.
Proof.
  intros Hs. rewrite !quote_app. rewrite R_other by (by destruct Ho as [->| ->]).
  f_equal. by apply (R_body (String.length s)).
Qed.

Lemma number_none lit : number_bytes lit = true → has_byte o lit = false.
Proof.
  induction lit as [|c lit IH]; [done|]. cbn. intros H. breflect. rewrite IH by done. rewrite orb_false_r.
  apply bool_decide_eq_false. intros ->. by destruct Ho as [->| ->].
Qed.

Lemma R_Join (l l' : list string) t :
  Forall2 (λ x y, ∀ t, R (x +:+ t) = y +:+ R t) l l' → R (Join l "," +:+ t) = Join l' "," +:+ R t.
Proof.
  induction 1 as [|x y l l' Hx Hl IH]; [done|]. rewrite !Join_app, Hx. destruct Hl as [|x' y' l l']; [done|].
  rewrite R_none by (by destruct Ho as [->| ->]). by rewrite IH.
Qed.

Lemma R_Marshal v : good v = true →
  good (replace_strings v) = true ∧ ∀ t, R (Marshal v +:+ t) = Marshal (replace_strings v) +:+ R t.
Proof.
  assert (∀ s t, forallb (λ c, negb (has_byte c s)) ["/"; "_"]%char = true → R (s +:+ t) = s +:+ R t) as Hconst.
  { intros s t H. cbn in H. breflect. apply R_none. by destruct Ho as [->| ->]. }
  induction v as [|b|lit|s|l IH|kvs IH] using any_rect'; intros Hg; cbn [good Marshal replace_strings] in *.
  - split; [done|]. intros t. by apply Hconst.
  - split; [done|]. intros t. by destruct b; apply Hconst.
  - split; [done|]. breflect. intros t. apply R_none. by apply number_none.
  - split; [by apply (R_body (String.length s))|]. intros t. by apply R_quote.
  - rewrite forallb_forall in Hg. rewrite Forall_forall in IH. split.
    { apply forallb_forall. intros x (y & <- & Hy)%in_map_iff. apply IH; [by apply list_elem_of_In|auto]. }
    intros t. rewrite !app_assoc_str, Hconst by done. f_equal. etrans; [apply (R_Join _ (map Marshal (map replace_strings l)))|].
    + rewrite map_map. clear Hconst. induction l as [|v l IHl]; constructor.
      * apply IH; [by left|]. apply Hg. by left.
      * apply IHl; [intros x Hx; apply IH; by right|intros x Hx; apply Hg; by right].
    + by rewrite Hconst.
  - rewrite forallb_forall in Hg. rewrite Forall_forall in IH. split.
    { apply forallb_forall. intros x (y & <- & Hy)%in_map_iff. specialize (Hg y Hy). breflect. cbn.
      apply andb_true_intro. split; [by apply (R_body (String.length y.1))|]. apply IH; [by apply list_elem_of_In|done]. }
    intros t. rewrite !app_assoc_str, Hconst by done. f_equal.
    etrans; [apply (R_Join _ (map (λ kv, quote true kv.1 +:+ ":" +:+ Marshal kv.2) (map (λ kv, (R kv.1, replace_strings kv.2)) kvs)))|].
    + rewrite map_map. clear Hconst. induction kvs as [|v l IHl]; constructor.
      * pose proof (Hg v ltac:(by left)) as H. breflect. intros u. cbn [fst snd]. rewrite !app_assoc_str, R_quote by done. f_equal.
        rewrite R_none by (by destruct Ho as [->| ->]). f_equal. apply IH; [by left|done].
      * apply IHl; [intros x Hx; apply IH; by right|intros x Hx; apply Hg; by right].
    + by rewrite Hconst.
Qed.

(** Replacing in a printed value and decoding it gives the value with the text
    replaced in its strings. *)
Lemma Unmarshal_replaced v : good v = true →
  R (Marshal v) = Marshal (replace_strings v) ∧ Unmarshal (R (Marshal v)) = Some (replace_strings v).
Proof.
  intros [Hg H]%R_Marshal. specialize (H ""). rewrite app_nil_r_str in H. change (R "") with "" in H.
  rewrite app_nil_r_str in H. rewrite H. split; [done|]. by apply Unmarshal_Marshal.
Qed.
End replace.

(** ** Printed values are UTF-8 *)

Lemma escape_valid c t : is_ascii_byte c = true → valid_utf8 0 (escape_byte true c +:+ t) = valid_utf8 0 t.
Proof. destruct c as [[] [] [] [] [] [] [] []]; intros H; try discriminate H; reflexivity. Qed.

Lemma quote_body_valid n s t :
  (String.length s ≤ n)%nat → valid_utf8 0 s = true → valid_utf8 0 (quote_body true 0 s +:+ t) = valid_utf8 0 t.
Proof.
  revert s. induction n as [|n IH]; intros [|a s] Hn Hv; cbn [String.length] in Hn; [done|lia|done|].
  cbn [valid_utf8] in Hv. destruct (utf8_width (String a s)) as [w|] eqn:Hw; [|done].
  destruct (decide (w = 1)) as [->|H1].
  { pose proof (utf8_width_ascii _ _ Hw). rewrite quote_body_ascii, app_assoc_str, escape_valid by done. apply IH; [lia|done]. }
  destruct (utf8_width_bounds _ _ Hw) as [Hlo Hhi]. cbn [String.length] in Hhi.
  destruct (match s with String b (String d _) => line_separator a b d | _ => false end) eqn:Hsep.
  - destruct s as [|b [|d s]]; [done..|]. rewrite line_separator_width in Hw by done. injection Hw as <-.
    cbn [quote_body]. rewrite line_separator_width, Hsep by done. cbn in Hn.
    etrans; [|apply (IH s); [lia|done]].
    destruct (line_separator_digit a b d Hsep) as [->| ->]; rewrite !app_cons_str, ?app_nil_l_str; reflexivity.
  - rewrite (quote_body_multi _ _ _ _ Hw H1); [|intros b d s3 ->; done].
    set (p := str_take (pred w) s). set (u := str_drop (pred w) s).
    assert (s = p +:+ u) as Hs by (symmetry; apply str_take_drop).
    assert (String.length p = pred w) as Hp by (unfold p; rewrite length_str_take; lia).
    rewrite Hs in Hv, Hw, Hn |- *. rewrite <- Hp in Hv |- *. rewrite valid_utf8_copy in Hv. rewrite length_app_str in Hn.
    rewrite quote_body_copy, app_cons_str, app_assoc_str. cbn [valid_utf8].
    pose proof (utf8_width_prefix _ (quote_body true 0 u +:+ t) _ Hw) as Hu. destruct w as [|w]; [lia|]. cbn [str_take pred] in *.
    rewrite <- Hp, str_take_app, app_cons_str in Hu. rewrite Hu, Hp. cbn [pred]. rewrite <- Hp, valid_utf8_copy. apply IH; [lia|done].
Qed.

Lemma quote_valid s t : valid_utf8 0 s = true → valid_utf8 0 (quote true s +:+ t) = valid_utf8 0 t.
Proof.
  intros Hs. rewrite quote_app. etrans; [apply (quote_body_valid (String.length s) s (String quote_char t)); done|]. reflexivity.
Qed.

Lemma plain_digits s : number_bytes s = true → plain s = true.
Proof.
  induction s as [|c s IH]; [done|]. cbn. intros H. breflect. rewrite IH by done. rewrite andb_true_r.
  clear -H. destruct c as [[] [] [] [] [] [] [] []]; try discriminate H; done.
Qed.

Lemma valid_Join (l : list string) t :
  Forall (λ x, ∀ t, valid_utf8 0 (x +:+ t) = valid_utf8 0 t) l → valid_utf8 0 (Join l "," +:+ t) = valid_utf8 0 t.
Proof.
  induction 1 as [|x l Hx Hl IH]; [done|]. rewrite Join_app, Hx. destruct l; [done|]. by rewrite valid_utf8_plain.
Qed.

Lemma valid_Marshal v t : good v = true → valid_utf8 0 (Marshal v +:+ t) = valid_utf8 0 t.
Proof.
  revert t. induction v as [|b|lit|s|l IH|kvs IH] using any_rect'; intros t Hg; cbn [good Marshal] in *.
  - by apply valid_utf8_plain.
  - by destruct b; apply valid_utf8_plain.
  - breflect. by apply valid_utf8_plain, plain_digits.
  - by apply quote_valid.
  - rewrite forallb_forall in Hg. rewrite !app_assoc_str, valid_utf8_plain by done. rewrite valid_Join; [by apply valid_utf8_plain|].
    apply Forall_forall. intros x (y & -> & Hy)%list_elem_of_fmap u. rewrite Forall_forall in IH. apply IH; [done|].
    by apply Hg, list_elem_of_In.
  - rewrite forallb_forall in Hg. rewrite !app_assoc_str, valid_utf8_plain by done. rewrite valid_Join; [by apply valid_utf8_plain|].
    apply Forall_forall. intros x (y & -> & Hy)%list_elem_of_fmap u. rewrite Forall_forall in IH.
    pose proof (Hg y ltac:(by apply list_elem_of_In)) as H. breflect. rewrite !app_assoc_str, quote_valid, valid_utf8_plain by done.
    by apply IH.
Qed.
