(* ===== verification/Agent.v ===== *)
(** * The agent API (pkg/frontend/api/agent/handler.go): create

    Validation of a create request and the options and arguments of the kernel
    call that are built from it. Options that hold JSON are kept as the text
    that the code writes, edits and reads back. *)

From S2P Require Import Prelude GoStrings Hashing Json JsonMarshal Urn Middleware SandboxLifecycle InvokeResponse.
Open Scope string_scope.

(** ** Package path/filepath *)

(** [Clean] on the elements of a path, the last one first. *)
Definition clean_elem (rooted : bool) (out : list string) (e : string) : list string :=
  if bool_decide (e = "") || bool_decide (e = ".") then out
  else if bool_decide (e = "..")
  then
    match out with
    | top :: rest => if bool_decide (top = "..") then (if rooted then out else e :: out) else rest
    | [] => if rooted then [] else [e]
    end
  else e :: out.

Definition IsAbs (path : string) : bool := HasPrefix path "/".

Definition Clean (path : string) : string :=
  if bool_decide (path = "") then "."
  else
    let s := Join (reverse (foldl (clean_elem (IsAbs path)) [] (Split path "/"))) "/" in
    if IsAbs path then "/" +:+ s else if bool_decide (s = "") then "." else s.

Definition HasSuffix (s p : string) : bool :=
  (String.length p <=? String.length s)%nat && bool_decide (str_drop (String.length s - String.length p) s = p).

(** [strings.EqualFold(s, t)] for an ASCII [t]. *)
Definition EqualFold (s t : string) : bool := bool_decide (fold_name s = fold_name t).

(** ** Requests *)

Record HTTPGetAction := MkHTTPGet { hg_Port : Z; hg_Path : string; hg_Host : string; hg_Scheme : string }.
Record TCPSocketAction := MkTCP { tcp_Port : Z; tcp_Host : string }.
Record ExecAction := MkExec { ex_Command : list string }.
Record ProbeSpec := MkProbe {
  HTTPGet : option HTTPGetAction; TCPSocket : option TCPSocketAction; Exec : option ExecAction;
  InitialDelaySeconds : Z; PeriodSeconds : Z; TimeoutSeconds : Z; FailureThreshold : Z }.
Record ProbeSet := MkProbes { Startup : option ProbeSpec; Liveness : option ProbeSpec }.

Record ExtendedHandler := MkHandlers { eh_Initializer : string; eh_PreStop : string }.
Record ExtendedTimeout := MkTimeouts { et_Initializer : Z; et_PreStop : Z }.
Record RootfsSpec := MkRootfs { ImageURL : string; User : string; Workdir : string; Ports : list string }.
Record Mount := MkMount { Source : string; Target : string; ReadOnly : bool }.

Record RuntimeSpec := MkRuntime {
  Runtime : string; SandboxType : string; CodePath : string; StorageType : string; Handler : string;
  ehandler : option ExtendedHandler; etimeout : option ExtendedTimeout; Rootfs : option RootfsSpec;
  Cmds : list (option (list string));          (* a nil command is null *)
  Probes : option ProbeSet; CPU : Z; Memory : Z }.

Record CreateAgentRequest := MkRequest {
  Namespace : string; Name : string; Urn : string; Spec : option RuntimeSpec;
  Workspace : string; EnvVars : gmap string string; Mounts : list Mount }.

(** The fields of [types.FuncSpec] that the agent API reads. *)
Record S3MetaData := MkS3 {
  AppID : string; BucketID : string; ObjectID : string; BucketURL : string; CodeType : string; CodeURL : string;
  CodeFileName : string; fc_File : string; fc_Link : string }.
#[global] Instance S3MetaData_eq_dec : EqDecision S3MetaData.
Proof. solve_decision. Defined.
Definition no_s3 : S3MetaData := MkS3 "" "" "" "" "" "" "" "" "".

Record FuncSpec := MkFuncSpec {
  fs_Handler : string; fs_Runtime : string; fs_Timeout : Z; fs_CPU : Z; fs_Memory : Z; fs_SandboxType : string;
  fs_ImageURL : string; fs_User : string; fs_Ports : list string; fs_Environment : string;
  fs_InitHandler : string; fs_InitTimeout : Z; fs_PreStopHandler : string; fs_PreStopTimeout : Z;
  fs_Cmds : list (option (list string)); fs_StorageType : string; fs_CodePath : string; fs_S3 : S3MetaData }.

(** The answers of the four calls of [LoadFuncSpec], which may differ when the
    function is updated meanwhile. *)
Record loads := MkLoads { l_runtime : option FuncSpec; l_spec : option FuncSpec; l_image : option FuncSpec; l_meta : option FuncSpec }.

(** The environment of the process. *)
Record process_env := MkEnv { sshEnable : string; sshPublicKeyDirectory : string }.

Inductive agent_error :=
| ErrNoNamespace | ErrNoName | ErrNoMode | ErrURN
| ErrPreStop (timeout : Z) | ErrPythonRuntime (runtime : string) | ErrCodeDescriptor
| ErrProbeMode | ErrProbeSchedule | ErrProbePort | ErrProbeScheme | ErrProbeCommand | ErrProbeActions (role : string)
| ErrImageURL (sandboxType : string) | ErrNotAbs (label path : string) | ErrUnsafe (label path : string)
| ErrOverlap (target : string).

(** ** Constants *)

Definition agentUserPlaceholder : string := "__AGENT_USER__".
Definition agentDefaultWorkspaceTarget : string := "/home/agentos".
Definition agentBootstrapCmdEnv : string := "YR_RUNTIME_BOOTSTRAP_CMD".
Definition agentBootstrapProbeEnv : string := "YR_RUNTIME_BOOTSTRAP_PROBE".
Definition agentSandboxTypeSupervisor : string := "supervisor".
Definition agentExecutorInitEntry : string := "yr.agentexecutor.handler.initialize".
Definition agentExecutorCallEntry : string := "yr.agentexecutor.handler.handle".
Definition agentExecutorPreStopEntry : string := "yr.agentexecutor.handler.pre_stop".
Definition agentIdentityCanonicalScope : string := "yuanrong-agent-instance:v1|".
Definition defaultAgentCPU : Z := 1000.
Definition defaultAgentMemory : Z := 2048.
Definition agentCreateGrpcDeadlineSeconds : Z := 70.
Definition agentCreateBusinessTimeoutSeconds : Z := 70.
Definition agentInitTimeoutSeconds : Z := 305.
Definition agentGracefulShutdownSeconds : Z := 15.
Definition agentPreStopTimeoutSeconds : Z := 10.
Definition maxPreStopTimeoutSec : Z := 180.
Definition agentShutdownReserveSeconds : Z := 5.
Definition defaultRecoverRetryTimes : Z := 3.
Definition agentDirectoryQuotaMB : Z := 512.
Definition sshContainerMountDirectory : string := "/home/sn/ssh".
Definition DELEGATE_ENV_VAR : string := "DELEGATE_ENV_VAR".
Definition DelegateDownloadKey : string := "DELEGATE_DOWNLOAD".

(** ** Identity *)

Definition validateAgentIdentity (namespace name : string) : res agent_error unit :=
  if bool_decide (namespace = "") then Err ErrNoNamespace
  else if bool_decide (name = "") then Err ErrNoName else Ok ().

Definition str_len (s : string) : string := FormatUint (Z.of_nat (String.length s)).

Definition canonicalKey (namespace name : string) : string :=
  agentIdentityCanonicalScope +:+ str_len namespace +:+ ":" +:+ namespace +:+ str_len name +:+ ":" +:+ name.

Section identity.
  (** [uuid.NewSHA1(uuid.NameSpaceURL, _).String()]. *)
  Variable uuid_sha1 : string → string.

Definition generateAgentInstanceID (namespace name : string) : string := uuid_sha1 (canonicalKey namespace name).
End identity.

(** ** Validation *)

Definition resolveAgentExtendedTimeouts (spec : option FuncSpec) (rs : option RuntimeSpec) : res agent_error (Z * Z) :=
  let '(initTimeout, preStopTimeout) :=
    match spec with
    | Some s => (fs_InitTimeout s, fs_PreStopTimeout s)
    | None =>
        match rs ≫= etimeout with
        | Some t => (et_Initializer t, et_PreStop t)
        | None => (0, 0)%Z
        end
    end in
  let initTimeout := if (initTimeout <=? 0)%Z then agentInitTimeoutSeconds else initTimeout in
  let preStopTimeout := if (preStopTimeout <=? 0)%Z then agentPreStopTimeoutSeconds else preStopTimeout in
  if (maxPreStopTimeoutSec <? preStopTimeout)%Z then Err (ErrPreStop preStopTimeout) else Ok (initTimeout, preStopTimeout).

Definition validateAgentCodeDescriptor (inline : bool) (rs : option RuntimeSpec) (spec : option FuncSpec) : res agent_error unit :=
  match (if inline then (λ r, (StorageType r, CodePath r)) <$> rs else (λ s, (fs_StorageType s, fs_CodePath s)) <$> spec) with
  | None => Ok ()
  | Some (storageType, codePath) =>
      if Bool.eqb (bool_decide (TrimSpace storageType = "")) (bool_decide (TrimSpace codePath = ""))
      then Ok () else Err ErrCodeDescriptor
  end.

Definition probeValidPort (port : Z) : bool := (1 <=? port)%Z && (port <=? 65535)%Z.

Definition validateHTTPGet (a : HTTPGetAction) : res agent_error unit :=
  if negb (probeValidPort (hg_Port a)) then Err ErrProbePort
  else if negb (bool_decide (hg_Scheme a = "")) && negb (bool_decide (hg_Scheme a = "http")) && negb (bool_decide (hg_Scheme a = "https"))
  then Err ErrProbeScheme else Ok ().
Definition validateTCPSocket (a : TCPSocketAction) : res agent_error unit :=
  if negb (probeValidPort (tcp_Port a)) then Err ErrProbePort else Ok ().
Definition validateExec (a : ExecAction) : res agent_error unit :=
  match ex_Command a with [] => Err ErrProbeCommand | _ => Ok () end.

(** An action that is set is validated and counted. *)
Definition probe_action {A} (validate : A → res agent_error unit) (a : option A) : res agent_error nat :=
  match a with
  | Some a => match validate a with Ok _ => Ok 1%nat | Err e => Err e end
  | None => Ok 0%nat
  end.

Definition validateProbeSpec (spec : ProbeSpec) (role : string) (allowScheduling : bool) : res agent_error unit :=
  if negb allowScheduling && (negb (InitialDelaySeconds spec =? 0)%Z || negb (PeriodSeconds spec =? 0)%Z)
  then Err ErrProbeSchedule
  else
    let* h := probe_action validateHTTPGet (HTTPGet spec) in
    let* t := probe_action validateTCPSocket (TCPSocket spec) in
    let* e := probe_action validateExec (Exec spec) in
    if (h + t + e =? 1)%nat then Ok () else Err (ErrProbeActions role).

Definition validateAgentProbes (req : CreateAgentRequest) (platformExecutor : bool) : res agent_error unit :=
  match Spec req ≫= Probes with
  | None => Ok ()
  | Some ps =>
      if negb platformExecutor then Err ErrProbeMode
      else
        let* _ := match Startup ps with Some s => validateProbeSpec s "startup" true | None => Ok () end in
        match Liveness ps with Some s => validateProbeSpec s "liveness" false | None => Ok () end
  end.

Definition isInlineMode (req : CreateAgentRequest) : bool :=
  match Spec req with Some r => negb (bool_decide (Runtime r = "")) | None => false end.

Definition validateRootfsImageURL (req : CreateAgentRequest) (loaded : option FuncSpec) (inline : bool) : res agent_error unit :=
  match
    (if inline
     then (λ r, (match Rootfs r with Some f => ImageURL f | None => "" end, SandboxType r)) <$> Spec req
     else (λ s, (fs_ImageURL s, fs_SandboxType s)) <$> loaded)
  with
  | None => Ok ()
  | Some (imageurl, sandboxType) =>
      if bool_decide (imageurl = "") && negb (EqualFold sandboxType agentSandboxTypeSupervisor)
      then Err (ErrImageURL sandboxType) else Ok ()
  end.

Definition isSafeBindSource (path : string) : bool :=
  let clean := Clean path in
  if bool_decide (clean ∈ ["/"; "/etc"; "/proc"; "/sys"; "/dev"; "/boot"]) then false
  else if Contains clean ".." then false
  else negb (HasSuffix clean "docker.sock").

Definition validateBindSource (path label : string) : res agent_error unit :=
  if negb (IsAbs path) then Err (ErrNotAbs label path)
  else if negb (isSafeBindSource path) then Err (ErrUnsafe label path) else Ok ().

Definition pathsOverlap (first second : string) : bool :=
  let first := Clean first in let second := Clean second in
  bool_decide (first = second) || HasPrefix first (second +:+ "/") || HasPrefix second (first +:+ "/").

(** ** Options of the kernel call *)

Record InvokeOptions := MkOptions {
  Cpu : Z; Mem : Z; TraceID : string; Timeout : Z; CreateOpt : gmap string string; CustomExtensions : gmap string string;
  CodePaths : list string; RecoverRetryTimes : Z }.

Definition with_opts (f : gmap string string → gmap string string) (o : InvokeOptions) : InvokeOptions :=
  MkOptions (Cpu o) (Mem o) (TraceID o) (Timeout o) (f (CreateOpt o)) (CustomExtensions o) (CodePaths o) (RecoverRetryTimes o).
Definition set_opt (k v : string) : InvokeOptions → InvokeOptions := with_opts <[k := v]>.
Definition with_code_paths (l : list string) (o : InvokeOptions) : InvokeOptions :=
  MkOptions (Cpu o) (Mem o) (TraceID o) (Timeout o) (CreateOpt o) (CustomExtensions o) l (RecoverRetryTimes o).
Definition with_resources (cpu mem : Z) (o : InvokeOptions) : InvokeOptions :=
  MkOptions cpu mem (TraceID o) (Timeout o) (CreateOpt o) (CustomExtensions o) (CodePaths o) (RecoverRetryTimes o).
Definition with_recover (n : Z) (o : InvokeOptions) : InvokeOptions :=
  MkOptions (Cpu o) (Mem o) (TraceID o) (Timeout o) (CreateOpt o) (CustomExtensions o) (CodePaths o) n.

(** An option that is there and not empty. *)
Definition option_text (k : string) (o : InvokeOptions) : option string :=
  match CreateOpt o !! k with Some s => if bool_decide (s = "") then None else Some s | None => None end.

(** *** Mounts *)

(** The keys of a mount in the order of the encoder. *)
Definition mount_json (m : Mount) : any :=
  JObject [("readonly", JBool (ReadOnly m)); ("source", JString (Source m)); ("target", JString (Target m))].
Definition mounts_json (ms : list Mount) : any := JObject [("mounts", JArray (map mount_json ms))].

Definition appendPlatformSSHMount (e : process_env) (mounts : list Mount) : res agent_error (list Mount) :=
  if negb (EqualFold (TrimSpace (sshEnable e)) "true") then Ok mounts
  else
    let source := TrimSpace (sshPublicKeyDirectory e) in
    let* _ := validateBindSource source "YR_SSH_BACKEND_PUBLIC_KEY_DIR" in
    match list_find (λ m, pathsOverlap (Target m) sshContainerMountDirectory = true) mounts with
    | Some (_, m) => Err (ErrOverlap (Target m))
    | None => Ok (mounts ++ [MkMount source sshContainerMountDirectory true])%list
    end.

Fixpoint validate_sources (ms : list Mount) : res agent_error unit :=
  match ms with
  | [] => Ok ()
  | m :: ms => let* _ := validateBindSource (Source m) "mount source" in validate_sources ms
  end.

Definition applyAgentRootfsMounts (e : process_env) (req : CreateAgentRequest) (o : InvokeOptions) : res agent_error InvokeOptions :=
  let* ws :=
    if bool_decide (Workspace req = "") then Ok ([], o)
    else
      let* _ := validateBindSource (Workspace req) "workspace" in
      Ok ([MkMount (Workspace req) ("/home/" +:+ agentUserPlaceholder) false], set_opt "workspace" (Workspace req) o) in
  let* _ := validate_sources (Mounts req) in
  let* mounts := appendPlatformSSHMount e (ws.1 ++ Mounts req)%list in
  match mounts with
  | [] => Ok ws.2
  | _ => Ok (set_opt "rootfs" (Marshal (mounts_json mounts)) ws.2)
  end.

Definition replaceAgentUserPlaceholder (user : string) (o : InvokeOptions) : InvokeOptions :=
  match option_text "rootfs" o with
  | None => o
  | Some rootfs =>
      if negb (bool_decide (user = "")) then set_opt "rootfs" (ReplaceAll rootfs agentUserPlaceholder user) o
      else set_opt "rootfs" (ReplaceAll rootfs ("/home/" +:+ agentUserPlaceholder) agentDefaultWorkspaceTarget) o
  end.

(** *** Environment variables *)

Definition applyAgentDynamicEnv (req : CreateAgentRequest) (o : InvokeOptions) : InvokeOptions :=
  if bool_decide (EnvVars req = ∅) then o else set_opt DELEGATE_ENV_VAR (Marshal_env (EnvVars req)) o.

Definition mergeAgentStaticEnv (spec : FuncSpec) (o : InvokeOptions) : InvokeOptions :=
  if bool_decide (fs_Environment spec = "") then o
  else
    match Unmarshal_env (fs_Environment spec) with
    | None => o
    | Some staticEnv =>
        if bool_decide (staticEnv = ∅) then o
        else
          let dynamicEnv := default ∅ (option_text DELEGATE_ENV_VAR o ≫= Unmarshal_env) in
          set_opt DELEGATE_ENV_VAR (Marshal_env (dynamicEnv ∪ staticEnv)) o
    end.

(** The part that [mergeAgentBootstrapCmds] and [applyAgentProbeSpec] share: a
    variable that is already set is left alone. *)
Definition add_env (name value : string) (o : InvokeOptions) : InvokeOptions :=
  let env := default ∅ (option_text DELEGATE_ENV_VAR o ≫= Unmarshal_env) in
  match env !! name with
  | Some _ => o
  | None => set_opt DELEGATE_ENV_VAR (Marshal_env (<[name := value]> env)) o
  end.

Definition cmds_json (cmds : list (option (list string))) : any :=
  JArray (map (λ c, match c with Some argv => JArray (map JString argv) | None => JNull end) cmds).
Definition mergeAgentBootstrapCmds (cmds : list (option (list string))) : InvokeOptions → InvokeOptions :=
  add_env agentBootstrapCmdEnv (Marshal (cmds_json cmds)).

(** Only commands that are given are merged. *)
Definition apply_cmds (cmds : list (option (list string))) (o : InvokeOptions) : InvokeOptions :=
  match cmds with [] => o | _ => mergeAgentBootstrapCmds cmds o end.

(** Fields with [omitempty]. *)
Definition omit_int (k : string) (z : Z) : list (string * any) := if (z =? 0)%Z then [] else [(k, JNumber (FormatInt z))].
Definition omit_string (k s : string) : list (string * any) := if bool_decide (s = "") then [] else [(k, JString s)].
Definition omit_nil {A} (k : string) (f : A → any) (a : option A) : list (string * any) :=
  match a with Some a => [(k, f a)] | None => [] end.

Definition probe_json (p : ProbeSpec) : any :=
  JObject (omit_nil "httpGet" (λ a, JObject (("port", JNumber (FormatInt (hg_Port a))) ::
             omit_string "path" (hg_Path a) ++ omit_string "host" (hg_Host a) ++ omit_string "scheme" (hg_Scheme a))) (HTTPGet p) ++
           omit_nil "tcpSocket" (λ a, JObject (("port", JNumber (FormatInt (tcp_Port a))) :: omit_string "host" (tcp_Host a))) (TCPSocket p) ++
           omit_nil "exec" (λ a, JObject [("command", JArray (map JString (ex_Command a)))]) (Exec p) ++
           omit_int "initialDelaySeconds" (InitialDelaySeconds p) ++ omit_int "periodSeconds" (PeriodSeconds p) ++
           omit_int "timeoutSeconds" (TimeoutSeconds p) ++ omit_int "failureThreshold" (FailureThreshold p)).
Definition probes_json (ps : ProbeSet) : any :=
  JObject (omit_nil "startup" probe_json (Startup ps) ++ omit_nil "liveness" probe_json (Liveness ps)).

Definition applyAgentProbeSpec (rs : option RuntimeSpec) (o : InvokeOptions) : InvokeOptions :=
  match rs ≫= Probes with
  | None => o
  | Some ps => add_env agentBootstrapProbeEnv (Marshal (probes_json ps)) o
  end.

(** *** Code *)

Definition applyAgentExecutorCode : InvokeOptions → InvokeOptions :=
  with_code_paths [agentExecutorInitEntry; agentExecutorCallEntry; agentExecutorPreStopEntry].

Definition local_json (storageType codePath : string) : any :=
  JObject [("storage_type", JString storageType); ("code_path", JString codePath)].

Definition s3MetaDataToCompactMap (s3 : S3MetaData) : gmap string any :=
  to_map ([("storage_type", JString "s3"); ("code_path", JString "")] ++
          omit_string "appId" (AppID s3) ++ omit_string "bucketId" (BucketID s3) ++ omit_string "objectId" (ObjectID s3) ++
          omit_string "bucketUrl" (BucketURL s3) ++ omit_string "code_type" (CodeType s3) ++ omit_string "code_url" (CodeURL s3) ++
          omit_string "code_filename" (CodeFileName s3) ++
          (if bool_decide (fc_File s3 = "") && bool_decide (fc_Link s3 = "") then []
           else [("func_code", JObject [("file", JString (fc_File s3)); ("link", JString (fc_Link s3))])])).

Definition applyAgentCodePath (spec : FuncSpec) (o : InvokeOptions) : InvokeOptions :=
  if negb (bool_decide (fs_S3 spec = no_s3))
  then set_opt DelegateDownloadKey (Marshal (map_json id (s3MetaDataToCompactMap (fs_S3 spec)))) o
  else if negb (bool_decide (fs_StorageType spec = "")) || negb (bool_decide (fs_CodePath spec = ""))
  then set_opt DelegateDownloadKey (Marshal (local_json (fs_StorageType spec) (fs_CodePath spec))) o
  else o.

(** A pre-stop entry that is set follows the others. *)
Definition code_entries (init call preStop : string) : list string :=
  [init; call] ++ (if bool_decide (preStop = "") then [] else [preStop]).

Definition applyAgentCodePaths (spec : option FuncSpec) (o : InvokeOptions) : InvokeOptions :=
  match spec with
  | None => o
  | Some s => with_code_paths (code_entries (fs_InitHandler s) (fs_Handler s) (fs_PreStopHandler s)) o
  end.

Definition resolveInlineHandlerEntries (rs : RuntimeSpec) : string * string * string :=
  (match ehandler rs with Some h => TrimSpace (eh_Initializer h) | None => "" end,
   TrimSpace (Handler rs),
   match ehandler rs with Some h => TrimSpace (eh_PreStop h) | None => "" end).

Definition applyAgentInlineCode (c : RuntimeSpec) (o : InvokeOptions) : InvokeOptions :=
  let o := if bool_decide (CodePath c = "") then o
           else set_opt DelegateDownloadKey (Marshal (local_json (StorageType c) (CodePath c))) o in
  if bool_decide (Handler c = "") then o
  else
    let '(initEntry, _, preStopEntry) := resolveInlineHandlerEntries c in
    with_code_paths (code_entries initEntry (Handler c) preStopEntry) o.

(** *** Ports, image and resources *)

Section handler.
  (** [strings.ToLower] and [strings.ToUpper] of strings that are not ASCII. *)
  Variables unicode_lower unicode_upper : string → string.
  (** A number as the encoder prints the float64 it is decoded to; [None] when
      it is out of range. *)
  Variable float64 : string → option string.
  Variable uuid_sha1 : string → string.

Definition upper_byte (c : ascii) : ascii := if byte_in 97 122 c then ascii_of_N (N_of_ascii c - 32) else c.
Definition ToUpper (s : string) : string := if is_ascii s then str_map upper_byte s else unicode_upper s.

Definition port_forwarding (p : string) : option (Z * string) :=
  let '(protocol, portStr) :=
    match IndexByte p ":" with
    | Some idx => (ToUpper (str_take idx p), str_drop (S idx) p)
    | None => ("TCP", p)
    end in
  (λ port, (port, protocol)) <$> Atoi portStr.

Definition network_json (ports : list string) : any :=
  JObject [("portForwardings",
    JArray (map (λ pf, JObject [("port", JNumber (FormatInt pf.1)); ("protocol", JString pf.2)]) (omap port_forwarding ports)))].

Definition applyAgentPorts (ports : list string) : InvokeOptions → InvokeOptions :=
  set_opt "network" (Marshal (network_json ports)).

Definition apply_ports (ports : list string) (o : InvokeOptions) : InvokeOptions :=
  match ports with [] => o | _ => applyAgentPorts ports o end.

(** A value decoded into an [interface{}] and encoded again. *)
Fixpoint normalise (v : any) : option any :=
  match v with
  | JNumber lit => JNumber <$> float64 lit
  | JArray l => JArray <$> mapM normalise l
  | JObject kvs => (λ kvs, map_json id (to_map kvs)) <$> mapM (λ kv, pair kv.1 <$> normalise kv.2) kvs
  | v => Some v
  end.

(** A text decoded into a [map[string]interface{}]; the texts are objects. *)
Definition decode_map (raw : string) : option (gmap string any) :=
  match Unmarshal raw with
  | Some (JObject kvs) => to_map <$> mapM (λ kv, pair kv.1 <$> normalise kv.2) kvs
  | _ => None
  end.

Definition mergeRootfsJSON (existing imageJSON : string) : string :=
  match decode_map existing with
  | None => imageJSON
  | Some existingMap =>
      match decode_map imageJSON with
      | None => existing
      | Some imageMap =>
          let imageMap := match existingMap !! "mounts" with Some _ => delete "mounts" imageMap | None => imageMap end in
          Marshal (map_json id (imageMap ∪ existingMap))
      end
  end.

Definition image_json (imageurl workdir : string) : any :=
  JObject ([("imageurl", JString imageurl); ("mounts", JArray []); ("type", JString "image")] ++ omit_string "workdir" workdir).

Definition apply_image (imageurl workdir : string) (o : InvokeOptions) : InvokeOptions :=
  if bool_decide (imageurl = "") then o
  else
    let image := Marshal (image_json imageurl workdir) in
    match option_text "rootfs" o with
    | Some existing => set_opt "rootfs" (mergeRootfsJSON existing image) o
    | None => set_opt "rootfs" image o
    end.

Definition applyAgentFuncMeta (loaded : option FuncSpec) (o : InvokeOptions) : InvokeOptions :=
  match loaded with
  | None => o
  | Some spec =>
      let o := with_resources (if (0 <? fs_CPU spec)%Z then fs_CPU spec else Cpu o)
                              (if (0 <? fs_Memory spec)%Z then fs_Memory spec else Mem o) o in
      let o := if bool_decide (fs_SandboxType spec = "") then o else set_opt "sandbox_type" (fs_SandboxType spec) o in
      let o := if bool_decide (fs_User spec = "") then o else set_opt "host_user" (fs_User spec) o in
      let o := replaceAgentUserPlaceholder (fs_User spec) o in
      let o := apply_image (fs_ImageURL spec) "" o in
      let o := apply_ports (fs_Ports spec) o in
      let o := mergeAgentStaticEnv spec o in
      let o := applyAgentCodePath spec o in
      apply_cmds (fs_Cmds spec) o
  end.

Definition applyAgentInlineMeta (rs : option RuntimeSpec) (o : InvokeOptions) : InvokeOptions :=
  match rs with
  | None => o
  | Some c =>
      let o := if bool_decide (SandboxType c = "") then o else set_opt "sandbox_type" (SandboxType c) o in
      let o := apply_cmds (Cmds c) o in
      let o := applyAgentInlineCode c o in
      match Rootfs c with
      | None => o
      | Some f =>
          let o := if bool_decide (User f = "") then o else set_opt "host_user" (User f) o in
          let o := replaceAgentUserPlaceholder (User f) o in
          let o := apply_image (ImageURL f) (Workdir f) o in
          apply_ports (Ports f) o
      end
  end.

(** ** The create call *)

Record agentCreateConfig := MkConfig {
  funcKey : string; inline : bool; spec : option FuncSpec; platformExecutor : bool;
  initTimeout : Z; preStopTimeout : Z; runtime : string; runtimeSpec : option RuntimeSpec }.

Definition gracefulShutdownSeconds (preStop : Z) : Z :=
  if (agentGracefulShutdownSeconds <? preStop + agentShutdownReserveSeconds)%Z
  then preStop + agentShutdownReserveSeconds else agentGracefulShutdownSeconds.

Definition resource_json (cpu mem : Z) : any :=
  JObject [("cpu", JNumber (FormatInt cpu)); ("memory", JNumber (FormatInt mem)); ("invokeLabels", JString "");
           ("customResources", JNull); ("customResourcesSpec", JNull); ("ephemeral_storage", JNumber "0")].

Definition applyAgentCreateOpts (c : gin_ctx) (req : CreateAgentRequest) (config : agentCreateConfig) (o : InvokeOptions) : InvokeOptions :=
  let o := set_opt "tenantId" (kill_tenant c) o in
  let o := set_opt "trace_id" (header c "X-Trace-Id") o in
  let o := set_opt "FUNCTION_KEY_NOTE" (if inline config then funcKey config else Urn req) o in
  let o := set_opt "INSTANCE_TYPE_NOTE" "reserved" o in
  let o := set_opt "SCHEDULER_MANAGED" "false" o in
  let o := set_opt "AGENT_REUSE_EXISTING_INSTANCE" "true" o in
  let o := set_opt "call_timeout" (FormatInt agentCreateBusinessTimeoutSeconds) o in
  let o := set_opt "init_call_timeout" (FormatInt agentInitTimeoutSeconds) o in
  let o := set_opt "GRACEFUL_SHUTDOWN_TIME" (FormatInt (gracefulShutdownSeconds (preStopTimeout config))) o in
  let o := set_opt "DELEGATE_DIRECTORY_INFO" "/tmp" o in
  let o := set_opt "DELEGATE_DIRECTORY_QUOTA" (FormatInt agentDirectoryQuotaMB) o in
  let o := set_opt "ConcurrentNum" "1" o in
  let o := if (0 <? RecoverRetryTimes o)%Z then set_opt "RecoverRetryTimes" (FormatInt (RecoverRetryTimes o)) o else o in
  set_opt "RESOURCE_SPEC_NOTE" (Marshal (resource_json (Cpu o) (Mem o))) o.

Definition initial_options (c : gin_ctx) (req : CreateAgentRequest) (config : agentCreateConfig) : InvokeOptions :=
  let '(cpu, mem) :=
    match Spec req with
    | Some r =>
        if inline config
        then (if (0 <? CPU r)%Z then CPU r else defaultAgentCPU, if (0 <? Memory r)%Z then Memory r else defaultAgentMemory)
        else (defaultAgentCPU, defaultAgentMemory)
    | None => (defaultAgentCPU, defaultAgentMemory)
    end in
  MkOptions cpu mem (header c "X-Trace-Id") agentCreateGrpcDeadlineSeconds
    {[ "create_error_policy" := "last_failure_on_timeout" ]} {[ "lifecycle" := "detached"; "Concurrency" := "1" ]} [] 0.

Definition buildAgentInvokeOptions (c : gin_ctx) (e : process_env) (l : loads) (req : CreateAgentRequest) (config : agentCreateConfig) :
    res agent_error InvokeOptions :=
  let* _ := validateRootfsImageURL req (l_image l) (inline config) in
  let* o := applyAgentRootfsMounts e req (initial_options c req config) in
  let o := applyAgentDynamicEnv req o in
  let o := if inline config then applyAgentInlineMeta (Spec req) o else applyAgentFuncMeta (l_meta l) o in
  let o := if platformExecutor config then applyAgentProbeSpec (runtimeSpec config) (applyAgentExecutorCode o)
           else applyAgentCodePaths (spec config) o in
  Ok (applyAgentCreateOpts c req config (with_recover defaultRecoverRetryTimes o)).

(** The arguments of the kernel call, as the values that are encoded: a
    function specification and the parameters of its entries. *)
Inductive create_arg :=
| ArgSpec (s : FuncSpec)
| ArgParams (instanceLabel userInitEntry userCallEntry : string)
| ArgEmpty.

(** A specification made up of entries. *)
Definition entry_spec (init call preStop runtime : string) (cpu mem initTimeout preStopTimeout : Z) : FuncSpec :=
  MkFuncSpec call runtime agentCreateBusinessTimeoutSeconds cpu mem "" "" "" [] "" init initTimeout preStop preStopTimeout [] "" "" no_s3.

Definition with_spec_resources (cpu mem : Z) (s : FuncSpec) : FuncSpec :=
  MkFuncSpec (fs_Handler s) (fs_Runtime s) (fs_Timeout s) cpu mem (fs_SandboxType s) (fs_ImageURL s) (fs_User s) (fs_Ports s)
    (fs_Environment s) (fs_InitHandler s) (fs_InitTimeout s) (fs_PreStopHandler s) (fs_PreStopTimeout s) (fs_Cmds s)
    (fs_StorageType s) (fs_CodePath s) (fs_S3 s).

Definition buildAgentCreateArgs (config : agentCreateConfig) (cpu mem : Z) : list create_arg :=
  let '(data, init, call) :=
    if platformExecutor config
    then (ArgSpec (entry_spec agentExecutorInitEntry agentExecutorCallEntry agentExecutorPreStopEntry (runtime config) cpu mem
                     (initTimeout config) (preStopTimeout config)), agentExecutorInitEntry, agentExecutorCallEntry)
    else
      match spec config, runtimeSpec config with
      | Some s, _ => (ArgSpec (with_spec_resources cpu mem s), fs_InitHandler s, fs_Handler s)
      | None, Some rs =>
          let '(init, call, preStop) := resolveInlineHandlerEntries rs in
          (if bool_decide (call = "") then ArgEmpty
           else ArgSpec (entry_spec init call preStop (runtime config) cpu mem (initTimeout config) (preStopTimeout config)), init, call)
      | None, None => (ArgEmpty, "", "")
      end in
  [data; ArgParams "" init call; ArgEmpty; ArgEmpty].

(** ** The handler *)

Definition executor_key (name : string) : string := "default/0-system-faasExecutor" +:+ name +:+ "/$latest".

Definition getAgentExecutorFuncKey (runtime : string) : string :=
  let r := ToLower unicode_lower runtime in
  executor_key
    (if Contains r "python3.6" then "Python3.6" else if Contains r "python3.7" then "Python3.7"
     else if Contains r "python3.8" then "Python3.8" else if Contains r "python3.9" then "Python3.9"
     else if Contains r "python3.10" then "Python3.10" else if Contains r "python3.11" then "Python3.11"
     else if Contains r "go" || Contains r "http" || Contains r "custom image" then "Go1.x"
     else if Contains r "java8" then "Java8" else if Contains r "java11" then "Java11"
     else if Contains r "java17" then "Java17" else if Contains r "java21" then "Java21"
     else "PosixCustom").

Definition isSupportedAgentPythonRuntime (runtime : string) : bool :=
  let r := ToLower unicode_lower (TrimSpace runtime) in
  Contains r "python3.9" || Contains r "python3.10" || Contains r "python3.11".

Definition resolveAgentFuncKeyAndRuntime (c : gin_ctx) (l : loads) (req : CreateAgentRequest) (inline : bool) :
    res agent_error (string * string) :=
  if inline
  then Ok (CombineFunctionKey (kill_tenant c) (Name req) DefaultURNVersion, match Spec req with Some r => Runtime r | None => "" end)
  else
    match URN_ParseFrom (MkURN "" "" "" "" "" "" "") (Urn req) with
    | Err _ => Err ErrURN
    | Ok u => Ok (CombineFunctionKey (Urn.TenantID u) (FuncName u) (FuncVersion u),
                  match l_runtime l with Some s => fs_Runtime s | None => "" end)
    end.

Record agentCreateCall := MkCall {
  designatedInstanceID : string; FuncID : string; invokeOpts : InvokeOptions; args : list create_arg }.

(** [CreateHandler] up to the kernel call; every error is answered with 400. *)
Definition prepare_create (c : gin_ctx) (e : process_env) (l : loads) (req : CreateAgentRequest) :
    res agent_error (agentCreateConfig * agentCreateCall) :=
  let* _ := validateAgentIdentity (Namespace req) (Name req) in
  let instanceID := generateAgentInstanceID uuid_sha1 (Namespace req) (Name req) in
  let inline := isInlineMode req in
  if negb inline && bool_decide (Urn req = "") then Err ErrNoMode
  else
    let* key := resolveAgentFuncKeyAndRuntime c l req inline in
    let spec := if inline then None else l_spec l in
    let platformExecutor :=
      if inline
      then match Spec req with Some r => bool_decide (TrimSpace (Handler r) = "") | None => true end
      else match spec with Some s => bool_decide (TrimSpace (fs_Handler s) = "") | None => true end in
    let* t := resolveAgentExtendedTimeouts spec (Spec req) in
    if platformExecutor && negb (isSupportedAgentPythonRuntime key.2) then Err (ErrPythonRuntime key.2)
    else
      let* _ := validateAgentCodeDescriptor inline (Spec req) spec in
      let* _ := validateAgentProbes req platformExecutor in
      let config := MkConfig key.1 inline spec platformExecutor t.1 t.2 key.2 (Spec req) in
      let* o := buildAgentInvokeOptions c e l req config in
      Ok (config, MkCall instanceID (getAgentExecutorFuncKey key.2) o (buildAgentCreateArgs config (Cpu o) (Mem o))).

Inductive create_response := BadRequest (e : agent_error) | Created (instance_id : string) | CreateFailed (text : string).

Definition ERR_INSTANCE_DUPLICATED : Z := 1004.
Definition agentCreateTimeoutCode : Z := 3002.

Definition shouldTreatCreateTimeoutAsSuccess (instanceID : string) (err : client_err) : bool :=
  match err with
  | RuntimeErr code _ => negb (bool_decide (instanceID = "")) && (code =? agentCreateTimeoutCode)%Z
  | _ => false
  end.

(** [instanceID] and [err]: what the proxy client returned. *)
Definition handleAgentCreateResult (designated instanceID : string) (err : option client_err) : create_response :=
  match err with
  | None => Created instanceID
  | Some e =>
      match GetDirectProxyErrorMetadata e with
      | Some (code, _, _) => if (code =? ERR_INSTANCE_DUPLICATED)%Z then Created designated else CreateFailed (client_text e)
      | None => if shouldTreatCreateTimeoutAsSuccess instanceID e then Created instanceID else CreateFailed (client_text e)
      end
  end.

(** [proxy]: the answer of the proxy client to a call. *)
Definition CreateHandler (proxy : agentCreateCall → string * option client_err) (c : gin_ctx) (e : process_env) (l : loads)
    (req : CreateAgentRequest) : create_response :=
  match prepare_create c e l req with
  | Err err => BadRequest err
  | Ok (_, call) => let '(instanceID, err) := proxy call in handleAgentCreateResult (designatedInstanceID call) instanceID err
  end.

End handler.
