(* ===== verification/AgentQuery.v ===== *)
(** * The agent API (pkg/frontend/api/agent/handler.go): get, list and delete

    The views of the instances in the cache of endpoints, with the decoders of
    the create options, and the deletion of an instance. *)

From Stdlib Require Import SpecFloat.
From S2P Require Import Prelude GoStrings Hashing Json JsonMarshal Route ExecEndpoint InstanceRegistry Middleware SandboxLifecycle.
Open Scope string_scope.
Open Scope go_scope.

(** ** Create options *)

Record MountInfo := MkMountInfo { mi_Source : string; mi_Target : string; mi_ReadOnly : bool }.
Record RootfsInfo := MkRootfsInfo {
  ri_Type : string; ri_ImageURL : string; ri_User : string; ri_Workspace : string; ri_Workdir : string; ri_Mounts : list MountInfo }.

Definition decode_mount (kvs : list (string * any)) : option MountInfo :=
  Some MkMountInfo <*> string_field "source" kvs <*> string_field "target" kvs <*> field to_bool false "readonly" kvs.

(** Entries that cannot be decoded are skipped. *)
Definition parseRootfsMounts (rawMounts : list any) : list MountInfo :=
  omap (to_struct (MkMountInfo "" "" false) decode_mount) rawMounts.

Definition to_array (v : any) : option (list any) := match v with JArray l => Some l | _ => None end.

Record rootfsJSON := MkRootfsJSON { rj_Type : string; rj_ImageURL : string; rj_Workdir : string; rj_Mounts : list any }.
Definition decode_rootfs (kvs : list (string * any)) : option rootfsJSON :=
  Some MkRootfsJSON <*> string_field "type" kvs <*> string_field "imageurl" kvs <*> string_field "workdir" kvs
                    <*> field to_array [] "mounts" kvs.

Definition parseRootfs (rootfsStr hostUser workspace : string) : option RootfsInfo :=
  let info :=
    if bool_decide (rootfsStr = "") then MkRootfsInfo "" "" hostUser workspace "" []
    else
      match Unmarshal rootfsStr ≫= to_struct (MkRootfsJSON "" "" "" []) decode_rootfs with
      | None => MkRootfsInfo "" "" hostUser workspace "" []
      | Some rf => MkRootfsInfo (rj_Type rf) (rj_ImageURL rf) hostUser workspace (rj_Workdir rf) (parseRootfsMounts (rj_Mounts rf))
      end in
  if negb (bool_decide (ri_Type info = "")) || negb (bool_decide (ri_ImageURL info = "")) || negb (bool_decide (ri_User info = ""))
     || negb (bool_decide (ri_Workspace info = "")) || negb (bool_decide (ri_Mounts info = []))
  then Some info else None.

Section ports.
  Variable unicode_lower : string → string.

Definition decode_forwarding (kvs : list (string * any)) : option (Z * string) :=
  Some pair <*> int_field "port" kvs <*> string_field "protocol" kvs.

Definition port_label (pf : Z * string) : string :=
  if bool_decide (pf.2 = "") then FormatInt pf.1 else ToLower unicode_lower pf.2 +:+ ":" +:+ FormatInt pf.1.

Definition parsePorts (networkStr : string) : list string :=
  if bool_decide (networkStr = "") then []
  else
    match Unmarshal networkStr ≫= to_struct [] (field (to_slice (to_struct (0%Z, "") decode_forwarding)) [] "portForwardings") with
    | None => []
    | Some pfs => port_label <$> pfs
    end.
End ports.

Definition parseEnvVars (envStr : string) : option (gmap string string) :=
  if bool_decide (envStr = "") then None
  else
    match Unmarshal_env envStr with
    | Some env => if bool_decide (env = ∅) then None else Some env
    | None => None
    end.

(** ** Views *)

Record InstanceBrief := MkBrief { ib_InstanceID : string; ib_NodeIP : string; ib_SandboxIP : string; ib_SandboxType : string }.
Record InstanceDetail := MkDetail {
  id_brief : InstanceBrief; id_SandboxID : string; id_TraceID : string; id_Rootfs : option RootfsInfo; id_Ports : list string;
  id_EnvVars : option (gmap string string); id_Resources : gmap string spec_float; id_StartTime : string;
  id_StatusCode : Z; id_Status : string; id_StatusMsg : string }.

Definition instanceStateName (code : Z) : string :=
  match code with
  | 1 => "SCHEDULING" | 2 => "CREATING" | 3 => "RUNNING" | 4 => "FAILED" | 6 => "FATAL" | 7 => "SCHEDULE_FAILED"
  | 11 => "SUB_HEALTH" | _ => "UNKNOWN"
  end%Z.

(** Storage is kept in bytes and shown in MiB. *)
Definition flattenResources (m : gmap string Resource) : gmap string spec_float :=
  map_imap (λ name r, Some (if bool_decide (name = "storage") then SFdiv 53 1024 (r_Value r) (S754_finite false 4503599627370496 (-32)) else r_Value r)) m.

Definition node_ip (s : Store) (instanceID : string) : string :=
  match st_Get s instanceID with Some ep => ExtractIP (ep_ProxyGrpcAddress ep) | None => "" end.

Definition ListHandler (s : Store) : list InstanceBrief :=
  (λ su, MkBrief (su_InstanceID su) (node_ip s (su_InstanceID su)) (su_ContainerIP su) (su_SandboxType su)) <$>
    filter (λ su, su_SandboxType su ≠ "") (ListSummaries s "" "").

Section get.
  Variable unicode_lower : string → string.

Definition option_of (opts : gmap string string) (k : string) : string := default "" (opts !! k).

(** [applyDetailCreateOptions]. *)
Definition detail_of (s : Store) (instanceID : string) (su : Summary) : InstanceDetail :=
  let opts := su_CreateOptions su in
  let none := bool_decide (opts = ∅) in
  MkDetail (MkBrief (su_InstanceID su) (node_ip s instanceID) (su_ContainerIP su) (su_SandboxType su)) (su_ContainerID su)
    (if none then "" else option_of opts "trace_id")
    (if none then None else parseRootfs (option_of opts "rootfs") (option_of opts "host_user") (option_of opts "workspace"))
    (if none then [] else parsePorts unicode_lower (option_of opts "network"))
    (if none then None else parseEnvVars (option_of opts "DELEGATE_ENV_VAR"))
    (flattenResources (su_Resources su)) (su_StartTime su) (su_StatusCode su) (instanceStateName (su_StatusCode su)) (su_StatusMsg su).

(** [None] is the answer 404. *)
Definition GetHandler (s : Store) (instanceID : string) : option InstanceDetail :=
  match ListSummaries s "" instanceID with
  | [] => None
  | su :: _ => Some (detail_of s instanceID su)
  end.
End get.

(** ** Deletion *)

Inductive delete_response := DeleteNoID | DeleteNotFound | DeleteAccepted.

Record kill := MkKill { k_instance : string; k_signal : Z; k_tenant : string; k_trace : string }.

Definition lookupAgentInstanceSummaryExists (s : Store) (instanceID : string) : bool :=
  match ListSummaries s "" instanceID with [] => false | _ => true end.

(** The answer and the kill that starts in the background. *)
Definition DeleteHandler (order : list string → list string) (r : registry) (s : Store) (c : gin_ctx) (instanceID : string) : delete_response * option kill :=
  if bool_decide (instanceID = "") then (DeleteNoID, None)
  else
    match GetInstanceByIDAcrossFunctions order r instanceID, lookupAgentInstanceSummaryExists s instanceID with
    | None, false => (DeleteNotFound, None)
    | _, _ => (DeleteAccepted, Some (MkKill instanceID 1 (kill_tenant c) (header c "X-Trace-Id")))
    end.

(** [failed]: the kill returned an error. *)
Definition killAgentInstanceInBackground (failed : bool) (instanceID : string) (s : Store) : Store :=
  if failed && lookupAgentInstanceSummaryExists s instanceID then Delete s instanceID else s.
