(* ===== verification/AgentFacts.v ===== *)
(** * The agent API: theorems

    What a create request that is accepted leads to: mounts that passed the
    checks, options that a later get shows as they were given, timeouts within
    their bounds, one identity per namespace and name; and the ways around the
    checks. *)

From S2P Require Import Prelude GoStrings Hashing Json JsonMarshal JsonReplace Urn Middleware SandboxLifecycle InvokeResponse AgentQuery Agent.
Local Open Scope string_scope.

(** ** Options *)

Definition opt (k : string) (o : InvokeOptions) : option string := CreateOpt o !! k.

Lemma opt_set k k' v o : opt k (set_opt k' v o) = if decide (k = k') then Some v else opt k o.
Proof. unfold opt, set_opt, with_opts. cbn. case_decide as H; [subst; by rewrite lookup_insert_eq|by rewrite lookup_insert_ne by congruence]. Qed.

Lemma opt_if k (b : bool) o o' : opt k (if b then o else o') = if b then opt k o else opt k o'.
Proof. by destruct b. Qed.

Lemma if_same {A} (b : bool) (x : A) : (if b then x else x) = x.
Proof. by destruct b. Qed.

Lemma opt_code_paths k l o : opt k (with_code_paths l o) = opt k o.
Proof. done. Qed.
Lemma opt_resources k cpu mem o : opt k (with_resources cpu mem o) = opt k o.
Proof. done. Qed.
Lemma opt_recover k n o : opt k (with_recover n o) = opt k o.
Proof. done. Qed.

Lemma opt_add_env k name v o : k ≠ DELEGATE_ENV_VAR → opt k (add_env name v o) = opt k o.
Proof. intros H. unfold add_env. destruct (default _ _ !! _); [done|]. rewrite opt_set. by rewrite decide_False. Qed.

(** Rewrites the lookup of a literal key through the options. *)
Ltac opt_simpl :=
  repeat (rewrite ?opt_set, ?opt_if, ?opt_code_paths, ?opt_resources, ?opt_recover;
          repeat match goal with |- context [decide (?a = ?b :> string)] =>
            first [rewrite (decide_False (P := a = b)) by done | rewrite (decide_True (P := a = b)) by done] end;
          rewrite ?if_same).

Lemma option_text_opt k o : option_text k o = opt k o ≫= λ s, if bool_decide (s = "") then None else Some s.
Proof. done. Qed.

(** ** The environment of the instance *)

(** The option holds the environment, and is not there when that is empty. *)
Definition env_opt (E : gmap string string) (o : InvokeOptions) : Prop :=
  opt DELEGATE_ENV_VAR o = if bool_decide (E = ∅) then None else Some (Marshal_env E).

Lemma Marshal_env_nonempty E : Marshal_env E ≠ "".
Proof. unfold Marshal_env, map_json. cbn [Marshal]. by rewrite app_cons_str. Qed.

Lemma env_opt_read E o : env_opt E o → env_valid E → default ∅ (option_text DELEGATE_ENV_VAR o ≫= Unmarshal_env) = E.
Proof.
  intros H Hv. rewrite option_text_opt, H. case_bool_decide as HE; [by subst|]. cbn [mbind option_bind].
  rewrite bool_decide_eq_false_2 by apply Marshal_env_nonempty. cbn [mbind option_bind]. by rewrite Unmarshal_env_Marshal.
Qed.

Lemma env_opt_parse E o : env_opt E o → env_valid E →
  parseEnvVars (option_of (CreateOpt o) DELEGATE_ENV_VAR) = if bool_decide (E = ∅) then None else Some E.
Proof.
  intros H Hv. unfold parseEnvVars, option_of. fold (opt DELEGATE_ENV_VAR o). rewrite H. destruct (bool_decide (E = ∅)) eqn:HE; cbn [from_option id]; [done|].
  rewrite bool_decide_eq_false_2 by apply Marshal_env_nonempty. rewrite Unmarshal_env_Marshal by done.
  by rewrite HE.
Qed.

Lemma env_valid_union E E' : env_valid E → env_valid E' → env_valid (E ∪ E').
Proof. intros H H' k v [Hk|[_ Hk]]%lookup_union_Some_raw; [by apply H|by apply H']. Qed.

(** A variable that is set keeps its value, another is added. *)
Lemma add_env_opt name v E o :
  env_opt E o → env_valid E → env_opt (E ∪ {[name := v]}) (add_env name v o).
Proof.
  intros H Hv. unfold add_env. rewrite (env_opt_read E o H Hv). destruct (E !! name) as [w|] eqn:En.
  - assert (E ∪ {[name := v]} = E) as ->; [|done]. apply map_eq. intros k. rewrite lookup_union.
    destruct (decide (k = name)) as [->|Hk]; [by rewrite En, lookup_singleton_eq|].
    rewrite lookup_singleton_ne by done. by destruct (E !! k).
  - unfold env_opt. opt_simpl. rewrite bool_decide_eq_false_2.
    + do 2 f_equal. apply map_eq. intros k. rewrite lookup_union. destruct (decide (k = name)) as [->|Hk].
      * by rewrite En, lookup_insert_eq, lookup_singleton_eq.
      * rewrite lookup_insert_ne, lookup_singleton_ne by done. by destruct (E !! k).
    + intros HE. apply (f_equal (.!! name)) in HE. by rewrite lookup_union, En, lookup_singleton_eq, lookup_empty in HE.
Qed.

(** What the function was registered with. *)
Definition static_env (s : FuncSpec) : gmap string string :=
  if bool_decide (fs_Environment s = "") then ∅ else default ∅ (Unmarshal_env (fs_Environment s)).

Lemma merge_static_opt s E o : env_opt E o → env_valid E → env_opt (E ∪ static_env s) (mergeAgentStaticEnv s o).
Proof.
  intros H Hv. unfold mergeAgentStaticEnv, static_env. case_bool_decide; [by rewrite (right_id_L ∅ _)|].
  destruct (Unmarshal_env (fs_Environment s)) as [se|]; cbn [from_option id]; [|by rewrite (right_id_L ∅ _)].
  case_bool_decide as Hs; [subst; by rewrite (right_id_L ∅ _)|]. rewrite (env_opt_read E o H Hv). unfold env_opt. opt_simpl.
  rewrite bool_decide_eq_false_2; [done|]. intros HE.  apply Hs. apply map_eq. intros k. rewrite lookup_empty. apply (f_equal (.!! k)) in HE. rewrite lookup_union, lookup_empty in HE.
  by destruct (E !! k), (se !! k).
Qed.

Lemma opt_static k s o : k ≠ DELEGATE_ENV_VAR → opt k (mergeAgentStaticEnv s o) = opt k o.
Proof.
  intros H. unfold mergeAgentStaticEnv. case_bool_decide; [done|]. destruct (Unmarshal_env _); [|done]. case_bool_decide; [done|].
  rewrite opt_set. by rewrite decide_False.
Qed.

(** ** The root file system *)

(** The placeholder of the workspace in a text. *)
Definition with_user (user s : string) : string :=
  if bool_decide (user = "") then ReplaceAll s ("/home/" +:+ agentUserPlaceholder) agentDefaultWorkspaceTarget
  else ReplaceAll s agentUserPlaceholder user.
Definition user_mount (user : string) (m : Mount) : Mount := MkMount (with_user user (Source m)) (with_user user (Target m)) (ReadOnly m).

Definition mount_valid (m : Mount) : Prop := valid_utf8 0 (Source m) = true ∧ valid_utf8 0 (Target m) = true.

Lemma good_mounts ms : Forall mount_valid ms → forallb good (map mount_json ms) = true.
Proof. induction 1 as [|m ms [H1 H2] _ IH]; [done|]. cbn in *. by rewrite H1, H2, IH. Qed.

Lemma good_mounts_json ms : Forall mount_valid ms → good (mounts_json ms) = true.
Proof. intros H. cbn. by rewrite good_mounts. Qed.

(** Replacing the placeholder in the text replaces it in the mounts. *)
Lemma with_user_mounts user ms :
  plain user = true → Forall mount_valid ms → with_user user (Marshal (mounts_json ms)) = Marshal (mounts_json (map (user_mount user) ms)).
Proof.
  intros Hp Hm. apply good_mounts_json in Hm. unfold user_mount, with_user. destruct (bool_decide (user = "")).
  - destruct (Unmarshal_replaced "/" "home/__AGENT_USER__" agentDefaultWorkspaceTarget ltac:(by left) eq_refl eq_refl _ Hm) as [H _].
    etrans; [exact H|]. f_equal. cbn [mounts_json replace_strings map fst snd]. unfold mounts_json. rewrite !map_map. done.
  - destruct (Unmarshal_replaced "_" "_AGENT_USER__" user ltac:(by right) eq_refl Hp _ Hm) as [H _].
    etrans; [exact H|]. f_equal. cbn [mounts_json replace_strings map fst snd]. unfold mounts_json. rewrite !map_map. done.
Qed.

Lemma user_mount_valid user ms : plain user = true → Forall mount_valid ms → Forall mount_valid (map (user_mount user) ms).
Proof.
  intros Hp. assert (∀ s, valid_utf8 0 s = true → valid_utf8 0 (with_user user s) = true) as Hs.
  { intros s Hs. unfold with_user. destruct (bool_decide (user = "")).
    - by apply (R_body "/" "home/__AGENT_USER__" agentDefaultWorkspaceTarget ltac:(by left) eq_refl eq_refl (String.length s)).
    - by apply (R_body "_" "_AGENT_USER__" user ltac:(by right) eq_refl Hp (String.length s)). }
  induction 1 as [|m ms [H1 H2] _ IH]; constructor; [|done]. split; cbn; by apply Hs.
Qed.

(** The root file system with an image. *)
Definition rootfs_json (imageurl workdir : string) (ms : list Mount) : any :=
  JObject ([("imageurl", JString imageurl); ("mounts", JArray (map mount_json ms)); ("type", JString "image")] ++ omit_string "workdir" workdir).

Section merge.
  Context (float64 : string → option string).

Lemma normalise_mounts ms : mapM (normalise float64) (map mount_json ms) = Some (map mount_json ms).
Proof. induction ms as [|m ms IH]; [done|]. cbn [map mapM]. rewrite IH. reflexivity. Qed.

Lemma decode_mounts ms : Forall mount_valid ms →
  decode_map float64 (Marshal (mounts_json ms)) = Some {[ "mounts" := JArray (map mount_json ms) ]}.
Proof.
  intros Hm. unfold decode_map. rewrite Unmarshal_Marshal by (by apply good_mounts_json). unfold mounts_json. cbn [mapM fst snd].
  cbn [normalise]. rewrite normalise_mounts. reflexivity.
Qed.

Definition image_map (imageurl workdir : string) : gmap string any :=
  to_map ([("imageurl", JString imageurl); ("mounts", JArray []); ("type", JString "image")] ++ omit_string "workdir" workdir).

Lemma decode_image imageurl workdir : valid_utf8 0 imageurl = true → valid_utf8 0 workdir = true →
  decode_map float64 (Marshal (image_json imageurl workdir)) = Some (image_map imageurl workdir).
Proof.
  intros H1 H2. unfold decode_map. rewrite Unmarshal_Marshal.
  - unfold image_json, image_map, omit_string. destruct (bool_decide (workdir = "")); reflexivity.
  - unfold image_json, omit_string. destruct (bool_decide (workdir = "")); cbn; by rewrite H1, ?H2.
Qed.

Lemma merge_rootfs imageurl workdir ms :
  Forall mount_valid ms → valid_utf8 0 imageurl = true → valid_utf8 0 workdir = true →
  mergeRootfsJSON float64 (Marshal (mounts_json ms)) (Marshal (image_json imageurl workdir)) = Marshal (rootfs_json imageurl workdir ms).
Proof.
  intros Hm H1 H2. unfold mergeRootfsJSON. rewrite decode_mounts, decode_image by done. f_equal.
  unfold image_map, rootfs_json, omit_string. destruct (bool_decide (workdir = "")); reflexivity.
Qed.
End merge.

Lemma good_rootfs imageurl workdir ms :
  Forall mount_valid ms → valid_utf8 0 imageurl = true → valid_utf8 0 workdir = true → good (rootfs_json imageurl workdir ms) = true.
Proof.
  intros Hm H1 H2. unfold rootfs_json, omit_string. destruct (bool_decide (workdir = "")); cbn; by rewrite H1, ?H2, good_mounts.
Qed.

(** ** What a get shows *)

Definition mount_info (m : Mount) : MountInfo := MkMountInfo (Source m) (Target m) (ReadOnly m).

Lemma parse_mounts ms : parseRootfsMounts (map mount_json ms) = mount_info <$> ms.
Proof. induction ms as [|m ms IH]; [done|]. cbn [map fmap list_fmap]. rewrite <- IH. reflexivity. Qed.

Lemma Marshal_nonempty v : good v = true → Marshal v ≠ "".
Proof. intros H. by destruct (Marshal_head v H) as (c & r & -> & _). Qed.

Lemma parse_rootfs imageurl workdir ms user workspace :
  Forall mount_valid ms → valid_utf8 0 imageurl = true → valid_utf8 0 workdir = true →
  parseRootfs (Marshal (rootfs_json imageurl workdir ms)) user workspace
  = Some (MkRootfsInfo "image" imageurl user workspace workdir (mount_info <$> ms)).
Proof.
  intros Hm H1 H2. unfold parseRootfs. rewrite (bool_decide_eq_false_2 (Marshal _ = "")) by (by apply Marshal_nonempty, good_rootfs).
  rewrite Unmarshal_Marshal by (by apply good_rootfs). cbn [mbind option_bind].
  assert (to_struct (MkRootfsJSON "" "" "" []) decode_rootfs (rootfs_json imageurl workdir ms)
          = Some (MkRootfsJSON "image" imageurl workdir (map mount_json ms))) as ->.
  { unfold rootfs_json, omit_string. case_bool_decide; [subst; reflexivity|reflexivity]. }
  cbn [rj_Type rj_ImageURL rj_Workdir rj_Mounts ri_Type]. by rewrite parse_mounts.
Qed.

Lemma parse_bare ms user workspace :
  Forall mount_valid ms → ms ≠ [] →
  parseRootfs (Marshal (mounts_json ms)) user workspace = Some (MkRootfsInfo "" "" user workspace "" (mount_info <$> ms)).
Proof.
  intros Hm Hne. unfold parseRootfs. rewrite (bool_decide_eq_false_2 (Marshal _ = "")) by (by apply Marshal_nonempty, good_mounts_json).
  rewrite Unmarshal_Marshal by (by apply good_mounts_json). cbn [mbind option_bind].
  change (to_struct _ _ (mounts_json ms)) with (Some (MkRootfsJSON "" "" "" (map mount_json ms))).
  cbn [rj_Type rj_ImageURL rj_Workdir rj_Mounts ri_Type ri_ImageURL ri_User ri_Workspace ri_Mounts]. rewrite parse_mounts.
  rewrite (bool_decide_eq_false_2 (mount_info <$> ms = [])) by (by destruct ms). by rewrite !orb_true_r.
Qed.

(** *** Ports *)

Lemma ascii_valid s : is_ascii s = true → valid_utf8 0 s = true.
Proof. induction s as [|c s IH]; [done|]. cbn [is_ascii valid_utf8]. intros H. breflect. rewrite width_ascii by done. by apply IH. Qed.

Lemma is_ascii_map f s : (∀ c, is_ascii_byte c = true → is_ascii_byte (f c) = true) → is_ascii s = true → is_ascii (str_map f s) = true.
Proof. intros Hf. induction s as [|c s IH]; [done|]. cbn. intros H. breflect. rewrite Hf, IH by done. done. Qed.

Section ports.
  Context (unicode_lower unicode_upper : string → string).

Lemma forwarding_valid p n proto :
  is_ascii p = true → port_forwarding unicode_upper p = Some (n, proto) → (- 2 ^ 63 ≤ n < 2 ^ 63)%Z ∧ valid_utf8 0 proto = true.
Proof.
  intros Hp. unfold port_forwarding. destruct (IndexByte p ":") as [i|].
  - intros (k & H & [= -> ->])%fmap_Some. split; [by eapply Atoi_range|]. pose proof (is_ascii_take i p Hp) as Ht.
    unfold ToUpper. rewrite Ht. apply ascii_valid, is_ascii_map; [|done].
    intros [[] [] [] [] [] [] [] []] Hc; try discriminate Hc; done.
  - intros (k & H & [= -> ->])%fmap_Some. split; [by eapply Atoi_range|done].
Qed.

Definition forwarding_json (pf : Z * string) : any := JObject [("port", JNumber (FormatInt pf.1)); ("protocol", JString pf.2)].
Definition forwarding_ok (pf : Z * string) : Prop := (- 2 ^ 63 ≤ pf.1 < 2 ^ 63)%Z ∧ valid_utf8 0 pf.2 = true.

Lemma good_forwarding pf : forwarding_ok pf → good (forwarding_json pf) = true.
Proof.
  intros [H1%good_int H2]. unfold forwarding_json. cbn [good forallb fst snd]. cbn [good] in H1. rewrite H1, H2. reflexivity.
Qed.

Lemma good_network pfs : Forall forwarding_ok pfs → good (JObject [("portForwardings", JArray (map forwarding_json pfs))]) = true.
Proof.
  intros H. cbn [good forallb fst snd]. apply andb_true_intro. split; [|done]. apply andb_true_intro. split; [done|].
  apply forallb_forall. intros x (pf & <- & Hin)%in_map_iff. apply good_forwarding. rewrite Forall_forall in H. by apply H, list_elem_of_In.
Qed.

Lemma decode_forwarding_json pf : forwarding_ok pf → to_struct (0%Z, "") decode_forwarding (forwarding_json pf) = Some pf.
Proof.
  intros [H1 _]. destruct pf as [n proto]. unfold forwarding_json, to_struct, decode_forwarding. cbn [fst snd] in *.
  change (string_field "protocol" _) with (Some proto).
  change (int_field "port" _) with (match Atoi (FormatInt n) with None => None | Some a => Some a end). by rewrite Atoi_FormatInt.
Qed.

Lemma decode_forwardings pfs : Forall forwarding_ok pfs → mapM (to_struct (0%Z, "") decode_forwarding) (map forwarding_json pfs) = Some pfs.
Proof. induction 1 as [|pf pfs H _ IH]; [done|]. cbn [map mapM]. by rewrite decode_forwarding_json, IH. Qed.

(** A get shows the ports that were understood, in order. *)
Definition shown_ports (ports : list string) : list string := port_label unicode_lower <$> omap (port_forwarding unicode_upper) ports.

Lemma parse_network ports : Forall (λ p, is_ascii p = true) ports →
  parsePorts unicode_lower (Marshal (network_json unicode_upper ports)) = shown_ports ports.
Proof.
  intros Hp. unfold shown_ports. change (network_json unicode_upper ports)
    with (JObject [("portForwardings", JArray (map forwarding_json (omap (port_forwarding unicode_upper) ports)))]).
  set (pfs := omap (port_forwarding unicode_upper) ports).
  assert (Forall forwarding_ok pfs) as Hv.
  { apply Forall_forall. intros [n proto] (p & Hin & H)%list_elem_of_omap. rewrite Forall_forall in Hp.
    by apply (forwarding_valid p); [apply Hp|]. }
  clearbody pfs. unfold parsePorts. rewrite (bool_decide_eq_false_2 (Marshal _ = "")) by (by apply Marshal_nonempty, good_network).
  rewrite Unmarshal_Marshal by (by apply good_network). cbn [mbind option_bind].
  assert (to_struct [] (field (to_slice (to_struct (0%Z, "") decode_forwarding)) [] "portForwardings")
            (JObject [("portForwardings", JArray (map forwarding_json pfs))]) = Some pfs) as ->; [|done].
  unfold to_struct at 1. etrans; [|exact (decode_forwardings pfs Hv)]. reflexivity.
Qed.
End ports.

(** ** Accepted mounts *)

Definition safe (m : Mount) : Prop := IsAbs (Source m) = true ∧ isSafeBindSource (Source m) = true.

Lemma validate_safe path label : validateBindSource path label = Ok () → IsAbs path = true ∧ isSafeBindSource path = true.
Proof. unfold validateBindSource. destruct (IsAbs path), (isSafeBindSource path); done. Qed.

Definition workspace_mount (req : CreateAgentRequest) : list Mount :=
  if bool_decide (Workspace req = "") then [] else [MkMount (Workspace req) ("/home/" +:+ agentUserPlaceholder) false].
Definition ssh_mount (e : process_env) : list Mount :=
  if EqualFold (TrimSpace (sshEnable e)) "true" then [MkMount (TrimSpace (sshPublicKeyDirectory e)) sshContainerMountDirectory true] else [].

(** What a request asks for: the workspace, its mounts and the keys of the platform. *)
Definition requested (e : process_env) (req : CreateAgentRequest) : list Mount := workspace_mount req ++ Mounts req ++ ssh_mount e.

Definition mounts_opt (ms : list Mount) : option string := match ms with [] => None | _ => Some (Marshal (mounts_json ms)) end.

Lemma validate_sources_ok ms : validate_sources ms = Ok () → Forall safe ms.
Proof.
  induction ms as [|m ms IH]; [constructor|]. cbn [validate_sources]. intros ([] & H1%validate_safe & H2)%res_bind_ok. constructor; auto.
Qed.

Lemma ssh_ok e ms ms' : appendPlatformSSHMount e ms = Ok ms' → ms' = (ms ++ ssh_mount e)%list ∧ Forall safe (ssh_mount e).
Proof.
  unfold appendPlatformSSHMount, ssh_mount. destruct (EqualFold _ _); cbn [negb].
  - intros ([] & H1%validate_safe & H2)%res_bind_ok. destruct (list_find _ _) as [[]|]; [done|]. injection H2 as <-. split; [done|]. by constructor.
  - intros [= <-]. by rewrite app_nil_r.
Qed.

Lemma apply_mounts_ok e req o o' :
  applyAgentRootfsMounts e req o = Ok o' →
  Forall safe (requested e req) ∧
  opt "rootfs" o' = (match requested e req with [] => opt "rootfs" o | ms => Some (Marshal (mounts_json ms)) end) ∧
  opt "workspace" o' = (if bool_decide (Workspace req = "") then opt "workspace" o else Some (Workspace req)) ∧
  (∀ k, k ≠ "rootfs" → k ≠ "workspace" → opt k o' = opt k o).
Proof.
  unfold applyAgentRootfsMounts. intros ([ms0 o1] & H1 & H2)%res_bind_ok. cbn [fst snd] in H2.
  apply res_bind_ok in H2 as ([] & Hs%validate_sources_ok & H2). apply res_bind_ok in H2 as (ms & [Hms Hssh]%ssh_ok & H2).
  assert (ms0 = workspace_mount req ∧ Forall safe ms0 ∧ o1 = (if bool_decide (Workspace req = "") then o else set_opt "workspace" (Workspace req) o))
    as (-> & Hw & Ho1).
  { unfold workspace_mount. destruct (bool_decide (Workspace req = "")); [by injection H1 as <- <-|].
    apply res_bind_ok in H1 as ([] & Hv%validate_safe & H1). injection H1 as <- <-. split; [done|]. split; [|done]. by constructor. }
  assert (ms = requested e req) as Hreq by (unfold requested; rewrite Hms; by rewrite <- (assoc_L (++)%list)).
  clear Hms. subst ms. split; [unfold requested; by repeat apply Forall_app_2|]. subst o1.
  destruct (requested e req) as [|m ms]; injection H2 as <-; (split; [|split; [|intros k Hk Hk']]);
    opt_simpl; try done; repeat (rewrite ?opt_set, ?opt_if, ?decide_False, ?if_same by done); done.
Qed.

(** ** The container of an instance *)

Record container := MkContainer { ct_image : string; ct_user : string; ct_workdir : string; ct_ports : list string }.

(** From the request or, for a registered function, from its specification. *)
Definition container_of (inline : bool) (l : loads) (req : CreateAgentRequest) : option container :=
  if inline then (λ f, MkContainer (ImageURL f) (User f) (Workdir f) (Ports f)) <$> (Spec req ≫= Rootfs)
  else (λ s, MkContainer (fs_ImageURL s) (fs_User s) "" (fs_Ports s)) <$> l_meta l.

Definition container_valid (ct : container) : Prop :=
  plain (ct_user ct) = true ∧ valid_utf8 0 (ct_image ct) = true ∧ valid_utf8 0 (ct_workdir ct) = true ∧
  Forall (λ p, is_ascii p = true) (ct_ports ct).

(** The mounts of the container: the placeholder stands for its user. *)
Definition mounts_of (ct : option container) (ms : list Mount) : list Mount :=
  match ct with None => ms | Some ct => map (user_mount (ct_user ct)) ms end.

Definition rootfs_opt (ct : option container) (ms : list Mount) : option string :=
  match ct with
  | None => mounts_opt ms
  | Some c => if bool_decide (ct_image c = "") then mounts_opt (mounts_of ct ms)
              else Some (Marshal (rootfs_json (ct_image c) (ct_workdir c) (mounts_of ct ms)))
  end.

Section create.
  Context (unicode_upper : string → string) (float64 : string → option string).

(** The steps that an inline and a registered container share. *)
Lemma rootfs_step ct ms o :
  container_valid ct → Forall mount_valid ms → opt "rootfs" o = mounts_opt ms →
  opt "rootfs" (apply_image float64 (ct_image ct) (ct_workdir ct) (replaceAgentUserPlaceholder (ct_user ct) o)) = rootfs_opt (Some ct) ms.
Proof.
  intros (Hp & Hi & Hw & _) Hm Ho. set (o' := replaceAgentUserPlaceholder _ o).
  pose proof (user_mount_valid _ ms Hp Hm) as Hm'.
  assert (opt "rootfs" o' = mounts_opt (map (user_mount (ct_user ct)) ms)) as Ho'.
  { unfold o', replaceAgentUserPlaceholder. rewrite option_text_opt, Ho. destruct ms as [|m ms]; [done|].
    unfold mounts_opt at 1. cbn [mbind option_bind]. rewrite bool_decide_eq_false_2 by (by apply Marshal_nonempty, good_mounts_json).
    pose proof (with_user_mounts (ct_user ct) (m :: ms) Hp Hm) as E. unfold with_user in E.
    destruct (bool_decide (ct_user ct = "")); cbn [negb]; opt_simpl; exact (f_equal Some E). }
  unfold apply_image, rootfs_opt. destruct (bool_decide (ct_image ct = "")); [done|]. cbn [mounts_of]. rewrite option_text_opt, Ho'.
  destruct ms as [|m ms]; cbn [map mounts_opt mbind option_bind].
  - opt_simpl. done.
  - rewrite bool_decide_eq_false_2 by (by apply Marshal_nonempty, good_mounts_json). opt_simpl. f_equal.
    by apply (merge_rootfs float64 _ _ (map (user_mount (ct_user ct)) (m :: ms))).
Qed.

Lemma opt_image k img wd o : k ≠ "rootfs" → opt k (apply_image float64 img wd o) = opt k o.
Proof.
  intros H. unfold apply_image. case_bool_decide; [done|]. destruct (option_text _ _); rewrite opt_set; by rewrite decide_False.
Qed.
Lemma opt_placeholder k user o : k ≠ "rootfs" → opt k (replaceAgentUserPlaceholder user o) = opt k o.
Proof.
  intros H. unfold replaceAgentUserPlaceholder. destruct (option_text _ _); [|done]. rewrite opt_if, !opt_set, !decide_False by done.
  by rewrite if_same.
Qed.
Lemma opt_code_path k s o : k ≠ DelegateDownloadKey → opt k (applyAgentCodePath s o) = opt k o.
Proof. intros H. unfold applyAgentCodePath. rewrite !opt_if, !opt_set, !decide_False by done. by rewrite !if_same. Qed.
Lemma opt_inline_code k c o : k ≠ DelegateDownloadKey → opt k (applyAgentInlineCode c o) = opt k o.
Proof.
  intros H. unfold applyAgentInlineCode. destruct (bool_decide (Handler c = "")); cbn; rewrite ?opt_code_paths, opt_if, opt_set, decide_False by done;
    by rewrite if_same.
Qed.

(** The variables that commands and probes add. *)
Definition cmds_env (cmds : list (option (list string))) : gmap string string :=
  match cmds with [] => ∅ | _ => {[ agentBootstrapCmdEnv := Marshal (cmds_json cmds) ]} end.
Definition probes_env (ps : option ProbeSet) : gmap string string :=
  match ps with Some ps => {[ agentBootstrapProbeEnv := Marshal (probes_json ps) ]} | None => ∅ end.

Lemma singleton_valid name v : valid_utf8 0 name = true → good v = true → env_valid {[ name := Marshal v ]}.
Proof.
  intros Hn Hg. apply map_Forall_singleton. split; [done|]. pose proof (valid_Marshal v "" Hg) as H. by rewrite app_nil_r_str in H.
Qed.

Lemma cmds_env_valid cmds : good (cmds_json cmds) = true → env_valid (cmds_env cmds).
Proof. intros H. destruct cmds; [apply map_Forall_empty|by apply singleton_valid]. Qed.
Lemma probes_env_valid ps : (∀ p, ps = Some p → good (probes_json p) = true) → env_valid (probes_env ps).
Proof. intros H. destruct ps as [p|]; [|apply map_Forall_empty]. apply singleton_valid; [done|by apply H]. Qed.

Lemma cmds_opt E cmds o : env_opt E o → env_valid E → env_opt (E ∪ cmds_env cmds) (apply_cmds cmds o).
Proof. intros H Hv. destruct cmds as [|c cmds]; cbn [cmds_env]; [by rewrite (right_id_L ∅ _)|]. by apply add_env_opt. Qed.

Lemma opt_cmds k cmds o : k ≠ DELEGATE_ENV_VAR → opt k (apply_cmds cmds o) = opt k o.
Proof. intros H. destruct cmds; [done|]. by apply opt_add_env. Qed.

Lemma opt_ports k ports o : k ≠ "network" → opt k (apply_ports unicode_upper ports o) = opt k o.
Proof. intros H. destruct ports; [done|]. unfold apply_ports, applyAgentPorts. rewrite opt_set. by rewrite decide_False. Qed.

(** The options that a get reads, before and after the container is applied. *)
Record start_options (ms : list Mount) (E : gmap string string) (o : InvokeOptions) : Prop := {
  so_rootfs : opt "rootfs" o = mounts_opt ms; so_user : opt "host_user" o = None; so_network : opt "network" o = None; so_env : env_opt E o }.

Definition user_opt (ct : option container) : option string :=
  ct ≫= λ c, if bool_decide (ct_user c = "") then None else Some (ct_user c).
Definition network_opt (ct : option container) : option string :=
  ct ≫= λ c, match ct_ports c with [] => None | ports => Some (Marshal (network_json unicode_upper ports)) end.

Record shown_options (ct : option container) (ms : list Mount) (E : gmap string string) (o : InvokeOptions) : Prop := {
  sh_rootfs : opt "rootfs" o = rootfs_opt ct ms; sh_user : opt "host_user" o = user_opt ct;
  sh_network : opt "network" o = network_opt ct; sh_env : env_opt E o }.

Lemma network_step ports o :
  opt "network" o = None →
  opt "network" (apply_ports unicode_upper ports o)
  = match ports with [] => None | ps => Some (Marshal (network_json unicode_upper ps)) end.
Proof. intros H. destruct ports; [done|]. unfold apply_ports, applyAgentPorts. by opt_simpl. Qed.

Lemma start_shown ms E o : start_options ms E o → shown_options None ms E o.
Proof. by intros []. Qed.

(** The rewriting of a lookup through the steps. *)
Ltac opt_steps :=
  repeat (rewrite ?opt_ports, ?opt_image, ?opt_placeholder, ?opt_static, ?opt_code_path, ?opt_inline_code, ?opt_cmds by done; opt_simpl).

Lemma inline_shown req ms E o :
  let ct := container_of true (MkLoads None None None None) req in
  let cmds := match Spec req with Some c => Cmds c | None => [] end in
  (∀ c, ct = Some c → container_valid c) → Forall mount_valid ms → env_valid E →
  start_options ms E o → shown_options ct ms (E ∪ cmds_env cmds) (applyAgentInlineMeta unicode_upper float64 (Spec req) o).
Proof.
  intros ct cmds Hct Hm HE [H1 H2 H3 H4]. subst ct cmds. unfold container_of in *. destruct (Spec req) as [c|]; cbn [mbind option_bind] in *.
  2:{ cbn [applyAgentInlineMeta cmds_env]. rewrite (right_id_L ∅ _). by apply start_shown. }
  unfold applyAgentInlineMeta.
  set (o1 := if bool_decide (SandboxType c = "") then o else _).
  set (o2 := apply_cmds (Cmds c) o1). set (o3 := applyAgentInlineCode c o2).
  assert (start_options ms (E ∪ cmds_env (Cmds c)) o3) as [S1 S2 S3 S4].
  { split; [unfold o3, o2, o1; opt_steps; done..|]. unfold env_opt, o3. rewrite opt_inline_code by done. apply cmds_opt; [|done].
    unfold env_opt, o1. by opt_simpl. }
  clearbody o3. destruct (Rootfs c) as [f|]; [|by split].
  set (ct := MkContainer (ImageURL f) (User f) (Workdir f) (Ports f)). cbn [fmap option_fmap option_map].
  split.
  - rewrite opt_ports by done. apply (rootfs_step ct ms); [by apply Hct|done|]. by opt_simpl.
  - opt_steps. unfold user_opt. cbn [mbind option_bind ct_user]. by rewrite S2.
  - rewrite network_step; [by unfold network_opt; cbn; destruct (Ports f)|]. by opt_steps.
  - unfold env_opt. opt_steps. exact S4.
Qed.

Lemma registered_shown l req ms E o :
  let ct := container_of false l req in
  let cmds := match l_meta l with Some s => fs_Cmds s | None => [] end in
  let static := match l_meta l with Some s => static_env s | None => ∅ end in
  (∀ c, ct = Some c → container_valid c) → Forall mount_valid ms → env_valid E → env_valid static →
  start_options ms E o → shown_options ct ms (E ∪ static ∪ cmds_env cmds) (applyAgentFuncMeta unicode_upper float64 (l_meta l) o).
Proof.
  intros ct cmds static Hct Hm HE Hs [H1 H2 H3 H4]. subst ct cmds static. unfold container_of in *. destruct (l_meta l) as [s|].
  2:{ cbn [applyAgentFuncMeta cmds_env]. rewrite !(right_id_L ∅ _). by apply start_shown. }
  cbn [fmap option_fmap option_map] in *. set (ct := MkContainer _ _ _ _) in *. unfold applyAgentFuncMeta. split.
  - opt_steps. apply (rootfs_step ct ms); [by apply Hct|done|]. by opt_steps.
  - opt_steps. unfold user_opt. cbn [mbind option_bind ct_user ct]. by rewrite H2.
  - rewrite opt_cmds, opt_code_path, opt_static by done. rewrite network_step; [by unfold network_opt; cbn; destruct (fs_Ports s)|]. by opt_steps.
  - apply cmds_opt; [|by apply env_valid_union]. unfold env_opt. rewrite opt_code_path by done. apply merge_static_opt; [|done].
    unfold env_opt. by opt_steps.
Qed.

Definition static_of (inline : bool) (l : loads) : gmap string string :=
  if inline then ∅ else match l_meta l with Some s => static_env s | None => ∅ end.
Definition cmds_of (inline : bool) (l : loads) (req : CreateAgentRequest) : list (option (list string)) :=
  if inline then match Spec req with Some c => Cmds c | None => [] end else match l_meta l with Some s => fs_Cmds s | None => [] end.

(** The environment of an instance: what the request sets wins, the function
    fills in, then come the commands and the probes. *)
Definition instance_env (inline platform : bool) (l : loads) (req : CreateAgentRequest) : gmap string string :=
  EnvVars req ∪ static_of inline l ∪ cmds_env (cmds_of inline l req) ∪ probes_env (if platform then Spec req ≫= Probes else None).

(** Texts in UTF-8, as JSON requests have them, and a user name and ports that
    JSON prints as they are. *)
Record request_valid (inline : bool) (e : process_env) (l : loads) (req : CreateAgentRequest) : Prop := {
  rv_mounts : Forall mount_valid (requested e req);
  rv_container : ∀ c, container_of inline l req = Some c → container_valid c;
  rv_env : env_valid (EnvVars req);
  rv_static : env_valid (static_of inline l);
  rv_cmds : good (cmds_json (cmds_of inline l req)) = true;
  rv_probes : ∀ p, Spec req ≫= Probes = Some p → good (probes_json p) = true }.

Lemma create_opts_frame c req config o k :
  k ∈ ["rootfs"; "workspace"; "host_user"; "network"; DELEGATE_ENV_VAR] → opt k (applyAgentCreateOpts c req config o) = opt k o.
Proof.
  intros Hk. unfold applyAgentCreateOpts. rewrite !elem_of_cons, elem_of_nil in Hk.
  destruct Hk as [->|[->|[->|[->|[->|[]]]]]]; by opt_simpl.
Qed.

Lemma create_opts_trace c req config o : opt "trace_id" (applyAgentCreateOpts c req config o) = Some (header c "X-Trace-Id").
Proof. unfold applyAgentCreateOpts. by opt_simpl. Qed.

Lemma create_opts_graceful c req config o :
  opt "GRACEFUL_SHUTDOWN_TIME" (applyAgentCreateOpts c req config o) = Some (FormatInt (gracefulShutdownSeconds (preStopTimeout config))).
Proof. unfold applyAgentCreateOpts. by opt_simpl. Qed.

Lemma probe_opt E rs o : env_opt E o → env_valid E → env_opt (E ∪ probes_env (rs ≫= Probes)) (applyAgentProbeSpec rs o).
Proof.
  intros H Hv. unfold applyAgentProbeSpec. destruct (rs ≫= Probes) as [ps|]; cbn [probes_env]; [by apply add_env_opt|].
  by rewrite (right_id_L ∅ _).
Qed.

Lemma opt_probe k rs o : k ≠ DELEGATE_ENV_VAR → opt k (applyAgentProbeSpec rs o) = opt k o.
Proof. intros H. unfold applyAgentProbeSpec. destruct (rs ≫= Probes); [by apply opt_add_env|done]. Qed.

Lemma frame_shown ct ms E E' o o' :
  (∀ k, k ∈ ["rootfs"; "host_user"; "network"] → opt k o' = opt k o) → env_opt E' o' → shown_options ct ms E o → shown_options ct ms E' o'.
Proof. intros H HE [H1 H2 H3 _]. split; [rewrite H by set_solver; done..|done]. Qed.

Lemma initial_opts c req config : CreateOpt (initial_options c req config) = {[ "create_error_policy" := "last_failure_on_timeout" ]}.
Proof. unfold initial_options. by destruct (Spec req), (inline config). Qed.

Lemma initial_none c req config k : k ≠ "create_error_policy" → opt k (initial_options c req config) = None.
Proof. intros H. unfold opt. rewrite initial_opts. by rewrite lookup_singleton_ne. Qed.

Lemma opt_dynamic k req o : k ≠ DELEGATE_ENV_VAR → opt k (applyAgentDynamicEnv req o) = opt k o.
Proof. intros H. unfold applyAgentDynamicEnv. rewrite opt_if, opt_set, decide_False by done. by rewrite if_same. Qed.

Lemma dynamic_start c e req config o :
  applyAgentRootfsMounts e req (initial_options c req config) = Ok o →
  Forall safe (requested e req) ∧ start_options (requested e req) (EnvVars req) (applyAgentDynamicEnv req o) ∧
  opt "workspace" (applyAgentDynamicEnv req o) = (if bool_decide (Workspace req = "") then None else Some (Workspace req)).
Proof.
  intros (Hsafe & M1 & M2 & M3)%apply_mounts_ok. rewrite initial_none in M1, M2 by done. split; [done|].
  split; [split|]; rewrite ?opt_dynamic by done.
  - rewrite M1. by destruct (requested e req).
  - rewrite M3 by done. by apply initial_none.
  - rewrite M3 by done. by apply initial_none.
  - unfold env_opt, applyAgentDynamicEnv. destruct (bool_decide (EnvVars req = ∅)); [|by opt_simpl].
    rewrite M3 by done. by apply initial_none.
  - done.
Qed.

Lemma meta_shown inline e l req o :
  request_valid inline e l req → start_options (requested e req) (EnvVars req) o →
  let o' := if inline then applyAgentInlineMeta unicode_upper float64 (Spec req) o else applyAgentFuncMeta unicode_upper float64 (l_meta l) o in
  shown_options (container_of inline l req) (requested e req) (EnvVars req ∪ static_of inline l ∪ cmds_env (cmds_of inline l req)) o' ∧
  opt "workspace" o' = opt "workspace" o.
Proof.
  intros [R1 R2 R3 R4 R5 R6] Ho. unfold static_of, cmds_of in *. destruct inline; cbv zeta.
  - rewrite (right_id_L ∅ _). split; [by apply inline_shown|]. unfold applyAgentInlineMeta. destruct (Spec req) as [cc|]; [|done].
    destruct (Rootfs cc); by opt_steps.
  - split; [by apply registered_shown|]. unfold applyAgentFuncMeta. destruct (l_meta l); [|done]. by opt_steps.
Qed.

Lemma executor_shown (platform : bool) spec ct ms E req o :
  env_valid E → shown_options ct ms E o →
  let o' := if platform then applyAgentProbeSpec (Spec req) (applyAgentExecutorCode o) else applyAgentCodePaths spec o in
  shown_options ct ms (E ∪ probes_env (if platform then Spec req ≫= Probes else None)) o' ∧ opt "workspace" o' = opt "workspace" o.
Proof.
  intros HE Ho. destruct platform; cbv zeta.
  - split; [|by rewrite opt_probe by done]. eapply frame_shown; [| |exact Ho].
    + intros k Hk. rewrite opt_probe; [done|]. rewrite !elem_of_cons, elem_of_nil in Hk. by destruct Hk as [->|[->|[->|[]]]].
    + apply probe_opt; [|done]. exact (sh_env _ _ _ _ Ho).
  - cbn [probes_env]. rewrite (right_id_L ∅ _). destruct Ho. destruct spec; (split; [by split|done]).
Qed.

Lemma build_shown c e l req config o :
  buildAgentInvokeOptions unicode_upper float64 c e l req config = Ok o → runtimeSpec config = Spec req → request_valid (inline config) e l req →
  Forall safe (requested e req) ∧
  shown_options (container_of (inline config) l req) (requested e req) (instance_env (inline config) (platformExecutor config) l req) o ∧
  opt "workspace" o = (if bool_decide (Workspace req = "") then None else Some (Workspace req)) ∧
  opt "trace_id" o = Some (header c "X-Trace-Id").
Proof.
  unfold buildAgentInvokeOptions. intros ([] & _ & H)%res_bind_ok Hrs Hv. rewrite Hrs in H.
  apply res_bind_ok in H as (o1 & (Hsafe & S1 & W1)%dynamic_start & H). injection H as <-. split; [done|].
  destruct (meta_shown _ e l req _ Hv S1) as [S2 W2]. set (o2 := if inline config then _ else _) in *.
  assert (env_valid (EnvVars req ∪ static_of (inline config) l ∪ cmds_env (cmds_of (inline config) l req))) as HE.
  { destruct Hv. repeat apply env_valid_union; try done. by apply cmds_env_valid. }
  destruct (executor_shown (platformExecutor config) (spec config) _ _ _ req o2 HE S2) as [S3 W3].
  split; [|split; [|apply create_opts_trace]].
  - eapply frame_shown; [| |exact S3].
    + intros k Hk. rewrite create_opts_frame by set_solver. done.
    + unfold env_opt. rewrite create_opts_frame by set_solver. exact (sh_env _ _ _ _ S3).
  - rewrite create_opts_frame by set_solver. rewrite opt_recover. congruence.
Qed.
End create.
