(* ===== verification/AgentProps.v ===== *)
(** * The agent API: properties of accepted requests and the ways around them *)

From S2P Require Import Prelude GoStrings Hashing Json JsonMarshal JsonReplace Urn Middleware SandboxLifecycle InvokeResponse ExecEndpoint AgentQuery Agent AgentFacts.
Local Open Scope string_scope.

(** ** Clean paths *)

(** The elements of a path that names something: no empty ones, no dots. *)
Definition proper (x : string) : Prop := x ≠ "" ∧ x ≠ "." ∧ x ≠ ".." ∧ has_byte "/" x = false.

Lemma clean_proper l out : Forall (λ x, has_byte "/" x = false) l → Forall proper out → Forall proper (foldl (clean_elem true) out l).
Proof.
  intros Hl. revert out. induction Hl as [|x l Hx _ IH]; intros out Ho; [done|]. cbn [foldl]. apply IH. unfold clean_elem.
  destruct (bool_decide (x = "")) eqn:E1; [done|]. destruct (bool_decide (x = ".")) eqn:E2; [done|]. cbn [orb].
  destruct (bool_decide (x = "..")) eqn:E3.
  - destruct out as [|top rest]; [done|]. apply Forall_cons in Ho as [[_ [_ [Ht _]]] Hr]. by rewrite bool_decide_eq_false_2.
  - constructor; [|done]. breflect. done.
Qed.

(** An absolute path is resolved to an absolute path without dots. *)
Lemma Clean_abs path : IsAbs path = true → ∃ es, Clean path = "/" +:+ Join es "/" ∧ Forall proper es.
Proof.
  intros H. unfold Clean. rewrite H. case_bool_decide as E; [by subst|]. eexists. split; [done|].
  apply Forall_reverse. apply clean_proper; [apply Split_pieces|constructor].
Qed.

(** ** Replacements *)

Lemma Contains_cons_false c s old : Contains (String c s) old = false → HasPrefix (String c s) old = false ∧ Contains s old = false.
Proof. cbn [Contains]. by rewrite orb_false_iff. Qed.

Lemma ReplaceAll_absent s o r new : Contains s (String o r) = false → ReplaceAll s (String o r) new = s.
Proof.
  induction s as [|c s IH]; [done|]. intros [H1 H2]%Contains_cons_false. rewrite (R_skip o r new) by done. by rewrite IH.
Qed.

Lemma Contains_here t p : HasPrefix t p = true → Contains t p = true.
Proof. destruct t as [|c t]; [by destruct p|]. cbn [Contains]. by intros ->. Qed.

Lemma Contains_suffix s p q : Contains s (p +:+ q) = true → Contains s q = true.
Proof.
  assert (∀ t, HasPrefix t (p +:+ q) = true → Contains t q = true) as Hpre.
  { intros t. induction p as [|a p IH] in t |- *; [rewrite app_nil_l_str; apply Contains_here|].
    rewrite app_cons_str. destruct t as [|c t]; [done|]. intros H. apply HasPrefix_spec in H as [u H]. rewrite !app_cons_str in H.
    injection H as -> H. cbn [Contains]. rewrite (IH t); [by rewrite orb_true_r|]. apply HasPrefix_spec. by exists u. }
  induction s as [|c s IH]; [cbn [Contains]; rewrite orb_false_r; intros H; by apply (Hpre "")|]. cbn [Contains]. rewrite orb_true_iff. intros [H|H].
  - by apply (Hpre (String c s)).
  - rewrite IH by done. by rewrite orb_true_r.
Qed.

Lemma with_user_absent user s : Contains s agentUserPlaceholder = false → with_user user s = s.
Proof.
  intros H. unfold with_user. destruct (bool_decide (user = "")).
  - apply (ReplaceAll_absent s "/" "home/__AGENT_USER__"). apply not_true_iff_false. intros E.
    apply not_true_iff_false in H. apply H. by apply (Contains_suffix s "/home/" agentUserPlaceholder).
  - by apply (ReplaceAll_absent s "_" "_AGENT_USER__").
Qed.

(** ** Requests that are accepted *)

Section props.
  Context (unicode_lower unicode_upper : string → string) (float64 : string → option string) (uuid_sha1 : string → string).
Local Abbreviation prepare := (prepare_create unicode_lower unicode_upper float64 uuid_sha1).

Lemma prepare_ok c e l req config call :
  prepare c e l req = Ok (config, call) →
  buildAgentInvokeOptions unicode_upper float64 c e l req config = Ok (invokeOpts call) ∧
  runtimeSpec config = Spec req ∧ inline config = isInlineMode req ∧
  spec config = (if inline config then None else l_spec l) ∧
  platformExecutor config = (if inline config then match Spec req with Some r => bool_decide (TrimSpace (Handler r) = "") | None => true end
                             else match l_spec l with Some s => bool_decide (TrimSpace (fs_Handler s) = "") | None => true end) ∧
  resolveAgentExtendedTimeouts (spec config) (Spec req) = Ok (initTimeout config, preStopTimeout config) ∧
  args call = buildAgentCreateArgs config (Cpu (invokeOpts call)) (Mem (invokeOpts call)) ∧
  designatedInstanceID call = generateAgentInstanceID uuid_sha1 (Namespace req) (Name req).
Proof.
  unfold prepare_create. intros ([] & _ & H)%res_bind_ok. case_in H; [done|]. apply res_bind_ok in H as (key & _ & H).
  apply res_bind_ok in H as ([ti tp] & Ht & H). case_in H; [done|].
  apply res_bind_ok in H as ([] & _ & H). apply res_bind_ok in H as ([] & _ & H).
  apply res_bind_ok in H as (o & Ho & H). apply Ok_inj in H. injection H as <- <-. cbn in *.
  split_and!; try done. by destruct (isInlineMode req).
Qed.

(** The target of a mount in the container. *)
Definition target_in (ct : option container) (t : string) : string := match ct with None => t | Some c => with_user (ct_user c) t end.

Lemma mounts_info ct ms :
  Forall (λ m, Contains (Source m) agentUserPlaceholder = false) ms →
  mount_info <$> mounts_of ct ms = (λ m, MkMountInfo (Source m) (target_in ct (Target m)) (ReadOnly m)) <$> ms.
Proof.
  intros H. destruct ct as [c|]; [|done]. cbn [mounts_of target_in]. induction H as [|m ms Hm _ IH]; [done|].
  cbn [map]. rewrite !fmap_cons, IH. unfold mount_info, user_mount. cbn. by rewrite with_user_absent.
Qed.

Lemma mounts_of_valid ct ms : (∀ c, ct = Some c → container_valid c) → Forall mount_valid ms → Forall mount_valid (mounts_of ct ms).
Proof. intros Hc Hm. destruct ct as [c|]; [|done]. destruct (Hc c eq_refl) as (Hp & _). by apply user_mount_valid. Qed.

(** What a get shows of the root file system. *)
Definition shown_rootfs (ct : option container) (workspace : string) (ms : list Mount) : option RootfsInfo :=
  let image := match ct with Some c => ct_image c | None => "" end in
  let user := match ct with Some c => ct_user c | None => "" end in
  let workdir := match ct with Some c => ct_workdir c | None => "" end in
  if bool_decide (image = "") && bool_decide (user = "") && bool_decide (workspace = "") && bool_decide (ms = []) then None
  else Some (MkRootfsInfo (if bool_decide (image = "") then "" else "image") image user workspace
               (if bool_decide (image = "") then "" else workdir) (mount_info <$> mounts_of ct ms)).

Lemma parse_shown ct workspace ms user :
  (∀ c, ct = Some c → container_valid c) → Forall mount_valid ms → user = match ct with Some c => ct_user c | None => "" end →
  parseRootfs (default "" (rootfs_opt ct ms)) user workspace = shown_rootfs ct workspace ms.
Proof.
  intros Hc Hm ->. pose proof (mounts_of_valid ct ms Hc Hm) as Hm'. unfold shown_rootfs.
  assert (∀ ms', Forall mount_valid ms' → (ms' = [] ↔ ms = []) → ∀ user,
            parseRootfs (default "" (mounts_opt ms')) user workspace
            = if bool_decide (user = "") && bool_decide (workspace = "") && bool_decide (ms = []) then None
              else Some (MkRootfsInfo "" "" user workspace "" (mount_info <$> ms'))) as Hbare.
  { intros ms' Hv Hi user. destruct ms' as [|m ms'].
    - cbn [mounts_opt from_option id]. rewrite (bool_decide_eq_true_2 (ms = [])) by tauto. rewrite andb_true_r. by destruct user, workspace.
    - rewrite (bool_decide_eq_false_2 (ms = [])) by (intros E; by apply Hi in E). rewrite andb_false_r. by apply parse_bare. }
  destruct ct as [c|]; cbn [rootfs_opt mounts_of] in *.
  - destruct (Hc c eq_refl) as (_ & Hi & Hw & _). destruct (bool_decide (ct_image c = "")) eqn:E; cbn [andb].
    + rewrite Hbare; [|done|]; [|by destruct ms]. breflect. by rewrite E.
    + cbn [from_option id]. by rewrite parse_rootfs.
  - apply Hbare; [done|tauto].
Qed.

(** C11. The mounts of an accepted request are safe. What a get, and the executor
    of the container, read from the options is the list of requested mounts in
    their order, and every source is an absolute path that resolves to a path
    without dots that is not a forbidden one; provided the user name holds no
    JSON syntax, the texts are UTF-8 and no source holds the placeholder of the
    user name, which is replaced after the check. *)
Theorem agent_mounts_safe c e l req config call user workspace info :
  prepare c e l req = Ok (config, call) →
  request_valid (inline config) e l req →
  Forall (λ m, Contains (Source m) agentUserPlaceholder = false) (requested e req) →
  parseRootfs (option_of (CreateOpt (invokeOpts call)) "rootfs") user workspace = Some info →
  ri_Mounts info = (λ m, MkMountInfo (Source m) (target_in (container_of (inline config) l req) (Target m)) (ReadOnly m)) <$> requested e req ∧
  Forall (λ m, ∃ es, Clean (mi_Source m) = "/" +:+ Join es "/" ∧ Forall proper es ∧
                     Clean (mi_Source m) ∉ ["/"; "/etc"; "/proc"; "/sys"; "/dev"; "/boot"] ∧
                     HasSuffix (Clean (mi_Source m)) "docker.sock" = false) (ri_Mounts info).
Proof.
  intros (Hb & Hrs & _)%prepare_ok Hv Hno Hparse. destruct (build_shown unicode_upper float64 c e l req config _ Hb Hrs Hv) as (Hsafe & Hsh & _).
  destruct Hsh as [Hr _ _ _]. destruct Hv as [R1 R2 _ _ _ _].
  set (ct := container_of (inline config) l req) in *. set (ms := requested e req) in *.
  assert (ri_Mounts info = mount_info <$> mounts_of ct ms) as Hms.
  { unfold option_of in Hparse. fold (opt "rootfs" (invokeOpts call)) in Hparse. rewrite Hr in Hparse.
    pose proof (mounts_of_valid ct ms R2 R1) as Hm'.
    assert (∀ ms', Forall mount_valid ms' → parseRootfs (default "" (mounts_opt ms')) user workspace = Some info → ri_Mounts info = mount_info <$> ms') as Hbare.
    { intros [|m ms'] Hv' H; [|cbn [mounts_opt from_option id] in H; rewrite parse_bare in H by done; by injection H as <-].
      destruct user, workspace; vm_compute in H; by simplify_eq. }
    destruct ct as [k|]; cbn [rootfs_opt mounts_of] in *; [|by apply Hbare].
    destruct (R2 k eq_refl) as (_ & Hi & Hw & _). destruct (bool_decide (ct_image k = "")); [by apply Hbare|].
    cbn [from_option id] in Hparse. rewrite parse_rootfs in Hparse by done. by injection Hparse as <-. }
  rewrite mounts_info in Hms by done. split; [done|]. rewrite Hms. apply Forall_fmap. apply (Forall_impl safe); [done|].
  intros m [Ha Hs]. cbn. destruct (Clean_abs _ Ha) as (es & Hes & Hp). exists es. split; [done|]. split; [done|].
  unfold isSafeBindSource in Hs. case_bool_decide as Hf; [done|]. case_in Hs; [done|]. by apply negb_true_iff in Hs.
Qed.

Lemma default_if_empty s : default "" (if bool_decide (s = "") then None else Some s) = s.
Proof. by destruct s. Qed.

(** C12. A get shows what a create was given, when the user name is plain and the
    texts are UTF-8: the root file system with its mounts and those ports that
    can be read, both of the container of the request or, in registered mode, of
    the registered function, the environment, and the trace of the request. *)
Theorem agent_roundtrip c e l req config call s instanceID su :
  prepare c e l req = Ok (config, call) →
  request_valid (inline config) e l req →
  su_CreateOptions su = CreateOpt (invokeOpts call) →
  let d := detail_of unicode_lower s instanceID su in
  let ct := container_of (inline config) l req in
  let env := instance_env (inline config) (platformExecutor config) l req in
  id_Rootfs d = shown_rootfs ct (Workspace req) (requested e req) ∧
  id_Ports d = shown_ports unicode_lower unicode_upper (match ct with Some k => ct_ports k | None => [] end) ∧
  id_EnvVars d = (if bool_decide (env = ∅) then None else Some env) ∧
  id_TraceID d = header c "X-Trace-Id".
Proof.
  intros (Hb & Hrs & _)%prepare_ok Hv Hsu d ct env. destruct (build_shown unicode_upper float64 c e l req config _ Hb Hrs Hv) as (_ & [H1 H2 H3 H4] & Hw & Ht).
  set (o := invokeOpts call) in *.
  assert (∀ k, option_of (su_CreateOptions su) k = default "" (opt k o)) as Hopt by (intros k; by rewrite Hsu).
  assert (bool_decide (su_CreateOptions su = ∅) = false) as Hne.
  { apply bool_decide_eq_false. rewrite Hsu. intros E. unfold opt in Ht. by rewrite E in Ht. }
  subst d. unfold detail_of. cbn [id_Rootfs id_Ports id_EnvVars id_TraceID]. rewrite Hne, !Hopt.
  destruct Hv as [R1 R2 R3 R4 R5 R6]. fold ct in H1, H2, H3, R2. split; [|split; [|split]].
  - rewrite H1, H2, Hw. etrans; [apply parse_shown; [done..|]|].
    + unfold user_opt. destruct ct as [k|]; [|done]. cbn [mbind option_bind]. by apply default_if_empty.
    + f_equal. by apply default_if_empty.
  - rewrite H3. unfold network_opt. destruct ct as [k|]; [|done]. cbn [mbind option_bind].
    destruct (R2 k eq_refl) as (_ & _ & _ & Hp). destruct (ct_ports k) as [|p ps]; [done|]. by apply parse_network.
  - apply env_opt_parse; [done|]. unfold env, instance_env. repeat apply env_valid_union; try done.
    + by apply cmds_env_valid.
    + apply probes_env_valid. destruct (platformExecutor config); [done|]. by intros.
  - by rewrite Ht.
Qed.

(** C38. The timeouts of an accepted request are within their bounds: the instance
    gets time to initialise, the pre-stop hook between 1 and 180 seconds, and
    the graceful shutdown 15 to 185 seconds and at least 5 seconds more than
    the hook; instances without a registered function are told both values. *)
Theorem agent_timeouts_bounded c e l req config call :
  prepare c e l req = Ok (config, call) →
  let g := gracefulShutdownSeconds (preStopTimeout config) in
  (1 ≤ initTimeout config ∧ 1 ≤ preStopTimeout config ≤ 180 ∧ 15 ≤ g ≤ 185 ∧ preStopTimeout config + 5 ≤ g)%Z ∧
  opt "GRACEFUL_SHUTDOWN_TIME" (invokeOpts call) = Some (FormatInt g) ∧
  (platformExecutor config = true ∨ inline config = true →
   ∃ s, head (args call) = Some (ArgSpec s) ∧ fs_InitTimeout s = initTimeout config ∧ fs_PreStopTimeout s = preStopTimeout config).
Proof.
  intros (Hb & Hrs & Hin & Hspec & Hpe & Ht & Hargs & _)%prepare_ok g. split; [|split].
  - unfold resolveAgentExtendedTimeouts in Ht. match type of Ht with (let '(_, _) := ?x in _) = _ => destruct x as [i p] end.
    unfold g, gracefulShutdownSeconds, agentGracefulShutdownSeconds, agentShutdownReserveSeconds, maxPreStopTimeoutSec,
      agentInitTimeoutSeconds, agentPreStopTimeoutSeconds in *.
    case_in Ht; [done|]. injection Ht as <- <-. repeat case_goal; breflect; lia.
  - unfold buildAgentInvokeOptions in Hb. apply res_bind_ok in Hb as ([] & _ & Hb). apply res_bind_ok in Hb as (o & _ & Hb).
    apply Ok_inj in Hb. rewrite <- Hb.
    apply create_opts_graceful.
  - intros H. rewrite Hargs. unfold buildAgentCreateArgs. destruct (platformExecutor config); [by eexists|].
    destruct H as [?|Hi]; [done|]. rewrite Hi in *. rewrite Hspec, Hrs. destruct (Spec req) as [r|]; [|done].
    unfold resolveInlineHandlerEntries. rewrite <- Hpe. by eexists.
Qed.

Lemma paths_if (b : bool) o o' : CodePaths (if b then o else o') = if b then CodePaths o else CodePaths o'.
Proof. by destruct b. Qed.
Lemma paths_add_env name v o : CodePaths (add_env name v o) = CodePaths o.
Proof. unfold add_env. by destruct (default _ _ !! _). Qed.
Lemma paths_placeholder user o : CodePaths (replaceAgentUserPlaceholder user o) = CodePaths o.
Proof. unfold replaceAgentUserPlaceholder. destruct (option_text _ _); [|done]. by destruct (bool_decide (user = "")). Qed.
Lemma paths_image img wd o : CodePaths (apply_image float64 img wd o) = CodePaths o.
Proof. unfold apply_image. destruct (bool_decide (img = "")); [done|]. by destruct (option_text _ _). Qed.
Lemma paths_ports ports o : CodePaths (apply_ports unicode_upper ports o) = CodePaths o.
Proof. by destruct ports. Qed.

Lemma inline_paths r o : Handler r ≠ "" →
  CodePaths (applyAgentInlineMeta unicode_upper float64 (Some r) o) =
  code_entries (resolveInlineHandlerEntries r).1.1 (Handler r) (resolveInlineHandlerEntries r).2.
Proof.
  intros H. unfold applyAgentInlineMeta. set (o2 := apply_cmds _ _).
  assert (CodePaths (applyAgentInlineCode r o2) = code_entries (resolveInlineHandlerEntries r).1.1 (Handler r) (resolveInlineHandlerEntries r).2) as Hc.
  { unfold applyAgentInlineCode. by rewrite bool_decide_eq_false_2. }
  destruct (Rootfs r); [|done]. rewrite paths_ports, paths_image, paths_placeholder, paths_if. cbn [CodePaths set_opt with_opts]. by rewrite if_same.
Qed.

(** The entries that the kernel loads and those in the arguments of the call
    are the same: those of the executor of the platform, of the registered
    function or of the request, when its handler has no spaces around it. *)
Theorem agent_entries_agree c e l req config call :
  prepare c e l req = Ok (config, call) →
  (∀ r, Spec req = Some r → TrimSpace (Handler r) = Handler r) →
  ∃ s, head (args call) = Some (ArgSpec s) ∧
       args call !! 1 = Some (ArgParams "" (fs_InitHandler s) (fs_Handler s)) ∧
       CodePaths (invokeOpts call) = code_entries (fs_InitHandler s) (fs_Handler s) (fs_PreStopHandler s).
Proof.
  intros (Hb & Hrs & Hin & Hspec & Hpe & _ & Hargs & _)%prepare_ok Htrim. unfold buildAgentInvokeOptions in Hb.
  apply res_bind_ok in Hb as ([] & _ & Hb). apply res_bind_ok in Hb as (o & _ & Hb). apply Ok_inj in Hb.
  assert (∀ o', CodePaths (applyAgentCreateOpts c req config o') = CodePaths o') as Hcp.
  { intros o'. unfold applyAgentCreateOpts. cbn [CodePaths set_opt with_opts]. rewrite paths_if. cbn [CodePaths set_opt with_opts]. by rewrite if_same. }
  rewrite Hargs. generalize (Cpu (invokeOpts call)) (Mem (invokeOpts call)). intros cpu mem.
  rewrite <- Hb, Hcp. unfold buildAgentCreateArgs. clear Hb Hargs Hcp.
  destruct (platformExecutor config) eqn:Ep.
  - eexists. split; [done|]. split; [done|]. cbn [CodePaths with_recover]. unfold applyAgentProbeSpec. rewrite Hrs.
    destruct (Spec req ≫= Probes); [|done]. by rewrite paths_add_env.
  - destruct (inline config) eqn:Ei.
    + rewrite Hspec, Hrs. destruct (Spec req) as [r|] eqn:Er; [|done]. unfold resolveInlineHandlerEntries at 1 2. rewrite <- Hpe.
      eexists. split; [done|]. split; [done|]. cbn [CodePaths with_recover applyAgentCodePaths]. rewrite inline_paths.
      * by rewrite <- (Htrim r) at 1.
      * intros E. rewrite E in Hpe. done.
    + rewrite Hspec in *. destruct (l_spec l) as [s|]; [|done]. by eexists.
Qed.

(** ** Identity *)

Lemma length_prefix_inj (s t u v : string) : String.length s = String.length t → s +:+ u = t +:+ v → s = t ∧ u = v.
Proof.
  revert t. induction s as [|c s IH]; intros [|d t] Hl E; try done.
  rewrite !app_cons_str in E. injection E as -> E. destruct (IH t) as [-> ->]; [by injection Hl|done|done].
Qed.

Lemma str_len_inj (s t u v : string) :
  (Z.of_nat (String.length s) < 2 ^ 63)%Z → (Z.of_nat (String.length t) < 2 ^ 63)%Z →
  str_len s +:+ ":" +:+ u = str_len t +:+ ":" +:+ v → String.length s = String.length t ∧ u = v.
Proof.
  intros Hs Ht E.
  assert (∀ x, has_byte ":" (str_len x) = false) as Hd.
  { intros x. unfold str_len. pose proof (format_go_digits 19 (Z.of_nat (String.length x)) "" ltac:(lia) eq_refl) as H.
    unfold FormatUint. generalize dependent (format_go 19 (Z.of_nat (String.length x)) ""). intros y. induction y as [|a y IH]; [done|].
    rewrite all_digits_cons. intros H. breflect. cbn. rewrite IH by done. rewrite orb_false_r. apply bool_decide_eq_false. by intros ->. }
  assert (∀ x y, Split (str_len x +:+ ":" +:+ y) ":" = str_len x :: Split y ":") as Hsplit.
  { intros x y. rewrite (app_cons_str ":" "" y), app_nil_l_str. by apply Split_app_byte. }
  pose proof (f_equal (λ z, Split z ":") E) as E'. cbv beta in E'. rewrite !Hsplit in E'. injection E' as El _.
  assert (String.length s = String.length t) as Hl.
  { unfold str_len in El. apply (f_equal Atoi) in El. rewrite !Atoi_FormatUint in El by lia. injection El. lia. }
  split; [done|]. rewrite El in E. apply (length_prefix_inj _ _ _ _ eq_refl) in E as [_ E]. by apply (length_prefix_inj ":" ":") in E as [_ ->].
Qed.

(** Agents are identified by namespace and name: two requests get the same
    instance exactly when both agree. *)
Theorem agent_identity ns name ns' name' :
  (∀ x y, uuid_sha1 x = uuid_sha1 y → x = y) →
  (Z.of_nat (String.length ns) < 2 ^ 63 ∧ Z.of_nat (String.length name) < 2 ^ 63 ∧
   Z.of_nat (String.length ns') < 2 ^ 63 ∧ Z.of_nat (String.length name') < 2 ^ 63)%Z →
  generateAgentInstanceID uuid_sha1 ns name = generateAgentInstanceID uuid_sha1 ns' name' ↔ ns = ns' ∧ name = name'.
Proof.
  intros Hinj (H1 & H2 & H3 & H4). split; [|by intros [-> ->]]. intros E%Hinj. unfold canonicalKey in E.
  apply (length_prefix_inj _ _ _ _ eq_refl) in E as [_ E]. apply str_len_inj in E as [El E]; [|done..].
  apply (length_prefix_inj _ _ _ _ El) in E as [-> E]. apply str_len_inj in E as [_ ->]; [|done..]. done.
Qed.

End props.

(** ** Examples *)

Definition demo_prepare := prepare_create id id Some id.
Definition demo_ctx (tenant : string) : Middleware.gin_ctx :=
  Middleware.MkCtx "/api/agent" "POST" (λ _, "") {[ "X-Tenant-Id" := tenant; "X-Trace-Id" := "t1" ]} ∅ None None None None None None.
Definition demo_off : process_env := MkEnv "" "".
Definition no_loads : loads := MkLoads None None None None.
Definition demo_spec (handler user : string) : RuntimeSpec :=
  MkRuntime "python3.9" "docker" "" "" handler None None (Some (MkRootfs "img:1" user "" ["22"; "udp:53"])) [] None 500 256.
Definition demo_req (rs : RuntimeSpec) (workspace : string) (mounts : list Mount) : CreateAgentRequest :=
  MkRequest "ns" "agent" "" (Some rs) workspace {[ "A" := "1" ]} mounts.

(** The mounts in the options of an accepted request. *)
Definition demo_mounts (e : process_env) (req : CreateAgentRequest) : option (list MountInfo) :=
  match demo_prepare (demo_ctx "t") e no_loads req with
  | Ok (_, call) => ri_Mounts <$> parseRootfs (option_of (CreateOpt (invokeOpts call)) "rootfs") "" ""
  | Err _ => None
  end.

Definition quote_text : string := String quote_char "".

(** A user name with quotes adds a mount of the root directory of the host. *)
Theorem user_name_injects_mount :
  let user := "x" +:+ quote_text +:+ "},{" +:+ quote_text +:+ "source" +:+ quote_text +:+ ":" +:+ quote_text +:+ "/" +:+ quote_text +:+ ","
                +:+ quote_text +:+ "target" +:+ quote_text +:+ ":" +:+ quote_text +:+ "/host" in
  demo_mounts demo_off (demo_req (demo_spec "" user) "/data/ws" []) = Some [MkMountInfo "/data/ws" "/home/x" false; MkMountInfo "/" "/host" false].
Proof. by vm_compute. Qed.

(** A source with the placeholder is checked before the user name replaces it. *)
Theorem placeholder_bypasses_check :
  validateBindSource "/etc" "mount source" = Err (ErrUnsafe "mount source" "/etc") ∧
  demo_mounts demo_off (demo_req (demo_spec "" "etc") "" [MkMount "/__AGENT_USER__" "/m" false]) = Some [MkMountInfo "/etc" "/m" false].
Proof. split; by vm_compute. Qed.

(** Only the directories themselves are forbidden, and dots are resolved. *)
Theorem unsafe_subdirectories_pass :
  validateBindSource "/etc/ssh" "mount source" = Ok () ∧ validateBindSource "/data/../etc/ssh" "mount source" = Ok ().
Proof. split; by vm_compute. Qed.

(** The home of the user [sn] holds the keys of the platform, but the targets
    are compared before the placeholder is replaced. *)
Theorem workspace_covers_keys :
  demo_mounts (MkEnv "true" "/keys") (demo_req (demo_spec "" "sn") "/data/ws" [])
  = Some [MkMountInfo "/data/ws" "/home/sn" false; MkMountInfo "/keys" "/home/sn/ssh" true] ∧
  pathsOverlap "/home/sn" sshContainerMountDirectory = true.
Proof. split; by vm_compute. Qed.

(** Without a root file system the placeholder stays in the target. *)
Theorem placeholder_stays :
  demo_mounts demo_off (demo_req (MkRuntime "python3.9" "supervisor" "" "" "" None None None [] None 0 0) "/data/ws" [])
  = Some [MkMountInfo "/data/ws" "/home/__AGENT_USER__" false].
Proof. by vm_compute. Qed.

(** A handler with spaces around it: the kernel loads another entry than the
    arguments name. *)
Theorem spaced_handler_diverges :
  (λ x, (CodePaths (invokeOpts x.2), args x.2 !! 1))
    <$> match demo_prepare (demo_ctx "t") demo_off no_loads (demo_req (demo_spec " m.h " "u") "" []) with Ok x => Some x | Err _ => None end
  = Some ([""; " m.h "], Some (ArgParams "" "" "m.h")).
Proof. by vm_compute. Qed.

(** The tenant is not part of the identity: the second tenant is given the
    instance of the first. *)
Theorem tenants_share_instance :
  let req := demo_req (demo_spec "" "u") "" [] in
  let proxy (call : agentCreateCall) := if bool_decide (CreateOpt (invokeOpts call) !! "tenantId" = Some "a") then (designatedInstanceID call, None)
                                        else ("", Some (ClassifiedErr ERR_INSTANCE_DUPLICATED false "" "exists")) in
  CreateHandler id id Some id proxy (demo_ctx "a") demo_off no_loads req = CreateHandler id id Some id proxy (demo_ctx "b") demo_off no_loads req ∧
  ∃ id_, CreateHandler id id Some id proxy (demo_ctx "b") demo_off no_loads req = Created id_.
Proof. split; [by vm_compute|]. eexists. by vm_compute. Qed.

Definition demo_ok : CreateAgentRequest := demo_req (demo_spec "m.h" "bob") "/data/ws" [MkMount "/data/x" "/x" true].

Lemma demo_accepted : ∃ config call,
  demo_prepare (demo_ctx "t") demo_off no_loads demo_ok = Ok (config, call) ∧ inline config = true ∧ platformExecutor config = false.
Proof. eexists _, _. split; [vm_compute; reflexivity|done]. Qed.

Lemma demo_valid : request_valid true demo_off no_loads demo_ok.
Proof.
  split.
  - repeat constructor.
  - intros c Hc. vm_compute in Hc. injection Hc as <-. repeat constructor.
  - apply map_Forall_singleton. done.
  - apply map_Forall_empty.
  - done.
  - done.
Qed.

Lemma agent_mounts_safe_witness : ∃ call info,
  parseRootfs (option_of (CreateOpt (invokeOpts call)) "rootfs") "" "" = Some info ∧
  ri_Mounts info = [MkMountInfo "/data/ws" "/home/bob" false; MkMountInfo "/data/x" "/x" true].
Proof.
  destruct demo_accepted as (config & call & H & Hi & _).
  destruct (parseRootfs (option_of (CreateOpt (invokeOpts call)) "rootfs") "" "") as [info|] eqn:E.
  - exists call, info. split; [done|].
    destruct (agent_mounts_safe id id Some id _ _ _ _ config call "" "" info H) as [Hm _]; [rewrite Hi; apply demo_valid|by repeat constructor|done|].
    rewrite Hm, Hi. reflexivity.
  - exfalso. revert E. vm_compute in H. injection H as _ <-. by vm_compute.
Defined.

Definition demo_summary (opts : gmap string string) : Summary :=
  mkSummary "i1" "t" "node" "f" "" "" StatusRunning "" 0 0 0 "" (Some 0%Z) ∅ "cid" "ip" "docker" opts.

Lemma agent_roundtrip_witness : ∃ call,
  let d := detail_of id NewStore "i1" (demo_summary (CreateOpt (invokeOpts call))) in
  id_Ports d = shown_ports id id ["22"; "udp:53"] ∧ id_EnvVars d = Some (EnvVars demo_ok ∪ ∅ ∪ ∅ ∪ ∅) ∧ id_TraceID d = "t1".
Proof.
  destruct demo_accepted as (config & call & H & Hi & Hp). exists call.
  destruct (agent_roundtrip id id Some id _ _ _ _ config call NewStore "i1" (demo_summary (CreateOpt (invokeOpts call))) H) as (_ & H2 & H3 & H4);
    [rewrite Hi; apply demo_valid|reflexivity|]. rewrite Hi in H2, H3. rewrite Hp in H3.
  split; [exact H2|]. split; [|rewrite H4; reflexivity]. rewrite H3. rewrite bool_decide_eq_false_2; [reflexivity|]. by intros.
Defined.

Lemma agent_timeouts_bounded_witness : ∃ config, (1 ≤ preStopTimeout config ≤ 180)%Z.
Proof.
  destruct demo_accepted as (config & call & H & _). exists config.
  exact (proj1 (proj2 (proj1 (agent_timeouts_bounded id id Some id _ _ _ _ config call H)))).
Defined.

Lemma agent_entries_agree_witness : ∃ call s, head (args call) = Some (ArgSpec s) ∧ CodePaths (invokeOpts call) = code_entries (fs_InitHandler s) (fs_Handler s) (fs_PreStopHandler s).
Proof.
  destruct demo_accepted as (config & call & H & _). exists call.
  destruct (agent_entries_agree id id Some id _ _ _ _ config call H) as (s & H1 & _ & H3); [by intros r [= <-]|by exists s].
Defined.

Lemma agent_identity_witness : generateAgentInstanceID id "a" "bc" ≠ generateAgentInstanceID id "ab" "c".
Proof. intros E. apply (agent_identity id "a" "bc" "ab" "c") in E; [by destruct E|by intros ? ? ?|by vm_compute]. Defined.
