(* ===== verification/AgentFiles.v ===== *)
(** * The agent API (pkg/frontend/api/agent/handler.go): files and invocations

    The handlers that forward a request to the executor in the container of an
    agent: which request they build, and what they answer. The tunnel, the
    bytes that arrive and the answers of the executor are inputs. *)

From S2P Require Import Prelude GoStrings Hashing Json JsonMarshal ExecEndpoint Middleware SandboxSpec SandboxLifecycle.
Open Scope string_scope.

(** ** Requests to the executor *)

Record executor_request := MkExecutor {
  er_method : string; er_path : string; er_query : list (string * string); er_contentLength : Z; er_headers : list (string * string) }.

Inductive answer :=
| Answer (status : Z) (message : string)       (* [ctx.JSON] with a code and a message *)
| Forward (route : list (string * string)) (r : executor_request).  (* a tunnel and the request written to it *)

Definition StatusBadRequest : Z := 400.
Definition StatusNotFound : Z := 404.
Definition StatusConflict : Z := 409.
Definition StatusRequestEntityTooLarge : Z := 413.

Definition maxFileUploadSize : Z := 512 * 1024 * 1024.
Definition maxMultipartOverhead : Z := 1024 * 1024.

(** [waitForAgentInstanceExist]: paused, found or not found in time. *)
Inductive lookup_result := Paused | Found | Missing.

Definition waitForAgentInstanceExist (s : Store) (found : bool) (instanceID : string) : lookup_result :=
  if IsPaused s instanceID then Paused else if found then Found else Missing.

Definition not_found (instanceID : string) : answer := Answer StatusNotFound ("instance " +:+ instanceID +:+ " not found").

Definition writeFileTransferInstanceError (instanceID : string) (r : lookup_result) : answer :=
  match r with
  | Paused => Answer StatusConflict ("instance " +:+ instanceID +:+ " is paused")
  | _ => not_found instanceID
  end.

Definition optional (k v : string) : list (string * string) := if bool_decide (v = "") then [] else [(k, v)].

Definition query (c : gin_ctx) (k : string) : string := default "" (q c !! k).

(** The parameters of the route: a tenant in the query of the caller has priority. *)
Definition agentExecutorHTTPPort : Z := 18093.

Definition route (c : gin_ctx) (instanceID tenantID : string) : list (string * string) :=
  [("instance", instanceID); ("port", FormatInt agentExecutorHTTPPort); ("tenant_id", or_default (query c "tenant_id") tenantID)].

Definition forwardAgentExecutorHTTP (c : gin_ctx) (instanceID tenantID : string) (r : executor_request) : answer :=
  Forward (route c instanceID tenantID)
    (MkExecutor (er_method r) (er_path r) (er_query r) (er_contentLength r) (er_headers r ++ optional "X-Trace-Id" (header c "X-Trace-Id"))).

(** ** Upload *)

(** The parts of a multipart body in their order; a read can fail, with the
    text of its error. *)
Inductive part := PathPart (content : option string) | FilePart | OtherPart | BadPart (err : string).

Definition no_path : answer := Answer StatusBadRequest "'path' field must precede 'file' in the multipart form".

Definition upload_request (targetPath fileMode : string) : executor_request :=
  MkExecutor "PUT" "/v1/files/upload" (("path", targetPath) :: optional "mode" fileMode) (-1) [("Content-Type", "application/octet-stream")].

Definition writeMultipartReadError (err : string) : answer :=
  if bool_decide (err = "http: request body too large") then Answer StatusRequestEntityTooLarge "upload size exceeds max" else Answer StatusBadRequest "multipart read failed".

(** The loop over the parts. *)
Fixpoint upload_parts (c : gin_ctx) (instanceID fileMode : string) (pathSeen : bool) (targetPath : string) (parts : list part) : answer :=
  match parts with
  | [] => Answer StatusBadRequest "multipart form must include a 'file' field"
  | BadPart err :: _ => writeMultipartReadError err
  | PathPart None :: _ => Answer StatusBadRequest "read path failed"
  | PathPart (Some buf) :: parts => upload_parts c instanceID fileMode true (TrimSpace buf) parts
  | FilePart :: _ =>
      if negb pathSeen || bool_decide (targetPath = "") then no_path
      else forwardAgentExecutorHTTP c instanceID (kill_tenant c) (upload_request targetPath fileMode)
  | OtherPart :: parts => upload_parts c instanceID fileMode pathSeen targetPath parts
  end.

(** [multipart]: the request is a multipart one. *)
Definition FileUploadHandler (s : Store) (found multipart : bool) (contentLength : Z) (c : gin_ctx) (instanceID : string) (parts : list part) : answer :=
  if bool_decide (instanceID = "") then Answer StatusBadRequest "instanceId is required"
  else if (maxFileUploadSize + maxMultipartOverhead <? contentLength)%Z then Answer StatusRequestEntityTooLarge "request size exceeds max"
  else
    match waitForAgentInstanceExist s found instanceID with
    | Found =>
        if negb multipart then Answer StatusBadRequest "invalid multipart request"
        else upload_parts c instanceID (query c "mode") false "" parts
    | r => writeFileTransferInstanceError instanceID r
    end.

(** [countingReader]: the bytes of a file and whether the read reports the limit. *)
Definition counting_read (count n : Z) : Z * bool := ((count + n)%Z, (maxFileUploadSize <? count + n)%Z).

(** The bytes passed on and whether the copy failed: [io.Copy] writes what a
    read returned before it looks at the error. *)
Fixpoint transfer (count : Z) (reads : list Z) : Z * bool :=
  match reads with
  | [] => (count, false)
  | n :: reads => let '(count', over) := counting_read count n in if over then (count', true) else transfer count' reads
  end.

(** ** The other file operations *)

Definition FileListHandler (s : Store) (found : bool) (c : gin_ctx) (instanceID : string) : answer :=
  let targetPath := TrimSpace (query c "path") in
  if bool_decide (instanceID = "") then Answer StatusBadRequest "instanceId is required"
  else if bool_decide (targetPath = "") then Answer StatusBadRequest "path query parameter is required"
  else
    match waitForAgentInstanceExist s found instanceID with
    | Found =>
        let rawMaxDepth := query c "max_depth" in
        let request depth := forwardAgentExecutorHTTP c instanceID (kill_tenant c) (MkExecutor "GET" "/v1/files/list"
                               (("path", targetPath) :: optional "recursive" (query c "recursive") ++ depth) 0 [("Accept", "application/json")]) in
        if bool_decide (rawMaxDepth = "") then request []
        else
          match Atoi rawMaxDepth with
          | Some maxDepth => if (maxDepth <? 0)%Z then Answer StatusBadRequest "max_depth must be a non-negative integer"
                             else request [("max_depth", FormatInt maxDepth)]
          | None => Answer StatusBadRequest "max_depth must be a non-negative integer"
          end
    | _ => not_found instanceID
    end.

Definition FileMkdirHandler (s : Store) (found : bool) (c : gin_ctx) (instanceID : string) : answer :=
  let targetPath := TrimSpace (query c "path") in
  if bool_decide (instanceID = "") then Answer StatusBadRequest "instanceId is required"
  else if bool_decide (targetPath = "") then Answer StatusBadRequest "path query parameter is required"
  else
    match waitForAgentInstanceExist s found instanceID with
    | Found => forwardAgentExecutorHTTP c instanceID (kill_tenant c) (MkExecutor "POST" "/v1/files/mkdir"
                 (("path", targetPath) :: optional "mode" (query c "mode") ++ optional "recursive" (query c "recursive")) 0 [("Accept", "application/json")])
    | _ => not_found instanceID
    end.

Definition FileDownloadHandler (s : Store) (found : bool) (c : gin_ctx) (instanceID : string) : answer :=
  let targetPath := TrimSpace (query c "path") in
  if bool_decide (instanceID = "") then Answer StatusBadRequest "instanceId is required"
  else if bool_decide (targetPath = "") then Answer StatusBadRequest "path query parameter is required"
  else
    match waitForAgentInstanceExist s found instanceID with
    | Found => forwardAgentExecutorHTTP c instanceID (kill_tenant c) (MkExecutor "GET" "/v1/files/download" [("path", targetPath)] 0 (optional "Range" (header c "Range")))
    | r => writeFileTransferInstanceError instanceID r
    end.

(** [body]: [None] when it cannot be read. *)
Definition ExecHandler (s : Store) (found : bool) (c : gin_ctx) (instanceID : string) (body : option string) : answer :=
  if bool_decide (instanceID = "") then Answer StatusBadRequest "instanceId is required"
  else
    match waitForAgentInstanceExist s found instanceID with
    | Found =>
        match body with
        | None => Answer StatusBadRequest "failed to read request body"
        | Some body => forwardAgentExecutorHTTP c instanceID (kill_tenant c) (MkExecutor "POST" "/v1/exec" [] (Z.of_nat (String.length body))
                         [("Content-Type", "application/json"); ("Accept", "application/json")])
        end
    | _ => not_found instanceID
    end.

(** ** Answers of the executor *)

(** [StatusText]: of package [net/http]. *)
Definition writeAgentExecutorErrorResponse (StatusText : Z → string) (status : Z) (data : string) : Z * string :=
  let message := match Unmarshal data ≫= to_struct "" (string_field "message") with Some m => TrimSpace m | None => "" end in
  let message := if bool_decide (message = "") then TrimSpace data else message in
  (status, if bool_decide (message = "") then StatusText status else message).

(** [written]: the response has started. *)
Definition writeFileTransferError (written : bool) (text : string) : option Z :=
  if written then None else Some (if Contains text "exceeds max" then StatusRequestEntityTooLarge else 500)%Z.

(** ** Invocation *)

(** The request for the handler of the user, as the value of the JSON text;
    [None] when the body is not JSON. *)
Definition buildAgentCallReqJSON (c : gin_ctx) (rawQuery traceID body : string) : option any :=
  let body := if bool_decide (body = "") then "{}" else body in
  (λ v, (JObject [("body", v);
           ("header", map_json JString (to_map (("X-Trace-Id", traceID) :: optional "X-Request-Id" (header c "X-Request-Id") ++ optional "X-Invoke-Alias" (header c "X-Invoke-Alias"))));
           ("method", JString (gc_method c)); ("path", JString (gc_path c)); ("query", JString rawQuery)])) <$> Unmarshal body.

(** [runtime.NotifyRequest] as far as it is read. *)
Record NotifyRequest := MkNotify { n_code : Z; n_message : string; n_smallObjects : list string }.

Inductive invoke_error := ErrProto | ErrRuntime (code : Z) (message : string) | ErrNoResult | ErrResultJSON | ErrInner (code : Z).

Definition LibruntimeHeaderSize : nat := 16.

Definition atoiSafe (s : string) : Z := default 0%Z (Atoi s).

(** The fields of the result that decide; the others are strings as well. *)
Definition decode_call_result (kvs : list (string * any)) : option (any * string) :=
  match string_field "innerCode" kvs, string_field "traceId" kvs, string_field "billingDuration" kvs, string_field "logResult" kvs, string_field "invokerSummary" kvs with
  | Some code, Some _, Some _, Some _, Some _ => Some (any_field "body" kvs, code)
  | _, _, _, _, _ => None
  end.

Definition parseAgentInvokeResponse (notify : option NotifyRequest) : res invoke_error any :=
  match notify with
  | None => Err ErrProto
  | Some n =>
      if negb (n_code n =? 0)%Z
      then Err (ErrRuntime (n_code n) (if bool_decide (n_message n = "") then "agent invoke failed with code " +:+ FormatInt (n_code n) else n_message n))
      else
        match n_smallObjects n with
        | [] => Err ErrNoResult
        | smallVal :: _ =>
            let payload := if (LibruntimeHeaderSize <=? String.length smallVal)%nat then str_drop LibruntimeHeaderSize smallVal else smallVal in
            match Unmarshal payload ≫= to_struct (JNull, "") decode_call_result with
            | None => Err ErrResultJSON
            | Some (body, innerCode) =>
                if negb (bool_decide (innerCode = "")) && negb (bool_decide (innerCode = "0")) then Err (ErrInner (atoiSafe innerCode)) else Ok body
            end
        end
  end.

(** [body]: [None] when it cannot be read; [invoke]: the raw call, which fails
    or returns the bytes of a notification. The answer, and the call made. *)
Inductive invoke_answer := InvokeFailed (status : Z) | InvokeData (result : any).

Definition InvokeHandler (invoke : string → any → option (option NotifyRequest)) (s : Store) (c : gin_ctx) (instanceID rawQuery traceID : string) (body : option string) :
    invoke_answer * option (string * any) :=
  if bool_decide (instanceID = "") then (InvokeFailed StatusBadRequest, None)
  else
    match ListSummaries s "" instanceID with
    | [] => (InvokeFailed StatusNotFound, None)
    | summary :: _ =>
        let funcKey := su_Function summary in
        match body ≫= buildAgentCallReqJSON c rawQuery traceID with
        | None => (InvokeFailed StatusBadRequest, None)
        | Some callReq =>
            let answer :=
              match invoke funcKey callReq with
              | None => InvokeFailed 500
              | Some raw => match parseAgentInvokeResponse raw with Ok result => InvokeData result | Err _ => InvokeFailed 500 end
              end in
            (answer, Some (funcKey, callReq))
        end
    end.

(** ** What the handlers guarantee *)

(** Parts that the loop reads without an answer, and the path they set. *)
Definition passed (p : part) : bool := match p with PathPart (Some _) | OtherPart => true | _ => false end.
Definition path_of (p : part) : option string := match p with PathPart (Some buf) => Some (TrimSpace buf) | _ => None end.
Definition target (init : string) (parts : list part) : string := default init (last (omap path_of parts)).

Lemma target_path init buf parts : target init (PathPart (Some buf) :: parts) = target (TrimSpace buf) parts.
Proof. unfold target. cbn [omap list_omap path_of]. rewrite last_cons. by destruct (last _). Qed.

Lemma upload_parts_forward c i m seen t parts rt r :
  (t ≠ "" → seen = true) →
  upload_parts c i m seen t parts = Forward rt r ↔
  ∃ pre post, parts = (pre ++ FilePart :: post)%list ∧ forallb passed pre = true ∧ target t pre ≠ "" ∧
              Forward rt r = forwardAgentExecutorHTTP c i (kill_tenant c) (upload_request (target t pre) m).
Proof.
  revert seen t. induction parts as [|p parts IH]; intros seen t Hs.
  { split; [done|]. by intros ([|??] & post & [=] & _). }
  destruct p as [[buf|]| | |err]; cbn [upload_parts].
  - rewrite IH by done. split; intros (pre & post & Hp & Ho & Ht & Hf).
    + exists (PathPart (Some buf) :: pre), post. rewrite target_path, Hp. done.
    + destruct pre as [|q pre]; [discriminate|]. injection Hp as <- ->. exists pre, post. by rewrite target_path in Ht, Hf.
  - split; [done|]. by intros ([|[[]| | |] pre] & post & [=] & Ho & _).
  - split.
    + intros H. exists [], parts. change (target t []) with t. destruct seen; [|done]. destruct (bool_decide_reflect (t = "")); [done|].
      by rewrite <- H.
    + intros ([|[[]| | |] pre] & post & [= ->] & Ho & Ht & Hf); try done. change (target t []) with t in *.
      rewrite (Hs Ht). rewrite bool_decide_eq_false_2 by done. by rewrite Hf.
  - rewrite IH by done. split; intros (pre & post & Hp & Ho & Ht & Hf).
    + exists (OtherPart :: pre), post. by rewrite Hp.
    + destruct pre as [|q pre]; [discriminate|]. injection Hp as <- ->. by exists pre, post.
  - split.
    + unfold writeMultipartReadError. by case_bool_decide.
    + by intros ([|[[]| | |] pre] & post & [=] & Ho & _).
Qed.

(** An upload reaches the executor of an instance exactly when the instance is
    named, running and known, the declared size is within the limit, and the
    file part comes after parts that were read and set a path that is not
    blank; the last of them is the target, and the route is that of the
    instance. Every other request is answered with an error. *)
Theorem agent_upload_checked s found multipart len c i parts :
  (∃ rt r, FileUploadHandler s found multipart len c i parts = Forward rt r) ↔
  i ≠ "" ∧ (len ≤ maxFileUploadSize + maxMultipartOverhead)%Z ∧ IsPaused s i = false ∧ found = true ∧ multipart = true ∧
  ∃ pre post, parts = (pre ++ FilePart :: post)%list ∧ forallb passed pre = true ∧ target "" pre ≠ "" ∧
    FileUploadHandler s found multipart len c i parts =
      forwardAgentExecutorHTTP c i (kill_tenant c) (upload_request (target "" pre) (query c "mode")).
Proof.
  unfold FileUploadHandler. destruct (bool_decide_reflect (i = "")) as [|Hi]; [naive_solver|].
  destruct (Z.ltb_spec (maxFileUploadSize + maxMultipartOverhead)%Z len) as [Hl|Hl]; [naive_solver lia|].
  unfold waitForAgentInstanceExist. destruct (IsPaused s i) eqn:Ep; [naive_solver|]. destruct found; [|naive_solver].
  destruct multipart; cbn [negb]; [|naive_solver]. split.
  - intros (rt & r & H). apply upload_parts_forward in H as (pre & post & Hp & Ho & Ht & Hf); [|done]. split_and!; try done. exists pre, post. split_and!; try done.
    rewrite <- Hf. apply upload_parts_forward; [done|]. by exists pre, post.
  - intros (_ & _ & _ & _ & _ & pre & post & _ & _ & _ & Hf). rewrite Hf. by eexists _, _.
Qed.

Lemma transfer_bound b count reads :
  (0 ≤ count ≤ maxFileUploadSize)%Z → (0 ≤ b)%Z → (∀ n, n ∈ reads → 0 ≤ n ≤ b)%Z →
  let '(sent, failed) := transfer count reads in
  (failed = false ↔ count + foldr Z.add 0 reads ≤ maxFileUploadSize)%Z ∧
  (failed = false → sent = count + foldr Z.add 0 reads)%Z ∧ (count ≤ sent ≤ maxFileUploadSize + b)%Z.
Proof.
  revert count. induction reads as [|n reads IH]; intros count Hc Hb0 Hb; cbn [transfer foldr].
  { split_and!; [split; [lia|done]|lia..]. }
  assert (0 ≤ n ≤ b)%Z as Hn by (apply Hb; left).
  assert (0 ≤ foldr Z.add 0 reads)%Z as Hs.
  { clear -Hb. induction reads as [|m reads IH]; cbn; [lia|]. assert (0 ≤ m ≤ b)%Z by (apply Hb; right; left).
    enough (0 ≤ foldr Z.add 0 reads)%Z by lia. apply IH. intros k [->|Hk]%elem_of_cons; apply Hb; [left|by do 2 right]. }
  unfold counting_read. destruct (Z.ltb_spec maxFileUploadSize (count + n)%Z) as [Ho|Ho]; cbn.
  { split_and!; [split; [done|lia]|done|lia..]. }
  specialize (IH (count + n)%Z ltac:(lia) Hb0 (λ m Hm, Hb m ltac:(by right))). destruct (transfer (count + n) reads) as [sent failed].
  destruct IH as (IH1 & IH2 & IH3). split_and!; [rewrite IH1; lia|intros Hf; rewrite IH2 by done; lia|lia..].
Qed.

(** An upload fails exactly when the file is larger than the limit; one that
    does not fail is passed on completely, and one that does is cut off less
    than one read behind the limit. *)
Theorem agent_upload_bounded b reads :
  (0 ≤ b)%Z → (∀ n, n ∈ reads → 0 ≤ n ≤ b)%Z →
  let '(sent, failed) := transfer 0 reads in
  (failed = false ↔ foldr Z.add 0 reads ≤ maxFileUploadSize)%Z ∧
  (failed = false → sent = foldr Z.add 0 reads)%Z ∧ (0 ≤ sent ≤ maxFileUploadSize + b)%Z.
Proof. intros Hb0 Hb. apply (transfer_bound b 0 reads); [unfold maxFileUploadSize; lia|done..]. Qed.

(** The text that the executor returns for a result. *)
Definition executor_result (v : any) (traceId : string) : string :=
  "0000000000000000" +:+ Marshal (JObject [("body", v); ("innerCode", JString "0"); ("traceId", JString traceId);
                                           ("billingDuration", JString ""); ("logResult", JString ""); ("invokerSummary", JString "")]).

(** The value a handler of the user returned is the data of the answer. *)
Theorem agent_invoke_roundtrip invoke s c i rawQuery traceID body v msg objects :
  i ≠ "" → ListSummaries s "" i ≠ [] → good v = true → valid_utf8 0 traceID = true →
  (∀ key req, invoke key req = Some (Some (MkNotify 0 msg (executor_result v traceID :: objects)))) →
  ∀ req, buildAgentCallReqJSON c rawQuery traceID body = Some req →
  ∃ key, InvokeHandler invoke s c i rawQuery traceID (Some body) = (InvokeData v, Some (key, req)).
Proof.
  intros Hi Hs Hv Ht Hinv req Hr. unfold InvokeHandler. rewrite bool_decide_eq_false_2 by done.
  destruct (ListSummaries s "" i) as [|sm l]; [done|]. cbn [mbind option_bind]. rewrite Hr, Hinv. exists (su_Function sm).
  enough (parseAgentInvokeResponse (Some (MkNotify 0 msg (executor_result v traceID :: objects))) = Ok v) as -> by done.
  unfold parseAgentInvokeResponse. cbn [n_code n_smallObjects Z.eqb negb]. unfold executor_result.
  set (o := JObject _). assert (LibruntimeHeaderSize <=? String.length ("0000000000000000" +:+ Marshal o) = true)%nat as -> by reflexivity.
  change (str_drop LibruntimeHeaderSize ("0000000000000000" +:+ Marshal o)) with (Marshal o).
  rewrite Unmarshal_Marshal; [done|]. cbn [good o forallb fst snd]. by rewrite Hv, Ht.
Qed.
