(* ===== verification/AsyncInvoke.v ===== *)
(** * Asynchronous invocations (pkg/frontend/asyncinvocation, api/v1/async_invoke.go)

    A request takes a slot of the worker pool, stores a pending result and
    answers with its identifier; a goroutine runs the invocation and stores the
    outcome, which clients poll. Goroutines interleave between their accesses
    to the pool, to the storage and to the objects they share: the memory
    backend hands out pointers to the results it holds. *)

From S2P Require Import Prelude GoStrings.
Open Scope string_scope.

(** ** Results *)

Inductive status := StatusPending | StatusRunning | StatusCompleted | StatusFailed.
#[global] Instance status_eq_dec : EqDecision status.
Proof. solve_decision. Defined.

Record AsyncResult := MkResult {
  RequestID : string; Status : status; StatusCode : Z; RespHeaders : gmap string string; RespBody : string;
  Error : string; CreatedAt : Z; CompletedAt : option Z; InstanceID : string }.

(** ** Configuration *)

Record RetryConfig := MkRetry { MaxAttempts : Z; InitialDelayMs : Z }.
Record WebhookConfig := MkWebhook { wh_Enabled : bool; TimeoutSecond : Z; Retry : RetryConfig }.
Record RedisConfig := MkRedis { Addr : string; Password : string; DB : Z }.
Record StorageConfig := MkStorage { st_Type : string; Redis : RedisConfig }.
Record AsyncConfig := MkConfig {
  Enabled : bool; MaxConcurrent : Z; ResultRetentionMinutes : Z; CleanupIntervalMinutes : Z;
  Webhook : WebhookConfig; Storage : StorageConfig }.

Definition DefaultAsyncConfig : AsyncConfig :=
  MkConfig true 1000 60 5 (MkWebhook false 10 (MkRetry 3 1000)) (MkStorage "memory" (MkRedis "localhost:6379" "" 0)).

Definition int_or (d z : Z) : Z := if (z =? 0)%Z then d else z.
Definition text_or (d s : string) : string := if bool_decide (s = "") then d else s.

(** [cfg]: the section of the main configuration, if it is there. *)
Definition LoadConfigFromMain (cfg : option AsyncConfig) (old : AsyncConfig) : AsyncConfig :=
  match cfg with
  | None => old
  | Some c =>
      let w := Webhook c in let r := Retry w in let s := Storage c in
      MkConfig (Enabled c) (int_or 1000 (MaxConcurrent c)) (int_or 60 (ResultRetentionMinutes c)) (int_or 5 (CleanupIntervalMinutes c))
        (MkWebhook (wh_Enabled w) (int_or 10 (TimeoutSecond w)) (MkRetry (int_or 3 (MaxAttempts r)) (int_or 1000 (InitialDelayMs r))))
        (MkStorage (text_or "memory" (st_Type s)) (MkRedis (text_or "localhost:6379" (Addr (Redis s))) (Password (Redis s)) (DB (Redis s))))
  end.

Definition Minute : Z := 60 * 1000000000.
Definition GetResultRetention (c : AsyncConfig) : Z := wrapS 64 (ResultRetentionMinutes c * Minute).

(** ** The system *)

(** An assignment to a field of a result. *)
Inductive assignment :=
| SetStatus (s : status) | SetError (e : string) | SetStatusCode (c : Z) | SetRespBody (b : string)
| SetRespHeaders (h : gmap string string) | SetCompletedAt (t : Z).

Definition assign (r : AsyncResult) (x : assignment) : AsyncResult :=
  match r, x with
  | MkResult i s c h b e t d n, SetStatus s' => MkResult i s' c h b e t d n
  | MkResult i s c h b e t d n, SetError e' => MkResult i s c h b e' t d n
  | MkResult i s c h b e t d n, SetStatusCode c' => MkResult i s c' h b e t d n
  | MkResult i s c h b e t d n, SetRespBody b' => MkResult i s c h b' e t d n
  | MkResult i s c h b e t d n, SetRespHeaders h' => MkResult i s c h' b e t d n
  | MkResult i s c h b e t d n, SetCompletedAt d' => MkResult i s c h b e t (Some d') n
  end.

(** What [middleware.Invoker.Handle] leaves behind: an error and the response
    in the context, or a panic. *)
Record response := MkResponse { invokeErr : option string; statusCode : Z; respBody : string; respHeader : gmap string string }.
Inductive outcome := Returned (r : response) | Panicked.

Definition failed (r : response) : bool :=
  bool_decide (invokeErr r ≠ None) || (statusCode r =? 0)%Z || (400 <=? statusCode r)%Z.

Definition final_assignments (now : Z) (r : response) : list assignment :=
  (if failed r then SetStatus StatusFailed :: match invokeErr r with Some e => [SetError e] | None => [] end
   else [SetStatus StatusCompleted]) ++
  [SetStatusCode (statusCode r); SetRespBody (respBody r); SetRespHeaders (respHeader r); SetCompletedAt now].

Definition panic_assignments (now : Z) : list assignment :=
  [SetStatus StatusFailed; SetError "internal panic"; SetCompletedAt now].

(** Where the goroutine of a request is; addresses are pointers to results. *)
Inductive pc :=
| PLoad | PSetRunning (a : nat) | PStoreRunning (a : nat) | PInvoke (a : nat)
| PAssign (a : nat) (l : list assignment) | PStore (a : nat) | PPanicLoad (now : Z) | PRelease | PDone.

(** [w_outcome] records how the invocation ended. *)
Record worker := MkWorker { w_id : string; w_webhook : string; w_pc : pc; w_outcome : option outcome }.

(** [sem]: the slots taken; [building]: handlers that hold a slot and have not
    built their context yet; [rejected]: handlers that could not. [webhooks]:
    the notifications started, with their URL and result. *)
Record sys := MkSys {
  capacity : nat; sem : nat; building : nat; rejected : nat;
  heap : gmap nat AsyncResult; results : gmap string nat; next : nat;
  workers : list worker; webhooks : list (string * AsyncResult) }.

Definition start (cap : nat) : sys := MkSys cap 0 0 0 ∅ ∅ 0 [] [].

Definition set_sem (n b r : nat) (s : sys) : sys := MkSys (capacity s) n b r (heap s) (results s) (next s) (workers s) (webhooks s).
Definition set_store (h : gmap nat AsyncResult) (m : gmap string nat) (n : nat) (s : sys) : sys :=
  MkSys (capacity s) (sem s) (building s) (rejected s) h m n (workers s) (webhooks s).
Definition set_workers (l : list worker) (s : sys) : sys :=
  MkSys (capacity s) (sem s) (building s) (rejected s) (heap s) (results s) (next s) l (webhooks s).
Definition add_webhook (u : string) (r : AsyncResult) (s : sys) : sys :=
  MkSys (capacity s) (sem s) (building s) (rejected s) (heap s) (results s) (next s) (workers s) (webhooks s ++ [(u, r)])%list.

(** [MemoryBackend.Store] keeps a copy, [Load] returns the pointer to it. *)
Definition Store (key : string) (r : AsyncResult) (s : sys) : sys :=
  set_store (<[next s := r]> (heap s)) (<[key := next s]> (results s)) (S (next s)) s.
Definition Load (key : string) (s : sys) : option nat := results s !! key.
Definition Delete (key : string) (s : sys) : sys := set_store (heap s) (delete key (results s)) (next s) s.
Definition write (a : nat) (x : assignment) (s : sys) : sys :=
  set_store (alter (λ r, assign r x) a (heap s)) (results s) (next s) s.

(** One turn of [cleanup]. *)
Definition expired (maxAge now : Z) (r : AsyncResult) : bool := (maxAge <? now - CreatedAt r)%Z.
Definition cleanup (maxAge now : Z) (s : sys) : sys :=
  set_store (heap s) (filter (λ kv, default false (expired maxAge now <$> heap s !! kv.2) = false) (results s)) (next s) s.

(** [Acquire] blocks while all slots are taken. *)
Definition Acquire (s : sys) : sys := if (sem s <? capacity s)%nat then set_sem (S (sem s)) (S (building s)) (rejected s) s else s.
Definition Release (s : sys) : sys := set_sem (pred (sem s)) (building s) (rejected s) s.

(** The rest of [AsyncInvokeHandler]: without a context it writes the error and
    returns; otherwise it stores the pending result and starts the goroutine.
    Identifiers are fresh. *)
Definition AsyncInvokeHandler (built : bool) (requestID webhookURL instanceID : string) (now : Z) (s : sys) : sys :=
  if (building s =? 0)%nat then s
  else if negb built then set_sem (sem s) (pred (building s)) (S (rejected s)) s
  else if bool_decide (requestID ∈ w_id <$> workers s) then s
  else
    let s := set_sem (sem s) (pred (building s)) (rejected s) s in
    let s := Store requestID (MkResult requestID StatusPending 0 ∅ "" "" now None instanceID) s in
    set_workers (workers s ++ [MkWorker requestID webhookURL PLoad None])%list s.

(** A step of a goroutine: [now] is the clock and [o] how the invocation ends. *)
Definition work (now : Z) (o : outcome) (w : worker) (s : sys) : worker * sys :=
  let at_ p := MkWorker (w_id w) (w_webhook w) p (w_outcome w) in
  match w_pc w with
  | PLoad => match Load (w_id w) s with Some a => (at_ (PSetRunning a), s) | None => (at_ PRelease, s) end
  | PSetRunning a => (at_ (PStoreRunning a), write a (SetStatus StatusRunning) s)
  | PStoreRunning a =>
      match heap s !! a with Some r => (at_ (PInvoke a), Store (w_id w) r s) | None => (at_ PRelease, s) end
  | PInvoke a =>
      match o with
      | Returned r => (MkWorker (w_id w) (w_webhook w) (PAssign a (final_assignments now r)) (Some o), s)
      | Panicked => (MkWorker (w_id w) (w_webhook w) (PPanicLoad now) (Some o), s)
      end
  | PAssign a [] => (at_ (PStore a), s)
  | PAssign a (x :: l) => (at_ (PAssign a l), write a x s)
  | PStore a =>
      match heap s !! a with
      | Some r =>
          let s := Store (w_id w) r s in
          (at_ PRelease, match w_outcome w with
                         | Some (Returned _) => if bool_decide (w_webhook w = "") then s else add_webhook (w_webhook w) r s
                         | _ => s
                         end)
      | None => (at_ PRelease, s)
      end
  | PPanicLoad t => match Load (w_id w) s with Some a => (at_ (PAssign a (panic_assignments t)), s) | None => (at_ PRelease, s) end
  | PRelease => (at_ PDone, Release s)
  | PDone => (w, s)
  end.

Inductive event :=
| EAcquire
| EHandle (built : bool) (requestID webhookURL instanceID : string) (now : Z)
| EWork (i : nat) (now : Z) (o : outcome)
| ECleanup (now : Z).

Definition step (maxAge : Z) (s : sys) (e : event) : sys :=
  match e with
  | EAcquire => Acquire s
  | EHandle built id url inst now => AsyncInvokeHandler built id url inst now s
  | EWork i now o =>
      match workers s !! i with
      | Some w => let '(w, s) := work now o w s in set_workers (<[i := w]> (workers s)) s
      | None => s
      end
  | ECleanup now => cleanup maxAge now s
  end.

Definition run (maxAge : Z) (cap : nat) (es : list event) : sys := foldl (step maxAge) (start cap) es.

(** [GetAsyncResultHandler] in two accesses: the pointer, and the object it
    serialises. *)
Inductive get_response := NotFound | InProgress (requestID : string) (s : status) | Done (r : AsyncResult).

Definition show (r : AsyncResult) : get_response :=
  match Status r with
  | StatusPending | StatusRunning => InProgress (RequestID r) (Status r)
  | _ => Done r
  end.

Definition GetAsyncResultHandler (p : option nat) (s : sys) : get_response :=
  match p ≫= λ a, heap s !! a with Some r => show r | None => NotFound end.

(** ** Webhooks *)

(** [None]: the slice expression panics. *)
Definition slice (s : string) (n : nat) : option string := if (n <=? String.length s)%nat then Some (str_take n s) else None.

Definition validateWebhookURL (url : string) : option bool :=
  if (String.length url <? 7)%nat then Some false
  else
    match slice url 7 with
    | None => None
    | Some p => if bool_decide (p = "http://") then Some true else (λ q, bool_decide (q = "https://")) <$> slice url 8
    end.

Inductive webhook_result := Sent | Skipped | InvalidURL | Cancelled | GaveUp (attempts : Z) | CrashedProcess.

(** [try n]: whether attempt [n] succeeds; [cancelled n]: the context ends
    during the delay before it. The delays waited for, in milliseconds. *)
Section webhook.
  Variable try cancelled : Z → bool.

Definition delay (initialDelayMs attempt : Z) : Z := wrapS 64 (wrapS 64 (initialDelayMs * 1000000) * wrapS 64 (2 ^ (attempt - 1))).

Fixpoint sendWebhookWithRetry (fuel : nat) (attempt : Z) (cfg : RetryConfig) (delays : list Z) : webhook_result * list Z :=
  match fuel with
  | O => (GaveUp (MaxAttempts cfg), delays)
  | S fuel =>
      if (attempt <? MaxAttempts cfg)%Z then
        let d := if (0 <? attempt)%Z then [delay (InitialDelayMs cfg) attempt] else [] in
        if (0 <? attempt)%Z && cancelled attempt then (Cancelled, delays ++ d)%list
        else if try attempt then (Sent, delays ++ d)%list
        else sendWebhookWithRetry fuel (attempt + 1) cfg (delays ++ d)%list
      else (GaveUp (MaxAttempts cfg), delays)
  end.

Definition SendWebhook (cfg : AsyncConfig) (url : string) : webhook_result * list Z :=
  if bool_decide (url = "") then (Skipped, [])
  else if negb (wh_Enabled (Webhook cfg)) then (Skipped, [])
  else
    match validateWebhookURL url with
    | None => (CrashedProcess, [])
    | Some false => (InvalidURL, [])
    | Some true => let r := Retry (Webhook cfg) in sendWebhookWithRetry (Z.to_nat (MaxAttempts r)) 0 r []
    end.
End webhook.

(** [encode]: standard base64. *)
Record WebhookPayload := MkPayload {
  pl_RequestID : string; pl_Status : status; pl_StatusCode : Z; pl_Result : string; pl_Error : string; pl_CompletedAt : Z }.
Definition NewWebhookPayload (encode : string → string) (now : Z) (r : AsyncResult) : WebhookPayload :=
  MkPayload (RequestID r) (Status r) (StatusCode r)
    (if bool_decide (Status r = StatusCompleted) && negb (bool_decide (RespBody r = "")) then encode (RespBody r) else "") (Error r) now.

(** [INSTANCE_ID], [POD_NAME] and the name of the host. *)
Definition getInstanceID (instance_id pod_name : string) (hostname : option string) : string :=
  if negb (bool_decide (instance_id = "")) then instance_id
  else if negb (bool_decide (pod_name = "")) then pod_name else default "unknown" hostname.

(** * Properties

    Asynchronous invocations: slots, published results, webhooks. *)


Local Open Scope list_scope.
Local Open Scope nat_scope.

(** ** Slots of the worker pool *)

Definition held (w : worker) : nat := match w_pc w with PDone => 0 | _ => 1 end.
Definition slot_inv (s : sys) : Prop := sem s = building s + rejected s + sum_list_with held (workers s) ∧ sem s ≤ capacity s.

Lemma slots_insert {A} (f : A → nat) l i x y :
  l !! i = Some x → sum_list_with f (<[i := y]> l) + f x = sum_list_with f l + f y.
Proof.
  revert i. induction l as [|z l IH]; intros [|i] H; try done; [injection H as ->; simpl; lia|]. specialize (IH i H). cbn [insert list_insert sum_list_with]. fold (insert i y l). rewrite <- !Nat.add_assoc. f_equal. exact IH.
Qed.

(** What a step of a goroutine leaves alone, and the slot it gives back. *)
Lemma work_frame now o w s :
  let '(w', s') := work now o w s in
  capacity s' = capacity s ∧ building s' = building s ∧ rejected s' = rejected s ∧ workers s' = workers s ∧
  w_id w' = w_id w ∧ (held w' = held w ∧ sem s' = sem s ∨ held w = 1 ∧ held w' = 0 ∧ sem s' = pred (sem s)).
Proof.
  unfold work, held. destruct w as [id url p oc]; cbn. destruct p as [|a|a|a|a [|x l]|a|t| |]; cbn; try (repeat split; by left).
  - unfold Load. destruct (results s !! id); repeat split; by left.
  - destruct (heap s !! a); repeat split; by left.
  - destruct o; repeat split; by left.
  - destruct (heap s !! a); [|repeat split; by left]. destruct oc as [[]|]; cbn; try case_bool_decide; repeat split; by left.
  - unfold Load. destruct (results s !! id); repeat split; by left.
  - repeat split; by right.
Qed.

Lemma slot_step maxAge s e : slot_inv s → slot_inv (step maxAge s e).
Proof.
  intros [Hs Hc]. destruct e as [|built id url inst now|i now o|now]; cbn [step].
  - unfold Acquire. destruct (Nat.ltb_spec (sem s) (capacity s)); [|done]. split; cbn; lia.
  - unfold AsyncInvokeHandler. destruct (Nat.eqb_spec (building s) 0); [done|]. destruct built; cbn [negb]; [|split; cbn; lia].
    case_bool_decide; [done|]. split; cbn; [rewrite sum_list_with_app; cbn|]; lia.
  - destruct (workers s !! i) as [w|] eqn:Ew; [|done]. pose proof (work_frame now o w s) as Hf.
    destruct (work now o w s) as [w' s']. destruct Hf as (F1 & F2 & F3 & F4 & _ & F5).
    pose proof (slots_insert held (workers s) i w w' Ew) as Hi. unfold slot_inv. cbn. rewrite F1, F2, F3, F4.
    destruct F5 as [[E ->]|(E1 & E2 & ->)]; lia.
  - by split.
Qed.

Lemma run_inv (P : sys → Prop) maxAge cap es :
  P (start cap) → (∀ s e, e ∈ es → P s → P (step maxAge s e)) → P (run maxAge cap es).
Proof. intros H0 Hs. unfold run. apply foldl_inv; [|done]. intros s e He. by apply Hs. Qed.

(** The slots taken are those of handlers that are building their context, of
    goroutines that have not ended, and of the requests that were refused: in
    every interleaving there are at most [cap] of them. *)
Theorem async_slots maxAge cap es :
  let s := run maxAge cap es in
  sem s = building s + rejected s + sum_list_with held (workers s) ∧ sem s ≤ cap.
Proof.
  cbn. assert (slot_inv (run maxAge cap es) ∧ capacity (run maxAge cap es) = cap) as [[H1 H2] H3].
  { split.
    - apply run_inv; [split; cbn; lia|]. intros s e _. apply slot_step.
    - apply run_inv; [done|]. intros s e _ <-. destruct e; cbn.
      + unfold Acquire. by destruct (_ <? _).
      + unfold AsyncInvokeHandler. destruct (_ =? _); [done|]. destruct built; [|done]. cbn. by case_bool_decide.
      + destruct (workers s !! i) as [w|]; [|done]. pose proof (work_frame now o w s) as Hf. destruct (work now o w s). cbn. by destruct Hf.
      + done. }
  lia.
Qed.

Lemma exhausted_step maxAge s e :
  slot_inv s → rejected s = capacity s → rejected (step maxAge s e) = capacity (step maxAge s e) ∧ length (workers (step maxAge s e)) = length (workers s).
Proof.
  intros [Hs Hc] Hr. destruct e as [|built id url inst now|i now o|now]; cbn [step].
  - unfold Acquire. destruct (Nat.ltb_spec (sem s) (capacity s)); [lia|done].
  - unfold AsyncInvokeHandler. destruct (Nat.eqb_spec (building s) 0); [done|lia].
  - destruct (workers s !! i) as [w|]; [|done]. pose proof (work_frame now o w s) as Hf. destruct (work now o w s) as [w' s'].
    destruct Hf as (F1 & F2 & F3 & F4 & _). cbn. rewrite F1, F3, F4, length_insert. done.
  - done.
Qed.

(** A request whose context cannot be built keeps its slot: after as many of
    them as there are slots, whatever happens, no request is accepted again. *)
Theorem refused_requests_exhaust_pool maxAge cap :
  let bad := EHandle false "" "" "" 0%Z in
  let es := flat_map (λ _, [EAcquire; bad]) (seq 0 cap) in
  ∀ es', workers (run maxAge cap (es ++ es')) = [].
Proof.
  intros bad es es'.
  assert (∀ n, n ≤ cap → let s := run maxAge cap (flat_map (λ _, [EAcquire; bad]) (seq 0 n)) in
    s = MkSys cap n 0 n ∅ ∅ 0 [] []) as Hn.
  { induction n as [|n IH]; intros Hn; [done|]. cbn zeta in *. rewrite seq_S, flat_map_app. unfold run in *. rewrite foldl_app, IH by lia.
    cbn [flat_map app foldl step]. unfold Acquire at 1. cbn [sem capacity building rejected]. rewrite (proj2 (Nat.ltb_lt n cap)) by lia. done. }
  specialize (Hn cap ltac:(lia)). unfold run in *. rewrite foldl_app. fold es in Hn. rewrite Hn.
  enough (∀ s, slot_inv s → rejected s = capacity s → length (workers (foldl (step maxAge) s es')) = length (workers s)) as H.
  { apply nil_length_inv, H; [split; cbn; lia|done]. }
  clear. induction es' as [|e es' IH]; intros s Hi Hr; [done|]. cbn [foldl].
  destruct (exhausted_step maxAge s e Hi Hr) as [H1 H2]. rewrite IH; [done|by apply slot_step|done].
Qed.

(** ** Progress *)

Definition left_ (w : worker) : nat :=
  match w_pc w with
  | PLoad => 14 | PSetRunning _ => 13 | PStoreRunning _ => 12 | PInvoke _ => 11
  | PPanicLoad _ => 7 | PAssign _ l => 3 + length l | PStore _ => 2 | PRelease => 1 | PDone => 0
  end.

Lemma work_left now o w s : left_ (work now o w s).1 ≤ pred (left_ w).
Proof.
  unfold work, left_. destruct w as [id url p oc]; cbn. destruct p as [|a|a|a|a [|x l]|a|t| |]; cbn; try lia.
  - unfold Load; destruct (results s !! id); cbn; lia.
  - destruct (heap s !! a); cbn; lia.
  - destruct o as [r|]; cbn; [|lia]. unfold final_assignments. destruct (failed r), (invokeErr r); cbn; lia.
  - destruct (heap s !! a); cbn; lia.
  - unfold Load; destruct (results s !! id); cbn; lia.
Qed.

Definition is_step (i : nat) (e : event) : bool := match e with EWork j _ _ => bool_decide (j = i) | _ => false end.
Definition steps_of (i : nat) (es : list event) : nat := sum_list_with (λ e, if is_step i e then 1 else 0) es.

Lemma step_left maxAge s e i w :
  workers s !! i = Some w →
  ∃ w', workers (step maxAge s e) !! i = Some w' ∧ w_id w' = w_id w ∧ left_ w' ≤ left_ w - (if is_step i e then 1 else 0).
Proof.
  intros Hw. destruct e as [|built id url inst now|j now o|now]; cbn [step is_step].
  - exists w. split_and!; [|done|lia]. unfold Acquire. by destruct (_ <? _).
  - exists w. split_and!; [|done|lia]. unfold AsyncInvokeHandler. destruct (_ =? _); [done|]. destruct built; [|done]. cbn [negb].
    case_bool_decide; [done|]. cbn. by rewrite lookup_app_l by (by eapply lookup_lt_Some).
  - destruct (workers s !! j) as [u|] eqn:Eu; [|rewrite bool_decide_eq_false_2 by congruence; exists w; split_and!; [done..|lia]].
    pose proof (work_frame now o u s) as Hf. pose proof (work_left now o u s) as Hl. destruct (work now o u s) as [u' s'].
    destruct Hf as (_ & _ & _ & F4 & F5 & _). cbn in *. rewrite F4. case_bool_decide; subst.
    + rewrite list_lookup_insert_eq by (by eapply lookup_lt_Some). rewrite Hw in Eu. injection Eu as <-. exists u'. split_and!; [done..|lia].
    + rewrite list_lookup_insert_ne by done. exists w. split_and!; [done..|lia].
  - exists w. split_and!; [done..|lia].
Qed.

Lemma steps_left maxAge s es i w :
  workers s !! i = Some w →
  ∃ w', workers (foldl (step maxAge) s es) !! i = Some w' ∧ w_id w' = w_id w ∧ left_ w' ≤ left_ w - steps_of i es.
Proof.
  revert s w. induction es as [|e es IH]; intros s w Hw; cbn [foldl].
  { exists w. split_and!; [done..|cbn; lia]. }
  destruct (step_left maxAge s e i w Hw) as (w1 & H1 & H2 & H3). destruct (IH _ _ H1) as (w2 & H4 & H5 & H6).
  exists w2. split_and!; [done|congruence|]. change (steps_of i (e :: es)) with ((if is_step i e then 1 else 0) + steps_of i es). lia.
Qed.

Lemma left_bound maxAge cap es w : w ∈ workers (run maxAge cap es) → left_ w ≤ 14.
Proof.
  revert w. apply (run_inv (λ s, ∀ w, w ∈ workers s → left_ w ≤ 14)); [intros w Hw; by apply not_elem_of_nil in Hw|].
  intros s e _ IH w Hw. destruct e as [|built id url inst now|j now o|now]; cbn [step] in Hw.
  - apply IH. unfold Acquire in Hw. by destruct (_ <? _).
  - unfold AsyncInvokeHandler in Hw. destruct (_ =? _); [by apply IH|]. destruct built; [|by apply IH]. cbn [negb] in Hw.
    case_bool_decide; [by apply IH|]. cbn in Hw. apply elem_of_app in Hw as [Hw| ->%list_elem_of_singleton]; [by apply IH|done].
  - destruct (workers s !! j) as [u|] eqn:Eu; [|by apply IH]. pose proof (work_frame now o u s) as Hf.
    pose proof (work_left now o u s) as Hl. destruct (work now o u s) as [u' s']. cbn in *. destruct Hf as (_ & _ & _ & F4 & _).
    rewrite F4 in Hw. apply list_elem_of_lookup_1 in Hw as [k Hk]. apply list_lookup_insert_Some in Hk as [(<- & <- & _)|[_ Hk]].
    + apply list_elem_of_lookup_2 in Eu. specialize (IH u Eu). lia.
    + by apply IH, list_elem_of_lookup_2 with k.
  - by apply IH.
Qed.

(** The goroutine of a request ends, and gives its slot back, when it has made
    fourteen steps, in every interleaving and whatever the invocation and the
    storage do. *)
Theorem async_ends maxAge cap es es' i w :
  workers (run maxAge cap es) !! i = Some w → 14 ≤ steps_of i es' →
  ∃ w', workers (run maxAge cap (es ++ es')) !! i = Some w' ∧ w_id w' = w_id w ∧ w_pc w' = PDone.
Proof.
  intros Hw Hn. destruct (steps_left maxAge _ es' i w Hw) as (w' & H1 & H2 & H3). unfold run in *. rewrite foldl_app. exists w'. split_and!; [done..|].
  pose proof (left_bound maxAge cap es w (list_elem_of_lookup_2 _ _ _ Hw)). unfold left_ in *. destruct (w_pc w'); [lia..|done].
Qed.

(** ** What clients are told *)

Definition early (r : AsyncResult) : Prop := (Status r = StatusPending ∨ Status r = StatusRunning) ∧ Error r = ""%string ∧ CompletedAt r = None.

(** A result that tells how the invocation ended. *)
Definition tells (o : outcome) (r : AsyncResult) : Prop :=
  match o with
  | Returned x => Status r = (if failed x then StatusFailed else StatusCompleted) ∧ StatusCode r = statusCode x ∧ RespBody r = respBody x ∧
                  RespHeaders r = respHeader x ∧ Error r = default ""%string (invokeErr x) ∧ CompletedAt r ≠ None
  | Panicked => Status r = StatusFailed ∧ Error r = "internal panic"%string ∧ CompletedAt r ≠ None
  end.

(** The object at [a] is a result of request [id]. *)
Definition own (s : sys) (id : string) (a : nat) : Prop := ∃ r, heap s !! a = Some r ∧ RequestID r = id.
Definition all_early (s : sys) (id : string) : Prop := ∀ a r, heap s !! a = Some r → RequestID r = id → early r.
Definition published (s : sys) (id : string) (P : AsyncResult → Prop) : Prop :=
  ∀ a r, results s !! id = Some a → heap s !! a = Some r → P r.

Definition pending_writes (s : sys) (w : worker) (a : nat) (l : list assignment) : Prop :=
  own s (w_id w) a ∧ ∃ o, w_outcome w = Some o ∧ (∀ r, heap s !! a = Some r → tells o (foldl assign r l)) ∧
  (o ≠ Panicked → results s !! w_id w ≠ Some a ∧ published s (w_id w) early).

Definition worker_inv (s : sys) (w : worker) : Prop :=
  match w_pc w with
  | PLoad => w_outcome w = None ∧ all_early s (w_id w)
  | PSetRunning a | PStoreRunning a => w_outcome w = None ∧ all_early s (w_id w) ∧ own s (w_id w) a
  | PInvoke a => w_outcome w = None ∧ all_early s (w_id w) ∧ own s (w_id w) a ∧ results s !! w_id w ≠ Some a
  | PAssign a l => pending_writes s w a l
  | PStore a => pending_writes s w a []
  | PPanicLoad _ => w_outcome w = Some Panicked ∧ all_early s (w_id w)
  | PRelease | PDone =>
      match w_outcome w with Some o => published s (w_id w) (tells o) | None => results s !! w_id w = None end
  end.

(** The state of the storage between steps. *)
Record store_inv (s : sys) : Prop := {
  si_own : ∀ k a, results s !! k = Some a → own s k a;
  si_next : ∀ a r, heap s !! a = Some r → a < next s ∧ RequestID r ∈ w_id <$> workers s;
  si_nodup : NoDup (w_id <$> workers s);
  si_worker : ∀ w, w ∈ workers s → worker_inv s w }.

Lemma assign_id r x : RequestID (assign r x) = RequestID r.
Proof. by destruct r, x. Qed.

(** The final assignments complete an early result. *)
Lemma final_tells now x r : early r → tells (Returned x) (foldl assign r (final_assignments now x)).
Proof.
  intros (_ & He & _). unfold final_assignments. cbn. destruct (failed x) eqn:Ef, (invokeErr x) as [e|] eqn:Ei, r; cbn in *; subst; try done.
  unfold failed in Ef. rewrite Ei in Ef. done.
Qed.
Lemma panic_tells now r : tells Panicked (foldl assign r (panic_assignments now)).
Proof. by destruct r. Qed.

(** Steps that concern other requests keep the invariant of a goroutine. *)
Lemma worker_frame s s' w :
  (∀ a r, RequestID r = w_id w → heap s' !! a = Some r ↔ heap s !! a = Some r) →
  (results s' !! w_id w = results s !! w_id w ∨ results s' !! w_id w = None) →
  (∀ a, results s !! w_id w = Some a → own s (w_id w) a) → worker_inv s w → worker_inv s' w.
Proof.
  intros Hh Hr Ho.
  assert (∀ a, own s (w_id w) a → own s' (w_id w) a) as Hown by (intros a (r & H1 & H2); exists r; by rewrite Hh).
  assert (all_early s (w_id w) → all_early s' (w_id w)) as Hall by (intros H a r H1 H2; apply (H a); [by rewrite <- Hh|done]).
  assert (∀ a, results s !! w_id w ≠ Some a → results s' !! w_id w ≠ Some a) as Hne by (intros a H E; destruct Hr as [Hr|Hr]; congruence).
  assert (∀ P, published s (w_id w) P → published s' (w_id w) P) as Hpub.
  { intros P H a r H1 H2. destruct Hr as [Hr|Hr]; [|congruence]. rewrite Hr in H1. destruct (Ho a H1) as (r' & E1 & E2).
    pose proof (proj2 (Hh a r' E2) E1) as E3. rewrite H2 in E3. injection E3 as ->. by apply (H a). }
  assert (∀ a l, pending_writes s w a l → pending_writes s' w a l) as Hpend.
  { intros a l (H1 & o & H2 & H3 & H4). split; [auto|]. exists o. split_and!; [done| |].
    - intros r H. destruct H1 as (r' & E1 & E2). pose proof (proj2 (Hh a r' E2) E1) as E3. rewrite H in E3. injection E3 as ->. by apply H3.
    - intros Hp. destruct (H4 Hp). auto. }
  unfold worker_inv. destruct (w_pc w); intros H; try (destruct_and?; split_and?; by eauto).
  all: try (by apply Hpend). all: destruct (w_outcome w); [by apply Hpub|]; destruct Hr as [->| ->]; done.
Qed.

(** What a step of a goroutine does to the storage: nothing, an assignment to
    an object of its request, or storing a copy of one. *)
Definition same_store (s s' : sys) : Prop := heap s' = heap s ∧ results s' = results s ∧ next s' = next s ∧ workers s' = workers s.
Definition touch (id : string) (s s' : sys) : Prop :=
  same_store s s' ∨ (∃ a x, own s id a ∧ same_store (write a x s) s') ∨
  (∃ a r, heap s !! a = Some r ∧ RequestID r = id ∧ same_store (Store id r s) s').

Lemma own_alive s id a x b : own s id b → own (write a x s) id b.
Proof.
  intros (r & H1 & H2). unfold own. cbn. destruct (decide (a = b)) as [->|Hn].
  - exists (assign r x). by rewrite lookup_alter_eq, H1, assign_id.
  - exists r. by rewrite lookup_alter_ne.
Qed.

Lemma touch_frame s s' id w :
  store_inv s → touch id s s' → w_id w ≠ id → worker_inv s w → worker_inv s' w.
Proof.
  intros Hi Ht Hn. apply worker_frame; [| |by apply (si_own s Hi)].
  - intros a r Hr. destruct Ht as [(-> & _)|[(b & x & (rb & H1 & H2) & -> & _)|(b & rb & H1 & H2 & -> & _)]]; [done| |]; cbn.
    + destruct (decide (a = b)) as [->|Hab]; [|by rewrite lookup_alter_ne]. rewrite lookup_alter_eq, H1. cbn.
      split; intros [= <-]; [rewrite assign_id in Hr|]; congruence.
    + destruct (decide (a = next s)) as [->|Hab]; [|by rewrite lookup_insert_ne]. rewrite lookup_insert_eq.
      split; [intros [= <-]; congruence|]. intros H. apply (si_next s Hi) in H. lia.
  - left. destruct Ht as [(_ & -> & _)|[(b & x & _ & _ & -> & _)|(b & rb & _ & _ & _ & -> & _)]]; [done..|]. cbn. by rewrite lookup_insert_ne.
Qed.

Lemma touch_own s s' id k a : store_inv s → touch id s s' → results s' !! k = Some a → own s' k a.
Proof.
  intros Hi [(H1 & H2 & _)|[(b & x & Hb & H1 & H2 & _)|(b & r & Hb & Hr & H1 & H2 & _)]] H; rewrite H2 in H.
  - apply (si_own s Hi) in H. unfold own. by rewrite H1.
  - apply (si_own s Hi), (own_alive s k b x) in H. unfold own in *. by rewrite H1.
  - unfold own. rewrite H1. cbn in *. apply lookup_insert_Some in H as [[<- <-]|[Hk H]].
    + exists r. by rewrite lookup_insert_eq.
    + apply (si_own s Hi) in H as (ra & E1 & E2). exists ra. rewrite lookup_insert_ne; [done|]. apply (si_next s Hi) in E1. lia.
Qed.

Lemma touch_next s s' id a r :
  store_inv s → touch id s s' → heap s' !! a = Some r → a < next s' ∧ RequestID r ∈ w_id <$> workers s'.
Proof.
  intros Hi Ht H. destruct Ht as [(H1 & _ & H2 & H3)|[(b & x & Hb & H1 & _ & H2 & H3)|(b & rb & Hb & Hr & H1 & _ & H2 & H3)]];
    rewrite H1 in H; rewrite H2, H3; cbn in *.
  - by apply (si_next s Hi).
  - apply lookup_alter_Some in H as [(<- & r' & H & ->)|[_ H]]; [rewrite assign_id|]; by eapply (si_next s Hi).
  - apply lookup_insert_Some in H as [[<- <-]|[_ H]]; [split; [lia|]; by eapply (si_next s Hi)|].
    apply (si_next s Hi) in H as [? ?]. split; [lia|done].
Qed.

Lemma write_early s id a : all_early s id → all_early (write a (SetStatus StatusRunning) s) id.
Proof.
  intros He b r H Hr. cbn in H. apply lookup_alter_Some in H as [(<- & r' & H & ->)|[_ H]]; [|by eapply He].
  rewrite assign_id in Hr. destruct (He _ _ H Hr) as (_ & ? & ?). split_and!; [by destruct r'; right|by destruct r'..].
Qed.

Lemma store_early s id r : all_early s id → early r → all_early (Store id r s) id.
Proof. intros He Hr b r' H Hb. cbn in H. apply lookup_insert_Some in H as [[<- <-]|[_ H]]; [done|by eapply He]. Qed.

Lemma work_write s w a x l :
  store_inv s → pending_writes s w a (x :: l) → pending_writes (write a x s) w a l.
Proof.
  intros Hi (H1 & o & H2 & H3 & H4). split; [by apply own_alive|]. exists o. split_and!; [done| |].
  - intros r H. cbn in H. rewrite lookup_alter_eq in H. apply fmap_Some in H as (r' & H & ->). by apply H3.
  - intros Hp. destruct (H4 Hp) as [H5 H6]. split; [done|]. intros b r Hb Hr. cbn in *. rewrite lookup_alter_ne in Hr by congruence. by eapply H6.
Qed.

Lemma work_inv now o w s :
  store_inv s → worker_inv s w → let '(w', s') := work now o w s in touch (w_id w) s s' ∧ worker_inv s' w'.
Proof.
  intros Hi Hw. destruct w as [id url p oc]. unfold work, worker_inv in *. cbn in *.
  destruct p as [|a|a|a|a [|x l]|a|t| |]; cbn.
  - destruct Hw as [-> He]. unfold Load. destruct (results s !! id) as [a|] eqn:Er; (split; [by left|]); [|done].
    split_and!; [done..|]. by apply (si_own s Hi).
  - destruct Hw as (-> & He & Ho). split; [right; left; by exists a, (SetStatus StatusRunning)|].
    split_and!; [done|by apply write_early|by apply own_alive].
  - destruct Hw as (-> & He & r & Hr & Hid). rewrite Hr. split; [right; right; by exists a, r|]. split_and!; [done| | |].
    + apply store_early; [done|by eapply He].
    + exists r. cbn. rewrite lookup_insert_ne; [done|]. apply (si_next s Hi) in Hr. lia.
    + cbn. rewrite lookup_insert_eq. intros [= E]. apply (si_next s Hi) in Hr. lia.
  - destruct Hw as (-> & He & Ho & Hn). destruct o as [x|]; (split; [by left|]); [|by split].
    split; [done|]. exists (Returned x). cbn. split_and!; [done| |].
    + intros r Hr. apply final_tells. destruct Ho as (r' & Hr' & Hid). eapply He; [done|congruence].
    + intros _. split; [done|]. intros b r Hb Hr. apply (He b); [done|]. apply (si_own s Hi) in Hb as (r' & E1 & E2). congruence.
  - split; [by left|done].
  - split; [right; left; exists a, x; split; [by destruct Hw|done]|]. by apply (work_write s (MkWorker id url _ oc)).
  - destruct Hw as ((r & Hr & Hid) & o' & Ho & Ht & _). cbn in *. subst oc. rewrite Hr.
    assert (published (Store id r s) id (tells o')) as Hp.
    { intros b r' H1 H2. cbn in *. rewrite lookup_insert_eq in H1. injection H1 as <-. rewrite lookup_insert_eq in H2. injection H2 as <-. by apply Ht. }
    split.
    + right; right. exists a, r. split_and!; [done..|]. destruct o'; [case_bool_decide|]; done.
    + destruct o'; [case_bool_decide|]; done.
  - destruct Hw as [-> He]. unfold Load. destruct (results s !! id) as [a|] eqn:Er; (split; [by left|]).
    + split; [by apply (si_own s Hi)|]. exists Panicked. split_and!; [done| |done]. intros r _. apply panic_tells.
    + intros b r Hb. cbn in Hb. rewrite Er in Hb. done.
  - split; [by left|]. done.
  - split; [by left|done].
Qed.

Lemma nodup_insert_worker (l : list worker) i w w' :
  l !! i = Some w → w_id w' = w_id w → w_id <$> <[i := w']> l = w_id <$> l.
Proof. intros H E. rewrite list_fmap_insert, E. apply list_insert_id. by rewrite list_lookup_fmap, H. Qed.

Lemma store_step maxAge s e : store_inv s → store_inv (step maxAge s e).
Proof.
  intros Hi. destruct e as [|built id url inst now|i now o|now]; cbn [step].
  - unfold Acquire. destruct (_ <? _); [|done]. destruct Hi as [H1 H2 H3 H4]. by split.
  - unfold AsyncInvokeHandler. destruct (_ =? _); [done|]. destruct built; cbn [negb]; [|destruct Hi as [H1 H2 H3 H4]; by split].
    case_bool_decide as Hf; [done|]. set (r := MkResult _ _ _ _ _ _ _ _ _). destruct Hi as [H1 H2 H3 H4]. split; cbn.
    + intros k a H. apply lookup_insert_Some in H as [[<- <-]|[Hk H]].
      * exists r. cbn. by rewrite lookup_insert_eq.
      * apply H1 in H as (ra & E1 & E2). exists ra. cbn. rewrite lookup_insert_ne; [done|]. apply H2 in E1. lia.
    + intros a r' H. rewrite fmap_app. apply lookup_insert_Some in H as [[<- <-]|[_ H]]; [split; [lia|set_solver]|].
      apply H2 in H as [? ?]. split; [lia|set_solver].
    + rewrite fmap_app. apply NoDup_app. split_and!; [done| |apply NoDup_singleton]. intros k Hk. cbn. intros ->%list_elem_of_singleton. done.
    + intros w Hw. apply elem_of_app in Hw as [Hw| ->%list_elem_of_singleton].
      * specialize (H4 w Hw). assert (w_id w ≠ id) as Hne by (intros <-; apply Hf; by apply list_elem_of_fmap_2).
        revert H4. apply worker_frame; [| |by apply H1].
        -- intros a r' Hr'. cbn. destruct (decide (a = next s)) as [->|]; [|by rewrite lookup_insert_ne]. rewrite lookup_insert_eq.
           split; [intros [= <-]; cbn in Hr'; congruence|]. intros H. apply H2 in H. lia.
        -- left. cbn. by rewrite lookup_insert_ne.
      * split; [done|]. intros a r' H Hid. cbn in H, Hid. apply lookup_insert_Some in H as [[<- <-]|[_ H]]; [by split; [left|]|].
        apply H2 in H as [_ H]. by rewrite Hid in H.
  - destruct (workers s !! i) as [w|] eqn:Ew; [|done]. pose proof (si_worker s Hi w (list_elem_of_lookup_2 _ _ _ Ew)) as Hw.
    pose proof (work_inv now o w s Hi Hw) as Ht. pose proof (work_frame now o w s) as Hf. destruct (work now o w s) as [w' s'].
    destruct Ht as [Ht Hw']. destruct Hf as (_ & _ & _ & F4 & F5 & _).
    split; cbn.
    + intros k a H. apply (touch_own s s' (w_id w)) in H; done.
    + intros a r H. rewrite (nodup_insert_worker _ i w) by (by rewrite ?F4). by eapply touch_next.
    + rewrite (nodup_insert_worker _ i w) by (by rewrite ?F4). rewrite F4. apply (si_nodup s Hi).
    + intros u Hu. apply list_elem_of_lookup_1 in Hu as [k Hk]. apply list_lookup_insert_Some in Hk as [(<- & <- & _)|[Hik Hk]]; [done|].
      rewrite F4 in Hk. pose proof (si_worker s Hi u (list_elem_of_lookup_2 _ _ _ Hk)) as Hu.
      apply (touch_frame s s' (w_id w)); [done..| |done]. intros E. apply Hik.
      apply (NoDup_lookup (w_id <$> workers s) i k (w_id w)); [apply (si_nodup s Hi)|by rewrite list_lookup_fmap, Ew|by rewrite list_lookup_fmap, Hk; cbn; rewrite E].
  - destruct Hi as [H1 H2 H3 H4]. split; cbn; [|done..|].
    + intros k a H. apply map_lookup_filter_Some in H as [H _]. by apply H1.
    + intros w Hw. specialize (H4 w Hw). revert H4. apply worker_frame; [done| |by apply H1]. cbn.
      destruct (results s !! w_id w) as [a|] eqn:Ea.
      * destruct (decide (default false (expired maxAge now <$> heap s !! a) = false)) as [Hd|Hd].
        -- left. by apply map_lookup_filter_Some.
        -- right. apply map_lookup_filter_None. right. intros b Hb. rewrite Ea in Hb. injection Hb as <-. exact Hd.
      * right. apply map_lookup_filter_None. by left.
Qed.

Lemma run_store_inv maxAge cap es : store_inv (run maxAge cap es).
Proof.
  apply run_inv; [|intros s e _; apply store_step]. split; cbn; try done; [constructor|]. intros w Hw. by apply not_elem_of_nil in Hw.
Qed.

(** Results of requests accepted since [t] are not removed before [t + maxAge]. *)
Definition recent (t maxAge : Z) (e : event) : Prop :=
  match e with
  | EHandle true _ _ _ now => (t ≤ now)%Z
  | ECleanup now => (now ≤ t + maxAge)%Z
  | _ => True
  end.

Lemma assign_created r x : CreatedAt (assign r x) = CreatedAt r.
Proof. by destruct r, x. Qed.

Definition kept (t : Z) (s : sys) : Prop :=
  (∀ a r, heap s !! a = Some r → (t ≤ CreatedAt r)%Z) ∧ (∀ w, w ∈ workers s → results s !! w_id w ≠ None).

Lemma kept_step t maxAge s e : recent t maxAge e → store_inv s → kept t s → kept t (step maxAge s e).
Proof.
  intros He Hi [H1 H2]. destruct e as [|built id url inst now|i now o|now]; cbn [step].
  - unfold Acquire. by destruct (_ <? _).
  - unfold AsyncInvokeHandler. destruct (_ =? _); [done|]. destruct built; [|done]. cbn [negb]. case_bool_decide; [done|]. split; cbn.
    + intros a r H'. apply lookup_insert_Some in H' as [[<- <-]|[_ H']]; [done|by eapply H1].
    + intros w [Hw| ->%list_elem_of_singleton]%elem_of_app; [|by rewrite lookup_insert_eq].
      destruct (decide (w_id w = id)) as [->|]; [by rewrite lookup_insert_eq|]. rewrite lookup_insert_ne by done. by apply H2.
  - destruct (workers s !! i) as [w|] eqn:Ew; [|done]. pose proof (si_worker s Hi w (list_elem_of_lookup_2 _ _ _ Ew)) as Hw.
    pose proof (work_inv now o w s Hi Hw) as Ht. pose proof (work_frame now o w s) as Hf. destruct (work now o w s) as [w' s'].
    destruct Ht as [Ht _]. destruct Hf as (_ & _ & _ & F4 & F5 & _).
    assert (∀ a r, heap s' !! a = Some r → (t ≤ CreatedAt r)%Z) as Hc.
    { intros a r H. destruct Ht as [(E & _)|[(b & x & _ & E & _)|(b & rb & Hb & _ & E & _)]]; rewrite E in H; cbn in H.
      - by eapply H1.
      - apply lookup_alter_Some in H as [(<- & r' & H & ->)|[_ H]]; [rewrite assign_created|]; by eapply H1.
      - apply lookup_insert_Some in H as [[<- <-]|[_ H]]; by eapply H1. }
    split; cbn; [done|]. intros u Hu.
    assert (w_id u ∈ w_id <$> workers s) as [v [-> Hv]]%list_elem_of_fmap.
    { rewrite <- F4, <- (nodup_insert_worker (workers s') i w w') by (by rewrite ?F4). by apply list_elem_of_fmap_2. }
    specialize (H2 v Hv). destruct Ht as [(_ & -> & _)|[(b & x & _ & _ & -> & _)|(b & rb & _ & _ & _ & -> & _)]]; [done..|].
    cbn. destruct (decide (w_id w = w_id v)) as [->|]; [by rewrite lookup_insert_eq|by rewrite lookup_insert_ne].
  - split; [done|]. intros w Hw. specialize (H2 w Hw). cbn. destruct (results s !! w_id w) as [a|] eqn:Ea; [|done].
    rewrite (proj2 (map_lookup_filter_Some _ _ _ a)); [done|]. split; [done|]. cbn.
    destruct (heap s !! a) as [r|] eqn:Er; [|done]. cbn. unfold expired. apply Z.ltb_ge. specialize (H1 a r Er). cbn in He. lia.
Qed.

Lemma run_kept t maxAge cap es : (∀ e, e ∈ es → recent t maxAge e) → kept t (run maxAge cap es).
Proof.
  intros He. enough (kept t (run maxAge cap es) ∧ store_inv (run maxAge cap es)) by tauto.
  apply (run_inv (λ s, kept t s ∧ store_inv s)).
  - split; [split; [done|]; intros w Hw; by apply not_elem_of_nil in Hw|apply (run_store_inv maxAge cap [])].
  - intros s e Hin [Hk Hi]. split; [by apply kept_step; [apply He|..]|by apply store_step].
Qed.

(** C30. A client that polls an accepted request, and whose poll reads the entry and
    the object behind it without a write of the goroutine in between, is told
    that it is in progress, or the result of its invocation and nothing else: the
    answer is never a part of the result unless the invocation panicked and its
    goroutine has not ended, it is the whole result once the goroutine has
    ended, and it is there as long as results are kept. *)
Theorem async_result_exact maxAge cap es i w :
  let s := run maxAge cap es in
  workers s !! i = Some w →
  match GetAsyncResultHandler (Load (w_id w) s) s with
  | NotFound => ∀ t, ¬ (∀ e, e ∈ es → recent t maxAge e)
  | InProgress id _ => id = w_id w ∧ w_pc w ≠ PDone
  | Done r => RequestID r = w_id w ∧ ∃ o, w_outcome w = Some o ∧ (tells o r ∨ o = Panicked ∧ w_pc w ≠ PDone)
  end.
Proof.
  intros s Hw. pose proof (run_store_inv maxAge cap es) as Hi. fold s in Hi.
  pose proof (si_worker s Hi w (list_elem_of_lookup_2 _ _ _ Hw)) as Hinv.
  unfold GetAsyncResultHandler, Load. destruct (results s !! w_id w) as [a|] eqn:Ea; cbn [mbind option_bind].
  2: { intros t He. apply (run_kept t maxAge cap es) in He as [_ He]. apply (He w); [|done]. by apply list_elem_of_lookup_2 with i. }
  destruct (si_own s Hi _ _ Ea) as (r & Hr & Hid). rewrite Hr.
  assert (early r → match show r with InProgress id _ => id = w_id w | _ => False end) as Hearly.
  { intros ([E|E] & _). all: unfold show; by rewrite E. }
  assert (∀ o, tells o r → show r = Done r) as Htells.
  { intros [x|] Ht; cbn in Ht; destruct Ht as [E _]; unfold show; rewrite E; [by destruct (failed x)|done]. }
  assert (all_early s (w_id w) → w_pc w ≠ PDone → match show r with NotFound => False | InProgress id _ => id = w_id w ∧ w_pc w ≠ PDone | Done r => False end) as Hall.
  { intros H Hd. specialize (Hearly (H a r Hr Hid)). by destruct (show r). }
  assert (∀ l a', pending_writes s w a' l → w_pc w ≠ PDone → match show r with
    | NotFound => False | InProgress id _ => id = w_id w ∧ w_pc w ≠ PDone
    | Done r => RequestID r = w_id w ∧ ∃ o, w_outcome w = Some o ∧ (tells o r ∨ o = Panicked ∧ w_pc w ≠ PDone) end) as Hpend.
  { intros l a' (_ & o & Ho & _ & Hp) Hd. destruct o as [x|].
    - destruct (Hp ltac:(done)) as [_ Hpub]. specialize (Hearly (Hpub a r Ea Hr)). by destruct (show r).
    - unfold show. destruct (Status r); split; try done; exists Panicked; auto. }
  unfold worker_inv in Hinv. destruct (w_pc w) eqn:Ep.
  1-4: destruct_and?; specialize (Hall ltac:(done) ltac:(done)); by destruct (show r).
  1-2: specialize (Hpend _ _ Hinv ltac:(done)); by destruct (show r).
  1: destruct_and?; specialize (Hall ltac:(done) ltac:(done)); by destruct (show r).
  all: destruct (w_outcome w) as [o|]; [|congruence]; rewrite (Htells o) by (by eapply Hinv); split; [done|]; exists o; split; [done|]; left; by eapply Hinv.
Qed.

(** ** Webhooks *)

Section webhooks.
  Context (try cancelled : Z → bool).

(** The attempts up to [k], and how they end. *)
Definition retries (cfg : RetryConfig) (r : webhook_result) (ds : list Z) : Prop :=
  ∃ k, (0 ≤ k)%Z ∧ (∀ j, 0 ≤ j < k → try j = false ∧ (j = 0 ∨ cancelled j = false))%Z ∧
       ds = (λ j, InitialDelayMs cfg * 1000000 * 2 ^ j)%Z <$> seqZ 0 (Z.min k (MaxAttempts cfg - 1)) ∧
       match r with
       | Sent => (k < MaxAttempts cfg)%Z ∧ try k = true
       | Cancelled => (0 < k < MaxAttempts cfg)%Z ∧ cancelled k = true
       | GaveUp n => k = Z.max 0 (MaxAttempts cfg) ∧ n = MaxAttempts cfg
       | _ => False
       end.

Lemma delay_exact d j :
  (0 ≤ d)%Z → (0 < j)%Z → (d * 1000000 * 2 ^ j < 2 ^ 63)%Z → (j < 63)%Z → delay d j = (d * 1000000 * 2 ^ (j - 1))%Z.
Proof.
  intros Hd Hj Hb Hj2. unfold delay. assert (0 < 2 ^ (j - 1) < 2 ^ 63)%Z as Hp.
  { split; [apply Z.pow_pos_nonneg; lia|apply Z.pow_lt_mono_r; lia]. }
  assert (2 ^ j = 2 * 2 ^ (j - 1))%Z as E by (rewrite <- Z.pow_succ_r by lia; f_equal; lia).
  assert (d * 1000000 <= d * 1000000 * 2 ^ (j - 1))%Z by nia. assert (d * 1000000 * 2 ^ (j - 1) < 2 ^ 63)%Z by nia.
  rewrite (wrapS_small 64 (d * 1000000)), (wrapS_small 64 (2 ^ (j - 1))), wrapS_small by (cbn [Z.sub Z.add Z.opp Z.pos_sub Pos.pred_double]; lia). done.
Qed.

Lemma retry_loop cfg fuel k ds :
  (0 ≤ InitialDelayMs cfg)%Z → (MaxAttempts cfg ≤ 63)%Z → (InitialDelayMs cfg * 1000000 * 2 ^ MaxAttempts cfg < 2 ^ 63)%Z →
  (0 ≤ k ≤ Z.max 0 (MaxAttempts cfg))%Z → (MaxAttempts cfg - k ≤ Z.of_nat fuel)%Z →
  (∀ j, 0 ≤ j < k → try j = false ∧ (j = 0 ∨ cancelled j = false))%Z →
  ds = ((λ j, InitialDelayMs cfg * 1000000 * 2 ^ j)%Z <$> seqZ 0 (k - 1)) →
  let '(r, ds') := sendWebhookWithRetry try cancelled fuel k cfg ds in retries cfg r ds'.
Proof.
  intros Hd H63 Hb. revert k ds. induction fuel as [|fuel IH]; intros k ds Hk Hf Hj Hds; cbn [sendWebhookWithRetry].
  { exists k. assert (Z.min k (MaxAttempts cfg - 1) = k - 1 ∨ MaxAttempts cfg - 1 < 0 ∧ k = 0)%Z as Hm by lia.
    split_and!; [lia|done| |lia|done]. destruct Hm as [->|[Hm ->]]; [done|]. rewrite Hds, Z.min_r by lia. by rewrite !seqZ_nil by lia. }
  destruct (Z.ltb_spec k (MaxAttempts cfg)) as [Hlt|Hge].
  2: { exists k. assert (Z.min k (MaxAttempts cfg - 1) = k - 1 ∨ MaxAttempts cfg - 1 < 0 ∧ k = 0)%Z as Hm by lia.
    split_and!; [lia|done| |lia|done]. destruct Hm as [->|[Hm ->]]; [done|]. rewrite Hds, Z.min_r by lia. by rewrite !seqZ_nil by lia. }
  set (d := if (0 <? k)%Z then _ else _).
  assert (ds ++ d = (λ j, InitialDelayMs cfg * 1000000 * 2 ^ j)%Z <$> seqZ 0 k) as Hd'.
  { subst ds d. destruct (Z.ltb_spec 0 k) as [H0|H0].
    - rewrite delay_exact; [|lia..| |lia].
      + assert (seqZ 0 k = seqZ 0 (k - 1) ++ [k - 1])%Z as ->; [|by rewrite fmap_app].
        replace k with (k - 1 + 1)%Z at 1 by lia. rewrite seqZ_app by lia. done.
      + assert (2 ^ k ≤ 2 ^ MaxAttempts cfg)%Z by (apply Z.pow_le_mono_r; lia). nia.
    - by rewrite !seqZ_nil by lia. }
  destruct ((0 <? k)%Z && cancelled k) eqn:Ec.
  { apply andb_true_iff in Ec as [E1%Z.ltb_lt E2]. exists k. rewrite Z.min_l by lia. split_and!; [lia|done..]. }
  destruct (try k) eqn:Et.
  { exists k. rewrite Z.min_l by lia. split_and!; [lia|done..]. }
  apply IH; [lia..| |].
  - intros j Hjk. destruct (decide (j = k)) as [->|]; [|apply Hj; lia]. split; [done|].
    destruct (Z.ltb_spec 0 k); [right; by destruct (cancelled k)|left; lia].
  - rewrite Hd'. by replace (k + 1 - 1)%Z with k by lia.
Qed.

(** A webhook is tried until an attempt succeeds, at most the configured
    number of times, with delays that double; it is given up only after all
    attempts failed. *)
Theorem webhook_retries cfg url :
  let r := Retry (Webhook cfg) in
  wh_Enabled (Webhook cfg) = true → url ≠ ""%string → validateWebhookURL url = Some true →
  (0 ≤ InitialDelayMs r)%Z → (MaxAttempts r ≤ 63)%Z → (InitialDelayMs r * 1000000 * 2 ^ MaxAttempts r < 2 ^ 63)%Z →
  let '(res, delays) := SendWebhook try cancelled cfg url in retries r res delays.
Proof.
  intros r He Hu Hv Hd H63 Hb. unfold SendWebhook. rewrite bool_decide_eq_false_2, He, Hv by done. cbn [negb].
  apply retry_loop; fold r; [done..|lia|lia|intros; lia|by rewrite seqZ_nil].
Qed.
End webhooks.

(** A URL of seven bytes that is not "http://" is sliced beyond its end, in a
    goroutine that does not recover. *)
Theorem short_webhook_url_crashes url try cancelled cfg :
  wh_Enabled (Webhook cfg) = true → String.length url = 7 → url ≠ "http://"%string → (SendWebhook try cancelled cfg url).1 = CrashedProcess.
Proof.
  intros He Hl Hu. unfold SendWebhook, validateWebhookURL, slice. rewrite He, Hl. cbn [Nat.ltb Nat.leb negb].
  rewrite bool_decide_eq_false_2 by (by intros ->). rewrite str_take_all by lia. by rewrite bool_decide_eq_false_2.
Qed.

(** ** A client that is interrupted between its accesses *)

(** A client that has loaded the pending result and then looks at it while the
    goroutine fills it in is told that the request completed, without a body. *)
Theorem interrupted_client_sees_part :
  let ok := Returned (MkResponse None 200 "body" ∅) in
  let s1 := run 1000 1 [EAcquire; EHandle true "r" "" "i" 0] in
  let s2 := run 1000 1 [EAcquire; EHandle true "r" "" "i" 0; EWork 0 0 ok; EWork 0 0 ok; EWork 0 0 ok; EWork 0 1 ok; EWork 0 1 ok] in
  ∃ r, GetAsyncResultHandler (Load "r" s1) s2 = Done r ∧ Status r = StatusCompleted ∧ RespBody r = ""%string ∧ StatusCode r = 0%Z.
Proof. by eexists. Qed.

(** The age of a result counts from the request: an invocation that takes
    longer than results are kept loses its result with the next cleanup. *)
Theorem long_invocation_loses_result :
  let ok := Returned (MkResponse None 200 "body" ∅) in
  let es := [EAcquire; EHandle true "r" "" "i" 0; EWork 0 0 ok; EWork 0 0 ok; EWork 0 0 ok] ++ replicate 8 (EWork 0 2000 ok) in
  (∃ r, GetAsyncResultHandler (Load "r" (run 1000 1 es)) (run 1000 1 es) = Done r) ∧
  GetAsyncResultHandler (Load "r" (run 1000 1 (es ++ [ECleanup 2001]))) (run 1000 1 (es ++ [ECleanup 2001])) = NotFound.
Proof. split; [by eexists|by vm_compute]. Qed.

(** ** Witnesses *)

Definition demo_events : list event :=
  [EAcquire; EHandle true "r" "" "i" 0] ++ replicate 14 (EWork 0 1 (Returned (MkResponse None 200 "body" ∅))).

Lemma async_result_exact_witness :
  ∃ r, GetAsyncResultHandler (Load "r" (run 1000 1 demo_events)) (run 1000 1 demo_events) = Done r ∧ RequestID r = "r"%string.
Proof.
  assert (workers (run 1000 1 demo_events) !! 0 = Some (MkWorker "r" "" PDone (Some (Returned (MkResponse None 200 "body" ∅))))) as E
    by (vm_compute; reflexivity).
  pose proof (async_result_exact 1000 1 demo_events 0 _ E) as H. cbn zeta in H. cbn [w_id] in H.
  assert (GetAsyncResultHandler (Load "r" (run 1000 1 demo_events)) (run 1000 1 demo_events) =
    Done (MkResult "r" StatusCompleted 200 ∅ "body" "" 0 (Some 1%Z) "i")) as G by (vm_compute; reflexivity).
  rewrite G in H. eexists. split; [exact G|exact (proj1 H)].
Defined.

Lemma async_ends_witness :
  ∃ w, workers (run 1000 1 demo_events) !! 0 = Some w ∧ w_pc w = PDone.
Proof.
  assert (workers (run 1000 1 [EAcquire; EHandle true "r" "" "i" 0]) !! 0 = Some (MkWorker "r" "" PLoad None)) as E by (vm_compute; reflexivity).
  destruct (async_ends 1000 1 [EAcquire; EHandle true "r" "" "i" 0] (drop 2 demo_events) 0 _ E) as (w & H1 & _ & H2); [vm_compute; lia|].
  exists w. by split.
Defined.

Lemma webhook_retries_witness :
  let cfg := MkConfig true 1000 60 5 (MkWebhook true 10 (MkRetry 3 1000)) (MkStorage "memory" (MkRedis "" "" 0)) in
  retries (λ k, k =? 2)%Z (λ _, false) (MkRetry 3 1000) Sent [1000000000; 2000000000]%Z.
Proof.
  intros cfg. exact (webhook_retries (λ k, k =? 2)%Z (λ _, false) cfg "https://a/b" eq_refl ltac:(done) eq_refl ltac:(cbn; lia) ltac:(cbn; lia) ltac:(cbn; lia)).
Defined.
