(* ===== verification/ClientLease.v ===== *)
(** * Leases of remote clients (pkg/frontend/remoteclientlease, api/lease/handler.go)

    The frontend keeps one faas-manager instance to which it passes on the
    lease operations of remote drivers, and further instances to replace it.
    Operations that do not reach a manager are left in etcd for it. *)

From S2P Require Import Prelude GoStrings.
Open Scope string_scope.

Definition KernelInstanceStatusRunning : Z := 3.
Definition InsReqSuccessCode : Z := 6030.
Definition LeasePrefix : string := "/sn/lease".

Record FaasManagerInfo := MkManager { funcKey : string; instanceID : string; status : Z }.

Record managers := MkManagers { info : option FaasManagerInfo; inUsedInfo : gmap string FaasManagerInfo }.
Definition no_managers : managers := MkManagers None ∅.

Definition running (i : FaasManagerInfo) : bool := (status i =? KernelInstanceStatusRunning)%Z.

(** [decoded]: the status in the value of the event, if it can be decoded. *)
Definition UpdateFaasManager (decoded : option Z) (functionName instanceName : string) (m : managers) : managers :=
  match decoded with
  | None => m
  | Some st =>
      let i := MkManager functionName instanceName st in
      if bool_decide (info m = None) && running i then MkManagers (Some i) (inUsedInfo m)
      else MkManagers (info m) (<[instanceName := i]> (inUsedInfo m))
  end.

Section managers.
  (** The order in which a [range] visits the keys of a map. *)
  Variable order : list string → list string.

(** The loop over [inUsedInfo]. *)
Fixpoint replace_manager (instanceName : string) (ks : list string) (m : managers) : managers :=
  match ks with
  | [] => m
  | k :: ks =>
      match inUsedInfo m !! k with
      | None => replace_manager instanceName ks m
      | Some v =>
          if bool_decide (k = instanceName) then replace_manager instanceName ks (MkManagers (info m) (delete k (inUsedInfo m)))
          else if bool_decide (info m = None) && running v then MkManagers (Some v) (delete k (inUsedInfo m))
          else replace_manager instanceName ks m
      end
  end.

Definition DeleteFaasManager (instanceName : string) (m : managers) : managers :=
  let m := if bool_decide (instanceID <$> info m = Some instanceName) then MkManagers None (inUsedInfo m) else m in
  replace_manager instanceName (order (map_to_list (inUsedInfo m)).*1) m.

(** [remoteClientLeaseHandler]: the events of instances of the faas-manager. *)
Inductive event := Update (decoded : option Z) (functionName instanceName : string) | Delete (instanceName : string).

Definition step (m : managers) (e : event) : managers :=
  match e with
  | Update d f i => UpdateFaasManager d f i m
  | Delete i => DeleteFaasManager i m
  end.

Definition run (es : list event) : managers := foldl step no_managers es.
End managers.

(** ** Operations *)

Record LeaseEvent := MkLeaseEvent { le_Type : string; le_RemoteClientID : string; le_Timestamp : Z; le_TraceID : string }.

Inductive ErrorCode := ERR_NONE | ERR_ETCD_OPERATION_ERROR | ERR_INNER_SYSTEM_ERROR.
Record LeaseResponse := MkLeaseResponse { Code : ErrorCode; Message : string }.

(** What an operation does. *)
Inductive action := Invoke (funcKey instanceID : string) (args : list string) | Put (key : string) (e : LeaseEvent).

Section operations.
  (** The answer of a manager: [None] when the call fails, otherwise the
      decoded code and message if the answer can be decoded. *)
  Variable invoke : string → string → list string → option (option (Z * string)).
  (** Whether a put fails, with its text. *)
  Variable put : string → LeaseEvent → option string.

Definition setEventToEtcd (now : Z) (remoteClientID op traceID : string) : option string * action :=
  let key := LeasePrefix +:+ "/" +:+ remoteClientID in
  let e := MkLeaseEvent op remoteClientID now traceID in
  (put key e, Put key e).

Definition success : LeaseResponse := MkLeaseResponse ERR_NONE "success create lease".

Definition invokeFaasManager (bypass : bool) (now : Z) (m : managers) (traceID remoteClientID op : string) : LeaseResponse * list action :=
  if bypass then (MkLeaseResponse ERR_NONE "lease bypassed", [])
  else
    match info m with
    | None =>
        let '(err, a) := setEventToEtcd now remoteClientID op traceID in
        (match err with
         | Some _ => MkLeaseResponse ERR_ETCD_OPERATION_ERROR "failed to invoke faasmanager and etcd save failed, info is empty"
         | None => success
         end, [a])
    | Some i =>
        let args := [op; remoteClientID; traceID] in
        let call := Invoke (funcKey i) (instanceID i) args in
        match invoke (funcKey i) (instanceID i) args with
        | None =>
            let '(err, a) := setEventToEtcd now remoteClientID op traceID in
            (match err with
             | Some e => MkLeaseResponse ERR_ETCD_OPERATION_ERROR ("failed to create new lease, err: " +:+ e)
             | None => success
             end, [call; a])
        | Some None => (MkLeaseResponse ERR_INNER_SYSTEM_ERROR "failed to unmarshal resp", [call])
        | Some (Some (code, message)) =>
            (if negb (code =? InsReqSuccessCode)%Z
             then MkLeaseResponse ERR_INNER_SYSTEM_ERROR ("code: " +:+ FormatInt code +:+ ", message: " +:+ message)
             else success, [call])
        end
    end.

Definition NewLease (bypass : bool) (now : Z) (m : managers) (remoteClientID traceID : string) :=
  invokeFaasManager bypass now m traceID remoteClientID "NewLease".
Definition KeepAlive (bypass : bool) (now : Z) (m : managers) (remoteClientID traceID : string) :=
  invokeFaasManager bypass now m traceID remoteClientID "KeepAlive".
Definition DelLease (bypass : bool) (now : Z) (m : managers) (remoteClientID traceID : string) :=
  invokeFaasManager bypass now m traceID remoteClientID "DelLease".

(** [body]: [None] when it cannot be read, [Some None] when it is no lease
    request. [Err None]: no response is written. *)
Definition getLeaseRequest (body : option (option string)) : res (option Z) string :=
  match body with
  | None => Err None
  | Some None => Err (Some 400%Z)
  | Some (Some id) => if bool_decide (id = "") then Err (Some 400%Z) else Ok id
  end.

Definition handle (op : string → string → LeaseResponse * list action) (traceID : string) (body : option (option string)) :
    option (Z * option LeaseResponse) * list action :=
  match getLeaseRequest body with
  | Err st => ((λ c, (c, None)) <$> st, [])
  | Ok id => let '(r, l) := op id traceID in (Some (200%Z, Some r), l)
  end.

Definition NewLeaseHandler (bypass : bool) (now : Z) (m : managers) := handle (NewLease bypass now m).
Definition KeepAliveHandler (bypass : bool) (now : Z) (m : managers) := handle (KeepAlive bypass now m).
Definition DelLeaseHandler (bypass : bool) (now : Z) (m : managers) := handle (DelLease bypass now m).

(** ** What an operation reports *)

(** An operation reports success exactly when it was bypassed, a manager
    confirmed it, or it was left in etcd for the manager; in the last case the
    manager was not asked or did not answer, and the event names the operation
    and the client. *)
Theorem lease_reported bypass now m traceID remoteClientID op :
  let '(r, acts) := invokeFaasManager bypass now m traceID remoteClientID op in
  Code r = ERR_NONE ↔
    bypass = true ∨
    (∃ i msg, info m = Some i ∧ acts = [Invoke (funcKey i) (instanceID i) [op; remoteClientID; traceID]] ∧
              invoke (funcKey i) (instanceID i) [op; remoteClientID; traceID] = Some (Some (InsReqSuccessCode, msg))) ∨
    (let key := LeasePrefix +:+ "/" +:+ remoteClientID in let e := MkLeaseEvent op remoteClientID now traceID in
     last acts = Some (Put key e) ∧ put key e = None ∧
     ∀ i, info m = Some i → invoke (funcKey i) (instanceID i) [op; remoteClientID; traceID] = None).
Proof.
  unfold invokeFaasManager, setEventToEtcd. destruct bypass; [by split; [left|]|].
  destruct (info m) as [i|] eqn:Ei.
  - destruct (invoke _ _ _) as [[[code msg]|]|] eqn:Ev.
    + destruct (Z.eqb_spec code InsReqSuccessCode) as [->|Hn]; cbn [negb].
      * split; [|done]. intros _. right; left. exists i, msg. by split_and!.
      * split; [done|]. intros [[=]|[(i' & msg' & [= <-] & _ & E)|(E & _)]]; [|done]. rewrite Ev in E. by injection E.
    + split; [done|]. intros [[=]|[(i' & msg' & [= <-] & _ & E)|(E & _)]]; [|done]. by rewrite Ev in E.
    + destruct (put _ _) as [e|] eqn:Ep; cbn.
      * split; [done|]. intros [[=]|[(i' & msg' & [= <-] & _ & E)|(_ & E & _)]]; congruence.
      * split; [|done]. intros _. right; right. split_and!; [done..|]. by intros i' [= <-].
  - destruct (put _ _) as [e|] eqn:Ep; cbn.
    + split; [done|]. intros [[=]|[(i' & msg' & [=] & _)|(_ & E & _)]]; congruence.
    + split; [|done]. intros _. right; right. by split_and!.
Qed.
End operations.

(** ** Which manager is used *)

Section availability.
  Context (order : list string → list string) (order_perm : ∀ l, order l ≡ₚ l).

(** The last readable status of each instance that etcd holds. *)
Definition etcd_step (v : gmap string Z) (e : event) : gmap string Z :=
  match e with
  | Update (Some st) _ i => <[i := st]> v
  | Update None _ _ => v
  | Delete i => delete i v
  end.

Definition spare (m : managers) (k : string) : Prop := ∃ x, inUsedInfo m !! k = Some x ∧ running x = true ∧ instanceID x = k.

Record available (m : managers) (v : gmap string Z) : Prop := {
  av_known : ∀ k, v !! k = Some KernelInstanceStatusRunning → instanceID <$> info m = Some k ∨ spare m k;
  av_used : info m = None → ∀ k x, inUsedInfo m !! k = Some x → running x = false;
  av_ids : ∀ k x, inUsedInfo m !! k = Some x → instanceID x = k;
  av_info : ∀ x, info m = Some x → running x = true }.

(** The loop: it keeps every manager but the one removed, and leaves the
    frontend without a manager only when no replacement is running. *)
Lemma replace_available name ks m v :
  (∀ k, v !! k = Some KernelInstanceStatusRunning → k ≠ name) →
  (∀ k, v !! k = Some KernelInstanceStatusRunning → instanceID <$> info m = Some k ∨ spare m k) →
  (∀ k x, inUsedInfo m !! k = Some x → instanceID x = k) → (∀ x, info m = Some x → running x = true) →
  (info m = None → ∀ k x, k ∉ ks → inUsedInfo m !! k = Some x → running x = false) →
  available (replace_manager name ks m) v.
Proof.
  intros Hv. revert m. induction ks as [|k ks IH]; intros m Hk Hid Hinfo Hnone; cbn [replace_manager].
  { split; try done. intros E j x Hj. by eapply (Hnone E j x); [apply not_elem_of_nil|]. }
  destruct (inUsedInfo m !! k) as [x|] eqn:Ex.
  2: { apply IH; try done. intros E j y Hj Hy. destruct (decide (j = k)) as [->|]; [congruence|]. by apply (Hnone E j y); [set_solver|]. }
  case_bool_decide as Hn; subst.
  { apply IH; cbn.
    - intros j Hj. destruct (Hk j Hj) as [?|(y & E1 & E2 & E3)]; [by left|]. right. exists y. cbn. rewrite lookup_delete_ne by (by intros <-; apply (Hv _ Hj)). done.
    - intros j y [_ Hy]%lookup_delete_Some. by apply Hid.
    - done.
    - intros E j y Hj [? Hy]%lookup_delete_Some. by apply (Hnone E j y); [set_solver|]. }
  destruct (bool_decide (info m = None) && running x) eqn:Ec.
  - apply andb_true_iff in Ec as [E1%bool_decide_eq_true E2]. split; cbn.
    + intros j Hj. destruct (Hk j Hj) as [E|(y & F1 & F2 & F3)]; [by rewrite E1 in E|]. destruct (decide (j = k)) as [->|].
      * left. rewrite (Hid _ _ Ex). done.
      * right. exists y. cbn. by rewrite lookup_delete_ne.
    + done.
    + intros j y [_ Hy]%lookup_delete_Some. by apply Hid.
    + by intros y [= <-].
  - apply IH; try done. intros E j y Hj Hy. destruct (decide (j = k)) as [->|]; [|by apply (Hnone E j y); [set_solver|]].
    rewrite Ex in Hy. injection Hy as ->. rewrite bool_decide_eq_true_2 in Ec by done. exact Ec.
Qed.

Lemma available_step m v e : available m v → available (step order m e) (etcd_step v e).
Proof.
  intros [H1 H2 H3 H4]. destruct e as [[st|] f i|i]; cbn [step etcd_step]; [|done|].
  - unfold UpdateFaasManager. set (x := MkManager f i st). destruct (bool_decide (info m = None) && running x) eqn:Ec.
    + apply andb_true_iff in Ec as [E1%bool_decide_eq_true E2]. split; cbn; try done.
      * intros k [[<- _]|[Hk Hv]]%lookup_insert_Some; [by left|]. destruct (H1 k Hv) as [E|(y & F1 & F2 & F3)]; [by rewrite E1 in E|].
        rewrite (H2 E1 k y F1) in F2. done.
      * by intros y [= <-].
    + split; cbn; try done.
      * intros k Hv. apply lookup_insert_Some in Hv as [[<- Hst]|[Hk Hv]].
        -- right. exists x. cbn. rewrite lookup_insert_eq. split_and!; [done| |done]. apply Z.eqb_eq. cbn [status x]. congruence.
        -- destruct (H1 k Hv) as [E|(y & F1 & F2 & F3)]; [by left|]. right. exists y. cbn. by rewrite lookup_insert_ne.
      * intros E k y [[<- <-]|[_ Hy]]%lookup_insert_Some; [|by eapply H2]. rewrite bool_decide_eq_true_2 in Ec by done. exact Ec.
      * intros k y [[<- <-]|[_ Hy]]%lookup_insert_Some; [done|by apply H3].
  - unfold DeleteFaasManager. set (m' := if bool_decide _ then _ else _).
    assert (inUsedInfo m' = inUsedInfo m) as Em by (subst m'; by case_bool_decide). apply replace_available.
    + by intros k [? _]%lookup_delete_Some.
    + intros k [Hk Hv]%lookup_delete_Some. destruct (H1 k Hv) as [E|Hs].
      * left. subst m'. rewrite bool_decide_eq_false_2 by congruence. done.
      * right. unfold spare in *. by rewrite Em.
    + rewrite Em. done.
    + subst m'. case_bool_decide; [done|apply H4].
    + intros _ k x Hk Hx. exfalso. apply Hk. rewrite order_perm. rewrite Em in *. apply list_elem_of_fmap. exists (k, x). split; [done|]. by apply elem_of_map_to_list.
Qed.

(** As long as etcd holds an instance of the manager that is running, the
    frontend has one to call, whatever the events before and the order in
    which the map is visited; the one it calls was reported as running. *)
Theorem manager_available es :
  (∃ k, foldl etcd_step ∅ es !! k = Some KernelInstanceStatusRunning) →
  ∃ x, info (run order es) = Some x ∧ running x = true.
Proof.
  assert (available (run order es) (foldl etcd_step ∅ es)) as [H1 H2 H3 H4].
  { unfold run. assert (available no_managers ∅) as H by (by split). revert H. generalize no_managers (∅ : gmap string Z).
    induction es as [|e es IH]; intros m v H; cbn [foldl]; [done|]. by apply IH, available_step. }
  intros [k Hk]. destruct (info (run order es)) as [x|] eqn:Ex; [exists x; auto|].
  destruct (H1 k Hk) as [E|(y & F1 & F2 & _)]; [done|]. by rewrite (H2 eq_refl k y F1) in F2.
Qed.
End availability.

(** ** Managers that are gone *)

(** A repeated event of the manager in use files it among the replacements
    too; when it is deleted, the loop can stop at another replacement before
    it gets there, and the deleted instance is taken when that one goes. *)
Theorem deleted_manager_is_used :
  let es := [Update (Some 3%Z) "faasmanager" "a"; Update (Some 3%Z) "faasmanager" "a"; Update (Some 3%Z) "faasmanager" "b"; Delete "a"; Delete "b"] in
  ∃ order, (∀ l, order l ≡ₚ l) ∧ foldl etcd_step ∅ es = ∅ ∧ instanceID <$> info (run order es) = Some "a".
Proof.
  intros es. exists (λ l, if bool_decide (l = ["a"; "b"] ∨ l = ["b"; "a"]) then ["b"; "a"] else l). split_and!.
  - intros l. case_bool_decide as H; [|done]. destruct H as [->| ->]; [apply perm_swap|done].
  - by vm_compute.
  - by vm_compute.
Qed.

(** A status that is no longer running does not make the frontend change the
    manager, though a running one is there. *)
Theorem failed_manager_is_kept order f :
  instanceID <$> info (run order [Update (Some 3%Z) f "a"; Update (Some 3%Z) f "b"; Update (Some 6%Z) f "a"]) = Some "a".
Proof. done. Qed.

Lemma manager_available_witness :
  ∃ x, info (run id [Update (Some 3%Z) "m" "a"; Update (Some 3%Z) "m" "b"; Delete "a"]) = Some x ∧ running x = true.
Proof. apply (manager_available id (λ l, reflexivity l)). exists "b". by vm_compute. Defined.
