(* ===== verification/BusProxies.v ===== *)
(** * Bus proxies and their heartbeats (pkg/frontend/functiontask/functiontask.go)

    Every node has a proxy with a monitor that sends a heartbeat per tick; the
    balancer holds the addresses of the healthy ones. A heartbeat runs in a
    goroutine of its own and accesses its counter and status atomically, so
    heartbeats interleave with each other and with the deletion of their node. *)

From S2P Require Import Prelude GoStrings Hashing HashRing ConsistentHash.
Open Scope string_scope.

Record HeartbeatConfig := MkHeartbeat { HeartbeatTimeout : Z; HeartbeatInterval : Z; HeartbeatTimeoutThreshold : Z }.
#[global] Instance HeartbeatConfig_eq_dec : EqDecision HeartbeatConfig.
Proof. solve_decision. Defined.

(** The variables of a monitor goroutine: [stopped] is its closed channel. *)
Record monitor := MkMonitor { mo_ip : string; threshold : Z; count : Z; healthy : bool; stopped : bool }.

Record BusProxy := MkProxy { NodeIP : string; url : string; config : HeartbeatConfig; mon : nat }.

Record BusProxies := MkProxies {
  proxies : gmap string BusProxy; nodeIPToNodeID : gmap string string; loadBalance : CHGeneric;
  monitors : gmap nat monitor; next : nat }.

Definition no_proxies : BusProxies := MkProxies ∅ ∅ NewCHGeneric ∅ 0.

(** The part of the configuration that is read. *)
Record settings := MkSettings { https : bool; heartbeat : HeartbeatConfig }.

Definition BusProxyHTTPPort : string := "22423".
Definition heartbeat_url (c : settings) (nodeIP : string) : string :=
  (if https c then "https://" else "http://") +:+ nodeIP +:+ ":" +:+ BusProxyHTTPPort +:+ "/heartbeat".

Definition lbAdd (nodeIP : string) (s : BusProxies) : BusProxies :=
  MkProxies (proxies s) (nodeIPToNodeID s) (ch_Add (loadBalance s) (NodeString nodeIP)) (monitors s) (next s).
Definition lbDel (nodeIP : string) (s : BusProxies) : BusProxies :=
  MkProxies (proxies s) (nodeIPToNodeID s) (ch_Remove (loadBalance s) (NodeString nodeIP)) (monitors s) (next s).

(** [go startMonitor]: a new monitor, unhealthy. *)
Definition startMonitor (c : settings) (nodeIP : string) (s : BusProxies) : BusProxies :=
  MkProxies (proxies s) (nodeIPToNodeID s) (loadBalance s)
    (<[next s := MkMonitor nodeIP (wrapS 32 (HeartbeatTimeoutThreshold (heartbeat c))) 0 false false]> (monitors s)) (S (next s)).

Definition set_monitor (a : nat) (f : monitor → monitor) (s : BusProxies) : BusProxies :=
  MkProxies (proxies s) (nodeIPToNodeID s) (loadBalance s) (alter f a (monitors s)) (next s).

Definition stopMonitor (b : BusProxy) (s : BusProxies) : BusProxies :=
  lbDel (NodeIP b) (set_monitor (mon b) (λ m, MkMonitor (mo_ip m) (threshold m) (count m) (healthy m) true) s).

Definition put_proxy (nodeID : string) (b : BusProxy) (s : BusProxies) : BusProxies :=
  MkProxies (<[nodeID := b]> (proxies s)) (nodeIPToNodeID s) (loadBalance s) (monitors s) (next s).

Definition newBusProxy (c : settings) (nodeIP : string) (s : BusProxies) : BusProxy * BusProxies :=
  (MkProxy nodeIP (heartbeat_url c nodeIP) (heartbeat c) (next s), startMonitor c nodeIP s).

Definition Add (c : settings) (nodeID nodeIP : string) (s : BusProxies) : BusProxies :=
  match proxies s !! nodeID with
  | Some _ => s
  | None =>
      let '(f, s) := newBusProxy c nodeIP s in
      let s := put_proxy nodeID f s in
      MkProxies (proxies s) (<[nodeIP := nodeID]> (nodeIPToNodeID s)) (loadBalance s) (monitors s) (next s)
  end.

Definition Delete (nodeID : string) (s : BusProxies) : BusProxies :=
  match proxies s !! nodeID with
  | None => s
  | Some f =>
      let s := stopMonitor f s in
      MkProxies (delete nodeID (proxies s)) (delete (NodeIP f) (nodeIPToNodeID s)) (loadBalance s) (monitors s) (next s)
  end.

Definition updateConfig (c : settings) (nodeID : string) (s : BusProxies) : BusProxies :=
  match proxies s !! nodeID with
  | None => s
  | Some b =>
      let u := heartbeat_url c (NodeIP b) in
      if bool_decide (u ≠ url b) || bool_decide (config b ≠ heartbeat c)
      then
        let s := stopMonitor b s in
        let a := next s in
        put_proxy nodeID (MkProxy (NodeIP b) u (heartbeat c) a) (startMonitor c (NodeIP b) s)
      else s
  end.

(** [order]: the order in which the nodes are visited. *)
Definition UpdateConfig (order : list string) (c : settings) (s : BusProxies) : BusProxies :=
  foldl (λ s k, updateConfig c k s) s order.

Definition GetNum (s : BusProxies) : nat := size (proxies s).

Definition NextWithName (name : string) (move : bool) (s : BusProxies) : string * BusProxies :=
  let '(ip, lb) := ch_Next (loadBalance s) name move in
  (ip, MkProxies (proxies s) (nodeIPToNodeID s) lb (monitors s) (next s)).

Definition IsHealthy (b : BusProxy) (s : BusProxies) : bool := default false (healthy <$> monitors s !! mon b).

Definition IsBusProxyHealthy (nodeIP : string) (s : BusProxies) : bool :=
  match nodeIPToNodeID s !! nodeIP with
  | None => false
  | Some nodeID => match proxies s !! nodeID with None => false | Some b => IsHealthy b s end
  end.

(** ** Heartbeats *)

(** A heartbeat of monitor [b_mon] between its atomic accesses: waiting for the
    answer; the counter raised to [cur]; the status seen healthy; marked
    unhealthy; the counter reset; the status seen unhealthy; marked healthy. *)
Inductive beat_pc := BWait | BFailed (cur : Z) | BDown | BRemove | BOk | BUp | BInsert | BEnd.
Record beat := MkBeat { b_mon : nat; b_pc : beat_pc }.

Definition set_count (n : Z) (m : monitor) : monitor := MkMonitor (mo_ip m) (threshold m) n (healthy m) (stopped m).
Definition set_healthy (h : bool) (m : monitor) : monitor := MkMonitor (mo_ip m) (threshold m) (count m) h (stopped m).

(** One atomic access of [doHeartBeat]; [ok] is the answer. *)
Definition doHeartBeat (ok : bool) (b : beat) (s : BusProxies) : beat * BusProxies :=
  let a := b_mon b in
  match monitors s !! a with
  | None => (b, s)
  | Some m =>
      match b_pc b with
      | BWait =>
          if ok then (MkBeat a BOk, set_monitor a (set_count 0) s)
          else let cur := wrapS 32 (count m + 1) in (MkBeat a (BFailed cur), set_monitor a (set_count cur) s)
      | BFailed cur => if (threshold m <=? cur)%Z && healthy m then (MkBeat a BDown, s) else (MkBeat a BEnd, s)
      | BDown => (MkBeat a BRemove, set_monitor a (set_healthy false) s)
      | BRemove => (MkBeat a BEnd, lbDel (mo_ip m) s)
      | BOk => if healthy m then (MkBeat a BEnd, s) else (MkBeat a BUp, s)
      | BUp => (MkBeat a BInsert, set_monitor a (set_healthy true) s)
      | BInsert => (MkBeat a BEnd, lbAdd (mo_ip m) s)
      | BEnd => (b, s)
      end
  end.

(** A heartbeat that nothing interrupts. *)
Definition whole_beat (a : nat) (ok : bool) (s : BusProxies) : BusProxies :=
  match monitors s !! a with
  | Some m =>
      if stopped m then s
      else (Nat.iter 4 (λ bs, doHeartBeat ok bs.1 bs.2) (MkBeat a BWait, s)).2
  | None => s
  end.

(** ** The system *)

Inductive op :=
| OAdd (c : settings) (nodeID nodeIP : string)
| ODelete (nodeID : string)
| OUpdateConfig (order : list string) (c : settings)
| ONext (name : string) (move : bool)
| OBeat (a : nat) (ok : bool).

Definition apply (s : BusProxies) (o : op) : BusProxies :=
  match o with
  | OAdd c id ip => Add c id ip s
  | ODelete id => Delete id s
  | OUpdateConfig l c => UpdateConfig l c s
  | ONext name move => (NextWithName name move s).2
  | OBeat a ok => whole_beat a ok s
  end.

Definition run (os : list op) : BusProxies := foldl apply no_proxies os.

(** Heartbeats that are interrupted: a tick of a monitor that is not stopped
    starts one, and each of its accesses is a step. *)
Inductive event := EOp (o : op) | ETick (a : nat) | EStep (i : nat) (ok : bool).

Definition step (st : BusProxies * list beat) (e : event) : BusProxies * list beat :=
  let '(s, bs) := st in
  match e with
  | EOp o => (apply s o, bs)
  | ETick a => match monitors s !! a with Some m => if stopped m then st else (s, (bs ++ [MkBeat a BWait])%list) | None => st end
  | EStep i ok => match bs !! i with Some b => let '(b, s) := doHeartBeat ok b s in (s, <[i := b]> bs) | None => st end
  end.

Definition run_events (es : list event) : BusProxies * list beat := foldl step (no_proxies, []) es.

(** [processFunctionTaskEvent] and [IsTaskNode]: an update of a node whose
    value gives its address, or its deletion. *)
Definition IsTaskNode (key : string) : bool :=
  let strs := Split key "/" in
  if negb (length strs =? 13)%nat then true
  else negb (bool_decide (strs !! 6%nat = Some "0")) || negb (bool_decide (strs !! 8%nat = Some "function-task")).

Definition processFunctionTaskEvent (c : settings) (put : bool) (key : string) (nodeIP : option string) (s : BusProxies) : BusProxies :=
  if put then match nodeIP with Some ip => Add c key ip s | None => s end else Delete key s.

(** * Properties

    Bus proxies: the balancer holds exactly the healthy ones. *)


Local Open Scope list_scope.
Local Open Scope nat_scope.

(** ** A heartbeat that nothing interrupts *)

Definition beat_result (ok : bool) (m : monitor) : monitor :=
  if ok then MkMonitor (mo_ip m) (threshold m) 0 true (stopped m)
  else
    let cur := wrapS 32 (count m + 1) in
    MkMonitor (mo_ip m) (threshold m) cur (healthy m && negb (threshold m <=? cur)%Z) (stopped m).

(** The balancer follows a change of the status. *)
Definition balance (m m' : monitor) (lb : CHGeneric) : CHGeneric :=
  match healthy m, healthy m' with
  | false, true => ch_Add lb (NodeString (mo_ip m))
  | true, false => ch_Remove lb (NodeString (mo_ip m))
  | _, _ => lb
  end.

Lemma alter_known {A} (f : A → A) (M : gmap nat A) a x : M !! a = Some x → alter f a M = <[a := f x]> M.
Proof.
  intros H. apply map_eq. intros j. destruct (decide (a = j)) as [->|Hn].
  - by rewrite lookup_alter_eq, lookup_insert_eq, H.
  - by rewrite lookup_alter_ne, lookup_insert_ne.
Qed.

Definition with_monitor (a : nat) (m : monitor) (s : BusProxies) : BusProxies :=
  MkProxies (proxies s) (nodeIPToNodeID s) (loadBalance s) (<[a := m]> (monitors s)) (next s).

Lemma set_monitor_known a f s m : monitors s !! a = Some m → set_monitor a f s = with_monitor a (f m) s.
Proof. intros H. unfold set_monitor, with_monitor. by rewrite (alter_known f _ _ _ H). Qed.

Lemma with_monitor_twice a m m' s : with_monitor a m (with_monitor a m' s) = with_monitor a m s.
Proof. unfold with_monitor. cbn. by rewrite insert_insert_eq. Qed.

Lemma monitor_with a m s : monitors (with_monitor a m s) !! a = Some m.
Proof. apply lookup_insert_eq. Qed.

(** The accesses of a heartbeat, on the monitor they find. *)
Lemma beat_access ok a p s m :
  monitors s !! a = Some m →
  doHeartBeat ok (MkBeat a p) s =
  match p with
  | BWait => if ok then (MkBeat a BOk, with_monitor a (set_count 0 m) s)
             else (MkBeat a (BFailed (wrapS 32 (count m + 1))), with_monitor a (set_count (wrapS 32 (count m + 1)) m) s)
  | BFailed cur => (MkBeat a (if (threshold m <=? cur)%Z && healthy m then BDown else BEnd), s)
  | BDown => (MkBeat a BRemove, with_monitor a (set_healthy false m) s)
  | BRemove => (MkBeat a BEnd, lbDel (mo_ip m) s)
  | BOk => (MkBeat a (if healthy m then BEnd else BUp), s)
  | BUp => (MkBeat a BInsert, with_monitor a (set_healthy true m) s)
  | BInsert => (MkBeat a BEnd, lbAdd (mo_ip m) s)
  | BEnd => (MkBeat a BEnd, s)
  end.
Proof.
  intros H. unfold doHeartBeat. cbn [b_mon b_pc]. rewrite H. cbv zeta. rewrite !(set_monitor_known a _ s m H).
  destruct p; try done; [by destruct (_ && _)|by destruct (healthy m)].
Qed.

Lemma whole_beat_eq a ok s m :
  monitors s !! a = Some m → stopped m = false →
  whole_beat a ok s = MkProxies (proxies s) (nodeIPToNodeID s) (balance m (beat_result ok m) (loadBalance s))
                        (<[a := beat_result ok m]> (monitors s)) (next s).
Proof.
  intros Hm Hs. unfold whole_beat. rewrite Hm, Hs. cbn [Nat.iter].
  destruct m as [ip thr n h st]. cbn [stopped] in Hs. subst st.
  set (f := λ bs : beat * BusProxies, doHeartBeat ok bs.1 bs.2).
  change (Nat.iter 4 f (MkBeat a BWait, s)) with (f (f (f (f (MkBeat a BWait, s))))). unfold f. clear f. cbn [fst snd].
  rewrite (beat_access ok a BWait s _ Hm). unfold balance, beat_result, set_count. destruct ok; cbn [fst snd mo_ip threshold healthy stopped count].
  - erewrite beat_access by apply monitor_with. cbn [fst snd healthy]. destruct h.
    + do 2 (erewrite beat_access by apply monitor_with; cbn [fst snd]). done.
    + erewrite beat_access by apply monitor_with. cbn [fst snd]. rewrite with_monitor_twice. erewrite beat_access by apply monitor_with. done.
  - set (cur := wrapS 32 (n + 1)). erewrite beat_access by apply monitor_with. cbn [fst snd threshold healthy].
    destruct (thr <=? cur)%Z, h; cbn [andb negb].
    2-4: do 2 (erewrite beat_access by apply monitor_with; cbn [fst snd]); done.
    erewrite beat_access by apply monitor_with. cbn [fst snd]. rewrite with_monitor_twice. erewrite beat_access by apply monitor_with. done.
Qed.

(** ** When a proxy counts as healthy *)

(** The failures since the last success, if there was one. *)
Fixpoint failures (newest_first : list bool) : option nat :=
  match newest_first with
  | [] => None
  | true :: _ => Some 0
  | false :: l => S <$> failures l
  end.

Lemma failures_bound l n : failures l = Some n → n < length l.
Proof.
  revert n. induction l as [|[] l IH]; intros n H; cbn in H; [done|injection H as <-; cbn; lia|].
  apply fmap_Some in H as (k & H & ->). specialize (IH k H). cbn. lia.
Qed.

(** A proxy is healthy when a heartbeat has succeeded and fewer than the
    threshold, or none, have failed since. *)
Theorem healthy_after_beats ip thr bs :
  (Z.of_nat (length bs) < 2 ^ 31)%Z →
  healthy (foldl (λ m ok, beat_result ok m) (MkMonitor ip thr 0 false false) bs) = true ↔
  ∃ n, failures (reverse bs) = Some n ∧ (n = 0%nat ∨ Z.of_nat n < thr)%Z.
Proof.
  intros Hl.
  enough (∀ bs, (Z.of_nat (length bs) < 2 ^ 31)%Z →
    let m := foldl (λ m ok, beat_result ok m) (MkMonitor ip thr 0 false false) bs in
    threshold m = thr ∧ (0 ≤ count m ≤ Z.of_nat (length bs))%Z ∧ (∀ n, failures (reverse bs) = Some n → count m = Z.of_nat n) ∧
    (healthy m = true ↔ ∃ n, failures (reverse bs) = Some n ∧ (n = 0%nat ∨ Z.of_nat n < thr)%Z)) as H.
  { specialize (H bs Hl). cbv zeta in H. tauto. }
  clear bs Hl. induction bs as [|ok bs IH] using rev_ind; intros Hl; cbv zeta.
  { cbn. split_and!; [done|lia|lia|done|]. split; [done|]. by intros (n & [=] & _). }
  rewrite length_app in Hl. cbn [length] in Hl. rewrite foldl_app. cbn [foldl]. rewrite reverse_app, length_app. cbn [length reverse]. rewrite reverse_singleton. cbn [app].
  destruct (IH ltac:(lia)) as (I1 & I2 & I3 & I4). clear IH. set (m := foldl _ _ bs) in *. clearbody m.
  destruct m as [mip mthr mc mh ms]; cbn [threshold count healthy] in *. subst mthr.
  destruct ok; cbn [beat_result failures threshold count healthy].
  { split_and!; [done|lia|lia|by intros n [= <-]|]. split; [|done]. intros _. exists 0. by split; [|left]. }
  assert (wrapS 32 (mc + 1) = mc + 1)%Z as -> by (apply wrapS_small; cbn; lia).
  split_and!; [done|lia|lia| |].
  - intros n (k & H & ->)%fmap_Some. specialize (I3 k H). lia.
  - rewrite andb_true_iff, negb_true_iff, Z.leb_gt, I4. split.
    + intros [(n & Hn & Hc) Ht]. exists (S n). rewrite Hn. split; [done|]. right. rewrite (I3 n Hn) in Ht. lia.
    + intros (n & (k & H & ->)%fmap_Some & [?|Ht]); [lia|]. rewrite (I3 k H). split; [|lia]. exists k. split; [done|]. lia.
Qed.

(** ** The balancer *)

Lemma add_map lb ip :
  (∀ n, instanceMap lb !! crc32 ip = Some n → n = ip) → instanceMap (ch_Add lb (NodeString ip)) = <[crc32 ip := ip]> (instanceMap lb).
Proof.
  intros H. unfold ch_Add, getHashKeyCRC32. destruct (instanceMap lb !! crc32 ip) as [n|] eqn:E; [|done].
  symmetry. apply insert_id. by rewrite E, (H n eq_refl).
Qed.

Lemma add_names names lb ip : ip ∈ names → names_in names lb → names_in names (ch_Add lb (NodeString ip)).
Proof.
  intros Hi [H1 H2]. unfold ch_Add, getHashKeyCRC32. destruct (instanceMap lb !! crc32 ip); [done|]. split; [|done]. cbn.
  intros h n [[_ <-]|[_ H]]%lookup_insert_Some; [done|by eapply H1].
Qed.
Lemma remove_names names lb ip : names_in names lb → names_in names (ch_Remove lb (NodeString ip)).
Proof. intros [H1 H2]. split; [|done]. cbn. intros h n [_ H]%lookup_delete_Some. by eapply H1. Qed.

Lemma add_anchors lb ip : anchorPoint (ch_Add lb (NodeString ip)) = anchorPoint lb.
Proof. unfold ch_Add. by destruct (_ !! _). Qed.

Section exact.
  (** The nodes with their addresses; no two have addresses with the same
      checksum. *)
  Context (nodes : list (string * string)).
  Hypothesis checksums : ∀ x y, x ∈ ""%string :: nodes.*2 → y ∈ ""%string :: nodes.*2 → crc32 x = crc32 y → x = y.
  Hypothesis one_node : ∀ id id' ip, (id, ip) ∈ nodes → (id', ip) ∈ nodes → id = id'.

Record exact (s : BusProxies) : Prop := {
  ex_pool : pool_inv (loadBalance s);
  ex_anchor : anchor_inv (loadBalance s);
  ex_names : names_in (""%string :: nodes.*2) (loadBalance s);
  ex_node : ∀ id b, proxies s !! id = Some b → (id, NodeIP b) ∈ nodes;
  ex_mon : ∀ id b, proxies s !! id = Some b → ∃ m, monitors s !! mon b = Some m ∧ mo_ip m = NodeIP b ∧ stopped m = false;
  ex_live : ∀ a m, monitors s !! a = Some m → a < next s ∧ (stopped m = false → ∃ id b, proxies s !! id = Some b ∧ mon b = a);
  ex_inj : ∀ id id' b b', proxies s !! id = Some b → proxies s !! id' = Some b' → mon b = mon b' → id = id';
  ex_index : ∀ ip id, nodeIPToNodeID s !! ip = Some id ↔ ∃ b, proxies s !! id = Some b ∧ NodeIP b = ip;
  ex_ring : ∀ ip, instanceMap (loadBalance s) !! crc32 ip = Some ip ↔ ∃ id b, proxies s !! id = Some b ∧ NodeIP b = ip ∧ IsHealthy b s = true }.

Lemma node_name id ip : (id, ip) ∈ nodes → ip ∈ ""%string :: nodes.*2.
Proof. intros H. right. apply list_elem_of_fmap. by exists (id, ip). Qed.

(** Only the address itself is at its checksum. *)
Lemma ring_point s ip n : exact s → ip ∈ ""%string :: nodes.*2 → instanceMap (loadBalance s) !! crc32 ip = Some n → n = ip.
Proof. intros He Hi H. apply checksums; [by eapply (ex_names s He)|done|]. by apply (ex_pool s He) in H. Qed.

Lemma same_node s id id' b b' :
  exact s → proxies s !! id = Some b → proxies s !! id' = Some b' → NodeIP b = NodeIP b' → id = id' ∧ b = b'.
Proof.
  intros He H H' E. assert (id = id') as ->; [|split; [done|congruence]].
  apply (one_node id id' (NodeIP b)); [by apply (ex_node s He)|rewrite E; by apply (ex_node s He)].
Qed.

(** A monitor changes its status and the balancer follows. *)
Lemma exact_status s a m m' lb :
  exact s → monitors s !! a = Some m → stopped m = false → mo_ip m' = mo_ip m → stopped m' = false →
  pool_inv lb → anchorPoint lb = anchorPoint (loadBalance s) → names_in (""%string :: nodes.*2) lb →
  instanceMap lb = (if healthy m' then <[crc32 (mo_ip m) := mo_ip m]> else delete (crc32 (mo_ip m))) (instanceMap (loadBalance s)) →
  exact (MkProxies (proxies s) (nodeIPToNodeID s) lb (<[a := m']> (monitors s)) (next s)).
Proof.
  intros He Hm Hs Hip Hs' Hp Han Hn Hl. destruct (ex_live s He a m Hm) as [Ha Hlive]. destruct (Hlive Hs) as (id & b & Hb & <-).
  assert (mo_ip m = NodeIP b) as Eip. { destruct (ex_mon s He id b Hb) as (m0 & E1 & E2 & _). rewrite Hm in E1. injection E1 as <-. done. }
  split; cbn [loadBalance proxies monitors nodeIPToNodeID next].
  - done.
  - intros k x. rewrite Han. apply (ex_anchor s He).
  - done.
  - apply (ex_node s He).
  - intros id' b' Hb'. destruct (decide (mon b = mon b')) as [E|E].
    + exists m'. rewrite E, lookup_insert_eq, Hip, Eip. assert (id = id') as <- by (by eapply (ex_inj s He)). by rewrite Hb in Hb'; injection Hb' as <-.
    + rewrite lookup_insert_ne by done. by apply (ex_mon s He id').
  - intros a' x Hx. apply lookup_insert_Some in Hx as [[<- <-]|[_ Hx]]; [|by apply (ex_live s He)]. split; [done|]. intros _. by exists id, b.
  - apply (ex_inj s He).
  - apply (ex_index s He).
  - intros ip. rewrite Hl.
    assert (∀ b', IsHealthy b' (MkProxies (proxies s) (nodeIPToNodeID s) lb (<[mon b := m']> (monitors s)) (next s)) =
      if decide (mon b = mon b') then healthy m' else IsHealthy b' s) as Hh.
    { intros b'. unfold IsHealthy. cbn. case_decide as E; [by rewrite E, lookup_insert_eq|by rewrite lookup_insert_ne]. }
    assert (mo_ip m ∈ ""%string :: nodes.*2) as Hin by (rewrite Eip; eapply node_name, (ex_node s He); exact Hb).
    destruct (decide (ip = mo_ip m)) as [->|Hne].
    + destruct (healthy m') eqn:Eh; [rewrite lookup_insert_eq|rewrite lookup_delete_eq].
      * split; [|done]. intros _. exists id, b. rewrite Hh, decide_True by done. done.
      * split; [done|]. intros (id' & b' & H1 & H2 & H3). destruct (same_node s id id' b b' He Hb H1) as [_ <-]; [congruence|].
        rewrite Hh, decide_True in H3 by done. done.
    + assert (crc32 (mo_ip m) ≠ crc32 ip ∨ instanceMap (loadBalance s) !! crc32 ip ≠ Some ip) as Hc.
      { destruct (decide (crc32 (mo_ip m) = crc32 ip)) as [E|]; [right|by left]. intros H. apply Hne, checksums; [by eapply (ex_names s He)|done..]. }
      transitivity (instanceMap (loadBalance s) !! crc32 ip = Some ip).
      { destruct (healthy m').
        - rewrite lookup_insert_Some. split; [|intros H; right; split; [by destruct Hc|done]]. intros [[_ E]|[_ H]]; [congruence|done].
        - rewrite lookup_delete_Some. split; [by intros [_ H]|]. intros H. split; [by destruct Hc|done]. }
      rewrite (ex_ring s He). split; intros (id' & b' & H1 & H2 & H3); exists id', b'; rewrite Hh in *; (split; [done|split; [done|]]).
      * case_decide as E; [|done]. assert (id = id') as <- by (by eapply (ex_inj s He)). congruence.
      * case_decide as E; [|done]. assert (id = id') as <- by (by eapply (ex_inj s He)). congruence.
Qed.

Lemma exact_beat s a ok : exact s → exact (whole_beat a ok s).
Proof.
  intros He. destruct (monitors s !! a) as [m|] eqn:Hm; [|unfold whole_beat; by rewrite Hm].
  destruct (stopped m) eqn:Hs; [unfold whole_beat; by rewrite Hm, Hs|]. rewrite (whole_beat_eq a ok s m Hm Hs).
  destruct (ex_live s He a m Hm) as [_ Hlive]. destruct (Hlive Hs) as (id & b & Hb & <-).
  assert (mo_ip m = NodeIP b) as Eip. { destruct (ex_mon s He id b Hb) as (m0 & E1 & E2 & _). rewrite Hm in E1. injection E1 as <-. done. }
  assert (mo_ip m ∈ ""%string :: nodes.*2) as Hin by (rewrite Eip; eapply node_name, (ex_node s He); exact Hb).
  assert (∀ n, instanceMap (loadBalance s) !! crc32 (mo_ip m) = Some n → n = mo_ip m) as Hpt by (intros n; by apply ring_point).
  assert (IsHealthy b s = healthy m) as Eh by (unfold IsHealthy; by rewrite Hm).
  assert (healthy m = true → instanceMap (loadBalance s) !! crc32 (mo_ip m) = Some (mo_ip m)) as Hyes.
  { intros E. apply (ex_ring s He). exists id, b. by rewrite Eh. }
  assert (healthy m = false → instanceMap (loadBalance s) !! crc32 (mo_ip m) = None) as Hno.
  { intros E. destruct (instanceMap _ !! _) as [n|] eqn:El; [|done]. rewrite (Hpt n eq_refl) in El.
    apply (ex_ring s He) in El as (id' & b' & H1 & H2 & H3). destruct (same_node s id id' b b' He Hb H1) as [_ <-]; congruence. }
  apply (exact_status s (mon b) m); try done; unfold balance.
  - by destruct ok.
  - by destruct ok.
  - destruct (healthy m), (healthy (beat_result ok m)); [apply (ex_pool s He)|apply Remove_pool_inv, (ex_pool s He)|apply Add_pool_inv, (ex_pool s He)|apply (ex_pool s He)].
  - destruct (healthy m), (healthy (beat_result ok m)); try done. apply add_anchors.
  - destruct (healthy m), (healthy (beat_result ok m)); try apply (ex_names s He); [apply remove_names, (ex_names s He)|apply add_names, (ex_names s He); done].
  - destruct (healthy m), (healthy (beat_result ok m)); try done.
    + symmetry. apply insert_id. by apply Hyes.
    + by apply add_map.
    + symmetry. apply delete_id. by apply Hno.
Qed.

Lemma exact_add c id ip s : (id, ip) ∈ nodes → exact s → exact (Add c id ip s).
Proof.
  intros Hn He. unfold Add. destruct (proxies s !! id) as [b0|] eqn:Hid; [done|]. cbn.
  set (b := MkProxy ip _ _ _). set (m := MkMonitor ip _ _ _ _).
  assert (∀ id' b', proxies s !! id' = Some b' → mon b' ≠ next s) as Hnew.
  { intros id' b' H E. destruct (ex_mon s He id' b' H) as (m' & H1 & _). apply (ex_live s He) in H1 as [? _]. lia. }
  split; cbn [loadBalance proxies monitors nodeIPToNodeID next].
  - apply (ex_pool s He).
  - apply (ex_anchor s He).
  - apply (ex_names s He).
  - intros id' b' [[<- <-]|[_ H]]%lookup_insert_Some; [done|by apply (ex_node s He)].
  - intros id' b' [[<- <-]|[_ H]]%lookup_insert_Some; [exists m; cbn; by rewrite lookup_insert_eq|].
    rewrite lookup_insert_ne by (symmetry; by eapply Hnew). by apply (ex_mon s He id').
  - intros a x [[<- <-]|[_ H]]%lookup_insert_Some; (split; [|intros Hs]).
    + lia.
    + exists id, b. by rewrite lookup_insert_eq.
    + apply (ex_live s He) in H as [? _]. lia.
    + apply (ex_live s He) in H as [_ H]. destruct (H Hs) as (id' & b' & H1 & H2). exists id', b'. rewrite lookup_insert_ne by congruence. done.
  - intros id1 id2 b1 b2 [[<- <-]|[N1 H1]]%lookup_insert_Some [[<- <-]|[N2 H2]]%lookup_insert_Some E; [done|..].
    + by destruct (Hnew id2 b2 H2).
    + by destruct (Hnew id1 b1 H1).
    + by eapply (ex_inj s He).
  - intros ip' id'. destruct (decide (ip = ip')) as [<-|Hne].
    + rewrite lookup_insert_eq. split; [intros [= <-]; exists b; by rewrite lookup_insert_eq|].
      intros (b' & [[<- _]|[_ H]]%lookup_insert_Some & E); [done|]. f_equal. apply (one_node id id' ip); [done|]. rewrite <- E. by apply (ex_node s He).
    + rewrite lookup_insert_ne, (ex_index s He) by done. split; intros (b' & H & E); exists b'.
      * rewrite lookup_insert_ne by congruence. done.
      * apply lookup_insert_Some in H as [[<- <-]|[_ H]]; [by destruct Hne|done].
  - intros ip'. rewrite (ex_ring s He). unfold IsHealthy. cbn. split; intros (id' & b' & H1 & H2 & H3); exists id', b'.
    + rewrite lookup_insert_ne by congruence. rewrite lookup_insert_ne by (symmetry; by eapply Hnew). done.
    + apply lookup_insert_Some in H1 as [[<- <-]|[_ H1]]; [cbn in H3; by rewrite lookup_insert_eq in H3|].
      rewrite lookup_insert_ne in H3 by (symmetry; by eapply Hnew). done.
Qed.

Lemma exact_delete id s : exact s → exact (Delete id s).
Proof.
  intros He. unfold Delete. destruct (proxies s !! id) as [b|] eqn:Hid; [|done].
  destruct (ex_mon s He id b Hid) as (m & Hm & Eip & Hs). unfold stopMonitor. rewrite (set_monitor_known _ _ s m Hm).
  set (m' := MkMonitor _ _ _ _ true). cbn.
  assert (∀ id' b', delete id (proxies s) !! id' = Some b' → mon b' ≠ mon b) as Hother.
  { intros id' b' [N H]%lookup_delete_Some E. apply N. by eapply (ex_inj s He). }
  split; cbn [loadBalance proxies monitors nodeIPToNodeID next].
  - apply (Remove_pool_inv _ (NodeString (NodeIP b))), (ex_pool s He).
  - intros k x. cbn. apply (ex_anchor s He).
  - apply (remove_names _ _ (NodeIP b)), (ex_names s He).
  - intros id' b' [_ H]%lookup_delete_Some. by apply (ex_node s He).
  - intros id' b' H. pose proof (Hother id' b' H). apply lookup_delete_Some in H as [_ H]. rewrite lookup_insert_ne by done. by apply (ex_mon s He id').
  - intros a x [[<- <-]|[N H]]%lookup_insert_Some; [split; [by eapply (ex_live s He)|done]|]. destruct (ex_live s He a x H) as [H1 H2]. split; [done|].
    intros E. destruct (H2 E) as (id' & b' & H3 & H4). exists id', b'. rewrite lookup_delete_ne; [done|]. intros <-. rewrite Hid in H3. by injection H3 as <-.
  - intros id1 id2 b1 b2 [_ H1]%lookup_delete_Some [_ H2]%lookup_delete_Some. by apply (ex_inj s He).
  - intros ip' id'. destruct (decide (NodeIP b = ip')) as [<-|Hne].
    + rewrite lookup_delete_eq. split; [done|]. intros (b' & [N H]%lookup_delete_Some & E). by destruct (same_node s id id' b b' He Hid H).
    + rewrite lookup_delete_ne, (ex_index s He) by done. split; intros (b' & H & E); exists b'.
      * rewrite lookup_delete_ne; [done|]. intros <-. congruence.
      * by apply lookup_delete_Some in H as [_ H].
  - intros ip'. cbn [instanceMap]. unfold getHashKeyCRC32. rewrite lookup_delete_Some.
    assert (NodeIP b ∈ ""%string :: nodes.*2) as Hin by (eapply node_name, (ex_node s He); exact Hid).
    rewrite (ex_ring s He). unfold IsHealthy. cbn. split.
    + intros (N & id' & b' & H1 & H2 & H3). assert (id ≠ id') by (intros <-; rewrite Hid in H1; injection H1 as <-; congruence).
      exists id', b'. rewrite lookup_delete_ne by done. rewrite lookup_insert_ne; [done|]. intros E. by assert (id = id') by (by eapply (ex_inj s He)).
    + intros (id' & b' & H1 & H2 & H3). pose proof (Hother id' b' H1). rewrite lookup_insert_ne in H3 by done. apply lookup_delete_Some in H1 as [N H1]. split.
      * intros E. apply checksums in E; [|done|rewrite <- H2; eapply node_name, (ex_node s He); exact H1].
        by destruct (same_node s id id' b b' He Hid H1) as [? _]; [congruence|].
      * by exists id', b'.
Qed.

(** A changed configuration replaces the proxy of a node by a new one. *)
Lemma updateConfig_eq c id s b :
  exact s → proxies s !! id = Some b →
  updateConfig c id s = s ∨ updateConfig c id s = Add c id (NodeIP b) (Delete id s).
Proof.
  intros He Hb. unfold updateConfig, Delete, Add. rewrite Hb. destruct (_ || _); [right|by left]. cbn. rewrite lookup_delete_eq. cbn.
  rewrite !insert_delete_eq. unfold put_proxy, startMonitor. cbn. f_equal. symmetry. apply insert_id, (ex_index s He). by exists b.
Qed.

Lemma exact_update l c s : exact s → exact (UpdateConfig l c s).
Proof.
  intros He. unfold UpdateConfig. apply foldl_inv; [|done]. clear s He. intros s k _ He.
  destruct (proxies s !! k) as [b|] eqn:Hb; [|unfold updateConfig; by rewrite Hb].
  destruct (updateConfig_eq c k s b He Hb) as [->| ->]; [done|]. apply exact_add; [by apply (ex_node s He)|by apply exact_delete].
Qed.

Lemma exact_next name move s : exact s → exact (NextWithName name move s).2.
Proof.
  intros He. unfold NextWithName. pose proof (Next_nodes (loadBalance s) name move) as [H1 H2].
  pose proof (Next_anchor_inv (loadBalance s) name move (ex_pool s He) (ex_anchor s He)) as H3.
  pose proof (Next_names_in _ (loadBalance s) name move ltac:(left) (ex_names s He)) as [H4 _].
  destruct (ch_Next (loadBalance s) name move) as [ip lb]. cbn in *. destruct He. split; cbn [loadBalance proxies monitors nodeIPToNodeID next]; try done.
  - by eapply pool_inv_nodes.
  - intros ip'. rewrite H2. apply ex_ring0.
Qed.

Definition known (o : op) : Prop := match o with OAdd _ id ip => (id, ip) ∈ nodes | _ => True end.

Lemma exact_run os : (∀ o, o ∈ os → known o) → exact (run os).
Proof.
  intros Hk. unfold run. apply foldl_inv.
  - intros s o Ho He. specialize (Hk o Ho). destruct o; cbn [apply]; [by apply exact_add|by apply exact_delete|by apply exact_update|by apply exact_next|by apply exact_beat].
  - split; cbn; try done; [apply New_pool_inv|..]; intros *; try (by intros ?%lookup_empty_Some || (rewrite lookup_empty; done)).
    all: try (split; intros H; [by rewrite lookup_empty in H|]; destruct H as (? & H); destruct_and?; repeat (destruct H as (? & H)); by rewrite lookup_empty in *).
Qed.

(** C29. While heartbeats are not interrupted, no address is ever announced under
    two node IDs and no two addresses have the same checksum: the balancer holds
    exactly the addresses of the nodes whose heartbeats succeed,
    [IsBusProxyHealthy] reports exactly these, and [NextWithName] answers one of them whenever
    there is one: whatever nodes come and go, the configuration changes and
    names are looked up. *)
Theorem proxies_balanced os :
  (∀ o, o ∈ os → known o) →
  let s := run os in
  (∀ ip, instanceMap (loadBalance s) !! crc32 ip = Some ip ↔ ∃ id b, proxies s !! id = Some b ∧ NodeIP b = ip ∧ IsHealthy b s = true) ∧
  (∀ ip, IsBusProxyHealthy ip s = true ↔ instanceMap (loadBalance s) !! crc32 ip = Some ip) ∧
  (∀ name move, (∃ ip, IsBusProxyHealthy ip s = true) → IsBusProxyHealthy (NextWithName name move s).1 s = true).
Proof.
  intros Hk s. pose proof (exact_run os Hk) as He. fold s in He.
  assert (∀ ip, IsBusProxyHealthy ip s = true ↔ instanceMap (loadBalance s) !! crc32 ip = Some ip) as Hh.
  { intros ip. rewrite (ex_ring s He). unfold IsBusProxyHealthy. split.
    - destruct (nodeIPToNodeID s !! ip) as [id|] eqn:Ei; [|done]. apply (ex_index s He) in Ei as (b & Hb & E). rewrite Hb. intros H. by exists id, b.
    - intros (id & b & H1 & H2 & H3). rewrite (proj2 (ex_index s He ip id)) by (by exists b). by rewrite H1. }
  split; [apply (ex_ring s He)|]. split; [exact Hh|]. intros name move [ip Hip%Hh].
  assert (hashPool (loadBalance s) ≠ []) as Hne.
  { intros E. assert (crc32 ip ∈ hashPool (loadBalance s)) as H by (apply (ex_pool s He); eauto). rewrite E in H. by apply not_elem_of_nil in H. }
  pose proof (Next_nodes (loadBalance s) name move) as [_ H2].
  pose proof (Next_names_in _ (loadBalance s) name move ltac:(left) (ex_names s He)) as [_ H4].
  unfold NextWithName. destruct (ch_Next (loadBalance s) name move) as [k lb] eqn:En. cbn in *.
  destruct (Next_anchored _ _ _ _ _ (ex_pool s He) (ex_anchor s He) Hne En) as (a & _ & _ & Hc & n & Hn).
  apply Hh. rewrite H2, <- Hc in Hn. rewrite Hn. f_equal. apply (ring_point s k n He H4 Hn).
Qed.
End exact.

(** ** Interrupted heartbeats *)

Definition demo_settings : settings := MkSettings false (MkHeartbeat 1 1 1).
Definition demo_add : event := EOp (OAdd demo_settings "node1" "10.0.0.1").

(** A heartbeat that is answered after its node was deleted puts the address of
    the node back into the balancer, where nothing removes it. *)
Theorem late_answer_restores_node :
  let s := (run_events ([demo_add; ETick 0; EOp (ODelete "node1")] ++ replicate 4 (EStep 0 true))).1 in
  proxies s = ∅ ∧ (NextWithName "f" false s).1 = "10.0.0.1"%string ∧ IsBusProxyHealthy "10.0.0.1" s = false.
Proof. by vm_compute. Qed.

(** Two heartbeats overlap: one finds the proxy failing and marks it, the
    other finds it marked, marks it healthy and puts it back, and then the
    first removes it. The proxy is healthy and not in the balancer, and no
    number of further successes brings it back. *)
Theorem overlapping_beats_lose_proxy n :
  let s := (run_events ([demo_add; EOp (OBeat 0 true); ETick 0; ETick 0] ++ replicate 3 (EStep 0 false) ++ replicate 4 (EStep 1 true) ++
                        [EStep 0 false] ++ replicate n (EOp (OBeat 0 true)))).1 in
  IsBusProxyHealthy "10.0.0.1" s = true ∧ hashPool (loadBalance s) = [].
Proof.
  set (es := [demo_add; EOp (OBeat 0 true); ETick 0; ETick 0] ++ replicate 3 (EStep 0 false) ++ replicate 4 (EStep 1 true) ++ [EStep 0 false]).
  replace (_ ++ _) with (es ++ replicate n (EOp (OBeat 0 true))) by (subst es; by rewrite <- !app_assoc).
  unfold run_events. rewrite foldl_app. set (st := foldl step _ es).
  assert (∃ s bs, st = (s, bs) ∧ IsBusProxyHealthy "10.0.0.1" s = true ∧ hashPool (loadBalance s) = [] ∧
    monitors s !! 0 = Some (MkMonitor "10.0.0.1" 1 0 true false)) as (s & bs & -> & H1 & H2 & H3).
  { eexists _, _. split; [vm_compute; reflexivity|]. by vm_compute. }
  induction n as [|n IH]; cbn [replicate foldl]; [done|]. cbn [step apply].
  rewrite (whole_beat_eq 0 true s _ H3 eq_refl). cbn [balance beat_result healthy mo_ip threshold stopped].
  rewrite insert_id by done. by destruct s.
Qed.

(** ** Witnesses *)

Lemma demo_checksums x y :
  x ∈ [""; "10.0.0.1"]%string → y ∈ [""; "10.0.0.1"]%string → crc32 x = crc32 y → x = y.
Proof.
  assert (crc32 "" ≠ crc32 "10.0.0.1") as Hn by (vm_compute; discriminate).
  intros Hx Hy E. rewrite !elem_of_cons, elem_of_nil in Hx. rewrite !elem_of_cons, elem_of_nil in Hy.
  destruct Hx as [->|[->|[]]], Hy as [->|[->|[]]]; [reflexivity|destruct (Hn E)|destruct (Hn (eq_sym E))|reflexivity].
Qed.

Lemma proxies_balanced_witness :
  IsBusProxyHealthy "10.0.0.1" (run [OAdd demo_settings "node1" "10.0.0.1"; OBeat 0 true]) = true ∧
  IsBusProxyHealthy (NextWithName "f" true (run [OAdd demo_settings "node1" "10.0.0.1"; OBeat 0 true])).1
    (run [OAdd demo_settings "node1" "10.0.0.1"; OBeat 0 true]) = true.
Proof.
  assert (IsBusProxyHealthy "10.0.0.1" (run [OAdd demo_settings "node1" "10.0.0.1"; OBeat 0 true]) = true) as H by (vm_compute; reflexivity).
  split; [exact H|].
  destruct (proxies_balanced [("node1", "10.0.0.1")%string]
    demo_checksums
    ltac:(intros id id' ip H1 H2; rewrite list_elem_of_singleton in H1, H2; congruence)
    [OAdd demo_settings "node1" "10.0.0.1"; OBeat 0 true]) as (_ & _ & H3).
  - intros o. rewrite !elem_of_cons, elem_of_nil. intros [->|[->|[]]]; cbn; [by left|done].
  - apply H3. by exists "10.0.0.1"%string.
Defined.

Lemma healthy_after_beats_witness :
  healthy (foldl (λ m ok, beat_result ok m) (MkMonitor "a" 2 0 false false) [false; true; false]) = true.
Proof. apply (healthy_after_beats "a" 2 [false; true; false]); [done|]. exists 1. split; [done|]. right. lia. Defined.
