(* ===== verification/TrafficLimit.v ===== *)
(** * Traffic limits (pkg/frontend/tenanttrafficlimit, watcher/tenantqos.go, faas_common/trafficlimit)

    A limiter per tenant, for the quota that etcd gives it or the default, and
    a limiter per function. The limiters of golang.org/x/time/rate are a
    parameter; the code keeps pointers to them. *)

From S2P Require Import Prelude GoStrings Hashing Json JsonMarshal.
Open Scope string_scope.

(** What a limiter is made for: everything, or a quota that [frontends] share:
    the rate is quota / frontends and the bucket holds 1.1 times as much. *)
Inductive limiter_spec := Unlimited | Share (quota frontends : Z).

(** [rate.NewLimiter] and [Allow] at a time. *)
Class RateLimiter (limiter : Type) := {
  NewLimiter : limiter_spec → limiter;
  Allow : Z → limiter → bool * limiter }.

Record settings := MkSettings { DefaultTenantLimitQuota : Z; InstanceNum : Z }.

Definition getFrontendNum (c : settings) : Z := if (InstanceNum c <=? 0)%Z then 1 else InstanceNum c.

Definition limiter_for (c : settings) (quota : Z) : limiter_spec :=
  if (DefaultTenantLimitQuota c =? -1)%Z then Unlimited else Share quota (getFrontendNum c).

Record TenantInfo := MkInfo { Quota : Z; Limiter : option nat }.

Section limits.
  Context {limiter : Type} `{RateLimiter limiter}.

Record TenantContainer := MkContainer { tenantInfo : gmap string TenantInfo; limiters : gmap nat limiter; next : nat }.
Definition no_tenants : TenantContainer := MkContainer ∅ ∅ 0.

Definition getTenantLimiter (c : settings) (info : TenantInfo) : limiter := NewLimiter (limiter_for c (Quota info)).
Definition getDefaultLimiter (c : settings) : limiter := NewLimiter (limiter_for c (DefaultTenantLimitQuota c)).

Definition getTenantInfo (c : settings) (tenantID : string) (t : TenantContainer) : TenantInfo :=
  default (MkInfo (DefaultTenantLimitQuota c) None) (tenantInfo t !! tenantID).

(** Storing an information with a limiter made for it. *)
Definition store_with (tenantID : string) (quota : Z) (l : limiter) (t : TenantContainer) : TenantContainer :=
  MkContainer (<[tenantID := MkInfo quota (Some (next t))]> (tenantInfo t)) (<[next t := l]> (limiters t)) (S (next t)).

Definition allow_at (now : Z) (a : nat) (t : TenantContainer) : bool * TenantContainer :=
  match limiters t !! a with
  | Some l => let '(ok, l) := Allow now l in (ok, MkContainer (tenantInfo t) (<[a := l]> (limiters t)) (next t))
  | None => (false, t)
  end.

(** [tenantTakeOneToken] after it has loaded the information. *)
Definition take_with (c : settings) (now : Z) (tenantID : string) (info : TenantInfo) (t : TenantContainer) : (bool * Z) * TenantContainer :=
  match Limiter info with
  | None =>
      let a := next t in
      let '(ok, t) := allow_at now a (store_with tenantID (Quota info) (getDefaultLimiter c) t) in
      ((ok, Quota info), t)
  | Some a => let '(ok, t) := allow_at now a t in ((ok, Quota info), t)
  end.

Definition tenantTakeOneToken (c : settings) (now : Z) (tenantID : string) (t : TenantContainer) : (bool * Z) * TenantContainer :=
  take_with c now tenantID (getTenantInfo c tenantID t) t.

(** [Limit]: whether the request is refused. *)
Definition Limit (c : settings) (now : Z) (tenantID : string) (t : TenantContainer) : bool * TenantContainer :=
  let '((ok, _), t) := tenantTakeOneToken c now tenantID t in (negb ok, t).

Definition syncLimiter (c : settings) (tenantID : string) (info : TenantInfo) (t : TenantContainer) : TenantContainer :=
  store_with tenantID (Quota info) (getTenantLimiter c info) t.

(** The value of an event as a map to integers: [Some None] for null, and a
    null member is zero. *)
Definition decode_quotas (value : string) : option (option (gmap string Z)) :=
  match Unmarshal value with
  | Some JNull => Some None
  | Some (JObject kvs) => (λ l, Some (to_map l)) <$> mapM (λ kv, pair kv.1 <$> match kv.2 with JNull => Some 0%Z | v => to_int v end) kvs
  | _ => None
  end.

Definition tenant_of (key : string) : option string := Split key "/" !! 6%nat.

(** [false]: the value cannot be decoded. *)
Definition ProcessUpdate (c : settings) (key value : string) (t : TenantContainer) : bool * TenantContainer :=
  match tenant_of key with
  | None => (true, t)
  | Some tenantID =>
      match decode_quotas value with
      | None => (false, t)
      | Some None => (true, t)
      | Some (Some data) =>
          match data !! "quota" with
          | None => (true, t)
          | Some quota => (true, syncLimiter c tenantID (MkInfo quota (Limiter (getTenantInfo c tenantID t))) t)
          end
      end
  end.

Definition ProcessDelete (c : settings) (key : string) (t : TenantContainer) : TenantContainer :=
  match tenant_of key with
  | None => t
  | Some tenantID =>
      match Limiter (getTenantInfo c tenantID t) with
      | None => t
      | Some a => syncLimiter c tenantID (MkInfo (DefaultTenantLimitQuota c) (Some a)) t
      end
  end.

(** The events that concern the limits; [tenantQOSFilter] and
    [processTenantEvent]. *)
Definition tenantQOSFilter (key : string) : bool :=
  let s := Split key "/" in
  if negb (length s =? 7)%nat then true else negb (bool_decide (s !! 5%nat = Some "tenant")).

Inductive event := Request (tenantID : string) (now : Z) | Put (key value : string) | Del (key : string).

Definition step (c : settings) (t : TenantContainer) (e : event) : TenantContainer * list (string * bool) :=
  match e with
  | Request id now => let '(refused, t) := Limit c now id t in (t, [(id, refused)])
  | Put key value => (if tenantQOSFilter key then t else (ProcessUpdate c key value t).2, [])
  | Del key => (if tenantQOSFilter key then t else ProcessDelete c key t, [])
  end.

(** The final state and the answers to the requests. *)
Fixpoint run (c : settings) (t : TenantContainer) (es : list event) : TenantContainer * list (string * bool) :=
  match es with
  | [] => (t, [])
  | e :: es => let '(t, l) := step c t e in let '(t, l') := run c t es in (t, (l ++ l')%list)
  end.

(** ** Functions *)

Definition DefaultFunctionLimitRate : Z := 5000.
Definition DefaultAccessorInitCopies : Z := 3.

Record LimiterContainer := MkLimiters { funcLimiterMap : gmap string limiter; functionLimitRate : Z }.

Definition SetFunctionLimitRate (limit : Z) (f : LimiterContainer) : LimiterContainer :=
  MkLimiters (funcLimiterMap f) (if (limit <=? 0)%Z then DefaultFunctionLimitRate else limit).

Definition getFunctionLimiter (functionKey : string) (f : LimiterContainer) : limiter * LimiterContainer :=
  match funcLimiterMap f !! functionKey with
  | Some l => (l, f)
  | None =>
      let rate := if (functionLimitRate f <=? 0)%Z then DefaultFunctionLimitRate else functionLimitRate f in
      let l := NewLimiter (Share rate DefaultAccessorInitCopies) in
      (l, MkLimiters (<[functionKey := l]> (funcLimiterMap f)) rate)
  end.

Definition FuncTrafficLimit (now : Z) (funcKey : string) (f : LimiterContainer) : bool * LimiterContainer :=
  let '(l, f) := getFunctionLimiter funcKey f in
  let '(ok, l) := Allow now l in (ok, MkLimiters (<[funcKey := l]> (funcLimiterMap f)) (functionLimitRate f)).

(** ** Tenants do not affect each other *)

Definition concerns (id : string) (e : event) : bool :=
  match e with
  | Request id' _ => bool_decide (id' = id)
  | Put key _ | Del key => bool_decide (tenant_of key = Some id)
  end.

Record wf (t : TenantContainer) : Prop := {
  wf_alive : ∀ id info a, tenantInfo t !! id = Some info → Limiter info = Some a → is_Some (limiters t !! a) ∧ (a < next t)%nat;
  wf_limiter : ∀ id info, tenantInfo t !! id = Some info → Limiter info ≠ None;
  wf_own : ∀ id id' i i' a, tenantInfo t !! id = Some i → tenantInfo t !! id' = Some i' → Limiter i = Some a → Limiter i' = Some a → id = id' }.

(** What a tenant has: its quota and the state of its limiter. *)
Definition account (t : TenantContainer) (id : string) : option (Z * option limiter) :=
  (λ i, (Quota i, Limiter i ≫= λ a, limiters t !! a)) <$> tenantInfo t !! id.

Lemma wf_store id q l t : wf t → wf (store_with id q l t).
Proof.
  intros [H1 H2 H3]. split; cbn.
  - intros id' i a [[<- <-]|[N E]]%lookup_insert_Some Ha; cbn in *.
    + injection Ha as <-. rewrite lookup_insert_eq. split; [done|lia].
    + destruct (H1 id' i a E Ha) as [S1 S2]. rewrite lookup_insert_ne by lia. split; [done|lia].
  - intros id' i [[<- <-]|[N E]]%lookup_insert_Some; [done|by eapply H2].
  - intros id1 id2 i1 i2 a [[<- <-]|[N1 E1]]%lookup_insert_Some [[<- <-]|[N2 E2]]%lookup_insert_Some A1 A2; cbn in *; [done|..].
    + destruct (H1 id2 i2 a E2 A2). injection A1 as <-. lia.
    + destruct (H1 id1 i1 a E1 A1). injection A2 as <-. lia.
    + by eapply H3.
Qed.

Lemma account_store id q l t id' :
  wf t → account (store_with id q l t) id' = if bool_decide (id' = id) then Some (q, Some l) else account t id'.
Proof.
  intros [H1 H2 H3]. unfold account. cbn. case_bool_decide as E.
  - subst. rewrite lookup_insert_eq. cbn. by rewrite lookup_insert_eq.
  - rewrite lookup_insert_ne by done. destruct (tenantInfo t !! id') as [i|] eqn:Ei; [|done]. cbn. do 2 f_equal.
    destruct (Limiter i) as [a|] eqn:Ea; [|done]. cbn. destruct (H1 id' i a Ei Ea). by rewrite lookup_insert_ne by lia.
Qed.

Lemma wf_allow now a t : wf t → wf (allow_at now a t).2.
Proof.
  intros Hw. unfold allow_at. destruct (limiters t !! a) as [l|] eqn:El; [|done]. destruct (Allow now l) as [ok l'] eqn:Eo. cbn.
  destruct Hw as [H1 H2 H3]. split; cbn; [|done..]. intros id i b E Hb. destruct (H1 id i b E Hb). split; [|done].
  destruct (decide (a = b)) as [->|]; [by rewrite lookup_insert_eq|by rewrite lookup_insert_ne].
Qed.

(** Taking a token from the limiter of a tenant. *)
Lemma account_allow now id i a t id' :
  wf t → tenantInfo t !! id = Some i → Limiter i = Some a →
  ∃ l, limiters t !! a = Some l ∧ (allow_at now a t).1 = (Allow now l).1 ∧
  account (allow_at now a t).2 id' = if bool_decide (id' = id) then Some (Quota i, Some (Allow now l).2) else account t id'.
Proof.
  intros Hw Hi Ha. destruct (wf_alive t Hw id i a Hi Ha) as [[l Hl] _]. exists l. unfold allow_at. rewrite Hl.
  destruct (Allow now l) as [ok l'] eqn:Eo. cbn. split_and!; [done..|]. unfold account. cbn. case_bool_decide as E.
  - subst. rewrite Hi. cbn. rewrite Ha. cbn. by rewrite lookup_insert_eq.
  - destruct (tenantInfo t !! id') as [i'|] eqn:Ei; [|done]. cbn. do 2 f_equal. destruct (Limiter i') as [b|] eqn:Eb; [|done]. cbn.
    rewrite lookup_insert_ne; [done|]. intros <-. apply E. by eapply (wf_own t Hw).
Qed.

(** The account of a tenant on its own: the effect of an event that concerns
    it, and the answer to a request. *)
Definition quota_of (value : string) : option Z :=
  match decode_quotas value with Some (Some data) => data !! "quota" | _ => None end.

Definition account_step (c : settings) (tid : string) (x : option (Z * option limiter)) (e : event) : option (Z * option limiter) * list (string * bool) :=
  match e with
  | Request _ now =>
      let '(q, l) := default (DefaultTenantLimitQuota c, None) x in
      let l := default (getDefaultLimiter c) l in
      (Some (q, Some (Allow now l).2), [(tid, negb (Allow now l).1)])
  | Put key value =>
      (if tenantQOSFilter key then x
       else match quota_of value with Some q => Some (q, Some (NewLimiter (limiter_for c q))) | None => x end, [])
  | Del key =>
      (if tenantQOSFilter key then x
       else match x with Some _ => Some (DefaultTenantLimitQuota c, Some (getDefaultLimiter c)) | None => x end, [])
  end.

Fixpoint account_run (c : settings) (tid : string) (x : option (Z * option limiter)) (es : list event) : list (string * bool) :=
  match es with
  | [] => []
  | e :: es => let '(x, l) := account_step c tid x e in (l ++ account_run c tid x es)%list
  end.

Definition of_tenant (tid : string) (l : list (string * bool)) : list (string * bool) := filter (λ a, a.1 = tid) l.

Lemma of_tenant_one tid id' b : of_tenant tid [(id', b)] = if bool_decide (id' = tid) then [(id', b)] else [].
Proof. unfold of_tenant. rewrite filter_cons, filter_nil. cbn. case_bool_decide; by case_decide. Qed.

Lemma request_account c t id' now tid :
  wf t → let '(t', l) := step c t (Request id' now) in
  wf t' ∧ account t' tid = (if bool_decide (id' = tid) then (account_step c tid (account t tid) (Request id' now)).1 else account t tid) ∧
  of_tenant tid l = (if bool_decide (id' = tid) then (account_step c tid (account t tid) (Request id' now)).2 else []).
Proof.
  intros Hw. cbn [step]. unfold Limit, tenantTakeOneToken, take_with, getTenantInfo.
  destruct (tenantInfo t !! id') as [i|] eqn:Ei; cbn [default from_option id].
  - destruct (Limiter i) as [a|] eqn:Ea; [|by destruct (wf_limiter t Hw id' i Ei)].
    destruct (account_allow now id' i a t tid Hw Ei Ea) as (l & Hl & H1 & H2). pose proof (wf_allow now a t Hw) as H3.
    destruct (allow_at now a t) as [ok t']. cbn [fst snd] in *. split; [done|]. subst ok. rewrite H2, of_tenant_one.
    assert (id' = tid → account t tid = Some (Quota i, Some l)) as Hn by (intros <-; unfold account; rewrite Ei; cbn; by rewrite Ea; cbn; rewrite Hl).
    repeat case_bool_decide; subst; try done. by rewrite Hn.
  - cbn [Limiter Quota]. set (q := DefaultTenantLimitQuota c). set (t1 := store_with id' q (getDefaultLimiter c) t).
    assert (wf t1) as Hw1 by (by apply wf_store).
    assert (tenantInfo t1 !! id' = Some (MkInfo q (Some (next t)))) as E1 by (cbn; by rewrite lookup_insert_eq).
    destruct (account_allow now id' _ (next t) t1 tid Hw1 E1 eq_refl) as (l & Hl & H1 & H2). pose proof (wf_allow now (next t) t1 Hw1) as H3.
    assert (l = getDefaultLimiter c) as -> by (cbn in Hl; rewrite lookup_insert_eq in Hl; congruence).
    destruct (allow_at now (next t) t1) as [ok t']. cbn [fst snd Quota] in *. split; [done|]. subst ok. rewrite H2.
    unfold t1. rewrite account_store, of_tenant_one by done.
    assert (id' = tid → account t tid = None) as Hn by (intros <-; unfold account; by rewrite Ei).
    repeat case_bool_decide; subst; try done. by rewrite Hn.
Qed.

Lemma step_account c t e tid :
  wf t → let '(t', l) := step c t e in
  wf t' ∧ account t' tid = (if concerns tid e then (account_step c tid (account t tid) e).1 else account t tid) ∧
  of_tenant tid l = (if concerns tid e then (account_step c tid (account t tid) e).2 else []).
Proof.
  intros Hw. destruct e as [id' now|key value|key].
  - apply (request_account c t id' now tid Hw).
  - cbn [step account_step concerns snd fst]. destruct (tenantQOSFilter key) eqn:Ef.
    { split_and!; [done|by case_bool_decide..]. }
    unfold ProcessUpdate, quota_of. destruct (tenant_of key) as [id'|]; [|cbn; split_and!; [done|by case_bool_decide..]].
    destruct (decode_quotas value) as [[data|]|]; cbn [snd].
    2-3: split_and!; [done|by case_bool_decide..].
    destruct (data !! "quota") as [q|]; cbn [snd]; [|split_and!; [done|by case_bool_decide..]].
    unfold syncLimiter. split; [by apply wf_store|]. rewrite account_store by done. cbn [Quota].
    split; [|by case_bool_decide]. repeat case_bool_decide; simplify_eq; done.
  - cbn [step account_step concerns snd fst]. destruct (tenantQOSFilter key) eqn:Ef.
    { split_and!; [done|by case_bool_decide..]. }
    unfold ProcessDelete. destruct (tenant_of key) as [id'|]; [|cbn; split_and!; [done|by case_bool_decide..]].
    unfold getTenantInfo. destruct (tenantInfo t !! id') as [i|] eqn:Ei; cbn [default from_option id].
    + destruct (Limiter i) as [a|] eqn:Ea; [|by destruct (wf_limiter t Hw id' i Ei)]. unfold syncLimiter.
      split; [by apply wf_store|]. rewrite account_store by done. cbn [Quota]. split; [|by case_bool_decide].
      assert (id' = tid → account t tid ≠ None) as Hn by (intros <-; unfold account; by rewrite Ei).
      repeat case_bool_decide; try (simplify_eq; done). destruct (account t tid); [done|]. destruct Hn; congruence.
    + cbn [Limiter]. split_and!; [done| |by case_bool_decide]. case_bool_decide; [|done]. simplify_eq.
      unfold account. by rewrite Ei.
Qed.

(** C40. Each tenant has an account of its own: the answers it gets are those of a
    limiter for its quota that only its own requests, and the events of its
    own key, touch; the requests and quotas of other tenants have no effect. *)
Theorem tenant_limits_isolated c es tid :
  of_tenant tid (run c no_tenants es).2 = account_run c tid None (filter (λ e, concerns tid e = true) es).
Proof.
  assert (wf no_tenants) as Hw by (by split). assert (account no_tenants tid = None) as <- by done.
  revert Hw. generalize no_tenants. induction es as [|e es IH]; intros t Hw; [done|]. cbn [run].
  pose proof (step_account c t e tid Hw) as Hs. destruct (step c t e) as [t' l]. destruct Hs as (H1 & H2 & H3).
  specialize (IH t' H1). destruct (run c t' es) as [t'' l']. cbn [snd] in *. unfold of_tenant in *. rewrite filter_app, H3, IH, H2, filter_cons.
  destruct (concerns tid e); [rewrite decide_True by done|rewrite decide_False by done; done]. cbn [account_run].
  by destruct (account_step c tid (account t tid) e).
Qed.
End limits.

(** ** A request that is interrupted *)

(** The first request of a tenant loads its information, an update of the quota
    arrives, and the request stores the default: the update is lost. *)
Theorem first_request_loses_quota {limiter} `{RateLimiter limiter} c now now' :
  DefaultTenantLimitQuota c ≠ 10%Z →
  let info := getTenantInfo c "t1" (no_tenants (limiter := limiter)) in
  let t1 := (ProcessUpdate c "/sn/qos/business/yrk/tenant/t1" (String "{" (String quote_char ("quota" +:+ String quote_char ":10}"))) no_tenants).2 in
  let t2 := (take_with c now "t1" info t1).2 in
  Quota (getTenantInfo c "t1" t1) = 10%Z ∧ Quota (getTenantInfo c "t1" t2) ≠ 10%Z ∧
  (tenantTakeOneToken c now' "t1" t2).1.2 ≠ 10%Z.
Proof.
  intros Hc info t1 t2.
  assert (t1 = store_with "t1" 10 (NewLimiter (limiter_for c 10)) no_tenants) as E1.
  { subst t1. unfold ProcessUpdate.
    assert (tenant_of "/sn/qos/business/yrk/tenant/t1" = Some "t1") as -> by (vm_compute; reflexivity).
    assert (decode_quotas (String "{" (String quote_char ("quota" +:+ String quote_char ":10}"))) = Some (Some {["quota" := 10%Z]})) as -> by (vm_compute; reflexivity).
    by rewrite lookup_singleton_eq. }
  assert (getTenantInfo c "t1" t2 = MkInfo (DefaultTenantLimitQuota c) (Some 1%nat)) as E2.
  { subst t2 info. rewrite E1. unfold take_with. change (getTenantInfo c "t1" no_tenants) with (MkInfo (DefaultTenantLimitQuota c) None).
    cbn [Limiter Quota]. unfold allow_at. cbn [limiters store_with next no_tenants]. rewrite lookup_insert_eq.
    destruct (Allow now _) as [ok l]. unfold getTenantInfo. cbn [snd tenantInfo store_with]. by rewrite lookup_insert_eq. }
  split_and!; [rewrite E1; unfold getTenantInfo; cbn; by rewrite lookup_insert_eq|by rewrite E2|].
  unfold tenantTakeOneToken, take_with. rewrite E2. cbn [Limiter Quota]. by destruct (allow_at now' 1 t2).
Qed.
