(* ===== verification/ClusterHealth.v ===== *)
(** * The health of the cluster (pkg/frontend/clusterhealth/clusterhealth.go)

    The handler asks the bus proxies one after the other until one gives a
    decisive answer. *)

From S2P Require Import Prelude GoStrings.
Open Scope string_scope.

Inductive healthyStatus := healthy | unhealthy | subhealthy | unknown.
#[global] Instance healthyStatus_eq_dec : EqDecision healthyStatus.
Proof. solve_decision. Defined.

(** The result map. *)
Record health := MkHealth { task : healthyStatus; instanceManager : healthyStatus; functionAccessor : healthyStatus }.

Definition initComponentsStatus : health := MkHealth healthy healthy healthy.

(** What a proxy answers: nothing in time, or a status with the state of its
    router etcd. *)
Inductive answer := NoAnswer | Answer (status : Z) (routerEtcdState : string).

(** The loop: the error, the map, and whether an answer was decisive. *)
Fixpoint ask (err : bool) (r : health) (answers : list answer) : bool * health * bool :=
  match answers with
  | [] => (err, r, false)
  | NoAnswer :: l => ask true r l
  | Answer st etcd :: l =>
      if (st =? 500)%Z
      then (true, MkHealth (task r) (if bool_decide (etcd = "false") then subhealthy else unhealthy) (functionAccessor r), true)
      else if (st =? 200)%Z then (false, r, true)
      else ask true r l
  end.

Definition sendClusterHealthCheckToTask (r : health) (answers : list answer) : bool * health :=
  let '(err, r, needReturn) := ask false r answers in
  if needReturn then (err, r) else (err, MkHealth unhealthy unknown (functionAccessor r)).

(** [num]: the proxies at the first look; [answers]: those of the loop. *)
Definition checkCoreComponentsHealth (num : nat) (answers : list answer) (r : health) : bool * health :=
  if bool_decide (functionAccessor r = subhealthy) then (true, r)
  else if (num =? 0)%nat then (true, MkHealth unhealthy unknown (functionAccessor r))
  else sendClusterHealthCheckToTask r answers.

(** [etcdOk]: the router etcd is in contact; [authorised]: the signature of the
    request is accepted or not asked for. The status and the body. *)
Definition CheckClusterHealth (etcdOk authorised : bool) (num : nat) (answers : list answer) : Z * option health :=
  let r := initComponentsStatus in
  let r := if etcdOk then r else MkHealth unknown unknown subhealthy in
  if negb authorised then (401%Z, None)
  else
    let '(err, r) := checkCoreComponentsHealth num answers r in
    if err then (500%Z, Some r) else (200%Z, None).

(** ** What the status means *)

Definition undecided (a : answer) : Prop := match a with NoAnswer => True | Answer st _ => st ≠ 500%Z ∧ st ≠ 200%Z end.

Lemma ask_spec err r answers :
  (∃ pre etcd post, answers = (pre ++ Answer 200 etcd :: post)%list ∧ Forall undecided pre ∧ ask err r answers = (false, r, true)) ∨
  (∃ pre etcd post, answers = (pre ++ Answer 500 etcd :: post)%list ∧ Forall undecided pre ∧
     ask err r answers = (true, MkHealth (task r) (if bool_decide (etcd = "false") then subhealthy else unhealthy) (functionAccessor r), true)) ∨
  (Forall undecided answers ∧ ask err r answers = (err || negb (bool_decide (answers = [])), r, false)).
Proof.
  revert err. induction answers as [|a l IH]; intros err; [right; right; split; [constructor|]; by rewrite orb_false_r|].
  assert (undecided a → ask err r (a :: l) = ask true r l) as Hstep.
  { destruct a as [|st etcd]; [done|]. intros [H1 H2]. cbn. destruct (Z.eqb_spec st 500), (Z.eqb_spec st 200); done. }
  assert (undecided a ∨ ∃ st etcd, a = Answer st etcd ∧ (st = 500 ∨ st = 200)%Z) as [Hu|(st & etcd & -> & Hst)].
  { destruct a as [|st etcd]; [by left|]. destruct (decide (st = 500)%Z); [right; eauto|]. destruct (decide (st = 200)%Z); [right; eauto|by left]. }
  - rewrite (Hstep Hu). destruct (IH true) as [(pre & e & post & -> & H1 & H2)|[(pre & e & post & -> & H1 & H2)|[H1 H2]]].
    + left. exists (a :: pre), e, post. by repeat constructor.
    + right; left. exists (a :: pre), e, post. by repeat constructor.
    + right; right. split; [by constructor|]. rewrite H2. cbn. by rewrite orb_true_r.
  - destruct Hst as [-> | ->]; [right; left|left]; exists [], etcd, l; by repeat constructor.
Qed.

(** The cluster is reported healthy exactly when the request is authorised, the
    router etcd is in contact, and the first proxy that answers with 200 or
    500 answers with 200 or, between the two looks, all proxies have gone; an
    error report blames the frontend, the task or the instance manager
    according to the answers. *)
Theorem cluster_health_exact etcdOk authorised num answers :
  (CheckClusterHealth etcdOk authorised num answers = (200%Z, None) ↔
     authorised = true ∧ etcdOk = true ∧ num ≠ 0%nat ∧
     ((∃ pre etcd post, answers = (pre ++ Answer 200 etcd :: post)%list ∧ Forall undecided pre) ∨ answers = [])) ∧
  (∀ r, CheckClusterHealth etcdOk authorised num answers = (500%Z, Some r) →
     (functionAccessor r = subhealthy ↔ etcdOk = false) ∧
     (task r = unhealthy ↔ etcdOk = true ∧ (num = 0%nat ∨ Forall undecided answers)) ∧
     (instanceManager r = unhealthy ∨ instanceManager r = subhealthy →
        ∃ pre etcd post, answers = (pre ++ Answer 500 etcd :: post)%list ∧ Forall undecided pre ∧ (instanceManager r = subhealthy ↔ etcd = "false"))).
Proof.
  unfold CheckClusterHealth, checkCoreComponentsHealth, sendClusterHealthCheckToTask. destruct authorised; cbn [negb]; [|split; [split; [done|by intros [[=] _]]|done]].
  destruct etcdOk; cbn.
  2: { split; [split; [done|by intros (_ & [=] & _)]|]. intros r [= <-]. cbn. split_and!; [done|split; [done|by intros [[=] _]]|by intros [[=]|[=]]]. }
  destruct (Nat.eqb_spec num 0) as [->|Hn].
  { split; [split; [done|by intros (_ & _ & ? & _)]|]. intros r [= <-]. cbn. split_and!; [done|split; [by intros _; split; [|left]|done]|by intros [[=]|[=]]]. }
  assert (∀ pre etcd post st, Forall undecided (pre ++ Answer st etcd :: post) → st = 200%Z ∨ st = 500%Z → False) as Hdec.
  { intros pre etcd post st [_ H]%Forall_app Hst. apply Forall_cons in H as [[H1 H2] _]. destruct Hst; done. }
  assert (∀ pre etcd post pre' etcd' post' st st', (pre ++ Answer st etcd :: post)%list = (pre' ++ Answer st' etcd' :: post')%list →
    Forall undecided pre → Forall undecided pre' → (st = 200 ∨ st = 500)%Z → (st' = 200 ∨ st' = 500)%Z → st = st') as Hfirst.
  { intros pre. induction pre as [|a pre IH]; intros etcd post [|a' pre'] etcd' post' st st' E H1 H2 Hs Hs'; injection E as E.
    - done.
    - subst a'. apply Forall_cons in H2 as [[? ?] _]. destruct Hs; done.
    - subst a. apply Forall_cons in H1 as [[? ?] _]. destruct Hs'; done.
    - subst a'. apply Forall_cons in H1 as [_ H1], H2 as [_ H2]. by eapply IH. }
  destruct (ask_spec false initComponentsStatus answers) as [(pre & e & post & Ha & Hu & ->)|[(pre & e & post & Ha & Hu & ->)|[Hu ->]]].
  - split; [split; [|done]|done]. intros _. split_and!; try done. left. by exists pre, e, post.
  - split; [split; [done|]|].
    + intros (_ & _ & _ & [(pre' & e' & post' & Ha' & Hu')| ->]); [|by destruct pre]. rewrite Ha in Ha'.
      by assert (500 = 200)%Z by (eapply Hfirst; eauto).
    + intros r [= <-]. cbn. split_and!; [split; done|split; [done|]|].
      * intros [_ [?|H]]; [done|]. rewrite Ha in H. by destruct (Hdec _ _ _ _ H); right.
      * intros _. exists pre, e, post. split_and!; [done..|]. case_bool_decide; done.
  - destruct answers as [|a l]; cbn.
    + split; [split; [|done]|done]. intros _. by split_and!; [..|right].
    + split; [split; [done|]|].
      * intros (_ & _ & _ & [(pre & e & post & Ha & _)|[=]]). rewrite Ha in Hu. by destruct (Hdec _ _ _ _ Hu); left.
      * intros r [= <-]. cbn. split_and!; [done|split; [by intros _; split; [|right]|done]|by intros [[=]|[=]]].
Qed.
