(* ===== verification/DataSystem.v ===== *)
(** * The client of the data system (pkg/common/faas_common/datasystemclient)

    The nodes of the data system with their states, the clients per tenant and
    node, and the operations that are tried on one node after the other. What
    the nodes answer, the random choices and the creation of clients are
    inputs. An operation takes its locks one after the other and reads the node
    that was used last without a lock: between any two of these accesses other
    goroutines act, watchers and health checks among them. *)

From S2P Require Import Prelude GoStrings.
Open Scope string_scope.

(** ** Nodes (cache.go) *)

Record Cache := MkCache { nodeList : list string; invalidMap : gset string; lastUsedNode : string }.
Definition empty_cache : Cache := MkCache [] ∅ "".

(** [delete]: the last node takes the place of the first occurrence. *)
Fixpoint replace_first (node by_ : string) (l : list string) : list string :=
  match l with
  | [] => []
  | v :: l => if bool_decide (node = v) then by_ :: l else v :: replace_first node by_ l
  end.

Definition cache_delete (node : string) (l : list string) : option (list string) :=
  if bool_decide (node ∈ l) then Some (take (length l - 1) (replace_first node (default "" (last l)) l)) else None.

Definition addNode (node : string) (c : Cache) : Cache :=
  if bool_decide (node ∈ nodeList c) then c else MkCache (nodeList c ++ [node])%list (invalidMap c) (lastUsedNode c).

Definition deleteNode (node : string) (c : Cache) : Cache :=
  match cache_delete node (nodeList c) with
  | None => c
  | Some l => MkCache l (invalidMap c ∖ {[node]}) (lastUsedNode c)
  end.

Definition isEmpty (c : Cache) : bool := bool_decide (nodeList c = []) && bool_decide (invalidMap c = ∅).
Definition ifNodeExist (node : string) (c : Cache) : bool := bool_decide (node ∈ nodeList c).

(** [rnd]: the random number. *)
Definition pick (rnd : nat) (l : list string) : option string := l !! (rnd mod length l)%nat.

Definition getRandomNode (rnd : nat) (c : Cache) : option string := pick rnd (nodeList c).

Definition getRandomNodeWithInvalidNode (rnd : nat) (invalidNodes : list string) (c : Cache) : option string :=
  if bool_decide (invalidNodes = []) then getRandomNode rnd c
  else pick rnd (filter (λ n, n ∉ invalidNodes) (nodeList c)).

(** The cache and whether a health check is started. *)
Definition invalidateNode (node : string) (c : Cache) : Cache * bool :=
  match cache_delete node (nodeList c) with
  | None => (c, false)
  | Some l => (MkCache l (invalidMap c ∪ {[node]}) (lastUsedNode c), true)
  end.

Definition checkInvalidNode (node : string) (c : Cache) : bool := bool_decide (node ∈ invalidMap c).
Definition restoreInvalidNode (node : string) (c : Cache) : Cache :=
  MkCache (nodeList c ++ [node])%list (invalidMap c ∖ {[node]}) (lastUsedNode c).

(** ** Clients (concurrent_map.go) *)

(** Clients are named by numbers; [destroyed] lists those that were destroyed. *)
Record concurrentMap := MkClients { mp : gmap string (gmap string nat); next_client : nat; destroyed : list nat }.
Definition no_clients : concurrentMap := MkClients ∅ 0 [].

Definition get (tenantID nodeIP : string) (m : concurrentMap) : option nat := mp m !! tenantID ≫= lookup nodeIP.

Definition to_destroy (c : option nat) : list nat := match c with Some c => [c] | None => [] end.

(** [NewClient] succeeds or not. *)
Definition getOrCreate (ok : bool) (tenantID nodeIP : string) (m : concurrentMap) : option nat * concurrentMap :=
  match get tenantID nodeIP m with
  | Some c => (Some c, m)
  | None =>
      let tm := default ∅ (mp m !! tenantID) in
      let mp' := <[tenantID := tm]> (mp m) in
      if ok then
        let c := next_client m in
        (Some c, MkClients (<[tenantID := <[nodeIP := c]> tm]> mp') (S c) (destroyed m ++ to_destroy (tm !! nodeIP))%list)
      else (None, MkClients mp' (next_client m) (destroyed m))
  end.

Definition deleteNodeIp (nodeIp : string) (m : concurrentMap) : concurrentMap :=
  MkClients (filter (λ kv, kv.2 ≠ ∅) (delete nodeIp <$> mp m)) (next_client m)
    (destroyed m ++ omap (λ kv, kv.2 !! nodeIp) (map_to_list (mp m)))%list.

Definition put_tenant (tenantID : string) (tm : gmap string nat) (m : gmap string (gmap string nat)) : gmap string (gmap string nat) :=
  if bool_decide (tm = ∅) then delete tenantID m else <[tenantID := tm]> m.

Definition deleteClient (tenantID nodeIP : string) (m : concurrentMap) : concurrentMap :=
  match mp m !! tenantID with
  | None => m
  | Some tm => MkClients (put_tenant tenantID (delete nodeIP tm) (mp m)) (next_client m) (destroyed m ++ to_destroy (tm !! nodeIP))%list
  end.

Definition deleteTenant (tenantID : string) (m : concurrentMap) : concurrentMap :=
  match mp m !! tenantID with
  | None => MkClients (delete tenantID (mp m)) (next_client m) (destroyed m)
  | Some tm => MkClients (delete tenantID (mp m)) (next_client m) (destroyed m ++ (map_to_list tm).*2)%list
  end.

(** ** State and health checks *)

(** A goroutine [healthCheckProcess] between a tick, its look at the invalid
    nodes, the answer of the node and the restoration. *)
Inductive probe_pc := PTick | PProbe | PRestore | PEnd.
Record probe := MkProbe { p_cache : nat; p_node : string; p_pc : probe_pc }.

(** The caches by cluster are pointers; [leaked] counts the clients that health
    checks create and nothing destroys. *)
Record world := MkWorld {
  caches : gmap nat Cache; dataSystemCache : gmap string nat; next_cache : nat;
  clientMap : concurrentMap; probes : list probe; leaked : nat }.
Definition empty_world : world := MkWorld ∅ ∅ 0 no_clients [] 0.

Definition set_caches (c : gmap nat Cache) (w : world) : world :=
  MkWorld c (dataSystemCache w) (next_cache w) (clientMap w) (probes w) (leaked w).
Definition set_clients (m : concurrentMap) (w : world) : world :=
  MkWorld (caches w) (dataSystemCache w) (next_cache w) m (probes w) (leaked w).
Definition set_probes (l : list probe) (n : nat) (w : world) : world :=
  MkWorld (caches w) (dataSystemCache w) (next_cache w) (clientMap w) l n.
Definition update_cache (a : nat) (f : Cache → Cache) (w : world) : world := set_caches (alter f a (caches w)) w.

Definition healthCheckProcess (healthy : bool) (p : probe) (w : world) : probe * world :=
  let at_ pc := MkProbe (p_cache p) (p_node p) pc in
  match caches w !! p_cache p with
  | None => (p, w)
  | Some c =>
      match p_pc p with
      | PTick => if checkInvalidNode (p_node p) c then (at_ PProbe, w) else (at_ PEnd, w)
      | PProbe => if healthy then (at_ PRestore, set_probes (probes w) (S (leaked w)) w) else (at_ PTick, w)
      | PRestore => (at_ PEnd, update_cache (p_cache p) (restoreInvalidNode (p_node p)) w)
      | PEnd => (p, w)
      end
  end.

(** ** Events of etcd *)

Definition noCluster : string := "noCluster".

Definition parseDsKey (key : string) : option (string * string) :=
  let keys := Split key "/" in
  if negb (length keys =? 5)%nat && negb (length keys =? 4)%nat then None
  else
    match Split (default "" (last keys)) ":" with
    | [ip; _] => Some (ip, if (length keys =? 5)%nat then default "" (keys !! 1%nat) else noCluster)
    | _ => None
    end.

Definition parseDsValue (value : string) : option (string * string) :=
  match Split value ";" with
  | timeStamp :: status :: _ => Some (timeStamp, status)
  | _ => None
  end.

Definition LoadOrStore (az : string) (w : world) : nat * world :=
  match dataSystemCache w !! az with
  | Some a => (a, w)
  | None =>
      let a := next_cache w in
      (a, MkWorld (<[a := empty_cache]> (caches w)) (<[az := a]> (dataSystemCache w)) (S a) (clientMap w) (probes w) (leaked w))
  end.

Definition processAddEvent (key value : string) (w : world) : world :=
  match parseDsKey key with
  | None => w
  | Some (ip, az) =>
      let '(a, w) := LoadOrStore az w in
      match parseDsValue value with
      | Some (_, status) =>
          if bool_decide (status = "ready") then update_cache a (addNode ip) w
          else set_clients (deleteNodeIp ip (clientMap w)) (update_cache a (deleteNode ip) w)
      | None => set_clients (deleteNodeIp ip (clientMap w)) (update_cache a (deleteNode ip) w)
      end
  end.

Definition processDeleteEvent (key : string) (w : world) : world :=
  match parseDsKey key with
  | None => w
  | Some (ip, az) =>
      match dataSystemCache w !! az with
      | None => w
      | Some a =>
          let w := update_cache a (deleteNode ip) w in
          let w := if default true (isEmpty <$> caches w !! a)
                   then MkWorld (caches w) (delete az (dataSystemCache w)) (next_cache w) (clientMap w) (probes w) (leaked w) else w in
          set_clients (deleteNodeIp ip (clientMap w)) w
      end
  end.

(** ** Operations (api.go, kvclient.go) *)

Record Config := MkConfig {
  TenantID : string; NodeIP : string; NoNeedGenKey : bool; NeedEncrypt : bool; KeyPrefix : string; Cluster : string; Limit : Z;
  invalidIP : list string; useLastUsedNode : bool }.

Definition set_node (ip : string) (c : Config) : Config :=
  MkConfig (TenantID c) ip (NoNeedGenKey c) (NeedEncrypt c) (KeyPrefix c) (Cluster c) (Limit c) (invalidIP c) (useLastUsedNode c).
Definition exclude (c : Config) : Config :=
  MkConfig (TenantID c) "" (NoNeedGenKey c) (NeedEncrypt c) (KeyPrefix c) (Cluster c) (Limit c) (invalidIP c ++ [NodeIP c])%list (useLastUsedNode c).

Definition shouldRetry (code : Z) : bool := bool_decide (code ∈ [6; 2003; 1000; 19; 11001; 1002; 8]%Z).

Inductive ds_error :=
| NoNode | CreateFailed | NoKey | TenantFailed | Status (code : Z) | ErrKeyNotFound | ErrValueSizeExceeded | SomeKeysFailed (keys : list string).

(** The accesses of a turn to what it shares with other goroutines. *)
Inductive point := AtLoad | AtExist | AtFirst | AtSecond | AtThird | AtChoice | AtStore | AtGet | AtCreate | AtInvalidate | AtDelete.
#[export] Instance point_eq_dec : EqDecision point.
Proof. solve_decision. Defined.

(** What happens in a turn of an operation: what others do before each of these
    accesses, the random number, whether a client can be created, what the
    client answers (a code of zero is success), and whether its last call had its
    effect on the data, which a call that failed may have as well. *)
Record turn := MkTurn {
  others : point → world → world; rnd : nat; creates : bool; tenant_ok : bool; genKey : string;
  set_code : Z; set_key : string; query_code : Z; sizes : list Z; get_code : Z; values : list string; del_code : Z; failedKeys : list string; took : bool }.

Definition cluster_of (c : Config) : string := if bool_decide (Cluster c = "") then noCluster else Cluster c.

(** The cache behind a pointer. *)
Definition cache_at (a : nat) (w : world) : Cache := default empty_cache (caches w !! a).
Definition set_last (node : string) (c : Cache) : Cache := MkCache (nodeList c) (invalidMap c) node.

(** The field is read three times, and written, without a lock. *)
Definition choose_and_store (t : turn) (a : nat) (invalidNodes : list string) (w : world) : option string * world :=
  let w := others t AtChoice w in
  match getRandomNodeWithInvalidNode (rnd t) invalidNodes (cache_at a w) with
  | Some node => (Some node, update_cache a (set_last node) (others t AtStore w))
  | None => (None, w)
  end.
Definition getLastUsedNodeWithInvalidNode (t : turn) (a : nat) (invalidNodes : list string) (w : world) : option string * world :=
  let w := others t AtFirst w in
  if bool_decide (lastUsedNode (cache_at a w) = "") then choose_and_store t a invalidNodes w
  else
    let w := others t AtSecond w in
    if bool_decide (lastUsedNode (cache_at a w) ∈ invalidNodes) then choose_and_store t a invalidNodes w
    else let w := others t AtThird w in (Some (lastUsedNode (cache_at a w)), w).

(** The node of a turn: the one in the configuration if it is listed. *)
Definition choose_node (t : turn) (a : nat) (cfg : Config) (w : world) : option string * world :=
  let w := others t AtExist w in
  if bool_decide (NodeIP cfg = "") || negb (ifNodeExist (NodeIP cfg) (cache_at a w))
  then (if useLastUsedNode cfg then getLastUsedNodeWithInvalidNode t a (invalidIP cfg) w
        else let w := others t AtChoice w in (getRandomNodeWithInvalidNode (rnd t) (invalidIP cfg) (cache_at a w), w))
  else (Some (NodeIP cfg), w).

(** A node is taken from the list, and a health check started. *)
Definition invalidate (a : nat) (ip : string) (w : world) : world :=
  match caches w !! a with
  | None => w
  | Some c =>
      let '(c, checked) := invalidateNode ip c in
      let w := set_caches (<[a := c]> (caches w)) w in
      if checked then set_probes (probes w ++ [MkProbe a ip PTick])%list (leaked w) w else w
  end.

(** The client, or the error with whether to retry; the node is in the
    configuration. *)
Definition getClient (t : turn) (cfg : Config) (w : world) : res (bool * ds_error) nat * Config * world :=
  let w := others t AtLoad w in
  match dataSystemCache w !! cluster_of cfg with
  | None => (Err (false, NoNode), cfg, w)
  | Some a =>
      let '(found, w) := choose_node t a cfg w in
      match found with
      | None => (Err (false, NoNode), set_node "" cfg, w)
      | Some ip =>
          let cfg := set_node ip cfg in
          let w := others t AtGet w in
          match get (TenantID cfg) ip (clientMap w) with
          | Some client => (Ok client, cfg, w)
          | None =>
              let w := others t AtCreate w in
              let '(r, m) := getOrCreate (creates t) (TenantID cfg) ip (clientMap w) in
              let w := set_clients m w in
              match r with
              | Some client => (Ok client, cfg, w)
              | None =>
                  let w := others t AtDelete (invalidate a ip (others t AtInvalidate w)) in
                  (Err (true, CreateFailed), cfg, set_clients (deleteClient (TenantID cfg) ip (clientMap w)) w)
              end
          end
      end
  end.

(** A turn that nobody interrupts. *)
Definition alone (t : turn) : turn :=
  MkTurn (λ _ w, w) (rnd t) (creates t) (tenant_ok t) (genKey t) (set_code t) (set_key t) (query_code t) (sizes t) (get_code t) (values t) (del_code t) (failedKeys t) (took t).

(** The state of an answer. *)
Definition checkStatus (code : Z) : res (bool * ds_error) unit :=
  if (code =? 0)%Z then Ok ()
  else if (code =? 3)%Z then Err (false, ErrKeyNotFound)
  else Err (shouldRetry code, Status code).

Definition set_status (code : Z) : res (bool * ds_error) unit :=
  if (code =? 0)%Z then Ok () else Err (shouldRetry code, Status code).

Definition getDataSystemKey (t : turn) (cfg : Config) : res ds_error (string * string) :=
  if NoNeedGenKey cfg then Ok (KeyPrefix cfg, "")
  else if bool_decide (genKey t = "") then Err NoKey else Ok (KeyPrefix cfg +:+ genKey t, genKey t).

(** What a client is asked to do. *)
Inductive call := SetWithoutKey (value : string) | KVSet (key value : string) | KVGetMulti (keys : list string) | KVGet (key : string) | KVDel (key : string) | KVDelMulti (keys : list string).

Local Open Scope go_scope.

(** The encryption functions return nothing. *)
Definition encryptData (data : string) : string := "".
Definition decryptData (data : string) : string := "".

(** An operation on a client: the call that reaches it, and the result. *)
Definition operation (A : Type) : Type := turn → Config → option call * res (bool * ds_error) A.

Definition uploadWithoutKey (value : string) : operation string := λ t cfg,
  (Some (SetWithoutKey value), let* _ := set_status (set_code t) in Ok (set_key t)).

Definition uploadWithKey (value : string) : operation string := λ t cfg,
  match getDataSystemKey t cfg with
  | Err e => (None, Err (true, e))
  | Ok (key, gen) =>
      let value := if NeedEncrypt cfg then encryptData value else value in
      if negb (tenant_ok t) then (None, Err (false, TenantFailed))
      else (Some (KVSet key value), let* _ := set_status (set_code t) in Ok gen)
  end.

Definition kvPut (value : string) : operation unit := λ t cfg,
  match getDataSystemKey t cfg with
  | Err e => (None, Err (false, e))
  | Ok (key, _) =>
      if negb (tenant_ok t) then (None, Err (false, TenantFailed))
      else (Some (KVSet key value), set_status (set_code t))
  end.

(** The sizes are summed in 64 bits. *)
Definition total_size (l : list Z) : Z := foldl (λ acc v, wrapU 64 (acc + v)) 0%Z l.

Definition downloadArray (keys : list string) : operation (list string) := λ t cfg,
  if negb (tenant_ok t) then (None, Err (false, TenantFailed))
  else
    match checkStatus (query_code t) with
    | Err e => (None, Err e)
    | Ok _ =>
        if (Limit cfg <? total_size (sizes t))%Z then (None, Err (false, ErrValueSizeExceeded))
        else (Some (KVGetMulti keys),
              let* _ := checkStatus (get_code t) in Ok (if NeedEncrypt cfg then decryptData <$> values t else values t))
    end.

Definition kvGet (key : string) : operation string := λ t cfg,
  if negb (tenant_ok t) then (None, Err (false, TenantFailed))
  else (Some (KVGet key), let* _ := checkStatus (get_code t) in Ok (default "" (head (values t)))).

Definition deleteArray (keys : list string) : operation unit := λ t cfg,
  if negb (tenant_ok t) then (None, Err (false, TenantFailed))
  else (Some (KVDelMulti keys),
        let* _ := set_status (del_code t) in match failedKeys t with [] => Ok () | l => Err (false, SomeKeysFailed l) end).

Definition kvDel (key : string) : operation unit := λ t cfg,
  if negb (tenant_ok t) then (None, Err (false, TenantFailed)) else (Some (KVDel key), set_status (del_code t)).

(** A turn: the client and then the operation; the calls with the node. *)
Definition attempt {A} (op : operation A) (t : turn) (cfg : Config) (w : world) : res (bool * ds_error) A * Config * world * list (string * call) :=
  let '(r, cfg, w) := getClient t cfg w in
  match r with
  | Err e => (Err e, cfg, w, [])
  | Ok _ => let '(c, r) := op t cfg in (r, cfg, w, match c with Some c => [(NodeIP cfg, c)] | None => [] end)
  end.

(** The loop of all the retry functions. *)
Fixpoint retry {A} (op : operation A) (fuel n : nat) (turns : nat → turn) (cfg : Config) (w : world) (log : list (string * call)) :
    option (res ds_error A * Config * world * list (string * call)) :=
  match fuel with
  | O => None
  | S fuel =>
      let '(r, cfg, w, calls) := attempt op (turns n) cfg w in
      let log := (log ++ calls)%list in
      match r with
      | Ok a => Some (Ok a, cfg, w, log)
      | Err (true, _) => retry op fuel (S n) turns (exclude cfg) w log
      | Err (false, e) => Some (Err e, cfg, w, log)
      end
  end.

Definition UploadWithoutKeyRetry (value : string) := retry (uploadWithoutKey value).
Definition UploadWithKeyRetry (value : string) := retry (uploadWithKey value).
Definition defaultDownloadLimit : Z := 32 * 1024 * 1024.
Definition with_limit (c : Config) : Config :=
  MkConfig (TenantID c) (NodeIP c) (NoNeedGenKey c) (NeedEncrypt c) (KeyPrefix c) (Cluster c)
    (if (Limit c =? 0)%Z then defaultDownloadLimit else Limit c) (invalidIP c) (useLastUsedNode c).
Definition DownloadArrayRetry (keys : list string) (fuel n : nat) (turns : nat → turn) (cfg : Config) := retry (downloadArray keys) fuel n turns (with_limit cfg).

(** The keys that [deleteArray] returns with an error. *)
Definition failed_keys (keys : list string) (e : ds_error) : list string :=
  match e with SomeKeysFailed l => l | TenantFailed => [] | _ => keys end.
Definition DeleteArrayRetry (keys : list string) (fuel n : nat) (turns : nat → turn) (cfg : Config) (w : world) (log : list (string * call)) :=
  (λ '(r, cfg, w, log), (match r with Ok _ => ([], None) | Err e => (failed_keys keys e, Some e) end, cfg, w, log))
    <$> retry (deleteArray keys) fuel n turns cfg w log.

Record Option_ := MkOption { op_TenantID : string; op_NodeIP : string; op_Cluster : string }.
Definition kv_config (key : string) (o : Option_) : Config := MkConfig (op_TenantID o) (op_NodeIP o) true false key (op_Cluster o) 0 [] true.
Definition kv_read_config (o : Option_) : Config := MkConfig (op_TenantID o) (op_NodeIP o) false false "" (op_Cluster o) 0 [] true.
Definition KVPutWithRetry (key value : string) (o : Option_) (fuel : nat) (turns : nat → turn) := retry (kvPut value) fuel 0 turns (kv_config key o).
Definition KVGetWithRetry (key : string) (o : Option_) (fuel : nat) (turns : nat → turn) := retry (kvGet key) fuel 0 turns (kv_read_config o).
Definition KVDelWithRetry (key : string) (o : Option_) (fuel : nat) (turns : nat → turn) := retry (kvDel key) fuel 0 turns (kv_read_config o).

(** ** Runs *)

(** What happens: events of etcd, operations that look for a client, steps of
    the health checks, and the end of a tenant. A turn that is interrupted is
    the sequence of its writes: the node that was used last, the client, and
    when that cannot be created the node and the client again. *)
Inductive ds_event :=
| EPut (key value : string) | EDelete (key : string) | ETurn (t : turn) (cfg : Config) | EProbe (i : nat) (healthy : bool) | ETenant (tenantID : string)
| ELastUsed (a : nat) (node : string) | ECreate (ok : bool) (tenantID nodeIP : string) | EInvalidate (a : nat) (node : string) | EDropClient (tenantID nodeIP : string).

Definition probe_step (i : nat) (healthy : bool) (w : world) : world :=
  match probes w !! i with
  | Some p => let '(p, w) := healthCheckProcess healthy p w in set_probes (<[i := p]> (probes w)) (leaked w) w
  | None => w
  end.

(** [processDataSystemEvent] and the calls of the API. *)
Definition step (w : world) (e : ds_event) : world :=
  match e with
  | EPut key value => processAddEvent key value w
  | EDelete key => processDeleteEvent key w
  | ETurn t cfg => (getClient (alone t) cfg w).2
  | EProbe i healthy => probe_step i healthy w
  | ETenant tenantID => set_clients (deleteTenant tenantID (clientMap w)) w
  | ELastUsed a node => update_cache a (set_last node) w
  | ECreate ok tenantID nodeIP => set_clients (getOrCreate ok tenantID nodeIP (clientMap w)).2 w
  | EInvalidate a node => invalidate a node w
  | EDropClient tenantID nodeIP => set_clients (deleteClient tenantID nodeIP (clientMap w)) w
  end.

(** ** The local node (fault_manager.go) *)

Definition failureThreshold : Z := 5.

(** [isShutdownFronted] after a check: the counter and whether to shut down. *)
Definition isShutdownFronted (streamEnable healthy : bool) (count : Z) : Z * bool :=
  if negb streamEnable then (count, false)
  else let count := if healthy then 0%Z else wrapS 32 (count + 1) in (count, (failureThreshold <? count)%Z).

(** [dataSystemHealthCheck] on the answers of the checks: how many were made
    when the frontend was shut down. *)
Fixpoint dataSystemHealthCheck (count : Z) (n : nat) (answers : list bool) : option nat :=
  match answers with
  | [] => None
  | healthy :: answers =>
      let '(count, down) := isShutdownFronted true healthy count in
      if down then Some (S n) else dataSystemHealthCheck count (S n) answers
  end.

(** The flags of the health check of the local node. *)
Record local_health := MkLocal { startHealthCheck : bool; healthCheckResult : bool }.

Definition initDataSystemHealthCheck (localNode ip status : string) (h : local_health) : local_health :=
  if bool_decide (localNode = "") then h
  else if negb (bool_decide (ip = localNode)) then h
  else if bool_decide (status = "ready") then MkLocal true (healthCheckResult h) else h.

Definition IsLocalDataSystemStatusReady (h : local_health) : bool := if negb (startHealthCheck h) then false else healthCheckResult h.

(** ** Streams *)

Definition StreamEndElement : string := "\xE0\xFF\xE0\xFF".

(** [processElements]: the result, whether the end was seen, and the elements
    that were acknowledged. *)
Fixpoint process_elements (elements : list (nat * string)) : string * bool * list nat :=
  match elements with
  | [] => ("", false, [])
  | (id, bytes) :: l =>
      if bool_decide (bytes = StreamEndElement) then ("", true, [id])
      else let '(r, e, acks) := process_elements l in (bytes +:+ r, e, id :: acks)
  end.

Definition processElements (elements : list (nat * string)) : string * bool * list nat :=
  let '(r, e, acks) := process_elements elements in (r +:+ String (ascii_of_nat 10) "", e, acks).

(** A pass of the loop of [receiveStream]: whether the request was cancelled or
    the connection closed, what the consumer gave ([None]: an error), whether
    the time is over, and how the result was flushed. *)
Inductive flushed := FOk | FClosed | FFailed.
#[export] Instance flushed_eq_dec : EqDecision flushed. Proof. solve_decision. Defined.
Record pass := MkPass { gone : bool; received : option (list (nat * string)); in_time : bool; flush : flushed }.

(** The function that is streamed: what was flushed, the elements acknowledged,
    and the answer that asks for another call ([None]: it still runs). *)
Fixpoint receive_loop (l : list pass) : list string * list nat * option bool :=
  match l with
  | [] => ([], [], None)
  | p :: l =>
      if gone p then ([], [], Some false)
      else
        match received p with
        | None => ([], [], Some false)
        | Some [] => if in_time p then receive_loop l else ([], [], Some false)
        | Some es =>
            let '(result, streamEnd, acks) := processElements es in
            let written := match flush p with FOk => [result] | _ => [] end in
            if bool_decide (flush p = FClosed) then (written, acks, Some true)
            else if streamEnd then (written, acks, Some false)
            else let '(w, a, r) := receive_loop l in ((written ++ w)%list, (acks ++ a)%list, r)
        end
  end.

(** [receiveStream]: the first flush sends the headers. *)
Definition receiveStream (headers_sent : bool) (l : list pass) : list string * list nat * option bool :=
  if negb headers_sent then ([], [], Some false) else receive_loop l.

(** * Properties

    Operations that are tried on one node after the other end and never ask a
    node twice, the clients that are created are kept or destroyed once, the
    nodes follow the events of etcd, and the frontend shuts down exactly after
    a run of failed checks. *)


Open Scope string_scope.

(** ** Operations on several nodes *)

Section Operations.
Variable nodes : gset string.

(** All nodes that the caches know are in [nodes]. *)
Definition within (w : world) : Prop :=
  ∀ a c, caches w !! a = Some c →
    (∀ ip, ip ∈ nodeList c → ip ∈ nodes) ∧ (lastUsedNode c = "" ∨ lastUsedNode c ∈ nodes).

(** Every node of the cluster was excluded. *)
Definition exhausted (cfg : Config) (w : world) : Prop :=
  ∀ a c, dataSystemCache w !! cluster_of cfg = Some a → caches w !! a = Some c → ∀ ip, ip ∈ nodeList c → ip ∈ invalidIP cfg.

Lemma pick_elem n l x : pick n l = Some x → x ∈ l.
Proof. intros H. exact (list_elem_of_lookup_2 _ _ _ H). Qed.

Lemma pick_none n l : pick n l = None → l = [].
Proof.
  unfold pick. intros H. destruct l as [|x l]; [done|]. apply lookup_ge_None_1 in H.
  pose proof (Nat.mod_upper_bound n (length (x :: l)) ltac:(cbn; lia)). lia.
Qed.

Lemma random_node n inv c r :
  getRandomNodeWithInvalidNode n inv c = r →
  match r with Some ip => ip ∈ nodeList c ∧ ip ∉ inv | None => ∀ ip, ip ∈ nodeList c → ip ∈ inv end.
Proof.
  unfold getRandomNodeWithInvalidNode, getRandomNode. intros <-. case_bool_decide as Hinv.
  - subst. destruct (pick n (nodeList c)) eqn:E.
    + apply pick_elem in E. split; [done|apply not_elem_of_nil].
    + apply pick_none in E. rewrite E. intros ip H. by apply elem_of_nil in H.
  - destruct (pick n _) eqn:E.
    + apply pick_elem, list_elem_of_filter in E. tauto.
    + apply pick_none in E. intros ip H. destruct (decide (ip ∈ inv)); [done|].
      assert (ip ∈ filter (λ n, n ∉ inv) (nodeList c)) as H' by (apply list_elem_of_filter; done).
      rewrite E in H'. by apply elem_of_nil in H'.
Qed.

Lemma replace_first_elem node y l x : x ∈ replace_first node y l → x = y ∨ x ∈ l.
Proof.
  induction l as [|v l IH]; cbn; [tauto|]. case_bool_decide; rewrite !elem_of_cons; [tauto|].
  intros [->|H']; [tauto|]. destruct (IH H'); tauto.
Qed.

Lemma cache_delete_elem node l l' x : cache_delete node l = Some l' → x ∈ l' → x ∈ l.
Proof.
  unfold cache_delete. case_bool_decide as Hn; [|done]. intros [= <-] Hx.
  apply elem_of_take in Hx as (i & Hx & _). apply list_elem_of_lookup_2, replace_first_elem in Hx as [->|]; [|done].
  destruct (last l) eqn:E; [by eapply last_Some_elem_of|]. apply last_None in E. subst. by apply elem_of_nil in Hn.
Qed.

Lemma within_at w a :
  within w → (∀ ip, ip ∈ nodeList (cache_at a w) → ip ∈ nodes) ∧ (lastUsedNode (cache_at a w) = "" ∨ lastUsedNode (cache_at a w) ∈ nodes).
Proof.
  intros Hw. unfold cache_at. destruct (caches w !! a) as [c|] eqn:E; [by apply (Hw a)|].
  split; [intros ip H; by apply elem_of_nil in H|by left].
Qed.

Lemma within_last w a node : within w → node ∈ nodes → within (update_cache a (set_last node) w).
Proof.
  intros Hw Hn b c. cbn. rewrite lookup_alter_Some. intros [(<- & d & Hd & ->)|[_ H]]; [|by apply (Hw b)].
  split; [apply (Hw a d Hd)|by right].
Qed.

Lemma within_invalidate w a ip : within w → within (invalidate a ip w).
Proof.
  intros Hw. unfold invalidate, invalidateNode. destruct (caches w !! a) as [c|] eqn:Ec; [|done].
  assert (within (set_caches (<[a := c]> (caches w)) w)) as Hs by (cbn; intros b d Hb; apply (Hw b d); by rewrite insert_id in Hb).
  destruct (cache_delete ip (nodeList c)) as [l|] eqn:E; [|done]. intros b d. cbn. rewrite lookup_insert_Some.
  intros [[<- <-]|[_ H]]; [|by apply (Hw b)]. destruct (Hw a c Ec) as [Hn Hl]. split; [|exact Hl].
  intros x Hx. apply Hn. by eapply cache_delete_elem.
Qed.

(** What is relied on in a turn: the nodes of the caches stay among [nodes]; an
    operation that prefers the node used last reads it while nobody writes it. *)
Definition keeps (t : turn) : Prop := ∀ p w, within w → within (others t p w).
Definition steady (t : turn) : Prop :=
  ∀ p a w, p = AtSecond ∨ p = AtThird → lastUsedNode (cache_at a (others t p w)) = lastUsedNode (cache_at a w).
(** The cache of the cluster is not replaced after it was looked up. *)
Definition fixed (t : turn) : Prop := ∀ p w, p ≠ AtLoad → dataSystemCache (others t p w) = dataSystemCache w.

Definition chosen (t : turn) (a : nat) (inv : list string) (w : world) (r : option string * world) : Prop :=
  within r.2 ∧ (fixed t → dataSystemCache r.2 = dataSystemCache w) ∧
  match r.1 with
  | Some ip => ip ∈ nodes ∧ ip ∉ inv
  | None => ∀ ip, ip ∈ nodeList (cache_at a r.2) → ip ∈ inv
  end.

Lemma choose_and_store_chosen t a inv w : keeps t → within w → chosen t a inv w (choose_and_store t a inv w).
Proof.
  intros Hk Hw. unfold choose_and_store. assert (within (others t AtChoice w)) as Hw1 by by apply Hk.
  pose proof (random_node (rnd t) inv (cache_at a (others t AtChoice w)) _ eq_refl) as H.
  destruct (getRandomNodeWithInvalidNode _ _ _) as [ip|]; unfold chosen; cbn.
  - destruct H as [Hi Hn]. assert (ip ∈ nodes) by (by apply (within_at _ a Hw1)).
    split_and!; [apply within_last; [by apply Hk|done]| |done|done]. intros Hf. by rewrite !Hf.
  - split_and!; [done| |done]. intros Hf. by rewrite Hf.
Qed.

Lemma last_used_chosen t a inv w : keeps t → steady t → within w → chosen t a inv w (getLastUsedNodeWithInvalidNode t a inv w).
Proof.
  intros Hk Hs Hw. unfold getLastUsedNodeWithInvalidNode. assert (within (others t AtFirst w)) as Hw1 by by apply Hk.
  assert (∀ w', within w' → (fixed t → dataSystemCache w' = dataSystemCache w) → chosen t a inv w (choose_and_store t a inv w')) as Hc.
  { intros w' Hw' Hd. destruct (choose_and_store_chosen t a inv w' Hk Hw') as (H1 & H2 & H3). split_and!; [done| |done].
    intros Hf. by rewrite H2, Hd. }
  case_bool_decide as E1; [apply Hc; [done|intros Hf; by rewrite Hf]|].
  set (w1 := others t AtFirst w) in *. assert (within (others t AtSecond w1)) as Hw2 by by apply Hk.
  case_bool_decide as E2; [apply Hc; [done|intros Hf; unfold w1; by rewrite !Hf]|].
  unfold chosen. cbn. split_and!; [by apply Hk|intros Hf; unfold w1; by rewrite !Hf|..].
  - destruct (within_at (others t AtThird (others t AtSecond w1)) a) as [_ [H|H]]; [by apply Hk| |done].
    rewrite (Hs AtThird), (Hs AtSecond) in H by auto. done.
  - rewrite (Hs AtThird) by auto. done.
Qed.

Lemma node_chosen t a cfg w :
  keeps t → useLastUsedNode cfg = false ∨ steady t → within w → NodeIP cfg = "" ∨ invalidIP cfg = [] →
  chosen t a (invalidIP cfg) w (choose_node t a cfg w).
Proof.
  intros Hk Hs Hw Hcfg. unfold choose_node. set (w1 := others t AtExist w). assert (within w1) as Hw1 by by apply Hk.
  destruct (bool_decide (NodeIP cfg = "") || _) eqn:E.
  - destruct (useLastUsedNode cfg).
    + destruct Hs as [?|Hs]; [done|]. destruct (last_used_chosen t a (invalidIP cfg) w1 Hk Hs Hw1) as (H1 & H2 & H3).
      split_and!; [done| |done]. intros Hf. rewrite H2 by done. unfold w1. by rewrite Hf.
    + assert (within (others t AtChoice w1)) as Hw2 by by apply Hk.
      pose proof (random_node (rnd t) (invalidIP cfg) (cache_at a (others t AtChoice w1)) _ eq_refl) as H. unfold chosen. cbn.
      split_and!; [done|intros Hf; unfold w1; by rewrite !Hf|]. destruct (getRandomNodeWithInvalidNode _ _ _); [|done].
      split; [apply (within_at _ a Hw2)|]; tauto.
  - apply orb_false_iff in E as [E1 E2]. apply bool_decide_eq_false in E1. apply negb_false_iff in E2.
    unfold ifNodeExist in E2. apply bool_decide_eq_true in E2. destruct Hcfg as [? | -> ]; [done|]. unfold chosen. cbn.
    split_and!; [done|intros Hf; unfold w1; by rewrite Hf|by apply (within_at w1 a)|apply not_elem_of_nil].
Qed.

Lemma getClient_facts t cfg w r cfg' w' :
  keeps t → useLastUsedNode cfg = false ∨ steady t → within w → NodeIP cfg = "" ∨ invalidIP cfg = [] → getClient t cfg w = (r, cfg', w') →
  within w' ∧ invalidIP cfg' = invalidIP cfg ∧ useLastUsedNode cfg' = useLastUsedNode cfg ∧
  match r with
  | Ok _ | Err (true, _) => NodeIP cfg' ∈ nodes ∧ NodeIP cfg' ∉ invalidIP cfg
  | Err (false, e) => e = NoNode ∧ (fixed t → exhausted cfg' w')
  end.
Proof.
  intros Hk Hs Hw Hcfg. unfold getClient. set (w1 := others t AtLoad w). assert (within w1) as Hw1 by by apply Hk.
  destruct (dataSystemCache w1 !! cluster_of cfg) as [a|] eqn:Ea; cycle 1.
  { intros [= <- <- <-]. split_and!; [done..|]. intros _ a c H. congruence. }
  pose proof (node_chosen t a cfg w1 Hk Hs Hw1 Hcfg) as Hc. destruct (choose_node t a cfg w1) as [found w2]. destruct Hc as (Hw2 & Hd & Hf).
  cbn in Hw2, Hd, Hf. destruct found as [ip|]; cycle 1.
  { intros [= <- <- <-]. split_and!; [done..|]. intros Hfx b c H H'. rewrite (Hd Hfx) in H.
    change (cluster_of (set_node "" cfg)) with (cluster_of cfg) in H. assert (b = a) as -> by congruence.
    unfold cache_at in Hf. by rewrite H' in Hf. }
  cbn [TenantID set_node]. assert (within (others t AtGet w2)) as Hw3 by by apply Hk. set (w3 := others t AtGet w2) in *.
  destruct (get _ ip _); [by intros [= <- <- <-]|]. assert (within (others t AtCreate w3)) as Hw4 by by apply Hk. set (w4 := others t AtCreate w3) in *.
  destruct (getOrCreate _ _ _ _) as [[client|] m]; [by intros [= <- <- <-]|].
  intros [= <- <- <-]. split_and!; [|done|done|by destruct Hf..].
  assert (within (others t AtDelete (invalidate a ip (others t AtInvalidate (set_clients m w4))))) as Hw5; [|exact Hw5].
  apply Hk, within_invalidate, Hk. exact Hw4.
Qed.

Section Retry.
Context {A : Type}.
Variables (op : operation A) (turns : nat → turn).
Hypothesis op_own : ∀ t cfg, (op t cfg).2 ≠ Err (false, NoNode).
Variable prefers : bool.
Hypothesis turns_keep : ∀ n, keeps (turns n).
Hypothesis turns_steady : prefers = false ∨ ∀ n, steady (turns n).

(** What is true when an operation has ended. *)
Definition ended (r : res ds_error A) (cfg : Config) (w : world) (log : list (string * call)) : Prop :=
  NoDup (invalidIP cfg) ∧ (∀ ip, ip ∈ invalidIP cfg → ip ∈ nodes) ∧
  NoDup (log.*1) ∧ (∀ ip, ip ∈ log.*1 → ip ∈ nodes) ∧ (r = Err NoNode → (∀ n, fixed (turns n)) → exhausted cfg w).

Lemma retry_ends fuel : ∀ n cfg w log,
  within w → useLastUsedNode cfg = prefers → NodeIP cfg = "" ∨ invalidIP cfg = [] → NoDup (invalidIP cfg) → (∀ ip, ip ∈ invalidIP cfg → ip ∈ nodes) →
  NoDup (log.*1) → (∀ ip, ip ∈ log.*1 → ip ∈ invalidIP cfg) →
  (size (nodes ∖ list_to_set (invalidIP cfg)) < fuel)%nat →
  ∃ r cfg' w' log', retry op fuel n turns cfg w log = Some (r, cfg', w', log') ∧ ended r cfg' w' log'.
Proof.
  induction fuel as [|fuel IH]; intros n cfg w log Hw Hu Hcfg Hi Hin Hl Hll Hf; [lia|]. cbn [retry]. unfold attempt.
  destruct (getClient (turns n) cfg _) as [[r cfg'] w'] eqn:E.
  apply getClient_facts in E as (Hw' & Hinv & Huse & Hr); [|apply turns_keep|rewrite Hu; destruct turns_steady as [?|H]; [by left|right; apply H]|done|done].
  assert (∀ calls, (calls = [] ∨ ∃ c, calls = [(NodeIP cfg', c)]) → NodeIP cfg' ∈ nodes ∧ NodeIP cfg' ∉ invalidIP cfg →
    NoDup ((log ++ calls).*1)%list ∧ (∀ ip, ip ∈ ((log ++ calls).*1)%list → ip ∈ invalidIP cfg ++ [NodeIP cfg'])%list) as Hlog.
  { intros calls Hc [_ Hni]. rewrite fmap_app. destruct Hc as [->|[c ->]]; cbn.
    - rewrite app_nil_r. split; [done|]. intros ip H. apply elem_of_app. auto.
    - split.
      + apply NoDup_app. split_and!; [done| |apply NoDup_singleton]. intros x Hx Hx'. apply list_elem_of_singleton in Hx'. subst. auto.
      + intros ip H. apply elem_of_app in H as [H|H]; apply elem_of_app; auto. }
  assert (∀ calls, (calls = [] ∨ ∃ c, calls = [(NodeIP cfg', c)]) → NodeIP cfg' ∈ nodes ∧ NodeIP cfg' ∉ invalidIP cfg → 
    ∃ r2 cfg2 w2 log2, retry op fuel (S n) turns (exclude cfg') w' (log ++ calls) = Some (r2, cfg2, w2, log2) ∧ ended r2 cfg2 w2 log2) as Hagain.
  { intros calls Hc [Hni Hnn]. destruct (Hlog calls Hc (conj Hni Hnn)) as [HN HE]. apply IH.
    all: unfold exclude; cbn [NodeIP invalidIP useLastUsedNode]; rewrite ?Hinv; try done.
    - by rewrite Huse.
    - by left.
    - apply NoDup_app. split_and!; [done| |apply NoDup_singleton]. intros x Hx Hx'. apply list_elem_of_singleton in Hx'. by subst.
    - intros ip H. apply elem_of_app in H as [H|H]; [auto|]. apply list_elem_of_singleton in H. by subst.
    - assert (size (nodes ∖ list_to_set (invalidIP cfg ++ [NodeIP cfg'])) < size (nodes ∖ list_to_set (invalidIP cfg)))%nat; [|lia].
      apply subset_size. rewrite list_to_set_app_L. cbn. set_solver. }
  assert (∀ calls r, (calls = [] ∨ ∃ c, calls = [(NodeIP cfg', c)]) → NodeIP cfg' ∈ nodes ∧ NodeIP cfg' ∉ invalidIP cfg → r ≠ Err NoNode →
    ended r cfg' w' (log ++ calls)) as Hstop.
  { intros calls r0 Hc Hn Hr0. destruct (Hlog calls Hc Hn) as [HN HE]. unfold ended. rewrite Hinv. split_and!; try done.
    intros ip H. apply HE, elem_of_app in H as [H|H]; [auto|]. apply list_elem_of_singleton in H. subst. tauto. }
  destruct r as [client|[[] e]].
  - destruct (op (turns n) cfg') as [c r] eqn:Eo. pose proof (op_own (turns n) cfg') as Ho. rewrite Eo in Ho. cbn in Ho.
    assert ((match c with Some c => [(NodeIP cfg', c)] | None => [] end) = [] ∨
            ∃ c', (match c with Some c => [(NodeIP cfg', c)] | None => [] end) = [(NodeIP cfg', c')]) as Hc by (destruct c; eauto).
    destruct r as [x|[[] e]].
    + do 4 eexists. split; [done|]. by apply Hstop.
    + by apply Hagain.
    + do 4 eexists. split; [done|]. apply Hstop; [done|done|]. intros [= ->]. by apply Ho.
  - apply Hagain; [by left|done].
  - destruct Hr as [-> Hex]. do 4 eexists. split; [done|]. unfold ended. rewrite Hinv, app_nil_r. split_and!; try done; [auto|intros _ Hfx; apply Hex, Hfx].
Qed.
End Retry.
End Operations.

(** C39. An operation that is retried ends: if all nodes that exist while it runs are
    in [nodes] it takes at most one turn more than there are such nodes, whatever
    the nodes answer and others do between its accesses; an operation that
    prefers the node that was used last needs that nobody writes this field
    between its reads of it. No node is tried or asked twice, and an operation
    that fails for want of a node, while the cache of its cluster was not
    replaced, has tried every node that is then listed. *)
Theorem retry_each_node_once {A} (op : operation A) (nodes : gset string) (turns : nat → turn) cfg w :
  (∀ t cfg, (op t cfg).2 ≠ Err (false, NoNode)) → (∀ n, keeps nodes (turns n)) →
  (useLastUsedNode cfg = false ∨ ∀ n, steady (turns n)) → within nodes w → invalidIP cfg = [] →
  ∃ r cfg' w' log, retry op (S (size nodes)) 0 turns cfg w [] = Some (r, cfg', w', log) ∧
    NoDup (invalidIP cfg') ∧ (∀ ip, ip ∈ invalidIP cfg' → ip ∈ nodes) ∧
    NoDup (log.*1) ∧ (∀ ip, ip ∈ log.*1 → ip ∈ nodes) ∧
    (r = Err NoNode → (∀ n, fixed (turns n)) → exhausted cfg' w').
Proof.
  intros Ho Ht Hs Hw Hcfg.
  apply (retry_ends nodes op turns Ho (useLastUsedNode cfg) Ht Hs); try rewrite Hcfg; try apply NoDup_nil_2; try (intros ip H; by apply elem_of_nil in H).
  - done.
  - done.
  - by right.
  - pose proof (subseteq_size (nodes ∖ list_to_set []) nodes ltac:(set_solver)). lia.
Qed.

(** ** The data *)

(** The values of the data system by tenant and key, and what calls do to them. *)
Abbreviation kvs := (gmap (string * string) string).

Definition apply_call (tenantID : string) (m : kvs) (c : call) : kvs :=
  match c with
  | KVSet key value => <[(tenantID, key) := value]> m
  | KVDelMulti keys => filter (λ kv, ¬ (kv.1.1 = tenantID ∧ kv.1.2 ∈ keys)) m
  | KVDel key => delete (tenantID, key) m
  | _ => m
  end.

Fixpoint effects {A} (op : operation A) (fuel n : nat) (turns : nat → turn) (cfg : Config) (w : world) (m : kvs) : kvs :=
  match fuel with
  | O => m
  | S fuel =>
      let '(r, cfg, w, calls) := attempt op (turns n) cfg w in
      let m := if took (turns n) then foldl (apply_call (TenantID cfg)) m calls.*2 else m in
      match r with Err (true, _) => effects op fuel (S n) turns (exclude cfg) w m | _ => m end
  end.

Lemma getClient_config t cfg w r cfg' w' : getClient t cfg w = (r, cfg', w') → cfg' = cfg ∨ ∃ ip, cfg' = set_node ip cfg.
Proof.
  unfold getClient. destruct (dataSystemCache _ !! _) as [a|]; [|intros [= _ <- _]; by left].
  destruct (choose_node _ _ _ _) as [[ip|] w2]; [|intros [= _ <- _]; by eauto]. cbn [TenantID set_node].
  destruct (get _ _ _); [intros [= _ <- _]; by eauto|]. destruct (getOrCreate _ _ _ _) as [[c|] m]; intros [= _ <- _]; by eauto.
Qed.

(** The configuration but for the nodes. *)
Definition same_request (c c' : Config) : Prop :=
  TenantID c' = TenantID c ∧ NoNeedGenKey c' = NoNeedGenKey c ∧ NeedEncrypt c' = NeedEncrypt c ∧ KeyPrefix c' = KeyPrefix c.
Lemma same_getClient t cfg w r cfg' w' : getClient t cfg w = (r, cfg', w') → same_request cfg cfg'.
Proof. intros [->|[ip ->]]%getClient_config; done. Qed.

(** Both loops are governed by the attempts: what is true of the data after every
    attempt that is retried, and of the result of the last one. *)
Lemma retry_data {A} (op : operation A) (turns : nat → turn) (c0 : Config) (P : kvs → Prop) (Q : A → kvs → Prop) :
  (∀ n cfg m, same_request c0 cfg → P m →
     let '(c, r) := op (turns n) cfg in
     let m' := if took (turns n) then match c with Some c => apply_call (TenantID cfg) m c | None => m end else m in
     P m' ∧ ∀ a, r = Ok a → Q a m') →
  ∀ fuel n cfg w m, same_request c0 cfg → P m →
  P (effects op fuel n turns cfg w m) ∧
  ∀ log a cfg' w' log', retry op fuel n turns cfg w log = Some (Ok a, cfg', w', log') → Q a (effects op fuel n turns cfg w m).
Proof.
  intros Hop. induction fuel as [|fuel IH]; intros n cfg w m Hc Hm; cbn [retry effects]; [done|]. unfold attempt.
  destruct (getClient (turns n) cfg w) as [[r0 cfg1] w1] eqn:E. apply same_getClient in E.
  assert (same_request c0 cfg1) as Hc1 by (unfold same_request in *; intuition congruence).
  destruct r0 as [client|[b e]].
  - specialize (Hop n cfg1 m Hc1 Hm). destruct (op (turns n) cfg1) as [c r1]. cbn in Hop. destruct Hop as [HP HQ].
    assert ((if took (turns n) then foldl (apply_call (TenantID cfg1)) m (match c with Some c => [(NodeIP cfg1, c)] | None => [] end).*2 else m) =
            if took (turns n) then match c with Some c => apply_call (TenantID cfg1) m c | None => m end else m) as -> by (by destruct c).
    destruct r1 as [a|[[] e]].
    + split; [done|]. intros log a' cfg' w' log' [= <- _ _ _]. by apply HQ.
    + destruct (IH (S n) (exclude cfg1) w1 _ Hc1 HP) as [H1 H2]. split; [exact H1|]. intros log. apply H2.
    + done.
  - cbn. replace (if took (turns n) then m else m) with m by (by destruct (took _)). destruct b; [|done].
    destruct (IH (S n) (exclude cfg1) w1 m Hc1 Hm) as [H1 H2]. split; [exact H1|]. intros log. apply H2.
Qed.

(** ** Clients *)

Definition clients_of (m : gmap string (gmap string nat)) : list nat := map_to_list m ≫= λ kv, (map_to_list kv.2).*2.

Lemma clients_insert t tm m : m !! t = None → clients_of (<[t := tm]> m) ≡ₚ ((map_to_list tm).*2 ++ clients_of m)%list.
Proof. intros H. unfold clients_of. by rewrite map_to_list_insert. Qed.

Lemma clients_split t tm m : m !! t = Some tm → clients_of m ≡ₚ ((map_to_list tm).*2 ++ clients_of (delete t m))%list.
Proof. intros H. rewrite <- (insert_delete_id m t tm H) at 1. by rewrite clients_insert by apply lookup_delete_eq. Qed.

Lemma clients_put t tm m : clients_of (put_tenant t tm m) ≡ₚ ((map_to_list tm).*2 ++ clients_of (delete t m))%list.
Proof.
  unfold put_tenant. case_bool_decide as E.
  - by rewrite E, map_to_list_empty.
  - rewrite (clients_split t tm (<[t:=tm]> m)) by apply lookup_insert_eq. by rewrite delete_insert_eq.
Qed.

Lemma tenant_delete (tm : gmap string nat) n : (map_to_list tm).*2 ≡ₚ ((map_to_list (delete n tm)).*2 ++ to_destroy (tm !! n))%list.
Proof.
  destruct (tm !! n) eqn:E; cbn.
  - rewrite <- (map_to_list_delete tm n _ E). cbn. by rewrite <- Permutation_cons_append.
  - by rewrite app_nil_r, delete_id.
Qed.

Lemma clients_delete_node n m :
  clients_of m ≡ₚ (clients_of (filter (λ kv, kv.2 ≠ ∅) (delete n <$> m)) ++ omap (λ kv, kv.2 !! n) (map_to_list m))%list.
Proof.
  induction m as [|t tm m Ht Hfirst IH] using map_first_key_ind; [done|]. rewrite fmap_insert.
  assert (omap (λ kv, kv.2 !! n) (map_to_list (<[t := tm]> m)) ≡ₚ (to_destroy (tm !! n) ++ omap (λ kv, kv.2 !! n) (map_to_list m))%list) as ->.
  { rewrite map_to_list_insert by done. cbn. by destruct (tm !! n). }
  assert (clients_of (filter (λ kv, kv.2 ≠ ∅) (<[t := delete n tm]> (delete n <$> m))) ≡ₚ
          ((map_to_list (delete n tm)).*2 ++ clients_of (filter (λ kv, kv.2 ≠ ∅) (delete n <$> m)))%list) as ->.
  { destruct (decide (delete n tm = ∅)) as [E|E].
    - rewrite map_filter_insert_False by naive_solver. rewrite delete_id by (rewrite lookup_fmap, Ht; done). by rewrite E, map_to_list_empty.
    - rewrite map_filter_insert_True by done. apply clients_insert. apply map_lookup_filter_None. left. by rewrite lookup_fmap, Ht. }
  rewrite clients_insert by done. rewrite (tenant_delete tm n), IH. solve_Permutation.
Qed.

(** Every client that was created is in the map, or was destroyed once. *)
Definition conserved (m : concurrentMap) : Prop := (clients_of (mp m) ++ destroyed m)%list ≡ₚ seq 0 (next_client m).

Lemma getOrCreate_conserved ok t n m : conserved m → conserved (getOrCreate ok t n m).2.
Proof.
  intros H. unfold getOrCreate. destruct (get t n m) eqn:E; [done|]. set (tm := default ∅ (mp m !! t)).
  assert (clients_of (mp m) ≡ₚ ((map_to_list tm).*2 ++ clients_of (delete t (mp m)))%list) as Hs.
  { unfold tm. destruct (mp m !! t) eqn:Et; [by apply clients_split|]. cbn. by rewrite delete_id. }
  assert (tm !! n = None) as Htm by (unfold tm; unfold get in E; destruct (mp m !! t); [exact E|apply lookup_empty]).
  assert (∀ x, clients_of (<[t := x]> (mp m)) ≡ₚ ((map_to_list x).*2 ++ clients_of (delete t (mp m)))%list) as Hi.
  { intros x. rewrite (clients_split t x) by apply lookup_insert_eq. by rewrite delete_insert_eq. }
  unfold conserved in *. destruct ok; cbn [snd mp next_client destroyed].
  - rewrite insert_insert_eq, Htm, Hi, map_to_list_insert by done. cbn [to_destroy fmap list_fmap]. rewrite app_nil_r, seq_S, <- H, Hs.
    cbn. solve_Permutation.
  - by rewrite Hi, <- Hs.
Qed.

Lemma deleteNodeIp_conserved n m : conserved m → conserved (deleteNodeIp n m).
Proof. unfold conserved, deleteNodeIp. cbn [mp next_client destroyed]. intros <-. rewrite (clients_delete_node n (mp m)). solve_Permutation. Qed.

Lemma deleteClient_conserved t n m : conserved m → conserved (deleteClient t n m).
Proof.
  intros H. unfold deleteClient. destruct (mp m !! t) as [tm|] eqn:E; [|done].
  unfold conserved in *. cbn [mp next_client destroyed]. rewrite clients_put, <- H, (clients_split t tm (mp m) E), (tenant_delete tm n). solve_Permutation.
Qed.

Lemma deleteTenant_conserved t m : conserved m → conserved (deleteTenant t m).
Proof.
  intros H. unfold deleteTenant. destruct (mp m !! t) as [tm|] eqn:E; unfold conserved in *; cbn [mp next_client destroyed].
  - rewrite <- H, (clients_split t tm (mp m) E). solve_Permutation.
  - by rewrite delete_id.
Qed.

Lemma invalidate_clients a ip w : clientMap (invalidate a ip w) = clientMap w.
Proof.
  unfold invalidate, invalidateNode. destruct (caches w !! a) as [c|]; [|done]. by destruct (cache_delete ip (nodeList c)).
Qed.

(** What an uninterrupted turn does to the caches: at most the field of the node
    that was used last. *)
Lemma alone_chosen t a cfg w :
  (choose_node (alone t) a cfg w).2 = w ∨ ∃ node, (choose_node (alone t) a cfg w).2 = update_cache a (set_last node) w.
Proof.
  unfold choose_node, getLastUsedNodeWithInvalidNode, choose_and_store. cbn.
  destruct (_ || _); [|by left]. destruct (useLastUsedNode cfg); [|by left].
  destruct (bool_decide (_ = "")); [|destruct (bool_decide (_ ∈ _)); [|by left]];
    destruct (getRandomNodeWithInvalidNode _ _ _); cbn; eauto.
Qed.

Lemma getClient_conserved t cfg w : conserved (clientMap w) → conserved (clientMap (getClient (alone t) cfg w).2).
Proof.
  intros H. unfold getClient. change (others (alone t)) with (λ (_ : point) (w : world), w). cbv beta zeta.
  destruct (dataSystemCache w !! _) as [a|]; [|done].
  pose proof (alone_chosen t a cfg w) as Hc. destruct (choose_node (alone t) a cfg w) as [found w2].
  assert (conserved (clientMap w2)) as H2 by (destruct Hc as [E|[? E]]; cbn in E; subst w2; exact H).
  destruct found as [ip|]; [|done]. cbn [TenantID set_node]. destruct (get _ _ _) eqn:E; [done|].
  pose proof (getOrCreate_conserved (creates (alone t)) (TenantID cfg) ip _ H2) as Hg.
  destruct (getOrCreate _ _ _ _) as [[client|] m] eqn:Eg; [exact Hg|]. cbn.
  apply deleteClient_conserved. by rewrite invalidate_clients.
Qed.

Lemma step_conserved w e : conserved (clientMap w) → conserved (clientMap (step w e)).
Proof.
  intros H. destruct e as [key value|key|t cfg|i healthy|tenant|a node|ok tenant node|a node|tenant node]; cbn [step].
  - unfold processAddEvent. destruct (parseDsKey key) as [[ip az]|]; [|done].
    assert (∀ a w', LoadOrStore az w = (a, w') → conserved (clientMap w')) as Hl.
    { intros a w'. unfold LoadOrStore. destruct (dataSystemCache w !! az); intros [= <- <-]; exact H. }
    destruct (LoadOrStore az w) as [a w'] eqn:E. specialize (Hl a w' eq_refl).
    destruct (parseDsValue value) as [[ts status]|]; [case_bool_decide|]; [exact Hl| |]; exact (deleteNodeIp_conserved _ _ Hl).
  - unfold processDeleteEvent. destruct (parseDsKey key) as [[ip az]|]; [|done]. destruct (dataSystemCache w !! az); [|done].
    cbn zeta. destruct (default true _); exact (deleteNodeIp_conserved _ _ H).
  - by apply getClient_conserved.
  - unfold probe_step, healthCheckProcess. destruct (probes w !! i) as [p|]; [|done]. destruct (caches w !! p_cache p) as [c|]; [|done].
    destruct (p_pc p), healthy, (checkInvalidNode (p_node p) c); exact H.
  - exact (deleteTenant_conserved _ _ H).
  - exact H.
  - exact (getOrCreate_conserved _ _ _ _ H).
  - by rewrite invalidate_clients.
  - exact (deleteClient_conserved _ _ _ H).
Qed.

(** In every run the clients that were created are those in the map and those
    that were destroyed: none is lost, none is destroyed twice and none that is
    in the map was destroyed. *)
Theorem clients_conserved (events : list ds_event) :
  let m := clientMap (foldl step empty_world events) in
  (clients_of (mp m) ++ destroyed m)%list ≡ₚ seq 0 (next_client m).
Proof.
  apply (foldl_inv (λ w, conserved (clientMap w))); [|constructor]. intros w e _. apply step_conserved.
Qed.

(** ** Nodes and etcd *)

Lemma cache_delete_perm node l l' : cache_delete node l = Some l' → l ≡ₚ node :: l'.
Proof.
  unfold cache_delete. case_bool_decide as Hn; [|done]. intros [= <-].
  apply list_elem_of_split_l in Hn as (l1 & l2 & -> & Hl1).
  assert (∀ y, replace_first node y (l1 ++ node :: l2) = l1 ++ y :: l2)%list as ->.
  { intros y. induction l1 as [|v l1 IH]; cbn; [by rewrite bool_decide_true|].
    rewrite bool_decide_false by (intros ->; apply Hl1; left). f_equal. apply IH. intros H. apply Hl1. by right. }
  destruct l2 as [|y l3 _] using rev_ind.
  - rewrite last_snoc. change (default "" (Some node)) with node. replace (length (l1 ++ [node]) - 1)%nat with (length l1) by (rewrite length_app; cbn; lia).
    rewrite take_app_length. solve_Permutation.
  - replace (last (l1 ++ node :: l3 ++ [y])) with (Some y) by (by rewrite app_comm_cons, app_assoc, last_snoc).
    change (default "" (Some y)) with y.
    replace (length (l1 ++ node :: l3 ++ [y]) - 1)%nat with (length (l1 ++ y :: l3)) by (rewrite !length_app; cbn; rewrite length_app; cbn; lia).
    replace (l1 ++ y :: l3 ++ [y])%list with ((l1 ++ y :: l3) ++ [y])%list by (by rewrite <- app_assoc).
    rewrite take_app_length. solve_Permutation.
Qed.

(** The nodes of a cluster. *)
Definition nodes_of (az : string) (w : world) : list string :=
  match dataSystemCache w !! az ≫= (λ a, caches w !! a) with Some c => nodeList c | None => [] end.

(** What the events say of a node: whether the last one about it was ready. *)
Definition ready (value : string) : bool := match parseDsValue value with Some (_, status) => bool_decide (status = "ready") | None => false end.
Definition listed (az ip : string) (acc : bool) (e : ds_event) : bool :=
  match e with
  | EPut key value => if bool_decide (parseDsKey key = Some (ip, az)) then ready value else acc
  | EDelete key => if bool_decide (parseDsKey key = Some (ip, az)) then false else acc
  | _ => acc
  end.

(** No client fails to be created. *)
Definition calm (e : ds_event) : Prop := match e with ETurn t _ => creates t = true | EInvalidate _ _ => False | _ => True end.

Record consistent (w : world) : Prop := {
  cs_inj : ∀ az az' a, dataSystemCache w !! az = Some a → dataSystemCache w !! az' = Some a → az = az';
  cs_some : ∀ az a, dataSystemCache w !! az = Some a → (a < next_cache w)%nat ∧ ∃ c, caches w !! a = Some c ∧ NoDup (nodeList c) ∧ invalidMap c = ∅;
  cs_probes : probes w = [] }.

Lemma nodes_update w az a f az' :
  consistent w → dataSystemCache w !! az = Some a →
  nodes_of az' (update_cache a f w) = if bool_decide (az' = az) then from_option (λ c, nodeList (f c)) [] (caches w !! a) else nodes_of az' w.
Proof.
  intros Hw Ha. unfold nodes_of. cbn. case_bool_decide as E.
  - subst. rewrite Ha. cbn. rewrite lookup_alter_eq. by destruct (caches w !! a).
  - destruct (dataSystemCache w !! az') as [b|] eqn:Eb; [|done]. cbn.
    rewrite lookup_alter_ne; [done|]. intros ->. apply E. by eapply cs_inj.
Qed.

Lemma consistent_update w az a f :
  consistent w → dataSystemCache w !! az = Some a →
  (∀ c, NoDup (nodeList c) → invalidMap c = ∅ → NoDup (nodeList (f c)) ∧ invalidMap (f c) = ∅) → consistent (update_cache a f w).
Proof.
  intros Hw Ha Hf. split; [apply Hw| |apply Hw]. intros az' b Hb. destruct (cs_some _ Hw _ _ Hb) as [Hlt (c & Hc & Hn & Hi)]. cbn. split; [done|].
  destruct (decide (a = b)) as [->|].
  - rewrite lookup_alter_eq, Hc. cbn. eexists. split; [done|]. by apply Hf.
  - rewrite lookup_alter_ne by done. eauto.
Qed.

Lemma consistent_clients w m : consistent w → consistent (set_clients m w).
Proof. intros [H1 H2 H3]. by split. Qed.

Lemma LoadOrStore_facts az w a w' :
  consistent w → LoadOrStore az w = (a, w') → consistent w' ∧ dataSystemCache w' !! az = Some a ∧ ∀ az', nodes_of az' w' = nodes_of az' w.
Proof.
  intros Hw. unfold LoadOrStore. destruct (dataSystemCache w !! az) as [b|] eqn:E; intros [= <- <-]; [done|]. split_and!.
  - split; cbn; [| |apply Hw].
    + intros az1 az2 b H1 H2. apply lookup_insert_Some in H1 as [[<- <-]|[N1 H1]]; apply lookup_insert_Some in H2 as [[<- E2]|[N2 H2]]; try done.
      * apply (cs_some _ Hw) in H2 as [? _]. lia.
      * subst. apply (cs_some _ Hw) in H1 as [? _]. lia.
      * by eapply cs_inj.
    + intros az' b H. apply lookup_insert_Some in H as [[<- <-]|[N H]].
      * split; [lia|]. exists empty_cache. rewrite lookup_insert_eq. split_and!; [done|apply NoDup_nil_2|done].
      * destruct (cs_some _ Hw _ _ H) as [Hlt Hc]. split; [lia|]. rewrite lookup_insert_ne by lia. done.
  - cbn. apply lookup_insert_eq.
  - intros az'. unfold nodes_of. cbn. destruct (decide (az = az')) as [<-|N].
    + rewrite lookup_insert_eq, E. cbn. by rewrite lookup_insert_eq.
    + rewrite lookup_insert_ne by done. destruct (dataSystemCache w !! az') as [b|] eqn:Eb; [|done]. cbn.
      apply (cs_some _ Hw) in Eb as [? _]. by rewrite lookup_insert_ne by lia.
Qed.

Lemma addNode_facts ip c : NoDup (nodeList c) → invalidMap c = ∅ → NoDup (nodeList (addNode ip c)) ∧ invalidMap (addNode ip c) = ∅.
Proof.
  intros Hn Hi. unfold addNode. case_bool_decide as E; [done|]. cbn. split; [|done].
  apply NoDup_app. split_and!; [done| |apply NoDup_singleton]. intros x Hx Hx'. apply list_elem_of_singleton in Hx'. by subst.
Qed.

Lemma addNode_elem ip c x : x ∈ nodeList (addNode ip c) ↔ x = ip ∨ x ∈ nodeList c.
Proof. unfold addNode. case_bool_decide; cbn; [naive_solver|]. rewrite elem_of_app, list_elem_of_singleton. tauto. Qed.

Lemma deleteNode_facts ip c : NoDup (nodeList c) → invalidMap c = ∅ → NoDup (nodeList (deleteNode ip c)) ∧ invalidMap (deleteNode ip c) = ∅.
Proof.
  intros Hn Hi. unfold deleteNode. destruct (cache_delete ip _) as [l|] eqn:E; [|done]. cbn. apply cache_delete_perm in E.
  rewrite E in Hn. apply NoDup_cons in Hn as [_ Hn]. split; [done|]. rewrite Hi. set_solver.
Qed.

Lemma deleteNode_elem ip c x : NoDup (nodeList c) → x ∈ nodeList (deleteNode ip c) ↔ x ≠ ip ∧ x ∈ nodeList c.
Proof.
  intros Hn. unfold deleteNode. destruct (cache_delete ip _) as [l|] eqn:E.
  - cbn. apply cache_delete_perm in E. rewrite E in Hn |- *. apply NoDup_cons in Hn as [Hni _]. rewrite elem_of_cons. naive_solver.
  - unfold cache_delete in E. case_bool_decide as Hni; [done|]. naive_solver.
Qed.

Lemma last_calm a node w :
  consistent w → consistent (update_cache a (set_last node) w) ∧ ∀ az, nodes_of az (update_cache a (set_last node) w) = nodes_of az w.
Proof.
  intros Hw. split.
  - split; [apply Hw| |apply Hw]. intros az b Hb. destruct (cs_some _ Hw _ _ Hb) as [Hlt (d & Hd & Hnd & Hid)]. cbn. split; [done|].
    destruct (decide (a = b)) as [->|]; [|rewrite lookup_alter_ne by done; eauto].
    rewrite lookup_alter_eq, Hd. by eexists.
  - intros az. unfold nodes_of. cbn. destruct (dataSystemCache w !! az) as [b|]; [|done]. cbn.
    destruct (decide (a = b)) as [->|]; [|by rewrite lookup_alter_ne]. rewrite lookup_alter_eq. by destruct (caches w !! b).
Qed.

Lemma getClient_calm t cfg w :
  consistent w → creates t = true → consistent (getClient (alone t) cfg w).2 ∧ ∀ az, nodes_of az (getClient (alone t) cfg w).2 = nodes_of az w.
Proof.
  intros Hw Ht. unfold getClient. change (others (alone t)) with (λ (_ : point) (w : world), w). cbv beta zeta.
  destruct (dataSystemCache w !! _) as [a|]; [|done].
  pose proof (alone_chosen t a cfg w) as Hc. destruct (choose_node (alone t) a cfg w) as [found w2].
  assert (consistent w2 ∧ ∀ az, nodes_of az w2 = nodes_of az w) as [H2 Hn]
    by (destruct Hc as [E|[? E]]; cbn in E; subst w2; [done|by apply last_calm]).
  destruct found as [ip|]; [|done]. cbn [TenantID set_node]. destruct (get _ _ _) eqn:Eg; [done|].
  unfold getOrCreate. rewrite Eg. change (creates (alone t)) with (creates t). rewrite Ht. cbn.
  split; [by apply consistent_clients|exact Hn].
Qed.

(** The list of nodes mirrors what was listed. *)
Definition mirrors (f : string → string → bool) (w : world) : Prop :=
  consistent w ∧ ∀ az ip, ip ∈ nodes_of az w ↔ f az ip = true.

Lemma nodes_some w az a : consistent w → dataSystemCache w !! az = Some a →
  ∃ c, caches w !! a = Some c ∧ nodes_of az w = nodeList c ∧ NoDup (nodeList c) ∧ invalidMap c = ∅.
Proof.
  intros Hw Ha. destruct (cs_some _ Hw _ _ Ha) as [_ (c & Hc & Hn & Hi)]. exists c. split_and!; try done. unfold nodes_of. by rewrite Ha; cbn; rewrite Hc.
Qed.

Lemma mirrors_update f g w az a h ip0 (b : bool) m :
  mirrors f w → dataSystemCache w !! az = Some a →
  (∀ c, NoDup (nodeList c) → invalidMap c = ∅ → NoDup (nodeList (h c)) ∧ invalidMap (h c) = ∅) →
  (∀ c x, NoDup (nodeList c) → x ∈ nodeList (h c) ↔ if bool_decide (x = ip0) then b = true else x ∈ nodeList c) →
  (∀ az' ip, g az' ip = if bool_decide (az' = az ∧ ip = ip0) then b else f az' ip) →
  mirrors g (set_clients m (update_cache a h w)).
Proof.
  intros [Hw Hf] Ha Hh He Hg. split; [by eapply consistent_clients, consistent_update|]. intros az' ip.
  change (nodes_of az' (set_clients m (update_cache a h w))) with (nodes_of az' (update_cache a h w)).
  rewrite (nodes_update w az a h az' Hw Ha), Hg. destruct (nodes_some _ _ _ Hw Ha) as (c & Hc & Hn & Hd & _).
  case_bool_decide as E1.
  - subst az'. rewrite Hc. cbn. rewrite He by done. case_bool_decide as E2.
    + subst. by rewrite bool_decide_true.
    + rewrite bool_decide_false by tauto. by rewrite <- Hf, Hn.
  - rewrite bool_decide_false by tauto. apply Hf.
Qed.

Lemma mirrors_ext f g w : (∀ az ip, f az ip = g az ip) → mirrors f w → mirrors g w.
Proof. intros H [Hw Hf]. split; [done|]. intros az ip. rewrite <- H. apply Hf. Qed.

Lemma mirrors_drop f w az a : mirrors f w → dataSystemCache w !! az = Some a → default true (isEmpty <$> caches w !! a) = true →
  mirrors f (MkWorld (caches w) (delete az (dataSystemCache w)) (next_cache w) (clientMap w) (probes w) (leaked w)).
Proof.
  intros [Hw Hf] Ha Hempty. destruct (nodes_some _ _ _ Hw Ha) as (c & Hc & Hn & _). rewrite Hc in Hempty. cbn in Hempty.
  apply andb_prop in Hempty as [Hempty _]. apply bool_decide_eq_true in Hempty. split.
  - split; cbn; [| |apply Hw].
    + intros az1 az2 b H1 H2. apply lookup_delete_Some in H1 as [_ H1], H2 as [_ H2]. by eapply cs_inj.
    + intros az1 b H1. apply lookup_delete_Some in H1 as [_ H1]. by apply (cs_some _ Hw az1).
  - intros az' ip. rewrite <- Hf. unfold nodes_of at 1. cbn. destruct (decide (az = az')) as [<-|N].
    + rewrite lookup_delete_eq. cbn. by rewrite Hn, Hempty.
    + by rewrite lookup_delete_ne.
Qed.

Lemma delete_elem ip0 c x : NoDup (nodeList c) → x ∈ nodeList (deleteNode ip0 c) ↔ if bool_decide (x = ip0) then false = true else x ∈ nodeList c.
Proof. intros H. rewrite deleteNode_elem by done. case_bool_decide; naive_solver. Qed.

Lemma add_elem ip0 c x : NoDup (nodeList c) → x ∈ nodeList (addNode ip0 c) ↔ if bool_decide (x = ip0) then true = true else x ∈ nodeList c.
Proof. intros H. rewrite addNode_elem. case_bool_decide; naive_solver. Qed.

Lemma same_key key ip0 az0 az ip : parseDsKey key = Some (ip0, az0) →
  bool_decide (parseDsKey key = Some (ip, az)) = bool_decide (az = az0 ∧ ip = ip0).
Proof. intros ->. apply bool_decide_ext. naive_solver. Qed.

Lemma step_mirrors f w e : calm e → mirrors f w → mirrors (λ az ip, listed az ip (f az ip) e) (step w e).
Proof.
  intros Hc Hm. destruct e as [key value|key|t cfg|i healthy|tenant|a node|ok tenant node|a node|tenant node]; cbn [step listed].
  - unfold processAddEvent. destruct (parseDsKey key) as [[ip0 az0]|] eqn:Ek; [|exact Hm].
    destruct (LoadOrStore az0 w) as [a w'] eqn:El. apply LoadOrStore_facts in El as (Hw' & Ha & Hn); [|apply Hm].
    assert (mirrors f w') as Hm' by (split; [done|]; intros az ip; rewrite Hn; apply Hm).
    assert (∀ b, ready value = b → ∀ az ip, (if bool_decide (Some (ip0, az0) = Some (ip, az)) then ready value else f az ip) =
                 if bool_decide (az = az0 ∧ ip = ip0) then b else f az ip) as Hg.
    { intros b <- az ip. rewrite <- Ek. by rewrite (same_key _ _ _ _ _ Ek). }
    destruct (parseDsValue value) as [[ts status]|] eqn:Ev.
    + case_bool_decide as Es.
      * apply (mirrors_update f _ w' az0 a (addNode ip0) ip0 true (clientMap w') Hm' Ha (addNode_facts ip0) (add_elem ip0)).
        apply (Hg true). unfold ready. by rewrite Ev, bool_decide_true.
      * apply (mirrors_update f _ w' az0 a (deleteNode ip0) ip0 false _ Hm' Ha (deleteNode_facts ip0) (delete_elem ip0)).
        apply (Hg false). unfold ready. by rewrite Ev, bool_decide_false.
    + apply (mirrors_update f _ w' az0 a (deleteNode ip0) ip0 false _ Hm' Ha (deleteNode_facts ip0) (delete_elem ip0)).
      apply (Hg false). unfold ready. by rewrite Ev.
  - unfold processDeleteEvent. destruct (parseDsKey key) as [[ip0 az0]|] eqn:Ek; [|exact Hm].
    assert (∀ az ip, (if bool_decide (Some (ip0, az0) = Some (ip, az)) then false else f az ip) = if bool_decide (az = az0 ∧ ip = ip0) then false else f az ip) as Hg.
    { intros az ip. rewrite <- Ek. by rewrite (same_key _ _ _ _ _ Ek). }
    destruct (dataSystemCache w !! az0) as [a|] eqn:Ea.
    + pose proof (mirrors_update f _ w az0 a (deleteNode ip0) ip0 false (clientMap w) Hm Ea (deleteNode_facts ip0) (delete_elem ip0) Hg) as Hu.
      cbn zeta. destruct (default true _) eqn:Ee; [apply mirrors_drop with (az := az0) (a := a) in Hu; [|done|exact Ee]|];
        (split; [apply consistent_clients; apply Hu|apply Hu]).
    + split; [apply Hm|]. intros az ip. rewrite Hg. case_bool_decide as E; [|apply Hm]. destruct E as [-> ->].
      split; [|done]. unfold nodes_of. rewrite Ea. cbn. intros E. by apply elem_of_nil in E.
  - destruct (getClient_calm t cfg w (proj1 Hm) Hc) as [H1 H2]. split; [exact H1|]. intros az ip. rewrite H2. apply Hm.
  - unfold probe_step. rewrite (cs_probes _ (proj1 Hm)). exact Hm.
  - destruct Hm. by split; [apply consistent_clients|].
  - destruct (last_calm a node w (proj1 Hm)) as [H1 H2]. split; [exact H1|]. intros az ip. rewrite H2. apply Hm.
  - destruct Hm. by split; [apply consistent_clients|].
  - done.
  - destruct Hm. by split; [apply consistent_clients|].
Qed.

(** C37. While no client fails to be created the nodes of every cluster are exactly
    those whose last event in etcd says that they are ready, each listed once,
    whatever operations run in between. *)
Theorem nodes_follow_etcd (events : list ds_event) (az ip : string) :
  Forall calm events →
  NoDup (nodes_of az (foldl step empty_world events)) ∧
  (ip ∈ nodes_of az (foldl step empty_world events) ↔ foldl (listed az ip) false events = true).
Proof.
  intros Hc. assert (∀ f w, mirrors f w → mirrors (λ az ip, foldl (listed az ip) (f az ip) events) (foldl step w events)) as H.
  { induction Hc as [|e events He _ IH]; intros f w Hm; [exact Hm|]. cbn. exact (IH _ _ (step_mirrors f w e He Hm)). }
  destruct (H (λ _ _, false) empty_world) as [Hw Hm].
  - split; [by split|]. intros az' ip'. split; [|done]. intros E. by apply elem_of_nil in E.
  - split; [|apply Hm]. unfold nodes_of. destruct (dataSystemCache _ !! az) as [a|] eqn:Ea; [|apply NoDup_nil_2].
    destruct (nodes_some _ _ _ Hw Ea) as (c & Hcc & _ & Hn & _). cbn. by rewrite Hcc.
Qed.

(** ** Shutdown *)

(** How many checks failed since the last that succeeded. *)
Definition failures (answers : list bool) : nat := foldl (λ n (h : bool), if h then 0%nat else S n) 0%nat answers.

Lemma health_check_from count n answers k :
  (0 ≤ count ≤ 5)%Z →
  dataSystemHealthCheck count n answers = Some k ↔
  (∃ j, (0 < j ≤ length answers)%nat ∧ k = (n + j)%nat ∧ foldl (λ n (h : bool), if h then 0%nat else S n) (Z.to_nat count) (take j answers) = 6%nat ∧
    ∀ i, (i < j)%nat → foldl (λ n (h : bool), if h then 0%nat else S n) (Z.to_nat count) (take i answers) ≠ 6%nat).
Proof.
  revert count n. induction answers as [|h answers IH]; intros count n Hb; cbn [dataSystemHealthCheck].
  { split; [done|]. intros (j & Hj & _). cbn in Hj. lia. }
  unfold isShutdownFronted. cbn [negb]. set (count' := if h then 0%Z else wrapS 32 (count + 1)).
  assert (count' = if h then 0 else count + 1)%Z as Hcount.
  { unfold count'. destruct h; [done|]. apply wrapS_small; cbn; lia. }
  assert (∀ j, foldl (λ n (h : bool), if h then 0%nat else S n) (Z.to_nat count) (take (S j) (h :: answers)) =
               foldl (λ n (h : bool), if h then 0%nat else S n) (Z.to_nat count') (take j answers)) as Hfold.
  { intros j. cbn. f_equal. rewrite Hcount. destruct h; [done|]. lia. }
  clearbody count'. assert (0 ≤ count' ≤ 6)%Z by (destruct h; lia).
  destruct (failureThreshold <? count')%Z eqn:E; unfold failureThreshold in E.
  - apply Z.ltb_lt in E. assert (Z.to_nat count' = 6%nat) as H6 by lia. split.
    + intros [= <-]. exists 1%nat. split_and!; [lia|cbn; lia|lia|by rewrite Hfold|]. intros i Hi. assert (i = 0%nat) as -> by lia. cbn. lia.
    + intros (j & Hj & -> & Hs & Hmin). destruct (decide (j = 1%nat)) as [->|]; [by rewrite Nat.add_1_r|].
      destruct (Hmin 1%nat); [lia|]. by rewrite Hfold.
  - apply Z.ltb_ge in E. rewrite (IH count' (S n)) by lia. split.
    + intros (j & Hj & -> & Hs & Hmin). exists (S j). split_and!; [lia|cbn; lia|lia|by rewrite Hfold|].
      intros [|i] Hi; [cbn; lia|]. rewrite Hfold. apply Hmin. lia.
    + intros (j & Hj & -> & Hs & Hmin). destruct j as [|j]; [lia|]. rewrite Hfold in Hs. exists j. split_and!; [|cbn in Hj; lia|lia|done|].
      * destruct j; [|cbn in Hj; lia]. cbn [take firstn foldl] in Hs. rewrite take_0 in Hs. cbn [foldl] in Hs. lia.
      * intros i Hi. rewrite <- Hfold. apply Hmin. lia.
Qed.

(** The frontend is shut down by the check that is the sixth in a row to fail,
    and by no earlier one; the counter of thirty-two bits does not overflow. *)
Theorem shutdown_after_six (answers : list bool) (k : nat) :
  dataSystemHealthCheck 0 0 answers = Some k ↔
  (0 < k ≤ length answers)%nat ∧ failures (take k answers) = 6%nat ∧ ∀ i, (i < k)%nat → failures (take i answers) ≠ 6%nat.
Proof.
  rewrite (health_check_from 0 0 answers k) by lia. cbn [Nat.add Z.to_nat]. unfold failures. split.
  - by intros (j & Hj & -> & Hs & Hmin).
  - intros (Hk & Hs & Hmin). by exists k.
Qed.

(** ** Streams *)

(** The elements before the end element, with it. *)
Fixpoint until_end (l : list (nat * string)) : list (nat * string) :=
  match l with
  | [] => []
  | (id, b) :: l => if bool_decide (b = StreamEndElement) then [(id, b)] else (id, b) :: until_end l
  end.

Definition data_of (l : list (nat * string)) : string := foldr (λ e s, (if bool_decide (e.2 = StreamEndElement) then "" else e.2) +:+ s) "" l.

Lemma process_elements_exact l : process_elements l = (data_of (until_end l), bool_decide (StreamEndElement ∈ l.*2), (until_end l).*1).
Proof.
  induction l as [|[id b] l IH]; [done|]. cbn [process_elements until_end]. destruct (decide (b = StreamEndElement)) as [->|E].
  - rewrite !bool_decide_true; [|apply elem_of_cons; by left|done]. cbn. by rewrite bool_decide_true.
  - rewrite (bool_decide_false (b = _)), IH by done. cbn. rewrite (bool_decide_false (b = _)) by done.
    do 2 f_equal. apply bool_decide_ext. rewrite elem_of_cons. naive_solver.
Qed.

(** What [processElements] gives: the data before the end element and a newline,
    whether the end was seen, and the acknowledgements in order. *)
Lemma processElements_exact l :
  processElements l = (data_of (until_end l) +:+ String (ascii_of_nat 10) "", bool_decide (StreamEndElement ∈ l.*2), (until_end l).*1).
Proof. unfold processElements. by rewrite process_elements_exact. Qed.

(** The passes that are made before the stream ends. *)
Definition batch (p : pass) : list (nat * string) := default [] (received p).

(** While flushes succeed, the elements that are acknowledged are those whose
    data was written: batches in order, each up to the end element. *)
Lemma stream_written l written acks r :
  (∀ p, p ∈ l → flush p = FOk) → receive_loop l = (written, acks, r) →
  ∃ batches : list (list (nat * string)), written = (λ b, data_of (until_end b) +:+ String (ascii_of_nat 10) "") <$> batches ∧
    acks = (batches ≫= λ b, (until_end b).*1)%list ∧ batches `sublist_of` (batch <$> l) ∧ r ≠ Some true.
Proof.
  revert written acks r. induction l as [|p l IH]; intros written acks r Hf; cbn [receive_loop].
  { intros [= <- <- <-]. by exists []. }
  specialize (λ w a r, IH w a r (λ q Hq, Hf q ltac:(by right))).
  destruct (gone p). { intros [= <- <- <-]. exists []. split_and!; [done|done|apply sublist_nil_l|done]. }
  destruct (received p) as [[|e es]|] eqn:Er; cycle 2.
  { intros [= <- <- <-]. exists []. split_and!; [done|done|apply sublist_nil_l|done]. }
  { destruct (in_time p).
    - intros H. destruct (IH _ _ _ H) as (bs & H1 & H2 & H3 & H4). exists bs. split_and!; try done. cbn. by apply sublist_cons.
    - intros [= <- <- <-]. exists []. split_and!; [done|done|apply sublist_nil_l|done]. }
  rewrite processElements_exact, (Hf p) by left. rewrite bool_decide_false by done. destruct (bool_decide (StreamEndElement ∈ _)).
  - intros [= <- <- <-]. exists [e :: es]. cbn. split_and!; [done|by rewrite app_nil_r| |done].
    unfold batch at 1. rewrite Er. cbn. apply sublist_skip, sublist_nil_l.
  - destruct (receive_loop l) as [[w a] r'] eqn:E. intros [= <- <- <-]. destruct (IH _ _ _ eq_refl) as (bs & -> & -> & H3 & H4).
    exists ((e :: es) :: bs). split_and!; [done|done| |done]. cbn [fmap list_fmap]. unfold batch at 1. rewrite Er. by apply sublist_skip.
Qed.

(** ** Witnesses *)

Definition key1 : string := "/datasystem/cluster/10.0.0.1:31501".
Definition key2 : string := "/datasystem/cluster/10.0.0.2:31501".
Definition key3 : string := "/datasystem/cluster/10.0.0.3:31501".
Definition three : world := foldl step empty_world [EPut key1 "7;ready"; EPut key2 "7;ready;host"; EPut key3 "7;ready"].
Definition answer (creates : bool) (code : Z) : turn := MkTurn (λ _ w, w) 0 creates true "k" code "k" code [] code [] code [] true.

(** The first node is busy, the second cannot be reached, the third stores the
    value. *)
Definition put_turns (n : nat) : turn := match n with 0%nat => answer true 1002 | 1%nat => answer false 0 | _ => answer true 0 end.
Definition put_config : Config := kv_config "key" (MkOption "tenant" "" "").

Lemma kvPut_own value t cfg : (kvPut value t cfg).2 ≠ Err (false, NoNode).
Proof.
  unfold kvPut, getDataSystemKey, set_status. destruct (NoNeedGenKey cfg), (bool_decide (genKey t = "")), (tenant_ok t), (set_code t =? 0)%Z; done.
Qed.

Lemma retry_each_node_once_witness :
  ∃ r cfg' w' log, retry (kvPut "value") 4 0 put_turns put_config three [] = Some (r, cfg', w', log) ∧ r = Ok () ∧
    invalidIP cfg' = ["10.0.0.1"; "10.0.0.2"] ∧ log = [("10.0.0.1", KVSet "key" "value"); ("10.0.0.3", KVSet "key" "value")] ∧
    NoDup (invalidIP cfg') ∧ NoDup (log.*1).
Proof.
  assert (caches three = <[0%nat := MkCache ["10.0.0.1"; "10.0.0.2"; "10.0.0.3"] ∅ ""]> ∅) as Hc by (vm_compute; reflexivity).
  destruct (retry_each_node_once (kvPut "value") {["10.0.0.1"; "10.0.0.2"; "10.0.0.3"]} put_turns put_config three)
    as (r & cfg' & w' & log & Hr & H1 & _ & H2 & _).
  - exact (kvPut_own "value").
  - intros [|[|n]] p w Hw; exact Hw.
  - right. by intros [|[|n]] p a w.
  - intros a c H. rewrite Hc in H. apply lookup_insert_Some in H as [[_ <-]|[_ H]]; [|by rewrite lookup_empty in H]. cbn. split; [set_solver|by left].
  - done.
  - exists r, cfg', w', log. assert (S (size ({["10.0.0.1"; "10.0.0.2"; "10.0.0.3"]} : gset string)) = 4%nat) as Hs by (vm_compute; reflexivity).
    rewrite Hs in Hr. split; [exact Hr|].
    assert ((λ '(r, cfg, w, log), (r, invalidIP cfg, log)) <$> retry (kvPut "value") 4 0 put_turns put_config three [] =
      Some (Ok (), ["10.0.0.1"; "10.0.0.2"], [("10.0.0.1", KVSet "key" "value"); ("10.0.0.3", KVSet "key" "value")])) as He by (vm_compute; reflexivity).
    rewrite Hr in He. cbn in He. injection He as -> Hi ->. by split_and!.
Defined.

Lemma nodes_follow_etcd_witness :
  NoDup (nodes_of noCluster three) ∧ ("10.0.0.2" ∈ nodes_of noCluster three).
Proof.
  assert (Forall calm [EPut key1 "7;ready"; EPut key2 "7;ready;host"; EPut key3 "7;ready"]) as Hc by (repeat constructor).
  destruct (nodes_follow_etcd [EPut key1 "7;ready"; EPut key2 "7;ready;host"; EPut key3 "7;ready"] noCluster "10.0.0.2" Hc) as [H1 H2].
  split; [exact H1|]. apply H2. vm_compute. reflexivity.
Defined.

(** ** Behaviours *)

Definition probe3 : list ds_event := [EProbe 0 true; EProbe 0 true; EProbe 0 true].

(** A node that was invalidated is not removed by its deletion: the health check
    lists it again. *)
Lemma deleted_invalid_node_returns :
  nodes_of noCluster (foldl step empty_world ([EPut key1 "7;ready"; ETurn (answer false 0) put_config; EDelete key1] ++ probe3)) = ["10.0.0.1"].
Proof. vm_compute. reflexivity. Qed.

(** A node that becomes ready while it is checked is listed twice. *)
Lemma restored_node_twice :
  nodes_of noCluster (foldl step empty_world ([EPut key1 "7;ready"; ETurn (answer false 0) put_config; EPut key1 "8;ready"] ++ probe3)) = ["10.0.0.1"; "10.0.0.1"].
Proof. vm_compute. reflexivity. Qed.

(** A node that was deleted is used while it is the last one that was used. *)
Lemma deleted_node_is_used :
  (getClient (answer true 0) put_config (foldl step three [ETurn (answer true 0) put_config; EDelete key1])).1 = (Ok 1%nat, set_node "10.0.0.1" put_config).
Proof. vm_compute. reflexivity. Qed.

(** Other operations store the node they use while this one reads the field: it
    compares one node and returns another, which it has tried before. *)
Definition racing : turn :=
  MkTurn (λ p, match p with
               | AtSecond => update_cache 0 (set_last "10.0.0.2")
               | AtThird => update_cache 0 (set_last "10.0.0.1")
               | _ => λ w, w
               end) 0 true true "k" 0 "k" 0 [] 0 [] 0 [] true.
Theorem tried_node_returns :
  (λ '(_, cfg, _, log), (invalidIP cfg, log.*1)) <$>
    retry (kvPut "value") 2 0 (λ n, if (n =? 0)%nat then answer true 1002 else racing) put_config three [] =
  Some (["10.0.0.1"], ["10.0.0.1"; "10.0.0.1"]).
Proof. vm_compute. reflexivity. Qed.

(** The client that a health check creates stays. *)
Lemma health_check_leaks :
  leaked (foldl step empty_world ([EPut key1 "7;ready"; ETurn (answer false 0) put_config] ++ probe3)) = 1%nat.
Proof. vm_compute. reflexivity. Qed.

(** With encryption nothing is stored and nothing is read. *)
Lemma encryption_loses_data value t cfg c r :
  NeedEncrypt cfg = true → uploadWithKey value t cfg = (Some c, r) → ∃ key, c = KVSet key "".
Proof.
  intros He. unfold uploadWithKey. rewrite He. destruct (getDataSystemKey t cfg) as [[key gen]|]; [|done].
  destruct (negb (tenant_ok t)); [done|]. intros [= <- _]. by exists key.
Qed.

(** Elements whose flush failed were acknowledged, and are lost. *)
Lemma failed_flush_loses_elements :
  receive_loop [MkPass false (Some [(1%nat, "a")]) true FFailed; MkPass false (Some [(2%nat, StreamEndElement)]) true FOk] = ([String (ascii_of_nat 10) ""], [1; 2]%nat, Some false).
Proof. vm_compute. reflexivity. Qed.

(** When the connection is closed the function asks to be called again although
    the consumer is closed. *)
Lemma closed_connection_asks_again : (receive_loop [MkPass false (Some [(1%nat, "a")]) true FClosed]).2 = Some true.
Proof. vm_compute. reflexivity. Qed.
