(* ===== verification/LocalData.v ===== *)
(** * The local data system (datasystemclient/api.go, api/datasystem/handler.go)

    Objects, references and values that clients put, get and delete through the
    libruntime of the frontend, and the handlers of their requests. The messages
    of protobuf are read and written by functions that are parameters; the
    answers of the libruntime are inputs. *)

From S2P Require Import Prelude GoStrings.
Open Scope string_scope.

(** ** Messages (protobuf/data_service.proto) *)

(** A field of bytes, or a repeated one, can be nil. *)
Record PutRequest := MkPut { put_ObjectId : string; put_ObjectData : option string; put_WriteMode : Z; put_ConsistencyType : Z; put_NestedObjectIds : list string; put_CacheType : Z }.
Record GetRequest := MkGet { get_ObjectIds : option (list string); get_TimeoutMs : Z }.
Record RefRequest := MkRef { ref_ObjectIds : option (list string); ref_RemoteClientId : string }.
Record KvSetRequest := MkKvSet { set_Key : string; set_Value : option string; set_Existence : Z; set_WriteMode : Z; set_TtlSecond : Z; set_CacheType : Z }.
Record KvMSetTxRequest := MkKvMSetTx {
  mset_Keys : option (list string); mset_Values : option (list string); mset_Existence : Z; mset_WriteMode : Z; mset_TtlSecond : Z; mset_CacheType : Z }.
Record KvGetRequest := MkKvGet { kvget_Keys : option (list string); kvget_TimeoutMs : Z }.
Record KvDelRequest := MkKvDel { kvdel_Keys : option (list string) }.

Record SetParam := MkParam { WriteMode : Z; TTLSecond : Z; Existence : Z; CacheType : Z }.

(** ** Calls of the libruntime *)

Inductive rt_call :=
| SetTenantID (tenantID : string)
| PutRaw (id : string) (value : option string) (writeMode consistencyType cacheType : Z) (nested : list string)
| GetRaw (ids : option (list string)) (timeoutMs : Z)
| GIncreaseRefRaw (ids : option (list string)) (remoteClientId : string)
| GDecreaseRefRaw (ids : option (list string)) (remoteClientId : string)
| KVSet (key : string) (value : option string) (param : SetParam)
| KVMSetTx (keys values : option (list string)) (param : SetParam)
| KVGetMulti (keys : option (list string)) (timeoutMs : Z)
| KVDelMulti (keys : option (list string)).

(** An error is an [api.ErrorInfo], or of another type. *)
Inductive go_err := ErrorInfo (code : Z) (msg : string) | OtherErr (msg : string).
Definition error_text (e : go_err) : string := match e with ErrorInfo _ m | OtherErr m => m end.

(** The answers: whether there is a libruntime, and the results of
    [SetTenantID] and of the operation. *)
Record runtime := MkRuntime { no_runtime : bool; tenant_err : option go_err; op_values : list string; op_err : option go_err }.

(** The tenant is set before the operation, on the same thread. *)
Definition raw (rt : runtime) (tenantID : string) (c : rt_call) : list rt_call * (list string * option go_err) :=
  match tenant_err rt with
  | Some e => ([SetTenantID tenantID], ([], Some e))
  | None => ([SetTenantID tenantID; c], (op_values rt, op_err rt))
  end.

Definition putRaw (rt : runtime) (req : PutRequest) (tenantID : string) :=
  raw rt tenantID (PutRaw (put_ObjectId req) (put_ObjectData req) (put_WriteMode req) (put_ConsistencyType req) (put_CacheType req) (put_NestedObjectIds req)).
Definition getRaw (rt : runtime) (req : GetRequest) (tenantID : string) := raw rt tenantID (GetRaw (get_ObjectIds req) (get_TimeoutMs req)).
Definition gIncreaseRefRaw (rt : runtime) (req : RefRequest) (tenantID : string) := raw rt tenantID (GIncreaseRefRaw (ref_ObjectIds req) (ref_RemoteClientId req)).
Definition gDecreaseRefRaw (rt : runtime) (req : RefRequest) (tenantID : string) := raw rt tenantID (GDecreaseRefRaw (ref_ObjectIds req) (ref_RemoteClientId req)).
Definition kvSet (rt : runtime) (req : KvSetRequest) (tenantID : string) (param : SetParam) := raw rt tenantID (KVSet (set_Key req) (set_Value req) param).
Definition kvMSetTx (rt : runtime) (req : KvMSetTxRequest) (tenantID : string) (param : SetParam) := raw rt tenantID (KVMSetTx (mset_Keys req) (mset_Values req) param).
Definition kvGetMulti (rt : runtime) (req : KvGetRequest) (tenantID : string) := raw rt tenantID (KVGetMulti (kvget_Keys req) (kvget_TimeoutMs req)).
Definition kvDelMulti (rt : runtime) (req : KvDelRequest) (tenantID : string) := raw rt tenantID (KVDelMulti (kvdel_Keys req)).

(** ** The API *)

Record status := MkStatus { Code : Z; Err : option string }.
Definition errRPCUnavailable : Z := 1002.

(** What an operation returns: its calls, and the values with the status;
    [None] is the panic of an error that is not an [api.ErrorInfo]. *)
Definition result : Type := list rt_call * option (list string * status).

Definition to_status (r : list rt_call * (list string * option go_err)) : result :=
  let '(calls, (values, err)) := r in
  (calls, match err with
          | None => Some (values, MkStatus 0 None)
          | Some (ErrorInfo code msg) => Some (values, MkStatus code (Some msg))
          | Some (OtherErr _) => None
          end).

Definition local (rt : runtime) (r : list rt_call * (list string * option go_err)) : result :=
  if no_runtime rt then ([], Some ([], MkStatus errRPCUnavailable (Some "dsclient is nil"))) else to_status r.

(** [ObjPut], [Set] and [MSetTx] return no values. *)
Definition without_values (r : result) : result := (r.1, (λ vs, ([], vs.2)) <$> r.2).

Definition ObjPut (rt : runtime) (tenantID : string) (req : PutRequest) : result := without_values (local rt (putRaw rt req tenantID)).
Definition ObjGet (rt : runtime) (tenantID : string) (req : GetRequest) : result := local rt (getRaw rt req tenantID).
Definition GIncreaseRef (rt : runtime) (tenantID : string) (req : RefRequest) : result := local rt (gIncreaseRefRaw rt req tenantID).
Definition GDecreaseRef (rt : runtime) (tenantID : string) (req : RefRequest) : result := local rt (gDecreaseRefRaw rt req tenantID).
Definition Set_ (rt : runtime) (tenantID : string) (req : KvSetRequest) : result :=
  without_values (local rt (kvSet rt req tenantID (MkParam (set_WriteMode req) (set_TtlSecond req) (set_Existence req) (set_CacheType req)))).
Definition MSetTx (rt : runtime) (tenantID : string) (req : KvMSetTxRequest) : result :=
  without_values (local rt (kvMSetTx rt req tenantID (MkParam (mset_WriteMode req) (mset_TtlSecond req) (mset_Existence req) (mset_CacheType req)))).
Definition Get (rt : runtime) (tenantID : string) (req : KvGetRequest) : result := local rt (kvGetMulti rt req tenantID).
Definition Del (rt : runtime) (tenantID : string) (req : KvDelRequest) : result := local rt (kvDelMulti rt req tenantID).

(** ** Handlers *)

Record response := MkResponse { r_Code : Z; r_Message : string; r_Values : list string }.
Definition http : Type := nat * string.

Definition GetCompatibleGinHeader (header : string → string) (primaryHeader secondaryHeader : string) : string :=
  let v := header primaryHeader in if bool_decide (v = "") then header secondaryHeader else v.

Definition getHeaderPrams (header : string → string) : string := GetCompatibleGinHeader header "X-Tenant-Id" "tenantId".

Section Handlers.
Variable Marshal : response → option string.
Variable rt : runtime.
Variable header : string → string.

(** The response for a status: an error without a code is a success too. *)
Definition respond (ok_message : string) (values : list string) (s : status) : response :=
  MkResponse (wrapS 32 (Code s)) (if (wrapS 32 (Code s) =? 0)%Z then ok_message else default "" (Err s)) values.

Definition answer (ok_message : string) (r : result) : list rt_call * option http :=
  (r.1, (λ vs, match Marshal (respond ok_message vs.1 vs.2) with Some body => (200%nat, body) | None => (400%nat, "") end) <$> r.2).

(** The part that all handlers share: the body that was read, the message, its
    check, and the operation. *)
Definition handle {M} (Unmarshal : string → option M) (valid : M → bool) (op : string → M → result) (ok_message : string) (body : option string) :
    list rt_call * option http :=
  match body with
  | None => ([], Some (500%nat, ""))
  | Some body =>
      match Unmarshal body with
      | None => ([], Some (400%nat, ""))
      | Some msg => if negb (valid msg) then ([], Some (400%nat, "")) else answer ok_message (op (getHeaderPrams header) msg)
      end
  end.

Definition isNil {A} (o : option A) : bool := match o with None => true | Some _ => false end.
Definition isEmpty (s : string) : bool := bool_decide (s = "").

Definition PutHandler (Unmarshal : string → option PutRequest) :=
  handle Unmarshal (λ m, negb (isEmpty (put_ObjectId m) || isNil (put_ObjectData m))) (ObjPut rt) "object put success".
Definition GetHandler (Unmarshal : string → option GetRequest) :=
  handle Unmarshal (λ m, negb (isNil (get_ObjectIds m))) (ObjGet rt) "object get success".
Definition IncreaseRefHandler (Unmarshal : string → option RefRequest) :=
  handle Unmarshal (λ m, negb (isNil (ref_ObjectIds m) || isEmpty (ref_RemoteClientId m))) (GIncreaseRef rt) "increase ref success".
Definition DecreaseRefHandler (Unmarshal : string → option RefRequest) :=
  handle Unmarshal (λ m, negb (isNil (ref_ObjectIds m) || isEmpty (ref_RemoteClientId m))) (GDecreaseRef rt) "decrease ref success".
Definition KvSetHandler (Unmarshal : string → option KvSetRequest) :=
  handle Unmarshal (λ m, negb (isEmpty (set_Key m) || isNil (set_Value m))) (Set_ rt) "kv set success".
Definition KvMSetTxHandler (Unmarshal : string → option KvMSetTxRequest) :=
  handle Unmarshal
    (λ m, if isNil (mset_Keys m) || isNil (mset_Values m) then false
          else bool_decide (length (default [] (mset_Keys m)) = length (default [] (mset_Values m))))
    (MSetTx rt) "kv multi set tx success".
Definition KvGetHandler (Unmarshal : string → option KvGetRequest) :=
  handle Unmarshal (λ m, negb (isNil (kvget_Keys m))) (Get rt) "kv get success".
Definition KvDelHandler (Unmarshal : string → option KvDelRequest) :=
  handle Unmarshal (λ m, negb (isNil (kvdel_Keys m))) (Del rt) "kv del success".
End Handlers.

(** ** Properties *)

(** A call that may follow the choice of a tenant. *)
Definition well_formed (c : rt_call) : Prop :=
  match c with
  | SetTenantID _ => False
  | PutRaw id value _ _ _ _ => id ≠ "" ∧ value ≠ None
  | GetRaw ids _ => ids ≠ None
  | GIncreaseRefRaw ids client | GDecreaseRefRaw ids client => ids ≠ None ∧ client ≠ ""
  | KVSet key value _ => key ≠ "" ∧ value ≠ None
  | KVMSetTx keys values _ => ∃ ks vs, keys = Some ks ∧ values = Some vs ∧ length ks = length vs
  | KVGetMulti keys _ | KVDelMulti keys => keys ≠ None
  end.

(** The calls of a request of a tenant: none, the choice of the tenant alone if
    it fails, or the choice and one call after it. *)
Definition under_tenant (rt : runtime) (tenantID : string) (calls : list rt_call) : Prop :=
  calls = [] ∨ (calls = [SetTenantID tenantID] ∧ tenant_err rt ≠ None) ∨
  (∃ c, calls = [SetTenantID tenantID; c] ∧ tenant_err rt = None ∧ well_formed c).

Section Properties.
Variable Marshal : response → option string.
Variable rt : runtime.
Variable header : string → string.

Lemma local_under t c : well_formed c → under_tenant rt t (local rt (raw rt t c)).1.
Proof.
  intros Hc. unfold local, raw. destruct (no_runtime rt); [by left|]. right. destruct (tenant_err rt) eqn:E.
  - left. split; [done|congruence].
  - right. exists c. split_and!; done.
Qed.

Lemma handle_under {M} um valid (op : string → M → result) ok body :
  (∀ m t, valid m = true → under_tenant rt t (op t m).1) → under_tenant rt (getHeaderPrams header) (handle Marshal header um valid op ok body).1.
Proof.
  intros Hop. unfold handle. destruct body as [body|]; [|by left]. destruct (um body) as [m|]; [|by left].
  destruct (valid m) eqn:E; [|by left]. cbn. by apply Hop.
Qed.

Lemma checked_empty (s : string) {A} (o : option A) : negb (isEmpty s || isNil o) = true → s ≠ "" ∧ o ≠ None.
Proof. unfold isEmpty. case_bool_decide; [done|]. by destruct o. Qed.
Lemma checked_nil {A} (o : option A) (s : string) : negb (isNil o || isEmpty s) = true → o ≠ None ∧ s ≠ "".
Proof. rewrite orb_comm. intros H. apply checked_empty in H. tauto. Qed.
Lemma checked_some {A} (o : option A) : negb (isNil o) = true → o ≠ None.
Proof. by destruct o. Qed.

(** Every handler makes its call to the data system under the tenant of the
    request's headers: the tenant is chosen immediately before, a call is never
    made when that fails, and only requests with the required fields, and as
    many values as keys, are passed on. *)
Theorem local_data_isolated put get ref kvset mset kvget kvdel :
  Forall (λ handler : option string → list rt_call * option http, ∀ body, under_tenant rt (getHeaderPrams header) (handler body).1)
    [PutHandler Marshal rt header put; GetHandler Marshal rt header get; IncreaseRefHandler Marshal rt header ref; DecreaseRefHandler Marshal rt header ref;
     KvSetHandler Marshal rt header kvset; KvMSetTxHandler Marshal rt header mset; KvGetHandler Marshal rt header kvget; KvDelHandler Marshal rt header kvdel].
Proof.
  repeat (constructor; [intros body; apply handle_under; intros m t Hm; apply local_under; cbn|]); [..|constructor].
  - by apply checked_empty.
  - by apply checked_some.
  - by apply checked_nil.
  - by apply checked_nil.
  - by apply checked_empty.
  - destruct (mset_Keys m), (mset_Values m); try done. cbn in Hm. apply bool_decide_eq_true in Hm. eauto.
  - by apply checked_some.
  - by apply checked_some.
Qed.

End Properties.

(** Without a libruntime a request is answered with the code 1002, and no call is
    made. *)
Lemma no_libruntime_is_unavailable v e1 e2 t (m : KvGetRequest) :
  Get (MkRuntime true e1 v e2) t m = ([], Some ([], MkStatus 1002 (Some "dsclient is nil"))).
Proof. reflexivity. Qed.

(** An error that is not an [api.ErrorInfo] is a panic. *)
Lemma foreign_error_panics t (m : KvGetRequest) msg : (Get (MkRuntime false (Some (OtherErr msg)) [] None) t m).2 = None.
Proof. reflexivity. Qed.
