(* ===== verification/Jobs.v ===== *)
(** * Jobs and apps (pkg/common/job, api/job, api/app)

    A job is an instance with the name of its submission. Requests are checked,
    turned into the options of the instance that is created, and the statuses of
    apps come from the registry of instances. The creation and the signals are
    calls of the libruntime, whose answers are inputs; so is the request as it
    was bound from the body. *)

From stdpp Require Import base gmap list strings.
From S2P Require Import Prelude GoStrings Json JsonMarshal InstanceRegistry.
Open Scope string_scope.
Open Scope go_scope.

(** ** Numbers *)

(** A finite float64 is [mant * 2 ^ expo]; results are rounded to 53 bits, half
    to even. *)
Record float := MkFloat { mant : Z; expo : Z }.

Definition half_even (q r half : Z) : Z :=
  if (r <? half)%Z then q else if (half <? r)%Z then (q + 1)%Z else if Z.even q then q else (q + 1)%Z.

Definition round53 (x : float) : float :=
  let k := (Z.log2 (Z.abs (mant x)) - 52)%Z in
  if (k <=? 0)%Z then x else MkFloat (half_even (mant x / 2 ^ k) (mant x mod 2 ^ k) (2 ^ (k - 1))) (expo x + k).

Definition times (x : float) (c : Z) : float := round53 (MkFloat (mant x * c) (expo x)).
Definition ceil (x : float) : Z := if (0 <=? expo x)%Z then (mant x * 2 ^ expo x)%Z else (- (- mant x / 2 ^ (- expo x)))%Z.
Definition negative (x : float) : bool := (mant x <? 0)%Z.

Definition CpuUnitConvert : Z := 1000.

(** Thousandths of a CPU, and MiB; division by 1024 is exact. *)
Definition cpu_units (x : float) : Z := ceil (times x CpuUnitConvert).
Definition mem_units (m : Z) : Z := let x := round53 (MkFloat m 0) in ceil (MkFloat (mant x) (expo x - 20)).

(** ** Requests (common/job/config.go) *)

Record RuntimeEnv := MkEnv { WorkingDir : string; Pip : list string; EnvVars : gmap string string }.
Record SubmitRequest := MkSubmit {
  Entrypoint : string; SubmissionId : string; sr_RuntimeEnv : option RuntimeEnv; Metadata : gmap string string; Labels : string;
  CreateOptions : option (gmap string string); EntrypointResources : gmap string float; EntrypointNumCpus : float; EntrypointNumGpus : float;
  EntrypointMemory : Z; FunctionID : string }.

Definition set_id (id : string) (r : SubmitRequest) : SubmitRequest :=
  MkSubmit (Entrypoint r) id (sr_RuntimeEnv r) (Metadata r) (Labels r) (CreateOptions r) (EntrypointResources r) (EntrypointNumCpus r) (EntrypointNumGpus r)
    (EntrypointMemory r) (FunctionID r).
Definition set_labels (l : string) (r : SubmitRequest) : SubmitRequest :=
  MkSubmit (Entrypoint r) (SubmissionId r) (sr_RuntimeEnv r) (Metadata r) l (CreateOptions r) (EntrypointResources r) (EntrypointNumCpus r)
    (EntrypointNumGpus r) (EntrypointMemory r) (FunctionID r).
Definition set_options (o : option (gmap string string)) (r : SubmitRequest) : SubmitRequest :=
  MkSubmit (Entrypoint r) (SubmissionId r) (sr_RuntimeEnv r) (Metadata r) (Labels r) o (EntrypointResources r) (EntrypointNumCpus r)
    (EntrypointNumGpus r) (EntrypointMemory r) (FunctionID r).
Definition convert_units (r : SubmitRequest) : SubmitRequest :=
  MkSubmit (Entrypoint r) (SubmissionId r) (sr_RuntimeEnv r) (Metadata r) (Labels r) (CreateOptions r) (EntrypointResources r)
    (MkFloat (cpu_units (EntrypointNumCpus r)) 0) (EntrypointNumGpus r) (mem_units (EntrypointMemory r)) (FunctionID r).

Definition ValidateResources (r : SubmitRequest) : res string () :=
  if negative (EntrypointNumCpus r) then Err "entrypoint_num_cpus should not be less than 0"
  else if negative (EntrypointNumGpus r) then Err "entrypoint_num_gpus should not be less than 0"
  else if (EntrypointMemory r <? 0)%Z then Err "entrypoint_memory should not be less than 0"
  else Ok ().

Definition jobIDPrefix : string := "app-".
Definition submissionIdPattern : string := "^[a-z0-9-]{1,64}$".

Definition id_byte (c : ascii) : bool := byte_in 97 122 c || byte_in 48 57 c || byte_eq 45 c.
Fixpoint all_bytes (f : ascii → bool) (s : string) : bool := match s with EmptyString => true | String c s => f c && all_bytes f s end.
Definition matches_id (s : string) : bool := (1 <=? String.length s)%nat && (String.length s <=? 64)%nat && all_bytes id_byte s.

(** [CheckSubmissionId] with the change it makes to the request. *)
Definition CheckSubmissionId (r : SubmitRequest) : res string SubmitRequest :=
  if bool_decide (SubmissionId r = "") then Ok r
  else if Contains (SubmissionId r) "driver" then Err "submission_id should not contain 'driver'"
  else
    let id := if negb (HasPrefix (SubmissionId r) jobIDPrefix) then jobIDPrefix +:+ SubmissionId r else SubmissionId r in
    if negb (matches_id id)
    then Err ("regular expression validation error, submissionId: " +:+ id +:+ ", pattern: " +:+ submissionIdPattern +:+ ", err: <nil>")
    else Ok (set_id id r).

Definition CheckField (r : SubmitRequest) : res string SubmitRequest :=
  if bool_decide (Entrypoint r = "") then Err "entrypoint should not be empty"
  else if bool_decide (from_option WorkingDir "" (sr_RuntimeEnv r) = "") then Err "runtime_env.working_dir should not be empty"
  else let* _ := ValidateResources r in CheckSubmissionId r.

Definition NewSubmissionID (uuid : string) (r : SubmitRequest) : SubmitRequest :=
  if bool_decide (SubmissionId r = "") then set_id (jobIDPrefix +:+ uuid) r else r.

Definition AddCreateOptions (key value : string) (r : SubmitRequest) : SubmitRequest :=
  let o := default ∅ (CreateOptions r) in
  set_options (Some (if negb (bool_decide (key = "")) then <[key := value]> o else o)) r.

(** ** Responses *)

(** The values that are written as JSON. *)
Inductive payload := PNull | PMap (m : gmap string string) | PApps (l : list AppInfo) | PApp (a : AppInfo) | PText (s : string) | PBool (b : bool).
Definition http : Type := Z * payload.

Record Response := MkResponse { Code : Z; Message : string; Data : payload }.

(** The data is marshalled; that it is read back as it was is encoding/json's. *)
Definition BuildJobResponse (r : payload * Z * option string) : Response :=
  let '(data, code, err) := r in MkResponse code (default "" err) data.

Definition handle_res (ok : payload → option payload) (resp : Response) : http :=
  if negb (Code resp =? 200)%Z || negb (bool_decide (Message resp = "")) then (Code resp, PText (Message resp))
  else match ok (Data resp) with Some p => (200%Z, p) | None => (400%Z, PText "unmarshal response data failed") end.

Definition SubmitJobHandleRes : Response → http := handle_res (λ d, match d with PMap m => Some (PMap m) | PNull => Some PNull | _ => None end).
Definition ListJobsHandleRes : Response → http := handle_res (λ d, match d with PApps l => Some (PApps l) | PNull => Some PNull | _ => None end).
Definition GetJobInfoHandleRes : Response → http := handle_res (λ d, match d with PApp a => Some (PApp a) | PNull => Some PNull | _ => None end).

(** A signal that is forbidden is a success with the answer false. *)
Definition signal_res (resp : Response) : http :=
  if (Code resp =? 403)%Z then (200%Z, PBool false)
  else if negb (Code resp =? 200)%Z || negb (bool_decide (Message resp = "")) then (Code resp, PText (Message resp))
  else (200%Z, PBool true).
Definition DeleteJobHandleRes : Response → http := signal_res.
Definition StopJobHandleRes : Response → http := signal_res.

(** [ParseHeader]: the first value of every header. *)
Definition ParseHeader (header : gmap string (list string)) : gmap string string := omap head header.

Definition SubmitJobHandleReq (header : gmap string (list string)) (bound : res string SubmitRequest) : res http SubmitRequest :=
  match bound with
  | Err e => Err (400%Z, PText ("shouldBind SubmitJob request failed, err: " +:+ e))
  | Ok req =>
      match CheckField req with
      | Err e => Err (400%Z, PText e)
      | Ok req =>
          let req := convert_units req in
          let h := ParseHeader header in
          let req := match h !! "X-Tenant-Id" with Some t => AddCreateOptions "tenantId" t req | None => req end in
          Ok (match h !! "X-Pool-Label" with Some l => set_labels l req | None => req end)
      end
  end.

(** ** Apps (api/app/handler.go) *)

Record Affinity := MkAffinity { LabelKey : string; PreferredPriority : bool; PreferredAntiOtherLabels : bool }.
Definition UnUseAntiOtherLabelsKey : string := "unUseAntiOtherLabels".

Definition generateScheduleAffinity (acc : list Affinity) (label : string) : list Affinity :=
  if bool_decide (label = "") then acc
  else foldl (λ acc l, if bool_decide (TrimSpace l = UnUseAntiOtherLabelsKey) then acc
                       else (acc ++ [MkAffinity (TrimSpace l) true (negb (Contains label UnUseAntiOtherLabelsKey))])%list) acc (Split label ",").

Definition when {A} (b : bool) (f : A → A) (x : A) : A := if b then f x else x.
Definition working_dir_json (dir : string) : any := JObject [("storage_type", JString "working_dir"); ("code_path", JString dir)].

Definition buildCreateOpt (r : SubmitRequest) : gmap string string :=
  let o := <["ENTRYPOINT" := Entrypoint r]> (default ∅ (CreateOptions r)) in
  match sr_RuntimeEnv r with
  | None => o
  | Some env =>
      let o := when (negb (bool_decide (Pip env = []))) <["POST_START_EXEC" := "pip3.9 install " +:+ Join (Pip env) " " +:+ " && pip3.9 check"]> o in
      let o := when (negb (bool_decide (WorkingDir env = ""))) <["DELEGATE_DOWNLOAD" := Marshal (working_dir_json (WorkingDir env))]> o in
      let o := when (negb (bool_decide (EnvVars env = ∅))) <["DELEGATE_ENV_VAR" := Marshal_env (EnvVars env)]> o in
      when (negb (bool_decide (Metadata r = ∅))) <["USER_PROVIDED_METADATA" := Marshal_env (Metadata r)]> o
  end.

(** The instance that the libruntime is asked for. *)
Record create_call := MkCreate {
  cr_FuncName : string; cr_FuncID : string; cr_Name : string; cr_Cpu : Z; cr_Memory : Z; cr_Custom : gmap string float;
  cr_CreateOpt : gmap string string; cr_Timeout : Z; cr_Affinities : list Affinity }.

Definition AppFuncId : string := "default/0-system-faasExecutorPosixCustom/$latest".

Definition createInvokeOpts (funcID : string) (r : SubmitRequest) : create_call :=
  MkCreate "app" funcID (SubmissionId r) (ceil (EntrypointNumCpus r)) (EntrypointMemory r) (EntrypointResources r) (buildCreateOpt r) 1800
    (if negb (bool_decide (Labels r = "")) then generateScheduleAffinity [] (Labels r) else []).

Definition SubmitApp (r : SubmitRequest) (answer : res string string) : create_call * (payload * Z * option string) :=
  let functionID := if bool_decide (FunctionID r = "") then AppFuncId else FunctionID r in
  (createInvokeOpts functionID r,
   match answer with
   | Err e => (PNull, 500%Z, Some ("create app failed, submissionId:[" +:+ SubmissionId r +:+ "], err: " +:+ e))
   | Ok instanceId => (PMap {["submission_id" := instanceId]}, 200%Z, None)
   end).

Definition ListApps (r : registry) : payload * Z * option string := (PApps (ListAppsInfo r), 200%Z, None).

Definition GetAppInfo (submissionId : string) (r : registry) : payload * Z * option string :=
  match GetAppDetailsByID submissionId r with
  | Some a => (PApp a, 200%Z, None)
  | None => (PNull, 404%Z, Some ("not found app, submissionId: " +:+ submissionId +:+ ", err: failed to get appjobInfo, submissionID: " +:+ submissionId))
  end.

(** A signal to an instance. *)
Record kill := MkKill { k_id : string; k_signal : Z; k_message : string }.
Definition KillSignalVal : Z := 1.
Definition StopAppSignalVal : Z := 7.

Definition DeleteApp (submissionId : string) (r : registry) (answer : option string) : option kill * (payload * Z * option string) :=
  let status := GetAppStatusByID submissionId r in
  if bool_decide (status = "") then (None, (PText "", 404%Z, Some ("the app does not exist, submissionId:[" +:+ submissionId +:+ "]")))
  else if negb (bool_decide (status = "SUCCEEDED")) && negb (bool_decide (status = "FAILED")) && negb (bool_decide (status = "STOPPED"))
  then (None, (PText status, 403%Z, Some ("the app isn't allow to delete, submissionId:[" +:+ submissionId +:+ "], status: " +:+ status)))
  else (Some (MkKill submissionId KillSignalVal "the job was manually deleted"),
        match answer with
        | Some e => (PText status, 500%Z, Some ("delete app failed, submissionId:[" +:+ submissionId +:+ "], status:[" +:+ status +:+ "] err: " +:+ e))
        | None => (PText status, 200%Z, None)
        end).

(** An error of the signal is only logged. *)
Definition StopApp (submissionId : string) (r : registry) (answer : option string) : option kill * (payload * Z * option string) :=
  let status := GetAppStatusByID submissionId r in
  if bool_decide (status = "") then (None, (PText "", 404%Z, Some ("the app does not exist, submissionId:[" +:+ submissionId +:+ "]")))
  else if negb (bool_decide (status = "RUNNING"))
  then (None, (PText status, 403%Z, Some ("the app isn't allow to stop, submissionId:[" +:+ submissionId +:+ "], status: " +:+ status)))
  else (Some (MkKill submissionId StopAppSignalVal "the job was manually stopped"), (PText status, 200%Z, None)).

(** The handlers of apps answer the response itself. *)
Definition SetCtxResponse (r : payload * Z * option string) : Z * Response := (r.1.2, BuildJobResponse r).

Definition CreateHandler (body : res string string) (Unmarshal : string → res string SubmitRequest) (answer : res string string) : option create_call * (Z * Response) :=
  match body with
  | Err e => (None, SetCtxResponse (PNull, 500%Z, Some ("failed to read request body error " +:+ e)))
  | Ok body =>
      match Unmarshal body with
      | Err e => (None, SetCtxResponse (PNull, 400%Z, Some ("create app unmarshal request failed, err: " +:+ e)))
      | Ok req => let '(c, r) := SubmitApp req answer in (Some c, SetCtxResponse r)
      end
  end.

Definition ListHandler (r : registry) : Z * Response := SetCtxResponse (ListApps r).
Definition GetInfoHandler (submissionId : string) (r : registry) : Z * Response := SetCtxResponse (GetAppInfo submissionId r).
Definition DeleteHandler (submissionId : string) (r : registry) (answer : option string) : option kill * (Z * Response) :=
  let '(k, x) := DeleteApp submissionId r answer in (k, SetCtxResponse x).
Definition StopHandler (submissionId : string) (r : registry) (answer : option string) : option kill * (Z * Response) :=
  let '(k, x) := StopApp submissionId r answer in (k, SetCtxResponse x).

(** ** Jobs (api/job/handler.go) *)

Definition SubmitJobHandler (header : gmap string (list string)) (bound : res string SubmitRequest) (uuid : string) (r : registry) (answer : res string string) :
    option create_call * http :=
  match SubmitJobHandleReq header bound with
  | Err h => (None, h)
  | Ok req =>
      let submit req := let '(c, x) := SubmitApp req answer in (Some c, SubmitJobHandleRes (BuildJobResponse x)) in
      if bool_decide (SubmissionId req = "") then submit (NewSubmissionID uuid req)
      else
        let '(_, statusCode, err) := GetAppInfo (SubmissionId req) r in
        if match err with Some _ => negb (statusCode =? 404)%Z | None => false end
        then (None, (500%Z, PText ("failed GetAppInfo, submissionId: " +:+ SubmissionId req +:+ ", err: " +:+ default "" err)))
        else if (statusCode =? 200)%Z
        then (None, (400%Z, PText ("submit job has already exist, submissionId: " +:+ SubmissionId req)))
        else submit req
  end.

Definition ListJobsHandler (r : registry) : http := ListJobsHandleRes (BuildJobResponse (ListApps r)).
Definition GetJobInfoHandler (submissionId : string) (r : registry) : http := GetJobInfoHandleRes (BuildJobResponse (GetAppInfo submissionId r)).
Definition DeleteJobHandler (submissionId : string) (r : registry) (answer : option string) : option kill * http :=
  let '(k, x) := DeleteApp submissionId r answer in (k, DeleteJobHandleRes (BuildJobResponse x)).
Definition StopJobHandler (submissionId : string) (r : registry) (answer : option string) : option kill * http :=
  let '(k, x) := StopApp submissionId r answer in (k, StopJobHandleRes (BuildJobResponse x)).

(** * Properties *)

(** Memory is rounded up to whole MiB, exactly, below 8 PiB. *)
Lemma mem_units_exact m : (0 ≤ m < 2 ^ 53)%Z → (2 ^ 20 * (mem_units m - 1) < m ≤ 2 ^ 20 * mem_units m)%Z.
Proof.
  intros [H0 H1]. unfold mem_units.
  assert (round53 (MkFloat m 0) = MkFloat m 0) as ->.
  { unfold round53. cbn [mant expo]. rewrite Z.abs_eq by done.
    assert (Z.log2 m ≤ 52)%Z as Hl.
    { destruct (decide (m = 0%Z)) as [->|]; [done|]. apply Z.lt_succ_r. apply Z.log2_lt_pow2; [lia|exact H1]. }
    destruct (Z.log2 m - 52 <=? 0)%Z eqn:E; [done|]. apply Z.leb_gt in E. lia. }
  unfold ceil. cbn [mant expo]. change (0 <=? 0 - 20)%Z with false. cbn iota. change (2 ^ (- (0 - 20)))%Z with 1048576%Z. change (2 ^ 20)%Z with 1048576%Z.
  pose proof (Z.div_mod (- m) 1048576 ltac:(lia)). pose proof (Z.mod_pos_bound (- m) 1048576 ltac:(lia)). lia.
Qed.

(** ** Create options *)

Lemma when_insert_ne (b : bool) (k k' v : string) (o : gmap string string) : k ≠ k' → when b <[k := v]> o !! k' = o !! k'.
Proof. intros H. destruct b; [|done]. by apply lookup_insert_ne. Qed.

Lemma when_insert_eq (k v : string) (o : gmap string string) : when true <[k := v]> o !! k = Some v.
Proof. apply lookup_insert_eq. Qed.

(** The names that [buildCreateOpt] sets. *)
Definition reserved : list string := ["ENTRYPOINT"; "POST_START_EXEC"; "DELEGATE_DOWNLOAD"; "DELEGATE_ENV_VAR"; "USER_PROVIDED_METADATA"].

Lemma create_opt_other r k : k ∉ reserved → buildCreateOpt r !! k = default ∅ (CreateOptions r) !! k.
Proof.
  unfold reserved. intros H. repeat (apply not_elem_of_cons in H as [? H]). unfold buildCreateOpt.
  destruct (sr_RuntimeEnv r); [rewrite !when_insert_ne by congruence|]; by apply lookup_insert_ne.
Qed.

Lemma create_opt_entrypoint r : buildCreateOpt r !! "ENTRYPOINT" = Some (Entrypoint r).
Proof. unfold buildCreateOpt. destruct (sr_RuntimeEnv r); [rewrite !when_insert_ne by done|]; apply lookup_insert_eq. Qed.

Lemma create_opt_download r env :
  sr_RuntimeEnv r = Some env → WorkingDir env ≠ "" → buildCreateOpt r !! "DELEGATE_DOWNLOAD" = Some (Marshal (working_dir_json (WorkingDir env))).
Proof.
  intros He Hd. unfold buildCreateOpt. rewrite He, !when_insert_ne by done. rewrite bool_decide_false by done. apply when_insert_eq.
Qed.

(** ** Submission *)

Lemma CheckField_ok req req' :
  CheckField req = Ok req' →
  Entrypoint req ≠ "" ∧ (∃ env, sr_RuntimeEnv req = Some env ∧ WorkingDir env ≠ "") ∧ (0 ≤ EntrypointMemory req)%Z ∧
  negative (EntrypointNumCpus req) = false ∧ negative (EntrypointNumGpus req) = false ∧ req' = set_id (SubmissionId req') req ∧
  (SubmissionId req = "" ∧ SubmissionId req' = "" ∨
   SubmissionId req ≠ "" ∧ Contains (SubmissionId req) "driver" = false ∧ SubmissionId req' ≠ "" ∧ matches_id (SubmissionId req') = true ∧
   SubmissionId req' = if HasPrefix (SubmissionId req) "app-" then SubmissionId req else "app-" +:+ SubmissionId req).
Proof.
  unfold CheckField. case_bool_decide as He; [done|]. case_bool_decide as Hd; [done|]. unfold ValidateResources.
  destruct (negative (EntrypointNumCpus req)) eqn:E1; [done|]. destruct (negative (EntrypointNumGpus req)) eqn:E2; [done|].
  destruct (EntrypointMemory req <? 0)%Z eqn:E3; [done|]. apply Z.ltb_ge in E3. cbn [res_bind]. unfold CheckSubmissionId. intros H.
  assert (∃ env, sr_RuntimeEnv req = Some env ∧ WorkingDir env ≠ "") as Henv by (destruct (sr_RuntimeEnv req); [eauto|done]).
  case_bool_decide as Hid.
  - injection H as <-. split_and!; try done; [by destruct req|by left].
  - destruct (Contains _ "driver") eqn:Ec; [done|]. destruct (matches_id _) eqn:Em; [|done]. cbn [negb] in H. injection H as <-. cbn [SubmissionId set_id].
    split_and!; try done. right. change (HasPrefix (SubmissionId req) "app-") with (HasPrefix (SubmissionId req) jobIDPrefix) in *.
    destruct (HasPrefix (SubmissionId req) jobIDPrefix); cbn [negb] in *; split_and!; done.
Qed.

(** C26. What the creation of a submitted job is asked for. The entry point and the
    working directory are the request's and not empty, the resources are not
    negative and the memory covers what was asked for. The name is new: the one
    that was given, with the prefix, if no app has it, or the prefix and a
    generated one. The tenant is that of the header, whatever create options the
    request has. *)
Theorem submitted_job_valid header bound uuid r answer c h :
  SubmitJobHandler header bound uuid r answer = (Some c, h) →
  ∃ req env, bound = Ok req ∧ sr_RuntimeEnv req = Some env ∧ Entrypoint req ≠ "" ∧ WorkingDir env ≠ "" ∧
    cr_CreateOpt c !! "ENTRYPOINT" = Some (Entrypoint req) ∧ cr_CreateOpt c !! "DELEGATE_DOWNLOAD" = Some (Marshal (working_dir_json (WorkingDir env))) ∧
    cr_Memory c = mem_units (EntrypointMemory req) ∧ (0 ≤ EntrypointMemory req)%Z ∧ cr_Cpu c = cpu_units (EntrypointNumCpus req) ∧
    (∀ t ts, header !! "X-Tenant-Id" = Some (t :: ts) → cr_CreateOpt c !! "tenantId" = Some t) ∧
    cr_Name c = (if bool_decide (SubmissionId req = "") then "app-" +:+ uuid
                 else if HasPrefix (SubmissionId req) "app-" then SubmissionId req else "app-" +:+ SubmissionId req) ∧
    (SubmissionId req ≠ "" → matches_id (cr_Name c) = true ∧ Contains (SubmissionId req) "driver" = false ∧ appsInfo r !! cr_Name c = None).
Proof.
  unfold SubmitJobHandler, SubmitJobHandleReq. destruct bound as [req|e]; [|done]. destruct (CheckField req) as [req1|e] eqn:Ec; [|done].
  apply CheckField_ok in Ec as (He & (env & Henv & Hd) & Hm & _ & _ & Hr1 & Hid).
  set (h0 := ParseHeader header). set (req2 := match h0 !! "X-Pool-Label" with Some _ => _ | None => _ end).
  assert (sr_RuntimeEnv req2 = Some env ∧ Entrypoint req2 = Entrypoint req ∧ SubmissionId req2 = SubmissionId req1 ∧
    EntrypointMemory req2 = mem_units (EntrypointMemory req) ∧ EntrypointNumCpus req2 = MkFloat (cpu_units (EntrypointNumCpus req)) 0 ∧
    ∀ t ts, header !! "X-Tenant-Id" = Some (t :: ts) → default ∅ (CreateOptions req2) !! "tenantId" = Some t) as (F1 & F2 & F3 & F4 & F5 & F6).
  { unfold req2. rewrite Hr1. destruct (h0 !! "X-Pool-Label"), (h0 !! "X-Tenant-Id") eqn:E; split_and!; try done; intros t ts Ht;
      unfold h0, ParseHeader in E; rewrite lookup_omap, Ht in E; cbn in E; try done; injection E as <-; apply lookup_insert_eq. }
  clearbody req2.
  assert (∀ x, sr_RuntimeEnv x = Some env → Entrypoint x = Entrypoint req → EntrypointMemory x = mem_units (EntrypointMemory req) →
    EntrypointNumCpus x = MkFloat (cpu_units (EntrypointNumCpus req)) 0 → CreateOptions x = CreateOptions req2 → (SubmitApp x answer).1 = c →
    cr_CreateOpt c !! "ENTRYPOINT" = Some (Entrypoint req) ∧ cr_CreateOpt c !! "DELEGATE_DOWNLOAD" = Some (Marshal (working_dir_json (WorkingDir env))) ∧
    cr_Memory c = mem_units (EntrypointMemory req) ∧ cr_Cpu c = cpu_units (EntrypointNumCpus req) ∧
    (∀ t ts, header !! "X-Tenant-Id" = Some (t :: ts) → cr_CreateOpt c !! "tenantId" = Some t) ∧ cr_Name c = SubmissionId x) as Hsubmit.
  { intros x X1 X2 X3 X4 X5 <-. cbn [SubmitApp fst createInvokeOpts cr_CreateOpt cr_Memory cr_Cpu cr_Name]. split_and!; try done.
    - by rewrite create_opt_entrypoint, X2.
    - by apply create_opt_download.
    - rewrite X4. unfold ceil. cbn. lia.
    - intros t ts Ht. rewrite create_opt_other; [rewrite X5; by apply (F6 t ts)|].
      unfold reserved. rewrite !not_elem_of_cons. split_and!; try done. apply not_elem_of_nil. }
  case_bool_decide as E.
  - intros [= Hc _]. destruct (Hsubmit (NewSubmissionID uuid req2)) as (G1 & G2 & G3 & G4 & G5 & G6); try done.
    1-5: unfold NewSubmissionID; rewrite bool_decide_true by done; done.
    exists req, env. rewrite F3 in E. destruct Hid as [[Hid _]|(Hid & _ & Hne & _)]; [|done].
    split_and!; try done. rewrite G6, bool_decide_true by done. unfold NewSubmissionID. by rewrite bool_decide_true by congruence.
  - unfold GetAppInfo, GetAppDetailsByID. destruct (appsInfo r !! SubmissionId req2) eqn:Ea; [done|]. cbn [default negb]. change (404 =? 404)%Z with true. change (404 =? 200)%Z with false. cbn [negb].
    intros [= Hc _]. destruct (Hsubmit req2) as (G1 & G2 & G3 & G4 & G5 & G6); try done.
    exists req, env. rewrite F3 in *. destruct Hid as [[_ Hid]|(Hne & Hdr & _ & Hma & Hpre)]; [done|].
    split_and!; try done; [|intros _; rewrite G6; split_and!; done]. rewrite G6, Hpre, bool_decide_false by done. done.
Qed.

(** ** Signals *)

(** A job is deleted only when it has ended and stopped only while it runs, so
    never both; the client is told true exactly when the signal was sent, and
    for a deletion when it was accepted. *)
Theorem job_signals (id : string) (r : registry) (answer : option string) :
  ((DeleteJobHandler id r answer).1 = Some (MkKill id 1 "the job was manually deleted") ↔ GetAppStatusByID id r ∈ ["SUCCEEDED"; "FAILED"; "STOPPED"]) ∧
  ((StopJobHandler id r answer).1 = Some (MkKill id 7 "the job was manually stopped") ↔ GetAppStatusByID id r = "RUNNING") ∧
  ((DeleteJobHandler id r answer).1 = None ∨ (StopJobHandler id r answer).1 = None) ∧
  ((DeleteJobHandler id r answer).2 = (200%Z, PBool true) ↔ (DeleteJobHandler id r answer).1 ≠ None ∧ answer = None) ∧
  ((StopJobHandler id r answer).2 = (200%Z, PBool true) ↔ (StopJobHandler id r answer).1 ≠ None).
Proof.
  unfold DeleteJobHandler, DeleteApp, StopJobHandler, StopApp. set (status := GetAppStatusByID id r). clearbody status.
  rewrite !elem_of_cons, elem_of_nil.
  destruct (decide (status = "")) as [->|H0]; [naive_solver|]. rewrite !(bool_decide_false (status = "")) by done.
  destruct (decide (status = "RUNNING")) as [->|H1]; [naive_solver|]. rewrite (bool_decide_false (status = "RUNNING")) by done. cbn [negb].
  destruct (decide (status = "SUCCEEDED")) as [->|H2]; [destruct answer; naive_solver|].
  destruct (decide (status = "FAILED")) as [->|H3]; [destruct answer; naive_solver|].
  destruct (decide (status = "STOPPED")) as [->|H4]; [destruct answer; naive_solver|].
  rewrite !bool_decide_false by done. naive_solver.
Qed.

(** ** Witnesses *)

Definition sample_job : SubmitRequest :=
  MkSubmit "python main.py" "train-1" (Some (MkEnv "s3://code" ["numpy"] ∅)) ∅ "" (Some {["tenantId" := "other"; "ENTRYPOINT" := "sh"]}) ∅ (MkFloat 3 (-1)) (MkFloat 0 0) 1000000000 "".
Definition sample_header : gmap string (list string) := {["X-Tenant-Id" := ["tenant"]]}.

Lemma submitted_job_valid_witness :
  ∃ c, (SubmitJobHandler sample_header (Ok sample_job) "u" empty_registry (Ok "app-train-1")).1 = Some c ∧ cr_Name c = "app-train-1" ∧ cr_Memory c = 954%Z ∧
    cr_CreateOpt c !! "tenantId" = Some "tenant" ∧ matches_id (cr_Name c) = true.
Proof.
  destruct (SubmitJobHandler sample_header (Ok sample_job) "u" empty_registry (Ok "app-train-1")) as [[c|] h] eqn:E; [|by vm_compute in E].
  exists c. destruct (submitted_job_valid _ _ _ _ _ _ _ E) as (req & env & [= <-] & _ & _ & _ & _ & _ & Hm & _ & _ & Ht & Hn & Hv).
  split; [done|]. split; [exact Hn|]. split; [exact Hm|]. split; [by apply (Ht "tenant" [])|]. by apply Hv.
Defined.

(** ** Behaviours *)

(** The signal that stops a job may fail; the client is told that it succeeded. *)
Lemma failed_stop_is_success id r a : GetAppStatusByID id r = "RUNNING" → (StopJobHandler id r (Some a)).2 = (200%Z, PBool true).
Proof. intros H. unfold StopJobHandler, StopApp. by rewrite H. Qed.

(** 2.007 CPUs times 1000 is a little more than 2007 in floating point, and is
    rounded up to 2008. *)
Lemma cpu_units_one_more : cpu_units (MkFloat 4519362226066293 (-51)) = 2008%Z.
Proof. vm_compute. reflexivity. Qed.

(** A job that is pending can be neither stopped nor deleted. *)
Lemma pending_job_stays id r a : GetAppStatusByID id r = "PENDING" →
  DeleteJobHandler id r a = (None, (200%Z, PBool false)) ∧ StopJobHandler id r a = (None, (200%Z, PBool false)).
Proof. intros H. unfold DeleteJobHandler, DeleteApp, StopJobHandler, StopApp. by rewrite H. Qed.

(** The marker may be part of another label, which then turns anti-affinity off. *)
Lemma label_contains_marker :
  generateScheduleAffinity [] "unUseAntiOtherLabels2,gpu" = [MkAffinity "unUseAntiOtherLabels2" true false; MkAffinity "gpu" true false].
Proof. vm_compute. reflexivity. Qed.
