(* ===== verification/AuthApi.v ===== *)
(** * Login and tokens (api/auth)

    The handlers that send a browser to the identity provider and back, exchange
    credentials for tokens at the IAM server, and let the system tenant require
    tokens for others. The signature of the OAuth2 state is HMAC-SHA256; the
    answers of the IAM server, random bytes and the time are inputs. [net/url]
    parses the target of a redirect as a parameter. The HTML pages are left out. *)

From stdpp Require Import base gmap list strings.
From S2P Require Import Prelude GoStrings Hashing Json JsonMarshal JwtAuth.
Open Scope string_scope.
Open Scope go_scope.

(** ** HMAC-SHA256 and hex *)

Definition sha256 (m : list Z) : list Z := let ws := words (sha_pad m) in sha_blocks (length ws) sha_H0 ws ≫= be_bytes 4.

(** Keys of at most 64 bytes. *)
Definition hmac (key m : list Z) : list Z :=
  let k := (key ++ replicate (64 - length key) 0%Z)%list in
  sha256 ((Z.lxor 92 <$> k) ++ sha256 ((Z.lxor 54 <$> k) ++ m))%list.

Example state_hmac_vector : hex_bytes (hmac (replicate 20 11%Z) (bytes_of "Hi There")) = "b0344c61d8db38535ca8afceaf0bf12b881dc200c9833da726e9376c2e32cff7".
Proof. vm_compute. reflexivity. Qed.

(** [hex.DecodeString]. *)
Fixpoint hex_decode (s : string) : option (list Z) :=
  match s with
  | EmptyString => Some []
  | String a (String b s) =>
      match hex_value a, hex_value b with
      | Some x, Some y => cons (Z.of_N (x * 16 + y)) <$> hex_decode s
      | _, _ => None
      end
  | _ => None
  end.

(** ** Strings and paths *)

(** [strings.TrimRight(s, "/")]. *)
Fixpoint trim_slashes (s : string) : string :=
  match s with
  | EmptyString => ""
  | String c s =>
      let r := trim_slashes s in
      if bool_decide (r = "") && bool_decide (c = "/"%char) then "" else String c r
  end.

Definition unreserved (c : ascii) : bool :=
  byte_in 97 122 c || byte_in 65 90 c || byte_in 48 57 c || bool_decide (c ∈ ["-"; "_"; "."; "~"]%char).
Definition upper_hex (n : N) : ascii := if (n <? 10)%N then ascii_of_N (n + 48) else ascii_of_N (n + 55).

(** [url.QueryEscape]. *)
Fixpoint QueryEscape (s : string) : string :=
  match s with
  | EmptyString => ""
  | String c s =>
      (if unreserved c then String c ""
       else if bool_decide (c = " "%char) then "+"
       else String "%" (String (upper_hex (N_of_ascii c / 16)) (String (upper_hex (N_of_ascii c mod 16)) ""))) +:+ QueryEscape s
  end.

(** A request: headers, query, cookies ([None]: an error), host and TLS. *)
Record ctx := MkCtx { GetHeader : string → string; Query : string → string; Cookie : string → option string; Host : string; TLS : bool }.

Definition pathPrefix (c : ctx) : string := trim_slashes (GetHeader c "X-Forwarded-Prefix").

Definition getBaseURL (c : ctx) : string :=
  let host := if bool_decide (GetHeader c "X-Forwarded-Host" = "") then Host c else GetHeader c "X-Forwarded-Host" in
  let scheme := if bool_decide (GetHeader c "X-Forwarded-Proto" = "") then (if TLS c then "https" else "http") else GetHeader c "X-Forwarded-Proto" in
  scheme +:+ "://" +:+ host.

Definition getRedirectURI (c : ctx) : string := getBaseURL c +:+ pathPrefix c +:+ "/auth/callback".
Definition getLogoutRedirectURI (c : ctx) : string := getBaseURL c +:+ pathPrefix c +:+ "/auth/login-page".
Definition defaultPostAuthPath (c : ctx) : string := pathPrefix c +:+ "/terminal".

Definition sanitizeRelativePath (next : string) : string :=
  if bool_decide (next = "") then ""
  else if negb (HasPrefix next "/") then ""
  else if HasPrefix next "//" then ""
  else next.

Definition resolvePostAuthRedirect (c : ctx) (next : string) : string :=
  if bool_decide (sanitizeRelativePath next = "") then defaultPostAuthPath c else sanitizeRelativePath next.
Definition getRequestedPostAuthPath (c : ctx) : string := resolvePostAuthRedirect c (Query c "next").

(** ** The state *)

Definition stateTTL : Z := 300.

Definition generateState (key nonce : list Z) (now : Z) : string :=
  let payload := hex_bytes nonce +:+ "." +:+ FormatInt now in
  payload +:+ "." +:+ hex_bytes (hmac key (bytes_of payload)).

Definition isValidOAuthState (key : list Z) (now : Z) (state : string) (storedState : option string) : bool :=
  if bool_decide (state = "") then false
  else if match storedState with Some s => negb (bool_decide (s = "")) && bool_decide (state = s) | None => false end then true
  else
    match Split state "." with
    | [p0; p1; p2] =>
        match hex_decode p2 with
        | None => false
        | Some sig =>
            if negb (bool_decide (sig = hmac key (bytes_of (p0 +:+ "." +:+ p1)))) then false
            else
              match Atoi p1 with
              | None => false
              | Some issuedAt =>
                  if (wrapS 64 (now + 60) <? issuedAt)%Z then false
                  else if (stateTTL <? wrapS 64 (now - issuedAt))%Z then false else true
              end
        end
    | _ => false
    end.

(** ** Calls of the IAM server *)

Record iam_request := MkIam { i_method : string; i_url : string; i_body : string; i_headers : list (string * string) }.
Inductive reply := NotSent (e : string) | Unreadable (e : string) | Answer (status : Z) (body : string).

Definition read_reply {A} (decode : string → option A) (r : reply) : res string A :=
  match r with
  | NotSent e => Err ("failed to call iam-server: " +:+ e)
  | Unreadable e => Err ("failed to read response: " +:+ e)
  | Answer status body =>
      if negb (status =? 200)%Z then Err ("iam-server returned status " +:+ FormatInt status +:+ ": " +:+ body)
      else match decode body with Some x => Ok x | None => Err "failed to parse response" end
  end.

Definition call_iam {A} (addr : string) (req : iam_request) (decode : string → option A) (r : reply) : option iam_request * res string A :=
  if bool_decide (addr = "") then (None, Err "iam-server address not configured") else (Some req, read_reply decode r).

Definition post (addr path : string) (body : any) : iam_request := MkIam "POST" ("http://" +:+ addr +:+ path) (Marshal body) [("Content-Type", "application/json")].

Definition decode_token (body : string) : option string :=
  unmarshal_struct "" (λ kvs, (λ t (_ : Z) (_ : string), t) <$> string_field "token" kvs <*> int_field "expires_in" kvs <*> string_field "tenant_id" kvs) body.
Definition decode_full_token (body : string) : option string :=
  unmarshal_struct "" (λ kvs, (λ t (_ : Z) (_ _ : string) (_ _ : Z), t) <$> string_field "token" kvs <*> int_field "expires_in" kvs <*> string_field "tenant_id" kvs
    <*> string_field "role" kvs <*> int_field "cpu_quota" kvs <*> int_field "mem_quota" kvs) body.
Definition decode_url (body : string) : option string := unmarshal_struct "" (λ kvs, string_field "url" kvs) body.

Definition exchangeForIamToken (addr idToken : string) (expiresIn : Z) : reply → option iam_request * res string string :=
  call_iam addr
    (post addr "/iam-server/v1/token/exchange"
       (JObject ((if (0 <? expiresIn)%Z then [("expires_in", JNumber (FormatInt expiresIn))] else []) ++ [("id_token", JString idToken)])%list)) decode_token.
Definition exchangeCodeForIamToken (addr code redirectURI : string) : reply → option iam_request * res string string :=
  call_iam addr (post addr "/iam-server/v1/token/code-exchange" (JObject [("code", JString code); ("redirect_uri", JString redirectURI)])) decode_full_token.
Definition loginWithPassword (addr username password : string) : reply → option iam_request * res string string :=
  call_iam addr (post addr "/iam-server/v1/token/login" (JObject [("password", JString password); ("username", JString username)])) decode_full_token.
Definition getAuthURLFromIAM (addr authType redirectURI state : string) : reply → option iam_request * res string string :=
  call_iam addr
    (MkIam "GET" ("http://" +:+ addr +:+ "/iam-server/v1/auth/url?type=" +:+ authType +:+ "&redirect_uri=" +:+ QueryEscape redirectURI +:+ "&state=" +:+ QueryEscape state) "" [])
    decode_url.

(** ** Handlers *)

Record cookie := MkCookie { ck_name : string; ck_value : string; ck_maxAge : Z; ck_secure : bool }.
Inductive answer :=
| JsonError (status : Z) (error : string)
| BadToken (status : Z) (e : jwt_error)
| JsonMessage (message : string)
| Redirect (url : string)
| TokenBody (accessToken : string)
| UserBody (tenantID role : string)
| Proxied (headers : list (string * string)) (body : string).

(** What a handler does: the cookies it sets, its call and its answer. *)
Record output := MkOut { cookies : list cookie; called : option iam_request; answered : answer }.

Section Handlers.
Variable unicode_lower : string → string.
(** [url.Parse] of the target with the token in its query. *)
Variable with_token : string → string → option string.
Variable key : list Z.
Variable addr : string.

Definition isSecureRequest (c : ctx) : bool :=
  let proto := ToLower unicode_lower (GetHeader c "X-Forwarded-Proto") in
  if negb (bool_decide (proto = "")) then bool_decide (proto = "https") else TLS c.

Definition appendTokenToRedirect (target token : string) : string :=
  if bool_decide (target = "") || bool_decide (token = "") then target else default target (with_token target token).

Definition start (authType failure : string) (nonce : list Z) (now : Z) (r : reply) (c : ctx) : output :=
  let state := generateState key nonce now in
  let '(req, res) := getAuthURLFromIAM addr authType (getRedirectURI c) state r in
  MkOut [MkCookie "oauth_state" state 300 (isSecureRequest c); MkCookie "oauth_next" (getRequestedPostAuthPath c) 300 (isSecureRequest c)] req
    (match res with Err e => JsonError 500 (failure +:+ e) | Ok url => Redirect url end).
Definition LoginHandler := start "login" "Failed to get auth URL: ".
Definition RegisterHandler := start "register" "Failed to get register URL: ".

Definition CallbackHandler (now : Z) (r : reply) (c : ctx) : output :=
  if negb (isValidOAuthState key now (Query c "state") (Cookie c "oauth_state")) then MkOut [] None (JsonError 400 "Invalid state parameter")
  else
    let nextPath := default "" (Cookie c "oauth_next") in
    let cleared := [MkCookie "oauth_state" "" (-1) (isSecureRequest c); MkCookie "oauth_next" "" (-1) (isSecureRequest c)] in
    if bool_decide (Query c "code" = "") then
      MkOut cleared None
        (JsonError 400 ("Authorization failed: " +:+ (if bool_decide (Query c "error_description" = "") then Query c "error" else Query c "error_description")))
    else
      let '(req, res) := exchangeCodeForIamToken addr (Query c "code") (getRedirectURI c) r in
      match res with
      | Err e => MkOut cleared req (JsonError 500 ("Failed to exchange authorization code: " +:+ e))
      | Ok iamToken =>
          MkOut (cleared ++ [MkCookie "iam_token" iamToken 3600 (isSecureRequest c)])%list req
            (Redirect (appendTokenToRedirect (resolvePostAuthRedirect c nextPath) iamToken))
      end.

Definition LogoutHandler (r : reply) (c : ctx) : output :=
  let '(req, res) := getAuthURLFromIAM addr "logout" (getLogoutRedirectURI c) "" r in
  MkOut [MkCookie "iam_token" "" (-1) (isSecureRequest c)] req
    (match res with Err _ => JsonMessage "Logged out, but failed to redirect to Casdoor logout" | Ok url => Redirect url end).

(** [bound]: the body that was bound, with its required fields. *)
Definition TokenExchangeHandler (bound : res string string) (r : reply) : output :=
  match bound with
  | Err e => MkOut [] None (JsonError 400 ("Invalid request: " +:+ e))
  | Ok idToken =>
      let '(req, res) := exchangeForIamToken addr idToken 0 r in
      MkOut [] req (match res with Err e => JsonError 500 ("Failed to exchange token: " +:+ e) | Ok t => TokenBody t end)
  end.

Definition DirectTokenHandler (bound : res string (string * string)) (r : reply) (c : ctx) : output :=
  match bound with
  | Err e => MkOut [] None (JsonError 400 ("Invalid request: " +:+ e))
  | Ok (username, password) =>
      let '(req, res) := loginWithPassword addr username password r in
      match res with
      | Err e => MkOut [] req (JsonError 401 ("Login failed: " +:+ e))
      | Ok t => MkOut [MkCookie "iam_token" t 3600 (isSecureRequest c)] req (TokenBody t)
      end
  end.

Definition UserHandler (now : Z) (c : ctx) : output :=
  MkOut [] None
    match Cookie c "iam_token" with
    | None | Some "" => JsonError 401 "Not authenticated"
    | Some t =>
        match ParseJWT t with
        | Err e => BadToken 401 e
        | Ok parsed => if IsExpired (Payload parsed) now then JsonError 401 "Token expired" else UserBody (Sub (Payload parsed)) (Role (Payload parsed))
        end
    end.

Definition page (target : string) (c : ctx) : output := MkOut [] None (Redirect (pathPrefix c +:+ target +:+ QueryEscape (getRequestedPostAuthPath c))).
Definition LoginPageHandler := page "/auth/login?next=".
Definition RegisterPageHandler := page "/auth/register?next=".

(** ** Tokens for other tenants (token_proxy_handler.go) *)

Definition systemTenantID : string := "0".
Definition developerRole : string := "developer".

(** [iam_ok]: the answer of the IAM server about the token. *)
Definition validateOperatorToken (iam_ok : string → bool) (now : Z) (c : ctx) : res answer () :=
  let token := GetHeader c "X-Auth" in
  match ParseJWT token with
  | Err e => Err (BadToken 401 e)
  | Ok parsed =>
      if bool_decide (addr = "") then Err (JsonError 401 "iam-server address is not configured")
      else if negb (iam_ok token) then Err (JsonError 401 "invalid token")
      else if IsExpired (Payload parsed) now then Err (JsonError 401 "token expired")
      else if negb (bool_decide (Sub (Payload parsed) = systemTenantID)) || negb (bool_decide (Role (Payload parsed) = developerRole))
      then Err (JsonError 403 "developer system tenant token is required")
      else Ok ()
  end.

Definition parseTokenProxyTTL (ttlHeader : string) : res string (option Z) :=
  if bool_decide (ttlHeader = "") then Ok None
  else
    match Atoi ttlHeader with
    | None => Err "X-TTL must be an integer"
    | Some ttl => if (ttl =? 0)%Z || (ttl <? -1)%Z then Err "X-TTL must be -1 or a positive integer" else Ok (Some ttl)
    end.

Definition tenant_byte (c : ascii) : bool :=
  byte_in 65 90 c || byte_in 97 122 c || byte_in 48 57 c || bool_decide (c ∈ ["."; "_"; "-"]%char).
Fixpoint bytes_match (f : ascii → bool) (s : string) : bool := match s with EmptyString => true | String c s => f c && bytes_match f s end.
Definition tokenProxyTenantIDPattern (s : string) : bool := (1 <=? String.length s)%nat && (String.length s <=? 128)%nat && bytes_match tenant_byte s.

Definition validateTokenProxyTenantID (tenantID : string) : res string () :=
  if bool_decide (tenantID = "") then Err "X-Tenant-ID header is required"
  else if negb (tokenProxyTenantIDPattern tenantID) then Err "X-Tenant-ID must match [A-Za-z0-9._-]{1,128}"
  else Ok ().
Definition validateTargetTokenProxyTenantID (tenantID : string) : res string () :=
  let* _ := validateTokenProxyTenantID tenantID in
  if bool_decide (tenantID = systemTenantID) then Err "tenant 0 is reserved" else Ok ().

Definition tokenProxyTraceID (c : ctx) : string :=
  if bool_decide (GetHeader c "X-Trace-Id" = "") then GetHeader c "X-Request-Id" else GetHeader c "X-Trace-Id".

(** The answer of the IAM server with its headers. *)
Inductive proxy_reply := ProxyFailed | ProxyAnswer (status : Z) (headers : list (string * string)) (body : string).

Definition RequireToken (proxyAddr tenantID role : string) (ttl : option Z) (traceID : string) : option iam_request :=
  let a := trim_slashes proxyAddr in
  if bool_decide (a = "") then None
  else Some (MkIam "GET" ("http://" +:+ a +:+ "/iam-server/v1/token/require") ""
    ((if bool_decide (traceID = "") then [] else [("X-Trace-Id", traceID)]) ++ [("X-Tenant-ID", tenantID); ("X-Role", role)] ++
     match ttl with Some t => [("X-TTL", FormatInt t)] | None => [] end)%list).

Definition writeTokenProxy (r : proxy_reply) : answer :=
  match r with
  | ProxyFailed => JsonError 502 "iam-server request failed"
  | ProxyAnswer status headers body =>
      if (status =? 200)%Z then Proxied headers body
      else if bool_decide (status ∈ [400; 403; 404; 500]%Z) then JsonError status "iam-server returned error"
      else JsonError 502 "iam-server returned error"
  end.

Definition RequireTokenProxyHandler (proxyAddr : string) (iam_ok : string → bool) (now : Z) (r : proxy_reply) (c : ctx) : output :=
  match validateOperatorToken iam_ok now c with
  | Err a => MkOut [] None a
  | Ok _ =>
      let tenantID := GetHeader c "X-Tenant-ID" in
      match validateTargetTokenProxyTenantID tenantID with
      | Err e => MkOut [] None (JsonError 400 e)
      | Ok _ =>
          let role := GetHeader c "X-Role" in
          if negb (bool_decide (role = developerRole)) then MkOut [] None (JsonError 400 "X-Role must be developer")
          else
            match parseTokenProxyTTL (GetHeader c "X-TTL") with
            | Err e => MkOut [] None (JsonError 400 e)
            | Ok ttl =>
                let req := RequireToken proxyAddr tenantID role ttl (tokenProxyTraceID c) in
                MkOut [] req (writeTokenProxy (match req with None => ProxyFailed | Some _ => r end))
            end
      end
  end.

Definition AbandonTokenProxyHandler (c : ctx) : output :=
  MkOut [] None
    match validateTargetTokenProxyTenantID (GetHeader c "X-Tenant-ID") with
    | Err e => JsonError 400 e
    | Ok _ => JsonError 501 "developer token abandon is not supported; token expiration depends on TTL"
    end.
End Handlers.

(** * Properties *)

Lemma below16 (P : N → Prop) : Forall P (N.of_nat <$> seq 0 16) → ∀ n, (n < 16)%N → P n.
Proof.
  intros H n Hn. rewrite Forall_forall in H. apply H. apply list_elem_of_fmap. exists (N.to_nat n). split; [lia|]. apply elem_of_seq. lia.
Qed.

Lemma hex_value_digit n : (n < 16)%N → hex_value (hex_digit n) = Some n.
Proof. revert n. apply below16. vm_compute. repeat constructor. Qed.

Lemma hex_digit_no_dot n : (n < 16)%N → bool_decide (hex_digit n = "."%char) = false.
Proof. revert n. apply below16. vm_compute. repeat constructor. Qed.

Lemma hex_halves b : (0 ≤ b < 256)%Z → (Z.to_N b / 16 < 16)%N ∧ (Z.to_N b mod 16 < 16)%N ∧ Z.of_N (Z.to_N b / 16 * 16 + Z.to_N b mod 16) = b.
Proof.
  intros H. split_and!.
  - apply N.Div0.div_lt_upper_bound. lia.
  - apply N.mod_lt. lia.
  - pose proof (N.div_mod (Z.to_N b) 16 ltac:(lia)). lia.
Qed.

Lemma hex_decode_bytes l : Forall (λ b, 0 ≤ b < 256)%Z l → hex_decode (hex_bytes l) = Some l.
Proof.
  induction 1 as [|b l Hb _ IH]; [done|]. destruct (hex_halves b Hb) as (H1 & H2 & H3). cbn [hex_bytes hex_decode].
  rewrite !hex_value_digit, IH by done. cbn [fmap option_fmap option_map]. by rewrite H3.
Qed.

Lemma hex_bytes_no_dot l : Forall (λ b, 0 ≤ b < 256)%Z l → has_byte "." (hex_bytes l) = false.
Proof.
  induction 1 as [|b l Hb _ IH]; [done|]. destruct (hex_halves b Hb) as (H1 & H2 & _). cbn [hex_bytes has_byte]. by rewrite !hex_digit_no_dot, IH.
Qed.

Lemma format_no_dot fuel n acc : (0 ≤ n)%Z → has_byte "." (format_go fuel n acc) = has_byte "." acc.
Proof.
  assert (∀ m, (0 ≤ m < 10)%Z → bool_decide (digit_char m = "."%char) = false) as Hd.
  { intros m Hm. apply bool_decide_eq_false. intros E. pose proof (digit_digit_char m Hm) as H. rewrite E in H. by vm_compute in H. }
  revert n acc. induction fuel as [|fuel IH]; intros n acc Hn; cbn [format_go].
  - cbn [has_byte]. by rewrite Hd by (apply Z.mod_pos_bound; lia).
  - destruct (n / 10 =? 0)%Z; [|rewrite IH by (apply Z.div_pos; lia)]; cbn [has_byte]; by rewrite Hd by (apply Z.mod_pos_bound; lia).
Qed.

Lemma FormatInt_no_dot n : (0 ≤ n)%Z → has_byte "." (FormatInt n) = false.
Proof. intros H. unfold FormatInt. destruct (n <? 0)%Z eqn:E; [apply Z.ltb_lt in E; lia|]. unfold FormatUint. by rewrite format_no_dot. Qed.

Lemma be_bytes_range n z : Forall (λ b, 0 ≤ b < 256)%Z (be_bytes n z).
Proof.
  unfold be_bytes. apply Forall_fmap, Forall_forall. intros i _. cbn. change 255%Z with (Z.ones 8). rewrite Z.land_ones by lia. apply Z.mod_pos_bound. lia.
Qed.

Lemma sha256_range m : Forall (λ b, 0 ≤ b < 256)%Z (sha256 m).
Proof. unfold sha256. apply Forall_bind, Forall_forall. intros w _. apply be_bytes_range. Qed.

(** A state that was issued at [now] is accepted at [later], by any browser,
    exactly from a minute before until five minutes after. *)
Theorem oauth_state_window (key nonce : list Z) (now later : Z) :
  Forall (λ b, 0 ≤ b < 256)%Z nonce → (0 ≤ now < 2 ^ 62)%Z → (0 ≤ later < 2 ^ 62)%Z →
  isValidOAuthState key later (generateState key nonce now) None = true ↔ (now - 60 ≤ later ≤ now + 300)%Z.
Proof.
  intros Hn H1 H2. set (payload := hex_bytes nonce +:+ "." +:+ FormatInt now). set (sig := hmac key (bytes_of payload)).
  assert (Split (generateState key nonce now) "." = [hex_bytes nonce; FormatInt now; hex_bytes sig]) as Hs.
  { unfold generateState. fold payload. fold sig. unfold payload. rewrite !app_assoc_str, !app_cons_str, !app_nil_l_str.
    rewrite Split_app_byte by (by apply hex_bytes_no_dot). rewrite Split_app_byte by (apply FormatInt_no_dot; lia).
    by rewrite Split_no_byte by (apply hex_bytes_no_dot, sha256_range). }
  unfold isValidOAuthState. rewrite Hs. rewrite bool_decide_false by (intros E; rewrite E in Hs; change (Split "" ".") with [""] in Hs; discriminate Hs).
  rewrite hex_decode_bytes by apply sha256_range. rewrite bool_decide_true by reflexivity. cbn [negb].
  rewrite Atoi_FormatInt by lia. rewrite !wrapS_small by lia. unfold stateTTL.
  destruct (later + 60 <? now)%Z eqn:E1; [apply Z.ltb_lt in E1; split; [done|lia]|]. apply Z.ltb_ge in E1.
  destruct (300 <? later - now)%Z eqn:E2; [apply Z.ltb_lt in E2; split; [done|lia]|]. apply Z.ltb_ge in E2. split; [lia|done].
Qed.

Section Safety.
Variable unicode_lower : string → string.
Variable with_token : string → string → option string.
Variable key : list Z.
Variable addr : string.

(** The path that the browser is sent to after a login. *)
Definition local_path (s : string) : Prop := HasPrefix s "/" = true ∧ HasPrefix s "//" = false.

Lemma sanitize_local next : sanitizeRelativePath next ≠ "" → sanitizeRelativePath next = next ∧ local_path next.
Proof.
  unfold sanitizeRelativePath, local_path. case_bool_decide; [done|]. destruct (HasPrefix next "/"); [|done].
  destruct (HasPrefix next "//"); [done|]. intros _. split_and!; done.
Qed.

Lemma sanitize_refused next : sanitizeRelativePath next = "" → ¬ local_path next.
Proof.
  unfold sanitizeRelativePath, local_path. intros H [H1 H2]. case_bool_decide as E; [by rewrite E in H1|].
  rewrite H1, H2 in H. cbn in H. done.
Qed.

(** C27. The cookie of a token is set after a callback only if the state was the one
    of the browser or is signed and fresh, the IAM server was asked with the code
    of the request and answered with the token. The browser is then sent to the
    target of its cookie if that begins with one slash and not with two, and
    otherwise to the terminal below the forwarded prefix, a header that is taken
    as it comes; without that header the target begins with exactly one slash. *)
Theorem callback_login now r c t secure :
  MkCookie "iam_token" t 3600 secure ∈ cookies (CallbackHandler unicode_lower with_token key addr now r c) →
  isValidOAuthState key now (Query c "state") (Cookie c "oauth_state") = true ∧
  (∃ body, r = Answer 200 body ∧ decode_full_token body = Some t) ∧ addr ≠ "" ∧ Query c "code" ≠ "" ∧
  called (CallbackHandler unicode_lower with_token key addr now r c) =
    Some (post addr "/iam-server/v1/token/code-exchange" (JObject [("code", JString (Query c "code")); ("redirect_uri", JString (getRedirectURI c))])) ∧
  ∃ target, answered (CallbackHandler unicode_lower with_token key addr now r c) = Redirect (appendTokenToRedirect with_token target t) ∧
    (Cookie c "oauth_next" = Some target ∧ local_path target ∨
     ¬ (∃ next, Cookie c "oauth_next" = Some next ∧ local_path next) ∧ target = pathPrefix c +:+ "/terminal") ∧
    (GetHeader c "X-Forwarded-Prefix" = "" → local_path target).
Proof.
  unfold CallbackHandler. destruct (isValidOAuthState _ _ _ _); cbn [negb]; [|intros H; by apply elem_of_nil in H].
  assert (∀ l, MkCookie "iam_token" t 3600 secure ∈ ([MkCookie "oauth_state" "" (-1) (isSecureRequest unicode_lower c);
    MkCookie "oauth_next" "" (-1) (isSecureRequest unicode_lower c)] ++ l)%list → MkCookie "iam_token" t 3600 secure ∈ l) as Hc.
  { intros l H. rewrite elem_of_app, !elem_of_cons, elem_of_nil in H. naive_solver. }
  case_bool_decide as Hcode; [intros H; rewrite <- (app_nil_r [_; _]) in H; apply Hc in H; by apply elem_of_nil in H|].
  unfold exchangeCodeForIamToken, call_iam. case_bool_decide as Ha; cbn [cookies].
  { intros H. rewrite <- (app_nil_r [_; _]) in H. apply Hc in H. by apply elem_of_nil in H. }
  destruct (read_reply decode_full_token r) as [t'|e] eqn:Er; cbn [cookies called answered]; intros H; cycle 1.
  { rewrite <- (app_nil_r [_; _]) in H. apply Hc in H. by apply elem_of_nil in H. }
  apply Hc, list_elem_of_singleton in H. injection H as -> _. split_and!; try done.
  - unfold read_reply in Er. destruct r as [| |status body]; try done. destruct (status =? 200)%Z eqn:Es; [|done].
    apply Z.eqb_eq in Es as ->. cbn [negb] in Er. exists body. destruct (decode_full_token body); [|done]. by injection Er as ->.
  - eexists. split; [reflexivity|]. unfold resolvePostAuthRedirect. case_bool_decide as Hn.
    { split; [right; split; [|done]|].
      - intros (next & En & Hl). rewrite En in Hn. cbn in Hn. by apply (sanitize_refused next).
      - intros Hp. unfold defaultPostAuthPath, pathPrefix. rewrite Hp. by split; vm_compute. }
    apply sanitize_local in Hn as [-> Hl]. destruct (Cookie c "oauth_next"); [split; [by left|done]|]. by destruct Hl.
Qed.

(** A token is required from the IAM server only for an operator: whose token
    the IAM server accepts, is not expired and belongs to a developer of the
    system tenant. The request names the tenant and the role of a developer, a
    tenant of the allowed form that is not the system tenant, and a time to live
    that is unlimited, positive or the server's. *)
Theorem token_proxy_guarded proxyAddr iam_ok now r c req :
  called (RequireTokenProxyHandler addr proxyAddr iam_ok now r c) = Some req →
  (∃ parsed, ParseJWT (GetHeader c "X-Auth") = Ok parsed ∧ iam_ok (GetHeader c "X-Auth") = true ∧ IsExpired (Payload parsed) now = false ∧
     Sub (Payload parsed) = "0" ∧ Role (Payload parsed) = "developer") ∧
  (∃ ttl, (ttl = None ∨ ∃ n, ttl = Some n ∧ (n = -1 ∨ 0 < n)%Z) ∧
     req = MkIam "GET" ("http://" +:+ trim_slashes proxyAddr +:+ "/iam-server/v1/token/require") ""
       ((if bool_decide (tokenProxyTraceID c = "") then [] else [("X-Trace-Id", tokenProxyTraceID c)]) ++
        [("X-Tenant-ID", GetHeader c "X-Tenant-ID"); ("X-Role", "developer")] ++ match ttl with Some n => [("X-TTL", FormatInt n)] | None => [] end)%list) ∧
  tokenProxyTenantIDPattern (GetHeader c "X-Tenant-ID") = true ∧ GetHeader c "X-Tenant-ID" ≠ "0".
Proof.
  unfold RequireTokenProxyHandler, validateOperatorToken. destruct (ParseJWT _) as [parsed|e] eqn:Ep; [|done]. case_bool_decide; [done|].
  destruct (iam_ok _) eqn:Ei; [|done]. cbn [negb]. destruct (IsExpired _ _) eqn:Ex; [done|]. case_bool_decide as Es; [|done]. case_bool_decide as Ed; [|done].
  cbn [negb orb]. unfold validateTargetTokenProxyTenantID, validateTokenProxyTenantID. case_bool_decide as Ht; [done|].
  destruct (tokenProxyTenantIDPattern _) eqn:Em; [|done]. cbn [negb res_bind]. case_bool_decide as Hz; [done|].
  case_bool_decide as Er; [|done]. cbn [negb]. unfold parseTokenProxyTTL. intros Hc. split; [by exists parsed|]. split; [|done].
  assert (∀ ttl, RequireToken proxyAddr (GetHeader c "X-Tenant-ID") (GetHeader c "X-Role") ttl (tokenProxyTraceID c) = Some req →
    req = MkIam "GET" ("http://" +:+ trim_slashes proxyAddr +:+ "/iam-server/v1/token/require") ""
       ((if bool_decide (tokenProxyTraceID c = "") then [] else [("X-Trace-Id", tokenProxyTraceID c)]) ++
        [("X-Tenant-ID", GetHeader c "X-Tenant-ID"); ("X-Role", "developer")] ++ match ttl with Some n => [("X-TTL", FormatInt n)] | None => [] end)%list) as Hreq.
  { intros ttl. unfold RequireToken. rewrite Er. destruct (bool_decide (trim_slashes _ = "")); [done|]. by intros [= <-]. }
  destruct (bool_decide (GetHeader c "X-TTL" = "")).
  - exists None. split; [by left|]. exact (Hreq None Hc).
  - destruct (Atoi _) as [n|]; [|done]. destruct ((n =? 0)%Z || (n <? -1)%Z) eqn:En; [done|].
    apply orb_false_iff in En as [E0 E1]. apply Z.eqb_neq in E0. apply Z.ltb_ge in E1. exists (Some n). split; [|exact (Hreq (Some n) Hc)]. right. exists n. split; [done|lia].
Qed.
End Safety.

(** ** Witnesses *)

Definition q (s : string) : string := String quote_char s +:+ String quote_char "".
Definition browser : ctx :=
  MkCtx (λ h, if bool_decide (h = "X-Forwarded-Prefix") then "/frontend/" else "")
    (λ k, if bool_decide (k = "state") then "s" else if bool_decide (k = "code") then "abc" else "")
    (λ k, if bool_decide (k = "oauth_state") then Some "s" else if bool_decide (k = "oauth_next") then Some "/functions" else None) "host" false.
Definition token_reply : reply := Answer 200 ("{" +:+ q "token" +:+ ":" +:+ q "t" +:+ "}").
Definition as_query (target token : string) : option string := Some (target +:+ "?token=" +:+ token).

Lemma callback_login_witness :
  answered (CallbackHandler id as_query [1%Z] "iam" 100 token_reply browser) = Redirect "/functions?token=t" ∧
  (∃ body, token_reply = Answer 200 body ∧ decode_full_token body = Some "t") ∧ local_path "/functions".
Proof.
  assert (MkCookie "iam_token" "t" 3600 false ∈ cookies (CallbackHandler id as_query [1%Z] "iam" 100 token_reply browser)) as H.
  { assert (cookies (CallbackHandler id as_query [1%Z] "iam" 100 token_reply browser) =
      [MkCookie "oauth_state" "" (-1) false; MkCookie "oauth_next" "" (-1) false; MkCookie "iam_token" "t" 3600 false]) as -> by (vm_compute; reflexivity).
    rewrite !elem_of_cons. tauto. }
  destruct (callback_login id as_query [1%Z] "iam" 100 token_reply browser "t" false H) as (_ & Hb & _ & _ & _ & _).
  split; [vm_compute; reflexivity|]. split; [exact Hb|split; vm_compute; reflexivity].
Defined.

Definition operator_token : string := "e30.eyJzdWIiOiIwIiwicm9sZSI6ImRldmVsb3BlciJ9.x".
Definition operator : ctx :=
  MkCtx (λ h, if bool_decide (h = "X-Auth") then operator_token else if bool_decide (h = "X-Tenant-ID") then "tenant-1"
              else if bool_decide (h = "X-Role") then "developer" else if bool_decide (h = "X-TTL") then "3600" else "") (λ _, "") (λ _, None) "host" false.

Lemma token_proxy_guarded_witness :
  called (RequireTokenProxyHandler "iam" "iam:80/" (λ _, true) 0 ProxyFailed operator) =
    Some (MkIam "GET" "http://iam:80/iam-server/v1/token/require" "" [("X-Tenant-ID", "tenant-1"); ("X-Role", "developer"); ("X-TTL", "3600")]) ∧
  tokenProxyTenantIDPattern "tenant-1" = true.
Proof.
  assert (called (RequireTokenProxyHandler "iam" "iam:80/" (λ _, true) 0 ProxyFailed operator) =
    Some (MkIam "GET" "http://iam:80/iam-server/v1/token/require" "" [("X-Tenant-ID", "tenant-1"); ("X-Role", "developer"); ("X-TTL", "3600")])) as H by (vm_compute; reflexivity).
  split; [exact H|]. exact (proj1 (proj2 (proj2 (token_proxy_guarded "iam" "iam:80/" (λ _, true) 0 ProxyFailed operator _ H)))).
Defined.

Lemma oauth_state_window_witness : isValidOAuthState [7%Z] 1000 (generateState [7%Z] [1; 2; 255]%Z 800) None = true.
Proof. apply (oauth_state_window [7%Z] [1; 2; 255]%Z 800 1000); [repeat constructor; lia|lia|lia|lia]. Defined.

(** ** Behaviours *)

(** A path with a backslash after the first slash passes the check, and browsers
    read it as another host. *)
Lemma backslash_path_passes : sanitizeRelativePath "/\evil.com" = "/\evil.com".
Proof. reflexivity. Qed.

(** The prefix that a client gives in a header becomes part of the path to which
    the token is sent. *)
Lemma forwarded_prefix_redirects (c : ctx) : GetHeader c "X-Forwarded-Prefix" = "//evil.com" → defaultPostAuthPath c = "//evil.com/terminal".
Proof. intros H. unfold defaultPostAuthPath, pathPrefix. by rewrite H. Qed.

(** A state is accepted again while it is fresh, and without the cookie. *)
Lemma state_needs_no_cookie key nonce now stored :
  stored ≠ Some (generateState key nonce now) →
  isValidOAuthState key now (generateState key nonce now) stored = isValidOAuthState key now (generateState key nonce now) None.
Proof.
  intros Hs. unfold isValidOAuthState. destruct stored as [s|]; [|done].
  destruct (negb (bool_decide (s = "")) && bool_decide (generateState key nonce now = s)) eqn:E; [|done].
  apply andb_prop in E as [_ E]. apply bool_decide_eq_true in E. congruence.
Qed.
