(* ===== verification/Sdk.v ===== *)
(** * Data of the SDK (pkg/frontend/frontendsdkadapter)

    Clients put, get and delete several values in one request, whose parts are
    ranges of the body, and execute a function on uploaded data. The data system
    is an interface, which the operations of file DataSystem implement over the
    client of the libruntime; the values that are uploaded are slices of the one
    buffer of the body, and are cleared in it. *)

From stdpp Require Import base gmap list strings.
From S2P Require Import Prelude GoStrings Json JsonMarshal DataSystem Urn InvokeResponse.
Open Scope string_scope.
Open Scope go_scope.

(** ** Payloads (models/multidata_model.go, parser/payload_parser.go) *)

Record PayloadInfo := MkInfo { DataPrefix : string; DataKey : string; Offset : Z; Length : Z; NeedEncrypt : bool }.

Definition decode_info (kvs : list (string * any)) : option PayloadInfo :=
  MkInfo <$> string_field "dataPrefix" kvs <*> string_field "dataKey" kvs <*> int_field "offset" kvs <*> int_field "len" kvs
    <*> field to_bool false "needEncrypt" kvs.

(** A pointer to an entry; null gives nil. *)
Definition to_entry (v : any) : option (option PayloadInfo) :=
  match v with JNull => Some None | JObject kvs => Some <$> decode_info kvs | _ => None end.

Definition ParsePayloadHeaderJSON (payloadInfoStr : string) : res string (list (option PayloadInfo)) :=
  match Unmarshal payloadInfoStr with
  | Some JNull => Ok []
  | Some (JArray l) => match mapM to_entry l with Some infos => Ok infos | None => Err "payloadInfo json invalid" end
  | _ => Err "payloadInfo json invalid"
  end.

Definition omit_empty (name s : string) : list (string * any) := if bool_decide (s = "") then [] else [(name, JString s)].
Definition info_json (i : PayloadInfo) : any :=
  JObject (omit_empty "dataPrefix" (DataPrefix i) ++ omit_empty "dataKey" (DataKey i) ++
           [("offset", JNumber (FormatInt (Offset i))); ("len", JNumber (FormatInt (Length i)))] ++
           (if NeedEncrypt i then [("needEncrypt", JBool true)] else []))%list.
Definition ToJSON (infos : list PayloadInfo) : string := Marshal (JArray (info_json <$> infos)).

Definition DataKeyPrefixJoin (infos : list (option PayloadInfo)) : option (list string) := mapM (fmap (λ i, DataPrefix i +:+ DataKey i)) infos.

(** A part of the body: a slice that shares its bytes with the body. *)
Record MultipartData := MkPart { md_prefix : string; md_off : Z; md_len : Z }.

Definition int64 (z : Z) : Z := wrapS 64 z.

(** [body[offset:offset+length]] for a body of [n] bytes; [None] is the panic. *)
Definition slice (n off stop : Z) : option Z := if (0 <=? off)%Z && (off <=? stop)%Z && (stop <=? n)%Z then Some (stop - off)%Z else None.

Fixpoint parsePayloadData (n : Z) (infos : list (option PayloadInfo)) : option (res string (list MultipartData * Z)) :=
  match infos with
  | [] => Some (Ok ([], 0%Z))
  | None :: _ => None
  | Some i :: infos =>
      let stop := int64 (Offset i + Length i) in
      if (n <? stop)%Z then Some (Err "payload len invalid")
      else
        match slice n (Offset i) stop with
        | None => None
        | Some len =>
            match parsePayloadData n infos with
            | None => None
            | Some (Err e) => Some (Err e)
            | Some (Ok (l, size)) => Some (Ok (MkPart (DataPrefix i) (Offset i) len :: l, int64 (size + len)))
            end
        end
  end.

(** The bytes of a slice, and the buffer with the slice set to zero. *)
Definition bytes_at (off len : Z) (buf : string) : string := str_take (Z.to_nat len) (str_drop (Z.to_nat off) buf).
Fixpoint zeros (n : nat) : string := match n with O => "" | S n => String (ascii_of_nat 0) (zeros n) end.
Definition ClearByteMemory (off len : Z) (buf : string) : string :=
  str_take (Z.to_nat off) buf +:+ zeros (Z.to_nat len) +:+ str_drop (Z.to_nat (off + len)) buf.

(** The entries of a response: the values one after the other. *)
Fixpoint gen_infos (offset : Z) (keys data : list string) : list PayloadInfo :=
  match keys, data with
  | k :: keys, d :: data => MkInfo "" k offset (Z.of_nat (String.length d)) false :: gen_infos (offset + Z.of_nat (String.length d)) keys data
  | _, _ => []
  end.

Definition genPayloadInfo (keys data : list string) : res string (option (list PayloadInfo)) :=
  if negb (length keys =? length data)%nat
  then Err ("keylen = " +:+ FormatInt (Z.of_nat (length keys)) +:+ " is not equals to data len = " +:+ FormatInt (Z.of_nat (length data)))
  else match keys with [] => Ok None | _ => Ok (Some (gen_infos 0 keys data)) end.
Definition genGetPayloadInfo (infos : list PayloadInfo) (data : list string) : res string (option (list PayloadInfo)) := genPayloadInfo (DataKey <$> infos) data.
Definition genExecPayloadInfo : list string → list string → res string (option (list PayloadInfo)) := genPayloadInfo.

(** ** The data system as the adapter sees it *)

Inductive ds_failure := KeyNotFound | SizeExceeded | OtherFailure.

(** [UploadWithKeyRetry], [DownloadArrayRetry] and [DeleteArrayRetry]. *)
Class DataSystemOps (St : Type) := {
  ds_upload : string → string → string → St → option string * St;
  ds_download : string → list string → St → res ds_failure (list string) * St;
  ds_delete : string → list string → St → bool * St }.

(** What they promise in terms of the values under the keys of a tenant. Values
    may vanish (they expire, and others delete them), but a key that was used is
    not given to another value. An upload that succeeds stores its value under
    a key of its own; a download that succeeds gives the values that are there;
    a deletion that succeeds removes exactly its keys. *)
Class DataSystemLaws (St : Type) `{DataSystemOps St} := {
  ds_view : St → string → string → option string;
  ds_used : St → string → string → Prop;
  ds_others : St → St → Prop;
  others_keep : ∀ s s' t x, ds_others s s' → ds_used s t x → ds_used s' t x ∧ (ds_view s' t x = ds_view s t x ∨ ds_view s' t x = None);
  upload_ok : ∀ t p v s k s', ds_upload t p v s = (Some k, s') → ds_used s' t (p +:+ k) ∧ ds_view s' t (p +:+ k) = Some v;
  upload_keeps : ∀ t p v s r s' t' x, ds_upload t p v s = (r, s') → ds_used s t' x →
    ds_used s' t' x ∧ (ds_view s' t' x = ds_view s t' x ∨ ds_view s' t' x = None);
  download_ok : ∀ t ks s vs s', ds_download t ks s = (Ok vs, s') → ∃ s1, ds_others s s1 ∧ mapM (ds_view s1 t) ks = Some vs;
  delete_ok : ∀ t ks s s', ds_delete t ks s = (true, s') → ∃ s1, ds_others s s1 ∧
    ∀ t' x, ds_view s' t' x = if decide (t' = t ∧ x ∈ ks) then None else ds_view s1 t' x }.

(** ** Responses *)

(** An error with its code. *)
Definition sn_error : Type := Z * string.

(** What is written: a JSON value, or a stream of values with their header. *)
Inductive response :=
| RJson (status innerCode : Z) (traceID : string) (body : any)
| RStream (status innerCode : Z) (traceID : string) (payloadInfo : option string) (data : list string).

Definition bad_json (e : sn_error) : any := JObject [("code", JNumber (FormatInt e.1)); ("message", JString e.2)].
(** [CommonErrorResponse.WriteResponse]: the status is always 200. *)
Definition error_response (e : sn_error) (traceID : string) : response := RJson 200 (wrapS 32 e.1) traceID (bad_json e).

Definition NewCommonErrorResponse (code : Z) (err traceID : string) : response := error_response (if (code =? 0)%Z then 200500%Z else code, err) traceID.
Definition NewCommonErrorResponseByError (e : sn_error) (traceID : string) : response := error_response e traceID.

Definition decode_bad (kvs : list (string * any)) : option sn_error := pair <$> int_field "code" kvs <*> string_field "message" kvs.
Definition NewCommonErrorResponseByBody (body errMsg traceID : string) : response :=
  error_response (match Unmarshal body ≫= to_struct (0%Z, "") decode_bad with Some e => e | None => (200500%Z, errMsg) end) traceID.

Definition set_response (keys : list string) (traceID : string) : response :=
  RJson (Code 0) 0 traceID (JObject [("dataKeys", match keys with [] => JNull | _ => JArray (JString <$> keys) end)]).
Definition del_response (traceID : string) : response := RJson 200 0 traceID (JObject [("code", JNumber "0"); ("message", JString "success")]).

(** [WriteResponse] of a success of get or execute. *)
Definition stream_response (infos : option (list PayloadInfo)) (data : list string) (traceID : string) : response :=
  if (match infos with None => negb (bool_decide (data = [])) | Some _ => bool_decide (data = []) end)
  then error_response (200500%Z, "payload incomplete: missing PayloadInfo or RawData") traceID
  else RStream (Code 0) 0 traceID (ToJSON <$> infos) data.

(** ** Requests (models, parser/request_parser.go) *)

Record request := MkRequest { rq_headers : gmap string (list string); rq_body : option string; rq_traceID : string; rq_newTraceID : string }.
Definition ParserHeader (r : request) : gmap string string := omap head (rq_headers r).
Definition header (r : request) (name : string) : string := default "" (ParserHeader r !! name).
Definition tenant (r : request) : string := header r "X-Tenant-Id".
Definition trace (r : request) : string := if bool_decide (rq_traceID r = "") then rq_newTraceID r else rq_traceID r.

(** The body as the client sent it ([None]: it cannot be read). *)
Definition ReadLimitedBody (maxReadSize : Z) (body : option string) : res string string :=
  match body with
  | None => Err "read body from gin request error"
  | Some b => if (maxReadSize <? Z.of_nat (String.length b))%Z then Err ("body is beyond maximum: " +:+ FormatInt maxReadSize) else Ok b
  end.

Definition new_request (maxBody : Z) (r : request) : res string (string * list (option PayloadInfo)) :=
  let* body := ReadLimitedBody maxBody (rq_body r) in
  let* infos := ParsePayloadHeaderJSON (header r "X-Data-System-Payload-Info") in
  Ok (body, infos).

(** With the parts of the body. *)
Definition new_data_request (maxBody : Z) (r : request) : option (res string (string * (list MultipartData * Z))) :=
  match new_request maxBody r with
  | Err e => Some (Err e)
  | Ok (body, infos) =>
      match parsePayloadData (Z.of_nat (String.length body)) infos with
      | None => None
      | Some (Err e) => Some (Err e)
      | Some (Ok d) => Some (Ok (body, d))
      end
  end.

Definition refused (e traceID : string) : response := NewCommonErrorResponse 200400 ("deserialize request failed, err: " +:+ e) traceID.

(** ** Services *)

Section Services.
Context {St : Type} `{DataSystemOps St}.

Fixpoint upload_parts (tenantID : string) (execMode : bool) (parts : list MultipartData) (buf : string) (s : St) (keys : list string) : res sn_error (list string) * St :=
  match parts with
  | [] => (Ok keys, s)
  | d :: parts =>
      let '(r, s) := ds_upload tenantID (if execMode then "" else md_prefix d) (bytes_at (md_off d) (md_len d) buf) s in
      let buf := ClearByteMemory (md_off d) (md_len d) buf in
      match r with
      | None => (Err (200701%Z, "internal upload failed"), s)
      | Some key => upload_parts tenantID execMode parts buf s (keys ++ [key])%list
      end
  end.

Definition uploadToDataSystem (tenantID : string) (execMode : bool) (d : list MultipartData * Z) (buf : string) (s : St) : res sn_error (list string) * St :=
  if (d.2 =? 0)%Z then (Ok [], s) else upload_parts tenantID execMode d.1 buf s [].

Definition downloadFromDataSystem (tenantID : string) (keys : list string) (s : St) : res sn_error (list string) * St :=
  match keys with
  | [] => (Ok [], s)
  | _ =>
      let '(r, s) := ds_download tenantID keys s in
      (match r with
       | Ok l => Ok l
       | Err KeyNotFound => Err (200704%Z, "key not found on data system")
       | Err SizeExceeded => Err (200702%Z, "download body too large")
       | Err OtherFailure => Err (200702%Z, "internal download failed")
       end, s)
  end.

Definition deleteFromDataSystem (tenantID : string) (keys : list string) (s : St) : res sn_error () * St :=
  match keys with
  | [] => (Ok (), s)
  | _ => let '(ok, s) := ds_delete tenantID keys s in (if ok then Ok () else Err (200703%Z, "internal delete failed"), s)
  end.

Definition MultiSetService (tenantID traceID : string) (d : list MultipartData * Z) (body : string) (s : St) : response * St :=
  match uploadToDataSystem tenantID false d body s with
  | (Err e, s) => (NewCommonErrorResponseByError e traceID, s)
  | (Ok keys, s) => (set_response keys traceID, s)
  end.

(** [None] is the panic of an entry that is nil. *)
Definition MultiGetService (tenantID traceID : string) (infos : list (option PayloadInfo)) (s : St) : option (response * St) :=
  match infos with
  | [] => Some (stream_response None [] traceID, s)
  | _ =>
      match DataKeyPrefixJoin infos with
      | None => None
      | Some keys =>
          let '(r, s) := downloadFromDataSystem tenantID keys s in
          Some (match r with
                | Err e => NewCommonErrorResponseByError e traceID
                | Ok data =>
                    match genGetPayloadInfo (omap id infos) data with
                    | Err e => NewCommonErrorResponseByError (200500%Z, e) traceID
                    | Ok payload => stream_response payload data traceID
                    end
                end, s)
      end
  end.

Definition MultiDelService (tenantID traceID : string) (infos : list (option PayloadInfo)) (s : St) : option (response * St) :=
  match infos with
  | [] => Some (del_response traceID, s)
  | _ =>
      match DataKeyPrefixJoin infos with
      | None => None
      | Some keys =>
          Some match deleteFromDataSystem tenantID keys s with
               | (Err e, s) => (NewCommonErrorResponseByError e traceID, s)
               | (Ok _, s) => (del_response traceID, s)
               end
      end
  end.

(** What the invocation did: its error, or the response with its header of keys,
    and the state that the function left. *)
Inductive invoked := InvokeFailed (e : string) | Invoked (status innerCode : Z) (respBody keysHeader : string).

Definition FieldsBar (s : string) : list string := filter (λ x, x ≠ "") (Split s "|").

Definition invoke (run : string → St → invoked * St) (traceID : string) (keys : list string) (s : St) : res response (list string) * St :=
  match keys with
  | [] => (Ok [], s)
  | _ =>
      let '(r, s) := run (Join keys "|") s in
      (match r with
       | InvokeFailed e => Err (NewCommonErrorResponse 200705 e traceID)
       | Invoked status innerCode respBody keysHeader =>
           if negb (status =? 200)%Z || negb (innerCode =? 0)%Z then Err (NewCommonErrorResponseByBody respBody "invoke err" traceID)
           else Ok (FieldsBar keysHeader)
       end, s)
  end.

Definition downloadAndGenerateResponse (tenantID traceID : string) (keys : list string) (s : St) : response * St :=
  let '(r, s) := downloadFromDataSystem tenantID keys s in
  (match r with
   | Err e => NewCommonErrorResponseByError e traceID
   | Ok data =>
       match genExecPayloadInfo keys data with
       | Err e => NewCommonErrorResponseByError (200500%Z, e) traceID
       | Ok payload => stream_response payload data traceID
       end
   end, s).

Definition urn_message (urn : string) (e : urn_error) : string :=
  match e with
  | ErrURNLength => "parsing an URN error: failed to parse urn from: " +:+ urn +:+ ", invalid length: " +:+ FormatInt (Z.of_nat (length (Split urn ":")))
  | _ => "incorrect URN length, no version"
  end.

(** [functionURN]: the name of the request after alias routing; [run] gets the
    function key and the keys of the data. *)
Definition ExecuteService (functionURN tenantID traceID : string) (run : string → string → St → invoked * St) (d : list MultipartData * Z) (body : string) (s : St) : response * St :=
  match GetFuncInfoWithVersion functionURN with
  | Err e => (NewCommonErrorResponse 200400 (urn_message functionURN e) traceID, s)
  | Ok urn =>
      let funcKey := CombineFunctionKey (TenantID urn) (FuncName urn) (FuncVersion urn) in
      match uploadToDataSystem tenantID true d body s with
      | (Err e, s) => (NewCommonErrorResponseByError e traceID, s)
      | (Ok keys, s) =>
          let '(r, s) := invoke (run funcKey) traceID keys s in
          let '(answer, s) := match r with Err e => (e, s) | Ok resKeys => downloadAndGenerateResponse tenantID traceID resKeys s end in
          (answer, (deleteFromDataSystem tenantID keys s).2)
      end
  end.

(** ** Handlers *)

Definition MultiSetHandler (maxBody : Z) (r : request) (s : St) : option (response * St) :=
  match new_data_request maxBody r with
  | None => None
  | Some (Err e) => Some (refused e (trace r), s)
  | Some (Ok (body, d)) => Some (MultiSetService (tenant r) (trace r) d body s)
  end.

Definition MultiGetHandler (maxBody : Z) (r : request) (s : St) : option (response * St) :=
  match new_request maxBody r with
  | Err e => Some (refused e (trace r), s)
  | Ok (_, infos) => MultiGetService (tenant r) (trace r) infos s
  end.

Definition MultiDelHandler (maxBody : Z) (r : request) (s : St) : option (response * St) :=
  match new_request maxBody r with
  | Err e => Some (refused e (trace r), s)
  | Ok (_, infos) => MultiDelService (tenant r) (trace r) infos s
  end.

Definition ExecuteHandler (maxBody : Z) (functionURN : string) (run : string → string → St → invoked * St) (r : request) (s : St) : option (response * St) :=
  match new_data_request maxBody r with
  | None => None
  | Some (Err e) => Some (refused e (trace r), s)
  | Some (Ok (body, d)) => Some (ExecuteService functionURN (tenant r) (trace r) run d body s)
  end.
End Services.

(** * Properties *)

(** ** Payload descriptions are read back *)

Definition info_ok (i : PayloadInfo) : Prop :=
  valid_utf8 0 (DataPrefix i) = true ∧ valid_utf8 0 (DataKey i) = true ∧ (- 2 ^ 63 ≤ Offset i < 2 ^ 63)%Z ∧ (- 2 ^ 63 ≤ Length i < 2 ^ 63)%Z.

Lemma info_json_good i : info_ok i → good (info_json i) = true.
Proof.
  intros (H1 & H2 & H3 & H4). unfold info_json, omit_empty. cbn [good].
  pose proof (good_int _ H3) as G3. pose proof (good_int _ H4) as G4.
  destruct (bool_decide (DataPrefix i = "")), (bool_decide (DataKey i = "")), (NeedEncrypt i); cbn [app forallb fst snd] in *;
    cbn [good] in *; rewrite ?H1, ?H2, ?G3, ?G4; vm_compute; reflexivity.
Qed.

Lemma info_json_decoded i : info_ok i → to_entry (info_json i) = Some (Some i).
Proof.
  intros (_ & _ & H3 & H4). unfold info_json, omit_empty. destruct i as [p k o l e]. cbn [DataPrefix DataKey Offset Length NeedEncrypt] in *.
  pose proof (Atoi_FormatInt _ H3) as G3. pose proof (Atoi_FormatInt _ H4) as G4. revert G3 G4. generalize (FormatInt o) (FormatInt l). intros lo ll G3 G4.
  unfold to_entry, decode_info, string_field, int_field.
  destruct (decide (p = "")) as [->|Hp], (decide (k = "")) as [->|Hk], e;
    rewrite ?(bool_decide_true ("" = "")), ?(bool_decide_false (p = "")), ?(bool_decide_false (k = "")) by done; cbn [app];
    cbv -[Atoi]; rewrite G3, G4; reflexivity.
Qed.

Lemma header_roundtrip infos : Forall info_ok infos → ParsePayloadHeaderJSON (ToJSON infos) = Ok (Some <$> infos).
Proof.
  intros H. unfold ParsePayloadHeaderJSON, ToJSON. rewrite Unmarshal_Marshal; cycle 1.
  { cbn [good]. apply forallb_forall. intros v Hv. apply list_elem_of_In, list_elem_of_fmap in Hv as (i & -> & Hi).
    rewrite Forall_forall in H. by apply info_json_good, H. }
  assert (mapM to_entry (info_json <$> infos) = Some (Some <$> infos)) as ->; [|done].
  apply mapM_Some. induction H as [|i infos Hi _ IH]; constructor; [by apply info_json_decoded|exact IH].
Qed.

(** The values one after the other. *)
Definition concatenated (data : list string) : string := foldr String.app "" data.
Definition size_of (data : list string) : Z := Z.of_nat (String.length (concatenated data)).

Lemma size_cons d data : size_of (d :: data) = (Z.of_nat (String.length d) + size_of data)%Z.
Proof. unfold size_of. change (concatenated (d :: data)) with (d +:+ concatenated data). rewrite length_app_str. lia. Qed.

(** The parts of a body with these values from an offset on. *)
Fixpoint parts_at (off : Z) (prefixes data : list string) : list MultipartData :=
  match prefixes, data with
  | p :: prefixes, d :: data => MkPart p off (Z.of_nat (String.length d)) :: parts_at (off + Z.of_nat (String.length d)) prefixes data
  | _, _ => []
  end.

Lemma bytes_at_middle pre d post : bytes_at (Z.of_nat (String.length pre)) (Z.of_nat (String.length d)) (pre +:+ d +:+ post) = d.
Proof. unfold bytes_at. by rewrite !Nat2Z.id, str_drop_app, str_take_app. Qed.

Lemma gen_infos_parsed n : ∀ keys data off, length keys = length data → (0 ≤ off)%Z → (off + size_of data ≤ n)%Z → (n < 2 ^ 63)%Z →
  parsePayloadData n (Some <$> gen_infos off keys data) = Some (Ok (parts_at off (replicate (length keys) "") data, size_of data)).
Proof.
  induction keys as [|k keys IH]; intros [|d data] off Hl H0 H1 H2; try done.
  injection Hl as Hl. rewrite size_cons in *. cbn [gen_infos fmap list_fmap parsePayloadData Offset Length DataPrefix replicate length parts_at].
  assert (0 ≤ size_of data)%Z by (unfold size_of; lia).
  unfold int64. rewrite !(wrapS_small 64) by lia.
  destruct (n <? _)%Z eqn:E; [apply Z.ltb_lt in E; lia|]. unfold slice.
  rewrite !(proj2 (Z.leb_le _ _)) by lia. cbn [andb]. change (gen_infos _ keys data) with (gen_infos (off + Z.of_nat (String.length d)) keys data).
  rewrite (IH data) by (done || lia). rewrite (wrapS_small 64) by lia. do 3 f_equal; [f_equal; f_equal; lia|lia].
Qed.

Lemma parts_at_bytes : ∀ prefixes data pre, length prefixes = length data →
  (λ p, bytes_at (md_off p) (md_len p) (pre +:+ concatenated data)) <$> parts_at (Z.of_nat (String.length pre)) prefixes data = data.
Proof.
  induction prefixes as [|p prefixes IH]; intros [|d data] pre Hl; try done. injection Hl as Hl. cbn [parts_at fmap list_fmap md_off md_len concatenated foldr].
  fold (concatenated data). f_equal; [apply bytes_at_middle|]. rewrite <- app_assoc_str.
  replace (Z.of_nat (String.length pre) + Z.of_nat (String.length d))%Z with (Z.of_nat (String.length (pre +:+ d))) by (rewrite length_app_str; lia). by apply IH.
Qed.

Lemma gen_infos_keys : ∀ keys data off, length keys = length data → DataKey <$> gen_infos off keys data = keys.
Proof. induction keys as [|k keys IH]; intros [|d data] off Hl; try done. cbn. f_equal. apply IH. by injection Hl. Qed.

Lemma gen_infos_ok : ∀ keys data off, Forall (λ k, valid_utf8 0 k = true) keys → (0 ≤ off)%Z → (off + size_of data < 2 ^ 63)%Z → Forall info_ok (gen_infos off keys data).
Proof.
  induction keys as [|k keys IH]; intros [|d data] off Hk H0 H1; try constructor.
  - apply Forall_cons in Hk as [Hk _]. rewrite size_cons in H1. assert (0 ≤ size_of data)%Z by (unfold size_of; lia).
    unfold info_ok. cbn [DataPrefix DataKey Offset Length]. split_and!; try done; lia.
  - apply Forall_cons in Hk as [_ Hk]. rewrite size_cons in H1. apply IH; [done|lia|lia].
Qed.

(** A client that reads a response of get or execute the way the frontend reads
    a request gets the keys and the values back. *)
Theorem payload_roundtrip keys data infos :
  Forall (λ k, valid_utf8 0 k = true) keys → (size_of data < 2 ^ 63)%Z → genPayloadInfo keys data = Ok (Some infos) →
  ParsePayloadHeaderJSON (ToJSON infos) = Ok (Some <$> infos) ∧ DataKey <$> infos = keys ∧
  ∃ parts, parsePayloadData (size_of data) (Some <$> infos) = Some (Ok (parts, size_of data)) ∧
    (λ p, bytes_at (md_off p) (md_len p) (concatenated data)) <$> parts = data.
Proof.
  intros Hk Hs. unfold genPayloadInfo. destruct (length keys =? length data)%nat eqn:E; [|done]. apply Nat.eqb_eq in E. cbn [negb].
  intros Hg. assert (infos = gen_infos 0 keys data) as -> by (destruct keys; [done|congruence]).
  split; [apply header_roundtrip, gen_infos_ok; [done|lia|lia]|]. split; [by apply gen_infos_keys|].
  eexists. split; [by apply gen_infos_parsed; lia|]. exact (parts_at_bytes (replicate (length keys) "") data "" ltac:(by rewrite length_replicate)).
Qed.

(** ** Values that were set can be read *)

Lemma zeros_length n : String.length (zeros n) = n.
Proof. induction n; cbn; congruence. Qed.

Lemma clear_middle pre d post :
  ClearByteMemory (Z.of_nat (String.length pre)) (Z.of_nat (String.length d)) (pre +:+ d +:+ post) = (pre +:+ zeros (String.length d)) +:+ post.
Proof.
  unfold ClearByteMemory. rewrite <- Nat2Z.inj_add, !Nat2Z.id, str_take_app, <- app_assoc_str. f_equal.
  rewrite <- (length_app_str pre d), <- app_assoc_str. apply str_drop_app.
Qed.

Section Store.
Context {St : Type} `{DataSystemLaws St}.

(** The keys under which values were stored. *)
Definition full_keys (prefixes keys : list string) : list string := zip_with (λ p k, p +:+ k) prefixes keys.

(** What was used preserves its value or loses it. *)
Definition preserves (s s' : St) : Prop :=
  ∀ t x, ds_used s t x → ds_used s' t x ∧ (ds_view s' t x = ds_view s t x ∨ ds_view s' t x = None).

Lemma preserves_trans s1 s2 s3 : preserves s1 s2 → preserves s2 s3 → preserves s1 s3.
Proof.
  intros H1 H2 t x Hu. destruct (H1 t x Hu) as [Hu2 E1]. destruct (H2 t x Hu2) as [Hu3 E2]. split; [done|].
  destruct E1 as [E1|E1], E2 as [E2|E2]; rewrite ?E2, ?E1; auto.
Qed.

(** A key holds its value or nothing. *)
Definition holds (s : St) (t key v : string) : Prop := ds_used s t key ∧ (ds_view s t key = Some v ∨ ds_view s t key = None).
Lemma holds_preserved s s' t key v : preserves s s' → holds s t key v → holds s' t key v.
Proof. intros Hk [Hu Hv]. destruct (Hk t key Hu) as [Hu' [E|E]]; split; auto; rewrite E; auto. Qed.

Lemma upload_parts_holds t : ∀ prefixes data pre (s s' : St) keys0 keys, length prefixes = length data →
  upload_parts t false (parts_at (Z.of_nat (String.length pre)) prefixes data) (pre +:+ concatenated data) s keys0 = (Ok keys, s') →
  ∃ new, keys = (keys0 ++ new)%list ∧ length new = length data ∧ Forall2 (holds s' t) (full_keys prefixes new) data ∧ preserves s s'.
Proof.
  induction prefixes as [|p prefixes IH]; intros [|d data] pre s s' keys0 keys Hl; try done; cbn [parts_at upload_parts].
  { intros [= <- <-]. exists []. split_and!; [by rewrite app_nil_r|done|constructor|]. intros t' x Hu. auto. }
  injection Hl as Hl. cbn [md_prefix md_off md_len concatenated foldr]. fold (concatenated data). change (String.app d (concatenated data)) with (d +:+ concatenated data).
  rewrite bytes_at_middle, clear_middle. destruct (ds_upload t p d s) as [[k|] s1] eqn:E; [|done].
  assert (preserves s s1) as Hk1 by (intros t' x; by eapply upload_keeps). apply upload_ok in E as [Hu Hv].
  replace (Z.of_nat (String.length pre) + Z.of_nat (String.length d))%Z with (Z.of_nat (String.length (pre +:+ zeros (String.length d))))
    by (rewrite length_app_str, zeros_length; lia).
  intros Hup. destruct (IH _ _ _ _ _ _ Hl Hup) as (new & -> & Hlen & Hnew & Hold). exists (k :: new).
  split_and!; [by rewrite <- app_assoc|cbn; congruence| |by eapply preserves_trans].
  constructor; [|exact Hnew]. eapply holds_preserved; [exact Hold|]. split; auto.
Qed.

Lemma held_values s t ks data vs : Forall2 (holds s t) ks data → mapM (ds_view s t) ks = Some vs → vs = data.
Proof.
  intros Hh Hv. apply mapM_Some in Hv. revert vs Hv. induction Hh as [|k d ks data [_ Hd] _ IH]; intros vs Hv; inversion Hv; subst; [done|].
  f_equal; [|by apply IH]. destruct Hd; congruence.
Qed.

(** The request for the keys that were answered. *)
Definition infos_of (prefixes keys : list string) : list (option PayloadInfo) := zip_with (λ p k, Some (MkInfo p k 0 0 false)) prefixes keys.

Lemma set_then_read t trace1 trace2 prefixes data keys (s s' s2 : St) :
  length prefixes = length data → size_of data ≠ 0%Z →
  uploadToDataSystem t false (parts_at 0 prefixes data, size_of data) (concatenated data) s = (Ok keys, s') → preserves s' s2 →
  MultiSetService t trace1 (parts_at 0 prefixes data, size_of data) (concatenated data) s = (set_response keys trace1, s') ∧
  MultiGetService t trace2 (infos_of prefixes keys) s2 =
    let '(r, s3) := ds_download t (full_keys prefixes keys) s2 in
    Some (match r with
          | Ok _ => stream_response (Some (gen_infos 0 keys data)) data trace2
          | Err KeyNotFound => NewCommonErrorResponseByError (200704%Z, "key not found on data system") trace2
          | Err SizeExceeded => NewCommonErrorResponseByError (200702%Z, "download body too large") trace2
          | Err OtherFailure => NewCommonErrorResponseByError (200702%Z, "internal download failed") trace2
          end, s3).
Proof.
  intros Hl Hz Hup Hk. split; [unfold MultiSetService; by rewrite Hup|].
  unfold uploadToDataSystem in Hup. cbn [fst snd] in Hup. apply Z.eqb_neq in Hz. rewrite Hz in Hup.
  destruct (upload_parts_holds t prefixes data "" s s' [] keys Hl Hup) as (new & -> & Hlen & Hnew & _). cbn [app].
  assert (length prefixes = length new) as Hpn by congruence. unfold infos_of.
  set (infos := zip_with (λ p k, Some (MkInfo p k 0 0 false)) prefixes new).
  assert (DataKeyPrefixJoin infos = Some (full_keys prefixes new)) as Hjoin.
  { unfold infos, full_keys, DataKeyPrefixJoin. clear -Hpn. revert new Hpn.
    induction prefixes as [|p prefixes IH]; intros [|k new] Hpn; try done. cbn. injection Hpn as Hpn. by rewrite (IH new Hpn). }
  assert (DataKey <$> omap id infos = new) as Hkeys.
  { unfold infos. clear -Hpn. revert new Hpn. induction prefixes as [|p prefixes IH]; intros [|k new] Hpn; try done. cbn. injection Hpn as Hpn. by rewrite (IH new Hpn). }
  assert (new ≠ []) as Hne. { intros ->. destruct data; [|done]. done. }
  assert (infos ≠ []) as Hne2 by (unfold infos; destruct prefixes, new; try done; cbn in *; congruence).
  unfold MultiGetService. destruct infos eqn:Ei; [done|]. rewrite <- Ei in *. rewrite Hjoin. unfold downloadFromDataSystem.
  assert (full_keys prefixes new ≠ []) as Hne3 by (unfold full_keys; destruct prefixes, new; try done; cbn in *; congruence).
  destruct (full_keys prefixes new) eqn:Ef; [done|]. rewrite <- Ef in *. destruct (ds_download t _ s2) as [[vs|[]] s3] eqn:Ed; try done.
  apply download_ok in Ed as (s1 & Ho & Hv). assert (vs = data) as ->.
  { eapply held_values; [|exact Hv]. eapply Forall2_impl; [exact Hnew|]. intros k d Hd. eapply holds_preserved; [|exact Hd].
    eapply preserves_trans; [exact Hk|]. intros t' x Hu. by eapply others_keep. }
  unfold genGetPayloadInfo, genPayloadInfo. rewrite Hkeys, Hlen, Nat.eqb_refl. cbn [negb]. destruct new; [done|done].
Qed.

(** What a function was given is removed afterwards, whatever it answered, and
    nothing else: of all other values the store preserves what the function and
    others left. *)
Theorem execute_cleans_up urn f t trace run d body keys (s s1 s2 s3 s4 : St) r answer :
  GetFuncInfoWithVersion urn = Ok f → uploadToDataSystem t true d body s = (Ok keys, s1) →
  invoke (run (CombineFunctionKey (TenantID f) (FuncName f) (FuncVersion f))) trace keys s1 = (r, s2) →
  match r with Err e => (e, s2) | Ok resKeys => downloadAndGenerateResponse t trace resKeys s2 end = (answer, s3) →
  ds_delete t keys s3 = (true, s4) → keys ≠ [] →
  ExecuteService urn t trace run d body s = (answer, s4) ∧
  ∃ s5, ds_others s3 s5 ∧ ∀ t' x, ds_view s4 t' x = if decide (t' = t ∧ x ∈ keys) then None else ds_view s5 t' x.
Proof.
  intros Hf Hup Hin Han Hdel Hne. unfold ExecuteService. rewrite Hf, Hup, Hin, Han. unfold deleteFromDataSystem.
  destruct keys as [|k keys]; [done|]. rewrite Hdel. split; [done|]. by apply delete_ok in Hdel.
Qed.
End Store.

(** ** The operations of the client *)

(** What the libruntime's client does, and what its documentation says of it. The
    values are those of all tenants, with all keys that were ever used. Between
    two operations values expire, others add and delete values of their own; a
    generated key is new; a call that reports success has had its effect; values
    that are read are those that are stored. *)
Inductive ds_request := Upload (prefix value : string) | Download (keys : list string) | Remove (keys : list string).

Abbreviation contents := (kvs * gset (string * string))%type.
Record service := MkService {
  meanwhile : nat → contents → contents;
  answers : nat → string → ds_request → contents → nat → turn;
  sv_others : ∀ n c, c.2 ⊆ (meanwhile n c).2 ∧ ∀ k, k ∈ c.2 → (meanwhile n c).1 !! k = c.1 !! k ∨ (meanwhile n c).1 !! k = None;
  sv_key : ∀ n t r c i p, genKey (answers n t r c i) ≠ "" → (t, p +:+ genKey (answers n t r c i)) ∉ c.2;
  sv_set : ∀ n t r c i, set_code (answers n t r c i) = 0%Z → took (answers n t r c i) = true;
  sv_get : ∀ n t ks c i, get_code (answers n t (Download ks) c i) = 0%Z →
    mapM (λ k, c.1 !! (t, k)) ks = Some (values (answers n t (Download ks) c i));
  sv_del : ∀ n t r c i, del_code (answers n t r c i) = 0%Z → failedKeys (answers n t r c i) = [] → took (answers n t r c i) = true }.

(** [turns_max]: a bound on the turns of an operation. *)
Record ds_state := MkState { env : service; turns_max : nat; data : kvs; used : gset (string * string); nodes : world; count : nat }.

Definition evolve (s : ds_state) : ds_state :=
  let c := meanwhile (env s) (count s) (data s, used s) in MkState (env s) (turns_max s) c.1 c.2 (nodes s) (S (count s)).
Definition after (m : kvs) (w : world) (s : ds_state) : ds_state := MkState (env s) (turns_max s) m (used s ∪ dom m) w (count s).
Definition turns_of (t : string) (r : ds_request) (s : ds_state) : nat → turn := answers (env s) (count s) t r (data s, used s).
Definition sdk_config (t prefix : string) : Config := MkConfig t "" false false prefix "" 0 [] false.

Definition failure_of (e : ds_error) : ds_failure :=
  match e with ErrKeyNotFound => KeyNotFound | ErrValueSizeExceeded => SizeExceeded | _ => OtherFailure end.

#[export] Instance client_ops : DataSystemOps ds_state := {
  ds_upload t p v s :=
    let s := evolve s in
    let turns := turns_of t (Upload p v) s in
    let m := effects (uploadWithKey v) (turns_max s) 0 turns (sdk_config t p) (nodes s) (data s) in
    match UploadWithKeyRetry v (turns_max s) 0 turns (sdk_config t p) (nodes s) [] with
    | Some (Ok k, _, w, _) => (Some k, after m w s)
    | Some (Err _, _, w, _) => (None, after m w s)
    | None => (None, after m (nodes s) s)
    end;
  ds_download t ks s :=
    let s := evolve s in
    match DownloadArrayRetry ks (turns_max s) 0 (turns_of t (Download ks) s) (sdk_config t "") (nodes s) [] with
    | Some (Ok vs, _, w, _) => (Ok vs, after (data s) w s)
    | Some (Err e, _, w, _) => (Err (failure_of e), after (data s) w s)
    | None => (Err OtherFailure, s)
    end;
  ds_delete t ks s :=
    let s := evolve s in
    let turns := turns_of t (Remove ks) s in
    let m := effects (deleteArray ks) (turns_max s) 0 turns (sdk_config t "") (nodes s) (data s) in
    match DeleteArrayRetry ks (turns_max s) 0 turns (sdk_config t "") (nodes s) [] with
    | Some ((_, None), _, w, _) => (true, after m w s)
    | Some ((_, Some _), _, w, _) => (false, after m w s)
    | None => (false, after m (nodes s) s)
    end }.

Lemma upload_effects t p v s m :
  m = effects (uploadWithKey v) (turns_max s) 0 (turns_of t (Upload p v) s) (sdk_config t p) (nodes s) (data s) →
  (∀ k, k ∈ used s → m !! k = data s !! k) ∧
  ∀ a cfg' w' log', UploadWithKeyRetry v (turns_max s) 0 (turns_of t (Upload p v) s) (sdk_config t p) (nodes s) [] = Some (Ok a, cfg', w', log') →
    m !! (t, p +:+ a) = Some v.
Proof.
  intros ->. destruct (retry_data (uploadWithKey v) (turns_of t (Upload p v) s) (sdk_config t p) (λ m, ∀ k, k ∈ used s → m !! k = data s !! k)
    (λ a m, m !! (t, p +:+ a) = Some v)) with (fuel := turns_max s) (n := 0%nat) (cfg := sdk_config t p) (w := nodes s) (m := data s) as [H1 H2]; [|done|done|].
  - intros n cfg m (Ht & Hg & He & Hp) Hm. unfold uploadWithKey, getDataSystemKey. rewrite Ht, Hg, He, Hp. cbn [sdk_config NoNeedGenKey DataSystem.NeedEncrypt DataSystem.TenantID KeyPrefix].
    set (u := turns_of t (Upload p v) s n). case_bool_decide as Ek; [by destruct (took u)|]. destruct (tenant_ok u); cbn [negb]; [|by destruct (took u)].
    assert ((t, p +:+ genKey u) ∉ used s) as Hnew by (apply (sv_key (env s) _ _ _ (data s, used s)); exact Ek). split.
    + destruct (took u); [|done]. intros k Hk. cbn. rewrite lookup_insert_ne; [auto|]. by intros <-.
    + intros a. unfold set_status. destruct (set_code u =? 0)%Z eqn:Es; [|done]. intros [= <-]. apply Z.eqb_eq in Es.
      pose proof (sv_set (env s) _ _ _ _ _ Es) as Htk. change (took u = true) in Htk. rewrite Htk. apply lookup_insert_eq.
  - split; [exact H1|]. intros a cfg' w' log' Hr. by eapply H2.
Qed.

Lemma download_values t ks s vs cfg' w' log' :
  DownloadArrayRetry ks (turns_max s) 0 (turns_of t (Download ks) s) (sdk_config t "") (nodes s) [] = Some (Ok vs, cfg', w', log') →
  mapM (λ k, data s !! (t, k)) ks = Some vs.
Proof.
  intros Hr. refine (proj2 (retry_data (downloadArray ks) (turns_of t (Download ks) s) (with_limit (sdk_config t "")) (λ _, True)
    (λ vs _, mapM (λ k, data s !! (t, k)) ks = Some vs) _ (turns_max s) 0 (with_limit (sdk_config t "")) (nodes s) ∅ _ I) _ _ _ _ _ Hr); [|done].
  intros n cfg m (_ & _ & He & _) _. unfold downloadArray. rewrite He. cbn [with_limit sdk_config DataSystem.NeedEncrypt].
  set (u := turns_of t (Download ks) s n). destruct (tenant_ok u); cbn [negb]; [|done]. destruct (checkStatus (query_code u)) as [[]|?]; [|done].
  destruct (_ <? _)%Z; [done|]. split; [done|]. intros a. unfold checkStatus. destruct (get_code u =? 0)%Z eqn:Eg; [|by destruct (get_code u =? 3)%Z].
  intros [= <-]. apply Z.eqb_eq in Eg. exact (sv_get (env s) _ _ _ (data s, used s) _ Eg).
Qed.

Lemma delete_effects t ks s m :
  m = effects (deleteArray ks) (turns_max s) 0 (turns_of t (Remove ks) s) (sdk_config t "") (nodes s) (data s) →
  (∀ k, ¬ (k.1 = t ∧ k.2 ∈ ks) → m !! k = data s !! k) ∧
  ∀ a cfg' w' log', retry (deleteArray ks) (turns_max s) 0 (turns_of t (Remove ks) s) (sdk_config t "") (nodes s) [] = Some (Ok a, cfg', w', log') →
    ∀ x, x ∈ ks → m !! (t, x) = None.
Proof.
  intros ->. destruct (retry_data (deleteArray ks) (turns_of t (Remove ks) s) (sdk_config t "") (λ m, ∀ k, ¬ (k.1 = t ∧ k.2 ∈ ks) → m !! k = data s !! k)
    (λ _ m, ∀ x, x ∈ ks → m !! (t, x) = None)) with (fuel := turns_max s) (n := 0%nat) (cfg := sdk_config t "") (w := nodes s) (m := data s) as [H1 H2]; [|done|done|].
  - intros n cfg m (Ht & _) Hm. unfold deleteArray. rewrite Ht. cbn [sdk_config DataSystem.TenantID].
    set (u := turns_of t (Remove ks) s n). destruct (tenant_ok u); cbn [negb]; [|by destruct (took u)]. split.
    + destruct (took u); [|done]. intros k Hk. cbn. rewrite <- (Hm k Hk). destruct (m !! k) as [v|] eqn:E.
      * by apply map_lookup_filter_Some.
      * apply map_lookup_filter_None. by left.
    + intros a. unfold set_status. destruct (del_code u =? 0)%Z eqn:Es; [|done]. cbn [res_bind]. destruct (failedKeys u) eqn:Ef; [|done]. intros _ x Hx.
      apply Z.eqb_eq in Es. pose proof (sv_del (env s) _ _ _ _ _ Es Ef) as Htk. change (took u = true) in Htk. rewrite Htk. cbn.
      apply map_lookup_filter_None. right. intros y _ Hn. by apply Hn.
  - split; [exact H1|]. intros a cfg' w' log' Hr. by eapply H2.
Qed.

#[export] Program Instance client_laws : DataSystemLaws ds_state := {
  ds_view s t k := data s !! (t, k);
  ds_used s t k := (t, k) ∈ used s;
  ds_others s s' := used s ⊆ used s' ∧ ∀ k, k ∈ used s → data s' !! k = data s !! k ∨ data s' !! k = None }.
Next Obligation. intros s s' t x [H1 H2] Hu. split; [by apply H1|by apply H2]. Qed.
Next Obligation.
  intros t p v s k s' E. cbn in E. set (s0 := evolve s) in *. destruct (upload_effects t p v s0 _ eq_refl) as [_ H2].
  destruct (UploadWithKeyRetry _ _ _ _ _ _ _) as [[[[[k'|] cfg'] w'] log']|] eqn:Er; [|done|done]. injection E as -> <-.
  specialize (H2 _ _ _ _ eq_refl). cbn. split; [|exact H2]. apply elem_of_union_r, elem_of_dom. eauto.
Qed.
Next Obligation.
  intros t p v s r s' t' x E Hu. cbn in E. set (s0 := evolve s) in *. destruct (upload_effects t p v s0 _ eq_refl) as [H1 _].
  destruct (sv_others (env s) (count s) (data s, used s)) as [Ho1 Ho2].
  assert ((t', x) ∈ used s0) as Hu0 by (apply Ho1; exact Hu).
  assert (∀ w, (t', x) ∈ used (after (effects (uploadWithKey v) (turns_max s0) 0 (turns_of t (Upload p v) s0) (sdk_config t p) (nodes s0) (data s0)) w s0) ∧
    (data (after (effects (uploadWithKey v) (turns_max s0) 0 (turns_of t (Upload p v) s0) (sdk_config t p) (nodes s0) (data s0)) w s0) !! (t', x) = data s !! (t', x) ∨
     data (after (effects (uploadWithKey v) (turns_max s0) 0 (turns_of t (Upload p v) s0) (sdk_config t p) (nodes s0) (data s0)) w s0) !! (t', x) = None)) as Hw.
  { intros w. cbn [after data used]. split; [by apply elem_of_union_l|]. rewrite (H1 _ Hu0). by apply Ho2. }
  destruct (UploadWithKeyRetry _ _ _ _ _ _ _) as [[[[[k'|] cfg'] w'] log']|]; injection E as _ <-; apply Hw.
Qed.
Next Obligation.
  intros t ks s vs s' E. unfold ds_download, client_ops in E. cbv zeta in E. exists (evolve s). split; [exact (sv_others (env s) (count s) (data s, used s))|].
  destruct (DownloadArrayRetry _ _ _ _ _ _ _) as [[[[[vs'|] cfg'] w'] log']|] eqn:Er; [|done|done]. injection E as -> _.
  by eapply download_values.
Qed.
Next Obligation.
  intros t ks s s' E. unfold ds_delete, client_ops in E. cbv zeta in E. exists (evolve s). split; [exact (sv_others (env s) (count s) (data s, used s))|].
  destruct (delete_effects t ks (evolve s) _ eq_refl) as [H1 H2]. unfold DeleteArrayRetry in E.
  destruct (retry _ _ _ _ _ _ _) as [[[[[[]|e] cfg'] w'] log']|] eqn:Er; cbn in E; [|done|done]. injection E as <-.
  intros t' x. cbn [after data]. destruct (decide (t' = t ∧ x ∈ ks)) as [[-> Hx]|Hn]; [by eapply H2|by apply H1].
Qed.

(** An operation takes at most one turn more than there are nodes, so that the
    bound is not met. *)
Lemma operations_end (ns : gset string) t r s :
  within ns (nodes s) → (∀ n, DataSystem.keeps ns (turns_of t r s n)) → (size ns < turns_max s)%nat →
  (∀ v p, UploadWithKeyRetry v (turns_max s) 0 (turns_of t r s) (sdk_config t p) (nodes s) [] ≠ None) ∧
  (∀ ks, DownloadArrayRetry ks (turns_max s) 0 (turns_of t r s) (sdk_config t "") (nodes s) [] ≠ None) ∧
  (∀ ks, DeleteArrayRetry ks (turns_max s) 0 (turns_of t r s) (sdk_config t "") (nodes s) [] ≠ None).
Proof.
  intros Hw Hk Hs.
  assert (∀ A (op : operation A) cfg, (∀ t cfg, (op t cfg).2 ≠ Err (false, NoNode)) → useLastUsedNode cfg = false → NodeIP cfg = "" → invalidIP cfg = [] →
    retry op (turns_max s) 0 (turns_of t r s) cfg (nodes s) [] ≠ None) as H.
  { intros A op cfg Ho Hu Hn Hi.
    destruct (retry_ends ns op (turns_of t r s) Ho false Hk ltac:(by left) (turns_max s) 0 cfg (nodes s) []) as (? & ? & ? & ? & -> & _);
      rewrite ?Hi; try done; try (by left); try apply NoDup_nil_2; try (intros ip Hip; by apply elem_of_nil in Hip).
    pose proof (subseteq_size (ns ∖ list_to_set []) ns ltac:(set_solver)). lia. }
  split_and!; intros; unfold UploadWithKeyRetry, DownloadArrayRetry, DeleteArrayRetry.
  - apply H; try done. intros t' cfg. unfold uploadWithKey, getDataSystemKey, set_status.
    destruct (NoNeedGenKey cfg), (bool_decide (genKey t' = "")), (tenant_ok t'), (set_code t' =? 0)%Z; done.
  - apply H; try done. intros t' cfg. unfold downloadArray, checkStatus.
    destruct (tenant_ok t'), (query_code t' =? 0)%Z, (query_code t' =? 3)%Z, (Limit cfg <? total_size (sizes t'))%Z, (get_code t' =? 0)%Z, (get_code t' =? 3)%Z; done.
  - intros E%fmap_None. revert E. apply H; try done. intros t' cfg. unfold deleteArray, set_status.
    destruct (tenant_ok t'), (del_code t' =? 0)%Z; try done. cbn. by destruct (failedKeys t').
Qed.

(** C28. Values that were set in one request, as parts of its body one after the
    other, can be read: a later request for the keys that were answered gives
    them byte for byte and in order, or the error of the data system when a
    value has expired or was deleted, the values are too large together, or no
    node answers. *)
Theorem set_then_get t trace1 trace2 prefixes values keys (s s' s2 : ds_state) :
  length prefixes = length values → size_of values ≠ 0%Z →
  uploadToDataSystem t false (parts_at 0 prefixes values, size_of values) (concatenated values) s = (Ok keys, s') → preserves s' s2 →
  MultiSetService t trace1 (parts_at 0 prefixes values, size_of values) (concatenated values) s = (set_response keys trace1, s') ∧
  MultiGetService t trace2 (infos_of prefixes keys) s2 =
    let '(r, s3) := ds_download t (full_keys prefixes keys) s2 in
    Some (match r with
          | Ok _ => stream_response (Some (gen_infos 0 keys values)) values trace2
          | Err KeyNotFound => NewCommonErrorResponseByError (200704%Z, "key not found on data system") trace2
          | Err SizeExceeded => NewCommonErrorResponseByError (200702%Z, "download body too large") trace2
          | Err OtherFailure => NewCommonErrorResponseByError (200702%Z, "internal download failed") trace2
          end, s3).
Proof. apply set_then_read. Qed.

(** ** A data system *)

Fixpoint xs (n : nat) : string := match n with O => "" | S n => String "x" (xs n) end.
Lemma xs_length n : String.length (xs n) = n.
Proof. induction n; cbn; congruence. Qed.

(** A key that is longer than all others. *)
Definition new_key (u : gset (string * string)) : string := xs (S (max_list ((λ k, String.length k.2) <$> elements u))).

Lemma new_key_fresh u t p : (t, p +:+ new_key u) ∉ u.
Proof.
  intros Hin. assert (String.length (p +:+ new_key u) ∈ (λ k : string * string, String.length k.2) <$> elements u) as Hl
    by (apply list_elem_of_fmap; exists (t, p +:+ new_key u); split; [done|by apply elem_of_elements]).
  apply max_list_elem_of_le in Hl. rewrite length_app_str in Hl. unfold new_key in Hl at 1. rewrite xs_length in Hl. lia.
Qed.

(** One whose uploads and deletions succeed up to the [n]-th operation. *)
Definition sample_turn (n op : nat) (t : string) (r : ds_request) (c : contents) : turn :=
  let code := if (op <=? n)%nat then 0%Z else 5%Z in
  let read := match r with Download ks => mapM (λ k, c.1 !! (t, k)) ks | _ => Some [] end in
  MkTurn (λ _ w, w) 0 true true (new_key c.2) code "" 0 [] (match read with Some _ => 0 | None => 3 end)%Z (default [] read) code [] (op <=? n)%nat.

Program Definition sample (n : nat) : service := {| meanwhile _ c := c; answers op t r c _ := sample_turn n op t r c |}.
Next Obligation. intros n op c. split; [done|auto]. Qed.
Next Obligation. intros n op t r c i q _. apply new_key_fresh. Qed.
Next Obligation. intros n op t r c i. cbn. by destruct (op <=? n)%nat. Qed.
Next Obligation. intros n op t ks c i. cbn. by destruct (mapM _ ks). Qed.
Next Obligation. intros n op t r c i. cbn. by destruct (op <=? n)%nat. Qed.

Definition empty_system (n : nat) : ds_state := MkState (sample n) 4 ∅ ∅ three 0.

(** ** Witnesses *)

Lemma payload_roundtrip_witness : ParsePayloadHeaderJSON (ToJSON (gen_infos 0 ["a"; "b"] ["one"; ""])) = Ok (Some <$> gen_infos 0 ["a"; "b"] ["one"; ""]).
Proof.
  destruct (payload_roundtrip ["a"; "b"] ["one"; ""] (gen_infos 0 ["a"; "b"] ["one"; ""])) as [H _].
  - repeat constructor.
  - vm_compute. reflexivity.
  - reflexivity.
  - exact H.
Defined.

Definition two_parts : list MultipartData * Z := (parts_at 0 ["p"; "q"] ["one"; "two"], size_of ["one"; "two"]).
Definition two_set : ds_state := (uploadToDataSystem "t" false two_parts (concatenated ["one"; "two"]) (empty_system 5)).2.

Lemma set_then_get_witness :
  fst <$> MultiGetService "t" "" (infos_of ["p"; "q"] ["x"; "xxx"]) two_set =
    Some (stream_response (Some (gen_infos 0 ["x"; "xxx"] ["one"; "two"])) ["one"; "two"] "").
Proof.
  assert (uploadToDataSystem "t" false two_parts (concatenated ["one"; "two"]) (empty_system 5) = (Ok ["x"; "xxx"], two_set)) as Hup.
  { unfold two_set. assert ((uploadToDataSystem "t" false two_parts (concatenated ["one"; "two"]) (empty_system 5)).1 = Ok ["x"; "xxx"]) as E by (vm_compute; reflexivity).
    destruct (uploadToDataSystem _ _ _ _ _) as [r s']. cbn in E |- *. by rewrite E. }
  rewrite (proj2 (set_then_get "t" "" "" ["p"; "q"] ["one"; "two"] ["x"; "xxx"] (empty_system 5) two_set two_set eq_refl ltac:(by vm_compute) Hup
    (λ t x Hu, conj Hu (or_introl eq_refl)))).
  vm_compute. reflexivity.
Defined.

Definition sample_urn : string := "sn:cn:yrk:t:function:0@s@f:1".
Definition echo (funcKey keys : string) (s : ds_state) : invoked * ds_state := (Invoked 200 0 "" keys, s).

Lemma echo_answers k s : invoke (echo k) "" ["x"] s = (Ok ["x"], s).
Proof. reflexivity. Qed.
Definition exec_up : res sn_error (list string) * ds_state := uploadToDataSystem "t" true (parts_at 0 [""] ["one"], 3%Z) "one" (empty_system 9).
Definition exec_down : response * ds_state := downloadAndGenerateResponse "t" "" ["x"] exec_up.2.
Definition exec_del : bool * ds_state := ds_delete "t" ["x"] exec_down.2.
Lemma exec_up_eq : uploadToDataSystem "t" true (parts_at 0 [""] ["one"], 3%Z) "one" (empty_system 9) = (Ok ["x"], exec_up.2).
Proof.
  assert ((uploadToDataSystem "t" true (parts_at 0 [""] ["one"], 3%Z) "one" (empty_system 9)).1 = Ok ["x"]) as E by (vm_compute; reflexivity).
  unfold exec_up. rewrite <- E. apply surjective_pairing.
Qed.
Lemma exec_down_eq : downloadAndGenerateResponse "t" "" ["x"] exec_up.2 = (exec_down.1, exec_down.2).
Proof. unfold exec_down. apply surjective_pairing. Qed.
Lemma exec_del_eq : ds_delete "t" ["x"] exec_down.2 = (true, exec_del.2).
Proof.
  assert ((ds_delete "t" ["x"] exec_down.2).1 = true) as E by (vm_compute; reflexivity).
  unfold exec_del. rewrite <- E. apply surjective_pairing.
Qed.

Lemma execute_cleans_up_witness :
  ExecuteService sample_urn "t" "" echo (parts_at 0 [""] ["one"], 3%Z) "one" (empty_system 9) = (exec_down.1, exec_del.2).
Proof.
  assert (∃ f, GetFuncInfoWithVersion sample_urn = Ok f) as [f Ef] by (eexists; vm_compute; reflexivity).
  exact (proj1 (execute_cleans_up sample_urn f "t" "" echo (parts_at 0 [""] ["one"], 3%Z) "one" ["x"] (empty_system 9) exec_up.2 exec_up.2 exec_down.2 exec_del.2
    (Ok ["x"]) exec_down.1 Ef exec_up_eq (echo_answers _ _) exec_down_eq exec_del_eq ltac:(done))).
Defined.

(** ** Behaviours *)

(** The slices share the body: of two parts that overlap, the second is stored as
    zeros where the first was cleared. *)
Lemma overlapping_parts_lose_data :
  data (uploadToDataSystem "t" false ([MkPart "a" 0 4; MkPart "b" 2 4], 8%Z) "abcdef" (empty_system 2)).2 =
  {[("t", "ax") := "abcd"; ("t", "bxxx") := zeros 2 +:+ "ef"]}.
Proof. vm_compute. reflexivity. Qed.

(** When a later part cannot be uploaded the earlier ones stay, and their keys are
    not answered. *)
Lemma failed_upload_leaves_parts :
  let '(r, s) := uploadToDataSystem "t" true ([MkPart "" 0 1; MkPart "" 1 1], 2%Z) "ab" (empty_system 1) in
  r = Err (200701%Z, "internal upload failed") ∧ data s = {[("t", "x") := "a"]}.
Proof. vm_compute. split; reflexivity. Qed.

(** A negative offset, a sum that overflows and an entry that is null are panics. *)
Lemma negative_offset_panics : parsePayloadData 10 [Some (MkInfo "" "" (-1) 5 false)] = None.
Proof. reflexivity. Qed.
Lemma overflowing_range_panics : parsePayloadData 10 [Some (MkInfo "" "" (2 ^ 63 - 1) 1 false)] = None.
Proof. reflexivity. Qed.
Lemma null_entry_panics : ParsePayloadHeaderJSON "[null]" = Ok [None] ∧ parsePayloadData 10 [None] = None.
Proof. split; reflexivity. Qed.

(** Without data the function is not called, and the answer is a success. *)
Lemma empty_payload_is_not_executed (run : string → string → ds_state → invoked * ds_state) s :
  ExecuteService sample_urn "t" "" run ([], 0%Z) "" s = (RStream 200 0 "" None [], s).
Proof. vm_compute. reflexivity. Qed.
