(* ===== verification/KernelStream.v ===== *)
(** * Stream connections of the kernel RPC (pkg/common/faas_common/kernelrpc/connection, rpcclient)

    A [StreamConnection] multiplexes calls over one stream: [Send] registers an
    acknowledgement channel under its message identifier and a callback under
    its request identifier, queues the message and waits; send loops write the
    queues to the stream, receive loops hand responses to the waiting calls and
    notifications to the callbacks, and a repair loop replaces a broken stream.
    Every goroutine is a program counter, and goroutines interleave between
    their critical sections and channel operations. Messages to send are
    objects with an address, because [BasicSteamClient.Invoke] takes them from
    a pool and gives them back. *)

From S2P Require Import Prelude GoStrings.
Open Scope string_scope.

(** ** Messages *)

Record InvokeRequest := MkInvoke {
  Function : string; Args : list (Z * string); InstanceID : string; ir_RequestID : string; TraceID : string }.

(** The alternatives of [StreamingMessage.Body]; [I] is how the invoke request
    is held: by address in the process, by value on the stream. Of the other
    bodies the connection reads at most a request identifier. *)
Inductive body (I : Type) :=
| NoBody
| CreateReq (requestID payload : string) | CreateRsp (payload : string)
| InvokeReq (i : I) | InvokeRsp (code : Z) (message : string)
| ExitReq (payload : string) | ExitRsp (payload : string)
| SaveReq (payload : string) | SaveRsp (payload : string)
| LoadReq (payload : string) | LoadRsp (payload : string)
| KillReq (payload : string) | KillRsp (payload : string)
| NotifyReq (requestID : string) (code : Z) (message : string) | NotifyRsp
| CallReq (payload : string) | CheckpointReq (payload : string) | RecoverReq (payload : string)
| ShutdownReq (payload : string) | SignalReq (payload : string)
| HeartbeatReq | HeartbeatRsp
| OtherBody (payload : string).
Arguments NoBody {I}. Arguments CreateReq {I}. Arguments CreateRsp {I}. Arguments InvokeReq {I}.
Arguments InvokeRsp {I}. Arguments ExitReq {I}. Arguments ExitRsp {I}. Arguments SaveReq {I}.
Arguments SaveRsp {I}. Arguments LoadReq {I}. Arguments LoadRsp {I}. Arguments KillReq {I}.
Arguments KillRsp {I}. Arguments NotifyReq {I}. Arguments NotifyRsp {I}. Arguments CallReq {I}.
Arguments CheckpointReq {I}. Arguments RecoverReq {I}. Arguments ShutdownReq {I}. Arguments SignalReq {I}.
Arguments HeartbeatReq {I}. Arguments HeartbeatRsp {I}. Arguments OtherBody {I}.

Record StreamingMessage (I : Type) := MkMsg { MessageID : string; Body : body I }.
Arguments MkMsg {I}. Arguments MessageID {I}. Arguments Body {I}.

(** An object of the process and a message of the stream. *)
Notation object := (StreamingMessage nat).
Notation message := (StreamingMessage InvokeRequest).

Definition expectResponse {I} (b : body I) : bool :=
  match b with
  | CreateReq _ _ | InvokeReq _ | ExitReq _ | SaveReq _ | LoadReq _ | KillReq _ | NotifyReq _ _ _ => true
  | _ => false
  end.

(** What [recvLoop] does with a body. *)
Inductive kind := KResponse | KRequest | KNotify (requestID : string) | KHeartbeat | KUnknown | KNil.
Definition kind_of {I} (b : body I) : kind :=
  match b with
  | CreateRsp _ | InvokeRsp _ _ | ExitRsp _ | SaveRsp _ | LoadRsp _ | KillRsp _ | NotifyRsp => KResponse
  | CallReq _ | CheckpointReq _ | RecoverReq _ | ShutdownReq _ | SignalReq _ | InvokeReq _ => KRequest
  | NotifyReq rid _ _ => KNotify rid
  | HeartbeatReq => KHeartbeat
  | NoBody => KNil
  | _ => KUnknown
  end.

(** ** Memory *)

(** [msgPool] and [reqPool]: [streamMessagePool] and [invokeRequestPool]. *)
Record mem := MkMem { objs : gmap nat object; invs : gmap nat InvokeRequest; nextp : nat; msgPool : list nat; reqPool : list nat }.

Definition nilInvoke : InvokeRequest := MkInvoke "" [] "" "" "".
Definition obj (m : mem) (a : nat) : object := default (MkMsg "" NoBody) (objs m !! a).
Definition inv (m : mem) (p : nat) : InvokeRequest := default nilInvoke (invs m !! p).

Definition new_obj (o : object) (m : mem) : nat * mem :=
  (nextp m, MkMem (<[nextp m := o]> (objs m)) (invs m) (S (nextp m)) (msgPool m) (reqPool m)).
Definition new_inv (r : InvokeRequest) (m : mem) : nat * mem :=
  (nextp m, MkMem (objs m) (<[nextp m := r]> (invs m)) (S (nextp m)) (msgPool m) (reqPool m)).
Definition set_obj (a : nat) (o : object) (m : mem) : mem := MkMem (<[a := o]> (objs m)) (invs m) (nextp m) (msgPool m) (reqPool m).
Definition set_inv (p : nat) (r : InvokeRequest) (m : mem) : mem := MkMem (objs m) (<[p := r]> (invs m)) (nextp m) (msgPool m) (reqPool m).

(** [sync.Pool.Get]: an item of the pool, or none. *)
Definition get_obj (c : option nat) (m : mem) : nat * mem :=
  match c with
  | Some a => if bool_decide (a ∈ msgPool m)
      then (a, MkMem (objs m) (invs m) (nextp m) (filter (.≠ a) (msgPool m)) (reqPool m)) else new_obj (MkMsg "" NoBody) m
  | None => new_obj (MkMsg "" NoBody) m
  end.
Definition get_inv (c : option nat) (m : mem) : nat * mem :=
  match c with
  | Some p => if bool_decide (p ∈ reqPool m)
      then (p, MkMem (objs m) (invs m) (nextp m) (msgPool m) (filter (.≠ p) (reqPool m))) else new_inv nilInvoke m
  | None => new_inv nilInvoke m
  end.

Definition acquireStreamMessageInvokeRequest (ca cp : option nat) (m : mem) : nat * nat * mem :=
  let (a, m) := get_obj ca m in
  let (p, m) := get_inv cp m in
  (a, p, set_obj a (MkMsg (MessageID (obj m a)) (InvokeReq p)) m).

Definition releaseStreamMessageInvokeRequest (a : nat) (m : mem) : mem :=
  match Body (obj m a) with
  | InvokeReq p =>
      let m := set_inv p nilInvoke m in
      let m := set_obj a (MkMsg "" NoBody) m in
      MkMem (objs m) (invs m) (nextp m) (a :: msgPool m) (p :: reqPool m)
  | _ => m
  end.

(** The same body, with another hold on the invoke request. *)
Definition body_map {I J} (f : I → J) (b : body I) : body J :=
  match b with
  | NoBody => NoBody | CreateReq r x => CreateReq r x | CreateRsp x => CreateRsp x
  | InvokeReq p => InvokeReq (f p) | InvokeRsp c x => InvokeRsp c x
  | ExitReq x => ExitReq x | ExitRsp x => ExitRsp x | SaveReq x => SaveReq x | SaveRsp x => SaveRsp x
  | LoadReq x => LoadReq x | LoadRsp x => LoadRsp x | KillReq x => KillReq x | KillRsp x => KillRsp x
  | NotifyReq r c x => NotifyReq r c x | NotifyRsp => NotifyRsp
  | CallReq x => CallReq x | CheckpointReq x => CheckpointReq x | RecoverReq x => RecoverReq x
  | ShutdownReq x => ShutdownReq x | SignalReq x => SignalReq x
  | HeartbeatReq => HeartbeatReq | HeartbeatRsp => HeartbeatRsp | OtherBody x => OtherBody x
  end.

(** What [stream.Send] writes of an object. *)
Definition marshal (m : mem) (o : object) : message := MkMsg (MessageID o) (body_map (inv m) (Body o)).

(** The message a caller builds for itself. *)
Definition build (w : message) (m : mem) : nat * mem :=
  match Body w with
  | InvokeReq r => let (p, m) := new_inv r m in new_obj (MkMsg (MessageID w) (InvokeReq p)) m
  | b => new_obj (MkMsg (MessageID w) (body_map (λ _, 0) b)) m
  end.

Definition getRequestID (m : mem) (b : body nat) : string :=
  match b with
  | CreateReq r _ => r
  | InvokeReq p => ir_RequestID (inv m p)
  | _ => ""
  end.

(** ** The goroutines *)

Inductive send_error :=
| ErrStreamConnectionClosed | ErrStreamConnectionBroken | ErrRequestIDAlreadyExist
| ErrBlocked | ErrTimeout | ErrStream (text : string).

(** [sendAckPack]. *)
Notation pack := (res string (option message)).
Notation sent := (res send_error (option message)).
Definition sent_of (p : pack) : sent := match p with Ok r => Ok r | Err e => Err (ErrStream e) end.

(** A call of [Send], and of [Invoke] when [c_pooled]. *)
Inductive call_pc :=
| CLock | CEnqueue | CWait | CDrop (e : send_error) | CDefer (r : sent) | CDone (r : sent) | CReleased (r : sent).

(** [c_msg]: the message; [c_rid]: its request identifier; [c_cb]: whether it
    has a callback; [c_buf]: the acknowledgement channel. [c_id], the message
    identifier it registered, [c_reg], whether it registered its callback, and
    [c_req], what the caller asked for, are only recorded. *)
Record call := MkCall {
  c_msg : nat; c_cb : bool; c_pooled : bool; c_req : InvokeRequest;
  c_id : option string; c_rid : string; c_reg : bool; c_buf : list pack; c_pc : call_pc }.

(** What is left of [repairStream], and of the [Close] it may call. *)
Inductive fix_pc := FRepair | FSignal | FClose | FCloseCh.

Inductive send_pc :=
| SIdle | SGot (a : nat) | SWaiting (a : nat) | SWoken (a : nat) | SFixed (a : nat) | SSent (a : nat) (e : option string)
| SPush (i : nat) (p : pack) (broken : bool) | SFix (f : fix_pc) | SStop.
Record send_loop := MkLoop { sl_rsp : bool; sl_pc : send_pc }.

Inductive recv_pc :=
| RIdle | RGo | RWaiting | RWoken | RFixed | RGot (m : message) | RPush (i : nat) (m : message)
| RAnswer (o : object) | RFix (f : fix_pc) | RStop.

Inductive repair_pc := PNone | PIdle | PRepairing | PFixed (stream : nat) | PBroadcast | PStop.

(** ** The connection *)

Record life := MkLife { closed : bool; closeCh : bool; closing : nat; closes : nat; repairing : bool; repairCh : bool; stream : nat }.
Record tables := MkTables { sendAckRecord : gmap string nat; sendCbRecord : gmap string (Z * nat) }.
Record queues := MkQueues { sendReqCh : list nat; sendRspCh : list nat; recvCh : list message }.

(** [wire]: what the streams accepted; [got]: what they delivered; [called]:
    the callbacks started, by call; [crashed]: a goroutine panicked. *)
Record history := MkHistory { wire : list message; got : list message; called : list (nat * message); crashed : bool }.

(** [has_health] and [has_repair]: the two functions are not nil; [limit]:
    [defaultChannelSize]; [closing]: calls of [Close] about to close [closeCh]. *)
Record conn := MkConn {
  has_health : bool; has_repair : bool; limit : nat;
  memory : mem; life_of : life; tabs : tables; chans : queues; hist : history;
  calls : list call; sloops : list send_loop; rloops : list recv_pc; repairer : repair_pc }.

Definition with_mem (m : mem) (s : conn) : conn :=
  MkConn (has_health s) (has_repair s) (limit s) m (life_of s) (tabs s) (chans s) (hist s) (calls s) (sloops s) (rloops s) (repairer s).
Definition with_life (l : life) (s : conn) : conn :=
  MkConn (has_health s) (has_repair s) (limit s) (memory s) l (tabs s) (chans s) (hist s) (calls s) (sloops s) (rloops s) (repairer s).
Definition with_tabs (t : tables) (s : conn) : conn :=
  MkConn (has_health s) (has_repair s) (limit s) (memory s) (life_of s) t (chans s) (hist s) (calls s) (sloops s) (rloops s) (repairer s).
Definition with_chans (q : queues) (s : conn) : conn :=
  MkConn (has_health s) (has_repair s) (limit s) (memory s) (life_of s) (tabs s) q (hist s) (calls s) (sloops s) (rloops s) (repairer s).
Definition with_hist (h : history) (s : conn) : conn :=
  MkConn (has_health s) (has_repair s) (limit s) (memory s) (life_of s) (tabs s) (chans s) h (calls s) (sloops s) (rloops s) (repairer s).
Definition with_calls (l : list call) (s : conn) : conn :=
  MkConn (has_health s) (has_repair s) (limit s) (memory s) (life_of s) (tabs s) (chans s) (hist s) l (sloops s) (rloops s) (repairer s).
Definition with_sloops (l : list send_loop) (s : conn) : conn :=
  MkConn (has_health s) (has_repair s) (limit s) (memory s) (life_of s) (tabs s) (chans s) (hist s) (calls s) l (rloops s) (repairer s).
Definition with_rloops (l : list recv_pc) (s : conn) : conn :=
  MkConn (has_health s) (has_repair s) (limit s) (memory s) (life_of s) (tabs s) (chans s) (hist s) (calls s) (sloops s) l (repairer s).
Definition with_repairer (p : repair_pc) (s : conn) : conn :=
  MkConn (has_health s) (has_repair s) (limit s) (memory s) (life_of s) (tabs s) (chans s) (hist s) (calls s) (sloops s) (rloops s) p.

Definition calibrate (n : Z) : Z := if (n <? 1)%Z then 1%Z else n.
Record StreamParams := MkParams { SendReqConcurrentNum : Z; SendRspConcurrentNum : Z; RecvConcurrentNum : Z }.
Definition calibrateParams (p : StreamParams) : StreamParams :=
  MkParams (calibrate (SendReqConcurrentNum p)) (calibrate (SendRspConcurrentNum p)) (calibrate (RecvConcurrentNum p)).

Definition CreateStreamConnection (size : nat) (p : StreamParams) (healthFunc repairFunc : bool) : conn :=
  let p := calibrateParams p in
  MkConn healthFunc repairFunc size (MkMem ∅ ∅ 0 [] []) (MkLife false false 0 0 false false 0) (MkTables ∅ ∅) (MkQueues [] [] [])
    (MkHistory [] [] [] false) []
    (replicate (Z.to_nat (SendReqConcurrentNum p)) (MkLoop false SIdle) ++ replicate (Z.to_nat (SendRspConcurrentNum p)) (MkLoop true SIdle))%list
    (replicate (Z.to_nat (RecvConcurrentNum p)) RIdle) (if repairFunc then PIdle else PNone).

(** ** [Send] and [Invoke] *)

Definition set_pc (p : call_pc) (c : call) : call :=
  MkCall (c_msg c) (c_cb c) (c_pooled c) (c_req c) (c_id c) (c_rid c) (c_reg c) (c_buf c) p.
Definition set_call (i : nat) (p : call_pc) (s : conn) : conn := with_calls (alter (set_pc p) i (calls s)) s.

Definition with_id (uuid : string) (o : object) : object :=
  if bool_decide (MessageID o = "") then MkMsg uuid (Body o) else o.

(** The checks before the lock. *)
Definition Send_start (healthy : bool) (uuid : string) (a : nat) (cb pooled : bool) (req : InvokeRequest) (s : conn) : conn :=
  let new p := MkCall a cb pooled req None "" false [] p in
  if closeCh (life_of s) then with_calls (calls s ++ [new (CDone (Err ErrStreamConnectionClosed))])%list s
  else if has_health s && negb healthy then with_calls (calls s ++ [new (CDone (Err ErrStreamConnectionBroken))])%list s
  else
    let s := with_mem (set_obj a (with_id uuid (obj (memory s) a)) (memory s)) s in
    with_calls (calls s ++ [new CLock])%list s.

(** [Invoke] up to there: [ca] and [cp] are what the pools return and [t1],
    [t2] generated identifiers. *)
Record InvokeParams := MkInvokeParams { ip_RequestID : string; ip_TraceID : string }.
Definition or_gen (x t : string) : string := if bool_decide (x = "") then "task-" +:+ t else x.
Definition Invoke_start (ca cp : option nat) (t1 t2 uuid : string) (healthy : bool)
    (funcKey instanceID : string) (args : list (Z * string)) (ps : InvokeParams) (s : conn) : conn :=
  let '(a, p, m) := acquireStreamMessageInvokeRequest ca cp (memory s) in
  let req := MkInvoke funcKey args instanceID (or_gen (ip_RequestID ps) t1) (or_gen (ip_TraceID ps) t2) in
  Send_start healthy uuid a true true req (with_mem (set_inv p req m) s).

Definition register (id rid : string) (reg : bool) (p : call_pc) (c : call) : call :=
  MkCall (c_msg c) (c_cb c) (c_pooled c) (c_req c) (Some id) rid reg (c_buf c) p.

(** The critical section: the acknowledgement channel is recorded before the
    request identifier is checked, and the deferred removal comes after. *)
Definition Send_lock (now : Z) (i : nat) (c : call) (s : conn) : conn :=
  let o := obj (memory s) (c_msg c) in
  let acks := <[MessageID o := i]> (sendAckRecord (tabs s)) in
  let rid := getRequestID (memory s) (Body o) in
  let upd reg p := alter (register (MessageID o) rid reg p) i (calls s) in
  if negb (bool_decide (rid = "")) && c_cb c then
    match sendCbRecord (tabs s) !! rid with
    | Some _ => with_calls (upd false (CDone (Err ErrRequestIDAlreadyExist))) (with_tabs (MkTables acks (sendCbRecord (tabs s))) s)
    | None => with_calls (upd true CEnqueue) (with_tabs (MkTables acks (<[rid := (now, i)]> (sendCbRecord (tabs s)))) s)
    end
  else with_calls (upd false CEnqueue) (with_tabs (MkTables acks (sendCbRecord (tabs s))) s).

Definition Send_enqueue (i : nat) (c : call) (s : conn) : conn :=
  let q := chans s in
  if (length (sendReqCh q) <? limit s)%nat
  then set_call i CWait (with_chans (MkQueues (sendReqCh q ++ [c_msg c])%list (sendRspCh q) (recvCh q)) s)
  else set_call i (CDrop ErrBlocked) s.

Definition Send_drop (i : nat) (c : call) (e : send_error) (s : conn) : conn :=
  set_call i (CDefer (Err e)) (with_tabs (MkTables (sendAckRecord (tabs s)) (delete (c_rid c) (sendCbRecord (tabs s)))) s).

Definition Send_defer (i : nat) (c : call) (r : sent) (s : conn) : conn :=
  let id := MessageID (obj (memory s) (c_msg c)) in
  set_call i (CDone r) (with_tabs (MkTables (delete id (sendAckRecord (tabs s))) (sendCbRecord (tabs s))) s).

(** The deferred release of [Invoke], after [Send] returned. *)
Definition Invoke_release (i : nat) (c : call) (r : sent) (s : conn) : conn :=
  set_call i (CReleased r) (with_mem (releaseStreamMessageInvokeRequest (c_msg c) (memory s)) s).

(** A received pack leaves the channel. *)
Definition pop_pack (c : call) : call :=
  MkCall (c_msg c) (c_cb c) (c_pooled c) (c_req c) (c_id c) (c_rid c) (c_reg c) (tail (c_buf c)) (c_pc c).

(** The next step of a call that waits for nothing. *)
Definition call_step (now : Z) (i : nat) (s : conn) : conn :=
  match calls s !! i with
  | None => s
  | Some c =>
      match c_pc c with
      | CLock => Send_lock now i c s
      | CEnqueue => Send_enqueue i c s
      | CWait => match c_buf c with
          | p :: _ => with_calls (alter (λ c, set_pc (CDefer (sent_of p)) (pop_pack c)) i (calls s)) s
          | [] => s
          end
      | CDrop e => Send_drop i c e s
      | CDefer r => Send_defer i c r s
      | CDone r => if c_pooled c then Invoke_release i c r s else s
      | CReleased _ => s
      end
  end.

Definition timer_fires (i : nat) (s : conn) : conn :=
  match calls s !! i with
  | Some c => match c_pc c with CWait => set_call i (CDrop ErrTimeout) s | _ => s end
  | None => s
  end.

(** What [Invoke] makes of the result of [Send]. *)
Definition Invoke_result (r : sent) : res (Z * string) string :=
  match r with
  | Err ErrStreamConnectionClosed => Err (330404, "stream connection is closed")%Z
  | Err ErrStreamConnectionBroken => Err (330404, "stream connection is broken")%Z
  | Err ErrRequestIDAlreadyExist => Err (330404, "requestID already exist")%Z
  | Err ErrBlocked => Err (330404, "stream send is blocked")%Z
  | Err ErrTimeout => Err (330404, "send timeout")%Z
  | Err (ErrStream e) => Err (330404, e)%Z
  | Ok (Some (MkMsg _ (InvokeRsp code text))) => if (code =? 0)%Z then Ok text else Err (code, text)
  | Ok _ => Err (330404, "invoke response type error")%Z
  end.

(** ** Closing and repairing *)

Definition Close (l : life) : bool * life :=
  if closed l then (false, l)
  else (true, MkLife true (closeCh l) (closing l) (closes l) (repairing l) (repairCh l) (stream l)).
Definition close_ch (l : life) : life :=
  MkLife (closed l) true (closing l) (S (closes l)) (repairing l) (repairCh l) (stream l).

Definition fix_step (has_repair : bool) (f : fix_pc) (l : life) : option fix_pc * life :=
  match f with
  | FRepair =>
      if negb has_repair then (Some FClose, l)
      else if repairing l then (None, l)
      else (Some FSignal, MkLife (closed l) (closeCh l) (closing l) (closes l) true (repairCh l) (stream l))
  | FSignal => (None, MkLife (closed l) (closeCh l) (closing l) (closes l) (repairing l) true (stream l))
  | FClose => let (go, l) := Close l in (if go then Some FCloseCh else None, l)
  | FCloseCh => (None, close_ch l)
  end.

Definition user_close (s : conn) : conn :=
  let (go, l) := Close (life_of s) in
  if go then with_life (MkLife (closed l) (closeCh l) (S (closing l)) (closes l) (repairing l) (repairCh l) (stream l)) s else s.
Definition user_close_ch (s : conn) : conn :=
  let l := life_of s in
  match closing l with
  | O => s
  | S n => with_life (close_ch (MkLife (closed l) (closeCh l) n (closes l) (repairing l) (repairCh l) (stream l))) s
  end.

(** Wakes the loops that wait. *)
Definition wake_send (l : send_loop) : send_loop := match sl_pc l with SWaiting a => MkLoop (sl_rsp l) (SWoken a) | _ => l end.
Definition wake_recv (p : recv_pc) : recv_pc := match p with RWaiting => RWoken | _ => p end.
Definition Broadcast (s : conn) : conn := with_sloops (wake_send <$> sloops s) (with_rloops (wake_recv <$> rloops s) s).

(** The repair loop: [r] is the stream [repairFunc] returns, if it does. *)
Definition repair_step (r : option nat) (s : conn) : conn :=
  let l := life_of s in
  match repairer s with
  | PIdle =>
      if repairCh l
      then with_repairer PRepairing (with_life (MkLife (closed l) (closeCh l) (closing l) (closes l) (repairing l) false (stream l)) s)
      else s
  | PRepairing => with_repairer (match r with Some st => PFixed st | None => PIdle end) s
  | PFixed st => with_repairer PBroadcast (with_life (MkLife (closed l) (closeCh l) (closing l) (closes l) false (repairCh l) st) s)
  | PBroadcast => with_repairer PIdle (Broadcast s)
  | _ => s
  end.
Definition repair_stop (s : conn) : conn :=
  match repairer s with PIdle => if closeCh (life_of s) then with_repairer PStop s else s | _ => s end.

(** ** The loops *)

Definition set_sloop (l : nat) (p : send_pc) (s : conn) : conn := with_sloops (alter (λ x, MkLoop (sl_rsp x) p) l (sloops s)) s.
Definition set_rloop (l : nat) (p : recv_pc) (s : conn) : conn := with_rloops (<[l := p]> (rloops s)) s.

(** [waitForStreamFix]: does the loop have to wait? *)
Definition must_wait (healthy : bool) (s : conn) : bool := repairing (life_of s) || (has_health s && negb healthy).

Definition queue (rsp : bool) (s : conn) : list nat := if rsp then sendRspCh (chans s) else sendReqCh (chans s).
Definition set_queue (rsp : bool) (q : list nat) (s : conn) : conn :=
  with_chans (if rsp then MkQueues (sendReqCh (chans s)) q (recvCh (chans s)) else MkQueues q (sendRspCh (chans s)) (recvCh (chans s))) s.

(** [ackCh <- pack] blocks while the channel holds a pack. *)
Definition add_pack (p : pack) (c : call) : call :=
  MkCall (c_msg c) (c_cb c) (c_pooled c) (c_req c) (c_id c) (c_rid c) (c_reg c) (c_buf c ++ [p])%list (c_pc c).
Definition room (i : nat) (s : conn) : bool :=
  match calls s !! i with Some c => bool_decide (c_buf c = []) | None => false end.

(** A step of the send loop [l]; [healthy] is what [healthFunc] answers and [e]
    how [stream.Send] fails, if it does. *)
Definition send_step (l : nat) (healthy : bool) (e : option string) (s : conn) : conn :=
  match sloops s !! l with
  | None => s
  | Some (MkLoop rsp pc) =>
      match pc with
      | SIdle => match queue rsp s with
          | a :: q => set_sloop l (SGot a) (set_queue rsp q s)
          | [] => s
          end
      | SGot a =>
          if must_wait healthy s then set_sloop l (SWaiting a) s
          else set_sloop l (if closed (life_of s) then SStop else SFixed a) s
      | SWaiting _ => s
      | SWoken a => set_sloop l (if closed (life_of s) then SStop else SFixed a) s
      | SFixed a =>
          let h := hist s in
          let s := match e with
            | Some _ => s
            | None => with_hist (MkHistory (wire h ++ [marshal (memory s) (obj (memory s) a)])%list (got h) (called h) (crashed h)) s
            end in
          set_sloop l (SSent a e) s
      | SSent a e =>
          let o := obj (memory s) a in
          match e with
          | Some t => set_sloop l (match sendAckRecord (tabs s) !! MessageID o with Some i => SPush i (Err t) true | None => SFix FRepair end) s
          | None =>
              if expectResponse (Body o) then set_sloop l SIdle s
              else set_sloop l (match sendAckRecord (tabs s) !! MessageID o with Some i => SPush i (Ok None) false | None => SIdle end) s
          end
      | SPush i p broken =>
          if room i s then set_sloop l (if broken then SFix FRepair else SIdle) (with_calls (alter (add_pack p) i (calls s)) s) else s
      | SFix f =>
          let (next, li) := fix_step (has_repair s) f (life_of s) in
          set_sloop l (match next with Some f => SFix f | None => SIdle end) (with_life li s)
      | SStop => s
      end
  end.

(** The [select] of the send loop takes the closed channel. *)
Definition send_stop (l : nat) (s : conn) : conn :=
  match sloops s !! l with
  | Some (MkLoop _ SIdle) => if closeCh (life_of s) then set_sloop l SStop s else s
  | _ => s
  end.

(** The [switch] of the receive loop. *)
Definition recv_handle (l : nat) (m : message) (s : conn) : conn :=
  let h := hist s in
  match kind_of (Body m) with
  | KResponse =>
      match sendAckRecord (tabs s) !! MessageID m with
      | Some i => set_rloop l (RPush i m) (with_tabs (MkTables (delete (MessageID m) (sendAckRecord (tabs s))) (sendCbRecord (tabs s))) s)
      | None => set_rloop l RIdle s
      end
  | KRequest =>
      let q := chans s in
      set_rloop l RIdle
        (if (length (recvCh q) <? limit s)%nat then with_chans (MkQueues (sendReqCh q) (sendRspCh q) (recvCh q ++ [m])%list) s else s)
  | KNotify rid =>
      set_rloop l (RAnswer (MkMsg (MessageID m) NotifyRsp))
        match sendCbRecord (tabs s) !! rid with
        | Some (_, i) => with_hist (MkHistory (wire h) (got h) (called h ++ [(i, m)])%list (crashed h))
            (with_tabs (MkTables (sendAckRecord (tabs s)) (delete rid (sendCbRecord (tabs s)))) s)
        | None => s
        end
  | KHeartbeat => set_rloop l (RAnswer (MkMsg (MessageID m) HeartbeatRsp)) s
  | KUnknown => set_rloop l RIdle s
  | KNil => set_rloop l RStop (with_hist (MkHistory (wire h) (got h) (called h) true) s)
  end.

(** A step of the receive loop [l]; [r] is what [stream.Recv] returns. *)
Definition recv_step (l : nat) (healthy : bool) (r : option message) (s : conn) : conn :=
  match rloops s !! l with
  | None => s
  | Some pc =>
      match pc with
      | RIdle => set_rloop l (if closeCh (life_of s) then RStop else RGo) s
      | RGo =>
          if must_wait healthy s then set_rloop l RWaiting s
          else set_rloop l (if closed (life_of s) then RStop else RFixed) s
      | RWaiting => s
      | RWoken => set_rloop l (if closed (life_of s) then RStop else RFixed) s
      | RFixed =>
          let h := hist s in
          match r with
          | None => set_rloop l (RFix FRepair) s
          | Some m => set_rloop l (RGot m) (with_hist (MkHistory (wire h) (got h ++ [m])%list (called h) (crashed h)) s)
          end
      | RGot m => recv_handle l m s
      | RPush i m => if room i s then set_rloop l RIdle (with_calls (alter (add_pack (Ok (Some m))) i (calls s)) s) else s
      | RAnswer o =>
          let q := chans s in
          set_rloop l RIdle
            (if (length (sendRspCh q) <? limit s)%nat
             then let (a, m) := new_obj o (memory s) in
                  with_mem m (with_chans (MkQueues (sendReqCh q) (sendRspCh q ++ [a])%list (recvCh q)) s)
             else s)
      | RFix f =>
          let (next, li) := fix_step (has_repair s) f (life_of s) in
          set_rloop l (match next with Some f => RFix f | None => RIdle end) (with_life li s)
      | RStop => s
      end
  end.

(** [Recv] takes a message; with the channel closed it may fail instead. *)
Definition Recv (s : conn) : option message * conn :=
  let q := chans s in
  match recvCh q with
  | m :: rest => (Some m, with_chans (MkQueues (sendReqCh q) (sendRspCh q) rest) s)
  | [] => (None, s)
  end.

(** ** Runs *)

(** Users of the connection other than [Invoke] send objects of their own. *)
Inductive event :=
| ESend (healthy : bool) (uuid : string) (w : message) (cb : bool)
| EInvoke (ca cp : option nat) (t1 t2 uuid : string) (healthy : bool) (funcKey instanceID : string) (args : list (Z * string)) (ps : InvokeParams)
| ECall (now : Z) (i : nat)
| ETimer (i : nat)
| ESendLoop (l : nat) (healthy : bool) (e : option string)
| ESendStop (l : nat)
| ERecvLoop (l : nat) (healthy : bool) (r : option message)
| ERepair (r : option nat)
| ERepairStop
| ERecv
| EClose
| ECloseCh.

Definition step (s : conn) (e : event) : conn :=
  if crashed (hist s) then s else
  match e with
  | ESend healthy uuid w cb => let (a, m) := build w (memory s) in Send_start healthy uuid a cb false nilInvoke (with_mem m s)
  | EInvoke ca cp t1 t2 uuid healthy f i args ps => Invoke_start ca cp t1 t2 uuid healthy f i args ps s
  | ECall now i => call_step now i s
  | ETimer i => timer_fires i s
  | ESendLoop l healthy e => send_step l healthy e s
  | ESendStop l => send_stop l s
  | ERecvLoop l healthy r => recv_step l healthy r s
  | ERepair r => repair_step r s
  | ERepairStop => repair_stop s
  | ERecv => (Recv s).2
  | EClose => user_close s
  | ECloseCh => user_close_ch s
  end.
Definition run (s : conn) (es : list event) : conn := foldl step s es.

(** ** Replies and callbacks *)

Definition refusal (e : send_error) : bool :=
  match e with ErrStreamConnectionClosed | ErrStreamConnectionBroken | ErrRequestIDAlreadyExist => true | _ => false end.

(** The response [m] came from the stream for the identifier [id]. *)
Definition reply_ok (g : list message) (id : option string) (m : message) : Prop :=
  id = Some (MessageID m) ∧ kind_of (Body m) = KResponse ∧ m ∈ g.
Definition pack_ok (g : list message) (id : option string) (p : pack) : Prop := ∀ m, p = Ok (Some m) → reply_ok g id m.
Definition sent_ok (g : list message) (id : option string) (reg : bool) (r : sent) : Prop :=
  match r with
  | Ok (Some m) => reply_ok g id m
  | Ok None => True
  | Err e => reg = true → refusal e = false
  end.
Definition pc_ok (g : list message) (c : call) : Prop :=
  match c_pc c with
  | CLock => c_id c = None ∧ c_reg c = false
  | CDrop e => refusal e = false
  | CDefer r | CDone r | CReleased r => sent_ok g (c_id c) (c_reg c) r
  | _ => True
  end.
Definition call_ok (g : list message) (c : call) : Prop :=
  Forall (pack_ok g (c_id c)) (c_buf c) ∧ pc_ok g c ∧ (c_reg c = true → c_cb c = true).

Record good (acks : gmap string nat) (cbs : gmap string (Z * nat)) (cs : list call) (h : history)
    (ss : list send_loop) (rs : list recv_pc) : Prop := {
  g_ack : ∀ id i, acks !! id = Some i → ∃ c, cs !! i = Some c ∧ c_id c = Some id;
  g_cb : ∀ rid t i, cbs !! rid = Some (t, i) → (∃ c, cs !! i = Some c ∧ c_reg c = true ∧ c_rid c = rid) ∧ i ∉ (called h).*1;
  g_call : ∀ i c, cs !! i = Some c → call_ok (got h) c;
  g_once : NoDup (called h).*1;
  g_called : ∀ i m, (i, m) ∈ called h →
    m ∈ got h ∧ ∃ c, cs !! i = Some c ∧ c_reg c = true ∧ kind_of (Body m) = KNotify (c_rid c);
  g_send : ∀ l x i p b, ss !! l = Some x → sl_pc x = SPush i p b → ∀ m, p ≠ Ok (Some m);
  g_recv : ∀ l m, rs !! l = Some (RGot m) → m ∈ got h;
  g_push : ∀ l i m, rs !! l = Some (RPush i m) → ∃ c, cs !! i = Some c ∧ reply_ok (got h) (c_id c) m }.

Section Good.
  Context {acks : gmap string nat} {cbs : gmap string (Z * nat)} {cs : list call} {h : history}
    {ss : list send_loop} {rs : list recv_pc}.
  Hypothesis G : good acks cbs cs h ss rs.

(** A call may take its identifiers once, and may go on. *)
Lemma good_alter f i :
  (∀ c, cs !! i = Some c → call_ok (got h) c →
     call_ok (got h) (f c) ∧ (c_id (f c) = c_id c ∨ c_id c = None) ∧ (c_reg c = true → c_reg (f c) = true ∧ c_rid (f c) = c_rid c)) →
  good acks cbs (alter f i cs) h ss rs.
Proof.
  intros Hf.
  assert (K : ∀ j c, cs !! j = Some c → ∃ c', alter f i cs !! j = Some c' ∧ call_ok (got h) c' ∧
      (c_id c' = c_id c ∨ c_id c = None) ∧ (c_reg c = true → c_reg c' = true ∧ c_rid c' = c_rid c)).
  { intros j c Hj. pose proof (g_call _ _ _ _ _ _ G _ _ Hj) as Hok. destruct (decide (j = i)) as [-> | Hne].
    - exists (f c). rewrite list_lookup_alter_eq, Hj. split; [done|]. by apply Hf.
    - exists c. rewrite list_lookup_alter_ne by done. auto. }
  destruct G as [Ga Gb Gc Go Gd Gs Gr Gp]. split; try done.
  - intros id j Hj. destruct (Ga _ _ Hj) as (c & Hc & Hid). destruct (K _ _ Hc) as (c' & Hc' & _ & [E|E] & _); [|congruence].
    exists c'. split; [done|congruence].
  - intros rid t j Hj. destruct (Gb _ _ _ Hj) as ((c & Hc & Hr & Hid) & Hn). destruct (K _ _ Hc) as (c' & Hc' & _ & _ & E).
    destruct (E Hr). split; [|done]. exists c'. split_and!; [done..|congruence].
  - intros j c Hj. destruct (cs !! j) as [c0|] eqn:Hc.
    + destruct (K _ _ Hc) as (c' & Hc' & ? & _). congruence.
    + apply lookup_lt_Some in Hj. rewrite length_alter in Hj. apply lookup_ge_None in Hc. lia.
  - intros j m Hm. destruct (Gd _ _ Hm) as (Hg & c & Hc & Hr & Hk). destruct (K _ _ Hc) as (c' & Hc' & _ & _ & E).
    destruct (E Hr). split; [done|]. exists c'. split_and!; [done..|congruence].
  - intros l j m Hl. destruct (Gp _ _ _ Hl) as (c & Hc & Hm). destruct (K _ _ Hc) as (c' & Hc' & _ & [E|E] & _); [|by destruct Hm; congruence].
    exists c'. split; [done|by rewrite E].
Qed.

Lemma good_new c : call_ok (got h) c → good acks cbs (cs ++ [c]) h ss rs.
Proof.
  intros Hc. assert (K : ∀ j x, cs !! j = Some x → (cs ++ [c])%list !! j = Some x) by (intros; by apply lookup_app_l_Some).
  destruct G as [Ga Gb Gc Go Gd Gs Gr Gp]. split; try done.
  - intros id j Hj. destruct (Ga _ _ Hj) as (x & ? & ?); eauto.
  - intros rid t j Hj. destruct (Gb _ _ _ Hj) as ((x & ? & ? & ?) & ?). eauto 10.
  - intros j x [Hj|(? & Hj)]%lookup_app_Some; [eauto|]. by apply list_lookup_singleton_Some in Hj as [_ <-].
  - intros j m Hm. destruct (Gd _ _ Hm) as (? & x & ? & ? & ?). eauto 10.
  - intros l j m Hl. destruct (Gp _ _ _ Hl) as (x & ? & ?); eauto.
Qed.

Lemma good_ack_insert id i c : cs !! i = Some c → c_id c = Some id → good (<[id := i]> acks) cbs cs h ss rs.
Proof.
  intros Hc Hid. destruct G as [Ga Gb Gc Go Gd Gs Gr Gp]. split; try done.
  intros id' j [[<- <-]|[_ ?]]%lookup_insert_Some; eauto.
Qed.

Lemma good_ack_delete id : good (delete id acks) cbs cs h ss rs.
Proof. destruct G as [Ga Gb Gc Go Gd Gs Gr Gp]. split; try done. intros id' j [_ ?]%lookup_delete_Some. eauto. Qed.

Lemma good_cb_insert rid t i c :
  cs !! i = Some c → c_reg c = true → c_rid c = rid → i ∉ (called h).*1 → good acks (<[rid := (t, i)]> cbs) cs h ss rs.
Proof.
  intros Hc Hr Hid Hn. destruct G as [Ga Gb Gc Go Gd Gs Gr Gp]. split; try done.
  intros rid' t' j [[<- [= <- <-]]|[_ ?]]%lookup_insert_Some; eauto 10.
Qed.

Lemma good_cb_delete rid : good acks (delete rid cbs) cs h ss rs.
Proof. destruct G as [Ga Gb Gc Go Gd Gs Gr Gp]. split; try done. intros rid' t j [_ ?]%lookup_delete_Some. eauto. Qed.

(** The pc of a send loop. *)
Lemma good_sloop l p : (∀ i q b m, p = SPush i q b → q ≠ Ok (Some m)) → good acks cbs cs h (alter (λ x, MkLoop (sl_rsp x) p) l ss) rs.
Proof.
  intros Hp. destruct G as [Ga Gb Gc Go Gd Gs Gr Gp]. split; try done.
  intros k x i q b Hk Hx m. destruct (decide (k = l)) as [-> | Hne].
  - rewrite list_lookup_alter_eq in Hk. destruct (ss !! l) as [y|]; [|done]. injection Hk as <-. eauto.
  - rewrite list_lookup_alter_ne in Hk by done. eauto.
Qed.

Lemma good_rloop l p :
  (∀ m, p = RGot m → m ∈ got h) → (∀ i m, p = RPush i m → ∃ c, cs !! i = Some c ∧ reply_ok (got h) (c_id c) m) →
  good acks cbs cs h ss (<[l := p]> rs).
Proof.
  intros Hg Hp. destruct G as [Ga Gb Gc Go Gd Gs Gr Gp]. split; try done.
  - intros k m [(? & E & _)|[_ ?]]%list_lookup_insert_Some; eauto.
  - intros k i m [(? & E & _)|[_ ?]]%list_lookup_insert_Some; eauto.
Qed.

Lemma good_got m : good acks cbs cs (MkHistory (wire h) (got h ++ [m])%list (called h) (crashed h)) ss rs.
Proof.
  assert (K : ∀ x, x ∈ got h → x ∈ (got h ++ [m])%list) by set_solver.
  assert (R : ∀ id x, reply_ok (got h) id x → reply_ok (got h ++ [m])%list id x) by (intros ?? (? & ? & ?); split_and!; auto).
  destruct G as [Ga Gb Gc Go Gd Gs Gr Gp]. split; cbn; try done.
  - intros i c Hi. destruct (Gc _ _ Hi) as (Hb & Hp & ?). split_and!; [|unfold pc_ok, sent_ok in *; repeat case_match; auto|done].
    eapply Forall_impl; [exact Hb|]. intros p Hpk x Hx. auto.
  - intros i x Hx. destruct (Gd _ _ Hx) as (? & ?). auto.
  - eauto.
  - intros l i x Hl. destruct (Gp _ _ _ Hl) as (c & ? & ?). eauto.
Qed.

(** A notification starts the callback recorded for it. *)
Lemma good_notify rid t i m :
  cbs !! rid = Some (t, i) → m ∈ got h → kind_of (Body m) = KNotify rid →
  good acks (delete rid cbs) cs (MkHistory (wire h) (got h) (called h ++ [(i, m)])%list (crashed h)) ss rs.
Proof.
  intros Hi Hm Hk. destruct G as [Ga Gb Gc Go Gd Gs Gr Gp].
  destruct (Gb _ _ _ Hi) as ((c & Hc & Hr & Hid) & Hn). split; cbn; try done.
  - intros rid' t' j [Hne Hj]%lookup_delete_Some. destruct (Gb _ _ _ Hj) as ((c' & Hc' & Hr' & Hid') & Hn'). split; [eauto|].
    rewrite fmap_app, elem_of_app. cbn. rewrite list_elem_of_singleton. intros [?|?]; [done|]. congruence.
  - rewrite fmap_app, NoDup_app. cbn. split_and!; [done| |apply NoDup_singleton]. intros x Hx ->%list_elem_of_singleton. done.
  - intros j x [Hj|[= -> ->]%list_elem_of_singleton]%elem_of_app; [auto|]. split; [done|]. exists c. split_and!; [done..|congruence].
Qed.

Lemma good_wake : good acks cbs cs h (wake_send <$> ss) (wake_recv <$> rs).
Proof.
  destruct G as [Ga Gb Gc Go Gd Gs Gr Gp]. split; try done.
  - intros l x i p b Hl Hx m. apply list_lookup_fmap_Some in Hl as (y & -> & Hy). unfold wake_send in Hx. destruct (sl_pc y) eqn:Ey; cbn in Hx; try congruence; by eapply Gs.
  - intros l m Hl. apply list_lookup_fmap_Some in Hl as (y & E & Hy). destruct y; cbn in E; simplify_eq; eauto.
  - intros l i m Hl. apply list_lookup_fmap_Some in Hl as (y & E & Hy). destruct y; cbn in E; simplify_eq; eauto.
Qed.

(** The history of the stream and of panics does not matter. *)
Lemma good_hist w b : good acks cbs cs (MkHistory w (got h) (called h) b) ss rs.
Proof. by destruct G. Qed.
End Good.

Definition ok (s : conn) : Prop :=
  good (sendAckRecord (tabs s)) (sendCbRecord (tabs s)) (calls s) (hist s) (sloops s) (rloops s).

(** A change of pc that keeps the identifiers. *)
Lemma ok_set_call i p s :
  ok s → (∀ c, calls s !! i = Some c → call_ok (got (hist s)) c → pc_ok (got (hist s)) (set_pc p c)) → ok (set_call i p s).
Proof.
  intros G Hp. apply (good_alter G). intros c Hc Hok. pose proof (Hp _ Hc Hok). destruct Hok as (? & ? & ?). split_and!; auto.
  by split_and!.
Qed.

Lemma ok_Send_start healthy uuid a cb pooled req s : ok s → ok (Send_start healthy uuid a cb pooled req s).
Proof.
  intros G. unfold Send_start. repeat case_match; apply (good_new G); split_and!; cbn; done || constructor.
Qed.

Lemma ok_Send_lock now i c s : ok s → calls s !! i = Some c → c_pc c = CLock → ok (Send_lock now i c s).
Proof.
  intros G Hc Hpc. pose proof (g_call _ _ _ _ _ _ G _ _ Hc) as (Hbuf & Hp & Hcb). unfold pc_ok in Hp. rewrite Hpc in Hp. destruct Hp as [Hid Hreg].
  assert (Hbuf' : ∀ id, Forall (pack_ok (got (hist s)) id) (c_buf c)).
  { intros id. eapply Forall_impl; [exact Hbuf|]. intros p Hpk m Hm. destruct (Hpk m Hm) as (E & _). congruence. }
  assert (Hnc : i ∉ (called (hist s)).*1).
  { intros ([? m] & -> & Hm)%list_elem_of_fmap. destruct (g_called _ _ _ _ _ _ G _ _ Hm) as (_ & x & Hx & Hr & _). cbn in *. congruence. }
  unfold Send_lock. set (o := obj _ _). set (rid := getRequestID _ _).
  assert (K : ∀ reg p, (reg = true → c_cb c = true) → pc_ok (got (hist s)) (register (MessageID o) rid reg p c) →
    good (<[MessageID o := i]> (sendAckRecord (tabs s))) (sendCbRecord (tabs s))
      (alter (register (MessageID o) rid reg p) i (calls s)) (hist s) (sloops s) (rloops s)).
  { intros reg p Hr Hp. eapply good_ack_insert; [|by rewrite list_lookup_alter_eq, Hc|done]. apply (good_alter G).
    intros c' Hc' _. simplify_eq. unfold call_ok. split_and!; [apply Hbuf'|done|done|by right|congruence]. }
  destruct (negb _ && _) eqn:Hb; [|by apply K].
  apply andb_true_iff in Hb as [_ Hb]. destruct (sendCbRecord _ !! rid) eqn:Hrid; [by apply K|].
  eapply good_cb_insert; [by apply K|by cbn; rewrite list_lookup_alter_eq, Hc|done..].
Qed.

Lemma ok_call_step now i s : ok s → ok (call_step now i s).
Proof.
  intros G. unfold call_step. destruct (calls s !! i) as [c|] eqn:Hc; [|done]. destruct (c_pc c) eqn:Hpc.
  - by apply ok_Send_lock.
  - unfold Send_enqueue. case_match; by apply ok_set_call.
  - destruct (c_buf c) as [|p q] eqn:Hb; [done|]. apply (good_alter G). intros c' Hc' (Hbuf & ? & ?). simplify_eq.
    rewrite Hb in Hbuf. inversion_clear Hbuf as [|? ? Hp Hq]. unfold call_ok. split_and!; [by cbn; rewrite Hb| |done|by left|done].
    unfold pc_ok. cbn. destruct p as [[m|]|]; cbn; auto.
  - apply ok_set_call; [by apply (good_cb_delete G)|]. intros c' Hc' (? & Hp & ?). cbn in *. simplify_eq. unfold pc_ok in *. by rewrite Hpc in Hp.
  - apply ok_set_call; [by apply (good_ack_delete G)|]. intros c' Hc' (? & Hp & ?). cbn in *. simplify_eq. unfold pc_ok in *. by rewrite Hpc in Hp.
  - case_match; [|done]. apply ok_set_call; [done|]. intros c' Hc' (? & Hp & ?). cbn in *. simplify_eq. unfold pc_ok in *. by rewrite Hpc in Hp.
  - done.
Qed.

Lemma ok_set_sloop l p s : ok s → (∀ i q b m, p = SPush i q b → q ≠ Ok (Some m)) → ok (set_sloop l p s).
Proof. intros G Hp. by apply (good_sloop G). Qed.

Lemma ok_set_rloop l p s :
  ok s → (∀ m, p = RGot m → m ∈ got (hist s)) →
  (∀ i m, p = RPush i m → ∃ c, calls s !! i = Some c ∧ reply_ok (got (hist s)) (c_id c) m) → ok (set_rloop l p s).
Proof. intros G Hg Hp. by apply (good_rloop G). Qed.

(** A pack for a call that may have it. *)
Lemma ok_push i p s :
  ok s → (∀ c, calls s !! i = Some c → pack_ok (got (hist s)) (c_id c) p) → ok (with_calls (alter (add_pack p) i (calls s)) s).
Proof.
  intros G Hp. apply (good_alter G). intros c Hc (Hb & Hpc & Hr). unfold call_ok. split_and!; [|done..|by left|done].
  apply Forall_app_2; [done|]. constructor; [exact (Hp c Hc)|constructor].
Qed.

Lemma ok_send_step l healthy e s : ok s → ok (send_step l healthy e s).
Proof.
  intros G. unfold send_step. destruct (sloops s !! l) as [[rsp pc]|] eqn:Hl; [|done]. destruct pc as [|a|a|a|a|a e'|i p b|f|]; try done.
  - destruct (queue rsp s); [done|]. by apply ok_set_sloop.
  - destruct (must_wait _ _); apply ok_set_sloop; try done. by destruct (closed _).
  - apply ok_set_sloop; [done|]. by destruct (closed _).
  - apply ok_set_sloop; [|done]. destruct e; [done|]. apply (good_hist G).
  - destruct e'; [apply ok_set_sloop; [done|]; case_match; congruence|].
    case_match; apply ok_set_sloop; try done. case_match; congruence.
  - case_match; [|done]. apply ok_set_sloop; [|by destruct b]. apply ok_push; [done|]. intros c _ m Hm.
    by destruct (g_send _ _ _ _ _ _ G _ _ _ _ _ Hl eq_refl m).
  - case_match. apply ok_set_sloop; [done|]. by case_match.
Qed.

Lemma ok_recv_handle l m s : ok s → m ∈ got (hist s) → ok (recv_handle l m s).
Proof.
  intros G Hm. unfold recv_handle. destruct (kind_of (Body m)) eqn:Hk.
  - destruct (sendAckRecord _ !! _) as [i|] eqn:Hi; apply ok_set_rloop; try done; [by apply (good_ack_delete G)|].
    intros j x [= <- <-]. destruct (g_ack _ _ _ _ _ _ G _ _ Hi) as (c & Hc & Hid). exists c. by split_and!.
  - apply ok_set_rloop; try done. by case_match.
  - apply ok_set_rloop; try done. destruct (sendCbRecord _ !! _) as [[t i]|] eqn:Hi; [|done]. by eapply (good_notify G).
  - by apply ok_set_rloop.
  - by apply ok_set_rloop.
  - apply ok_set_rloop; try done. by apply (good_hist G).
Qed.

Lemma ok_recv_step l healthy r s : ok s → ok (recv_step l healthy r s).
Proof.
  intros G. unfold recv_step. destruct (rloops s !! l) as [pc|] eqn:Hl; [|done]. destruct pc as [| | | | |m|i m|o|f|]; try done.
  - apply ok_set_rloop; by try case_match.
  - case_match; apply ok_set_rloop; by try case_match.
  - apply ok_set_rloop; by try case_match.
  - destruct r as [m|]; apply ok_set_rloop; try done; [apply (good_got G)|]. intros x [= <-]. cbn. set_solver.
  - apply ok_recv_handle; [done|]. by eapply (g_recv _ _ _ _ _ _ G).
  - case_match; [|done]. apply ok_set_rloop; try done. apply ok_push; [done|]. intros c Hc x [= <-].
    destruct (g_push _ _ _ _ _ _ G _ _ _ Hl) as (c' & ? & ?). congruence.
  - apply ok_set_rloop; try done. by case_match.
  - case_match. apply ok_set_rloop; by try case_match.
Qed.

Lemma ok_step s e : ok s → ok (step s e).
Proof.
  intros G. unfold step. destruct (crashed _); [done|]. destruct e.
  - case_match. by apply ok_Send_start.
  - unfold Invoke_start. destruct (acquireStreamMessageInvokeRequest _ _ _) as [[? ?] ?]. by apply ok_Send_start.
  - by apply ok_call_step.
  - unfold timer_fires. repeat case_match; try done. by apply ok_set_call.
  - by apply ok_send_step.
  - unfold send_stop. repeat case_match; try done. by apply ok_set_sloop.
  - by apply ok_recv_step.
  - unfold repair_step. repeat case_match; try done. apply (good_wake G).
  - unfold repair_stop. by repeat case_match.
  - unfold Recv. by case_match.
  - unfold user_close, Close. by repeat case_match.
  - unfold user_close_ch. by case_match.
Qed.

Lemma ok_create size p hf rf : ok (CreateStreamConnection size p hf rf).
Proof.
  split; cbn; try done.
  - constructor.
  - intros ? ? Hx. by apply not_elem_of_nil in Hx.
  - intros l x i q b [Hl|[_ Hl]]%lookup_app_Some Hx; apply lookup_replicate in Hl as [-> _]; done.
  - intros l m [? _]%lookup_replicate. done.
  - intros l i m [? _]%lookup_replicate. done.
Qed.

Lemma ok_run s es : ok s → ok (run s es).
Proof. intros. unfold run. apply foldl_inv; [|done]. intros. by apply ok_step. Qed.

(** The result of a call that returned. *)
Definition returned (c : call) : option sent := match c_pc c with CDone r | CReleased r => Some r | _ => None end.

(** C25. Whatever the loops, the timers, the peer and the repairs do, a response
    that a call returns came from the stream, is a response and carries the
    identifier the call registered; a callback runs at most once, only if its
    call was accepted, and on a notification from the stream with the request
    identifier of its call. *)
Theorem stream_replies_matched size p hf rf es :
  let s := run (CreateStreamConnection size p hf rf) es in
  (∀ i c m, calls s !! i = Some c → returned c = Some (Ok (Some m)) →
     c_id c = Some (MessageID m) ∧ kind_of (Body m) = KResponse ∧ m ∈ got (hist s)) ∧
  NoDup (called (hist s)).*1 ∧
  (∀ i m, (i, m) ∈ called (hist s) → m ∈ got (hist s) ∧
     ∃ c, calls s !! i = Some c ∧ c_cb c = true ∧ kind_of (Body m) = KNotify (c_rid c) ∧
       ∀ e, returned c = Some (Err e) → refusal e = false).
Proof.
  intros s. pose proof (ok_run _ es (ok_create size p hf rf)) as G. fold s in G. split_and!.
  - intros i c m Hc Hr. destruct (g_call _ _ _ _ _ _ G _ _ Hc) as (_ & Hp & _). unfold returned, pc_ok in *. by case_match; simplify_eq.
  - exact (g_once _ _ _ _ _ _ G).
  - intros i m Hm. destruct (g_called _ _ _ _ _ _ G _ _ Hm) as (Hg & c & Hc & Hr & Hk). split; [done|]. exists c.
    destruct (g_call _ _ _ _ _ _ G _ _ Hc) as (_ & Hp & Hcb). split_and!; [auto..|].
    intros e He. unfold returned, pc_ok in *. case_match; simplify_eq; auto.
Qed.

(** ** A failed repair *)

(** The repair loop is idle with nothing to take, although the connection is
    being repaired, and every loop is before its check of the connection. *)
Definition send_before (x : send_loop) : Prop :=
  match sl_pc x with SWoken _ | SFixed _ | SFix FSignal | SFix FClose | SFix FCloseCh => False | _ => True end.
Definition recv_before (x : recv_pc) : Prop :=
  match x with RWoken | RFixed | RFix FSignal | RFix FClose | RFix FCloseCh => False | _ => True end.
Definition stranded (s : conn) : Prop :=
  has_repair s = true ∧ repairing (life_of s) = true ∧ repairCh (life_of s) = false ∧
  (repairer s = PIdle ∨ repairer s = PStop) ∧ Forall send_before (sloops s) ∧ Forall recv_before (rloops s).

(** What does not change in such a connection. *)
Definition same_traffic (s s' : conn) : Prop :=
  wire (hist s') = wire (hist s) ∧ got (hist s') = got (hist s) ∧
  (∀ l rsp a, sloops s !! l = Some (MkLoop rsp (SWaiting a)) → sloops s' !! l = Some (MkLoop rsp (SWaiting a))) ∧
  (∀ l, rloops s !! l = Some RWaiting → rloops s' !! l = Some RWaiting).

Lemma stranded_sloop s s' l p :
  same_traffic s s' → stranded s' → (∀ rsp a, sloops s !! l ≠ Some (MkLoop rsp (SWaiting a))) → (∀ b, send_before (MkLoop b p)) →
  stranded (set_sloop l p s') ∧ same_traffic s (set_sloop l p s').
Proof.
  intros (Hw & Hg & Hs & Hr) (H1 & H2 & H3 & H4 & H5 & H6) Hl Hp. split; [split_and!; try done|split_and!; try done].
  - cbn. apply Forall_lookup. intros k x Hk. destruct (decide (k = l)) as [-> | Hne].
    + rewrite list_lookup_alter_eq in Hk. destruct (sloops s' !! l) as [y|]; [|done]. injection Hk as <-. apply Hp.
    + rewrite list_lookup_alter_ne in Hk by done. by eapply Forall_lookup_1.
  - intros k rsp a Hk. cbn. rewrite list_lookup_alter_ne by (intros <-; by eapply Hl). auto.
Qed.

Lemma stranded_rloop s s' l p :
  same_traffic s s' → stranded s' → rloops s !! l ≠ Some RWaiting → recv_before p →
  stranded (set_rloop l p s') ∧ same_traffic s (set_rloop l p s').
Proof.
  intros (Hw & Hg & Hs & Hr) (H1 & H2 & H3 & H4 & H5 & H6) Hl Hp. split; [split_and!; try done|split_and!; try done].
  - cbn. by apply Forall_insert.
  - intros k Hk. cbn. rewrite list_lookup_insert_ne by (intros <-; by apply Hl). auto.
Qed.

Lemma same_traffic_refl s : same_traffic s s.
Proof. by split_and!. Qed.

Lemma same_traffic_trans s1 s2 s3 : same_traffic s1 s2 → same_traffic s2 s3 → same_traffic s1 s3.
Proof. intros (? & ? & ? & ?) (? & ? & ? & ?). split_and!; eauto; congruence. Qed.

(** A step that leaves the loops and the stream alone. *)
Definition aside (s s' : conn) : Prop :=
  has_repair s' = has_repair s ∧ repairing (life_of s') = repairing (life_of s) ∧ repairCh (life_of s') = repairCh (life_of s) ∧
  repairer s' = repairer s ∧ sloops s' = sloops s ∧ rloops s' = rloops s ∧ wire (hist s') = wire (hist s) ∧ got (hist s') = got (hist s).

Lemma stranded_aside s s' : stranded s → aside s s' → stranded s' ∧ same_traffic s s'.
Proof.
  intros (H1 & H2 & H3 & H4 & H5 & H6) (E1 & E2 & E3 & E4 & E5 & E6 & E7 & E8).
  unfold stranded, same_traffic. rewrite E1, E2, E3, E4, E5, E6, E7, E8. by split_and!.
Qed.

Lemma aside_call_step now i s : aside s (call_step now i s).
Proof. unfold call_step, Send_lock, Send_enqueue, Send_drop, Send_defer, Invoke_release. by repeat case_match. Qed.

Lemma aside_Send_start healthy uuid a cb pooled req m s : aside s (Send_start healthy uuid a cb pooled req (with_mem m s)).
Proof. unfold Send_start. by repeat case_match. Qed.

Ltac sloop_done S Hl := apply stranded_sloop; [done..|rewrite Hl; congruence|by intros; repeat case_match].
Ltac rloop_done S Hl := apply stranded_rloop; [done..|rewrite Hl; congruence|by repeat case_match].

Lemma stranded_send_step l healthy e s : stranded s → stranded (send_step l healthy e s) ∧ same_traffic s (send_step l healthy e s).
Proof.
  intros S. pose proof S as (H1 & H2 & H3 & H4 & H5 & H6). pose proof (same_traffic_refl s) as R.
  unfold send_step. destruct (sloops s !! l) as [[rsp pc]|] eqn:Hl; [|done].
  pose proof (Forall_lookup_1 _ _ _ _ H5 Hl) as Hb. destruct pc as [|a|a|a|a|a e'|i p b|f|]; try done.
  - destruct (queue rsp s); [done|]. sloop_done S Hl.
  - unfold must_wait. rewrite H2. cbn [orb]. sloop_done S Hl.
  - destruct e'; [sloop_done S Hl|]. destruct (expectResponse _); sloop_done S Hl.
  - destruct (room i s); [|done]. destruct b; sloop_done S Hl.
  - destruct f; try done. cbn. rewrite H1, H2. cbn. sloop_done S Hl.
Qed.

Lemma stranded_recv_step l healthy r s : stranded s → stranded (recv_step l healthy r s) ∧ same_traffic s (recv_step l healthy r s).
Proof.
  intros S. pose proof S as (H1 & H2 & H3 & H4 & H5 & H6). pose proof (same_traffic_refl s) as R.
  unfold recv_step. destruct (rloops s !! l) as [pc|] eqn:Hl; [|done].
  pose proof (Forall_lookup_1 _ _ _ _ H6 Hl) as Hb. destruct pc as [| | | | |m|i m|o|f|]; try done.
  - destruct (closeCh _); rloop_done S Hl.
  - unfold must_wait. rewrite H2. cbn [orb]. rloop_done S Hl.
  - unfold recv_handle. destruct (kind_of _); repeat case_match; rloop_done S Hl.
  - destruct (room i s); [|done]. rloop_done S Hl.
  - case_match; rloop_done S Hl.
  - destruct f; try done. cbn. rewrite H1, H2. cbn. rloop_done S Hl.
Qed.

Lemma stranded_step s e : stranded s → stranded (step s e) ∧ same_traffic s (step s e).
Proof.
  intros S. pose proof S as (H1 & H2 & H3 & H4 & H5 & H6). pose proof (same_traffic_refl s) as R.
  unfold step. destruct (crashed _); [done|]. destruct e; try (apply stranded_send_step, S); try (apply stranded_recv_step, S).
  - case_match. apply stranded_aside; [done|]. apply aside_Send_start.
  - apply stranded_aside; [done|]. unfold Invoke_start. destruct (acquireStreamMessageInvokeRequest _ _ _) as [[? ?] ?]. apply aside_Send_start.
  - apply stranded_aside; [done|]. apply aside_call_step.
  - apply stranded_aside; [done|]. unfold timer_fires. by repeat case_match.
  - unfold send_stop. destruct (sloops s !! l) as [[rsp pc]|] eqn:Hl; [|done]. destruct pc; try done. destruct (closeCh _); [|done]. sloop_done S Hl.
  - unfold repair_step. rewrite H3. by destruct H4 as [-> | ->].
  - unfold repair_stop. destruct H4 as [E | E]; rewrite E; [|done]. destruct (closeCh _); [|done]. split; [|done]. split_and!; try done. by right.
  - apply stranded_aside; [done|]. unfold Recv. by case_match.
  - apply stranded_aside; [done|]. unfold user_close, Close. by destruct (closed (life_of s)).
  - apply stranded_aside; [done|]. unfold user_close_ch. by case_match.
Qed.

(** After one repair that fails, the connection is dead: whatever happens,
    closing it included, nothing is sent or received any more, and the loops
    that wait for the repair wait for ever. *)
Theorem failed_repair_strands s es :
  stranded s →
  let s' := run s es in
  stranded s' ∧ wire (hist s') = wire (hist s) ∧ got (hist s') = got (hist s) ∧
  (∀ l rsp a, sloops s !! l = Some (MkLoop rsp (SWaiting a)) → sloops s' !! l = Some (MkLoop rsp (SWaiting a))) ∧
  (∀ l, rloops s !! l = Some RWaiting → rloops s' !! l = Some RWaiting).
Proof.
  intros S. cbn zeta. unfold run. apply (foldl_inv (λ s', stranded s' ∧ same_traffic s s')).
  - intros s' e _ (S' & T). destruct (stranded_step s' e S') as (? & ?). split; [done|]. by eapply same_traffic_trans.
  - split; [done|]. apply same_traffic_refl.
Qed.

(** ** The messages of the pool *)

(** A call of [Invoke] holds its message until it gives it back. *)
Definition holds (c : call) : bool := c_pooled c && match c_pc c with CReleased _ => false | _ => true end.

(** Its message and its request, untouched. *)
Definition held (m : mem) (c : call) (p : nat) : Prop :=
  (∃ id, objs m !! c_msg c = Some (MkMsg id (InvokeReq p)) ∧ ∀ id', c_id c = Some id' → id = id') ∧
  invs m !! p = Some (c_req c) ∧ (c_msg c < nextp m)%nat ∧ (p < nextp m)%nat ∧ c_msg c ∉ msgPool m ∧ p ∉ reqPool m.

Record owned (m : mem) (cs : list call) : Prop := {
  o_pool : ∀ a, a ∈ msgPool m ∨ a ∈ reqPool m → (a < nextp m)%nat;
  o_held : ∀ i c, cs !! i = Some c → holds c = true → ∃ p, held m c p;
  o_apart : ∀ i j c d p q, cs !! i = Some c → cs !! j = Some d → holds c = true → holds d = true → i ≠ j →
    held m c p → held m d q → c_msg c ≠ c_msg d ∧ p ≠ q }.

Lemma held_unique m c p q : held m c p → held m c q → p = q.
Proof. intros ((? & E & _) & _) ((? & F & _) & _). congruence. Qed.

(** A write to another object, a larger memory or a smaller pool keep what a call holds. *)
Lemma held_mono m m' c p :
  held m c p → objs m' !! c_msg c = objs m !! c_msg c → invs m' !! p = invs m !! p → (nextp m ≤ nextp m')%nat →
  c_msg c ∉ msgPool m' → p ∉ reqPool m' → held m' c p.
Proof. intros ((id & Ho & Hid) & Hi & Ha & Hp & _ & _) E F Hn Hm Hr. split_and!; [exists id|..]; rewrite ?E, ?F; auto; lia. Qed.

(** A step of memory that leaves alone what the calls hold. *)
Lemma owned_mono m m' cs :
  owned m cs → (∀ a, a ∈ msgPool m' ∨ a ∈ reqPool m' → (a < nextp m')%nat) →
  (∀ i c p, cs !! i = Some c → holds c = true → held m c p → held m' c p) → owned m' cs.
Proof.
  intros [Op Oh Oa] Hp Hh. split; [done|..].
  - intros i c Hi Hc. destruct (Oh _ _ Hi Hc) as (p & ?). eauto.
  - intros i j c d p q Hi Hj Hc Hd Hne Hp' Hq'. destruct (Oh _ _ Hi Hc) as (p0 & H0). destruct (Oh _ _ Hj Hd) as (q0 & H1).
    rewrite (held_unique _ _ _ _ Hp' (Hh _ _ _ Hi Hc H0)), (held_unique _ _ _ _ Hq' (Hh _ _ _ Hj Hd H1)). by eapply (Oa i j).
Qed.

(** A change of a call that keeps its message. *)
Lemma owned_alter m cs f i :
  owned m cs →
  (∀ c, cs !! i = Some c → c_msg (f c) = c_msg c ∧ c_req (f c) = c_req c ∧ (holds (f c) = true → holds c = true) ∧
     (c_id (f c) = c_id c ∨ c_id (f c) = Some (MessageID (obj m (c_msg c))))) →
  owned m (alter f i cs).
Proof.
  intros [Op Oh Oa] Hf.
  assert (K : ∀ j d, alter f i cs !! j = Some d → holds d = true →
      ∃ c, cs !! j = Some c ∧ holds c = true ∧ c_msg d = c_msg c ∧ c_req d = c_req c ∧
        (c_id d = c_id c ∨ c_id d = Some (MessageID (obj m (c_msg c))))).
  { intros j d Hj Hd. destruct (decide (j = i)) as [-> | Hne].
    - rewrite list_lookup_alter_eq in Hj. destruct (cs !! i) as [c|]; [|done]. injection Hj as <-.
      destruct (Hf c eq_refl) as (? & ? & ? & ?). exists c. auto 10.
    - rewrite list_lookup_alter_ne in Hj by done. exists d. auto 10. }
  split; [done|..].
  - intros j d Hj Hd. destruct (K _ _ Hj Hd) as (c & Hc & Hh & Em & Er & Ei). destruct (Oh _ _ Hc Hh) as (p & (id & Ho & Hid) & Hi & Hrest).
    exists p. unfold held. rewrite Em, Er. split; [|done]. exists id. split; [done|]. intros id' E. destruct Ei as [Ei|Ei]; [rewrite Ei in E; auto|].
    rewrite Ei in E. injection E as <-. unfold obj. by rewrite Ho.
  - intros j k d e p q Hj Hk Hd He Hne ((id & Ho & _) & _) ((id' & Ho' & _) & _).
    destruct (K _ _ Hj Hd) as (c & Hc & Hh & Em & _). destruct (K _ _ Hk He) as (c' & Hc' & Hh' & Em' & _).
    destruct (Oh _ _ Hc Hh) as (p0 & H0). destruct (Oh _ _ Hc' Hh') as (q0 & H1).
    assert (p = p0) by (destruct H0 as ((? & ? & _) & _); congruence). assert (q = q0) by (destruct H1 as ((? & ? & _) & _); congruence). subst.
    rewrite Em, Em'. by eapply (Oa j k).
Qed.

(** A new call that holds nothing, or objects nobody has. *)
Lemma owned_new m cs c :
  owned m cs → (holds c = true → ∃ p, held m c p ∧ ∀ i d q, cs !! i = Some d → holds d = true → held m d q → c_msg d ≠ c_msg c ∧ q ≠ p) →
  owned m (cs ++ [c]).
Proof.
  intros [Op Oh Oa] Hc.
  assert (K : ∀ j x, (cs ++ [c])%list !! j = Some x → cs !! j = Some x ∨ (x = c ∧ j = length cs)).
  { intros j x [Hj|[Hge Hj]]%lookup_app_Some; [auto|]. apply list_lookup_singleton_Some in Hj as [? <-]. right. split; [done|lia]. }
  split; [done|..].
  - intros j x Hj Hx. destruct (K _ _ Hj) as [Hj'|[-> _]]; [eauto|]. destruct (Hc Hx) as (p & ? & _). eauto.
  - intros j k d e p q Hj Hk Hd He Hne Hp Hq. destruct (K _ _ Hj) as [Hj'|[-> ?]], (K _ _ Hk) as [Hk'|[-> ?]]; [by eapply (Oa j k)|..|lia].
    + destruct (Hc He) as (q' & Hq' & Hall). rewrite (held_unique _ _ _ _ Hq Hq'). by eapply Hall.
    + destruct (Hc Hd) as (p' & Hp' & Hall). rewrite (held_unique _ _ _ _ Hp Hp'). destruct (Hall _ _ _ Hk' He Hq). auto.
Qed.

(** [m'] takes the object [a] and the request [p], that were in a pool or did
    not exist, and changes nothing else. *)
Record takes (m m' : mem) (a p : nat) : Prop := {
  t_next : (nextp m ≤ nextp m')%nat;
  t_msgs : ∀ x, x ∈ msgPool m' → x ∈ msgPool m;
  t_reqs : ∀ x, x ∈ reqPool m' → x ∈ reqPool m;
  t_objs : ∀ b, b ≠ a → objs m' !! b = objs m !! b;
  t_invs : ∀ q, q ≠ p → invs m' !! q = invs m !! q;
  t_obj : a ∈ msgPool m ∨ (nextp m ≤ a)%nat;
  t_inv : p ∈ reqPool m ∨ (nextp m ≤ p)%nat }.

Lemma takes_held m m' a p c q : takes m m' a p → held m c q → held m' c q ∧ c_msg c ≠ a ∧ q ≠ p.
Proof.
  intros [Tn Tm Tr To Ti Ta Tp] Hh. pose proof Hh as (_ & _ & Ha & Hq & Hna & Hnq).
  assert (c_msg c ≠ a) by (intros <-; destruct Ta; [done|lia]). assert (q ≠ p) by (intros <-; destruct Tp; [done|lia]).
  split; [|done]. eapply held_mono; eauto.
Qed.

Lemma takes_owned m m' a p cs : owned m cs → takes m m' a p → owned m' cs.
Proof.
  intros O T. eapply owned_mono; [exact O| |].
  - intros x Hx. pose proof (t_next _ _ _ _ T). assert (x < nextp m)%nat; [|lia]. apply (o_pool _ _ O). destruct Hx; [left|right]; by eapply T.
  - intros i c q _ _ Hh. by eapply takes_held.
Qed.

Lemma takes_set_obj m m' a p o : takes m m' a p → takes m (set_obj a o m') a p.
Proof. intros [Tn Tm Tr To Ti Ta Tp]. split; cbn; try done. intros b Hb. rewrite lookup_insert_ne by done. auto. Qed.

Lemma takes_set_inv m m' a p r : takes m m' a p → takes m (set_inv p r m') a p.
Proof. intros [Tn Tm Tr To Ti Ta Tp]. split; cbn; try done. intros b Hb. rewrite lookup_insert_ne by done. auto. Qed.

Lemma get_obj_spec ca m a m' p :
  get_obj ca m = (a, m') → (∀ x, x ∈ msgPool m ∨ x ∈ reqPool m → (x < nextp m)%nat) →
  (p ∈ reqPool m ∨ nextp m' ≤ p)%nat → takes m m' a p ∧ (a < nextp m')%nat ∧ a ∉ msgPool m' ∧ reqPool m' = reqPool m ∧ invs m' = invs m.
Proof.
  intros E Hp Hi.
  assert (N : new_obj (MkMsg "" NoBody) m = (a, m') → takes m m' a p ∧ (a < nextp m')%nat ∧ a ∉ msgPool m' ∧ reqPool m' = reqPool m ∧ invs m' = invs m).
  { intros [= <- <-]. cbn in *. split_and!; [split; cbn; auto; try lia|lia|intros ?; specialize (Hp (nextp m)); naive_solver lia|done|done].
    - intros b Hb. by rewrite lookup_insert_ne.
    - destruct Hi; [by left|right; lia]. }
  unfold get_obj in E. destruct ca as [x|]; [|by apply N]. case_bool_decide as Hx; [|by apply N]. injection E as <- <-.
  split_and!; cbn in *; [split; cbn; auto; by intros y [_ ?]%list_elem_of_filter|naive_solver|by intros [? _]%list_elem_of_filter|done|done].
Qed.

Lemma get_inv_spec cp m p m' :
  get_inv cp m = (p, m') → (∀ x, x ∈ msgPool m ∨ x ∈ reqPool m → (x < nextp m)%nat) →
  (p ∈ reqPool m ∨ p = nextp m) ∧ (p < nextp m')%nat ∧ p ∉ reqPool m' ∧ (nextp m ≤ nextp m')%nat ∧ msgPool m' = msgPool m ∧ objs m' = objs m ∧
  (∀ x, x ∈ reqPool m' → x ∈ reqPool m) ∧ ∀ q, q ≠ p → invs m' !! q = invs m !! q.
Proof.
  intros E Hp.
  assert (N : new_inv nilInvoke m = (p, m') → (p ∈ reqPool m ∨ p = nextp m) ∧ (p < nextp m')%nat ∧ p ∉ reqPool m' ∧ (nextp m ≤ nextp m')%nat ∧
    msgPool m' = msgPool m ∧ objs m' = objs m ∧ (∀ x, x ∈ reqPool m' → x ∈ reqPool m) ∧ ∀ q, q ≠ p → invs m' !! q = invs m !! q).
  { intros [= <- <-]. cbn. split_and!; auto; [intros ?; specialize (Hp (nextp m)); naive_solver lia|]. intros q Hq. by rewrite lookup_insert_ne. }
  unfold get_inv in E. destruct cp as [x|]; [|by apply N]. case_bool_decide as Hx; [|by apply N]. injection E as <- <-.
  cbn in *. split_and!; auto; [by intros [? _]%list_elem_of_filter|by intros y [_ ?]%list_elem_of_filter].
Qed.

Lemma acquire_spec ca cp m a p m' :
  acquireStreamMessageInvokeRequest ca cp m = (a, p, m') → (∀ x, x ∈ msgPool m ∨ x ∈ reqPool m → (x < nextp m)%nat) →
  takes m m' a p ∧ (∃ id, objs m' !! a = Some (MkMsg id (InvokeReq p))) ∧ (a < nextp m')%nat ∧ (p < nextp m')%nat ∧ a ∉ msgPool m' ∧ p ∉ reqPool m'.
Proof.
  unfold acquireStreamMessageInvokeRequest. destruct (get_obj ca m) as [x m1] eqn:E1. destruct (get_inv cp m1) as [y m2] eqn:E2.
  intros [= <- <- <-] Hp.
  assert (P1 : ∀ z, z ∈ msgPool m1 ∨ z ∈ reqPool m1 → (z < nextp m1)%nat).
  { destruct (get_obj_spec _ _ _ _ (nextp m1) E1 Hp ltac:(right; lia)) as ([Tn Tm Tr _ _ _ _] & _). intros z [Hz|Hz]; [specialize (Hp z (or_introl (Tm _ Hz)))|specialize (Hp z (or_intror (Tr _ Hz)))]; lia. }
  destruct (get_inv_spec _ _ _ _ E2 P1) as (I1 & I2 & I3 & I4 & I5 & I6 & I7 & I8).
  destruct (get_obj_spec _ _ _ _ (nextp m1) E1 Hp ltac:(right; lia)) as (_ & _ & _ & R & _). rewrite R in I1, I7.
  destruct (get_obj_spec _ _ _ _ y E1 Hp ltac:(destruct I1; [by left|right; lia])) as (T & O2 & O3 & _ & O5).
  split_and!; cbn; try done; [|eexists; apply lookup_insert_eq|lia|by rewrite I5].
  apply takes_set_obj. destruct T as [Tn Tm Tr To Ti Ta Tp]. split; rewrite ?I5, ?I6; auto; [lia|].
  intros q Hq. rewrite I8 by done. auto.
Qed.

Lemma new_obj_takes o m a m' : new_obj o m = (a, m') → takes m m' a (nextp m).
Proof. intros [= <- <-]. split; cbn; auto; try lia. intros b Hb. by rewrite lookup_insert_ne. Qed.

Lemma build_spec w m a m' : build w m = (a, m') → ∃ p, takes m m' a p.
Proof.
  intros E. unfold build in E. destruct (Body w); try (by eexists; eapply new_obj_takes). cbn in E. injection E as <- <-. exists (nextp m).
  split; cbn; auto; try lia; intros b Hb; by rewrite lookup_insert_ne.
Qed.

Lemma owned_Send_start healthy uuid a cb pooled req p m0 s :
  owned m0 (calls s) → takes m0 (memory s) a p →
  (pooled = true → (∃ id, objs (memory s) !! a = Some (MkMsg id (InvokeReq p))) ∧ invs (memory s) !! p = Some req ∧
     (a < nextp (memory s))%nat ∧ (p < nextp (memory s))%nat ∧ a ∉ msgPool (memory s) ∧ p ∉ reqPool (memory s)) →
  owned (memory (Send_start healthy uuid a cb pooled req s)) (calls (Send_start healthy uuid a cb pooled req s)).
Proof.
  intros O T Hp.
  assert (K : ∀ m' pc, takes m0 m' a p →
    (pooled = true → (∃ id, objs m' !! a = Some (MkMsg id (InvokeReq p))) ∧ invs m' !! p = Some req ∧
       (a < nextp m')%nat ∧ (p < nextp m')%nat ∧ a ∉ msgPool m' ∧ p ∉ reqPool m') →
    owned m' (calls s ++ [MkCall a cb pooled req None "" false [] pc])).
  { intros m' pc T' Hp'. apply owned_new; [by eapply takes_owned|]. intros [Hpool _]%andb_true_iff. cbn in Hpool.
    destruct (Hp' Hpool) as ((id & Ho) & Hrest). exists p. split; [split; [by exists id|done]|]. intros i d q Hi Hd Hq.
    destruct (o_held _ _ O _ _ Hi Hd) as (q' & Hq'). destruct (takes_held _ _ _ _ _ _ T' Hq') as (Hq'' & ? & ?).
    by rewrite (held_unique _ _ _ _ Hq Hq''). }
  unfold Send_start. repeat case_match; try by apply K. cbn. apply K; [by apply takes_set_obj|].
  intros E. destruct (Hp E) as ((id & Ho) & Hrest). split; [|done]. cbn. rewrite lookup_insert_eq. unfold obj, with_id. rewrite Ho. cbn. case_bool_decide; eauto.
Qed.

Lemma owned_release m cs i c r :
  owned m cs → cs !! i = Some c → holds c = true →
  owned (releaseStreamMessageInvokeRequest (c_msg c) m) (alter (set_pc (CReleased r)) i cs).
Proof.
  intros O Hc Hh. destruct (o_held _ _ O _ _ Hc Hh) as (p & Hp). pose proof Hp as ((k & Ho & _) & _ & Ha & Hpn & _).
  unfold releaseStreamMessageInvokeRequest, obj. rewrite Ho. cbn [Body default from_option id].
  assert (O' : owned m (alter (set_pc (CReleased r)) i cs)).
  { apply owned_alter; [done|]. intros d Hd. split_and!; [done..| |by left]. unfold holds. cbn. by rewrite andb_false_r. }
  eapply owned_mono; [exact O'| |].
  - cbn. intros x. rewrite !elem_of_cons. pose proof (o_pool _ _ O x). naive_solver.
  - intros j d q Hj Hd Hq. destruct (decide (j = i)) as [-> | Hne].
    { rewrite list_lookup_alter_eq, Hc in Hj. injection Hj as <-. unfold holds in Hd. cbn in Hd. by rewrite andb_false_r in Hd. }
    rewrite list_lookup_alter_ne in Hj by done. destruct (o_apart _ _ O j i d c q p) as (? & ?); try done.
    pose proof Hq as (_ & _ & _ & _ & ? & ?). eapply held_mono; [exact Hq|..]; cbn; rewrite ?lookup_insert_ne by done; auto; by rewrite elem_of_cons; naive_solver.
Qed.

Definition owns (s : conn) : Prop := owned (memory s) (calls s).

Lemma owns_set_call i p s : owns s → (∀ r, p ≠ CReleased r) → (∀ c r, calls s !! i = Some c → c_pc c ≠ CReleased r) → owns (set_call i p s).
Proof.
  intros O Hp Hn. apply owned_alter; [done|]. intros c Hc. split_and!; [done..| |by left]. unfold holds. cbn.
  destruct (c_pooled c); [|done]. case_match; [..|done]; intros _; repeat case_match; try done; naive_solver.
Qed.

Lemma owns_call_step now i s : owns s → owns (call_step now i s).
Proof.
  intros O. unfold call_step. destruct (calls s !! i) as [c|] eqn:Hc; [|done]. destruct (c_pc c) eqn:Hpc.
  - unfold Send_lock. set (o := obj _ _). set (rid := getRequestID _ _).
    assert (K : ∀ reg p, owned (memory s) (alter (register (MessageID o) rid reg p) i (calls s))).
    { intros reg p. apply owned_alter; [done|]. intros d Hd. simplify_eq. split_and!; [done..| |by right].
      unfold holds. rewrite Hpc. cbn. intros [E _]%andb_true_iff. by rewrite E. }
    repeat case_match; by apply K.
  - unfold Send_enqueue. case_match; apply owns_set_call; try done; intros; cbn in *; congruence.
  - case_match; [done|]. apply owned_alter; [done|]. intros d Hd. simplify_eq. split_and!; [done..| |by left].
    unfold holds. cbn. rewrite Hpc. by destruct (c_pooled c).
  - apply owns_set_call; try done; intros; cbn in *; congruence.
  - apply owns_set_call; try done; intros; cbn in *; congruence.
  - destruct (c_pooled c) eqn:Hpool; [|done]. apply owned_release; [done..|]. unfold holds. by rewrite Hpool, Hpc.
  - done.
Qed.

Lemma owns_push p i s : owns s → owned (memory s) (alter (add_pack p) i (calls s)).
Proof. intros O. apply owned_alter; [done|]. intros c _. split_and!; [done..|by left]. Qed.

Lemma owns_step s e : owns s → owns (step s e).
Proof.
  intros O. unfold step. destruct (crashed _); [done|]. destruct e.
  - destruct (build w (memory s)) as [a m] eqn:E. destruct (build_spec _ _ _ _ E) as (p & T). by eapply owned_Send_start.
  - unfold Invoke_start. destruct (acquireStreamMessageInvokeRequest ca cp (memory s)) as [[a p] m] eqn:E.
    destruct (acquire_spec _ _ _ _ _ _ E (o_pool _ _ O)) as (T & Ho & Hrest). eapply owned_Send_start; [exact O|by apply takes_set_inv|].
    intros _. cbn. split; [done|]. split; [apply lookup_insert_eq|done].
  - by apply owns_call_step.
  - unfold timer_fires. repeat case_match; try done. apply owns_set_call; try done. intros; congruence.
  - unfold send_step. repeat case_match; try done; exact (owns_push _ _ _ O).
  - unfold send_stop. by repeat case_match.
  - unfold recv_step, recv_handle. repeat case_match; try done; try exact (owns_push _ _ _ O).
    eapply takes_owned; [exact O|]. by eapply new_obj_takes.
  - unfold repair_step. by repeat case_match.
  - unfold repair_stop. by repeat case_match.
  - unfold Recv. by case_match.
  - unfold user_close, Close. by destruct (closed _).
  - unfold user_close_ch. by case_match.
Qed.

Lemma owns_run s es : owns s → owns (run s es).
Proof. intros. unfold run. apply foldl_inv; [|done]. intros. by apply owns_step. Qed.

Lemma owns_create size p hf rf : owns (CreateStreamConnection size p hf rf).
Proof. split; cbn; [intros a [?%not_elem_of_nil|?%not_elem_of_nil]; done|done|done]. Qed.

(** C36. As long as a call of [Invoke] has not given its message back, no other
    call in progress has that message, and what a send loop writes for it is the
    call's own request, under the identifier the call registered. *)
Theorem held_message_sent size ps hf rf es i c :
  let s := run (CreateStreamConnection size ps hf rf) es in
  calls s !! i = Some c → holds c = true →
  (∀ j d, calls s !! j = Some d → holds d = true → j ≠ i → c_msg d ≠ c_msg c) ∧
  (∀ l rsp healthy id, crashed (hist s) = false → sloops s !! l = Some (MkLoop rsp (SFixed (c_msg c))) → c_id c = Some id →
     wire (hist (step s (ESendLoop l healthy None))) = (wire (hist s) ++ [MkMsg id (InvokeReq (c_req c))])%list).
Proof.
  intros s Hc Hh. pose proof (owns_run _ es (owns_create size ps hf rf)) as O. fold s in O.
  destruct (o_held _ _ O _ _ Hc Hh) as (p & Hp). split.
  - intros j d Hd Hdh Hne. destruct (o_held _ _ O _ _ Hd Hdh) as (q & Hq). by destruct (o_apart _ _ O j i d c q p).
  - intros l rsp healthy id Hcr Hl Hid. destruct Hp as ((id' & Ho & Hi) & Hv & _). unfold step, send_step. rewrite Hcr, Hl.
    cbn. unfold marshal, obj, inv. rewrite Ho. cbn. rewrite Hv. cbn. by rewrite (Hi _ Hid).
Qed.

(** ** Runs that go wrong *)

(** One loop of each kind, with both functions. *)
Definition one : conn := CreateStreamConnection 10 (MkParams 1 1 1) true true.
Definition invoke (rid mid f : string) (ca cp : option nat) : event :=
  EInvoke ca cp "x" "y" mid true f "i" [] (MkInvokeParams rid "t").
Definition sends (n : nat) : list event := replicate n (ESendLoop 0 true None).

(** The message of a call that timed out is still queued when it goes back to
    the pool: another call takes it, and its request is sent twice. *)
Example timed_out_message_resent :
  let s := run one ([invoke "r1" "m1" "f" None None; ECall 0 0; ECall 0 0; ETimer 0; ECall 0 0; ECall 0 0; ECall 0 0;
    invoke "r2" "m2" "g" (Some 0%nat) (Some 1%nat); ECall 0 1; ECall 0 1] ++ sends 8) in
  wire (hist s) = [MkMsg "m2" (InvokeReq (MkInvoke "g" [] "i" "r2" "t")); MkMsg "m2" (InvokeReq (MkInvoke "g" [] "i" "r2" "t"))].
Proof. vm_compute. reflexivity. Qed.

(** Nobody took it: an empty message is sent, and the receive loop of the peer
    panics on it, because the type of a nil body has no name. *)
Example empty_message_crashes :
  let s := run one ([invoke "r1" "m1" "f" None None; ECall 0 0; ECall 0 0; ETimer 0; ECall 0 0; ECall 0 0; ECall 0 0] ++ sends 3) in
  wire (hist s) = [MkMsg "" NoBody] ∧
  crashed (hist (run one [ERecvLoop 0 true None; ERecvLoop 0 true None; ERecvLoop 0 true (Some (MkMsg "" NoBody)); ERecvLoop 0 true None])) = true.
Proof. vm_compute. auto. Qed.

(** A request identifier in use is refused after the acknowledgement channel was
    recorded, and nothing removes it. *)
Example refused_call_leaks_ack :
  let s := run one [invoke "r1" "m1" "f" None None; ECall 0 0; invoke "r1" "m2" "f" None None; ECall 0 1; ECall 0 1; ECall 0 1] in
  (c_pc <$> calls s !! 1%nat) = Some (CReleased (Err ErrRequestIDAlreadyExist)) ∧ sendAckRecord (tabs s) !! "m2" = Some 1%nat.
Proof. vm_compute. auto. Qed.

(** The stream rejects a request; its callback stays recorded, and the next
    attempt with the identifier is refused. *)
Example failed_send_keeps_callback :
  let s := run one [invoke "r1" "m1" "f" None None; ECall 0 0; ECall 0 0; ESendLoop 0 true None; ESendLoop 0 true None;
    ESendLoop 0 true (Some "broken"); ESendLoop 0 true None; ESendLoop 0 true None; ECall 0 0; ECall 0 0; ECall 0 0;
    invoke "r1" "m2" "f" None None; ECall 0 1] in
  (c_pc <$> calls s !! 0%nat) = Some (CReleased (Err (ErrStream "broken"))) ∧
  (c_pc <$> calls s !! 1%nat) = Some (CDone (Err ErrRequestIDAlreadyExist)).
Proof. vm_compute. auto. Qed.

(** ** Witnesses *)

(** The stream breaks on a request, the repair fails, and the loops wait. *)
Definition broken_run : list event :=
  [invoke "r1" "m1" "f" None None; ECall 0 0; ECall 0 0; ESendLoop 0 true None; ESendLoop 0 true None;
   ESendLoop 0 true (Some "broken"); ESendLoop 0 true None; ESendLoop 0 true None; ESendLoop 0 true None; ESendLoop 0 true None;
   ERepair None; ERepair None; ERecvLoop 0 true None; ERecvLoop 0 true None].

Lemma broken_run_stranded : stranded (run one broken_run).
Proof.
  assert (Hs : sloops (run one broken_run) = [MkLoop false SIdle; MkLoop true SIdle]) by (vm_compute; reflexivity).
  assert (Hr : rloops (run one broken_run) = [RWaiting]) by (vm_compute; reflexivity).
  unfold stranded. rewrite Hs, Hr. split_and!; try (vm_compute; reflexivity); [left; vm_compute; reflexivity|by repeat constructor..].
Qed.

Lemma failed_repair_strands_witness :
  rloops (run (run one broken_run) [EClose; ECloseCh; ERecvLoop 0 true None]) !! 0%nat = Some RWaiting.
Proof.
  assert (E : rloops (run one broken_run) !! 0%nat = Some RWaiting) by (vm_compute; reflexivity).
  exact (proj2 (proj2 (proj2 (proj2 (failed_repair_strands _ [EClose; ECloseCh; ERecvLoop 0 true None] broken_run_stranded)))) 0%nat E).
Defined.

Definition sent_run : list event := [invoke "r1" "m1" "f" None None; ECall 0 0; ECall 0 0; ESendLoop 0 true None; ESendLoop 0 true None].

Lemma held_message_sent_witness :
  wire (hist (step (run one sent_run) (ESendLoop 0 true None))) = [MkMsg "m1" (InvokeReq (MkInvoke "f" [] "i" "r1" "t"))].
Proof.
  assert (E1 : calls (run one sent_run) !! 0%nat = Some (MkCall 0 true true (MkInvoke "f" [] "i" "r1" "t") (Some "m1") "r1" true [] CWait)) by (vm_compute; reflexivity).
  assert (E2 : crashed (hist (run one sent_run)) = false) by (vm_compute; reflexivity).
  assert (E3 : sloops (run one sent_run) !! 0%nat = Some (MkLoop false (SFixed 0))) by (vm_compute; reflexivity).
  assert (E4 : wire (hist (run one sent_run)) = []) by (vm_compute; reflexivity).
  pose proof (proj2 (held_message_sent _ _ _ _ sent_run 0 _ E1 eq_refl) 0%nat false true "m1" E2 E3 eq_refl) as H.
  change (CreateStreamConnection _ _ _ _) with one in H. rewrite E4 in H. exact H.
Defined.
