(* ===== verification/KernelRpc.v ===== *)
(** * Client and server of the kernel RPC (pkg/common/faas_common/kernelrpc/rpcclient, rpcserver)

    Above the stream connections: dialling with retries, the synchronous
    invocation, and the server that answers invoke requests and keeps its
    connections until it stops. *)

From S2P Require Import Prelude GoStrings KernelStream.
Open Scope string_scope.

Definition Second : Z := 1000000000.
Definition dialTimeout : Z := 5 * Second.
Definition dialRetryTime : nat := 10.
Definition dialRetryInterval : Z := 3 * Second.

(** ** Dialling *)

Inductive connectivity := Idle | Connecting | Ready | TransientFailure | Shutdown.
#[global] Instance connectivity_eq_dec : EqDecision connectivity.
Proof. solve_decision. Defined.

(** The state of a connection of the client, if there is one. *)
Definition checkClientConnHealth (c : option connectivity) : bool :=
  match c with Some Idle | Some Ready => true | _ => false end.

Section Dial.
  Context {C : Type}.
  (** [grpc.DialContext] with the context of [dialConnection]: the outcome of a
      call at a time since the context was made, and when it returns. *)
  Variable dial : Z → res string C * Z.

Fixpoint dial_loop (n i : nat) (now : Z) (last : string) : res string C * Z :=
  match n with
  | O => (Err last, now)
  | S n =>
      let (r, t) := dial now in
      match r with
      | Ok c => (Ok c, t)
      | Err e => dial_loop n (S i) (t + Z.of_nat (i + 1) * dialRetryInterval) e
      end
  end.

(** One context, with one deadline, for all attempts. *)
Definition dialConnection : res string C * Z := dial_loop dialRetryTime 0 0 "".

  (** A call returns after it starts, and fails once the context is done. *)
  Hypothesis dial_forward : ∀ t, (t ≤ (dial t).2)%Z.
  Hypothesis dial_deadline : ∀ t, (dialTimeout ≤ t)%Z → ∃ e, (dial t).1 = Err e.

(** The time the loop sleeps when its attempts fail. *)
Fixpoint sleeps (n i : nat) : Z :=
  match n with O => 0 | S n => Z.of_nat (i + 1) * dialRetryInterval + sleeps n (S i) end.

Lemma dial_loop_late n i now last : (dialTimeout ≤ now)%Z →
  ∃ e t, dial_loop n i now last = (Err e, t) ∧ (now + sleeps n i ≤ t)%Z.
Proof.
  revert i now last. induction n as [|n IH]; intros i now last Hnow; [eexists _, _; split; [done|cbn; lia]|]. cbn [dial_loop sleeps].
  pose proof (dial_forward now) as Hf. destruct (dial_deadline now Hnow) as (e & He). destruct (dial now) as [r t]. cbn in Hf, He. subst r.
  assert (0 < dialRetryInterval)%Z by (unfold dialRetryInterval, Second; lia).
  destruct (IH (S i) (t + Z.of_nat (i + 1) * dialRetryInterval)%Z e) as (e' & t' & -> & Ht); [nia|].
  eexists _, _. split; [done|]. lia.
Qed.

(** The ten attempts share one context of five seconds: when the first two
    fail, the other eight fail too, whatever the peer does, and the caller gets
    the error no sooner than 165 seconds after it asked. *)
Theorem late_dials_fail e1 t1 e2 t2 :
  dial 0 = (Err e1, t1) → dial (t1 + dialRetryInterval) = (Err e2, t2) →
  ∃ e t, dialConnection = (Err e, t) ∧ (165 * Second ≤ t)%Z.
Proof.
  intros H1 H2. pose proof (dial_forward 0) as F1. pose proof (dial_forward (t1 + dialRetryInterval)) as F2. rewrite H1 in F1. rewrite H2 in F2. cbn [snd] in F1, F2.
  unfold dialConnection, dialRetryTime. cbn [dial_loop]. rewrite H1. change (Z.of_nat (0 + 1) * dialRetryInterval)%Z with dialRetryInterval. rewrite H2.
  change (Z.of_nat (1 + 1) * dialRetryInterval)%Z with (6 * Second)%Z.
  destruct (dial_loop_late 8 2 (t2 + 6 * Second) e2) as (e & t & E & Ht); [unfold dialTimeout, dialRetryInterval, Second in *; lia|].
  exists e, t. split; [exact E|]. change (sleeps 8 2) with (156 * Second)%Z in Ht. unfold dialRetryInterval, Second in *. lia.
Qed.
End Dial.

(** The peer answers only after the sixth second. *)
Definition slow_dial (t : Z) : res string unit * Z :=
  if (dialTimeout <=? t)%Z then (Err "context deadline exceeded", t) else (Err "context deadline exceeded", dialTimeout).

Lemma late_dials_fail_witness : ∃ e t, dialConnection slow_dial = (Err e, t) ∧ (165 * Second ≤ t)%Z.
Proof.
  apply (late_dials_fail slow_dial) with (e1 := "context deadline exceeded") (t1 := dialTimeout) (e2 := "context deadline exceeded") (t2 := (8 * Second)%Z).
  - intros t. unfold slow_dial. destruct (dialTimeout <=? t)%Z eqn:E; cbn; lia.
  - intros t Ht. exists "context deadline exceeded". unfold slow_dial. apply Z.leb_le in Ht. by rewrite Ht.
  - reflexivity.
  - reflexivity.
Defined.

(** [createStream]: [open k] is the outcome of the [k]-th call of [MessageStream]. *)
Section Stream.
  Context {S : Type}.
  Variable open : nat → res string S.

Fixpoint open_loop (n k : nat) (last : string) : res string S * nat :=
  match n with
  | O => (Err last, k)
  | Datatypes.S n => match open k with Ok st => (Ok st, Datatypes.S k) | Err e => open_loop n (Datatypes.S k) e end
  end.
Definition createStream (c : option connectivity) : res string S * nat :=
  if checkClientConnHealth c then open_loop dialRetryTime 0 "" else (Err "conn is unhealthy", 0%nat).

(** [BasicSteamClient.repairStream]: the state of the connection of the client,
    the state of a new one if dialling gives one. *)
Definition repairStream (c : connectivity) (redial : res string connectivity) : option S :=
  if checkClientConnHealth (Some c) then match (createStream (Some c)).1 with Ok st => Some st | Err _ => None end
  else match redial with
    | Err _ => None
    | Ok c' => match (createStream (Some c')).1 with Ok st => Some st | Err _ => None end
    end.

Lemma open_loop_ok n k last st k' : open_loop n k last = (Ok st, k') → ∃ j, (k ≤ j < k + n)%nat ∧ open j = Ok st ∧ k' = Datatypes.S j ∧ ∀ i, (k ≤ i < j)%nat → ∃ e, open i = Err e.
Proof.
  revert k last. induction n as [|n IH]; intros k last; [done|]. cbn. destruct (open k) as [st'|e] eqn:E.
  - intros [= -> <-]. exists k. split_and!; try done; lia.
  - intros (j & Hj & Hok & -> & Hall)%IH. exists j. split_and!; try done; try lia. intros i Hi.
    destruct (decide (i = k)) as [-> | ?]; [eauto|]. apply Hall. lia.
Qed.
End Stream.

(** ** Synchronous invocation *)

Definition defaultTimeout : Z := 900 * Second.
Definition CalibrateTransportParams (timeout : Z) : Z := if (timeout =? 0)%Z then defaultTimeout else timeout.

Notation snerror := (Z * string)%type.
Definition ErrKernelClientTimeout : snerror := (330404, "kernel rpcclient timeout")%Z.

(** What the [select] takes: the timer, or a result that the callback left. *)
Inductive wake := Fired | Woken (r : res snerror string).

Section Sync.
  (** The error of the [k]-th call of [asyncInvoke], if it fails. *)
  Variable asyncInvoke : nat → option snerror.
  Variable retryNumber : Z.

(** [calls] counts the calls of [asyncInvoke] so far; [None]: it still waits. *)
Fixpoint sync_loop (ws : list wake) (calls : nat) (retryCount : Z) : option (res snerror string) * nat :=
  match ws with
  | [] => (None, calls)
  | Fired :: _ => (Some (Err ErrKernelClientTimeout), calls)
  | Woken (Ok data) :: _ => (Some (Ok data), calls)
  | Woken (Err e) :: ws =>
      let retryCount := wrapS 64 (retryCount + 1) in
      if (retryCount <=? retryNumber)%Z then
        match asyncInvoke calls with
        | Some e => (Some (Err e), S calls)
        | None => sync_loop ws (S calls) retryCount
        end
      else (Some (Err e), calls)
  end.

Definition SyncInvoke (ws : list wake) : option (res snerror string) * nat :=
  match asyncInvoke 0 with
  | Some e => (Some (Err e), 1%nat)
  | None => sync_loop ws 1 0
  end.

Lemma sync_loop_calls ws n k : (0 ≤ k ≤ Z.max 0 retryNumber)%Z → (retryNumber < 2 ^ 63 - 1)%Z → Z.of_nat n = (k + 1)%Z →
  (Z.of_nat (sync_loop ws n k).2 ≤ 1 + Z.max 0 retryNumber)%Z.
Proof.
  revert n k. induction ws as [|[|[d|e]] ws IH]; intros n k Hk Hr Hn; cbn [sync_loop snd]; try lia.
  rewrite wrapS_small by lia. destruct (k + 1 <=? retryNumber)%Z eqn:E; cbn [snd]; [|lia]. apply Z.leb_le in E.
  destruct (asyncInvoke n); cbn [snd]; [lia|]. apply IH; lia.
Qed.

(** A loop that is fed as many errors as it may retry, and one more, returns. *)
Lemma sync_loop_returns ws n k : (0 ≤ k)%Z → (retryNumber < 2 ^ 63 - 1)%Z → (k ≤ Z.max 0 retryNumber)%Z →
  (Z.max 0 retryNumber - k < Z.of_nat (length ws))%Z → ∃ r, (sync_loop ws n k).1 = Some r.
Proof.
  revert n k. induction ws as [|[|[d|e]] ws IH]; intros n k Hk Hr Hm Hl; cbn [sync_loop fst length] in *; [lia|eauto..|].
  rewrite wrapS_small by lia. destruct (k + 1 <=? retryNumber)%Z eqn:E; [|eauto]. apply Z.leb_le in E.
  destruct (asyncInvoke n); [eauto|]. apply IH; lia.
Qed.

(** A synchronous invocation invokes at most once and then once for each
    allowed retry, and returns once it was woken once more than it may retry. *)
Theorem sync_invoke_bounded ws :
  (retryNumber < 2 ^ 63 - 1)%Z →
  (1 ≤ Z.of_nat (SyncInvoke ws).2 ≤ 1 + Z.max 0 retryNumber)%Z ∧
  (1 + Z.max 0 retryNumber ≤ Z.of_nat (length ws) → ∃ r, (SyncInvoke ws).1 = Some r)%Z.
Proof.
  intros Hr. unfold SyncInvoke. destruct (asyncInvoke 0); cbn [fst snd]; [split; [lia|eauto]|]. split; [split|].
  - assert (H : ∀ n k, (n ≤ (sync_loop ws n k).2)%nat).
    { clear. induction ws as [|[|[d|e]] ws IH]; intros n k; cbn [sync_loop snd]; try lia. repeat case_match; cbn [snd]; try lia.
      etrans; [|apply IH]. lia. }
    specialize (H 1%nat 0%Z). lia.
  - apply sync_loop_calls; lia.
  - intros Hl. apply sync_loop_returns; lia.
Qed.
End Sync.

Lemma sync_invoke_bounded_witness :
  ∃ r, (SyncInvoke (λ _, None) 1 [Woken (Err (1, "busy")%Z); Woken (Ok "data")]).1 = Some r.
Proof. apply (sync_invoke_bounded (λ _, None) 1); cbn; lia. Defined.

(** ** The server *)

Definition ERR_USER_FUNCTION_EXCEPTION : Z := 2002.

(** [handleRequest]: the message it sends back; the handler may be missing. *)
Definition handleRequest (invokeHandler : option (list (Z * string) → string → res string string)) (msg : message) : option message :=
  match Body msg with
  | InvokeReq req =>
      Some (MkMsg (MessageID msg)
        match invokeHandler with
        | None => InvokeRsp ERR_USER_FUNCTION_EXCEPTION "invoke handler is nil"
        | Some h => match h (Args req) (TraceID req) with
            | Err e => InvokeRsp ERR_USER_FUNCTION_EXCEPTION e
            | Ok rsp => InvokeRsp 0 rsp
            end
        end)
  | _ => None
  end.

(** An RPC of the server: the connection of a peer, and its [MessageStream]. *)
Record rpc := MkRpc { peer : string; conn_closed : bool; handler_done : bool }.

(** Where [Stop] is: before the lock, in [GracefulStop], closing the connections. *)
Inductive stop_pc := Running | Graceful | ClosingConns | Stopped.

Record server := MkServer { streamConnMap : gmap string nat; rpcs : list rpc; stopped : bool; stop : stop_pc }.
Definition CreateSimplifiedStreamServer : server := MkServer ∅ [] false Running.

Definition close_conn (r : rpc) : rpc := MkRpc (peer r) true (handler_done r).
Definition end_handler (r : rpc) : rpc := MkRpc (peer r) (conn_closed r) true.

Inductive server_event :=
| VConnect (peerAddr : string)
| VBroken (k : nat)
| VHandler (k : nat)
| VStop.

(** [MessageStream] up to its loop: a new RPC is served unless the server was
    asked to stop. *)
Definition MessageStream_open (p : string) (s : server) : server :=
  match stop s with
  | Running => MkServer (<[p := length (rpcs s)]> (streamConnMap s)) (rpcs s ++ [MkRpc p false false])%list (stopped s) (stop s)
  | _ => s
  end.

(** It returns when its connection is closed ([stopCh] is never closed), and
    removes the entry of its peer. *)
Definition MessageStream_return (k : nat) (s : server) : server :=
  match rpcs s !! k with
  | Some (MkRpc p true false) => MkServer (delete p (streamConnMap s)) (alter end_handler k (rpcs s)) (stopped s) (stop s)
  | _ => s
  end.

(** A step of [Stop]: [GracefulStop] returns when no handler is left, and then
    the connections of the map are closed. *)
Definition Stop (s : server) : server :=
  match stop s with
  | Running => if stopped s then s else MkServer (streamConnMap s) (rpcs s) true Graceful
  | Graceful => if forallb handler_done (rpcs s) then MkServer (streamConnMap s) (rpcs s) (stopped s) ClosingConns else s
  | ClosingConns =>
      MkServer (streamConnMap s) (map_fold (λ _ k l, alter close_conn k l) (rpcs s) (streamConnMap s)) (stopped s) Stopped
  | Stopped => s
  end.

(** A connection without [repairFunc] is closed when its stream breaks. *)
Definition server_step (s : server) (e : server_event) : server :=
  match e with
  | VConnect p => MessageStream_open p s
  | VBroken k => MkServer (streamConnMap s) (alter close_conn k (rpcs s)) (stopped s) (stop s)
  | VHandler k => MessageStream_return k s
  | VStop => Stop s
  end.
Definition server_run (s : server) (es : list server_event) : server := foldl server_step s es.

(** A request is answered under its own identifier, with a message the
    receive loop of the client hands to the call that waits for it, and that
    the send loop of the server acknowledges once it is written. *)
Theorem answer_correlated h msg reply :
  handleRequest h msg = Some reply →
  MessageID reply = MessageID msg ∧ kind_of (Body reply) = KResponse ∧ expectResponse (Body reply) = false ∧ kind_of (Body msg) = KRequest.
Proof. unfold handleRequest. destruct (Body msg); intros [=]; subst reply. destruct h as [f|]; [destruct (f _ _)|]; done. Qed.

Lemma answer_correlated_witness :
  MessageID (MkMsg (I := InvokeRequest) "m1" (InvokeRsp 0 "ok")) = "m1".
Proof.
  exact (proj1 (answer_correlated (Some (λ _ _, Ok "ok")) (MkMsg "m1" (InvokeReq (MkInvoke "f" [] "i" "r" "t"))) (MkMsg "m1" (InvokeRsp 0 "ok")) eq_refl)).
Defined.

(** A stream of a peer that is open. *)
Definition open_rpc (s : server) (k : nat) : Prop := ∃ r, rpcs s !! k = Some r ∧ conn_closed r = false ∧ handler_done r = false.

Lemma stop_blocked_step s e k :
  open_rpc s k → stop s = Graceful → e ≠ VBroken k → open_rpc (server_step s e) k ∧ stop (server_step s e) = Graceful.
Proof.
  intros (r & Hr & Hc & Hd) Hs He. destruct e as [p|j|j|]; cbn; unfold MessageStream_open, MessageStream_return, Stop; rewrite ?Hs.
  - split; [by exists r|done].
  - split; [|done]. exists r. cbn. rewrite list_lookup_alter_ne by congruence. done.
  - destruct (rpcs s !! j) as [[p [] []]|] eqn:Hj; split; try done; try by exists r.
    exists r. cbn. rewrite list_lookup_alter_ne; [done|]. intros ->. rewrite Hr in Hj. by simplify_eq.
  - destruct (forallb handler_done (rpcs s)) eqn:E; [|split; [by exists r|done]].
    rewrite forallb_forall in E. apply list_elem_of_lookup_2 in Hr. apply list_elem_of_In in Hr. rewrite (E _ Hr) in Hd. done.
Qed.

(** [Stop] waits for the handlers before it closes the connections they
    wait for: as long as the peer of one open stream keeps it open, [Stop] does
    not return and that connection is not closed. *)
Theorem stop_waits_for_peers s es k :
  open_rpc s k → stop s = Graceful → (∀ e, e ∈ es → e ≠ VBroken k) →
  open_rpc (server_run s es) k ∧ stop (server_run s es) = Graceful.
Proof.
  intros Ho Hs He. unfold server_run. apply (foldl_inv (λ s, open_rpc s k ∧ stop s = Graceful)); [|done].
  intros s' e Hin (Ho' & Hs'). apply stop_blocked_step; auto.
Qed.

Lemma stop_waits_for_peers_witness :
  stop (server_run (server_run CreateSimplifiedStreamServer [VConnect "a"; VConnect "b"; VStop]) [VBroken 0; VHandler 0; VStop; VStop]) = Graceful.
Proof.
  apply (stop_waits_for_peers _ _ 1); [|reflexivity|].
  - by exists (MkRpc "b" false false).
  - intros e He. repeat (apply elem_of_cons in He as [-> | He]; [done|]). by apply not_elem_of_nil in He.
Defined.
